(* ===== verification/_CoqProject ===== *)
-Q . S2P
Prelude.v
Proto.v
RaftLog.v
RaftNode.v
RaftSpec.v
Storage.v
Server.v
NodeFacts.v
HostFacts.v
Cluster.v
Bytes.v
WalRecords.v
CrashStorage.v
Safety.v
Runs.v
MapSM.v
KVServer.v
DiskLog.v
DiskLogFacts.v
DiskRecovery.v
DiskLogSpec.v
DiskRuns.v
Bloom.v
SkipList.v
SSTable.v
SSTableFacts.v
SSTableSpec.v
SimInvariant.v
Checker.v
CheckerFacts.v
Manifest.v
ManifestFacts.v
ManifestRuns.v
Heap.v
Merge.v
MergeFacts.v
MergeSpec.v
EngineState.v
TableReads.v
Engine.v
EngineFrames.v
EngineSteps.v
EngineInv.v
EngineCommit.v
EngineOps.v
EngineOpen.v
EngineReopen.v
Client.v
EngineSpec.v
EngineRuns.v
LsmSM.v
LsmSpec.v
SimFS.v
SimFSFacts.v
SimFSSpec.v
SimFSAppend.v
SimFSRuns.v
Float64.v
Bench.v
BenchFacts.v
FaultSchedule.v
Workload.v
SimLoop.v
SimBuild.v
SimStore.v
WorkloadFacts.v
SimCluster.v
SimFrame.v
SimRefine.v
SimSafety.v
SimTime.v
SimRuns.v
Linearize.v
SimWork.v
SimHistory.v
SimLinearizable.v
FaultGen.v
FaultGenFacts.v
SimHarness.v
SimHarnessFacts.v
