(* ===== verification/Prelude.v ===== *)
(** * MiniQuorum: a verification development

    MiniQuorum is a replicated key-value store in Go.  Its parts, and how they interact:

    - internal/raft is a deterministic Raft core: a node takes ticks, messages and proposals
      and hands out [Ready] batches (hard state and entries to persist, messages to send,
      committed entries to apply) that its host acknowledges with [Advance].
    - internal/server is the host: it saves a batch to the storage, sends, applies,
      acknowledges; KVApplier and KVService connect client requests with applied entries.
    - internal/storage is the storage interface of the host, with a volatile implementation;
      internal/storage/disklog is the write-ahead log; sim/crashstorage.go is the storage
      of the simulator, with crashes.
    - internal/statemachine and mapsm are the state machine with its dedup table;
      internal/lsm is the persistent one: a log-structured merge engine (memtable skip list,
      sorted string tables with Bloom filters, manifest, compaction) with a state machine
      on top and a simulated file system below.
    - sim is a deterministic simulator: hosts over the crash storage, an event queue in
      virtual time, scheduled faults (lost and repeated messages, partitions, pauses, skewed
      clocks, crashes), checks of invariants after every event; sim/workload drives clients
      on it and checker records their histories for a linearizability search;
      sim/faultgen.go draws schedules and internal/simharness runs seeds and batches.
    - cmd/mqctl is the client, cmd/miniquorumd the daemon; bench measures the engine and
      validates the results.

    ** Files

    Prelude.v: machine integers, results, the search of the standard library, list lemmas.
    Proto.v: the messages of proto/*.proto.

    - Raft: RaftLog.v (log.go), RaftNode.v (raft.go, commit_rule.go), Storage.v (storage.go;
      classes [Storage], [StorageSpec], [CrashSafe]), Server.v (server.go, recovery.go).
      RaftSpec.v is the abstract protocol with its invariants; NodeFacts.v and HostFacts.v
      show that each handler and each Ready cycle is a sequence of its steps; Cluster.v is
      the cluster of hosts over a network that loses, repeats and reorders messages, with
      crashes between and inside saves; Safety.v has the theorems, Runs.v an executor and
      computed runs that witness them.
    - Storages: Bytes.v (encoding/binary, CRC-32C), WalRecords.v (the records of a batch),
      CrashStorage.v (sim/crashstorage.go), DiskLog.v (disklog.go) with DiskLogFacts.v,
      DiskRecovery.v, DiskLogSpec.v and DiskRuns.v.
    - State machine and clients: MapSM.v (mapsm.go), KVServer.v (waiter.go, kv_service.go),
      Client.v (the flags, commands and attempts of cmd/mqctl and cmd/miniquorumd).
    - LSM: Bloom.v, SkipList.v, SSTable.v (SSTableFacts.v, SSTableSpec.v), Manifest.v
      (ManifestFacts.v, ManifestRuns.v), Heap.v, Merge.v, MergeFacts.v and MergeSpec.v (the
      merge of compaction.go), EngineState.v and Engine.v (engine.go and the compactions of
      compaction.go), with TableReads.v, EngineFrames.v, EngineSteps.v, EngineInv.v,
      EngineCommit.v, EngineOps.v, EngineOpen.v, EngineReopen.v, EngineSpec.v and
      EngineRuns.v; LsmSM.v (statemachine.go), LsmSpec.v.
    - Simulated file system: SimFS.v (fs_sim.go), SimFSFacts.v, SimFSSpec.v, SimFSAppend.v,
      SimFSRuns.v.
    - Simulator: Float64.v (the float64 operations that the code uses, with bounds on their
      rounding), FaultSchedule.v (sim/faultschedule.go), Workload.v (sim/workload), SimLoop.v
      and SimBuild.v (sim/sim.go, ready.go, event.go, workload.go, rand.go, seedrunner.go),
      SimInvariant.v (sim/invariant.go).  SimStore.v, WorkloadFacts.v, SimCluster.v,
      SimFrame.v and SimRefine.v relate every event of a simulation to steps of Cluster.v;
      SimTime.v shows that the virtual clock never goes back and that the loop of a run
      ends; SimSafety.v and SimRuns.v have the theorems and computed runs.
    - Linearizability: Checker.v and CheckerFacts.v (checker/history.go, checker/model.go);
      Linearize.v is the abstract argument (operations that take effect once, in log order,
      between call and return), SimWork.v, SimHistory.v and SimLinearizable.v apply it to
      the histories of a simulated run.
    - Harness: FaultGen.v and FaultGenFacts.v (sim/faultgen.go), SimHarness.v and
      SimHarnessFacts.v (internal/simharness: run.go, batch.go, corpus.go).
    - Benchmark results: Bench.v and BenchFacts.v (bench/types.go, profile.go, validate.go
      and the computations of collect.go).

    ** How the code is modelled

    A struct is a record and an operation a function of it; a method that mutates returns
    the new value.  Where pointers are shared (skip-list nodes, inodes, reply channels) the
    model keeps a store of cells and addresses.  [uint64] and [int64] values are [Z] with
    their wrap-around written out ([+u], [-u], [+i]); a float64 is a [spec_float] with its
    rounding.  Errors are values with a fixed text, without the formatted arguments.  The
    engine is written in a state monad [M] over the [Store] of its files and its own fields.
    A mutex has no counterpart: every definition is a critical section of the code.  The
    simulator is generic in the state machine (class [SimEngine]) and the workload in its
    host (a class too), as the interfaces of the code are.

    Code of other packages is a parameter: [marshal] and [unmarshal] stand for proto.Marshal
    and proto.Unmarshal, of which the theorems assume that what was marshalled unmarshals to
    itself; Porcupine's search is [checkEvents]; JSON and the files of a corpus, the reply of
    an RPC and the draws of a random source are arguments, over which the theorems
    quantify (of a draw they assume the documented range).  The checksums and hashes of
    Go's standard library (CRC-32C, FNV) are written out.  What the operating system answers
    to a file operation is an argument too ([OS], [ManifestFS], [answers]): the theorems hold
    for every sequence of answers, errors and partial writes included.

    ** What the theorems show

    - C1 to C9: of the cluster, over any storage with the contract [CrashSafe]: what was
      applied agrees between nodes and over time, election safety, leader completeness, log
      matching, refinement of the abstract protocol, stability of what was applied,
      durability of votes and acknowledgements, and that a host never runs ahead of its
      storage.
    - C10, C11, C25, C26: the write-ahead log keeps the contract, so that the cluster
      theorems hold over it; a crash loses nothing that a Save reported, what Open returns
      is durable, a failed Save poisons the log.
    - C12 to C14: every event of a simulation is a sequence of steps of the cluster, so, with
      the map state machine, the histories of the clients are linearizable, the run of a
      seed with a generated schedule ends, and the checks of the simulator and the search do
      not report a violation.  The clock of such a run is proved never to go back; this
      takes a configuration without negative delays and scenario calls that schedule nothing
      for a time that has passed.
    - C15 to C19: the LSM state machine gives the results and the digest of the map state
      machine over any number of crashes and replays; the engine refines a set of accepted
      writes, keeps what a flush reported, opens again, and its loops end.
    - C20 to C24: exactly-once application, the map, the replies to clients, and a client that
      finds the leader.
    - C27 to C33: tables, merge, Bloom filter, skip list and manifest.
    - C34, C35: the simulated file system is consistent and its calls return, and a crash
      of it is a crash in the sense that the manifest and the engine were proved against, as
      long as no write of no bytes is made past the end of a file: the code accepts such a
      write, and a crash after it can panic ([simfs_empty_write_panics]).
    - C36, C37: a generated fault schedule is valid and every fault in it is undone.
    - C38: the events given to the linearizability search keep the real-time order.
    - C39, C40: the validation of benchmark results is exact; quantiles are in order.

    ** Bounds and fuel

    Terms, log indices, engine sequence numbers and generations are assumed to stay below
    the maximum of their type in the runs considered (a counter that starts at 0 does not
    reach it); lengths of byte strings stay below the maximum of [int64].  Loops that are
    not structural take fuel that their own callers supply from the size of the data
    (bytes left to parse, records of the tables to merge, tables and memtables present);
    the theorems on them are proved at that fuel, and [engine_loops_end] and
    [merge_terminates] show that it never runs out.  The loops of a simulation, [sim_Run] and
    [RunSeed], take the number of events and of slices that they may handle, and [None] is a
    run that had too few.  That some number is enough is a theorem ([bounded_ends] and C13):
    an event schedules later events, or events of the same time and a lower rank, so the
    queue goes down in the order of multisets.  It is proved for times of at most 2^61
    milliseconds, message delays of at least one, tick intervals of at most 100 and clock
    skews that [SetClockSkew] accepts, for which the clock cannot leave its 64 bits.  The
    terms, indices and sizes of the events of a simulation are among the ranges assumed
    above ([event_fits], [seed_in_range]); so is the clock of a run of C12 ([clock_fits]).

    ** Not modelled

    - internal/transport and internal/clock: gRPC calls and timers, without a decision of
      their own.  The network is the environment of Cluster.v.
    - internal/lsm/fs_real.go and bench_fs.go: calls of the os package.
    - the process set-up, signals and printing of cmd; the measurements of bench/collect.go,
      the files of bench/raw_io.go and the SVG text of bench/graph.go.
    - internal/simharness/artifacts.go: files and JSON that describe a failed run.
    - proto: generated code; the JSON encoding of fault schedules.
    - Porcupine's search, the descriptions that only serve display, and the test hooks. *)


From Stdlib Require Import Strings.Byte.
From stdpp Require Export base decidable gmap fin_maps sets strings numbers tactics list_numbers list.

#[global] Open Scope Z_scope.

(** * Machine integers

    Go's [uint64], [uint32] and [int] are kept in [Z].  Every operation that can
    leave the range is written with its wrap-around. *)

Declare Scope go_scope.
Delimit Scope go_scope with go.

Definition max_u64 : Z := 18446744073709551615.
Definition max_u32 : Z := 4294967295.
Definition max_i64 : Z := 9223372036854775807.

Definition u64 (z : Z) : Z := z mod 18446744073709551616.
Definition u32 (z : Z) : Z := z mod 4294967296.
Definition i64 (z : Z) : Z := (z + 9223372036854775808) mod 18446744073709551616 - 9223372036854775808.

Definition u64_add (a b : Z) : Z := u64 (a + b).
Definition u64_sub (a b : Z) : Z := u64 (a - b).
Definition u64_mul (a b : Z) : Z := u64 (a * b).
Definition i64_add (a b : Z) : Z := i64 (a + b).

Notation "a +u b" := (u64_add a b) (at level 50, left associativity) : go_scope.
Notation "a -u b" := (u64_sub a b) (at level 50, left associativity) : go_scope.
Notation "a *u b" := (u64_mul a b) (at level 40, left associativity) : go_scope.
Notation "a +i b" := (i64_add a b) (at level 50, left associativity) : go_scope.
#[global] Open Scope go_scope.

(** The values a [uint64] can hold. *)
Definition is_u64 (z : Z) : Prop := 0 <= z <= max_u64.

Lemma u64_id z : is_u64 z -> u64 z = z.
Proof. unfold is_u64, u64, max_u64. intros. apply Z.mod_small. lia. Qed.

Lemma u64_range z : is_u64 (u64 z).
Proof. unfold is_u64, u64, max_u64. pose proof (Z.mod_pos_bound z 18446744073709551616). lia. Qed.

Lemma u64_add_small a b : 0 <= a + b <= max_u64 -> a +u b = a + b.
Proof. intros. apply u64_id. done. Qed.

Lemma u64_sub_small a b : 0 <= a - b <= max_u64 -> a -u b = a - b.
Proof. intros. apply u64_id. done. Qed.

Lemma i64_id z : - 9223372036854775808 <= z <= max_i64 -> i64 z = z.
Proof. unfold i64, max_i64. intros. rewrite Z.mod_small; lia. Qed.

(** * Automation *)

Create HintDb mq discriminated.
#[export] Hint Constants Opaque : mq.
#[export] Hint Variables Opaque : mq.
#[export] Hint Resolve u64_range : mq.

(** Splits the boolean comparisons the code branches on into their meaning. *)
Ltac case_bool :=
  match goal with
  | H : context [if ?b then _ else _] |- _ =>
      lazymatch b with
      | context [if _ then _ else _] => fail
      | _ => destruct b eqn:?
      end
  | |- context [if ?b then _ else _] =>
      lazymatch b with
      | context [if _ then _ else _] => fail
      | _ => destruct b eqn:?
      end
  end.

Ltac bool_to_prop :=
  repeat match goal with
  | H : (_ && _)%bool = true |- _ => apply andb_true_iff in H as [? ?]
  | H : (_ || _)%bool = false |- _ => apply orb_false_iff in H as [? ?]
  | H : (_ && _)%bool = false |- _ => apply andb_false_iff in H
  | H : (_ || _)%bool = true |- _ => apply orb_true_iff in H
  | H : negb _ = true |- _ => apply negb_true_iff in H
  | H : negb _ = false |- _ => apply negb_false_iff in H
  | H : (_ =? _) = true |- _ => apply Z.eqb_eq in H
  | H : (_ =? _) = false |- _ => apply Z.eqb_neq in H
  | H : (_ <? _) = true |- _ => apply Z.ltb_lt in H
  | H : (_ <? _) = false |- _ => apply Z.ltb_ge in H
  | H : (_ <=? _) = true |- _ => apply Z.leb_le in H
  | H : (_ <=? _) = false |- _ => apply Z.leb_gt in H
  | H : bool_decide _ = true |- _ => apply bool_decide_eq_true in H
  | H : bool_decide _ = false |- _ => apply bool_decide_eq_false in H
  end.

(** [lia] with the quotients and remainders of the goal spelled out. *)
Ltac div_lia := Z.to_euclidean_division_equations; lia.

(** * Bytes *)

Notation bytes := (list Byte.byte).

#[export] Instance byte_eq_dec : EqDecision Byte.byte := Byte.byte_eq_dec.

#[export] Program Instance byte_countable : Countable Byte.byte :=
  inj_countable Byte.to_N Byte.of_N _.
Next Obligation. intros b. apply Byte.of_to_N. Qed.

(** [append([]byte(nil), b...)] and [cloneBytes]: a copy with the same contents. *)
Definition cloneBytes (value : bytes) : bytes := value.

(** * Errors

    A Go error value is its message; [result] is the pair of a value and an error of
    which exactly one is meaningful. *)
Notation error := string.

Inductive result (A : Type) : Type :=
  | Ok (a : A)
  | Err (e : error).
Arguments Ok {A} a.
Arguments Err {A} e.

Lemma Ok_inj {A} (a b : A) : Ok a = Ok b -> a = b.
Proof. congruence. Qed.

Definition is_ok {A} (r : result A) : bool :=
  match r with Ok _ => true | Err _ => false end.

Definition rbind {A B} (r : result A) (k : A -> result B) : result B :=
  match r with Ok a => k a | Err e => Err e end.

Notation "x <-r c1 ; c2" := (rbind c1 (fun x => c2))
  (at level 80, c1 at next level, right associativity) : go_scope.

(** * sort.Search *)

(** [sort.Search] of the standard library: binary search for the smallest [i] in
    [0, n) with [f i]; each iteration at least halves [j - i], so [n] iterations are
    enough. *)
Fixpoint searchLoop (fuel : nat) (f : nat -> bool) (i j : nat) : nat :=
  match fuel with
  | O => i
  | S fuel' =>
      if Nat.ltb i j then
        let h := Nat.div2 (i + j) in
        if negb (f h) then searchLoop fuel' f (S h) j else searchLoop fuel' f i h
      else i
  end.

Definition sort_Search (n : nat) (f : nat -> bool) : nat := searchLoop n f 0 n.

(** On a predicate that stays true once it is true, the search finds where it becomes
    true. *)
Lemma searchLoop_spec f n fuel i j :
  (forall a b, (a <= b < n)%nat -> f a = true -> f b = true) ->
  (i <= j <= n)%nat -> (j - i <= fuel)%nat ->
  (forall k, (k < i)%nat -> f k = false) -> (forall k, (j <= k < n)%nat -> f k = true) ->
  let r := searchLoop fuel f i j in
  (r <= n)%nat /\ (forall k, (k < r)%nat -> f k = false) /\ (forall k, (r <= k < n)%nat -> f k = true).
Proof.
  intros Hm. revert i j. induction fuel as [|fuel IH]; intros i j Hij Hf Hlo Hhi; cbn [searchLoop].
  { replace j with i in * by lia. split_and!; [lia|done|done]. }
  destruct (Nat.ltb_spec i j) as [Hlt|Hge].
  - pose proof (Nat.div2_div (i + j)) as Hd. pose proof (Nat.div_mod (i + j) 2). pose proof (Nat.mod_upper_bound (i + j) 2).
    set (h := Nat.div2 (i + j)) in *. clearbody h. destruct (f h) eqn:E; cbn [negb].
    + apply IH; [lia|lia|done|]. intros k Hk. destruct (decide (k < j)%nat); [|apply Hhi; lia].
      apply (Hm h); [lia|done].
    + apply IH; [lia|lia| |done]. intros k Hk. destruct (f k) eqn:Ek; [|done].
      rewrite (Hm k h) in E by (done || lia). done.
  - replace j with i in * by lia. split_and!; [lia|done|done].
Qed.

Lemma sort_Search_spec f n :
  (forall a b, (a <= b < n)%nat -> f a = true -> f b = true) ->
  let r := sort_Search n f in
  (r <= n)%nat /\ (forall k, (k < r)%nat -> f k = false) /\ (forall k, (r <= k < n)%nat -> f k = true).
Proof. intros Hm. apply searchLoop_spec; [done|lia|lia|lia|lia]. Qed.

(** * Lists *)

Section lists.
Context {A : Type}.
Implicit Types (l k : list A) (n m : nat).

(** [for i := range l { if p(l[i]) { cut = i; break } }; l[:cut]]: the elements before
    the first one that satisfies [p]. *)
Fixpoint cut_at (p : A -> bool) (l : list A) : list A :=
  match l with
  | [] => []
  | x :: l' => if p x then [] else x :: cut_at p l'
  end.

Lemma cut_at_prefix (p : A -> bool) l : cut_at p l `prefix_of` l.
Proof.
  induction l as [|x l IH]; simpl; [done|].
  case_match; [apply prefix_nil|]. by apply prefix_cons.
Qed.

Lemma cut_at_take (p : A -> bool) l n :
  (forall i x, l !! i = Some x -> p x = bool_decide (n <= i)%nat) ->
  cut_at p l = take n l.
Proof.
  revert n. induction l as [|x l IH]; intros n Hp; simpl; [by rewrite take_nil|].
  rewrite (Hp 0%nat x) by done. destruct n as [|n]; simpl; [done|].
  f_equal. apply IH. intros i y Hy. rewrite (Hp (S i) y Hy).
  apply bool_decide_ext. lia.
Qed.

Lemma take_prefix_le l n m : (n <= m)%nat -> take n l `prefix_of` take m l.
Proof. intros. exists (take (m - n) (drop n l)). rewrite take_take_drop. f_equal. lia. Qed.

Lemma prefix_take_eq l k n : l `prefix_of` k -> (n <= length l)%nat -> take n l = take n k.
Proof. intros [r ->] Hn. by rewrite take_app_le. Qed.

Lemma prefix_is_take l k : l `prefix_of` k <-> l = take (length l) k.
Proof.
  split; [intros [r ->]; by rewrite take_app_length|].
  intros ->. apply prefix_take.
Qed.

Lemma take_prefix_iff l k n :
  (n <= length l)%nat -> take n l `prefix_of` k <-> take n k = take n l.
Proof.
  intros Hn. rewrite prefix_is_take, length_take_le by lia. split; congruence.
Qed.

Lemma prefix_comparable l k r :
  l `prefix_of` r -> k `prefix_of` r -> (length l <= length k)%nat -> l `prefix_of` k.
Proof.
  intros Hl Hk Hlen. rewrite prefix_is_take in Hl, Hk |- *.
  rewrite Hl at 1. rewrite Hk. rewrite take_take. f_equal. lia.
Qed.

Lemma take_eq_lookup l k n i :
  take n l = take n k -> (i < n)%nat -> l !! i = k !! i.
Proof. intros H Hi. by rewrite <- (lookup_take_lt l n i), H, lookup_take_lt. Qed.

Lemma take_eq_le l k n m : take n l = take n k -> (m <= n)%nat -> take m l = take m k.
Proof.
  intros H Hm. replace (take m l) with (take m (take n l)) by (rewrite take_take; f_equal; lia).
  rewrite H, take_take. f_equal. lia.
Qed.

Lemma take_eq_length l k n :
  take n l = take n k -> (n <= length l)%nat -> (n <= length k)%nat.
Proof. intros H Hn. apply (f_equal length) in H. rewrite !length_take in H. lia. Qed.
End lists.
