(* ===== verification/Proto.v ===== *)
(** The protobuf messages of proto/raft.proto and proto/kv.proto as data types.

    Field values of type [uint64] are [Z] in the range of [is_u64]; [bytes] fields are
    lists of bytes.  Proto3 enums are open, so both enums carry a constructor for a
    number the schema does not name.  A [oneof] that is not set is [None]; a repeated
    message field is a list of pointers, so its elements may be [None] (a nil
    pointer), as the code checks. *)

From S2P Require Import Prelude.

(** [enum EntryType]. *)
Inductive EntryType : Type :=
  | ENTRY_TYPE_UNSPECIFIED
  | EntryType_NORMAL
  | EntryType_NOOP
  | EntryType_UNRECOGNIZED (v : Z).

#[export] Instance EntryType_eq_dec : EqDecision EntryType.
Proof. solve_decision. Defined.

(** [message Entry]. *)
Record Entry : Type := mkEntry {
  Index : Z;
  Term : Z;
  Type_ : EntryType;
  Data : bytes;
}.

#[export] Instance Entry_eq_dec : EqDecision Entry.
Proof. solve_decision. Defined.

(** [message RequestVoteReq]. *)
Record RequestVoteReq : Type := mkRequestVoteReq {
  rv_Term : Z;
  rv_CandidateId : Z;
  rv_LastLogIndex : Z;
  rv_LastLogTerm : Z;
}.

(** [message RequestVoteResp]. *)
Record RequestVoteResp : Type := mkRequestVoteResp {
  rvr_Term : Z;
  rvr_VoteGranted : bool;
}.

(** [message AppendEntriesReq]. *)
Record AppendEntriesReq : Type := mkAppendEntriesReq {
  ae_Term : Z;
  ae_LeaderId : Z;
  ae_PrevLogIndex : Z;
  ae_PrevLogTerm : Z;
  ae_Entries : list (option Entry);
  ae_LeaderCommit : Z;
}.

(** [message AppendEntriesResp]. *)
Record AppendEntriesResp : Type := mkAppendEntriesResp {
  aer_Term : Z;
  aer_Success : bool;
  aer_MatchIndex : Z;
}.

(** The [oneof body] of [message Message].  The two snapshot messages are part of the
    schema but no code of the repository reads their fields. *)
Inductive Body : Type :=
  | Message_RequestVote (req : RequestVoteReq)
  | Message_RequestVoteResp (resp : RequestVoteResp)
  | Message_AppendEntries (req : AppendEntriesReq)
  | Message_AppendEntriesResp (resp : AppendEntriesResp)
  | Message_InstallSnapshot
  | Message_InstallSnapshotResp.

(** [message Message]. *)
Record Message : Type := mkMessage {
  From : Z;
  To : Z;
  m_Term : Z;
  m_Body : option Body;
}.

#[export] Instance RequestVoteReq_eq_dec : EqDecision RequestVoteReq.
Proof. solve_decision. Defined.
#[export] Instance RequestVoteResp_eq_dec : EqDecision RequestVoteResp.
Proof. solve_decision. Defined.
#[export] Instance AppendEntriesReq_eq_dec : EqDecision AppendEntriesReq.
Proof. solve_decision. Defined.
#[export] Instance AppendEntriesResp_eq_dec : EqDecision AppendEntriesResp.
Proof. solve_decision. Defined.
#[export] Instance Body_eq_dec : EqDecision Body.
Proof. solve_decision. Defined.
#[export] Instance Message_eq_dec : EqDecision Message.
Proof. solve_decision. Defined.

(** [enum Op]. *)
Inductive Op : Type :=
  | OP_UNSPECIFIED
  | Op_PUT
  | Op_DELETE
  | Op_GET
  | Op_UNRECOGNIZED (v : Z).

#[export] Instance Op_eq_dec : EqDecision Op.
Proof. solve_decision. Defined.

(** [message Command]. *)
Record Command : Type := mkCommand {
  ClientId : Z;
  Seq : Z;
  cmd_Op : Op;
  Key : bytes;
  Value : bytes;
}.

#[export] Instance Command_eq_dec : EqDecision Command.
Proof. solve_decision. Defined.

(** [message HardStateRecord], [EntriesRecord], [TruncateRecord] as the [oneof] of
    [message LogRecord]; [None] below is a record without a body. *)
Inductive LogRecordBody : Type :=
  | LogRecord_HardState (term votedFor : Z)
  | LogRecord_Entries (entries : list Entry)
  | LogRecord_Truncate (fromIndex : Z).

Definition LogRecord : Type := option LogRecordBody.

#[export] Instance LogRecordBody_eq_dec : EqDecision LogRecordBody.
Proof. solve_decision. Defined.
