(* ===== verification/RaftLog.v ===== *)
(** The in-memory log of internal/raft/log.go: [raftLog] and its operations. *)

From S2P Require Import Prelude Proto.

(** [SnapshotMeta]: the compacted predecessor of the log. *)
Record SnapshotMeta : Type := mkSnapshotMeta {
  snap_Index : Z;
  snap_Term : Z;
}.

(** [logEntry]. *)
Record logEntry : Type := mkLogEntry {
  index : Z;
  term : Z;
  typ : EntryType;
  data : bytes;
}.

#[export] Instance logEntry_eq_dec : EqDecision logEntry.
Proof. solve_decision. Defined.
#[export] Instance SnapshotMeta_eq_dec : EqDecision SnapshotMeta.
Proof. solve_decision. Defined.

(** [raftLog]. *)
Record raftLog : Type := mkRaftLog {
  snapshot : SnapshotMeta;
  entries : list logEntry;
}.

(** The copies between the wire form and the in-memory form of an entry. *)
Definition ofEntry (e : Entry) : logEntry :=
  mkLogEntry (Index e) (Term e) (Type_ e) (cloneBytes (Data e)).
Definition toEntry (e : logEntry) : Entry :=
  mkEntry (index e) (term e) (typ e) (cloneBytes (data e)).

Definition newRaftLog (snap : SnapshotMeta) (es : list Entry) : raftLog :=
  mkRaftLog snap (ofEntry <$> es).

Definition firstIndex (l : raftLog) : Z := snap_Index (snapshot l) +u 1.

Definition lastIndex (l : raftLog) : Z :=
  match last (entries l) with
  | None => snap_Index (snapshot l)
  | Some e => index e
  end.

(** [entry]: the entry stored at [idx], found by its offset from the first one. *)
Definition entry (l : raftLog) (idx : Z) : option logEntry :=
  match entries l with
  | [] => None
  | e0 :: _ =>
      if idx <? index e0 then None
      else
        let offset := idx -u index e0 in
        if Z.of_nat (length (entries l)) <=? offset then None
        else
          match entries l !! Z.to_nat offset with
          | Some e => if index e =? idx then Some e else None
          | None => None
          end
  end.

(** [term]: the second result of the Go function is the option's tag. *)
Definition termAt (l : raftLog) (idx : Z) : option Z :=
  if idx =? snap_Index (snapshot l) then Some (snap_Term (snapshot l))
  else
    match entry l idx with
    | None => None
    | Some e => Some (term e)
    end.

Definition lastTerm (l : raftLog) : Z := default 0 (termAt l (lastIndex l)).

Definition matches (l : raftLog) (idx t : Z) : bool :=
  match termAt l idx with
  | Some localTerm => localTerm =? t
  | None => false
  end.

(** The loop of [rangeEntries].  Each iteration that does not stop reads one more offset
    of the slice, so [length (entries l)] iterations are enough: see
    [rangeEntries_fuel_enough]. *)
Fixpoint rangeLoop (fuel : nat) (l : raftLog) (idx hi : Z) : list Entry :=
  match fuel with
  | O => []
  | S fuel' =>
      if idx <? hi then
        match entry l idx with
        | None => []
        | Some e => toEntry e :: rangeLoop fuel' l (idx +u 1) hi
        end
      else []
  end.

Definition rangeEntries (l : raftLog) (lo hi : Z) : list Entry :=
  if hi <=? lo then [] else rangeLoop (S (length (entries l))) l lo hi.

Definition appendLocal (l : raftLog) (t : Z) (ty : EntryType) (d : bytes) : raftLog * Z :=
  let idx := lastIndex l +u 1 in
  (mkRaftLog (snapshot l) (entries l ++ [mkLogEntry idx t ty (cloneBytes d)]), idx).

Definition truncateFrom (l : raftLog) (idx : Z) : raftLog :=
  mkRaftLog (snapshot l) (cut_at (fun e => idx <=? index e) (entries l)).

(** The inner loop of [appendFromLeader]: copy the remaining entries of the request. *)
Fixpoint appendRemaining (l : raftLog) (remaining : list (option Entry)) : raftLog :=
  match remaining with
  | [] => l
  | None :: rest => appendRemaining l rest
  | Some e :: rest =>
      if Index e <=? snap_Index (snapshot l) then appendRemaining l rest
      else appendRemaining (mkRaftLog (snapshot l) (entries l ++ [ofEntry e])) rest
  end.

Fixpoint appendFromLeader (l : raftLog) (es : list (option Entry)) : raftLog * Z :=
  match es with
  | [] => (l, 0)
  | None :: rest => appendFromLeader l rest
  | Some incoming :: rest =>
      if Index incoming <=? snap_Index (snapshot l) then appendFromLeader l rest
      else if match termAt l (Index incoming) with
              | Some localTerm => localTerm =? Term incoming
              | None => false
              end
      then appendFromLeader l rest
      else (appendRemaining (truncateFrom l (Index incoming)) es, Index incoming)
  end.

(** [entryPointers]: the request's slice of pointers to copies. *)
Definition entryPointers (es : list Entry) : list (option Entry) := Some <$> es.

(** * Well-formed logs

    The entries are contiguous from the snapshot's index and the next index is still a
    [uint64]. *)
Definition log_wf (l : raftLog) : Prop :=
  0 <= snap_Index (snapshot l) /\
  snap_Index (snapshot l) + Z.of_nat (length (entries l)) < max_u64 /\
  forall i e, entries l !! i = Some e -> index e = snap_Index (snapshot l) + 1 + Z.of_nat i.

(** Position in [entries] of index [idx]. *)
Definition pos (l : raftLog) (idx : Z) : nat := Z.to_nat (idx - snap_Index (snapshot l) - 1).

Section wf.
Context (l : raftLog) (Hwf : log_wf l).

Lemma lastIndex_wf : lastIndex l = snap_Index (snapshot l) + Z.of_nat (length (entries l)).
Proof using Hwf.
  destruct Hwf as (H0 & Hmax & Hidx). unfold lastIndex.
  destruct (entries l) as [|e0 es] eqn:E using rev_ind; [simpl; lia|].
  rewrite last_snoc. rewrite (Hidx (length es) e0); [|by rewrite lookup_app_r, Nat.sub_diag by lia].
  rewrite length_app. simpl. lia.
Qed.

Lemma firstIndex_wf : firstIndex l = snap_Index (snapshot l) + 1.
Proof using Hwf.
  destruct Hwf as (H0 & Hmax & Hidx). unfold firstIndex.
  apply u64_add_small. unfold max_u64 in *. lia.
Qed.

Lemma entry_wf idx :
  snap_Index (snapshot l) < idx <= max_u64 ->
  entry l idx = entries l !! pos l idx.
Proof using Hwf.
  intros Hi. destruct Hwf as (H0 & Hmax & Hidx). unfold entry, pos.
  destruct (entries l) as [|e0 es] eqn:E; [by rewrite lookup_nil|].
  assert (index e0 = snap_Index (snapshot l) + 1) as He0 by (rewrite (Hidx 0%nat e0); [lia|done]).
  rewrite He0. case_bool; bool_to_prop; [lia|].
  rewrite u64_sub_small by (unfold max_u64 in *; lia).
  replace (idx - (snap_Index (snapshot l) + 1)) with (idx - snap_Index (snapshot l) - 1) by lia.
  case_bool; bool_to_prop.
  - symmetry. apply lookup_ge_None. lia.
  - destruct ((e0 :: es) !! Z.to_nat (idx - snap_Index (snapshot l) - 1)) as [e|] eqn:Ee; [|done].
    rewrite (Hidx _ _ Ee). case_bool; bool_to_prop; [done|lia].
Qed.

Lemma termAt_wf idx :
  snap_Index (snapshot l) < idx <= max_u64 ->
  termAt l idx = term <$> entries l !! pos l idx.
Proof using Hwf.
  intros Hi. unfold termAt. case_bool; bool_to_prop; [lia|].
  rewrite entry_wf by done. by destruct (entries l !! pos l idx).
Qed.

Lemma termAt_snapshot : termAt l (snap_Index (snapshot l)) = Some (snap_Term (snapshot l)).
Proof. unfold termAt. by rewrite Z.eqb_refl. Qed.

Lemma rangeLoop_wf fuel idx hi :
  snap_Index (snapshot l) < idx -> hi <= max_u64 ->
  (length (entries l) < fuel + pos l idx)%nat ->
  rangeLoop fuel l idx hi =
    toEntry <$> take (Z.to_nat (hi - idx)) (drop (pos l idx) (entries l)).
Proof using Hwf.
  pose proof (proj1 Hwf) as H0.
  revert idx. induction fuel as [|fuel IH]; intros idx Hi Hhi Hf; simpl.
  - rewrite drop_ge by (simpl in Hf; lia). by rewrite take_nil.
  - case_bool; bool_to_prop.
    + rewrite entry_wf by lia.
      destruct (entries l !! pos l idx) as [e|] eqn:Ee.
      * rewrite (drop_S _ _ _ Ee).
        replace (Z.to_nat (hi - idx)) with (S (Z.to_nat (hi - (idx + 1)))) by lia. simpl.
        assert (S (pos l idx) = pos l (idx + 1)) as Hpos by (unfold pos; lia).
        rewrite u64_add_small by (unfold max_u64 in *; lia).
        rewrite IH by (unfold pos in *; lia). by rewrite Hpos.
      * apply lookup_ge_None in Ee. rewrite drop_ge by lia. by rewrite take_nil.
    + replace (Z.to_nat (hi - idx)) with 0%nat by lia. done.
Qed.

Lemma rangeEntries_wf lo hi :
  snap_Index (snapshot l) < lo -> hi <= max_u64 ->
  rangeEntries l lo hi =
    toEntry <$> take (Z.to_nat (hi - lo)) (drop (pos l lo) (entries l)).
Proof using Hwf.
  intros Hlo Hhi. unfold rangeEntries. case_bool; bool_to_prop.
  - replace (Z.to_nat (hi - lo)) with 0%nat by lia. done.
  - apply rangeLoop_wf; lia.
Qed.

Lemma truncateFrom_wf idx :
  entries (truncateFrom l idx) = take (pos l idx) (entries l).
Proof using Hwf.
  destruct Hwf as (H0 & Hmax & Hidx). unfold truncateFrom, pos. simpl.
  apply cut_at_take. intros i e He. rewrite (Hidx _ _ He).
  destruct (Z.leb_spec idx (snap_Index (snapshot l) + 1 + Z.of_nat i));
    symmetry; [apply bool_decide_eq_true|apply bool_decide_eq_false]; lia.
Qed.
End wf.

Lemma toEntry_ofEntry e : toEntry (ofEntry e) = e.
Proof. by destruct e. Qed.

Lemma ofEntry_toEntry e : ofEntry (toEntry e) = e.
Proof. by destruct e. Qed.

Lemma fmap_toEntry_ofEntry (es : list Entry) : toEntry <$> (ofEntry <$> es) = es.
Proof. induction es as [|e es IH]; csimpl; [done|]. by rewrite toEntry_ofEntry, IH. Qed.

Lemma fmap_ofEntry_toEntry (es : list logEntry) : ofEntry <$> (toEntry <$> es) = es.
Proof. induction es as [|e es IH]; csimpl; [done|]. by rewrite ofEntry_toEntry, IH. Qed.

#[export] Hint Rewrite fmap_toEntry_ofEntry fmap_ofEntry_toEntry : mq.

(** The loop of [rangeEntries] never needs more than one iteration per stored entry: any
    larger bound on the iterations gives the same result. *)
Lemma rangeEntries_fuel_enough l lo hi fuel :
  log_wf l -> snap_Index (snapshot l) < lo -> hi <= max_u64 ->
  (length (entries l) < fuel)%nat ->
  rangeLoop fuel l lo hi = rangeLoop (S (length (entries l))) l lo hi.
Proof. intros. by rewrite !rangeLoop_wf by (done || lia). Qed.

(** * appendFromLeader

    On a request whose entries are contiguous after [prev], the log keeps the entries
    that agree in term, and at the first disagreement (or at its own end) it is cut and
    takes the request's remaining suffix. *)

Definition contiguous_from (prev : Z) (es : list Entry) : Prop :=
  forall i e, es !! i = Some e -> Index e = prev + 1 + Z.of_nat i.

Lemma contiguous_cons prev e es :
  contiguous_from prev (e :: es) <-> Index e = prev + 1 /\ contiguous_from (prev + 1) es.
Proof.
  split.
  - intros H. split; [rewrite (H 0%nat e); [lia|done]|].
    intros i x Hx. rewrite (H (S i) x Hx). lia.
  - intros [He H] [|i] x Hx; simpl in Hx; simplify_eq; [lia|]. rewrite (H i x Hx). lia.
Qed.

(** The spec-level view of the conflict rule on lists: [agree L off I i] says the first
    [i] incoming entries agree in term with [L] from offset [off]. *)
Definition agree (L : list logEntry) (off : nat) (I : list logEntry) (i : nat) : Prop :=
  forall j b, (j < i)%nat -> I !! j = Some b ->
    exists a, L !! (off + j)%nat = Some a /\ term a = term b.

Definition conflict (L : list logEntry) (off : nat) (I : list logEntry) (i : nat) : Prop :=
  exists b, I !! i = Some b /\
    match L !! (off + i)%nat with
    | Some a => term a <> term b
    | None => True
    end.

Lemma appendRemaining_contiguous l prev es :
  snap_Index (snapshot l) <= prev -> contiguous_from prev es ->
  appendRemaining l (Some <$> es) = mkRaftLog (snapshot l) (entries l ++ (ofEntry <$> es)).
Proof.
  revert l prev. induction es as [|e es IH]; intros l prev Hp Hc; simpl.
  - rewrite app_nil_r. by destruct l.
  - apply contiguous_cons in Hc as [He Hc]. case_bool; bool_to_prop; [lia|].
    rewrite (IH _ (prev + 1)) by (simpl; (done || lia)). simpl. by rewrite <- app_assoc.
Qed.

Lemma appendFromLeader_wf l prev es off I :
  log_wf l -> snap_Index (snapshot l) <= prev -> prev + Z.of_nat (length es) <= max_u64 ->
  contiguous_from prev es ->
  off = Z.to_nat (prev - snap_Index (snapshot l)) -> I = ofEntry <$> es ->
  (agree (entries l) off I (length I) /\ appendFromLeader l (Some <$> es) = (l, 0)) \/
  exists i, agree (entries l) off I i /\ conflict (entries l) off I i /\
    appendFromLeader l (Some <$> es) =
      (mkRaftLog (snapshot l) (take (off + i) (entries l) ++ drop i I), prev + 1 + Z.of_nat i).
Proof.
  intros Hwf. revert prev off I.
  induction es as [|e es IH]; intros prev off I Hp Hmax Hc Hoff HI.
  { left. subst I. split; [|done]. intros j b Hj. simpl in Hj. lia. }
  pose proof Hc as Hc0. apply contiguous_cons in Hc as [He Hc].
  rewrite length_cons in Hmax. rewrite !(fmap_cons Some). cbn [appendFromLeader].
  case_bool; bool_to_prop; [lia|].
  rewrite termAt_wf by (done || lia).
  assert (pos l (Index e) = off) as Hpos by (unfold pos; lia). rewrite Hpos.
  assert (S off = Z.to_nat (prev + 1 - snap_Index (snapshot l))) as HSoff by lia.
  destruct (match term <$> entries l !! off with Some t => t =? Term e | None => false end) eqn:Em.
  - destruct (entries l !! off) as [a|] eqn:Ea; simpl in Em; [|done]. bool_to_prop.
    assert (forall i, agree (entries l) (S off) (ofEntry <$> es) i ->
                      agree (entries l) off I (S i)) as Hagree.
    { clear IH Hoff HSoff Hpos. intros i Hag [|j] b Hj Hb; rewrite HI in Hb; simpl in Hb; simplify_eq.
      - exists a. by rewrite Nat.add_0_r.
      - replace (off + S j)%nat with (S off + j)%nat by lia. apply Hag; [lia|done]. }
    destruct (IH (prev + 1) (S off) (ofEntry <$> es))
      as [[Hag ->]|(i & Hag & Hcf & ->)]; try (done || lia).
    + left. split; [|done]. replace (length I) with (S (length (ofEntry <$> es))) by by rewrite HI.
      by apply Hagree.
    + right. exists (S i). split; [by apply Hagree|]. split.
      * destruct Hcf as (b & Hb & Hm). exists b. split; [by rewrite HI|].
        by replace (off + S i)%nat with (S off + i)%nat by lia.
      * rewrite HI. csimpl. replace (off + S i)%nat with (S off + i)%nat by lia. f_equal; lia.
  - right. exists 0%nat. split; [intros j b Hj; lia|]. split.
    { exists (ofEntry e). split; [by rewrite HI|]. rewrite Nat.add_0_r.
      destruct (entries l !! off); simpl in *; [|done]. bool_to_prop. done. }
    rewrite Nat.add_0_r, drop_0.
    change (Some e :: (Some <$> es)) with (Some <$> (e :: es)).
    rewrite (appendRemaining_contiguous _ prev (e :: es)) by (simpl; (done || lia)).
    rewrite truncateFrom_wf, Hpos by done. rewrite HI. f_equal; lia.
Qed.
