(* ===== verification/RaftNode.v ===== *)
(** The deterministic Raft core of internal/raft/raft.go and commit_rule.go: the node's
    state and one definition per function, in the order the code composes them.

    A Go map that can be nil is an [option] of a finite map.  Reading a nil map gives
    the zero value; the code writes [votes], [nextIndex], [matchIndex] and [inflight]
    only in roles where they have been made (see [node_maps_wf] in NodeFacts), so the
    write to a nil map (a panic in Go) that [mput] leaves without effect is never
    reached from a well-formed node. *)

From S2P Require Import Prelude Proto RaftLog.

(** * Host-supplied randomness

    [Rand] is an interface implemented outside the core.  An implementation is seen as
    the results of its successive calls: [rand_fn k n] is what the [k]-th call returns
    when it is [IntN(n)]. *)
Record Rand : Type := mkRand {
  rand_fn : nat -> Z -> Z;
  rand_calls : nat;
}.

Definition IntN (r : Rand) (n : Z) : Z * Rand :=
  (rand_fn r (rand_calls r) n, mkRand (rand_fn r) (S (rand_calls r))).

(** * State *)

Record HardState : Type := mkHardState {
  hs_Term : Z;
  VotedFor : Z;
}.

#[export] Instance HardState_eq_dec : EqDecision HardState.
Proof. solve_decision. Defined.

Record Config : Type := mkConfig {
  ID : Z;
  Peers : list Z;
  ElectionTickMin : Z;
  ElectionTickMax : Z;
  HeartbeatTicks : Z;
}.

Record InitialState : Type := mkInitialState {
  init_HardState : HardState;
  init_Entries : list Entry;
  init_Snapshot : SnapshotMeta;
}.

Record Ready : Type := mkReady {
  r_HardState : option HardState;
  r_Entries : list Entry;
  r_Messages : list Message;
  r_CommittedEntries : list Entry;
}.

Inductive role_t : Type := follower | candidate | leader.

#[export] Instance role_eq_dec : EqDecision role_t.
Proof. solve_decision. Defined.

Record appendInflight : Type := mkAppendInflight {
  prevIndex : Z;
  prevTerm : Z;
  inf_lastIndex : Z;
  leaderCommit : Z;
  hasEntries : bool;
}.

Record readyAck : Type := mkReadyAck {
  ack_valid : bool;
  ack_hardState : bool;
  ack_hard : HardState;
  ack_messageCount : Z;
  ack_entries : bool;
  ack_stableTo : Z;
  ack_committed : bool;
  ack_appliedTo : Z;
}.

(** The zero value [readyAck{}]. *)
Definition readyAck_zero : readyAck :=
  mkReadyAck false false (mkHardState 0 0) 0 false 0 false 0.

Record Node : Type := mkNode {
  config : Config;
  peers : list Z;
  rnd : option Rand;
  hardState : HardState;
  role : role_t;
  electionElapsed : Z;
  heartbeatElapsed : Z;
  electionTimeout : Z;
  votes : option (gset Z);
  log : raftLog;
  unstableIndex : Z;
  commitIndex : Z;
  lastApplied : Z;
  nextIndex : option (gmap Z Z);
  matchIndex : option (gmap Z Z);
  inflight : option (gmap Z (option appendInflight));
  hardStateDirty : bool;
  messages : list Message;
  ready_ack : readyAck;
}.

(** Assignments to one field. *)
Definition with_rnd (v : option Rand) (n : Node) : Node :=
  mkNode (config n) (peers n) v (hardState n) (role n) (electionElapsed n) (heartbeatElapsed
    n) (electionTimeout n) (votes n) (log n) (unstableIndex n) (commitIndex n) (lastApplied n)
    (nextIndex n) (matchIndex n) (inflight n) (hardStateDirty n) (messages n) (ready_ack n).
Definition with_hardState (v : HardState) (n : Node) : Node :=
  mkNode (config n) (peers n) (rnd n) v (role n) (electionElapsed n) (heartbeatElapsed n)
    (electionTimeout n) (votes n) (log n) (unstableIndex n) (commitIndex n) (lastApplied n)
    (nextIndex n) (matchIndex n) (inflight n) (hardStateDirty n) (messages n) (ready_ack n).
Definition with_role (v : role_t) (n : Node) : Node :=
  mkNode (config n) (peers n) (rnd n) (hardState n) v (electionElapsed n) (heartbeatElapsed
    n) (electionTimeout n) (votes n) (log n) (unstableIndex n) (commitIndex n) (lastApplied n)
    (nextIndex n) (matchIndex n) (inflight n) (hardStateDirty n) (messages n) (ready_ack n).
Definition with_electionElapsed (v : Z) (n : Node) : Node :=
  mkNode (config n) (peers n) (rnd n) (hardState n) (role n) v (heartbeatElapsed n)
    (electionTimeout n) (votes n) (log n) (unstableIndex n) (commitIndex n) (lastApplied n)
    (nextIndex n) (matchIndex n) (inflight n) (hardStateDirty n) (messages n) (ready_ack n).
Definition with_heartbeatElapsed (v : Z) (n : Node) : Node :=
  mkNode (config n) (peers n) (rnd n) (hardState n) (role n) (electionElapsed n) v
    (electionTimeout n) (votes n) (log n) (unstableIndex n) (commitIndex n) (lastApplied n)
    (nextIndex n) (matchIndex n) (inflight n) (hardStateDirty n) (messages n) (ready_ack n).
Definition with_electionTimeout (v : Z) (n : Node) : Node :=
  mkNode (config n) (peers n) (rnd n) (hardState n) (role n) (electionElapsed n)
    (heartbeatElapsed n) v (votes n) (log n) (unstableIndex n) (commitIndex n) (lastApplied n)
    (nextIndex n) (matchIndex n) (inflight n) (hardStateDirty n) (messages n) (ready_ack n).
Definition with_votes (v : option (gset Z)) (n : Node) : Node :=
  mkNode (config n) (peers n) (rnd n) (hardState n) (role n) (electionElapsed n)
    (heartbeatElapsed n) (electionTimeout n) v (log n) (unstableIndex n) (commitIndex n)
    (lastApplied n) (nextIndex n) (matchIndex n) (inflight n) (hardStateDirty n) (messages n)
    (ready_ack n).
Definition with_log (v : raftLog) (n : Node) : Node :=
  mkNode (config n) (peers n) (rnd n) (hardState n) (role n) (electionElapsed n)
    (heartbeatElapsed n) (electionTimeout n) (votes n) v (unstableIndex n) (commitIndex n)
    (lastApplied n) (nextIndex n) (matchIndex n) (inflight n) (hardStateDirty n) (messages n)
    (ready_ack n).
Definition with_unstableIndex (v : Z) (n : Node) : Node :=
  mkNode (config n) (peers n) (rnd n) (hardState n) (role n) (electionElapsed n)
    (heartbeatElapsed n) (electionTimeout n) (votes n) (log n) v (commitIndex n) (lastApplied
    n) (nextIndex n) (matchIndex n) (inflight n) (hardStateDirty n) (messages n) (ready_ack n).
Definition with_commitIndex (v : Z) (n : Node) : Node :=
  mkNode (config n) (peers n) (rnd n) (hardState n) (role n) (electionElapsed n)
    (heartbeatElapsed n) (electionTimeout n) (votes n) (log n) (unstableIndex n) v
    (lastApplied n) (nextIndex n) (matchIndex n) (inflight n) (hardStateDirty n) (messages n)
    (ready_ack n).
Definition with_lastApplied (v : Z) (n : Node) : Node :=
  mkNode (config n) (peers n) (rnd n) (hardState n) (role n) (electionElapsed n)
    (heartbeatElapsed n) (electionTimeout n) (votes n) (log n) (unstableIndex n) (commitIndex
    n) v (nextIndex n) (matchIndex n) (inflight n) (hardStateDirty n) (messages n) (ready_ack
    n).
Definition with_nextIndex (v : option (gmap Z Z)) (n : Node) : Node :=
  mkNode (config n) (peers n) (rnd n) (hardState n) (role n) (electionElapsed n)
    (heartbeatElapsed n) (electionTimeout n) (votes n) (log n) (unstableIndex n) (commitIndex
    n) (lastApplied n) v (matchIndex n) (inflight n) (hardStateDirty n) (messages n)
    (ready_ack n).
Definition with_matchIndex (v : option (gmap Z Z)) (n : Node) : Node :=
  mkNode (config n) (peers n) (rnd n) (hardState n) (role n) (electionElapsed n)
    (heartbeatElapsed n) (electionTimeout n) (votes n) (log n) (unstableIndex n) (commitIndex
    n) (lastApplied n) (nextIndex n) v (inflight n) (hardStateDirty n) (messages n) (ready_ack
    n).
Definition with_inflight (v : option (gmap Z (option appendInflight))) (n : Node) : Node :=
  mkNode (config n) (peers n) (rnd n) (hardState n) (role n) (electionElapsed n)
    (heartbeatElapsed n) (electionTimeout n) (votes n) (log n) (unstableIndex n) (commitIndex
    n) (lastApplied n) (nextIndex n) (matchIndex n) v (hardStateDirty n) (messages n)
    (ready_ack n).
Definition with_hardStateDirty (v : bool) (n : Node) : Node :=
  mkNode (config n) (peers n) (rnd n) (hardState n) (role n) (electionElapsed n)
    (heartbeatElapsed n) (electionTimeout n) (votes n) (log n) (unstableIndex n) (commitIndex
    n) (lastApplied n) (nextIndex n) (matchIndex n) (inflight n) v (messages n) (ready_ack n).
Definition with_messages (v : list Message) (n : Node) : Node :=
  mkNode (config n) (peers n) (rnd n) (hardState n) (role n) (electionElapsed n)
    (heartbeatElapsed n) (electionTimeout n) (votes n) (log n) (unstableIndex n) (commitIndex
    n) (lastApplied n) (nextIndex n) (matchIndex n) (inflight n) (hardStateDirty n) v
    (ready_ack n).
Definition with_ready_ack (v : readyAck) (n : Node) : Node :=
  mkNode (config n) (peers n) (rnd n) (hardState n) (role n) (electionElapsed n)
    (heartbeatElapsed n) (electionTimeout n) (votes n) (log n) (unstableIndex n) (commitIndex
    n) (lastApplied n) (nextIndex n) (matchIndex n) (inflight n) (hardStateDirty n) (messages
    n) v.

(** Reads and writes of a Go map, nil included. *)
Definition mget {V} (m : option (gmap Z V)) (k : Z) (zero : V) : V :=
  match m with
  | None => zero
  | Some g => default zero (g !! k)
  end.

Definition mput {V} (m : option (gmap Z V)) (k : Z) (v : V) : option (gmap Z V) :=
  match m with
  | None => None
  | Some g => Some (<[k := v]> g)
  end.

Definition set_nextIndex (peer v : Z) (n : Node) : Node :=
  with_nextIndex (mput (nextIndex n) peer v) n.
Definition set_matchIndex (peer v : Z) (n : Node) : Node :=
  with_matchIndex (mput (matchIndex n) peer v) n.
Definition set_inflight (peer : Z) (v : option appendInflight) (n : Node) : Node :=
  with_inflight (mput (inflight n) peer v) n.

Definition get_nextIndex (n : Node) (peer : Z) : Z := mget (nextIndex n) peer 0.
Definition get_matchIndex (n : Node) (peer : Z) : Z := mget (matchIndex n) peer 0.
Definition get_inflight (n : Node) (peer : Z) : option appendInflight :=
  mget (inflight n) peer None.

Definition send (m : Message) (n : Node) : Node := with_messages (messages n ++ [m]) n.

(** * Peers *)

(** [sort.Slice] by [<]: the ordered permutation is unique, here by insertion. *)
Fixpoint insert_ordered (x : Z) (l : list Z) : list Z :=
  match l with
  | [] => [x]
  | y :: l' => if x <=? y then x :: l else y :: insert_ordered x l'
  end.

Definition orderedPeers (ps : list Z) : list Z := foldr insert_ordered [] ps.

Definition isPeer (n : Node) (id : Z) : bool :=
  let ps := peers n in
  let i := sort_Search (length ps) (fun i => id <=? default 0 (ps !! i)) in
  Nat.ltb i (length ps) && (default 0 (ps !! i) =? id).

Definition majority (n : Node) : Z := Z.of_nat (length (peers n)) / 2 + 1.

Definition hasMajority (n : Node) : bool :=
  majority n <=? match votes n with Some vs => Z.of_nat (size vs) | None => 0 end.

(** * Sending *)

Definition sendRequestVoteResponse (to : Z) (granted : bool) (n : Node) : Node :=
  send (mkMessage (ID (config n)) to (hs_Term (hardState n))
          (Some (Message_RequestVoteResp (mkRequestVoteResp (hs_Term (hardState n)) granted)))) n.

Definition sendAppendEntriesResponse (to : Z) (success : bool) (match_index : Z) (n : Node) : Node :=
  send (mkMessage (ID (config n)) to (hs_Term (hardState n))
          (Some (Message_AppendEntriesResp
             (mkAppendEntriesResp (hs_Term (hardState n)) success match_index)))) n.

Definition emitAppend (peer : Z) (pending : appendInflight) (n : Node) : Node :=
  let es :=
    if hasEntries pending
    then entryPointers (rangeEntries (log n) (prevIndex pending +u 1) (inf_lastIndex pending +u 1))
    else [] in
  send (mkMessage (ID (config n)) peer (hs_Term (hardState n))
          (Some (Message_AppendEntries
             (mkAppendEntriesReq (hs_Term (hardState n)) (ID (config n))
                (prevIndex pending) (prevTerm pending) es (leaderCommit pending))))) n.

Definition sendAppend (peer : Z) (probe : bool) (n : Node) : Node :=
  match get_inflight n peer with
  | Some pending => emitAppend peer pending n
  | None =>
      let last := lastIndex (log n) in
      let next0 := get_nextIndex n peer in
      let next1 := if next0 <? firstIndex (log n) then firstIndex (log n) else next0 in
      let next := if last +u 1 <? next1 then last +u 1 else next1 in
      let n1 := set_nextIndex peer next n in
      let prev := next -u 1 in
      match termAt (log n1) prev with
      | None => n1
      | Some prevT =>
          let withEntries := negb probe && (next <=? last) in
          let pending :=
            mkAppendInflight prev prevT (if withEntries then last else prev)
              (commitIndex n1) withEntries in
          emitAppend peer pending (set_inflight peer (Some pending) n1)
      end
  end.

Definition broadcastAppend (probe : bool) (n : Node) : Node :=
  foldl (fun n peer => if peer =? ID (config n) then n else sendAppend peer probe n) n (peers n).

Definition sendHeartbeats (n : Node) : Node := broadcastAppend false n.

Definition broadcastAvailableAppend (n : Node) : Node :=
  foldl (fun n peer =>
           if (peer =? ID (config n)) || bool_decide (is_Some (get_inflight n peer)) then n
           else sendAppend peer false n) n (peers n).

(** * Log and commitment *)

Definition appendLocalNode (ty : EntryType) (d : bytes) (n : Node) : Node * Z :=
  let '(l', idx) := appendLocal (log n) (hs_Term (hardState n)) ty d in
  let n1 := with_log l' n in
  let n2 := if idx <? unstableIndex n1 then with_unstableIndex idx n1 else n1 in
  let n3 :=
    match matchIndex n2 with
    | None => n2
    | Some _ => set_nextIndex (ID (config n2)) (idx +u 1) (set_matchIndex (ID (config n2)) idx n2)
    end in
  (n3, idx).

(** commit_rule.go, the rule of the ordinary build. *)
Definition commitTermEligible (entryTerm currentTerm : Z) : bool := entryTerm =? currentTerm.

(** commit_rule_buggy.go, selected only by the build tag [buggy]. *)
Definition commitTermEligible_buggy (_ _ : Z) : bool := true.

Definition replicas (n : Node) (idx : Z) : Z :=
  foldl (fun r peer => if idx <=? get_matchIndex n peer then i64_add r 1 else r) 0 (peers n).

(** The descending loop of [advanceCommit]; [k] counts the iterations that are left,
    [idx - commitIndex]. *)
Fixpoint advanceCommitLoop (eligible : Z -> Z -> bool) (k : nat) (idx : Z) (n : Node) : Node * bool :=
  match k with
  | O => (n, false)
  | S k' =>
      let ok := match termAt (log n) idx with
                | Some t => eligible t (hs_Term (hardState n))
                | None => false
                end in
      if ok && (majority n <=? replicas n idx) then (with_commitIndex idx n, true)
      else advanceCommitLoop eligible k' (idx - 1) n
  end.

Definition advanceCommitWith (eligible : Z -> Z -> bool) (n : Node) : Node * bool :=
  match role n with
  | leader =>
      let last := lastIndex (log n) in
      advanceCommitLoop eligible (Z.to_nat (last - commitIndex n)) last n
  | _ => (n, false)
  end.

Definition advanceCommit (n : Node) : Node * bool := advanceCommitWith commitTermEligible n.

(** * Role changes *)

Definition resetElectionTimeout (n : Node) : Node :=
  let timeout := ElectionTickMin (config n) in
  let span := i64 (ElectionTickMax (config n) - ElectionTickMin (config n)) in
  let n1 :=
    match rnd n with
    | Some r =>
        if 0 <? span
        then let '(jitter, r') := IntN r span in
             with_electionTimeout (timeout +i jitter) (with_rnd (Some r') n)
        else with_electionTimeout timeout n
    | None => with_electionTimeout timeout n
    end in
  with_electionElapsed 0 n1.

Definition becomeFollower (t : Z) (n : Node) : Node :=
  let n1 :=
    if negb (t =? hs_Term (hardState n))
    then resetElectionTimeout
           (with_hardStateDirty true (with_hardState (mkHardState t 0) n))
    else n in
  with_inflight None (with_matchIndex None (with_nextIndex None
    (with_votes None (with_heartbeatElapsed 0 (with_role follower n1))))).

Definition becomeFollowerSameTerm (n : Node) : Node :=
  with_inflight None (with_matchIndex None (with_nextIndex None
    (with_electionElapsed 0 (with_votes None (with_heartbeatElapsed 0 (with_role follower n)))))).

Definition becomeLeader (n : Node) : Node :=
  let n1 := with_votes None (with_heartbeatElapsed 0 (with_role leader n)) in
  let probeIndex := lastIndex (log n1) in
  let n2 := with_inflight (Some ∅) (with_matchIndex (Some ∅) (with_nextIndex (Some ∅) n1)) in
  let n3 := foldl (fun n peer => set_matchIndex peer 0 (set_nextIndex peer (probeIndex +u 1) n))
              n2 (peers n2) in
  let n4 := (appendLocalNode EntryType_NOOP [] n3).1 in
  let n5 := (advanceCommit n4).1 in
  foldl (fun n peer => if negb (peer =? ID (config n)) then sendAppend peer true n else n)
    n5 (peers n5).

Definition requestVoteMessage (n : Node) (peer : Z) : Message :=
  mkMessage (ID (config n)) peer (hs_Term (hardState n))
    (Some (Message_RequestVote
       (mkRequestVoteReq (hs_Term (hardState n)) (ID (config n))
          (lastIndex (log n)) (lastTerm (log n))))).

Definition startElection (n : Node) : Node :=
  let n1 := with_hardState (mkHardState (hs_Term (hardState n) +u 1) (ID (config n))) n in
  let n2 := with_votes (Some {[ID (config n)]})
              (with_heartbeatElapsed 0 (with_role candidate (with_hardStateDirty true n1))) in
  let n3 := resetElectionTimeout n2 in
  if hasMajority n3 then becomeLeader n3
  else foldl (fun n peer => if peer =? ID (config n) then n
                            else send (requestVoteMessage n peer) n) n3 (peers n3).

(** * Message handlers *)

Definition candidateLogIsUpToDate (n : Node) (idx t : Z) : bool :=
  let lastLogIndex := lastIndex (log n) in
  let lastLogTerm := lastTerm (log n) in
  (lastLogTerm <? t) || ((t =? lastLogTerm) && (lastLogIndex <=? idx)).

Definition handleRequestVote (m : Message) (req : RequestVoteReq) (n : Node) : Node :=
  let canVote := (VotedFor (hardState n) =? 0) || (VotedFor (hardState n) =? rv_CandidateId req) in
  let granted := canVote && candidateLogIsUpToDate n (rv_LastLogIndex req) (rv_LastLogTerm req) in
  let n1 :=
    if granted then
      let n' :=
        if VotedFor (hardState n) =? 0
        then with_hardStateDirty true
               (with_hardState (mkHardState (hs_Term (hardState n)) (rv_CandidateId req)) n)
        else n in
      with_electionElapsed 0 n'
    else n in
  sendRequestVoteResponse (From m) granted n1.

Definition handleRequestVoteResponse (m : Message) (resp : RequestVoteResp) (n : Node) : Node :=
  if negb (bool_decide (role n = candidate)) || negb (rvr_VoteGranted resp) || negb (isPeer n (From m))
  then n
  else
    let n1 := with_votes (match votes n with
                          | Some vs => Some ({[From m]} ∪ vs)
                          | None => None
                          end) n in
    if hasMajority n1 then becomeLeader n1 else n1.

(** The loop of [appendRequestLastIndex] over the entries from position [i]. *)
Fixpoint checkIndexes (prev : Z) (i : Z) (es : list (option Entry)) : bool :=
  match es with
  | [] => true
  | None :: _ => false
  | Some e :: rest =>
      if negb (Index e =? prev +u i +u 1) then false else checkIndexes prev (i + 1) rest
  end.

(** The request pointer is not nil where the code calls it. *)
Definition appendRequestLastIndex (req : AppendEntriesReq) : Z * bool :=
  let len := Z.of_nat (length (ae_Entries req)) in
  if max_u64 - ae_PrevLogIndex req <? len then (0, false)
  else if checkIndexes (ae_PrevLogIndex req) 0 (ae_Entries req)
  then (ae_PrevLogIndex req +u len, true)
  else (0, false).

Definition handleAppendEntries (m : Message) (req : AppendEntriesReq) (n : Node) : Node :=
  let n1 := if negb (bool_decide (role n = follower)) then becomeFollowerSameTerm n else n in
  let n2 := with_electionElapsed 0 n1 in
  let '(requestLastIndex, valid) := appendRequestLastIndex req in
  if negb valid then sendAppendEntriesResponse (From m) false 0 n2
  else if negb (matches (log n2) (ae_PrevLogIndex req) (ae_PrevLogTerm req))
  then sendAppendEntriesResponse (From m) false 0 n2
  else
    let '(l', changed) := appendFromLeader (log n2) (ae_Entries req) in
    let n3 := with_log l' n2 in
    let n4 := if negb (changed =? 0) && (changed <? unstableIndex n3)
              then with_unstableIndex changed n3 else n3 in
    let n5 := if commitIndex n4 <? ae_LeaderCommit req
              then with_commitIndex (Z.min (ae_LeaderCommit req) requestLastIndex) n4 else n4 in
    sendAppendEntriesResponse (From m) true requestLastIndex n5.

Definition handleAppendEntriesResponse (m : Message) (resp : AppendEntriesResp) (n : Node) : Node :=
  let peer := From m in
  if negb (bool_decide (role n = leader)) || negb (isPeer n peer) || (peer =? ID (config n)) then n
  else
    match get_inflight n peer with
    | None => n
    | Some pending =>
        if aer_Success resp then
          let acknowledged := aer_MatchIndex resp in
          if negb (acknowledged =? inf_lastIndex pending) || (acknowledged <? get_matchIndex n peer)
             || (lastIndex (log n) <? acknowledged) || (acknowledged =? max_u64)
          then n
          else
            let n1 := set_inflight peer None n in
            let n2 := if get_matchIndex n1 peer <? acknowledged
                      then set_matchIndex peer acknowledged n1 else n1 in
            let n3 := set_nextIndex peer (get_matchIndex n2 peer +u 1) n2 in
            let '(n4, commitAdvanced) := advanceCommit n3 in
            if (get_nextIndex n4 peer <=? lastIndex (log n4)) || commitAdvanced
            then sendAppend peer false n4 else n4
        else
          let n1 := set_inflight peer None n in
          let matched := get_matchIndex n1 peer in
          let retryFloor :=
            if negb (matched =? max_u64) && (firstIndex (log n1) <? matched +u 1)
            then matched +u 1 else firstIndex (log n1) in
          let n2 := if retryFloor <? get_nextIndex n1 peer
                    then set_nextIndex peer (get_nextIndex n1 peer -u 1) n1 else n1 in
          sendAppend peer false n2
    end.

Definition rejectLowerTermRequest (m : Message) (n : Node) : Node :=
  match m_Body m with
  | Some (Message_RequestVote _) => sendRequestVoteResponse (From m) false n
  | Some (Message_AppendEntries _) => sendAppendEntriesResponse (From m) false 0 n
  | _ => n
  end.

Definition messageTerm (m : Message) : Z :=
  let t := m_Term m in
  match m_Body m with
  | Some (Message_RequestVote req) => if t <? rv_Term req then rv_Term req else t
  | Some (Message_RequestVoteResp resp) => if t <? rvr_Term resp then rvr_Term resp else t
  | Some (Message_AppendEntries req) => if t <? ae_Term req then ae_Term req else t
  | Some (Message_AppendEntriesResp resp) => if t <? aer_Term resp then aer_Term resp else t
  | _ => t
  end.

Definition dispatch (m : Message) (n : Node) : Node :=
  match m_Body m with
  | Some (Message_RequestVote req) => handleRequestVote m req n
  | Some (Message_AppendEntries req) => handleAppendEntries m req n
  | Some (Message_RequestVoteResp resp) => handleRequestVoteResponse m resp n
  | Some (Message_AppendEntriesResp resp) => handleAppendEntriesResponse m resp n
  | _ => n
  end.

(** [Step]; a nil message is [None]. *)
Definition Step (om : option Message) (n : Node) : Node :=
  match om with
  | None => n
  | Some m =>
      let t := messageTerm m in
      if hs_Term (hardState n) <? t then dispatch m (becomeFollower t n)
      else if t <? hs_Term (hardState n) then rejectLowerTermRequest m n
      else dispatch m n
  end.

Definition Tick (n : Node) : Node :=
  match role n with
  | leader =>
      let n1 := with_heartbeatElapsed (heartbeatElapsed n +i 1) n in
      if HeartbeatTicks (config n1) <=? heartbeatElapsed n1
      then sendHeartbeats (with_heartbeatElapsed 0 n1)
      else n1
  | _ =>
      let n1 := with_electionElapsed (electionElapsed n +i 1) n in
      if electionTimeout n1 <=? electionElapsed n1 then startElection n1 else n1
  end.

(** [Propose] returns [(index, term, isLeader)]. *)
Definition Propose (d : bytes) (n : Node) : Node * (Z * Z * bool) :=
  match role n with
  | leader =>
      let '(n1, idx) := appendLocalNode EntryType_NORMAL d n in
      let n2 := (advanceCommit n1).1 in
      let n3 := broadcastAvailableAppend n2 in
      (n3, (idx, hs_Term (hardState n3), true))
  | _ => (n, (0, hs_Term (hardState n), false))
  end.

(** * Ready and Advance *)

Definition readyWithoutCapture (n : Node) : Ready :=
  let last := lastIndex (log n) in
  mkReady
    (if hardStateDirty n then Some (hardState n) else None)
    (if unstableIndex n <=? last
     then rangeEntries (log n) (unstableIndex n) (last +u 1) else [])
    (messages n)
    (if lastApplied n <? commitIndex n
     then rangeEntries (log n) (lastApplied n +u 1) (commitIndex n +u 1) else []).

Definition captureReady (r : Ready) (n : Node) : Node :=
  with_ready_ack
    (mkReadyAck true
       (match r_HardState r with Some _ => true | None => false end)
       (match r_HardState r with Some hs => hs | None => mkHardState 0 0 end)
       (Z.of_nat (length (r_Messages r)))
       (0 <? Z.of_nat (length (r_Entries r)))
       (match last (r_Entries r) with Some e => Index e | None => 0 end)
       (0 <? Z.of_nat (length (r_CommittedEntries r)))
       (match last (r_CommittedEntries r) with Some e => Index e | None => 0 end)) n.

(** [Ready]: the node changes only in the acknowledgement it will expect. *)
Definition NodeReady (n : Node) : Ready * Node :=
  let r := readyWithoutCapture n in (r, captureReady r n).

Definition Advance (n : Node) : Node :=
  let n0 := if negb (ack_valid (ready_ack n)) then captureReady (readyWithoutCapture n) n else n in
  let ack := ready_ack n0 in
  let n1 := if ack_hardState ack && hardStateDirty n0 && bool_decide (hardState n0 = ack_hard ack)
            then with_hardStateDirty false n0 else n0 in
  let n2 := if Z.of_nat (length (messages n1)) <=? ack_messageCount ack
            then with_messages [] n1
            else if 0 <? ack_messageCount ack
            then with_messages (drop (Z.to_nat (ack_messageCount ack)) (messages n1)) n1
            else n1 in
  let n3 := if ack_entries ack && (unstableIndex n2 <=? ack_stableTo ack)
            then with_unstableIndex (ack_stableTo ack +u 1) n2 else n2 in
  let n4 := if ack_committed ack && (lastApplied n3 <? ack_appliedTo ack)
            then with_lastApplied (ack_appliedTo ack) n3 else n3 in
  with_ready_ack readyAck_zero n4.

(** * Construction *)

Definition defaultTicks (cfg : Config) : Config :=
  mkConfig (ID cfg) (Peers cfg)
    (if ElectionTickMin cfg =? 0 then 10 else ElectionTickMin cfg)
    (if ElectionTickMax cfg =? 0 then 20 else ElectionTickMax cfg)
    (if HeartbeatTicks cfg =? 0 then 2 else HeartbeatTicks cfg).

Definition NewNode (cfg0 : Config) (init : InitialState) (r : option Rand) : Node :=
  let cfg := defaultTicks cfg0 in
  let l := newRaftLog (init_Snapshot init) (init_Entries init) in
  let n := mkNode cfg (orderedPeers (Peers cfg)) r (init_HardState init) follower 0 0 0 None
             l 0 (snap_Index (init_Snapshot init)) (snap_Index (init_Snapshot init))
             None None None false [] readyAck_zero in
  resetElectionTimeout (with_unstableIndex (lastIndex (log n) +u 1) n).
