(* ===== verification/RaftSpec.v ===== *)
(** The abstract Raft protocol: what the cluster of nodes promises.

    The state keeps, per node, what the node has made durable (term, vote, log), and as
    history the log of each term's leader, the votes that were cast with the voter's
    log at that moment, the candidacies, and the acknowledgements of replicated
    prefixes.  The steps are the protocol's elementary actions; a handler of the
    implementation is a sequence of them (Cluster.v proves that).  The invariant gives
    election safety, log matching and leader completeness. *)

From stdpp Require Import functions.
From S2P Require Import Prelude Proto RaftLog.

Notation elog := (list logEntry) (only parsing).

Record vote_rec : Type := mkVote { v_voter : Z; v_term : Z; v_cand : Z; v_log : elog }.
Record ack_rec : Type := mkAck { k_node : Z; k_term : Z; k_match : nat }.

Record astate : Type := mkA {
  a_term : Z -> Z;
  a_vote : Z -> Z;
  a_log : Z -> elog;
  g_cand : Z -> Z -> option elog;      (* node, term: its log when it became a candidate *)
  g_leader : Z -> option Z;            (* term: the elected leader *)
  g_base : Z -> elog;                  (* term: the leader's log when it was elected *)
  g_tlog : Z -> elog;                  (* term: the leader's log, growing *)
  g_votes : list vote_rec;
  g_acks : list ack_rec;
}.

Definition last_term (L : elog) : Z := match last L with Some e => term e | None => 0 end.

(** The election restriction: [Lc] is at least as up to date as [Lv]. *)
Definition uptodate (Lc Lv : elog) : Prop :=
  last_term Lv < last_term Lc \/
  (last_term Lc = last_term Lv /\ (length Lv <= length Lc)%nat).

Section spec.
Context (ids : list Z).

Definition quorum (Q : list Z) : Prop :=
  NoDup Q /\ Q ⊆ ids /\ (length ids < 2 * length Q)%nat.

(** Steps on a node's term and vote. *)
Inductive hstep (i : Z) (s : astate) : astate -> Prop :=
  | as_bump t :
      a_term s i < t ->
      hstep i s (mkA (<[i := t]> (a_term s)) (<[i := 0]> (a_vote s)) (a_log s) (g_cand s)
                 (g_leader s) (g_base s) (g_tlog s) (g_votes s) (g_acks s))
  | as_cand t :
      a_term s i < t -> i <> 0 ->
      hstep i s (mkA (<[i := t]> (a_term s)) (<[i := i]> (a_vote s)) (a_log s)
                 (<[i := <[t := Some (a_log s i)]> (g_cand s i)]> (g_cand s))
                 (g_leader s) (g_base s) (g_tlog s)
                 (mkVote i t i (a_log s i) :: g_votes s) (g_acks s))
  | as_vote c Lc :
      a_vote s i = 0 -> c <> 0 ->
      g_cand s c (a_term s i) = Some Lc -> uptodate Lc (a_log s i) ->
      hstep i s (mkA (a_term s) (<[i := c]> (a_vote s)) (a_log s) (g_cand s)
                 (g_leader s) (g_base s) (g_tlog s)
                 (mkVote i (a_term s i) c (a_log s i) :: g_votes s) (g_acks s)).

(** Steps on a node's log. *)
Inductive lstep (i : Z) (s : astate) : astate -> Prop :=
  | as_elect e Q :
      g_cand s i (a_term s i) = Some (a_log s i) ->
      g_leader s (a_term s i) = None ->
      quorum Q ->
      (forall q, q ∈ Q -> exists L, mkVote q (a_term s i) i L ∈ g_votes s) ->
      term e = a_term s i ->
      lstep i s (mkA (a_term s) (a_vote s) (<[i := a_log s i ++ [e]]> (a_log s)) (g_cand s)
                 (<[a_term s i := Some i]> (g_leader s))
                 (<[a_term s i := a_log s i]> (g_base s))
                 (<[a_term s i := a_log s i ++ [e]]> (g_tlog s))
                 (g_votes s) (g_acks s))
  | as_append e :
      g_leader s (a_term s i) = Some i -> a_log s i = g_tlog s (a_term s i) ->
      term e = a_term s i ->
      lstep i s (mkA (a_term s) (a_vote s) (<[i := a_log s i ++ [e]]> (a_log s)) (g_cand s)
                 (g_leader s) (g_base s)
                 (<[a_term s i := a_log s i ++ [e]]> (g_tlog s))
                 (g_votes s) (g_acks s))
  | as_extend k :
      is_Some (g_leader s (a_term s i)) ->
      a_log s i `prefix_of` g_tlog s (a_term s i) ->
      (length (a_log s i) <= k)%nat ->
      lstep i s (mkA (a_term s) (a_vote s) (<[i := take k (g_tlog s (a_term s i))]> (a_log s))
                 (g_cand s) (g_leader s) (g_base s) (g_tlog s) (g_votes s) (g_acks s))
  | as_trunc f :
      is_Some (g_leader s (a_term s i)) ->
      take (S f) (a_log s i) <> take (S f) (g_tlog s (a_term s i)) ->
      lstep i s (mkA (a_term s) (a_vote s) (<[i := take f (a_log s i)]> (a_log s))
                 (g_cand s) (g_leader s) (g_base s) (g_tlog s) (g_votes s) (g_acks s))
  | as_ack k :
      is_Some (g_leader s (a_term s i)) ->
      (k <= length (g_tlog s (a_term s i)))%nat ->
      take k (g_tlog s (a_term s i)) `prefix_of` a_log s i ->
      lstep i s (mkA (a_term s) (a_vote s) (a_log s)
                 (g_cand s) (g_leader s) (g_base s) (g_tlog s) (g_votes s)
                 (mkAck i (a_term s i) k :: g_acks s)).

Definition astep (s s' : astate) : Prop := exists i, hstep i s s' \/ lstep i s s'.

Definition ainit : astate :=
  mkA (fun _ => 0) (fun _ => 0) (fun _ => []) (fun _ _ => None) (fun _ => None)
    (fun _ => []) (fun _ => []) [] [].

(** * Quorums *)

Lemma quorum_intersect Q1 Q2 : quorum Q1 -> quorum Q2 -> exists q, q ∈ Q1 /\ q ∈ Q2.
Proof.
  intros (Hnd1 & Hs1 & Hl1) (Hnd2 & Hs2 & Hl2).
  destruct (list_find (fun q => q ∈ Q2) Q1) as [[i q]|] eqn:E.
  { apply list_find_Some in E as (Hi & Hq & _). exists q. split; [|done].
    by eapply list_elem_of_lookup_2. }
  exfalso. apply list_find_None in E. rewrite Forall_forall in E.
  assert (length (Q1 ++ Q2) <= length ids)%nat as Hlen.
  { apply submseteq_length, NoDup_submseteq; [|set_solver].
    apply NoDup_app. split_and!; [done| |done]. intros x Hx Hx2. by apply (E x). }
  rewrite length_app in Hlen. lia.
Qed.

(** * The invariant *)

(** A log is consistent when each of its entries sits on the same prefix as in the log of
    the entry's term's leader. *)
Definition logok (s : astate) (L : elog) : Prop :=
  forall k e, L !! k = Some e ->
    is_Some (g_leader s (term e)) /\ take (S k) L = take (S k) (g_tlog s (term e)).

(** Each acknowledged prefix is still in [L], or a leader elected up to term [t] does not
    have it. *)
Definition ack_ok (s : astate) (T0 : Z) (m : nat) (L : elog) (t : Z) : Prop :=
  forall j, (j <= m)%nat ->
    take j (g_tlog s T0) `prefix_of` L \/
    exists T', T0 < T' <= t /\ is_Some (g_leader s T') /\
      ~ take j (g_tlog s T0) `prefix_of` g_base s T'.

Definition elected_by (s : astate) (T c : Z) (q : Z) : Prop :=
  exists Lv, mkVote q T c Lv ∈ g_votes s /\ uptodate (g_base s T) Lv /\ logok s Lv /\
    forall T0 m, mkAck q T0 m ∈ g_acks s -> T0 < T -> ack_ok s T0 m Lv (T - 1).

Record ainv (s : astate) : Prop := mkAinv {
  inv_term : forall i, 0 <= a_term s i;
  inv_vote : forall i T c L, mkVote i T c L ∈ g_votes s ->
    T <= a_term s i /\ c <> 0 /\ (T = a_term s i -> a_vote s i = c) /\ logok s L /\
    exists Lc, g_cand s c T = Some Lc /\ uptodate Lc L;
  inv_voted : forall i, a_vote s i <> 0 ->
    exists L, mkVote i (a_term s i) (a_vote s i) L ∈ g_votes s;
  inv_vote_fun : forall i T c c' L L',
    mkVote i T c L ∈ g_votes s -> mkVote i T c' L' ∈ g_votes s -> c = c';
  inv_vote_ack : forall i T c L T0 m,
    mkVote i T c L ∈ g_votes s -> mkAck i T0 m ∈ g_acks s -> T0 < T -> ack_ok s T0 m L T;
  inv_cand : forall i T L, g_cand s i T = Some L ->
    T <= a_term s i /\ 0 < T /\ logok s L /\ Forall (fun e => term e < T) L;
  inv_log : forall i, logok s (a_log s i) /\ Forall (fun e => term e <= a_term s i) (a_log s i);
  inv_leader : forall T c, g_leader s T = Some c ->
    g_cand s c T = Some (g_base s T) /\
    (exists suf, g_tlog s T = g_base s T ++ suf /\ suf <> [] /\ Forall (fun e => term e = T) suf) /\
    (exists Q, quorum Q /\ forall q, q ∈ Q -> elected_by s T c q);
  inv_ack : forall i T0 m, mkAck i T0 m ∈ g_acks s ->
    is_Some (g_leader s T0) /\ (m <= length (g_tlog s T0))%nat /\ T0 <= a_term s i /\
    ack_ok s T0 m (a_log s i) (a_term s i);
}.

(** History only grows. *)
Record gext (s s' : astate) : Prop := mkGext {
  gx_leader : forall T c, g_leader s T = Some c -> g_leader s' T = Some c;
  gx_base : forall T, is_Some (g_leader s T) -> g_base s' T = g_base s T;
  gx_tlog : forall T, is_Some (g_leader s T) -> g_tlog s T `prefix_of` g_tlog s' T;
  gx_cand : forall i T L, g_cand s i T = Some L -> g_cand s' i T = Some L;
  gx_votes : g_votes s ⊆ g_votes s';
  gx_acks : g_acks s ⊆ g_acks s';
  gx_term : forall i, a_term s i <= a_term s' i;
}.

Lemma gext_refl s : gext s s.
Proof. split; done. Qed.

Lemma gext_trans s1 s2 s3 : gext s1 s2 -> gext s2 s3 -> gext s1 s3.
Proof.
  intros [A1 A2 A3 A4 A5 A6 A7] [B1 B2 B3 B4 B5 B6 B7].
  assert (forall T, is_Some (g_leader s1 T) -> is_Some (g_leader s2 T)) as HS
    by (intros T [c Hc]; eauto).
  split; [eauto|..].
  - intros T HT. rewrite B2 by auto. auto.
  - intros T HT. etrans; [apply A3|apply B3]; auto.
  - eauto.
  - set_solver.
  - set_solver.
  - intros i. etrans; eauto.
Qed.

Section mono.
Context (s s' : astate) (Hx : gext s s').

Lemma gext_is_leader T : is_Some (g_leader s T) -> is_Some (g_leader s' T).
Proof using Hx. intros [c Hc]. exists c. by apply (gx_leader _ _ Hx). Qed.

Lemma gext_take T j :
  is_Some (g_leader s T) -> (j <= length (g_tlog s T))%nat ->
  take j (g_tlog s' T) = take j (g_tlog s T).
Proof using Hx.
  intros HT Hj. symmetry. apply prefix_take_eq; [|done]. by apply (gx_tlog _ _ Hx).
Qed.

Lemma logok_mono L : logok s L -> logok s' L.
Proof using Hx.
  intros HL k e He. destruct (HL k e He) as [HT Htk]. split; [by apply gext_is_leader|].
  rewrite Htk. symmetry. apply gext_take; [done|].
  eapply take_eq_length; [done|]. by eapply lookup_lt_Some.
Qed.

Lemma ack_ok_mono T0 m L L' t t' :
  is_Some (g_leader s T0) -> (m <= length (g_tlog s T0))%nat ->
  L `prefix_of` L' -> t <= t' ->
  ack_ok s T0 m L t -> ack_ok s' T0 m L' t'.
Proof using Hx.
  intros HT0 Hm HL Ht Hok j Hj. rewrite gext_take by (done || lia).
  destruct (Hok j Hj) as [Hp|(T' & HT' & Hld & Hn)].
  - left. by etrans.
  - right. exists T'. split_and!; [lia|lia|by apply gext_is_leader|].
    by rewrite (gx_base _ _ Hx).
Qed.

Lemma ack_ok_keep T0 m L t :
  is_Some (g_leader s T0) -> (m <= length (g_tlog s T0))%nat ->
  ack_ok s T0 m L t -> ack_ok s' T0 m L t.
Proof using Hx. intros. by eapply (ack_ok_mono T0 m L L). Qed.
End mono.

(** What a step that only changes node [i] must show; the rest is carried by [gext]. *)
Record step_ok (s s' : astate) (i : Z) : Prop := mkStepOk {
  so_gext : gext s s';
  so_other : forall j, j <> i ->
    a_term s' j = a_term s j /\ a_vote s' j = a_vote s j /\ a_log s' j = a_log s j;
  so_vote : a_term s i < a_term s' i \/ a_vote s i = 0 \/ a_vote s' i = a_vote s i;
  so_voted : a_vote s' i <> 0 ->
    (a_term s' i = a_term s i /\ a_vote s' i = a_vote s i) \/
    mkVote i (a_term s' i) (a_vote s' i) (a_log s i) ∈ g_votes s';
  so_log : logok s' (a_log s' i) /\ Forall (fun e => term e <= a_term s' i) (a_log s' i);
  so_ack : forall T0 m, mkAck i T0 m ∈ g_acks s' ->
    is_Some (g_leader s' T0) /\ (m <= length (g_tlog s' T0))%nat /\ T0 <= a_term s' i /\
    ack_ok s' T0 m (a_log s' i) (a_term s' i);
  so_acks : forall a, a ∈ g_acks s' ->
    a ∈ g_acks s \/ (k_node a = i /\ k_term a = a_term s i /\ a_term s' i = a_term s i);
  so_votes : g_votes s' = g_votes s \/
    exists Lc, g_votes s' = mkVote i (a_term s' i) (a_vote s' i) (a_log s i) :: g_votes s /\
      a_vote s' i <> 0 /\ g_cand s' (a_vote s' i) (a_term s' i) = Some Lc /\
      uptodate Lc (a_log s i) /\ g_acks s' = g_acks s /\
      (a_term s i < a_term s' i \/ a_vote s i = 0);
  so_cand : forall j T L, g_cand s' j T = Some L ->
    g_cand s j T = Some L \/
    (j = i /\ T = a_term s' i /\ a_term s i < T /\ L = a_log s i);
  so_leader : forall T c, g_leader s' T = Some c ->
    (g_leader s T = Some c /\
     (g_tlog s' T = g_tlog s T \/ exists e, g_tlog s' T = g_tlog s T ++ [e] /\ term e = T)) \/
    (g_cand s' c T = Some (g_base s' T) /\
     (exists e, g_tlog s' T = g_base s' T ++ [e] /\ term e = T) /\
     exists Q, quorum Q /\ forall q, q ∈ Q -> elected_by s' T c q);
  so_frame : forall T c, g_leader s' T = Some c -> c <> i ->
    g_leader s T = Some c /\ g_tlog s' T = g_tlog s T;
}.

Lemma elected_by_mono s s' i T c q :
  ainv s -> gext s s' -> is_Some (g_leader s T) ->
  (forall a, a ∈ g_acks s' ->
     a ∈ g_acks s \/ (k_node a = i /\ k_term a = a_term s i)) ->
  elected_by s T c q -> elected_by s' T c q.
Proof.
  intros Hinv Hx HT Hacks (Lv & Hv & Hup & Hok & Hack). exists Lv. split_and!.
  - by apply (gx_votes _ _ Hx).
  - by rewrite (gx_base _ _ Hx).
  - by eapply logok_mono.
  - intros T0 m Hm Hlt. destruct (Hacks _ Hm) as [Hold|[Hn Ht]].
    + destruct (inv_ack _ Hinv _ _ _ Hold) as (HT0 & Hlen & _ & _).
      eapply ack_ok_keep; eauto.
    + simpl in Hn, Ht. subst q T0.
      destruct (inv_vote _ Hinv _ _ _ _ Hv) as (Hle & _). lia.
Qed.

Lemma vote_not_current s s' i T c L :
  ainv s -> (a_term s i < a_term s' i \/ a_vote s i = 0) -> a_term s i <= a_term s' i ->
  mkVote i T c L ∈ g_votes s -> T <> a_term s' i.
Proof.
  intros Hinv Hor Hle Hv ->. destruct (inv_vote _ Hinv _ _ _ _ Hv) as (HT & Hc & Hcur & _).
  destruct Hor as [|H0]; [lia|]. destruct (decide (a_term s' i = a_term s i)) as [E|]; [|lia].
  specialize (Hcur E). congruence.
Qed.

(** * A step keeps the invariant

    One lemma for each part of the invariant. *)
Section step.
Context (s s' : astate) (i : Z) (Hinv : ainv s) (Hstep : step_ok s s' i).

(** What every part uses of the step. *)
Ltac from_step :=
  pose proof (so_gext _ _ _ Hstep) as Hx; pose proof (so_other _ _ _ Hstep) as Hoth; pose proof (gx_term _ _ Hx i) as Hti.

Lemma step_acks a : a ∈ g_acks s' -> a ∈ g_acks s \/ (k_node a = i /\ k_term a = a_term s i).
Proof. intros Ha. destruct (so_acks _ _ _ Hstep a Ha) as [|(?&?&?)]; auto. Qed.

Lemma step_votes_ok :
  forall j T c L, mkVote j T c L ∈ g_votes s' ->
    T <= a_term s' j /\ c <> 0 /\ (T = a_term s' j -> a_vote s' j = c) /\ logok s' L /\
    exists Lc, g_cand s' c T = Some Lc /\ uptodate Lc L.
Proof.
  from_step. pose proof (so_vote _ _ _ Hstep) as Hvote. pose proof (so_votes _ _ _ Hstep) as Hvotes.
  intros j T c L Hv.
  assert (mkVote j T c L ∈ g_votes s \/
    (j = i /\ T = a_term s' i /\ c = a_vote s' i /\ L = a_log s i /\ c <> 0 /\
     exists Lc, g_cand s' c T = Some Lc /\ uptodate Lc L)) as [Hold|(-> & -> & -> & -> & Hc & HLc)].
  { destruct Hvotes as [E|(Lc & E & Hc & HLc & Hup & _)]; rewrite E in Hv; [by left|].
    apply elem_of_cons in Hv as [Heq|]; [|by left]. simplify_eq. right. eauto 10. }
  + destruct (inv_vote _ Hinv _ _ _ _ Hold) as (HT & Hc & Hcur & Hok & Lc & HLc & Hup).
    pose proof (gx_term _ _ Hx j). split_and!; [lia|done| |by eapply logok_mono|].
    * intros ->. destruct (decide (j = i)) as [->|Hj].
      -- destruct Hvote as [|[H0 | ->]]; [lia| |apply Hcur; lia].
         exfalso. eapply vote_not_current; eauto.
      -- destruct (Hoth j Hj) as (_ & -> & _). apply Hcur. lia.
    * exists Lc. split; [|done]. by apply (gx_cand _ _ Hx).
  + split_and!; [lia|done|done| |done]. eapply logok_mono; [done|]. apply (inv_log _ Hinv).
Qed.

Lemma step_voted :
  forall j, a_vote s' j <> 0 ->
    exists L, mkVote j (a_term s' j) (a_vote s' j) L ∈ g_votes s'.
Proof.
  from_step. pose proof (so_voted _ _ _ Hstep) as Hvoted.
  intros j Hj. destruct (decide (j = i)) as [->|Hne].
  + destruct (Hvoted Hj) as [[-> Hv]|]; [|eauto]. rewrite Hv in Hj |- *.
    destruct (inv_voted _ Hinv i Hj) as [L HL]. exists L. by apply (gx_votes _ _ Hx).
  + destruct (Hoth j Hne) as (-> & Hv & _). rewrite Hv in Hj |- *.
    destruct (inv_voted _ Hinv j Hj) as [L HL]. exists L. by apply (gx_votes _ _ Hx).
Qed.

Lemma step_vote_fun :
  forall j T c c' L L',
    mkVote j T c L ∈ g_votes s' -> mkVote j T c' L' ∈ g_votes s' -> c = c'.
Proof.
  from_step. pose proof (so_votes _ _ _ Hstep) as Hvotes.
  intros j T c c' L L' Hv Hv'.
  destruct Hvotes as [E|(Lc & E & Hc & HLc & Hup & _ & Hnew)]; rewrite E in Hv, Hv'.
  { by eapply (inv_vote_fun _ Hinv). }
  apply elem_of_cons in Hv as [Heq|Hv]; apply elem_of_cons in Hv' as [Heq'|Hv']; simplify_eq;
    [done| | |by eapply (inv_vote_fun _ Hinv)].
  + exfalso. by eapply vote_not_current.
  + exfalso. by eapply vote_not_current.
Qed.

Lemma step_vote_ack :
  forall j T c L T0 m,
    mkVote j T c L ∈ g_votes s' -> mkAck j T0 m ∈ g_acks s' -> T0 < T -> ack_ok s' T0 m L T.
Proof.
  from_step. pose proof (so_acks _ _ _ Hstep) as Hacks. pose proof (so_votes _ _ _ Hstep) as Hvotes.
  intros j T c L T0 m Hv Hm Hlt.
  destruct Hvotes as [E|(Lc & E & Hc & HLc & Hup & Eack & Hnew)]; rewrite E in Hv.
  + destruct (Hacks _ Hm) as [Hold|(Hn & Ht & _)]; simpl in *.
    * destruct (inv_ack _ Hinv _ _ _ Hold) as (HT0 & Hlen & _ & _).
      eapply ack_ok_keep; [done..|]. by eapply (inv_vote_ack _ Hinv).
    * subst j T0. destruct (inv_vote _ Hinv _ _ _ _ Hv) as (HT & _). lia.
  + rewrite Eack in Hm. destruct (inv_ack _ Hinv _ _ _ Hm) as (HT0 & Hlen & _ & Hok).
    apply elem_of_cons in Hv as [Heq|Hv]; simplify_eq.
    * by eapply (ack_ok_mono s s').
    * eapply ack_ok_keep; [done..|]. by eapply (inv_vote_ack _ Hinv).
Qed.

Lemma step_cands :
  forall j T L, g_cand s' j T = Some L ->
    T <= a_term s' j /\ 0 < T /\ logok s' L /\ Forall (fun e => term e < T) L.
Proof.
  from_step. pose proof (so_cand _ _ _ Hstep) as Hcand.
  intros j T L HL. destruct (Hcand _ _ _ HL) as [Hold|(-> & -> & Hlt & ->)].
  + destruct (inv_cand _ Hinv _ _ _ Hold) as (? & ? & ? & ?).
    pose proof (gx_term _ _ Hx j). split_and!; [lia|done|by eapply logok_mono|done].
  + pose proof (inv_term _ Hinv i). destruct (inv_log _ Hinv i) as [Hok Hle].
    split_and!; [lia|lia|by eapply logok_mono|].
    eapply Forall_impl; [exact Hle|]. simpl. intros e ?. lia.
Qed.

Lemma step_logs :
  forall j, logok s' (a_log s' j) /\ Forall (fun e => term e <= a_term s' j) (a_log s' j).
Proof.
  from_step.
  intros j. destruct (decide (j = i)) as [->|Hj]; [apply (so_log _ _ _ Hstep)|].
  destruct (Hoth j Hj) as (-> & _ & ->). destruct (inv_log _ Hinv j).
  split; [by eapply logok_mono|done].
Qed.

Lemma step_leaders :
  forall T c, g_leader s' T = Some c ->
    g_cand s' c T = Some (g_base s' T) /\
    (exists suf, g_tlog s' T = g_base s' T ++ suf /\ suf <> [] /\ Forall (fun e => term e = T) suf) /\
    (exists Q, quorum Q /\ forall q, q ∈ Q -> elected_by s' T c q).
Proof.
  from_step. pose proof (so_leader _ _ _ Hstep) as Hlead.
  intros T c HT. destruct (Hlead T c HT) as [[Hold Ht]|(Hc & (e & He & Hte) & HQ)].
  + destruct (inv_leader _ Hinv _ _ Hold) as (Hc & (suf & Htl & Hne & Hsuf) & Q & HQ & Hel).
    assert (is_Some (g_leader s T)) as HS by (eexists; done).
    rewrite (gx_base _ _ Hx) by done. split_and!.
    * by apply (gx_cand _ _ Hx).
    * destruct Ht as [-> | (e & -> & He)]; [eauto|].
      exists (suf ++ [e]). rewrite Htl, <- app_assoc. split_and!; [done| |].
      -- by destruct suf.
      -- apply Forall_app. split; [done|]. by constructor.
    * exists Q. split; [done|]. intros q Hq. eapply elected_by_mono; eauto using step_acks.
  + split_and!; [done| |done]. exists [e]. split_and!; [done|done|]. by constructor.
Qed.

Lemma step_acks_ok :
  forall j T0 m, mkAck j T0 m ∈ g_acks s' ->
    is_Some (g_leader s' T0) /\ (m <= length (g_tlog s' T0))%nat /\ T0 <= a_term s' j /\
    ack_ok s' T0 m (a_log s' j) (a_term s' j).
Proof.
  from_step. pose proof (so_ack _ _ _ Hstep) as Hack.
  intros j T0 m Hm. destruct (decide (j = i)) as [->|Hj]; [by apply Hack|].
  destruct (step_acks _ Hm) as [Hold|[Hn _]]; [|simpl in Hn; congruence].
  destruct (inv_ack _ Hinv _ _ _ Hold) as (HT0 & Hlen & Hle & Hok).
  destruct (Hoth j Hj) as (-> & _ & ->). split_and!.
  + by eapply gext_is_leader.
  + etrans; [done|]. apply prefix_length. by apply (gx_tlog _ _ Hx).
  + done.
  + eapply ack_ok_keep; eauto.
Qed.

Lemma ainv_step : ainv s'.
Proof.
  split; [|exact step_votes_ok|exact step_voted|exact step_vote_fun|exact step_vote_ack|exact step_cands|exact step_logs|exact step_leaders|exact step_acks_ok].
  from_step. intros j. pose proof (gx_term _ _ Hx j). pose proof (inv_term _ Hinv j). lia.
Qed.
End step.

(** * Facts about the leaders' logs *)

Lemma logok_prefix s L K : logok s L -> K `prefix_of` L -> logok s K.
Proof.
  intros HL HK k e He. pose proof (prefix_lookup_Some _ _ _ _ He HK) as He'.
  destruct (HL k e He') as [HT Htk]. split; [done|]. rewrite <- Htk.
  apply prefix_take_eq; [done|]. by eapply lookup_lt_Some.
Qed.

Lemma logok_snoc s L e :
  logok s L -> is_Some (g_leader s (term e)) -> g_tlog s (term e) = L ++ [e] ->
  logok s (L ++ [e]).
Proof.
  intros HL HT He k x Hx. apply lookup_app_Some in Hx as [Hx|[Hge Hx]].
  - destruct (HL k x Hx) as [? Htk]. split; [done|]. rewrite <- Htk.
    apply take_app_le. apply lookup_lt_Some in Hx. lia.
  - apply list_lookup_singleton_Some in Hx as [_ <-]. split; [done|]. by rewrite He.
Qed.

Section facts.
Context (s : astate) (Hinv : ainv s).

Lemma base_terms T : is_Some (g_leader s T) -> Forall (fun e => term e < T) (g_base s T).
Proof using Hinv.
  intros [c Hc]. destruct (inv_leader _ Hinv _ _ Hc) as (Hcand & _).
  by destruct (inv_cand _ Hinv _ _ _ Hcand) as (_ & _ & _ & ?).
Qed.

Lemma base_prefix T : is_Some (g_leader s T) -> g_base s T `prefix_of` g_tlog s T.
Proof using Hinv.
  intros [c Hc]. destruct (inv_leader _ Hinv _ _ Hc) as (_ & (suf & -> & _) & _).
  by apply prefix_app_r.
Qed.

Lemma tlog_terms T : is_Some (g_leader s T) -> Forall (fun e => term e <= T) (g_tlog s T).
Proof using Hinv.
  intros HT. pose proof (base_terms T HT) as Hb. destruct HT as [c Hc].
  destruct (inv_leader _ Hinv _ _ Hc) as (_ & (suf & -> & _ & Hsuf) & _).
  apply Forall_app. split; eapply Forall_impl; eauto; simpl; intros; lia.
Qed.

Lemma tlog_ok T : is_Some (g_leader s T) -> logok s (g_tlog s T).
Proof using Hinv.
  intros HS k e He. pose proof HS as [c Hc].
  destruct (inv_leader _ Hinv _ _ Hc) as (Hcand & (suf & Htl & _ & Hsuf) & _).
  destruct (inv_cand _ Hinv _ _ _ Hcand) as (_ & _ & Hok & _).
  rewrite Htl in He. apply lookup_app_Some in He as [He|[Hge He]].
  - destruct (Hok k e He) as [HT Htk]. split; [done|]. rewrite <- Htk, Htl.
    apply take_app_le. apply lookup_lt_Some in He. lia.
  - rewrite Forall_lookup in Hsuf. rewrite (Hsuf _ _ He). split; [done|done].
Qed.

Lemma leader_pos T : is_Some (g_leader s T) -> 0 < T.
Proof using Hinv.
  intros [c Hc]. destruct (inv_leader _ Hinv _ _ Hc) as (Hcand & _).
  by destruct (inv_cand _ Hinv _ _ _ Hcand) as (_ & ? & _).
Qed.

(** A prefix with terms below [T] that is in the leader's log is in its base. *)
Lemma prefix_base T P :
  is_Some (g_leader s T) -> Forall (fun e => term e < T) P ->
  P `prefix_of` g_tlog s T -> P `prefix_of` g_base s T.
Proof using Hinv.
  intros HS HP Hpre. pose proof (base_prefix T HS) as Hb.
  destruct (decide (length P <= length (g_base s T))%nat) as [Hle|Hgt].
  { by eapply prefix_comparable. }
  exfalso. destruct HS as [c Hc].
  destruct (inv_leader _ Hinv _ _ Hc) as (_ & (suf & Htl & Hne & Hsuf) & _).
  destruct suf as [|x suf]; [done|]. apply Forall_cons in Hsuf as [Hx _].
  destruct (lookup_lt_is_Some_2 P (length (g_base s T))) as [y Hy]; [lia|].
  pose proof (prefix_lookup_Some _ _ _ _ Hy Hpre) as Hy'.
  rewrite Htl, lookup_app_r, Nat.sub_diag in Hy' by lia. simpl in Hy'. simplify_eq.
  rewrite Forall_lookup in HP. specialize (HP _ _ Hy). lia.
Qed.

(** A nonempty consistent log is a prefix of the log of its last entry's term. *)
Lemma logok_last L e :
  logok s L -> last L = Some e ->
  is_Some (g_leader s (term e)) /\ L `prefix_of` g_tlog s (term e).
Proof using.
  intros HL He. rewrite last_lookup in He. destruct (HL _ _ He) as [HT Htk].
  split; [done|]. apply lookup_lt_Some in He.
  replace (S (Nat.pred (length L))) with (length L) in Htk by lia.
  rewrite firstn_all in Htk. by apply prefix_is_take.
Qed.

(** Log matching: two consistent logs that agree on the term at an index agree up to it. *)
Lemma logok_matching L K k e e' :
  logok s L -> logok s K -> L !! k = Some e -> K !! k = Some e' -> term e = term e' ->
  take (S k) L = take (S k) K.
Proof using.
  intros HL HK He He' Ht. destruct (HL _ _ He) as [_ ->]. destruct (HK _ _ He') as [_ ->].
  by rewrite Ht.
Qed.
End facts.

(** * Every step preserves the invariant *)

Ltac fn_simpl :=
  repeat match goal with
  | |- context [<[?a := _]> _ ?a] => rewrite fn_lookup_insert
  | H : context [<[?a := _]> _ ?a] |- _ => rewrite fn_lookup_insert in H
  | Hne : ?b <> ?a |- context [<[?a := _]> _ ?b] => rewrite fn_lookup_insert_ne by congruence
  | Hne : ?b <> ?a, H : context [<[?a := _]> _ ?b] |- _ =>
      rewrite fn_lookup_insert_ne in H by congruence
  | Hne : ?a <> ?b |- context [<[?a := _]> _ ?b] => rewrite fn_lookup_insert_ne by congruence
  | Hne : ?a <> ?b, H : context [<[?a := _]> _ ?b] |- _ =>
      rewrite fn_lookup_insert_ne in H by congruence
  end.

(** The log of node [i] after a step that only touches logs of the same history. *)
Lemma ack_same s i L' :
  ainv s -> a_log s i `prefix_of` L' ->
  forall T0 m, mkAck i T0 m ∈ g_acks s ->
  is_Some (g_leader s T0) /\ (m <= length (g_tlog s T0))%nat /\ T0 <= a_term s i /\
  ack_ok s T0 m L' (a_term s i).
Proof.
  intros Hinv Hp T0 m Hm. destruct (inv_ack _ Hinv _ _ _ Hm) as (? & ? & ? & Hok).
  split_and!; [done..|].
  by apply (ack_ok_mono s s (gext_refl s) T0 m (a_log s i) L' (a_term s i)).
Qed.

(** Steps that change terms and votes only keep the rest of node [i]'s obligations. *)
Lemma step_ok_vote s s' i :
  ainv s -> gext s s' ->
  (forall j, j <> i ->
    a_term s' j = a_term s j /\ a_vote s' j = a_vote s j /\ a_log s' j = a_log s j) ->
  a_log s' i = a_log s i -> g_acks s' = g_acks s ->
  g_leader s' = g_leader s -> g_tlog s' = g_tlog s ->
  (a_term s i < a_term s' i \/ a_vote s i = 0 \/ a_vote s' i = a_vote s i) ->
  ((g_votes s' = g_votes s /\ a_vote s' i = 0) \/
    exists Lc, g_votes s' = mkVote i (a_term s' i) (a_vote s' i) (a_log s i) :: g_votes s /\
      a_vote s' i <> 0 /\ g_cand s' (a_vote s' i) (a_term s' i) = Some Lc /\
      uptodate Lc (a_log s i) /\ (a_term s i < a_term s' i \/ a_vote s i = 0)) ->
  (forall j T L, g_cand s' j T = Some L ->
    g_cand s j T = Some L \/ (j = i /\ T = a_term s' i /\ a_term s i < T /\ L = a_log s i)) ->
  step_ok s s' i.
Proof.
  intros Hinv Hx Hoth Hlog Hacks Hld Htl Hv Hvotes Hcand.
  pose proof (gx_term _ _ Hx i) as Hti. split; try done.
  - intros Hne. right. destruct Hvotes as [[_ ?]|(Lc & -> & _)]; [done|]. by left.
  - rewrite Hlog. destruct (inv_log _ Hinv i) as [Hok Hle]. split; [by eapply logok_mono|].
    eapply Forall_impl; [done|]. simpl. intros; lia.
  - intros T0 m Hm. rewrite Hacks in Hm. rewrite Hlog, Hld, Htl.
    destruct (inv_ack _ Hinv _ _ _ Hm) as (HT0 & Hlen & Hle & Hok).
    split_and!; [done|done|lia|]. by eapply (ack_ok_mono s s').
  - intros a Ha. left. congruence.
  - destruct Hvotes as [[? ?]|(Lc & ? & ? & ? & ? & ?)]; [by left|right]. by exists Lc.
  - intros T c HT. left. rewrite Hld in HT. split; [done|]. left. by rewrite Htl.
  - intros T c HT _. rewrite Hld in HT. by rewrite Htl.
Qed.

Lemma step_bump s i t :
  ainv s -> a_term s i < t ->
  step_ok s (mkA (<[i := t]> (a_term s)) (<[i := 0]> (a_vote s)) (a_log s) (g_cand s)
               (g_leader s) (g_base s) (g_tlog s) (g_votes s) (g_acks s)) i.
Proof.
  intros Hinv Ht. apply step_ok_vote; simpl; fn_simpl; auto.
  - split; simpl; try done. intros j. destruct (decide (j = i)) as [->|]; fn_simpl; lia.
  - intros j Hj. by fn_simpl.
Qed.

Lemma step_cand s i t :
  ainv s -> a_term s i < t -> i <> 0 ->
  step_ok s (mkA (<[i := t]> (a_term s)) (<[i := i]> (a_vote s)) (a_log s)
               (<[i := <[t := Some (a_log s i)]> (g_cand s i)]> (g_cand s))
               (g_leader s) (g_base s) (g_tlog s)
               (mkVote i t i (a_log s i) :: g_votes s) (g_acks s)) i.
Proof.
  intros Hinv Ht Hi.
  assert (g_cand s i t = None) as Hnone.
  { destruct (g_cand s i t) as [L|] eqn:E; [|done].
    destruct (inv_cand _ Hinv _ _ _ E). lia. }
  apply step_ok_vote; simpl; fn_simpl; auto.
  - split; simpl; try done.
    + intros j T L HL. destruct (decide (j = i)) as [->|]; fn_simpl; [|done].
      destruct (decide (T = t)) as [->|]; fn_simpl; [congruence|done].
    + set_solver.
    + intros j. destruct (decide (j = i)) as [->|]; fn_simpl; lia.
  - intros j Hj. by fn_simpl.
  - right. exists (a_log s i). fn_simpl. split_and!; [done|done|done| |by left].
    right. split; [done|lia].
  - intros j T L HL. destruct (decide (j = i)) as [->|]; fn_simpl; [|by left].
    destruct (decide (T = t)) as [->|]; fn_simpl; [|by left]. simplify_eq. by right.
Qed.

Lemma step_vote s i c Lc :
  ainv s -> a_vote s i = 0 -> c <> 0 ->
  g_cand s c (a_term s i) = Some Lc -> uptodate Lc (a_log s i) ->
  step_ok s (mkA (a_term s) (<[i := c]> (a_vote s)) (a_log s) (g_cand s)
               (g_leader s) (g_base s) (g_tlog s)
               (mkVote i (a_term s i) c (a_log s i) :: g_votes s) (g_acks s)) i.
Proof.
  intros Hinv Hv Hc HLc Hup. apply step_ok_vote; simpl; fn_simpl; auto.
  - split; simpl; try done. set_solver.
  - intros j Hj. by fn_simpl.
  - right. exists Lc. split_and!; auto.
Qed.

(** Steps that change only the log of node [i], not the history. *)
Lemma step_ok_log s i L' :
  ainv s -> logok s L' -> Forall (fun e => term e <= a_term s i) L' ->
  (forall T0 m, mkAck i T0 m ∈ g_acks s -> ack_ok s T0 m L' (a_term s i)) ->
  step_ok s (mkA (a_term s) (a_vote s) (<[i := L']> (a_log s))
               (g_cand s) (g_leader s) (g_base s) (g_tlog s) (g_votes s) (g_acks s)) i.
Proof.
  intros Hinv Hok Hle Hack. split; simpl; fn_simpl; auto.
  - by split.
  - intros j Hj. by fn_simpl.
  - intros T0 m Hm. destruct (inv_ack _ Hinv _ _ _ Hm) as (? & ? & ? & _).
    split_and!; try done. by apply Hack.
Qed.

Lemma step_extend s i k :
  ainv s -> is_Some (g_leader s (a_term s i)) ->
  a_log s i `prefix_of` g_tlog s (a_term s i) -> (length (a_log s i) <= k)%nat ->
  step_ok s (mkA (a_term s) (a_vote s) (<[i := take k (g_tlog s (a_term s i))]> (a_log s))
               (g_cand s) (g_leader s) (g_base s) (g_tlog s) (g_votes s) (g_acks s)) i.
Proof.
  intros Hinv HT Hp Hk. apply step_ok_log; [done| | |].
  - eapply logok_prefix; [by apply tlog_ok|]. apply prefix_take.
  - apply Forall_take. by apply tlog_terms.
  - intros T0 m Hm. apply (ack_same s i); [done| |done].
    apply prefix_is_take in Hp. rewrite Hp. by apply take_prefix_le.
Qed.

Lemma step_trunc s i f :
  ainv s -> is_Some (g_leader s (a_term s i)) ->
  take (S f) (a_log s i) <> take (S f) (g_tlog s (a_term s i)) ->
  step_ok s (mkA (a_term s) (a_vote s) (<[i := take f (a_log s i)]> (a_log s))
               (g_cand s) (g_leader s) (g_base s) (g_tlog s) (g_votes s) (g_acks s)) i.
Proof.
  intros Hinv HT Hdiff. destruct (inv_log _ Hinv i) as [Hok Hle].
  apply step_ok_log; [done| | |].
  - eapply logok_prefix; [done|]. apply prefix_take.
  - by apply Forall_take.
  - intros T0 m Hm j Hj. destruct (inv_ack _ Hinv _ _ _ Hm) as (HT0 & Hlen & HleT & Hack).
    destruct (Hack j Hj) as [Hp|]; [|by right].
    destruct (decide (j <= f)%nat) as [Hjf|Hjf].
    { left. eapply prefix_comparable; [done|apply prefix_take|].
      apply prefix_length in Hp. rewrite !length_take in *. lia. }
    assert (~ take j (g_tlog s T0) `prefix_of` g_tlog s (a_term s i)) as Hn.
    { intros Hp'. apply Hdiff.
      rewrite <- (prefix_take_eq _ _ (S f) Hp) by (rewrite length_take; lia).
      apply prefix_take_eq; [done|]. rewrite length_take. lia. }
    right. exists (a_term s i). split_and!; [|done|done|].
    + destruct (decide (T0 = a_term s i)) as [->|]; [|lia]. exfalso. apply Hn, prefix_take.
    + intros Hb. apply Hn. etrans; [done|]. by apply base_prefix.
Qed.

Lemma step_ack s i k :
  ainv s -> is_Some (g_leader s (a_term s i)) ->
  (k <= length (g_tlog s (a_term s i)))%nat ->
  take k (g_tlog s (a_term s i)) `prefix_of` a_log s i ->
  step_ok s (mkA (a_term s) (a_vote s) (a_log s)
               (g_cand s) (g_leader s) (g_base s) (g_tlog s) (g_votes s)
               (mkAck i (a_term s i) k :: g_acks s)) i.
Proof.
  intros Hinv HT Hk Hp. split; simpl; auto.
  - split; simpl; try done. set_solver.
  - apply (inv_log _ Hinv).
  - intros T0 m Hm. apply elem_of_cons in Hm as [Heq|Hm]; simplify_eq.
    + split_and!; [done|done|done|]. intros j Hj. left. simpl.
      etrans; [|exact Hp]. by apply take_prefix_le.
    + by apply (inv_ack _ Hinv).
  - intros a Ha. apply elem_of_cons in Ha as [->|Ha]; [by right|by left].
Qed.

(** Growing the log of a leader: the new entry goes to its log and its term's log. *)
Lemma step_append s i e :
  ainv s -> g_leader s (a_term s i) = Some i -> a_log s i = g_tlog s (a_term s i) ->
  term e = a_term s i ->
  step_ok s (mkA (a_term s) (a_vote s) (<[i := a_log s i ++ [e]]> (a_log s)) (g_cand s)
               (g_leader s) (g_base s) (<[a_term s i := a_log s i ++ [e]]> (g_tlog s))
               (g_votes s) (g_acks s)) i.
Proof.
  intros Hinv HT Hlog He.
  match goal with |- step_ok s ?x i => set (s' := x) end.
  assert (gext s s') as Hx.
  { split; simpl; try done. intros T _. destruct (decide (T = a_term s i)) as [->|]; fn_simpl; [|done].
    rewrite Hlog. by apply prefix_app_r. }
  destruct (inv_log _ Hinv i) as [Hok Hle].
  split; simpl; fn_simpl; auto.
  - intros j Hj. by fn_simpl.
  - split.
    + apply logok_snoc; [by eapply logok_mono|rewrite He; by exists i|]. simpl. rewrite He. by fn_simpl.
    + apply Forall_app. split; [done|]. constructor; [lia|done].
  - intros T0 m Hm. destruct (inv_ack _ Hinv _ _ _ Hm) as (HT0 & Hlen & Hle0 & Hack).
    split_and!; [done| |done|].
    + etrans; [done|]. apply prefix_length. by apply (gx_tlog _ _ Hx).
    + apply (ack_ok_mono s s' Hx T0 m (a_log s i) _ (a_term s i)); try done. by apply prefix_app_r.
  - intros T c HTc. left. split; [done|].
    destruct (decide (T = a_term s i)) as [->|]; fn_simpl; [|by left].
    right. exists e. by rewrite Hlog.
  - intros T c HTc Hc. destruct (decide (T = a_term s i)) as [->|]; fn_simpl; [congruence|done].
Qed.

Lemma step_elect s i e Q :
  ainv s -> g_cand s i (a_term s i) = Some (a_log s i) ->
  g_leader s (a_term s i) = None -> quorum Q ->
  (forall q, q ∈ Q -> exists L, mkVote q (a_term s i) i L ∈ g_votes s) ->
  term e = a_term s i ->
  step_ok s (mkA (a_term s) (a_vote s) (<[i := a_log s i ++ [e]]> (a_log s)) (g_cand s)
               (<[a_term s i := Some i]> (g_leader s))
               (<[a_term s i := a_log s i]> (g_base s))
               (<[a_term s i := a_log s i ++ [e]]> (g_tlog s))
               (g_votes s) (g_acks s)) i.
Proof.
  intros Hinv Hcand Hnone HQ Hvotes He.
  match goal with |- step_ok s ?x i => set (s' := x) end.
  assert (forall T, is_Some (g_leader s T) -> T <> a_term s i) as Hne.
  { intros T [c Hc] ->. congruence. }
  assert (gext s s') as Hx.
  { split; simpl; try done.
    - intros T c HTc. assert (T <> a_term s i) by (apply Hne; eauto). by fn_simpl.
    - intros T HT. specialize (Hne T HT). by fn_simpl.
    - intros T HT. specialize (Hne T HT). by fn_simpl. }
  destruct (inv_log _ Hinv i) as [Hok Hle].
  split; simpl; fn_simpl; auto.
  - intros j Hj. by fn_simpl.
  - split.
    + apply logok_snoc; [by eapply logok_mono| |]; simpl; rewrite He; by fn_simpl.
    + apply Forall_app. split; [done|]. constructor; [lia|done].
  - intros T0 m Hm. destruct (inv_ack _ Hinv _ _ _ Hm) as (HT0 & Hlen & Hle0 & Hack).
    split_and!; [by eapply (gext_is_leader _ _ Hx)| |done|].
    + etrans; [done|]. apply prefix_length. by apply (gx_tlog _ _ Hx).
    + apply (ack_ok_mono s s' Hx T0 m (a_log s i) _ (a_term s i)); try done. by apply prefix_app_r.
  - intros T c HTc. destruct (decide (T = a_term s i)) as [->|HT]; fn_simpl; [|by auto].
    simplify_eq. right. split_and!; [done|by exists e|]. exists Q. split; [done|].
    intros q Hq. destruct (Hvotes q Hq) as [L HL].
    destruct (inv_vote _ Hinv _ _ _ _ HL) as (_ & _ & _ & HokL & Lc & HLc & Hup).
    rewrite Hcand in HLc. simplify_eq. exists L. simpl. fn_simpl.
    split_and!; [done|done|by eapply logok_mono|].
    intros T0 m Hm Hlt. destruct (inv_ack _ Hinv _ _ _ Hm) as (HT0 & Hlen & _ & _).
    eapply (ack_ok_keep s s'); [done..|]. intros j Hj.
    destruct (inv_vote_ack _ Hinv _ _ _ _ _ _ HL Hm Hlt j Hj) as [|(T' & HT' & Hld & Hn)]; [by left|].
    right. exists T'. specialize (Hne T' Hld). split_and!; [lia|lia|done|done].
  - intros T c HTc Hc. destruct (decide (T = a_term s i)) as [->|]; fn_simpl; [congruence|done].
Qed.

Lemma hstep_ok i s s' : ainv s -> hstep i s s' -> step_ok s s' i.
Proof. intros Hinv []; eauto using step_bump, step_cand, step_vote. Qed.

Lemma lstep_ok i s s' : ainv s -> lstep i s s' -> step_ok s s' i.
Proof.
  intros Hinv []; eauto using step_elect, step_append, step_extend, step_trunc, step_ack.
Qed.

Lemma astep_ok s s' : ainv s -> astep s s' -> exists i, step_ok s s' i.
Proof. intros Hinv [i [Hs|Hs]]; exists i; eauto using hstep_ok, lstep_ok. Qed.

(** * Reachable states and what the invariant gives *)

Definition areach : astate -> Prop := rtc astep ainit.

Lemma ainit_inv : ainv ainit.
Proof.
  split; simpl; try done.
  - intros i T c L H. by apply elem_of_nil in H.
  - intros i T c c' L L' H. by apply elem_of_nil in H.
  - intros i T c L T0 m H. by apply elem_of_nil in H.
  - intros i T0 m H. by apply elem_of_nil in H.
Qed.

(** * What a sequence of steps of node [i] leaves alone *)

Record frame (i : Z) (s s' : astate) : Prop := mkFrame {
  fr_inv : ainv s';
  fr_gext : gext s s';
  fr_node : forall j, j <> i ->
    a_term s' j = a_term s j /\ a_vote s' j = a_vote s j /\ a_log s' j = a_log s j;
  fr_lead : forall T c, g_leader s' T = Some c -> c <> i ->
    g_leader s T = Some c /\ g_tlog s' T = g_tlog s T;
}.

Lemma frame_refl i s : ainv s -> frame i s s.
Proof. intros. split; auto using gext_refl. Qed.

Lemma frame_trans i s1 s2 s3 : frame i s1 s2 -> frame i s2 s3 -> frame i s1 s3.
Proof.
  intros [_ X1 N1 L1] [I2 X2 N2 L2]. split; [done|by eapply gext_trans|..].
  - intros j Hj. destruct (N1 j Hj) as (E1 & E2 & E3), (N2 j Hj) as (F1 & F2 & F3).
    rewrite F1, F2, F3. done.
  - intros T c HT Hc. destruct (L2 T c HT Hc) as [HT2 ->]. by apply L1.
Qed.

Lemma step_ok_frame i s s' : ainv s -> step_ok s s' i -> frame i s s'.
Proof.
  intros Hinv Hok. split; [by eapply ainv_step|apply Hok|apply Hok|apply Hok].
Qed.

Definition hsteps (i : Z) : astate -> astate -> Prop := rtc (hstep i).
Definition lsteps (i : Z) : astate -> astate -> Prop := rtc (lstep i).

Lemma hsteps_frame i s s' :
  ainv s -> hsteps i s s' -> frame i s s' /\ a_log s' i = a_log s i /\
  g_leader s' = g_leader s /\ g_tlog s' = g_tlog s.
Proof.
  intros Hinv Hs. induction Hs as [s|s1 s2 s3 H12 _ IH]; [by auto using frame_refl|].
  pose proof (step_ok_frame _ _ _ Hinv (hstep_ok _ _ _ Hinv H12)) as H.
  destruct (IH (fr_inv _ _ _ H)) as (H3 & -> & -> & ->). split; [by eapply frame_trans|].
  by destruct H12.
Qed.

Lemma lsteps_frame i s s' :
  ainv s -> lsteps i s s' -> frame i s s' /\ a_term s' i = a_term s i /\ a_vote s' i = a_vote s i.
Proof.
  intros Hinv Hs. induction Hs as [s|s1 s2 s3 H12 _ IH]; [by auto using frame_refl|].
  pose proof (step_ok_frame _ _ _ Hinv (lstep_ok _ _ _ Hinv H12)) as H.
  destruct (IH (fr_inv _ _ _ H)) as (H3 & -> & ->). split; [by eapply frame_trans|].
  by destruct H12.
Qed.

Lemma hsteps_astep i s s' : hsteps i s s' -> rtc astep s s'.
Proof. induction 1; [done|]. eapply rtc_l; [|done]. exists i. by left. Qed.

Lemma lsteps_astep i s s' : lsteps i s s' -> rtc astep s s'.
Proof. induction 1; [done|]. eapply rtc_l; [|done]. exists i. by right. Qed.

Lemma asteps_inv s s' : ainv s -> rtc astep s s' -> ainv s' /\ gext s s'.
Proof.
  intros Hinv Hs. induction Hs as [s|s1 s2 s3 H12 _ IH].
  { split; [done|apply gext_refl]. }
  destruct (astep_ok _ _ Hinv H12) as [i Hok].
  destruct (IH (ainv_step _ _ _ Hinv Hok)) as [H3 Hx]. split; [done|].
  eapply gext_trans; [apply Hok|done].
Qed.

(** [k] is committed in term [T]: the [k]-th entry of the leader's log is of the term
    itself and a quorum acknowledged it. *)
Definition committed (s : astate) (T : Z) (k : nat) : Prop :=
  is_Some (g_leader s T) /\
  (exists e, g_tlog s T !! Nat.pred k = Some e /\ term e = T) /\ (0 < k)%nat /\
  exists Q, quorum Q /\ forall q, q ∈ Q -> exists m, mkAck q T m ∈ g_acks s /\ (k <= m)%nat.

Lemma committed_mono s s' T k : gext s s' -> committed s T k -> committed s' T k.
Proof.
  intros Hx (HT & (e & He & Hte) & Hk & Q & HQ & Hq). split_and!.
  - by eapply gext_is_leader.
  - exists e. split; [|done]. eapply prefix_lookup_Some; [done|]. by apply (gx_tlog _ _ Hx).
  - done.
  - exists Q. split; [done|]. intros q Hin. destruct (Hq q Hin) as (m & Hm & Hle).
    exists m. split; [by apply (gx_acks _ _ Hx)|done].
Qed.

Section completeness.
Context (s : astate) (Hinv : ainv s).

Lemma committed_length T k : committed s T k -> (k <= length (g_tlog s T))%nat.
Proof using.
  intros (_ & (e & He & _) & Hk & _). apply lookup_lt_Some in He. lia.
Qed.

(** The voter's log of the step below ends in a term not before [T]. *)
Lemma committed_in_log_term T k L e :
  committed s T k -> logok s L -> take k (g_tlog s T) `prefix_of` L -> last L = Some e ->
  T <= term e.
Proof using Hinv.
  intros (_ & (x & Hx & Htx) & Hk & _) HL Hp He.
  destruct (logok_last _ _ _ HL He) as [Hld Hpre].
  assert (take k (g_tlog s T) !! Nat.pred k = Some x) as Hx' by (rewrite lookup_take_lt; [done|lia]).
  assert (g_tlog s (term e) !! Nat.pred k = Some x) as Hx''.
  { eapply prefix_lookup_Some; [|done]. by eapply prefix_lookup_Some. }
  pose proof (tlog_terms _ Hinv _ Hld) as Hterms. rewrite Forall_lookup in Hterms.
  specialize (Hterms _ _ Hx''). lia.
Qed.

(** From a later leader's log to the candidate's log that extends it. *)
Lemma later_term_contains T k L e :
  committed s T k -> logok s L -> last L = Some e -> T < term e ->
  take k (g_tlog s T) `prefix_of` g_base s (term e) -> take k (g_tlog s T) `prefix_of` L.
Proof using Hinv.
  intros Hc HL He Hlt Hb. destruct (logok_last _ _ _ HL He) as [Hld Hpre].
  pose proof (committed_length _ _ Hc) as Hlen. destruct Hc as (HT & _ & Hk & _).
  assert (take k (g_tlog s T) `prefix_of` g_tlog s (term e)) as Hp
    by (etrans; [done|]; by apply base_prefix).
  destruct (decide (k <= length L)%nat) as [Hle|Hgt].
  { eapply prefix_comparable; [done|done|]. rewrite length_take. lia. }
  exfalso. rewrite last_lookup in He. pose proof (lookup_lt_Some _ _ _ He) as HltL.
  pose proof (prefix_lookup_Some _ _ _ _ He Hpre) as He'.
  assert (Nat.pred (length L) < length (take k (g_tlog s T)))%nat as Hlt'
    by (rewrite length_take; lia).
  rewrite <- (prefix_lookup_lt _ _ _ Hlt' Hp), lookup_take_lt in He' by lia.
  pose proof (tlog_terms _ Hinv _ HT) as Hterms. rewrite Forall_lookup in Hterms.
  specialize (Hterms _ _ He'). lia.
Qed.

(** Leader completeness. *)
Lemma leader_completeness T k T' :
  committed s T k -> T < T' -> is_Some (g_leader s T') ->
  take k (g_tlog s T) `prefix_of` g_base s T'.
Proof using Hinv.
  intros Hc. induction T' as [T' IH] using (well_founded_induction (Z.lt_wf T)).
  intros HTT' [c HT']. pose proof Hc as (HT & _ & Hk & Q & HQ & HackQ).
  pose proof (committed_length _ _ Hc) as Hlen.
  destruct (inv_leader _ Hinv _ _ HT') as (Hcand & _ & Q' & HQ' & Hel).
  destruct (inv_cand _ Hinv _ _ _ Hcand) as (_ & _ & HokC & HltC).
  destruct (quorum_intersect _ _ HQ HQ') as (q & Hq & Hq').
  destruct (HackQ q Hq) as (m & Hm & Hkm).
  destruct (Hel q Hq') as (Lv & Hv & Hup & HokV & HackV).
  assert (take k (g_tlog s T) `prefix_of` Lv) as HpV.
  { destruct (HackV _ _ Hm HTT' k Hkm) as [|(T'' & HT'' & Hld & Hn)]; [done|].
    exfalso. apply Hn, IH; (done || lia). }
  destruct (last Lv) as [ev|] eqn:Ev; cycle 1.
  { apply last_None in Ev. subst Lv. apply prefix_nil_inv in HpV.
    apply (f_equal length) in HpV. rewrite length_take in HpV. simpl in HpV. lia. }
  pose proof (committed_in_log_term _ _ _ _ Hc HokV HpV Ev) as Htv.
  destruct (logok_last _ _ _ HokV Ev) as [Hldv Hprev].
  pose proof (leader_pos _ Hinv _ Hldv) as Hpos.
  unfold uptodate, last_term in Hup. rewrite Ev in Hup.
  destruct (last (g_base s T')) as [ec|] eqn:Ec; cycle 1.
  { apply last_None in Ec. rewrite Ec in Hup. destruct Hup as [|[? ?]]; lia. }
  assert (term ec < T') as Hec.
  { rewrite last_lookup in Ec. rewrite Forall_lookup in HltC. by apply (HltC _ _ Ec). }
  destruct Hup as [Hgt|[Heq Hle]].
  - eapply later_term_contains; eauto; [lia|]. apply IH; [lia|lia|].
    by destruct (logok_last _ _ _ HokC Ec).
  - destruct (logok_last _ _ _ HokC Ec) as [_ Hprec]. rewrite Heq in Hprec.
    etrans; [exact HpV|]. by eapply prefix_comparable.
Qed.
End completeness.

(** * Committed prefixes of logs *)

(** The first [c] entries of [L] are committed by a leader of a term up to [T]. *)
Definition cprefix (s : astate) (T : Z) (L : elog) (c : nat) : Prop :=
  (c <= length L)%nat /\
  (c = 0%nat \/
   exists T0 k, T0 <= T /\ committed s T0 k /\ (c <= k)%nat /\ take c L = take c (g_tlog s T0)).

Lemma cprefix_zero s T L : cprefix s T L 0.
Proof. split; [lia|by left]. Qed.

Lemma cprefix_mono s s' T T' L L' c :
  gext s s' -> T <= T' -> take c L = take c L' ->
  cprefix s T L c -> cprefix s' T' L' c.
Proof.
  intros Hx HT HL [Hc Hor]. split; [by eapply take_eq_length|].
  destruct Hor as [->|(T0 & k & HT0 & Hcom & Hck & Htk)]; [by left|]. right.
  exists T0, k. split_and!; [lia|by eapply committed_mono|done|].
  rewrite <- HL, Htk. symmetry. eapply gext_take; [done|apply Hcom|].
  apply committed_length in Hcom. lia.
Qed.

Lemma cprefix_le s T L c c' : cprefix s T L c -> (c' <= c)%nat -> cprefix s T L c'.
Proof.
  intros [Hc Hor] Hle. split; [lia|]. destruct Hor as [->|(T0 & k & HT0 & Hcom & Hck & Htk)].
  - left. lia.
  - right. exists T0, k. split_and!; [done|done|lia|]. by eapply take_eq_le.
Qed.

(** A committed prefix of a log known in term [T] is in the log of [T]'s leader. *)
Lemma cprefix_in_leader s T L c :
  ainv s -> cprefix s T L c -> is_Some (g_leader s T) -> take c L = take c (g_tlog s T).
Proof.
  intros Hinv [Hc Hor] HT. destruct Hor as [->|(T0 & k & HT0 & Hcom & Hck & Htk)]; [done|].
  destruct (decide (T0 = T)) as [->|Hne]; [done|].
  pose proof (leader_completeness s Hinv T0 k T Hcom ltac:(lia) HT) as Hp.
  pose proof (committed_length _ _ _ Hcom) as Hlen.
  assert (take k (g_tlog s T0) `prefix_of` g_tlog s T) as Hp'
    by (etrans; [done|]; by apply base_prefix).
  rewrite Htk. replace (take c (g_tlog s T0)) with (take c (take k (g_tlog s T0)))
    by (rewrite take_take; f_equal; lia).
  apply prefix_take_eq; [done|]. rewrite length_take. lia.
Qed.

(** State machine safety: committed prefixes of any two logs agree. *)
Lemma cprefix_agree s T1 T2 L1 L2 c1 c2 :
  ainv s -> cprefix s T1 L1 c1 -> cprefix s T2 L2 c2 -> (c1 <= c2)%nat ->
  take c1 L1 = take c1 L2.
Proof.
  intros Hinv H1 H2 Hle. pose proof (cprefix_le _ _ _ _ c1 H2 Hle) as H2'. clear H2 Hle.
  destruct H1 as [Hc1 Hor1], H2' as [Hc2 Hor2].
  destruct Hor1 as [->|(T & k & _ & Hcom & Hck & Htk)]; [done|].
  destruct Hor2 as [->|(T' & k' & _ & Hcom' & Hck' & Htk')]; [done|].
  rewrite Htk, Htk'. destruct (decide (T <= T')) as [HT|HT].
  - apply (cprefix_in_leader s T' (g_tlog s T) c1 Hinv); [|apply Hcom'].
    split; [apply committed_length in Hcom; lia|]. right. exists T, k. by split_and!.
  - symmetry. apply (cprefix_in_leader s T (g_tlog s T') c1 Hinv); [|apply Hcom].
    split; [apply committed_length in Hcom'; lia|]. right. exists T', k'. split_and!; (done || lia).
Qed.

(** * Election safety *)

(** Two candidates of one term that both gathered a quorum of votes are the same. *)
Lemma votes_unique s T i j Q Q' :
  ainv s -> quorum Q -> quorum Q' ->
  (forall q, q ∈ Q -> exists L, mkVote q T i L ∈ g_votes s) ->
  (forall q, q ∈ Q' -> exists L, mkVote q T j L ∈ g_votes s) -> i = j.
Proof.
  intros Hinv HQ HQ' Hi Hj. destruct (quorum_intersect _ _ HQ HQ') as (q & Hq & Hq').
  destruct (Hi q Hq) as [L HL], (Hj q Hq') as [L' HL']. by eapply (inv_vote_fun _ Hinv).
Qed.

Lemma leader_votes s T i :
  ainv s -> g_leader s T = Some i ->
  exists Q, quorum Q /\ forall q, q ∈ Q -> exists L, mkVote q T i L ∈ g_votes s.
Proof.
  intros Hinv HT. destruct (inv_leader _ Hinv _ _ HT) as (_ & _ & Q & HQ & Hel).
  exists Q. split; [done|]. intros q Hq. destruct (Hel q Hq) as (L & HL & _). by exists L.
Qed.

End spec.
