(* ===== verification/Storage.v ===== *)
(** The durable Raft storage boundary of internal/storage/storage.go.

    [Storage] is the Go interface as a type class; [StorageSpec] is what an
    implementation promises about it, in terms of the durable hard state and entries.
    [MemStorage] is the volatile implementation of the same file; DiskLog.v has the
    write-ahead log. *)

From S2P Require Import Prelude Proto RaftLog RaftNode.

(** * The interface *)

Class Storage (S : Type) : Type := {
  Save : option HardState -> list Entry -> S -> S * option error;
  getHardState : S -> result HardState;
  getEntries : Z -> Z -> S -> result (list Entry);
  FirstIndex : S -> Z;
  LastIndex : S -> Z;
}.

Definition ErrOutOfBounds : error := "storage: entries out of bounds".

(** * Shared helpers *)

Definition firstLast (es : list Entry) : Z * Z :=
  match es with
  | [] => (1, 0)
  | e :: _ => (Index e, match last es with Some e' => Index e' | None => 0 end)
  end.

Definition cloneEntries (es : list Entry) : list Entry :=
  (fun e => mkEntry (Index e) (Term e) (Type_ e) (cloneBytes (Data e))) <$> es.

(** The suffix cut of [Save] and [truncateEntries]: entries before the first one at
    [idx] or above. *)
Definition cutEntries (idx : Z) (es : list Entry) : list Entry :=
  cut_at (fun e => idx <=? Index e) es.

(** [entries[lo:hi]] of a Go slice. *)
Definition slice (lo hi : Z) (es : list Entry) : list Entry :=
  take (Z.to_nat (hi - lo)) (drop (Z.to_nat lo) es).

(** * MemStorage *)

Record MemStorage : Type := mkMemStorage {
  ms_hard : HardState;
  ms_entries : list Entry;
}.

Definition NewMemStorage : MemStorage := mkMemStorage (mkHardState 0 0) [].

Definition mem_Save (hs : option HardState) (es : list Entry) (s : MemStorage)
    : MemStorage * option error :=
  let newHard := match hs with Some h => h | None => ms_hard s end in
  let newEntries := cloneEntries (ms_entries s) in
  let newEntries' :=
    match es with
    | [] => newEntries
    | e0 :: _ => cutEntries (Index e0) newEntries ++ cloneEntries es
    end in
  (mkMemStorage newHard newEntries', None).

Definition mem_HardState (s : MemStorage) : result HardState := Ok (ms_hard s).

Definition mem_Entries (lo hi : Z) (s : MemStorage) : result (list Entry) :=
  let '(first, last) := firstLast (ms_entries s) in
  if (hi <? lo) || (lo <? first) || (last +u 1 <? hi) then Err ErrOutOfBounds
  else
    let start := lo -u first in
    let stop := hi -u first in
    Ok (cloneEntries (slice start stop (ms_entries s))).

Definition mem_FirstIndex (s : MemStorage) : Z := (firstLast (ms_entries s)).1.
Definition mem_LastIndex (s : MemStorage) : Z := (firstLast (ms_entries s)).2.

#[export] Instance MemStorage_Storage : Storage MemStorage := {|
  Save := mem_Save;
  getHardState := mem_HardState;
  getEntries := mem_Entries;
  FirstIndex := mem_FirstIndex;
  LastIndex := mem_LastIndex;
|}.

(** * The contract *)

(** The entries a log of whole history can hold: contiguous from 1. *)
Definition entries_wf (es : list Entry) : Prop :=
  contiguous_from 0 es /\ Z.of_nat (length es) < max_u64.

(** A batch that overwrites or extends [es] without a gap. *)
Definition batch_wf (es batch : list Entry) : Prop :=
  exists p, (p <= length es)%nat /\ contiguous_from (Z.of_nat p) batch /\
    Z.of_nat p + Z.of_nat (length batch) < max_u64.

(** What [Save] must leave durable. *)
Definition saved (hs : option HardState) (batch : list Entry) (d : HardState * list Entry)
    : HardState * list Entry :=
  (default d.1 hs,
   match batch with [] => d.2 | e0 :: _ => take (Z.to_nat (Index e0 - 1)) d.2 ++ batch end).

(** [durable] is the state the implementation would recover; [store_ok] its invariant;
    [fits] the batches its format can express. *)
Class StorageSpec (S : Type) `{Storage S} : Type := {
  durable : S -> HardState * list Entry;
  store_ok : S -> Prop;
  fits : option HardState -> list Entry -> Prop;
  store_ok_wf s : store_ok s -> entries_wf (durable s).2;
  Save_spec s hs batch s' :
    store_ok s -> batch_wf (durable s).2 batch -> fits hs batch -> Save hs batch s = (s', None) ->
    store_ok s' /\ durable s' = saved hs batch (durable s);
  HardState_spec s : store_ok s -> getHardState s = Ok (durable s).1;
  FirstIndex_spec s : store_ok s -> FirstIndex s = 1;
  LastIndex_spec s : store_ok s -> LastIndex s = Z.of_nat (length (durable s).2);
  Entries_spec s lo hi :
    store_ok s -> 1 <= lo <= hi -> hi <= Z.of_nat (length (durable s).2) + 1 ->
    getEntries lo hi s = Ok (take (Z.to_nat (hi - lo)) (drop (Z.to_nat (lo - 1)) (durable s).2));
}.

(** What a crash inside [Save] may leave durable: a prefix of the batch's records, which
    are the hard state, the truncation of the overwritten suffix, and the entries. *)
Definition torn (hs : option HardState) (batch : list Entry) (d : HardState * list Entry)
    : list (HardState * list Entry) :=
  [d; (default d.1 hs, d.2);
   (default d.1 hs,
    match batch with [] => d.2 | e0 :: _ => take (Z.to_nat (Index e0 - 1)) d.2 end);
   saved hs batch d].

Lemma elem_of_torn hs batch d x :
  x ∈ torn hs batch d <->
    x = d \/ x = (default d.1 hs, d.2) \/
    x = (default d.1 hs, match batch with [] => d.2 | e0 :: _ => take (Z.to_nat (Index e0 - 1)) d.2 end) \/
    x = saved hs batch d.
Proof. unfold torn. rewrite !elem_of_cons, elem_of_nil. tauto. Qed.

(** A storage that survives crashes: [crash_save k] is the storage reopened after a crash
    inside [Save] that left [k] bytes of the batch on the platter, [reopen] the storage
    reopened after a crash between two saves. *)
Class CrashSafe (S : Type) `{StorageSpec S} : Type := {
  crash_save : nat -> option HardState -> list Entry -> S -> S;
  reopen : S -> S;
  crash_save_spec k hs batch s :
    store_ok s -> batch_wf (durable s).2 batch -> fits hs batch ->
    store_ok (crash_save k hs batch s) /\ durable (crash_save k hs batch s) ∈ torn hs batch (durable s);
  reopen_spec s : store_ok s -> store_ok (reopen s) /\ durable (reopen s) = durable s;
}.

(** * Facts about the helpers *)

Lemma cloneEntries_id es : cloneEntries es = es.
Proof. induction es as [|e es IH]; csimpl; [done|]. rewrite IH. by destruct e. Qed.

Lemma contiguous_take p es n : contiguous_from p es -> contiguous_from p (take n es).
Proof. intros H i e He. apply lookup_take_Some in He as [He _]. by apply H. Qed.

Lemma contiguous_app p es es' :
  contiguous_from p es -> contiguous_from (p + Z.of_nat (length es)) es' ->
  contiguous_from p (es ++ es').
Proof.
  intros H H' i e He. apply lookup_app_Some in He as [He|[Hge He]]; [by apply H|].
  rewrite (H' _ _ He). lia.
Qed.

Lemma cutEntries_take es idx :
  contiguous_from 0 es -> cutEntries idx es = take (Z.to_nat (idx - 1)) es.
Proof.
  intros H. apply cut_at_take. intros i e He. rewrite (H i e He).
  destruct (Z.leb_spec idx (0 + 1 + Z.of_nat i)); symmetry;
    [apply bool_decide_eq_true|apply bool_decide_eq_false]; lia.
Qed.

Lemma firstLast_wf es :
  contiguous_from 0 es -> firstLast es = (1, Z.of_nat (length es)).
Proof.
  intros H. unfold firstLast. destruct es as [|e es]; [done|].
  rewrite (H 0%nat e) by done. f_equal.
  destruct (last (e :: es)) as [x|] eqn:E; [|by apply last_None in E].
  rewrite last_lookup in E. rewrite (H _ _ E). simpl. lia.
Qed.

Lemma batch_head es batch e0 rest :
  batch_wf es batch -> batch = e0 :: rest ->
  exists p, Index e0 = Z.of_nat p + 1 /\ (p <= length es)%nat /\
    contiguous_from (Z.of_nat p) batch /\ Z.of_nat p + Z.of_nat (length batch) < max_u64.
Proof.
  intros (p & Hp & Hc & Hmax) ->. exists p. split; [|done].
  rewrite (Hc 0%nat e0); [lia|done].
Qed.

Lemma saved_wf hs batch d :
  entries_wf d.2 -> batch_wf d.2 batch -> entries_wf (saved hs batch d).2.
Proof.
  intros [Hc Hl] Hb. unfold saved. simpl. destruct batch as [|e0 rest] eqn:E; [done|].
  destruct (batch_head _ _ _ _ Hb eq_refl) as (p & -> & Hp & Hbc & Hmax).
  replace (Z.to_nat (Z.of_nat p + 1 - 1)) with p by lia. split.
  - apply contiguous_app; [by apply contiguous_take|]. by rewrite length_take_le.
  - rewrite length_app, length_take_le by done. lia.
Qed.

(** [MemStorage] keeps its contract. *)
#[export] Program Instance MemStorage_Spec : StorageSpec MemStorage := {|
  durable s := (ms_hard s, ms_entries s);
  store_ok s := entries_wf (ms_entries s);
  fits _ _ := True;
|}.
Next Obligation. done. Qed.
Next Obligation.
  intros s hs batch s' [Hc Hl] Hb _ Hs. simpl in *. unfold mem_Save in Hs. simplify_eq.
  assert ((default (ms_hard s) hs,
           match batch with
           | [] => cloneEntries (ms_entries s)
           | e0 :: _ => cutEntries (Index e0) (cloneEntries (ms_entries s)) ++ cloneEntries batch
           end) = saved hs batch (ms_hard s, ms_entries s)) as E.
  { unfold saved. simpl. f_equal. rewrite !cloneEntries_id.
    destruct batch; [done|]. by rewrite cutEntries_take. }
  split.
  - apply (f_equal snd) in E. simpl in E. cbn [ms_entries]. rewrite E.
    by apply (saved_wf hs batch (ms_hard s, ms_entries s)).
  - rewrite <- E. by destruct hs.
Qed.
Next Obligation. done. Qed.
Next Obligation. intros s [Hc _]. simpl. unfold mem_FirstIndex. by rewrite firstLast_wf. Qed.
Next Obligation. intros s [Hc _]. simpl. unfold mem_LastIndex. by rewrite firstLast_wf. Qed.
Next Obligation.
  intros s lo hi [Hc Hl] Hlo Hhi. simpl in *. unfold mem_Entries.
  rewrite firstLast_wf by done. unfold max_u64 in *.
  rewrite !u64_add_small by (unfold max_u64; lia).
  destruct ((hi <? lo) || (lo <? 1) || (Z.of_nat (length (ms_entries s)) + 1 <? hi))%bool eqn:E.
  { apply orb_true_iff in E as [E|E]; [apply orb_true_iff in E as [E|E]|]; bool_to_prop; lia. }
  rewrite !u64_sub_small by (unfold max_u64; lia). rewrite cloneEntries_id. unfold slice.
  f_equal. f_equal. lia.
Qed.
