(* ===== verification/Server.v ===== *)
(** The host loop of internal/server/server.go and the recovery of recovery.go.

    The host serializes ticks, inbound messages and proposals into the Ready path:
    persist, send, apply, acknowledge.  Storage and applier are the Go interfaces as
    type classes; what the transport is given is returned as the list of sent
    messages, in order. *)

From S2P Require Import Prelude Proto RaftLog RaftNode Storage.

(** [Applier], with the optional [FailStopNotifier] of the same value. *)
Class Applier (A : Type) : Type := {
  applyEntry : Entry -> A -> A * option error;
  failStop : option (error -> A -> A);
}.

Section host.
Context {S A : Type} `{Storage S} `{Applier A}.

(** The fields of [Host]; a nil [Applier] is [None]. *)
Record Host : Type := mkHost {
  h_Node : Node;
  h_Storage : S;
  h_Applier : option A;
  SelfID : Z;
  stopped : option error;
  leaderHint : Z;
}.

(** Step 3 of [processReady]: apply in order, stop at the first error. *)
Fixpoint applyAll (es : list Entry) (a : A) : A * option error :=
  match es with
  | [] => (a, None)
  | e :: es' =>
      let '(a', err) := applyEntry e a in
      match err with
      | Some m => (a', Some ("state-machine apply: " +:+ m))
      | None => applyAll es' a'
      end
  end.

Definition applyCommitted (es : list Entry) (a : option A) : option A * option error :=
  match a with
  | None => (None, None)
  | Some a => let '(a', err) := applyAll es a in (Some a', err)
  end.

Definition processReady (node : Node) (store : S) (applier : option A)
    : Node * S * option A * list Message * option error :=
  let '(ready, node1) := NodeReady node in
  let '(store', saveErr) := Save (r_HardState ready) (r_Entries ready) store in
  match saveErr with
  | Some m => (node1, store', applier, [], Some ("raft storage save: " +:+ m))
  | None =>
      let sent := r_Messages ready in
      let '(applier', applyErr) := applyCommitted (r_CommittedEntries ready) applier in
      match applyErr with
      | Some m => (node1, store', applier', sent, Some m)
      | None => (Advance node1, store', applier', sent, None)
      end
  end.

Definition notifyFailStop (err : error) (a : option A) : option A :=
  match a, failStop (A := A) with
  | Some a, Some f => Some (f err a)
  | _, _ => a
  end.

(** [processReadyLocked]: run the Ready path, and on an error stop for good. *)
Definition processReadyLocked (h : Host) : Host * list Message * option error :=
  let '(node', store', applier', sent, err) := processReady (h_Node h) (h_Storage h) (h_Applier h) in
  match err with
  | Some m =>
      (mkHost node' store' (notifyFailStop m applier') (SelfID h) (Some m) (leaderHint h), sent, Some m)
  | None => (mkHost node' store' applier' (SelfID h) (stopped h) (leaderHint h), sent, None)
  end.

Definition with_h_Node (n : Node) (h : Host) : Host :=
  mkHost n (h_Storage h) (h_Applier h) (SelfID h) (stopped h) (leaderHint h).

Definition recordLeaderHintLocked (id : Z) (h : Host) : Host :=
  if id =? 0 then h
  else mkHost (h_Node h) (h_Storage h) (h_Applier h) (SelfID h) (stopped h) id.

Definition HostTick (h : Host) : Host * list Message * option error :=
  match stopped h with
  | Some e => (h, [], Some e)
  | None => processReadyLocked (with_h_Node (Tick (h_Node h)) h)
  end.

Definition HostStep (om : option Message) (h : Host) : Host * list Message * option error :=
  match stopped h with
  | Some e => (h, [], Some e)
  | None =>
      let h1 :=
        match om with
        | Some (mkMessage _ _ _ (Some (Message_AppendEntries req))) =>
            recordLeaderHintLocked (ae_LeaderId req) h
        | _ => h
        end in
      processReadyLocked (with_h_Node (Step om (h_Node h1)) h1)
  end.

(** [Propose]; [onProposed] may register interest in [(index, term)] with the applier. *)
Definition HostPropose (d : bytes) (onProposed : option (Z -> Z -> option A -> option A)) (h : Host)
    : Host * list Message * (Z * Z * bool * option error) :=
  match stopped h with
  | Some e => (h, [], (0, 0, false, Some e))
  | None =>
      let '(n', (idx, t, isLeader)) := Propose d (h_Node h) in
      let h1 := with_h_Node n' h in
      let h2 :=
        if isLeader then
          let h' := recordLeaderHintLocked (SelfID h1) h1 in
          match onProposed with
          | Some f => mkHost (h_Node h') (h_Storage h') (f idx t (h_Applier h')) (SelfID h')
                        (stopped h') (leaderHint h')
          | None => h'
          end
        else h1 in
      let '(h3, sent, err) := processReadyLocked h2 in
      (h3, sent, (idx, t, isLeader, err))
  end.

Definition LeaderHint (h : Host) : Z * bool :=
  if leaderHint h =? 0 then (0, false) else (leaderHint h, true).

(** recovery.go; a nil store is [None]. *)
Definition NewRecoveredNode (cfg : Config) (store : option S) (r : option Rand) : result Node :=
  match store with
  | None => Err "server: recover node: nil storage"
  | Some st =>
      match getHardState st with
      | Err e => Err ("server: recover hard state: " +:+ e)
      | Ok hard =>
          let first := FirstIndex st in
          let last := LastIndex st in
          let es :=
            if first <=? last then
              if last =? max_u64
              then Err "server: recover entries: last index overflows half-open range"
              else match getEntries first (last +u 1) st with
                   | Err e => Err ("server: recover entries: " +:+ e)
                   | Ok es => Ok es
                   end
            else Ok [] in
          match es with
          | Err e => Err e
          | Ok es => Ok (NewNode cfg (mkInitialState hard es (mkSnapshotMeta 0 0)) r)
          end
      end
  end.

End host.

Arguments Host : clear implicits.
