(* ===== verification/NodeFacts.v ===== *)
(** Node-level proofs: what one handler of internal/raft does, in terms of the abstract
    protocol of RaftSpec.

    [NI] relates a node's memory, the storage's durable state and an abstract state; each
    lemma shows that a function of RaftNode takes related states to related states by
    steps of the protocol, and that every message it queues is justified by the
    history. *)

From stdpp Require Import functions.
From S2P Require Import Prelude Proto RaftLog RaftNode RaftSpec.

(** * Peers *)

Lemma insert_ordered_perm x l : insert_ordered x l ≡ₚ x :: l.
Proof.
  induction l as [|y l IH]; simpl; [done|]. case_bool; [done|]. rewrite IH. apply Permutation_swap.
Qed.

Lemma orderedPeers_perm ps : orderedPeers ps ≡ₚ ps.
Proof. induction ps as [|p ps IH]; simpl; [done|]. by rewrite insert_ordered_perm, IH. Qed.

Lemma isPeer_elem n id : isPeer n id = true -> id ∈ peers n.
Proof.
  unfold isPeer. intros H. bool_to_prop.
  match goal with H : Nat.ltb ?i _ = true |- _ => set (k := i) in *; apply Nat.ltb_lt in H end.
  destruct (lookup_lt_is_Some_2 (peers n) k) as [x Hx]; [done|].
  rewrite Hx in *. simpl in *. subst. by eapply list_elem_of_lookup_2.
Qed.

(** * The relation *)

(** The term at one-based position [p]; position 0 is the empty snapshot. *)
Definition term_at (L : list logEntry) (p : nat) : Z :=
  match p with O => 0 | S q => default 0 (term <$> L !! q) end.

Section rel.
Context (ids : list Z).

Definition pend_ok (s : astate) (T : Z) (pd : appendInflight) : Prop :=
  exists p k : nat,
    prevIndex pd = Z.of_nat p /\ inf_lastIndex pd = Z.of_nat k /\
    (p <= k <= length (g_tlog s T))%nat /\
    prevTerm pd = term_at (g_tlog s T) p /\ (hasEntries pd = false -> k = p) /\
    0 <= leaderCommit pd /\ cprefix ids s T (g_tlog s T) (Z.to_nat (leaderCommit pd)).

(** Why a message may be in the network. *)
Definition body_ok (s : astate) (m : Message) (b : Body) : Prop :=
  match b with
  | Message_RequestVote req =>
      rv_Term req = m_Term m /\ rv_CandidateId req = From m /\ From m <> 0 /\
      exists L, g_cand s (From m) (m_Term m) = Some L /\
        rv_LastLogIndex req = Z.of_nat (length L) /\ rv_LastLogTerm req = last_term L
  | Message_RequestVoteResp resp =>
      rvr_Term resp = m_Term m /\
      (rvr_VoteGranted resp = true -> exists L, mkVote (From m) (m_Term m) (To m) L ∈ g_votes s)
  | Message_AppendEntries req =>
      ae_Term req = m_Term m /\ ae_LeaderId req = From m /\
      g_leader s (m_Term m) = Some (From m) /\
      exists p k : nat,
        ae_PrevLogIndex req = Z.of_nat p /\
        (p <= k <= length (g_tlog s (m_Term m)))%nat /\
        ae_PrevLogTerm req = term_at (g_tlog s (m_Term m)) p /\
        ae_Entries req = Some <$> (toEntry <$> take (k - p) (drop p (g_tlog s (m_Term m)))) /\
        0 <= ae_LeaderCommit req /\
        cprefix ids s (m_Term m) (g_tlog s (m_Term m)) (Z.to_nat (ae_LeaderCommit req))
  | Message_AppendEntriesResp resp =>
      aer_Term resp = m_Term m /\
      (aer_Success resp = true -> 0 <= aer_MatchIndex resp /\
         mkAck (From m) (m_Term m) (Z.to_nat (aer_MatchIndex resp)) ∈ g_acks s)
  | _ => False
  end.

Definition msg_ok (s : astate) (m : Message) : Prop :=
  m_Term m < max_u64 /\ exists b, m_Body m = Some b /\ body_ok s m b.

Definition role_ok (s : astate) (i : Z) (n : Node) : Prop :=
  let T := a_term s i in
  match role n with
  | follower => True
  | candidate =>
      g_cand s i T = Some (a_log s i) /\ g_leader s T <> Some i /\
      exists vs, votes n = Some vs /\
        forall v, v ∈ vs -> v ∈ ids /\ exists L, mkVote v T i L ∈ g_votes s
  | leader =>
      g_leader s T = Some i /\ a_log s i = g_tlog s T /\
      is_Some (nextIndex n) /\ is_Some (matchIndex n) /\ is_Some (inflight n) /\
      (forall p, 0 <= get_matchIndex n p /\
         (get_matchIndex n p = 0 \/ mkAck p T (Z.to_nat (get_matchIndex n p)) ∈ g_acks s)) /\
      (forall p pd, get_inflight n p = Some pd -> pend_ok s T pd)
  end.

(** The log in memory against the durable entries [D] and hard state [hard]: everything
    before [unstableIndex] is durable. *)
Record sync (hard : HardState) (D : list logEntry) (n : Node) : Prop := mkSync {
  sy_unstable : 1 <= unstableIndex n <= Z.of_nat (length (entries (log n))) + 1;
  sy_len : unstableIndex n - 1 <= Z.of_nat (length D);
  sy_take : take (Z.to_nat (unstableIndex n - 1)) D =
            take (Z.to_nat (unstableIndex n - 1)) (entries (log n));
  sy_done : unstableIndex n - 1 = Z.of_nat (length (entries (log n))) -> D = entries (log n);
  sy_hard : hardStateDirty n = false -> hard = hardState n;
}.

Record NI (hard : HardState) (D : list logEntry) (s : astate) (i : Z) (n : Node) : Prop := mkNI {
  ni_id : ID (config n) = i;
  ni_in : i ∈ ids;
  ni_peers : peers n ≡ₚ ids;
  ni_term : hs_Term (hardState n) = a_term s i;
  ni_vote : VotedFor (hardState n) = a_vote s i;
  ni_snap : snapshot (log n) = mkSnapshotMeta 0 0;
  ni_log : entries (log n) = a_log s i;
  ni_wf : log_wf (log n);
  ni_tmax : a_term s i < max_u64;
  ni_commit : 0 <= commitIndex n /\
    cprefix ids s (a_term s i) (a_log s i) (Z.to_nat (commitIndex n));
  ni_applied : 0 <= lastApplied n /\
    cprefix ids s (a_term s i) (a_log s i) (Z.to_nat (lastApplied n));
  ni_role : role_ok s i n;
  ni_msgs : Forall (msg_ok s) (messages n);
  ni_sync : sync hard D n;
}.

(** The fields [NI] depends on. *)
Definition core (n : Node) :=
  (config n, peers n, hardState n, role n, votes n, log n, unstableIndex n, commitIndex n,
   lastApplied n, bool_decide (is_Some (nextIndex n)), matchIndex n, inflight n,
   hardStateDirty n, messages n).

Lemma NI_core hard D s i n n' : core n' = core n -> NI hard D s i n -> NI hard D s i n'.
Proof.
  unfold core. intros E [H1 H2 H3 H4 H5 H6 H7 H8 H9 H10 H11 H12 H13 [S1 S2 S3 S4 S5]].
  injection E as E1 E2 E3 E4 E5 E6 E7 E8 E9 E10 E11 E12 E13 E14.
  split; rewrite ?E1, ?E2, ?E3, ?E6, ?E8, ?E9, ?E14; try done.
  - unfold role_ok, get_matchIndex, get_inflight in *. rewrite E4, E5, E11, E12.
    destruct (role n); [done|done|]. destruct H12 as (? & ? & ? & ? & ? & ? & ?).
    split_and!; try done. eapply bool_decide_eq_true_1. rewrite E10. by apply bool_decide_eq_true_2.
  - split; rewrite ?E6, ?E7, ?E3; try done. by rewrite E13.
Qed.

(** * Monotonicity in the history *)

Lemma term_at_take L K p k :
  take k L = take k K -> (p <= k)%nat -> term_at L p = term_at K p.
Proof.
  intros H Hp. destruct p as [|q]; [done|]. simpl. f_equal. f_equal.
  eapply take_eq_lookup; [done|lia].
Qed.

Lemma slice_take {A} (L K : list A) p k :
  take k L = take k K -> take (k - p) (drop p L) = take (k - p) (drop p K).
Proof.
  intros H. destruct (decide (p <= k)%nat) as [Hp|Hp].
  - rewrite !take_drop_commute. replace (p + (k - p))%nat with k by lia. by rewrite H.
  - replace (k - p)%nat with 0%nat by lia. done.
Qed.

Section mono.
Context (s s' : astate) (Hx : gext s s').

Lemma cprefix_tlog_mono T c :
  is_Some (g_leader s T) -> cprefix ids s T (g_tlog s T) c -> cprefix ids s' T (g_tlog s' T) c.
Proof using Hx.
  intros HT Hc. apply (cprefix_mono ids s s' T T (g_tlog s T)); [done|done| |done].
  symmetry. eapply gext_take; [done|done|]. apply Hc.
Qed.

Lemma pend_ok_mono T pd : is_Some (g_leader s T) -> pend_ok s T pd -> pend_ok s' T pd.
Proof using Hx.
  intros HT (p & k & E1 & E2 & Hpk & E3 & E4 & Hlc & Hc). exists p, k.
  pose proof (prefix_length _ _ (gx_tlog _ _ Hx T HT)).
  split_and!; try (done || lia).
  - rewrite E3. eapply (term_at_take _ _ _ k); [|lia]. symmetry.
    eapply gext_take; [done|done|lia].
  - by apply cprefix_tlog_mono.
Qed.

Lemma msg_ok_mono m : msg_ok s m -> msg_ok s' m.
Proof using Hx.
  intros (Hmax & b & Hb & Hok). split; [done|]. exists b. split; [done|].
  destruct b as [req|resp|req|resp| |]; simpl in *; try done.
  - destruct Hok as (? & ? & ? & L & HL & ? & ?). split_and!; try done.
    exists L. split; [by apply (gx_cand _ _ Hx)|done].
  - destruct Hok as [? Hv]. split; [done|]. intros Hg. destruct (Hv Hg) as [L HL].
    exists L. by apply (gx_votes _ _ Hx).
  - destruct Hok as (? & ? & HT & p & k & E1 & Hpk & E2 & E3 & Hlc & Hc).
    assert (is_Some (g_leader s (m_Term m))) as HS by (by eexists).
    pose proof (prefix_length _ _ (gx_tlog _ _ Hx _ HS)).
    assert (take k (g_tlog s (m_Term m)) = take k (g_tlog s' (m_Term m))) as Htk.
    { symmetry. eapply gext_take; [done|done|lia]. }
    split_and!; try done; [by apply (gx_leader _ _ Hx)|].
    exists p, k. split_and!; try (done || lia).
    + rewrite E2. eapply term_at_take; [exact Htk|lia].
    + rewrite E3. do 2 f_equal. by apply slice_take.
    + by apply cprefix_tlog_mono.
  - destruct Hok as [? Hv]. split; [done|]. intros Hg. destruct (Hv Hg) as [? HL].
    split; [done|]. by apply (gx_acks _ _ Hx).
Qed.

Lemma msgs_ok_mono ms : Forall (msg_ok s) ms -> Forall (msg_ok s') ms.
Proof using Hx. intros H. eapply Forall_impl; [done|]. apply msg_ok_mono. Qed.
End mono.

(** Steps of another node keep this node related. *)
Lemma NI_frame hard D s s' i j n :
  frame ids j s s' -> i <> j -> NI hard D s i n -> NI hard D s' i n.
Proof.
  intros [_ Hx Hnode Hlead] Hij [H1 H2 H3 H4 H5 H6 H7 H8 H9 H10 H11 H12 H13 H14].
  destruct (Hnode i Hij) as (E1 & E2 & E3).
  assert (forall c, cprefix ids s (a_term s i) (a_log s i) c ->
                    cprefix ids s' (a_term s i) (a_log s i) c) as Hc.
  { intros c. by apply cprefix_mono. }
  split; rewrite ?E1, ?E2, ?E3; try done.
  - split; [apply H10|]. apply Hc, H10.
  - split; [apply H11|]. apply Hc, H11.
  - unfold role_ok in *. rewrite E1, E3. destruct (role n); [done| |].
    + destruct H12 as (Hc1 & Hc2 & vs & Hvs & Hv). split_and!.
      * by apply (gx_cand _ _ Hx).
      * intros HT. destruct (Hlead _ _ HT Hij). congruence.
      * exists vs. split; [done|]. intros v Hin. destruct (Hv v Hin) as [? [L HL]].
        split; [done|]. exists L. by apply (gx_votes _ _ Hx).
    + destruct H12 as (HT & Hl & ? & ? & ? & Hm & Hi).
      pose proof (gx_leader _ _ Hx _ _ HT) as HT'.
      destruct (Hlead _ _ HT' Hij) as [_ Htl]. split_and!; try done.
      * congruence.
      * intros p. destruct (Hm p) as [? [|Hack]]; split; try done; [by left|right].
        by apply (gx_acks _ _ Hx).
      * intros p pd Hp. eapply pend_ok_mono; [done|by eexists|]. by eapply Hi.
  - by eapply msgs_ok_mono.
Qed.

End rel.

Arguments ni_id {_ _ _ _ _ _} _.
Arguments ni_in {_ _ _ _ _ _} _.
Arguments ni_peers {_ _ _ _ _ _} _.
Arguments ni_term {_ _ _ _ _ _} _.
Arguments ni_vote {_ _ _ _ _ _} _.
Arguments ni_snap {_ _ _ _ _ _} _.
Arguments ni_log {_ _ _ _ _ _} _.
Arguments ni_wf {_ _ _ _ _ _} _.
Arguments ni_tmax {_ _ _ _ _ _} _.
Arguments ni_commit {_ _ _ _ _ _} _.
Arguments ni_applied {_ _ _ _ _ _} _.
Arguments ni_role {_ _ _ _ _ _} _.
Arguments ni_msgs {_ _ _ _ _ _} _.
Arguments ni_sync {_ _ _ _ _ _} _.

(** The log of every term's leader stays below the largest index. *)
Definition gbound (s : astate) : Prop := forall T, Z.of_nat (length (g_tlog s T)) < max_u64.

Lemma gbound_grow s s' T L (e : logEntry) :
  gbound s -> g_tlog s' = <[T := L ++ [e]]> (g_tlog s) -> Z.of_nat (length L) + 1 < max_u64 ->
  gbound s'.
Proof.
  intros Hg E HL T'. rewrite E. destruct (decide (T = T')) as [->|Hne].
  - rewrite fn_lookup_insert, length_app. simpl. lia.
  - rewrite fn_lookup_insert_ne by done. apply Hg.
Qed.

(** * Sending and committing as a leader *)

Lemma foldl_inv {A B} (P : A -> Prop) (f : A -> B -> A) l a :
  (forall x y, P x -> P (f x y)) -> P a -> P (foldl f a l).
Proof. intros Hf. revert a. induction l as [|b l IH]; intros a Ha; simpl; auto. Qed.

Lemma mget_mput {V} (m : option (gmap Z V)) k v k' zero :
  is_Some m -> mget (mput m k v) k' zero = if decide (k = k') then v else mget m k' zero.
Proof.
  intros [g ->]. simpl. rewrite lookup_insert. by case_decide.
Qed.

Lemma is_Some_mput {V} (m : option (gmap Z V)) k v : is_Some m -> is_Some (mput m k v).
Proof. intros [g ->]. by eexists. Qed.

(** Sending and committing leave the rest of the node alone. *)
Definition stable_fields (n : Node) :=
  (config n, peers n, hardState n, role n, log n, unstableIndex n, lastApplied n, matchIndex n,
   hardStateDirty n).

Lemma sendAppend_fields p b n : stable_fields (sendAppend p b n) = stable_fields n.
Proof. unfold sendAppend. repeat case_match; done. Qed.

Lemma advanceCommit_fields n : stable_fields (advanceCommit n).1 = stable_fields n.
Proof.
  unfold advanceCommit, advanceCommitWith. destruct (role n); [done|done|].
  enough (forall k z, stable_fields (advanceCommitLoop commitTermEligible k z n).1 = stable_fields n)
    as H by apply H.
  induction k as [|k IH]; intros z; [done|]. cbn [advanceCommitLoop].
  case_bool; [done|apply IH].
Qed.

Lemma foldl_fields {B} (f : Node -> B -> Node) l n :
  (forall x y, stable_fields (f x y) = stable_fields x) ->
  stable_fields (foldl f n l) = stable_fields n.
Proof.
  intros Hf. apply (foldl_inv (fun x => stable_fields x = stable_fields n)); [|done].
  intros x y Hx. by rewrite Hf.
Qed.

Lemma stable_unstable n n' :
  stable_fields n' = stable_fields n ->
  unstableIndex n' = unstableIndex n /\ hardState n' = hardState n.
Proof. unfold stable_fields. intros E. by injection E as _ _ ? _ _ ? _ _ _. Qed.

Lemma reset_core n : core (resetElectionTimeout n) = core n.
Proof. unfold resetElectionTimeout. repeat case_match; done. Qed.

Lemma reset_role n :
  role (resetElectionTimeout n) = role n /\ unstableIndex (resetElectionTimeout n) = unstableIndex n.
Proof. unfold resetElectionTimeout. repeat case_match; done. Qed.

Section handlers.
Context (ids : list Z) (Hnd : NoDup ids) (Hlen : Z.of_nat (length ids) <= max_i64).
Context (hard : HardState) (D : list logEntry) (i : Z).

Notation ni s n := (NI ids hard D s i n).

Section facts.
Context (s : astate) (n : Node) (HN : ni s n).

Lemma ni_last : lastIndex (log n) = Z.of_nat (length (a_log s i)).
Proof using HN.
  rewrite lastIndex_wf by apply HN. rewrite (ni_snap HN), (ni_log HN). done.
Qed.

Lemma ni_len : Z.of_nat (length (a_log s i)) < max_u64.
Proof using HN.
  destruct (ni_wf HN) as (_ & Hmax & _).
  rewrite (ni_snap HN), (ni_log HN) in Hmax. done.
Qed.

Lemma ni_first : firstIndex (log n) = 1.
Proof using HN. rewrite firstIndex_wf by apply HN. by rewrite (ni_snap HN). Qed.

Lemma ni_termAt p :
  (p <= length (a_log s i))%nat -> termAt (log n) (Z.of_nat p) = Some (term_at (a_log s i) p).
Proof using HN.
  intros Hp. pose proof ni_len. destruct p as [|q].
  - change (Z.of_nat 0) with (snap_Index (mkSnapshotMeta 0 0)).
    rewrite <- (ni_snap HN) at 1. rewrite termAt_snapshot.
    by rewrite (ni_snap HN).
  - rewrite termAt_wf; [|apply HN|rewrite (ni_snap HN); simpl; lia].
    unfold pos. rewrite (ni_snap HN), (ni_log HN). cbn [snap_Index term_at].
    replace (Z.to_nat (Z.of_nat (S q) - 0 - 1)) with q by lia.
    destruct (lookup_lt_is_Some_2 (a_log s i) q) as [e He]; [lia|]. by rewrite He.
Qed.

Lemma ni_lastTerm : lastTerm (log n) = last_term (a_log s i).
Proof using HN.
  unfold lastTerm. rewrite ni_last, ni_termAt by done. simpl.
  unfold last_term. rewrite last_lookup. destruct (length (a_log s i)) as [|q] eqn:E; simpl.
  - by rewrite (nil_length_inv _ E).
  - by destruct (a_log s i !! q).
Qed.

Lemma ni_range (p k : nat) :
  (p <= k <= length (a_log s i))%nat ->
  rangeEntries (log n) (Z.of_nat p +u 1) (Z.of_nat k +u 1) =
    toEntry <$> take (k - p) (drop p (a_log s i)).
Proof using HN.
  intros Hk. pose proof ni_len. rewrite !u64_add_small by (unfold max_u64 in *; lia).
  rewrite rangeEntries_wf; [|apply HN|rewrite (ni_snap HN); simpl; lia|lia].
  unfold pos. rewrite (ni_snap HN), (ni_log HN). simpl.
  do 2 f_equal; [lia|f_equal; lia].
Qed.
End facts.

Definition NL (s : astate) (n : Node) : Prop := ni s n /\ role n = leader.

Lemma NL_role s n : NL s n ->
  g_leader s (a_term s i) = Some i /\ a_log s i = g_tlog s (a_term s i) /\
  is_Some (nextIndex n) /\ is_Some (matchIndex n) /\ is_Some (inflight n) /\
  (forall p, 0 <= get_matchIndex n p /\
     (get_matchIndex n p = 0 \/
      mkAck p (a_term s i) (Z.to_nat (get_matchIndex n p)) ∈ g_acks s)) /\
  (forall p pd, get_inflight n p = Some pd -> pend_ok ids s (a_term s i) pd).
Proof. intros [HN Hr]. pose proof (ni_role HN) as H. unfold role_ok in H. by rewrite Hr in H. Qed.

Lemma NI_send s n m : ni s n -> msg_ok ids s m -> ni s (send m n).
Proof.
  intros [H1 H2 H3 H4 H5 H6 H7 H8 H9 H10 H11 H12 H13 [S1 S2 S3 S4 S5]] Hm.
  split; try done. simpl. apply Forall_app. split; [done|]. by constructor.
Qed.

Lemma NL_send s n m : NL s n -> msg_ok ids s m -> NL s (send m n).
Proof. intros [HN Hr] Hm. split; [by apply NI_send|done]. Qed.

(** Changing the leader's progress maps. *)
Lemma NL_inflight s n p v :
  NL s n -> (forall pd, v = Some pd -> pend_ok ids s (a_term s i) pd) -> NL s (set_inflight p v n).
Proof.
  intros HL Hv. pose proof (NL_role _ _ HL) as (L1 & L2 & L3 & L4 & L5 & L6 & L7).
  destruct HL as [[H1 H2 H3 H4 H5 H6 H7 H8 H9 H10 H11 H12 H13 [S1 S2 S3 S4 S5]] Hr].
  split; [|done]. split; try done. unfold role_ok. simpl. rewrite Hr.
  split_and!; try done; [by apply is_Some_mput|].
  intros p' pd. unfold get_inflight. simpl. rewrite mget_mput by done. case_decide; [apply Hv|apply L7].
Qed.

Lemma NL_match s n p m :
  NL s n -> 0 <= m -> mkAck p (a_term s i) (Z.to_nat m) ∈ g_acks s -> NL s (set_matchIndex p m n).
Proof.
  intros HL Hm0 Hm. pose proof (NL_role _ _ HL) as (L1 & L2 & L3 & L4 & L5 & L6 & L7).
  destruct HL as [[H1 H2 H3 H4 H5 H6 H7 H8 H9 H10 H11 H12 H13 [S1 S2 S3 S4 S5]] Hr].
  split; [|done]. split; try done. unfold role_ok. simpl. rewrite Hr.
  split_and!; try done; [by apply is_Some_mput|].
  intros p'. unfold get_matchIndex. simpl. rewrite mget_mput by done.
  case_decide as E; [subst p'; split; [done|by right]|apply L6].
Qed.

Lemma NL_core s n n' : core n' = core n -> NL s n -> NL s n'.
Proof.
  intros E [HN Hr]. split; [by eapply NI_core|]. unfold core in E.
  injection E as _ _ _ Er _ _ _ _ _ _ _ _ _ _. congruence.
Qed.

Lemma NL_next s n p v : NL s n -> NL s (set_nextIndex p v n).
Proof.
  intros HL. eapply NL_core; [|exact HL].
  destruct (NL_role _ _ HL) as (_ & _ & [nx Hnx] & _). unfold core. simpl.
  by rewrite Hnx.
Qed.

Lemma NL_emitAppend s n p pd :
  NL s n -> pend_ok ids s (a_term s i) pd -> NL s (emitAppend p pd n).
Proof.
  intros HL Hpd. apply NL_send; [done|]. pose proof (NL_role _ _ HL) as (L1 & L2 & _).
  destruct HL as [HN Hr]. destruct Hpd as (a & k & E1 & E2 & Hak & E3 & E4 & Hlc & Hc).
  split; [simpl; rewrite (ni_term HN); apply HN|]. eexists. split; [done|].
  simpl. rewrite (ni_term HN), (ni_id HN).
  split_and!; try done. exists a, k. split_and!; try (done || lia).
  rewrite E1, E2. destruct (hasEntries pd).
  - rewrite (ni_range _ _ HN) by (rewrite L2; lia). by rewrite L2.
  - by rewrite E4, Nat.sub_diag.
Qed.

Lemma NL_sendAppend s n p probe : NL s n -> NL s (sendAppend p probe n).
Proof.
  intros HL. pose proof (NL_role _ _ HL) as (L1 & L2 & L3 & L4 & L5 & L6 & L7).
  pose proof HL as [HN Hr]. unfold sendAppend.
  destruct (get_inflight n p) as [pd|] eqn:Ep; [apply NL_emitAppend; eauto|].
  rewrite (ni_first _ _ HN), (ni_last _ _ HN). pose proof (ni_len _ _ HN) as Hmax.
  rewrite (u64_add_small (Z.of_nat _)) by (unfold max_u64 in *; lia).
  match goal with |- context [set_nextIndex p ?x n] => set (next := x) end.
  assert (1 <= next <= Z.of_nat (length (a_log s i)) + 1) as Hnext.
  { unfold next. repeat case_bool; bool_to_prop; lia. }
  clearbody next. rewrite u64_sub_small by (unfold max_u64 in *; lia).
  change (log (set_nextIndex p next n)) with (log n).
  change (commitIndex (set_nextIndex p next n)) with (commitIndex n).
  replace (next - 1) with (Z.of_nat (Z.to_nat (next - 1))) by lia.
  rewrite (ni_termAt _ _ HN) by lia.
  match goal with |- context [emitAppend p ?x] => set (pd := x) end.
  assert (pend_ok ids s (a_term s i) pd) as Hpd.
  { exists (Z.to_nat (next - 1)).
    exists (if negb probe && (next <=? Z.of_nat (length (a_log s i)))
            then length (a_log s i) else Z.to_nat (next - 1)).
    unfold pd. cbn [prevIndex inf_lastIndex prevTerm hasEntries leaderCommit].
    rewrite <- L2. destruct (ni_commit HN) as [Hc0 Hc].
    split_and!; try done; try (case_bool; bool_to_prop; (done || lia)). }
  apply NL_emitAppend; [|done]. apply NL_inflight; [by apply NL_next|].
  intros pd' E. by simplify_eq.
Qed.

Lemma NL_broadcastAppend s n probe : NL s n -> NL s (broadcastAppend probe n).
Proof.
  intros HL. unfold broadcastAppend. apply foldl_inv; [|done]. intros x y Hx.
  case_bool; [done|by apply NL_sendAppend].
Qed.

Lemma NL_broadcastAvailable s n : NL s n -> NL s (broadcastAvailableAppend n).
Proof.
  intros HL. unfold broadcastAvailableAppend. apply foldl_inv; [|done]. intros x y Hx.
  case_bool; [done|by apply NL_sendAppend].
Qed.

(** ** advanceCommit *)

Lemma replicas_count n idx :
  Z.of_nat (length (peers n)) <= max_i64 ->
  replicas n idx = Z.of_nat (length (filter (fun p => idx <= get_matchIndex n p) (peers n))).
Proof.
  intros Hmax. unfold replicas.
  enough (forall l r, 0 <= r -> r + Z.of_nat (length l) <= max_i64 ->
    foldl (fun r peer => if idx <=? get_matchIndex n peer then i64_add r 1 else r) r l =
    r + Z.of_nat (length (filter (fun p => idx <= get_matchIndex n p) l))) as H
    by (rewrite H; lia).
  induction l as [|p l IH]; intros r Hr Hl; [simpl; lia|].
  rewrite length_cons in Hl. simpl. rewrite filter_cons.
  destruct (Z.leb_spec idx (get_matchIndex n p)).
  - rewrite decide_True by done. unfold i64_add. rewrite i64_id by (unfold max_i64 in *; lia).
    rewrite IH by lia. rewrite length_cons. lia.
  - rewrite decide_False by lia. rewrite IH by lia. done.
Qed.

Lemma NI_commit s n c :
  ni s n -> 0 <= c -> cprefix ids s (a_term s i) (a_log s i) (Z.to_nat c) ->
  ni s (with_commitIndex c n).
Proof.
  intros [H1 H2 H3 H4 H5 H6 H7 H8 H9 H10 H11 H12 H13 [S1 S2 S3 S4 S5]] Hc0 Hc. by split.
Qed.

(** A majority of match indexes at an entry of the current term commits it. *)
Lemma NL_committed s n idx :
  NL s n -> 0 < idx <= Z.of_nat (length (a_log s i)) ->
  termAt (log n) idx = Some (a_term s i) -> majority n <= replicas n idx ->
  committed ids s (a_term s i) (Z.to_nat idx).
Proof.
  intros HL Hidx Hterm Hmaj. pose proof (NL_role _ _ HL) as (L1 & L2 & L3 & L4 & L5 & L6 & L7).
  destruct HL as [HN Hr]. split_and!; [by eexists| |lia|].
  - replace idx with (Z.of_nat (Z.to_nat idx)) in Hterm by lia.
    rewrite (ni_termAt _ _ HN) in Hterm by lia. rewrite <- L2.
    destruct (Z.to_nat idx) as [|q] eqn:E; [lia|]. simpl in *.
    destruct (lookup_lt_is_Some_2 (a_log s i) q) as [e He]; [lia|]. rewrite He in *.
    simpl in Hterm. exists e. split; [done|congruence].
  - assert (length (peers n) = length ids) as Hpl by (by rewrite (ni_peers HN)).
    exists (filter (fun p => idx <= get_matchIndex n p) (peers n)). split; [split_and!|].
    + apply NoDup_filter. by rewrite (ni_peers HN).
    + intros p Hp. apply list_elem_of_filter in Hp as [_ Hp]. by rewrite <- (ni_peers HN).
    + rewrite replicas_count in Hmaj by (rewrite Hpl; done). unfold majority in Hmaj.
      rewrite Hpl in Hmaj. pose proof (Z.div_mod (Z.of_nat (length ids)) 2).
      pose proof (Z.mod_pos_bound (Z.of_nat (length ids)) 2). lia.
    + intros q Hq. apply list_elem_of_filter in Hq as [Hq _].
      destruct (L6 q) as [H0 [Hz|Hack]]; [lia|]. exists (Z.to_nat (get_matchIndex n q)).
      split; [done|lia].
Qed.

Lemma NL_advanceCommit s n : NL s n -> NL s (advanceCommit n).1.
Proof.
  intros HL. pose proof HL as [HN Hr]. unfold advanceCommit, advanceCommitWith. rewrite Hr.
  rewrite (ni_last _ _ HN). destruct (ni_commit HN) as [Hc0 [Hcl _]].
  enough (forall k idx, idx = commitIndex n + Z.of_nat k -> idx <= Z.of_nat (length (a_log s i)) ->
    NL s (advanceCommitLoop commitTermEligible k idx n).1) as H
    by (apply H; lia).
  induction k as [|k IH]; intros idx Hidx Hle; [done|]. cbn [advanceCommitLoop].
  destruct (termAt (log n) idx) as [t|] eqn:Et; [|apply IH; lia].
  unfold commitTermEligible.
  destruct ((t =? hs_Term (hardState n)) && (majority n <=? replicas n idx))%bool eqn:E; [|apply IH; lia].
  bool_to_prop. subst t. rewrite (ni_term HN) in Et.
  assert (committed ids s (a_term s i) (Z.to_nat idx)) as Hcom
    by (apply (NL_committed s n); (done || lia)).
  simpl.
  pose proof (NL_role _ _ HL) as (L1 & L2 & _).
  split; [|done]. apply NI_commit; [done|lia|]. split; [lia|]. right.
  exists (a_term s i), (Z.to_nat idx). rewrite L2. by split_and!.
Qed.

(** ** Growing the log *)

Lemma NI_update s s' n n' :
  ni s n -> gext s s' ->
  a_term s' i = a_term s i -> a_vote s' i = a_vote s i ->
  config n' = config n -> peers n' = peers n -> hardState n' = hardState n ->
  commitIndex n' = commitIndex n -> lastApplied n' = lastApplied n -> messages n' = messages n ->
  snapshot (log n') = mkSnapshotMeta 0 0 -> entries (log n') = a_log s' i -> log_wf (log n') ->
  (forall c, cprefix ids s (a_term s i) (a_log s i) c -> take c (a_log s i) = take c (a_log s' i)) ->
  role_ok ids s' i n' -> sync hard D n' ->
  ni s' n'.
Proof.
  intros [H1 H2 H3 H4 H5 H6 H7 H8 H9 H10 H11 H12 H13 _] Hx Et Ev E1 E2 E3 E4 E5 E6 Es El Hwf Hc Hr Hsy.
  assert (forall c, cprefix ids s (a_term s i) (a_log s i) c ->
                    cprefix ids s' (a_term s i) (a_log s' i) c) as Hc'.
  { intros c Hcp. eapply cprefix_mono; [done|done| |done]. by apply Hc. }
  split; rewrite ?E1, ?E2, ?E3, ?E4, ?E5, ?E6, ?Et, ?Ev; try done.
  - split; [apply H10|]. apply Hc', H10.
  - split; [apply H11|]. apply Hc', H11.
  - by eapply msgs_ok_mono.
Qed.

Lemma log_wf_snoc L t ty d :
  log_wf (mkRaftLog (mkSnapshotMeta 0 0) L) -> Z.of_nat (length L) + 1 < max_u64 ->
  log_wf (mkRaftLog (mkSnapshotMeta 0 0) (L ++ [mkLogEntry (Z.of_nat (length L) + 1) t ty d])).
Proof.
  intros (H0 & H1 & H2) Hl. simpl in *. split_and!; simpl; [done|rewrite length_app; simpl; lia|].
  intros j e He. apply lookup_app_Some in He as [He|[Hge He]]; [by apply H2|].
  apply list_lookup_singleton_Some in He as [Hj <-]. simpl. lia.
Qed.

Lemma ni_rl s n : ni s n -> log n = mkRaftLog (mkSnapshotMeta 0 0) (a_log s i).
Proof.
  intros HN. pose proof (ni_snap HN). pose proof (ni_log HN). destruct (log n). simpl in *. congruence.
Qed.

(** What [appendLocal] does to a node with its maps made. *)
Lemma appendLocalNode_eq n L t ty d :
  log n = mkRaftLog (mkSnapshotMeta 0 0) L -> log_wf (log n) ->
  hs_Term (hardState n) = t -> ID (config n) = i ->
  unstableIndex n <= Z.of_nat (length L) + 1 -> Z.of_nat (length L) + 1 < max_u64 ->
  is_Some (matchIndex n) ->
  let idx := Z.of_nat (length L) + 1 in
  appendLocalNode ty d n =
    (set_nextIndex i (idx +u 1) (set_matchIndex i idx
       (with_log (mkRaftLog (mkSnapshotMeta 0 0) (L ++ [mkLogEntry idx t ty d])) n)), idx).
Proof.
  intros El Hwf Et Ei Hu Hmax [mm Hmm] idx. unfold appendLocalNode, appendLocal.
  rewrite lastIndex_wf by done. rewrite El, Et. cbn [snapshot entries snap_Index]. rewrite Z.add_0_l.
  rewrite u64_add_small by (unfold max_u64 in *; lia). cbv zeta.
  case_bool; bool_to_prop; [simpl in *; lia|]. cbn [matchIndex with_log]. rewrite Hmm.
  cbn [config with_log]. by rewrite Ei.
Qed.

Lemma sync_snoc n L e :
  sync hard D n -> entries (log n) = L ->
  forall n', unstableIndex n' = unstableIndex n -> hardStateDirty n' = hardStateDirty n ->
  hardState n' = hardState n -> entries (log n') = L ++ [e] -> sync hard D n'.
Proof.
  intros [S1 S2 S3 S4 S5] HL n' E1 E2 E3 E4. rewrite HL in *.
  split; rewrite ?E1, ?E2, ?E3, ?E4, ?length_app; simpl; try (done || lia).
  rewrite S3. symmetry. apply take_app_le. lia.
Qed.

Lemma NL_appendLocal s n ty d :
  NL s n -> ainv ids s -> Z.of_nat (length (a_log s i)) + 1 < max_u64 ->
  exists s', lsteps ids i s s' /\ NL s' (appendLocalNode ty d n).1 /\
    (gbound s -> gbound s') /\ length (a_log s' i) = S (length (a_log s i)) /\
    unstableIndex (appendLocalNode ty d n).1 = unstableIndex n.
Proof.
  intros HL Hinv Hmax. pose proof (NL_role _ _ HL) as (L1 & L2 & L3 & L4 & L5 & L6 & L7).
  pose proof HL as [HN Hr].
  rewrite (appendLocalNode_eq n (a_log s i) (a_term s i)); try done;
    [|by apply ni_rl|apply HN|apply HN|apply HN|]; cycle 1.
  { pose proof (sy_unstable _ _ _ (ni_sync HN)) as Hu. rewrite (ni_log HN) in Hu. lia. }
  cbn [fst].
  set (e := mkLogEntry (Z.of_nat (length (a_log s i)) + 1) (a_term s i) ty d).
  set (s1 := mkA (a_term s) (a_vote s) (<[i := a_log s i ++ [e]]> (a_log s)) (g_cand s)
               (g_leader s) (g_base s) (<[a_term s i := a_log s i ++ [e]]> (g_tlog s))
               (g_votes s) (g_acks s)).
  assert (lstep ids i s s1) as Hs1 by (by apply as_append).
  assert (a_log s1 i = a_log s i ++ [e]) as El by (simpl; apply functions.fn_lookup_insert).
  assert (g_tlog s1 (a_term s i) = a_log s i ++ [e]) as Etl by (simpl; apply functions.fn_lookup_insert).
  set (s2 := mkA (a_term s1) (a_vote s1) (a_log s1) (g_cand s1) (g_leader s1) (g_base s1)
               (g_tlog s1) (g_votes s1) (mkAck i (a_term s1 i) (S (length (a_log s i))) :: g_acks s1)).
  assert (lstep ids i s1 s2) as Hs2.
  { apply as_ack; change (a_term s1 i) with (a_term s i); rewrite ?Etl, ?El; [by eexists| |].
    - rewrite length_app. simpl. lia.
    - apply prefix_take. }
  assert (lsteps ids i s s2) as Hss by (eapply rtc_l; [done|]; by apply rtc_once).
  destruct (lsteps_frame _ _ _ _ Hinv Hss) as ([_ Hx _ _] & Et & Ev).
  assert (a_log s2 i = a_log s i ++ [e]) as El2 by done.
  exists s2. split; [done|].
  split; [|split_and!; [intros Hg; by eapply gbound_grow|rewrite El2, length_app; simpl; lia|done]].
  assert (forall c, cprefix ids s (a_term s i) (a_log s i) c ->
    take c (a_log s i) = take c (a_log s2 i)) as Htk.
  { intros c [Hc _]. rewrite El2. symmetry. by apply take_app_le. }
  split; [|done]. eapply (NI_update s); try done.
  - simpl. pose proof (ni_wf HN) as Hwf. rewrite (ni_rl _ _ HN) in Hwf. by apply log_wf_snoc.
  - unfold role_ok. simpl. rewrite Hr. split_and!; try done.
    + change (a_log s1 i = g_tlog s1 (a_term s i)). by rewrite El, Etl.
    + by apply is_Some_mput.
    + by apply is_Some_mput.
    + intros p. unfold get_matchIndex. simpl. rewrite mget_mput by done. case_decide as E.
      * subst p. split; [lia|]. right.
        replace (Z.to_nat (Z.of_nat (length (a_log s i)) + 1)) with (S (length (a_log s i))) by lia.
        by left.
      * destruct (L6 p) as [? [?|?]]; split; try done; [by left|right]. by right.
    + intros p pd Hp. eapply pend_ok_mono; [exact Hx|by eexists|]. by eapply L7.
  - eapply sync_snoc; [apply HN|apply HN|done..].
Qed.

(** ** becomeLeader *)

Definition other_fields (n : Node) :=
  (config n, peers n, hardState n, role n, votes n, log n, unstableIndex n, commitIndex n,
   lastApplied n, inflight n, hardStateDirty n, messages n).

(** The loop that gives every peer its initial progress. *)
Lemma reset_progress n v ps :
  is_Some (nextIndex n) -> is_Some (matchIndex n) -> (forall p, get_matchIndex n p = 0) ->
  let n' := foldl (fun n peer => set_matchIndex peer 0 (set_nextIndex peer v n)) n ps in
  other_fields n' = other_fields n /\ is_Some (nextIndex n') /\ is_Some (matchIndex n') /\
  forall p, get_matchIndex n' p = 0.
Proof.
  intros H1 H2 H3.
  apply (foldl_inv (fun n' => other_fields n' = other_fields n /\ is_Some (nextIndex n') /\
    is_Some (matchIndex n') /\ forall p, get_matchIndex n' p = 0)); [|done].
  intros x peer (E & X1 & X2 & X3). split_and!; [done|by apply is_Some_mput|by apply is_Some_mput|].
  intros p. unfold get_matchIndex. simpl. rewrite mget_mput by done. case_decide; [done|apply X3].
Qed.

Lemma candidate_quorum s n :
  ni s n -> role n = candidate -> hasMajority n = true ->
  exists Q, quorum ids Q /\ forall q, q ∈ Q -> exists L, mkVote q (a_term s i) i L ∈ g_votes s.
Proof.
  intros HN Hr Hm. pose proof (ni_role HN) as Hro. unfold role_ok in Hro. rewrite Hr in Hro.
  destruct Hro as (_ & _ & vs & Hvs & Hv). unfold hasMajority, majority in Hm. rewrite Hvs in Hm.
  bool_to_prop. exists (elements vs). split; [split_and!|].
  - apply NoDup_elements.
  - intros q Hq. apply elem_of_elements in Hq. by apply Hv.
  - assert (length (peers n) = length ids) as Hpl by (by rewrite (ni_peers HN)).
    rewrite Hpl in Hm. change (size vs) with (length (elements vs)) in Hm.
    pose proof (Z.div_mod (Z.of_nat (length ids)) 2).
    pose proof (Z.mod_pos_bound (Z.of_nat (length ids)) 2). lia.
  - intros q Hq. apply elem_of_elements in Hq. by apply Hv.
Qed.

(** A candidate with a majority finds no leader of its term. *)
Lemma candidate_vacant s n :
  ni s n -> ainv ids s -> role n = candidate -> hasMajority n = true -> g_cand s i (a_term s i) = Some (a_log s i) /\ g_leader s (a_term s i) = None.
Proof.
  intros HN Hinv Hr Hmaj. destruct (candidate_quorum s n HN Hr Hmaj) as (Q & HQ & HQv).
  pose proof (ni_role HN) as Hro. unfold role_ok in Hro. rewrite Hr in Hro. destruct Hro as (Hcand & Hnl & _). split; [done|].
  destruct (g_leader s (a_term s i)) as [j|] eqn:E; [|done]. exfalso. apply Hnl.
  destruct (leader_votes _ _ _ _ Hinv E) as (Q' & HQ' & HQv'). by rewrite (votes_unique _ _ _ _ _ _ _ Hinv HQ HQ' HQv HQv').
Qed.

(** It is elected with its no-op and acknowledges its own log. *)
Definition elected (s : astate) (e : logEntry) : astate :=
  mkA (a_term s) (a_vote s) (<[i := a_log s i ++ [e]]> (a_log s)) (g_cand s)
    (<[a_term s i := Some i]> (g_leader s)) (<[a_term s i := a_log s i]> (g_base s))
    (<[a_term s i := a_log s i ++ [e]]> (g_tlog s)) (g_votes s) (mkAck i (a_term s i) (S (length (a_log s i))) :: g_acks s).

Lemma elected_logs s e : a_log (elected s e) i = a_log s i ++ [e] /\ g_tlog (elected s e) (a_term s i) = a_log s i ++ [e].
Proof. split; apply fn_lookup_insert. Qed.

Lemma elected_steps s n e :
  ni s n -> ainv ids s -> role n = candidate -> hasMajority n = true -> term e = a_term s i -> lsteps ids i s (elected s e).
Proof.
  intros HN Hinv Hr Hmaj He. destruct (candidate_quorum s n HN Hr Hmaj) as (Q & HQ & HQv). destruct (candidate_vacant s n HN Hinv Hr Hmaj) as [Hcand Hnone].
  set (s1 := mkA (a_term s) (a_vote s) (<[i := a_log s i ++ [e]]> (a_log s)) (g_cand s) (<[a_term s i := Some i]> (g_leader s)) (<[a_term s i := a_log s i]> (g_base s))
               (<[a_term s i := a_log s i ++ [e]]> (g_tlog s)) (g_votes s) (g_acks s)).
  eapply (rtc_l _ s s1); [by eapply as_elect|]. apply rtc_once. change (elected s e) with (mkA (a_term s1) (a_vote s1) (a_log s1) (g_cand s1) (g_leader s1) (g_base s1)
    (g_tlog s1) (g_votes s1) (mkAck i (a_term s1 i) (S (length (a_log s i))) :: g_acks s1)).
  apply as_ack; change (a_term s1 i) with (a_term s i); subst s1; cbn [a_log g_tlog g_leader]; rewrite !fn_lookup_insert; [by eexists| |].
  - rewrite length_app. simpl. lia.
  - apply prefix_take.
Qed.

Lemma NI_becomeLeader s n :
  ni s n -> ainv ids s -> role n = candidate -> hasMajority n = true ->
  Z.of_nat (length (a_log s i)) + 1 < max_u64 ->
  exists s', lsteps ids i s s' /\ NL s' (becomeLeader n) /\
    (gbound s -> gbound s') /\ length (a_log s' i) = S (length (a_log s i)) /\
    unstableIndex (becomeLeader n) = unstableIndex n.
Proof.
  intros HN Hinv Hr Hmaj Hmax.
  unfold becomeLeader.
  match goal with |- context [foldl _ (with_inflight (Some ∅) ?x) _] =>
    set (n2 := with_inflight (Some ∅) x) end.
  destruct (reset_progress n2 (lastIndex (log n2) +u 1) (peers n2)) as (E3 & N3 & M3 & Z3);
    [by eexists|by eexists|done|].
  change (log (with_votes None (with_heartbeatElapsed 0 (with_role leader n)))) with (log n2).
  match type of E3 with other_fields ?x = _ => set (n3 := x) in * end. clearbody n3.
  unfold other_fields in E3. simpl in E3.
  injection E3 as F1 F2 F3 F4 F5 F6 F7 F8 F9 F10 F11 F12.
  pose proof (sy_unstable _ _ _ (ni_sync HN)) as Hu. rewrite (ni_log HN) in Hu.
  rewrite (appendLocalNode_eq n3 (a_log s i) (a_term s i)); try done;
    [|rewrite F6; by apply ni_rl|rewrite F6; apply HN|rewrite F3; apply HN|rewrite F1; apply HN
     |rewrite F7; lia].
  cbn [fst].
  set (e := mkLogEntry (Z.of_nat (length (a_log s i)) + 1) (a_term s i) EntryType_NOOP []).
  match goal with |- context [advanceCommit ?x] => set (n4 := x) end.
  pose proof (elected_steps s n e HN Hinv Hr Hmaj eq_refl) as Hss. destruct (elected_logs s e) as [El Etl]. set (s2 := elected s e) in *.
  destruct (lsteps_frame _ _ _ _ Hinv Hss) as ([_ Hx _ _] & Et & Ev).
  assert (NL s2 n4) as HL4.
  { split; [|done]. eapply (NI_update s s2 n); try done; try (by simpl; congruence).
    - simpl. pose proof (ni_wf HN) as Hwf. rewrite (ni_rl _ _ HN) in Hwf. by apply log_wf_snoc.
    - intros c [Hc _]. rewrite El. symmetry. by apply take_app_le.
    - unfold role_ok. simpl. rewrite F4. split_and!; try done.
      + apply fn_lookup_insert.
      + change (a_log s2 i = g_tlog s2 (a_term s i)). by rewrite El, Etl.
      + by apply is_Some_mput.
      + by apply is_Some_mput.
      + intros p. unfold get_matchIndex. simpl. rewrite mget_mput by done. case_decide as E.
        * subst p. split; [lia|]. right.
          replace (Z.to_nat (Z.of_nat (length (a_log s i)) + 1)) with (S (length (a_log s i))) by lia.
          by left.
        * rewrite (Z3 p : mget (matchIndex n3) p 0 = 0). split; [done|by left].
      + intros p pd. unfold get_inflight. simpl. rewrite F10. simpl. by rewrite lookup_empty.
    - eapply (sync_snoc n (a_log s i) e); [apply HN|apply HN|done..]. }
  exists s2. split; [done|]. split_and!.
  - apply foldl_inv; [|by apply NL_advanceCommit]. intros x p Hxp.
    case_bool; [by apply NL_sendAppend|done].
  - intros Hg. by eapply gbound_grow.
  - rewrite El, length_app. simpl. lia.
  - match goal with |- unstableIndex ?x = _ => assert (stable_fields x = stable_fields n4) as Hst end.
    { rewrite foldl_fields, advanceCommit_fields; [done|]. intros x p.
      case_bool; [apply sendAppend_fields|done]. }
    apply stable_unstable in Hst as [-> _]. done.
Qed.

(** ** Changes of term and vote *)

Lemma NI_hard s s' n n' :
  ni s n -> gext s s' -> a_log s' i = a_log s i -> a_term s' i < max_u64 ->
  hs_Term (hardState n') = a_term s' i -> VotedFor (hardState n') = a_vote s' i ->
  config n' = config n -> peers n' = peers n -> log n' = log n ->
  unstableIndex n' = unstableIndex n -> commitIndex n' = commitIndex n ->
  lastApplied n' = lastApplied n -> messages n' = messages n -> hardStateDirty n' = true ->
  role_ok ids s' i n' -> ni s' n'.
Proof.
  intros [H1 H2 H3 H4 H5 H6 H7 H8 H9 H10 H11 H12 H13 [S1 S2 S3 S4 S5]] Hx El Hm
    Et Ev E1 E2 E3 E4 E5 E6 E7 E8 Hr.
  pose proof (gx_term _ _ Hx i) as Hti.
  assert (forall c, cprefix ids s (a_term s i) (a_log s i) c ->
                    cprefix ids s' (a_term s' i) (a_log s i) c) as Hc.
  { intros c. by apply cprefix_mono. }
  split; rewrite ?E1, ?E2, ?E3, ?E5, ?E6, ?E7, ?El; try done.
  - split; [apply H10|]. apply Hc, H10.
  - split; [apply H11|]. apply Hc, H11.
  - by eapply msgs_ok_mono.
  - split; rewrite ?E3, ?E4; try done. by rewrite E8.
Qed.

Lemma NI_becomeFollower s n t :
  ni s n -> ainv ids s -> a_term s i < t < max_u64 ->
  exists s', hsteps i s s' /\ ni s' (becomeFollower t n) /\ a_term s' i = t /\
    unstableIndex (becomeFollower t n) = unstableIndex n.
Proof.
  intros HN Hinv Ht.
  eexists. split; [apply rtc_once, (as_bump i s t); lia|].
  assert (hsteps i s (mkA (<[i := t]> (a_term s)) (<[i := 0]> (a_vote s)) (a_log s) (g_cand s)
           (g_leader s) (g_base s) (g_tlog s) (g_votes s) (g_acks s))) as Hs
    by (apply rtc_once, as_bump; lia).
  destruct (hsteps_frame _ _ _ _ Hinv Hs) as ([_ Hx _ _] & _).
  unfold becomeFollower. rewrite (ni_term HN).
  destruct (negb (t =? a_term s i)) eqn:E; bool_to_prop; [|lia].
  match goal with |- context [resetElectionTimeout ?x] => set (n1 := x) end.
  pose proof (reset_core n1) as Ec. unfold core in Ec.
  injection Ec as E1 E2 E3 E4 E5 E6 E7 E8 E9 _ _ _ E13 E14.
  split_and!.
  - eapply (NI_hard s _ n); try done; simpl; rewrite ?fn_lookup_insert, ?E3, ?E6, ?E7, ?E8, ?E9, ?E13, ?E14;
      try (done || lia).
  - simpl. apply fn_lookup_insert.
  - simpl. by rewrite E7.
Qed.

Definition evolves (s : astate) (n' : Node) : Prop :=
  exists s1 s', hsteps i s s1 /\ lsteps ids i s1 s' /\ ni s' n' /\ gbound s' /\
    (unstableIndex n' - 1 < Z.of_nat (length (a_log s i)) ->
     exists s2, lsteps ids i s1 s2 /\ gbound s2 /\
       a_log s2 i = take (Z.to_nat (unstableIndex n' - 1)) (a_log s i)).

Definition at_rest (n : Node) : Prop :=
  unstableIndex n = Z.of_nat (length (entries (log n))) + 1.

Lemma evolves_keep s s1 s' n n' :
  ni s n -> at_rest n -> hsteps i s s1 -> lsteps ids i s1 s' -> ni s' n' -> gbound s' ->
  unstableIndex n' = unstableIndex n -> evolves s n'.
Proof.
  intros HN Hrest Hs1 Hs' HN' Hg Hu. exists s1, s'. split_and!; try done.
  unfold at_rest in Hrest. rewrite Hu, Hrest, (ni_log HN). lia.
Qed.

Lemma evolves_id s n n' :
  ni s n -> at_rest n -> gbound s -> ni s n' -> unstableIndex n' = unstableIndex n -> evolves s n'.
Proof. intros. by apply (evolves_keep s s s n). Qed.

Lemma NI_response s n to granted : ni s n -> granted = false \/
    (exists L, mkVote i (a_term s i) to L ∈ g_votes s) ->
  ni s (sendRequestVoteResponse to granted n).
Proof.
  intros HN Hg. apply NI_send; [done|]. split; [simpl; rewrite (ni_term HN); apply HN|].
  eexists. split; [done|]. simpl. rewrite (ni_term HN), (ni_id HN). split; [done|].
  intros ->. by destruct Hg.
Qed.

Lemma NI_append_response s n to success m : ni s n -> success = false \/
    (0 <= m /\ mkAck i (a_term s i) (Z.to_nat m) ∈ g_acks s) ->
  ni s (sendAppendEntriesResponse to success m n).
Proof.
  intros HN Hg. apply NI_send; [done|]. split; [simpl; rewrite (ni_term HN); apply HN|].
  eexists. split; [done|]. simpl. rewrite (ni_term HN), (ni_id HN). split; [done|].
  intros ->. by destruct Hg.
Qed.

Lemma uptodate_spec s n idx t L :
  ni s n -> idx = Z.of_nat (length L) -> t = last_term L ->
  candidateLogIsUpToDate n idx t = true -> uptodate L (a_log s i).
Proof.
  intros HN -> -> H. unfold candidateLogIsUpToDate in H.
  rewrite (ni_last _ _ HN), (ni_lastTerm _ _ HN) in H. unfold uptodate.
  apply orb_true_iff in H as [H|H]; bool_to_prop; [by left|right]. split; [done|lia].
Qed.

Lemma NI_handleRequestVote s n m req :
  ni s n -> ainv ids s -> msg_ok ids s m -> m_Body m = Some (Message_RequestVote req) ->
  m_Term m = a_term s i ->
  exists s', hsteps i s s' /\ ni s' (handleRequestVote m req n) /\
    unstableIndex (handleRequestVote m req n) = unstableIndex n.
Proof.
  intros HN Hinv (_ & b & Hb & Hok) Hbody HT. rewrite Hbody in Hb. simplify_eq.
  destruct Hok as (E1 & E2 & Hnz & L & HL & E3 & E4). rewrite HT in *.
  unfold handleRequestVote. rewrite (ni_vote HN), E2.
  destruct (_ && _)%bool eqn:Eg; cycle 1.
  { exists s. split_and!; [done|by apply NI_response; auto|done]. }
  bool_to_prop. pose proof (uptodate_spec _ _ _ _ _ HN E3 E4 ltac:(done)) as Hup.
  destruct (Z.eqb_spec (a_vote s i) 0) as [Hv|Hv].
  - assert (hsteps i s (mkA (a_term s) (<[i := From m]> (a_vote s)) (a_log s) (g_cand s)
              (g_leader s) (g_base s) (g_tlog s)
              (mkVote i (a_term s i) (From m) (a_log s i) :: g_votes s) (g_acks s))) as Hs
      by (apply rtc_once; by eapply as_vote).
    destruct (hsteps_frame _ _ _ _ Hinv Hs) as ([_ Hx _ _] & _).
    eexists. split; [exact Hs|]. split; [|done].
    apply NI_response; [|right; eexists; by left].
    eapply (NI_hard s _ n); try done; simpl; rewrite ?fn_lookup_insert; try done; try apply HN.
    pose proof (ni_role HN) as Hro. unfold role_ok in *. simpl.
    destruct (role n).
    + done.
    + destruct Hro as (? & ? & vs & ? & Hvs). split_and!; try done. exists vs. split; [done|].
      intros v Hin. destruct (Hvs v Hin) as [? [L' ?]]. split; [done|]. exists L'. by right.
    + destruct Hro as (? & ? & ? & ? & ? & ? & Hi). split_and!; try done.
  - assert (From m = a_vote s i) as Hc by (destruct_or!; bool_to_prop; congruence).
    exists s. split_and!; [done| |done]. apply NI_response.
    + by apply (NI_core _ _ _ _ _ n).
    + right. rewrite Hc. by apply (inv_voted _ _ Hinv).
Qed.

(** ** Elections *)

Lemma NI_voteRequests s n ps :
  ni s n -> role n = candidate -> i <> 0 ->
  let n' := foldl (fun n peer => if peer =? ID (config n) then n
                                 else send (requestVoteMessage n peer) n) n ps in
  ni s n' /\ unstableIndex n' = unstableIndex n.
Proof.
  intros HN Hr Hi n'.
  enough ((ni s n' /\ role n' = candidate) /\ unstableIndex n' = unstableIndex n) as [[? ?] ?] by done.
  apply (foldl_inv (fun x => (ni s x /\ role x = candidate) /\ unstableIndex x = unstableIndex n)); [|done].
  intros x p [[Hx Hrx] Hu]. case_bool; [done|]. split; [|done]. split; [|done].
  pose proof (ni_role Hx) as Hro. unfold role_ok in Hro. rewrite Hrx in Hro. destruct Hro as [Hc _].
  apply NI_send; [done|]. split; [simpl; rewrite (ni_term Hx); apply Hx|]. eexists. split; [done|].
  simpl. rewrite (ni_term Hx), (ni_id Hx). split_and!; try done. exists (a_log s i).
  by rewrite (ni_last _ _ Hx), (ni_lastTerm _ _ Hx).
Qed.

Definition room (s : astate) : Prop := Z.of_nat (length (a_log s i)) + 1 < max_u64.

Lemma NI_startElection s n :
  ni s n -> at_rest n -> ainv ids s -> gbound s -> i <> 0 -> room s ->
  a_term s i + 1 < max_u64 -> evolves s (startElection n).
Proof.
  intros HN Hrest Hinv Hg Hi Hmax HT. set (t := a_term s i + 1).
  set (s1 := mkA (<[i := t]> (a_term s)) (<[i := i]> (a_vote s)) (a_log s)
               (<[i := <[t := Some (a_log s i)]> (g_cand s i)]> (g_cand s))
               (g_leader s) (g_base s) (g_tlog s) (mkVote i t i (a_log s i) :: g_votes s) (g_acks s)).
  assert (hsteps i s s1) as Hs by (apply rtc_once, as_cand; [lia|done]).
  destruct (hsteps_frame _ _ _ _ Hinv Hs) as ([Hinv1 Hx _ _] & _).
  unfold startElection.
  rewrite (ni_term HN), (ni_id HN), u64_add_small by (pose proof (inv_term _ _ Hinv i); lia).
  match goal with |- context [resetElectionTimeout ?x] => set (n2 := x) end.
  assert (a_term s1 i = t) as Et by (simpl; apply fn_lookup_insert).
  assert (ni s1 n2) as HN2.
  { eapply (NI_hard s s1 n); try done; rewrite ?Et; try (unfold t; (done || lia)).
    - simpl. by rewrite fn_lookup_insert.
    - unfold role_ok. simpl. rewrite !fn_lookup_insert. split_and!.
      + done.
      + intros Hl. destruct (inv_leader _ _ Hinv _ _ Hl) as (Hc & _).
        destruct (inv_cand _ _ Hinv _ _ _ Hc) as [? _]. unfold t in *. lia.
      + exists {[i]}. split; [done|]. intros v Hv. apply elem_of_singleton in Hv as ->.
        split; [apply HN|]. exists (a_log s i). by left. }
  pose proof (reset_core n2) as Ec.
  assert (ni s1 (resetElectionTimeout n2)) as HN3 by (by eapply NI_core).
  assert (role (resetElectionTimeout n2) = candidate /\
          unstableIndex (resetElectionTimeout n2) = unstableIndex n) as [Hr Hu].
  { destruct (reset_role n2) as [-> ->]. done. }
  destruct (hasMajority _) eqn:Em.
  - destruct (NI_becomeLeader s1 _ HN3 Hinv1 Hr Em Hmax) as (s' & Hs' & [HN' _] & Hg' & _ & Hu').
    apply (evolves_keep s s1 s' n); try done; [by apply Hg'|congruence].
  - destruct (NI_voteRequests s1 _ (peers (resetElectionTimeout n2)) HN3 Hr Hi) as [HN' Hu'].
    apply (evolves_keep s s1 s1 n); try done; congruence.
Qed.

Lemma NI_handleRequestVoteResponse s n m resp :
  ni s n -> ainv ids s -> gbound s -> msg_ok ids s m ->
  m_Body m = Some (Message_RequestVoteResp resp) ->
  To m = i -> m_Term m = a_term s i -> room s ->
  exists s', lsteps ids i s s' /\ ni s' (handleRequestVoteResponse m resp n) /\ gbound s' /\
    unstableIndex (handleRequestVoteResponse m resp n) = unstableIndex n.
Proof.
  intros HN Hinv Hg (_ & b & Hb & Hok) Hbody Hto HT Hmax. rewrite Hbody in Hb. injection Hb as <-.
  destruct Hok as [_ Hgr]. unfold handleRequestVoteResponse.
  destruct (_ || _)%bool eqn:E; [by exists s|].
  apply orb_false_iff in E as [[Ec Ev]%orb_false_iff Ep]. bool_to_prop.
  destruct (Hgr ltac:(done)) as [L HL]. rewrite HT, Hto in HL.
  match goal with |- context [hasMajority ?x] => set (n1 := x) end.
  assert (ni s n1) as HN1.
  { destruct HN as [H1 H2 H3 H4 H5 H6 H7 H8 H9 H10 H11 H12 H13 [S1 S2 S3 S4 S5]].
    split; try done. unfold role_ok in *. simpl. rewrite Ec in *.
    destruct H12 as (? & ? & vs & Hvs & Hv). split_and!; try done.
    rewrite Hvs. eexists. split; [done|]. intros v [->%elem_of_singleton|Hin]%elem_of_union; [|by apply Hv].
    split; [|by exists L]. rewrite <- H3. by apply isPeer_elem. }
  destruct (hasMajority n1) eqn:Em; [|by exists s].
  destruct (NI_becomeLeader s n1 HN1 Hinv ltac:(done) Em Hmax) as (s' & Hs' & [HN' _] & Hg' & _ & Hu').
  exists s'. split_and!; auto.
Qed.


(** ** Replication to a follower *)

Section accept.
Context (s : astate) (Hinv : ainv ids s) (T : Z) (HT : is_Some (g_leader s T)).
Context (L : list logEntry) (HL : logok s L).
Notation G := (g_tlog s T).

Lemma match_take q :
  term_at L q = term_at G q -> (q <= length L)%nat -> (q <= length G)%nat ->
  take q L = take q G.
Proof.
  intros Ht HqL HqG. destruct q as [|q]; [done|]. simpl in Ht.
  destruct (lookup_lt_is_Some_2 L q) as [a Ha]; [lia|].
  destruct (lookup_lt_is_Some_2 G q) as [b Hb]; [lia|]. rewrite Ha, Hb in Ht. simpl in Ht.
  eapply logok_matching; [done|by apply (tlog_ok ids)|done..].
Qed.

Lemma agree_take p k j :
  take p L = take p G -> (p <= k <= length G)%nat -> (j <= k - p)%nat ->
  agree L p (take (k - p) (drop p G)) j ->
  take (p + j) L = take (p + j) G.
Proof.
  intros Hp Hk Hj Hag. destruct j as [|j]; [by rewrite Nat.add_0_r|].
  destruct (lookup_lt_is_Some_2 G (p + j)) as [b Hb]; [lia|].
  destruct (Hag j b) as (a & Ha & Hab); [lia| |].
  { rewrite lookup_take_lt, lookup_drop by lia. done. }
  replace (p + S j)%nat with (S (p + j)) by lia.
  eapply logok_matching; [done|by apply (tlog_ok ids)|done..].
Qed.

Lemma conflict_diff p k j :
  (p <= k <= length G)%nat -> conflict L p (take (k - p) (drop p G)) j ->
  (p + j < k)%nat /\ ((length L <= p + j)%nat \/ take (S (p + j)) L <> take (S (p + j)) G).
Proof.
  intros Hk (b & Hb & Hm). apply lookup_take_Some in Hb as [Hb Hj]. rewrite lookup_drop in Hb.
  split; [lia|]. destruct (L !! (p + j)%nat) as [a|] eqn:Ha; [right|left; by apply lookup_ge_None].
  intros E. apply Hm. apply (take_eq_lookup _ _ _ (p + j)) in E; [|lia]. congruence.
Qed.

(** Committed entries survive the truncation. *)
Lemma conflict_keeps c f :
  cprefix ids s T L c -> (length L <= f)%nat \/ take (S f) L <> take (S f) G ->
  (c <= f)%nat.
Proof.
  intros Hc Hor. pose proof (cprefix_in_leader _ _ _ _ _ Hinv Hc HT) as Htk.
  destruct Hc as [Hcl _]. destruct Hor as [|Hne]; [lia|].
  destruct (decide (c <= f)%nat) as [|Hgt]; [done|]. exfalso. apply Hne.
  eapply take_eq_le; [exact Htk|lia].
Qed.
End accept.

Lemma checkIndexes_spec prev j es :
  0 <= prev -> 0 <= j -> prev + j + Z.of_nat (length es) <= max_u64 ->
  checkIndexes prev j (Some <$> es) = true -> contiguous_from (prev + j) es.
Proof.
  intros Hp. revert j. induction es as [|e es IH]; intros j Hj Hmax Hc; [by intros k x Hx|].
  rewrite length_cons in Hmax. csimpl in Hc. cbn [checkIndexes] in Hc.
  rewrite (u64_add_small prev j), u64_add_small in Hc by lia. case_bool; [done|]. bool_to_prop.
  apply contiguous_cons. split; [lia|]. replace (prev + j + 1) with (prev + (j + 1)) by lia.
  apply IH; [lia|lia|done].
Qed.

Lemma appendRequestLastIndex_spec req es p last :
  ae_Entries req = Some <$> es -> ae_PrevLogIndex req = Z.of_nat p ->
  appendRequestLastIndex req = (last, true) ->
  contiguous_from (Z.of_nat p) es /\ last = Z.of_nat (p + length es) /\ last <= max_u64.
Proof.
  intros Ees Ep. unfold appendRequestLastIndex. rewrite Ees, Ep, length_fmap.
  case_bool; [done|]. case_bool; [|done]. bool_to_prop. intros E. injection E as <-.
  rewrite u64_add_small by lia. split_and!; [|lia|lia].
  replace (Z.of_nat p) with (Z.of_nat p + 0) by lia. apply checkIndexes_spec; (done || lia).
Qed.

Lemma NI_stepdown s n :
  ni s n ->
  ni s (with_electionElapsed 0
          (if negb (bool_decide (role n = follower)) then becomeFollowerSameTerm n else n)).
Proof.
  intros [H1 H2 H3 H4 H5 H6 H7 H8 H9 H10 H11 H12 H13 [S1 S2 S3 S4 S5]].
  case_bool; bool_to_prop; (split; try done).
Qed.


Definition with_a_log (s : astate) (L : list logEntry) : astate :=
  mkA (a_term s) (a_vote s) (<[i := L]> (a_log s)) (g_cand s) (g_leader s) (g_base s)
    (g_tlog s) (g_votes s) (g_acks s).

Definition with_ack (s : astate) (k : nat) : astate :=
  mkA (a_term s) (a_vote s) (a_log s) (g_cand s) (g_leader s) (g_base s)
    (g_tlog s) (g_votes s) (mkAck i (a_term s i) k :: g_acks s).

(** Taking the leader's suffix and acknowledging it. *)
Lemma extend_steps s k :
  let G := g_tlog s (a_term s i) in
  is_Some (g_leader s (a_term s i)) ->
  a_log s i `prefix_of` G -> (length (a_log s i) <= k <= length G)%nat ->
  exists s', lsteps ids i s s' /\ a_log s' i = take k G /\ g_tlog s' = g_tlog s /\
    mkAck i (a_term s i) k ∈ g_acks s'.
Proof.
  intros G HT Hp Hk. exists (with_ack (with_a_log s (take k G)) k). split_and!; try done.
  - eapply rtc_l; [by apply (as_extend ids i s k); [..|lia]|].
    apply rtc_once, (as_ack ids i (with_a_log s (take k G)) k); simpl; [done|apply Hk|].
    by rewrite fn_lookup_insert.
  - simpl. apply fn_lookup_insert.
  - by left.
Qed.

(** Cutting at the first conflict before that. *)
Lemma accept_steps s f k :
  is_Some (g_leader s (a_term s i)) ->
  let L := a_log s i in let G := g_tlog s (a_term s i) in
  take f L = take f G -> (f < k <= length G)%nat ->
  (length L <= f)%nat \/ take (S f) L <> take (S f) G ->
  (exists s', lsteps ids i s s' /\ a_log s' i = take k G /\ g_tlog s' = g_tlog s /\
    mkAck i (a_term s i) k ∈ g_acks s') /\
  ((f < length L)%nat -> lsteps ids i s (with_a_log s (take f L))).
Proof.
  intros HT L G Hf Hk Hor.
  assert ((f < length L)%nat -> lsteps ids i s (with_a_log s (take f L))) as Htrunc.
  { intros Hlt. apply rtc_once, as_trunc; [done|]. destruct Hor; [lia|done]. }
  split; [|done]. destruct (decide (f < length L)%nat) as [Hlt|Hge].
  - destruct (extend_steps (with_a_log s (take f L)) k) as (s' & Hs' & ? & ? & ?).
    + done.
    + simpl. rewrite fn_lookup_insert, Hf. apply prefix_take.
    + simpl. rewrite fn_lookup_insert, length_take. fold G. lia.
    + exists s'. split_and!; try done. etrans; [by apply Htrunc|done].
  - assert (L = take f G) as E by (rewrite <- Hf; symmetry; apply take_ge; lia).
    apply extend_steps; [done| |fold L G; lia]. fold L G. rewrite E. apply prefix_take.
Qed.


Definition levolves (s : astate) (n' : Node) : Prop :=
  exists s', lsteps ids i s s' /\ ni s' n' /\ gbound s' /\
    (unstableIndex n' - 1 < Z.of_nat (length (a_log s i)) ->
     exists s2, lsteps ids i s s2 /\ gbound s2 /\
       a_log s2 i = take (Z.to_nat (unstableIndex n' - 1)) (a_log s i)).

Lemma levolves_keep s s' n n' :
  ni s n -> at_rest n -> lsteps ids i s s' -> ni s' n' -> gbound s' ->
  unstableIndex n' = unstableIndex n -> levolves s n'.
Proof.
  intros HN Hrest Hs' HN' Hg Hu. exists s'. split_and!; try done.
  unfold at_rest in Hrest. rewrite Hu, Hrest, (ni_log HN). lia.
Qed.

Lemma matches_spec s n p t :
  ni s n -> Z.of_nat p <= max_u64 -> matches (log n) (Z.of_nat p) t = true ->
  (p <= length (a_log s i))%nat /\ term_at (a_log s i) p = t.
Proof.
  intros HN Hp Hm. unfold matches in Hm.
  destruct (decide (p <= length (a_log s i))%nat) as [Hle|Hgt].
  - rewrite (ni_termAt _ _ HN) in Hm by done. bool_to_prop. done.
  - rewrite termAt_wf in Hm; [|apply HN|rewrite (ni_snap HN); simpl; lia].
    unfold pos in Hm. rewrite (ni_snap HN), (ni_log HN), lookup_ge_None_2 in Hm by (simpl; lia). done.
Qed.

(** A follower's log after the leader's suffix replaced its own from position [f]. *)
Lemma NI_overwrite s s' n f k G :
  ni s n -> at_rest n -> role n = follower -> ainv ids s -> lsteps ids i s s' ->
  is_Some (g_leader s (a_term s i)) -> G = g_tlog s (a_term s i) ->
  take f (a_log s i) = take f G -> (f < k <= length G)%nat -> Z.of_nat k < max_u64 ->
  (length (a_log s i) <= f)%nat \/ take (S f) (a_log s i) <> take (S f) G ->
  a_log s' i = take k G ->
  contiguous_from 0 (toEntry <$> take k G) ->
  ni s' (with_unstableIndex (Z.of_nat f + 1) (with_log (mkRaftLog (snapshot (log n)) (take k G)) n)).
Proof.
  intros HN Hrest Hr Hinv Hs HT -> Hf Hk Hmax Hor El Hcont.
  destruct (lsteps_frame _ _ _ _ Hinv Hs) as ([_ Hx _ _] & Et & Ev).
  assert (f <= length (a_log s i))%nat as HfL.
  { apply (f_equal length) in Hf. rewrite !length_take in Hf. lia. }
  eapply (NI_update s s' n); try done.
  - apply HN.
  - unfold log_wf. simpl. rewrite (ni_snap HN). cbn [snap_Index]. split; [done|].
    rewrite length_take. split; [lia|].
    intros j e He. specialize (Hcont j (toEntry e)). rewrite list_lookup_fmap, He in Hcont.
    specialize (Hcont eq_refl). simpl in Hcont. lia.
  - intros c Hc. pose proof (conflict_keeps _ Hinv _ HT _ _ _ Hc Hor) as Hcf.
    rewrite El, take_take, (cprefix_in_leader _ _ _ _ _ Hinv Hc HT). f_equal. lia.
  - unfold role_ok. simpl. by rewrite Hr.
  - unfold at_rest in Hrest. rewrite (ni_log HN) in Hrest.
    destruct (ni_sync HN) as [S1 S2 S3 S4 S5]. rewrite (ni_log HN) in *.
    split; simpl; rewrite ?length_take; try done; try lia.
    replace (Z.to_nat (Z.of_nat f + 1 - 1)) with f by lia.
    rewrite S4 by lia. rewrite Hf, take_take. f_equal. lia.
Qed.


(** The commit index a follower takes from the leader. *)
Lemma NI_followerCommit s n lc k T0 :
  ni s n -> T0 = a_term s i ->
  (k <= length (a_log s i))%nat -> take k (a_log s i) = take k (g_tlog s T0) ->
  0 <= lc -> cprefix ids s T0 (g_tlog s T0) (Z.to_nat lc) ->
  ni s (if commitIndex n <? lc then with_commitIndex (Z.min lc (Z.of_nat k)) n else n).
Proof.
  intros HN -> Hk Htk Hlc Hc. case_bool; [|done]. apply NI_commit; [done|lia|].
  assert (cprefix ids s (a_term s i) (g_tlog s (a_term s i)) (Z.to_nat (Z.min lc (Z.of_nat k)))) as Hc'
    by (eapply cprefix_le; [exact Hc|lia]).
  eapply cprefix_mono; [apply gext_refl|done| |exact Hc']. symmetry.
  eapply take_eq_le; [exact Htk|lia].
Qed.

Lemma contiguous_full s p k G es :
  logok s G -> es = toEntry <$> take (k - p) (drop p G) -> contiguous_from (Z.of_nat p) es ->
  contiguous_from 0 (toEntry <$> take p G) -> (p <= k <= length G)%nat ->
  contiguous_from 0 (toEntry <$> take k G).
Proof.
  intros _ -> H2 H1 Hk j e He. rewrite list_lookup_fmap in He.
  apply fmap_Some in He as (x & Hx & ->). apply lookup_take_Some in Hx as [Hx Hj].
  destruct (decide (j < p)%nat) as [Hlt|Hge].
  - apply (H1 j). rewrite list_lookup_fmap, lookup_take_lt, Hx by done. done.
  - rewrite (H2 (j - p)%nat (toEntry x)); [lia|].
    rewrite list_lookup_fmap, lookup_take_lt, lookup_drop by lia.
    replace (p + (j - p))%nat with j by lia. by rewrite Hx.
Qed.

Lemma ni_contiguous s n p : ni s n -> contiguous_from 0 (toEntry <$> take p (a_log s i)).
Proof.
  intros HN j e He. rewrite list_lookup_fmap in He. apply fmap_Some in He as (x & Hx & ->).
  apply lookup_take_Some in Hx as [Hx _]. destruct (ni_wf HN) as (_ & _ & Hw).
  rewrite (ni_log HN), (ni_snap HN) in Hw. simpl in *. rewrite (Hw j x Hx). lia.
Qed.

(** The entries that a leader sends agree with the log of the follower: it acknowledges. *)
Lemma NI_acceptAgreed s n to k lc :
  let G := g_tlog s (a_term s i) in
  ni s n -> at_rest n -> role n = follower -> ainv ids s -> gbound s -> is_Some (g_leader s (a_term s i)) -> (k <= length G)%nat ->
  take k (a_log s i) = take k G -> 0 <= lc -> cprefix ids s (a_term s i) G (Z.to_nat lc) ->
  levolves s (sendAppendEntriesResponse to true (Z.of_nat k)
    (if commitIndex n <? lc then with_commitIndex (Z.min lc (Z.of_nat k)) n else n)).
Proof.
  intros G HN Hrest Hr Hinv Hg HS Hk Htk Hlc Hcom. pose proof (Hg (a_term s i)) as HgT. fold G in HgT.
  assert (k <= length (a_log s i))%nat as HkL by (symmetry in Htk; eapply take_eq_length; [done|lia]).
  assert (lsteps ids i s (with_ack s k)) as Hs.
  { apply rtc_once, as_ack; [done|fold G; lia|]. fold G. rewrite <- Htk. apply prefix_take. }
  destruct (lsteps_frame _ _ _ _ Hinv Hs) as ([_ Hx _ _] & _ & _).
  assert (ni (with_ack s k) n) as HN'.
  { eapply (NI_update s _ n); try done; try apply HN. unfold role_ok. by rewrite Hr. }
  eapply (levolves_keep s (with_ack s k) n); try done; cycle 1.
  { by case_bool. }
  apply NI_append_response; [|right; split; [lia|rewrite Nat2Z.id; by left]].
  eapply (NI_followerCommit (with_ack s k)) with (n := n); try done.
  by eapply cprefix_mono; [exact Hx|done| |exact Hcom].
Qed.

(** They differ from it at [f]: it cuts its log there and takes the leader's. *)
Lemma NI_acceptConflict s n to f k lc :
  let G := g_tlog s (a_term s i) in
  let n4 := with_unstableIndex (Z.of_nat f + 1) (with_log (mkRaftLog (snapshot (log n)) (take k G)) n) in
  ni s n -> at_rest n -> role n = follower -> ainv ids s -> gbound s -> is_Some (g_leader s (a_term s i)) ->
  (f < k <= length G)%nat -> take f (a_log s i) = take f G -> (length (a_log s i) <= f)%nat \/ take (S f) (a_log s i) <> take (S f) G ->
  contiguous_from 0 (toEntry <$> take k G) -> 0 <= lc -> cprefix ids s (a_term s i) G (Z.to_nat lc) ->
  levolves s (sendAppendEntriesResponse to true (Z.of_nat k)
    (if commitIndex n4 <? lc then with_commitIndex (Z.min lc (Z.of_nat k)) n4 else n4)).
Proof.
  intros G n4 HN Hrest Hr Hinv Hg HS Hk Htf Hor Hcf Hlc Hcom. pose proof (Hg (a_term s i)) as HgT. fold G in HgT.
  destruct (accept_steps s f k HS Htf ltac:(fold G; lia) Hor) as [(s' & Hs & Ea & Etl & Hack) Htrunc].
  fold G in Ea. destruct (lsteps_frame _ _ _ _ Hinv Hs) as ([_ Hx _ _] & Et & _).
  pose proof (NI_overwrite s s' n f k G HN Hrest Hr Hinv Hs HS eq_refl Htf ltac:(lia) ltac:(lia) Hor Ea Hcf : ni s' n4) as HN'.
  assert (f <= length (a_log s i))%nat as HfL.
  { apply (f_equal length) in Htf. rewrite !length_take in Htf. lia. }
  exists s'. split; [done|]. split_and!.
  - apply NI_append_response; [|right; split; [lia|rewrite Nat2Z.id, Et; done]].
    apply (NI_followerCommit s' n4 lc k (a_term s i)); try done.
    + rewrite Ea, length_take. lia.
    + rewrite Ea, take_take, Etl. f_equal. lia.
    + rewrite Etl. eapply cprefix_mono; [exact Hx|done| |exact Hcom]. done.
  - intros T. rewrite Etl. apply Hg.
  - intros Hlt. exists (with_a_log s (take f (a_log s i))).
    assert (unstableIndex (sendAppendEntriesResponse to true (Z.of_nat k)
      (if commitIndex n4 <? lc then with_commitIndex (Z.min lc (Z.of_nat k)) n4 else n4)) =
      Z.of_nat f + 1) as Hu' by (by destruct (_ <? lc)).
    rewrite Hu' in *. split_and!; [apply Htrunc; lia|done|].
    simpl. rewrite fn_lookup_insert. f_equal. lia.
Qed.

Lemma NI_acceptAppend s n to p k lc es :
  let G := g_tlog s (a_term s i) in
  ni s n -> at_rest n -> role n = follower -> ainv ids s -> gbound s ->
  is_Some (g_leader s (a_term s i)) -> (p <= k <= length G)%nat ->
  es = toEntry <$> take (k - p) (drop p G) -> contiguous_from (Z.of_nat p) es ->
  (p <= length (a_log s i))%nat -> take p (a_log s i) = take p G ->
  0 <= lc -> cprefix ids s (a_term s i) G (Z.to_nat lc) ->
  levolves s (
    let '(l', changed) := appendFromLeader (log n) (Some <$> es) in
    let n3 := with_log l' n in
    let n4 := if negb (changed =? 0) && (changed <? unstableIndex n3)
              then with_unstableIndex changed n3 else n3 in
    let n5 := if commitIndex n4 <? lc
              then with_commitIndex (Z.min lc (Z.of_nat k)) n4 else n4 in
    sendAppendEntriesResponse to true (Z.of_nat k) n5).
Proof.
  intros G HN Hrest Hr Hinv Hg HS Hpk Ees Hcont HpL Htp Hlc Hcom.
  destruct (inv_log _ _ Hinv i) as [HlokL _]. pose proof (Hg (a_term s i)) as HgT. fold G in HgT.
  assert (length es = (k - p)%nat) as Hel
    by (rewrite Ees, length_fmap, length_take, length_drop; lia).
  destruct (appendFromLeader_wf (log n) (Z.of_nat p) es p (take (k - p) (drop p G)))
    as [[Hag ->]|(j & Hag & Hcf & ->)].
  { apply HN. } { rewrite (ni_snap HN). simpl. lia. } { lia. } { done. }
  { rewrite (ni_snap HN). simpl. lia. } { by rewrite Ees, fmap_ofEntry_toEntry. }
  - rewrite (ni_log HN), length_take, length_drop in Hag.
    replace ((k - p) `min` (length G - p))%nat with (k - p)%nat in Hag by lia.
    pose proof (agree_take s Hinv _ HS _ HlokL p k (k - p) Htp ltac:(fold G; lia) ltac:(lia) Hag) as Htk.
    replace (p + (k - p))%nat with k in Htk by lia. fold G in Htk.
    replace (with_log (log n) n) with n by (by destruct n). apply NI_acceptAgreed; try done. fold G. lia.
  - rewrite (ni_log HN) in Hag, Hcf |- *.
    destruct (conflict_diff s (a_term s i) _ p k j ltac:(fold G; lia) Hcf) as [Hjk Hor].
    pose proof (agree_take s Hinv _ HS _ HlokL p k j Htp ltac:(fold G; lia) ltac:(lia) Hag) as Htf.
    fold G in Htf, Hor. set (f := (p + j)%nat) in *.
    assert (take f (a_log s i) ++ drop j (take (k - p) (drop p G)) = take k G) as ->.
    { rewrite Htf, skipn_firstn_comm, drop_drop. unfold f. rewrite take_take_drop. f_equal. lia. }
    assert (f <= length (a_log s i))%nat as HfL.
    { apply (f_equal length) in Htf. rewrite !length_take in Htf. lia. }
    assert (unstableIndex n = Z.of_nat (length (a_log s i)) + 1) as Hun
      by (unfold at_rest in Hrest; by rewrite (ni_log HN) in Hrest).
    cbv zeta. match goal with |- context [commitIndex ?x <? lc] => set (n4 := x) end.
    assert (n4 = with_unstableIndex (Z.of_nat f + 1) (with_log (mkRaftLog (snapshot (log n)) (take k G)) n)) as ->.
    { unfold n4. replace (Z.of_nat p + 1 + Z.of_nat j) with (Z.of_nat f + 1) by lia.
      simpl. rewrite Hun.
      match goal with |- (if ?b then _ else _) = _ => destruct b eqn:Eb end; [done|].
      apply andb_false_iff in Eb as [Eb|Eb]; bool_to_prop; [lia|].
      replace (Z.of_nat f + 1) with (unstableIndex n) by lia. by destruct n. }
    apply NI_acceptConflict; try done; [fold G; lia|].
    apply (contiguous_full s p k G es); [by apply (tlog_ok ids)|done|done|rewrite <- Htp; by eapply ni_contiguous|done].
Qed.

Lemma NI_handleAppendEntries s n m req :
  ni s n -> at_rest n -> ainv ids s -> gbound s -> msg_ok ids s m ->
  m_Body m = Some (Message_AppendEntries req) -> m_Term m = a_term s i ->
  levolves s (handleAppendEntries m req n).
Proof.
  intros HN0 Hrest0 Hinv Hg (_ & b & Hb & Hok) Hbody HT. rewrite Hbody in Hb. injection Hb as <-.
  destruct Hok as (_ & _ & Hld & p & k & Ep & Hpk & Ept & Ees & Hlc & Hcom). rewrite HT in *.
  assert (is_Some (g_leader s (a_term s i))) as HS by (by eexists).
  unfold handleAppendEntries. pose proof (NI_stepdown s n HN0) as HN.
  match type of HN with NI _ _ _ _ _ ?x => set (n2 := x) in * end.
  assert (unstableIndex n2 = unstableIndex n /\ role n2 = follower /\ log n2 = log n) as (Hu2 & Hr2 & Hl2).
  { unfold n2. case_bool; bool_to_prop; done. }
  assert (at_rest n2) as Hrest by (unfold at_rest; by rewrite Hu2, Hl2).
  assert (levolves s (sendAppendEntriesResponse (From m) false 0 n2)) as Hrej.
  { apply (levolves_keep s s n2); try done. apply NI_append_response; auto. }
  clearbody n2.
  destruct (appendRequestLastIndex req) as [rl valid] eqn:Erl.
  destruct valid; [|done]. cbn [negb].
  destruct (matches _ _ _) eqn:Em; [|done]. cbn [negb].
  pose proof (Hg (a_term s i)) as HgT.
  destruct (appendRequestLastIndex_spec _ _ _ _ Ees Ep Erl) as (Hcont & -> & Hmax).
  rewrite length_fmap, length_take, length_drop in *.
  replace (p + _)%nat with k in * by lia.
  rewrite Ep, Ept in Em. apply (matches_spec s) in Em as [HpL Hpt]; [|done|lia].
  destruct (inv_log _ _ Hinv i) as [HlokL _].
  pose proof (match_take s Hinv _ HS _ HlokL p Hpt HpL ltac:(lia)) as Htp.
  rewrite Ees. by apply (NI_acceptAppend s n2 (From m) p k).
Qed.


(** ** Replies to the leader *)

Lemma NI_handleAppendEntriesResponse s n m resp :
  ni s n -> msg_ok ids s m -> m_Body m = Some (Message_AppendEntriesResp resp) ->
  m_Term m = a_term s i ->
  ni s (handleAppendEntriesResponse m resp n) /\
  unstableIndex (handleAppendEntriesResponse m resp n) = unstableIndex n.
Proof.
  intros HN (_ & b & Hb & Hok) Hbody HT. rewrite Hbody in Hb. injection Hb as <-.
  destruct Hok as [_ Hack]. rewrite HT in Hack. unfold handleAppendEntriesResponse.
  destruct (_ || _)%bool eqn:E; [done|].
  apply orb_false_iff in E as [[Er Ep]%orb_false_iff Es]. bool_to_prop.
  assert (NL s n) as HL by done.
  destruct (get_inflight n (From m)) as [pd|]; [|done].
  destruct (aer_Success resp) eqn:Esuc.
  - destruct (Hack eq_refl) as [H0 Ha].
    destruct (_ || _)%bool eqn:E; [done|]. clear E.
    cbv zeta. match goal with |- context [set_nextIndex (From m) _ ?x] => set (n2 := x) end.
    set (nx := get_matchIndex n2 (From m) +u 1).
    assert (NL s n2 /\ unstableIndex n2 = unstableIndex n) as [HL2 Hu2].
    { unfold n2. case_bool; (split; [|done]); [apply NL_match; [|done|done]|]; by apply NL_inflight. }
    clearbody n2 nx.
    pose proof (NL_advanceCommit s _ (NL_next s n2 (From m) nx HL2)) as HL4.
    pose proof (advanceCommit_fields (set_nextIndex (From m) nx n2)) as F4.
    apply stable_unstable in F4 as [Hu4 _].
    destruct (advanceCommit _) as [n4 adv]. cbn [fst] in *.
    case_bool.
    + pose proof (sendAppend_fields (From m) false n4) as F5. apply stable_unstable in F5 as [Hu5 _].
      split; [apply NL_sendAppend, HL4|]. rewrite Hu5, Hu4. done.
    + split; [apply HL4|]. rewrite Hu4. done.
  - cbv zeta. match goal with |- context [sendAppend (From m) false ?x] => set (n2 := x) end.
    assert (NL s n2 /\ unstableIndex n2 = unstableIndex n) as [HL2 Hu2].
    { unfold n2. assert (NL s (set_inflight (From m) None n)) by (by apply NL_inflight).
      destruct (_ <? _); (split; [|done]); [by apply NL_next|done]. }
    clearbody n2.
    pose proof (sendAppend_fields (From m) false n2) as F. apply stable_unstable in F as [Hu _].
    split; [apply NL_sendAppend, HL2|congruence].
Qed.

Lemma NI_rejectLowerTermRequest s n m :
  ni s n -> ni s (rejectLowerTermRequest m n) /\
  unstableIndex (rejectLowerTermRequest m n) = unstableIndex n.
Proof.
  intros HN. unfold rejectLowerTermRequest.
  destruct (m_Body m) as [[]|]; try done; (split; [|done]).
  - apply NI_response; auto.
  - apply NI_append_response; auto.
Qed.

(** ** The node's inputs *)

Lemma messageTerm_ok s m : msg_ok ids s m -> messageTerm m = m_Term m.
Proof.
  intros (_ & b & Hb & Hok). unfold messageTerm. rewrite Hb.
  destruct b; simpl in Hok; destruct_and?; try done; case_bool; bool_to_prop; lia.
Qed.

Lemma evolves_l s s1 n' :
  hsteps i s s1 -> a_log s1 i = a_log s i -> levolves s1 n' -> evolves s n'.
Proof.
  intros Hs El (s' & Hs' & HN' & Hg & Ht). exists s1, s'. split_and!; try done.
  by rewrite <- El.
Qed.

Lemma NI_dispatch s n m :
  ni s n -> at_rest n -> ainv ids s -> gbound s -> msg_ok ids s m ->
  m_Term m = a_term s i -> To m = i -> room s -> evolves s (dispatch m n).
Proof.
  intros HN Hrest Hinv Hg Hm HT Hto Hroom. pose proof Hm as (_ & b & Hb & Hok).
  unfold dispatch. rewrite Hb. destruct b as [req|resp|req|resp| |]; try done.
  - destruct (NI_handleRequestVote s n m req HN Hinv Hm Hb HT) as (s' & Hs & HN' & Hu).
    apply (evolves_keep s s' s' n); try done.
    destruct (hsteps_frame _ _ _ _ Hinv Hs) as (_ & _ & _ & E). intros T. rewrite E. apply Hg.
  - destruct (NI_handleRequestVoteResponse s n m resp HN Hinv Hg Hm Hb Hto HT Hroom)
      as (s' & Hs & HN' & Hg' & Hu).
    by apply (evolves_keep s s s' n).
  - apply (evolves_l s s); [done|done|]. by apply NI_handleAppendEntries.
  - destruct (NI_handleAppendEntriesResponse s n m resp HN Hm Hb HT) as [HN' Hu].
    by apply (evolves_id s n).
Qed.

Lemma evolves_hsteps s s1 n' :
  hsteps i s s1 -> a_log s1 i = a_log s i -> evolves s1 n' -> evolves s n'.
Proof.
  intros Hs El (s2 & s' & Hs2 & Hs' & HN' & Hg & Ht). exists s2, s'. split_and!; try done.
  - by etrans.
  - by rewrite <- El.
Qed.

Lemma NI_Step s n m :
  ni s n -> at_rest n -> ainv ids s -> gbound s -> msg_ok ids s m -> To m = i ->
  room s -> evolves s (Step (Some m) n).
Proof.
  intros HN Hrest Hinv Hg Hm Hto Hroom. pose proof (proj1 Hm) as Hmt. unfold Step.
  rewrite (messageTerm_ok s m Hm), (ni_term HN).
  case_bool; [|case_bool]; bool_to_prop.
  - destruct (NI_becomeFollower s n (m_Term m) HN Hinv ltac:(lia)) as (s1 & Hs & HN1 & Et & Hu).
    destruct (hsteps_frame _ _ _ _ Hinv Hs) as ([Hinv1 Hx _ _] & El & _ & Etl).
    apply (evolves_hsteps s s1); [done|done|]. apply NI_dispatch; try done.
    + unfold at_rest. rewrite Hu, (ni_log HN1), El. unfold at_rest in Hrest. by rewrite (ni_log HN) in Hrest.
    + intros T. rewrite Etl. apply Hg.
    + by eapply msg_ok_mono.
    + unfold room. by rewrite El.
  - destruct (NI_rejectLowerTermRequest s n m HN) as [HN' Hu]. by apply (evolves_id s n).
  - apply NI_dispatch; try done. lia.
Qed.

Lemma NI_Tick s n :
  ni s n -> at_rest n -> ainv ids s -> gbound s -> i <> 0 -> room s ->
  a_term s i + 1 < max_u64 -> evolves s (Tick n).
Proof.
  intros HN Hrest Hinv Hg Hi Hroom HT. unfold Tick.
  assert (forall x, core x = core n -> ni s x /\ at_rest x /\ unstableIndex x = unstableIndex n) as Hc.
  { intros x E. split; [by eapply NI_core|]. unfold core in E.
    injection E as _ _ _ _ _ El Eu _ _ _ _ _ _ _. unfold at_rest. rewrite El, Eu. done. }
  destruct (role n) eqn:Er.
  - case_bool; [apply NI_startElection; try done; by apply Hc|].
    by apply (evolves_id s n); try done; apply Hc.
  - case_bool; [apply NI_startElection; try done; by apply Hc|].
    by apply (evolves_id s n); try done; apply Hc.
  - case_bool; [|by apply (evolves_id s n); try done; apply Hc].
    match goal with |- evolves s (sendHeartbeats ?x) => set (n1 := x) end.
    assert (NL s n1) as HL by (split; [by apply Hc|done]).
    apply (evolves_id s n); try done; [apply NL_broadcastAppend, HL|].
    assert (stable_fields (sendHeartbeats n1) = stable_fields n1) as Hst.
    { apply foldl_fields. intros x y. case_bool; [done|apply sendAppend_fields]. }
    apply stable_unstable in Hst as [-> _]. done.
Qed.

Lemma NI_Propose s n d :
  ni s n -> at_rest n -> ainv ids s -> gbound s -> room s -> evolves s (Propose d n).1.
Proof.
  intros HN Hrest Hinv Hg Hmax. unfold Propose.
  destruct (role n) eqn:Er; [by apply (evolves_id s n)|by apply (evolves_id s n)|].
  destruct (NL_appendLocal s n EntryType_NORMAL d (conj HN Er) Hinv Hmax)
    as (s' & Hs & HL & Hg' & _ & Hu).
  destruct (appendLocalNode _ _ _) as [n1 idx]. cbn [fst] in *.
  apply (evolves_keep s s s' n); try done; auto.
  - apply NL_broadcastAvailable, NL_advanceCommit, HL.
  - assert (stable_fields (broadcastAvailableAppend (advanceCommit n1).1) = stable_fields n1) as Hst.
    { unfold broadcastAvailableAppend. rewrite foldl_fields; [apply advanceCommit_fields|].
      intros x y. case_bool; [done|apply sendAppend_fields]. }
    apply stable_unstable in Hst as [-> _]. done.
Qed.

End handlers.

(** * What no input changes *)

Definition kept (n : Node) := (config n, peers n, lastApplied n).

Lemma foldl_kept {B} (f : Node -> B -> Node) l n :
  (forall x y, kept (f x y) = kept x) -> kept (foldl f n l) = kept n.
Proof.
  intros Hf. apply (foldl_inv (fun x => kept x = kept n)); [|done]. intros x y Hx. by rewrite Hf.
Qed.

Lemma kept_stable n n' : stable_fields n' = stable_fields n -> kept n' = kept n.
Proof. unfold stable_fields, kept. intros E. injection E. intros. congruence. Qed.

Lemma sendAppend_kept p b n : kept (sendAppend p b n) = kept n.
Proof. apply kept_stable, sendAppend_fields. Qed.

Lemma advanceCommit_kept n : kept (advanceCommit n).1 = kept n.
Proof. apply kept_stable, advanceCommit_fields. Qed.

Lemma appendLocalNode_kept ty d n : kept (appendLocalNode ty d n).1 = kept n.
Proof. unfold appendLocalNode. simpl. repeat case_match; done. Qed.

Lemma becomeLeader_kept n : kept (becomeLeader n) = kept n.
Proof.
  unfold becomeLeader. rewrite foldl_kept by (intros x y; case_bool; [apply sendAppend_kept|done]).
  rewrite advanceCommit_kept, appendLocalNode_kept, foldl_kept; done.
Qed.

Lemma reset_kept n : kept (resetElectionTimeout n) = kept n.
Proof. unfold resetElectionTimeout. repeat case_match; done. Qed.

Lemma startElection_kept n : kept (startElection n) = kept n.
Proof.
  unfold startElection. case_bool.
  - by rewrite becomeLeader_kept, reset_kept.
  - rewrite foldl_kept, reset_kept by (intros x y; by case_bool). done.
Qed.

Lemma becomeFollower_kept t n : kept (becomeFollower t n) = kept n.
Proof.
  unfold becomeFollower. case_bool; [|done].
  exact (reset_kept (with_hardStateDirty true (with_hardState (mkHardState t 0) n))).
Qed.

Lemma dispatch_kept m n : kept (dispatch m n) = kept n.
Proof.
  unfold dispatch. destruct (m_Body m) as [[req|resp|req|resp| |]|]; try done.
  - unfold handleRequestVote. repeat case_bool; done.
  - unfold handleRequestVoteResponse. repeat case_bool; try done. by rewrite becomeLeader_kept.
  - unfold handleAppendEntries.
    match goal with |- context [with_electionElapsed 0 ?x] => assert (kept x = kept n) as E by (by case_bool) end.
    rewrite <- E.
    match goal with |- context [with_electionElapsed 0 ?x] => generalize x; clear n E end.
    intros n. destruct (appendRequestLastIndex req) as [rl []]; [|done]. simpl.
    case_bool; [done|]. destruct (appendFromLeader _ _) as [l' ch]. repeat case_bool; done.
  - unfold handleAppendEntriesResponse. case_bool; [done|]. destruct (get_inflight _ _); [|done].
    case_bool.
    + case_bool; [done|]. cbv zeta. destruct (advanceCommit _) as [n4 adv] eqn:Ea.
      match type of Ea with advanceCommit ?x = _ =>
        pose proof (advanceCommit_kept x) as Ek; rewrite Ea in Ek; assert (kept x = kept n) as E
          by (unfold set_nextIndex; case_bool; done) end.
      cbn [fst] in Ek. destruct (_ || adv)%bool; rewrite ?sendAppend_kept; (etrans; [exact Ek|exact E]).
    + rewrite sendAppend_kept. cbv zeta. repeat case_bool; done.
Qed.

Lemma Step_kept m n : kept (Step (Some m) n) = kept n.
Proof.
  unfold Step. case_bool; [by rewrite dispatch_kept, becomeFollower_kept|].
  case_bool; [|apply dispatch_kept]. unfold rejectLowerTermRequest. by repeat case_match.
Qed.

Lemma Tick_kept n : kept (Tick n) = kept n.
Proof.
  unfold Tick. destruct (role n).
  1,2: case_bool; [by rewrite startElection_kept|done].
  case_bool; [|done]. unfold sendHeartbeats, broadcastAppend.
  rewrite foldl_kept; [done|]. intros x y. case_bool; [done|apply sendAppend_kept].
Qed.

Lemma Propose_kept d n : kept (Propose d n).1 = kept n.
Proof.
  unfold Propose. destruct (role n); [done|done|].
  destruct (appendLocalNode _ _ _) as [n1 idx] eqn:E. simpl.
  unfold broadcastAvailableAppend. rewrite foldl_kept, advanceCommit_kept.
  - by rewrite <- (appendLocalNode_kept EntryType_NORMAL d n), E.
  - intros x y. case_bool; [done|apply sendAppend_kept].
Qed.
