(* ===== verification/HostFacts.v ===== *)
(** What one Ready cycle of the host and one recovery do, for any storage that keeps the
    contract of [StorageSpec]: the batch the node hands over makes the storage equal to
    the node's memory, [Advance] brings the node back to rest, and a node recovered from
    the storage is a follower with the storage's term, vote and log. *)

From S2P Require Import Prelude Proto RaftLog RaftNode RaftSpec Storage Server NodeFacts.

Section ready.
Context (ids : list Z) (hard : HardState) (D : list logEntry) (i : Z).
Notation ni s n := (NI ids hard D s i n).

Lemma ready_entries s n :
  ni s n ->
  r_Entries (readyWithoutCapture n) = toEntry <$> drop (Z.to_nat (unstableIndex n - 1)) (a_log s i).
Proof.
  intros HN. destruct (ni_sync HN) as [Hu _ _ _ _]. rewrite (ni_log HN) in Hu. simpl.
  rewrite (ni_last _ _ _ _ _ _ HN). pose proof (ni_len _ _ _ _ _ _ HN) as Hl.
  case_bool; bool_to_prop; [|by rewrite drop_ge by lia].
  replace (unstableIndex n) with (Z.of_nat (Z.to_nat (unstableIndex n - 1)) +u 1)
    by (rewrite u64_add_small; lia).
  rewrite (ni_range _ _ _ _ _ _ HN) by lia. rewrite u64_add_small by lia.
  rewrite take_ge by (rewrite length_drop; lia). do 2 f_equal. lia.
Qed.

Lemma ready_batch_wf s n :
  ni s n -> batch_wf (toEntry <$> D) (r_Entries (readyWithoutCapture n)).
Proof.
  intros HN. rewrite (ready_entries s n HN). destruct (ni_sync HN) as [Hu Hl _ _ _].
  rewrite (ni_log HN) in Hu. pose proof (ni_len _ _ _ _ _ _ HN) as Hlen.
  exists (Z.to_nat (unstableIndex n - 1)). rewrite !length_fmap, length_drop. split_and!; [lia| |lia].
  intros j e He. rewrite list_lookup_fmap in He. apply fmap_Some in He as (x & Hx & ->).
  rewrite lookup_drop in Hx.
  destruct (ni_wf HN) as (_ & _ & Hw). rewrite (ni_log HN), (ni_snap HN) in Hw. simpl in *.
  rewrite (Hw _ _ Hx). lia.
Qed.

Lemma ready_head s n e0 rest :
  ni s n -> r_Entries (readyWithoutCapture n) = e0 :: rest -> Index e0 = unstableIndex n.
Proof.
  intros HN E. rewrite (ready_entries s n HN) in E. destruct (ni_sync HN) as [Hu _ _ _ _].
  set (p := Z.to_nat (unstableIndex n - 1)) in *.
  destruct (drop p (a_log s i)) as [|x xs] eqn:Ex; [done|]. csimpl in E. injection E as <- _.
  assert (a_log s i !! p = Some x) as Hx by (rewrite <- (Nat.add_0_r p), <- lookup_drop, Ex; done).
  destruct (ni_wf HN) as (_ & _ & Hw). rewrite (ni_log HN), (ni_snap HN) in Hw. simpl in *.
  rewrite (Hw _ _ Hx). lia.
Qed.

(** The batch makes the storage equal to the node. *)
Lemma ready_saved s n :
  ni s n ->
  saved (r_HardState (readyWithoutCapture n)) (r_Entries (readyWithoutCapture n))
    (hard, toEntry <$> D) = (hardState n, toEntry <$> a_log s i).
Proof.
  intros HN. unfold saved. cbn [fst snd]. f_equal.
  - destruct (ni_sync HN) as [_ _ _ _ Hh]. simpl. destruct (hardStateDirty n); [done|]. simpl. auto.
  - pose proof (ready_entries s n HN) as Ees. destruct (ni_sync HN) as [Hu Hl Ht Hd _].
    rewrite (ni_log HN) in *.
    destruct (r_Entries (readyWithoutCapture n)) as [|e0 rest] eqn:E.
    + symmetry in Ees. apply fmap_nil_inv, (f_equal length) in Ees. rewrite length_drop in Ees.
      simpl in Ees. rewrite Hd by lia. done.
    + rewrite (ready_head s n e0 rest HN E), Ees, <- fmap_take, Ht, <- fmap_app, take_drop. done.
Qed.

Lemma ready_committed s n :
  ni s n ->
  r_CommittedEntries (readyWithoutCapture n) =
    toEntry <$> take (Z.to_nat (commitIndex n) - Z.to_nat (lastApplied n))
                     (drop (Z.to_nat (lastApplied n)) (a_log s i)).
Proof.
  intros HN. destruct (ni_commit HN) as [Hc0 [Hcl _]], (ni_applied HN) as [Ha0 [Hal _]]. simpl.
  case_bool; bool_to_prop.
  - replace (lastApplied n) with (Z.of_nat (Z.to_nat (lastApplied n))) at 1 by lia.
    replace (commitIndex n) with (Z.of_nat (Z.to_nat (commitIndex n))) at 1 by lia.
    rewrite (ni_range _ _ _ _ _ _ HN) by lia. done.
  - replace (Z.to_nat (commitIndex n) - Z.to_nat (lastApplied n))%nat with 0%nat by lia. done.
Qed.


(** ** Advance *)

Lemma contiguous_last p es e :
  contiguous_from p es -> last es = Some e -> Index e = p + Z.of_nat (length es).
Proof.
  intros Hc He. rewrite last_lookup in He. rewrite (Hc _ _ He).
  apply lookup_lt_Some in He. lia.
Qed.

Lemma ni_slice_contiguous s n p k :
  ni s n -> contiguous_from (Z.of_nat p) (toEntry <$> take k (drop p (a_log s i))).
Proof.
  intros HN j e He. rewrite list_lookup_fmap in He. apply fmap_Some in He as (x & Hx & ->).
  apply lookup_take_Some in Hx as [Hx _]. rewrite lookup_drop in Hx.
  destruct (ni_wf HN) as (_ & _ & Hw). rewrite (ni_log HN), (ni_snap HN) in Hw. simpl in *.
  rewrite (Hw _ _ Hx). lia.
Qed.

(** What the acknowledgement of a fresh Ready makes of the node. *)
Definition rested (n : Node) : Node :=
  with_ready_ack readyAck_zero
    (with_lastApplied (Z.max (lastApplied n) (commitIndex n))
       (with_unstableIndex (Z.of_nat (length (entries (log n))) + 1)
          (with_messages [] (with_hardStateDirty false n)))).

Lemma ack_stable s n :
  ni s n ->
  let es := r_Entries (readyWithoutCapture n) in
  (if (0 <? Z.of_nat (length es)) &&
      (unstableIndex n <=? match last es with Some e => Index e | None => 0 end)
   then match last es with Some e => Index e | None => 0 end +u 1 else unstableIndex n) =
  Z.of_nat (length (entries (log n))) + 1.
Proof.
  intros HN es. pose proof (ready_entries _ _ HN) as Ees. fold es in Ees. clearbody es.
  destruct (ni_sync HN) as [Hu _ _ _ _]. pose proof (ni_len _ _ _ _ _ _ HN) as Hl.
  rewrite (ni_log HN) in *.
  assert (length es = (length (a_log s i) - Z.to_nat (unstableIndex n - 1))%nat) as Hlen
    by (rewrite Ees, length_fmap, length_drop; done).
  destruct (last es) as [e|] eqn:E.
  - assert (Index e = Z.of_nat (length (a_log s i))) as ->.
    { rewrite (contiguous_last (Z.of_nat (Z.to_nat (unstableIndex n - 1))) es e); [|
        |done]; cycle 1.
      - rewrite Ees. rewrite <- (take_ge (drop _ _) (length (a_log s i))) by (rewrite length_drop; lia).
        by eapply ni_slice_contiguous.
      - destruct es; [done|]. rewrite Hlen. simpl in Hlen. lia. }
    assert (0 < length es)%nat by (destruct es; [done|simpl; lia]).
    rewrite u64_add_small by lia. case_bool; bool_to_prop; [done|].
    destruct_or!; bool_to_prop; lia.
  - apply last_None in E. rewrite E in *. simpl in *. lia.
Qed.

Lemma ack_applied s n :
  ni s n ->
  let es := r_CommittedEntries (readyWithoutCapture n) in
  (if (0 <? Z.of_nat (length es)) &&
      (lastApplied n <? match last es with Some e => Index e | None => 0 end)
   then match last es with Some e => Index e | None => 0 end else lastApplied n) =
  Z.max (lastApplied n) (commitIndex n).
Proof.
  intros HN es. pose proof (ready_committed _ _ HN) as Ees. fold es in Ees. clearbody es.
  destruct (ni_commit HN) as [Hc0 [Hcl _]], (ni_applied HN) as [Ha0 [Hal _]].
  assert (length es = (Z.to_nat (commitIndex n) - Z.to_nat (lastApplied n))%nat) as Hlen
    by (rewrite Ees, length_fmap, length_take, length_drop; lia).
  destruct (last es) as [e|] eqn:E.
  - assert (es <> []) as Hne by (by intros ->).
    assert (Index e = commitIndex n) as ->.
    { rewrite (contiguous_last (Z.of_nat (Z.to_nat (lastApplied n))) es e); [|
        |done]; cycle 1.
      - rewrite Ees. by eapply ni_slice_contiguous.
      - destruct es; [done|]. rewrite Hlen. simpl in Hlen. lia. }
    assert (0 < length es)%nat by (destruct es; [done|simpl; lia]).
    case_bool; bool_to_prop; [lia|]. destruct_or!; bool_to_prop; lia.
  - apply last_None in E. rewrite E in *. simpl in *. lia.
Qed.

Lemma Advance_rested s n :
  ni s n -> Advance (captureReady (readyWithoutCapture n) n) = rested n.
Proof.
  intros HN. pose proof (ack_stable s n HN) as Hst. pose proof (ack_applied s n HN) as Hap.
  cbv zeta in Hst, Hap. unfold Advance.
  set (r := readyWithoutCapture n) in *. unfold captureReady.
  cbn [ready_ack with_ready_ack ack_valid negb ack_hardState ack_hard ack_messageCount ack_entries
       ack_stableTo ack_committed ack_appliedTo hardStateDirty hardState].
  match goal with |- context [with_hardStateDirty false ?x] => set (n0 := x) end.
  match goal with |- context [if ?b then with_hardStateDirty false n0 else n0] =>
    assert ((if b then with_hardStateDirty false n0 else n0) = with_hardStateDirty false n0) as -> end.
  { change (r_HardState r) with (if hardStateDirty n then Some (hardState n) else None).
    destruct (hardStateDirty n) eqn:Ed.
    - rewrite bool_decide_eq_true_2 by done. done.
    - simpl. unfold n0. destruct n. simpl in *. by rewrite Ed. }
  change (messages (with_hardStateDirty false n0)) with (messages n).
  change (r_Messages r) with (messages n). rewrite Z.leb_refl.
  set (n2 := with_messages [] (with_hardStateDirty false n0)).
  change (unstableIndex n2) with (unstableIndex n).
  match goal with |- context [if ?b then with_unstableIndex ?v n2 else n2] =>
    assert ((if b then with_unstableIndex v n2 else n2) =
            with_unstableIndex (Z.of_nat (length (entries (log n))) + 1) n2) as -> end.
  { rewrite <- Hst. match goal with |- (if ?b then _ else _) = _ => destruct b end; [done|]. by destruct n. }
  set (n3 := with_unstableIndex _ n2). change (lastApplied n3) with (lastApplied n).
  match goal with |- context [if ?b then with_lastApplied ?v n3 else n3] =>
    assert ((if b then with_lastApplied v n3 else n3) =
            with_lastApplied (Z.max (lastApplied n) (commitIndex n)) n3) as -> end.
  { rewrite <- Hap. match goal with |- (if ?b then _ else _) = _ => destruct b end; [done|]. by destruct n. }
  done.
Qed.

(** The node at rest is related to the storage it has just been saved to. *)
Lemma NI_rested s n :
  ni s n -> NI ids (hardState n) (a_log s i) s i (rested n).
Proof.
  intros [H1 H2 H3 H4 H5 H6 H7 H8 H9 H10 H11 H12 H13 [S1 S2 S3 S4 S5]].
  split; try done; simpl.
  - split; [lia|]. destruct (Z.max_spec (lastApplied n) (commitIndex n)) as [[_ ->]|[_ ->]];
      [apply H10|apply H11].
  - split; simpl; rewrite ?H7; try done; lia.
Qed.

End ready.

(** * Recovery *)

Section recovery.
Context (ids : list Z) {S : Type} `{StorageSpec S}.

Lemma recovered_entries (st : S) hd es :
  store_ok st -> durable st = (hd, es) ->
  forall cfg r, NewRecoveredNode cfg (Some st) r =
    Ok (NewNode cfg (mkInitialState hd es (mkSnapshotMeta 0 0)) r).
Proof.
  intros Hok Hd cfg r. unfold NewRecoveredNode.
  pose proof (store_ok_wf st Hok) as [Hc Hl]. rewrite Hd in Hl. simpl in Hl.
  rewrite HardState_spec, FirstIndex_spec, LastIndex_spec, Hd by done. cbn [fst snd].
  case_bool; bool_to_prop.
  - case_bool; bool_to_prop; [lia|]. rewrite u64_add_small by lia.
    rewrite Entries_spec by (try done; rewrite ?Hd; simpl; lia). rewrite Hd. cbn [snd].
    rewrite drop_0, take_ge by lia. done.
  - destruct es; [done|simpl in *; lia].
Qed.

Lemma resetElectionTimeout_eq n :
  exists r et, resetElectionTimeout n =
    with_electionElapsed 0 (with_electionTimeout et (with_rnd r n)).
Proof.
  unfold resetElectionTimeout. destruct (rnd n) as [r|] eqn:E.
  - case_bool.
    + by eexists _, _.
    + exists (Some r), (ElectionTickMin (config n)). rewrite <- E. by destruct n.
  - exists None, (ElectionTickMin (config n)). rewrite <- E. by destruct n.
Qed.

Lemma NewNode_recovered s i cfg hd es r :
  ID cfg = i -> i ∈ ids -> Peers cfg ≡ₚ ids ->
  hs_Term hd = a_term s i -> VotedFor hd = a_vote s i -> ofEntry <$> es = a_log s i ->
  entries_wf es -> a_term s i < max_u64 ->
  let n := NewNode cfg (mkInitialState hd es (mkSnapshotMeta 0 0)) r in
  NI ids hd (a_log s i) s i n /\ role n = follower /\ hardState n = hd /\
  at_rest n /\ messages n = [] /\ hardStateDirty n = false /\ lastApplied n = 0.
Proof.
  intros Hid Hin Hp Ht Hv Hl [Hc Hlen] Hmax n.
  destruct (resetElectionTimeout_eq (with_unstableIndex (lastIndex
    (newRaftLog (mkSnapshotMeta 0 0) es) +u 1)
    (mkNode (defaultTicks cfg) (orderedPeers (Peers cfg)) r hd follower 0 0 0 None
      (newRaftLog (mkSnapshotMeta 0 0) es) 0 0 0 None None None false [] readyAck_zero))) as (r' & et & E).
  assert (n = with_electionElapsed 0 (with_electionTimeout et (with_rnd r' (with_unstableIndex (lastIndex
    (newRaftLog (mkSnapshotMeta 0 0) es) +u 1)
    (mkNode (defaultTicks cfg) (orderedPeers (Peers cfg)) r hd follower 0 0 0 None
      (newRaftLog (mkSnapshotMeta 0 0) es) 0 0 0 None None None false [] readyAck_zero))))) as -> by exact E.
  clear E.
  assert (log_wf (newRaftLog (mkSnapshotMeta 0 0) es)) as Hwf.
  { split; [done|]. simpl. rewrite length_fmap. split; [done|]. intros j e He.
    rewrite list_lookup_fmap in He. apply fmap_Some in He as (x & Hx & ->).
    simpl. rewrite (Hc _ _ Hx). lia. }
  assert (length (a_log s i) = length es) as Hll by (by rewrite <- Hl, length_fmap).
  rewrite lastIndex_wf by done. simpl. rewrite length_fmap, u64_add_small by lia.
  split_and!; try done; [|unfold at_rest; simpl; by rewrite length_fmap].
  split; simpl; try done.
  - etrans; [apply orderedPeers_perm|done].
  - split; [done|apply cprefix_zero].
  - split; [done|apply cprefix_zero].
  - split; simpl; rewrite ?Hl, ?Hll; try done; lia.
Qed.
End recovery.
