(* ===== verification/Cluster.v ===== *)
(** A cluster of hosts (internal/server) over an unreliable network, with crashes.

    Every host runs the definitions of Server.v: a tick, an inbound message or a proposal
    followed by the Ready cycle.  The network is the collection of all messages ever
    sent: a step may deliver any of them, in any order and any number of times, or never,
    to its addressee.  A host may crash between two inputs, inside [Save] with any part
    of the batch on the platter, or after [Save] with any part of the messages sent; it
    then restarts from its storage alone, with an empty state machine.

    The cluster implements the abstract protocol of RaftSpec: [cluster_invariant]. *)

From stdpp Require Import functions.
From S2P Require Import Prelude Proto RaftLog RaftNode RaftSpec Storage Server NodeFacts HostFacts.

(** The applier that records what it is given: the state of any other applier is a
    function of this record (see [applyAll]). *)
#[export] Instance Recorder : Applier (list Entry) := {|
  applyEntry e a := (a ++ [e], None);
  failStop := None;
|}.

Inductive event : Type :=
  | EvTick
  | EvDeliver (m : Message)
  | EvPropose (d : bytes).

(** The node's part of an event. *)
Definition node_event (ev : event) (n : Node) : Node :=
  match ev with
  | EvTick => Tick n
  | EvDeliver m => Step (Some m) n
  | EvPropose d => (Propose d n).1
  end.

Section cluster.
Context {S : Type} `{CrashSafe S}.

Definition host_event (ev : event) (h : Host S (list Entry)) : Host S (list Entry) * list Message * option error :=
  match ev with
  | EvTick => HostTick h
  | EvDeliver m => HostStep (Some m) h
  | EvPropose d => let '(h', sent, (_, _, _, err)) := HostPropose d None h in (h', sent, err)
  end.

Record cluster : Type := mkCluster {
  hosts : Z -> Host S (list Entry);
  net : list Message;
}.

Context (cfgs : Z -> Config) (ids : list Z).

(** A process that starts from what its storage holds. *)
Definition boot (i : Z) (st : S) (r : option Rand) (h : Host S (list Entry)) : Prop :=
  exists n, NewRecoveredNode (cfgs i) (Some st) r = Ok n /\ h = mkHost n st (Some []) i None 0.

(** Indexes and terms have not run out. *)
Definition has_room (n : Node) : Prop :=
  lastIndex (log n) + 1 < max_u64 /\ hs_Term (hardState n) + 1 < max_u64.

Definition deliverable (c : cluster) (i : Z) (ev : event) : Prop :=
  match ev with EvDeliver m => m ∈ net c /\ To m = i | _ => True end.

(** The storage's format can express the batch of the event. *)
Definition fitting (c : cluster) (i : Z) (ev : event) : Prop :=
  let ready := readyWithoutCapture (node_event ev (h_Node (hosts c i))) in
  fits (r_HardState ready) (r_Entries ready).

Inductive cstep (c : cluster) : cluster -> Prop :=
  | c_event i ev h' sent :
      i ∈ ids -> deliverable c i ev -> has_room (h_Node (hosts c i)) -> fitting c i ev ->
      host_event ev (hosts c i) = (h', sent, None) ->
      cstep c (mkCluster (<[i := h']> (hosts c)) (net c ++ sent))
  | c_crash_in_save i ev k r h' :
      i ∈ ids -> deliverable c i ev -> has_room (h_Node (hosts c i)) -> fitting c i ev ->
      let ready := readyWithoutCapture (node_event ev (h_Node (hosts c i))) in
      boot i (crash_save k (r_HardState ready) (r_Entries ready) (h_Storage (hosts c i))) r h' ->
      cstep c (mkCluster (<[i := h']> (hosts c)) (net c))
  | c_crash_after_save i ev k r st h' :
      i ∈ ids -> deliverable c i ev -> has_room (h_Node (hosts c i)) -> fitting c i ev ->
      let ready := readyWithoutCapture (node_event ev (h_Node (hosts c i))) in
      Save (r_HardState ready) (r_Entries ready) (h_Storage (hosts c i)) = (st, None) ->
      boot i (reopen st) r h' ->
      cstep c (mkCluster (<[i := h']> (hosts c)) (net c ++ take k (r_Messages ready)))
  | c_restart i r h' :
      i ∈ ids -> boot i (reopen (h_Storage (hosts c i))) r h' ->
      cstep c (mkCluster (<[i := h']> (hosts c)) (net c)).

(** Every process starts from an empty storage. *)
Definition cinit (c : cluster) : Prop :=
  net c = [] /\
  forall i, i ∈ ids -> exists st r, store_ok st /\ durable st = (mkHardState 0 0, []) /\
    boot i st r (hosts c i).

Definition creach (c : cluster) : Prop := exists c0, cinit c0 /\ rtc cstep c0 c.


(** * One Ready cycle *)

Lemma applyAll_recorder es a : applyAll es a = (a ++ es, None).
Proof.
  revert a. induction es as [|e es IH]; intros a; simpl; [by rewrite app_nil_r|].
  rewrite IH, <- app_assoc. done.
Qed.

Lemma take_extend {A} (L : list A) (a c : nat) :
  take a L ++ take (c - a) (drop a L) = take (a `max` c) L.
Proof. rewrite take_take_drop. f_equal. lia. Qed.

Lemma processReady_spec hd D s i n (st : S) n' st' a' sent :
  NI ids hd D s i n -> store_ok st -> durable st = (hd, toEntry <$> D) ->
  fits (r_HardState (readyWithoutCapture n)) (r_Entries (readyWithoutCapture n)) ->
  processReady n st (Some (toEntry <$> take (Z.to_nat (lastApplied n)) (a_log s i))) =
    (n', st', a', sent, None) ->
  n' = rested n /\ store_ok st' /\ durable st' = (hardState n, toEntry <$> a_log s i) /\
  a' = Some (toEntry <$> take (Z.to_nat (lastApplied n')) (a_log s i)) /\ sent = messages n.
Proof.
  intros HN Hok Hd Hft. unfold processReady, NodeReady. cbv zeta.
  pose proof (ready_batch_wf _ _ _ _ _ _ HN) as Hb. pose proof (ready_saved _ _ _ _ _ _ HN) as Hs.
  pose proof (ready_committed _ _ _ _ _ _ HN) as Hc. pose proof (Advance_rested _ _ _ _ _ _ HN) as Ha.
  assert (r_Messages (readyWithoutCapture n) = messages n) as Hm by done.
  set (r := readyWithoutCapture n) in *. clearbody r.
  destruct (Save _ _ st) as [st1 [m|]] eqn:Es; [done|]. unfold applyCommitted.
  rewrite applyAll_recorder. intros E. injection E as <- <- <- <-.
  apply Save_spec in Es as [Hok' Hd']; [|done|by rewrite Hd|done].
  rewrite Hd, Hs in Hd'. rewrite Ha, Hc. split_and!; try done.
  rewrite <- fmap_app, take_extend. simpl. by rewrite Z2Nat.inj_max.
Qed.

Lemma host_event_processReady ev (h : Host S (list Entry)) h' sent :
  stopped h = None -> host_event ev h = (h', sent, None) ->
  processReady (node_event ev (h_Node h)) (h_Storage h) (h_Applier h) =
    (h_Node h', h_Storage h', h_Applier h', sent, None) /\ stopped h' = None.
Proof.
  intros Hst He.
  assert (exists h1, processReadyLocked h1 = (h', sent, None) /\
    h_Node h1 = node_event ev (h_Node h) /\ h_Storage h1 = h_Storage h /\
    h_Applier h1 = h_Applier h /\ stopped h1 = None) as (h1 & Hp & E1 & E2 & E3 & E4).
  { destruct ev as [|m|d]; simpl in He; unfold HostTick, HostStep, HostPropose in He; rewrite Hst in He.
    - by eexists.
    - eexists. split; [exact He|]. unfold recordLeaderHintLocked.
      destruct m as [? ? ? [[]|]]; try done; by case_bool.
    - simpl. destruct (Propose d (h_Node h)) as [n' [[idx t] isL]].
      destruct (processReadyLocked _) as [[h3 sent3] err3] eqn:Ep. injection He as -> -> ->.
      eexists. split; [exact Ep|]. unfold recordLeaderHintLocked. repeat case_bool; done. }
  unfold processReadyLocked in Hp. rewrite E1, E2, E3 in Hp.
  destruct (processReady _ _ _) as [[[[n' st'] a'] sent'] [m|]]; [done|].
  injection Hp as <- <-. done.
Qed.


(** * The invariant *)

Record HI (s : astate) (i : Z) (h : Host S (list Entry)) : Prop := mkHI {
  hi_ok : store_ok (h_Storage h);
  hi_dur : durable (h_Storage h) = (hardState (h_Node h), toEntry <$> a_log s i);
  hi_ni : NI ids (hardState (h_Node h)) (a_log s i) s i (h_Node h);
  hi_rest : at_rest (h_Node h);
  hi_msgs : messages (h_Node h) = [];
  hi_clean : hardStateDirty (h_Node h) = false;
  hi_applied : h_Applier h = Some (toEntry <$> take (Z.to_nat (lastApplied (h_Node h))) (a_log s i));
  hi_stopped : stopped h = None;
}.

Record CI (s : astate) (c : cluster) : Prop := mkCI {
  ci_inv : ainv ids s;
  ci_bound : gbound s;
  ci_hosts : forall i, i ∈ ids -> HI s i (hosts c i);
  ci_net : Forall (msg_ok ids s) (net c);
}.

Context (Hnd : NoDup ids) (Hlen : Z.of_nat (length ids) <= max_i64).
Context (Hcfg : forall i, i ∈ ids -> ID (cfgs i) = i /\ Peers (cfgs i) ≡ₚ ids /\ i <> 0).

Lemma HI_frame s s' i j h : frame ids j s s' -> i <> j -> HI s i h -> HI s' i h.
Proof.
  intros Hf Hij [P1 P2 P3 P4 P5 P6 P7 P8]. destruct (fr_node _ _ _ _ Hf i Hij) as (_ & _ & El).
  split; rewrite ?El; try done. by eapply NI_frame.
Qed.

Lemma boot_HI s i st r h :
  i ∈ ids -> store_ok st -> boot i st r h ->
  hs_Term (durable st).1 = a_term s i -> VotedFor (durable st).1 = a_vote s i ->
  (durable st).2 = toEntry <$> a_log s i -> a_term s i < max_u64 ->
  HI s i h.
Proof.
  intros Hi Hok (n & Hn & ->) Ht Hv Hl Hmax. destruct (Hcfg i Hi) as (Hid & Hp & _).
  destruct (durable st) as [hd es] eqn:Ed. cbn [fst snd] in *.
  rewrite (recovered_entries st hd es Hok Ed) in Hn. injection Hn as <-.
  pose proof (store_ok_wf st Hok) as Hwf. rewrite Ed in Hwf. simpl in Hwf.
  destruct (NewNode_recovered ids s i (cfgs i) hd es r) as (HN & Hr & Hh & Hrest & Hm & Hc & Hla); try done.
  { by rewrite Hl, fmap_ofEntry_toEntry. }
  set (n := NewNode _ _ _) in *. clearbody n.
  split; cbn [h_Node h_Storage h_Applier stopped]; rewrite ?Hh, ?Hla; try done.
  by rewrite Ed, Hl.
Qed.

(** The state of the protocol after an event of host [i], in the cluster. *)
Lemma CI_host s s' c i h' sent :
  CI s c -> i ∈ ids -> frame ids i s s' -> gbound s' -> HI s' i h' -> Forall (msg_ok ids s') sent ->
  CI s' (mkCluster (<[i := h']> (hosts c)) (net c ++ sent)).
Proof.
  intros [Hinv Hg Hh Hn] Hi Hf Hg' HI' Hs. split; [apply Hf|done|..].
  - intros j Hj. simpl. destruct (decide (i = j)) as [->|Hne]; [by rewrite fn_lookup_insert|].
    rewrite fn_lookup_insert_ne by done. eapply HI_frame; [done|congruence|by apply Hh].
  - simpl. apply Forall_app. split; [|done]. eapply msgs_ok_mono; [apply Hf|done].
Qed.

Lemma evolves_frame s i s1 s' :
  ainv ids s -> hsteps i s s1 -> lsteps ids i s1 s' ->
  frame ids i s s1 /\ frame ids i s s' /\ a_log s1 i = a_log s i /\ g_tlog s1 = g_tlog s /\
  a_term s' i = a_term s1 i /\ a_vote s' i = a_vote s1 i.
Proof.
  intros Hinv S1 S2. destruct (hsteps_frame _ _ _ _ Hinv S1) as (F1 & El & _ & Etl).
  destruct (lsteps_frame _ _ _ _ (fr_inv _ _ _ _ F1) S2) as (F2 & Et & Ev).
  split_and!; try done. by eapply frame_trans.
Qed.

Lemma node_event_evolves s c i ev :
  CI s c -> i ∈ ids -> deliverable c i ev -> has_room (h_Node (hosts c i)) ->
  evolves ids (hardState (h_Node (hosts c i))) (a_log s i) i s (node_event ev (h_Node (hosts c i))).
Proof.
  intros [Hinv Hg Hh Hn] Hi Hdel [Hr1 Hr2]. destruct (Hh i Hi) as [P1 P2 HN Hrest P5 P6 P7 P8].
  destruct (Hcfg i Hi) as (_ & _ & Hi0).
  rewrite (ni_last _ _ _ _ _ _ HN) in Hr1. rewrite (ni_term HN) in Hr2.
  destruct ev as [|m|d]; simpl.
  - by apply NI_Tick.
  - destruct Hdel as [Hm Hto]. apply NI_Step; try done. rewrite Forall_forall in Hn. by apply Hn.
  - by apply NI_Propose.
Qed.

Lemma node_event_lastApplied ev n : lastApplied (node_event ev n) = lastApplied n.
Proof.
  enough (kept (node_event ev n) = kept n) as E by (unfold kept in E; congruence).
  destruct ev as [|m|d]; [apply Tick_kept|apply Step_kept|apply Propose_kept].
Qed.

(** What is applied stays in the log. *)
Lemma applied_stable hd D hd' D' s s' i n n' :
  ainv ids s' -> gext s s' -> NI ids hd D s i n -> NI ids hd' D' s' i n' ->
  lastApplied n' = lastApplied n ->
  take (Z.to_nat (lastApplied n)) (a_log s i) = take (Z.to_nat (lastApplied n)) (a_log s' i).
Proof.
  intros Hinv Hx HN HN' E. destruct (ni_applied HN) as [_ P1], (ni_applied HN') as [_ P2].
  rewrite E in P2. apply (cprefix_mono _ _ s' _ (a_term s i) _ (a_log s i)) in P1; [|done..].
  by eapply (cprefix_agree ids s').
Qed.

Lemma CI_event s c i ev h' sent :
  CI s c -> i ∈ ids -> deliverable c i ev -> has_room (h_Node (hosts c i)) -> fitting c i ev ->
  host_event ev (hosts c i) = (h', sent, None) ->
  exists s', frame ids i s s' /\ rtc (astep ids) s s' /\
    CI s' (mkCluster (<[i := h']> (hosts c)) (net c ++ sent)).
Proof.
  intros HC Hi Hdel Hroom Hft He. pose proof HC as [Hinv Hg Hh Hn].
  pose proof (node_event_evolves s c i ev HC Hi Hdel Hroom) as (s1 & s' & Hs1 & Hs' & HN & Hg' & _).
  destruct (Hh i Hi) as [Hok Hd HN0 Hrest Hm Hc Hap Hst].
  destruct (evolves_frame s i s1 s' Hinv Hs1 Hs') as (_ & F & _).
  exists s'. split; [done|]. split; [etrans; [by eapply hsteps_astep|by eapply lsteps_astep]|].
  destruct (host_event_processReady _ _ _ _ Hst He) as [Hp Hst'].
  rewrite Hap, (applied_stable _ _ _ _ s s' i _ _ (fr_inv _ _ _ _ F) (fr_gext _ _ _ _ F) HN0 HN),
    <- (node_event_lastApplied ev) in Hp by apply node_event_lastApplied.
  destruct (processReady_spec _ _ _ _ _ _ _ _ _ _ HN Hok Hd Hft Hp) as (En & Hok' & Hd' & Ha' & ->).
  apply (CI_host s s'); try done; [|by apply (ni_msgs HN)].
  split; try done; rewrite ?Hd', ?En; try done. exact (NI_rested _ _ _ _ _ _ HN).
Qed.

(** Every state a crash inside [Save] can leave on the platter is one the protocol passes
    through. *)
Lemma torn_state s c i ev d :
  CI s c -> i ∈ ids -> deliverable c i ev -> has_room (h_Node (hosts c i)) ->
  let ready := readyWithoutCapture (node_event ev (h_Node (hosts c i))) in
  d ∈ torn (r_HardState ready) (r_Entries ready) (durable (h_Storage (hosts c i))) ->
  exists s', frame ids i s s' /\ rtc (astep ids) s s' /\ gbound s' /\
    hs_Term d.1 = a_term s' i /\ VotedFor d.1 = a_vote s' i /\ d.2 = toEntry <$> a_log s' i /\
    a_term s' i < max_u64.
Proof.
  intros HC Hi Hdel Hroom ready Hd. pose proof HC as [Hinv Hg Hh Hn].
  pose proof (node_event_evolves s c i ev HC Hi Hdel Hroom) as (s1 & s' & Hs1 & Hs' & HN & Hg' & Ht).
  destruct (Hh i Hi) as [Hok Hdur HN0 Hrest Hm Hc Hap Hst]. rewrite Hdur in Hd.
  destruct (evolves_frame s i s1 s' Hinv Hs1 Hs') as (F1 & F & El & Etl & Et & Ev).
  pose proof (ready_saved _ _ _ _ _ _ HN) as Hsav. fold ready in Hsav.
  assert (default (hardState (h_Node (hosts c i))) (r_HardState ready) =
          hardState (node_event ev (h_Node (hosts c i)))) as Hhs
    by (apply (f_equal fst) in Hsav; exact Hsav).
  pose proof (ni_term HN) as Htm. pose proof (ni_vote HN) as Hvt. pose proof (ni_tmax HN) as Hmx.
  unfold torn in Hd. cbn [fst snd] in Hd. rewrite Hhs, Hsav in Hd.
  assert (rtc (astep ids) s s1) as R1 by (by eapply hsteps_astep).
  apply elem_of_cons in Hd as [->|Hd].
  { exists s. cbn [fst snd].
    split_and!; [by apply frame_refl|done|done|apply HN0|apply HN0|done|apply HN0]. }
  assert (exists s', frame ids i s s' /\ rtc (astep ids) s s' /\ gbound s' /\
    hs_Term (hardState (node_event ev (h_Node (hosts c i)))) = a_term s' i /\
    VotedFor (hardState (node_event ev (h_Node (hosts c i)))) = a_vote s' i /\
    a_log s' i = a_log s i /\ a_term s' i < max_u64) as (s1' & P1).
  { exists s1. split_and!; try done; [|congruence..|lia]. intros T. rewrite Etl. apply Hg. }
  destruct P1 as (P1 & P2 & P3 & P4 & P5 & P6 & P7).
  apply elem_of_cons in Hd as [->|Hd].
  { exists s1'. cbn [fst snd]. by rewrite P6. }
  apply elem_of_cons in Hd as [->|Hd].
  { cbn [fst snd]. destruct (r_Entries ready) as [|e0 rest] eqn:E.
    { exists s1'. cbn [fst snd]. by rewrite P6. }
    rewrite (ready_head _ _ _ _ _ _ _ _ HN E).
    destruct (decide (unstableIndex (node_event ev (h_Node (hosts c i))) - 1 <
      Z.of_nat (length (a_log s i)))) as [Hlt|Hge].
    - destruct (Ht Hlt) as (s2 & Hs2 & Hg2 & El2).
      destruct (evolves_frame s i s1 s2 Hinv Hs1 Hs2) as (_ & F2 & _ & _ & Et2 & Ev2).
      exists s2. rewrite El2, fmap_take. split_and!; try done; [|congruence..|lia].
      etrans; [exact R1|by eapply lsteps_astep].
    - exists s1'. rewrite P6, take_ge by (rewrite length_fmap; lia). done. }
  apply list_elem_of_singleton in Hd as ->. exists s'. cbn [fst snd]. split_and!; try done.
  etrans; [exact R1|exact (lsteps_astep _ _ _ _ Hs')].
Qed.

Lemma CI_boot s s' c i st r h' sent :
  CI s c -> i ∈ ids -> frame ids i s s' -> gbound s' -> store_ok st -> boot i st r h' ->
  hs_Term (durable st).1 = a_term s' i -> VotedFor (durable st).1 = a_vote s' i ->
  (durable st).2 = toEntry <$> a_log s' i -> a_term s' i < max_u64 ->
  Forall (msg_ok ids s') sent ->
  CI s' (mkCluster (<[i := h']> (hosts c)) (net c ++ sent)).
Proof. intros. eapply CI_host; eauto using boot_HI. Qed.

(** Every step of the cluster is a sequence of steps of the protocol. *)
Lemma CI_step s c c' :
  CI s c -> cstep c c' -> exists s', rtc (astep ids) s s' /\ CI s' c'.
Proof.
  intros HC Hstep. pose proof HC as [Hinv Hg Hh Hn].
  destruct Hstep as [i ev h' sent Hi Hdel Hroom Hft He | i ev k r h' Hi Hdel Hroom Hft ready Hb
                    | i ev k r st h' Hi Hdel Hroom Hft ready Hs Hb | i r h' Hi Hb].
  - destruct (CI_event s c i ev h' sent HC Hi Hdel Hroom Hft He) as (s' & _ & ? & ?). by exists s'.
  - pose proof (node_event_evolves s c i ev HC Hi Hdel Hroom) as (_ & sx & _ & _ & HNx & _).
    destruct (Hh i Hi) as [Hok Hdur _ _ _ _ _ _].
    destruct (crash_save_spec k (r_HardState ready) (r_Entries ready) (h_Storage (hosts c i)) Hok)
      as [Hok' Hd']; [rewrite Hdur; by eapply ready_batch_wf|exact Hft|].
    destruct (torn_state s c i ev _ HC Hi Hdel Hroom Hd') as (s' & F & R & Hg' & Et & Ev & El & Hmx).
    exists s'. split; [done|]. rewrite <- (app_nil_r (net c)). by eapply CI_boot.
  - pose proof (node_event_evolves s c i ev HC Hi Hdel Hroom) as (s1 & s' & Hs1 & Hs' & HN & Hg' & _).
    destruct (Hh i Hi) as [Hok Hdur _ _ _ _ _ _].
    destruct (evolves_frame s i s1 s' Hinv Hs1 Hs') as (_ & F & _).
    apply Save_spec in Hs as [Hok' Hd']; [|done|rewrite Hdur; by eapply ready_batch_wf|exact Hft].
    destruct (reopen_spec st Hok') as [Hok'' Hd''].
    pose proof (ready_saved _ _ _ _ _ _ HN) as Hsv. fold ready in Hsv.
    rewrite Hdur, Hsv in Hd'. rewrite Hd' in Hd''.
    exists s'. split; [etrans; [by eapply hsteps_astep|by eapply lsteps_astep]|].
    eapply CI_boot; rewrite ?Hd''; try done; try apply HN.
    apply Forall_take, HN.
  - destruct (Hh i Hi) as [Hok Hdur HN _ _ _ _ _]. destruct (reopen_spec _ Hok) as [Hok' Hd'].
    rewrite Hdur in Hd'. exists s. split; [done|]. rewrite <- (app_nil_r (net c)).
    eapply CI_boot; rewrite ?Hd'; try done; try apply HN.
Qed.

Lemma CI_init c : cinit c -> CI ainit c.
Proof.
  intros [Hnet Hb]. split.
  - apply ainit_inv.
  - by intros T.
  - intros i Hi. destruct (Hb i Hi) as (st & r & Hok & Hd & Hbt).
    eapply boot_HI; rewrite ?Hd; try done.
  - by rewrite Hnet.
Qed.

(** The cluster implements the abstract protocol. *)
Lemma cluster_refines c : creach c -> exists s, rtc (astep ids) ainit s /\ CI s c.
Proof.
  intros (c0 & H0' & Hs). apply CI_init in H0'.
  assert (exists s, rtc (astep ids) ainit s /\ CI s c0) as Hex by eauto using rtc_refl.
  clear H0'. induction Hs as [c|c1 c2 c3 H12 _ IH]; [done|]. apply IH.
  destruct Hex as (s & R & HC). destruct (CI_step s c1 c2 HC H12) as (s' & R' & HC').
  exists s'. split; [by etrans|done].
Qed.

End cluster.
