(* ===== verification/Bytes.v ===== *)
(** The parts of Go's standard library that the byte formats use: encoding/binary's
    little-endian integers, bytes.Compare and hash/crc32's Castagnoli checksum. *)

From S2P Require Import Prelude.

Definition byte_of_Z (z : Z) : Byte.byte :=
  match Byte.of_N (Z.to_N (z mod 256)) with Some b => b | None => Byte.x00 end.

Definition Z_of_byte (b : Byte.byte) : Z := Z.of_N (Byte.to_N b).

Lemma Z_of_byte_range b : 0 <= Z_of_byte b < 256.
Proof. unfold Z_of_byte. pose proof (Byte.to_N_bounded b). lia. Qed.

Lemma Z_of_byte_of_Z z : Z_of_byte (byte_of_Z z) = z mod 256.
Proof.
  unfold byte_of_Z, Z_of_byte. pose proof (Z.mod_pos_bound z 256).
  destruct (Byte.of_N (Z.to_N (z mod 256))) as [b|] eqn:E.
  - apply Byte.to_of_N in E. rewrite E. lia.
  - apply Byte.of_N_None_iff in E. lia.
Qed.

Lemma byte_of_Z_of_byte b : byte_of_Z (Z_of_byte b) = b.
Proof.
  unfold byte_of_Z, Z_of_byte. pose proof (Byte.to_N_bounded b).
  rewrite Z.mod_small by lia. rewrite N2Z.id, Byte.of_to_N. done.
Qed.

(** * binary.LittleEndian *)

(** [PutUint32] and [PutUint64] are [le_put 4] and [le_put 8]. *)
Fixpoint le_put (k : nat) (z : Z) : bytes :=
  match k with
  | O => []
  | S k' => byte_of_Z z :: le_put k' (z / 256)
  end.

(** [Uint32] and [Uint64] of exactly 4 and 8 bytes. *)
Fixpoint le_get (bs : bytes) : Z :=
  match bs with
  | [] => 0
  | b :: bs' => Z_of_byte b + 256 * le_get bs'
  end.

Lemma length_le_put k z : length (le_put k z) = k.
Proof. revert z. induction k as [|k IH]; intros z; simpl; [done|]. by rewrite IH. Qed.

Lemma le_get_put k z : le_get (le_put k z) = z mod 256 ^ Z.of_nat k.
Proof.
  revert z. induction k as [|k IH]; intros z; [simpl; by rewrite Z.mod_1_r|].
  cbn [le_put le_get]. rewrite IH, Z_of_byte_of_Z.
  replace (256 ^ Z.of_nat (S k)) with (256 * 256 ^ Z.of_nat k)
    by (rewrite Nat2Z.inj_succ, Z.pow_succ_r by lia; lia).
  rewrite (Z.rem_mul_r z 256) by (try lia; apply Z.pow_pos_nonneg; lia). lia.
Qed.

Lemma le_get_put_id k z : 0 <= z < 256 ^ Z.of_nat k -> le_get (le_put k z) = z.
Proof. intros. rewrite le_get_put. by apply Z.mod_small. Qed.

Lemma le_get_range bs : 0 <= le_get bs < 256 ^ Z.of_nat (length bs).
Proof.
  induction bs as [|b bs IH]; [simpl; lia|]. cbn [le_get length].
  rewrite Nat2Z.inj_succ, Z.pow_succ_r by lia. pose proof (Z_of_byte_range b). lia.
Qed.

Lemma le_put_get bs : le_put (length bs) (le_get bs) = bs.
Proof.
  induction bs as [|b bs IH]; [done|]. cbn [le_put le_get length].
  pose proof (Z_of_byte_range b).
  assert (byte_of_Z (Z_of_byte b + 256 * le_get bs) = b) as ->.
  { rewrite <- (byte_of_Z_of_byte b) at 2. unfold byte_of_Z.
    replace (Z_of_byte b + 256 * le_get bs) with (Z_of_byte b + le_get bs * 256) by lia.
    by rewrite Z.mod_add by lia. }
  replace (Z_of_byte b + 256 * le_get bs) with (le_get bs * 256 + Z_of_byte b) by lia.
  rewrite Z.div_add_l, (Z.div_small (Z_of_byte b)), Z.add_0_r, IH by lia. done.
Qed.

(** * bytes.Compare *)

Fixpoint bytes_compare (a b : bytes) : comparison :=
  match a, b with
  | [], [] => Eq
  | [], _ :: _ => Lt
  | _ :: _, [] => Gt
  | x :: a', y :: b' =>
      match Z_of_byte x ?= Z_of_byte y with
      | Eq => bytes_compare a' b'
      | c => c
      end
  end.

(** [bytes.Compare(a, b) < 0] and [<= 0]. *)
Definition bytes_ltb (a b : bytes) : bool := match bytes_compare a b with Lt => true | _ => false end.
Definition bytes_lt (a b : bytes) : Prop := bytes_compare a b = Lt.

#[export] Instance bytes_lt_dec a b : Decision (bytes_lt a b).
Proof. unfold bytes_lt. destruct (bytes_compare a b); [right|left|right]; congruence. Defined.

Lemma Z_of_byte_inj a b : Z_of_byte a = Z_of_byte b -> a = b.
Proof. intros E. by rewrite <- (byte_of_Z_of_byte a), E, byte_of_Z_of_byte. Qed.

Lemma bytes_compare_eq a b : bytes_compare a b = Eq <-> a = b.
Proof.
  revert b. induction a as [|x a IH]; intros [|y b]; cbn [bytes_compare]; try done.
  destruct (Z.compare_spec (Z_of_byte x) (Z_of_byte y)) as [E|E|E].
  - apply Z_of_byte_inj in E as ->. rewrite IH. split; congruence.
  - split; [done|]. intros [= -> _]. lia.
  - split; [done|]. intros [= -> _]. lia.
Qed.

Lemma bytes_compare_antisym a b : bytes_compare b a = CompOpp (bytes_compare a b).
Proof.
  revert b. induction a as [|x a IH]; intros [|y b]; cbn [bytes_compare]; try done.
  rewrite Z.compare_antisym. destruct (Z_of_byte x ?= Z_of_byte y); cbn [CompOpp]; done.
Qed.

#[export] Instance bytes_lt_trans : Transitive bytes_lt.
Proof.
  unfold bytes_lt. intros a b c. revert b c.
  induction a as [|x a IH]; intros [|y b] [|z c]; cbn [bytes_compare]; try done.
  destruct (Z.compare_spec (Z_of_byte x) (Z_of_byte y)) as [E1|E1|E1],
           (Z.compare_spec (Z_of_byte y) (Z_of_byte z)) as [E2|E2|E2]; try done.
  - rewrite E1, E2, Z.compare_refl. apply IH.
  - rewrite (proj2 (Z.compare_lt_iff _ _)) by lia. done.
  - rewrite (proj2 (Z.compare_lt_iff _ _)) by lia. done.
  - rewrite (proj2 (Z.compare_lt_iff _ _)) by lia. done.
Qed.

#[export] Instance bytes_lt_irrefl : Irreflexive bytes_lt.
Proof. intros a. unfold complement, bytes_lt. by rewrite (proj2 (bytes_compare_eq a a)). Qed.

Lemma bytes_lt_total a b : bytes_lt a b \/ a = b \/ bytes_lt b a.
Proof.
  unfold bytes_lt. destruct (bytes_compare a b) eqn:E; [|by left|].
  - right. left. by apply bytes_compare_eq.
  - right. right. rewrite bytes_compare_antisym, E. done.
Qed.

Lemma bytes_ltb_spec a b : bytes_ltb a b = true <-> bytes_lt a b.
Proof. unfold bytes_ltb, bytes_lt. by destruct (bytes_compare a b). Qed.

Lemma bytes_ltb_ge a b : bytes_ltb a b = false <-> ~ bytes_lt a b.
Proof. rewrite <- bytes_ltb_spec. by destruct (bytes_ltb a b). Qed.

(** * crc32.Checksum with the Castagnoli table

    The table-driven update of one byte is eight steps of the reflected polynomial. *)

Definition crc_bit (c : Z) : Z :=
  if Z.testbit c 0 then Z.lxor (Z.shiftr c 1) 2197175160 else Z.shiftr c 1.

Definition crc_byte (c : Z) (b : Byte.byte) : Z :=
  crc_bit (crc_bit (crc_bit (crc_bit (crc_bit (crc_bit (crc_bit (crc_bit
    (Z.lxor c (Z_of_byte b))))))))).

Definition crc32c (bs : bytes) : Z := Z.lxor (foldl crc_byte max_u32 bs) max_u32.

(** The check value of the Castagnoli polynomial, for the bytes of the text 123456789. *)
Example crc32c_check :
  crc32c [Byte.x31; Byte.x32; Byte.x33; Byte.x34; Byte.x35; Byte.x36; Byte.x37; Byte.x38; Byte.x39]
  = 3808858755.
Proof. vm_compute. reflexivity. Qed.

Lemma lxor_bound a b : 0 <= a <= max_u32 -> 0 <= b <= max_u32 -> 0 <= Z.lxor a b <= max_u32.
Proof.
  intros Ha Hb. split; [apply Z.lxor_nonneg; lia|].
  destruct (Z.eq_dec (Z.lxor a b) 0) as [->|Hne]; [unfold max_u32; lia|].
  assert (0 <= Z.lxor a b) by (apply Z.lxor_nonneg; lia).
  change max_u32 with (2 ^ 32 - 1) in *.
  enough (Z.lxor a b < 2 ^ 32) by lia. apply Z.log2_lt_pow2; [lia|].
  eapply Z.le_lt_trans; [apply Z.log2_lxor; lia|].
  apply Z.max_lub_lt; (destruct (Z.eq_dec a 0), (Z.eq_dec b 0); subst; try (simpl; lia));
    apply Z.log2_lt_pow2; lia.
Qed.

Lemma crc_bit_bound c : 0 <= c <= max_u32 -> 0 <= crc_bit c <= max_u32.
Proof.
  intros Hc. unfold crc_bit.
  assert (0 <= Z.shiftr c 1 <= max_u32).
  { rewrite Z.shiftr_div_pow2 by lia. change (2 ^ 1) with 2.
    pose proof (Z.div_pos c 2). pose proof (Z.div_le_upper_bound c 2 c). lia. }
  case_match; [|done]. apply lxor_bound; [done|unfold max_u32; lia].
Qed.

Lemma crc32c_bound bs : 0 <= crc32c bs <= max_u32.
Proof.
  unfold crc32c. apply lxor_bound; [|unfold max_u32; lia].
  enough (forall c, 0 <= c <= max_u32 -> 0 <= foldl crc_byte c bs <= max_u32) as H
    by (apply H; unfold max_u32; lia).
  induction bs as [|b bs IH]; intros c Hc; simpl; [done|].
  apply IH. unfold crc_byte. do 8 apply crc_bit_bound. apply lxor_bound; [done|].
  pose proof (Z_of_byte_range b). unfold max_u32. lia.
Qed.

Lemma crc32c_get_put bs : le_get (le_put 4 (crc32c bs)) = crc32c bs.
Proof.
  apply le_get_put_id. pose proof (crc32c_bound bs) as H. change (256 ^ Z.of_nat 4) with (max_u32 + 1).
  lia.
Qed.

#[export] Hint Rewrite length_le_put crc32c_get_put : mq.

#[global] Arguments le_put : simpl never.
#[global] Arguments le_get : simpl never.
#[global] Arguments crc32c : simpl never.
