(* ===== verification/WalRecords.v ===== *)
(** The records of a durable batch and what replaying them gives.

    The write-ahead log of internal/storage/disklog and the crash-model storage of sim
    write the same three records in the same order for one [Save]: the hard state, a
    truncation when the entries overwrite a stored suffix, and the entries.  This file
    holds the records, their fold, and the fact both storages rest on: folding any record
    prefix of a batch gives a state that [torn] allows, and folding all of it gives what
    [Save] promises. *)

From S2P Require Import Prelude Proto RaftLog RaftNode Storage.

Record recoveredState : Type := mkRecoveredState {
  rs_hard : HardState;
  rs_entries : list Entry;
}.

Definition truncateFromIndex (es : list Entry) (idx : Z) : list Entry :=
  cut_at (fun e => idx <=? Index e) es.

Definition rs_init : recoveredState := mkRecoveredState (mkHardState 0 0) [].

Inductive record : Type :=
  | RHard (hs : HardState)
  | RTrunc (from : Z)
  | REntries (es : list Entry).

(** The values the fixed-width fields can hold. *)
Definition type_ok (t : EntryType) : Prop :=
  match t with
  | EntryType_UNRECOGNIZED v => - 2147483648 <= v < 2147483648 /\ ~ (0 <= v <= 2)
  | _ => True
  end.

Definition entry_fits (e : Entry) : Prop := is_u64 (Index e) /\ is_u64 (Term e) /\ type_ok (Type_ e).

(** The effect of a record: the durable state's fold. *)
Definition apply_record (s : recoveredState) (r : record) : recoveredState :=
  match r with
  | RHard hs => mkRecoveredState hs (rs_entries s)
  | RTrunc from => mkRecoveredState (rs_hard s) (truncateFromIndex (rs_entries s) from)
  | REntries es =>
      match es with
      | [] => s
      | e0 :: _ => mkRecoveredState (rs_hard s) (truncateFromIndex (rs_entries s) (Index e0) ++ es)
      end
  end.

Definition fold_records (rs : list record) (s : recoveredState) : recoveredState :=
  foldl apply_record s rs.

(** The records one [Save] stages. *)
Definition batch_records (hs : option HardState) (es : list Entry) (last : Z) : list record :=
  match hs with Some h => [RHard h] | None => [] end ++
  match es with
  | [] => []
  | e0 :: _ =>
      (if negb (Index e0 =? 0) && (Index e0 <=? last) then [RTrunc (Index e0)] else []) ++ [REntries es]
  end.

Definition pair_of (s : recoveredState) : HardState * list Entry := (rs_hard s, rs_entries s).

Lemma truncateFromIndex_eq es idx : truncateFromIndex es idx = cutEntries idx es.
Proof. done. Qed.

(** The entries part of a batch, from a state [s]. *)
Lemma fold_entries_part e0 es s batch last k :
  entries_wf (rs_entries s) -> batch_wf (rs_entries s) batch -> batch = e0 :: es ->
  let rs := (if negb (Index e0 =? 0) && (Index e0 <=? last) then [RTrunc (Index e0)] else [])
            ++ [REntries batch] in
  let p := Z.to_nat (Index e0 - 1) in
  (fold_records (take k rs) s = s \/
   fold_records (take k rs) s = mkRecoveredState (rs_hard s) (take p (rs_entries s)) \/
   fold_records (take k rs) s = mkRecoveredState (rs_hard s) (take p (rs_entries s) ++ batch)) /\
  fold_records rs s = mkRecoveredState (rs_hard s) (take p (rs_entries s) ++ batch).
Proof.
  intros [Hc Hl] Hb Eb rs p.
  assert (truncateFromIndex (rs_entries s) (Index e0) = take p (rs_entries s)) as E1
    by (by apply cutEntries_take).
  assert (truncateFromIndex (take p (rs_entries s)) (Index e0) = take p (rs_entries s)) as E2.
  { etrans; [apply cutEntries_take; by apply contiguous_take|]. rewrite take_take. f_equal. unfold p. lia. }
  assert (apply_record s (REntries batch) =
    mkRecoveredState (rs_hard s) (take p (rs_entries s) ++ batch)) as A1
    by (rewrite Eb; cbn [apply_record]; by rewrite E1).
  assert (apply_record s (RTrunc (Index e0)) = mkRecoveredState (rs_hard s) (take p (rs_entries s))) as A2
    by (cbn [apply_record]; by rewrite E1).
  assert (apply_record (mkRecoveredState (rs_hard s) (take p (rs_entries s))) (REntries batch) =
    mkRecoveredState (rs_hard s) (take p (rs_entries s) ++ batch)) as A3
    by (rewrite Eb; cbn [apply_record rs_entries rs_hard]; by rewrite E2).
  clearbody p. unfold rs, fold_records. clear Eb. case_bool; cbn [app].
  - destruct k as [|[|k]]; cbn [take foldl]; rewrite ?take_nil; cbn [foldl]; rewrite A2, A3; auto.
  - destruct k as [|k]; cbn [take foldl]; rewrite ?take_nil; cbn [foldl]; rewrite A1; auto.
Qed.

(** Folding any record prefix of a batch gives one of the states [torn] allows; the
    whole batch gives what [Save] promises. *)
Lemma fold_batch hs batch s last j :
  entries_wf (rs_entries s) -> batch_wf (rs_entries s) batch ->
  let rs := batch_records hs batch last in
  pair_of (fold_records (take j rs) s) ∈ torn hs batch (pair_of s) /\
  pair_of (fold_records rs s) = saved hs batch (pair_of s).
Proof.
  intros Hwf Hb rs. unfold rs, batch_records. rewrite elem_of_torn.
  set (A := match hs with Some h => [RHard h] | None => [] end).
  set (s1 := mkRecoveredState (default (rs_hard s) hs) (rs_entries s)).
  assert (fold_records A s = s1) as EA by (unfold s1; destruct hs; [done|by destruct s]).
  assert (forall l, fold_records (A ++ l) s = fold_records l s1) as Eapp
    by (intros l; unfold fold_records in *; by rewrite foldl_app, EA).
  destruct (decide (j < length A)%nat) as [Hlt|Hge].
  - assert (j = 0%nat) as -> by (subst A; destruct hs; simpl in *; lia).
    split; [by left|]. rewrite Eapp. destruct batch as [|e0 es] eqn:Eb; [done|]. rewrite <- Eb in *.
    destruct (fold_entries_part e0 es s1 batch last 0 Hwf Hb Eb) as [_ ->].
    unfold saved, pair_of. cbn [fst snd rs_hard rs_entries s1]. by rewrite Eb.
  - rewrite take_app, (take_ge A), !Eapp by lia.
    destruct batch as [|e0 es] eqn:Eb.
    { rewrite take_nil. split; [|done]. right. by left. }
    rewrite <- Eb in *.
    destruct (fold_entries_part e0 es s1 batch last (j - length A) Hwf Hb Eb) as [Hor ->].
    unfold saved, pair_of. cbn [fst snd rs_hard rs_entries s1]. rewrite Eb. rewrite Eb in Hor.
    split; [|done]. destruct Hor as [->|[-> | ->]]; auto.
Qed.

Lemma torn_wf hs batch d x : entries_wf d.2 -> batch_wf d.2 batch -> x ∈ torn hs batch d -> entries_wf x.2.
Proof.
  intros Hwf Hb Hx. apply elem_of_torn in Hx as [-> | [-> | [-> | ->]]]; [done|done| |by apply saved_wf].
  simpl. destruct batch as [|e0 es]; [done|]. destruct Hwf as [Hc Hl].
  split; [by apply contiguous_take|]. rewrite length_take. lia.
Qed.

