(* ===== verification/CrashStorage.v ===== *)
(** The crash-model storage of sim/crashstorage.go (with the directive types of
    sim/faultschedule.go): a storage whose batches are framed records in a byte log, and
    whose crashes keep a byte prefix of the batch that was not yet synced.

    It keeps the contracts [StorageSpec] and [CrashSafe], so the cluster theorems hold
    over it. *)

From S2P Require Import Prelude Proto RaftLog RaftNode Storage Bytes WalRecords.

(** * Directives *)

(** [CrashPoint] is a [uint8]; these are its named values. *)
Definition CrashHostInitiated : Z := 0.
Definition CrashBeforeSync : Z := 1.
Definition CrashAfterSyncBeforeSend : Z := 2.
Definition CrashAfterSend : Z := 3.

Definition RetainAllUnsynced : Z := -1.

Record CrashDirective : Type := mkCrashDirective {
  cd_Node : Z;
  cd_Save : Z;
  Point : Z;
  RetainUnsynced : Z;
  RestartAfterCrash : bool;
}.

(** [FaultSchedule.For], on the schedule's [Crashes]. *)
Definition scheduleFor (crashes : list CrashDirective) (id : Z) : list CrashDirective :=
  filter (fun d => cd_Node d = id) crashes.

Record CrashInfo : Type := mkCrashInfo {
  ci_Save : Z;
  ci_Point : Z;
  UnsyncedBytes : Z;
  RetainedBytes : Z;
}.

Record CrashStorage : Type := mkCrashStorage {
  directives : list CrashDirective;
  next : nat;
  saves : Z;
  cs_durable : bytes;
  unsynced : bytes;
  cs_view : MemStorage;
  crashed : bool;
  armed : bool;
  armedSave : Z;
  lastCrash : CrashInfo;
  hasCrashed : bool;
}.

(** * Record encoding *)

Definition recordHeaderLen : nat := 8.
Definition recordKindHardState : Z := 1.
Definition recordKindEntries : Z := 2.
Definition recordKindTruncate : Z := 3.

Definition appendRecord (dst payload : bytes) : bytes :=
  (dst ++ (le_put 4 (Z.of_nat (length payload)) ++ le_put 4 (crc32c payload))) ++ payload.

Definition appendHardStateRecord (dst : bytes) (hs : HardState) : bytes :=
  let payload := byte_of_Z recordKindHardState :: le_put 8 (hs_Term hs) ++ le_put 8 (VotedFor hs) in
  appendRecord dst payload.

Definition appendTruncateRecord (dst : bytes) (from : Z) : bytes :=
  let payload := byte_of_Z recordKindTruncate :: le_put 8 from in
  appendRecord dst payload.

(** The number behind a protobuf enum value, and back: [uint32(e.Type)] and
    [EntryType(int32(v))]. *)
Definition EntryType_number (t : EntryType) : Z :=
  match t with
  | ENTRY_TYPE_UNSPECIFIED => 0
  | EntryType_NORMAL => 1
  | EntryType_NOOP => 2
  | EntryType_UNRECOGNIZED v => v
  end.

Definition EntryType_of_u32 (v : Z) : EntryType :=
  let i := if v <? 2147483648 then v else v - 4294967296 in
  if i =? 0 then ENTRY_TYPE_UNSPECIFIED
  else if i =? 1 then EntryType_NORMAL
  else if i =? 2 then EntryType_NOOP
  else EntryType_UNRECOGNIZED i.

Definition entryBytes (e : Entry) : bytes :=
  le_put 8 (Index e) ++ le_put 8 (Term e) ++ le_put 4 (EntryType_number (Type_ e)) ++
  le_put 4 (Z.of_nat (length (Data e))) ++ Data e.

(** The loop of [appendEntriesRecord] that grows the payload. *)
Definition entriesPayload (es : list Entry) : bytes :=
  foldl (fun payload e => payload ++ entryBytes e)
    (byte_of_Z recordKindEntries :: le_put 4 (Z.of_nat (length es))) es.

Definition appendEntriesRecord (dst : bytes) (es : list Entry) : bytes :=
  appendRecord dst (entriesPayload es).

(** * Record decoding *)

(** The loop of [decodeEntriesBody]. *)
Fixpoint decodeEntriesLoop (count : nat) (body : bytes) (acc : list Entry) : result (list Entry) :=
  match count with
  | O => if Nat.eqb (length body) 0 then Ok acc else Err "sim: entries record has trailing bytes"
  | S count' =>
      if Nat.ltb (length body) 24 then Err "sim: entries record truncated at entry"
      else
        let dataLen := Z.to_nat (le_get (take 4 (drop 20 body))) in
        if Nat.ltb (length body) (24 + dataLen)
        then Err "sim: entries record truncated inside entry data"
        else
          let e := mkEntry (le_get (take 8 body)) (le_get (take 8 (drop 8 body)))
                     (EntryType_of_u32 (le_get (take 4 (drop 16 body))))
                     (take dataLen (drop 24 body)) in
          decodeEntriesLoop count' (drop (24 + dataLen) body) (acc ++ [e])
  end.

Definition decodeEntriesBody (body : bytes) : result (list Entry) :=
  if Nat.ltb (length body) 4 then Err "sim: entries record shorter than its count"
  else
    let count := Z.to_nat (le_get (take 4 body)) in
    if Nat.eqb count 0 then Err "sim: entries record with zero entries"
    else decodeEntriesLoop count (drop 4 body) [].

Definition rs_apply (payload : bytes) (s : recoveredState) : result recoveredState :=
  match payload with
  | [] => Err "sim: empty record payload"
  | kind :: rest =>
      let k := Z_of_byte kind in
      if k =? recordKindHardState then
        if negb (Nat.eqb (length payload) 17) then Err "sim: hard-state record payload length"
        else Ok (mkRecoveredState
                   (mkHardState (le_get (take 8 (drop 1 payload))) (le_get (take 8 (drop 9 payload))))
                   (rs_entries s))
      else if k =? recordKindTruncate then
        if negb (Nat.eqb (length payload) 9) then Err "sim: truncate record payload length"
        else
          let from := le_get (take 8 (drop 1 payload)) in
          if from =? 0 then Err "sim: truncate record from index 0"
          else Ok (mkRecoveredState (rs_hard s) (truncateFromIndex (rs_entries s) from))
      else if k =? recordKindEntries then
        es <-r decodeEntriesBody rest ;
        match es with
        | [] => Err "index out of range"  (* not reached: a decoded body has an entry *)
        | e0 :: _ => Ok (mkRecoveredState (rs_hard s) (truncateFromIndex (rs_entries s) (Index e0) ++ es))
        end
      else Err "sim: unknown record kind"
  end.

Definition rs_view (s : recoveredState) : MemStorage :=
  let v := (mem_Save (Some (rs_hard s)) [] NewMemStorage).1 in
  if Nat.ltb 0 (length (rs_entries s)) then (mem_Save None (rs_entries s) v).1 else v.

(** [parseRecords]: [rest] is [data[offset:]].  Every iteration that does not return
    consumes a header, so [length data] iterations are enough. *)
Fixpoint parseLoop (fuel : nat) (s : recoveredState) (rest : bytes) (offset : nat)
    : result (MemStorage * nat) :=
  match fuel with
  | O => Ok (rs_view s, offset)
  | S fuel' =>
      if Nat.ltb (length rest) recordHeaderLen then Ok (rs_view s, offset)
      else
        let payloadLen := Z.to_nat (le_get (take 4 rest)) in
        if Nat.ltb (length rest) (recordHeaderLen + payloadLen) then Ok (rs_view s, offset)
        else
          let payload := take payloadLen (drop recordHeaderLen rest) in
          if negb (crc32c payload =? le_get (take 4 (drop 4 rest)))
          then Err "sim: record fails crc32c; synced bytes are never torn, so this is a codec bug"
          else
            s' <-r rs_apply payload s ;
            parseLoop fuel' s' (drop (recordHeaderLen + payloadLen) rest)
              (offset + (recordHeaderLen + payloadLen))
  end.

Definition parseRecords (data : bytes) : result (MemStorage * nat) :=
  parseLoop (S (length data)) rs_init data 0.

(** * Operations *)

Definition ErrCrashed : error := "sim: storage crashed".
Definition errNotCrashed : error := "sim: Recover called on a storage that is not crashed".

Definition pendingDirective (save : Z) (cs : CrashStorage) : CrashStorage * option CrashDirective :=
  match directives cs !! next cs with
  | Some d =>
      if negb (cd_Save d =? save) then (cs, None)
      else (mkCrashStorage (directives cs) (S (next cs)) (saves cs) (cs_durable cs) (unsynced cs)
              (cs_view cs) (crashed cs) (armed cs) (armedSave cs) (lastCrash cs) (hasCrashed cs), Some d)
  | None => (cs, None)
  end.

(** [crash]; the panic on a survivor that does not parse keeps the old view here
    (see [survivors_parse]: it is not reached). *)
Definition cs_crash (save point retain : Z) (cs : CrashStorage) : CrashStorage :=
  let all := Z.of_nat (length (unsynced cs)) in
  let keep := if negb (retain =? RetainAllUnsynced) && (retain <? all) then retain else all in
  let durable' := cs_durable cs ++ take (Z.to_nat keep) (unsynced cs) in
  let view' := match parseRecords durable' with Ok (v, _) => v | Err _ => cs_view cs end in
  mkCrashStorage (directives cs) (next cs) (saves cs) durable' [] view' true false (armedSave cs)
    (mkCrashInfo save point all keep) true.

Definition cs_Save (hs : option HardState) (es : list Entry) (cs : CrashStorage)
    : CrashStorage * option error :=
  if crashed cs then (cs, Some ErrCrashed)
  else if armed cs then (cs_crash (armedSave cs) CrashAfterSend 0 cs, Some ErrCrashed)
  else
    let saves' := saves cs +u 1 in
    let buf1 := match hs with Some h => appendHardStateRecord (unsynced cs) h | None => unsynced cs end in
    let buf2 :=
      match es with
      | [] => buf1
      | e0 :: _ =>
          let buf :=
            if negb (Index e0 =? 0) && (Index e0 <=? mem_LastIndex (cs_view cs))
            then appendTruncateRecord buf1 (Index e0) else buf1 in
          appendEntriesRecord buf es
      end in
    let cs1 := mkCrashStorage (directives cs) (next cs) saves' (cs_durable cs) buf2 (cs_view cs)
                 (crashed cs) (armed cs) (armedSave cs) (lastCrash cs) (hasCrashed cs) in
    let '(cs2, directive) := pendingDirective saves' cs1 in
    if match directive with Some d => Point d =? CrashBeforeSync | None => false end
    then (cs_crash saves' CrashBeforeSync (match directive with Some d => RetainUnsynced d | None => 0 end) cs2,
          Some ErrCrashed)
    else
      let cs3 := mkCrashStorage (directives cs2) (next cs2) (saves cs2) (cs_durable cs2 ++ unsynced cs2) []
                   (mem_Save hs es (cs_view cs2)).1
                   (crashed cs2) (armed cs2) (armedSave cs2) (lastCrash cs2) (hasCrashed cs2) in
      match directive with
      | Some d =>
          if Point d =? CrashAfterSyncBeforeSend
          then (cs_crash saves' CrashAfterSyncBeforeSend 0 cs3, Some ErrCrashed)
          else if Point d =? CrashAfterSend
          then (mkCrashStorage (directives cs3) (next cs3) (saves cs3) (cs_durable cs3) (unsynced cs3)
                  (cs_view cs3) (crashed cs3) true saves' (lastCrash cs3) (hasCrashed cs3), None)
          else (cs3, None)
      | None => (cs3, None)
      end.

Definition cs_Crash (cs : CrashStorage) : CrashStorage * option error :=
  if crashed cs then (cs, Some ErrCrashed)
  else (cs_crash (saves cs) CrashHostInitiated 0 cs, None).

Definition CrashIfArmed (cs : CrashStorage) : CrashStorage * bool :=
  if crashed cs || negb (armed cs) then (cs, false)
  else (cs_crash (armedSave cs) CrashAfterSend 0 cs, true).

Definition Recover (cs : CrashStorage) : CrashStorage * option error :=
  if negb (crashed cs) then (cs, Some errNotCrashed)
  else
    match parseRecords (cs_durable cs) with
    | Err e => (cs, Some e)
    | Ok (v, complete) =>
        (mkCrashStorage (directives cs) (next cs) (saves cs) (take complete (cs_durable cs)) (unsynced cs)
           v false (armed cs) (armedSave cs) (lastCrash cs) (hasCrashed cs), None)
    end.

#[export] Instance CrashStorage_Storage : Storage CrashStorage := {|
  Save := cs_Save;
  getHardState cs := mem_HardState (cs_view cs);
  getEntries lo hi cs := mem_Entries lo hi (cs_view cs);
  FirstIndex cs := mem_FirstIndex (cs_view cs);
  LastIndex cs := mem_LastIndex (cs_view cs);
|}.

(** [NewCrashStorage]: [sort.Slice] by ordinal (a schedule with two equal ordinals is
    refused below, so the order is unique), then the checks. *)
Fixpoint insert_directive (d : CrashDirective) (l : list CrashDirective) : list CrashDirective :=
  match l with
  | [] => [d]
  | d' :: l' => if cd_Save d <=? cd_Save d' then d :: l else d' :: insert_directive d l'
  end.

Fixpoint checkDirectives (prev : option CrashDirective) (ds : list CrashDirective) : option error :=
  match ds with
  | [] => None
  | d :: ds' =>
      if cd_Save d =? 0 then Some "sim: crash directive has Save 0; ordinals are 1-based"
      else if (Point d <? CrashBeforeSync) || (CrashAfterSend <? Point d)
      then Some "sim: crash directive has non-schedulable point"
      else if RetainUnsynced d <? RetainAllUnsynced
      then Some "sim: crash directive retains too few bytes; minimum is RetainAllUnsynced (-1)"
      else if match prev with Some p => cd_Save p =? cd_Save d | None => false end
      then Some "sim: duplicate crash directives"
      else checkDirectives (Some d) ds'
  end.

Definition NewCrashStorage (id : Z) (crashes : list CrashDirective) : result CrashStorage :=
  let ds := foldr insert_directive [] (scheduleFor crashes id) in
  match checkDirectives None ds with
  | Some e => Err e
  | None => Ok (mkCrashStorage ds 0 0 [] [] NewMemStorage false false 0 (mkCrashInfo 0 0 0 0) false)
  end.

(** * Records, and what the byte format keeps of them *)

Definition payload_of (r : record) : bytes :=
  match r with
  | RHard hs => byte_of_Z recordKindHardState :: le_put 8 (hs_Term hs) ++ le_put 8 (VotedFor hs)
  | RTrunc from => byte_of_Z recordKindTruncate :: le_put 8 from
  | REntries es => entriesPayload es
  end.

Definition frame_of (r : record) : bytes := appendRecord [] (payload_of r).

Definition frames (rs : list record) : bytes := concat (frame_of <$> rs).

Definition record_ok (r : record) : Prop :=
  match r with
  | RHard hs => is_u64 (hs_Term hs) /\ is_u64 (VotedFor hs)
  | RTrunc from => 0 < from <= max_u64
  | REntries es => es <> [] /\ Forall entry_fits es /\ Z.of_nat (length (entriesPayload es)) <= max_u32
  end.

Lemma appendRecord_app dst p : appendRecord dst p = dst ++ appendRecord [] p.
Proof. unfold appendRecord. by rewrite <- !app_assoc. Qed.

Lemma length_frame r : length (frame_of r) = (8 + length (payload_of r))%nat.
Proof. unfold frame_of, appendRecord. rewrite !length_app, !length_le_put. done. Qed.

Lemma get8 z rest : is_u64 z -> le_get (take 8 (le_put 8 z ++ rest)) = z.
Proof.
  intros Hz. rewrite take_app_length' by (by rewrite length_le_put).
  apply le_get_put_id. change (256 ^ Z.of_nat 8) with (max_u64 + 1). destruct Hz. lia.
Qed.

Lemma get_put8 z : is_u64 z -> le_get (le_put 8 z) = z.
Proof.
  intros Hz. apply le_get_put_id. change (256 ^ Z.of_nat 8) with (max_u64 + 1). destruct Hz. lia.
Qed.

Lemma get4 z rest : 0 <= z <= max_u32 -> le_get (take 4 (le_put 4 z ++ rest)) = z.
Proof.
  intros Hz. rewrite take_app_length' by (by rewrite length_le_put).
  apply le_get_put_id. change (256 ^ Z.of_nat 4) with (max_u32 + 1). lia.
Qed.

Lemma drop_put k z rest : drop k (le_put k z ++ rest) = rest.
Proof. rewrite drop_app_length'; [done|]. by rewrite length_le_put. Qed.

Lemma drop_put_add k j z rest : drop (k + j) (le_put k z ++ rest) = drop j rest.
Proof. rewrite <- drop_drop, drop_put. done. Qed.

Lemma EntryType_roundtrip t : type_ok t -> EntryType_of_u32 (EntryType_number t mod 4294967296) = t.
Proof.
  destruct t as [| | |v]; try done. simpl. intros [Hv Hn]. unfold EntryType_of_u32.
  assert ((if v mod 4294967296 <? 2147483648 then v mod 4294967296 else v mod 4294967296 - 4294967296) = v)
    as ->.
  { destruct (Z.leb_spec 0 v).
    - rewrite Z.mod_small by lia. case_bool; bool_to_prop; lia.
    - rewrite <- (Z.mod_add v 1), Z.mod_small by lia. case_bool; bool_to_prop; lia. }
  repeat case_bool; bool_to_prop; try done; lia.
Qed.

Lemma get4_type t rest : type_ok t ->
  EntryType_of_u32 (le_get (take 4 (le_put 4 (EntryType_number t) ++ rest))) = t.
Proof.
  intros Ht. rewrite take_app_length' by (by rewrite length_le_put).
  rewrite le_get_put. by apply EntryType_roundtrip.
Qed.

(** ** Entries *)

Lemma concat_fmap_cons {A B} (f : A -> list B) x l : concat (f <$> x :: l) = f x ++ concat (f <$> l).
Proof. done. Qed.

Lemma entriesPayload_eq es :
  entriesPayload es =
    byte_of_Z recordKindEntries :: le_put 4 (Z.of_nat (length es)) ++ concat (entryBytes <$> es).
Proof.
  unfold entriesPayload.
  enough (forall l acc, foldl (fun payload e => payload ++ entryBytes e) acc l =
    acc ++ concat (entryBytes <$> l)) as -> by done.
  induction l as [|e l IH]; intros acc; csimpl; [by rewrite app_nil_r|].
  by rewrite IH, <- app_assoc.
Qed.

#[local] Arguments entryBytes : simpl never.

Lemma length_entryBytes e : length (entryBytes e) = (24 + length (Data e))%nat.
Proof. unfold entryBytes. rewrite !length_app, !length_le_put. lia. Qed.

Lemma length_entries es : (24 * length es <= length (concat (entryBytes <$> es)))%nat.
Proof.
  induction es as [|e es IH]; [done|].
  rewrite concat_fmap_cons, length_app, length_entryBytes, length_cons. lia.
Qed.

(** The fixed part of an entry, field by field. *)
Lemma entry_drops e rest :
  let body := entryBytes e ++ rest in
  take 8 body = le_put 8 (Index e) /\
  drop 8 body = le_put 8 (Term e) ++ drop 16 body /\
  drop 16 body = le_put 4 (EntryType_number (Type_ e)) ++ drop 20 body /\
  drop 20 body = le_put 4 (Z.of_nat (length (Data e))) ++ drop 24 body /\
  drop 24 body = Data e ++ rest /\
  drop (24 + length (Data e)) body = rest.
Proof.
  intros body. unfold body, entryBytes. rewrite <- !app_assoc.
  assert (forall x, drop 24 (le_put 8 (Index e) ++ le_put 8 (Term e) ++
    le_put 4 (EntryType_number (Type_ e)) ++ le_put 4 (Z.of_nat (length (Data e))) ++ x) = x) as E24.
  { intros x. rewrite (drop_put_add 8 16), (drop_put_add 8 8), (drop_put_add 4 4), drop_put. done. }
  split_and!.
  - apply take_app_length'. by rewrite length_le_put.
  - by rewrite drop_put, (drop_put_add 8 8), drop_put.
  - by rewrite (drop_put_add 8 8), drop_put, (drop_put_add 8 12), (drop_put_add 8 4), drop_put.
  - by rewrite E24, (drop_put_add 8 12), (drop_put_add 8 4), drop_put.
  - apply E24.
  - by rewrite <- drop_drop, E24, drop_app_length.
Qed.

Lemma decodeEntriesLoop_ok es acc :
  Forall entry_fits es -> Z.of_nat (length (concat (entryBytes <$> es))) <= max_u32 ->
  decodeEntriesLoop (length es) (concat (entryBytes <$> es)) acc = Ok (acc ++ es).
Proof.
  revert acc. induction es as [|e es IH]; intros acc Hf Hlen; [by rewrite app_nil_r|].
  apply Forall_cons in Hf as [(Hi & Ht & Hty) Hf].
  rewrite concat_fmap_cons in *. rewrite length_app, length_entryBytes in Hlen.
  cbn [decodeEntriesLoop length]. set (rest := concat (entryBytes <$> es)) in *.
  rewrite length_app, length_entryBytes.
  destruct (entry_drops e rest) as (E0 & E8 & E16 & E20 & E24 & Eend).
  destruct (Nat.ltb_spec (24 + length (Data e) + length rest) 24); [lia|].
  rewrite E20, get4, Nat2Z.id by lia.
  destruct (Nat.ltb_spec (24 + length (Data e) + length rest) (24 + length (Data e))); [lia|].
  rewrite Eend, IH by (done || lia). rewrite E0, E8, get8, E16, get4_type, E24, take_app_length by done.
  rewrite get_put8, <- app_assoc by done. by destruct e.
Qed.

Lemma decodeEntriesBody_ok es :
  es <> [] -> Forall entry_fits es -> Z.of_nat (length (entriesPayload es)) <= max_u32 ->
  decodeEntriesBody (le_put 4 (Z.of_nat (length es)) ++ concat (entryBytes <$> es)) = Ok es.
Proof.
  intros Hne Hf Hlen. rewrite entriesPayload_eq in Hlen.
  cbn [length] in Hlen. rewrite length_app, length_le_put in Hlen. pose proof (length_entries es).
  unfold decodeEntriesBody. rewrite length_app, length_le_put.
  destruct (Nat.ltb_spec (4 + length (concat (entryBytes <$> es))) 4); [lia|].
  rewrite get4 by lia. rewrite Nat2Z.id.
  destruct (Nat.eqb_spec (length es) 0) as [E|_]; [by destruct es|].
  rewrite drop_put, decodeEntriesLoop_ok by (done || lia). done.
Qed.

Lemma rs_apply_ok r s : record_ok r -> rs_apply (payload_of r) s = Ok (apply_record s r).
Proof.
  destruct r as [hs|from|es]; intros Hok.
  - destruct Hok as [Ht Hv]. unfold rs_apply, payload_of.
    rewrite Z_of_byte_of_Z. change (recordKindHardState mod 256 =? recordKindHardState) with true.
    cbv iota. rewrite length_cons, length_app, !length_le_put.
    change (negb (Nat.eqb (S (8 + 8)) 17)) with false. cbv iota.
    change (drop 9 (?x :: ?l)) with (drop 8 l). cbn [drop]. rewrite drop_put, drop_0, get8 by done.
    rewrite take_ge, get_put8 by (done || by rewrite length_le_put). by destruct hs.
  - simpl in Hok. unfold rs_apply, payload_of.
    rewrite Z_of_byte_of_Z. change (recordKindTruncate mod 256 =? recordKindHardState) with false.
    change (recordKindTruncate mod 256 =? recordKindTruncate) with true.
    cbv iota. rewrite length_cons, !length_le_put.
    change (negb (Nat.eqb 9 9)) with false. cbv iota. cbn [drop].
    rewrite drop_0, take_ge, get_put8 by (try (by rewrite length_le_put); unfold is_u64; lia).
    destruct (Z.eqb_spec from 0); [lia|done].
  - destruct Hok as (Hne & Hf & Hlen). unfold rs_apply, payload_of.
    rewrite entriesPayload_eq, Z_of_byte_of_Z.
    change (recordKindEntries mod 256 =? recordKindHardState) with false.
    change (recordKindEntries mod 256 =? recordKindTruncate) with false.
    change (recordKindEntries mod 256 =? recordKindEntries) with true. cbv iota.
    rewrite decodeEntriesBody_ok by done. simpl. destruct es; [congruence|done].
Qed.

Lemma length_payload r : record_ok r -> Z.of_nat (length (payload_of r)) <= max_u32.
Proof.
  destruct r as [hs|from|es]; intros Hok; [..|apply Hok];
    cbn [payload_of]; rewrite length_cons, ?length_app, ?length_le_put; unfold max_u32; lia.
Qed.

(** ** Parsing *)

(** A piece of a frame that is not the whole frame. *)
Definition torn_tail (t : bytes) : Prop :=
  t = [] \/ exists r, record_ok r /\ t `prefix_of` frame_of r /\ (length t < length (frame_of r))%nat.

Lemma parseLoop_torn fuel s t off : torn_tail t -> parseLoop fuel s t off = Ok (rs_view s, off).
Proof.
  intros Ht. destruct fuel as [|fuel]; [done|]. cbn [parseLoop].
  destruct (Nat.ltb_spec (length t) recordHeaderLen) as [Hlt|Hge]; [done|].
  destruct Ht as [->|(r & Hr & [u Hu] & Hlen)]; [unfold recordHeaderLen in Hge; simpl in Hge; lia|].
  unfold recordHeaderLen in *.
  assert (take 4 t = le_put 4 (Z.of_nat (length (payload_of r)))) as E.
  { transitivity (take 4 (frame_of r)); [rewrite Hu, take_app_le by lia; done|].
    unfold frame_of, appendRecord. rewrite app_nil_l, <- app_assoc.
    apply take_app_length'. by rewrite length_le_put. }
  rewrite E, le_get_put_id; cycle 1.
  { pose proof (length_payload r Hr). change (256 ^ Z.of_nat 4) with (max_u32 + 1). lia. }
  rewrite Nat2Z.id. rewrite length_frame in Hlen.
  destruct (Nat.ltb_spec (length t) (8 + length (payload_of r))); [done|lia].
Qed.

Lemma parseLoop_frame fuel s r rest off :
  record_ok r ->
  parseLoop (S fuel) s (frame_of r ++ rest) off =
    parseLoop fuel (apply_record s r) rest (off + length (frame_of r)).
Proof.
  intros Hr. cbn [parseLoop]. rewrite length_app, length_frame.
  unfold recordHeaderLen.
  destruct (Nat.ltb_spec (8 + length (payload_of r) + length rest) 8); [lia|].
  pose proof (length_payload r Hr) as Hlen.
  assert (frame_of r ++ rest = le_put 4 (Z.of_nat (length (payload_of r))) ++
    le_put 4 (crc32c (payload_of r)) ++ payload_of r ++ rest) as E
    by (unfold frame_of, appendRecord; by rewrite app_nil_l, <- !app_assoc).
  rewrite E, get4, Nat2Z.id by lia.
  destruct (Nat.ltb_spec (8 + length (payload_of r) + length rest) (8 + length (payload_of r))); [lia|].
  assert (forall x, drop 8 (le_put 4 (Z.of_nat (length (payload_of r))) ++
    le_put 4 (crc32c (payload_of r)) ++ x) = x) as E8
    by (intros x; by rewrite (drop_put_add 4 4), drop_put).
  rewrite E8, take_app_length, drop_put, get4, Z.eqb_refl by apply crc32c_bound.
  cbn [negb]. rewrite rs_apply_ok by done. cbn [rbind]. f_equal.
  rewrite <- drop_drop, E8, drop_app_length. done.
Qed.

Lemma frames_cons r rs : frames (r :: rs) = frame_of r ++ frames rs.
Proof. done. Qed.

Lemma frames_single r : frames [r] = frame_of r.
Proof. apply app_nil_r. Qed.

Lemma frames_app rs rs' : frames (rs ++ rs') = frames rs ++ frames rs'.
Proof. unfold frames. by rewrite fmap_app, concat_app. Qed.

(** The fold of the complete records, whatever piece of another record follows. *)
Lemma parseLoop_frames rs fuel s t off :
  Forall record_ok rs -> torn_tail t -> (length rs < fuel)%nat ->
  parseLoop fuel s (frames rs ++ t) off =
    Ok (rs_view (fold_records rs s), (off + length (frames rs))%nat).
Proof.
  revert fuel s off. induction rs as [|r rs IH]; intros fuel s off Hok Ht Hf.
  - simpl. rewrite parseLoop_torn by done. by rewrite Nat.add_0_r.
  - apply Forall_cons in Hok as [Hr Hok]. destruct fuel as [|fuel]; [simpl in Hf; lia|].
    rewrite frames_cons, <- app_assoc, parseLoop_frame by done.
    rewrite IH by (try done; simpl in Hf; lia). rewrite length_app. do 2 f_equal. lia.
Qed.

Lemma length_frames rs : (length rs <= length (frames rs))%nat.
Proof.
  induction rs as [|r rs IH]; [done|]. rewrite frames_cons, length_app, length_frame, length_cons. lia.
Qed.

Lemma parseRecords_frames rs t :
  Forall record_ok rs -> torn_tail t ->
  parseRecords (frames rs ++ t) = Ok (rs_view (fold_records rs rs_init), length (frames rs)).
Proof.
  intros Hok Ht. unfold parseRecords. rewrite parseLoop_frames; [done|done|done|].
  rewrite length_app. pose proof (length_frames rs). lia.
Qed.

(** A byte prefix of some frames is a record prefix and a torn tail. *)
Lemma take_frames rs k :
  Forall record_ok rs ->
  exists j t, take k (frames rs) = frames (take j rs) ++ t /\ torn_tail t.
Proof.
  revert k. induction rs as [|r rs IH]; intros k Hok.
  { exists 0%nat, []. split; [by destruct k|by left]. }
  apply Forall_cons in Hok as [Hr Hok]. rewrite frames_cons.
  destruct (decide (length (frame_of r) <= k)%nat) as [Hle|Hgt].
  - destruct (IH (k - length (frame_of r))%nat Hok) as (j & t & E & Ht).
    exists (S j), t. split; [|done]. rewrite take_app, (take_ge (frame_of r)) by done.
    rewrite E, firstn_cons, frames_cons, app_assoc. done.
  - exists 0%nat, (take k (frame_of r)). rewrite take_app_le by lia. split; [done|]. right.
    exists r. split; [done|]. split; [apply prefix_take|]. rewrite length_take. lia.
Qed.

Lemma rs_view_eq s : rs_view s = mkMemStorage (rs_hard s) (rs_entries s).
Proof.
  unfold rs_view. destruct (rs_entries s) as [|e es] eqn:E; [done|].
  unfold mem_Save. cbn [length Nat.ltb Nat.leb fst ms_hard ms_entries NewMemStorage].
  by rewrite !cloneEntries_id.
Qed.

(** * The contract *)

Definition cs_fits (hs : option HardState) (batch : list Entry) : Prop :=
  (forall h, hs = Some h -> record_ok (RHard h)) /\ (batch <> [] -> record_ok (REntries batch)).

Lemma batch_records_ok hs batch last :
  cs_fits hs batch -> Forall record_ok (batch_records hs batch last).
Proof.
  intros [Hh Hb]. unfold batch_records. apply Forall_app. split.
  { destruct hs as [h|]; [|done]. constructor; [by apply Hh|done]. }
  destruct batch as [|e0 es]; [done|]. specialize (Hb ltac:(done)).
  apply Forall_app. split; [|by constructor].
  case_bool; [|done]. bool_to_prop. constructor; [|done]. simpl.
  destruct Hb as (_ & Hf & _). apply Forall_cons in Hf as [([? ?] & _) _]. lia.
Qed.

(** The platter of a running storage is whole records, and the view is their fold. *)
Definition cs_ok (cs : CrashStorage) : Prop :=
  crashed cs = false /\ unsynced cs = [] /\ entries_wf (ms_entries (cs_view cs)) /\
  exists rs, Forall record_ok rs /\ cs_durable cs = frames rs /\
    cs_view cs = rs_view (fold_records rs rs_init).

Lemma staged_frames hs es buf last :
  (let buf1 := match hs with Some h => appendHardStateRecord buf h | None => buf end in
   match es with
   | [] => buf1
   | e0 :: _ =>
       let b := if negb (Index e0 =? 0) && (Index e0 <=? last)
                then appendTruncateRecord buf1 (Index e0) else buf1 in
       appendEntriesRecord b es
   end) = buf ++ frames (batch_records hs es last).
Proof.
  unfold batch_records. rewrite frames_app, app_assoc.
  assert (match hs with Some h => appendHardStateRecord buf h | None => buf end =
    buf ++ frames match hs with Some h => [RHard h] | None => [] end) as ->.
  { destruct hs as [h|]; [|by rewrite app_nil_r]. rewrite frames_single. apply appendRecord_app. }
  set (b1 := buf ++ _). cbv zeta. destruct es as [|e0 es]; [by rewrite app_nil_r|].
  unfold appendEntriesRecord. rewrite appendRecord_app, frames_app, frames_single, app_assoc. f_equal.
  case_bool; [|by rewrite app_nil_r]. rewrite frames_single. apply appendRecord_app.
Qed.

Section ops.
Context (cs : CrashStorage) (Hok : cs_ok cs).
Context (hs : option HardState) (es : list Entry).
Context (Hb : batch_wf (ms_entries (cs_view cs)) es) (Hf : cs_fits hs es).

Let recs := batch_records hs es (mem_LastIndex (cs_view cs)).

(** The survivors of a crash that keeps [k] bytes of the batch parse, to a state that
    [torn] allows. *)
Lemma survivors_parse k :
  exists rs v complete,
    parseRecords (cs_durable cs ++ take k (frames recs)) = Ok (v, complete) /\
    take complete (cs_durable cs ++ take k (frames recs)) = frames rs /\
    Forall record_ok rs /\ v = rs_view (fold_records rs rs_init) /\
    (ms_hard v, ms_entries v) ∈ torn hs es (ms_hard (cs_view cs), ms_entries (cs_view cs)).
Proof using Hok Hb Hf.
  destruct Hok as (_ & _ & Hwf & rs & Hrs & Hd & Hv).
  pose proof (batch_records_ok hs es (mem_LastIndex (cs_view cs)) Hf) as Hrecs. fold recs in Hrecs.
  destruct (take_frames recs k Hrecs) as (j & t & Et & Ht).
  assert (Forall record_ok (rs ++ take j recs)) as Hall
    by (apply Forall_app; split; [done|by apply Forall_take]).
  exists (rs ++ take j recs), (rs_view (fold_records (rs ++ take j recs) rs_init)),
    (length (frames (rs ++ take j recs))).
  rewrite Hd, Et, app_assoc, <- frames_app. split_and!; try done.
  - by apply parseRecords_frames.
  - by rewrite take_app_length.
  - rewrite Hv, !rs_view_eq in *. cbn [ms_hard ms_entries] in *.
    unfold fold_records at 1 2. rewrite !foldl_app. fold (fold_records rs rs_init).
    apply (fold_batch hs es (fold_records rs rs_init) _ j Hwf Hb).
Qed.

Lemma Save_frames cs' :
  cs_Save hs es cs = (cs', None) ->
  cs_ok cs' /\ cs_view cs' = (mem_Save hs es (cs_view cs)).1.
Proof using Hok Hb Hf.
  destruct Hok as (Hcr & Hun & Hwf & rs & Hrs & Hd & Hv). unfold cs_Save.
  rewrite Hcr. destruct (armed cs) eqn:Ea; [done|].
  rewrite staged_frames, Hun, app_nil_l. fold recs.
  set (cs1 := mkCrashStorage _ _ _ _ _ _ _ _ _ _ _).
  destruct (pendingDirective (saves cs +u 1) cs1) as [cs2 dir] eqn:Ep.
  assert (crashed cs2 = false /\ cs_view cs2 = cs_view cs /\ cs_durable cs2 = frames rs /\
    unsynced cs2 = frames recs) as (E1 & E2 & E3 & E4).
  { unfold pendingDirective in Ep. destruct (directives cs1 !! next cs1) as [d|];
      [destruct (negb _)|]; injection Ep as <- _; done. }
  clearbody cs1. clear Ep. case_bool; [done|].
  assert (forall x, cs_durable x = frames rs ++ frames recs -> unsynced x = [] -> crashed x = false ->
    cs_view x = (mem_Save hs es (cs_view cs)).1 ->
    cs_ok x /\ cs_view x = (mem_Save hs es (cs_view cs)).1) as Hgo.
  { intros x X1 X2 X3 X4. split; [|done].
    destruct (@Save_spec MemStorage _ MemStorage_Spec (cs_view cs) hs es _ Hwf Hb I eq_refl) as [Hwf' Hdur'].
    split_and!; [done|done|by rewrite X4|].
    exists (rs ++ recs). rewrite frames_app. split_and!; [|done|].
    - apply Forall_app. split; [done|by apply batch_records_ok].
    - rewrite X4, rs_view_eq. unfold fold_records. rewrite foldl_app.
      fold (fold_records rs rs_init). fold (fold_records recs (fold_records rs rs_init)).
      rewrite Hv, !rs_view_eq in *. cbn [ms_entries ms_hard] in *.
      destruct (fold_batch hs es (fold_records rs rs_init) (mem_LastIndex (cs_view cs)) 0 Hwf Hb)
        as [_ Hfold]. fold recs in Hfold.
      assert (forall v, durable v = pair_of (fold_records recs (fold_records rs rs_init)) ->
        v = mkMemStorage (rs_hard (fold_records recs (fold_records rs rs_init)))
              (rs_entries (fold_records recs (fold_records rs rs_init)))) as Hv2.
      { intros [vh ve] Eq. simpl in Eq. unfold pair_of in Eq. congruence. }
      apply Hv2. etrans; [exact Hdur'|]. symmetry. exact Hfold. }
  destruct dir as [d|].
  - destruct (Point d =? CrashAfterSyncBeforeSend); [done|].
    destruct (Point d =? CrashAfterSend); intros E; injection E as <-;
      (apply Hgo; simpl; rewrite ?E1, ?E2, ?E3, ?E4; done).
  - intros E; injection E as <-. apply Hgo; simpl; rewrite ?E1, ?E2, ?E3, ?E4; done.
Qed.
End ops.

#[export] Program Instance CrashStorage_Spec : StorageSpec CrashStorage := {|
  durable cs := (ms_hard (cs_view cs), ms_entries (cs_view cs));
  store_ok := cs_ok;
  fits := cs_fits;
|}.
Next Obligation. intros cs Hok. apply Hok. Qed.
Next Obligation.
  intros cs hs batch cs' Hok Hb Hf Hs. destruct (Save_frames cs Hok hs batch Hb Hf cs' Hs) as [Hok' Hv].
  split; [done|]. rewrite Hv. destruct Hok as (_ & _ & Hwf & _).
  exact (proj2 (@Save_spec MemStorage _ MemStorage_Spec (cs_view cs) hs batch _ Hwf Hb I eq_refl)).
Qed.
Next Obligation. done. Qed.
Next Obligation.
  intros cs (_ & _ & Hwf & _). exact (@FirstIndex_spec MemStorage _ MemStorage_Spec (cs_view cs) Hwf).
Qed.
Next Obligation.
  intros cs (_ & _ & Hwf & _). exact (@LastIndex_spec MemStorage _ MemStorage_Spec (cs_view cs) Hwf).
Qed.
Next Obligation.
  intros cs lo hi (_ & _ & Hwf & _).
  exact (@Entries_spec MemStorage _ MemStorage_Spec (cs_view cs) lo hi Hwf).
Qed.

(** A directive that crashes the next [Save] before its sync and keeps [k] bytes. *)
Definition schedule_crash (k : nat) (cs : CrashStorage) : CrashStorage :=
  mkCrashStorage [mkCrashDirective 0 (saves cs +u 1) CrashBeforeSync (Z.of_nat k) false] 0 (saves cs)
    (cs_durable cs) (unsynced cs) (cs_view cs) (crashed cs) false (armedSave cs) (lastCrash cs)
    (hasCrashed cs).

(** The crash inside [Save] and the recovery after it. *)
Definition cs_crash_save (k : nat) (hs : option HardState) (es : list Entry) (cs : CrashStorage)
    : CrashStorage :=
  (Recover (cs_Save hs es (schedule_crash k cs)).1).1.

Definition cs_reopen (cs : CrashStorage) : CrashStorage := (Recover (cs_Crash cs).1).1.

Lemma cs_crash_fields save point retain cs :
  crashed (cs_crash save point retain cs) = true /\
  unsynced (cs_crash save point retain cs) = [] /\
  exists k, cs_durable (cs_crash save point retain cs) = cs_durable cs ++ take k (unsynced cs) /\
    (0 <= retain -> k = Z.to_nat (Z.min retain (Z.of_nat (length (unsynced cs))))).
Proof.
  unfold cs_crash. cbn [crashed unsynced cs_durable]. split_and!; try done.
  eexists. split; [done|]. intros Hr. unfold RetainAllUnsynced.
  case_bool; bool_to_prop; [lia|]. destruct_or!; bool_to_prop; lia.
Qed.

Lemma Recover_parsed cs v complete :
  crashed cs = true -> parseRecords (cs_durable cs) = Ok (v, complete) ->
  let cs' := (Recover cs).1 in
  crashed cs' = false /\ cs_durable cs' = take complete (cs_durable cs) /\ cs_view cs' = v /\
  unsynced cs' = unsynced cs /\ (Recover cs).2 = None.
Proof. intros Hc Hp. unfold Recover. rewrite Hc, Hp. done. Qed.

(** After the crash at any byte and the recovery, the storage is well formed and holds a
    record prefix of the batch. *)
Lemma crash_save_ok k hs batch cs :
  cs_ok cs -> batch_wf (ms_entries (cs_view cs)) batch -> cs_fits hs batch ->
  let cs' := cs_crash_save k hs batch cs in
  cs_ok cs' /\
  (ms_hard (cs_view cs'), ms_entries (cs_view cs')) ∈
    torn hs batch (ms_hard (cs_view cs), ms_entries (cs_view cs)).
Proof.
  intros Hok Hb Hf cs'. pose proof Hok as (Hcr & Hun & Hwf & _).
  unfold cs', cs_crash_save, cs_Save, schedule_crash. cbn [crashed armed].
  rewrite Hcr. cbv zeta. cbn [unsynced cs_view]. rewrite staged_frames, Hun, app_nil_l.
  unfold pendingDirective. cbn [directives next lookup list_lookup cd_Save saves]. rewrite Z.eqb_refl.
  cbn [negb Point]. change (CrashBeforeSync =? CrashBeforeSync) with true. cbv iota.
  cbn [fst RetainUnsynced].
  match goal with |- context [cs_crash ?a ?b ?c ?x] => set (x0 := x); set (y := cs_crash a b c x0) end.
  destruct (cs_crash_fields (saves cs +u 1) CrashBeforeSync (Z.of_nat k) x0) as (Y1 & Y2 & k' & Y3 & _).
  fold y in Y1, Y2, Y3. cbn [cs_durable unsynced x0] in Y3.
  destruct (survivors_parse cs Hok hs batch Hb Hf k') as (rs & v & complete & P1 & P2 & P3 & P4 & P5).
  rewrite <- Y3 in P1, P2.
  destruct (Recover_parsed y v complete Y1 P1) as (R1 & R2 & R3 & R4 & _).
  rewrite R3. split; [|done]. split_and!; [done|by rewrite R4| |].
  - rewrite R3. apply (torn_wf hs batch _ _) in P5; [done|done|done].
  - exists rs. by rewrite R2, R3.
Qed.

Lemma reopen_ok cs :
  cs_ok cs -> cs_ok (cs_reopen cs) /\ cs_view (cs_reopen cs) = cs_view cs.
Proof.
  intros (Hcr & Hun & Hwf & rs & Hrs & Hd & Hv). unfold cs_reopen, cs_Crash. rewrite Hcr. cbn [fst].
  set (y := cs_crash _ _ _ _).
  destruct (cs_crash_fields (saves cs) CrashHostInitiated 0 cs) as (Y1 & Y2 & k' & Y3 & _).
  fold y in Y1, Y2, Y3. rewrite Hun, take_nil, app_nil_r, Hd in Y3.
  assert (parseRecords (cs_durable y) = Ok (rs_view (fold_records rs rs_init), length (frames rs))) as P.
  { rewrite Y3, <- (app_nil_r (frames rs)). rewrite parseRecords_frames; [|done|by left].
    by rewrite app_nil_r. }
  destruct (Recover_parsed y _ _ Y1 P) as (R1 & R2 & R3 & R4 & _).
  split; [|congruence]. split_and!; [done|by rewrite R4|by rewrite R3, <- Hv|].
  exists rs. rewrite R2, Y3, firstn_all, R3. done.
Qed.

#[export] Program Instance CrashStorage_Safe : CrashSafe CrashStorage := {|
  crash_save := cs_crash_save;
  reopen := cs_reopen;
|}.
Next Obligation. intros k hs batch cs Hok Hb Hf. by apply crash_save_ok. Qed.
Next Obligation.
  intros cs Hok. destruct (reopen_ok cs Hok) as [? E]. split; [done|]. simpl. by rewrite E.
Qed.
