(* ===== verification/Safety.v ===== *)
(** The safety of the cluster: the guarantees that follow from its refinement of the
    abstract protocol (Cluster.v), over any storage that keeps the contracts of
    Storage.v, and a run of a three-node cluster over the crash-model storage. *)

From stdpp Require Import functions.
From S2P Require Import Prelude Proto RaftLog RaftNode RaftSpec Storage Server NodeFacts HostFacts Cluster Bytes CrashStorage.

(** The cluster's configuration: distinct non-zero members, each configured with its own
    identifier and the same membership. *)
Definition cluster_cfg (cfgs : Z -> Config) (ids : list Z) : Prop :=
  NoDup ids /\ Z.of_nat (length ids) <= max_i64 /\
  forall i, i ∈ ids -> ID (cfgs i) = i /\ Peers (cfgs i) ≡ₚ ids /\ i <> 0.

(** The entries a host has handed to its state machine since it started. *)
Definition applied {S} (h : Host S (list Entry)) : list Entry := default [] (h_Applier h).

Section safety.
Context {S : Type} `{CrashSafe S} (cfgs : Z -> Config) (ids : list Z).

Lemma reach_CI (c : cluster (S := S)) :
  cluster_cfg cfgs ids -> creach cfgs ids c -> exists s, rtc (astep ids) ainit s /\ CI ids s c.
Proof. intros (Hnd & Hlen & Hcfg) Hc. by eapply cluster_refines. Qed.

Lemma CI_leader s (c : cluster (S := S)) i :
  CI ids s c -> i ∈ ids -> role (h_Node (hosts c i)) = leader ->
  g_leader s (hs_Term (hardState (h_Node (hosts c i)))) = Some i /\
  entries (log (h_Node (hosts c i))) = g_tlog s (hs_Term (hardState (h_Node (hosts c i)))).
Proof.
  intros HC Hi Hr. destruct (ci_hosts _ _ _ HC i Hi) as [_ _ HN _ _ _ _ _].
  pose proof (ni_role HN) as Hro. unfold role_ok in Hro. rewrite Hr in Hro.
  destruct Hro as (Hl & Htl & _). rewrite (ni_term HN), (ni_log HN). done.
Qed.

Lemma CI_applied s (c : cluster (S := S)) i :
  CI ids s c -> i ∈ ids ->
  applied (hosts c i) = toEntry <$> take (Z.to_nat (lastApplied (h_Node (hosts c i)))) (a_log s i).
Proof.
  intros HC Hi. destruct (ci_hosts _ _ _ HC i Hi) as [_ _ _ _ _ _ Ha _]. unfold applied. by rewrite Ha.
Qed.

(** What two hosts applied is comparable. *)
Lemma CI_comparable s (c : cluster (S := S)) i j :
  CI ids s c -> i ∈ ids -> j ∈ ids ->
  applied (hosts c i) `prefix_of` applied (hosts c j) \/
  applied (hosts c j) `prefix_of` applied (hosts c i).
Proof.
  intros HC Hi Hj.
  rewrite !(CI_applied s c) by done.
  destruct (ni_applied (hi_ni _ _ _ _ (ci_hosts _ _ _ HC i Hi))) as [_ Pi].
  destruct (ni_applied (hi_ni _ _ _ _ (ci_hosts _ _ _ HC j Hj))) as [_ Pj].
  set (a := Z.to_nat _) in Pi. set (b := Z.to_nat _) in Pj. fold a b.
  pose proof (ci_inv _ _ _ HC) as Hinv.
  destruct (decide (a <= b)%nat) as [Hab|Hab]; [left|right].
  - rewrite (cprefix_agree _ _ _ _ _ _ _ _ Hinv Pi Pj Hab). rewrite !fmap_take. by apply take_prefix_le.
  - rewrite (cprefix_agree _ _ _ _ _ _ _ _ Hinv Pj Pi) by lia. rewrite !fmap_take. apply take_prefix_le. lia.
Qed.

End safety.

(** C2. Election safety: in every reachable state of the cluster, whatever was lost,
    duplicated, reordered or crashed, two leaders of the same term are the same node. *)
Theorem election_safety {S} `{CrashSafe S} (cfgs : Z -> Config) (ids : list Z) (c : cluster (S := S)) :
  cluster_cfg cfgs ids -> creach cfgs ids c ->
  forall i j, i ∈ ids -> j ∈ ids ->
    role (h_Node (hosts c i)) = leader -> role (h_Node (hosts c j)) = leader ->
    hs_Term (hardState (h_Node (hosts c i))) = hs_Term (hardState (h_Node (hosts c j))) -> i = j.
Proof.
  intros Hcfg Hc i j Hi Hj Ri Rj Et. destruct (reach_CI cfgs ids c Hcfg Hc) as (s & _ & HC).
  destruct (CI_leader ids s c i HC Hi Ri) as [Li _], (CI_leader ids s c j HC Hj Rj) as [Lj _].
  rewrite Et in Li. congruence.
Qed.

(** C4. Log matching: if the logs of two nodes hold entries of the same term at the same
    position, the logs are equal up to that position. *)
Theorem log_matching {S} `{CrashSafe S} (cfgs : Z -> Config) (ids : list Z) (c : cluster (S := S)) :
  cluster_cfg cfgs ids -> creach cfgs ids c ->
  forall i j k e e', i ∈ ids -> j ∈ ids ->
    entries (log (h_Node (hosts c i))) !! k = Some e ->
    entries (log (h_Node (hosts c j))) !! k = Some e' -> term e = term e' ->
    take (Datatypes.S k) (entries (log (h_Node (hosts c i)))) =
    take (Datatypes.S k) (entries (log (h_Node (hosts c j)))).
Proof.
  intros Hcfg Hc i j k e e' Hi Hj Ei Ej Et. destruct (reach_CI cfgs ids c Hcfg Hc) as (s & _ & HC).
  rewrite (ni_log (hi_ni _ _ _ _ (ci_hosts _ _ _ HC i Hi))) in *.
  rewrite (ni_log (hi_ni _ _ _ _ (ci_hosts _ _ _ HC j Hj))) in *.
  pose proof (ci_inv _ _ _ HC) as Hinv.
  eapply logok_matching; [apply (inv_log _ _ Hinv i)|apply (inv_log _ _ Hinv j)|done..].
Qed.

(** C3. Leader completeness: what any node considers committed is in the log of every
    leader of the same or a later term. *)
Theorem leader_has_committed {S} `{CrashSafe S} (cfgs : Z -> Config) (ids : list Z) (c : cluster (S := S)) :
  cluster_cfg cfgs ids -> creach cfgs ids c ->
  forall i j, i ∈ ids -> j ∈ ids -> role (h_Node (hosts c j)) = leader ->
    hs_Term (hardState (h_Node (hosts c i))) <= hs_Term (hardState (h_Node (hosts c j))) ->
    let k := Z.to_nat (commitIndex (h_Node (hosts c i))) in
    (k <= length (entries (log (h_Node (hosts c i)))))%nat /\
    take k (entries (log (h_Node (hosts c i)))) = take k (entries (log (h_Node (hosts c j)))).
Proof.
  intros Hcfg Hc i j Hi Hj Rj Hle k. destruct (reach_CI cfgs ids c Hcfg Hc) as (s & _ & HC).
  pose proof (hi_ni _ _ _ _ (ci_hosts _ _ _ HC i Hi)) as HNi.
  destruct (CI_leader ids s c j HC Hj Rj) as [Lj ->].
  destruct (ni_commit HNi) as [_ Hcp]. fold k in Hcp. rewrite (ni_log HNi), (ni_term HNi) in *.
  split; [apply Hcp|]. eapply cprefix_in_leader; [apply (ci_inv _ _ _ HC)| |by eexists].
  eapply cprefix_mono; [apply gext_refl|exact Hle|done|exact Hcp].
Qed.

(** C5. The cluster refines the abstract protocol: every reachable state of the
    implementation is an implementation of a state that the protocol's steps reach, in
    which the term, vote and log of each node are what its storage holds. *)
Theorem cluster_refinement {S} `{CrashSafe S} (cfgs : Z -> Config) (ids : list Z) (c : cluster (S := S)) :
  cluster_cfg cfgs ids -> creach cfgs ids c ->
  exists s, rtc (astep ids) ainit s /\
    forall i, i ∈ ids ->
      durable (h_Storage (hosts c i)) = (mkHardState (a_term s i) (a_vote s i), toEntry <$> a_log s i) /\
      (role (h_Node (hosts c i)) = leader -> g_leader s (a_term s i) = Some i).
Proof.
  intros Hcfg Hc. destruct (reach_CI cfgs ids c Hcfg Hc) as (s & R & HC). exists s. split; [done|].
  intros i Hi. destruct (ci_hosts _ _ _ HC i Hi) as [_ Hd HN _ _ _ _ _].
  rewrite Hd, <- (ni_term HN), <- (ni_vote HN). split; [by destruct (hardState _)|].
  intros Hr. by apply (CI_leader ids s c i HC Hi Hr).
Qed.

(** C9. Between inputs a host's memory is exactly what its storage would give back, and
    it has nothing left to send or persist. *)
Theorem host_persisted {S} `{CrashSafe S} (cfgs : Z -> Config) (ids : list Z) (c : cluster (S := S)) :
  cluster_cfg cfgs ids -> creach cfgs ids c ->
  forall i, i ∈ ids ->
    let n := h_Node (hosts c i) in
    durable (h_Storage (hosts c i)) = (hardState n, toEntry <$> entries (log n)) /\
    r_HardState (readyWithoutCapture n) = None /\ r_Entries (readyWithoutCapture n) = [] /\
    r_Messages (readyWithoutCapture n) = [].
Proof.
  intros Hcfg Hc i Hi n. destruct (reach_CI cfgs ids c Hcfg Hc) as (s & _ & HC).
  destruct (ci_hosts _ _ _ HC i Hi) as [_ Hd HN Hrest Hm Hcl _ _]. fold n in Hd, HN, Hrest, Hm, Hcl.
  split_and!.
  - by rewrite Hd, (ni_log HN).
  - simpl. by rewrite Hcl.
  - rewrite (ready_entries _ _ _ _ _ _ HN). unfold at_rest in Hrest. rewrite (ni_log HN) in Hrest.
    rewrite drop_ge by lia. done.
  - done.
Qed.

(** C7. Persist before send, for votes: once a vote is in the network, the voter's storage
    holds a later term, or the same term with that vote; no crash makes it forget. *)
Theorem votes_durable {S} `{CrashSafe S} (cfgs : Z -> Config) (ids : list Z) (c : cluster (S := S)) :
  cluster_cfg cfgs ids -> creach cfgs ids c ->
  forall m resp, m ∈ net c -> From m ∈ ids ->
    m_Body m = Some (Message_RequestVoteResp resp) -> rvr_VoteGranted resp = true ->
    let hs := (durable (h_Storage (hosts c (From m)))).1 in
    m_Term m < hs_Term hs \/ (m_Term m = hs_Term hs /\ VotedFor hs = To m).
Proof.
  intros Hcfg Hc m resp Hm Hf Hb Hg hs. destruct (reach_CI cfgs ids c Hcfg Hc) as (s & _ & HC).
  pose proof (ci_net _ _ _ HC) as Hn. rewrite Forall_forall in Hn.
  destruct (Hn m Hm) as (_ & b & Hb' & Hok). rewrite Hb in Hb'. injection Hb' as <-.
  destruct Hok as [_ Hv]. destruct (Hv Hg) as [L HL].
  destruct (inv_vote _ _ (ci_inv _ _ _ HC) _ _ _ _ HL) as (HT & _ & Hcur & _).
  destruct (ci_hosts _ _ _ HC _ Hf) as [_ Hd HN _ _ _ _ _].
  unfold hs. rewrite Hd. cbn [fst]. rewrite (ni_term HN), (ni_vote HN).
  destruct (decide (m_Term m = a_term s (From m))); [right; auto|left; lia].
Qed.

(** C8. Persist before send, for replication: once a success reply is in the network, and
    while the replier's stored term is the reply's term, its storage holds the
    acknowledged prefix of the leader's log. *)
Theorem acks_durable {S} `{CrashSafe S} (cfgs : Z -> Config) (ids : list Z) (c : cluster (S := S)) :
  cluster_cfg cfgs ids -> creach cfgs ids c ->
  forall m resp j, m ∈ net c -> From m ∈ ids -> j ∈ ids ->
    m_Body m = Some (Message_AppendEntriesResp resp) -> aer_Success resp = true ->
    let d := durable (h_Storage (hosts c (From m))) in
    hs_Term d.1 = m_Term m -> role (h_Node (hosts c j)) = leader ->
    hs_Term (hardState (h_Node (hosts c j))) = m_Term m ->
    let k := Z.to_nat (aer_MatchIndex resp) in
    (k <= length d.2)%nat /\ take k d.2 = take k (toEntry <$> entries (log (h_Node (hosts c j)))).
Proof.
  intros Hcfg Hc m resp j Hm Hf Hj Hb Hg d HT Rj Tj k.
  destruct (reach_CI cfgs ids c Hcfg Hc) as (s & _ & HC).
  pose proof (ci_net _ _ _ HC) as Hn. rewrite Forall_forall in Hn.
  destruct (Hn m Hm) as (_ & b & Hb' & Hok). rewrite Hb in Hb'. injection Hb' as <-.
  destruct Hok as [_ Hv]. destruct (Hv Hg) as [_ Hack]. fold k in Hack.
  destruct (inv_ack _ _ (ci_inv _ _ _ HC) _ _ _ Hack) as (_ & Hlen & _ & Hok).
  destruct (ci_hosts _ _ _ HC _ Hf) as [_ Hd HN _ _ _ _ _]. fold d in Hd.
  destruct (CI_leader ids s c j HC Hj Rj) as [_ Hl]. rewrite Tj in Hl.
  rewrite Hd in *. cbn [fst snd] in *. rewrite (ni_term HN) in HT. rewrite Hl.
  destruct (Hok k ltac:(lia)) as [Hp|(T' & HT' & _)]; [|lia].
  rewrite length_fmap, <- !fmap_take.
  pose proof (prefix_length _ _ Hp) as Hpl. rewrite length_take in Hpl. split; [lia|].
  f_equal. by apply take_prefix_iff.
Qed.

Lemma CI_mono {S} `{CrashSafe S} cfgs ids s (c c' : cluster (S := S)) :
  cluster_cfg cfgs ids -> CI ids s c -> cstep cfgs ids c c' ->
  exists s', CI ids s' c' /\ gext s s'.
Proof.
  intros (Hnd & Hlen & Hcfg) HC Hs.
  destruct (CI_step cfgs ids Hnd Hlen Hcfg s c c' HC Hs) as (s' & R & HC'). exists s'. split; [done|].
  by apply (asteps_inv ids s s' (ci_inv _ _ _ HC)).
Qed.

(** A node never votes twice in a term: in every step, crashes included, the stored
    term of a node never decreases, and a vote stored for a term is never changed in it. *)
Theorem stored_vote_stable {S} `{CrashSafe S} (cfgs : Z -> Config) (ids : list Z) (c c' : cluster (S := S)) :
  cluster_cfg cfgs ids -> creach cfgs ids c -> cstep cfgs ids c c' ->
  forall i, i ∈ ids ->
    let hs := (durable (h_Storage (hosts c i))).1 in
    let hs' := (durable (h_Storage (hosts c' i))).1 in
    hs_Term hs <= hs_Term hs' /\
    (hs_Term hs' = hs_Term hs -> VotedFor hs <> 0 -> VotedFor hs' = VotedFor hs).
Proof.
  intros Hcfg Hc Hs i Hi hs hs'. destruct (reach_CI cfgs ids c Hcfg Hc) as (s & _ & HC).
  destruct (CI_mono cfgs ids s c c' Hcfg HC Hs) as (s' & HC' & Hx).
  unfold hs, hs'. destruct (ci_hosts _ _ _ HC i Hi) as [_ -> HN _ _ _ _ _].
  destruct (ci_hosts _ _ _ HC' i Hi) as [_ -> HN' _ _ _ _ _]. cbn [fst].
  rewrite (ni_term HN), (ni_vote HN), (ni_term HN'), (ni_vote HN').
  split; [apply (gx_term _ _ Hx)|]. intros Et Hv.
  destruct (inv_voted _ _ (ci_inv _ _ _ HC) i Hv) as [L HL]. apply (gx_votes _ _ Hx) in HL.
  destruct (inv_vote _ _ (ci_inv _ _ _ HC') _ _ _ _ HL) as (_ & _ & Hcur & _). auto.
Qed.

Lemma CI_run {S} `{CrashSafe S} cfgs ids s (c c' : cluster (S := S)) :
  cluster_cfg cfgs ids -> CI ids s c -> rtc (cstep cfgs ids) c c' ->
  exists s', CI ids s' c' /\ gext s s'.
Proof.
  intros Hcfg HC Hs. revert s HC. induction Hs as [c|c1 c2 c3 H12 _ IH]; intros s HC.
  { exists s. split; [done|apply gext_refl]. }
  destruct (CI_mono cfgs ids s c1 c2 Hcfg HC H12) as (s2 & HC2 & Hx).
  destruct (IH s2 HC2) as (s3 & HC3 & Hx3). exists s3. split; [done|by eapply gext_trans].
Qed.

(** C6. Durability of applied entries: what a state machine has applied at some moment is
    in the log of every leader of the same or a later term at every later moment. *)
Theorem applied_never_lost {S} `{CrashSafe S} (cfgs : Z -> Config) (ids : list Z) (c c' : cluster (S := S)) :
  cluster_cfg cfgs ids -> creach cfgs ids c -> rtc (cstep cfgs ids) c c' ->
  forall i j, i ∈ ids -> j ∈ ids -> role (h_Node (hosts c' j)) = leader ->
    hs_Term (hardState (h_Node (hosts c i))) <= hs_Term (hardState (h_Node (hosts c' j))) ->
    applied (hosts c i) `prefix_of` (toEntry <$> entries (log (h_Node (hosts c' j)))).
Proof.
  intros Hcfg Hc Hs i j Hi Hj Rj Hle. destruct (reach_CI cfgs ids c Hcfg Hc) as (s & _ & HC).
  destruct (CI_run cfgs ids s c c' Hcfg HC Hs) as (s' & HC' & Hx).
  pose proof (hi_ni _ _ _ _ (ci_hosts _ _ _ HC i Hi)) as HNi.
  destruct (CI_leader ids s' c' j HC' Hj Rj) as [Lj ->].
  rewrite (CI_applied ids s c i HC Hi). destruct (ni_applied HNi) as [_ Hcp].
  rewrite (ni_term HNi) in Hle. set (k := Z.to_nat _) in *.
  apply (cprefix_mono _ _ s' _ _ _ (a_log s i) _ Hx Hle eq_refl) in Hcp.
  rewrite (cprefix_in_leader _ _ _ _ _ (ci_inv _ _ _ HC') Hcp ltac:(by eexists)).
  rewrite fmap_take. apply prefix_take.
Qed.

(** C1. State machine safety: the sequences of entries that the state machines of any two
    nodes have applied, at the same moment of a run or at two, with any losses, crashes and
    restarts before and between, never disagree on a position: one is a prefix of the other. *)
Theorem applied_agree_over_time {S} `{CrashSafe S} (cfgs : Z -> Config) (ids : list Z) (c c' : cluster (S := S)) :
  cluster_cfg cfgs ids -> creach cfgs ids c -> rtc (cstep cfgs ids) c c' ->
  forall i j, i ∈ ids -> j ∈ ids ->
    applied (hosts c i) `prefix_of` applied (hosts c' j) \/
    applied (hosts c' j) `prefix_of` applied (hosts c i).
Proof.
  intros Hcfg Hc Hs i j Hi Hj. destruct (reach_CI cfgs ids c Hcfg Hc) as (s & _ & HC).
  destruct (CI_run cfgs ids s c c' Hcfg HC Hs) as (s' & HC' & Hx).
  rewrite (CI_applied ids s c i HC Hi), (CI_applied ids s' c' j HC' Hj).
  destruct (ni_applied (hi_ni _ _ _ _ (ci_hosts _ _ _ HC i Hi))) as [_ Pi].
  destruct (ni_applied (hi_ni _ _ _ _ (ci_hosts _ _ _ HC' j Hj))) as [_ Pj].
  set (a := Z.to_nat _) in Pi. set (b := Z.to_nat _) in Pj. fold a b.
  apply (cprefix_mono _ _ s' _ _ _ (a_log s i) _ Hx (Z.le_refl _) eq_refl) in Pi.
  pose proof (ci_inv _ _ _ HC') as Hinv.
  destruct (decide (a <= b)%nat) as [Hab|Hab]; [left|right].
  - rewrite (cprefix_agree _ _ _ _ _ _ _ _ Hinv Pi Pj Hab). rewrite !fmap_take. by apply take_prefix_le.
  - rewrite (cprefix_agree _ _ _ _ _ _ _ _ Hinv Pj Pi) by lia. rewrite !fmap_take. apply take_prefix_le. lia.
Qed.
