(* ===== verification/Runs.v ===== *)
(** Executable runs of a three-node cluster: an executor that runs a list of actions over any
    storage whose format check is decidable, and runs of it over the crash-model storage, with
    an election, a proposal that is replicated and applied, a crash inside [Save] and a
    restart.  They show that the hypotheses of the safety theorems are met by states in which
    something happened. *)

From stdpp Require Import functions.
From S2P Require Import Prelude Proto RaftLog RaftNode RaftSpec Storage Server NodeFacts HostFacts Cluster Bytes WalRecords CrashStorage Safety.

(** * Deciding the guards of a step *)

#[export] Instance is_u64_dec z : Decision (is_u64 z).
Proof. unfold is_u64. apply _. Defined.
#[export] Instance type_ok_dec t : Decision (type_ok t).
Proof. destruct t; simpl; apply _. Defined.
#[export] Instance entry_fits_dec e : Decision (entry_fits e).
Proof. unfold entry_fits. apply _. Defined.

#[export] Instance has_room_dec n : Decision (has_room n).
Proof. unfold has_room. apply _. Defined.


(** A storage whose format check can be run. *)
Class Executable (S : Type) `{StorageSpec S} : Type := {
  fits_b : option HardState -> list Entry -> bool;
  fits_b_sound hs es : fits_b hs es = true -> fits hs es;
}.

Definition is_some {A} (o : option A) : bool := match o with Some _ => true | None => false end.

Definition demo_ids : list Z := [1; 2; 3].
Definition demo_cfgs (i : Z) : Config := mkConfig i demo_ids 1 1 1.

Lemma demo_cfg_ok : cluster_cfg demo_cfgs demo_ids.
Proof.
  split_and!.
  - apply (bool_decide_eq_true_1 (NoDup demo_ids)). reflexivity.
  - unfold max_i64. simpl. lia.
  - intros i Hi. split_and!; [done|done|]. intros ->. vm_compute in Hi.
    repeat (apply elem_of_cons in Hi as [Hi|Hi]; [done|]). by apply elem_of_nil in Hi.
Qed.

Inductive action : Type :=
  | AEvent (i : Z) (ev : event)
  | ADeliver (k : nat)                 (* the k-th message ever sent, to its addressee *)
  | ACrash (i : Z) (ev : event) (k : nat)
  | ARestart (i : Z).

Section exec.
Context {S : Type} `{CrashSafe S} `{!Executable S}.
Notation demo_cluster := (cluster (S := S)).

#[export] Instance deliverable_dec (c : demo_cluster) i ev : Decision (deliverable c i ev).
Proof. destruct ev; simpl; apply _. Defined.

(** [NewRecoveredNode] and the host around it; [None] when recovery fails. *)
Definition exec_boot (i : Z) (st : S) : option (Host S (list Entry)) :=
  match NewRecoveredNode (demo_cfgs i) (Some st) None with
  | Ok n => Some (mkHost n st (Some []) i None 0)
  | Err _ => None
  end.

Definition set_host (c : demo_cluster) (i : Z) h sent : demo_cluster :=
  mkCluster (<[i := h]> (hosts c)) (net c ++ sent).

Definition exec_event (c : demo_cluster) (i : Z) (ev : event) : option demo_cluster :=
  let ready := readyWithoutCapture (node_event ev (h_Node (hosts c i))) in
  if bool_decide (i ∈ demo_ids) && bool_decide (deliverable c i ev) &&
     bool_decide (has_room (h_Node (hosts c i))) && fits_b (r_HardState ready) (r_Entries ready)
  then match host_event ev (hosts c i) with
       | (h', sent, None) => Some (set_host c i h' sent)
       | _ => None
       end
  else None.

Definition exec (c : demo_cluster) (a : action) : option demo_cluster :=
  match a with
  | AEvent i ev => exec_event c i ev
  | ADeliver k => match net c !! k with Some m => exec_event c (To m) (EvDeliver m) | None => None end
  | ACrash i ev k =>
      let ready := readyWithoutCapture (node_event ev (h_Node (hosts c i))) in
      if bool_decide (i ∈ demo_ids) && bool_decide (deliverable c i ev) &&
         bool_decide (has_room (h_Node (hosts c i))) && fits_b (r_HardState ready) (r_Entries ready)
      then match exec_boot i (crash_save k (r_HardState ready) (r_Entries ready) (h_Storage (hosts c i))) with
           | Some h' => Some (mkCluster (<[i := h']> (hosts c)) (net c))
           | None => None
           end
      else None
  | ARestart i =>
      if bool_decide (i ∈ demo_ids)
      then match exec_boot i (reopen (h_Storage (hosts c i))) with
           | Some h' => Some (mkCluster (<[i := h']> (hosts c)) (net c))
           | None => None
           end
      else None
  end.

Fixpoint run (c : demo_cluster) (l : list action) : option demo_cluster :=
  match l with
  | [] => Some c
  | a :: l' => match exec c a with Some c' => run c' l' | None => None end
  end.

Lemma exec_boot_sound i st h : exec_boot i st = Some h -> boot demo_cfgs i st None h.
Proof. unfold exec_boot. case_match eqn:E; [|done]. intros Eq. simplify_eq. by eexists. Qed.

Lemma exec_event_sound c i ev c' : exec_event c i ev = Some c' -> cstep demo_cfgs demo_ids c c'.
Proof.
  unfold exec_event. cbv zeta. destruct (_ && _)%bool eqn:Eb; [|done].
  apply andb_true_iff in Eb as [[[E1 E2]%andb_true_iff E3]%andb_true_iff E4]. bool_to_prop.
  destruct (host_event ev (hosts c i)) as [[h' sent] [e|]] eqn:Ee; [done|]. intros E. injection E as <-.
  eapply c_event; eauto. by apply fits_b_sound.
Qed.

Lemma exec_sound c a c' : exec c a = Some c' -> cstep demo_cfgs demo_ids c c'.
Proof.
  destruct a as [i ev|k|i ev k|i]; cbn [exec].
  - apply exec_event_sound.
  - destruct (net c !! k) as [m|]; [apply exec_event_sound|done].
  - cbv zeta. destruct (_ && _)%bool eqn:Eb; [|done].
    apply andb_true_iff in Eb as [[[E1 E2]%andb_true_iff E3]%andb_true_iff E4]. bool_to_prop.
    case_match eqn:E; [|done]. intros Eq. injection Eq as <-.
    eapply c_crash_in_save; eauto; [by apply fits_b_sound|by apply exec_boot_sound].
  - case_bool; [|done]. bool_to_prop. case_match eqn:E; [|done]. intros Eq. injection Eq as <-.
    eapply c_restart; [done|by apply exec_boot_sound].
Qed.

Lemma run_sound l c c' : run c l = Some c' -> rtc (cstep demo_cfgs demo_ids) c c'.
Proof.
  revert c. induction l as [|a l IH]; intros c E; simpl in E; [by simplify_eq|].
  destruct (exec c a) as [c1|] eqn:Ea; [|done]. eapply rtc_l; [by eapply exec_sound|by apply IH].
Qed.


Definition after (c : demo_cluster) (l : list action) : demo_cluster := default c (run c l).

Lemma after_steps c l : is_some (run c l) = true -> rtc (cstep demo_cfgs demo_ids) c (after c l).
Proof. unfold after. destruct (run c l) as [c'|] eqn:E; [|done]. intros _. by apply (run_sound l). Qed.

(** The cluster of three processes started on copies of a storage. *)
Definition start (st : S) : demo_cluster :=
  mkCluster (fun i =>
    default (mkHost (NewNode (demo_cfgs i) (mkInitialState (mkHardState 0 0) [] (mkSnapshotMeta 0 0)) None)
               st (Some []) i None 0) (exec_boot i st)) [].

Lemma start_init st :
  store_ok st -> durable st = (mkHardState 0 0, []) ->
  Forall (fun i => is_some (exec_boot i st) = true) demo_ids -> cinit demo_cfgs demo_ids (start st).
Proof.
  intros Hok Hd Hb. split; [done|]. intros i Hi. exists st, None. split_and!; [done..|].
  apply exec_boot_sound. rewrite Forall_forall in Hb. specialize (Hb i Hi). simpl.
  by destruct (exec_boot i st).
Qed.
End exec.

(** An election, a proposal and a crash, as actions.  Node 1 is elected with node 2's
    vote, proposes, replicates to node 2 and commits; node 2 learns the commit. *)
Definition run1 : list action :=
  [AEvent 1 EvTick; ADeliver 0; ADeliver 2; ADeliver 3; ADeliver 5;
   AEvent 1 (EvPropose [Byte.x2a]); ADeliver 6; ADeliver 7; ADeliver 8; ADeliver 9; ADeliver 10].

(** Then node 2 stands for term 2; node 3 crashes with half of its vote's record on the
    platter, restarts, gets the request again, and elects node 2 beside the old leader. *)
Definition vote_request : Message :=
  mkMessage 2 3 2 (Some (Message_RequestVote (mkRequestVoteReq 2 2 2 1))).

Definition run2 : list action :=
  [AEvent 2 EvTick; ACrash 3 (EvDeliver vote_request) 12; ADeliver 13; ADeliver 14].


Ltac in_demo := apply (bool_decide_eq_true_1 (_ ∈ _)); vm_compute; reflexivity.

#[export] Instance record_ok_dec r : Decision (record_ok r).
Proof. destruct r; simpl; apply _. Defined.

Definition cs_fits_b (hs : option HardState) (es : list Entry) : bool :=
  match hs with Some h => bool_decide (record_ok (RHard h)) | None => true end &&
  match es with [] => true | _ => bool_decide (record_ok (REntries es)) end.

Lemma cs_fits_b_sound hs es : cs_fits_b hs es = true -> cs_fits hs es.
Proof.
  unfold cs_fits_b. intros [H1 H2]%andb_true_iff. split.
  - intros h ->. by bool_to_prop.
  - intros Hne. destruct es; [done|]. by bool_to_prop.
Qed.

#[export] Instance CrashStorage_Executable : Executable CrashStorage := {| fits_b_sound := cs_fits_b_sound |}.

Definition demo_store : CrashStorage :=
  match NewCrashStorage 0 [] with
  | Ok st => st
  | Err _ => mkCrashStorage [] 0 0 [] [] NewMemStorage false false 0 (mkCrashInfo 0 0 0 0) false
  end.

Notation demo_cluster := (cluster (S := CrashStorage)).

Definition demo_init : demo_cluster := start demo_store.

Lemma demo_store_ok : store_ok demo_store /\ durable demo_store = (mkHardState 0 0, []).
Proof.
  split; [|done]. unfold store_ok, CrashStorage_Spec, cs_ok. split; [done|]. split; [done|]. split.
  - split; [by intros ? ? ?|done].
  - by exists [].
Qed.

Lemma demo_cinit : cinit demo_cfgs demo_ids demo_init.
Proof. destruct demo_store_ok as [Hok Hd]. apply start_init; [done..|]. repeat constructor. Qed.

(** * Two runs *)

Definition state1 : demo_cluster := after demo_init run1.
Definition state2 : demo_cluster := after state1 run2.

Lemma state1_reach : creach demo_cfgs demo_ids state1.
Proof. exists demo_init. split; [apply demo_cinit|]. apply after_steps. vm_compute. reflexivity. Qed.

Lemma state1_state2 : rtc (cstep demo_cfgs demo_ids) state1 state2.
Proof. apply after_steps. vm_compute. reflexivity. Qed.

Lemma state2_reach : creach demo_cfgs demo_ids state2.
Proof.
  destruct state1_reach as (c0 & H0 & H1). exists c0. split; [done|].
  etrans; [exact H1|apply state1_state2].
Qed.

Definition state1_tick : demo_cluster := default state1 (exec state1 (AEvent 2 EvTick)).

Lemma state1_step : cstep demo_cfgs demo_ids state1 state1_tick.
Proof.
  unfold state1_tick. destruct (exec state1 (AEvent 2 EvTick)) as [c|] eqn:E; [by eapply exec_sound|].
  assert (is_some (exec state1 (AEvent 2 EvTick)) = true) as H by (vm_compute; reflexivity).
  by rewrite E in H.
Qed.

(** * The safety theorems at these states *)

(** Two nodes of [state2] are leaders, of terms 1 and 2. *)
Lemma election_safety_witness :
  role (h_Node (hosts state2 1)) = leader /\ role (h_Node (hosts state2 2)) = leader /\
  hs_Term (hardState (h_Node (hosts state2 2))) = 2 /\ 2 = 2.
Proof.
  split; [vm_compute; reflexivity|]. split; [vm_compute; reflexivity|]. split; [vm_compute; reflexivity|].
  apply (election_safety demo_cfgs demo_ids state2 demo_cfg_ok state2_reach 2 2);
    [in_demo|in_demo|vm_compute; reflexivity..].
Defined.

Lemma log_matching_witness :
  take 2 (entries (log (h_Node (hosts state2 1)))) = take 2 (entries (log (h_Node (hosts state2 2)))).
Proof.
  apply (log_matching demo_cfgs demo_ids state2 demo_cfg_ok state2_reach 1 2 1
    (mkLogEntry 2 1 EntryType_NORMAL [Byte.x2a]) (mkLogEntry 2 1 EntryType_NORMAL [Byte.x2a]));
    [in_demo|in_demo|vm_compute; reflexivity..].
Defined.

Lemma leader_has_committed_witness :
  let k := Z.to_nat (commitIndex (h_Node (hosts state2 1))) in
  (k <= length (entries (log (h_Node (hosts state2 1)))))%nat /\
  take k (entries (log (h_Node (hosts state2 1)))) = take k (entries (log (h_Node (hosts state2 2)))).
Proof.
  apply (leader_has_committed demo_cfgs demo_ids state2 demo_cfg_ok state2_reach 1 2);
    [in_demo|in_demo|vm_compute; reflexivity|vm_compute; discriminate].
Defined.

Lemma cluster_refinement_witness :
  exists s, rtc (astep demo_ids) ainit s /\
    forall i, i ∈ demo_ids ->
      durable (h_Storage (hosts state2 i)) = (mkHardState (a_term s i) (a_vote s i), toEntry <$> a_log s i) /\
      (role (h_Node (hosts state2 i)) = leader -> g_leader s (a_term s i) = Some i).
Proof. apply (cluster_refinement demo_cfgs demo_ids state2 demo_cfg_ok state2_reach). Defined.

Lemma host_persisted_witness :
  let n := h_Node (hosts state2 2) in
  durable (h_Storage (hosts state2 2)) = (hardState n, toEntry <$> entries (log n)) /\
  r_HardState (readyWithoutCapture n) = None /\ r_Entries (readyWithoutCapture n) = [] /\
  r_Messages (readyWithoutCapture n) = [].
Proof. apply (host_persisted demo_cfgs demo_ids state2 demo_cfg_ok state2_reach 2). in_demo. Defined.

(** Node 2's vote for node 1 in term 1, after node 2 moved on to term 2. *)
Definition vote_reply : Message :=
  mkMessage 2 1 1 (Some (Message_RequestVoteResp (mkRequestVoteResp 1 true))).

Lemma votes_durable_witness :
  let hs := (durable (h_Storage (hosts state2 2))).1 in
  1 < hs_Term hs \/ (1 = hs_Term hs /\ VotedFor hs = 1).
Proof.
  apply (votes_durable demo_cfgs demo_ids state2 demo_cfg_ok state2_reach vote_reply
    (mkRequestVoteResp 1 true)); [in_demo|in_demo|reflexivity|reflexivity].
Defined.

Definition append_reply : Message :=
  mkMessage 2 1 1 (Some (Message_AppendEntriesResp (mkAppendEntriesResp 1 true 2))).

Lemma acks_durable_witness :
  let d := durable (h_Storage (hosts state1 2)) in
  (2 <= length d.2)%nat /\ take 2 d.2 = take 2 (toEntry <$> entries (log (h_Node (hosts state1 1)))).
Proof.
  apply (acks_durable demo_cfgs demo_ids state1 demo_cfg_ok state1_reach append_reply
    (mkAppendEntriesResp 1 true 2) 1); [in_demo|in_demo|in_demo|reflexivity|reflexivity|vm_compute; reflexivity..].
Defined.

Lemma stored_vote_stable_witness :
  let hs := (durable (h_Storage (hosts state1 1))).1 in
  let hs' := (durable (h_Storage (hosts state1_tick 1))).1 in
  hs_Term hs <= hs_Term hs' /\
  (hs_Term hs' = hs_Term hs -> VotedFor hs <> 0 -> VotedFor hs' = VotedFor hs).
Proof.
  apply (stored_vote_stable demo_cfgs demo_ids state1 state1_tick demo_cfg_ok state1_reach state1_step 1).
  in_demo.
Defined.

Lemma applied_never_lost_witness :
  length (applied (hosts state1 1)) = 2%nat /\
  applied (hosts state1 1) `prefix_of` (toEntry <$> entries (log (h_Node (hosts state2 2)))).
Proof.
  split; [vm_compute; reflexivity|].
  apply (applied_never_lost demo_cfgs demo_ids state1 state2 demo_cfg_ok state1_reach state1_state2 1 2);
    [in_demo|in_demo|vm_compute; reflexivity|vm_compute; discriminate].
Defined.

Lemma applied_agree_over_time_witness :
  applied (hosts state1 2) `prefix_of` applied (hosts state2 1) \/
  applied (hosts state2 1) `prefix_of` applied (hosts state1 2).
Proof.
  apply (applied_agree_over_time demo_cfgs demo_ids state1 state2 demo_cfg_ok state1_reach state1_state2 2 1);
    in_demo.
Defined.
