(* ===== verification/MapSM.v ===== *)
(** The state-machine contract of internal/statemachine and the in-memory map state
    machine of internal/statemachine/mapsm.

    [proto.Unmarshal] of a command is code of another package: it is the parameter
    [unmarshal] of the definitions that call it. *)

From S2P Require Import Prelude Proto RaftLog RaftNode Storage Bytes.

(** [Result]. *)
Record Result : Type := mkResult {
  res_Value : bytes;
  res_Found : bool;
}.

#[export] Instance Result_eq_dec : EqDecision Result.
Proof. solve_decision. Defined.

Definition ErrSnapshotUnsupported : error :=
  "state machine snapshots are not implemented until phase 6".

Record dedupRecord : Type := mkDedupRecord {
  lastSeq : Z;
  lastResult : Result;
}.

#[export] Instance dedupRecord_eq_dec : EqDecision dedupRecord.
Proof. solve_decision. Defined.

(** [MapStateMachine], without its mutex. *)
Record MapSM : Type := mkMapSM {
  values : gmap bytes bytes;
  dedup : gmap Z dedupRecord;
  sm_applied : Z;
}.

Definition NewMapSM : MapSM := mkMapSM ∅ ∅ 0.

Definition cloneResult (r : Result) : Result := mkResult (cloneBytes (res_Value r)) (res_Found r).

Definition advanceAppliedIndex (idx : Z) (m : MapSM) : MapSM :=
  if sm_applied m <? idx then mkMapSM (values m) (dedup m) idx else m.

Definition execute (command : Command) (m : MapSM) : MapSM * result Result :=
  let key := Key command in
  match cmd_Op command with
  | Op_PUT => (mkMapSM (<[key := cloneBytes (Value command)]> (values m)) (dedup m) (sm_applied m),
               Ok (mkResult [] false))
  | Op_DELETE => (mkMapSM (delete key (values m)) (dedup m) (sm_applied m), Ok (mkResult [] false))
  | Op_GET =>
      (m, Ok (match values m !! key with
              | Some v => mkResult (cloneBytes v) true
              | None => mkResult [] false
              end))
  | _ => (m, Err "unsupported command op")
  end.

(** [Read]. *)
Definition sm_Read (key : bytes) (m : MapSM) : result Result :=
  Ok (match values m !! key with
      | Some v => mkResult (cloneBytes v) true
      | None => mkResult [] false
      end).

Section apply.
Context (unmarshal : bytes -> option Command).

(** [Apply]; a nil entry is [None]. *)
Definition sm_Apply (e : option Entry) (m : MapSM) : MapSM * result Result :=
  match e with
  | None => (m, Err "apply nil entry")
  | Some e =>
      match Type_ e with
      | EntryType_NOOP => (advanceAppliedIndex (Index e) m, Ok (mkResult [] false))
      | EntryType_NORMAL =>
          match unmarshal (Data e) with
          | None => (m, Err "decode command")
          | Some command =>
              let run (_ : unit) :=
                let '(m1, r) := execute command m in
                match r with
                | Err err => (m1, Err err)
                | Ok res =>
                    let m2 := mkMapSM (values m1)
                                (<[ClientId command := mkDedupRecord (Seq command) (cloneResult res)]> (dedup m1))
                                (sm_applied m1) in
                    (advanceAppliedIndex (Index e) m2, Ok (cloneResult res))
                end in
              match dedup m !! ClientId command with
              | Some record =>
                  if Seq command <=? lastSeq record
                  then (advanceAppliedIndex (Index e) m, Ok (cloneResult (lastResult record)))
                  else run tt
              | None => run tt
              end
          end
      | _ => (m, Err "unsupported entry type")
      end
  end.

(** The host's apply loop over a state machine: stop at the first error. *)
Fixpoint sm_ApplyAll (es : list Entry) (m : MapSM) : MapSM * result (list Result) :=
  match es with
  | [] => (m, Ok [])
  | e :: es' =>
      let '(m1, r) := sm_Apply (Some e) m in
      match r with
      | Err err => (m1, Err err)
      | Ok x =>
          let '(m2, rs) := sm_ApplyAll es' m1 in
          (m2, match rs with Ok xs => Ok (x :: xs) | Err err => Err err end)
      end
  end.
End apply.

(** * The digest *)

(** [binary.BigEndian.PutUint64]. *)
Definition be_put8 (z : Z) : bytes := rev (le_put 8 z).

Definition hashBytes (v : bytes) : bytes := be_put8 (Z.of_nat (length v)) ++ v.

(** [fnv.New64a]: the digest of the bytes written to it. *)
Definition fnv64a (bs : bytes) : Z :=
  foldl (fun h b => u64_mul (Z.lxor h (Z_of_byte b)) 1099511628211) 14695981039346656037 bs.

(** [sort.Strings] compares byte strings lexicographically. *)
Fixpoint bytes_leb (a b : bytes) : bool :=
  match a, b with
  | [], _ => true
  | _ :: _, [] => false
  | x :: a', y :: b' =>
      if Z_of_byte x <? Z_of_byte y then true
      else if Z_of_byte y <? Z_of_byte x then false else bytes_leb a' b'
  end.

Fixpoint insert_by {A} (le : A -> A -> bool) (x : A) (l : list A) : list A :=
  match l with
  | [] => [x]
  | y :: l' => if le x y then x :: l else y :: insert_by le x l'
  end.

Definition sort_by {A} (le : A -> A -> bool) (l : list A) : list A := foldr (insert_by le) [] l.

(** What [Hash] writes to the digest, in order. *)
Definition hash_values (vs : gmap bytes bytes) : bytes :=
  let keys := sort_by bytes_leb (map_to_list vs).*1 in
  be_put8 (Z.of_nat (length keys)) ++
  concat ((fun key => hashBytes key ++ hashBytes (default [] (vs !! key))) <$> keys).

Definition hash_dedup (ds : gmap Z dedupRecord) : bytes :=
  let clientIDs := sort_by Z.leb (map_to_list ds).*1 in
  be_put8 (Z.of_nat (length clientIDs)) ++
  concat ((fun id =>
             match ds !! id with
             | Some record =>
                 be_put8 id ++ be_put8 (lastSeq record) ++ hashBytes (res_Value (lastResult record)) ++
                 be_put8 (if res_Found (lastResult record) then 1 else 0)
             | None => []
             end) <$> clientIDs).

Definition hash_input (m : MapSM) : bytes :=
  be_put8 (sm_applied m) ++ hash_values (values m) ++ hash_dedup (dedup m).

Definition sm_Hash (m : MapSM) : Z := fnv64a (hash_input m).

(** * Sessions: a command takes effect at most once *)

(** What the map promises, without sessions: the effect of one command on the values. *)
Definition kv_step (kv : gmap bytes bytes) (c : Command) : gmap bytes bytes :=
  match cmd_Op c with
  | Op_PUT => <[Key c := Value c]> kv
  | Op_DELETE => delete (Key c) kv
  | _ => kv
  end.

(** The commands a sequence of commands really runs, given the highest sequence number
    run so far for each client: those with a new number. *)
Fixpoint effective (seen : gmap Z Z) (cmds : list Command) : list Command :=
  match cmds with
  | [] => []
  | c :: cmds' =>
      if match seen !! ClientId c with Some q => Seq c <=? q | None => false end
      then effective seen cmds'
      else c :: effective (<[ClientId c := Seq c]> seen) cmds'
  end.

Definition seen_of (m : MapSM) : gmap Z Z := lastSeq <$> dedup m.

Section sessions.
Context (unmarshal : bytes -> option Command).

(** The commands of the NORMAL entries. *)
Definition commands (es : list Entry) : list Command :=
  omap (fun e => match Type_ e with EntryType_NORMAL => unmarshal (Data e) | _ => None end) es.

Lemma advance_fields idx m :
  values (advanceAppliedIndex idx m) = values m /\ dedup (advanceAppliedIndex idx m) = dedup m /\
  sm_applied (advanceAppliedIndex idx m) = Z.max (sm_applied m) idx.
Proof. unfold advanceAppliedIndex. case_bool; bool_to_prop; simpl; (split_and!; [done|done|lia]). Qed.

Lemma execute_ok c m m1 r :
  execute c m = (m1, Ok r) ->
  values m1 = kv_step (values m) c /\ dedup m1 = dedup m /\ sm_applied m1 = sm_applied m.
Proof. unfold execute, kv_step. destruct (cmd_Op c); intros E; simplify_eq; done. Qed.

Lemma execute_err c m m1 e : execute c m = (m1, Err e) -> m1 = m.
Proof. unfold execute. destruct (cmd_Op c); intros E; by simplify_eq. Qed.

(** One successful [Apply], by the kind of entry. *)
Lemma sm_Apply_ok e m m1 r :
  sm_Apply unmarshal (Some e) m = (m1, Ok r) ->
  sm_applied m1 = Z.max (sm_applied m) (Index e) /\
  ((Type_ e = EntryType_NOOP /\ values m1 = values m /\ dedup m1 = dedup m) \/
   exists c, Type_ e = EntryType_NORMAL /\ unmarshal (Data e) = Some c /\
     ((exists rec, dedup m !! ClientId c = Some rec /\ Seq c <= lastSeq rec /\
         values m1 = values m /\ dedup m1 = dedup m /\ r = lastResult rec) \/
      ((forall q, seen_of m !! ClientId c = Some q -> q < Seq c) /\
       values m1 = kv_step (values m) c /\
       dedup m1 = <[ClientId c := mkDedupRecord (Seq c) r]> (dedup m)))).
Proof.
  unfold sm_Apply. destruct (Type_ e) eqn:Et; intros E; try done.
  - destruct (unmarshal (Data e)) as [c|] eqn:Eu; [|done].
    assert (forall (Hnew : forall q, seen_of m !! ClientId c = Some q -> q < Seq c),
      (let '(m1, r0) := execute c m in
       match r0 with
       | Ok res => (advanceAppliedIndex (Index e)
           (mkMapSM (values m1) (<[ClientId c := mkDedupRecord (Seq c) (cloneResult res)]> (dedup m1))
              (sm_applied m1)), Ok (cloneResult res))
       | Err err => (m1, Err err)
       end) = (m1, Ok r) ->
      sm_applied m1 = Z.max (sm_applied m) (Index e) /\ values m1 = kv_step (values m) c /\
      dedup m1 = <[ClientId c := mkDedupRecord (Seq c) r]> (dedup m)) as Hrun.
    { intros Hnew E'. destruct (execute c m) as [mx [x|err]] eqn:Ex; [|done].
      apply execute_ok in Ex as (V & D & A). injection E' as <- <-.
      match goal with |- context [advanceAppliedIndex ?i ?y] =>
        destruct (advance_fields i y) as (-> & -> & ->) end.
      simpl. rewrite V, D, A. done. }
    unfold seen_of in *.
    destruct (dedup m !! ClientId c) as [rec|] eqn:Ed.
    + destruct (Z.leb_spec (Seq c) (lastSeq rec)) as [Hle|Hgt].
      * injection E as <- <-. destruct (advance_fields (Index e) m) as (-> & -> & ->).
        split; [done|]. right. exists c. split_and!; try done. left. exists rec. split_and!; try done.
        by destruct (lastResult rec).
      * assert (forall q, (lastSeq <$> dedup m) !! ClientId c = Some q -> q < Seq c) as Hnew.
        { intros q Hq. rewrite lookup_fmap, Ed in Hq. simpl in Hq. by simplify_eq. }
        destruct (Hrun Hnew E) as (? & ? & ?). split; [done|]. right. exists c.
        split_and!; try done. by right.
    + assert (forall q, (lastSeq <$> dedup m) !! ClientId c = Some q -> q < Seq c) as Hnew.
      { intros q Hq. rewrite lookup_fmap, Ed in Hq. done. }
      destruct (Hrun Hnew E) as (? & ? & ?). split; [done|]. right. exists c.
        split_and!; try done. by right.
  - injection E as <- <-. destruct (advance_fields (Index e) m) as (-> & -> & ->). auto.
Qed.

Lemma seen_insert m c q r :
  lastSeq <$> <[c := mkDedupRecord q r]> (dedup m) = <[c := q]> (seen_of m).
Proof. unfold seen_of. by rewrite fmap_insert. Qed.

(** The values after a log are those of the effective commands alone. *)
Lemma ApplyAll_effective es m m1 rs :
  sm_ApplyAll unmarshal es m = (m1, Ok rs) ->
  values m1 = foldl kv_step (values m) (effective (seen_of m) (commands es)) /\
  sm_applied m1 = foldl Z.max (sm_applied m) (Index <$> es) /\ length rs = length es.
Proof.
  revert m m1 rs. induction es as [|e es IH]; intros m m1 rs E; cbn [sm_ApplyAll] in E.
  { by simplify_eq. }
  destruct (sm_Apply unmarshal (Some e) m) as [mx [x|err]] eqn:Ea; [|done].
  destruct (sm_ApplyAll unmarshal es mx) as [my [xs|err]] eqn:Er; [|done]. simplify_eq.
  destruct (IH mx m1 xs Er) as (Hv & Ha & Hl).
  destruct (sm_Apply_ok e m mx x Ea) as (A & Hor). csimpl. rewrite Ha, A, Hv, Hl.
  split_and!; try done. unfold commands. simpl.
  destruct Hor as [(Et & V & Dd)|(c & Et & Eu & Hor)]; rewrite Et.
  - by rewrite V; unfold seen_of; rewrite Dd.
  - rewrite Eu. simpl. destruct Hor as [(rec & Ed & Hle & V & Dd & _)|(Hnew & V & Dd)].
    + unfold seen_of at 2. rewrite lookup_fmap, Ed. simpl.
      destruct (Z.leb_spec (Seq c) (lastSeq rec)); [|lia]. by rewrite V; unfold seen_of; rewrite Dd.
    + unfold seen_of at 1. rewrite V, Dd, seen_insert.
      destruct (seen_of m !! ClientId c) as [q|] eqn:Eq; [|done].
      specialize (Hnew q eq_refl). destruct (Z.leb_spec (Seq c) q); [lia|done].
Qed.

Lemma seen_mono e m m1 r c q :
  sm_Apply unmarshal (Some e) m = (m1, Ok r) -> seen_of m !! c = Some q ->
  exists q', seen_of m1 !! c = Some q' /\ q <= q'.
Proof.
  intros Ha Hq. destruct (sm_Apply_ok e m m1 r Ha) as (_ & Hor). unfold seen_of in *.
  destruct Hor as [(_ & _ & ->)|(x & _ & _ & [(_ & _ & _ & _ & -> & _)|(Hnew & _ & ->)])]; [by exists q..|].
  rewrite seen_insert. destruct (decide (ClientId x = c)) as [<-|Hne].
  - exists (Seq x). rewrite lookup_insert_eq. split; [done|]. specialize (Hnew q Hq). lia.
  - exists q. by rewrite lookup_insert_ne.
Qed.

Lemma seen_mono_all es m m1 rs c q :
  sm_ApplyAll unmarshal es m = (m1, Ok rs) -> seen_of m !! c = Some q ->
  exists q', seen_of m1 !! c = Some q' /\ q <= q'.
Proof.
  revert m rs q. induction es as [|e es IH]; intros m rs q E Hq; cbn [sm_ApplyAll] in E.
  { simplify_eq. by exists q. }
  destruct (sm_Apply unmarshal (Some e) m) as [mx [x|err]] eqn:Ea; [|done].
  destruct (sm_ApplyAll unmarshal es mx) as [my [xs|err]] eqn:Er; [|done]. injection E as <- _.
  destruct (seen_mono e m mx x c q Ea Hq) as (q1 & Hq1 & Hle).
  destruct (IH mx xs q1 Er Hq1) as (q2 & Hq2 & Hle2). exists q2. split; [done|lia].
Qed.

Lemma seen_after e m m1 r c :
  sm_Apply unmarshal (Some e) m = (m1, Ok r) -> Type_ e = EntryType_NORMAL -> unmarshal (Data e) = Some c ->
  exists q, seen_of m1 !! ClientId c = Some q /\ Seq c <= q.
Proof.
  intros Ha Ht Hu. destruct (sm_Apply_ok e m m1 r Ha) as (_ & Hor). unfold seen_of.
  destruct Hor as [(Et & _)|(x & _ & Eu & Hor)]; [congruence|]. rewrite Hu in Eu. injection Eu as <-.
  destruct Hor as [(rec & Ed & Hle & _ & -> & _)|(_ & _ & ->)].
  - exists (lastSeq rec). by rewrite lookup_fmap, Ed.
  - exists (Seq c). rewrite seen_insert, lookup_insert_eq. done.
Qed.

Lemma ApplyAll_app es1 es2 m m2 rs :
  sm_ApplyAll unmarshal (es1 ++ es2) m = (m2, Ok rs) ->
  exists m1 rs1 rs2, sm_ApplyAll unmarshal es1 m = (m1, Ok rs1) /\
    sm_ApplyAll unmarshal es2 m1 = (m2, Ok rs2) /\ rs = rs1 ++ rs2.
Proof.
  revert m rs. induction es1 as [|e es1 IH]; intros m rs E.
  { exists m, [], rs. done. }
  cbn [app sm_ApplyAll] in *.
  destruct (sm_Apply unmarshal (Some e) m) as [mx [x|err]] eqn:Ea; [|done].
  destruct (sm_ApplyAll unmarshal (es1 ++ es2) mx) as [my [xs|err]] eqn:Er; [|done]. injection E as <- <-.
  destruct (IH mx xs Er) as (m1 & rs1 & rs2 & E1 & E2 & ->).
  exists m1, (x :: rs1), rs2. rewrite E1. done.
Qed.
End sessions.

(** C20. Exactly once: after a log that holds a client's command, an entry with the same
    client and the same or an earlier sequence number is accepted and changes neither the
    values nor the sessions, wherever in the log it comes. *)
Theorem mapsm_exactly_once (unmarshal : bytes -> option Command) es1 e es2 m m1 rs c e' c' :
  sm_ApplyAll unmarshal (es1 ++ e :: es2) m = (m1, Ok rs) ->
  Type_ e = EntryType_NORMAL -> unmarshal (Data e) = Some c ->
  Type_ e' = EntryType_NORMAL -> unmarshal (Data e') = Some c' ->
  ClientId c' = ClientId c -> Seq c' <= Seq c ->
  exists m2 r, sm_Apply unmarshal (Some e') m1 = (m2, Ok r) /\
    values m2 = values m1 /\ dedup m2 = dedup m1 /\ sm_applied m2 = Z.max (sm_applied m1) (Index e').
Proof.
  intros E Ht Hu Ht' Hu' Hc Hs. apply ApplyAll_app in E as (ma & ra & rb & _ & E & _).
  cbn [sm_ApplyAll] in E. destruct (sm_Apply unmarshal (Some e) ma) as [mb [x|err]] eqn:Ea; [|done].
  destruct (sm_ApplyAll unmarshal es2 mb) as [my [xs|err]] eqn:Er; [|done]. injection E as <- _.
  destruct (seen_after unmarshal e ma mb x c Ea Ht Hu) as (q & Hq & Hle).
  destruct (seen_mono_all unmarshal es2 mb my xs _ q Er Hq) as (q' & Hq' & Hle').
  unfold seen_of in Hq'. rewrite lookup_fmap in Hq'. apply fmap_Some in Hq' as (rec & Hrec & ->).
  unfold sm_Apply. rewrite Ht', Hu', Hc, Hrec.
  destruct (Z.leb_spec (Seq c') (lastSeq rec)); [|lia]. eexists _, _. split; [done|]. apply advance_fields.
Qed.

(** A retry gets the first answer: an entry that repeats the client's latest command
    returns the result that command returned. *)
Theorem mapsm_retry_result (unmarshal : bytes -> option Command) e e' c m m1 r :
  sm_Apply unmarshal (Some e) m = (m1, Ok r) ->
  Type_ e = EntryType_NORMAL -> unmarshal (Data e) = Some c ->
  Type_ e' = EntryType_NORMAL -> unmarshal (Data e') = Some c ->
  (forall rec, dedup m !! ClientId c = Some rec -> lastSeq rec <= Seq c) ->
  exists m2, sm_Apply unmarshal (Some e') m1 = (m2, Ok r) /\ values m2 = values m1 /\ dedup m2 = dedup m1.
Proof.
  intros Ha Ht Hu Ht' Hu' Hlast. destruct (sm_Apply_ok unmarshal e m m1 r Ha) as (_ & Hor).
  destruct Hor as [(Et & _)|(x & _ & Eu & Hor)]; [congruence|]. rewrite Hu in Eu. injection Eu as <-.
  assert (exists rec, dedup m1 !! ClientId c = Some rec /\ lastSeq rec = Seq c /\ lastResult rec = r)
    as (rec & Hrec & Hseq & Hres).
  { destruct Hor as [(rec & Ed & Hle & _ & -> & ->)|(_ & _ & ->)].
    - exists rec. split_and!; try done. specialize (Hlast rec Ed). lia.
    - eexists. rewrite lookup_insert_eq. done. }
  unfold sm_Apply. rewrite Ht', Hu', Hrec, Hseq, Z.leb_refl, Hres.
  eexists. destruct (advance_fields (Index e') m1) as (? & ? & _). split_and!; [|done|done].
  by destruct r.
Qed.

(** C21. The state machine is the plain map run on the effective commands: its values after
    any accepted log are those of the log's commands with the retries left out, applied
    in order, and its applied index is the greatest index of the log. *)
Theorem mapsm_refines_map (unmarshal : bytes -> option Command) es m rs :
  sm_ApplyAll unmarshal es NewMapSM = (m, Ok rs) ->
  values m = foldl kv_step ∅ (effective ∅ (commands unmarshal es)) /\
  sm_applied m = foldl Z.max 0 (Index <$> es) /\ length rs = length es.
Proof.
  intros E. apply ApplyAll_effective in E as (V & A & Hl). split_and!; [|done|done].
  rewrite V. done.
Qed.

(** Errors are atomic: an entry that is refused leaves the state machine as it was,
    and what is refused is a nil entry, an unknown entry type, data that does not decode,
    or a new command with an unknown operation. *)
Theorem mapsm_error_unchanged (unmarshal : bytes -> option Command) oe m m1 err :
  sm_Apply unmarshal oe m = (m1, Err err) ->
  m1 = m /\
  (oe = None \/
   exists e, oe = Some e /\
     ((Type_ e <> EntryType_NORMAL /\ Type_ e <> EntryType_NOOP) \/
      unmarshal (Data e) = None \/
      exists c, unmarshal (Data e) = Some c /\ cmd_Op c <> Op_PUT /\ cmd_Op c <> Op_DELETE /\ cmd_Op c <> Op_GET)).
Proof.
  unfold sm_Apply. destruct oe as [e|]; [|intros E; simplify_eq; auto].
  destruct (Type_ e) eqn:Et; intros E; try done.
  - simplify_eq. split; [done|]. right. exists e. split; [done|]. left. by rewrite Et.
  - destruct (unmarshal (Data e)) as [c|] eqn:Eu.
    + assert (execute c m = (m1, Err err)) as Ex.
      { destruct (dedup m !! ClientId c) as [rec|]; [destruct (Seq c <=? lastSeq rec); [done|]|];
          (destruct (execute c m) as [mx [x|ee]]; [done|]; by simplify_eq). }
      pose proof (execute_err c m m1 err Ex) as ->. split; [done|]. right. exists e. split; [done|].
      right. right. exists c. split; [done|]. unfold execute in Ex.
      destruct (cmd_Op c); simplify_eq; done.
    + simplify_eq. split; [done|]. right. exists e. auto.
  - simplify_eq. split; [done|]. right. exists e. split; [done|]. left. by rewrite Et.
Qed.

(** * The digest determines the state it is taken of

    [Hash] feeds a length-delimited serialization of the state to the digest.  Different
    states have different serializations: only the 64-bit digest itself can collide. *)

Section digest.

Lemma be_put8_inj a b (x y : bytes) :
  is_u64 a -> is_u64 b -> be_put8 a ++ x = be_put8 b ++ y -> a = b /\ x = y.
Proof.
  intros Ha Hb E. apply app_inj_1 in E as [E ->]; [|by unfold be_put8; rewrite !length_rev, !length_le_put].
  split; [|done]. apply (f_equal (fun l => le_get (rev l))) in E. unfold be_put8 in E.
  rewrite !rev_involutive, !le_get_put in E. change (256 ^ Z.of_nat 8) with 18446744073709551616 in E.
  unfold is_u64, max_u64 in *. rewrite !Z.mod_small in E by lia. done.
Qed.

Definition u64_len (v : bytes) : Prop := Z.of_nat (length v) <= max_u64.

Lemma hashBytes_inj v w (x y : bytes) :
  u64_len v -> u64_len w -> hashBytes v ++ x = hashBytes w ++ y -> v = w /\ x = y.
Proof.
  unfold hashBytes, u64_len. intros Hv Hw E. rewrite <- !app_assoc in E.
  apply be_put8_inj in E as [El E]; [|split; lia..]. apply app_inj_1 in E; [done|lia].
Qed.

Lemma concat_inj {A} (P : A -> Prop) (f : A -> bytes) (l l' : list A) (x y : bytes) :
  (forall a b x y, P a -> P b -> f a ++ x = f b ++ y -> a = b /\ x = y) ->
  Forall P l -> Forall P l' -> length l = length l' ->
  concat (f <$> l) ++ x = concat (f <$> l') ++ y -> l = l' /\ x = y.
Proof.
  intros Hf. revert l'. induction l as [|a l IH]; intros [|b l'] Hl Hl' Hlen E; try done.
  apply Forall_cons in Hl as [Ha Hl]. apply Forall_cons in Hl' as [Hb Hl'].
  csimpl in E. rewrite <- !app_assoc in E. apply Hf in E as [-> E]; [|done|done].
  simpl in Hlen. destruct (IH l' Hl Hl' ltac:(lia) E) as [-> ->]. done.
Qed.

Lemma insert_by_perm {A} (le : A -> A -> bool) a l : insert_by le a l ≡ₚ a :: l.
Proof.
  induction l as [|b l IH]; simpl; [done|]. case_bool; [done|]. rewrite IH. apply Permutation_swap.
Qed.

Lemma sort_by_perm {A} (le : A -> A -> bool) l : sort_by le l ≡ₚ l.
Proof. unfold sort_by. induction l as [|a l IH]; simpl; [done|]. by rewrite insert_by_perm, IH. Qed.

(** The serialized pairs of a map, in key order. *)
Definition sorted_pairs {K V} `{Countable K} (le : K -> K -> bool) (zero : V) (m : gmap K V) : list (K * V) :=
  (fun k => (k, default zero (m !! k))) <$> sort_by le (map_to_list m).*1.

Lemma sorted_pairs_perm {K V} `{Countable K} (le : K -> K -> bool) (zero : V) (m : gmap K V) :
  sorted_pairs le zero m ≡ₚ map_to_list m.
Proof.
  unfold sorted_pairs. rewrite sort_by_perm.
  rewrite <- list_fmap_compose.
  enough (forall l, Forall (fun kv => m !! kv.1 = Some kv.2) l ->
    ((fun k => (k, default zero (m !! k))) ∘ fst) <$> l = l) as E.
  { rewrite E; [done|]. apply Forall_forall. intros [k v] Hkv. by apply elem_of_map_to_list in Hkv. }
  induction l as [|[k v] l IH]; intros Hl; [done|]. apply Forall_cons in Hl as [Hk Hl].
  csimpl in *. rewrite Hk, IH by done. done.
Qed.

Definition value_bytes (kv : bytes * bytes) : bytes := hashBytes kv.1 ++ hashBytes kv.2.

Definition dedup_bytes (kr : Z * dedupRecord) : bytes :=
  be_put8 kr.1 ++ be_put8 (lastSeq kr.2) ++ hashBytes (res_Value (lastResult kr.2)) ++
  be_put8 (if res_Found (lastResult kr.2) then 1 else 0).

Lemma hash_values_pairs vs :
  hash_values vs =
    be_put8 (Z.of_nat (length (sorted_pairs bytes_leb [] vs))) ++
    concat (value_bytes <$> sorted_pairs bytes_leb [] vs).
Proof.
  unfold hash_values, sorted_pairs. cbv zeta. rewrite length_fmap. f_equal. f_equal.
  rewrite <- list_fmap_compose. done.
Qed.

Lemma hash_dedup_pairs ds :
  hash_dedup ds =
    let zero := mkDedupRecord 0 (mkResult [] false) in
    be_put8 (Z.of_nat (length (sorted_pairs Z.leb zero ds))) ++
    concat (dedup_bytes <$> sorted_pairs Z.leb zero ds).
Proof.
  unfold hash_dedup, sorted_pairs. cbv zeta. rewrite length_fmap. f_equal. f_equal.
  rewrite <- list_fmap_compose. apply list_fmap_ext. intros j id Hid.
  assert (id ∈ (map_to_list ds).*1) as Hin.
  { rewrite <- (sort_by_perm Z.leb). by eapply list_elem_of_lookup_2. }
  apply list_elem_of_fmap in Hin as ([k r] & -> & Hkr). apply elem_of_map_to_list in Hkr.
  simpl in *. rewrite Hkr. done.
Qed.

(** The sizes the serialization can express. *)
Record hashable (m : MapSM) : Prop := mkHashable {
  ha_applied : is_u64 (sm_applied m);
  ha_values : Z.of_nat (size (values m)) <= max_u64 /\
    map_Forall (fun k v => u64_len k /\ u64_len v) (values m);
  ha_dedup : Z.of_nat (size (dedup m)) <= max_u64 /\
    map_Forall (fun id r => is_u64 id /\ is_u64 (lastSeq r) /\ u64_len (res_Value (lastResult r))) (dedup m);
}.

Lemma sorted_pairs_Forall {K V} `{Countable K} (P : K -> V -> Prop) le zero (m : gmap K V) :
  map_Forall P m -> Forall (fun kv => P kv.1 kv.2) (sorted_pairs le zero m).
Proof.
  intros Hm. rewrite sorted_pairs_perm. apply Forall_forall. intros [k v] Hkv.
  apply elem_of_map_to_list in Hkv. by apply Hm.
Qed.

Lemma length_sorted_pairs {K V} `{Countable K} le zero (m : gmap K V) :
  length (sorted_pairs le zero m) = size m.
Proof. rewrite sorted_pairs_perm. by rewrite length_map_to_list. Qed.

Lemma value_bytes_inj a b (x y : bytes) :
  u64_len a.1 /\ u64_len a.2 -> u64_len b.1 /\ u64_len b.2 ->
  value_bytes a ++ x = value_bytes b ++ y -> a = b /\ x = y.
Proof.
  destruct a as [k v], b as [k' v']. unfold value_bytes. cbn [fst snd]. intros [H1 H2] [H3 H4] E.
  rewrite <- !app_assoc in E. apply hashBytes_inj in E as [-> E]; [|done..].
  apply hashBytes_inj in E as [-> ->]; done.
Qed.

Lemma dedup_bytes_inj a b (x y : bytes) :
  is_u64 a.1 /\ is_u64 (lastSeq a.2) /\ u64_len (res_Value (lastResult a.2)) ->
  is_u64 b.1 /\ is_u64 (lastSeq b.2) /\ u64_len (res_Value (lastResult b.2)) ->
  dedup_bytes a ++ x = dedup_bytes b ++ y -> a = b /\ x = y.
Proof.
  destruct a as [k [s [v f]]], b as [k' [s' [v' f']]]. unfold dedup_bytes.
  cbn [fst snd lastSeq lastResult res_Value res_Found]. intros (H1 & H2 & H3) (H4 & H5 & H6) E.
  rewrite <- !app_assoc in E. apply be_put8_inj in E as [-> E]; [|done..].
  apply be_put8_inj in E as [-> E]; [|done..]. apply hashBytes_inj in E as [-> E]; [|done..].
  apply be_put8_inj in E as [Ef ->]; [|destruct f; unfold is_u64, max_u64; lia
                                     |destruct f'; unfold is_u64, max_u64; lia].
  destruct f, f'; done.
Qed.

Lemma sorted_pairs_inj {K V} `{Countable K} le (zero : V) (m m' : gmap K V) :
  sorted_pairs le zero m = sorted_pairs le zero m' -> m = m'.
Proof.
  intros E. apply map_to_list_inj. rewrite <- !(sorted_pairs_perm le zero). by rewrite E.
Qed.

Lemma hash_input_inj m m' : hashable m -> hashable m' -> hash_input m = hash_input m' -> m = m'.
Proof.
  intros [A1 [V1 V1'] [D1 D1']] [A2 [V2 V2'] [D2 D2']] E. unfold hash_input in E.
  apply be_put8_inj in E as [Ea E]; [|done..].
  rewrite !hash_values_pairs, !hash_dedup_pairs in E. cbv zeta in E. rewrite <- !app_assoc in E.
  apply be_put8_inj in E as [El E]; [|split; rewrite ?length_sorted_pairs; lia..].
  apply (concat_inj (fun kv => u64_len kv.1 /\ u64_len kv.2)) in E as [Ev E];
    [|intros; by apply value_bytes_inj|by apply (sorted_pairs_Forall (fun k v => u64_len k /\ u64_len v))
     |by apply (sorted_pairs_Forall (fun k v => u64_len k /\ u64_len v))|lia].
  apply be_put8_inj in E as [El' E]; [|split; rewrite ?length_sorted_pairs; lia..].
  rewrite <- (app_nil_r (concat (dedup_bytes <$> sorted_pairs _ _ (dedup m)))),
    <- (app_nil_r (concat (dedup_bytes <$> sorted_pairs _ _ (dedup m')))) in E.
  apply (concat_inj (fun kr => is_u64 kr.1 /\ is_u64 (lastSeq kr.2) /\ u64_len (res_Value (lastResult kr.2))))
    in E as [Ed _];
    [|intros; by apply dedup_bytes_inj
     |by apply (sorted_pairs_Forall (fun id r => is_u64 id /\ is_u64 (lastSeq r) /\ u64_len (res_Value (lastResult r))))
     |by apply (sorted_pairs_Forall (fun id r => is_u64 id /\ is_u64 (lastSeq r) /\ u64_len (res_Value (lastResult r))))
     |lia].
  apply sorted_pairs_inj in Ev, Ed. destruct m, m'. simpl in *. congruence.
Qed.
End digest.

(** The state hash covers the whole logical state: two states whose serializations fed
    to the digest are equal have the same values, sessions and applied index. *)
Theorem mapsm_hash_input_injective m m' :
  hashable m -> hashable m' -> hash_input m = hash_input m' -> m = m'.
Proof. apply hash_input_inj. Qed.

(** * Examples, with a decoder of five-byte commands *)

Definition demo_unmarshal (d : bytes) : option Command :=
  match d with
  | [op; client; seq; key; value] =>
      Some (mkCommand (Z_of_byte client) (Z_of_byte seq)
              (if Z_of_byte op =? 1 then Op_PUT else if Z_of_byte op =? 2 then Op_DELETE
               else if Z_of_byte op =? 3 then Op_GET else Op_UNRECOGNIZED (Z_of_byte op)) [key] [value])
  | _ => None
  end.

Definition demo_entry (i : Z) (d : bytes) : Entry := mkEntry i 1 EntryType_NORMAL d.
Definition demo_put : bytes := [Byte.x01; Byte.x07; Byte.x01; Byte.x6b; Byte.x76].
Definition demo_put2 : bytes := [Byte.x01; Byte.x08; Byte.x01; Byte.x6b; Byte.x77].
Definition demo_get : bytes := [Byte.x03; Byte.x09; Byte.x05; Byte.x6b; Byte.x00].
Definition demo_log : list Entry := [demo_entry 1 demo_put; demo_entry 2 demo_put2].

(** A retry of the first write after the second client's write: the second value stays. *)
Lemma mapsm_exactly_once_witness :
  exists m2 r,
    sm_Apply demo_unmarshal (Some (demo_entry 3 demo_put)) (sm_ApplyAll demo_unmarshal demo_log NewMapSM).1
      = (m2, Ok r) /\
    values m2 = values (sm_ApplyAll demo_unmarshal demo_log NewMapSM).1 /\
    dedup m2 = dedup (sm_ApplyAll demo_unmarshal demo_log NewMapSM).1 /\
    sm_applied m2 = Z.max (sm_applied (sm_ApplyAll demo_unmarshal demo_log NewMapSM).1) 3.
Proof.
  apply (mapsm_exactly_once demo_unmarshal [] (demo_entry 1 demo_put) [demo_entry 2 demo_put2] NewMapSM
    (sm_ApplyAll demo_unmarshal demo_log NewMapSM).1 [mkResult [] false; mkResult [] false]
    (mkCommand 7 1 Op_PUT [Byte.x6b] [Byte.x76]) (demo_entry 3 demo_put)
    (mkCommand 7 1 Op_PUT [Byte.x6b] [Byte.x76])); try (vm_compute; reflexivity).
  simpl. lia.
Defined.

Lemma mapsm_retry_result_witness :
  let m := (sm_ApplyAll demo_unmarshal demo_log NewMapSM).1 in
  let m1 := (sm_Apply demo_unmarshal (Some (demo_entry 3 demo_get)) m).1 in
  exists m2, sm_Apply demo_unmarshal (Some (demo_entry 4 demo_get)) m1 = (m2, Ok (mkResult [Byte.x77] true)) /\
    values m2 = values m1 /\ dedup m2 = dedup m1.
Proof.
  apply (mapsm_retry_result demo_unmarshal (demo_entry 3 demo_get) (demo_entry 4 demo_get)
    (mkCommand 9 5 Op_GET [Byte.x6b] [Byte.x00]) (sm_ApplyAll demo_unmarshal demo_log NewMapSM).1);
    try (vm_compute; reflexivity).
  intros rec H. vm_compute in H. discriminate.
Defined.

Lemma mapsm_refines_map_witness :
  values (sm_ApplyAll demo_unmarshal (demo_log ++ [demo_entry 3 demo_put]) NewMapSM).1 =
    foldl kv_step ∅ (effective ∅ (commands demo_unmarshal (demo_log ++ [demo_entry 3 demo_put]))) /\
  sm_applied (sm_ApplyAll demo_unmarshal (demo_log ++ [demo_entry 3 demo_put]) NewMapSM).1 =
    foldl Z.max 0 [1; 2; 3] /\
  length [mkResult [] false; mkResult [] false; mkResult [] false] = 3%nat.
Proof.
  apply (mapsm_refines_map demo_unmarshal (demo_log ++ [demo_entry 3 demo_put])
    (sm_ApplyAll demo_unmarshal (demo_log ++ [demo_entry 3 demo_put]) NewMapSM).1
    [mkResult [] false; mkResult [] false; mkResult [] false]).
  vm_compute. reflexivity.
Defined.

Lemma mapsm_error_unchanged_witness :
  NewMapSM = NewMapSM /\
  (Some (demo_entry 1 [Byte.x09; Byte.x07; Byte.x01; Byte.x6b; Byte.x76]) = None \/
   exists e, Some (demo_entry 1 [Byte.x09; Byte.x07; Byte.x01; Byte.x6b; Byte.x76]) = Some e /\
     ((Type_ e <> EntryType_NORMAL /\ Type_ e <> EntryType_NOOP) \/
      demo_unmarshal (Data e) = None \/
      exists c, demo_unmarshal (Data e) = Some c /\
        cmd_Op c <> Op_PUT /\ cmd_Op c <> Op_DELETE /\ cmd_Op c <> Op_GET)).
Proof.
  apply (mapsm_error_unchanged demo_unmarshal
    (Some (demo_entry 1 [Byte.x09; Byte.x07; Byte.x01; Byte.x6b; Byte.x76])) NewMapSM NewMapSM
    "unsupported command op").
  vm_compute. reflexivity.
Defined.

Lemma mapsm_hash_input_injective_witness :
  mkMapSM {[ [Byte.x6b] := [Byte.x76] ]} ∅ 3 = mkMapSM {[ [Byte.x6b] := [Byte.x76] ]} ∅ 3.
Proof.
  apply mapsm_hash_input_injective; [..|reflexivity];
    (split; [split; vm_compute; discriminate| |];
     (split; [vm_compute; discriminate|]);
     [intros k v H; simpl in H; apply lookup_singleton_Some in H as [<- <-]; split; vm_compute; discriminate
     |intros k v H; simpl in H; by rewrite lookup_empty in H]).
Defined.
