(* ===== verification/KVServer.v ===== *)
(** The bridge between the host and its clients: [KVApplier] of internal/server/waiter.go
    and [KVService] of kv_service.go.

    A channel is an identifier into a store of buffers, so that a waiter and the request
    that reads it share it; [make(chan waiterOutcome, 1)] allocates the next identifier.
    A send appends to the buffer; [chans_ok] says that no buffer ever exceeds the
    channel's capacity, so no send blocks. *)

From S2P Require Import Prelude Proto RaftLog RaftNode Storage Server MapSM.

(** The operation of [StateMachine] that the applier uses. *)
Class StateMachine (M : Type) : Type := {
  smApply : Entry -> M -> M * result Result;
}.

(** The map state machine, for a given decoder of commands. *)
Definition MapSM_StateMachine (unmarshal : bytes -> option Command) : StateMachine MapSM :=
  {| smApply e m := sm_Apply unmarshal (Some e) m |}.

Record waiterOutcome : Type := mkOutcome {
  wo_result : Result;
  stale : bool;
  wo_err : option error;
}.

Section applier.
Context {M : Type} `{StateMachine M}.

(** [KVApplier]; a [waiterKey] is a pair of index and term. *)
Record KVApplier : Type := mkKVApplier {
  kv_sm : M;
  waiters : gmap (Z * Z) nat;
  byIndex : gmap Z (gset Z);
  chans : gmap nat (list waiterOutcome);
  nextChan : nat;
}.

Definition NewKVApplier (sm : M) : KVApplier := mkKVApplier sm ∅ ∅ ∅ 0.

(** [ch <- o]. *)
Definition chan_send (ch : nat) (o : waiterOutcome) (a : KVApplier) : KVApplier :=
  mkKVApplier (kv_sm a) (waiters a) (byIndex a) (<[ch := default [] (chans a !! ch) ++ [o]]> (chans a))
    (nextChan a).

Definition delete_waiter (key : Z * Z) (a : KVApplier) : KVApplier :=
  mkKVApplier (kv_sm a) (delete key (waiters a)) (byIndex a) (chans a) (nextChan a).

(** [register]: the applier and the channel. *)
Definition register (idx t : Z) (a : KVApplier) : KVApplier * nat :=
  let ch := nextChan a in
  let terms := default ∅ (byIndex a !! idx) in
  (mkKVApplier (kv_sm a) (<[(idx, t) := ch]> (waiters a)) (<[idx := {[t]} ∪ terms]> (byIndex a))
     (<[ch := []]> (chans a)) (Datatypes.S ch), ch).

Definition removeFromIndexLocked (idx t : Z) (a : KVApplier) : KVApplier :=
  match byIndex a !! idx with
  | None => a
  | Some terms =>
      let terms' := terms ∖ {[t]} in
      mkKVApplier (kv_sm a) (waiters a)
        (if bool_decide (terms' = ∅) then delete idx (byIndex a) else <[idx := terms']> (byIndex a))
        (chans a) (nextChan a)
  end.

Definition cancel (idx t : Z) (a : KVApplier) : KVApplier :=
  match waiters a !! (idx, t) with
  | Some _ => removeFromIndexLocked idx t (delete_waiter (idx, t) a)
  | None => a
  end.

(** [FailStop]: [range] over the map visits every waiter once, in some order. *)
Definition FailStop (err : error) (a : KVApplier) : KVApplier :=
  foldl (fun a '(key, ch) =>
           chan_send ch (mkOutcome (mkResult [] false) false (Some err))
             (removeFromIndexLocked key.1 key.2 (delete_waiter key a)))
    a (map_to_list (waiters a)).

(** The body of [fulfill]'s loop, for one registered term. *)
Definition fulfillTerm (idx t : Z) (res : Result) (a : KVApplier) (t' : Z) : KVApplier :=
  match waiters a !! (idx, t') with
  | None => a
  | Some ch =>
      chan_send ch
        (if t' =? t then mkOutcome res false None else mkOutcome (mkResult [] false) true None)
        (delete_waiter (idx, t') a)
  end.

Definition fulfill (idx t : Z) (res : Result) (a : KVApplier) : KVApplier :=
  let a' := foldl (fulfillTerm idx t res) a (elements (default ∅ (byIndex a !! idx))) in
  mkKVApplier (kv_sm a') (waiters a') (delete idx (byIndex a')) (chans a') (nextChan a').

(** [Apply]. *)
Definition kv_Apply (e : Entry) (a : KVApplier) : KVApplier * option error :=
  let '(sm', r) := smApply e (kv_sm a) in
  let a1 := mkKVApplier sm' (waiters a) (byIndex a) (chans a) (nextChan a) in
  match r with
  | Err err => (a1, Some err)
  | Ok res => (fulfill (Index e) (Term e) res a1, None)
  end.

#[export] Instance KVApplier_Applier : Applier KVApplier := {|
  applyEntry := kv_Apply;
  failStop := Some FailStop;
|}.

(** * The service *)

Record NotLeader : Type := mkNotLeader { LeaderId : Z; LeaderAddr : string }.

Record ExecuteResponse : Type := mkExecuteResponse {
  resp_Ok : bool;
  resp_Value : bytes;
  resp_Found : bool;
  resp_NotLeader : option NotLeader;
}.

Context {S : Type} `{Storage S}.

(** [KVService]: the host (with the applier inside) and the address map. *)
Record KVService : Type := mkKVService {
  svc_host : Host S KVApplier;
  svc_peers : gmap Z string;
}.

Definition notLeaderResponse (s : KVService) : ExecuteResponse :=
  let hint :=
    match LeaderHint (svc_host s) with
    | (id, true) => mkNotLeader id (default "" (svc_peers s !! id))
    | (_, false) => mkNotLeader 0 ""
    end in
  mkExecuteResponse false [] false (Some hint).

Definition validateCommand (cmd : option Command) : option error :=
  match cmd with
  | None => Some "InvalidArgument: cmd is required"
  | Some c =>
      match cmd_Op c with
      | Op_PUT | Op_DELETE | Op_GET => None
      | _ => Some "InvalidArgument: unsupported op"
      end
  end.

(** Where a call of [Execute] is after its proposal: answered, or waiting in the [select]
    for its channel or for its context. *)
Inductive execState : Type :=
  | Answered (r : result ExecuteResponse)
  | Waiting (idx t : Z) (ch : nat).

(** [Execute] up to the [select]; [marshal] is [proto.Marshal]. *)
Definition Execute (marshal : Command -> result bytes) (cmd : option Command) (s : KVService)
    : KVService * list Message * execState :=
  match validateCommand cmd, cmd with
  | Some e, _ => (s, [], Answered (Err e))
  | None, None => (s, [], Answered (Err "InvalidArgument: cmd is required"))
  | None, Some c =>
      match marshal c with
      | Err e => (s, [], Answered (Err ("InvalidArgument: marshal command: " +:+ e)))
      | Ok data =>
          let ch := match h_Applier (svc_host s) with Some a => nextChan a | None => 0%nat end in
          let '(h', sent, (idx, t, isLeader, err)) :=
            HostPropose data
              (Some (fun idx t oa => match oa with Some a => Some (register idx t a).1 | None => None end))
              (svc_host s) in
          let s' := mkKVService h' (svc_peers s) in
          match err with
          | Some e => (s', sent, Answered (Err ("Unavailable: raft host stopped: " +:+ e)))
          | None =>
              if negb isLeader then (s', sent, Answered (Ok (notLeaderResponse s')))
              else (s', sent, Waiting idx t ch)
          end
      end
  end.

(** The [select]'s first case: an outcome arrived. *)
Definition finishExecute (o : waiterOutcome) (s : KVService) : result ExecuteResponse :=
  match wo_err o with
  | Some e => Err ("Unavailable: raft host stopped: " +:+ e)
  | None =>
      if stale o then Ok (notLeaderResponse s)
      else Ok (mkExecuteResponse true (res_Value (wo_result o)) (res_Found (wo_result o)) None)
  end.

(** The [select]'s second case: the context ended. *)
Definition cancelExecute (idx t : Z) (ctxErr : error) (s : KVService) : KVService * result ExecuteResponse :=
  let h := svc_host s in
  let a' := match h_Applier h with Some a => Some (cancel idx t a) | None => None end in
  (mkKVService (mkHost (h_Node h) (h_Storage h) a' (SelfID h) (stopped h) (leaderHint h)) (svc_peers s),
   Err ctxErr).

(** * The waiters' invariant *)

Record kv_ok (a : KVApplier) : Prop := mkKvOk {
  kv_index : forall idx t, is_Some (waiters a !! (idx, t)) <-> t ∈ default ∅ (byIndex a !! idx);
  kv_nonempty : forall idx ts, byIndex a !! idx = Some ts -> ts <> ∅;
  kv_pending : forall key ch, waiters a !! key = Some ch -> chans a !! ch = Some [];
  kv_inj : forall key key' ch, waiters a !! key = Some ch -> waiters a !! key' = Some ch -> key = key';
  kv_fresh : forall ch, is_Some (chans a !! ch) -> (ch < nextChan a)%nat;
  kv_buffer : forall ch os, chans a !! ch = Some os -> (length os <= 1)%nat;
}.

Lemma kv_ok_new sm : kv_ok (NewKVApplier sm).
Proof.
  split; simpl; intros *; rewrite ?lookup_empty; try done.
Qed.

(** Registering a position nobody waits for. *)
Lemma register_ok idx t a :
  kv_ok a -> waiters a !! (idx, t) = None -> kv_ok (register idx t a).1.
Proof.
  intros [I1 I2 I3 I4 I5 I6] Hnew.
  assert (chans a !! nextChan a = None) as Hf.
  { destruct (chans a !! nextChan a) eqn:E; [|done]. specialize (I5 (nextChan a) ltac:(by eexists)). lia. }
  split; simpl.
  - intros i u. destruct (decide ((idx, t) = (i, u))) as [E|Hne].
    { injection E as <- <-. rewrite !lookup_insert_eq. simpl. split; [set_solver|by eexists]. }
    rewrite (lookup_insert_ne (waiters a)) by done. rewrite I1.
    destruct (decide (idx = i)) as [->|]; [rewrite lookup_insert_eq|by rewrite lookup_insert_ne].
    simpl. set_solver.
  - intros i ts. destruct (decide (idx = i)) as [->|]; [rewrite lookup_insert_eq|rewrite lookup_insert_ne by done; apply I2].
    intros E. simplify_eq. set_solver.
  - intros key ch. destruct (decide ((idx, t) = key)) as [<-|]; [rewrite lookup_insert_eq|rewrite lookup_insert_ne by done].
    + intros E. simplify_eq. by rewrite lookup_insert_eq.
    + intros E. pose proof (I3 _ _ E). rewrite lookup_insert_ne; [done|]. congruence.
  - intros key key' ch. rewrite !lookup_insert. repeat case_decide; intros E1 E2; simplify_eq; try done.
    + pose proof (I3 _ _ E2). congruence.
    + pose proof (I3 _ _ E1). congruence.
    + by eapply I4.
  - intros ch. rewrite lookup_insert. case_decide; [lia|]. intros Hs. specialize (I5 ch Hs). lia.
  - intros ch os. rewrite lookup_insert. case_decide; [|apply I6]. intros E. simplify_eq. simpl. lia.
Qed.

Lemma remove_lookup idx t a i :
  default ∅ (byIndex (removeFromIndexLocked idx t a) !! i) =
  if decide (i = idx) then default ∅ (byIndex a !! i) ∖ {[t]} else default ∅ (byIndex a !! i).
Proof.
  unfold removeFromIndexLocked. destruct (byIndex a !! idx) as [ts|] eqn:E.
  - simpl. case_bool; bool_to_prop.
    + rewrite lookup_delete. case_decide; simplify_eq; rewrite ?decide_True, ?decide_False by congruence;
        [|done]. rewrite E. simpl. by rewrite <- Heqb.
    + rewrite lookup_insert. repeat case_decide; simplify_eq; [|done]. by rewrite E.
  - case_decide; [subst|done]. rewrite E. simpl. set_solver.
Qed.

Lemma remove_fields idx t a :
  kv_sm (removeFromIndexLocked idx t a) = kv_sm a /\ waiters (removeFromIndexLocked idx t a) = waiters a /\
  chans (removeFromIndexLocked idx t a) = chans a /\ nextChan (removeFromIndexLocked idx t a) = nextChan a.
Proof. unfold removeFromIndexLocked. by destruct (byIndex a !! idx). Qed.

Lemma cancel_ok idx t a : kv_ok a -> kv_ok (cancel idx t a).
Proof.
  intros Hok. unfold cancel. destruct (waiters a !! (idx, t)) as [ch|] eqn:Ew; [|done].
  destruct Hok as [I1 I2 I3 I4 I5 I6].
  destruct (remove_fields idx t (delete_waiter (idx, t) a)) as (_ & Fw & Fc & Fn).
  split; rewrite ?Fw, ?Fc, ?Fn; simpl.
  - intros i u. rewrite remove_lookup. simpl. destruct (decide ((idx, t) = (i, u))) as [E|Hne].
    { injection E as <- <-. rewrite lookup_delete_eq, decide_True by done. split; [by intros [? ?]|set_solver]. }
    rewrite lookup_delete_ne, I1 by done. case_decide; [subst|done].
    assert (u <> t) by congruence. set_solver.
  - intros i ts. unfold removeFromIndexLocked. simpl. destruct (byIndex a !! idx) eqn:E; [|apply I2].
    simpl. case_bool; bool_to_prop.
    + rewrite lookup_delete. case_decide; [done|apply I2].
    + rewrite lookup_insert. case_decide; [|apply I2]. intros E'. by simplify_eq.
  - intros key c. rewrite lookup_delete. case_decide; [done|apply I3].
  - intros key key' c. rewrite !lookup_delete. repeat case_decide; try done. apply I4.
  - apply I5.
  - apply I6.
Qed.

Lemma send_ok ch o a :
  kv_ok a -> (forall key, waiters a !! key <> Some ch) -> chans a !! ch = Some [] ->
  kv_ok (chan_send ch o a) /\ chans (chan_send ch o a) = <[ch := [o]]> (chans a).
Proof.
  intros [I1 I2 I3 I4 I5 I6] Hn Hb.
  assert (chans (chan_send ch o a) = <[ch := [o]]> (chans a)) as E by (simpl; by rewrite Hb).
  split; [|done]. split; rewrite ?E; simpl; try done.
  - intros key c Hk. rewrite lookup_insert_ne; [by eapply I3|]. intros ->. by eapply Hn.
  - intros c. rewrite lookup_insert. case_decide; [subst; intros _; apply I5; by eexists|apply I5].
  - intros c os. rewrite lookup_insert. case_decide; [|apply I6]. intros E'. simplify_eq. simpl. lia.
Qed.

(** One round of [FailStop] or of [fulfill] on a waiter, as a cancellation and a send. *)
Lemma resolve_ok key ch o a :
  kv_ok a -> waiters a !! key = Some ch ->
  let a' := chan_send ch o (cancel key.1 key.2 a) in
  kv_ok a' /\ waiters a' = delete key (waiters a) /\ chans a' = <[ch := [o]]> (chans a) /\
  kv_sm a' = kv_sm a.
Proof.
  intros Hok Hw a'. destruct key as [idx t]. cbn [fst snd] in a'.
  assert (waiters (cancel idx t a) = delete (idx, t) (waiters a) /\
    chans (cancel idx t a) = chans a /\ kv_sm (cancel idx t a) = kv_sm a) as (Ew & Ec & Es).
  { unfold cancel. rewrite Hw. destruct (remove_fields idx t (delete_waiter (idx, t) a)) as (-> & -> & -> & _).
    done. }
  destruct (send_ok ch o (cancel idx t a)) as [Hok' Ec'].
  - by apply cancel_ok.
  - intros k. rewrite Ew. rewrite lookup_delete_Some. intros [Hne Hk]. apply Hne.
    by eapply (kv_inj _ Hok).
  - rewrite Ec. by eapply (kv_pending _ Hok).
  - unfold a'. rewrite Ec' , Ec. split_and!; try done.
Qed.

(** ** FailStop *)

Lemma FailStop_fold err l a :
  kv_ok a -> NoDup l.*1 -> (forall key ch, (key, ch) ∈ l -> waiters a !! key = Some ch) ->
  let a' := foldl (fun a '(key, ch) =>
              chan_send ch (mkOutcome (mkResult [] false) false (Some err))
                (removeFromIndexLocked key.1 key.2 (delete_waiter key a))) a l in
  kv_ok a' /\ kv_sm a' = kv_sm a /\
  (forall key, waiters a' !! key = if decide (key ∈ l.*1) then None else waiters a !! key) /\
  (forall key ch, (key, ch) ∈ l -> chans a' !! ch = Some [mkOutcome (mkResult [] false) false (Some err)]) /\
  (forall ch, ch ∉ l.*2 -> chans a' !! ch = chans a !! ch).
Proof.
  revert a. induction l as [|[key ch] l IH]; intros a Hok Hnd Hl; csimpl in *.
  { split_and!; try done. intros key ch Hin. by apply elem_of_nil in Hin. }
  apply NoDup_cons in Hnd as [Hnin Hnd].
  assert (waiters a !! key = Some ch) as Hw by (apply Hl; by left).
  destruct (resolve_ok key ch (mkOutcome (mkResult [] false) false (Some err)) a Hok Hw)
    as (Hok1 & Ew1 & Ec1 & Es1).
  assert (chan_send ch (mkOutcome (mkResult [] false) false (Some err)) (cancel key.1 key.2 a) =
    chan_send ch (mkOutcome (mkResult [] false) false (Some err))
      (removeFromIndexLocked key.1 key.2 (delete_waiter key a))) as Ea.
  { unfold cancel. destruct key as [i t]. cbn [fst snd]. by rewrite Hw. }
  rewrite Ea in *. set (a1 := chan_send _ _ _) in *. clearbody a1.
  destruct (IH a1) as (J1 & J2 & J3 & J4 & J5); [done|done| |].
  { intros k c Hin. rewrite Ew1, lookup_delete_ne; [apply Hl; by right|].
    intros ->. apply Hnin. apply list_elem_of_fmap. by exists (k, c). }
  split_and!; [done|congruence| | |].
  - intros k. rewrite J3, Ew1. destruct (decide (k = key)) as [->|Hne].
    + rewrite (decide_True (P := key ∈ key :: l.*1)) by by left. case_decide; [done|]. apply lookup_delete_eq.
    + rewrite lookup_delete_ne by congruence. repeat case_decide; set_solver.
  - intros k c Hin. destruct (decide (c ∈ l.*2)) as [Hc|Hc].
    + apply list_elem_of_fmap in Hc as ([k' c'] & -> & Hin'). by eapply J4.
    + apply elem_of_cons in Hin as [E|Hin]; [injection E as -> ->|].
      * rewrite J5 by done. rewrite Ec1. apply lookup_insert_eq.
      * exfalso. apply Hc. apply list_elem_of_fmap. by exists (k, c).
  - intros c Hc. rewrite J5 by set_solver. rewrite Ec1. apply lookup_insert_ne. set_solver.
Qed.

(** ** fulfill *)

Definition outcome_at (t : Z) (res : Result) (t' : Z) : waiterOutcome :=
  if t' =? t then mkOutcome res false None else mkOutcome (mkResult [] false) true None.

Record kv_chan (a : KVApplier) : Prop := mkKvChan {
  kc_pending : forall key ch, waiters a !! key = Some ch -> chans a !! ch = Some [];
  kc_inj : forall key key' ch, waiters a !! key = Some ch -> waiters a !! key' = Some ch -> key = key';
  kc_fresh : forall ch, is_Some (chans a !! ch) -> (ch < nextChan a)%nat;
  kc_buffer : forall ch os, chans a !! ch = Some os -> (length os <= 1)%nat;
}.

Lemma fulfillTerm_spec idx t res a u :
  kv_chan a ->
  let a' := fulfillTerm idx t res a u in
  kv_chan a' /\ waiters a' = delete (idx, u) (waiters a) /\ byIndex a' = byIndex a /\ kv_sm a' = kv_sm a /\
  match waiters a !! (idx, u) with
  | Some ch => chans a' = <[ch := [outcome_at t res u]]> (chans a)
  | None => chans a' = chans a
  end.
Proof.
  intros [P1 P2 P3 P4] a'. unfold a', fulfillTerm.
  destruct (waiters a !! (idx, u)) as [ch|] eqn:Ew; [|by rewrite delete_id].
  fold (outcome_at t res u).
  assert (chans a !! ch = Some []) as Hb by (by eapply P1).
  unfold chan_send, delete_waiter. cbn [chans waiters byIndex kv_sm nextChan]. rewrite Hb. cbn [default app].
  split_and!; try done. split; cbn [chans waiters nextChan].
  - intros key c [Hne Hk]%lookup_delete_Some. rewrite lookup_insert_ne; [by eapply P1|].
    intros ->. apply Hne. by eapply P2.
  - intros key key' c [_ H1]%lookup_delete_Some [_ H2]%lookup_delete_Some. by eapply P2.
  - intros c. rewrite lookup_insert. case_decide; [subst; intros _; apply P3; by eexists|apply P3].
  - intros c os. rewrite lookup_insert. case_decide; [|apply P4]. intros E. simplify_eq. simpl. lia.
Qed.

Lemma fulfill_fold idx t res l a :
  kv_chan a ->
  let a' := foldl (fulfillTerm idx t res) a l in
  kv_chan a' /\ byIndex a' = byIndex a /\ kv_sm a' = kv_sm a /\
  (forall i u, waiters a' !! (i, u) = if decide (i = idx /\ u ∈ l) then None else waiters a !! (i, u)) /\
  (forall u ch, u ∈ l -> waiters a !! (idx, u) = Some ch -> chans a' !! ch = Some [outcome_at t res u]) /\
  (forall ch, (forall u, u ∈ l -> waiters a !! (idx, u) <> Some ch) -> chans a' !! ch = chans a !! ch).
Proof.
  revert a. induction l as [|v l IH]; intros a Hc; cbn [foldl].
  { split_and!; try done; [intros i u; by rewrite decide_False by set_solver|].
    intros u ch Hin. by apply elem_of_nil in Hin. }
  destruct (fulfillTerm_spec idx t res a v Hc) as (Hc1 & Ew & Eb & Es & Ech).
  destruct (IH _ Hc1) as (J1 & J2 & J3 & J4 & J5 & J6).
  set (a1 := fulfillTerm idx t res a v) in *. clearbody a1. clear IH.
  split_and!; [done|congruence|congruence| | |].
  - intros i u. rewrite J4, Ew. destruct (decide ((idx, v) = (i, u))) as [E|Hne].
    + injection E as <- <-. rewrite lookup_delete_eq.
      rewrite (decide_True (P := idx = idx /\ v ∈ v :: l)) by (split; [done|by left]). by case_decide.
    + rewrite lookup_delete_ne by done.
      destruct (decide (i = idx /\ u ∈ l)) as [[-> Hu]|Hn].
      * rewrite decide_True; [done|]. split; [done|by right].
      * rewrite decide_False; [done|]. intros [-> Hu]. apply elem_of_cons in Hu as [->|Hu]; [done|].
        by apply Hn.
  - intros u ch Hin Hw. destruct (decide (u = v)) as [->|Huv].
    + rewrite J6; cycle 1.
      { intros u Hu. rewrite Ew. intros [Hne Hw1]%lookup_delete_Some. apply Hne. by eapply (kc_inj _ Hc). }
      rewrite Hw in Ech. rewrite Ech.
      apply lookup_insert_eq.
    + apply elem_of_cons in Hin as [->|Hin]; [done|]. apply J5; [done|]. rewrite Ew, lookup_delete_ne; congruence.
  - intros ch Hn. rewrite J6.
    + destruct (waiters a !! (idx, v)) as [c|] eqn:E; rewrite Ech; [|done].
      apply lookup_insert_ne. intros ->. apply (Hn v); [by left|done].
    + intros u Hu. rewrite Ew. intros [_ Hw]%lookup_delete_Some. apply (Hn u); [by right|done].
Qed.

Lemma fulfill_spec idx t res a :
  kv_ok a ->
  let a' := fulfill idx t res a in
  kv_ok a' /\ kv_sm a' = kv_sm a /\
  (forall i u, waiters a' !! (i, u) = if decide (i = idx) then None else waiters a !! (i, u)) /\
  (forall u ch, waiters a !! (idx, u) = Some ch -> chans a' !! ch = Some [outcome_at t res u]) /\
  (forall ch, (forall u, waiters a !! (idx, u) <> Some ch) -> chans a' !! ch = chans a !! ch).
Proof.
  intros [I1 I2 I3 I4 I5 I6] a'. unfold a', fulfill.
  destruct (fulfill_fold idx t res (elements (default ∅ (byIndex a !! idx))) a ltac:(by split))
    as ([P1 P2 P3 P4] & J2 & J3 & J4 & J5 & J6).
  set (b := foldl _ _ _) in *. clearbody b. cbn [waiters kv_sm chans byIndex nextChan].
  assert (forall i u, waiters b !! (i, u) = if decide (i = idx) then None else waiters a !! (i, u)) as Hw.
  { intros i u. rewrite J4. destruct (decide (i = idx)) as [->|Hne].
    - case_decide as Hd; [done|]. destruct (waiters a !! (idx, u)) eqn:E; [|done]. exfalso. apply Hd.
      split; [done|]. apply elem_of_elements, I1. by eexists.
    - rewrite decide_False; [done|]. by intros [? _]. }
  split_and!; try done.
  - split; cbn [waiters kv_sm chans byIndex nextChan]; try done.
    + intros i u. rewrite Hw, J2, lookup_delete. case_decide; subst; simpl.
      * rewrite decide_True by done. simpl. split; [by intros [? ?]|set_solver].
      * rewrite decide_False by done. apply I1.
    + intros i ts. rewrite J2, lookup_delete. case_decide; [done|apply I2].
  - intros u ch Hu. apply (J5 u); [|done]. apply elem_of_elements, I1. by eexists.
  - intros ch Hn. apply J6. intros u _. apply Hn.
Qed.
End applier.

Arguments KVApplier : clear implicits.
Arguments KVService M S : clear implicits.

Lemma kv_ok_sm {M} (a : KVApplier M) (sm : M) :
  kv_ok a -> kv_ok (mkKVApplier sm (waiters a) (byIndex a) (chans a) (nextChan a)).
Proof. intros [I1 I2 I3 I4 I5 I6]. by split. Qed.

Lemma FailStop_ok {M} err (a : KVApplier M) :
  kv_ok a ->
  kv_ok (FailStop err a) /\ kv_sm (FailStop err a) = kv_sm a /\ waiters (FailStop err a) = ∅ /\
  (forall key ch, waiters a !! key = Some ch ->
     chans (FailStop err a) !! ch = Some [mkOutcome (mkResult [] false) false (Some err)]) /\
  (forall ch, (forall key, waiters a !! key <> Some ch) -> chans (FailStop err a) !! ch = chans a !! ch).
Proof.
  intros Hok. unfold FailStop.
  destruct (FailStop_fold err (map_to_list (waiters a)) a Hok) as (J1 & J2 & J3 & J4 & J5).
  { apply NoDup_fst_map_to_list. }
  { intros key ch Hin. by apply elem_of_map_to_list in Hin. }
  split_and!; try done.
  - apply map_eq. intros key. rewrite J3, lookup_empty. case_decide as Hd; [done|].
    destruct (waiters a !! key) as [ch|] eqn:E; [|done]. exfalso. apply Hd.
    apply list_elem_of_fmap. exists (key, ch). split; [done|]. by apply elem_of_map_to_list.
  - intros key ch Hk. apply (J4 key). by apply elem_of_map_to_list.
  - intros ch Hn. apply J5. intros ([key c] & -> & Hin)%list_elem_of_fmap.
    apply elem_of_map_to_list in Hin. by apply (Hn key).
Qed.

(** Every operation of the applier keeps its waiters consistent: the per-index term
    sets list exactly the registered waiters, two waiters never share a channel, and no
    channel ever holds more than the one outcome it has room for, so that no send under
    the host's lock can block. *)
Theorem kvapplier_invariant {M} `{StateMachine M} (a : KVApplier M) idx t e err :
  kv_ok a ->
  (waiters a !! (idx, t) = None -> kv_ok (register idx t a).1) /\
  kv_ok (cancel idx t a) /\ kv_ok (kv_Apply e a).1 /\ kv_ok (FailStop err a).
Proof.
  intros Hok. split_and!.
  - by apply register_ok.
  - by apply cancel_ok.
  - unfold kv_Apply. destruct (smApply e (kv_sm a)) as [sm' [res|er]]; simpl; [|by apply kv_ok_sm].
    by apply fulfill_spec, kv_ok_sm.
  - by apply FailStop_ok.
Qed.

(** C22. A successful apply answers exactly the requests it decides: the waiter registered
    at the entry's index and term gets the state machine's result, every other waiter at
    that index is told its proposal was lost, no waiter is left at the index, and no
    other request is touched. *)
Theorem kvapplier_apply_answers {M} `{StateMachine M} (a : KVApplier M) e sm' res :
  kv_ok a -> smApply e (kv_sm a) = (sm', Ok res) ->
  exists a', kv_Apply e a = (a', None) /\ kv_sm a' = sm' /\
    (forall ch, waiters a !! (Index e, Term e) = Some ch ->
       chans a' !! ch = Some [mkOutcome res false None]) /\
    (forall t ch, t <> Term e -> waiters a !! (Index e, t) = Some ch ->
       chans a' !! ch = Some [mkOutcome (mkResult [] false) true None]) /\
    (forall t, waiters a' !! (Index e, t) = None) /\
    (forall i t, i <> Index e -> waiters a' !! (i, t) = waiters a !! (i, t)) /\
    (forall i t ch, i <> Index e -> waiters a !! (i, t) = Some ch -> chans a' !! ch = Some []).
Proof.
  intros Hok Hs. unfold kv_Apply. rewrite Hs.
  set (a1 := mkKVApplier sm' _ _ _ _). assert (kv_ok a1) as Hok1 by by apply kv_ok_sm.
  destruct (fulfill_spec (Index e) (Term e) res a1 Hok1) as (K & Ksm & Kw & Kc & Kn).
  eexists. split; [done|]. split_and!.
  - done.
  - intros ch Hw. rewrite (Kc (Term e) ch Hw). unfold outcome_at. by rewrite Z.eqb_refl.
  - intros t ch Hne Hw. rewrite (Kc t ch Hw). unfold outcome_at. destruct (Z.eqb_spec t (Term e)); done.
  - intros t. by rewrite Kw, decide_True.
  - intros i t Hne. by rewrite Kw, decide_False.
  - intros i t ch Hne Hw. rewrite Kn; [by eapply (kv_pending _ Hok)|]. intros u Hu.
    assert ((i, t) = (Index e, u)) as E by (by eapply (kv_inj _ Hok)). congruence.
Qed.

(** C23. A fail-stop leaves nobody waiting: every registered request gets the error as its
    one outcome and no waiter remains. *)
Theorem kvapplier_failstop_drains {M} `{StateMachine M} (a : KVApplier M) err :
  kv_ok a ->
  waiters (FailStop err a) = ∅ /\ byIndex (FailStop err a) = ∅ /\
  forall key ch, waiters a !! key = Some ch ->
    chans (FailStop err a) !! ch = Some [mkOutcome (mkResult [] false) false (Some err)].
Proof.
  intros Hok. destruct (FailStop_ok err a Hok) as (K & _ & Kw & Kc & _). split_and!; try done.
  apply map_eq. intros i. rewrite lookup_empty.
  destruct (byIndex (FailStop err a) !! i) as [ts|] eqn:E; [|done]. exfalso.
  apply (kv_nonempty _ K _ _ E). apply set_eq. intros t. split; [|set_solver]. intros Ht.
  assert (t ∈ default ∅ (byIndex (FailStop err a) !! i)) as Hin by (by rewrite E).
  apply (kv_index _ K) in Hin. rewrite Kw, lookup_empty in Hin. by destruct Hin.
Qed.

(** * Examples *)

#[local] Instance demo_sm : StateMachine MapSM := MapSM_StateMachine demo_unmarshal.

(** Two waiters at index 1, for terms 1 and 2, and one at index 2. *)
Definition demo_applier : KVApplier MapSM :=
  (register 2 1 (register 1 2 (register 1 1 (NewKVApplier NewMapSM)).1).1).1.

Lemma demo_applier_ok : kv_ok demo_applier.
Proof. repeat (apply register_ok; [|vm_compute; reflexivity]). apply kv_ok_new. Qed.

Lemma kvapplier_invariant_witness :
  (waiters demo_applier !! (3, 1) = None -> kv_ok (register 3 1 demo_applier).1) /\
  kv_ok (cancel 3 1 demo_applier) /\ kv_ok (kv_Apply (demo_entry 1 demo_put) demo_applier).1 /\
  kv_ok (FailStop "disk full" demo_applier).
Proof. apply kvapplier_invariant. apply demo_applier_ok. Defined.

Lemma kvapplier_apply_answers_witness :
  exists a', kv_Apply (demo_entry 1 demo_put) demo_applier = (a', None) /\
    kv_sm a' = (sm_Apply demo_unmarshal (Some (demo_entry 1 demo_put)) NewMapSM).1 /\
    (forall ch, waiters demo_applier !! (1, 1) = Some ch ->
       chans a' !! ch = Some [mkOutcome (mkResult [] false) false None]) /\
    (forall t ch, t <> 1 -> waiters demo_applier !! (1, t) = Some ch ->
       chans a' !! ch = Some [mkOutcome (mkResult [] false) true None]) /\
    (forall t, waiters a' !! (1, t) = None) /\
    (forall i t, i <> 1 -> waiters a' !! (i, t) = waiters demo_applier !! (i, t)) /\
    (forall i t ch, i <> 1 -> waiters demo_applier !! (i, t) = Some ch -> chans a' !! ch = Some []).
Proof.
  apply (kvapplier_apply_answers demo_applier (demo_entry 1 demo_put)
    (sm_Apply demo_unmarshal (Some (demo_entry 1 demo_put)) NewMapSM).1 (mkResult [] false)).
  - apply demo_applier_ok.
  - vm_compute. reflexivity.
Defined.

Lemma kvapplier_failstop_drains_witness :
  waiters (FailStop "disk full" demo_applier) = ∅ /\ byIndex (FailStop "disk full" demo_applier) = ∅ /\
  forall key ch, waiters demo_applier !! key = Some ch ->
    chans (FailStop "disk full" demo_applier) !! ch =
      Some [mkOutcome (mkResult [] false) false (Some "disk full"%string)].
Proof. apply kvapplier_failstop_drains. apply demo_applier_ok. Defined.
