(* ===== verification/DiskLog.v ===== *)
(** The write-ahead log of internal/storage/disklog/disklog.go: frames, segments, Save,
    rotation and recovery.

    [proto.Marshal] and [proto.Unmarshal] of a [LogRecord] are the parameters [marshal]
    and [unmarshal].  What the operating system answers during one call (how much of a
    write it took, whether a sync, a create or a close failed) is an [OS] value, an
    argument of the operations that touch files.  A file keeps the bytes written and how
    many of them were synced. *)

From Stdlib Require Import Ascii.
From stdpp Require Import pretty.
From S2P Require Import Prelude Proto RaftLog RaftNode Storage Bytes WalRecords.

(** * Constants *)

Definition DefaultRotateSize : Z := 8388608.
Definition frameStart : Z := 250.
Definition frameEnd : Z := 251.
Definition frameSymbolBase : Z := 64.
Definition frameSymbolLimit : Z := 79.
Definition frameHeaderSize : Z := 8.
Definition frameMarkerBytes : Z := 2.
Definition encodedByteWidth : Z := 2.

Definition ErrCorrupt : error := "disklog: corrupt log".
Definition errClosed : error := "disklog: closed".

(** * Checked arithmetic *)

Definition checkedAddUint64 (a b : Z) : option Z := if max_u64 - a <? b then None else Some (a +u b).

Definition checkedMulUint64 (a b : Z) : option Z :=
  if negb (a =? 0) && (max_u64 / a <? b) then None else Some (a *u b).

Definition fitsIntBits (n bits : Z) : bool :=
  if bits =? 32 then n <=? 2147483647 else if bits =? 64 then n <=? max_i64 else false.

(** [strconv.IntSize] is 64. *)
Definition checkedInt (n : Z) : result Z :=
  if negb (fitsIntBits n 64) then Err "size exceeds int" else Ok n.

Definition checkedFrameSize (payloadSize : Z) : option Z :=
  match checkedAddUint64 frameHeaderSize payloadSize with
  | None => None
  | Some bodySize =>
      match checkedMulUint64 bodySize encodedByteWidth with
      | None => None
      | Some encodedSize => checkedAddUint64 frameMarkerBytes encodedSize
      end
  end.

(** * Symbols *)

Definition isFrameSymbol (b : Byte.byte) : bool :=
  (frameSymbolBase <=? Z_of_byte b) && (Z_of_byte b <=? frameSymbolLimit).

(** [frameSymbolBase + b>>4] and [frameSymbolBase + b&0x0f]. *)
Definition hiSymbol (b : Byte.byte) : Byte.byte := byte_of_Z (frameSymbolBase + Z.shiftr (Z_of_byte b) 4).
Definition loSymbol (b : Byte.byte) : Byte.byte := byte_of_Z (frameSymbolBase + Z.land (Z_of_byte b) 15).

Definition encodeLoop (decoded : bytes) : bytes := concat ((fun b => [hiSymbol b; loSymbol b]) <$> decoded).

(** [encodeSymbols] into a buffer of [dstLen] bytes. *)
Definition encodeSymbols (dstLen : Z) (decoded : bytes) : result bytes :=
  match checkedMulUint64 (Z.of_nat (length decoded)) encodedByteWidth with
  | Some want => if negb (want =? dstLen) then Err "encoded symbol buffer size" else Ok (encodeLoop decoded)
  | None => Err "encoded symbol buffer size"
  end.

Fixpoint decodeLoop (symbols : bytes) : result bytes :=
  match symbols with
  | hi :: lo :: rest =>
      if negb (isFrameSymbol hi) then Err "invalid interior byte"
      else if negb (isFrameSymbol lo) then Err "invalid interior byte"
      else
        bs <-r decodeLoop rest ;
        Ok (byte_of_Z (Z.lor (Z.shiftl (Z_of_byte hi - frameSymbolBase) 4) (Z_of_byte lo - frameSymbolBase)) :: bs)
  | _ => Ok []
  end.

(** [decodeSymbols] into a buffer of [dstLen] bytes. *)
Definition decodeSymbols (dstLen : Z) (symbols : bytes) : result bytes :=
  match checkedMulUint64 dstLen encodedByteWidth with
  | Some want =>
      if negb (want =? Z.of_nat (length symbols)) then Err "interior symbol count" else decodeLoop symbols
  | None => Err "interior symbol count"
  end.

(** * Segment names *)

Definition segmentSuffix : string := ".seg".

Fixpoint pad0 (k : nat) (s : string) : string :=
  match k with O => s | S k' => String "0"%char (pad0 k' s) end.

(** [fmt.Sprintf("%06d%s", seq, segmentSuffix)]. *)
Definition segmentName (seq : Z) : string :=
  let digits := pretty (Z.to_N seq) in
  pad0 (6 - String.length digits) digits +:+ segmentSuffix.

Definition is_digit (c : Ascii.ascii) : bool :=
  let n := Ascii.nat_of_ascii c in Nat.leb 48 n && Nat.leb n 57.

Fixpoint all_digits (s : string) : bool :=
  match s with EmptyString => true | String c s' => is_digit c && all_digits s' end.

Fixpoint digits_value (acc : Z) (s : string) : Z :=
  match s with
  | EmptyString => acc
  | String c s' => digits_value (10 * acc + (Z.of_nat (Ascii.nat_of_ascii c) - 48)) s'
  end.

(** [strings.CutSuffix]. *)
Definition cutSuffix (name suffix : string) : option string :=
  let k := (String.length name - String.length suffix)%nat in
  if Nat.leb (String.length suffix) (String.length name) &&
     bool_decide (String.substring k (String.length suffix) name = suffix)
  then Some (String.substring 0 k name) else None.

(** [strconv.ParseUint] refuses a value above the range of a [uint64]. *)
Definition parseSegmentName (name : string) : option Z :=
  match cutSuffix name segmentSuffix with
  | None => None
  | Some digits =>
      if Nat.ltb (String.length digits) 6 then None
      else if negb (all_digits digits) then None
      else
        let seq := digits_value 0 digits in
        if (max_u64 <? seq) || (seq =? 0) then None else Some seq
  end.

(** * Files

    A file keeps the bytes written, how many of them an fsync covered, and whether an
    fsync of the directory covered its name. *)

Record file : Type := mkFile {
  content : bytes;
  synced : nat;
  named : bool;
}.

(** The calls of [truncateTail]. *)
Inductive tailCall : Type := TailOpen | TailTruncate | TailSync | TailClose.

(** What the operating system answers during one operation. *)
Record OS : Type := mkOS {
  os_openDir : option error;
  os_readDir : option error;
  os_read : string -> option error;        (* os.ReadFile *)
  os_tail : tailCall -> option error;
  os_open : string -> option error;        (* os.OpenFile of a segment that exists *)
  os_stat : option error;
  os_create : option error;
  os_write : nat -> nat * option error;    (* of that many bytes: taken, error *)
  os_sync : string -> option error;
  os_close : string -> option error;
  os_syncDir : option error;
  os_closeDir : option error;
}.

(** Every call succeeds. *)
Definition os_good : OS :=
  mkOS None None (fun _ => None) (fun _ => None) (fun _ => None) None None (fun k => (k, None))
    (fun _ => None) (fun _ => None) None None.

Definition sync_file (f : file) : file := mkFile (content f) (length (content f)) (named f).

Definition name_file (f : file) : file := mkFile (content f) (synced f) true.

Record DiskLog : Type := mkDiskLog {
  files : gmap string file;
  rotateSize : Z;
  active : bool;          (* an active segment is open *)
  activeSeq : Z;
  activeSize : Z;
  dl_hard : HardState;
  dl_entries : list Entry;
  failed : option error;
  closed : bool;
}.

Definition with_failed (e : error) (l : DiskLog) : DiskLog :=
  mkDiskLog (files l) (rotateSize l) (active l) (activeSeq l) (activeSize l) (dl_hard l) (dl_entries l)
    (Some e) (closed l).

Definition with_files (fs : gmap string file) (l : DiskLog) : DiskLog :=
  mkDiskLog fs (rotateSize l) (active l) (activeSeq l) (activeSize l) (dl_hard l) (dl_entries l)
    (failed l) (closed l).

Definition dl_lastIndex (es : list Entry) : Z := (firstLast es).2.

(** [truncateEntries] on the mirror. *)
Definition truncateEntries (idx : Z) (es : list Entry) : list Entry := cut_at (fun e => idx <=? Index e) es.

(** The loop of [checkContiguous] and of [applyRecord]: each index follows the one before. *)
Fixpoint runOk (prev : Z) (es : list Entry) : bool :=
  match es with
  | [] => true
  | e :: es' => if negb (Index e =? prev +u 1) then false else runOk (Index e) es'
  end.

Definition checkContiguous (es : list Entry) (last : Z) : option error :=
  match es with
  | [] => None
  | e0 :: rest =>
      if (Index e0 =? 0) || (last +u 1 <? Index e0) then Some "disklog: non-contiguous append"
      else if negb (runOk (Index e0) rest) then Some "disklog: non-contiguous batch"
      else None
  end.

Section disklog.
Context (marshal : LogRecord -> result bytes) (unmarshal : bytes -> option LogRecord).

(** * Writing *)

(** [appendFrame]: the buffer arithmetic of the code is the size check; the frame is the
    start marker, the symbols of header and payload, and the end marker. *)
Definition appendFrame (batch : bytes) (r : LogRecord) : result bytes :=
  match marshal r with
  | Err e => Err ("disklog: marshal record: " +:+ e)
  | Ok payload =>
      let len := Z.of_nat (length payload) in
      if max_u32 <? len then Err "disklog: record payload overflows frame length"
      else
        match checkedFrameSize len with
        | None => Err "disklog: record payload overflows physical frame size"
        | Some physicalSize =>
            match checkedAddUint64 (Z.of_nat (length batch)) physicalSize with
            | None => Err "disklog: batch size overflows uint64"
            | Some totalSize =>
                physicalSizeInt <-r checkedInt physicalSize ;
                totalSizeInt <-r checkedInt totalSize ;
                let header := le_put 4 len ++ le_put 4 (crc32c payload) in
                headerSymbols <-r encodeSymbols (Z.of_nat (length header) * 2) header ;
                payloadSymbols <-r encodeSymbols (physicalSizeInt - 2 - Z.of_nat (length headerSymbols)) payload ;
                Ok (batch ++ byte_of_Z frameStart :: headerSymbols ++ payloadSymbols ++ [byte_of_Z frameEnd])
            end
        end
  end.

Definition encodeBatch (hs : option HardState) (es : list Entry) (last : Z) : result bytes :=
  batch1 <-r match hs with
             | Some h => appendFrame [] (Some (LogRecord_HardState (hs_Term h) (VotedFor h)))
             | None => Ok []
             end ;
  match es with
  | [] => Ok batch1
  | e0 :: _ =>
      batch2 <-r (if Index e0 <=? last
                  then appendFrame batch1 (Some (LogRecord_Truncate (Index e0))) else Ok batch1) ;
      appendFrame batch2 (Some (LogRecord_Entries es))
  end.

(** [createSegment]: the files after it, or an error. *)
Definition createSegment (os : OS) (seq : Z) (fs : gmap string file) : gmap string file * option error :=
  match os_create os, fs !! segmentName seq with
  | Some e, _ => (fs, Some ("disklog: create segment: " +:+ e))
  | None, Some _ => (fs, Some "disklog: create segment: file exists")
  | None, None =>
      let fs' := <[segmentName seq := mkFile [] 0 false]> fs in
      match os_syncDir os with
      | Some e => (fs', Some ("disklog: sync dir: " +:+ e))
      | None => (name_file <$> fs', None)
      end
  end.

Definition rotateIfNeeded (os : OS) (batchSize : Z) (l : DiskLog) : DiskLog * option error :=
  if batchSize <? 0 then (l, Some "disklog: negative batch size")
  else if (activeSize l =? 0) ||
          ((activeSize l <=? rotateSize l) && (batchSize <=? rotateSize l - activeSize l))
  then (l, None)
  else
    match os_close os (segmentName (activeSeq l)) with
    | Some e => (l, Some ("disklog: close: " +:+ e))
    | None =>
        let l1 := mkDiskLog (files l) (rotateSize l) false (activeSeq l) (activeSize l) (dl_hard l)
                    (dl_entries l) (failed l) (closed l) in
        if activeSeq l =? max_u64 then (l1, Some "disklog: segment sequence overflow")
        else
          let '(fs', err) := createSegment os (activeSeq l +u 1) (files l) in
          match err with
          | Some e => (with_files fs' l1, Some e)
          | None =>
              (mkDiskLog fs' (rotateSize l) true (activeSeq l +u 1) 0 (dl_hard l) (dl_entries l)
                 (failed l) (closed l), None)
          end
    end.

(** The active segment after [n] bytes of [batch] were appended to it. *)
Definition appendActive (batch : bytes) (n : nat) (l : DiskLog) : DiskLog :=
  let name := segmentName (activeSeq l) in
  let f := default (mkFile [] 0 true) (files l !! name) in
  with_files (<[name := mkFile (content f ++ take n batch) (synced f) (named f)]> (files l)) l.

Definition syncActive (l : DiskLog) : DiskLog :=
  let name := segmentName (activeSeq l) in
  let f := default (mkFile [] 0 true) (files l !! name) in
  with_files (<[name := sync_file f]> (files l)) l.

Definition dl_Save (os : OS) (hs : option HardState) (es : list Entry) (l : DiskLog)
    : DiskLog * option error :=
  if closed l then (l, Some errClosed)
  else
    match failed l with
    | Some e => (l, Some ("disklog: poisoned by earlier failure: " +:+ e))
    | None =>
        match hs, es with
        | None, [] => (l, None)
        | _, _ =>
            let last := dl_lastIndex (dl_entries l) in
            match checkContiguous es last with
            | Some e => (l, Some e)
            | None =>
                match encodeBatch hs es last with
                | Err e => (l, Some e)
                | Ok batch =>
                    let batchSize := Z.of_nat (length batch) in
                    let '(l1, err) := rotateIfNeeded os batchSize l in
                    match err with
                    | Some e => (with_failed e l1, Some e)
                    | None =>
                        let '(n, werr) := os_write os (length batch) in
                        let l2 := appendActive batch n l1 in
                        match werr with
                        | Some e => (with_failed e l2, Some ("disklog: write: " +:+ e))
                        | None =>
                            if negb (Nat.eqb n (length batch))
                            then (with_failed "short write" l2, Some "disklog: write: short write")
                            else
                              match os_sync os (segmentName (activeSeq l2)) with
                              | Some e => (with_failed e l2, Some ("disklog: sync: " +:+ e))
                              | None =>
                                  let l3 := syncActive l2 in
                                  (mkDiskLog (files l3) (rotateSize l3) (active l3) (activeSeq l3)
                                     (activeSize l3 +i batchSize)
                                     (match hs with Some h => h | None => dl_hard l3 end)
                                     (match es with
                                      | [] => dl_entries l3
                                      | e0 :: _ => truncateEntries (Index e0) (dl_entries l3) ++ cloneEntries es
                                      end)
                                     (failed l3) (closed l3), None)
                              end
                        end
                    end
                end
            end
        end
    end.

Definition dl_HardState (l : DiskLog) : result HardState := Ok (dl_hard l).

Definition dl_Entries (lo hi : Z) (l : DiskLog) : result (list Entry) :=
  let '(first, last) := firstLast (dl_entries l) in
  if (hi <? lo) || (lo <? first) || (last +u 1 <? hi) then Err ErrOutOfBounds
  else Ok (cloneEntries (slice (lo -u first) (hi -u first) (dl_entries l))).

Definition dl_FirstIndex (l : DiskLog) : Z := (firstLast (dl_entries l)).1.
Definition dl_LastIndex (l : DiskLog) : Z := dl_lastIndex (dl_entries l).

(** [Close]; both handles are released whatever their close reports. *)
Definition dl_Close (os : OS) (l : DiskLog) : DiskLog * option error :=
  if closed l then (l, None)
  else
    let errFile := if active l then os_close os (segmentName (activeSeq l)) else None in
    (mkDiskLog (files l) (rotateSize l) (active l) (activeSeq l) (activeSize l) (dl_hard l) (dl_entries l)
       (failed l) true,
     match errFile with Some e => Some e | None => os_closeDir os end).

(** * Reading *)

Definition hasSupportedRecordKind (r : LogRecord) : bool :=
  match r with Some _ => true | None => false end.

Definition decodeTerminatedFrame (symbols : bytes) : result LogRecord :=
  let symbolCount := Z.of_nat (length symbols) in
  if negb (symbolCount mod encodedByteWidth =? 0) then Err "odd interior symbol count"
  else
    let bodySize := symbolCount / encodedByteWidth in
    if bodySize <? frameHeaderSize then Err "short decoded body"
    else
      match checkedMulUint64 frameHeaderSize encodedByteWidth with
      | None => Err "frame header symbol count overflow"
      | Some headerSymbolCount =>
          headerSymbolCountInt <-r checkedInt headerSymbolCount ;
          let hn := Z.to_nat headerSymbolCountInt in
          header <-r decodeSymbols 8 (take hn symbols) ;
          let payloadSize := le_get (take 4 header) in
          match checkedAddUint64 frameHeaderSize payloadSize with
          | None => Err "decoded body size overflow"
          | Some wantBodySize =>
              if negb (bodySize =? wantBodySize) then Err "decoded body size mismatch"
              else
                payloadSizeInt <-r checkedInt payloadSize ;
                payload <-r decodeSymbols payloadSizeInt (drop hn symbols) ;
                if negb (crc32c payload =? le_get (drop 4 header)) then Err "crc32c mismatch"
                else
                  match unmarshal payload with
                  | None => Err "unmarshal LogRecord"
                  | Some r =>
                      if negb (hasSupportedRecordKind r)
                      then Err "unknown record type: unsupported or empty LogRecord oneof"
                      else Ok r
                  end
          end
      end.

(** [applyRecord] on the mirror. *)
Definition applyRecord (r : LogRecord) (m : recoveredState) : result recoveredState :=
  match r with
  | Some (LogRecord_HardState t v) => Ok (mkRecoveredState (mkHardState t v) (rs_entries m))
  | Some (LogRecord_Truncate from) =>
      if from =? 0 then Err "truncate record from index 0"
      else Ok (mkRecoveredState (rs_hard m) (truncateEntries from (rs_entries m)))
  | Some (LogRecord_Entries incoming) =>
      match incoming with
      | [] => Err "empty entries record"
      | e0 :: rest =>
          let last := dl_lastIndex (rs_entries m) in
          if (Index e0 =? 0) || (last +u 1 <? Index e0)
          then Err "entries record first index does not extend last index"
          else if negb (runOk (Index e0) rest) then Err "non-contiguous entries record"
          else Ok (mkRecoveredState (rs_hard m)
                     (truncateEntries (Index e0) (rs_entries m) ++ cloneEntries incoming))
      end
  | None => Err "unknown record type"
  end.

(** The scan for the terminator of a frame whose start marker was read: the number of
    bytes before it. *)
Inductive scanned : Type :=
  | Terminator (k : nat)
  | EndOfFile
  | BadByte (e : error).

Fixpoint scanFrame (k : nat) (rest : bytes) : scanned :=
  match rest with
  | [] => EndOfFile
  | b :: rest' =>
      if Z_of_byte b =? frameEnd then Terminator k
      else if Z_of_byte b =? frameStart then BadByte "start marker before frame terminator"
      else if negb (isFrameSymbol b) then BadByte "invalid interior byte"
      else scanFrame (S k) rest'
  end.

(** The loop of [replaySegment] over [buf[offset:]]: the mirror, and where to cut the
    file when its tail is an unterminated frame.  Every iteration consumes a frame, so
    [length buf] iterations are enough. *)
Fixpoint replayLoop (fuel : nat) (final : bool) (rest : bytes) (offset : nat) (m : recoveredState)
    : result (recoveredState * option nat) :=
  match fuel with
  | O => Ok (m, None)
  | S fuel' =>
      match rest with
      | [] => Ok (m, None)
      | b :: rest' =>
          if negb (Z_of_byte b =? frameStart) then Err (ErrCorrupt +:+ ": byte at record boundary")
          else
            match scanFrame 0 rest' with
            | BadByte e => Err (ErrCorrupt +:+ ": " +:+ e)
            | EndOfFile =>
                if negb final then Err (ErrCorrupt +:+ ": EOF before frame terminator in non-final segment")
                else Ok (m, Some offset)
            | Terminator k =>
                match decodeTerminatedFrame (take k rest') with
                | Err e => Err (ErrCorrupt +:+ ": " +:+ e)
                | Ok r =>
                    match applyRecord r m with
                    | Err e => Err (ErrCorrupt +:+ ": " +:+ e)
                    | Ok m' => replayLoop fuel' final (drop (S k) rest') (offset + S (S k)) m'
                    end
                end
            end
      end
  end.

Definition truncateTail (os : OS) (seq : Z) (offset : nat) (fs : gmap string file)
    : gmap string file * option error :=
  match os_tail os TailOpen, fs !! segmentName seq with
  | Some e, _ => (fs, Some ("disklog: open to drop torn tail: " +:+ e))
  | None, None => (fs, Some "disklog: open to drop torn tail: no such file")
  | None, Some f =>
      match os_tail os TailTruncate with
      | Some e => (fs, Some ("disklog: truncate torn tail: " +:+ e))
      | None =>
          let f1 := mkFile (take offset (content f)) (Nat.min offset (synced f)) (named f) in
          match os_tail os TailSync with
          | Some e => (<[segmentName seq := f1]> fs, Some ("disklog: sync after tail truncate: " +:+ e))
          | None => (<[segmentName seq := sync_file f1]> fs, os_tail os TailClose)
          end
      end
  end.

Definition replaySegment (os : OS) (seq : Z) (final : bool) (fs : gmap string file) (m : recoveredState)
    : gmap string file * result recoveredState :=
  match os_read os (segmentName seq), fs !! segmentName seq with
  | Some e, _ => (fs, Err ("disklog: read: " +:+ e))
  | None, None => (fs, Err "disklog: read: no such file")
  | None, Some f =>
      match replayLoop (S (length (content f))) final (content f) 0 m with
      | Err e => (fs, Err e)
      | Ok (m', None) => (fs, Ok m')
      | Ok (m', Some offset) =>
          match truncateTail os seq offset fs with
          | (fs', Some e) => (fs', Err e)
          | (fs', None) => (fs', Ok m')
          end
      end
  end.

(** The loop of [recover] over the segments. *)
Fixpoint replayAll (os : OS) (seqs : list Z) (fs : gmap string file) (m : recoveredState)
    : gmap string file * result recoveredState :=
  match seqs with
  | [] => (fs, Ok m)
  | seq :: seqs' =>
      match replaySegment os seq (match seqs' with [] => true | _ => false end) fs m with
      | (fs', Err e) => (fs', Err e)
      | (fs', Ok m') => replayAll os seqs' fs' m'
      end
  end.

(** The sync of one open segment. *)
Definition syncOpen (os : OS) (seq : Z) (fs : gmap string file) : gmap string file * option error :=
  match os_sync os (segmentName seq) with
  | Some e => (fs, Some ("disklog: recovery sync: " +:+ e))
  | None => (alter sync_file (segmentName seq) fs, None)
  end.

Definition syncSegment (os : OS) (seq : Z) (fs : gmap string file) : gmap string file * option error :=
  match os_open os (segmentName seq), fs !! segmentName seq with
  | Some e, _ => (fs, Some ("disklog: open for recovery sync: " +:+ e))
  | None, None => (fs, Some "disklog: open for recovery sync: no such file")
  | None, Some _ =>
      match syncOpen os seq fs with
      | (fs', Some e) => (fs', Some e)
      | (fs', None) => (fs', match os_close os (segmentName seq) with
                             | Some e => Some ("disklog: close after recovery sync: " +:+ e)
                             | None => None
                             end)
      end
  end.

Fixpoint syncSegments (os : OS) (seqs : list Z) (fs : gmap string file)
    : gmap string file * option error :=
  match seqs with
  | [] => (fs, None)
  | seq :: seqs' =>
      match syncSegment os seq fs with
      | (fs', Some e) => (fs', Some e)
      | (fs', None) => syncSegments os seqs' fs'
      end
  end.

(** [recover]: the log it leaves, or the error, with the files. *)
Definition recover (os : OS) (rot : Z) (seqs : list Z) (lastSeq : Z) (fs : gmap string file)
    : gmap string file * result DiskLog :=
  match replayAll os seqs fs rs_init with
  | (fs1, Err e) => (fs1, Err e)
  | (fs1, Ok m) =>
      match os_open os (segmentName lastSeq), fs1 !! segmentName lastSeq, os_stat os with
      | Some e, _, _ => (fs1, Err ("disklog: reopen: " +:+ e))
      | None, None, _ => (fs1, Err "disklog: reopen: no such file")
      | None, Some _, Some e => (fs1, Err ("disklog: stat: " +:+ e))
      | None, Some f, None =>
          match syncSegments os (take (length seqs - 1) seqs) fs1 with
          | (fs2, Some e) => (fs2, Err e)
          | (fs2, None) =>
              match syncOpen os lastSeq fs2 with
              | (fs3, Some e) => (fs3, Err e)
              | (fs3, None) =>
                  match os_syncDir os with
                  | Some e => (fs3, Err ("disklog: recovery sync dir: " +:+ e))
                  | None =>
                      let fs4 := name_file <$> fs3 in
                      (fs4, Ok (mkDiskLog fs4 rot true lastSeq (Z.of_nat (length (content f)))
                                  (rs_hard m) (rs_entries m) None false))
                  end
              end
          end
      end
  end.

Fixpoint insert_seq (x : Z) (l : list Z) : list Z :=
  match l with
  | [] => [x]
  | y :: l' => if x <=? y then x :: l else y :: insert_seq x l'
  end.

(** The gap check of [listSegments]: the sorted numbers are 1, 2, ... *)
Fixpoint checkGap (i : Z) (seqs : list Z) : bool :=
  match seqs with
  | [] => true
  | s :: seqs' => if negb (s =? i) then false else checkGap (i +u 1) seqs'
  end.

Definition listSegments (fs : gmap string file) : result (list Z) :=
  let seqs := foldr insert_seq [] (omap parseSegmentName (map_to_list fs).*1) in
  if checkGap 1 seqs then Ok seqs else Err (ErrCorrupt +:+ ": segment sequence gap").

Definition Open (os : OS) (RotateSize : Z) (fs : gmap string file) : gmap string file * result DiskLog :=
  if RotateSize <? 0 then (fs, Err "disklog: negative rotate size")
  else
    let rot := if RotateSize =? 0 then DefaultRotateSize else RotateSize in
    match os_openDir os, os_readDir os with
    | Some e, _ => (fs, Err ("disklog: open dir: " +:+ e))
    | None, Some e => (fs, Err ("disklog: read dir: " +:+ e))
    | None, None =>
        match listSegments fs with
        | Err e => (fs, Err e)
        | Ok seqs =>
            match last seqs with
            | None =>
                match createSegment os 1 fs with
                | (fs', Some e) => (fs', Err e)
                | (fs', None) => (fs', Ok (mkDiskLog fs' rot true 1 0 (mkHardState 0 0) [] None false))
                end
            | Some lastSeq => recover os rot seqs lastSeq fs
            end
        end
    end.
End disklog.
