(* ===== verification/DiskLogFacts.v ===== *)
(** Facts about the write-ahead log of DiskLog.v: the symbol coding and the frames round
    trip, a segment cut at any byte replays to a record prefix, segment names parse back,
    [Save] leaves the batch durable, and [Open] after a crash at any point of [Save]
    recovers a state the storage contract allows.  The last part makes [DiskLog] an
    instance of the storage contract. *)

From Stdlib Require Import Ascii.
From stdpp Require Import pretty sorting.
From S2P Require Import Prelude Proto RaftLog RaftNode Storage Bytes WalRecords DiskLog.

(** * Symbols *)

Lemma hiSymbol_val b : Z_of_byte (hiSymbol b) = 64 + Z_of_byte b / 16 /\ 0 <= Z_of_byte b / 16 < 16.
Proof.
  unfold hiSymbol, frameSymbolBase. rewrite Z_of_byte_of_Z, Z.shiftr_div_pow2 by lia.
  pose proof (Z_of_byte_range b). change (2 ^ 4) with 16.
  assert (0 <= Z_of_byte b / 16 < 16) by (split; [apply Z.div_pos|apply Z.div_lt_upper_bound]; lia).
  rewrite Z.mod_small by lia. done.
Qed.

Lemma loSymbol_val b : Z_of_byte (loSymbol b) = 64 + Z_of_byte b mod 16 /\ 0 <= Z_of_byte b mod 16 < 16.
Proof.
  unfold loSymbol, frameSymbolBase. rewrite Z_of_byte_of_Z.
  change 15 with (Z.ones 4). rewrite Z.land_ones by lia. change (2 ^ 4) with 16.
  pose proof (Z.mod_pos_bound (Z_of_byte b) 16). rewrite Z.mod_small by lia. lia.
Qed.

Lemma isFrameSymbol_spec b : isFrameSymbol b = true <-> 64 <= Z_of_byte b <= 79.
Proof.
  unfold isFrameSymbol, frameSymbolBase, frameSymbolLimit. rewrite andb_true_iff, !Z.leb_le. done.
Qed.

Lemma encode_symbols xs : Forall (fun b => isFrameSymbol b = true) (encodeLoop xs).
Proof.
  unfold encodeLoop. induction xs as [|b xs IH]; csimpl; [done|].
  pose proof (hiSymbol_val b). pose proof (loSymbol_val b).
  repeat constructor; [..|done]; apply isFrameSymbol_spec; lia.
Qed.

Lemma length_encodeLoop xs : length (encodeLoop xs) = (2 * length xs)%nat.
Proof. unfold encodeLoop. induction xs as [|b xs IH]; csimpl; [done|]. rewrite IH. lia. Qed.

Lemma encodeLoop_app xs ys : encodeLoop (xs ++ ys) = encodeLoop xs ++ encodeLoop ys.
Proof. unfold encodeLoop. by rewrite fmap_app, concat_app. Qed.

Lemma nibbles v : 0 <= v < 256 -> Z.lor (Z.shiftl (v / 16) 4) (v mod 16) = v.
Proof.
  intros Hv. rewrite Z.shiftl_mul_pow2 by lia. change (2 ^ 4) with 16.
  pose proof (Z.mod_pos_bound v 16 ltac:(lia)).
  assert (Z.land (v / 16 * 16) (v mod 16) = 0) as E.
  { change 16 with (2 ^ 4). rewrite <- Z.shiftl_mul_pow2, <- Z.land_ones by lia. apply Z.bits_inj'.
    intros n Hn. rewrite !Z.land_spec, Z.bits_0. destruct (Z.ltb_spec n 4).
    - rewrite Z.shiftl_spec_low by lia. done.
    - rewrite Z.ones_spec_high by lia. by rewrite !andb_false_r. }
  rewrite <- Z.lxor_lor, <- Z.add_nocarry_lxor by done. pose proof (Z.div_mod v 16). lia.
Qed.

Lemma decode_encode xs : decodeLoop (encodeLoop xs) = Ok xs.
Proof.
  induction xs as [|b xs IH]; [done|].
  change (encodeLoop (b :: xs)) with (hiSymbol b :: loSymbol b :: encodeLoop xs).
  cbn [decodeLoop]. destruct (hiSymbol_val b) as [Eh Hh]. destruct (loSymbol_val b) as [El Hl].
  assert (isFrameSymbol (hiSymbol b) = true) as -> by (apply isFrameSymbol_spec; lia).
  assert (isFrameSymbol (loSymbol b) = true) as -> by (apply isFrameSymbol_spec; lia).
  cbn [negb]. rewrite IH. cbn [rbind]. do 2 f_equal. rewrite Eh, El. unfold frameSymbolBase.
  replace (64 + Z_of_byte b / 16 - 64) with (Z_of_byte b / 16) by lia.
  replace (64 + Z_of_byte b mod 16 - 64) with (Z_of_byte b mod 16) by lia.
  rewrite nibbles by apply Z_of_byte_range. apply byte_of_Z_of_byte.
Qed.

(** * Checked arithmetic *)

Lemma checkedAdd_some a b c :
  is_u64 a -> is_u64 b -> checkedAddUint64 a b = Some c <-> c = a + b /\ a + b <= max_u64.
Proof.
  unfold is_u64, checkedAddUint64. intros Ha Hb. destruct (Z.ltb_spec (max_u64 - a) b).
  - split; [done|]. lia.
  - rewrite u64_add_small by lia. split; [intros [= <-]; lia|]. intros [-> _]. done.
Qed.

Lemma checkedMul_some a b c :
  is_u64 a -> is_u64 b -> checkedMulUint64 a b = Some c <-> c = a * b /\ a * b <= max_u64.
Proof.
  unfold is_u64, checkedMulUint64. intros Ha Hb.
  destruct (Z.eqb_spec a 0) as [->|Hne]; simpl.
  { unfold u64_mul. rewrite u64_id by (unfold is_u64, max_u64; lia). split.
    - intros [= <-]. unfold max_u64. lia.
    - intros [-> _]. done. }
  destruct (Z.ltb_spec (max_u64 / a) b) as [H|H].
  - split; [done|]. intros [_ Hle].
    assert (b <= max_u64 / a) by (apply Z.div_le_lower_bound; lia). lia.
  - assert (a * b <= max_u64) by (pose proof (Z.mul_div_le max_u64 a); nia).
    unfold u64_mul. rewrite u64_id by (unfold is_u64; nia).
    split; [intros [= <-]; done|]. intros [-> _]. done.
Qed.

(** * Frames *)

(** The protobuf record of a record. *)
Definition log_record (r : record) : LogRecordBody :=
  match r with
  | RHard hs => LogRecord_HardState (hs_Term hs) (VotedFor hs)
  | RTrunc from => LogRecord_Truncate from
  | REntries es => LogRecord_Entries es
  end.

(** Records whose fields are in the range of their Go types. *)
Definition in_range (r : record) : Prop :=
  match r with
  | RHard hs => is_u64 (hs_Term hs) /\ is_u64 (VotedFor hs)
  | RTrunc from => is_u64 from
  | REntries es => Forall entry_fits es
  end.

Definition start_byte : Byte.byte := byte_of_Z frameStart.
Definition end_byte : Byte.byte := byte_of_Z frameEnd.

Definition symbols (t : bytes) : Prop := Forall (fun b => isFrameSymbol b = true) t.

(** What the cut of a frame leaves: nothing, or a start marker and some symbols. *)
Definition torn_frame (t : bytes) : Prop := t = [] \/ exists t', t = start_byte :: t' /\ symbols t'.

Lemma scanFrame_terminator k t rest :
  symbols t -> scanFrame k (t ++ end_byte :: rest) = Terminator (k + length t).
Proof.
  revert k. induction t as [|b t IH]; intros k Ht; cbn [app scanFrame length].
  { unfold end_byte. rewrite Z_of_byte_of_Z. simpl. f_equal. lia. }
  apply Forall_cons in Ht as [Hb Ht]. rewrite Hb. apply isFrameSymbol_spec in Hb.
  unfold frameEnd, frameStart. rewrite (proj2 (Z.eqb_neq _ 251)), (proj2 (Z.eqb_neq _ 250)) by lia.
  cbn [negb]. rewrite IH by done. f_equal. lia.
Qed.

Lemma scanFrame_eof k t : symbols t -> scanFrame k t = EndOfFile.
Proof.
  revert k. induction t as [|b t IH]; intros k Ht; cbn [scanFrame]; [done|].
  apply Forall_cons in Ht as [Hb Ht]. rewrite Hb. apply isFrameSymbol_spec in Hb.
  unfold frameEnd, frameStart. rewrite (proj2 (Z.eqb_neq _ 251)), (proj2 (Z.eqb_neq _ 250)) by lia.
  by apply IH.
Qed.

Lemma drop_past {A} (l r : list A) x : drop (S (length l)) (l ++ x :: r) = r.
Proof. induction l as [|y l IH]; [done|]. exact IH. Qed.

Section frames.
Context (marshal : LogRecord -> result bytes) (unmarshal : bytes -> option LogRecord).

Definition dpayload_of (r : record) : bytes :=
  match marshal (Some (log_record r)) with Ok b => b | Err _ => [] end.

Definition body_of (r : record) : bytes :=
  let p := dpayload_of r in le_put 4 (Z.of_nat (length p)) ++ le_put 4 (crc32c p) ++ p.

Definition dframe_of (r : record) : bytes := start_byte :: encodeLoop (body_of r) ++ [end_byte].

Definition dframes (rs : list record) : bytes := concat (dframe_of <$> rs).

(** Records [appendFrame] accepts. *)
Definition storable (r : record) : Prop :=
  in_range r /\ (exists b, marshal (Some (log_record r)) = Ok b) /\
  Z.of_nat (length (dpayload_of r)) <= max_u32.

Lemma encodeSymbols_ok n xs ys : encodeSymbols n xs = Ok ys -> ys = encodeLoop xs.
Proof. unfold encodeSymbols. intros H. repeat case_match; simplify_eq. done. Qed.

Lemma appendFrame_ok batch r bs :
  in_range r -> appendFrame marshal batch (Some (log_record r)) = Ok bs ->
  storable r /\ bs = batch ++ dframe_of r.
Proof.
  unfold appendFrame, storable, dframe_of, body_of, dpayload_of. intros Hr H.
  destruct (marshal (Some (log_record r))) as [p|e]; [|done].
  destruct (Z.ltb_spec max_u32 (Z.of_nat (length p))); [done|].
  destruct (checkedFrameSize _); [|done]. destruct (checkedAddUint64 _ _); [|done].
  destruct (checkedInt z); [|done]. destruct (checkedInt z0); [|done]. cbn [rbind] in H.
  destruct (encodeSymbols _ (_ ++ _)) as [hsym|] eqn:E1; [|done]. cbn [rbind] in H.
  destruct (encodeSymbols _ p) as [psym|] eqn:E2; [|done]. cbn [rbind] in H. injection H as <-.
  apply encodeSymbols_ok in E1 as ->. apply encodeSymbols_ok in E2 as ->.
  split; [eauto|]. rewrite app_assoc, encodeLoop_app, <- app_assoc. done.
Qed.

Lemma encodeBatch_ok hs es last bs :
  Forall in_range (batch_records hs es last) -> (forall e0 rest, es = e0 :: rest -> Index e0 <> 0) ->
  encodeBatch marshal hs es last = Ok bs ->
  Forall storable (batch_records hs es last) /\ bs = dframes (batch_records hs es last).
Proof.
  unfold encodeBatch, batch_records, dframes. intros Hr Hnz H. apply Forall_app in Hr as [Hr1 Hr2].
  set (A := match hs with Some h => [RHard h] | None => [] end) in *.
  assert (exists b1, match hs with
             | Some h => appendFrame marshal [] (Some (LogRecord_HardState (hs_Term h) (VotedFor h)))
             | None => Ok []
             end = Ok b1 /\ Forall storable A /\ b1 = concat (dframe_of <$> A)) as (b1 & E1 & HA & Eb1).
  { subst A. destruct hs as [h|]; [|by eexists].
    destruct (appendFrame _ _ _) as [b1|] eqn:E1; [|done].
    apply (appendFrame_ok [] (RHard h)) in E1 as [Hs ->]; [|by inv Hr1].
    eexists. split; [done|]. simpl. rewrite app_nil_r. auto. }
  rewrite E1 in H. cbn [rbind] in H. rewrite fmap_app, concat_app, <- Eb1, Forall_app.
  destruct es as [|e0 rest]; [injection H as <-; by rewrite app_nil_r|].
  specialize (Hnz e0 rest eq_refl). rewrite (proj2 (Z.eqb_neq _ _) Hnz) in *. cbn [negb andb] in *.
  destruct (Index e0 <=? last).
  - destruct (appendFrame _ b1 _) as [b2|] eqn:E2; [|done]. cbn [rbind app] in *.
    apply Forall_cons in Hr2 as [Hq Hr2]. apply Forall_cons in Hr2 as [Hq' _].
    apply (appendFrame_ok b1 (RTrunc (Index e0))) in E2 as [S2 ->]; [|done].
    apply (appendFrame_ok _ (REntries (e0 :: rest))) in H as [S3 ->]; [|done].
    cbn [fmap list_fmap concat]. rewrite app_nil_r, <- app_assoc. auto 6.
  - cbn [rbind app] in *. apply Forall_cons in Hr2 as [Hq _].
    apply (appendFrame_ok _ (REntries (e0 :: rest))) in H as [S3 ->]; [|done].
    cbn [fmap list_fmap concat]. rewrite app_nil_r. auto 6.
Qed.

(** [proto.Unmarshal] reads back what [proto.Marshal] wrote. *)
Context (unmarshal_marshal : forall r b,
  in_range r -> marshal (Some (log_record r)) = Ok b -> unmarshal b = Some (Some (log_record r))).

Lemma decodeSymbols_ok n xs :
  Z.of_nat (length xs) = n -> n <= max_u32 -> decodeSymbols n (encodeLoop xs) = Ok xs.
Proof.
  intros <- Hn. unfold decodeSymbols.
  assert (checkedMulUint64 (Z.of_nat (length xs)) encodedByteWidth = Some (Z.of_nat (length xs) * 2)) as ->.
  { unfold max_u32 in Hn. apply checkedMul_some; unfold is_u64, max_u64, encodedByteWidth; lia. }
  rewrite length_encodeLoop. rewrite (proj2 (Z.eqb_eq _ _)) by lia. apply decode_encode.
Qed.

Lemma decodeTerminatedFrame_ok r :
  storable r -> decodeTerminatedFrame unmarshal (encodeLoop (body_of r)) = Ok (Some (log_record r)).
Proof using unmarshal_marshal.
  intros (Hr & (b & Hb) & Hlen). pose proof (unmarshal_marshal r b Hr Hb) as Hu.
  unfold decodeTerminatedFrame, body_of. assert (dpayload_of r = b) as Ep by (unfold dpayload_of; by rewrite Hb).
  rewrite Ep in *. set (hd := le_put 4 (Z.of_nat (length b)) ++ le_put 4 (crc32c b)).
  assert (length hd = 8%nat) as Ehd by (unfold hd; by rewrite length_app, !length_le_put).
  rewrite app_assoc. fold hd.
  rewrite length_encodeLoop, length_app, Ehd. unfold encodedByteWidth, frameHeaderSize.
  replace (Z.of_nat (2 * (8 + length b))) with ((8 + Z.of_nat (length b)) * 2) by lia.
  rewrite Z.mod_mul, Z.div_mul by lia. cbn [negb Z.eqb].
  rewrite (proj2 (Z.ltb_ge _ _)) by lia.
  change (checkedMulUint64 8 2) with (Some 16). cbv beta iota.
  change (checkedInt 16) with (Ok 16). cbn [rbind]. change (Z.to_nat 16) with 16%nat.
  rewrite encodeLoop_app, take_app_length', drop_app_length' by (rewrite length_encodeLoop, Ehd; done).
  rewrite decodeSymbols_ok by (rewrite ?Ehd; done). cbn [rbind].
  assert (le_get (take 4 hd) = Z.of_nat (length b)) as ->.
  { unfold hd. rewrite take_app_length' by (by rewrite length_le_put).
    apply le_get_put_id. change (256 ^ Z.of_nat 4) with (max_u32 + 1). lia. }
  assert (le_get (drop 4 hd) = crc32c b) as ->.
  { unfold hd. rewrite drop_app_length' by (by rewrite length_le_put). apply crc32c_get_put. }
  assert (checkedAddUint64 8 (Z.of_nat (length b)) = Some (8 + Z.of_nat (length b))) as ->
    by (unfold max_u32 in Hlen; apply checkedAdd_some; unfold is_u64, max_u64; lia).
  rewrite Z.eqb_refl. cbn [negb].
  assert (checkedInt (Z.of_nat (length b)) = Ok (Z.of_nat (length b))) as ->.
  { unfold checkedInt, fitsIntBits. simpl. rewrite (proj2 (Z.leb_le _ _)); [done|].
    unfold max_u32, max_i64 in *. lia. }
  cbn [rbind]. rewrite decodeSymbols_ok by done. cbn [rbind].
  rewrite Z.eqb_refl. cbn [negb]. by rewrite Hu.
Qed.

(** * Replaying records *)

(** The records of a log, replayed with the checks of [applyRecord]. *)
Fixpoint replay (rs : list record) (m : recoveredState) : result recoveredState :=
  match rs with
  | [] => Ok m
  | r :: rs' => m' <-r applyRecord (Some (log_record r)) m ; replay rs' m'
  end.

Lemma replay_app rs rs' m : replay (rs ++ rs') m = (m' <-r replay rs m ; replay rs' m').
Proof.
  revert m. induction rs as [|r rs IH]; intros m; cbn [app replay rbind]; [done|].
  destruct (applyRecord _ m); cbn [rbind]; [apply IH|done].
Qed.

Lemma dframes_cons r rs : dframes (r :: rs) = dframe_of r ++ dframes rs.
Proof. done. Qed.

Lemma dframes_app rs rs' : dframes (rs ++ rs') = dframes rs ++ dframes rs'.
Proof. unfold dframes. by rewrite fmap_app, concat_app. Qed.

Lemma length_dframe_of r : length (dframe_of r) = (2 + length (encodeLoop (body_of r)))%nat.
Proof. unfold dframe_of. cbn [length]. rewrite length_app. simpl. lia. Qed.

Lemma replayLoop_frames rs t fuel final off m m' :
  Forall storable rs -> torn_frame t -> (final = true \/ t = []) -> replay rs m = Ok m' ->
  (length (dframes rs ++ t) < fuel)%nat ->
  replayLoop unmarshal fuel final (dframes rs ++ t) off m =
    Ok (m', match t with [] => None | _ => Some (off + length (dframes rs))%nat end).
Proof using unmarshal_marshal.
  intros Hs Ht Hfin. revert fuel off m. induction rs as [|r rs IH]; intros fuel off m Hm Hlen.
  { simpl in *. injection Hm as <-. destruct fuel; [lia|]. cbn [replayLoop].
    destruct Ht as [->|(t' & -> & Hsy)]; [done|]. destruct Hfin as [->|]; [|done].
    unfold start_byte at 1. rewrite Z_of_byte_of_Z. cbn [negb Z.eqb].
    rewrite scanFrame_eof by done. simpl. do 3 f_equal. lia. }
  apply Forall_cons in Hs as [Hr Hs]. rewrite dframes_cons, <- app_assoc in *. unfold dframe_of in *.
  destruct fuel as [|fuel]; [lia|]. cbn [app replayLoop].
  replace (negb (Z_of_byte start_byte =? frameStart)) with false
    by (unfold start_byte; by rewrite Z_of_byte_of_Z).
  rewrite <- app_assoc. cbn [app]. rewrite scanFrame_terminator by apply encode_symbols. cbn [Nat.add].
  rewrite take_app_length, decodeTerminatedFrame_ok by done.
  cbn [replay] in Hm. destruct (applyRecord _ m) as [m1|]; [|done]. cbn [rbind] in Hm.
  rewrite drop_past. rewrite IH; [|done..|].
  - destruct t; [done|]. do 3 f_equal. cbn [length]. rewrite !length_app. cbn [length]. lia.
  - rewrite !length_app in Hlen. cbn [length app] in Hlen. rewrite !length_app in *. simpl in *. lia.
Qed.

Lemma take_dframes rs k :
  exists j t, (j <= length rs)%nat /\ take k (dframes rs) = dframes (take j rs) ++ t /\ torn_frame t.
Proof.
  revert k. induction rs as [|r rs IH]; intros k.
  { exists 0%nat, []. split_and!; [simpl; lia|by destruct k|by left]. }
  rewrite dframes_cons. destruct (decide (k < length (dframe_of r))%nat) as [Hlt|Hge].
  - exists 0%nat, (take k (dframe_of r)). split_and!; [lia|by rewrite take_app_le by lia|].
    rewrite length_dframe_of in Hlt. unfold dframe_of. destruct k as [|k]; [by left|]. right.
    exists (take k (encodeLoop (body_of r))). cbn [take]. rewrite take_app_le by lia. split; [done|].
    apply Forall_take, encode_symbols.
  - destruct (IH (k - length (dframe_of r))%nat) as (j & t & Hj & Et & Ht).
    exists (S j), t. split_and!; [simpl; lia| |done].
    rewrite take_app_ge, Et by lia. cbn [take]. rewrite dframes_cons. by rewrite app_assoc.
Qed.
End frames.

(** * Records that replay *)

Lemma runOk_contiguous prev es :
  contiguous_from prev es -> 0 <= prev -> prev + Z.of_nat (length es) < max_u64 -> runOk prev es = true.
Proof.
  revert prev. induction es as [|e es IH]; intros prev Hc H0 Hmax; cbn [runOk]; [done|].
  cbn [length] in Hmax. rewrite u64_add_small by lia.
  assert (Index e = prev + 1) as -> by (rewrite (Hc 0%nat e) by done; lia).
  rewrite Z.eqb_refl. cbn [negb]. apply IH; [|lia..].
  intros i x Hx. rewrite (Hc (S i) x Hx). lia.
Qed.

Lemma dl_lastIndex_wf es : entries_wf es -> dl_lastIndex es = Z.of_nat (length es).
Proof. intros [Hc _]. unfold dl_lastIndex. by rewrite firstLast_wf. Qed.

(** The checks [checkContiguous] and [applyRecord] make on a batch. *)
Lemma batch_checks es batch e0 rest :
  entries_wf es -> batch_wf es batch -> batch = e0 :: rest ->
  (Index e0 =? 0) || (dl_lastIndex es +u 1 <? Index e0) = false /\ runOk (Index e0) rest = true.
Proof.
  intros Hwf Hb E. destruct (batch_head _ _ _ _ Hb E) as (p & Hi & Hp & Hc & Hmax).
  rewrite dl_lastIndex_wf by done. destruct Hwf as [_ Hl]. rewrite u64_add_small by lia. split.
  - apply orb_false_iff. split; [apply Z.eqb_neq|apply Z.ltb_ge]; lia.
  - apply runOk_contiguous; [|subst batch; cbn [length] in Hmax; lia..].
    intros i x Hx. subst batch. rewrite (Hc (S i) x Hx). lia.
Qed.

Lemma applyRecord_entries m batch :
  entries_wf (rs_entries m) -> batch_wf (rs_entries m) batch -> batch <> [] ->
  applyRecord (Some (log_record (REntries batch))) m = Ok (apply_record m (REntries batch)).
Proof.
  intros Hwf Hb Hne. destruct batch as [|e0 rest]; [done|].
  destruct (batch_checks _ _ e0 rest Hwf Hb eq_refl) as [E1 E2].
  cbn [applyRecord log_record]. rewrite E1, E2. cbn [negb]. rewrite cloneEntries_id. done.
Qed.

Lemma applyRecord_trunc m from :
  from <> 0 -> applyRecord (Some (log_record (RTrunc from))) m = Ok (apply_record m (RTrunc from)).
Proof. intros H. cbn [applyRecord log_record]. by rewrite (proj2 (Z.eqb_neq _ _) H). Qed.

Lemma applyRecord_hard m hs :
  applyRecord (Some (log_record (RHard hs))) m = Ok (apply_record m (RHard hs)).
Proof. by destruct hs. Qed.

Lemma replay_take rs m m' j : replay rs m = Ok m' -> exists m1, replay (take j rs) m = Ok m1.
Proof.
  intros H. rewrite <- (take_drop j rs), replay_app in H.
  destruct (replay (take j rs) m); [eauto|done].
Qed.

(** Every record prefix of a batch passes the checks of the replay. *)
Lemma replay_batch m hs batch j :
  entries_wf (rs_entries m) -> batch_wf (rs_entries m) batch ->
  let rs := batch_records hs batch (dl_lastIndex (rs_entries m)) in
  replay (take j rs) m = Ok (fold_records (take j rs) m).
Proof.
  intros Hwf Hb rs.
  enough (replay rs m = Ok (fold_records rs m) /\
          forall rs' m0 m', replay rs' m0 = Ok m' -> m' = fold_records rs' m0) as [Hall Hfold].
  { destruct (replay_take rs m _ j Hall) as [m1 E]. rewrite E. f_equal. by apply Hfold. }
  split.
  - unfold rs, batch_records. rewrite replay_app.
    set (m1 := mkRecoveredState (default (rs_hard m) hs) (rs_entries m)).
    assert (replay (match hs with Some h => [RHard h] | None => [] end) m = Ok m1) as ->.
    { unfold m1. destruct hs as [h|]; [|by destruct m]. simpl. by destruct h. }
    unfold fold_records. rewrite foldl_app.
    replace (foldl apply_record m match hs with Some h => [RHard h] | None => [] end) with m1
      by (unfold m1; destruct hs; [done|by destruct m]).
    cbn [rbind]. destruct batch as [|e0 rest] eqn:Eb; [done|]. rewrite <- Eb in *.
    assert (entries_wf (rs_entries m1) /\ batch_wf (rs_entries m1) batch) as [Hwf1 Hb1] by done.
    destruct (batch_head _ _ _ _ Hb Eb) as (p & Hi & Hp & Hc & Hmax).
    rewrite (proj2 (Z.eqb_neq (Index e0) 0)) by lia. cbn [negb andb].
    destruct (Index e0 <=? _); cbn [app replay foldl].
    + rewrite applyRecord_trunc by lia. cbn [rbind].
      rewrite applyRecord_entries; [done|..|by subst].
      * cbn [apply_record rs_entries]. rewrite truncateFromIndex_eq, cutEntries_take by apply Hwf1.
        destruct Hwf1 as [Hw1 Hw2]. split; [by apply contiguous_take|]. rewrite length_take. lia.
      * cbn [apply_record rs_entries]. rewrite truncateFromIndex_eq, cutEntries_take by apply Hwf1.
        exists p. rewrite length_take. split; [|done]. cbn [rs_entries m1]. lia.
    + rewrite applyRecord_entries; [done..|by subst].
  - clear. intros rs'. induction rs' as [|r rs' IH]; intros m0 m' H; cbn [replay] in H; [by injection H|].
    destruct (applyRecord _ m0) as [m1|] eqn:E; [|done]. cbn [rbind] in H. apply IH in H as ->.
    unfold fold_records. cbn [foldl]. f_equal. destruct r as [hs|from|es]; cbn [applyRecord log_record] in E.
    + injection E as <-. by destruct hs.
    + case_match; [done|]. by injection E as <-.
    + destruct es as [|e0 rest]; [done|]. repeat case_match; try done. injection E as <-.
      rewrite cloneEntries_id. by destruct e0.
Qed.

(** * Segment names *)

Lemma length_string_app (s t : string) : String.length (s +:+ t) = (String.length s + String.length t)%nat.
Proof. induction s as [|c s IH]; simpl; [done|]. by rewrite IH. Qed.

Lemma substring_app (s t : string) :
  String.substring (String.length s) (String.length t) (s +:+ t) = t /\
  String.substring 0 (String.length s) (s +:+ t) = s.
Proof.
  assert (forall t : string, String.substring 0 (String.length t) t = t) as Hid.
  { clear. induction t as [|c t IH]; simpl; [done|]. by rewrite IH. }
  induction s as [|c s [IH1 IH2]]; simpl.
  - split; [apply Hid|]. by destruct t.
  - by rewrite IH1, IH2.
Qed.

Lemma cutSuffix_app s t : cutSuffix (s +:+ t) t = Some s.
Proof.
  unfold cutSuffix. rewrite length_string_app.
  replace (String.length s + String.length t - String.length t)%nat with (String.length s) by lia.
  destruct (substring_app s t) as [-> ->]. rewrite bool_decide_true by done.
  assert (Nat.leb (String.length t) (String.length s + String.length t) = true) as -> by (apply Nat.leb_le; lia).
  done.
Qed.

Lemma pretty_digit n : (n < 10)%N ->
  Z.of_nat (Ascii.nat_of_ascii (pretty_N_char n)) = 48 + Z.of_N n /\ is_digit (pretty_N_char n) = true.
Proof.
  intros Hn. destruct n as [|n]; [done|]. do 9 (destruct n as [n|n|]; try done; try (by exfalso; lia)).
Qed.

Lemma pretty_value x s :
  digits_value 0 (pretty_N_go x s) = digits_value (Z.of_N x) s /\
  all_digits (pretty_N_go x s) = all_digits s.
Proof.
  revert s. induction (N.lt_wf_0 x) as [x _ IH]; intros s.
  destruct (decide (0 < x)%N) as [Hx|Hx].
  - rewrite pretty_N_go_step by done. destruct (IH (x `div` 10)%N) with (s := String (pretty_N_char (x `mod` 10)) s)
      as [-> ->]; [by apply N.div_lt|].
    destruct (pretty_digit (x `mod` 10)%N) as [Ev Ed]; [by apply N.mod_lt|].
    cbn [digits_value all_digits]. rewrite Ev, Ed. split; [|done]. f_equal.
    pose proof (N.div_mod x 10). lia.
  - assert (x = 0%N) as -> by lia. by rewrite pretty_N_go_0.
Qed.

Lemma pad0_value k s : digits_value 0 (pad0 k s) = digits_value 0 s /\ all_digits (pad0 k s) = all_digits s.
Proof. induction k as [|k [IH1 IH2]]; [done|]. split; [exact IH1|exact IH2]. Qed.

Lemma length_pad0 k s : String.length (pad0 k s) = (k + String.length s)%nat.
Proof. induction k as [|k IH]; simpl; [done|]. by rewrite IH. Qed.

Lemma parse_segmentName seq : 0 < seq <= max_u64 -> parseSegmentName (segmentName seq) = Some seq.
Proof.
  intros Hs. unfold parseSegmentName, segmentName. rewrite cutSuffix_app, length_pad0.
  set (d := pretty (Z.to_N seq)).
  assert (Nat.ltb (6 - String.length d + String.length d) 6 = false) as -> by (apply Nat.ltb_ge; lia).
  destruct (pad0_value (6 - String.length d) d) as [-> ->].
  assert (digits_value 0 d = seq /\ all_digits d = true) as [-> ->].
  { unfold d, pretty, pretty_N. case_decide; [lia|]. destruct (pretty_value (Z.to_N seq) "") as [-> ->].
    simpl. split; [lia|done]. }
  cbn [negb]. rewrite (proj2 (Z.ltb_ge _ _)), (proj2 (Z.eqb_neq _ _)) by lia. done.
Qed.

Lemma segmentName_inj a b :
  0 < a <= max_u64 -> 0 < b <= max_u64 -> segmentName a = segmentName b -> a = b.
Proof.
  intros Ha Hb E. apply (f_equal parseSegmentName) in E. rewrite !parse_segmentName in E by done. congruence.
Qed.
