(* ===== verification/DiskRecovery.v ===== *)
(** Recovery of the write-ahead log: what [Open] makes of the files a crash leaves, what
    [Save] does to them, and the storage contract of [DiskLog].

    [layout fs segs t] says which records each segment file of [fs] holds, and that the
    last one ends in the bytes [t]; [durable_segs] that an fsync covered the records and
    the names.  A crash keeps, of every file, a prefix that includes what was synced, and
    may lose a file whose name was not. *)

From stdpp Require Import sorting.
From S2P Require Import Prelude Proto RaftLog RaftNode Storage Bytes WalRecords DiskLog DiskLogFacts.

(** * Listing the segments *)

Lemma insert_seq_perm x l : insert_seq x l ≡ₚ x :: l.
Proof.
  induction l as [|y l IH]; simpl; [done|]. case_match; [done|]. rewrite IH. apply Permutation_swap.
Qed.

Lemma sort_seq_perm l : foldr insert_seq [] l ≡ₚ l.
Proof. induction l as [|x l IH]; simpl; [done|]. by rewrite insert_seq_perm, IH. Qed.

Lemma insert_seq_sorted x l : StronglySorted Z.le l -> StronglySorted Z.le (insert_seq x l).
Proof.
  induction l as [|y l IH]; intros Hs; simpl; [by repeat constructor|].
  apply StronglySorted_cons in Hs as [Hy Hs].
  destruct (Z.leb_spec x y).
  - constructor; [by constructor|]. constructor; [done|]. eapply Forall_impl; [exact Hy|]. simpl. lia.
  - constructor; [by apply IH|]. rewrite insert_seq_perm. constructor; [lia|done].
Qed.

Lemma sort_seq_sorted l : StronglySorted Z.le (foldr insert_seq [] l).
Proof. induction l as [|x l IH]; simpl; [constructor|]. by apply insert_seq_sorted. Qed.

Lemma seqZ_sorted a n : StronglySorted Z.le (seqZ a (Z.of_nat n)).
Proof.
  revert a. induction n as [|n IH]; intros a; [constructor|].
  rewrite seqZ_cons by lia. replace (Z.pred (Z.of_nat (S n))) with (Z.of_nat n) by lia.
  constructor; [apply IH|]. apply Forall_forall. intros x Hx. apply elem_of_seqZ in Hx. lia.
Qed.

Lemma checkGap_seqZ a n : 0 <= a -> a + Z.of_nat n <= max_u64 + 1 -> checkGap a (seqZ a (Z.of_nat n)) = true.
Proof.
  revert a. induction n as [|n IH]; intros a Ha Hmax; [done|].
  rewrite seqZ_cons by lia. cbn [checkGap]. rewrite Z.eqb_refl. cbn [negb].
  replace (Z.pred (Z.of_nat (S n))) with (Z.of_nat n) by lia.
  destruct n as [|n]; [done|]. rewrite u64_add_small by lia. apply IH; lia.
Qed.

Lemma NoDup_omap_strong {A B} (f : A -> option B) l :
  (forall x y z, x ∈ l -> y ∈ l -> f x = Some z -> f y = Some z -> x = y) -> NoDup l -> NoDup (omap f l).
Proof.
  intros Hf. induction 1 as [|x l Hx Hl IH]; csimpl; [constructor|].
  assert (NoDup (omap f l)) by (apply IH; intros; eapply Hf; [by right..|done|done]).
  destruct (f x) as [z|] eqn:E; [|done]. constructor; [|done].
  rewrite list_elem_of_omap. intros (y & Hy & E'). apply Hx.
  rewrite (Hf x y z); [done|by left|by right|done|done].
Qed.

(** The segments of a directory that holds exactly the segments 1 to [n]. *)
Lemma listSegments_ok (fs : gmap string file) n :
  Z.of_nat n <= max_u64 ->
  (forall i, (i < n)%nat -> is_Some (fs !! segmentName (Z.of_nat i + 1))) ->
  (forall name seq, is_Some (fs !! name) -> parseSegmentName name = Some seq ->
     1 <= seq <= Z.of_nat n /\ name = segmentName seq) ->
  listSegments fs = Ok (seqZ 1 (Z.of_nat n)).
Proof.
  intros Hmax Hall Honly. unfold listSegments.
  assert (forall name, name ∈ (map_to_list fs).*1 <-> is_Some (fs !! name)) as Hin.
  { intros name. rewrite list_elem_of_fmap. split.
    - intros ([k f] & -> & Hk). apply elem_of_map_to_list in Hk. eauto.
    - intros [f Hf]. exists (name, f). split; [done|]. by apply elem_of_map_to_list. }
  set (names := (map_to_list fs).*1) in *.
  assert (omap parseSegmentName names ≡ₚ seqZ 1 (Z.of_nat n)) as Hp.
  { apply NoDup_Permutation; [|apply NoDup_seqZ|].
    - apply NoDup_omap_strong; [|apply NoDup_fst_map_to_list].
      intros x y z Hx Hy Ex Ey. apply Hin in Hx, Hy.
      destruct (Honly _ _ Hx Ex) as [_ ->]. by destruct (Honly _ _ Hy Ey) as [_ ->].
    - intros x. rewrite list_elem_of_omap, elem_of_seqZ. split.
      + intros (name & Hn & Ep). apply Hin in Hn. destruct (Honly _ _ Hn Ep). lia.
      + intros Hx. exists (segmentName x). rewrite parse_segmentName by lia. split; [|done].
        apply Hin. specialize (Hall (Z.to_nat (x - 1))).
        replace (Z.of_nat (Z.to_nat (x - 1)) + 1) with x in Hall by lia. apply Hall. lia. }
  assert (foldr insert_seq [] (omap parseSegmentName names) = seqZ 1 (Z.of_nat n)) as ->.
  { apply (StronglySorted_unique Z.le); [apply sort_seq_sorted|apply seqZ_sorted|].
    by rewrite sort_seq_perm. }
  rewrite checkGap_seqZ by lia. done.
Qed.

(** * Crashes *)

(** A crash keeps of a file a prefix that includes the synced bytes. *)
Definition crash_file (f f' : file) : Prop :=
  exists k, (synced f <= k)%nat /\ f' = mkFile (take k (content f)) (synced f) (named f).

Definition crash_disk (fs fs' : gmap string file) : Prop :=
  (forall name f', fs' !! name = Some f' -> exists f, fs !! name = Some f /\ crash_file f f') /\
  (forall name f, fs !! name = Some f -> named f = true -> is_Some (fs' !! name)).

(** Some files were synced, nothing else changed. *)
Definition synced_more (fs fs' : gmap string file) : Prop :=
  forall name, fs' !! name = fs !! name \/ fs' !! name = sync_file <$> fs !! name.

#[export] Instance synced_more_preorder : PreOrder synced_more.
Proof.
  split; [by left|]. intros fs1 fs2 fs3 H1 H2 name.
  destruct (H2 name) as [-> | ->]; [apply H1|]. destruct (H1 name) as [-> | ->]; [by right|].
  right. by destruct (fs1 !! name).
Qed.

Definition is_synced (fs : gmap string file) (name : string) : Prop :=
  forall f, fs !! name = Some f -> synced f = length (content f).

Lemma is_synced_more fs fs' name : synced_more fs fs' -> is_synced fs name -> is_synced fs' name.
Proof.
  intros Hm Hs f Hf. destruct (Hm name) as [E|E]; rewrite E in Hf; [by apply Hs|].
  apply fmap_Some in Hf as (f0 & _ & ->). done.
Qed.

Lemma syncOpen_more os seq fs fs' err :
  syncOpen os seq fs = (fs', err) -> synced_more fs fs' /\ (err = None -> is_synced fs' (segmentName seq)).
Proof.
  unfold syncOpen. destruct (os_sync os _); intros [= <- <-]; [done|]. split.
  - intros name. destruct (decide (name = segmentName seq)) as [->|Hne].
    + right. by rewrite lookup_alter_eq.
    + left. by rewrite lookup_alter_ne.
  - intros _ f Hf. rewrite lookup_alter_eq in Hf. apply fmap_Some in Hf as (f0 & _ & ->). done.
Qed.

Lemma syncSegment_more os seq fs fs' err :
  syncSegment os seq fs = (fs', err) -> synced_more fs fs' /\ (err = None -> is_synced fs' (segmentName seq)).
Proof.
  unfold syncSegment. destruct (os_open os _); [by intros [= <- <-]|].
  destruct (fs !! segmentName seq); [|by intros [= <- <-]].
  destruct (syncOpen os seq fs) as [fs1 [e|]] eqn:E; apply syncOpen_more in E as [H1 H2];
    [by intros [= <- <-]|]. intros [= <- H]. split; [done|]. intros _. by apply H2.
Qed.

Lemma syncSegments_more os seqs fs fs' err :
  syncSegments os seqs fs = (fs', err) ->
  synced_more fs fs' /\ (err = None -> forall seq, seq ∈ seqs -> is_synced fs' (segmentName seq)).
Proof.
  revert fs. induction seqs as [|s seqs IH]; intros fs; cbn [syncSegments].
  { intros [= <- <-]. split; [done|]. intros _ seq Hin. by apply not_elem_of_nil in Hin. }
  destruct (syncSegment os s fs) as [fs1 [e|]] eqn:E; apply syncSegment_more in E as [H1 H2].
  { by intros [= <- <-]. }
  intros H. apply IH in H as [H3 H4]. split; [by etrans|]. intros Hn seq [->|Hin]%elem_of_cons.
  - eapply is_synced_more; [done|]. by apply H2.
  - by apply H4.
Qed.

(** With nothing failing, segments that exist are synced. *)
Lemma syncSegments_good seqs fs :
  Forall (fun seq => is_Some (fs !! segmentName seq)) seqs -> exists fs', syncSegments os_good seqs fs = (fs', None).
Proof.
  revert fs. induction seqs as [|s seqs IH]; intros fs Hall; [by eexists|].
  apply Forall_cons in Hall as [[f Hf] Hall]. cbn [syncSegments]. unfold syncSegment, syncOpen. simpl. rewrite Hf.
  apply IH. eapply Forall_impl; [exact Hall|]. intros x Hx. simpl.
  destruct (decide (segmentName x = segmentName s)) as [->|Hne].
  - rewrite lookup_alter_eq. by rewrite Hf.
  - by rewrite lookup_alter_ne.
Qed.

(** * The layout of the segments *)

Section recovery.
Context (marshal : LogRecord -> result bytes) (unmarshal : bytes -> option LogRecord).
Context (unmarshal_marshal : forall r b,
  in_range r -> marshal (Some (log_record r)) = Ok b -> unmarshal b = Some (Some (log_record r))).
Notation dframes := (dframes marshal).
Notation storable := (storable marshal).

Definition segname (i : nat) : string := segmentName (Z.of_nat i + 1).

Record layout (fs : gmap string file) (segs : list (list record)) (rs : list record) (t : bytes) : Prop := {
  lay_max : Z.of_nat (length segs) < max_u64;
  lay_sealed i r : segs !! i = Some r -> exists f, fs !! segname i = Some f /\ content f = dframes r;
  lay_last : exists f, fs !! segname (length segs) = Some f /\ content f = dframes rs ++ t;
  lay_only name seq : is_Some (fs !! name) -> parseSegmentName name = Some seq ->
    1 <= seq <= Z.of_nat (length segs) + 1 /\ name = segmentName seq;
}.

Definition durable_segs (fs : gmap string file) (segs : list (list record)) : Prop :=
  forall i r f, segs !! i = Some r -> fs !! segname i = Some f ->
    (length (dframes r) <= synced f)%nat /\ named f = true.

Lemma segname_inj i j :
  Z.of_nat i < max_u64 -> Z.of_nat j < max_u64 -> segname i = segname j -> i = j.
Proof. intros Hi Hj E. apply segmentName_inj in E; lia. Qed.

Lemma parse_segname i : Z.of_nat i < max_u64 -> parseSegmentName (segname i) = Some (Z.of_nat i + 1).
Proof. intros Hi. apply parse_segmentName. lia. Qed.

Lemma layout_ext fs fs' segs rs t :
  (forall name, content <$> fs' !! name = content <$> fs !! name) ->
  layout fs segs rs t -> layout fs' segs rs t.
Proof.
  intros He [Hm Hs Hl Ho].
  assert (forall name c, (exists f, fs !! name = Some f /\ content f = c) ->
          exists f, fs' !! name = Some f /\ content f = c) as Hc.
  { intros name c (f & Hf & Ec). specialize (He name). rewrite Hf in He. simpl in He.
    apply fmap_Some in He as (f' & Hf' & E). exists f'. split; [done|]. congruence. }
  split; [done|eauto|eauto|]. intros name seq Hn. apply Ho. specialize (He name).
  destruct Hn as [f Hf]. rewrite Hf in He. simpl in He. symmetry in He.
  apply fmap_Some in He as (f0 & Hf0 & _). eauto.
Qed.

Lemma synced_more_content fs fs' : synced_more fs fs' -> forall name, content <$> fs' !! name = content <$> fs !! name.
Proof. intros H name. destruct (H name) as [-> | ->]; [done|]. by destruct (fs !! name). Qed.

(** The last segment rewritten. *)
Lemma layout_last fs segs rs t f rs' t' :
  layout fs segs rs t -> content f = dframes rs' ++ t' ->
  layout (<[segname (length segs) := f]> fs) segs rs' t'.
Proof.
  intros [Hm Hs Hl Ho] Hc. split; [done|..].
  - intros i r Hi. destruct (Hs i r Hi) as (g & Hg & Ec). apply lookup_lt_Some in Hi.
    exists g. split; [|done]. rewrite lookup_insert_ne; [done|]. intros E.
    apply segname_inj in E; lia.
  - exists f. by rewrite lookup_insert_eq.
  - intros name seq Hn Hp. destruct (decide (name = segname (length segs))) as [->|Hne].
    + rewrite parse_segname in Hp by done. injection Hp as <-. split; [lia|done].
    + rewrite lookup_insert_ne in Hn by done. by apply Ho.
Qed.

(** A new segment after the last. *)
Lemma layout_new fs segs rs f rs' t' :
  layout fs segs rs [] -> content f = dframes rs' ++ t' -> Z.of_nat (length segs) + 1 < max_u64 ->
  layout (<[segname (S (length segs)) := f]> fs) (segs ++ [rs]) rs' t'.
Proof.
  intros [Hm Hs Hl Ho] Hc Hmax.
  assert (forall i, (i <= length segs)%nat ->
          <[segname (S (length segs)) := f]> fs !! segname i = fs !! segname i) as Hold.
  { intros i Hi. apply lookup_insert_ne. intros E. apply segname_inj in E; lia. }
  split; rewrite ?length_app; simpl; [lia|..].
  - intros i r Hi. apply lookup_app_Some in Hi as [Hi|[Hge Hi]].
    + rewrite Hold; [by apply Hs|]. apply lookup_lt_Some in Hi. lia.
    + apply list_lookup_singleton_Some in Hi as [Hi <-].
      rewrite Hold by lia. replace i with (length segs) by lia.
      destruct Hl as (g & Hg & Ec). exists g. rewrite app_nil_r in Ec. done.
  - exists f. rewrite Nat.add_1_r, lookup_insert_eq. done.
  - intros name seq Hn Hp. destruct (decide (name = segname (S (length segs)))) as [->|Hne].
    + rewrite parse_segname in Hp by lia. injection Hp as <-. split; [lia|done].
    + rewrite lookup_insert_ne in Hn by done. destruct (Ho _ _ Hn Hp). split; [lia|done].
Qed.

(** * Replay *)

(** The file of the last segment after an operation on it that kept its records. *)
Lemma durable_last fs segs rs f f0 :
  Z.of_nat (length segs) < max_u64 ->
  fs !! segname (length segs) = Some f0 ->
  (length (dframes rs) <= synced f0 -> length (dframes rs) <= synced f)%nat -> named f = named f0 ->
  durable_segs fs (segs ++ [rs]) -> durable_segs (<[segname (length segs) := f]> fs) (segs ++ [rs]).
Proof.
  intros Hm Hf0 Hs Hn Hd i r g Hi Hg. destruct (decide (i = length segs)) as [->|Hne].
  - rewrite lookup_insert_eq in Hg. injection Hg as <-. destruct (Hd _ _ _ Hi Hf0) as [H1 H2].
    rewrite lookup_app_r, Nat.sub_diag in Hi by lia. injection Hi as <-. split; [auto|congruence].
  - rewrite lookup_insert_ne in Hg; [by eapply Hd|]. intros E.
    apply lookup_lt_Some in Hi. rewrite length_app in Hi. simpl in Hi. apply segname_inj in E; lia.
Qed.

Lemma truncateTail_layout os fs segs rs t fs' err :
  layout fs segs rs t -> torn_frame t ->
  truncateTail os (Z.of_nat (length segs) + 1) (length (dframes rs)) fs = (fs', err) ->
  exists t', layout fs' segs rs t' /\ torn_frame t' /\ (err = None -> t' = []) /\
    (durable_segs fs (segs ++ [rs]) -> durable_segs fs' (segs ++ [rs])).
Proof.
  intros HL Ht H. unfold truncateTail in H. fold (segname (length segs)) in H.
  destruct (os_tail os TailOpen); [injection H as <- <-; by exists t|].
  destruct (lay_last _ _ _ _ HL) as (f & Hf & Ec). rewrite Hf in H.
  destruct (os_tail os TailTruncate); [injection H as <- <-; by exists t|].
  assert (take (length (dframes rs)) (content f) = dframes rs) as Et by (rewrite Ec; apply take_app_length).
  rewrite Et in H. set (f1 := mkFile _ _ _) in H.
  assert (forall g e, (length (dframes rs) <= synced f -> length (dframes rs) <= synced g)%nat ->
     named g = named f -> content g = dframes rs -> (<[segname (length segs) := g]> fs, e) = (fs', err) ->
     exists t', layout fs' segs rs t' /\ torn_frame t' /\ (err = None -> t' = []) /\
       (durable_segs fs (segs ++ [rs]) -> durable_segs fs' (segs ++ [rs]))) as Hfin.
  { intros g e Hsy Hn Hcg [= <- <-]. exists []. split_and!; [|by left|done|].
    - eapply layout_last; [done|]. by rewrite app_nil_r.
    - eapply durable_last; eauto using lay_max. }
  destruct (os_tail os TailSync).
  - eapply (Hfin f1); [..|exact H]; try done. simpl. lia.
  - eapply (Hfin (sync_file f1)); [..|exact H]; done.
Qed.

Lemma replaySegment_sealed os fs segs rs t i r m m' fs' res :
  layout fs segs rs t -> segs !! i = Some r -> Forall storable r -> replay r m = Ok m' ->
  replaySegment unmarshal os (Z.of_nat i + 1) false fs m = (fs', res) ->
  fs' = fs /\ (res = Ok m' \/ (exists e, res = Err e) /\ os_read os (segname i) <> None).
Proof using unmarshal_marshal.
  intros HL Hi Hs Hr H. unfold replaySegment in H. fold (segname i) in H.
  destruct (os_read os _); [injection H as <- <-; eauto 6|].
  destruct (lay_sealed _ _ _ _ HL _ _ Hi) as (f & Hf & Ec). rewrite Hf, Ec in H.
  pose proof (replayLoop_frames _ _ unmarshal_marshal r [] (S (length (dframes r))) false 0 m m') as E.
  rewrite app_nil_r in E. rewrite E in H; [|done|by left|by right|done|lia]. injection H as <- <-. eauto.
Qed.

Lemma replaySegment_last os fs segs rs t m m' fs' res :
  layout fs segs rs t -> torn_frame t -> Forall storable rs -> replay rs m = Ok m' ->
  replaySegment unmarshal os (Z.of_nat (length segs) + 1) true fs m = (fs', res) ->
  (exists t', layout fs' segs rs t' /\ torn_frame t' /\ (is_ok res = true -> res = Ok m' /\ t' = []) /\
    (durable_segs fs (segs ++ [rs]) -> durable_segs fs' (segs ++ [rs]))) /\
  (os = os_good -> is_ok res = true).
Proof using unmarshal_marshal.
  intros HL Ht Hs Hr H. unfold replaySegment in H. fold (segname (length segs)) in H.
  destruct (os_read os _) eqn:Eo.
  { injection H as <- <-. split; [|by intros ->]. exists t. split_and!; done. }
  destruct (lay_last _ _ _ _ HL) as (f & Hf & Ec). rewrite Hf, Ec in H.
  rewrite (replayLoop_frames _ _ unmarshal_marshal rs t _ true 0 m m') in H; [|done..|by left|done|lia].
  destruct t as [|b t'] eqn:Et.
  { injection H as <- <-. split; [|done]. exists []. done. }
  rewrite <- Et in *. cbn [Nat.add] in H. destruct (truncateTail os _ _ fs) as [fs1 err] eqn:E.
  pose proof E as E0. apply truncateTail_layout with (t := t) in E as (t1 & HL1 & Ht1 & Hn & Hd); [|done..].
  destruct err as [e|]; injection H as <- <-.
  - split; [by exists t1|]. intros ->. unfold truncateTail in E0. fold (segname (length segs)) in E0.
    by rewrite Hf in E0.
  - split; [|done]. exists t1. split_and!; try done. intros _. split; [done|]. by apply Hn.
Qed.

Lemma replayAll_layout os fs segs rs t n m m' fs' res :
  layout fs segs rs t -> torn_frame t -> Forall storable (concat segs ++ rs) ->
  (n <= length segs)%nat ->
  replay (concat (drop (length segs - n) segs) ++ rs) m = Ok m' ->
  replayAll unmarshal os (seqZ (Z.of_nat (length segs - n) + 1) (Z.of_nat (S n))) fs m = (fs', res) ->
  (exists t', layout fs' segs rs t' /\ torn_frame t' /\ (is_ok res = true -> res = Ok m' /\ t' = []) /\
    (durable_segs fs (segs ++ [rs]) -> durable_segs fs' (segs ++ [rs]))) /\
  (os = os_good -> is_ok res = true).
Proof using unmarshal_marshal.
  intros HL Ht Hs. revert m. induction n as [|n IH]; intros m Hn Hm H.
  - rewrite Nat.sub_0_r, drop_ge in * by lia. rewrite seqZ_cons in H by lia. simpl in Hm.
    cbn [replayAll Z.pred Z.of_nat] in H. rewrite seqZ_nil in H by lia.
    destruct (replaySegment _ _ _ _ _ _) as [fs1 r1] eqn:E.
    eapply replaySegment_last in E; [|done|done|by apply Forall_app in Hs as [_ ?]|done].
    destruct r1; cbn [replayAll] in H; injection H as <- <-; exact E.
  - rewrite seqZ_cons in H by lia. set (i := (length segs - S n)%nat) in *.
    replace (Z.pred (Z.of_nat (S (S n)))) with (Z.of_nat (S n)) in H by lia.
    replace (Z.succ (Z.of_nat i + 1)) with (Z.of_nat (length segs - n) + 1) in H by (unfold i; lia).
    destruct (lookup_lt_is_Some_2 segs i) as [r Hi]; [unfold i; lia|].
    rewrite (drop_S _ _ _ Hi) in Hm. replace (S i) with (length segs - n)%nat in Hm by (unfold i; lia).
    cbn [concat] in Hm. rewrite <- app_assoc, replay_app in Hm.
    destruct (replay r m) as [m1|] eqn:Er; [|done]. cbn [rbind] in Hm.
    cbn [replayAll] in H. rewrite seqZ_cons in H by lia.
    destruct (replaySegment _ _ _ _ _ _) as [fs1 r1] eqn:E.
    eapply replaySegment_sealed in E; [|done|done| |done]; last first.
    { apply Forall_app in Hs as [Hs _]. apply Forall_concat in Hs.
      eapply Forall_lookup_1 in Hs; done. }
    destruct E as [-> [->|[[e ->] Ho]]].
    + rewrite <- seqZ_cons in H by lia. eapply IH; [lia|done|exact H].
    + injection H as <- <-. split; [by exists t|]. intros ->. done.
Qed.

(** * Opening *)

Definition dl_state (l : DiskLog) : recoveredState := mkRecoveredState (dl_hard l) (dl_entries l).

(** The invariant of an open log whose records are [concat segs ++ rs]. *)
Record dl_inv (l : DiskLog) (segs : list (list record)) (rs : list record) : Prop := {
  li_layout : layout (files l) segs rs [];
  li_durable : durable_segs (files l) (segs ++ [rs]);
  li_storable : Forall storable (concat segs ++ rs);
  li_replay : replay (concat segs ++ rs) rs_init = Ok (dl_state l);
  li_wf : entries_wf (dl_entries l);
  li_seq : activeSeq l = Z.of_nat (length segs) + 1;
  li_active : active l = true;
  li_failed : failed l = None;
  li_closed : closed l = false;
}.

Lemma listSegments_layout fs segs rs t :
  layout fs segs rs t -> listSegments fs = Ok (seqZ 1 (Z.of_nat (S (length segs)))).
Proof.
  intros [Hm Hs Hl Ho]. apply listSegments_ok; [lia|..].
  - intros i Hi. destruct (decide (i = length segs)) as [->|Hne].
    + destruct Hl as (f & Hf & _). by exists f.
    + destruct (lookup_lt_is_Some_2 segs i) as [r Hr]; [lia|].
      destruct (Hs _ _ Hr) as (f & Hf & _). by exists f.
  - intros name seq Hn Hp. destruct (Ho _ _ Hn Hp). split; [lia|done].
Qed.

Lemma durable_more fs fs' segs rs t :
  layout fs segs rs t -> synced_more fs fs' -> durable_segs fs (segs ++ [rs]) -> durable_segs fs' (segs ++ [rs]).
Proof.
  intros HL Hm Hd i r f Hi Hf. destruct (Hm (segname i)) as [E|E]; rewrite E in Hf; [by eapply Hd|].
  apply fmap_Some in Hf as (f0 & Hf0 & ->). destruct (Hd _ _ _ Hi Hf0) as [_ Hn]. split; [|done].
  simpl. apply lookup_app_Some in Hi as [Hi|[Hge Hi]].
  - destruct (lay_sealed _ _ _ _ HL _ _ Hi) as (g & Hg & Eg). assert (g = f0) as -> by congruence. by rewrite Eg.
  - apply list_lookup_singleton_Some in Hi as [Hi <-].
    replace i with (length segs) in * by lia.
    destruct (lay_last _ _ _ _ HL) as (g & Hg & Eg). assert (g = f0) as -> by congruence.
    rewrite Eg, length_app. lia.
Qed.

(** Once every segment and then the directory were synced, the records are durable. *)
Lemma synced_durable fs segs rs :
  layout fs segs rs [] -> (forall i, (i <= length segs)%nat -> is_synced fs (segname i)) ->
  durable_segs (name_file <$> fs) (segs ++ [rs]).
Proof.
  intros HL Hs i r f Hi Hf. rewrite lookup_fmap in Hf. apply fmap_Some in Hf as (f0 & Hf0 & ->).
  simpl. split; [|done]. rewrite (Hs i) by (done || (apply lookup_lt_Some in Hi; rewrite length_app in Hi; simpl in Hi; lia)).
  apply lookup_app_Some in Hi as [Hi|[Hge Hi]].
  - destruct (lay_sealed _ _ _ _ HL _ _ Hi) as (g & Hg & Eg). assert (g = f0) as -> by congruence. by rewrite Eg.
  - apply list_lookup_singleton_Some in Hi as [Hi <-].
    replace i with (length segs) in * by lia.
    destruct (lay_last _ _ _ _ HL) as (g & Hg & Eg). assert (g = f0) as -> by congruence.
    rewrite Eg, app_nil_r. lia.
Qed.

(** What [Open] and [recover] leave, for a disk with the records [segs] and [rs]. *)
Definition recovered (segs : list (list record)) (rs : list record) (m : recoveredState)
    (fs fs' : gmap string file) (res : result DiskLog) : Prop :=
  match res with
  | Ok l => files l = fs' /\ dl_inv l segs rs /\ dl_state l = m
  | Err _ => exists t, layout fs' segs rs t /\ torn_frame t /\
      (durable_segs fs (segs ++ [rs]) -> durable_segs fs' (segs ++ [rs]))
  end.

Lemma recover_layout os rot fs segs rs t m fs' res :
  layout fs segs rs t -> torn_frame t -> Forall storable (concat segs ++ rs) ->
  replay (concat segs ++ rs) rs_init = Ok m -> entries_wf (rs_entries m) ->
  recover unmarshal os rot (seqZ 1 (Z.of_nat (S (length segs)))) (Z.of_nat (length segs) + 1) fs = (fs', res) ->
  recovered segs rs m fs fs' res /\ (os = os_good -> is_ok res = true).
Proof using unmarshal_marshal.
  intros HL Ht Hs Hm Hwf H. unfold recover in H.
  destruct (replayAll _ _ _ _ _) as [fs1 r1] eqn:E1.
  pose proof (replayAll_layout os fs segs rs t (length segs) rs_init m fs1 r1 HL Ht Hs (Nat.le_refl _)) as E1'.
  rewrite Nat.sub_diag, drop_0 in E1'. specialize (E1' Hm E1).
  destruct E1' as [(t1 & HL1 & Ht1 & Hok1 & Hd1) Hg1].
  destruct r1 as [m1|e1]; [|injection H as <- <-; split; [by exists t1|exact Hg1]].
  destruct Hok1 as [[= ->] ->]; [done|].
  fold (segname (length segs)) in H.
  assert (forall fs2 e, synced_more fs1 fs2 -> recovered segs rs m fs fs2 (Err e)) as Herr.
  { intros fs2 e Hmore. exists []. split_and!; [|by left|].
    - eapply layout_ext; [by apply synced_more_content|done].
    - intros Hd. eapply durable_more; [done..|]. by apply Hd1. }
  destruct (os_open os _) eqn:Eo; [injection H as <- <-; split; [by apply Herr|by intros ->]|].
  destruct (lay_last _ _ _ _ HL1) as (f & Hf & Ec). rewrite Hf in H.
  destruct (os_stat os) eqn:Est; [injection H as <- <-; split; [by apply Herr|by intros ->]|].
  rewrite length_seqZ in H. replace (Z.to_nat (Z.of_nat (S (length segs))) - 1)%nat with (length segs) in H by lia.
  rewrite seqZ_S, take_app_length' in H by (rewrite length_seqZ; lia).
  destruct (syncSegments os _ fs1) as [fs2 err2] eqn:E2. pose proof E2 as E2'.
  apply syncSegments_more in E2' as [Hm2 Hs2].
  destruct err2 as [e|].
  { injection H as <- <-. split; [by apply Herr|]. intros ->.
    destruct (syncSegments_good (seqZ 1 (Z.of_nat (length segs))) fs1) as [fsx Ex]; [|congruence].
    apply Forall_forall. intros x Hx. apply elem_of_seqZ in Hx.
    destruct (lookup_lt_is_Some_2 segs (Z.to_nat (x - 1))) as [r Hr]; [lia|].
    destruct (lay_sealed _ _ _ _ HL1 _ _ Hr) as (g & Hg & _). unfold segname in Hg.
    replace (Z.of_nat (Z.to_nat (x - 1)) + 1) with x in Hg by lia. eauto. }
  destruct (syncOpen os _ fs2) as [fs3 err3] eqn:E3. pose proof E3 as E3'.
  apply syncOpen_more in E3' as [Hm3 Hs3].
  destruct err3 as [e|].
  { injection H as <- <-. split; [apply Herr; by etrans|]. intros ->. by unfold syncOpen in E3. }
  destruct (os_syncDir os) eqn:Esd; injection H as <- <-.
  { split; [apply Herr; by etrans|]. intros ->. done. }
  split; [|done]. split; [done|]. split; [|by destruct m].
  assert (layout fs3 segs rs []) as HL3.
  { apply (layout_ext fs1); [apply synced_more_content; by etrans|done]. }
  split; try done; cbn [files].
  - eapply layout_ext; [|exact HL3]. intros name. rewrite lookup_fmap. by destruct (fs3 !! name).
  - apply synced_durable; [done|]. intros i Hi. destruct (decide (i = length segs)) as [->|Hne].
    + by apply Hs3.
    + eapply is_synced_more; [done|]. apply Hs2; [done|]. apply elem_of_seqZ. lia.
  - rewrite Hm. by destruct m.
Qed.

Lemma Open_layout os rot fs segs rs t m fs' res :
  layout fs segs rs t -> torn_frame t -> Forall storable (concat segs ++ rs) ->
  replay (concat segs ++ rs) rs_init = Ok m -> entries_wf (rs_entries m) -> 0 <= rot ->
  Open unmarshal os rot fs = (fs', res) ->
  recovered segs rs m fs fs' res /\ (os = os_good -> is_ok res = true).
Proof using unmarshal_marshal.
  intros HL Ht Hs Hm Hwf Hrot H. unfold Open in H. rewrite (proj2 (Z.ltb_ge _ _)) in H by lia.
  assert (forall e, recovered segs rs m fs fs (Err e)) as Herr by (intros e; by exists t).
  destruct (os_openDir os) eqn:E1; [injection H as <- <-; split; [done|by intros ->]|].
  destruct (os_readDir os) eqn:E2; [injection H as <- <-; split; [done|by intros ->]|].
  rewrite (listSegments_layout _ _ _ _ HL) in H.
  replace (last (seqZ 1 (Z.of_nat (S (length segs))))) with (Some (Z.of_nat (length segs) + 1)) in H
    by (rewrite seqZ_S, last_snoc; f_equal; lia).
  eapply recover_layout; eauto.
Qed.

(** * Crashes and saves *)

Lemma crash_kept f f' r :
  crash_file f f' -> content f = dframes r -> (length (dframes r) <= synced f)%nat -> content f' = dframes r.
Proof. intros (k & Hk & ->) Hc Hs. simpl. rewrite Hc. apply take_ge. lia. Qed.

Lemma crash_layout fs segs rs t fs' :
  layout fs segs rs t -> durable_segs fs (segs ++ [rs]) -> crash_disk fs fs' ->
  exists k, layout fs' segs rs (take k t) /\ durable_segs fs' (segs ++ [rs]).
Proof.
  intros [Hm Hs Hl Ho] Hd [Hc Hn].
  assert (forall i r f, (segs ++ [rs]) !! i = Some r -> fs !! segname i = Some f ->
            exists f', fs' !! segname i = Some f' /\ crash_file f f') as Hlook.
  { intros i r f Hi Hf. destruct (Hd _ _ _ Hi Hf) as [_ Hnm]. destruct (Hn _ _ Hf Hnm) as [f' Hf'].
    exists f'. split; [done|]. destruct (Hc _ _ Hf') as (g & Hg & Hcr). congruence. }
  assert ((segs ++ [rs]) !! length segs = Some rs) as Hlast by (by rewrite lookup_app_r, Nat.sub_diag by lia).
  destruct Hl as (f & Hf & Ec). destruct (Hlook _ _ _ Hlast Hf) as (f' & Hf' & k & Hk & Ef').
  destruct (Hd _ _ _ Hlast Hf) as [Hsy _].
  exists (k - length (dframes rs))%nat. split; [split; [done|..]|].
  - intros i r Hi. destruct (Hs _ _ Hi) as (g & Hg & Eg).
    assert ((segs ++ [rs]) !! i = Some r) as Hi' by (by apply lookup_app_l_Some).
    destruct (Hlook _ _ _ Hi' Hg) as (g' & Hg' & Hcr). exists g'. split; [done|].
    eapply crash_kept; [done..|]. by eapply Hd.
  - exists f'. split; [done|]. rewrite Ef'. simpl. rewrite Ec, take_app_ge by lia. done.
  - intros name seq [g Hg] Hp. destruct (Hc _ _ Hg) as (g0 & Hg0 & _). eapply Ho; [by exists g0|done].
  - intros i r g Hi Hg. destruct (Hc _ _ Hg) as (g0 & Hg0 & j & _ & ->). simpl. by eapply Hd.
Qed.

(** A crash after a segment was created and before its name was durable. *)
Lemma crash_created fs segs rs fs' :
  layout fs segs rs [] -> durable_segs fs (segs ++ [rs]) -> Z.of_nat (length segs) + 1 < max_u64 ->
  crash_disk (<[segname (S (length segs)) := mkFile [] 0 false]> fs) fs' ->
  layout fs' segs rs [] \/ layout fs' (segs ++ [rs]) [] [].
Proof.
  intros HL Hd Hmax [Hc Hn]. set (nm := segname (S (length segs))) in *.
  assert (forall i, (i <= length segs)%nat -> segname i <> nm) as Hne.
  { intros i Hi E. apply segname_inj in E; lia. }
  assert (layout (delete nm fs) segs rs []) as HL0.
  { destruct HL as [H1 H2 H3 H4]. split; [done|..].
    - intros i r Hi. rewrite lookup_delete_ne; [by apply H2|]. apply not_eq_sym, Hne.
      apply lookup_lt_Some in Hi. lia.
    - rewrite lookup_delete_ne; [done|]. apply not_eq_sym, Hne. lia.
    - intros name seq [f Hf]. apply lookup_delete_Some in Hf as [_ Hf]. apply H4. eauto. }
  assert (durable_segs (delete nm fs) (segs ++ [rs])) as Hd0.
  { intros i r f Hi Hf. apply lookup_delete_Some in Hf as [_ Hf]. by eapply Hd. }
  assert (crash_disk (delete nm fs) (delete nm fs')) as Hc0.
  { split.
    - intros name f' Hf. apply lookup_delete_Some in Hf as [Hne' Hf]. destruct (Hc _ _ Hf) as (f & Hf0 & Hcr).
      rewrite lookup_insert_ne in Hf0 by done. exists f. by rewrite lookup_delete_ne.
    - intros name f Hf Hnm. apply lookup_delete_Some in Hf as [Hne' Hf].
      rewrite lookup_delete_ne by done. eapply Hn; [|done]. by rewrite lookup_insert_ne. }
  destruct (crash_layout _ _ _ _ _ HL0 Hd0 Hc0) as (k & HL' & _). rewrite take_nil in HL'.
  destruct (fs' !! nm) as [f'|] eqn:E.
  - right. destruct (Hc _ _ E) as (f & Hf & j & _ & ->). rewrite lookup_insert_eq in Hf. injection Hf as <-.
    pose proof (layout_new _ _ _ (mkFile (take j []) 0 false) [] [] HL') as HL2. fold nm in HL2.
    rewrite insert_delete_id in HL2 by done. apply HL2; [by rewrite take_nil|done].
  - left. by rewrite delete_id in HL'.
Qed.

(** The disk holds the records of a state that satisfies [P], and perhaps a torn frame. *)
Definition recovers_to (fs : gmap string file) (P : recoveredState -> Prop) : Prop :=
  exists segs rs t m, layout fs segs rs t /\ torn_frame t /\ Forall storable (concat segs ++ rs) /\
    replay (concat segs ++ rs) rs_init = Ok m /\ entries_wf (rs_entries m) /\ P m.

Definition dl_ok (l : DiskLog) : Prop := exists segs rs, dl_inv l segs rs.

Lemma Open_recovers os rot fs P fs' res :
  recovers_to fs P -> 0 <= rot -> Open unmarshal os rot fs = (fs', res) ->
  match res with
  | Ok l => files l = fs' /\ dl_ok l /\ P (dl_state l)
  | Err _ => recovers_to fs' P
  end /\ (os = os_good -> is_ok res = true).
Proof using unmarshal_marshal.
  intros (segs & rs & t & m & HL & Ht & Hs & Hm & Hwf & HP) Hrot H.
  destruct (Open_layout _ _ _ _ _ _ _ _ _ HL Ht Hs Hm Hwf Hrot H) as [Hr Hg]. split; [|done].
  destruct res as [l|e].
  - destruct Hr as (Ef & Hi & Est). rewrite Est. split_and!; [done|by exists segs, rs|done].
  - destruct Hr as (t' & HL' & Ht' & _). by exists segs, rs, t', m.
Qed.

(** What the frames can hold of a batch. *)
Definition dl_fits (hs : option HardState) (es : list Entry) : Prop :=
  (forall h, hs = Some h -> is_u64 (hs_Term h) /\ is_u64 (VotedFor h)) /\ Forall entry_fits es.

Lemma dl_fits_records hs es last : dl_fits hs es -> Forall in_range (batch_records hs es last).
Proof.
  intros [Hh He]. unfold batch_records. apply Forall_app. split.
  - destruct hs as [h|]; [|done]. constructor; [|done]. by apply Hh.
  - destruct es as [|e0 rest]; [done|]. apply Forall_app. split; [|by constructor].
    case_match; [|done]. constructor; [|done]. apply Forall_cons in He as [[? _] _]. done.
Qed.

(** A torn batch after the records of a log. *)
Lemma torn_recovers fs segs rs0 n m hs es :
  let rs := batch_records hs es (dl_lastIndex (rs_entries m)) in
  layout fs segs rs0 (take n (dframes rs)) -> Forall storable (concat segs ++ rs0) -> Forall storable rs ->
  replay (concat segs ++ rs0) rs_init = Ok m -> entries_wf (rs_entries m) -> batch_wf (rs_entries m) es ->
  recovers_to fs (fun m' => pair_of m' ∈ torn hs es (pair_of m) /\
                            ((length (dframes rs) <= n)%nat -> pair_of m' = saved hs es (pair_of m))).
Proof.
  intros rs HL Hs Hrs Hm Hwf Hb. destruct (fold_batch hs es m (dl_lastIndex (rs_entries m)) 0 Hwf Hb) as [_ Hsaved].
  assert (exists j t, take n (dframes rs) = dframes (take j rs) ++ t /\ torn_frame t /\
            ((length (dframes rs) <= n)%nat -> take j rs = rs)) as (j & t & Et & Ht & Hall).
  { destruct (decide (length (dframes rs) <= n)%nat) as [Hle|Hgt].
    - exists (length rs), []. rewrite !take_ge by done. rewrite app_nil_r. split_and!; [done|by left|done].
    - destruct (take_dframes marshal rs n) as (j & t & _ & Et & Ht). exists j, t. done. }
  exists segs, (rs0 ++ take j rs), t, (fold_records (take j rs) m). split_and!.
  - rewrite Et in HL. destruct HL as [H1 H2 (f & Hf & Ec) H4]. split; [done..| |done].
    exists f. split; [done|]. rewrite Ec, dframes_app, app_assoc. done.
  - done.
  - rewrite app_assoc. apply Forall_app. split; [done|by apply Forall_take].
  - rewrite app_assoc, replay_app, Hm. cbn [rbind]. by apply replay_batch.
  - destruct (fold_batch hs es m (dl_lastIndex (rs_entries m)) j Hwf Hb) as [Hin _].
    exact (torn_wf hs es (pair_of m) _ Hwf Hb Hin).
  - by destruct (fold_batch hs es m (dl_lastIndex (rs_entries m)) j Hwf Hb) as [Hin _].
  - intros Hn. rewrite Hall by done. done.
Qed.

(** * Save *)

(** What [rotateIfNeeded] leaves: the log as it was, a new empty segment made active, or
    an error before the new segment was made durable. *)
Lemma rotateIfNeeded_cases os size l segs rs l1 err :
  dl_inv l segs rs -> 0 <= size -> rotateIfNeeded os size l = (l1, err) ->
  (err <> None /\ (files l1 = files l \/
     files l1 = <[segname (S (length segs)) := mkFile [] 0 false]> (files l) /\
     Z.of_nat (length segs) + 1 < max_u64)) \/
  err = None /\ l1 = l \/
  err = None /\ dl_inv l1 (segs ++ [rs]) [] /\ dl_state l1 = dl_state l.
Proof.
  intros [HL Hd Hs Hr Hw Hq Ha Hf Hc] Hsz H. unfold rotateIfNeeded in H. rewrite Hq in H.
  rewrite (proj2 (Z.ltb_ge _ _)) in H by done.
  destruct (_ || _); [injection H as <- <-; auto|].
  destruct (os_close os _); [injection H as <- <-; auto|].
  destruct (Z.eqb_spec (Z.of_nat (length segs) + 1) max_u64) as [|Hmax]; [injection H as <- <-; auto|].
  pose proof (lay_max _ _ _ _ HL) as Hm. rewrite u64_add_small in H by lia.
  replace (Z.of_nat (length segs) + 1 + 1) with (Z.of_nat (S (length segs)) + 1) in H by lia.
  unfold createSegment in H. fold (segname (S (length segs))) in H.
  destruct (os_create os); [injection H as <- <-; auto|].
  destruct (files l !! segname (S (length segs))) eqn:En; [injection H as <- <-; auto|].
  destruct (os_syncDir os); injection H as <- <-.
  { left. split; [done|]. right. split; [done|lia]. }
  right. right. split; [done|]. split; [|done].
  assert (layout (<[segname (S (length segs)) := mkFile [] 0 false]> (files l)) (segs ++ [rs]) [] []) as HL1
    by (apply layout_new; [done|done|lia]).
  split; try done; cbn [files activeSeq dl_entries].
  - eapply layout_ext; [|exact HL1]. intros name. rewrite lookup_fmap. by destruct (_ !! name).
  - intros i r f Hi Hfi. rewrite lookup_fmap in Hfi. apply fmap_Some in Hfi as (f0 & Hf0 & ->).
    simpl. split; [|done]. apply lookup_app_Some in Hi as [Hi|[Hge Hi]].
    + rewrite lookup_insert_ne in Hf0; [by eapply Hd|]. intros E.
      apply lookup_lt_Some in Hi. rewrite length_app in Hi. simpl in Hi. apply segname_inj in E; lia.
    + apply list_lookup_singleton_Some in Hi as [_ <-]. simpl. lia.
  - rewrite concat_app. simpl. by rewrite !app_nil_r.
  - rewrite concat_app. simpl. by rewrite !app_nil_r.
  - rewrite length_app. simpl. lia.
Qed.

(** The log after a batch was appended and synced. *)
Lemma appendActive_layout l segs rs batch n :
  dl_inv l segs rs ->
  layout (files (appendActive batch n l)) segs rs (take n batch) /\
  durable_segs (files (appendActive batch n l)) (segs ++ [rs]).
Proof.
  intros [HL Hd _ _ _ Hq _ _ _]. unfold appendActive. rewrite Hq. fold (segname (length segs)).
  destruct (lay_last _ _ _ _ HL) as (f & Hf & Ec). rewrite app_nil_r in Ec. rewrite Hf. cbn [default files with_files].
  split.
  - eapply layout_last; [done|]. simpl. by rewrite Ec.
  - eapply durable_last; eauto using lay_max.
Qed.

Lemma syncActive_inv l segs rs rs' hs es size :
  dl_inv l segs rs -> Forall storable rs' ->
  let l2 := syncActive (appendActive (dframes rs') (length (dframes rs')) l) in
  let l3 := mkDiskLog (files l2) (rotateSize l2) (active l2) (activeSeq l2) size hs es (failed l2) (closed l2) in
  replay rs' (dl_state l) = Ok (mkRecoveredState hs es) -> entries_wf es ->
  dl_inv l3 segs (rs ++ rs').
Proof.
  intros Hi Hst l2 l3 Hr Hwf. pose proof (appendActive_layout _ _ _ (dframes rs') (length (dframes rs')) Hi) as [HL1 Hd1].
  destruct Hi as [HL Hd Hs Hre Hw Hq Ha Hf Hc].
  set (l1 := appendActive _ _ l) in *. assert (activeSeq l1 = Z.of_nat (length segs) + 1) as Hq1 by done.
  rewrite take_ge in HL1 by done. destruct (lay_last _ _ _ _ HL1) as (f & Hfl & Ec).
  assert (files l2 = <[segname (length segs) := sync_file f]> (files l1)) as El2.
  { unfold l2, syncActive. rewrite Hq1. fold (segname (length segs)). rewrite Hfl. done. }
  split; try done; cbn [files l3].
  - rewrite El2. eapply layout_last; [done|]. simpl. by rewrite dframes_app, app_nil_r.
  - rewrite El2. intros i r g Hi Hg. destruct (decide (i = length segs)) as [->|Hne].
    + rewrite lookup_insert_eq in Hg. injection Hg as <-.
      rewrite lookup_app_r, Nat.sub_diag in Hi by lia. injection Hi as <-. simpl.
      rewrite Ec, dframes_app. split; [done|]. refine (proj2 (Hd1 (length segs) rs f _ Hfl)).
      by rewrite lookup_app_r, Nat.sub_diag by lia.
    + rewrite lookup_insert_ne in Hg; [|intros E; apply segname_inj in E; [lia|apply (lay_max _ _ _ _ HL)|
        apply lookup_lt_Some in Hi; rewrite length_app in Hi; simpl in Hi; pose proof (lay_max _ _ _ _ HL); lia]].
      eapply Hd1; [|done]. apply lookup_app_Some in Hi as [Hi|[Hge Hi]]; [by apply lookup_app_l_Some|].
      apply list_lookup_singleton_Some in Hi as [? _]. lia.
  - rewrite app_assoc. by apply Forall_app.
  - rewrite app_assoc, replay_app, Hre. done.
Qed.

Lemma inv_split l segs rs rs' :
  dl_inv l segs (rs ++ rs') -> layout (files l) segs rs (dframes rs') /\ durable_segs (files l) (segs ++ [rs]).
Proof.
  intros [[H1 H2 (f & Hf & Ec) H4] Hd _ _ _ _ _ _ _]. split.
  - split; [done..| |done]. exists f. split; [done|]. by rewrite Ec, dframes_app, app_nil_r.
  - intros i r g Hi Hg. apply lookup_app_Some in Hi as [Hi|[Hge Hi]].
    + eapply Hd; [by apply lookup_app_l_Some|done].
    + apply list_lookup_singleton_Some in Hi as [Hi <-].
      replace i with (length segs) in * by lia.
      destruct (Hd (length segs) (rs ++ rs') g) as [H5 H6]; [by rewrite lookup_app_r, Nat.sub_diag by lia|done|].
      rewrite dframes_app, length_app in H5. split; [lia|done].
Qed.

(** The mirror after a batch, as [Save] computes it. *)
Lemma mirror_saved m hs es :
  entries_wf (rs_entries m) -> batch_wf (rs_entries m) es ->
  let m' := mkRecoveredState (match hs with Some h => h | None => rs_hard m end)
              (match es with
               | [] => rs_entries m
               | e0 :: _ => truncateEntries (Index e0) (rs_entries m) ++ cloneEntries es
               end) in
  let rs := batch_records hs es (dl_lastIndex (rs_entries m)) in
  replay rs m = Ok m' /\ pair_of m' = saved hs es (pair_of m) /\ entries_wf (rs_entries m').
Proof.
  intros Hwf Hb m' rs. destruct (fold_batch hs es m (dl_lastIndex (rs_entries m)) 0 Hwf Hb) as [_ Hsaved].
  assert (pair_of m' = saved hs es (pair_of m)) as E.
  { unfold m', pair_of, saved. cbn [rs_hard rs_entries fst snd]. f_equal.
    destruct es as [|e0 rest]; [done|]. rewrite cloneEntries_id. f_equal.
    apply cutEntries_take, Hwf. }
  split_and!; [|done|].
  - pose proof (replay_batch m hs es (length rs) Hwf Hb) as Hr. cbv zeta in Hr. fold rs in Hr. rewrite take_ge in Hr by done.
    rewrite Hr. f_equal. fold rs in Hsaved. rewrite <- E in Hsaved. unfold pair_of in Hsaved.
    destruct (fold_records rs m), m'. simpl in *. congruence.
  - change (rs_entries m') with ((pair_of m').2). rewrite E. by apply saved_wf.
Qed.

Inductive save_effect (hs : option HardState) (es : list Entry) (l l' : DiskLog) (err : option error)
    segs rs0 : Prop :=
  | se_none : files l' = files l -> (err = None -> l' = l /\ hs = None /\ es = []) ->
      save_effect hs es l l' err segs rs0
  | se_created : err <> None -> files l' = <[segname (S (length segs)) := mkFile [] 0 false]> (files l) ->
      Z.of_nat (length segs) + 1 < max_u64 -> save_effect hs es l l' err segs rs0
  | se_written segs1 rs1 n :
      let rs := batch_records hs es (dl_lastIndex (dl_entries l)) in
      concat segs1 ++ rs1 = concat segs ++ rs0 -> Forall storable rs ->
      layout (files l') segs1 rs1 (take n (dframes rs)) -> durable_segs (files l') (segs1 ++ [rs1]) ->
      (err = None -> dl_inv l' segs1 (rs1 ++ rs) /\ pair_of (dl_state l') = saved hs es (pair_of (dl_state l))) ->
      save_effect hs es l l' err segs rs0.

Lemma write_effect os hs es l0 l segs rs0 :
  let rs := batch_records hs es (dl_lastIndex (dl_entries l)) in
  let batch := dframes rs in
  dl_inv l segs rs0 -> batch_wf (dl_entries l) es -> Forall storable rs ->
  dl_state l = dl_state l0 -> forall segs' rs', concat segs ++ rs0 = concat segs' ++ rs' ->
  forall l' err,
  (let '(n, werr) := os_write os (length batch) in
   let l2 := appendActive batch n l in
   match werr with
   | Some e => (with_failed e l2, Some ("disklog: write: " +:+ e))
   | None =>
       if negb (Nat.eqb n (length batch))
       then (with_failed "short write" l2, Some "disklog: write: short write")
       else
         match os_sync os (segmentName (activeSeq l2)) with
         | Some e => (with_failed e l2, Some ("disklog: sync: " +:+ e))
         | None =>
             let l3 := syncActive l2 in
             (mkDiskLog (files l3) (rotateSize l3) (active l3) (activeSeq l3)
                (activeSize l3 +i Z.of_nat (length batch))
                (match hs with Some h => h | None => dl_hard l3 end)
                (match es with
                 | [] => dl_entries l3
                 | e0 :: _ => truncateEntries (Index e0) (dl_entries l3) ++ cloneEntries es
                 end)
                (failed l3) (closed l3), None)
         end
   end) = (l', err) ->
  save_effect hs es l0 l' err segs' rs'.
Proof.
  intros rs batch Hi Hb Hst Hs0 segs' rs' Hcat l' err. destruct (os_write os _) as [n werr]. cbv zeta.
  destruct (appendActive_layout _ _ _ batch n Hi) as [HL Hd].
  assert (dl_lastIndex (dl_entries l0) = dl_lastIndex (dl_entries l)) as El by (unfold dl_state in Hs0; congruence).
  assert (forall l2 e, files l2 = files (appendActive batch n l) -> (l2, Some e) = (l', err) ->
            save_effect hs es l0 l' err segs' rs') as Herr.
  { intros l2 e Ef [= <- <-]. eapply (se_written _ _ _ _ _ _ _ segs rs0 n); rewrite ?El, ?Ef; try done. }
  destruct werr; [by apply Herr|]. destruct (Nat.eqb_spec n (length batch)) as [->|]; cbn [negb]; [|by apply Herr].
  destruct (os_sync os _); [by apply Herr|]. intros [= <- <-].
  destruct (mirror_saved (dl_state l) hs es (li_wf _ _ _ Hi) Hb) as (Hr & Hsv & Hw).
  pose proof (syncActive_inv l segs rs0 rs _ _ (activeSize l +i Z.of_nat (length batch)) Hi Hst Hr Hw) as Hi'.
  destruct (inv_split _ _ _ _ Hi') as [HL' Hd'].
  eapply (se_written _ _ _ _ _ _ _ segs rs0 (length batch)); rewrite ?El; fold rs batch; try done.
  - assert (forall x, layout x segs rs0 (dframes rs) -> layout x segs rs0 (take (length batch) batch)) as Hx
      by (intros x; by rewrite take_ge). apply Hx. exact HL'.
  - intros _. split; [exact Hi'|]. by rewrite <- Hs0, <- Hsv.
Qed.

Lemma Save_effect os hs es l l' err segs rs0 :
  dl_inv l segs rs0 -> batch_wf (dl_entries l) es -> dl_fits hs es ->
  dl_Save marshal os hs es l = (l', err) -> save_effect hs es l l' err segs rs0.
Proof.
  intros Hi Hb Hf H. unfold dl_Save in H. rewrite (li_closed _ _ _ Hi), (li_failed _ _ _ Hi) in H.
  assert (forall e, (l, Some e) = (l', err) -> save_effect hs es l l' err segs rs0) as Herr
    by (intros e [= <- <-]; by apply se_none).
  destruct (decide (hs = None /\ es = [])) as [[-> ->]|Hne].
  { injection H as <- <-. by apply se_none. }
  set (last := dl_lastIndex (dl_entries l)) in *. cbv zeta in H.
  set (body := match checkContiguous es last with Some _ => _ | None => _ end) in H.
  assert (body = (l', err)) as Hbody by (destruct hs, es; try exact H; by exfalso; apply Hne).
  clear H. unfold body in Hbody. clear body.
  destruct (checkContiguous es last); [by eapply Herr|].
  destruct (encodeBatch marshal hs es last) as [batch|e] eqn:Ee; [|by eapply Herr].
  apply encodeBatch_ok in Ee as [Hst ->]; [|by apply dl_fits_records|]; last first.
  { intros e0 rest E. destruct (batch_head _ _ _ _ Hb E) as (p & -> & _). lia. }
  destruct (rotateIfNeeded os _ l) as [l1 err1] eqn:Er.
  apply (rotateIfNeeded_cases _ _ _ segs rs0) in Er; [|done|lia].
  destruct Er as [[Hn [Ef|[Ef Hmax]]]|[[-> ->]|(-> & Hi1 & Hs1)]].
  - destruct err1; [|done]. injection Hbody as <- <-. by apply se_none.
  - destruct err1; [|done]. injection Hbody as <- <-. by apply se_created.
  - eapply (write_effect os hs es l l); try done.
  - assert (dl_entries l1 = dl_entries l) as E by (unfold dl_state in Hs1; congruence).
    eapply (write_effect os hs es l l1); try done; rewrite ?E; try done.
    rewrite concat_app. simpl. by rewrite !app_nil_r.
Qed.

(** * The contract *)

(** After a crash at any point of a [Save], with any answers of the operating system, the
    disk recovers to a state the contract allows; and to the saved state when [Save] had
    returned without an error. *)
Lemma Save_recovers os hs es l l' err fs :
  dl_ok l -> batch_wf (dl_entries l) es -> dl_fits hs es ->
  dl_Save marshal os hs es l = (l', err) -> crash_disk (files l') fs ->
  recovers_to fs (fun m => pair_of m ∈ torn hs es (pair_of (dl_state l)) /\
                           (err = None -> pair_of m = saved hs es (pair_of (dl_state l)))).
Proof.
  intros (segs & rs0 & Hi) Hb Hf H Hc. pose proof (Save_effect _ _ _ _ _ _ _ _ Hi Hb Hf H) as He.
  destruct Hi as [HL Hd Hs Hr Hw _ _ _ _].
  assert (forall segs' rs' t, layout fs segs' rs' t -> torn_frame t -> concat segs' ++ rs' = concat segs ++ rs0 ->
    (err = None -> hs = None /\ es = []) ->
    recovers_to fs (fun m => pair_of m ∈ torn hs es (pair_of (dl_state l)) /\
                             (err = None -> pair_of m = saved hs es (pair_of (dl_state l))))) as Hsame.
  { intros segs' rs' t HL' Ht Ecat Hn. exists segs', rs', t, (dl_state l). rewrite Ecat.
    split_and!; try done; [by apply elem_of_torn; left|]. intros E. by destruct (Hn E) as [-> ->]. }
  destruct He as [Ef Hn|Hn Ef Hmax|segs1 rs1 n rs Ecat Hst HL1 Hd1 Hok].
  - rewrite Ef in Hc. destruct (crash_layout _ _ _ _ _ HL Hd Hc) as (k & HL' & _). rewrite take_nil in HL'.
    eapply Hsame; [exact HL'|by left|done|]. intros E. by destruct (Hn E) as [_ ?].
  - rewrite Ef in Hc. destruct (crash_created _ _ _ _ HL Hd Hmax Hc) as [HL'|HL'].
    + by eapply Hsame; [exact HL'|left| |].
    + eapply Hsame; [exact HL'|by left| |done]. rewrite concat_app. simpl. by rewrite !app_nil_r.
  - rewrite <- Ecat in Hs, Hr.
    destruct err as [e|].
    + destruct (crash_layout _ _ _ _ _ HL1 Hd1 Hc) as (k & HL' & _). rewrite take_take in HL'.
      destruct (torn_recovers fs segs1 rs1 _ (dl_state l) hs es HL' Hs Hst Hr Hw Hb)
        as (sg & rr & t & m & H1 & H2 & H3 & H4 & H5 & H6 & _).
      by exists sg, rr, t, m.
    + destruct (Hok eq_refl) as [Hi' Hsv]. destruct Hi' as [HL' Hd' Hs' Hr' Hw' _ _ _ _].
      destruct (crash_layout _ _ _ _ _ HL' Hd' Hc) as (k & HL2 & _). rewrite take_nil in HL2.
      exists segs1, (rs1 ++ rs), [], (dl_state l'). split_and!; try done; [by left|].
      apply elem_of_torn. auto.
Qed.
End recovery.
