(* ===== verification/DiskLogSpec.v ===== *)
(** What the write-ahead log promises: the theorems about internal/storage/disklog and
    its instance of the storage contract, so that every theorem about the cluster holds
    of hosts that persist in it.

    [proto.Marshal] and [proto.Unmarshal] are arguments; what is assumed of them is that
    a record whose fields fit their Go types reads back as it was written. *)

From stdpp Require Import functions.
From S2P Require Import Prelude Proto RaftLog RaftNode RaftSpec Storage Server NodeFacts HostFacts Cluster Bytes WalRecords Safety DiskLog DiskLogFacts DiskRecovery.

Definition reads_back (marshal : LogRecord -> result bytes) (unmarshal : bytes -> option LogRecord) : Prop :=
  forall r b, in_range r -> marshal (Some (log_record r)) = Ok b -> unmarshal b = Some (Some (log_record r)).

(** * The storage contract *)

(** A disk log with the answers the operating system will give. *)
Record DiskStore : Type := mkDiskStore {
  ds_log : DiskLog;
  ds_os : nat -> OS;
  ds_RotateSize : Z;
}.

(** A crash in the write of a batch after [k] bytes of it. *)
Definition os_crash (k : nat) : OS :=
  mkOS None None (fun _ => None) (fun _ => None) (fun _ => None) None None
    (fun n => (Nat.min k n, Some "crash")) (fun _ => None) (fun _ => None) None None.

Lemma crash_disk_refl fs : crash_disk fs fs.
Proof.
  split.
  - intros name f Hf. exists f. split; [done|]. exists (Nat.max (synced f) (length (content f))).
    split; [lia|]. rewrite take_ge by lia. by destruct f.
  - intros name f Hf _. by exists f.
Qed.

Section store.
Context (marshal : LogRecord -> result bytes) (unmarshal : bytes -> option LogRecord).
Context (Hread : reads_back marshal unmarshal).

Definition ds_Save (hs : option HardState) (es : list Entry) (s : DiskStore) : DiskStore * option error :=
  let '(l', err) := dl_Save marshal (ds_os s 0%nat) hs es (ds_log s) in
  (mkDiskStore l' (fun t => ds_os s (S t)) (ds_RotateSize s), err).

#[local] Instance DiskStore_Storage : Storage DiskStore := {|
  Save := ds_Save;
  getHardState s := dl_HardState (ds_log s);
  getEntries lo hi s := dl_Entries lo hi (ds_log s);
  FirstIndex s := dl_FirstIndex (ds_log s);
  LastIndex s := dl_LastIndex (ds_log s);
|}.

Definition ds_durable (s : DiskStore) : HardState * list Entry := pair_of (dl_state (ds_log s)).

Definition ds_ok (s : DiskStore) : Prop := dl_ok marshal (ds_log s) /\ 0 <= ds_RotateSize s.

Definition ds_open (fs : gmap string file) (s : DiskStore) : DiskStore :=
  match (Open unmarshal os_good (ds_RotateSize s) fs).2 with
  | Ok l => mkDiskStore l (ds_os s) (ds_RotateSize s)
  | Err _ => s
  end.

Lemma ds_open_ok fs s P :
  recovers_to marshal fs P -> 0 <= ds_RotateSize s ->
  ds_ok (ds_open fs s) /\ P (dl_state (ds_log (ds_open fs s))).
Proof using Hread.
  intros Hr Hrot. unfold ds_open. destruct (Open unmarshal os_good _ fs) as [fs' res] eqn:E.
  destruct (Open_recovers _ _ Hread _ _ _ _ _ _ Hr Hrot E) as [H1 H2]. simpl.
  destruct res as [l|e]; [|by specialize (H2 eq_refl)]. destruct H1 as (_ & Hok & HP). done.
Qed.

Lemma dl_ok_wf l : dl_ok marshal l -> entries_wf (dl_entries l).
Proof. intros (segs & rs & Hi). apply Hi. Qed.

Lemma ok_recovers l fs :
  dl_ok marshal l -> crash_disk (files l) fs -> recovers_to marshal fs (fun m => m = dl_state l).
Proof.
  intros (segs & rs & Hi) Hc. destruct Hi as [HL Hd Hs Hr Hw _ _ _ _].
  destruct (crash_layout _ _ _ _ _ _ HL Hd Hc) as (k & HL' & _). rewrite take_nil in HL'.
  exists segs, rs, [], (dl_state l). split_and!; try done. by left.
Qed.

Lemma Save_inv os hs es l l' :
  dl_ok marshal l -> batch_wf (dl_entries l) es -> dl_fits hs es -> dl_Save marshal os hs es l = (l', None) ->
  dl_ok marshal l' /\ pair_of (dl_state l') = saved hs es (pair_of (dl_state l)).
Proof.
  intros (segs & rs & Hi) Hb Hf H.
  destruct (Save_effect _ _ _ _ _ _ _ _ _ Hi Hb Hf H) as [_ Hn|Hn _ _|segs1 rs1 n rs' _ _ _ _ Hok]; [|done|].
  - destruct (Hn eq_refl) as (-> & -> & ->). split; [by exists segs, rs|done].
  - destruct (Hok eq_refl) as [Hi' Hsv]. split; [by eexists _, _|done].
Qed.

#[local] Program Instance DiskStore_Spec : StorageSpec DiskStore := {|
  durable := ds_durable;
  store_ok := ds_ok;
  fits := dl_fits;
|}.
Next Obligation. intros s [Hok _]. by apply dl_ok_wf. Qed.
Next Obligation.
  intros s hs batch s' [Hok Hrot] Hb Hf Hs. simpl in Hs. unfold ds_Save in Hs.
  destruct (dl_Save marshal _ hs batch (ds_log s)) as [l' err] eqn:E. injection Hs as <- ->.
  destruct (Save_inv _ _ _ _ _ Hok Hb Hf E) as [H1 H2]. done.
Qed.
Next Obligation. done. Qed.
Next Obligation.
  intros s [Hok _]. simpl. unfold dl_FirstIndex. by rewrite firstLast_wf by apply (dl_ok_wf _ Hok).
Qed.
Next Obligation. intros s [Hok _]. simpl. unfold dl_LastIndex. by rewrite dl_lastIndex_wf by apply (dl_ok_wf _ Hok). Qed.
Next Obligation.
  intros s lo hi [Hok _] Hlo Hhi.
  exact (@Entries_spec MemStorage _ MemStorage_Spec (mkMemStorage (dl_hard (ds_log s)) (dl_entries (ds_log s)))
           lo hi (dl_ok_wf _ Hok) Hlo Hhi).
Qed.

#[local] Program Instance DiskStore_Safe : CrashSafe DiskStore := {|
  crash_save k hs es s := ds_open (files (dl_Save marshal (os_crash k) hs es (ds_log s)).1) s;
  reopen s := ds_open (files (ds_log s)) s;
|}.
Next Obligation.
  intros k hs batch s [Hok Hrot] Hb Hf. simpl.
  destruct (dl_Save marshal (os_crash k) hs batch (ds_log s)) as [l' err] eqn:E.
  pose proof (Save_recovers _ _ _ _ _ _ _ _ Hok Hb Hf E (crash_disk_refl _)) as Hr.
  by destruct (ds_open_ok _ s _ Hr Hrot) as (H1 & H2 & _).
Qed.
Next Obligation.
  intros s [Hok Hrot]. simpl. unfold ds_durable.
  destruct (ds_open_ok _ s _ (ok_recovers _ _ Hok (crash_disk_refl _)) Hrot) as [H1 H2]. by rewrite H2.
Qed.
End store.

(** * Opening an empty directory *)

Lemma omap_none {A B} (f : A -> option B) l : (forall x, x ∈ l -> f x = None) -> omap f l = [].
Proof.
  induction l as [|x l IH]; intros H; csimpl; [done|]. rewrite (H x) by (by left).
  apply IH. intros y Hy. apply H. by right.
Qed.

Lemma Open_fresh marshal unmarshal rot fs :
  0 <= rot -> (forall name, is_Some (fs !! name) -> parseSegmentName name = None) ->
  exists fs' l, Open unmarshal os_good rot fs = (fs', Ok l) /\ dl_ok marshal l /\ dl_state l = rs_init.
Proof.
  intros Hrot Hno. unfold Open. rewrite (proj2 (Z.ltb_ge _ _)) by done. simpl.
  unfold listSegments. rewrite omap_none; last first.
  { intros name Hin. apply Hno. apply list_elem_of_fmap in Hin as ([k f] & -> & Hk).
    apply elem_of_map_to_list in Hk. by exists f. }
  simpl. unfold createSegment. simpl.
  assert (fs !! segmentName 1 = None) as Hn.
  { destruct (fs !! segmentName 1) eqn:E; [|done].
    assert (parseSegmentName (segmentName 1) = None) as H by (apply Hno; by rewrite E). done. }
  rewrite Hn. eexists _, _. split; [reflexivity|]. split; [|done]. exists [], [].
  split; try done; cbn [files].
  - split; [done|done|..].
    + exists (mkFile [] 0 true). rewrite lookup_fmap, lookup_insert_eq. done.
    + intros name seq [f Hf] Hp. rewrite lookup_fmap in Hf. apply fmap_Some in Hf as (f0 & Hf & _).
      destruct (decide (name = segmentName 1)) as [->|Hne].
      * injection Hp as <-. done.
      * rewrite lookup_insert_ne in Hf by done. rewrite Hno in Hp by (by exists f0). done.
  - intros i r f Hi Hf. apply list_lookup_singleton_Some in Hi as [-> <-].
    rewrite lookup_fmap in Hf. apply fmap_Some in Hf as (f0 & _ & ->). simpl. split; [lia|done].
Qed.

(** * Arbitrary bytes *)

Lemma scanFrame_none k rest : scanFrame k rest = EndOfFile -> symbols rest.
Proof.
  revert k. induction rest as [|b rest IH]; intros k H; cbn [scanFrame] in H; [constructor|].
  repeat case_bool; try done. constructor; [by apply negb_false_iff|by eapply IH].
Qed.

Lemma replayLoop_tail unmarshal fuel final rest off m m' cut :
  replayLoop unmarshal fuel final rest off m = Ok (m', Some cut) ->
  final = true /\ (off <= cut)%nat /\ exists t, drop (cut - off) rest = start_byte :: t /\ symbols t.
Proof.
  revert rest off m. induction fuel as [|fuel IH]; intros rest off m H; [done|]. cbn [replayLoop] in H.
  destruct rest as [|b rest]; [done|].
  destruct (Z.eqb_spec (Z_of_byte b) frameStart) as [Hb|]; cbn [negb] in H; [|done].
  destruct (scanFrame 0 rest) as [k| |e] eqn:Es; [| |done].
  - destruct (decodeTerminatedFrame _ _) as [r|]; [|done]. destruct (applyRecord r m) as [m1|]; [|done].
    apply IH in H as (Hf & Hle & t & Et & Ht). split; [done|]. split; [lia|]. exists t. split; [|done].
    rewrite <- Et, drop_drop. replace (cut - off)%nat with (S (S k + (cut - (off + S (S k)))))%nat by lia. done.
  - destruct final; cbn [negb] in H; [|done]. injection H as _ <-. split; [done|]. split; [lia|].
    exists rest. rewrite Nat.sub_diag. split; [|by eapply scanFrame_none].
    cbn [drop]. f_equal. unfold start_byte. by rewrite <- Hb, byte_of_Z_of_byte.
Qed.

(** The result of opening a disk: a log in the state [P] allows, or an error that leaves
    a disk from which an undisturbed [Open] recovers such a log. *)
Definition opened marshal unmarshal (rot : Z) (P : HardState * list Entry -> Prop)
    (fs : gmap string file) (res : result DiskLog) : Prop :=
  match res with
  | Ok l => files l = fs /\ dl_ok marshal l /\ P (dl_hard l, dl_entries l)
  | Err _ => exists fs' l, Open unmarshal os_good rot fs = (fs', Ok l) /\
      dl_ok marshal l /\ P (dl_hard l, dl_entries l)
  end.

Lemma opened_recovers marshal unmarshal os rot fs P fs' res :
  reads_back marshal unmarshal -> recovers_to marshal fs (fun m => P (pair_of m)) -> 0 <= rot ->
  Open unmarshal os rot fs = (fs', res) ->
  opened marshal unmarshal rot P fs' res /\ (os = os_good -> is_ok res = true).
Proof.
  intros Hread Hr Hrot E. destruct (Open_recovers _ _ Hread _ _ _ _ _ _ Hr Hrot E) as [H1 H2].
  split; [|done]. destruct res as [l|e]; [exact H1|].
  destruct (Open unmarshal os_good rot fs') as [fs2 res2] eqn:E2.
  destruct (Open_recovers _ _ Hread _ _ _ _ _ _ H1 Hrot E2) as [H3 H4]. specialize (H4 eq_refl).
  destruct res2 as [l2|]; [|done]. destruct H3 as (_ & H5 & H6). by exists fs2, l2.
Qed.

(** * The theorems *)

(** C10. Crash safety of the write-ahead log: whatever the operating system answers during
    [Save], and wherever the crash comes, opening the log again gives a state made of a
    record prefix of the batch, and the whole batch when [Save] had returned without an
    error.  An [Open] that fails on the way leaves a disk from which the next one
    recovers the same; an [Open] nothing goes wrong in succeeds. *)
Theorem disklog_crash_recovery marshal unmarshal os os' hs es l l' err fs rot fs' res :
  reads_back marshal unmarshal ->
  dl_ok marshal l -> batch_wf (dl_entries l) es -> dl_fits hs es -> 0 <= rot ->
  dl_Save marshal os hs es l = (l', err) -> crash_disk (files l') fs ->
  Open unmarshal os' rot fs = (fs', res) ->
  opened marshal unmarshal rot
    (fun d => d ∈ torn hs es (dl_hard l, dl_entries l) /\
              (err = None -> d = saved hs es (dl_hard l, dl_entries l))) fs' res /\
  (os' = os_good -> is_ok res = true).
Proof.
  intros Hread Hok Hb Hf Hrot Hs Hc Ho. eapply opened_recovers; [done| |done..].
  exact (Save_recovers _ _ _ _ _ _ _ _ Hok Hb Hf Hs Hc).
Qed.

(** C25. What [Open] serves is durable: the state of a log that [Open] returned, from a
    disk of which nothing may have been synced, survives every later crash. *)
Theorem disklog_open_durable marshal unmarshal os os' rot fs fs1 l fs2 fs3 res :
  reads_back marshal unmarshal -> recovers_to marshal fs (fun _ => True) -> 0 <= rot ->
  Open unmarshal os rot fs = (fs1, Ok l) -> crash_disk (files l) fs2 ->
  Open unmarshal os' rot fs2 = (fs3, res) ->
  opened marshal unmarshal rot (fun d => d = (dl_hard l, dl_entries l)) fs3 res /\
  (os' = os_good -> is_ok res = true).
Proof.
  intros Hread Hr Hrot Ho Hc Ho'. destruct (Open_recovers _ _ Hread _ _ _ _ _ _ Hr Hrot Ho) as [(_ & Hok & _) _].
  eapply opened_recovers; [done| |done..].
  destruct (ok_recovers _ _ _ Hok Hc) as (sg & rs & t & m & H1 & H2 & H3 & H4 & H5 & ->).
  by exists sg, rs, t, (dl_state l).
Qed.

(** A batch reads back: replaying any byte prefix of an encoded batch, at the end of
    the log, applies a record prefix of it and cuts the file after the last whole frame;
    the whole batch gives the saved state and cuts nothing. *)
Theorem disklog_batch_roundtrip marshal unmarshal hs es m batch :
  reads_back marshal unmarshal ->
  entries_wf (rs_entries m) -> batch_wf (rs_entries m) es -> dl_fits hs es ->
  encodeBatch marshal hs es (dl_lastIndex (rs_entries m)) = Ok batch ->
  replayLoop unmarshal (S (length batch)) false batch 0 m =
    Ok (mkRecoveredState (saved hs es (pair_of m)).1 (saved hs es (pair_of m)).2, None) /\
  forall k, exists m' cut, replayLoop unmarshal (S (length (take k batch))) true (take k batch) 0 m = Ok (m', cut) /\
    pair_of m' ∈ torn hs es (pair_of m) /\ (default (length (take k batch)) cut <= k)%nat.
Proof.
  intros Hread Hwf Hb Hf He. set (rs := batch_records hs es (dl_lastIndex (rs_entries m))).
  apply encodeBatch_ok in He as [Hst ->]; [|by apply dl_fits_records|]; last first.
  { intros e0 rest E. destruct (batch_head _ _ _ _ Hb E) as (p & -> & _). lia. }
  fold rs in Hst |- *. destruct (mirror_saved m hs es Hwf Hb) as (Hr & Hsv & _). fold rs in Hr.
  set (m1 := mkRecoveredState (match hs with Some _ => _ | None => _ end) _) in Hr, Hsv. split.
  - pose proof (replayLoop_frames _ _ Hread rs [] (S (length (dframes marshal rs))) false 0 m m1) as E.
    rewrite app_nil_r in E. rewrite E; [|done|by left|by right|done|lia].
    rewrite <- Hsv. by destruct m1.
  - intros k. destruct (take_dframes marshal rs k) as (j & t & Hj & Et & Ht). rewrite Et.
    destruct (fold_batch hs es m (dl_lastIndex (rs_entries m)) j Hwf Hb) as [Hin _].
    eexists _, _. split; [apply (replayLoop_frames _ _ Hread); [by apply Forall_take|done|by left| |lia]|].
    { by apply replay_batch. }
    split; [exact Hin|]. assert (length (dframes marshal (take j rs) ++ t) <= k)%nat by (rewrite <- Et, length_take; lia).
    destruct t; simpl; rewrite ?length_app in *; simpl in *; lia.
Qed.

(** Damage is never dropped silently: for arbitrary file contents, recovery cuts a
    tail only in the final segment and only when the bytes it drops are one start marker
    and frame symbols up to the end of the file, without any terminator. *)
Theorem disklog_only_torn_tail_cut unmarshal final buf m m' cut :
  replayLoop unmarshal (S (length buf)) final buf 0 m = Ok (m', Some cut) ->
  final = true /\ exists t, drop cut buf = start_byte :: t /\ symbols t /\ ~ end_byte ∈ drop cut buf.
Proof.
  intros H. apply replayLoop_tail in H as (Hf & _ & t & Et & Ht). rewrite Nat.sub_0_r in Et.
  split; [done|]. exists t. split_and!; [done..|]. rewrite Et. intros [E|Hin]%elem_of_cons; [done|].
  unfold symbols in Ht. rewrite Forall_forall in Ht. by specialize (Ht _ Hin).
Qed.

(** C26. A failed durable step poisons the log: a [Save] that reports an error either left
    everything as it was, or leaves a log whose every later [Save] fails and changes
    nothing. *)
Theorem disklog_failed_save marshal os hs es l l' e :
  closed l = false -> failed l = None -> dl_Save marshal os hs es l = (l', Some e) ->
  l' = l \/
  exists cause, failed l' = Some cause /\ forall os' hs' es',
    dl_Save marshal os' hs' es' l' = (l', Some ("disklog: poisoned by earlier failure: " +:+ cause)).
Proof.
  intros Hc Hf H. unfold dl_Save in H. rewrite Hc, Hf in H.
  assert (forall l1 c e', closed l1 = false -> (with_failed c l1, e') = (l', Some e) ->
    l' = l \/ exists cause, failed l' = Some cause /\ forall os' hs' es',
      dl_Save marshal os' hs' es' l' = (l', Some ("disklog: poisoned by earlier failure: " +:+ cause))) as Hp.
  { intros l1 c e' Hc1 [= <- _]. right. exists c. split; [done|]. intros os' hs' es'. unfold dl_Save.
    cbn [with_failed closed failed]. by rewrite Hc1. }
  assert (forall size l1 err1, rotateIfNeeded os size l = (l1, err1) -> closed l1 = false) as Hrot.
  { intros size l1 err1 E. unfold rotateIfNeeded, createSegment in E.
    repeat case_match; simplify_eq; done. }
  destruct hs, es; try done; (destruct (checkContiguous _ _); [left; by injection H as -> _|]);
    (destruct (encodeBatch _ _ _ _); [|left; by injection H as -> _]);
    destruct (rotateIfNeeded os _ l) as [l1 [c|]] eqn:Er; apply Hrot in Er;
    try (by eapply (Hp l1); [done|exact H]);
    destruct (os_write os _) as [n [c|]]; try (by eapply Hp; [|exact H]);
    destruct (negb _); try (by eapply Hp; [|exact H]);
    destruct (os_sync os _); try (by eapply Hp; [|exact H]); done.
Qed.

(** Segment names read back, so the numbered files of a log are told apart from each
    other and sort in the order they were written. *)
Theorem disklog_segment_names n (fs : gmap string file) :
  Z.of_nat n <= max_u64 ->
  (forall seq, 1 <= seq <= Z.of_nat n -> is_Some (fs !! segmentName seq)) ->
  (forall name seq, is_Some (fs !! name) -> parseSegmentName name = Some seq ->
     1 <= seq <= Z.of_nat n /\ name = segmentName seq) ->
  listSegments fs = Ok (seqZ 1 (Z.of_nat n)) /\
  forall seq, 1 <= seq <= max_u64 -> parseSegmentName (segmentName seq) = Some seq.
Proof.
  intros Hm Hall Honly. split; [|intros seq Hs; apply parse_segmentName; lia].
  apply listSegments_ok; [done| |done]. intros i Hi. apply Hall. lia.
Qed.

(** C11. State machine safety over the write-ahead log: in a cluster whose hosts persist
    in disk logs, crash with any part of a batch written and recover with [Open], of the
    sequences any two state machines have applied one is a prefix of the other. *)
Theorem disklog_cluster_safety marshal unmarshal (Hread : reads_back marshal unmarshal)
    (cfgs : Z -> Config) (ids : list Z) (c : cluster (S := DiskStore)) :
  cluster_cfg cfgs ids ->
  creach (H1 := DiskStore_Safe marshal unmarshal Hread) cfgs ids c ->
  forall i j, i ∈ ids -> j ∈ ids ->
    applied (hosts c i) `prefix_of` applied (hosts c j) \/
    applied (hosts c j) `prefix_of` applied (hosts c i).
Proof.
  intros Hcfg Hc i j Hi Hj.
  destruct (reach_CI (H1 := DiskStore_Safe marshal unmarshal Hread) cfgs ids c Hcfg Hc) as (s & _ & HC).
  exact (CI_comparable ids s c i j HC Hi Hj).
Qed.
