(* ===== verification/DiskRuns.v ===== *)
(** Concrete runs of the write-ahead log.  [proto.Marshal] is instantiated by a function
    that numbers the records ([demo_proto_marshal]); the theorems about the log are applied to
    saves, crashes and reopenings that are computed, and to a three-node cluster over
    disk logs. *)

From stdpp Require Import functions countable.
From S2P Require Import Prelude Proto RaftLog RaftNode RaftSpec Storage Server NodeFacts HostFacts Cluster Bytes WalRecords Safety Runs DiskLog DiskLogFacts DiskRecovery DiskLogSpec.

(** * A marshaller *)

#[local] Instance EntryType_countable : Countable EntryType.
Proof.
  refine (inj_countable'
    (fun t => match t with
              | ENTRY_TYPE_UNSPECIFIED => inr 0%N
              | EntryType_NORMAL => inr 1%N
              | EntryType_NOOP => inr 2%N
              | EntryType_UNRECOGNIZED v => inl v
              end)
    (fun c => match c with
              | inr 0%N => ENTRY_TYPE_UNSPECIFIED
              | inr 1%N => EntryType_NORMAL
              | inr _ => EntryType_NOOP
              | inl v => EntryType_UNRECOGNIZED v
              end) _).
  by intros [].
Defined.

#[local] Instance Entry_countable : Countable Entry.
Proof.
  refine (inj_countable' (fun e => (Index e, Term e, Type_ e, Data e))
    (fun '(i, t, ty, d) => mkEntry i t ty d) _).
  by intros [].
Defined.

#[local] Instance LogRecordBody_countable : Countable LogRecordBody.
Proof.
  refine (inj_countable'
    (fun r => match r with
              | LogRecord_HardState t v => inl (t, v)
              | LogRecord_Entries es => inr (inl es)
              | LogRecord_Truncate from => inr (inr from)
              end)
    (fun c => match c with
              | inl (t, v) => LogRecord_HardState t v
              | inr (inl es) => LogRecord_Entries es
              | inr (inr from) => LogRecord_Truncate from
              end) _).
  by intros [].
Defined.

(** The number of a record in little-endian bytes. *)
Definition number_bytes (p : positive) : bytes := le_put (Z.to_nat (Z.log2 (Z.pos p) / 8 + 1)) (Z.pos p).

Definition demo_proto_marshal (r : LogRecord) : result bytes := Ok (number_bytes (encode r)).

Definition demo_proto_unmarshal (b : bytes) : option LogRecord := decode (Z.to_pos (le_get b)).

Lemma get_number p : le_get (number_bytes p) = Z.pos p.
Proof.
  apply le_get_put_id. pose proof (Z.log2_spec (Z.pos p) eq_refl) as [_ H].
  pose proof (Z.log2_nonneg (Z.pos p)). split; [lia|]. eapply Z.lt_le_trans; [exact H|].
  assert (0 <= Z.log2 (Z.pos p) / 8) by (apply Z.div_pos; lia).
  rewrite Z2Nat.id by lia. change 256 with (2 ^ 8). rewrite <- Z.pow_mul_r by lia.
  apply Z.pow_le_mono_r; [lia|]. pose proof (Z.div_mod (Z.log2 (Z.pos p)) 8 ltac:(lia)).
  pose proof (Z.mod_pos_bound (Z.log2 (Z.pos p)) 8). lia.
Qed.

Lemma demo_reads_back : reads_back demo_proto_marshal demo_proto_unmarshal.
Proof.
  intros r b _ H. unfold demo_proto_marshal in H. injection H as <-.
  unfold demo_proto_unmarshal.
  rewrite get_number. apply countable.decode_encode.
Qed.

(** * A log, saves and crashes *)

Definition open_log (fs : gmap string file) : DiskLog :=
  match (Open demo_proto_unmarshal os_good 100 fs).2 with
  | Ok l => l
  | Err _ => mkDiskLog fs 0 false 0 0 (mkHardState 0 0) [] None true
  end.

Definition log0 : DiskLog := open_log ∅.

Definition demo_hs : option HardState := Some (mkHardState 1 1).
Definition demo_es : list Entry := [mkEntry 1 1 EntryType_NOOP []; mkEntry 2 1 EntryType_NORMAL [Byte.x2a]].

Definition log1 : DiskLog := (dl_Save demo_proto_marshal os_good demo_hs demo_es log0).1.

(** Overwrites the second entry, in a later term; the batch goes to a new segment. *)
Definition demo_hs2 : option HardState := Some (mkHardState 2 0).
Definition demo_es2 : list Entry := [mkEntry 2 2 EntryType_NORMAL [Byte.x2b]].

Definition log2 : DiskLog := (dl_Save demo_proto_marshal os_good demo_hs2 demo_es2 log1).1.

(** A crash after 60 bytes of the second batch: the new segment has the hard state and
    the truncation, and a torn frame that the reopening cuts. *)
Definition log2_crashed : DiskLog := (dl_Save demo_proto_marshal (os_crash 60) demo_hs2 demo_es2 log1).1.
Definition log2_reopened : DiskLog := open_log (files log2_crashed).

Example log2_state :
  (dl_entries log2, dl_hard log2, (map_to_list (files log2)).*1) =
  ([mkEntry 1 1 EntryType_NOOP []; mkEntry 2 2 EntryType_NORMAL [Byte.x2b]], mkHardState 2 0,
   ["000001.seg"; "000002.seg"]).
Proof. vm_compute. reflexivity. Qed.

Example log2_reopened_state :
  (dl_entries log2_reopened, dl_hard log2_reopened) = ([mkEntry 1 1 EntryType_NOOP []], mkHardState 2 0).
Proof. vm_compute. reflexivity. Qed.

Lemma log0_ok : dl_ok demo_proto_marshal log0.
Proof.
  destruct (Open_fresh demo_proto_marshal demo_proto_unmarshal 100 ∅) as (fs & l & E & Hok & _); [done| |].
  - intros name [f Hf]. done.
  - unfold log0, open_log. by rewrite E.
Qed.

Ltac fits_demo :=
  split; [intros h [= <-]; unfold is_u64, max_u64; simpl; lia|];
  repeat constructor; unfold is_u64, max_u64; simpl; try lia; done.

(** A batch that continues a log after [p] entries, checked by computation. *)
Lemma batch_wf_check es batch p :
  (p <= length es)%nat -> (Index <$> batch) = seqZ (Z.of_nat p + 1) (Z.of_nat (length batch)) ->
  Z.of_nat p + Z.of_nat (length batch) < max_u64 -> batch_wf es batch.
Proof.
  intros Hp Hi Hm. exists p. split_and!; [done| |done]. intros i e He.
  assert ((Index <$> batch) !! i = Some (Index e)) as H by (by rewrite list_lookup_fmap, He).
  rewrite Hi in H. apply lookup_seqZ in H. lia.
Qed.

Ltac batch_demo p := apply (batch_wf_check _ _ p); [vm_compute; lia|vm_compute; reflexivity|vm_compute; reflexivity].

Lemma log1_ok : dl_ok demo_proto_marshal log1.
Proof.
  refine (proj1 (Save_inv demo_proto_marshal os_good demo_hs demo_es log0 log1 log0_ok _ _ _)).
  - batch_demo 0%nat.
  - fits_demo.
  - vm_compute. reflexivity.
Qed.

(** * The theorems at these logs *)

Lemma disklog_crash_recovery_witness :
  opened demo_proto_marshal demo_proto_unmarshal 100
    (fun d => d ∈ torn demo_hs2 demo_es2 (dl_hard log1, dl_entries log1) /\
              (Some "disklog: write: crash" = None -> d = saved demo_hs2 demo_es2 (dl_hard log1, dl_entries log1)))
    (files log2_reopened) (Ok log2_reopened).
Proof.
  refine (proj1 (disklog_crash_recovery demo_proto_marshal demo_proto_unmarshal (os_crash 60) os_good demo_hs2 demo_es2
    log1 log2_crashed (Some "disklog: write: crash") (files log2_crashed) 100 (files log2_reopened)
    (Ok log2_reopened) demo_reads_back log1_ok _ _ _ _ (crash_disk_refl _) _)).
  - batch_demo 1%nat.
  - fits_demo.
  - lia.
  - vm_compute. reflexivity.
  - vm_compute. reflexivity.
Defined.

Lemma disklog_open_durable_witness :
  opened demo_proto_marshal demo_proto_unmarshal 100 (fun d => d = (dl_hard log1, dl_entries log1))
    (files log1) (Ok (open_log (files log1))).
Proof.
  refine (proj1 (disklog_open_durable demo_proto_marshal demo_proto_unmarshal os_good os_good 100 (files log1)
    (files log1) (open_log (files log1)) (files log1) (files log1) (Ok (open_log (files log1)))
    demo_reads_back _ _ _ (crash_disk_refl _) _)).
  - destruct (ok_recovers demo_proto_marshal log1 (files log1) log1_ok (crash_disk_refl _))
      as (sg & rs & t & m & H1 & H2 & H3 & H4 & H5 & _). by exists sg, rs, t, m.
  - lia.
  - vm_compute. reflexivity.
  - vm_compute. reflexivity.
Defined.

Definition demo_state1 : recoveredState := dl_state log1.
Definition demo_batch2 : bytes :=
  match encodeBatch demo_proto_marshal demo_hs2 demo_es2 2 with Ok b => b | Err _ => [] end.

Lemma disklog_batch_roundtrip_witness :
  exists m' cut, replayLoop demo_proto_unmarshal (S (length (take 60 demo_batch2))) true (take 60 demo_batch2) 0 demo_state1
      = Ok (m', cut) /\
    pair_of m' ∈ torn demo_hs2 demo_es2 (pair_of demo_state1) /\ (default (length (take 60 demo_batch2)) cut <= 60)%nat.
Proof.
  refine (proj2 (disklog_batch_roundtrip demo_proto_marshal demo_proto_unmarshal demo_hs2 demo_es2 demo_state1 demo_batch2
    demo_reads_back _ _ _ _) 60%nat).
  - apply (dl_ok_wf demo_proto_marshal). apply log1_ok.
  - batch_demo 1%nat.
  - fits_demo.
  - vm_compute. reflexivity.
Defined.

Lemma disklog_only_torn_tail_cut_witness :
  true = true /\ exists t, drop 40 (take 60 demo_batch2) = start_byte :: t /\ symbols t /\
    ~ end_byte ∈ drop 40 (take 60 demo_batch2).
Proof.
  apply (disklog_only_torn_tail_cut demo_proto_unmarshal true (take 60 demo_batch2) demo_state1
    (mkRecoveredState (mkHardState 2 0) [mkEntry 1 1 EntryType_NOOP []]) 40).
  vm_compute. reflexivity.
Defined.

(** A write of which nothing was taken. *)
Lemma disklog_failed_save_witness :
  log2_crashed = log1 \/
  exists cause, failed log2_crashed = Some cause /\ forall os' hs' es',
    dl_Save demo_proto_marshal os' hs' es' log2_crashed =
      (log2_crashed, Some ("disklog: poisoned by earlier failure: " +:+ cause)).
Proof.
  apply (disklog_failed_save demo_proto_marshal (os_crash 60) demo_hs2 demo_es2 log1 log2_crashed "disklog: write: crash");
    vm_compute; reflexivity.
Defined.

Lemma disklog_segment_names_witness :
  listSegments (files log1) = Ok (seqZ 1 1) /\
  forall seq, 1 <= seq <= max_u64 -> parseSegmentName (segmentName seq) = Some seq.
Proof.
  apply (disklog_segment_names 1).
  - unfold max_u64. lia.
  - intros seq Hs. assert (seq = 1) as -> by lia. vm_compute. eauto.
  - intros name seq [f Hf] Hp.
    assert (files log1 = {["000001.seg" := default (mkFile [] 0 true) (files log1 !! "000001.seg")]}) as E
      by (vm_compute; reflexivity).
    rewrite E in Hf. apply lookup_singleton_Some in Hf as [<- _].
    assert (seq = 1) as -> by (vm_compute in Hp; congruence). split; [lia|vm_compute; reflexivity].
Defined.

(** * A cluster over disk logs *)

#[local] Instance demo_Storage : Storage DiskStore := DiskStore_Storage demo_proto_marshal.
#[local] Instance demo_Spec : StorageSpec DiskStore := DiskStore_Spec demo_proto_marshal.
#[local] Instance demo_Safe : CrashSafe DiskStore := DiskStore_Safe demo_proto_marshal demo_proto_unmarshal demo_reads_back.

Definition dl_fits_b (hs : option HardState) (es : list Entry) : bool :=
  match hs with
  | Some h => bool_decide (is_u64 (hs_Term h)) && bool_decide (is_u64 (VotedFor h))
  | None => true
  end && bool_decide (Forall entry_fits es).

Lemma dl_fits_b_sound hs es : dl_fits_b hs es = true -> dl_fits hs es.
Proof.
  unfold dl_fits_b. intros [H1 H2]%andb_true_iff. split; [|by bool_to_prop].
  intros h ->. by bool_to_prop.
Qed.

#[local] Instance demo_Executable : Executable DiskStore := {| fits_b_sound := dl_fits_b_sound |}.

Definition disk0 : DiskStore := mkDiskStore log0 (fun _ => os_good) 100.
Definition disk_state : cluster (S := DiskStore) := after (start disk0) (run1 ++ run2).

(** Node 1 and node 2 have applied the proposal of node 1; node 3 crashed in a save and
    then voted for node 2. *)
Example disk_state_applied :
  (length (applied (hosts disk_state 1)), length (applied (hosts disk_state 2)),
   role (h_Node (hosts disk_state 2)), VotedFor (hardState (h_Node (hosts disk_state 3)))) =
  (2%nat, 2%nat, leader, 2).
Proof. vm_compute. reflexivity. Qed.

Lemma disklog_cluster_safety_witness :
  applied (hosts disk_state 3) `prefix_of` applied (hosts disk_state 1) \/
  applied (hosts disk_state 1) `prefix_of` applied (hosts disk_state 3).
Proof.
  apply (disklog_cluster_safety demo_proto_marshal demo_proto_unmarshal demo_reads_back demo_cfgs demo_ids disk_state demo_cfg_ok);
    [|in_demo..].
  exists (start disk0). split.
  - apply start_init.
    + split; [exact log0_ok|simpl; lia].
    + vm_compute. reflexivity.
    + repeat constructor.
  - apply after_steps. vm_compute. reflexivity.
Defined.
