(* ===== verification/Bloom.v ===== *)
(** The Bloom filter of internal/lsm/bloom.go: no false negatives, for a filter in memory
    and for one that was written out and read back. *)

From S2P Require Import Prelude Bytes.

Definition bloomBitsPerKey : Z := 10.
Definition bloomHashCount : Z := 7.
Definition bloomVersion : Z := 1.
Definition bloomHeaderSize : Z := 10.

(** A filter; a nil pointer is [None] where the code allows one. *)
Record BloomFilter : Type := mkBloomFilter {
  bf_bits : bytes;
  bf_m : Z;
}.

(** [uint64(^uint(0)>>1)], the largest [int]. *)
Definition bloomByteLen (bits : Z) : option Z :=
  let n := bits / 8 in
  let n' := if negb (bits mod 8 =? 0) then n +u 1 else n in
  if max_i64 <? n' then None else Some n'.

Definition bloomSize (expectedKeys : Z) : option (Z * Z) :=
  let keys := if expectedKeys <? 0 then 0 else expectedKeys in
  if max_u64 / bloomBitsPerKey <? keys then None
  else
    let bits := keys *u bloomBitsPerKey in
    let bits' := if bits <? 8 then 8 else bits in
    match bloomByteLen bits' with
    | None => None
    | Some n => Some (bits', n)
    end.

Definition NewBloomFilter (expectedKeys : Z) : option BloomFilter :=
  match bloomSize expectedKeys with
  | None => None
  | Some (bits, n) => Some (mkBloomFilter (replicate (Z.to_nat n) Byte.x00) bits)
  end.

Definition fnv1a64 (data : bytes) (seed : Z) : Z :=
  foldl (fun h b => Z.lxor h (Z_of_byte b) *u 1099511628211) seed data.

Definition bloomHashPair (key : bytes) : Z * Z :=
  let h1 := fnv1a64 key 14695981039346656037 in
  let h2 := fnv1a64 key 9521211207457086692 in
  let h2 := Z.lxor h2 (Z.shiftr h2 33) in
  let h2 := h2 *u 18397679294719823053 in
  let h2 := Z.lxor h2 (Z.shiftr h2 33) in
  let h2 := if h2 =? 0 then 11400714819323198485 else h2 in
  (h1, h2).

(** The bit of probe [i]. *)
Definition probe (h1 h2 m i : Z) : Z := (h1 +u (i *u h2)) mod m.

(** [f.bits[bit/8] |= 1 << (bit % 8)]; [None] is the index panic. *)
Definition setBit (bits : bytes) (bit : Z) : option bytes :=
  match bits !! Z.to_nat (bit / 8) with
  | None => None
  | Some b => Some (<[Z.to_nat (bit / 8) := byte_of_Z (Z.lor (Z_of_byte b) (Z.shiftl 1 (bit mod 8)))]> bits)
  end.

Fixpoint addLoop (h1 h2 m : Z) (k : nat) (i : Z) (bits : bytes) : option bytes :=
  match k with
  | O => Some bits
  | S k' =>
      match setBit bits (probe h1 h2 m i) with
      | None => None
      | Some bits' => addLoop h1 h2 m k' (i + 1) bits'
      end
  end.

(** [Add]: the filter after it; [None] is a panic. *)
Definition bloomAdd (key : bytes) (f : option BloomFilter) : option (option BloomFilter) :=
  match f with
  | None => Some None
  | Some f =>
      if bf_m f =? 0 then Some (Some f)
      else
        let '(h1, h2) := bloomHashPair key in
        match addLoop h1 h2 (bf_m f) (Z.to_nat bloomHashCount) 0 (bf_bits f) with
        | None => None
        | Some bits => Some (Some (mkBloomFilter bits (bf_m f)))
        end
  end.

(** [f.bits[bit/8] & (1 << (bit % 8)) != 0]; [None] is the index panic. *)
Definition getBit (bits : bytes) (bit : Z) : option bool :=
  match bits !! Z.to_nat (bit / 8) with
  | None => None
  | Some b => Some (negb (Z.land (Z_of_byte b) (Z.shiftl 1 (bit mod 8)) =? 0))
  end.

Fixpoint containsLoop (h1 h2 m : Z) (k : nat) (i : Z) (bits : bytes) : option bool :=
  match k with
  | O => Some true
  | S k' =>
      match getBit bits (probe h1 h2 m i) with
      | None => None
      | Some false => Some false
      | Some true => containsLoop h1 h2 m k' (i + 1) bits
      end
  end.

Definition MayContain (key : bytes) (f : option BloomFilter) : option bool :=
  match f with
  | None => Some false
  | Some f =>
      if bf_m f =? 0 then Some false
      else
        let '(h1, h2) := bloomHashPair key in
        containsLoop h1 h2 (bf_m f) (Z.to_nat bloomHashCount) 0 (bf_bits f)
  end.

Definition MarshalBinary (f : option BloomFilter) : result bytes :=
  match f with
  | None => Err "lsm: invalid bloom filter"
  | Some f =>
      if bf_m f =? 0 then Err "lsm: invalid bloom filter"
      else
        match bloomByteLen (bf_m f) with
        | None => Err "lsm: invalid bloom filter"
        | Some byteLen =>
            if negb (Z.of_nat (length (bf_bits f)) =? byteLen) || (max_i64 - bloomHeaderSize <? byteLen)
            then Err "lsm: invalid bloom filter"
            else Ok (byte_of_Z bloomVersion :: byte_of_Z bloomHashCount :: le_put 8 (bf_m f) ++ bf_bits f)
        end
  end.

Definition UnmarshalBloomFilter (data : bytes) : result BloomFilter :=
  match data with
  | v :: k :: rest =>
      if (Z.of_nat (length data) <? bloomHeaderSize + 1) ||
         negb (Z_of_byte v =? bloomVersion) || negb (Z_of_byte k =? bloomHashCount)
      then Err "lsm: invalid bloom encoding"
      else
        let m := le_get (take 8 rest) in
        match bloomByteLen m with
        | None => Err "lsm: invalid bloom bit count"
        | Some byteLen =>
            if (m =? 0) || negb (Z.of_nat (length data) - bloomHeaderSize =? byteLen)
            then Err "lsm: invalid bloom bit count"
            else Ok (mkBloomFilter (drop 8 rest) m)
        end
  | _ => Err "lsm: invalid bloom encoding"
  end.

(** Adding the keys of a table, in order. *)
Fixpoint addAll (keys : list bytes) (f : option BloomFilter) : option (option BloomFilter) :=
  match keys with
  | [] => Some f
  | key :: keys' => match bloomAdd key f with None => None | Some f' => addAll keys' f' end
  end.

(** * Well-formed filters *)

(** The bit array covers the [m] bits, and no more than its last byte is unused. *)
Definition bloom_ok (f : BloomFilter) : Prop :=
  0 < bf_m f <= max_u64 /\ bloomByteLen (bf_m f) = Some (Z.of_nat (length (bf_bits f))).

Lemma bloomByteLen_some bits n :
  is_u64 bits -> bloomByteLen bits = Some n -> n = (bits + 7) / 8 /\ n <= max_i64.
Proof.
  intros Hb H. unfold bloomByteLen in H. unfold is_u64, max_u64 in Hb.
  assert (0 <= bits / 8 <= 2305843009213693951) by div_lia.
  destruct (Z.eqb_spec (bits mod 8) 0) as [E|E]; cbn [negb] in H.
  - destruct (Z.ltb_spec max_i64 (bits / 8)); [done|]. injection H as <-. split; [div_lia|done].
  - rewrite u64_add_small in H by (unfold max_u64; lia).
    destruct (Z.ltb_spec max_i64 (bits / 8 + 1)); [done|]. injection H as <-. split; [div_lia|done].
Qed.

Lemma bloom_in_range f bit :
  bloom_ok f -> 0 <= bit < bf_m f -> (Z.to_nat (bit / 8) < length (bf_bits f))%nat.
Proof.
  intros [Hm Hl] Hb. apply bloomByteLen_some in Hl as [Hl _]; [|unfold is_u64; lia].
  assert (bit / 8 < Z.of_nat (length (bf_bits f))) by div_lia. assert (0 <= bit / 8) by div_lia. lia.
Qed.

Lemma probe_range h1 h2 m i : 0 < m -> 0 <= probe h1 h2 m i < m.
Proof. intros. apply Z.mod_pos_bound. done. Qed.

(** * Bits *)

Definition bit_set (bits : bytes) (bit : Z) : Prop := getBit bits bit = Some true.

Lemma getBit_testbit bits bit b :
  0 <= bit -> bits !! Z.to_nat (bit / 8) = Some b -> getBit bits bit = Some (Z.testbit (Z_of_byte b) (bit mod 8)).
Proof.
  intros Hb E. unfold getBit. rewrite E. f_equal. pose proof (Z.mod_pos_bound bit 8 ltac:(lia)) as Hm.
  rewrite Z.shiftl_1_l. destruct (Z.testbit (Z_of_byte b) (bit mod 8)) eqn:Et.
  - apply negb_true_iff, Z.eqb_neq. intros Hz. apply (f_equal (fun z => Z.testbit z (bit mod 8))) in Hz.
    rewrite Z.land_spec, Et, Z.pow2_bits_true, Z.bits_0 in Hz by lia. done.
  - apply negb_false_iff, Z.eqb_eq. apply Z.bits_inj'. intros n Hn. rewrite Z.land_spec, Z.bits_0.
    destruct (decide (n = bit mod 8)) as [->|Hne]; [by rewrite Et|].
    rewrite Z.pow2_bits_false by lia. apply andb_false_r.
Qed.

Lemma lor_byte b j : 0 <= j < 8 ->
  Z_of_byte (byte_of_Z (Z.lor (Z_of_byte b) (Z.shiftl 1 j))) = Z.lor (Z_of_byte b) (2 ^ j).
Proof.
  intros Hj. rewrite Z_of_byte_of_Z, Z.shiftl_1_l. apply Z.mod_small.
  pose proof (Z_of_byte_range b). split; [apply Z.lor_nonneg; split; [lia|apply Z.pow_nonneg; lia]|].
  assert (0 < 2 ^ j) by (apply Z.pow_pos_nonneg; lia).
  assert (0 < Z.lor (Z_of_byte b) (2 ^ j)).
  { assert (0 <= Z.lor (Z_of_byte b) (2 ^ j)) by (apply Z.lor_nonneg; lia).
    destruct (Z.eq_dec (Z.lor (Z_of_byte b) (2 ^ j)) 0) as [E|]; [|lia]. apply Z.lor_eq_0_iff in E. lia. }
  change 256 with (2 ^ 8). apply Z.log2_lt_pow2; [done|]. rewrite Z.log2_lor by lia.
  apply Z.max_lub_lt.
  - destruct (Z.eq_dec (Z_of_byte b) 0) as [->|]; [simpl; lia|]. apply Z.log2_lt_pow2; lia.
  - rewrite Z.log2_pow2; lia.
Qed.

(** Setting a bit sets it and clears none. *)
Lemma setBit_spec bits bit bits' :
  0 <= bit -> setBit bits bit = Some bits' ->
  length bits' = length bits /\ bit_set bits' bit /\ forall c, 0 <= c -> bit_set bits c -> bit_set bits' c.
Proof.
  intros Hb H. unfold setBit in H. destruct (bits !! Z.to_nat (bit / 8)) as [b|] eqn:E; [|done]. injection H as <-.
  pose proof (Z.mod_pos_bound bit 8 ltac:(lia)) as Hm. pose proof (lookup_lt_Some _ _ _ E) as Hlt.
  set (b' := byte_of_Z _). assert (Z_of_byte b' = Z.lor (Z_of_byte b) (2 ^ (bit mod 8))) as Eb by (by apply lor_byte).
  split_and!; [by rewrite length_insert|..].
  - unfold bit_set. rewrite (getBit_testbit _ _ b') by (done || by rewrite list_lookup_insert_eq).
    rewrite Eb, Z.lor_spec, Z.pow2_bits_true by lia. by rewrite orb_true_r.
  - intros c Hc Hs. unfold bit_set in *. destruct (decide (Z.to_nat (c / 8) = Z.to_nat (bit / 8))) as [Ec|Hne].
    + rewrite (getBit_testbit _ _ b) in Hs by (done || by rewrite Ec).
      rewrite (getBit_testbit _ _ b') by (done || by rewrite Ec, list_lookup_insert_eq).
      injection Hs as Hs. by rewrite Eb, Z.lor_spec, Hs.
    + unfold getBit in *. rewrite list_lookup_insert_ne by congruence. done.
Qed.

Lemma addLoop_spec h1 h2 m k i bits bits' :
  0 < m -> addLoop h1 h2 m k i bits = Some bits' ->
  length bits' = length bits /\
  (forall c, 0 <= c -> bit_set bits c -> bit_set bits' c) /\
  forall j, (j < k)%nat -> bit_set bits' (probe h1 h2 m (i + Z.of_nat j)).
Proof.
  intros Hm. revert i bits. induction k as [|k IH]; intros i bits H; cbn [addLoop] in H.
  { injection H as <-. split_and!; [done..|]. lia. }
  destruct (setBit bits (probe h1 h2 m i)) as [bits1|] eqn:E; [|done].
  apply setBit_spec in E as (El & Es & Ek); [|by apply probe_range].
  apply IH in H as (Hl & Hk & Hs). split_and!; [congruence|auto|].
  intros [|j] Hj.
  - rewrite Z.add_0_r. apply Hk; [by apply probe_range|done].
  - replace (i + Z.of_nat (S j)) with (i + 1 + Z.of_nat j) by lia. apply Hs. lia.
Qed.

Lemma containsLoop_true h1 h2 m k i bits :
  (forall j, (j < k)%nat -> bit_set bits (probe h1 h2 m (i + Z.of_nat j))) ->
  containsLoop h1 h2 m k i bits = Some true.
Proof.
  revert i. induction k as [|k IH]; intros i H; cbn [containsLoop]; [done|].
  specialize (H 0%nat ltac:(lia)) as H0. rewrite Z.add_0_r in H0. rewrite H0.
  apply IH. intros j Hj. specialize (H (S j) ltac:(lia)).
  replace (i + 1 + Z.of_nat j) with (i + Z.of_nat (S j)) by lia. done.
Qed.

Lemma containsLoop_inv h1 h2 m k i bits :
  containsLoop h1 h2 m k i bits = Some true ->
  forall j, (j < k)%nat -> bit_set bits (probe h1 h2 m (i + Z.of_nat j)).
Proof.
  revert i. induction k as [|k IH]; intros i H j Hj; [lia|]. cbn [containsLoop] in H.
  destruct (getBit bits (probe h1 h2 m i)) as [[]|] eqn:E; try done.
  destruct j as [|j]; [by rewrite Z.add_0_r|].
  replace (i + Z.of_nat (S j)) with (i + 1 + Z.of_nat j) by lia. apply IH; [done|lia].
Qed.

Lemma setBit_some f bit :
  bloom_ok f -> 0 <= bit < bf_m f -> is_Some (setBit (bf_bits f) bit).
Proof.
  intros Hok Hb. unfold setBit. destruct (lookup_lt_is_Some_2 _ _ (bloom_in_range f bit Hok Hb)) as [b ->]. eauto.
Qed.

Lemma bloom_ok_length f bits : bloom_ok f -> length bits = length (bf_bits f) -> bloom_ok (mkBloomFilter bits (bf_m f)).
Proof. intros [Hm Hl] E. split; [done|]. simpl. by rewrite E. Qed.

Lemma addLoop_some f h1 h2 k i :
  bloom_ok f -> is_Some (addLoop h1 h2 (bf_m f) k i (bf_bits f)).
Proof.
  revert i f. induction k as [|k IH]; intros i f Hok; cbn [addLoop]; [eauto|].
  assert (0 <= probe h1 h2 (bf_m f) i < bf_m f) as Hp by (apply probe_range; apply Hok).
  destruct (setBit_some _ _ Hok Hp) as [bits' E]. rewrite E. apply setBit_spec in E as (El & _ & _); [|lia].
  apply (IH (i + 1) (mkBloomFilter bits' (bf_m f))). by apply bloom_ok_length.
Qed.

Lemma containsLoop_some f h1 h2 k i : bloom_ok f -> is_Some (containsLoop h1 h2 (bf_m f) k i (bf_bits f)).
Proof.
  intros Hok. revert i. induction k as [|k IH]; intros i; cbn [containsLoop]; [eauto|].
  assert (0 <= probe h1 h2 (bf_m f) i < bf_m f) as Hp by (apply probe_range; apply Hok).
  unfold getBit. destruct (lookup_lt_is_Some_2 _ _ (bloom_in_range f _ Hok Hp)) as [b ->].
  destruct (negb _); eauto.
Qed.

(** * Operations keep filters well-formed *)

Lemma NewBloomFilter_ok n f : n <= max_i64 -> NewBloomFilter n = Some f -> bloom_ok f.
Proof.
  intros Hn H. unfold NewBloomFilter, bloomSize in H.
  set (keys := if n <? 0 then 0 else n) in H.
  assert (0 <= keys <= max_i64) as Hk by (unfold keys; destruct (Z.ltb_spec n 0); unfold max_i64 in *; lia).
  destruct (Z.ltb_spec (max_u64 / bloomBitsPerKey) keys) as [|Hle]; [done|].
  assert (keys *u bloomBitsPerKey = keys * 10) as E.
  { unfold u64_mul. apply u64_id. unfold is_u64, bloomBitsPerKey, max_u64 in *. div_lia. }
  rewrite E in H. set (bits := if keys * 10 <? 8 then 8 else keys * 10) in H.
  assert (8 <= bits <= max_u64) as Hb.
  { unfold bits, bloomBitsPerKey, max_u64 in *. destruct (Z.ltb_spec (keys * 10) 8); div_lia. }
  destruct (bloomByteLen bits) as [k|] eqn:Eb; [|done]. injection H as <-. split; cbn [bf_m bf_bits]; [lia|].
  rewrite length_replicate. apply bloomByteLen_some in Eb as E2; [|unfold is_u64; lia].
  assert (0 <= k) by div_lia. rewrite Eb. f_equal. lia.
Qed.

Lemma bloomAdd_ok key f :
  bloom_ok f -> exists f', bloomAdd key (Some f) = Some (Some f') /\ bloom_ok f' /\
    MayContain key (Some f') = Some true /\
    forall key', MayContain key' (Some f) = Some true -> MayContain key' (Some f') = Some true.
Proof.
  intros Hok. pose proof Hok as [[Hm Hm'] _]. unfold bloomAdd, MayContain. rewrite (proj2 (Z.eqb_neq (bf_m f) 0)) by lia.
  destruct (bloomHashPair key) as [h1 h2] eqn:Eh.
  destruct (addLoop_some f h1 h2 (Z.to_nat bloomHashCount) 0 Hok) as [bits E]. rewrite E.
  apply addLoop_spec in E as (El & Ek & Es); [|done].
  eexists. split; [reflexivity|]. cbn [bf_m bf_bits]. rewrite (proj2 (Z.eqb_neq (bf_m f) 0)) by lia.
  split_and!; [by apply bloom_ok_length|by apply containsLoop_true|].
  intros key' Hk. destruct (bloomHashPair key') as [g1 g2]. apply containsLoop_true.
  intros j Hj. apply Ek; [by apply probe_range|]. by eapply containsLoop_inv in Hk.
Qed.

Lemma addAll_ok keys f :
  bloom_ok f -> exists f', addAll keys (Some f) = Some (Some f') /\ bloom_ok f' /\ bf_m f' = bf_m f /\
    (forall key, key ∈ keys -> MayContain key (Some f') = Some true) /\
    (forall key, MayContain key (Some f) = Some true -> MayContain key (Some f') = Some true).
Proof.
  revert f. induction keys as [|k keys IH]; intros f Hok; cbn [addAll].
  { exists f. split_and!; [done..|by intros ? ?%elem_of_nil|done]. }
  destruct (bloomAdd_ok k f Hok) as (f1 & E1 & Hok1 & Hin & Hkeep). rewrite E1.
  destruct (IH f1 Hok1) as (f' & E & Hok' & Em & Hall & Hk). exists f'. split_and!; [done..| | |].
  - rewrite Em. unfold bloomAdd in E1. destruct (bf_m f =? 0); [by simplify_eq|].
    destruct (bloomHashPair k). destruct (addLoop _ _ _ _ _ _); by simplify_eq.
  - intros key [->|Hi]%elem_of_cons; auto.
  - auto.
Qed.

Lemma Marshal_ok f data :
  bloom_ok f -> MarshalBinary (Some f) = Ok data -> UnmarshalBloomFilter data = Ok f.
Proof.
  intros [Hm Hl] H. unfold MarshalBinary in H. rewrite (proj2 (Z.eqb_neq (bf_m f) 0)) in H by lia.
  rewrite Hl, Z.eqb_refl in H. cbn [negb orb] in H.
  destruct (Z.ltb_spec (max_i64 - bloomHeaderSize) (Z.of_nat (length (bf_bits f)))); [done|].
  apply Ok_inj in H as <-. unfold UnmarshalBloomFilter. rewrite !Z_of_byte_of_Z.
  assert (0 < Z.of_nat (length (bf_bits f))) as Hpos.
  { apply bloomByteLen_some in Hl as [-> _]; [|unfold is_u64; lia]. div_lia. }
  cbn [length]. rewrite length_app, length_le_put. unfold bloomHeaderSize.
  rewrite (proj2 (Z.ltb_ge _ _)) by lia. cbn [orb].
  change (negb (bloomVersion mod 256 =? bloomVersion)) with false.
  change (negb (bloomHashCount mod 256 =? bloomHashCount)) with false. cbn [orb].
  rewrite take_app_length', drop_app_length' by (by rewrite length_le_put).
  rewrite le_get_put_id by (change (256 ^ Z.of_nat 8) with (max_u64 + 1); lia).
  rewrite Hl, (proj2 (Z.eqb_neq (bf_m f) 0)) by lia.
  rewrite (proj2 (Z.eqb_eq _ _)) by lia. by destruct f.
Qed.

Lemma Unmarshal_ok data f :
  Z.of_nat (length data) <= max_i64 -> UnmarshalBloomFilter data = Ok f ->
  bloom_ok f /\ MarshalBinary (Some f) = Ok data.
Proof.
  intros Hlen H. unfold UnmarshalBloomFilter in H. destruct data as [|v [|k rest]]; try done.
  destruct (_ || _ || _) eqn:Eg; [done|].
  apply orb_false_iff in Eg as [[E1 E2]%orb_false_iff E3]. bool_to_prop. cbn [length] in *. unfold bloomHeaderSize in *.
  destruct (bloomByteLen (le_get (take 8 rest))) as [n|] eqn:En; [|done].
  destruct (_ || _) eqn:Eg2; [done|]. apply orb_false_iff in Eg2 as [E4 E5]. bool_to_prop. injection H as <-.
  assert (length (take 8 rest) = 8%nat) as E8 by (rewrite length_take; lia).
  pose proof (le_get_range (take 8 rest)) as Hr. rewrite E8 in Hr. change (256 ^ Z.of_nat 8) with (max_u64 + 1) in Hr.
  assert (Z.of_nat (length (drop 8 rest)) = n) as El by (rewrite length_drop; lia).
  split; [split; cbn [bf_m bf_bits]; [lia|by rewrite El]|].
  unfold MarshalBinary. cbn [bf_m bf_bits]. rewrite (proj2 (Z.eqb_neq _ _) E4), En, El, Z.eqb_refl. cbn [negb orb].
  unfold bloomHeaderSize. rewrite (proj2 (Z.ltb_ge _ _)) by lia. do 2 f_equal; [by rewrite <- E2, byte_of_Z_of_byte|].
  f_equal; [by rewrite <- E3, byte_of_Z_of_byte|].
  rewrite <- (take_drop 8 rest) at 3. f_equal. rewrite <- E8 at 1. apply le_put_get.
Qed.

(** * The theorems *)

(** C30. The Bloom filter has no false negatives: adding keys to a new filter never
    indexes outside its bits, and afterwards every added key may be contained, also in
    the filter that is read back from its encoding. *)
Theorem bloom_no_false_negatives n keys f :
  n <= max_i64 -> NewBloomFilter n = Some f ->
  exists f', addAll keys (Some f) = Some (Some f') /\
    (forall key, key ∈ keys -> MayContain key (Some f') = Some true) /\
    (forall key, is_Some (MayContain key (Some f'))) /\
    forall data g, MarshalBinary (Some f') = Ok data -> UnmarshalBloomFilter data = Ok g ->
      forall key, key ∈ keys -> MayContain key (Some g) = Some true.
Proof.
  intros Hn Hf. pose proof (NewBloomFilter_ok n f Hn Hf) as Hok.
  destruct (addAll_ok keys f Hok) as (f' & E & Hok' & _ & Hall & _). exists f'. split_and!; [done..| |].
  - intros key. unfold MayContain. destruct (bf_m f' =? 0); [eauto|]. destruct (bloomHashPair key).
    by apply containsLoop_some.
  - intros data g Hd Hg key Hk. rewrite (Marshal_ok f' data Hok' Hd) in Hg. injection Hg as <-. auto.
Qed.

(** Decoding a filter accepts exactly the encodings of well-formed filters: a byte
    string that decodes is the encoding of the filter it decodes to, and that filter's
    bits cover its bit count. *)
Theorem bloom_roundtrip data f :
  Z.of_nat (length data) <= max_i64 ->
  UnmarshalBloomFilter data = Ok f <-> bloom_ok f /\ MarshalBinary (Some f) = Ok data.
Proof.
  intros Hlen. split; [by apply Unmarshal_ok|]. intros [Hok Hm]. by apply Marshal_ok.
Qed.

Definition demo_filter : BloomFilter := default (mkBloomFilter [] 0) (NewBloomFilter 2).

Lemma bloom_no_false_negatives_witness :
  exists f', addAll [[Byte.x61]; [Byte.x62]] (Some demo_filter) = Some (Some f') /\
    (forall key, key ∈ [[Byte.x61]; [Byte.x62]] -> MayContain key (Some f') = Some true) /\
    (forall key, is_Some (MayContain key (Some f'))) /\
    forall data g, MarshalBinary (Some f') = Ok data -> UnmarshalBloomFilter data = Ok g ->
      forall key, key ∈ [[Byte.x61]; [Byte.x62]] -> MayContain key (Some g) = Some true.
Proof.
  apply (bloom_no_false_negatives 2 [[Byte.x61]; [Byte.x62]] demo_filter); [unfold max_i64; lia|vm_compute; reflexivity].
Defined.

Lemma bloom_roundtrip_witness :
  let data := [Byte.x01; Byte.x07; Byte.x14; Byte.x00; Byte.x00; Byte.x00; Byte.x00; Byte.x00; Byte.x00; Byte.x00;
               Byte.x00; Byte.x00; Byte.x00] in
  UnmarshalBloomFilter data = Ok demo_filter <->
  bloom_ok demo_filter /\ MarshalBinary (Some demo_filter) = Ok data.
Proof. apply bloom_roundtrip. unfold max_i64. simpl. lia. Defined.
