(* ===== verification/SkipList.v ===== *)
(** The skip list of internal/lsm/skiplist.go, the memtable's data structure.

    Nodes are pointers into a store of nodes, as in the code: [forward] holds the
    addresses of the next nodes, level by level, and address 0 is the head.  The theorems
    show that the structure is an ordered map whose entries only move to higher sequence
    numbers, that no level is ever indexed out of range, and that the search loops
    terminate. *)

From stdpp Require Import sorting.
From S2P Require Import Prelude Bytes RaftNode.

Definition maxHeight : nat := 16.
Definition towerInverseP : Z := 4.

Record skipNode : Type := mkSkipNode {
  sk_key : bytes;
  sk_value : bytes;
  sk_tombstone : bool;
  sk_seq : Z;
  forward : list (option nat);
}.

(** [sk_next] is the next address the allocator hands out. *)
Record skipList : Type := mkSkipList {
  nodes : gmap nat skipNode;
  sk_next : nat;
  level : nat;
  sk_rnd : Rand;
}.

Definition newSkipList (r : Rand) : skipList :=
  mkSkipList {[0%nat := mkSkipNode [] [] false 0 (replicate maxHeight None)]} 1 1 r.

(** The loop of [randomHeight]; [k] iterations are left before the height reaches its
    maximum. *)
Fixpoint heightLoop (inverseP : Z) (k : nat) (height : nat) (r : Rand) : nat * Rand :=
  match k with
  | O => (height, r)
  | S k' =>
      let '(v, r') := IntN r inverseP in
      if v =? 0 then heightLoop inverseP k' (S height) r' else (height, r')
  end.

Definition randomHeight (r : Rand) (maxH : nat) (inverseP : Z) : nat * Rand :=
  heightLoop inverseP (maxH - 1) 1 r.

Definition RandomHeight (r : Rand) : nat * Rand := randomHeight r maxHeight towerInverseP.

(** [x.forward[i]]; the outer [None] is a nil dereference or an index out of range. *)
Definition fwd (s : skipList) (x i : nat) : option (option nat) :=
  match nodes s !! x with Some n => forward n !! i | None => None end.

Definition with_nodes (ns : gmap nat skipNode) (s : skipList) : skipList :=
  mkSkipList ns (sk_next s) (level s) (sk_rnd s).

(** [x.forward[i] = v]. *)
Definition setFwd (x i : nat) (v : option nat) (s : skipList) : option skipList :=
  match nodes s !! x with
  | None => None
  | Some n =>
      if Nat.ltb i (length (forward n))
      then Some (with_nodes (<[x := mkSkipNode (sk_key n) (sk_value n) (sk_tombstone n) (sk_seq n)
                                      (<[i := v]> (forward n))]> (nodes s)) s)
      else None
  end.

(** The inner loop of the searches at level [i].  It visits each node at most once:
    [size (nodes s)] iterations are enough, see [searchLevel_spec]. *)
Fixpoint searchLevel (fuel : nat) (s : skipList) (key : bytes) (i x : nat) : option nat :=
  match fuel with
  | O => None
  | S fuel' =>
      match fwd s x i with
      | None => None
      | Some None => Some x
      | Some (Some y) =>
          match nodes s !! y with
          | None => None
          | Some ny => if bytes_ltb (sk_key ny) key then searchLevel fuel' s key i y else Some x
          end
      end
  end.

(** The outer loop of the searches, from level [k - 1] down to 0: where it ends, and
    [update[0..k-1]]. *)
Fixpoint descend (s : skipList) (key : bytes) (k x : nat) : option (nat * list nat) :=
  match k with
  | O => Some (x, [])
  | S i =>
      match searchLevel (size (nodes s)) s key i x with
      | None => None
      | Some x' =>
          match descend s key i x' with
          | None => None
          | Some (x'', upd) => Some (x'', upd ++ [x'])
          end
      end
  end.

(** The loop that links the new node in at the levels [i] to [i + k - 1]. *)
Fixpoint linkLoop (k i : nat) (upd : list nat) (node : nat) (s : skipList) : option skipList :=
  match k with
  | O => Some s
  | S k' =>
      match upd !! i with
      | None => None
      | Some u =>
          match fwd s u i with
          | None => None
          | Some next =>
              match setFwd node i next s with
              | None => None
              | Some s1 =>
                  match setFwd u i (Some node) s1 with
                  | None => None
                  | Some s2 => linkLoop k' (S i) upd node s2
                  end
              end
          end
      end
  end.

(** [put]; [None] is a panic. *)
Definition sl_put (key value : bytes) (tombstone : bool) (seq : Z) (s : skipList) : option (skipList * bool) :=
  match descend s key (level s) 0 with
  | None => None
  | Some (x, update) =>
      match fwd s x 0 with
      | None => None
      | Some next =>
          let insert (_ : unit) :=
            let '(height, r') := randomHeight (sk_rnd s) maxHeight towerInverseP in
            let update' := update ++ replicate (height - level s) 0%nat in
            let node := sk_next s in
            let s1 := mkSkipList (<[node := mkSkipNode key value tombstone seq (replicate height None)]> (nodes s))
                        (S node) (Nat.max (level s) height) r' in
            match linkLoop height 0 update' node s1 with
            | None => None
            | Some s2 => Some (s2, true)
            end in
          match next with
          | None => insert tt
          | Some y =>
              match nodes s !! y with
              | None => None
              | Some ny =>
                  if bool_decide (sk_key ny = key) then
                    if seq <=? sk_seq ny then Some (s, false)
                    else Some (with_nodes (<[y := mkSkipNode (sk_key ny) value tombstone seq (forward ny)]> (nodes s)) s, true)
                  else insert tt
              end
          end
      end
  end.

(** [get]: value, tombstone and sequence number, or not found; the outer [None] is a
    panic. *)
Definition sl_get (key : bytes) (s : skipList) : option (option (bytes * bool * Z)) :=
  match descend s key (level s) 0 with
  | None => None
  | Some (x, _) =>
      match fwd s x 0 with
      | None => None
      | Some None => Some None
      | Some (Some y) =>
          match nodes s !! y with
          | None => None
          | Some ny =>
              if bool_decide (sk_key ny = key) then Some (Some (sk_value ny, sk_tombstone ny, sk_seq ny)) else Some None
          end
      end
  end.

(** [forEach] with a callback that threads a state; [None] is a panic.  The walk visits
    every node once, so [size (nodes s)] iterations are enough. *)
Fixpoint forEachLoop {A} (fuel : nat) (fn : bytes -> bytes -> bool -> Z -> A -> A * bool) (s : skipList)
    (x : option nat) (a : A) : option A :=
  match x with
  | None => Some a
  | Some x =>
      match fuel with
      | O => None
      | S fuel' =>
          match nodes s !! x with
          | None => None
          | Some n =>
              let '(a', go) := fn (sk_key n) (sk_value n) (sk_tombstone n) (sk_seq n) a in
              if negb go then Some a'
              else match forward n !! 0%nat with
                   | None => None
                   | Some next => forEachLoop fuel' fn s next a'
                   end
          end
      end
  end.

Definition forEach {A} (fn : bytes -> bytes -> bool -> Z -> A -> A * bool) (s : skipList) (a : A) : option A :=
  match fwd s 0 0 with
  | None => None
  | Some x => forEachLoop (size (nodes s)) fn s x a
  end.

(** * The invariant *)

Definition ht (s : skipList) (x : nat) : nat :=
  match nodes s !! x with Some n => length (forward n) | None => 0 end.

Definition sdata (s : skipList) (x : nat) : option (bytes * (bytes * bool * Z)) :=
  match nodes s !! x with
  | Some n => Some (sk_key n, (sk_value n, sk_tombstone n, sk_seq n))
  | None => None
  end.

Definition key_of (s : skipList) (x : nat) : bytes :=
  match nodes s !! x with Some n => sk_key n | None => [] end.

(** The nodes of [l] that have a level [i]. *)
Definition at_level (s : skipList) (i : nat) (l : list nat) : list nat := filter (fun x => (i < ht s x)%nat) l.

(** [ks] are the addresses of the nodes after the head, in key order. *)
Record sl_inv (s : skipList) (ks : list nat) : Prop := {
  si_head : ht s 0 = maxHeight;
  si_level : (1 <= level s <= maxHeight)%nat;
  si_ht x : x ∈ ks -> (1 <= ht s x <= level s)%nat;
  si_nodup : NoDup (0%nat :: ks);
  si_sorted : StronglySorted bytes_lt (key_of s <$> ks);
  si_size : size (nodes s) = S (length ks);
  si_fresh x : (sk_next s <= x)%nat -> nodes s !! x = None;
  si_links pre x post i : 0%nat :: ks = pre ++ x :: post -> (i < ht s x)%nat ->
    fwd s x i = Some (head (at_level s i post));
}.

(** * Searching *)

Lemma at_level_app s i l l' : at_level s i (l ++ l') = at_level s i l ++ at_level s i l'.
Proof. apply filter_app. Qed.

Lemma at_level_all s i l : (forall x, x ∈ l -> (i < ht s x)%nat) -> at_level s i l = l.
Proof.
  intros H. unfold at_level. induction l as [|x l IH]; [done|]. rewrite filter_cons_True by (apply H; by left).
  f_equal. apply IH. intros y Hy. apply H. by right.
Qed.

Lemma at_level_head s i l y l' :
  at_level s i l = y :: l' -> exists b c, l = b ++ y :: c /\ at_level s i b = [] /\ at_level s i c = l' /\ (i < ht s y)%nat.
Proof.
  unfold at_level. induction l as [|x l IH]; intros E; [done|].
  destruct (decide (i < ht s x)%nat) as [Hx|Hx].
  - rewrite filter_cons_True in E by done. injection E as -> <-. by exists [], l.
  - rewrite filter_cons_False in E by done. destruct (IH E) as (b & c & -> & Hb & Hc & Hy).
    exists (x :: b), c. split_and!; [done| |done..]. by rewrite filter_cons_False.
Qed.

Lemma at_level_last s i l u :
  last (at_level s i l) = Some u -> exists a b, l = a ++ u :: b /\ at_level s i b = [] /\ (i < ht s u)%nat.
Proof.
  induction l as [|x l IH] using rev_ind; intros E; [done|]. rewrite at_level_app in E.
  destruct (decide (i < ht s x)%nat) as [Hx|Hx].
  - assert (at_level s i [x] = [x]) as Ex by (unfold at_level; by rewrite filter_cons_True).
    rewrite Ex, last_snoc in E. injection E as <-. by exists l, [].
  - assert (at_level s i [x] = []) as Ex by (unfold at_level; by rewrite filter_cons_False).
    rewrite Ex, app_nil_r in E.
    destruct (IH E) as (a & b & -> & Hb & Hu). exists a, (b ++ [x]). rewrite <- app_assoc. split_and!; [done| |done].
    by rewrite at_level_app, Hb, Ex.
Qed.

Lemma in_node s ks x : sl_inv s ks -> x ∈ ks -> exists n, nodes s !! x = Some n.
Proof.
  intros Hi Hx. pose proof (si_ht _ _ Hi x Hx) as H. unfold ht in H. destruct (nodes s !! x); [eauto|lia].
Qed.

Lemma searchLevel_spec s ks key i a x b post fuel :
  sl_inv s ks -> 0%nat :: ks = a ++ x :: b ++ post -> (i < ht s x)%nat ->
  Forall (fun y => bytes_lt (key_of s y) key) b -> Forall (fun y => ~ bytes_lt (key_of s y) key) post ->
  (length b < fuel)%nat -> searchLevel fuel s key i x = Some (default x (last (at_level s i b))).
Proof.
  intros Hi. revert a x b. induction fuel as [|fuel IH]; intros a x b Ek Hx Hb Hp Hf; [lia|]. cbn [searchLevel].
  rewrite (si_links _ _ Hi _ _ _ i Ek Hx), at_level_app.
  destruct (at_level s i b) as [|y l'] eqn:Eb.
  - cbn [app last default]. destruct (at_level s i post) as [|y l'] eqn:Ep; [done|].
    cbn [head]. apply at_level_head in Ep as (b1 & c & -> & _ & _ & Hy).
    unfold ht in Hy. destruct (nodes s !! y) as [ny|] eqn:En; [|lia].
    rewrite Forall_forall in Hp. specialize (Hp y). unfold key_of in Hp. rewrite En in Hp.
    rewrite (proj2 (bytes_ltb_ge _ _)); [done|]. apply Hp. apply elem_of_app. right. by left.
  - cbn [head app]. apply at_level_head in Eb as (b1 & c & -> & Eb1 & Ec & Hy). pose proof Hy as Hy'.
    unfold ht in Hy'. destruct (nodes s !! y) as [ny|] eqn:En; [|lia]. clear Hy'.
    apply Forall_app in Hb as [Hb1 Hb2]. apply Forall_cons in Hb2 as [Hyk Hc].
    unfold key_of in Hyk. rewrite En in Hyk. rewrite (proj2 (bytes_ltb_spec _ _) Hyk).
    rewrite (IH (a ++ x :: b1) y c); [|by rewrite Ek, <- !app_assoc|done..|].
    + f_equal. rewrite Ec, last_cons. by destruct (last l').
    + rewrite length_app in Hf. simpl in Hf. lia.
Qed.

Lemma descend_spec s ks key k a x b post :
  sl_inv s ks -> 0%nat :: ks = a ++ x :: b ++ post -> (k <= ht s x)%nat ->
  Forall (fun y => bytes_lt (key_of s y) key) b -> Forall (fun y => ~ bytes_lt (key_of s y) key) post ->
  exists x' upd, descend s key k x = Some (x', upd) /\ length upd = k /\
    (forall i, (i < k)%nat -> exists u, upd !! i = Some u /\ last (at_level s i (a ++ x :: b)) = Some u) /\
    (upd !! 0%nat = None -> x' = x) /\ (forall u, upd !! 0%nat = Some u -> x' = u).
Proof.
  intros Hi. revert a x b. induction k as [|i IH]; intros a x b Ek Hx Hb Hp; cbn [descend].
  { exists x, []. split_and!; try done. lia. }
  assert (size (nodes s) = length (0%nat :: ks)) as Esz by (by rewrite (si_size _ _ Hi)).
  rewrite (searchLevel_spec s ks key i a x b post) by
    (try done; try lia; rewrite Esz, Ek, length_app; simpl; rewrite length_app; lia).
  assert (at_level s i (x :: b) = x :: at_level s i b) as Exb by (unfold at_level; apply filter_cons_True; lia).
  assert (exists a' b' x', default x (last (at_level s i b)) = x' /\ a ++ x :: b = a' ++ x' :: b' /\
            Forall (fun y => bytes_lt (key_of s y) key) b' /\ (i < ht s x')%nat /\
            last (at_level s i (a ++ x :: b)) = Some x') as (a' & b' & x' & -> & Esp & Hb' & Hx' & Hlast).
  { rewrite at_level_app, Exb. destruct (last (at_level s i b)) as [u|] eqn:El.
    - pose proof El as El'. apply at_level_last in El' as (c & d & -> & _ & Hu).
      exists (a ++ x :: c), d, u. rewrite <- app_assoc. split_and!; [done..| |done|].
      + apply Forall_app in Hb as [_ Hb]. by apply Forall_cons in Hb as [_ ?].
      + rewrite last_app, last_cons, El. done.
    - exists a, b, x. split_and!; [done..|lia|]. by rewrite last_app, last_cons, El. }
  destruct (IH a' x' b') as (x'' & upd & Ed & Hl & Hu & H0 & H1); [|lia|done|done|].
  { assert (forall (p q r : list nat) z, p ++ z :: q ++ r = (p ++ z :: q) ++ r) as Hr
      by (intros; by rewrite <- app_assoc). by rewrite Ek, Hr, Esp, <- Hr. }
  rewrite Ed. exists x'', (upd ++ [x']). split_and!; [done|rewrite length_app; simpl; lia|..].
  - intros j Hj. destruct (decide (j = i)) as [->|Hne].
    + exists x'. rewrite lookup_app_r by lia. replace (i - length upd)%nat with 0%nat by lia. done.
    + destruct (Hu j) as (u & E1 & E2); [lia|]. exists u. rewrite lookup_app_l by lia. split; [done|]. by rewrite Esp.
  - intros E. apply lookup_ge_None in E. rewrite length_app in E. simpl in E. lia.
  - intros u E. destruct upd as [|v upd]; simpl in E; [injection E as <-; by apply H0|]. by apply H1.
Qed.

(** The keys below [key] come first. *)
Lemma split_sorted s ks key :
  StronglySorted bytes_lt (key_of s <$> ks) ->
  exists pre post, ks = pre ++ post /\ Forall (fun y => bytes_lt (key_of s y) key) pre /\
    Forall (fun y => ~ bytes_lt (key_of s y) key) post.
Proof.
  induction ks as [|x ks IH]; intros Hs; [by exists [], []|]. csimpl.
  rewrite fmap_cons in Hs. apply StronglySorted_cons in Hs as [Hx Hs].
  destruct (decide (bytes_lt (key_of s x) key)) as [Hlt|Hge].
  - destruct (IH Hs) as (pre & post & -> & H1 & H2). exists (x :: pre), post. split_and!; [done|by constructor|done].
  - exists [], (x :: ks). split_and!; [done..|]. constructor; [done|].
    rewrite Forall_fmap in Hx. eapply Forall_impl; [exact Hx|]. simpl. intros y Hy Hlt. apply Hge. by etrans.
Qed.

(** Where a search for [key] ends: at the last node before [key], whose successor at
    level 0 is the first node not below it; [upd] are the last nodes before [key], by
    level. *)
Lemma search_spec s ks key :
  sl_inv s ks -> exists pre post x upd, ks = pre ++ post /\
    Forall (fun y => bytes_lt (key_of s y) key) pre /\ Forall (fun y => ~ bytes_lt (key_of s y) key) post /\
    descend s key (level s) 0 = Some (x, upd) /\ length upd = level s /\
    (forall i, (i < level s)%nat -> exists u, upd !! i = Some u /\ last (at_level s i (0%nat :: pre)) = Some u) /\
    fwd s x 0 = Some (head post).
Proof.
  intros Hi. destruct (split_sorted s ks key (si_sorted _ _ Hi)) as (pre & post & -> & H1 & H2).
  destruct (si_level _ _ Hi) as [Hl1 Hl2].
  destruct (descend_spec s (pre ++ post) key (level s) [] 0 pre post Hi) as (x & upd & Ed & Hl & Hu & _ & H0);
    [done|by rewrite (si_head _ _ Hi)|done|done|].
  exists pre, post, x, upd. split_and!; try done.
  destruct (Hu 0%nat) as (u & E1 & E2); [lia|]. rewrite (H0 u E1). cbn [app] in E2.
  apply at_level_last in E2 as (a & b & Esp & Eb & Hu0).
  rewrite (si_links _ _ Hi a u (b ++ post) 0); [|by rewrite app_comm_cons, Esp, <- app_assoc|done].
  rewrite at_level_app, Eb. cbn [app]. rewrite at_level_all; [done|].
  intros y Hy. destruct (si_ht _ _ Hi y); [apply elem_of_app; by right|lia].
Qed.

(** * Linking a node in *)

(** The nodes, their data and heights are the same; only links may differ. *)
Record relinked (s s' : skipList) : Prop := {
  rl_ht x : ht s' x = ht s x;
  rl_data x : sdata s' x = sdata s x;
  rl_size : size (nodes s') = size (nodes s);
  rl_next : sk_next s' = sk_next s;
  rl_level : level s' = level s;
}.

#[export] Instance relinked_preorder : PreOrder relinked.
Proof.
  split; [by split|]. intros s1 s2 s3 [A1 A2 A3 A4 A5] [B1 B2 B3 B4 B5].
  split; intros; congruence.
Qed.

Lemma setFwd_spec x i v s :
  (i < ht s x)%nat -> exists s', setFwd x i v s = Some s' /\ relinked s s' /\
    forall y j, fwd s' y j = if decide (y = x /\ j = i) then Some v else fwd s y j.
Proof.
  intros Hi. unfold setFwd. pose proof Hi as Hi'. unfold ht in Hi'.
  destruct (nodes s !! x) as [n|] eqn:E; [|lia]. rewrite (proj2 (Nat.ltb_lt _ _) Hi').
  eexists. split; [done|]. split; [split|]; cbn [nodes sk_next level with_nodes]; try done.
  - intros y. unfold ht. cbn [nodes with_nodes]. destruct (decide (x = y)) as [<-|Hne].
    + rewrite lookup_insert_eq, E. apply length_insert.
    + by rewrite lookup_insert_ne.
  - intros y. unfold sdata. cbn [nodes with_nodes]. destruct (decide (x = y)) as [<-|Hne].
    + by rewrite lookup_insert_eq, E.
    + by rewrite lookup_insert_ne.
  - apply map_size_insert_Some. eauto.
  - intros y j. unfold fwd. cbn [nodes with_nodes]. destruct (decide (x = y)) as [<-|Hne].
    + rewrite lookup_insert_eq, E. cbn [forward]. case_decide as Hd.
      * destruct Hd as [_ ->]. by rewrite list_lookup_insert_eq.
      * rewrite list_lookup_insert_ne; [done|]. intros ->. by apply Hd.
    + rewrite lookup_insert_ne by done. rewrite decide_False by naive_solver. done.
Qed.

Lemma linkLoop_spec k i upd node s :
  (forall j, (i <= j < i + k)%nat -> exists u, upd !! j = Some u /\ u <> node /\ (j < ht s u)%nat) ->
  (i + k <= ht s node)%nat ->
  exists s', linkLoop k i upd node s = Some s' /\ relinked s s' /\
    forall x j, fwd s' x j =
      if decide (i <= j < i + k)%nat then
        if decide (x = node) then match upd !! j with Some u => fwd s u j | None => None end
        else if decide (upd !! j = Some x) then Some (Some node) else fwd s x j
      else fwd s x j.
Proof.
  revert i s. induction k as [|k IH]; intros i s Hu Hn; cbn [linkLoop].
  { exists s. split_and!; [done..|]. intros x j. rewrite decide_False by lia. done. }
  destruct (Hu i) as (u & Eu & Hne & Hiu); [lia|]. rewrite Eu.
  assert (exists next, fwd s u i = Some next) as [next Enext].
  { unfold ht in Hiu. unfold fwd. destruct (nodes s !! u) as [n|]; [|lia].
    destruct (lookup_lt_is_Some_2 _ _ Hiu) as [v ->]. eauto. }
  rewrite Enext. destruct (setFwd_spec node i next s) as (s1 & -> & R1 & F1); [lia|].
  destruct (setFwd_spec u i (Some node) s1) as (s2 & -> & R2 & F2); [by rewrite (rl_ht _ _ R1)|].
  assert (relinked s s2) as R12 by (by etrans).
  destruct (IH (S i) s2) as (s' & -> & R3 & F3).
  { intros j Hj. destruct (Hu j) as (v & Ev & Hv & Hjv); [lia|]. exists v. by rewrite (rl_ht _ _ R12). }
  { rewrite (rl_ht _ _ R12). lia. }
  exists s'. split_and!; [done|by etrans|]. intros x j. rewrite F3.
  assert (forall y, fwd s2 y j = if decide (y = u /\ j = i) then Some (Some node)
            else if decide (y = node /\ j = i) then Some next else fwd s y j) as F12
    by (intros y; rewrite F2; case_decide; [done|]; apply F1).
  destruct (decide (S i <= j < S i + k)%nat) as [Hj|Hj].
  - rewrite (decide_True (P := (i <= j < i + S k)%nat)) by lia.
    assert (forall y, fwd s2 y j = fwd s y j) as F12'
      by (intros y; rewrite F12; rewrite !decide_False by lia; done).
    rewrite F12'. destruct (upd !! j); [|done]. by rewrite F12'.
  - rewrite F12. destruct (decide (j = i)) as [->|Hji].
    + rewrite (decide_True (P := (i <= i < i + S k)%nat)) by lia. rewrite Eu.
      destruct (decide (x = node)) as [->|Hxn].
      * rewrite decide_False by naive_solver. rewrite decide_True by done. by rewrite Enext.
      * destruct (decide (Some u = Some x)) as [Hux|Hux].
        -- rewrite decide_True by naive_solver. done.
        -- rewrite !decide_False by naive_solver. done.
    + rewrite !(decide_False (P := (_ /\ j = i))) by naive_solver.
      rewrite (decide_False (P := (i <= j < i + S k)%nat)) by lia. done.
Qed.

Lemma heightLoop_range inverseP k h r : (h <= (heightLoop inverseP k h r).1 <= h + k)%nat.
Proof.
  revert h r. induction k as [|k IH]; intros h r; cbn [heightLoop]; [simpl; lia|].
  destruct (IntN r inverseP) as [v r']. case_match; [|simpl; lia]. specialize (IH (S h) r'). lia.
Qed.

Lemma randomHeight_range r : (1 <= (randomHeight r maxHeight towerInverseP).1 <= maxHeight)%nat.
Proof. unfold randomHeight. pose proof (heightLoop_range towerInverseP (maxHeight - 1) 1 r). unfold maxHeight in *. lia. Qed.

Lemma at_level_ext s s' i l : (forall x, x ∈ l -> ht s' x = ht s x) -> at_level s' i l = at_level s i l.
Proof.
  intros H. unfold at_level. induction l as [|x l IH]; [done|].
  assert (ht s' x = ht s x) as E by (apply H; by left).
  assert (filter (fun x => (i < ht s' x)%nat) l = filter (fun x => (i < ht s x)%nat) l) as El
    by (apply IH; intros y Hy; apply H; by right).
  destruct (decide (i < ht s x)%nat).
  - rewrite !filter_cons_True by (rewrite ?E; done). by rewrite El.
  - rewrite !filter_cons_False by (rewrite ?E; done). done.
Qed.

(** The links of a node of [l], seen from the last node of its level. *)
Lemma link_at s ks pre post i u :
  sl_inv s ks -> ks = pre ++ post -> last (at_level s i (0%nat :: pre)) = Some u ->
  u ∈ 0%nat :: pre /\ (i < ht s u)%nat /\ fwd s u i = Some (head (at_level s i post)).
Proof.
  intros Hi -> Hl. apply at_level_last in Hl as (a & b & E & Eb & Hu). split_and!; [|done|].
  - rewrite E. apply elem_of_app. right. by left.
  - rewrite (si_links _ _ Hi a u (b ++ post) i); [|by rewrite app_comm_cons, E, <- app_assoc|done].
    by rewrite at_level_app, Eb.
Qed.

Section insert.
Context (s s1 s2 : skipList) (pre post : list nat) (key value : bytes) (tombstone : bool) (seq : Z) (r : Rand)
  (h : nat) (upd : list nat).
Let node := sk_next s.
Context (Hi : sl_inv s (pre ++ post)).
Context (Hpre : Forall (fun y => bytes_lt (key_of s y) key) pre).
Context (Hpost : Forall (fun y => bytes_lt key (key_of s y)) post).
Context (Hh : (1 <= h <= maxHeight)%nat).
Context (Hupd : forall i, (i < h)%nat -> exists u, upd !! i = Some u /\ last (at_level s i (0%nat :: pre)) = Some u).
Context (E1 : s1 = mkSkipList (<[node := mkSkipNode key value tombstone seq (replicate h None)]> (nodes s))
                     (S node) (Nat.max (level s) h) r).
Context (Hrel : relinked s1 s2).
Context (Hfwd : forall x j, fwd s2 x j =
      if decide (0 <= j < 0 + h)%nat then
        if decide (x = node) then match upd !! j with Some u => fwd s1 u j | None => None end
        else if decide (upd !! j = Some x) then Some (Some node) else fwd s1 x j
      else fwd s1 x j).

Lemma ins_ht x : ht s2 x = if decide (x = node) then h else ht s x.
Proof using Hrel E1.
  rewrite (rl_ht _ _ Hrel), E1. unfold ht. cbn [nodes]. case_decide as H.
  - subst x. rewrite lookup_insert_eq. apply length_replicate.
  - by rewrite lookup_insert_ne.
Qed.

Lemma ins_data x : sdata s2 x = if decide (x = node) then Some (key, (value, tombstone, seq)) else sdata s x.
Proof using Hrel E1.
  rewrite (rl_data _ _ Hrel), E1. unfold sdata. cbn [nodes]. case_decide as H.
  - subst x. by rewrite lookup_insert_eq.
  - by rewrite lookup_insert_ne.
Qed.

Lemma ins_fwd1 x j : x <> node -> fwd s1 x j = fwd s x j.
Proof using E1. intros H. rewrite E1. unfold fwd. cbn [nodes]. by rewrite lookup_insert_ne. Qed.

Lemma ins_fresh x : x ∈ 0%nat :: pre ++ post -> x <> node.
Proof using Hi.
  intros Hx ->. pose proof (si_fresh _ _ Hi node (Nat.le_refl _)) as Hn.
  apply elem_of_cons in Hx as [Hx|Hx].
  - pose proof (si_head _ _ Hi) as H0. rewrite <- Hx in H0. unfold ht in H0. by rewrite Hn in H0.
  - destruct (in_node _ _ _ Hi Hx) as [n E]. congruence.
Qed.

Lemma ins_level i l : (forall x, x ∈ l -> x ∈ 0%nat :: pre ++ post) -> at_level s2 i l = at_level s i l.
Proof using Hi Hrel E1.
  intros Hl. apply at_level_ext. intros x Hx. rewrite ins_ht, decide_False; [done|]. apply ins_fresh, Hl, Hx.
Qed.

Lemma in_front x : x ∈ 0%nat :: pre -> x ∈ 0%nat :: pre ++ post.
Proof. intros H. rewrite app_comm_cons. apply elem_of_app. by left. Qed.

Lemma in_back x : x ∈ post -> x ∈ 0%nat :: pre ++ post.
Proof. intros H. rewrite app_comm_cons. apply elem_of_app. by right. Qed.

Lemma ins_disjoint x : x ∈ 0%nat :: pre -> x ∈ post -> False.
Proof using Hi.
  intros Hy Hy'. pose proof (si_nodup _ _ Hi) as Hnd. rewrite app_comm_cons in Hnd.
  apply NoDup_app in Hnd as (_ & Hd & _). by apply (Hd x).
Qed.

(** The links of the new node. *)
Lemma ins_links_new i : (i < ht s2 node)%nat -> fwd s2 node i = Some (head (at_level s2 i post)).
Proof using All.
  intros Hx. rewrite ins_ht, decide_True in Hx by done. rewrite Hfwd, decide_True by lia. rewrite decide_True by done.
  destruct (Hupd i Hx) as (u & -> & Hl). destruct (link_at _ _ _ _ _ _ Hi eq_refl Hl) as (Hu & _ & Ef).
  rewrite ins_fwd1, Ef by (by apply ins_fresh, in_front). rewrite ins_level; [done|]. apply in_back.
Qed.

(** The links of the nodes before it. *)
Lemma ins_links_before P x B i :
  0%nat :: pre = P ++ x :: B -> (i < ht s2 x)%nat -> fwd s2 x i = Some (head (at_level s2 i (B ++ node :: post))).
Proof using All.
  intros Ek Hx. assert (x ∈ 0%nat :: pre) as Hin by (rewrite Ek; apply elem_of_app; right; by left).
  assert (x <> node) as Hne by (by apply ins_fresh, in_front).
  rewrite ins_ht, decide_False in Hx by done. rewrite at_level_app.
  assert (at_level s2 i B = at_level s i B) as EB.
  { apply ins_level. intros y Hy. apply in_front. rewrite Ek. apply elem_of_app. right. by right. }
  assert (at_level s2 i post = at_level s i post) as Epost by (apply ins_level, in_back).
  assert (fwd s x i = Some (head (at_level s i (B ++ post)))) as Ef.
  { apply (si_links _ _ Hi P); [|done]. by rewrite app_comm_cons, Ek, <- app_assoc. }
  assert (last (at_level s i (0%nat :: pre)) = Some (default x (last (at_level s i B)))) as Hlast.
  { rewrite Ek, at_level_app. unfold at_level at 2. rewrite filter_cons_True by done.
    fold (at_level s i B). rewrite last_app, last_cons. by destruct (last (at_level s i B)). }
  rewrite Hfwd, EB. rewrite (decide_False (P := (x = node))) by done. rewrite ins_fwd1, Ef by done.
  rewrite at_level_app. destruct (at_level s i B) as [|y B'] eqn:EB'.
  - cbn [app last default] in *. destruct (decide (0 <= i < 0 + h)%nat) as [Hih|Hih].
    + destruct (Hupd i) as (u & -> & Hu); [lia|]. rewrite decide_True by congruence.
      unfold at_level. rewrite filter_cons_True; [done|]. rewrite ins_ht, decide_True by done. lia.
    + unfold at_level at 2. rewrite filter_cons_False by (rewrite ins_ht, decide_True by done; lia).
      fold (at_level s2 i post). by rewrite Epost.
  - cbn [app head]. case_decide; [|done]. rewrite decide_False; [done|].
    destruct (Hupd i) as (u & -> & Hu); [lia|]. rewrite Hlast in Hu. injection Hu as <-. intros [= E].
    assert (x ∈ at_level s i B) as HxB.
    { rewrite EB'. apply last_Some_elem_of. rewrite last_cons in E |- *. destruct (last B'); simpl in E; congruence. }
    apply list_elem_of_filter in HxB as [_ HxB].
    pose proof (si_nodup _ _ Hi) as Hnd. rewrite app_comm_cons, Ek in Hnd. apply NoDup_app in Hnd as (Hnd & _ & _).
    apply NoDup_app in Hnd as (_ & _ & Hnd). apply NoDup_cons in Hnd as [Hnot _]. done.
Qed.

(** The links of the nodes after it. *)
Lemma ins_links_after k x Q i :
  post = k ++ x :: Q -> (i < ht s2 x)%nat -> fwd s2 x i = Some (head (at_level s2 i Q)).
Proof using All.
  intros Epo Hx. assert (x ∈ post) as Hin by (rewrite Epo; apply elem_of_app; right; by left).
  assert (x <> node) as Hne by (by apply ins_fresh, in_back).
  rewrite ins_ht, decide_False in Hx by done.
  assert (fwd s2 x i = fwd s x i) as ->.
  { rewrite Hfwd, ins_fwd1 by done. case_decide as Hih; [|done].
    rewrite !decide_False; [done| |done]. destruct (Hupd i) as (u & -> & Hl); [lia|]. intros [= ->].
    destruct (link_at _ _ _ _ _ _ Hi eq_refl Hl) as (Hx0 & _ & _). by apply (ins_disjoint x). }
  rewrite ins_level.
  - apply (si_links _ _ Hi ((0%nat :: pre) ++ k)); [|done]. by rewrite app_comm_cons, Epo, <- app_assoc.
  - intros y Hy. apply in_back. rewrite Epo. apply elem_of_app. right. by right.
Qed.

Lemma ins_links P x Q i :
  0%nat :: pre ++ node :: post = P ++ x :: Q -> (i < ht s2 x)%nat -> fwd s2 x i = Some (head (at_level s2 i Q)).
Proof using All.
  intros E Hx. rewrite app_comm_cons in E. apply app_eq_inv in E as [(k & Ek & Ex)|(k & Ek & Ex)].
  - destruct k as [|x' B]; cbn [app] in Ex; injection Ex as -> ->; [by apply ins_links_new|by eapply ins_links_before].
  - destruct k as [|x' k]; cbn [app] in Ex.
    + injection Ex as <- <-. by apply ins_links_new.
    + injection Ex as _ Ex. by eapply ins_links_after.
Qed.

Lemma ins_key x : x <> node -> key_of s2 x = key_of s x.
Proof using Hrel E1.
  intros Hne. pose proof (ins_data x) as H. rewrite decide_False in H by done. unfold sdata, key_of in *.
  destruct (nodes s2 !! x), (nodes s !! x); congruence.
Qed.

Lemma ins_inv : sl_inv s2 (pre ++ node :: post).
Proof using All.
  destruct (si_level _ _ Hi) as [Hl1 Hl2].
  assert (level s2 = Nat.max (level s) h) as El by (by rewrite (rl_level _ _ Hrel), E1).
  assert (0%nat <> node) as H0 by (apply ins_fresh; by left).
  split.
  - rewrite ins_ht, decide_False by done. apply (si_head _ _ Hi).
  - rewrite El. lia.
  - intros x Hx. rewrite ins_ht, El. case_decide; [lia|].
    destruct (si_ht _ _ Hi x); [|lia]. apply elem_of_app in Hx as [Hx|[->|Hx]%elem_of_cons]; [|done|];
      apply elem_of_app; auto.
  - rewrite app_comm_cons, <- Permutation_middle. constructor; [|exact (si_nodup _ _ Hi)].
    intros Hin. by apply (ins_fresh node).
  - rewrite fmap_app, fmap_cons.
    assert (key_of s2 node = key) as ->.
    { pose proof (ins_data node) as H. rewrite decide_True in H by done. unfold sdata, key_of in *.
      destruct (nodes s2 !! node); [congruence|done]. }
    assert (key_of s2 <$> pre = key_of s <$> pre) as ->.
    { apply list_fmap_ext. intros i x Hx. apply ins_key, ins_fresh, in_front. right. by eapply list_elem_of_lookup_2. }
    assert (key_of s2 <$> post = key_of s <$> post) as ->.
    { apply list_fmap_ext. intros i x Hx. apply ins_key, ins_fresh, in_back. by eapply list_elem_of_lookup_2. }
    pose proof (si_sorted _ _ Hi) as Hs. rewrite fmap_app in Hs.
    apply StronglySorted_app in Hs as (Hs1 & Hs2 & Hs3). apply StronglySorted_app. split_and!; [|done|].
    + intros a b Ha Hb. apply elem_of_cons in Hb as [->|Hb]; [|by apply Hs1].
      apply list_elem_of_fmap in Ha as (x & -> & Hx). rewrite Forall_forall in Hpre. by apply Hpre.
    + constructor; [done|]. by apply Forall_fmap.
  - rewrite (rl_size _ _ Hrel), E1. cbn [nodes]. rewrite map_size_insert_None by (apply (si_fresh _ _ Hi); done).
    rewrite (si_size _ _ Hi), !length_app. simpl. lia.
  - intros x Hx. rewrite (rl_next _ _ Hrel), E1 in Hx. cbn [sk_next] in Hx.
    pose proof (ins_data x) as H. rewrite decide_False in H by (unfold node in *; lia). unfold sdata in H.
    rewrite (si_fresh _ _ Hi x) in H by (unfold node in *; lia). by destruct (nodes s2 !! x).
  - apply ins_links.
Qed.
End insert.

(** * The abstract map *)

Notation entry_t := (bytes * bool * Z)%type.

(** [s] holds the writes of [M]: for each key the value, tombstone and sequence number. *)
Definition rep (s : skipList) (M : gmap bytes entry_t) : Prop :=
  exists ks, sl_inv s ks /\ forall k d, M !! k = Some d <-> exists x, x ∈ ks /\ sdata s x = Some (k, d).

(** What [put] promises: a write is applied when its key is absent or has a lower
    sequence number. *)
Definition put_spec (key value : bytes) (tombstone : bool) (seq : Z) (M : gmap bytes entry_t)
    : gmap bytes entry_t * bool :=
  match M !! key with
  | Some (_, _, seq0) => if seq <=? seq0 then (M, false) else (<[key := (value, tombstone, seq)]> M, true)
  | None => (<[key := (value, tombstone, seq)]> M, true)
  end.

Lemma sdata_key s x k d : sdata s x = Some (k, d) -> key_of s x = k.
Proof. unfold sdata, key_of. destruct (nodes s !! x); congruence. Qed.

(** Two nodes of the list with one key are the same node. *)
Lemma inv_key_inj s ks x y : sl_inv s ks -> x ∈ ks -> y ∈ ks -> key_of s x = key_of s y -> x = y.
Proof.
  intros Hi Hx Hy E. apply list_elem_of_lookup in Hx as [i Hx], Hy as [j Hy].
  pose proof (si_sorted _ _ Hi) as Hs.
  assert (forall i j x y, (i < j)%nat -> ks !! i = Some x -> ks !! j = Some y -> bytes_lt (key_of s x) (key_of s y)) as H.
  { intros i' j' x' y' Hlt Ex Ey. apply list_elem_of_split_length in Ex as (l1 & l2 & -> & ->).
    rewrite fmap_app, fmap_cons in Hs. apply StronglySorted_app in Hs as (_ & _ & Hs).
    apply StronglySorted_cons in Hs as [Hs _]. rewrite Forall_forall in Hs. apply Hs. apply list_elem_of_fmap_2.
    rewrite lookup_app_r in Ey by lia. replace (j' - length l1)%nat with (S (j' - length l1 - 1)) in Ey by lia.
    simpl in Ey. by eapply list_elem_of_lookup_2. }
  destruct (decide (i = j)) as [->|Hne]; [congruence|]. exfalso.
  destruct (decide (i < j)%nat) as [Hlt|Hge].
  - specialize (H _ _ _ _ Hlt Hx Hy). rewrite E in H. by apply (irreflexivity bytes_lt) in H.
  - specialize (H j i y x ltac:(lia) Hy Hx). rewrite E in H. by apply (irreflexivity bytes_lt) in H.
Qed.

(** What the node after a search says about the map. *)
Lemma found_spec (s : skipList) (ks : list nat) (M : gmap bytes entry_t) (key : bytes) (pre post : list nat) :
  sl_inv s ks -> (forall k d, M !! k = Some d <-> exists x, x ∈ ks /\ sdata s x = Some (k, d)) ->
  ks = pre ++ post -> Forall (fun y => bytes_lt (key_of s y) key) pre -> Forall (fun y => ~ bytes_lt (key_of s y) key) post ->
  match head post with
  | None => M !! key = None
  | Some y => y ∈ ks /\ exists n, nodes s !! y = Some n /\
      (if bool_decide (sk_key n = key) then M !! key = Some (sk_value n, sk_tombstone n, sk_seq n)
       else M !! key = None /\ Forall (fun y => bytes_lt key (key_of s y)) post)
  end.
Proof.
  intros Hi HM -> Hpre Hpost. rewrite Forall_forall in Hpre.
  assert (forall d, M !! key = Some d -> exists x, x ∈ post /\ sdata s x = Some (key, d)) as Hin.
  { intros d Hd. apply HM in Hd as (x & Hx & Ex). apply elem_of_app in Hx as [Hx|Hx]; [|by exists x].
    specialize (Hpre x Hx). rewrite (sdata_key _ _ _ _ Ex) in Hpre. by apply (irreflexivity bytes_lt) in Hpre. }
  destruct post as [|y post]; cbn [head].
  { destruct (M !! key) eqn:E; [|done]. destruct (Hin _ eq_refl) as (x & Hx & _). by apply elem_of_nil in Hx. }
  assert (y ∈ pre ++ y :: post) as Hy by (apply elem_of_app; right; by left). split; [done|].
  destruct (in_node _ _ _ Hi Hy) as [n En]. exists n. split; [done|].
  destruct (decide (sk_key n = key)) as [Ek|Ek].
  - rewrite bool_decide_true by done. apply HM. exists y. split; [done|]. unfold sdata. by rewrite En, Ek.
  - rewrite bool_decide_false by done.
    pose proof (si_sorted _ _ Hi) as Hs. rewrite fmap_app, fmap_cons in Hs.
    apply StronglySorted_app in Hs as (_ & _ & Hs). apply StronglySorted_cons in Hs as [Hs _].
    assert (bytes_lt key (key_of s y)) as Hlt.
    { apply Forall_cons in Hpost as [Hy0 _]. unfold key_of in *. rewrite En in *.
      destruct (bytes_lt_total (sk_key n) key) as [?|[?|?]]; done. }
    assert (Forall (fun y => bytes_lt key (key_of s y)) (y :: post)) as Hall.
    { constructor; [done|]. rewrite Forall_fmap in Hs. eapply Forall_impl; [exact Hs|]. intros z Hz. by etrans. }
    split; [|done]. destruct (M !! key) as [d|] eqn:E; [|done]. destruct (Hin _ eq_refl) as (x & Hx & Ex).
    rewrite Forall_forall in Hall. specialize (Hall x Hx). rewrite (sdata_key _ _ _ _ Ex) in Hall.
    by apply (irreflexivity bytes_lt) in Hall.
Qed.

(** A node whose value is replaced. *)
Lemma update_inv s ks y n value tombstone seq :
  sl_inv s ks -> nodes s !! y = Some n ->
  let s' := with_nodes (<[y := mkSkipNode (sk_key n) value tombstone seq (forward n)]> (nodes s)) s in
  sl_inv s' ks /\ forall x, sdata s' x = if decide (x = y) then Some (sk_key n, (value, tombstone, seq)) else sdata s x.
Proof.
  intros Hi Hy s'.
  assert (forall x, ht s' x = ht s x) as Eh.
  { intros x. unfold ht, s'. cbn [nodes with_nodes]. destruct (decide (y = x)) as [<-|Hne].
    - by rewrite lookup_insert_eq, Hy.
    - by rewrite lookup_insert_ne. }
  assert (forall x i, fwd s' x i = fwd s x i) as Ef.
  { intros x i. unfold fwd, s'. cbn [nodes with_nodes]. destruct (decide (y = x)) as [<-|Hne].
    - by rewrite lookup_insert_eq, Hy.
    - by rewrite lookup_insert_ne. }
  assert (forall x, key_of s' x = key_of s x) as Ek.
  { intros x. unfold key_of, s'. cbn [nodes with_nodes]. destruct (decide (y = x)) as [<-|Hne].
    - by rewrite lookup_insert_eq, Hy.
    - by rewrite lookup_insert_ne. }
  split.
  - destruct Hi as [H1 H2 H3 H4 H5 H6 H7 H8]. split; try done.
    + by rewrite Eh.
    + intros x Hx. rewrite Eh. by apply H3.
    + by rewrite (list_fmap_ext _ (key_of s)) by (intros; apply Ek).
    + unfold s'. cbn [nodes with_nodes]. rewrite map_size_insert_Some by eauto. done.
    + intros x Hx. unfold s' in *. cbn [nodes with_nodes sk_next] in *. rewrite lookup_insert_ne; [by apply H7|].
      intros <-. rewrite H7 in Hy by done. done.
    + intros pre x post i E Hx. rewrite Eh in Hx. rewrite Ef, (H8 _ _ _ _ E Hx). f_equal. f_equal.
      symmetry. apply at_level_ext. intros z _. apply Eh.
  - intros x. unfold sdata, s'. cbn [nodes with_nodes]. case_decide as Hd.
    + subst. by rewrite lookup_insert_eq.
    + by rewrite lookup_insert_ne.
Qed.

(** * The operations *)

(** The part of [put] that makes a new node. *)
Definition insertNode (key value : bytes) (tombstone : bool) (seq : Z) (upd : list nat) (s : skipList)
    : option (skipList * bool) :=
  let '(height, r') := randomHeight (sk_rnd s) maxHeight towerInverseP in
  let update' := upd ++ replicate (height - level s) 0%nat in
  let node := sk_next s in
  let s1 := mkSkipList (<[node := mkSkipNode key value tombstone seq (replicate height None)]> (nodes s))
              (S node) (Nat.max (level s) height) r' in
  match linkLoop height 0 update' node s1 with
  | None => None
  | Some s2 => Some (s2, true)
  end.

(** [update] with the levels the new node adds. *)
Lemma update_levels s pre post upd h :
  sl_inv s (pre ++ post) -> length upd = level s -> (h <= maxHeight)%nat ->
  (forall i, (i < level s)%nat -> exists u, upd !! i = Some u /\ last (at_level s i (0%nat :: pre)) = Some u) ->
  forall i, (i < h)%nat -> exists u, (upd ++ replicate (h - level s) 0%nat) !! i = Some u /\
    last (at_level s i (0%nat :: pre)) = Some u.
Proof.
  intros Hi Hlu Hh Hu i Hih. destruct (decide (i < level s)%nat) as [Hl|Hl].
  - destruct (Hu i Hl) as (u & E1 & E2). exists u. split; [|done]. by rewrite lookup_app_l by lia.
  - exists 0%nat. rewrite lookup_app_r, lookup_replicate_2 by lia. split; [done|].
    unfold at_level. rewrite filter_cons_True by (rewrite (si_head _ _ Hi); lia).
    fold (at_level s i pre). replace (at_level s i pre) with (@nil nat); [done|].
    symmetry. destruct (at_level s i pre) as [|z l] eqn:E; [done|].
    apply at_level_head in E as (b & c & -> & _ & _ & Hz).
    destruct (si_ht _ _ Hi z); [|lia]. apply elem_of_app. left. apply elem_of_app. right. by left.
Qed.

Lemma insert_ok (s : skipList) (M : gmap bytes entry_t) (pre post : list nat) key value tombstone seq upd :
  sl_inv s (pre ++ post) -> (forall k d, M !! k = Some d <-> exists x, x ∈ pre ++ post /\ sdata s x = Some (k, d)) ->
  Forall (fun y => bytes_lt (key_of s y) key) pre -> Forall (fun y => bytes_lt key (key_of s y)) post ->
  length upd = level s ->
  (forall i, (i < level s)%nat -> exists u, upd !! i = Some u /\ last (at_level s i (0%nat :: pre)) = Some u) ->
  M !! key = None ->
  exists s', insertNode key value tombstone seq upd s = Some (s', true) /\ rep s' (<[key := (value, tombstone, seq)]> M).
Proof.
  intros Hi HM Hpre Hgt Hlu Hu Hn. unfold insertNode. pose proof (randomHeight_range (sk_rnd s)) as Hh.
  destruct (randomHeight (sk_rnd s) maxHeight towerInverseP) as [h r]. cbn [fst] in Hh.
  pose proof (update_levels s pre post upd h Hi Hlu ltac:(lia) Hu) as Hu'.
  set (upd' := upd ++ replicate (h - level s) 0%nat) in *. set (s1 := mkSkipList _ _ _ _).
  assert (forall y, y ∈ 0%nat :: pre ++ post -> y <> sk_next s) as Hfresh by (intros y Hy; by eapply ins_fresh).
  destruct (linkLoop_spec h 0 upd' (sk_next s) s1) as (s2 & E2 & Hrel & Hfwd).
  { intros j Hj. destruct (Hu' j) as (u & Eu & Hlu'); [lia|]. exists u. split; [done|].
    destruct (link_at _ _ _ _ _ _ Hi eq_refl Hlu') as (Hin & Hj' & _).
    assert (u <> sk_next s) as Hne by (by apply Hfresh, in_front).
    split; [done|]. unfold s1, ht. cbn [nodes]. rewrite lookup_insert_ne by done. exact Hj'. }
  { unfold s1, ht. cbn [nodes]. rewrite lookup_insert_eq. cbn [forward]. by rewrite length_replicate. }
  rewrite E2. exists s2. split; [done|]. exists (pre ++ sk_next s :: post).
  split; [by eapply (ins_inv s s1 s2 pre post key value tombstone seq r h upd')|].
  assert (forall y, y ∈ pre ++ sk_next s :: post <-> y = sk_next s \/ y ∈ pre ++ post) as Hmem
    by (intros y; rewrite !elem_of_app, elem_of_cons; tauto).
  intros k d. pose proof (ins_data s s1 s2 key value tombstone seq r h eq_refl Hrel) as Hdata.
  split.
  - intros Hd. destruct (decide (key = k)) as [<-|Hne].
    + rewrite lookup_insert_eq in Hd. injection Hd as <-. exists (sk_next s). rewrite Hmem. split; [by left|].
      by rewrite Hdata, decide_True.
    + rewrite lookup_insert_ne in Hd by done. apply HM in Hd as (y & Hy & Ey). exists y. rewrite Hmem. split; [by right|].
      rewrite Hdata, decide_False by (by apply Hfresh; right). done.
  - intros (y & Hy & Ey). rewrite Hdata in Ey. case_decide as Hd.
    + injection Ey as <- <-. by rewrite lookup_insert_eq.
    + apply Hmem in Hy as [?|Hy]; [done|]. assert (M !! k = Some d) as Hk by (apply HM; eauto).
      rewrite lookup_insert_ne; [done|]. congruence.
Qed.

Lemma put_ok s M key value tombstone seq :
  rep s M -> exists s', sl_put key value tombstone seq s = Some (s', (put_spec key value tombstone seq M).2) /\
    rep s' (put_spec key value tombstone seq M).1.
Proof.
  intros (ks & Hi & HM).
  destruct (search_spec s ks key Hi) as (pre & post & x & upd & -> & Hpre & Hpost & Ed & Hlu & Hu & Ex).
  pose proof (found_spec s _ M key pre post Hi HM eq_refl Hpre Hpost) as Hf.
  unfold sl_put. rewrite Ed, Ex. fold (insertNode key value tombstone seq upd s). unfold put_spec.
  destruct (head post) as [y|] eqn:Eh.
  - destruct Hf as (Hy & n & En & Hf). rewrite En. destruct (bool_decide (sk_key n = key)) eqn:Ek.
    + rewrite Hf. apply bool_decide_eq_true in Ek. destruct (Z.leb_spec seq (sk_seq n)); cbn [fst snd].
      * exists s. split; [done|]. by exists (pre ++ post).
      * eexists. split; [reflexivity|]. destruct (update_inv s _ y n value tombstone seq Hi En) as [Hi' Hd'].
        exists (pre ++ post). split; [done|]. intros k d. split.
        -- intros Hd. destruct (decide (key = k)) as [<-|Hne].
           ++ rewrite lookup_insert_eq in Hd. injection Hd as <-. exists y. rewrite Hd', decide_True by done. by rewrite Ek.
           ++ rewrite lookup_insert_ne in Hd by done. apply HM in Hd as (z & Hz & Ez). exists z.
              rewrite Hd', decide_False; [done|]. intros ->. unfold sdata in Ez. rewrite En in Ez. congruence.
        -- intros (z & Hz & Ez). rewrite Hd' in Ez. case_decide as Hzy.
           ++ injection Ez as <- <-. by rewrite Ek, lookup_insert_eq.
           ++ rewrite lookup_insert_ne; [apply HM; eauto|]. intros <-. apply Hzy. eapply (inv_key_inj s (pre ++ post)); [done..|].
              rewrite (sdata_key _ _ _ _ Ez). unfold key_of. by rewrite En.
    + destruct Hf as [Hn Hgt]. rewrite Hn. cbn [fst snd]. by eapply insert_ok.
  - rewrite Hf. cbn [fst snd]. destruct post; [|done]. by eapply insert_ok.
Qed.

Lemma get_ok s M key : rep s M -> sl_get key s = Some (M !! key).
Proof.
  intros (ks & Hi & HM).
  destruct (search_spec s ks key Hi) as (pre & post & x & upd & -> & Hpre & Hpost & Ed & _ & _ & Ex).
  pose proof (found_spec s _ M key pre post Hi HM eq_refl Hpre Hpost) as Hf.
  unfold sl_get. rewrite Ed, Ex. destruct (head post) as [y|]; [|by rewrite Hf].
  destruct Hf as (_ & n & -> & Hf). destruct (bool_decide _); [by rewrite Hf|]. destruct Hf as [-> _]. done.
Qed.

(** A callback over a list, with its early exit. *)
Fixpoint walk {A} (fn : bytes -> bytes -> bool -> Z -> A -> A * bool) (l : list (bytes * entry_t)) (a : A) : A :=
  match l with
  | [] => a
  | (k, (v, t, q)) :: l' => let '(a', go) := fn k v t q a in if negb go then a' else walk fn l' a'
  end.

(** The contents in address order. *)
Definition contents (s : skipList) (ks : list nat) : list (bytes * entry_t) := omap (sdata s) ks.

Lemma forEachLoop_ok {A} (fn : bytes -> bytes -> bool -> Z -> A -> A * bool) s ks pre post fuel a :
  sl_inv s ks -> ks = pre ++ post -> (length post <= fuel)%nat ->
  forEachLoop fuel fn s (head post) a = Some (walk fn (contents s post) a).
Proof.
  intros Hi. revert pre fuel a. induction post as [|x post IH]; intros pre fuel a E Hf; [by destruct fuel|].
  destruct fuel as [|fuel]; [simpl in Hf; lia|]. cbn [head forEachLoop].
  assert (x ∈ ks) as Hx by (rewrite E; apply elem_of_app; right; by left).
  destruct (in_node _ _ _ Hi Hx) as [n En]. rewrite En. unfold contents. cbn [omap list_omap].
  unfold sdata at 1. rewrite En. cbn [walk]. destruct (fn _ _ _ _ a) as [a' []]; cbn [negb]; [|done].
  pose proof (si_links _ _ Hi (0%nat :: pre) x post 0) as Hlk. unfold fwd in Hlk. rewrite En in Hlk.
  rewrite Hlk; [|by rewrite E|destruct (si_ht _ _ Hi x Hx); lia]. rewrite at_level_all.
  - apply (IH (pre ++ [x])); [by rewrite E, <- app_assoc|simpl in Hf; lia].
  - intros y Hy. destruct (si_ht _ _ Hi y); [|lia]. rewrite E. apply elem_of_app. right. by right.
Qed.

Lemma contents_keys s ks l : sl_inv s ks -> l ⊆ ks -> (contents s l).*1 = key_of s <$> l.
Proof.
  intros Hi. induction l as [|x l IH]; intros Hl; [done|]. unfold contents. cbn [omap list_omap].
  destruct (in_node _ _ x Hi) as [n En]; [apply Hl; by left|].
  unfold sdata at 1. rewrite En. csimpl. unfold key_of at 1. rewrite En. f_equal. apply IH. set_solver.
Qed.

Lemma newSkipList_rep r : rep (newSkipList r) ∅.
Proof.
  exists []. split.
  - split; try done.
    + simpl. unfold maxHeight. lia.
    + intros x Hx. by apply elem_of_nil in Hx.
    + repeat constructor. intros H. by apply elem_of_nil in H.
    + constructor.
    + intros x Hx. simpl in *. rewrite lookup_singleton_ne; [done|lia].
    + intros pre x post i E Hx. destruct pre as [|? pre]; [|by destruct pre]. injection E as <- <-.
      unfold fwd. simpl. rewrite lookup_singleton_eq. simpl. unfold ht in Hx. simpl in Hx.
      rewrite lookup_singleton_eq in Hx. simpl in Hx. by apply (lookup_replicate_2 16 None i).
  - intros k d. split; [done|]. intros (x & Hx & _). by apply elem_of_nil in Hx.
Qed.

(** [forEach] walks over the map in key order. *)
Lemma forEach_rep s R :
  rep s R -> exists l, StronglySorted bytes_lt l.*1 /\ (forall k d, (k, d) ∈ l <-> R !! k = Some d) /\
    forall A (fn : bytes -> bytes -> bool -> Z -> A -> A * bool) a, forEach fn s a = Some (walk fn l a).
Proof.
  intros (ks & Hi & HM). exists (contents s ks). split_and!.
  - rewrite (contents_keys s ks ks Hi) by done. apply (si_sorted _ _ Hi).
  - intros k d. rewrite HM. unfold contents. by rewrite list_elem_of_omap.
  - intros A fn a. unfold forEach.
    rewrite (si_links _ _ Hi [] 0%nat ks 0) by (try done; rewrite (si_head _ _ Hi); unfold maxHeight; lia).
    rewrite at_level_all by (intros x Hx; destruct (si_ht _ _ Hi x Hx); lia).
    apply (forEachLoop_ok fn s ks [] ks); [done..|]. rewrite (si_size _ _ Hi). lia.
Qed.

(** * The theorems *)

(** A sequence of writes. *)
Record write : Type := mkWrite { w_key : bytes; w_value : bytes; w_tombstone : bool; w_seq : Z }.

Fixpoint put_all (ws : list write) (s : skipList) : option skipList :=
  match ws with
  | [] => Some s
  | w :: ws' =>
      match sl_put (w_key w) (w_value w) (w_tombstone w) (w_seq w) s with
      | None => None
      | Some (s', _) => put_all ws' s'
      end
  end.

Definition spec_all (ws : list write) (M : gmap bytes entry_t) : gmap bytes entry_t :=
  foldl (fun M w => (put_spec (w_key w) (w_value w) (w_tombstone w) (w_seq w) M).1) M ws.

Lemma put_all_ok ws s M : rep s M -> exists s', put_all ws s = Some s' /\ rep s' (spec_all ws M).
Proof.
  revert s M. induction ws as [|w ws IH]; intros s M Hr; [by exists s|]. cbn [put_all].
  destruct (put_ok s M (w_key w) (w_value w) (w_tombstone w) (w_seq w) Hr) as (s' & -> & Hr').
  by apply IH.
Qed.

(** C31. The skip list is an ordered map: after any writes, on any draws of tower heights,
    no step panics and every search ends, [get] gives what the map of the writes holds,
    and [forEach] visits exactly the map's entries in ascending key order and stops when
    its callback says so. *)
Theorem skiplist_refines_map r ws :
  exists s, put_all ws (newSkipList r) = Some s /\
    (forall key, sl_get key s = Some (spec_all ws ∅ !! key)) /\
    exists l, StronglySorted bytes_lt l.*1 /\ (forall k d, (k, d) ∈ l <-> spec_all ws ∅ !! k = Some d) /\
      forall A (fn : bytes -> bytes -> bool -> Z -> A -> A * bool) a, forEach fn s a = Some (walk fn l a).
Proof.
  destruct (put_all_ok ws _ _ (newSkipList_rep r)) as (s & E & Hr). exists s.
  split_and!; [done|intros key; by apply get_ok|]. by apply forEach_rep.
Qed.

(** The write that wins for a key is one of the writes to it, and none has a higher
    sequence number. *)
Lemma spec_all_best ws M key :
  match spec_all ws M !! key with
  | None => M !! key = None /\ forall w, w ∈ ws -> w_key w <> key
  | Some d => (M !! key = Some d \/ exists w, w ∈ ws /\ w_key w = key /\ d = (w_value w, w_tombstone w, w_seq w)) /\
      (forall w, w ∈ ws -> w_key w = key -> w_seq w <= d.2) /\ (forall d0, M !! key = Some d0 -> d0.2 <= d.2)
  end.
Proof.
  revert M. induction ws as [|w ws IH]; intros M.
  { simpl. destruct (M !! key) as [d|]; [|split; [done|by intros w ?%elem_of_nil]].
    split_and!; [by left|by intros w ?%elem_of_nil|]. intros d0 [= <-]. lia. }
  change (spec_all (w :: ws) M) with
    (spec_all ws (put_spec (w_key w) (w_value w) (w_tombstone w) (w_seq w) M).1).
  specialize (IH (put_spec (w_key w) (w_value w) (w_tombstone w) (w_seq w) M).1).
  set (M1 := (put_spec _ _ _ _ M).1) in *.
  assert ((w_key w <> key -> M1 !! key = M !! key) /\
          (w_key w = key -> exists d1, M1 !! key = Some d1 /\ w_seq w <= d1.2 /\ (forall d0, M !! key = Some d0 -> d0.2 <= d1.2) /\
             (M !! key = Some d1 \/ d1 = (w_value w, w_tombstone w, w_seq w)))) as [Hne Heq].
  { unfold M1, put_spec. split.
    - intros Hk. destruct (M !! w_key w) as [[[v t] q]|]; [destruct (w_seq w <=? q)|]; cbn [fst];
        by rewrite ?lookup_insert_ne.
    - intros <-. destruct (M !! w_key w) as [[[v t] q]|] eqn:E; [destruct (Z.leb_spec (w_seq w) q)|]; cbn [fst].
      + exists (v, t, q). split_and!; [done..| |by left]. intros d0 [= <-]. done.
      + rewrite lookup_insert_eq. eexists. split_and!; [done|simpl; lia| |by right]. intros d0 [= <-]. simpl. lia.
      + rewrite lookup_insert_eq. eexists. split_and!; [done|simpl; lia|done|by right]. }
  destruct (decide (w_key w = key)) as [Hk|Hk].
  - destruct (Heq Hk) as (d1 & E1 & Hs & Hge & Hor). destruct (spec_all ws M1 !! key) as [d|].
    + destruct IH as (Hsrc & Hmax & Hmax1). specialize (Hmax1 d1 E1). split_and!.
      * destruct Hsrc as [Hd|(w' & Hw' & Hx)]; [|right; exists w'; split; [by right|done]].
        rewrite E1 in Hd. injection Hd as <-. destruct Hor as [Hor| ->]; [by left|]. right. exists w. split; [by left|done].
      * intros w' [->|Hw']%elem_of_cons Hkw; [lia|by apply Hmax].
      * intros d0 Hd0. specialize (Hge d0 Hd0). lia.
    + destruct IH as [IH _]. congruence.
  - specialize (Hne Hk). rewrite Hne in IH. destruct (spec_all ws M1 !! key) as [d|].
    + destruct IH as (Hsrc & Hmax & Hmax1). split_and!; [|by intros w' [->|Hw']%elem_of_cons Hkw; [|apply Hmax]|done].
      destruct Hsrc as [?|(w' & ? & ?)]; [by left|]. right. exists w'. split; [by right|done].
    + destruct IH as [IH1 IH2]. split; [done|]. intros w' [->|Hw']%elem_of_cons; [done|by apply IH2].
Qed.

(** Replay converges: when two sequences contain the same writes, in any order and
    with any repetitions, and a key is written once per sequence number, the skip lists
    they build answer every [get] alike, with the write of the highest sequence number. *)
Theorem skiplist_replay_converges r r' ws ws' s s' :
  (forall w, w ∈ ws <-> w ∈ ws') ->
  (forall w w', w ∈ ws -> w' ∈ ws -> w_key w = w_key w' -> w_seq w = w_seq w' -> w = w') ->
  put_all ws (newSkipList r) = Some s -> put_all ws' (newSkipList r') = Some s' ->
  forall key, sl_get key s = sl_get key s' /\
    forall v t q, sl_get key s = Some (Some (v, t, q)) ->
      mkWrite key v t q ∈ ws /\ forall w, w ∈ ws -> w_key w = key -> w_seq w <= q.
Proof.
  intros Hsame Huniq E E' key.
  destruct (put_all_ok ws _ _ (newSkipList_rep r)) as (s1 & E1 & Hr). rewrite E in E1. injection E1 as <-.
  destruct (put_all_ok ws' _ _ (newSkipList_rep r')) as (s1 & E1 & Hr'). rewrite E' in E1. injection E1 as <-.
  rewrite (get_ok _ _ key Hr), (get_ok _ _ key Hr').
  pose proof (spec_all_best ws ∅ key) as H. pose proof (spec_all_best ws' ∅ key) as H'.
  rewrite lookup_empty in H, H'. split.
  - f_equal. destruct (spec_all ws ∅ !! key) as [d|], (spec_all ws' ∅ !! key) as [d'|]; [|exfalso|exfalso|done].
    + destruct H as ([?|(w & Hw & Hk & ->)] & Hmax & _); [done|].
      destruct H' as ([?|(w' & Hw' & Hk' & ->)] & Hmax' & _); [done|]. simpl in *.
      assert (w = w') as ->; [|done]. apply Huniq; [done|by apply Hsame|congruence|].
      specialize (Hmax w' ltac:(by apply Hsame) Hk'). specialize (Hmax' w ltac:(by apply Hsame) Hk). lia.
    + destruct H as ([?|(w & Hw & Hk & _)] & _); [done|]. destruct H' as [_ H']. apply (H' w); [by apply Hsame|done].
    + destruct H' as ([?|(w & Hw & Hk & _)] & _); [done|]. destruct H as [_ H]. apply (H w); [by apply Hsame|done].
  - intros v t q [= Hd]. rewrite Hd in H. destruct H as ([?|(w & Hw & Hk & Ed)] & Hmax & _); [done|].
    injection Ed as -> -> ->. split; [|done]. rewrite <- Hk. by destruct w.
Qed.

(** A source that always draws 0 and so builds full towers. *)
Definition demo_rand : Rand := mkRand (fun _ _ => 0) 0.
Definition demo_w1 : write := mkWrite [Byte.x61] [Byte.x01] false 3.
Definition demo_w2 : write := mkWrite [Byte.x61] [] true 5.
Definition demo_w3 : write := mkWrite [Byte.x62] [Byte.x02] false 4.
Definition demo_list (ws : list write) : skipList := default (newSkipList demo_rand) (put_all ws (newSkipList demo_rand)).

Lemma skiplist_replay_converges_witness :
  sl_get [Byte.x61] (demo_list [demo_w1; demo_w3; demo_w2]) = sl_get [Byte.x61] (demo_list [demo_w2; demo_w1; demo_w3; demo_w1]) /\
  forall v t q, sl_get [Byte.x61] (demo_list [demo_w1; demo_w3; demo_w2]) = Some (Some (v, t, q)) ->
    mkWrite [Byte.x61] v t q ∈ [demo_w1; demo_w3; demo_w2] /\
    forall w, w ∈ [demo_w1; demo_w3; demo_w2] -> w_key w = [Byte.x61] -> w_seq w <= q.
Proof.
  apply (skiplist_replay_converges demo_rand demo_rand [demo_w1; demo_w3; demo_w2] [demo_w2; demo_w1; demo_w3; demo_w1]).
  - intros w. rewrite !elem_of_cons, !elem_of_nil. tauto.
  - intros w w' Hw Hw' _ Hq. rewrite !elem_of_cons, !elem_of_nil in Hw, Hw'.
    destruct Hw as [->|[->|[->|[]]]], Hw' as [->|[->|[->|[]]]]; done.
  - vm_compute. reflexivity.
  - vm_compute. reflexivity.
Defined.
