(* ===== verification/SSTable.v ===== *)
(** The sorted string table of internal/lsm/sstable.go: the writer, the file format with
    its blocks, index, Bloom filter and footer, and the validating reader.

    A file is read through [io.ReaderAt], the function [r] of an offset and a length; the
    error a read reports is [Some true] for [io.EOF] and [Some false] for any other. *)

From S2P Require Import Prelude Bytes Bloom.

Definition dataBlockTarget : Z := 4096.
Definition footerTrailer : Z := 16.

(** The bytes of the text MQSSTB01. *)
Definition footerMagic : bytes :=
  [Byte.x4d; Byte.x51; Byte.x53; Byte.x53; Byte.x54; Byte.x42; Byte.x30; Byte.x31].

Definition lsm_ErrCorrupt : error := "lsm: corrupt sstable".
Definition corruptf (what : string) : error := lsm_ErrCorrupt +:+ ": " +:+ what.

(** * encoding/binary's varints *)

(** [PutUvarint]; a [uint64] takes at most ten bytes. *)
Fixpoint put_uvarint (fuel : nat) (x : Z) : bytes :=
  match fuel with
  | O => []
  | S fuel' =>
      if x <? 128 then [byte_of_Z x]
      else byte_of_Z (Z.lor (x mod 256) 128) :: put_uvarint fuel' (Z.shiftr x 7)
  end.

Definition appendUvarint (dst : bytes) (value : Z) : bytes := dst ++ put_uvarint 10 value.

(** [Uvarint]: the value and the bytes it takes; [None] where it reports a count that is
    not positive. *)
Fixpoint uvarintLoop (i : nat) (x s : Z) (buf : bytes) : option (Z * nat) :=
  match buf with
  | [] => None
  | b :: buf' =>
      let v := Z_of_byte b in
      if Nat.eqb i 10 then None
      else if v <? 128 then
        if Nat.eqb i 9 && (1 <? v) then None else Some (Z.lor x (u64 (Z.shiftl v s)), S i)
      else uvarintLoop (S i) (Z.lor x (u64 (Z.shiftl (Z.land v 127) s))) (s + 7) buf'
  end.

Definition Uvarint (buf : bytes) : option (Z * nat) := uvarintLoop 0 0 0 buf.

(** * Records *)

Record TableEntry : Type := mkTableEntry {
  te_Key : bytes;
  te_Seq : Z;
  te_Value : bytes;
  te_Tombstone : bool;
}.

Definition encodeRecord (e : TableEntry) : result bytes :=
  if (max_u32 <? Z.of_nat (length (te_Key e))) || (max_u32 <? Z.of_nat (length (te_Value e)))
  then Err "lsm: record field too large"
  else
    let out := appendUvarint [] (Z.of_nat (length (te_Key e))) ++ te_Key e ++ le_put 8 (te_Seq e) in
    if te_Tombstone e then Ok (appendUvarint (out ++ [Byte.x01]) 0)
    else Ok (appendUvarint (out ++ [Byte.x00]) (Z.of_nat (length (te_Value e))) ++ te_Value e).

Definition validSSTableRecordOrder (previousKey : bytes) (previousSeq : Z) (key : bytes) (seq : Z) : bool :=
  match bytes_compare key previousKey with
  | Gt => true
  | Eq => seq <? previousSeq
  | Lt => false
  end.

(** One record and the bytes after it. *)
Definition decodeRecord (data : bytes) : result (TableEntry * bytes) :=
  match Uvarint data with
  | None => Err (corruptf "invalid key length")
  | Some (keyLen, n) =>
      let data := drop n data in
      if (Z.of_nat (length data) <? keyLen) || (Z.of_nat (length data) - keyLen <? 9)
      then Err (corruptf "truncated record")
      else
        let key := take (Z.to_nat keyLen) data in
        let data := drop (Z.to_nat keyLen) data in
        let seq := le_get (take 8 data) in
        let tombstone := match data !! 8%nat with Some b => Z_of_byte b | None => 0 end in
        if 1 <? tombstone then Err (corruptf "invalid tombstone marker")
        else
          let data := drop 9 data in
          match Uvarint data with
          | None => Err (corruptf "invalid value length")
          | Some (valueLen, n) =>
              if Z.of_nat (length data) - Z.of_nat n <? valueLen then Err (corruptf "invalid value length")
              else
                let data := drop n data in
                if (Z.of_nat (length data) <? valueLen) || ((tombstone =? 1) && negb (valueLen =? 0))
                then Err (corruptf "truncated or invalid tombstone value")
                else
                  Ok (mkTableEntry key seq
                        (if tombstone =? 1 then [] else take (Z.to_nat valueLen) data) (tombstone =? 1),
                      drop (Z.to_nat valueLen) data)
          end
  end.

(** The loop of [decodeRecords]; every record takes at least ten bytes, so [length data]
    iterations are enough: see [decodeRecordsLoop_fuel]. *)
Fixpoint decodeRecordsLoop (fuel : nat) (previous : option TableEntry) (data : bytes) : result (list TableEntry) :=
  match data with
  | [] => Ok []
  | _ :: _ =>
      match fuel with
      | O => Err "out of fuel"
      | S fuel' =>
          match decodeRecord data with
          | Err e => Err e
          | Ok (entry, rest) =>
              let ok := match previous with
                        | None => true
                        | Some p => validSSTableRecordOrder (te_Key p) (te_Seq p) (te_Key entry) (te_Seq entry)
                        end in
              if negb ok
              then Err (corruptf "records are not ordered by key then strictly descending sequence")
              else
                match decodeRecordsLoop fuel' (Some entry) rest with
                | Err e => Err e
                | Ok es => Ok (entry :: es)
                end
          end
      end
  end.

Definition decodeRecords (data : bytes) : result (list TableEntry) := decodeRecordsLoop (length data) None data.

(** * Data blocks *)

Record builtBlock : Type := mkBuiltBlock {
  bb_firstKey : bytes;
  bb_data : bytes;
}.

(** The inner loop of [buildDataBlocks] after the first record of a block: the block's
    data and the entries that are left. *)
Fixpoint fillBlock (data previousKey : bytes) (es : list TableEntry) : result (bytes * list TableEntry) :=
  match es with
  | [] => Ok (data, [])
  | e :: es' =>
      match encodeRecord e with
      | Err m => Err m
      | Ok record =>
          if (dataBlockTarget <? Z.of_nat (length data) + Z.of_nat (length record)) &&
             negb (bool_decide (te_Key e = previousKey))
          then Ok (data, es)
          else fillBlock (data ++ record) (te_Key e) es'
      end
  end.

Fixpoint buildLoop (fuel : nat) (es : list TableEntry) : result (list builtBlock) :=
  match es with
  | [] => Ok []
  | e :: es' =>
      match fuel with
      | O => Err "out of fuel"
      | S fuel' =>
          match encodeRecord e with
          | Err m => Err m
          | Ok record =>
              match fillBlock record (te_Key e) es' with
              | Err m => Err m
              | Ok (data, rest) =>
                  match buildLoop fuel' rest with
                  | Err m => Err m
                  | Ok blocks => Ok (mkBuiltBlock (te_Key e) data :: blocks)
                  end
              end
          end
      end
  end.

Definition buildDataBlocks (es : list TableEntry) : result (list builtBlock) := buildLoop (length es) es.

(** * The index *)

Record indexEntry : Type := mkIndexEntry {
  ix_firstKey : bytes;
  ix_offset : Z;
  ix_length : Z;
}.

Definition appendBlock (dst payload : bytes) : result bytes :=
  if max_u32 <? Z.of_nat (length payload) then Err "lsm: block too large"
  else Ok (dst ++ payload ++ le_put 4 (crc32c payload)).

Fixpoint encodeIndexLoop (index : list indexEntry) (out : bytes) : result bytes :=
  match index with
  | [] => Ok out
  | e :: index' =>
      if max_u32 <? Z.of_nat (length (ix_firstKey e)) then Err "lsm: index key too large"
      else encodeIndexLoop index'
             (appendUvarint out (Z.of_nat (length (ix_firstKey e))) ++ ix_firstKey e ++
              le_put 8 (ix_offset e) ++ le_put 8 (ix_length e))
  end.

Definition encodeIndex (index : list indexEntry) : result bytes :=
  encodeIndexLoop index (appendUvarint [] (Z.of_nat (length index))).

Fixpoint decodeIndexLoop (count : nat) (previous : option bytes) (data : bytes) : result (list indexEntry * bytes) :=
  match count with
  | O => Ok ([], data)
  | S count' =>
      match Uvarint data with
      | None => Err (corruptf "invalid index key length")
      | Some (keyLen, n) =>
          let data := drop n data in
          if (Z.of_nat (length data) <? keyLen) || (Z.of_nat (length data) - keyLen <? 16)
          then Err (corruptf "truncated index entry")
          else
            let firstKey := take (Z.to_nat keyLen) data in
            let data := drop (Z.to_nat keyLen) data in
            let offset := le_get (take 8 data) in
            let len := le_get (take 8 (drop 8 data)) in
            if (len <? 4) || match previous with Some p => negb (bytes_ltb p firstKey) | None => false end
            then Err (corruptf "invalid index ordering")
            else
              match decodeIndexLoop count' (Some firstKey) (drop 16 data) with
              | Err e => Err e
              | Ok (index, rest) => Ok (mkIndexEntry firstKey offset len :: index, rest)
              end
      end
  end.

Definition decodeIndex (data : bytes) : result (list indexEntry) :=
  match Uvarint data with
  | None => Err (corruptf "invalid index count")
  | Some (count, n) =>
      if Z.of_nat (length data) <? count then Err (corruptf "invalid index count")
      else
        match decodeIndexLoop (Z.to_nat count) None (drop n data) with
        | Err e => Err e
        | Ok (index, rest) =>
            if negb (Nat.eqb (length rest) 0) then Err (corruptf "trailing index bytes") else Ok index
        end
  end.

(** * The footer *)

Definition footerMetadata (indexOffset indexLength bloomOffset bloomLength count : Z) (minKey maxKey : bytes) : bytes :=
  le_put 8 indexOffset ++ le_put 8 indexLength ++ le_put 8 bloomOffset ++ le_put 8 bloomLength ++ le_put 8 count ++
  le_put 4 (Z.of_nat (length minKey)) ++ le_put 4 (Z.of_nat (length maxKey)) ++ minKey ++ maxKey.

Definition encodeFooter (indexOffset indexLength bloomOffset bloomLength count : Z) (minKey maxKey : bytes) : result bytes :=
  if (max_u32 <? Z.of_nat (length minKey)) || (max_u32 <? Z.of_nat (length maxKey))
  then Err "lsm: footer key too large"
  else
    let metadata := footerMetadata indexOffset indexLength bloomOffset bloomLength count minKey maxKey in
    if max_u32 <? Z.of_nat (length metadata) then Err "lsm: footer too large"
    else Ok (metadata ++ le_put 4 (crc32c metadata) ++ le_put 4 (Z.of_nat (length metadata)) ++ footerMagic).

(** * The writer *)

Record SSTableWriter : Type := mkSSTableWriter {
  sw_entries : list TableEntry;
  sw_lastKey : bytes;
  sw_size : Z;
  sw_closed : bool;
}.

Definition NewSSTableWriter : SSTableWriter := mkSSTableWriter [] [] 0 false.

Definition sw_Add (e : TableEntry) (w : SSTableWriter) : SSTableWriter * option error :=
  if sw_closed w then (w, Some "lsm: Add after Finish")
  else
    let ok := match last (sw_entries w) with
              | None => true
              | Some p => validSSTableRecordOrder (sw_lastKey w) (te_Seq p) (te_Key e) (te_Seq e)
              end in
    if negb ok then (w, Some "lsm: entries are not sorted by key then strictly descending sequence")
    else
      let copyEntry := mkTableEntry (te_Key e) (te_Seq e) (if te_Tombstone e then [] else te_Value e) (te_Tombstone e) in
      (mkSSTableWriter (sw_entries w ++ [copyEntry]) (te_Key e) (sw_size w) (sw_closed w), None).

(** The loop of [Finish] over the blocks: the table so far and the index. *)
Fixpoint appendBlocks (blocks : list builtBlock) (table : bytes) : result (bytes * list indexEntry) :=
  match blocks with
  | [] => Ok (table, [])
  | block :: blocks' =>
      match appendBlock table (bb_data block) with
      | Err m => Err m
      | Ok table' =>
          match appendBlocks blocks' table' with
          | Err m => Err m
          | Ok (table'', index) =>
              Ok (table'', mkIndexEntry (bb_firstKey block) (Z.of_nat (length table))
                             (Z.of_nat (length table') - Z.of_nat (length table)) :: index)
          end
      end
  end.

(** The bytes [Finish] builds; the outer [None] is a panic of the Bloom filter. *)
Definition buildTable (es : list TableEntry) : option (result bytes) :=
  match buildDataBlocks es with
  | Err m => Some (Err m)
  | Ok blocks =>
      match appendBlocks blocks [] with
      | Err m => Some (Err m)
      | Ok (table1, index) =>
          match encodeIndex index with
          | Err m => Some (Err m)
          | Ok indexData =>
              match appendBlock table1 indexData with
              | Err m => Some (Err m)
              | Ok table2 =>
                  match addAll (te_Key <$> es) (NewBloomFilter (Z.of_nat (length es))) with
                  | None => None
                  | Some filter =>
                      match MarshalBinary filter with
                      | Err m => Some (Err m)
                      | Ok bloomData =>
                          match appendBlock table2 bloomData with
                          | Err m => Some (Err m)
                          | Ok table3 =>
                              let minKey := match head es with Some e => te_Key e | None => [] end in
                              let maxKey := match last es with Some e => te_Key e | None => [] end in
                              match encodeFooter (Z.of_nat (length table1))
                                      (Z.of_nat (length table2) - Z.of_nat (length table1))
                                      (Z.of_nat (length table2))
                                      (Z.of_nat (length table3) - Z.of_nat (length table2))
                                      (Z.of_nat (length es)) minKey maxKey with
                              | Err m => Some (Err m)
                              | Ok footer => Some (Ok (table3 ++ footer))
                              end
                          end
                      end
                  end
              end
          end
      end
  end.

(** [Finish], with what [w.Write] answers: the writer, what was handed to [Write] and the
    error. *)
Definition sw_Finish (write : bytes -> Z * option error) (w : SSTableWriter)
    : option (SSTableWriter * option bytes * option error) :=
  if sw_closed w then Some (w, None, Some "lsm: Finish called twice")
  else
    let w' := mkSSTableWriter (sw_entries w) (sw_lastKey w) (sw_size w) true in
    match buildTable (sw_entries w) with
    | None => None
    | Some (Err m) => Some (w', None, Some m)
    | Some (Ok table) =>
        match write table with
        | (_, Some m) => Some (w', Some table, Some m)
        | (n, None) =>
            if negb (n =? Z.of_nat (length table)) then Some (w', Some table, Some "short write")
            else Some (mkSSTableWriter (sw_entries w) (sw_lastKey w) n true, Some table, None)
        end
    end.

(** * The reader *)

(** [io.ReaderAt]: the bytes read, and the error ([true] for [io.EOF]). *)
Definition ReaderAt : Type := Z -> Z -> bytes * option bool.

(** [readAtFull] of [len] bytes at [offset]. *)
Definition readAtFull (r : ReaderAt) (len offset : Z) : result bytes :=
  let '(data, err) := r offset len in
  if negb (Z.of_nat (length data) =? len) then Err "unexpected EOF or read error"
  else match err with
       | Some false => Err "read error"
       | _ => Ok data
       end.

Definition uint64ToInt (value : Z) : option Z := if max_i64 <? value then None else Some value.

Definition readBlock (r : ReaderAt) (offset len : Z) : result bytes :=
  if (len <? 4) || (max_i64 <? offset) || (max_i64 <? len) || (offset +u len <? offset) || (max_i64 <? offset +u len)
  then Err (corruptf "invalid block bounds")
  else
    match uint64ToInt len with
    | None => Err (corruptf "block too large")
    | Some blockLength =>
        match readAtFull r blockLength offset with
        | Err m => Err (corruptf ("read block: " +:+ m))
        | Ok block =>
            let payload := take (length block - 4) block in
            let stored := le_get (drop (length block - 4) block) in
            if negb (crc32c payload =? stored) then Err (corruptf "block crc32c mismatch") else Ok payload
        end
    end.

Record SSTableReader : Type := mkSSTableReader {
  sr_r : ReaderAt;
  sr_size : Z;
  sr_index : list indexEntry;
  sr_bloom : BloomFilter;
  sr_entryCount : Z;
  sr_minKey : bytes;
  sr_maxKey : bytes;
}.

(** The bounds check of [OpenSSTable] on the data blocks. *)
Fixpoint checkBlocks (indexOffset : Z) (previous : option indexEntry) (index : list indexEntry) : bool :=
  match index with
  | [] => true
  | e :: index' =>
      if (indexOffset <=? ix_offset e) || (indexOffset -u ix_offset e <? ix_length e) ||
         match previous with Some p => ix_offset e <? ix_offset p +u ix_length p | None => false end
      then false
      else checkBlocks indexOffset (Some e) index'
  end.

(** The part of [OpenSSTable] after the footer was read and checked. *)
Definition openBlocks (r : ReaderAt) (size footerStart : Z) (metadata : bytes) : result SSTableReader :=
  let indexOffset := le_get (take 8 metadata) in
  let indexLength := le_get (take 8 (drop 8 metadata)) in
  let bloomOffset := le_get (take 8 (drop 16 metadata)) in
  let bloomLength := le_get (take 8 (drop 24 metadata)) in
  let entryCount := le_get (take 8 (drop 32 metadata)) in
  let minLen := le_get (take 4 (drop 40 metadata)) in
  let maxLen := le_get (take 4 (drop 44 metadata)) in
  if negb (Z.of_nat (length metadata) - 48 =? minLen + maxLen) || (indexLength <? 4) || (bloomLength <? 4)
  then Err (corruptf "invalid footer metadata")
  else if (footerStart <? indexOffset) || (footerStart -u indexOffset <? indexLength) ||
          (footerStart <? bloomOffset) || (footerStart -u bloomOffset <? bloomLength) ||
          (bloomOffset <? indexOffset +u indexLength)
  then Err (corruptf "footer block bounds")
  else
    indexData <-r readBlock r indexOffset indexLength ;
    index <-r decodeIndex indexData ;
    if negb (Bool.eqb (entryCount =? 0) (Nat.eqb (length index) 0)) then Err (corruptf "empty table index mismatch")
    else if negb (checkBlocks indexOffset None index) then Err (corruptf "data block bounds")
    else
      bloomData <-r readBlock r bloomOffset bloomLength ;
      match UnmarshalBloomFilter bloomData with
      | Err m => Err (corruptf ("bloom: " +:+ m))
      | Ok bloom =>
          let minKey := take (Z.to_nat minLen) (drop 48 metadata) in
          let maxKey := drop (48 + Z.to_nat minLen) metadata in
          if (0 <? entryCount) && bytes_ltb maxKey minKey then Err (corruptf "footer key order")
          else Ok (mkSSTableReader r size index bloom entryCount minKey maxKey)
      end.

Definition OpenSSTable (r : ReaderAt) (size : Z) : result SSTableReader :=
  if size <? footerTrailer then Err (corruptf "missing footer")
  else
    match readAtFull r footerTrailer (size - footerTrailer) with
    | Err m => Err (corruptf ("read footer trailer: " +:+ m))
    | Ok trailer =>
        if negb (bool_decide (drop 8 trailer = footerMagic)) then Err (corruptf "bad footer magic")
        else
          let metadataLen := le_get (take 4 (drop 4 trailer)) in
          if (metadataLen <? 48) || (size - footerTrailer <? metadataLen)
          then Err (corruptf "invalid footer length")
          else
            match uint64ToInt metadataLen with
            | None => Err (corruptf "footer too large")
            | Some metadataLength =>
                match readAtFull r metadataLength (size - footerTrailer - metadataLen) with
                | Err m => Err (corruptf ("read footer: " +:+ m))
                | Ok metadata =>
                    if negb (le_get (take 4 trailer) =? crc32c metadata) then Err (corruptf "footer crc32c mismatch")
                    else openBlocks r size (size - footerTrailer - metadataLen) metadata
                end
            end
    end.

(** The scan of [get] over the records of a block. *)
Fixpoint scanRecords (key : bytes) (es : list TableEntry) : option TableEntry :=
  match es with
  | [] => None
  | e :: es' =>
      match bytes_compare (te_Key e) key with
      | Eq => Some e
      | Gt => None
      | Lt => scanRecords key es'
      end
  end.

Definition readRecords (rd : SSTableReader) (block : indexEntry) : result (list TableEntry) :=
  data <-r readBlock (sr_r rd) (ix_offset block) (ix_length block) ;
  es <-r decodeRecords data ;
  match es with
  | [] => Err (corruptf "index first key does not match data block")
  | e0 :: _ =>
      if negb (bool_decide (te_Key e0 = ix_firstKey block))
      then Err (corruptf "index first key does not match data block") else Ok es
  end.

(** [get]; the outer [None] is a panic of the Bloom filter. *)
Definition sr_get (key : bytes) (checkBloom : bool) (rd : SSTableReader) : option (result (option TableEntry)) :=
  if sr_entryCount rd =? 0 then Some (Ok None)
  else
    match (if checkBloom then MayContain key (Some (sr_bloom rd)) else Some true) with
    | None => None
    | Some may =>
        if negb may || bytes_ltb key (sr_minKey rd) || bytes_ltb (sr_maxKey rd) key then Some (Ok None)
        else
          let n := sort_Search (length (sr_index rd))
                     (fun i => match sr_index rd !! i with Some e => bytes_ltb key (ix_firstKey e) | None => false end) in
          match n with
          | O => Some (Ok None)
          | S i =>
              match sr_index rd !! i with
              | None => None
              | Some block =>
                  match readRecords rd block with
                  | Err m => Some (Err m)
                  | Ok es => Some (Ok (scanRecords key es))
                  end
              end
          end
    end.

Definition sr_Get (key : bytes) (rd : SSTableReader) : option (result (option TableEntry)) := sr_get key true rd.

(** The check of [AllEntries] that the filter knows every key; the outer [None] is a
    panic. *)
Fixpoint checkBloomKeys (bloom : BloomFilter) (es : list TableEntry) : option bool :=
  match es with
  | [] => Some true
  | e :: es' =>
      match MayContain (te_Key e) (Some bloom) with
      | None => None
      | Some false => Some false
      | Some true => checkBloomKeys bloom es'
      end
  end.

Fixpoint allEntriesLoop (rd : SSTableReader) (index : list indexEntry) (entries : list TableEntry)
    : option (result (list TableEntry)) :=
  match index with
  | [] => Some (Ok entries)
  | block :: index' =>
      match readRecords rd block with
      | Err m => Some (Err m)
      | Ok decoded =>
          let ordered := match last entries, decoded with
                         | Some p, d :: _ => bytes_ltb (te_Key p) (te_Key d)
                         | _, _ => true
                         end in
          if negb ordered then Some (Err (corruptf "records out of order or same key spans data blocks"))
          else
            match checkBloomKeys (sr_bloom rd) decoded with
            | None => None
            | Some false => Some (Err (corruptf "bloom false negative for stored key"))
            | Some true => allEntriesLoop rd index' (entries ++ decoded)
            end
      end
  end.

Definition AllEntries (rd : SSTableReader) : option (result (list TableEntry)) :=
  match allEntriesLoop rd (sr_index rd) [] with
  | None => None
  | Some (Err m) => Some (Err m)
  | Some (Ok entries) =>
      if negb (Z.of_nat (length entries) =? sr_entryCount rd) then Some (Err (corruptf "entry count"))
      else
        match head entries, last entries with
        | Some e0, Some e1 =>
            if negb (bool_decide (te_Key e0 = sr_minKey rd)) || negb (bool_decide (te_Key e1 = sr_maxKey rd))
            then Some (Err (corruptf "footer key bounds do not match records")) else Some (Ok entries)
        | _, _ => Some (Ok entries)
        end
  end.
