(* ===== verification/SSTableFacts.v ===== *)
(** The sorted string table reads back: a table that the writer finished opens, yields
    exactly the entries that were added, and [Get] finds for every key its newest record
    and for no other key any record. *)

From stdpp Require Import sorting.
From S2P Require Import Prelude Bytes Bloom SSTable.

(** * Varints *)

Lemma lor_shift x v s : 0 <= s -> 0 <= x < 2 ^ s -> 0 <= v -> Z.lor x (Z.shiftl v s) = x + v * 2 ^ s.
Proof.
  intros Hs Hx Hv. rewrite <- Z.shiftl_mul_pow2 by lia.
  assert (Z.land x (Z.shiftl v s) = 0) as E.
  { apply Z.bits_inj'. intros n Hn. rewrite Z.land_spec, Z.bits_0. destruct (Z.ltb_spec n s).
    - rewrite Z.shiftl_spec_low by lia. apply andb_false_r.
    - destruct (Z.eq_dec x 0) as [->|Hne]; [by rewrite Z.bits_0|].
      rewrite (Z.bits_above_log2 x n); [done|lia|].
      apply Z.log2_lt_pow2; [lia|]. eapply Z.lt_le_trans; [apply Hx|]. apply Z.pow_le_mono_r; lia. }
  rewrite Z.add_nocarry_lxor by done. by rewrite Z.lxor_lor.
Qed.

Lemma continuation_byte v :
  0 <= v -> let b := Z_of_byte (byte_of_Z (Z.lor (v mod 256) 128)) in 128 <= b /\ Z.land b 127 = v mod 128.
Proof.
  intros Hv. pose proof (Z.mod_pos_bound v 256 ltac:(lia)) as Hm.
  assert (Z.lor (v mod 256) 128 = Z.lor ((v mod 256) mod 128) 128) as E.
  { apply Z.bits_inj'. intros n Hn. rewrite !Z.lor_spec. change 128 with (2 ^ 7).
    destruct (Z.eq_dec n 7) as [->|Hne]; [by rewrite Z.pow2_bits_true, !orb_true_r by lia|].
    rewrite Z.pow2_bits_false, !orb_false_r by lia.
    destruct (Z.ltb_spec n 7); [by rewrite Z.mod_pow2_bits_low by lia|].
    rewrite Z.mod_pow2_bits_high by lia. change 256 with (2 ^ 8). by rewrite Z.mod_pow2_bits_high by lia. }
  pose proof (Z.mod_pos_bound (v mod 256) 128 ltac:(lia)) as Hm'.
  assert (Z.lor ((v mod 256) mod 128) 128 = (v mod 256) mod 128 + 128) as E2
    by (apply (lor_shift ((v mod 256) mod 128) 1 7); change (2 ^ 7) with 128; lia).
  assert ((v mod 256) mod 128 = v mod 128) as E3 by div_lia.
  cbv zeta. rewrite Z_of_byte_of_Z, E, E2, E3 in *. rewrite Z.mod_small by lia. split; [lia|].
  change 127 with (Z.ones 7). rewrite Z.land_ones by lia. change (2 ^ 7) with 128. div_lia.
Qed.

Lemma uvarintLoop_put k i v x rest :
  (i + k = 10)%nat -> 0 <= v < 2 ^ (64 - 7 * Z.of_nat i) -> 0 <= x < 2 ^ (7 * Z.of_nat i) ->
  uvarintLoop i x (7 * Z.of_nat i) (put_uvarint k v ++ rest) =
    Some (x + v * 2 ^ (7 * Z.of_nat i), (i + length (put_uvarint k v))%nat).
Proof.
  revert i v x. induction k as [|k IH]; intros i v x Hik Hv Hx.
  { replace i with 10%nat in Hv by lia. change (2 ^ (64 - 7 * Z.of_nat 10)) with 0 in Hv. lia. }
  assert (2 ^ (64 - 7 * Z.of_nat i) * 2 ^ (7 * Z.of_nat i) = 2 ^ 64) as Epow
    by (rewrite <- Z.pow_add_r by lia; f_equal; lia).
  assert (0 < 2 ^ (7 * Z.of_nat i)) as Hpos by (apply Z.pow_pos_nonneg; lia).
  cbn [put_uvarint]. destruct (Z.ltb_spec v 128) as [Hlt|Hge].
  - cbn [app uvarintLoop length]. rewrite Z_of_byte_of_Z, Z.mod_small by lia.
    destruct (Nat.eqb_spec i 10); [lia|]. rewrite (proj2 (Z.ltb_lt _ _)) by lia.
    replace (Nat.eqb i 9 && (1 <? v))%bool with false.
    + rewrite u64_id, lor_shift by (try rewrite Z.shiftl_mul_pow2 by lia; unfold is_u64, max_u64; nia).
      do 2 f_equal. lia.
    + symmetry. destruct (Nat.eqb_spec i 9) as [->|]; [|done].
      change (2 ^ (64 - 7 * Z.of_nat 9)) with 2 in Hv. apply Z.ltb_ge. lia.
  - destruct (continuation_byte v ltac:(lia)) as [Hb El]. cbn [app uvarintLoop length].
    set (b := Z_of_byte _) in *. destruct (Nat.eqb_spec i 10); [lia|]. rewrite (proj2 (Z.ltb_ge _ _)) by lia.
    rewrite El. pose proof (Z.mod_pos_bound v 128 ltac:(lia)) as Hm. pose proof (Z.div_mod v 128 ltac:(lia)) as Hd.
    assert (0 <= v mod 128 * 2 ^ (7 * Z.of_nat i) <= v * 2 ^ (7 * Z.of_nat i)) by nia.
    rewrite u64_id, lor_shift by (try rewrite Z.shiftl_mul_pow2 by lia; unfold is_u64, max_u64; nia).
    replace (7 * Z.of_nat i + 7) with (7 * Z.of_nat (S i)) by lia.
    assert (2 ^ (7 * Z.of_nat (S i)) = 128 * 2 ^ (7 * Z.of_nat i)) as E7
      by (replace (7 * Z.of_nat (S i)) with (7 + 7 * Z.of_nat i) by lia; rewrite Z.pow_add_r by lia; done).
    rewrite Z.shiftr_div_pow2 by lia. change (2 ^ 7) with 128. rewrite IH.
    + rewrite E7. do 2 f_equal; [nia|lia].
    + lia.
    + destruct (decide (i = 9%nat)) as [->|].
      { change (2 ^ (64 - 7 * Z.of_nat 9)) with 2 in Hv. lia. }
      assert (2 ^ (64 - 7 * Z.of_nat i) = 128 * 2 ^ (64 - 7 * Z.of_nat (S i))) as E8.
      { replace (64 - 7 * Z.of_nat i) with (7 + (64 - 7 * Z.of_nat (S i))) by lia. by rewrite Z.pow_add_r by lia. }
      rewrite E8 in Hv. split; [apply Z.div_pos; lia|apply Z.div_lt_upper_bound; lia].
    + rewrite E7. nia.
Qed.

Definition varint (v : Z) : bytes := put_uvarint 10 v.
#[global] Arguments varint : simpl never.

Lemma Uvarint_put v rest : is_u64 v -> Uvarint (varint v ++ rest) = Some (v, length (varint v)).
Proof.
  intros Hv. unfold Uvarint, varint. pose proof (uvarintLoop_put 10 0 v 0 rest) as E.
  change (7 * Z.of_nat 0) with 0 in E. change (2 ^ 0) with 1 in E. rewrite E; [|done| |lia].
  - do 2 f_equal. lia.
  - unfold is_u64, max_u64 in Hv. change (2 ^ (64 - 7 * Z.of_nat 0)) with 18446744073709551616. lia.
Qed.

Lemma length_varint v : (0 < length (varint v))%nat.
Proof.
  assert (forall k, (0 < length (put_uvarint (S k) v))%nat) as H by (intros k; cbn [put_uvarint]; case_match; simpl; lia).
  apply (H 9%nat).
Qed.

(** * Records *)

(** The entries the writer holds: fields in range, and a tombstone has no value. *)
Definition entry_ok (e : TableEntry) : Prop :=
  is_u64 (te_Seq e) /\ (te_Tombstone e = true -> te_Value e = []).

Lemma decode_encode_record e bs rest :
  entry_ok e -> encodeRecord e = Ok bs -> decodeRecord (bs ++ rest) = Ok (e, rest) /\ (10 <= length bs)%nat.
Proof.
  intros [Hq Ht] H. unfold encodeRecord in H.
  destruct (_ || _) eqn:Eg; [done|]. apply orb_false_iff in Eg as [E1 E2]. bool_to_prop. unfold max_u32 in *.
  unfold appendUvarint in H. cbn [app] in H. fold (varint (Z.of_nat (length (te_Key e)))) in H.
  fold (varint 0) in H. fold (varint (Z.of_nat (length (te_Value e)))) in H.
  set (marker := if te_Tombstone e then Byte.x01 else Byte.x00).
  assert (bs = varint (Z.of_nat (length (te_Key e))) ++ te_Key e ++ le_put 8 (te_Seq e) ++ marker ::
               varint (Z.of_nat (length (te_Value e))) ++ te_Value e) as ->.
  { unfold marker. destruct (te_Tombstone e); apply Ok_inj in H as <-; rewrite <- !app_assoc; [|done].
    rewrite (Ht eq_refl). cbn [length Z.of_nat]. by rewrite app_nil_r. }
  split; [|rewrite !length_app; cbn [length]; rewrite length_app, length_le_put;
    pose proof (length_varint (Z.of_nat (length (te_Key e)))); pose proof (length_varint (Z.of_nat (length (te_Value e)))); lia].
  unfold decodeRecord. rewrite <- !app_assoc. rewrite Uvarint_put by (unfold is_u64, max_u64; lia).
  rewrite drop_app_length. cbv zeta.
  set (tail := varint (Z.of_nat (length (te_Value e))) ++ te_Value e ++ rest).
  change ((marker :: varint (Z.of_nat (length (te_Value e))) ++ te_Value e) ++ rest)
    with (marker :: (varint (Z.of_nat (length (te_Value e))) ++ te_Value e) ++ rest).
  rewrite <- (app_assoc (varint (Z.of_nat (length (te_Value e))))). fold tail.
  replace ((Z.of_nat (length (te_Key e ++ le_put 8 (te_Seq e) ++ marker :: tail)) <? Z.of_nat (length (te_Key e))) ||
    (Z.of_nat (length (te_Key e ++ le_put 8 (te_Seq e) ++ marker :: tail)) - Z.of_nat (length (te_Key e)) <? 9)) with false.
  2: { symmetry. apply orb_false_iff. rewrite !length_app, length_le_put. cbn [length].
       split; apply Z.ltb_ge; lia. }
  rewrite Nat2Z.id, take_app_length, drop_app_length.
  rewrite take_app_length' by (by rewrite length_le_put).
  rewrite lookup_app_r, length_le_put by (rewrite length_le_put; lia). cbn [lookup list_lookup Nat.sub].
  rewrite le_get_put_id by (change (256 ^ Z.of_nat 8) with (max_u64 + 1); unfold is_u64 in Hq; lia).
  assert (Z_of_byte marker = if te_Tombstone e then 1 else 0) as Em by (unfold marker; by destruct (te_Tombstone e)).
  replace (drop 9 (le_put 8 (te_Seq e) ++ marker :: tail)) with tail.
  2: { change 9%nat with (8 + 1)%nat. rewrite <- drop_drop, drop_app_length' by (by rewrite length_le_put). done. }
  cbn [list_lookup lookup]. rewrite Em.
  assert (1 <? (if te_Tombstone e then 1 else 0) = false) as -> by (by destruct (te_Tombstone e)).
  unfold tail. rewrite Uvarint_put by (unfold is_u64, max_u64; lia).
  rewrite (proj2 (Z.ltb_ge _ _)) by (rewrite !length_app; lia).
  rewrite drop_app_length, (proj2 (Z.ltb_ge _ _)) by (rewrite length_app; lia). cbn [orb].
  rewrite Nat2Z.id, take_app_length, drop_app_length.
  destruct (te_Tombstone e) eqn:Et; cbn [Z.eqb andb negb].
  - rewrite (Ht eq_refl). cbn [length Z.of_nat Z.eqb negb]. destruct e; simpl in *. by rewrite (Ht eq_refl), Et.
  - destruct e; simpl in *. by rewrite Et.
Qed.

(** * Order *)

Definition precedes (p e : TableEntry) : Prop :=
  bytes_lt (te_Key p) (te_Key e) \/ (te_Key p = te_Key e /\ te_Seq e < te_Seq p).

Lemma precedes_valid p e :
  validSSTableRecordOrder (te_Key p) (te_Seq p) (te_Key e) (te_Seq e) = true <-> precedes p e.
Proof.
  unfold validSSTableRecordOrder, precedes, bytes_lt.
  rewrite (bytes_compare_antisym (te_Key e) (te_Key p)).
  destruct (bytes_compare (te_Key e) (te_Key p)) eqn:E; cbn [CompOpp].
  - apply bytes_compare_eq in E. rewrite Z.ltb_lt, E. naive_solver.
  - split; [done|]. intros [?|[H _]]; [done|]. rewrite H in E. by rewrite (proj2 (bytes_compare_eq _ _) eq_refl) in E.
  - split; [|done]. by left.
Qed.

#[export] Instance precedes_trans : Transitive precedes.
Proof.
  intros a b c [H1|[E1 Q1]] [H2|[E2 Q2]]; unfold precedes.
  - left. by etrans.
  - left. by rewrite <- E2.
  - left. by rewrite E1.
  - right. split; [congruence|lia].
Qed.

(** The entries in table order. *)
Definition table_sorted (es : list TableEntry) : Prop := StronglySorted precedes es.

Lemma sorted_app es es' a b :
  table_sorted (es ++ es') -> a ∈ es -> b ∈ es' -> precedes a b.
Proof. intros H. apply StronglySorted_app in H as (H & _ & _). by apply H. Qed.

(** The records of [es], one after the other. *)
Definition encoded (es : list TableEntry) (bs : bytes) : Prop :=
  exists rs, Forall2 (fun e r => encodeRecord e = Ok r) es rs /\ bs = concat rs.

Lemma decodeRecordsLoop_ok es bs fuel p :
  Forall entry_ok es -> encoded es bs -> table_sorted (from_option (fun p => [p]) [] p ++ es) ->
  (length bs <= fuel)%nat -> decodeRecordsLoop fuel p bs = Ok es.
Proof.
  intros Hok (rs & Hrs & ->). revert fuel p. induction Hrs as [|e r es rs He Hrs IH]; intros fuel p Hs Hf.
  { by destruct fuel. }
  apply Forall_cons in Hok as [He0 Hok]. cbn [concat] in *.
  destruct (decode_encode_record e r (concat rs) He0 He) as [Hd Hl].
  rewrite length_app in Hf. destruct fuel as [|fuel]; [lia|].
  destruct (r ++ concat rs) as [|b0 bs0] eqn:Eb.
  { apply (f_equal length) in Eb. rewrite length_app in Eb. simpl in Eb. lia. }
  cbn [decodeRecordsLoop]. rewrite Hd.
  assert (match p with Some p => validSSTableRecordOrder (te_Key p) (te_Seq p) (te_Key e) (te_Seq e) | None => true end = true) as ->.
  { destruct p as [p|]; [|done]. apply precedes_valid. apply (sorted_app [p] (e :: es)); [done|by left|by left]. }
  cbn [negb]. rewrite IH; [done|done| |lia].
  destruct p; simpl in Hs; [|done]. by apply StronglySorted_cons in Hs as [_ Hs].
Qed.

Lemma decodeRecords_ok es bs :
  Forall entry_ok es -> encoded es bs -> table_sorted es -> decodeRecords bs = Ok es.
Proof. intros. unfold decodeRecords. by apply decodeRecordsLoop_ok. Qed.

(** * Blocks *)

(** A block and the entries it holds. *)
Definition block_of (g : list TableEntry) (b : builtBlock) : Prop :=
  encoded g (bb_data b) /\ exists e0 g', g = e0 :: g' /\ bb_firstKey b = te_Key e0.

(** The groups start where the key changes. *)
Definition separated (gs : list (list TableEntry)) : Prop :=
  forall i g g' l e, gs !! i = Some g -> gs !! S i = Some g' -> last g = Some l -> head g' = Some e ->
    te_Key l <> te_Key e.

Lemma fillBlock_ok es data pk data' rest :
  fillBlock data pk es = Ok (data', rest) ->
  exists taken bs, es = taken ++ rest /\ encoded taken bs /\ data' = data ++ bs /\
    (forall e, head rest = Some e -> te_Key e <> default pk (te_Key <$> last taken)).
Proof.
  revert data pk. induction es as [|e es IH]; intros data pk H; cbn [fillBlock] in H.
  { injection H as <- <-. exists [], []. split_and!; [done|by exists []|by rewrite app_nil_r|done]. }
  destruct (encodeRecord e) as [r|] eqn:Er; [|done].
  destruct (_ && _) eqn:Eb.
  - injection H as <- <-. exists [], []. split_and!; [done|by exists []|by rewrite app_nil_r|].
    intros x [= <-]. simpl. apply andb_true_iff in Eb as [_ Eb]. by bool_to_prop.
  - apply IH in H as (taken & bs & -> & (rs & Hrs & ->) & -> & Hhd).
    exists (e :: taken), (r ++ concat rs). split_and!; [done| |by rewrite app_assoc|].
    + exists (r :: rs). split; [by constructor|done].
    + intros x Hx. specialize (Hhd x Hx). rewrite last_cons. by destruct (last taken).
Qed.

Lemma buildLoop_ok fuel es blocks :
  buildLoop fuel es = Ok blocks ->
  exists gs, es = concat gs /\ Forall2 block_of gs blocks /\ separated gs.
Proof.
  revert es blocks. induction fuel as [|fuel IH]; intros es blocks H; destruct es as [|e es]; cbn [buildLoop] in H; try done.
  { injection H as <-. exists []. split_and!; [done..|]. by intros i. }
  { injection H as <-. exists []. split_and!; [done..|]. by intros i. }
  destruct (encodeRecord e) as [r|] eqn:Er; [|done].
  destruct (fillBlock r (te_Key e) es) as [[data rest]|] eqn:Ef; [|done].
  destruct (buildLoop fuel rest) as [blocks'|] eqn:Eb; [|done]. injection H as <-.
  apply fillBlock_ok in Ef as (taken & bs & -> & (rs & Hrs & ->) & -> & Hhd).
  destruct (IH _ _ Eb) as (gs & -> & Hgs & Hsep). exists ((e :: taken) :: gs). split_and!.
  - done.
  - constructor; [|done]. split; [|by exists e, taken]. exists (r :: rs). split; [by constructor|done].
  - intros [|i] g g' l x Hg Hg' Hl Hx; [|exact (Hsep i g g' l x Hg Hg' Hl Hx)]. injection Hg as <-. simpl in Hg'.
    destruct gs as [|g1 gs]; [done|]. injection Hg' as ->. destruct g' as [|x' g1]; [done|]. injection Hx as ->.
    specialize (Hhd x eq_refl). rewrite last_cons in Hl. destruct (last taken); injection Hl as <-; simpl in Hhd; congruence.
Qed.

(** A payload with its checksum. *)
Definition blk (payload : bytes) : bytes := payload ++ le_put 4 (crc32c payload).

Lemma length_blk p : length (blk p) = (length p + 4)%nat.
Proof. unfold blk. by rewrite length_app, length_le_put. Qed.

Lemma appendBlock_ok dst p dst' :
  appendBlock dst p = Ok dst' -> dst' = dst ++ blk p /\ Z.of_nat (length p) <= max_u32.
Proof.
  unfold appendBlock. destruct (Z.ltb_spec max_u32 (Z.of_nat (length p))); [done|]. intros E. by apply Ok_inj in E as <-.
Qed.

Fixpoint index_of (off : nat) (blocks : list builtBlock) : list indexEntry :=
  match blocks with
  | [] => []
  | b :: bs => mkIndexEntry (bb_firstKey b) (Z.of_nat off) (Z.of_nat (length (blk (bb_data b)))) ::
               index_of (off + length (blk (bb_data b))) bs
  end.

Lemma appendBlocks_ok blocks table table' index :
  appendBlocks blocks table = Ok (table', index) ->
  table' = table ++ concat ((blk ∘ bb_data) <$> blocks) /\ index = index_of (length table) blocks /\
  Forall (fun b => Z.of_nat (length (bb_data b)) <= max_u32) blocks.
Proof.
  revert table table' index. induction blocks as [|b bs IH]; intros table table' index H; cbn [appendBlocks] in H.
  { injection H as <- <-. by rewrite app_nil_r. }
  destruct (appendBlock table (bb_data b)) as [t1|] eqn:E1; [|done].
  destruct (appendBlocks bs t1) as [[t2 ix]|] eqn:E2; [|done]. injection H as <- <-.
  apply appendBlock_ok in E1 as [-> Hl]. apply IH in E2 as (-> & -> & Hall).
  split_and!; [|cbn [index_of]; f_equal; [f_equal|]|by constructor].
  - by rewrite <- app_assoc.
  - rewrite length_app. lia.
  - by rewrite length_app.
Qed.

(** * The index *)

Definition ixbytes (e : indexEntry) : bytes :=
  varint (Z.of_nat (length (ix_firstKey e))) ++ ix_firstKey e ++ le_put 8 (ix_offset e) ++ le_put 8 (ix_length e).

Definition index_ok (e : indexEntry) : Prop := is_u64 (ix_offset e) /\ 4 <= ix_length e <= max_u64.

Lemma encodeIndexLoop_ok index out bs :
  encodeIndexLoop index out = Ok bs ->
  bs = out ++ concat (ixbytes <$> index) /\ Forall (fun e => Z.of_nat (length (ix_firstKey e)) <= max_u32) index.
Proof.
  revert out. induction index as [|e ix IH]; intros out H; cbn [encodeIndexLoop] in H.
  { apply Ok_inj in H as <-. by rewrite app_nil_r. }
  destruct (Z.ltb_spec max_u32 (Z.of_nat (length (ix_firstKey e)))); [done|].
  apply IH in H as [-> Hall]. split; [|by constructor]. unfold appendUvarint. fold (varint (Z.of_nat (length (ix_firstKey e)))).
  cbn [fmap list_fmap concat]. unfold ixbytes at 2. by rewrite <- !app_assoc.
Qed.

Lemma length_ixbytes e : (17 <= length (ixbytes e))%nat.
Proof.
  unfold ixbytes. rewrite !length_app, !length_le_put. pose proof (length_varint (Z.of_nat (length (ix_firstKey e)))). lia.
Qed.

Lemma length_index index : (17 * length index <= length (concat (ixbytes <$> index)))%nat.
Proof.
  induction index as [|e ix IH]; [simpl; lia|]. cbn [fmap list_fmap concat length]. rewrite length_app.
  pose proof (length_ixbytes e). fold (ixbytes <$> ix) in *. lia.
Qed.

Lemma decodeIndexLoop_ok index p rest :
  Forall index_ok index -> Forall (fun e => Z.of_nat (length (ix_firstKey e)) <= max_u32) index ->
  StronglySorted bytes_lt (from_option (fun k => [k]) [] p ++ (ix_firstKey <$> index)) ->
  decodeIndexLoop (length index) p (concat (ixbytes <$> index) ++ rest) = Ok (index, rest).
Proof.
  intros Hok Hk. revert p. induction index as [|e ix IH]; intros p Hs; [done|].
  apply Forall_cons in Hok as [[Ho Hl] Hok]. apply Forall_cons in Hk as [Hk0 Hk]. unfold max_u32 in Hk0.
  set (tail := le_put 8 (ix_offset e) ++ le_put 8 (ix_length e) ++ concat (ixbytes <$> ix) ++ rest).
  assert (concat (ixbytes <$> e :: ix) ++ rest =
          varint (Z.of_nat (length (ix_firstKey e))) ++ ix_firstKey e ++ tail) as ->.
  { cbn [fmap list_fmap concat]. fold (ixbytes <$> ix). unfold ixbytes at 1, tail. by rewrite <- !app_assoc. }
  cbn [length decodeIndexLoop]. rewrite Uvarint_put by (unfold is_u64, max_u64; lia). cbv zeta. rewrite drop_app_length.
  assert (16 <= length tail)%nat as Htl by (unfold tail; rewrite !length_app, !length_le_put; lia).
  rewrite (proj2 (Z.ltb_ge _ _)) by (rewrite length_app; lia). cbn [orb].
  rewrite (proj2 (Z.ltb_ge _ 16)) by (rewrite length_app; lia).
  rewrite Nat2Z.id, take_app_length, drop_app_length.
  replace (le_get (take 8 tail)) with (ix_offset e).
  2: { unfold tail. rewrite take_app_length' by (by rewrite length_le_put). symmetry. apply le_get_put_id.
       change (256 ^ Z.of_nat 8) with (max_u64 + 1). unfold is_u64 in Ho. lia. }
  replace (le_get (take 8 (drop 8 tail))) with (ix_length e).
  2: { unfold tail. rewrite drop_app_length' by (by rewrite length_le_put).
       rewrite take_app_length' by (by rewrite length_le_put). symmetry. apply le_get_put_id.
       change (256 ^ Z.of_nat 8) with (max_u64 + 1). lia. }
  replace (drop 16 tail) with (concat (ixbytes <$> ix) ++ rest).
  2: { unfold tail. change 16%nat with (8 + 8)%nat. rewrite <- drop_drop.
       rewrite !drop_app_length' by (by rewrite length_le_put). done. }
  rewrite (proj2 (Z.ltb_ge _ _)) by lia. cbn [orb].
  replace (match p with Some p0 => negb (bytes_ltb p0 (ix_firstKey e)) | None => false end) with false.
  2: { symmetry. destruct p as [p|]; [|done]. apply negb_false_iff, bytes_ltb_spec.
       simpl in Hs. apply StronglySorted_cons in Hs as [Hs _]. by apply Forall_cons in Hs as [? _]. }
  rewrite IH; [by destruct e|done|done|]. destruct p; simpl in *; [|done]. by apply StronglySorted_cons in Hs as [_ ?].
Qed.

Lemma decodeIndex_ok index bs :
  encodeIndex index = Ok bs -> Forall index_ok index -> StronglySorted bytes_lt (ix_firstKey <$> index) ->
  Z.of_nat (length bs) <= max_i64 -> decodeIndex bs = Ok index.
Proof.
  intros He Hok Hs Hlen. unfold encodeIndex in He. apply encodeIndexLoop_ok in He as [-> Hk].
  unfold appendUvarint in *. cbn [app] in *. fold (varint (Z.of_nat (length index))) in *.
  pose proof (length_index index) as Hli. rewrite length_app in Hlen. unfold max_i64 in Hlen.
  unfold decodeIndex. rewrite Uvarint_put by (unfold is_u64, max_u64; lia).
  rewrite (proj2 (Z.ltb_ge _ _)) by (rewrite length_app; lia). rewrite drop_app_length, Nat2Z.id.
  pose proof (decodeIndexLoop_ok index None [] Hok Hk Hs) as E. rewrite app_nil_r in E. rewrite E. done.
Qed.

(** * Reading *)

(** [r] reads the bytes of [data]; it may report the end of the file with them. *)
Definition reads (r : ReaderAt) (data : bytes) : Prop :=
  forall off len, 0 <= off -> 0 <= len -> off + len <= Z.of_nat (length data) ->
    (r off len).1 = take (Z.to_nat len) (drop (Z.to_nat off) data) /\ (r off len).2 <> Some false.

Lemma readAtFull_ok r data a x b :
  reads r data -> data = a ++ x ++ b -> readAtFull r (Z.of_nat (length x)) (Z.of_nat (length a)) = Ok x.
Proof.
  intros Hr E. destruct (Hr (Z.of_nat (length a)) (Z.of_nat (length x))) as [H1 H2];
    [lia|lia|rewrite E, !length_app; lia|].
  unfold readAtFull. destruct (r _ _) as [d err]. cbn [fst snd] in *.
  rewrite !Nat2Z.id, E, drop_app_length, take_app_length in H1. subst d.
  rewrite Z.eqb_refl. cbn [negb]. by destruct err as [[]|].
Qed.

Lemma readBlock_ok r data a p b :
  reads r data -> data = a ++ blk p ++ b -> Z.of_nat (length data) <= max_i64 ->
  readBlock r (Z.of_nat (length a)) (Z.of_nat (length (blk p))) = Ok p.
Proof.
  intros Hr E Hlen. unfold readBlock. rewrite E, !length_app in Hlen. pose proof (length_blk p) as Hb.
  unfold max_i64 in *. rewrite u64_add_small by (unfold max_u64; lia).
  rewrite !(proj2 (Z.ltb_ge _ _)) by lia. cbn [orb]. unfold uint64ToInt.
  rewrite (proj2 (Z.ltb_ge _ _)) by (unfold max_i64; lia).
  rewrite (readAtFull_ok r data a (blk p) b) by done. rewrite Hb.
  replace (length p + 4 - 4)%nat with (length p) by lia. unfold blk.
  by rewrite take_app_length, drop_app_length, crc32c_get_put, Z.eqb_refl.
Qed.

(** * The shape of a table *)

Definition payloads (blocks : list builtBlock) : bytes := concat ((blk ∘ bb_data) <$> blocks).

Definition trailer_of (meta : bytes) : bytes :=
  le_put 4 (crc32c meta) ++ le_put 4 (Z.of_nat (length meta)) ++ footerMagic.

Definition min_key (es : list TableEntry) : bytes := match head es with Some e => te_Key e | None => [] end.
Definition max_key (es : list TableEntry) : bytes := match last es with Some e => te_Key e | None => [] end.

(** The parts of the table of [es]. *)
Record table_parts (es : list TableEntry) (table : bytes) (gs : list (list TableEntry)) (blocks : list builtBlock)
    (indexData bloomData : bytes) (f : BloomFilter) (meta : bytes) : Prop := {
  tp_groups : es = concat gs;
  tp_blocks : Forall2 block_of gs blocks;
  tp_separated : separated gs;
  tp_index : encodeIndex (index_of 0 blocks) = Ok indexData;
  tp_bloom_ok : bloom_ok f;
  tp_bloom_keys key : key ∈ te_Key <$> es -> MayContain key (Some f) = Some true;
  tp_bloom : MarshalBinary (Some f) = Ok bloomData;
  tp_keys : Z.of_nat (length (min_key es)) <= max_u32 /\ Z.of_nat (length (max_key es)) <= max_u32;
  tp_meta_len : Z.of_nat (length meta) <= max_u32;
  tp_meta : meta = footerMetadata (Z.of_nat (length (payloads blocks)))
      (Z.of_nat (length (blk indexData)))
      (Z.of_nat (length (payloads blocks) + length (blk indexData)))
      (Z.of_nat (length (blk bloomData))) (Z.of_nat (length es)) (min_key es) (max_key es);
  tp_table : table = payloads blocks ++ blk indexData ++ blk bloomData ++ meta ++ trailer_of meta;
}.

Lemma buildTable_parts es table :
  Z.of_nat (length es) <= max_i64 -> buildTable es = Some (Ok table) ->
  exists gs blocks indexData bloomData f meta, table_parts es table gs blocks indexData bloomData f meta.
Proof.
  intros Hn H. unfold buildTable, buildDataBlocks in H.
  destruct (buildLoop (length es) es) as [blocks|] eqn:E1; [|done].
  destruct (appendBlocks blocks []) as [[table1 index]|] eqn:E2; [|done].
  destruct (encodeIndex index) as [indexData|] eqn:E3; [|done].
  destruct (appendBlock table1 indexData) as [table2|] eqn:E4; [|done].
  destruct (addAll (te_Key <$> es) (NewBloomFilter (Z.of_nat (length es)))) as [filter|] eqn:E5; [|done].
  destruct (MarshalBinary filter) as [bloomData|] eqn:E6; [|done].
  destruct (appendBlock table2 bloomData) as [table3|] eqn:E7; [|done].
  fold (min_key es) (max_key es) in H.
  destruct (encodeFooter _ _ _ _ _ _ _) as [footer|] eqn:E8; [|done].
  assert (table3 ++ footer = table) as <- by congruence. clear H.
  apply buildLoop_ok in E1 as (gs & Eg & Hb & Hsep). apply appendBlocks_ok in E2 as (-> & -> & _). cbn [length app] in *.
  fold (payloads blocks) in *. apply appendBlock_ok in E4 as [-> _]. apply appendBlock_ok in E7 as [-> _].
  destruct (NewBloomFilter (Z.of_nat (length es))) as [f0|] eqn:Ef0; last first.
  { assert (filter = None) as ->; [|done]. clear -E5. revert E5.
    induction (te_Key <$> es) as [|k ks IH]; cbn [addAll bloomAdd]; [congruence|done]. }
  pose proof (NewBloomFilter_ok _ _ Hn Ef0) as Hok0.
  destruct (addAll_ok (te_Key <$> es) f0 Hok0) as (f & Ef & Hok & _ & Hkeys & _).
  rewrite Ef in E5. injection E5 as <-.
  unfold encodeFooter in E8. destruct (_ || _) eqn:Eg8; [done|]. apply orb_false_iff in Eg8 as [K1 K2]. bool_to_prop.
  set (meta := footerMetadata _ _ _ _ _ _ _) in E8. destruct (Z.ltb_spec max_u32 (Z.of_nat (length meta))) as [|Hml]; [done|].
  apply Ok_inj in E8 as <-. exists gs, blocks, indexData, bloomData, f, meta. split; try done.
  - unfold meta. rewrite !length_app. do 2 f_equal; try lia.
  - unfold trailer_of. rewrite <- !app_assoc. done.
Qed.

(** Every block in its place. *)
Lemma index_of_lookup off blocks j ix :
  index_of off blocks !! j = Some ix ->
  exists b, blocks !! j = Some b /\
    ix = mkIndexEntry (bb_firstKey b) (Z.of_nat (off + length (payloads (take j blocks)))) (Z.of_nat (length (blk (bb_data b)))).
Proof.
  revert off j. induction blocks as [|b bs IH]; intros off j H; [done|]. cbn [index_of] in H.
  destruct j as [|j].
  - injection H as <-. exists b. split; [done|]. simpl. by rewrite Nat.add_0_r.
  - destruct (IH _ _ H) as (b' & Hb & ->). exists b'. split; [done|]. cbn [take]. unfold payloads at 2.
    cbn [fmap list_fmap concat]. fold ((blk ∘ bb_data) <$> take j bs). fold (payloads (take j bs)).
    rewrite length_app. do 2 f_equal. simpl. lia.
Qed.

Lemma payloads_split blocks j b :
  blocks !! j = Some b -> payloads blocks = payloads (take j blocks) ++ blk (bb_data b) ++ payloads (drop (S j) blocks).
Proof.
  intros Hj. rewrite <- (take_drop_middle _ _ _ Hj) at 1. unfold payloads. rewrite fmap_app, concat_app. done.
Qed.

Lemma length_index_of off blocks : length (index_of off blocks) = length blocks.
Proof. revert off. induction blocks as [|b bs IH]; intros off; [done|]. simpl. by rewrite IH. Qed.

Lemma index_of_ok blocks :
  Z.of_nat (length (payloads blocks)) <= max_i64 -> Forall index_ok (index_of 0 blocks).
Proof.
  intros Hl. apply Forall_lookup_2. intros j ix Hj. apply index_of_lookup in Hj as (b & Hb & ->).
  rewrite (payloads_split _ _ _ Hb), !length_app in Hl. pose proof (length_blk (bb_data b)).
  unfold index_ok, is_u64, max_i64, max_u64 in *. cbn [ix_offset ix_length]. lia.
Qed.

Lemma checkBlocks_ok off blocks p :
  Z.of_nat (off + length (payloads blocks)) <= max_i64 ->
  (forall e, p = Some e -> 0 <= ix_offset e /\ 0 <= ix_length e /\ ix_offset e + ix_length e <= Z.of_nat off) ->
  checkBlocks (Z.of_nat (off + length (payloads blocks))) p (index_of off blocks) = true.
Proof.
  revert off p. induction blocks as [|b bs IH]; intros off p Hl Hp; [done|]. cbn [index_of checkBlocks].
  assert (length (payloads (b :: bs)) = (length (blk (bb_data b)) + length (payloads bs))%nat) as El.
  { unfold payloads. cbn [fmap list_fmap concat]. by rewrite length_app. }
  rewrite El in *. pose proof (length_blk (bb_data b)) as Hb. unfold max_i64 in Hl. cbn [ix_offset ix_length].
  rewrite u64_sub_small by (unfold max_u64; lia).
  rewrite (proj2 (Z.leb_gt _ _)), (proj2 (Z.ltb_ge _ _)) by lia. cbn [orb].
  replace (match p with Some p0 => Z.of_nat off <? ix_offset p0 +u ix_length p0 | None => false end) with false.
  - rewrite Nat.add_assoc. apply IH; [unfold max_i64; lia|]. intros e [= <-]. cbn [ix_offset ix_length]. lia.
  - symmetry. destruct p as [e|]; [|done]. destruct (Hp e eq_refl) as (? & ? & ?).
    rewrite u64_add_small by (unfold max_u64; lia). apply Z.ltb_ge. lia.
Qed.

(** * Keys and groups *)

Lemma sorted_by_lookup {A} (R : A -> A -> Prop) (l : list A) :
  (forall i j x y, (i < j)%nat -> l !! i = Some x -> l !! j = Some y -> R x y) -> StronglySorted R l.
Proof.
  induction l as [|x l IH]; intros H; constructor.
  - apply IH. intros i j a b Hij Ha Hb. apply (H (S i) (S j)); [lia|done..].
  - apply Forall_lookup_2. intros i y Hy. apply (H 0%nat (S i)); [lia|done..].
Qed.

Lemma elem_of_concat {A} (g : list A) (gs : list (list A)) x : g ∈ gs -> x ∈ g -> x ∈ concat gs.
Proof.
  induction gs as [|g0 gs IH]; intros Hg Hx; [by apply elem_of_nil in Hg|]. cbn [concat]. apply elem_of_app.
  apply elem_of_cons in Hg as [->|Hg]; [by left|right; by apply IH].
Qed.

Lemma concat_elem_of {A} (gs : list (list A)) x : x ∈ concat gs -> exists i g, gs !! i = Some g /\ x ∈ g.
Proof.
  induction gs as [|g0 gs IH]; intros Hx; [by apply elem_of_nil in Hx|]. cbn [concat] in Hx.
  apply elem_of_app in Hx as [Hx|Hx]; [by exists 0%nat, g0|].
  destruct (IH Hx) as (i & g & Hg & Hxg). by exists (S i), g.
Qed.

Section groups.
Context (gs : list (list TableEntry)) (blocks : list builtBlock).
Context (Hsorted : table_sorted (concat gs)) (Hblocks : Forall2 block_of gs blocks) (Hsep : separated gs).

Lemma group_nonempty i g : gs !! i = Some g -> exists e0 g', g = e0 :: g'.
Proof using Hblocks.
  intros Hg. destruct (Forall2_lookup_l _ _ _ _ _ Hblocks Hg) as (b & _ & _ & e0 & g' & -> & _). eauto.
Qed.

Lemma concat_split i g : gs !! i = Some g -> concat gs = concat (take i gs) ++ g ++ concat (drop (S i) gs).
Proof. intros Hg. rewrite <- (take_drop_middle _ _ _ Hg) at 1. by rewrite concat_app. Qed.

(** Keys in the groups before one are below its first key. *)
Lemma before_group i e0 g' x :
  gs !! i = Some (e0 :: g') -> x ∈ concat (take i gs) -> bytes_lt (te_Key x) (te_Key e0).
Proof using All.
  intros Hg Hx. destruct i as [|i]; [by apply elem_of_nil in Hx|].
  destruct (lookup_lt_is_Some_2 gs i) as [g Hgi]; [apply lookup_lt_Some in Hg; lia|].
  destruct (group_nonempty _ _ Hgi) as (e & g0 & ->).
  destruct (last (e :: g0)) as [l|] eqn:El; [|by apply last_None in El].
  assert (l ∈ e :: g0) as Hl by (by apply last_Some_elem_of).
  assert (precedes l e0) as Hle.
  { rewrite (concat_split (S i) _ Hg) in Hsorted. eapply sorted_app; [done| |by left].
    rewrite (take_S_r _ _ _ Hgi), concat_app. apply elem_of_app. right. simpl. rewrite app_nil_r. done. }
  assert (te_Key l <> te_Key e0) as Hne by (by eapply (Hsep i)).
  assert (bytes_lt (te_Key l) (te_Key e0)) as Hlt by (destruct Hle as [?|[? _]]; done).
  rewrite (take_S_r _ _ _ Hgi), concat_app in Hx. simpl in Hx. rewrite app_nil_r in Hx.
  assert (x = l \/ precedes x l) as [->|[Hxl|[-> _]]]; [|done|by etrans|done].
  apply last_Some in El as [q Eq]. apply elem_of_app in Hx as [Hx|Hx].
  - right. rewrite (concat_split i _ Hgi) in Hsorted. eapply sorted_app; [exact Hsorted|done|].
    apply elem_of_app. by left.
  - rewrite Eq in Hx. apply elem_of_app in Hx as [Hx|Hx%list_elem_of_singleton]; [|by left].
    right. rewrite (concat_split i _ Hgi), Eq in Hsorted.
    apply StronglySorted_app in Hsorted as (_ & _ & Hs'). apply StronglySorted_app in Hs' as (_ & Hs' & _).
    eapply sorted_app; [exact Hs'|done|by left].
Qed.

(** Keys of a group are not below its first key. *)
Lemma in_group i e0 g' x :
  gs !! i = Some (e0 :: g') -> x ∈ e0 :: g' -> te_Key x = te_Key e0 \/ bytes_lt (te_Key e0) (te_Key x).
Proof using Hsorted.
  intros Hg [->|Hx]%elem_of_cons; [by left|]. rewrite (concat_split i _ Hg) in Hsorted.
  apply StronglySorted_app in Hsorted as (_ & _ & Hs'). apply StronglySorted_app in Hs' as (_ & Hs' & _).
  apply StronglySorted_cons in Hs' as [Hs' _]. rewrite Forall_forall in Hs'.
  destruct (Hs' x Hx) as [?|[? _]]; [by right|by left].
Qed.

Lemma firstKeys_sorted : StronglySorted bytes_lt (bb_firstKey <$> blocks).
Proof using All.
  apply sorted_by_lookup. intros i j k k' Hij Hk Hk'.
  apply list_lookup_fmap_Some in Hk as (b & -> & Hb), Hk' as (b' & -> & Hb').
  destruct (Forall2_lookup_r _ _ _ _ _ Hblocks Hb) as (g & Hg & _ & e & g0 & -> & ->).
  destruct (Forall2_lookup_r _ _ _ _ _ Hblocks Hb') as (g' & Hg' & _ & e' & g0' & -> & ->).
  eapply before_group; [exact Hg'|]. apply (elem_of_concat (e :: g0)); [|by left].
  apply list_elem_of_lookup. exists i. by rewrite lookup_take_lt.
Qed.
End groups.

Lemma index_firstKeys off blocks : ix_firstKey <$> index_of off blocks = bb_firstKey <$> blocks.
Proof. revert off. induction blocks as [|b bs IH]; intros off; [done|]. csimpl. by rewrite IH. Qed.

(** * Opening *)

Lemma drop8 k z (rest : bytes) : drop (8 + k) (le_put 8 z ++ rest) = drop k rest.
Proof. rewrite <- drop_drop. by rewrite drop_app_length' by (by rewrite length_le_put). Qed.

Lemma drop4 k z (rest : bytes) : drop (4 + k) (le_put 4 z ++ rest) = drop k rest.
Proof. rewrite <- drop_drop. by rewrite drop_app_length' by (by rewrite length_le_put). Qed.

Lemma get8_front z (rest : bytes) : is_u64 z -> le_get (take 8 (le_put 8 z ++ rest)) = z.
Proof.
  intros Hz. rewrite take_app_length' by (by rewrite length_le_put). apply le_get_put_id.
  change (256 ^ Z.of_nat 8) with (max_u64 + 1). unfold is_u64 in Hz. lia.
Qed.

Lemma get4_front z (rest : bytes) : 0 <= z <= max_u32 -> le_get (take 4 (le_put 4 z ++ rest)) = z.
Proof.
  intros Hz. rewrite take_app_length' by (by rewrite length_le_put). apply le_get_put_id.
  change (256 ^ Z.of_nat 4) with (max_u32 + 1). lia.
Qed.

(** Every record takes bytes. *)
Lemma encoded_length es bs : Forall entry_ok es -> encoded es bs -> (length es <= length bs)%nat.
Proof.
  intros Hok (rs & Hrs & ->). induction Hrs as [|e r es rs He Hrs IH]; [done|].
  apply Forall_cons in Hok as [He0 Hok]. destruct (decode_encode_record e r [] He0 He) as [_ Hl].
  cbn [length concat]. rewrite length_app. specialize (IH Hok). lia.
Qed.

Lemma blocks_length gs blocks :
  Forall2 block_of gs blocks -> Forall entry_ok (concat gs) -> (length (concat gs) <= length (payloads blocks))%nat.
Proof.
  induction 1 as [|g b gs blocks [Hg _] Hb IH]; intros Hok; [done|]. cbn [concat] in *. apply Forall_app in Hok as [H1 H2].
  unfold payloads. cbn [fmap list_fmap concat]. fold ((blk ∘ bb_data) <$> blocks). fold (payloads blocks).
  rewrite !length_app. simpl. rewrite length_blk. pose proof (encoded_length _ _ H1 Hg). specialize (IH H2). lia.
Qed.

(** What the reader finds in the metadata. *)
Lemma footer_fields a b c d n (mn mx : bytes) :
  is_u64 a -> is_u64 b -> is_u64 c -> is_u64 d -> is_u64 n ->
  Z.of_nat (length mn) <= max_u32 -> Z.of_nat (length mx) <= max_u32 ->
  let meta := footerMetadata a b c d n mn mx in
  le_get (take 8 meta) = a /\ le_get (take 8 (drop 8 meta)) = b /\ le_get (take 8 (drop 16 meta)) = c /\
  le_get (take 8 (drop 24 meta)) = d /\ le_get (take 8 (drop 32 meta)) = n /\
  le_get (take 4 (drop 40 meta)) = Z.of_nat (length mn) /\ le_get (take 4 (drop 44 meta)) = Z.of_nat (length mx) /\
  drop 48 meta = mn ++ mx /\ Z.of_nat (length meta) = 48 + Z.of_nat (length mn) + Z.of_nat (length mx).
Proof.
  intros Ha Hb Hc Hd Hn Hmn Hmx meta. unfold meta, footerMetadata.
  split_and!.
  - by apply get8_front.
  - rewrite (drop8 0), drop_0. by apply get8_front.
  - rewrite (drop8 8), (drop8 0), drop_0. by apply get8_front.
  - rewrite (drop8 16), (drop8 8), (drop8 0), drop_0. by apply get8_front.
  - rewrite (drop8 24), (drop8 16), (drop8 8), (drop8 0), drop_0. by apply get8_front.
  - rewrite (drop8 32), (drop8 24), (drop8 16), (drop8 8), (drop8 0), drop_0. apply get4_front. lia.
  - rewrite (drop8 36), (drop8 28), (drop8 20), (drop8 12), (drop8 4), (drop4 0), drop_0. apply get4_front. lia.
  - rewrite (drop8 40), (drop8 32), (drop8 24), (drop8 16), (drop8 8), (drop4 4), (drop4 0), drop_0. done.
  - rewrite !length_app, !length_le_put. lia.
Qed.

Lemma min_max es : table_sorted es -> 0 < Z.of_nat (length es) -> bytes_ltb (max_key es) (min_key es) = false.
Proof.
  intros Hsorted Hpos. apply bytes_ltb_ge. unfold min_key, max_key. destruct es as [|e0 es']; [simpl in Hpos; lia|].
  cbn [head]. destruct (last (e0 :: es')) as [l|] eqn:El; [|by apply last_None in El].
  apply last_Some_elem_of, elem_of_cons in El as [->|Hl]; [apply (irreflexivity bytes_lt)|].
  apply StronglySorted_cons in Hsorted as [Hs _]. rewrite Forall_forall in Hs.
  intros Hlt. destruct (Hs l Hl) as [H|[H _]].
  - apply (irreflexivity bytes_lt (te_Key e0)). by etrans.
  - rewrite H in Hlt. by apply (irreflexivity bytes_lt) in Hlt.
Qed.

(** * Looking a key up *)

(** The newest record of a key. *)
Definition newest (key : bytes) (l : list TableEntry) : option TableEntry :=
  head (filter (fun e => te_Key e = key) l).

Lemma newest_none key l : (forall e, e ∈ l -> te_Key e <> key) -> newest key l = None.
Proof.
  intros H. unfold newest. destruct (filter _ l) as [|e l'] eqn:E; [done|].
  assert (e ∈ filter (fun e => te_Key e = key) l) as He by (rewrite E; by left).
  apply list_elem_of_filter in He as [Hk He]. by apply H in He.
Qed.

Lemma newest_app key l l' : (forall e, e ∈ l -> te_Key e <> key) -> newest key (l ++ l') = newest key l'.
Proof.
  intros H. unfold newest. rewrite filter_app.
  pose proof (newest_none key l H) as E. unfold newest in E. by destruct (filter (fun e => te_Key e = key) l).
Qed.

Lemma newest_app_r key l l' : (forall e, e ∈ l' -> te_Key e <> key) -> newest key (l ++ l') = newest key l.
Proof.
  intros H. unfold newest. rewrite filter_app.
  pose proof (newest_none key l' H) as E. unfold newest in E.
  destruct (filter (fun e => te_Key e = key) l') eqn:E'; [by rewrite app_nil_r|done].
Qed.
(** In a sorted block the scan finds it. *)
Lemma scanRecords_newest key l : table_sorted l -> scanRecords key l = newest key l.
Proof.
  induction l as [|e l IH]; intros Hs; [done|]. cbn [scanRecords].
  apply StronglySorted_cons in Hs as [He Hs]. unfold newest. destruct (bytes_compare (te_Key e) key) eqn:E.
  - apply bytes_compare_eq in E. by rewrite filter_cons_True.
  - rewrite filter_cons_False; [by apply IH|]. intros Ek. rewrite Ek in E.
    by rewrite (proj2 (bytes_compare_eq key key) eq_refl) in E.
  - assert (bytes_lt key (te_Key e)) as Hlt by (unfold bytes_lt; by rewrite bytes_compare_antisym, E).
    symmetry. apply (newest_none key (e :: l)). intros x Hx Ek.
    apply elem_of_cons in Hx as [->|Hx]; [rewrite Ek in Hlt; by apply (irreflexivity bytes_lt) in Hlt|].
    rewrite Forall_forall in He. destruct (He x Hx) as [H|[H _]].
    + rewrite Ek in H. apply (irreflexivity bytes_lt key). by etrans.
    + rewrite H, Ek in Hlt. by apply (irreflexivity bytes_lt) in Hlt.
Qed.

Lemma below_min es e : table_sorted es -> e ∈ es -> bytes_lt (te_Key e) (min_key es) -> False.
Proof.
  intros Hs He Hlt. unfold min_key in Hlt. destruct es as [|e0 es]; [by apply elem_of_nil in He|]. cbn [head] in Hlt.
  apply StronglySorted_cons in Hs as [Hs _]. apply elem_of_cons in He as [->|He]; [by apply (irreflexivity bytes_lt) in Hlt|].
  rewrite Forall_forall in Hs. destruct (Hs e He) as [H|[H _]].
  - apply (irreflexivity bytes_lt (te_Key e)). by etrans.
  - rewrite H in Hlt. by apply (irreflexivity bytes_lt) in Hlt.
Qed.

Lemma above_max es e : table_sorted es -> e ∈ es -> bytes_lt (max_key es) (te_Key e) -> False.
Proof.
  intros Hs He Hlt. unfold max_key in Hlt. destruct (last es) as [l|] eqn:El; [|apply last_None in El as ->; by apply elem_of_nil in He].
  apply last_Some in El as [q ->]. apply elem_of_app in He as [He|He%list_elem_of_singleton];
    [|subst e; by apply (irreflexivity bytes_lt) in Hlt].
  destruct (sorted_app q [l] e l Hs He) as [H|[H _]]; [by left|..].
  - apply (irreflexivity bytes_lt (te_Key e)). by etrans.
  - rewrite H in Hlt. by apply (irreflexivity bytes_lt) in Hlt.
Qed.

Lemma containsLoop_total f key : bloom_ok f -> exists b, MayContain key (Some f) = Some b.
Proof.
  intros Hok. unfold MayContain. destruct (bf_m f =? 0); [eauto|]. destruct (bloomHashPair key) as [h1 h2].
  apply (containsLoop_some f h1 h2 _ 0 Hok).
Qed.

Section table.
Context (es : list TableEntry) (table : bytes) (gs : list (list TableEntry)) (blocks : list builtBlock)
  (indexData bloomData : bytes) (f : BloomFilter) (meta : bytes) (r : ReaderAt).
Context (Hparts : table_parts es table gs blocks indexData bloomData f meta).
Context (Hsorted : table_sorted es) (Hok : Forall entry_ok es).
Context (Hlen : Z.of_nat (length table) <= max_i64) (Hreads : reads r table).

Definition opened_reader : SSTableReader :=
  mkSSTableReader r (Z.of_nat (length table)) (index_of 0 blocks) f (Z.of_nat (length es)) (min_key es) (max_key es).

Lemma table_lengths :
  (length table = length (payloads blocks) + length (blk indexData) + length (blk bloomData) + length meta + 16)%nat.
Proof using Hparts.
  rewrite (tp_table _ _ _ _ _ _ _ _ Hparts). unfold trailer_of. rewrite !length_app, !length_le_put. simpl. lia.
Qed.

Lemma groups_sorted : table_sorted (concat gs).
Proof using Hparts Hsorted. by rewrite <- (tp_groups _ _ _ _ _ _ _ _ Hparts). Qed.

Lemma index_sorted : StronglySorted bytes_lt (ix_firstKey <$> index_of 0 blocks).
Proof using Hparts Hsorted.
  rewrite index_firstKeys. eapply firstKeys_sorted; [apply groups_sorted|apply Hparts|apply Hparts].
Qed.

Lemma count_blocks : (length es = 0 <-> length (index_of 0 blocks) = 0)%nat.
Proof using Hparts.
  rewrite length_index_of, (tp_groups _ _ _ _ _ _ _ _ Hparts).
  pose proof (tp_blocks _ _ _ _ _ _ _ _ Hparts) as Hb. destruct Hb as [|g b gs' bs' [_ (e0 & g' & -> & _)]]; simpl; lia.
Qed.

Lemma openBlocks_ok :
  openBlocks r (Z.of_nat (length table)) (Z.of_nat (length table) - 16 - Z.of_nat (length meta)) meta = Ok opened_reader.
Proof using All.
  pose proof table_lengths as Hl. pose proof (tp_table _ _ _ _ _ _ _ _ Hparts) as Et.
  pose proof (length_blk indexData) as Hli. pose proof (length_blk bloomData) as Hlb. unfold max_i64 in Hlen.
  destruct (tp_keys _ _ _ _ _ _ _ _ Hparts) as [Hmn Hmx].
  assert (length es <= length (payloads blocks))%nat as Hle.
  { rewrite (tp_groups _ _ _ _ _ _ _ _ Hparts) in Hok |- *. apply blocks_length; [apply Hparts|done]. }
  destruct (footer_fields (Z.of_nat (length (payloads blocks))) (Z.of_nat (length (blk indexData)))
    (Z.of_nat (length (payloads blocks) + length (blk indexData))) (Z.of_nat (length (blk bloomData)))
    (Z.of_nat (length es)) (min_key es) (max_key es)) as (F1 & F2 & F3 & F4 & F5 & F6 & F7 & F8 & F9);
    [unfold is_u64, max_u64; lia..|done|done|].
  rewrite <- (tp_meta _ _ _ _ _ _ _ _ Hparts) in *.
  unfold openBlocks. rewrite F1, F2, F3, F4, F5, F6, F7, F8, F9.
  rewrite (proj2 (Z.eqb_eq _ _)) by lia. rewrite !(proj2 (Z.ltb_ge _ 4)) by lia. cbn [negb orb].
  rewrite !u64_sub_small, u64_add_small by (unfold max_u64; lia).
  rewrite !(proj2 (Z.ltb_ge _ _)) by lia. cbn [orb].
  rewrite (readBlock_ok r table (payloads blocks) indexData (blk bloomData ++ meta ++ trailer_of meta)) by
    (try done; unfold max_i64; lia). cbn [rbind].
  assert (Z.of_nat (length indexData) <= max_i64 /\ Z.of_nat (length (payloads blocks)) <= max_i64) as [Hi1 Hi2] by (unfold max_i64; lia).
  rewrite (decodeIndex_ok (index_of 0 blocks)); [|apply Hparts|by apply index_of_ok|apply index_sorted|done].
  cbn [rbind].
  replace (Bool.eqb (Z.of_nat (length es) =? 0) (Nat.eqb (length (index_of 0 blocks)) 0)) with true.
  2: { symmetry. apply Bool.eqb_true_iff. pose proof count_blocks as Hc.
       destruct (Z.eqb_spec (Z.of_nat (length es)) 0), (Nat.eqb_spec (length (index_of 0 blocks)) 0); try done; lia. }
  cbn [negb]. pose proof (checkBlocks_ok 0 blocks None) as Hcb. cbn [Nat.add] in Hcb. 
  rewrite Hcb by (try done; intros e [=]). cbn [negb].
  replace (Z.of_nat (length (payloads blocks) + length (blk indexData))) with (Z.of_nat (length (payloads blocks ++ blk indexData)))
    by (rewrite length_app; done).
  rewrite (readBlock_ok r table (payloads blocks ++ blk indexData) bloomData (meta ++ trailer_of meta)) by
    (try done; try (unfold max_i64; lia); by rewrite <- app_assoc). cbn [rbind].
  rewrite (Marshal_ok f bloomData) by apply Hparts.
  rewrite Nat2Z.id, take_app_length, <- drop_drop, F8, drop_app_length.
  destruct (Z.ltb_spec 0 (Z.of_nat (length es))) as [Hpos|]; [|done].
  by rewrite min_max.
Qed.

Lemma OpenSSTable_ok : OpenSSTable r (Z.of_nat (length table)) = Ok opened_reader.
Proof using All.
  pose proof table_lengths as Hl. pose proof (tp_table _ _ _ _ _ _ _ _ Hparts) as Et.
  pose proof (tp_meta_len _ _ _ _ _ _ _ _ Hparts) as Hml.
  assert (48 <= length meta)%nat as Hm48.
  { rewrite (tp_meta _ _ _ _ _ _ _ _ Hparts). unfold footerMetadata. rewrite !length_app, !length_le_put. lia. }
  unfold OpenSSTable, footerTrailer. rewrite (proj2 (Z.ltb_ge _ _)) by lia.
  set (front := payloads blocks ++ blk indexData ++ blk bloomData).
  assert (table = front ++ meta ++ trailer_of meta) as Et' by (unfold front; by rewrite <- !app_assoc).
  assert (length (trailer_of meta) = 16%nat) as H16 by (unfold trailer_of; by rewrite !length_app, !length_le_put).
  replace (readAtFull r 16 (Z.of_nat (length table) - 16)) with (Ok (trailer_of meta) : result bytes).
  2: { symmetry. rewrite <- (readAtFull_ok r table (front ++ meta) (trailer_of meta) []) by
         (done || by rewrite app_nil_r, <- app_assoc).
       rewrite H16. f_equal. rewrite Et', !length_app, H16. lia. }
  assert (drop 8 (trailer_of meta) = footerMagic /\ le_get (take 4 (drop 4 (trailer_of meta))) = Z.of_nat (length meta) /\
          le_get (take 4 (trailer_of meta)) = crc32c meta) as (T1 & T2 & T3).
  { unfold trailer_of. rewrite (drop4 4), !(drop4 0), !drop_0, !get4_front by (apply crc32c_bound || lia). done. }
  rewrite T1, T2, T3, bool_decide_true by done. cbn [negb].
  rewrite (proj2 (Z.ltb_ge _ 48)) by lia. rewrite (proj2 (Z.ltb_ge _ _)) by lia. cbn [orb].
  unfold uint64ToInt. rewrite (proj2 (Z.ltb_ge _ _)) by (unfold max_i64, max_u32 in *; lia).
  replace (readAtFull r (Z.of_nat (length meta)) (Z.of_nat (length table) - 16 - Z.of_nat (length meta))) with (Ok meta : result bytes).
  2: { symmetry. rewrite <- (readAtFull_ok r table front meta (trailer_of meta)) by done.
       f_equal. rewrite Et', !length_app, H16. lia. }
  rewrite Z.eqb_refl. cbn [negb]. apply openBlocks_ok.
Qed.

(** * Reading the entries *)

Lemma group_sorted_ok j g : gs !! j = Some g -> table_sorted g /\ Forall entry_ok g.
Proof using Hparts Hsorted Hok.
  intros Hg. pose proof (concat_split gs j g Hg) as E. rewrite <- (tp_groups _ _ _ _ _ _ _ _ Hparts) in E.
  rewrite E in Hsorted, Hok. apply StronglySorted_app in Hsorted as (_ & _ & Hs).
  apply StronglySorted_app in Hs as (_ & Hs & _). apply Forall_app in Hok as [_ Ho]. apply Forall_app in Ho as [Ho _]. done.
Qed.

Lemma readRecords_ok j ix :
  index_of 0 blocks !! j = Some ix ->
  exists e0 g', gs !! j = Some (e0 :: g') /\ ix_firstKey ix = te_Key e0 /\ readRecords opened_reader ix = Ok (e0 :: g').
Proof using All.
  intros Hj. apply index_of_lookup in Hj as (b & Hb & ->). cbn [Nat.add].
  pose proof (tp_blocks _ _ _ _ _ _ _ _ Hparts) as Hbl.
  destruct (Forall2_lookup_r _ _ _ _ _ Hbl Hb) as (g & Hg & Henc & e0 & g' & -> & Hfk).
  exists e0, g'. split_and!; [done..|]. unfold readRecords. cbn [ix_offset ix_length opened_reader sr_r ix_firstKey].
  rewrite (readBlock_ok r table (payloads (take j blocks)) (bb_data b)
    (payloads (drop (S j) blocks) ++ blk indexData ++ blk bloomData ++ meta ++ trailer_of meta)); [|done| |done].
  - cbn [rbind]. destruct (group_sorted_ok _ _ Hg) as [Hs Ho].
    rewrite (decodeRecords_ok (e0 :: g')) by done. cbn [rbind]. rewrite Hfk, bool_decide_true by done. done.
  - rewrite (tp_table _ _ _ _ _ _ _ _ Hparts), (payloads_split _ _ _ Hb). by rewrite <- !app_assoc.
Qed.

Lemma checkBloomKeys_ok g : (forall e, e ∈ g -> e ∈ es) -> checkBloomKeys f g = Some true.
Proof using Hparts.
  induction g as [|e g IH]; intros Hin; [done|]. cbn [checkBloomKeys].
  rewrite (tp_bloom_keys _ _ _ _ _ _ _ _ Hparts); [apply IH; intros x Hx; apply Hin; by right|].
  apply list_elem_of_fmap_2, Hin. by left.
Qed.

Lemma allEntriesLoop_ok n j :
  (j + n = length gs)%nat ->
  allEntriesLoop opened_reader (drop j (index_of 0 blocks)) (concat (take j gs)) = Some (Ok es).
Proof using All.
  pose proof (tp_groups _ _ _ _ _ _ _ _ Hparts) as Eg. pose proof (tp_blocks _ _ _ _ _ _ _ _ Hparts) as Hbl.
  pose proof (Forall2_length _ _ _ Hbl) as Hlen2.
  revert j. induction n as [|n IH]; intros j Hj.
  { rewrite drop_ge by (rewrite length_index_of; lia). cbn [allEntriesLoop]. rewrite take_ge by lia. by rewrite <- Eg. }
  destruct (lookup_lt_is_Some_2 (index_of 0 blocks) j) as [ix Hix]; [rewrite length_index_of; lia|].
  rewrite (drop_S _ _ _ Hix). cbn [allEntriesLoop].
  destruct (readRecords_ok j ix Hix) as (e0 & g' & Hg & _ & ->).
  assert (match last (concat (take j gs)) with Some p => bytes_ltb (te_Key p) (te_Key e0) | None => true end = true) as ->.
  { destruct (last (concat (take j gs))) as [p|] eqn:El; [|done]. apply bytes_ltb_spec.
    eapply before_group; [apply groups_sorted|exact Hbl|apply Hparts|exact Hg|by apply last_Some_elem_of]. }
  cbn [negb sr_bloom opened_reader]. rewrite checkBloomKeys_ok.
  - rewrite <- (IH (S j)) by lia. rewrite (take_S_r _ _ _ Hg), concat_app. simpl. by rewrite app_nil_r.
  - intros e He. rewrite Eg. eapply elem_of_concat; [by eapply list_elem_of_lookup_2|done].
Qed.

Lemma AllEntries_ok : AllEntries opened_reader = Some (Ok es).
Proof using All.
  unfold AllEntries. cbn [sr_index opened_reader sr_entryCount sr_minKey sr_maxKey].
  pose proof (allEntriesLoop_ok (length gs) 0 eq_refl) as E. rewrite drop_0 in E.
  change (concat (take 0 gs)) with (@nil TableEntry) in E. rewrite E.
  rewrite Z.eqb_refl. cbn [negb]. unfold min_key, max_key.
  destruct (head es), (last es); try done. by rewrite !bool_decide_true.
Qed.

(** The block whose first key is the last one not above [key]. *)
Lemma search_block key :
  let n := sort_Search (length (index_of 0 blocks))
             (fun i => match index_of 0 blocks !! i with Some e => bytes_ltb key (ix_firstKey e) | None => false end) in
  (n <= length gs)%nat /\
  (forall j e0 g', (j < n)%nat -> gs !! j = Some (e0 :: g') -> ~ bytes_lt key (te_Key e0)) /\
  (forall j e0 g', (n <= j)%nat -> gs !! j = Some (e0 :: g') -> bytes_lt key (te_Key e0)).
Proof using Hparts Hsorted.
  pose proof (tp_blocks _ _ _ _ _ _ _ _ Hparts) as Hbl. pose proof (Forall2_length _ _ _ Hbl) as Hlen2.
  assert (forall j e0 g', gs !! j = Some (e0 :: g') -> exists ix, index_of 0 blocks !! j = Some ix /\ ix_firstKey ix = te_Key e0) as Hix.
  { intros j e0 g' Hg. destruct (lookup_lt_is_Some_2 (index_of 0 blocks) j) as [ix Ei].
    { rewrite length_index_of. apply lookup_lt_Some in Hg. lia. }
    exists ix. split; [done|]. apply index_of_lookup in Ei as (b & Hb & ->). simpl.
    destruct (Forall2_lookup_r _ _ _ _ _ Hbl Hb) as (g & Hg2 & _ & e1 & g1 & -> & ->). congruence. }
  set (p := fun i => match index_of 0 blocks !! i with Some e => bytes_ltb key (ix_firstKey e) | None => false end).
  destruct (sort_Search_spec p (length (index_of 0 blocks))) as (H1 & H2 & H3).
  { intros a b Hab Ha. unfold p in *. destruct (lookup_lt_is_Some_2 (index_of 0 blocks) b) as [eb Eb]; [lia|].
    destruct (index_of 0 blocks !! a) as [ea|] eqn:Ea; [|done]. rewrite Eb. apply bytes_ltb_spec in Ha. apply bytes_ltb_spec.
    destruct (decide (a = b)) as [->|Hne]; [congruence|]. etrans; [exact Ha|].
    pose proof index_sorted as Hs. assert (ix_firstKey <$> index_of 0 blocks = take b (ix_firstKey <$> index_of 0 blocks) ++
      ix_firstKey eb :: drop (S b) (ix_firstKey <$> index_of 0 blocks)) as Esp.
    { symmetry. apply take_drop_middle. by rewrite list_lookup_fmap, Eb. }
    rewrite Esp in Hs. apply StronglySorted_app in Hs as (Hs & _ & _). apply Hs; [|by left].
    apply list_elem_of_lookup. exists a. rewrite lookup_take_lt by lia. by rewrite list_lookup_fmap, Ea. }
  cbv zeta. split_and!; [rewrite length_index_of in *; lia|..].
  - intros j e0 g' Hj Hg. destruct (Hix _ _ _ Hg) as (ix & Ei & <-). specialize (H2 j Hj). unfold p in H2.
    rewrite Ei in H2. by apply bytes_ltb_ge.
  - intros j e0 g' Hj Hg. destruct (Hix _ _ _ Hg) as (ix & Ei & <-).
    specialize (H3 j). unfold p in H3. rewrite Ei in H3. apply bytes_ltb_spec, H3.
    split; [done|]. by apply lookup_lt_Some in Ei.
Qed.

(** Groups from [n] on hold no key equal to one below their first keys. *)
Lemma above_absent key n :
  (forall j e0 g', (n <= j)%nat -> gs !! j = Some (e0 :: g') -> bytes_lt key (te_Key e0)) ->
  forall e, e ∈ concat (drop n gs) -> te_Key e <> key.
Proof using Hparts Hsorted.
  intros H e He Ek. apply concat_elem_of in He as (i & g & Hg & Hin). rewrite lookup_drop in Hg.
  destruct (group_nonempty gs blocks (tp_blocks _ _ _ _ _ _ _ _ Hparts) _ _ Hg) as (e0 & g' & ->).
  specialize (H _ _ _ (Nat.le_add_r n i) Hg).
  destruct (in_group gs groups_sorted _ _ _ _ Hg Hin) as [E|Hlt].
  - rewrite <- E, Ek in H. by apply (irreflexivity bytes_lt) in H.
  - rewrite Ek in Hlt. apply (irreflexivity bytes_lt key). by etrans.
Qed.

Lemma sr_get_ok key checkBloom : sr_get key checkBloom opened_reader = Some (Ok (newest key es)).
Proof using All.
  unfold sr_get. cbn [sr_entryCount sr_bloom sr_minKey sr_maxKey sr_index opened_reader].
  destruct (Z.eqb_spec (Z.of_nat (length es)) 0) as [E0|Hne0].
  { destruct es; [done|simpl in E0; lia]. }
  assert (forall e, e ∈ es -> MayContain (te_Key e) (Some f) = Some true) as Hb.
  { intros e He. apply (tp_bloom_keys _ _ _ _ _ _ _ _ Hparts). by apply list_elem_of_fmap_2. }
  assert (exists may, (if checkBloom then MayContain key (Some f) else Some true) = Some may /\
            (may = false -> forall e, e ∈ es -> te_Key e <> key)) as (may & -> & Hmay).
  { destruct checkBloom; [|by exists true].
    destruct (containsLoop_total f key (tp_bloom_ok _ _ _ _ _ _ _ _ Hparts)) as [may Emay]. exists may.
    split; [done|]. intros -> e He <-. rewrite Hb in Emay by done. done. }
  destruct may; cbn [negb orb]; [|by rewrite newest_none by (by apply Hmay)].
  destruct (bytes_ltb key (min_key es)) eqn:Emin; cbn [orb].
  { rewrite newest_none; [done|]. intros e He <-. apply bytes_ltb_spec in Emin. by eapply below_min. }
  destruct (bytes_ltb (max_key es) key) eqn:Emax.
  { rewrite newest_none; [done|]. intros e He <-. apply bytes_ltb_spec in Emax. by eapply above_max. }
  destruct (search_block key) as (Hn & Hlo & Hhi). set (n := sort_Search _ _) in *. clearbody n.
  pose proof (tp_groups _ _ _ _ _ _ _ _ Hparts) as Eg.
  pose proof (above_absent key n Hhi) as Habs.
  destruct n as [|i].
  { rewrite newest_none; [done|]. rewrite Eg. exact Habs. }
  destruct (lookup_lt_is_Some_2 (index_of 0 blocks) i) as [ix Hix].
  { rewrite length_index_of, <- (Forall2_length _ _ _ (tp_blocks _ _ _ _ _ _ _ _ Hparts)). lia. }
  rewrite Hix. destruct (readRecords_ok i ix Hix) as (e0 & g' & Hg & _ & ->).
  do 2 f_equal. rewrite Eg, (concat_split gs i _ Hg), newest_app, newest_app_r by
    (first [exact Habs|intros e He Ek;
      pose proof (before_group gs blocks groups_sorted (tp_blocks _ _ _ _ _ _ _ _ Hparts) (tp_separated _ _ _ _ _ _ _ _ Hparts) i e0 g' e Hg He) as Hlt;
      rewrite Ek in Hlt; by eapply (Hlo i); [lia|exact Hg|exact Hlt]]).
  apply scanRecords_newest. by eapply group_sorted_ok.
Qed.

Lemma Get_ok key : sr_Get key opened_reader = Some (Ok (newest key es)).
Proof using All. apply sr_get_ok. Qed.
End table.

(** A table is at least as long as its number of entries. *)
Lemma buildTable_length es table :
  Forall entry_ok es -> buildTable es = Some (Ok table) -> (length es <= length table)%nat.
Proof.
  intros Hok H. unfold buildTable, buildDataBlocks in H.
  destruct (buildLoop (length es) es) as [blocks|] eqn:E1; [|done].
  destruct (appendBlocks blocks []) as [[table1 index]|] eqn:E2; [|done].
  destruct (encodeIndex index) as [indexData|]; [|done].
  destruct (appendBlock table1 indexData) as [table2|] eqn:E4; [|done].
  destruct (addAll _ _) as [filter|]; [|done]. destruct (MarshalBinary filter) as [bloomData|]; [|done].
  destruct (appendBlock table2 bloomData) as [table3|] eqn:E7; [|done]. cbv zeta in H.
  destruct (encodeFooter _ _ _ _ _ _ _) as [footer|]; [|done].
  assert (table3 ++ footer = table) as <- by congruence.
  apply buildLoop_ok in E1 as (gs & -> & Hb & _). apply appendBlocks_ok in E2 as (-> & _).
  apply appendBlock_ok in E4 as [-> _]. apply appendBlock_ok in E7 as [-> _].
  pose proof (blocks_length gs blocks Hb Hok) as Hl. unfold payloads in Hl. rewrite !length_app. simpl. lia.
Qed.
