(* ===== verification/SSTableSpec.v ===== *)
(** What the sorted string table promises: the writer accepts exactly the entries in table
    order, [Finish] builds a table for every input of moderate size, the table opens and
    reads back, and what the reader returns of an arbitrary file is in table order. *)

From stdpp Require Import sorting.
From S2P Require Import Prelude Bytes Bloom SSTable SSTableFacts.

(** * Fuel *)

Lemma uvarintLoop_count i x s buf v n :
  uvarintLoop i x s buf = Some (v, n) -> (i < n <= i + length buf)%nat.
Proof.
  revert i x s. induction buf as [|b buf IH]; intros i x s H; cbn [uvarintLoop] in H; [done|].
  destruct (Nat.eqb i 10); [done|]. destruct (Z_of_byte b <? 128).
  - destruct (_ && _); [done|]. injection H as _ <-. simpl. lia.
  - apply IH in H. simpl. lia.
Qed.

Lemma Uvarint_count buf v n : Uvarint buf = Some (v, n) -> (0 < n <= length buf)%nat.
Proof. intros H. by apply uvarintLoop_count in H. Qed.

(** A record takes at least ten bytes. *)
Lemma decodeRecord_shrinks data e rest :
  decodeRecord data = Ok (e, rest) -> (length rest + 10 <= length data)%nat.
Proof.
  unfold decodeRecord. intros H.
  destruct (Uvarint data) as [[keyLen n]|] eqn:E1; [|done]. apply Uvarint_count in E1. cbv zeta in H.
  destruct (_ || _) eqn:G1 in H; [done|]. destruct (1 <? _) in H; [done|].
  destruct (Uvarint (drop 9 (drop (Z.to_nat keyLen) (drop n data)))) as [[valueLen n']|] eqn:E2; [|done].
  apply Uvarint_count in E2. destruct (_ <? valueLen) in H; [done|]. destruct (_ || _) in H; [done|].
  apply Ok_inj in H. injection H as _ <-. rewrite !length_drop in *. lia.
Qed.

(** More iterations than bytes change nothing: [decodeRecords] never runs out. *)
Lemma decodeRecordsLoop_fuel fuel p data :
  (length data <= fuel)%nat -> decodeRecordsLoop fuel p data = decodeRecordsLoop (length data) p data.
Proof.
  revert p data. induction fuel as [fuel IH] using lt_wf_ind. intros p data Hf.
  destruct data as [|b data]; [by destruct fuel|]. destruct fuel as [|fuel]; [simpl in Hf; lia|].
  cbn [decodeRecordsLoop length]. destruct (decodeRecord (b :: data)) as [[e rest]|] eqn:E; [|done].
  apply decodeRecord_shrinks in E. cbn [length] in *.
  destruct (negb _); [done|]. rewrite (IH fuel), (IH (length data)) by lia. done.
Qed.

(** * The order of what is read *)

Lemma sorted_snoc es l : table_sorted es -> (forall e, e ∈ es -> precedes e l) -> table_sorted (es ++ [l]).
Proof.
  intros H Hl. apply StronglySorted_app. split_and!; [|done|by repeat constructor].
  intros x1 x2 H1 ->%list_elem_of_singleton. by apply Hl.
Qed.

Lemma decodeRecordsLoop_sorted fuel p data es :
  decodeRecordsLoop fuel p data = Ok es -> table_sorted (from_option (fun p => [p]) [] p ++ es).
Proof.
  revert p data es. induction fuel as [|fuel IH]; intros p data es H; destruct data as [|b data]; cbn [decodeRecordsLoop] in H; try done.
  1,2: apply Ok_inj in H as <-; destruct p; simpl; repeat constructor.
  destruct (decodeRecord (b :: data)) as [[e rest]|]; [|done].
  destruct (match p with Some _ => _ | None => _ end) eqn:Eo; [|done]. cbn [negb] in H.
  destruct (decodeRecordsLoop fuel (Some e) rest) as [es'|] eqn:E; [|done]. apply Ok_inj in H as <-.
  apply IH in E. simpl in E. destruct p as [p|]; simpl; [|done]. apply precedes_valid in Eo.
  constructor; [done|]. apply StronglySorted_cons in E as [He _]. constructor; [done|].
  eapply Forall_impl; [exact He|]. intros x Hx. by etrans.
Qed.

Lemma readRecords_sound rd block es :
  readRecords rd block = Ok es -> table_sorted es /\ es <> [].
Proof.
  unfold readRecords, rbind. intros H. destruct (readBlock _ _ _) as [data|]; [|done].
  destruct (decodeRecords data) as [es'|] eqn:E; [|done]. destruct es' as [|e0 es']; [done|].
  destruct (negb _); [done|]. apply Ok_inj in H as <-. split; [|done].
  by apply decodeRecordsLoop_sorted in E.
Qed.

Lemma checkBloomKeys_sound bloom es e :
  checkBloomKeys bloom es = Some true -> e ∈ es -> MayContain (te_Key e) (Some bloom) = Some true.
Proof.
  induction es as [|x es IH]; cbn [checkBloomKeys]; intros H He; [by apply elem_of_nil in He|].
  destruct (MayContain (te_Key x) (Some bloom)) as [[]|] eqn:E; try done.
  apply elem_of_cons in He as [->|He]; [done|by apply IH].
Qed.

(** Two sorted runs whose border is in order are a sorted run. *)
Lemma sorted_join es es' :
  table_sorted es -> table_sorted es' ->
  (forall l d, last es = Some l -> head es' = Some d -> bytes_lt (te_Key l) (te_Key d)) -> table_sorted (es ++ es').
Proof.
  intros H1 H2 Hb. apply StronglySorted_app. split_and!; [|done..]. intros a b Ha Hb'.
  destruct (last es) as [l|] eqn:El; [|apply last_None in El as ->; by apply elem_of_nil in Ha].
  destruct es' as [|d es']; [by apply elem_of_nil in Hb'|].
  assert (precedes l d) as Hld by (left; by apply Hb).
  assert (a = l \/ precedes a l) as [->|Hal].
  { apply last_Some in El as [q ->]. apply elem_of_app in Ha as [Ha| ->%list_elem_of_singleton]; [|by left].
    right. apply (sorted_app q [l]); [done|done|by left]. }
  all: assert (precedes l b) as Hlb by
    (apply StronglySorted_cons in H2 as [Hd _]; rewrite Forall_forall in Hd;
     apply elem_of_cons in Hb' as [->|Hin]; [done|]; etrans; [exact Hld|by apply Hd]).
  - done.
  - by etrans.
Qed.

Lemma allEntriesLoop_sound rd index acc es :
  allEntriesLoop rd index acc = Some (Ok es) -> table_sorted acc ->
  (forall e, e ∈ acc -> MayContain (te_Key e) (Some (sr_bloom rd)) = Some true) ->
  table_sorted es /\ (forall e, e ∈ es -> MayContain (te_Key e) (Some (sr_bloom rd)) = Some true).
Proof.
  revert acc. induction index as [|block index IH]; intros acc H Hs Hb; cbn [allEntriesLoop] in H.
  { injection H as ->. done. }
  destruct (readRecords rd block) as [decoded|] eqn:E; [|done]. apply readRecords_sound in E as [Hd Hne]. cbv zeta in H.
  destruct (match last acc with Some _ => _ | None => _ end) eqn:Eo; [|done]. cbn [negb] in H.
  destruct (checkBloomKeys (sr_bloom rd) decoded) as [[]|] eqn:Eb; try done.
  apply IH in H; [done| |].
  - apply sorted_join; [done..|]. intros l d El Ed. rewrite El in Eo. destruct decoded as [|d' decoded]; [done|].
    injection Ed as ->. by apply bytes_ltb_spec.
  - intros e He. apply elem_of_app in He as [He|He]; [by apply Hb|]. by eapply checkBloomKeys_sound.
Qed.

(** * The writer *)

(** The entry the writer keeps of [e]. *)
Definition kept (e : TableEntry) : TableEntry :=
  mkTableEntry (te_Key e) (te_Seq e) (if te_Tombstone e then [] else te_Value e) (te_Tombstone e).

(** [Add] of a sequence of entries, errors ignored. *)
Definition sw_AddAll (es : list TableEntry) (w : SSTableWriter) : SSTableWriter :=
  foldl (fun w e => (sw_Add e w).1) w es.

(** The writer between [NewSSTableWriter] and [Finish]. *)
Record writer_ok (w : SSTableWriter) : Prop := {
  wo_sorted : table_sorted (sw_entries w);
  wo_entries : Forall entry_ok (sw_entries w);
  wo_last : forall p, last (sw_entries w) = Some p -> sw_lastKey w = te_Key p;
}.

Lemma new_writer_ok : writer_ok NewSSTableWriter.
Proof. split; [constructor|constructor|done]. Qed.

Lemma kept_ok e : is_u64 (te_Seq e) -> entry_ok (kept e).
Proof. intros H. split; [done|]. simpl. by intros ->. Qed.

Lemma sw_Add_accepts e w :
  writer_ok w ->
  (sw_Add e w).2 = None <-> sw_closed w = false /\ (forall p, p ∈ sw_entries w -> precedes p e).
Proof.
  intros [Hs _ Hl]. unfold sw_Add. destruct (sw_closed w); [naive_solver|]. cbv zeta.
  destruct (last (sw_entries w)) as [p|] eqn:El; last first.
  { apply last_None in El as ->. simpl. split; [|done]. intros _. split; [done|]. by intros p ?%elem_of_nil. }
  rewrite (Hl p eq_refl). apply last_Some in El as [q Eq].
  destruct (validSSTableRecordOrder _ _ _ _) eqn:Eo; cbn [negb fst snd].
  - apply precedes_valid in Eo. split; [|done]. intros _. split; [done|]. intros x Hx. rewrite Eq in Hx, Hs.
    apply elem_of_app in Hx as [Hx| ->%list_elem_of_singleton]; [|done].
    etrans; [|exact Eo]. apply (sorted_app q [p]); [done|done|by left].
  - split; [done|]. intros [_ H]. assert (precedes p e) as Hp by (apply H; rewrite Eq; set_solver).
    apply precedes_valid in Hp. congruence.
Qed.

Lemma sw_Add_effect e w :
  writer_ok w -> is_u64 (te_Seq e) ->
  writer_ok (sw_Add e w).1 /\
  match (sw_Add e w).2 with
  | None => sw_entries (sw_Add e w).1 = sw_entries w ++ [kept e] /\ sw_closed (sw_Add e w).1 = false
  | Some _ => (sw_Add e w).1 = w
  end.
Proof.
  intros Hw Hq. pose proof (sw_Add_accepts e w Hw) as Ha. unfold sw_Add in *. destruct (sw_closed w) eqn:Ec; [done|].
  cbv zeta in *. destruct (negb _); [done|]. cbn [fst snd] in *. split; [|done].
  destruct (proj1 Ha eq_refl) as [_ Hp]. destruct Hw as [Hs He Hl]. split; cbn [sw_entries sw_lastKey].
  - apply sorted_snoc; [done|exact Hp].
  - apply Forall_app. split; [done|]. constructor; [by apply kept_ok|constructor].
  - intros p. rewrite last_snoc. by intros [= <-].
Qed.

Lemma sw_AddAll_ok es w :
  writer_ok w -> Forall (fun e => is_u64 (te_Seq e)) es -> writer_ok (sw_AddAll es w).
Proof.
  revert w. induction es as [|e es IH]; intros w Hw Hes; [done|]. apply Forall_cons in Hes as [He Hes].
  apply IH; [|done]. by apply sw_Add_effect.
Qed.

(** Entries in table order are all kept. *)
Lemma sw_AddAll_sorted es w :
  writer_ok w -> sw_closed w = false -> table_sorted (sw_entries w ++ es) -> Forall entry_ok es ->
  sw_entries (sw_AddAll es w) = sw_entries w ++ es /\ sw_closed (sw_AddAll es w) = false.
Proof.
  revert w. induction es as [|e es IH]; intros w Hw Hc Hs Hes; [by rewrite app_nil_r|].
  apply Forall_cons in Hes as [He Hes]. destruct (sw_Add_effect e w Hw (proj1 He)) as [Hw' Heff].
  assert ((sw_Add e w).2 = None) as En.
  { apply sw_Add_accepts; [done|]. split; [done|]. intros p Hp. eapply sorted_app; [exact Hs|done|by left]. }
  rewrite En in Heff. destruct Heff as [Ee Ec].
  assert (kept e = e) as Ek.
  { destruct e as [k q v t]. unfold kept. simpl. f_equal. destruct t; [|done]. symmetry. by apply He. }
  change (sw_AddAll (e :: es) w) with (sw_AddAll es (sw_Add e w).1).
  destruct (IH _ Hw' Ec) as [-> ->]; [|done|].
  - by rewrite Ee, Ek, <- app_assoc.
  - by rewrite Ee, Ek, <- app_assoc.
Qed.

(** * A table is built *)

(** A bound on what an entry adds to the file: its record, and the block, index entry and
    key bounds it may be the first of. *)
Definition entry_size (e : TableEntry) : nat := 100 + 2 * length (te_Key e) + length (te_Value e).
Definition entries_size (es : list TableEntry) : nat := sum_list (entry_size <$> es).
Definition block_size (b : builtBlock) : nat := 60 + length (bb_data b) + length (bb_firstKey b).
Definition blocks_size (bs : list builtBlock) : nat := sum_list (block_size <$> bs).

Lemma length_put_uvarint k v : (length (put_uvarint k v) <= k)%nat.
Proof. revert v. induction k as [|k IH]; intros v; cbn [put_uvarint]; [done|]. case_match; simpl; [lia|]. specialize (IH (Z.shiftr v 7)). lia. Qed.

Lemma length_varint_le v : (length (varint v) <= 10)%nat.
Proof. apply length_put_uvarint. Qed.

Lemma encodeRecord_total e :
  Z.of_nat (entry_size e) <= max_u32 ->
  exists r, encodeRecord e = Ok r /\ (length r <= 29 + length (te_Key e) + length (te_Value e))%nat.
Proof.
  intros H. unfold entry_size, max_u32 in H. unfold encodeRecord, max_u32.
  rewrite !(proj2 (Z.ltb_ge _ _)) by lia. cbn [orb]. unfold appendUvarint.
  fold (varint (Z.of_nat (length (te_Key e)))) (varint 0) (varint (Z.of_nat (length (te_Value e)))).
  pose proof (length_varint_le (Z.of_nat (length (te_Key e)))). pose proof (length_varint_le 0).
  pose proof (length_varint_le (Z.of_nat (length (te_Value e)))).
  destruct (te_Tombstone e); (eexists; split; [reflexivity|]); rewrite !length_app, length_le_put; cbn [length]; lia.
Qed.

Lemma entries_size_cons e es : entries_size (e :: es) = (entry_size e + entries_size es)%nat.
Proof. done. Qed.

Lemma blocks_size_cons b bs : blocks_size (b :: bs) = (block_size b + blocks_size bs)%nat.
Proof. done. Qed.

Lemma fillBlock_total es data pk :
  Z.of_nat (entries_size es) <= max_u32 ->
  exists data' rest, fillBlock data pk es = Ok (data', rest) /\ (length rest <= length es)%nat /\
    (length data' + entries_size rest <= length data + entries_size es)%nat.
Proof.
  revert data pk. induction es as [|e es IH]; intros data pk H; cbn [fillBlock].
  { exists data, []. simpl. split_and!; [done|lia|lia]. }
  rewrite entries_size_cons in *. destruct (encodeRecord_total e) as (r & -> & Hr); [unfold max_u32 in *; lia|].
  destruct (_ && _); [exists data, (e :: es); rewrite entries_size_cons; split_and!; [done|lia|lia]|].
  destruct (IH (data ++ r) (te_Key e)) as (d & rest & -> & Hl & Hs); [unfold max_u32 in *; lia|].
  exists d, rest. rewrite length_app in Hs. unfold entry_size. split_and!; [done|simpl; lia|lia].
Qed.

Lemma buildLoop_total fuel es :
  (length es <= fuel)%nat -> Z.of_nat (entries_size es) <= max_u32 ->
  exists blocks, buildLoop fuel es = Ok blocks /\ (blocks_size blocks <= entries_size es)%nat.
Proof.
  revert es. induction fuel as [|fuel IH]; intros [|e es] Hf H; cbn [buildLoop]; try (simpl in Hf; lia);
    try (exists []; split; [done|unfold blocks_size; simpl; lia]).
  rewrite entries_size_cons in *. destruct (encodeRecord_total e) as (r & -> & Hr); [unfold max_u32 in *; lia|].
  destruct (fillBlock_total es r (te_Key e)) as (d & rest & -> & Hl & Hs); [unfold max_u32 in *; lia|].
  destruct (IH rest) as (blocks & -> & Hb); [simpl in Hf; lia|unfold entry_size, max_u32 in *; lia|].
  eexists. split; [done|]. rewrite blocks_size_cons. unfold block_size, entry_size in *. cbn [bb_data bb_firstKey]. lia.
Qed.

Lemma blocks_size_elem b bs : b ∈ bs -> (block_size b <= blocks_size bs)%nat.
Proof.
  induction 1; rewrite blocks_size_cons; lia.
Qed.

Lemma appendBlock_total dst p :
  Z.of_nat (length p) <= max_u32 -> appendBlock dst p = Ok (dst ++ blk p).
Proof. intros H. unfold appendBlock. by rewrite (proj2 (Z.ltb_ge _ _)). Qed.

Lemma appendBlocks_total blocks table :
  Forall (fun b => Z.of_nat (length (bb_data b)) <= max_u32) blocks ->
  appendBlocks blocks table = Ok (table ++ payloads blocks, index_of (length table) blocks).
Proof.
  intros H. destruct (appendBlocks blocks table) as [[t ix]|err] eqn:E.
  { apply appendBlocks_ok in E as (-> & -> & _). done. }
  exfalso. revert err table E. induction H as [|b bs Hb H IH]; intros err table E; cbn [appendBlocks] in E; [done|].
  rewrite appendBlock_total in E by done. destruct (appendBlocks bs (table ++ blk (bb_data b))) as [[]|] eqn:E2; [done|].
  by apply IH in E2.
Qed.

Lemma encodeIndex_total index :
  Forall (fun e => Z.of_nat (length (ix_firstKey e)) <= max_u32) index ->
  encodeIndex index = Ok (varint (Z.of_nat (length index)) ++ concat (ixbytes <$> index)).
Proof.
  intros H. unfold encodeIndex, appendUvarint. cbn [app]. fold (varint (Z.of_nat (length index))).
  generalize (varint (Z.of_nat (length index))) as out. intros out.
  destruct (encodeIndexLoop index out) as [bs|err] eqn:E; [by apply encodeIndexLoop_ok in E as [-> _]|].
  exfalso. revert err out E. induction H as [|e ix He H IH]; intros err out E; cbn [encodeIndexLoop] in E; [done|].
  rewrite (proj2 (Z.ltb_ge _ _)) in E by done. by apply IH in E.
Qed.

Lemma length_payloads blocks off :
  (length (payloads blocks) + length (concat (ixbytes <$> index_of off blocks)) <= blocks_size blocks)%nat.
Proof.
  revert off. induction blocks as [|b bs IH]; intros off; [simpl; lia|].
  specialize (IH (off + length (blk (bb_data b)))%nat). rewrite blocks_size_cons.
  change (payloads (b :: bs)) with (blk (bb_data b) ++ payloads bs). cbn [index_of].
  rewrite fmap_cons. cbn [concat]. unfold ixbytes at 1. cbn [ix_firstKey ix_offset ix_length].
  pose proof (length_varint_le (Z.of_nat (length (bb_firstKey b)))). pose proof (length_blk (bb_data b)).
  rewrite !length_app, !length_le_put. unfold block_size. lia.
Qed.

Lemma bloom_total n keys :
  0 <= n <= max_u32 ->
  exists f data, addAll keys (NewBloomFilter n) = Some (Some f) /\ MarshalBinary (Some f) = Ok data /\
    Z.of_nat (length data) <= 2 * n + 12.
Proof.
  intros Hn. assert (exists f, NewBloomFilter n = Some f /\ Z.of_nat (length (bf_bits f)) <= 2 * n + 2) as (f & Ef & Hl).
  { unfold NewBloomFilter, bloomSize, bloomBitsPerKey, max_u32 in *. rewrite (proj2 (Z.ltb_ge n 0)) by lia.
    rewrite (proj2 (Z.ltb_ge _ _)) by (unfold max_u64; div_lia).
    replace (n *u 10) with (n * 10) by (unfold u64_mul; rewrite u64_id; unfold is_u64, max_u64; lia).
    set (bits := if n * 10 <? 8 then 8 else n * 10).
    assert (8 <= bits <= 8 + n * 10) by (unfold bits; destruct (Z.ltb_spec (n * 10) 8); lia).
    unfold bloomByteLen. rewrite u64_add_small by (unfold max_u64; div_lia).
    assert (0 <= bits / 8 <= n * 10 / 8 + 1) by div_lia. assert (n * 10 / 8 <= 2 * n) by div_lia.
    destruct (negb _); rewrite (proj2 (Z.ltb_ge _ _)) by (unfold max_i64; div_lia);
      (eexists; split; [done|]); cbn [bf_bits]; rewrite length_replicate; rewrite Z2Nat.id by lia; div_lia. }
  pose proof (NewBloomFilter_ok n f ltac:(unfold max_u32, max_i64 in *; lia) Ef) as Hok.
  destruct (addAll_ok keys f Hok) as (f' & Ea & [Hm' Hok'] & Em & _). rewrite Ef.
  assert (length (bf_bits f') = length (bf_bits f)) as El by (destruct Hok as [_ Hok]; rewrite Em in Hok'; assert (Some (Z.of_nat (length (bf_bits f'))) = Some (Z.of_nat (length (bf_bits f)))) as E by congruence; injection E; lia).
  exists f'. eexists. split; [done|]. unfold MarshalBinary. rewrite (proj2 (Z.eqb_neq (bf_m f') 0)) by lia.
  rewrite Hok', Z.eqb_refl. cbn [negb orb]. unfold bloomHeaderSize, max_u32, max_i64 in *.
  rewrite (proj2 (Z.ltb_ge _ _)) by lia. split; [done|]. cbn [length]. rewrite length_app, length_le_put. lia.
Qed.

Lemma entries_size_elem e es : e ∈ es -> (entry_size e <= entries_size es)%nat.
Proof. induction 1; rewrite entries_size_cons; lia. Qed.

Lemma entries_size_length es : (100 * length es <= entries_size es)%nat.
Proof. induction es as [|e es IH]; [simpl; lia|]. rewrite entries_size_cons. unfold entry_size. simpl. lia. Qed.

Lemma bound_keys es : (2 * length (min_key es) <= entries_size es)%nat /\ (2 * length (max_key es) <= entries_size es)%nat.
Proof.
  unfold min_key, max_key. split.
  - destruct es as [|e es]; [simpl; lia|]. cbn [head]. rewrite entries_size_cons. unfold entry_size. lia.
  - destruct (last es) as [e|] eqn:E; [|simpl; lia].
    apply last_Some_elem_of, entries_size_elem in E. unfold entry_size in E. lia.
Qed.

Lemma buildTable_total es :
  Z.of_nat (entries_size es) <= 2 ^ 31 ->
  exists table, buildTable es = Some (Ok table) /\ Z.of_nat (length table) <= max_i64.
Proof.
  intros H. change (2 ^ 31) with 2147483648 in H. unfold buildTable, buildDataBlocks.
  destruct (buildLoop_total (length es) es) as (blocks & -> & Hb); [done|unfold max_u32; lia|].
  pose proof (length_payloads blocks 0) as Hp. pose proof (entries_size_length es) as Hn.
  assert (forall b, b ∈ blocks -> (block_size b <= entries_size es)%nat) as Hbs
    by (intros b Hin; apply blocks_size_elem in Hin; lia).
  rewrite appendBlocks_total.
  2: { apply Forall_forall. intros b Hin%Hbs. unfold block_size, max_u32 in *. lia. }
  rewrite encodeIndex_total.
  2: { apply Forall_forall. intros e [i Hi]%list_elem_of_lookup. apply index_of_lookup in Hi as (b & Hin & ->).
       apply list_elem_of_lookup_2, Hbs in Hin. unfold block_size, max_u32 in *. simpl. lia. }
  cbn [app length]. set (indexData := varint _ ++ _).
  assert (length indexData <= 10 + entries_size es)%nat as Hi.
  { unfold indexData. rewrite length_app. pose proof (length_varint_le (Z.of_nat (length (index_of 0 blocks)))). lia. }
  clearbody indexData. rewrite appendBlock_total by (unfold max_u32; lia).
  destruct (bloom_total (Z.of_nat (length es)) (te_Key <$> es)) as (f & data & -> & -> & Hd); [unfold max_u32; lia|].
  rewrite appendBlock_total by (unfold max_u32; lia). fold (min_key es) (max_key es).
  destruct (bound_keys es) as [K1 K2]. unfold encodeFooter. rewrite !(proj2 (Z.ltb_ge max_u32 (Z.of_nat (length (_ es))))) by (unfold max_u32; lia).
  cbn [orb]. set (meta := footerMetadata _ _ _ _ _ _ _).
  assert (length meta <= 48 + entries_size es)%nat as Hm.
  { unfold meta, footerMetadata. rewrite !length_app, !length_le_put. lia. }
  clearbody meta. rewrite (proj2 (Z.ltb_ge _ _)) by (unfold max_u32; lia). eexists. split; [done|].
  rewrite !length_app, !length_blk, !length_le_put. cbn [length footerMagic]. unfold max_i64. lia.
Qed.

(** * The theorems *)

(** The writer holds exactly what was added in table order: after any calls of [Add],
    the kept entries are strictly ordered by key and, within a key, by descending
    sequence number, tombstones have no value; the next [Add] succeeds if and only if the
    writer is open and the entry comes after every kept one, success appends it and
    failure changes nothing. *)
Theorem sstable_writer_order calls e :
  Forall (fun e => is_u64 (te_Seq e)) (e :: calls) ->
  let w := sw_AddAll calls NewSSTableWriter in
  table_sorted (sw_entries w) /\ Forall entry_ok (sw_entries w) /\
  ((sw_Add e w).2 = None <-> sw_closed w = false /\ forall p, p ∈ sw_entries w -> precedes p e) /\
  match (sw_Add e w).2 with
  | None => sw_entries (sw_Add e w).1 = sw_entries w ++ [kept e]
  | Some _ => (sw_Add e w).1 = w
  end.
Proof.
  intros [He Hc]%Forall_cons w. pose proof (sw_AddAll_ok _ _ new_writer_ok Hc) as Hw.
  destruct (sw_Add_effect e w Hw He) as [_ Heff].
  split_and!; [apply Hw|apply Hw|by apply sw_Add_accepts|]. destruct ((sw_Add e w).2); [done|]. apply Heff.
Qed.

(** C27. A table reads back: entries in table order, added to a new writer and finished
    into a file that takes the whole write, are built into a table (no error, no panic,
    the writer's size is the file's length); the table opens in any reader of those
    bytes, [AllEntries] yields exactly the entries, and [Get] returns for every key its
    newest record, or nothing when the key has none.  The total size of the entries is
    bounded so that lengths fit their 32-bit fields. *)
Theorem sstable_roundtrip es r :
  table_sorted es -> Forall entry_ok es -> Z.of_nat (entries_size es) <= 2 ^ 31 ->
  (forall table, buildTable es = Some (Ok table) -> reads r table) ->
  exists w table rd,
    sw_Finish (fun data => (Z.of_nat (length data), None)) (sw_AddAll es NewSSTableWriter) = Some (w, Some table, None) /\
    sw_closed w = true /\ sw_size w = Z.of_nat (length table) /\
    OpenSSTable r (sw_size w) = Ok rd /\
    AllEntries rd = Some (Ok es) /\
    forall key, sr_Get key rd = Some (Ok (newest key es)).
Proof.
  intros Hs Hok Hsz Hr. destruct (buildTable_total es Hsz) as (table & Eb & Hlen). specialize (Hr _ Eb).
  destruct (sw_AddAll_sorted es NewSSTableWriter new_writer_ok eq_refl Hs Hok) as [Ee Ec]. cbn [sw_entries NewSSTableWriter app] in Ee.
  destruct (buildTable_parts es table) as (gs & blocks & ix & bd & f & meta & Hparts); [|done|].
  { pose proof (entries_size_length es). change (2 ^ 31) with 2147483648 in Hsz. unfold max_i64. lia. }
  unfold sw_Finish. rewrite Ec, Ee, Eb, Z.eqb_refl. cbn [negb].
  eexists _, _, (opened_reader es table blocks f r). split_and!; [done|done|done| | |].
  - by eapply OpenSSTable_ok.
  - by eapply AllEntries_ok.
  - intros key. by eapply Get_ok.
Qed.

(** The reader validates: whatever the bytes of the file and the answers of the
    underlying reader, entries that [AllEntries] returns without error are strictly in
    table order, are as many as the footer says, lie between the footer's key bounds,
    and are all known to the Bloom filter, so [Get]'s filter test cannot hide one. *)
Theorem sstable_reader_validates rd es :
  AllEntries rd = Some (Ok es) ->
  table_sorted es /\ Z.of_nat (length es) = sr_entryCount rd /\
  (es <> [] -> min_key es = sr_minKey rd /\ max_key es = sr_maxKey rd) /\
  forall e, e ∈ es -> MayContain (te_Key e) (Some (sr_bloom rd)) = Some true.
Proof.
  intros H. unfold AllEntries in H. destruct (allEntriesLoop rd (sr_index rd) []) as [[entries|]|] eqn:E; try done.
  apply allEntriesLoop_sound in E as [Hs Hb]; [|constructor|by intros e ?%elem_of_nil].
  destruct (Z.eqb_spec (Z.of_nat (length entries)) (sr_entryCount rd)) as [Ec|]; [|done]. cbn [negb] in H.
  unfold min_key, max_key. destruct (head entries) as [e0|] eqn:E0, (last entries) as [e1|] eqn:E1.
  - destruct (_ || _) eqn:Eg; [done|]. injection H as <-. rewrite E0, E1.
    apply orb_false_iff in Eg as [? ?]. bool_to_prop. done.
  - apply last_None in E1 as ->. done.
  - destruct entries; [by apply last_Some_elem_of, elem_of_nil in E1|done].
  - apply last_None in E1 as ->. injection H as <-. done.
Qed.

(** * Runs *)

(** A file in memory. *)
Definition memory_file (data : bytes) : ReaderAt :=
  fun off len => (take (Z.to_nat len) (drop (Z.to_nat off) data), None).

Definition demo_entries : list TableEntry :=
  [mkTableEntry [Byte.x61] 9 [] true; mkTableEntry [Byte.x61] 4 [Byte.x31] false;
   mkTableEntry [Byte.x62] 7 [Byte.x32; Byte.x33] false].

Definition demo_table : bytes :=
  match buildTable demo_entries with Some (Ok table) => table | _ => [] end.

Lemma demo_entries_sorted : table_sorted demo_entries.
Proof.
  unfold table_sorted, demo_entries.
  repeat lazymatch goal with |- precedes _ _ => apply precedes_valid; reflexivity | |- _ => constructor end.
Defined.

Lemma demo_entries_ok : Forall entry_ok demo_entries.
Proof. repeat constructor; simpl; unfold max_u64; try lia; done. Defined.

Lemma demo_reads : reads (memory_file demo_table) demo_table.
Proof. intros off len _ _ _. done. Defined.

Lemma sstable_writer_order_witness :
  let w := sw_AddAll demo_entries NewSSTableWriter in
  let e := mkTableEntry [Byte.x62] 7 [] false in
  table_sorted (sw_entries w) /\ Forall entry_ok (sw_entries w) /\
  ((sw_Add e w).2 = None <-> sw_closed w = false /\ forall p, p ∈ sw_entries w -> precedes p e) /\
  match (sw_Add e w).2 with
  | None => sw_entries (sw_Add e w).1 = sw_entries w ++ [kept e]
  | Some _ => (sw_Add e w).1 = w
  end.
Proof. apply sstable_writer_order. repeat constructor; simpl; unfold max_u64; lia. Defined.

Lemma sstable_roundtrip_witness :
  exists w table rd,
    sw_Finish (fun data => (Z.of_nat (length data), None)) (sw_AddAll demo_entries NewSSTableWriter) = Some (w, Some table, None) /\
    sw_closed w = true /\ sw_size w = Z.of_nat (length table) /\
    OpenSSTable (memory_file demo_table) (sw_size w) = Ok rd /\
    AllEntries rd = Some (Ok demo_entries) /\
    forall key, sr_Get key rd = Some (Ok (newest key demo_entries)).
Proof.
  apply sstable_roundtrip.
  - exact demo_entries_sorted.
  - exact demo_entries_ok.
  - vm_compute. done.
  - intros table E. assert (table = demo_table) as -> by (unfold demo_table; by rewrite E). exact demo_reads.
Defined.

Definition demo_reader : result SSTableReader := OpenSSTable (memory_file demo_table) (Z.of_nat (length demo_table)).

Lemma sstable_reader_validates_witness :
  exists rd, demo_reader = Ok rd /\ table_sorted demo_entries /\ Z.of_nat (length demo_entries) = sr_entryCount rd /\
  (demo_entries <> [] -> min_key demo_entries = sr_minKey rd /\ max_key demo_entries = sr_maxKey rd) /\
  forall e, e ∈ demo_entries -> MayContain (te_Key e) (Some (sr_bloom rd)) = Some true.
Proof.
  assert (exists rd, demo_reader = Ok rd /\ AllEntries rd = Some (Ok demo_entries)) as (rd & E1 & E2).
  { eexists. split; [vm_compute; reflexivity|]. vm_compute. reflexivity. }
  exists rd. split; [exact E1|]. exact (sstable_reader_validates _ _ E2).
Defined.
