(* ===== verification/SimInvariant.v ===== *)
(** The invariant checkers that the simulator runs after every event (sim/invariant.go):
    what they decide, and that on the states of a running cluster they never report a
    violation. *)

From stdpp Require Import functions.
From S2P Require Import Prelude Proto RaftLog RaftNode RaftSpec Storage Server NodeFacts HostFacts Cluster Bytes WalRecords CrashStorage Safety Runs.

(** * The observations *)

(** [leaderTracker]: the nodes observed as leaders, by term. *)
Notation leaderTracker := (gmap Z (gset Z)).

Definition newLeaderTracker : leaderTracker := ∅.

Definition observe (term id : Z) (leaders : leaderTracker) : leaderTracker * Z :=
  let set := default ∅ (leaders !! term) in
  let set' := {[ id ]} ∪ set in
  (<[term := set']> leaders, Z.of_nat (size set')).

Definition observeLeader (m : Message) (leaders : leaderTracker) : leaderTracker :=
  match m_Body m with
  | Some (Message_AppendEntries _) => (observe (m_Term m) (From m) leaders).1
  | _ => leaders
  end.

(** What the checkers read of a [Sim]. *)
Record Sim : Type := mkSim {
  sim_order : list Z;
  sim_leaders : leaderTracker;
  sim_Log : Z -> list Entry;
  sim_LastApplied : Z -> Z;
}.

(** [Sim.Log] of a node with storage [st]. *)
Definition storedLog {S} `{Storage S} (st : S) : list Entry :=
  let first := FirstIndex st in
  let last := LastIndex st in
  if last <? first then []
  else match getEntries first (last +u 1) st with
       | Ok es => cloneEntries es
       | Err _ => []
       end.

(** * The checkers *)

Definition SingleLeaderPerTerm (s : Sim) : option error :=
  if existsb (fun p => 1 <? Z.of_nat (size p.2)) (map_to_list (sim_leaders s))
  then Some "sim: invariant violated: term has several leaders" else None.

Definition entryAt (es : list Entry) (index : Z) : option Entry :=
  match es with
  | [] => None
  | e0 :: _ =>
      if index <? Index e0 then None
      else
        let offset := index -u Index e0 in
        if Z.of_nat (length es) <=? offset then None
        else match es !! Z.to_nat offset with
             | None => None
             | Some e => if negb (Index e =? index) then None else Some e
             end
  end.

Definition sameEntry (left right : option Entry) : bool :=
  match left, right with
  | Some l, Some r =>
      (Index l =? Index r) && (Term l =? Term r) && bool_decide (Type_ l = Type_ r) && bool_decide (Data l = Data r)
  | _, _ => false
  end.

(** [for index := from; index <= through; index++], [n] indexes. *)
Fixpoint samePrefix (n : nat) (index : Z) (leftLog rightLog : list Entry) : bool :=
  match n with
  | O => true
  | S n' => sameEntry (entryAt leftLog index) (entryAt rightLog index) && samePrefix n' (index + 1) leftLog rightLog
  end.

(** The loop over the left node's entries. *)
Fixpoint matchEntries (es leftLog rightLog : list Entry) : bool :=
  match es with
  | [] => true
  | leftEntry :: es' =>
      match entryAt rightLog (Index leftEntry) with
      | Some rightEntry =>
          if negb (Term rightEntry =? Term leftEntry) then matchEntries es' leftLog rightLog
          else samePrefix (Z.to_nat (Index leftEntry)) 1 leftLog rightLog && matchEntries es' leftLog rightLog
      | None => matchEntries es' leftLog rightLog
      end
  end.

Definition checkPair (s : Sim) (leftID rightID : Z) : option error :=
  let leftLog := sim_Log s leftID in
  let rightLog := sim_Log s rightID in
  if negb (matchEntries leftLog leftLog rightLog) then Some "sim: log-matching invariant violated"
  else
    let committedThrough := sim_LastApplied s leftID `min` sim_LastApplied s rightID in
    if negb (samePrefix (Z.to_nat committedThrough) 1 leftLog rightLog)
    then Some "sim: committed-prefix invariant violated" else None.

Fixpoint checkRow (s : Sim) (leftID : Z) (rest : list Z) : option error :=
  match rest with
  | [] => None
  | rightID :: rest' =>
      match checkPair s leftID rightID with
      | Some e => Some e
      | None => checkRow s leftID rest'
      end
  end.

Fixpoint checkRows (s : Sim) (order : list Z) : option error :=
  match order with
  | [] => None
  | leftID :: order' =>
      match checkRow s leftID order' with
      | Some e => Some e
      | None => checkRows s order'
      end
  end.

Definition LogMatching (s : Sim) : option error := checkRows s (sim_order s).

(** * What they decide *)

Lemma sameEntry_eq l r : sameEntry l r = true <-> exists e, l = Some e /\ r = Some e.
Proof.
  unfold sameEntry. destruct l as [[]|], r as [[]|]; try (split; [done|naive_solver]).
  rewrite !andb_true_iff, !bool_decide_eq_true, !Z.eqb_eq. simpl. naive_solver.
Qed.

Lemma entryAt_lookup L k :
  entries_wf L -> entryAt L (Z.of_nat k + 1) = L !! k.
Proof.
  intros [Hc Hlen]. destruct L as [|e0 L]; [by rewrite lookup_nil|].
  pose proof (Hc 0%nat e0 eq_refl) as H0. unfold entryAt.
  rewrite H0, (proj2 (Z.ltb_ge _ _)) by lia. cbv zeta.
  destruct (Z.leb_spec (Z.of_nat (length (e0 :: L))) (Z.of_nat k + 1 -u (0 + 1 + Z.of_nat 0))) as [Hge|Hlt].
  - symmetry. apply lookup_ge_None. destruct (decide (length (e0 :: L) <= k)%nat); [done|exfalso].
    rewrite u64_sub_small in Hge by (unfold max_u64 in *; lia). lia.
  - revert Hlt. destruct (decide (Z.of_nat k <= max_u64)) as [Hk|Hk].
    + rewrite u64_sub_small by lia. intros Hlt. replace (Z.to_nat (Z.of_nat k + 1 - (0 + 1 + Z.of_nat 0))) with k by lia.
      destruct ((e0 :: L) !! k) as [e|] eqn:E; [|done]. rewrite (Hc k e E).
      by rewrite (proj2 (Z.eqb_eq _ _)) by lia.
    + intros _. rewrite (lookup_ge_None_2 (e0 :: L) k) by (unfold max_u64 in *; lia).
      destruct ((e0 :: L) !! Z.to_nat _) as [e|] eqn:E; [|done].
      rewrite (Hc _ e E). apply lookup_lt_Some in E. rewrite (proj2 (Z.eqb_neq _ _)) by (unfold max_u64 in *; lia). done.
Qed.

Lemma samePrefix_iff n k L R :
  entries_wf L -> entries_wf R ->
  samePrefix n (Z.of_nat k + 1) L R = true <->
  (forall j, (k <= j < k + n)%nat -> exists e, L !! j = Some e /\ R !! j = Some e).
Proof.
  intros HL HR. revert k. induction n as [|n IH]; intros k; cbn [samePrefix]; [split; [intros _ j Hj; lia|done]|].
  rewrite andb_true_iff, !entryAt_lookup, sameEntry_eq by done.
  replace (Z.of_nat k + 1 + 1) with (Z.of_nat (S k) + 1) by lia. rewrite IH. split.
  - intros [H0 H] j Hj. destruct (decide (j = k)) as [->|]; [done|]. apply H. lia.
  - intros H. split; [apply H; lia|]. intros j Hj. apply H. lia.
Qed.

(** The first [n] entries exist in both logs and are equal. *)
Definition same_upto (n : nat) (L R : list Entry) : Prop := (n <= length L)%nat /\ take n L = take n R.

Lemma same_upto_iff n L R :
  same_upto n L R <-> (forall j, (j < n)%nat -> exists e, L !! j = Some e /\ R !! j = Some e).
Proof.
  split.
  - intros [Hl E] j Hj. destruct (lookup_lt_is_Some_2 L j) as [e He]; [lia|]. exists e. split; [done|].
    by rewrite <- (take_eq_lookup L R n j E Hj).
  - intros H. split.
    + destruct n as [|n]; [lia|]. destruct (H n) as (e & He & _); [lia|]. apply lookup_lt_Some in He. lia.
    + apply list_eq. intros j. destruct (decide (j < n)%nat) as [Hj|Hj].
      * rewrite !lookup_take_lt by done. destruct (H j Hj) as (e & -> & ->). done.
      * rewrite !lookup_take_ge by lia. done.
Qed.

Lemma samePrefix_same_upto n L R :
  entries_wf L -> entries_wf R -> samePrefix n 1 L R = true <-> same_upto n L R.
Proof.
  intros HL HR. rewrite (samePrefix_iff n 0) by done. rewrite same_upto_iff. split; intros H j Hj; apply H; lia.
Qed.

Lemma matchEntries_iff L R :
  entries_wf L -> entries_wf R ->
  matchEntries L L R = true <->
  (forall k e e', L !! k = Some e -> R !! k = Some e' -> Term e = Term e' -> same_upto (S k) L R).
Proof.
  intros HL HR.
  assert (forall n es, drop n L = es -> matchEntries es L R = true <->
    (forall k e e', (n <= k)%nat -> L !! k = Some e -> R !! k = Some e' -> Term e = Term e' -> same_upto (S k) L R)) as Hgen.
  2: { rewrite (Hgen 0%nat L eq_refl). split; intros H k e e'; [apply H; lia|intros _; apply H]. }
  intros n es. revert n. induction es as [|e es IH]; intros n Hd; cbn [matchEntries].
  { split; [|done]. intros _ k e e' Hk He. apply lookup_lt_Some in He. apply (f_equal length) in Hd.
    rewrite length_drop in Hd. simpl in Hd. lia. }
  assert (L !! n = Some e) as En by (rewrite <- (Nat.add_0_r n), <- lookup_drop, Hd; done).
  assert (drop (S n) L = es) as Hd' by (rewrite <- Nat.add_1_r, <- drop_drop, Hd; done).
  specialize (IH (S n) Hd'). destruct HL as [HLc HLl]. pose proof (HLc n e En) as Ei.
  assert (entryAt R (Index e) = R !! n) as -> by (replace (Index e) with (Z.of_nat n + 1) by lia; by apply entryAt_lookup).
  assert ((forall k e0 e', (n <= k)%nat -> L !! k = Some e0 -> R !! k = Some e' -> Term e0 = Term e' -> same_upto (S k) L R) <->
    (forall e', R !! n = Some e' -> Term e = Term e' -> same_upto (S n) L R) /\
    (forall k e0 e', (S n <= k)%nat -> L !! k = Some e0 -> R !! k = Some e' -> Term e0 = Term e' -> same_upto (S k) L R)) as ->.
  { split.
    - intros H. split; [intros e'; by apply H|]. intros k e0 e' Hk. apply H. lia.
    - intros [H0 H] k e0 e' Hk He0. destruct (decide (k = n)) as [->|]; [|apply H; [lia|done]].
      assert (e0 = e) as -> by congruence. apply H0. }
  destruct (R !! n) as [e'|]; [|rewrite IH; naive_solver].
  destruct (Z.eqb_spec (Term e') (Term e)) as [Et|Et]; cbn [negb]; [|rewrite IH; naive_solver].
  rewrite andb_true_iff, IH, samePrefix_same_upto by done. replace (Z.to_nat (Index e)) with (S n) by lia. naive_solver.
Qed.

(** The property the checker is named after, for one pair of logs. *)
Record pair_ok (s : Sim) (i j : Z) : Prop := mkPairOk {
  pair_matching k e e' :
    sim_Log s i !! k = Some e -> sim_Log s j !! k = Some e' -> Term e = Term e' ->
    same_upto (S k) (sim_Log s i) (sim_Log s j);
  pair_committed :
    same_upto (Z.to_nat (sim_LastApplied s i `min` sim_LastApplied s j)) (sim_Log s i) (sim_Log s j);
}.

Lemma checkPair_iff s i j :
  entries_wf (sim_Log s i) -> entries_wf (sim_Log s j) -> checkPair s i j = None <-> pair_ok s i j.
Proof.
  intros Hi Hj. unfold checkPair. cbv zeta.
  pose proof (matchEntries_iff _ _ Hi Hj) as Hm.
  pose proof (samePrefix_same_upto (Z.to_nat (sim_LastApplied s i `min` sim_LastApplied s j)) _ _ Hi Hj) as Hp.
  destruct (matchEntries _ _ _); cbn [negb].
  - destruct (samePrefix _ _ _ _); cbn [negb].
    + split; [|done]. intros _. split; [by apply Hm|by apply Hp].
    + split; [done|]. intros [_ H]. by apply Hp in H.
  - split; [done|]. intros [H _]. by apply Hm in H.
Qed.

Lemma checkRow_iff s i rest :
  checkRow s i rest = None <-> forall j, j ∈ rest -> checkPair s i j = None.
Proof.
  induction rest as [|j rest IH]; cbn [checkRow]; [split; [by intros _ j ?%elem_of_nil|done]|].
  destruct (checkPair s i j) eqn:E.
  - split; [done|]. intros H. rewrite <- E. apply H. by left.
  - rewrite IH. set_solver.
Qed.

(** The pairs of the order, in order. *)
Lemma checkRows_iff s order :
  checkRows s order = None <->
  forall a b i j, (a < b)%nat -> order !! a = Some i -> order !! b = Some j -> checkPair s i j = None.
Proof.
  induction order as [|x order IH]; cbn [checkRows]; [split; [done|done]|].
  destruct (checkRow s x order) eqn:E.
  - split; [done|]. intros H. assert (checkRow s x order = None) as E'; [|congruence].
    apply checkRow_iff. intros j [b Hb]%list_elem_of_lookup. by apply (H 0%nat (S b)); [lia|..].
  - rewrite IH. rewrite checkRow_iff in E. split.
    + intros H [|a] [|b] i j Hab Hi Hj; simpl in Hi, Hj; try lia.
      * injection Hi as <-. apply E. by eapply list_elem_of_lookup_2.
      * apply (H a b); [lia|done..].
    + intros H a b i j Hab Hi Hj. by apply (H (S a) (S b)); [lia|..].
Qed.

(** The simulator's log check is exact: on logs that are contiguous from index 1 it
    reports nothing if and only if, for every two nodes, entries of equal index and term
    have equal prefixes, and both logs hold the same entries up to the lower of the two
    applied indexes. *)
Theorem sim_log_matching_exact s :
  (forall i, i ∈ sim_order s -> entries_wf (sim_Log s i)) ->
  LogMatching s = None <->
  forall a b i j, (a < b)%nat -> sim_order s !! a = Some i -> sim_order s !! b = Some j -> pair_ok s i j.
Proof.
  intros Hwf. unfold LogMatching. rewrite checkRows_iff.
  split; intros H a b i j Hab Hi Hj; (apply checkPair_iff || apply <- checkPair_iff);
    eauto using list_elem_of_lookup_2.
Qed.

(** * On a running cluster *)

Section running.
Context {S : Type} `{CrashSafe S} (cfgs : Z -> Config) (ids : list Z).

(** The simulator's view of a cluster: each node's stored log and applied index, and the
    leaders seen in the messages sent so far. *)
Definition sim_of (order : list Z) (c : cluster (S := S)) : Sim :=
  mkSim order (foldl (fun t m => observeLeader m t) newLeaderTracker (net c))
    (fun i => storedLog (h_Storage (hosts c i))) (fun i => lastApplied (h_Node (hosts c i))).

Lemma storedLog_durable (st : S) : store_ok st -> storedLog st = (durable st).2.
Proof.
  intros Hok. destruct (store_ok_wf st Hok) as [_ Hlen]. unfold storedLog.
  rewrite (FirstIndex_spec st Hok), (LastIndex_spec st Hok). cbv zeta.
  destruct (Z.ltb_spec (Z.of_nat (length (durable st).2)) 1).
  - destruct (durable st).2; [done|simpl in *; lia].
  - rewrite u64_add_small by lia. rewrite (Entries_spec st _ _ Hok) by lia. rewrite cloneEntries_id.
    rewrite take_ge; [done|]. rewrite length_drop. lia.
Qed.

(** Leaders in the tracker are leaders of the protocol. *)
Lemma tracked_leaders s (ms : list Message) t :
  Forall (msg_ok ids s) ms ->
  (forall T set i, t !! T = Some set -> i ∈ set -> g_leader s T = Some i) ->
  forall T set i, foldl (fun t m => observeLeader m t) t ms !! T = Some set -> i ∈ set -> g_leader s T = Some i.
Proof.
  revert t. induction ms as [|m ms IH]; intros t Hms Ht; [done|]. apply Forall_cons in Hms as [Hm Hms].
  simpl. apply IH; [done|]. intros T set i. unfold observeLeader.
  destruct Hm as (_ & b & Eb & Hb). rewrite Eb. destruct b as [| |req| | |]; try apply Ht.
  destruct Hb as (_ & _ & Hl & _). simpl. intros HT Hi. destruct (decide (T = m_Term m)) as [->|Hne].
  - rewrite lookup_insert_eq in HT. injection HT as <-. apply elem_of_union in Hi as [->%elem_of_singleton|Hi]; [done|].
    destruct (t !! m_Term m) as [set0|] eqn:E0; [by eapply Ht|]. simpl in Hi. set_solver.
  - rewrite lookup_insert_ne in HT by done. by eapply Ht.
Qed.

Lemma single_leader_ok (s : Sim) :
  (forall T set i j, sim_leaders s !! T = Some set -> i ∈ set -> j ∈ set -> i = j) -> SingleLeaderPerTerm s = None.
Proof.
  intros Hs. unfold SingleLeaderPerTerm. destruct (existsb _ _) eqn:E; [|done].
  apply existsb_exists in E as ([T set] & Hin & Hlt). bool_to_prop. simpl in Hlt.
  apply list_elem_of_In, elem_of_map_to_list in Hin. exfalso.
  assert (size set <= 1)%nat; [|lia]. destruct (set_choose_or_empty set) as [[i Hi]|He].
  - rewrite <- (size_singleton i (C := gset Z)). apply subseteq_size. intros j Hj. apply elem_of_singleton. by eapply Hs.
  - apply leibniz_equiv in He as ->. rewrite size_empty. lia.
Qed.

(** The log check passes on logs of the protocol, each with an applied index up to which it
    is committed. *)
Lemma LogMatching_protocol s (v : Sim) :
  ainv ids s ->
  (forall k, k ∈ sim_order v -> sim_Log v k = toEntry <$> a_log s k /\ entries_wf (sim_Log v k) /\
     cprefix ids s (a_term s k) (a_log s k) (Z.to_nat (sim_LastApplied v k))) ->
  LogMatching v = None.
Proof.
  intros Hinv Hk. apply checkRows_iff. intros a b i j _ Hi%list_elem_of_lookup_2%Hk Hj%list_elem_of_lookup_2%Hk.
  destruct Hi as (Ei & Wi & Pi), Hj as (Ej & Wj & Pj).
  apply checkPair_iff; [done..|]. split; rewrite ?Ei, ?Ej.
  - intros k e e'. rewrite !list_lookup_fmap. intros (x & Ex & ->)%fmap_Some (y & Ey & ->)%fmap_Some Et.
    split; [rewrite length_fmap; apply lookup_lt_Some in Ex; lia|]. rewrite <- !fmap_take. f_equal.
    eapply logok_matching; [apply (inv_log _ _ Hinv i)|apply (inv_log _ _ Hinv j)|done..].
  - set (n := Z.to_nat (_ `min` _)).
    assert (n <= Z.to_nat (sim_LastApplied v i))%nat as Hni by lia.
    assert (n <= Z.to_nat (sim_LastApplied v j))%nat as Hnj by lia.
    split; [rewrite length_fmap; destruct Pi as [Pi _]; lia|]. rewrite <- !fmap_take. f_equal.
    eapply cprefix_agree; [exact Hinv|by eapply cprefix_le|by eapply cprefix_le|done].
Qed.

(** The leader check passes on messages of the protocol. *)
Lemma SingleLeader_protocol s (v : Sim) ms :
  Forall (msg_ok ids s) ms -> sim_leaders v = foldl (fun t m => observeLeader m t) newLeaderTracker ms ->
  SingleLeaderPerTerm v = None.
Proof.
  intros Hms Hv. apply single_leader_ok. intros T set i j HT Hi Hj. rewrite Hv in HT.
  pose proof (tracked_leaders s ms newLeaderTracker Hms) as Ht.
  assert (g_leader s T = Some i) as E1 by (eapply Ht; [by intros ? ? ? ?|exact HT|done]).
  assert (g_leader s T = Some j) as E2 by (eapply Ht; [by intros ? ? ? ?|exact HT|done]).
  congruence.
Qed.

(** The simulator's checkers hold on every run: in every reachable state of a cluster,
    with crashes and any scheduling of the network, neither the log check on the stored
    logs and applied indexes nor the leader check on the messages sent reports a
    violation, whatever order the nodes are listed in. *)
Theorem sim_checkers_never_fire (c : cluster (S := S)) order :
  cluster_cfg cfgs ids -> creach cfgs ids c -> (forall i, i ∈ order -> i ∈ ids) ->
  LogMatching (sim_of order c) = None /\ SingleLeaderPerTerm (sim_of order c) = None.
Proof.
  intros Hcfg Hc Ho. destruct (reach_CI cfgs ids c Hcfg Hc) as (s & _ & HC). split.
  - apply (LogMatching_protocol s); [apply (ci_inv _ _ _ HC)|]. intros k Hk%Ho.
    destruct (ci_hosts _ _ _ HC k Hk) as [Hok Hd HN _ _ _ _ _]. pose proof (store_ok_wf _ Hok) as Hw.
    cbn [sim_Log sim_LastApplied sim_of]. rewrite storedLog_durable by done. split_and!; [by rewrite Hd|done|apply (ni_applied HN)].
  - by apply (SingleLeader_protocol s _ (net c) (ci_net _ _ _ HC)).
Qed.
End running.

(** * Runs *)

(** Two logs that differ before an entry they share. *)
Definition diverged : Sim :=
  mkSim [1; 2] ∅
    (fun i => [mkEntry 1 (if i =? 1 then 1 else 2) EntryType_NOOP []; mkEntry 2 3 EntryType_NOOP []]) (fun _ => 0).

Lemma diverged_wf i : entries_wf (sim_Log diverged i).
Proof.
  split; [|simpl; unfold max_u64; lia]. intros [|[|k]] e H; simpl in H; simplify_eq; simpl; [lia|lia].
Defined.

Lemma sim_log_matching_exact_witness :
  LogMatching diverged = Some "sim: log-matching invariant violated" /\
  ~ (forall a b i j, (a < b)%nat -> sim_order diverged !! a = Some i -> sim_order diverged !! b = Some j ->
       pair_ok diverged i j).
Proof.
  assert (LogMatching diverged = Some "sim: log-matching invariant violated") as E by (vm_compute; reflexivity).
  split; [exact E|]. intros H. apply (sim_log_matching_exact diverged (fun i _ => diverged_wf i)) in H.
  rewrite E in H. discriminate.
Defined.

Lemma sim_checkers_never_fire_witness :
  LogMatching (sim_of [3; 1; 2] state2) = None /\ SingleLeaderPerTerm (sim_of [3; 1; 2] state2) = None.
Proof.
  apply (sim_checkers_never_fire demo_cfgs demo_ids state2 [3; 1; 2] demo_cfg_ok state2_reach).
  intros i Hi. unfold demo_ids. set_solver.
Defined.
