(* ===== verification/Checker.v ===== *)
(** The linearizability checker's own code (checker/history.go and checker/model.go): the
    recorder of client histories, the events it hands to Porcupine, the sequential model
    of the key-value map and its partition by key.  The search itself is the porcupine
    library; it is the parameter [checkEvents] of [CheckHistory]. *)

From stdpp Require Import sorting.
From S2P Require Import Prelude Proto RaftLog RaftNode Storage Bytes MapSM.

(** * Histories *)

Record Input : Type := mkInput {
  in_Op : Op;
  in_Key : bytes;
  in_Value : bytes;
}.

Record Output : Type := mkOutput {
  out_OK : bool;
  out_Value : bytes;
  out_Found : bool;
  out_Unknown : bool;
}.

Record Operation : Type := mkOperation {
  op_ClientID : Z;
  op_Seq : Z;
  op_InvokeTime : Z;
  op_ReturnTime : option Z;
  op_Input : Input;
  op_Output : Output;
}.

Notation History := (list Operation).

Record Metadata : Type := mkMetadata {
  md_ClientID : Z;
  md_Seq : Z;
}.

Definition ErrOutstandingOperation : error := "checker: client already has an outstanding operation".
Definition ErrNoOutstandingOperation : error := "checker: no matching outstanding operation".
Definition ErrSequenceNotIncreasing : error := "checker: sequence is not monotonically increasing".

Definition cloneInput (i : Input) : Input := mkInput (in_Op i) (cloneBytes (in_Key i)) (cloneBytes (in_Value i)).
Definition cloneOutput (o : Output) : Output :=
  mkOutput (out_OK o) (cloneBytes (out_Value o)) (out_Found o) (out_Unknown o).
Definition cloneOperation (o : Operation) : Operation :=
  mkOperation (op_ClientID o) (op_Seq o) (op_InvokeTime o) (op_ReturnTime o) (cloneInput (op_Input o)) (cloneOutput (op_Output o)).

(** The zero value of [Output]. *)
Definition noOutput : Output := mkOutput false [] false false.

(** * The recorder *)

Record HistoryRecorder : Type := mkHistoryRecorder {
  hr_history : History;
  hr_active : gmap Z nat;
  hr_lastSeq : gmap Z Z;
}.

Definition NewRecorder : HistoryRecorder := mkHistoryRecorder [] ∅ ∅.

Definition Invoke (clientID seq at_ : Z) (input : Input) (r : HistoryRecorder) : HistoryRecorder * option error :=
  match hr_active r !! clientID with
  | Some _ => (r, Some ErrOutstandingOperation)
  | None =>
      if match hr_lastSeq r !! clientID with Some last => seq <=? last | None => false end
      then (r, Some ErrSequenceNotIncreasing)
      else
        let history := hr_history r ++ [mkOperation clientID seq at_ None (cloneInput input) noOutput] in
        (mkHistoryRecorder history
           (<[clientID := (length history - 1)%nat]> (hr_active r)) (<[clientID := seq]> (hr_lastSeq r)), None)
  end.

(** The operation an index stands for; indexing out of range would be a panic, which
    [rec_ok] excludes. *)
Definition activeIndex (clientID seq : Z) (r : HistoryRecorder) : result (nat * Operation) :=
  match hr_active r !! clientID with
  | None => Err ErrNoOutstandingOperation
  | Some index =>
      match hr_history r !! index with
      | None => Err "panic: index out of range"
      | Some op => if negb (op_Seq op =? seq) then Err ErrNoOutstandingOperation else Ok (index, op)
      end
  end.

Definition Retry (clientID seq : Z) (r : HistoryRecorder) : option error :=
  match activeIndex clientID seq r with Ok _ => None | Err e => Some e end.

Definition Complete (clientID seq at_ : Z) (output : Output) (r : HistoryRecorder) : HistoryRecorder * option error :=
  match activeIndex clientID seq r with
  | Err e => (r, Some e)
  | Ok (index, op) =>
      if at_ <? op_InvokeTime op then (r, Some "checker: return time precedes invoke time")
      else if out_Unknown output then (r, Some "checker: an unknown outcome cannot complete an operation")
      else
        (mkHistoryRecorder
           (<[index := mkOperation (op_ClientID op) (op_Seq op) (op_InvokeTime op) (Some at_) (op_Input op) (cloneOutput output)]>
              (hr_history r))
           (delete clientID (hr_active r)) (hr_lastSeq r), None)
  end.

Definition RecordTimeout (clientID seq at_ : Z) (r : HistoryRecorder) : option error :=
  match activeIndex clientID seq r with
  | Err e => Some e
  | Ok (_, op) => if at_ <? op_InvokeTime op then Some "checker: timeout time precedes invoke time" else None
  end.

Definition HasOutstanding (clientID : Z) (r : HistoryRecorder) : bool := bool_decide (is_Some (hr_active r !! clientID)).

Definition getHistory (r : HistoryRecorder) : History := cloneOperation <$> hr_history r.

(** * Porcupine's events *)

(** A value stored in an [interface{}]. *)
Inductive anyValue : Type :=
  | AnyInput (i : Input)
  | AnyOutput (o : Output).

Record Event : Type := mkEvent {
  ev_ClientId : nat;
  ev_Call : bool;
  ev_Value : anyValue;
  ev_Id : nat;
  ev_Metadata : Metadata;
}.

Record timedEvent : Type := mkTimedEvent {
  tm_time : Z;
  tm_call : bool;
  tm_order : nat;
  tm_event : Event;
}.

(** The order of [sort.SliceStable]'s comparison, and its reflexive form. *)
Definition timedLess (a b : timedEvent) : bool :=
  if negb (tm_time a =? tm_time b) then tm_time a <? tm_time b
  else if negb (Bool.eqb (tm_call a) (tm_call b)) then tm_call a
  else Nat.ltb (tm_order a) (tm_order b).

Definition timedLeb (a b : timedEvent) : bool := negb (timedLess b a).

(** The distinct client identifiers, sorted; a client's index among them. *)
Definition clientIDs (h : History) : list Z := sort_by Z.leb (remove_dups (op_ClientID <$> h)).
Definition clientIndex (h : History) (clientID : Z) : nat :=
  match list_find (fun c => c = clientID) (clientIDs h) with Some (i, _) => i | None => 0%nat end.

Definition metadataOf (o : Operation) : Metadata := mkMetadata (op_ClientID o) (op_Seq o).

Definition callEvent (h : History) (id : nat) (o : Operation) : Event :=
  mkEvent (clientIndex h (op_ClientID o)) true (AnyInput (cloneInput (op_Input o))) id (metadataOf o).
Definition returnEvent (h : History) (id : nat) (o : Operation) (out : Output) : Event :=
  mkEvent (clientIndex h (op_ClientID o)) false (AnyOutput out) id (metadataOf o).

(** The events of one operation: those with a time, and the synthetic return of an open
    operation. *)
Definition timedOf (h : History) (id : nat) (o : Operation) : list timedEvent :=
  mkTimedEvent (op_InvokeTime o) true id (callEvent h id o) ::
  match op_ReturnTime o with
  | Some t => [mkTimedEvent t false id (returnEvent h id o (cloneOutput (op_Output o)))]
  | None => []
  end.

Definition unfinishedOf (h : History) (id : nat) (o : Operation) : list Event :=
  match op_ReturnTime o with
  | Some _ => []
  | None => [returnEvent h id o (mkOutput false [] false true)]
  end.

Definition PorcupineEvents (h : History) : list Event :=
  let timed := concat (imap (timedOf h) h) in
  let unfinished := concat (imap (unfinishedOf h) h) in
  (tm_event <$> sort_by timedLeb timed) ++ unfinished.

(** * The sequential model *)

Notation kvState := (gmap bytes bytes).

Definition kvInit : kvState := ∅.

Definition kvStep (state : kvState) (input output : anyValue) : bool * kvState :=
  match input, output with
  | AnyInput invocation, AnyOutput response =>
      if negb (out_OK response) && negb (out_Unknown response) then (false, state)
      else
        let key := in_Key invocation in
        match in_Op invocation with
        | Op_PUT => (true, <[key := in_Value invocation]> state)
        | Op_DELETE => (true, delete key state)
        | Op_GET =>
            if out_Unknown response then (true, state)
            else
              let found := bool_decide (is_Some (state !! key)) in
              let value := default [] (state !! key) in
              (Bool.eqb (out_Found response) found && bool_decide (out_Value response = value), state)
        | _ => (false, state)
        end
  | _, _ => (false, state)
  end.

Definition kvEqual (left right : kvState) : bool :=
  Nat.eqb (size left) (size right) &&
  forallb (fun p => bool_decide (right !! p.1 = Some p.2)) (map_to_list left).

(** The partition of events by key: the key of a return is that of the call with its
    identifier, and the empty key when there was none. *)
Fixpoint partitionLoop (events : list Event) (byKey : gmap bytes (list Event)) (keysByID : gmap nat bytes)
    : gmap bytes (list Event) :=
  match events with
  | [] => byKey
  | event :: events' =>
      if ev_Call event then
        let key := match ev_Value event with AnyInput i => in_Key i | _ => [] end in
        partitionLoop events' (<[key := default [] (byKey !! key) ++ [event]]> byKey) (<[ev_Id event := key]> keysByID)
      else
        let key := default [] (keysByID !! ev_Id event) in
        partitionLoop events' (<[key := default [] (byKey !! key) ++ [event]]> byKey) keysByID
  end.

Definition partitionEvents (history : list Event) : list (list Event) :=
  let byKey := partitionLoop history ∅ ∅ in
  (fun key => default [] (byKey !! key)) <$> sort_by bytes_leb (map_to_list byKey).*1.

Definition CheckHistory {M : Type} (model : M) (checkEvents : M -> list Event -> bool) (history : History) : bool :=
  checkEvents model (PorcupineEvents history).
