(* ===== verification/CheckerFacts.v ===== *)
(** What the checker's own code guarantees to the linearizability search: histories are
    sessions with one operation at a time, events keep the real-time order, the partition
    by key loses nothing, and the sequential model is the map state machine. *)

From stdpp Require Import sorting.
From S2P Require Import Prelude Proto RaftLog RaftNode Storage Bytes MapSM Checker.

(** * The recorder *)

Inductive rec_step (r : HistoryRecorder) : HistoryRecorder -> Prop :=
  | rec_invoke c seq at_ input : rec_step r (Invoke c seq at_ input r).1
  | rec_complete c seq at_ output : rec_step r (Complete c seq at_ output r).1.

Definition rec_reach (r : HistoryRecorder) : Prop := rtc rec_step NewRecorder r.

Record rec_ok (r : HistoryRecorder) : Prop := mkRecOk {
  ro_active c i : hr_active r !! c = Some i ->
    exists o, hr_history r !! i = Some o /\ op_ClientID o = c /\ op_ReturnTime o = None;
  ro_open i o : hr_history r !! i = Some o -> op_ReturnTime o = None -> hr_active r !! op_ClientID o = Some i;
  ro_last i o : hr_history r !! i = Some o -> exists l, hr_lastSeq r !! op_ClientID o = Some l /\ op_Seq o <= l;
  ro_session i j a b : (i < j)%nat -> hr_history r !! i = Some a -> hr_history r !! j = Some b ->
    op_ClientID a = op_ClientID b -> op_Seq a < op_Seq b /\ is_Some (op_ReturnTime a);
  ro_times i o t : hr_history r !! i = Some o -> op_ReturnTime o = Some t ->
    op_InvokeTime o <= t /\ out_Unknown (op_Output o) = false;
}.

Lemma NewRecorder_ok : rec_ok NewRecorder.
Proof. split; intros *; simpl; rewrite ?lookup_nil, ?lookup_empty; done. Qed.

Lemma lookup_snoc_inv {A} (l : list A) x i y :
  (l ++ [x]) !! i = Some y -> l !! i = Some y \/ (i = length l /\ y = x).
Proof. intros [H|[-> <-]]%lookup_snoc_Some; [left; apply H|by right]. Qed.

Lemma Invoke_ok c seq at_ input r : rec_ok r -> rec_ok (Invoke c seq at_ input r).1.
Proof.
  intros Hr. unfold Invoke. destruct (hr_active r !! c) as [i|] eqn:Ea; [done|].
  destruct (match hr_lastSeq r !! c with Some _ => _ | None => _ end) eqn:El; [done|]. cbv zeta. cbn [fst].
  rewrite length_app, Nat.add_sub. destruct Hr as [Hact Hopen Hlast Hses Htim]. split; cbn [hr_history hr_active hr_lastSeq].
  - intros c' i. destruct (decide (c' = c)) as [->|Hne].
    + rewrite lookup_insert_eq. intros [= <-]. eexists. split; [by apply list_lookup_middle|done].
    + rewrite lookup_insert_ne by done. intros H. destruct (Hact _ _ H) as (o & Ho & ?). exists o. split; [|done].
      by apply lookup_app_l_Some.
  - intros i o [Ho|[-> ->]]%lookup_snoc_inv Hn; simpl; [|by rewrite lookup_insert_eq].
    pose proof (Hopen _ _ Ho Hn). rewrite lookup_insert_ne; congruence.
  - intros i o [Ho|[-> ->]]%lookup_snoc_inv; simpl; [|rewrite lookup_insert_eq; eauto with lia].
    destruct (Hlast _ _ Ho) as (l & Hl & Hle). destruct (decide (op_ClientID o = c)) as [<-|Hne].
    + rewrite lookup_insert_eq. rewrite Hl in El. bool_to_prop. exists seq. split; [done|lia].
    + rewrite lookup_insert_ne by done. eauto.
  - intros i j a b Hij [Ha|[-> ->]]%lookup_snoc_inv [Hb|[-> ->]]%lookup_snoc_inv Hc; simpl in *.
    + by eapply Hses.
    + destruct (Hlast _ _ Ha) as (l & Hl & Hle). rewrite Hc in Hl. rewrite Hl in El. bool_to_prop. split; [lia|].
      destruct (op_ReturnTime a) eqn:Er; [done|]. pose proof (Hopen _ _ Ha Er). congruence.
    + apply lookup_lt_Some in Hb. lia.
    + lia.
  - intros i o t [Ho|[-> ->]]%lookup_snoc_inv; [by eapply Htim|done].
Qed.

Lemma lookup_insert_inv {A} (l : list A) i x j y :
  <[i := x]> l !! j = Some y -> (j = i /\ y = x) \/ (j <> i /\ l !! j = Some y).
Proof. intros [(-> & <- & ?)|[? ?]]%list_lookup_insert_Some; auto. Qed.

Lemma Complete_ok c seq at_ output r : rec_ok r -> rec_ok (Complete c seq at_ output r).1.
Proof.
  intros Hr. unfold Complete, activeIndex. destruct (hr_active r !! c) as [k|] eqn:Ea; [|done].
  destruct (hr_history r !! k) as [op|] eqn:Ek; [|done]. destruct (negb (op_Seq op =? seq)); [done|].
  destruct (Z.ltb_spec at_ (op_InvokeTime op)); [done|]. destruct (out_Unknown output) eqn:Eu; [done|].
  cbn [fst]. destruct Hr as [Hact Hopen Hlast Hses Htim].
  destruct (Hact _ _ Ea) as (op' & Ek' & Ec & Er). assert (op' = op) as -> by congruence.
  assert (forall i o, <[k := mkOperation (op_ClientID op) (op_Seq op) (op_InvokeTime op) (Some at_) (op_Input op) (cloneOutput output)]>
      (hr_history r) !! i = Some o -> exists o0, hr_history r !! i = Some o0 /\ op_ClientID o0 = op_ClientID o /\ op_Seq o0 = op_Seq o /\
        (op_ReturnTime o0 = op_ReturnTime o \/ is_Some (op_ReturnTime o))) as Hold.
  { intros i o [[-> ->]|[_ Hi]]%lookup_insert_inv; [exists op; simpl; eauto|exists o; eauto]. }
  split; cbn [hr_history hr_active hr_lastSeq].
  - intros c' i [Hne Hi]%lookup_delete_Some. destruct (Hact _ _ Hi) as (o & Ho & Hco & Hn). exists o.
    rewrite list_lookup_insert_ne; [done|]. intros ->. congruence.
  - intros i o [[-> ->]|[Hne Hi]]%lookup_insert_inv Hn; [done|]. pose proof (Hopen _ _ Hi Hn) as Hx.
    rewrite lookup_delete_ne; [done|]. intros E. rewrite <- E in Hx. congruence.
  - intros i o (o0 & Ho0 & <- & <- & _)%Hold. by eapply Hlast.
  - intros i j a b Hij (a0 & Ha0 & <- & <- & Hra)%Hold (b0 & Hb0 & <- & <- & _)%Hold Hc.
    destruct (Hses i j a0 b0 Hij Ha0 Hb0 Hc) as [Hs Hret]. split; [done|]. destruct Hra as [<-|?]; done.
  - intros i o t [[-> ->]|[_ Hi]]%lookup_insert_inv; [|by eapply Htim]. simpl. intros [= <-]. done.
Qed.

Lemma rec_reach_ok r : rec_reach r -> rec_ok r.
Proof.
  unfold rec_reach. intros H. pose proof NewRecorder_ok as H0.
  induction H as [|x y z Hs _ IH]; [done|]. apply IH. destruct Hs; [by apply Invoke_ok|by apply Complete_ok].
Qed.

Lemma cloneOperation_id o : cloneOperation o = o.
Proof. by destruct o as [? ? ? ? [] []]. Qed.

Lemma getHistory_id r : getHistory r = hr_history r.
Proof. unfold getHistory. rewrite (list_fmap_ext _ id); [by rewrite list_fmap_id|]. intros. apply cloneOperation_id. Qed.

(** The recorder keeps sessions: in every history it can record, the operations of a
    client have strictly increasing sequence numbers and all but its last have returned;
    a returned operation did not return before it was invoked and has a known outcome; a
    client has an outstanding operation exactly when the history has an open one of it,
    and looking the outstanding operation up never leaves the history. *)
Theorem recorder_sessions r :
  rec_reach r ->
  let h := getHistory r in
  (forall i j a b, (i < j)%nat -> h !! i = Some a -> h !! j = Some b -> op_ClientID a = op_ClientID b ->
     op_Seq a < op_Seq b /\ is_Some (op_ReturnTime a)) /\
  (forall i o t, h !! i = Some o -> op_ReturnTime o = Some t -> op_InvokeTime o <= t /\ out_Unknown (op_Output o) = false) /\
  (forall c, HasOutstanding c r = true <-> exists i o, h !! i = Some o /\ op_ClientID o = c /\ op_ReturnTime o = None) /\
  (forall c seq, activeIndex c seq r <> Err "panic: index out of range").
Proof.
  intros Hr%rec_reach_ok h. unfold h. rewrite getHistory_id. destruct Hr as [Hact Hopen Hlast Hses Htim].
  split_and!; [done|done| |].
  - intros c. unfold HasOutstanding. rewrite bool_decide_eq_true. split.
    + intros [i Hi]. destruct (Hact _ _ Hi) as (o & Ho & ?). eauto.
    + intros (i & o & Ho & <- & Hn). eauto.
  - intros c seq. unfold activeIndex. destruct (hr_active r !! c) as [i|] eqn:Ei; [|done].
    destruct (Hact _ _ Ei) as (o & -> & _). by destruct (negb _).
Qed.

(** * Events *)

Lemma insert_by_sorted {A} (le : A -> A -> bool) x l :
  (forall a b, le a b = true \/ le b a = true) -> (forall a b c, le a b = true -> le b c = true -> le a c = true) ->
  StronglySorted (fun a b => le a b = true) l -> StronglySorted (fun a b => le a b = true) (insert_by le x l).
Proof.
  intros Htot Htr. induction 1 as [|y l Hs IH Hy]; cbn [insert_by]; [by repeat constructor|].
  destruct (le x y) eqn:E.
  - constructor; [by constructor|]. constructor; [done|]. eapply Forall_impl; [exact Hy|]. intros z. by apply Htr.
  - constructor; [done|]. rewrite insert_by_perm. constructor; [|done]. destruct (Htot x y); congruence.
Qed.

Lemma sort_by_sorted {A} (le : A -> A -> bool) l :
  (forall a b, le a b = true \/ le b a = true) -> (forall a b c, le a b = true -> le b c = true -> le a c = true) ->
  StronglySorted (fun a b => le a b = true) (sort_by le l).
Proof. intros. induction l as [|x l IH]; cbn; [constructor|]. by apply insert_by_sorted. Qed.

Lemma sort_Z_sorted l : StronglySorted Z.le (sort_by Z.leb l).
Proof.
  assert (StronglySorted (fun a b => Z.leb a b = true) (sort_by Z.leb l)) as Hs by (apply sort_by_sorted; [intros a b; rewrite !Z.leb_le; lia|intros a b c; rewrite !Z.leb_le; lia]).
  induction Hs as [|t ts _ IH Ht]; constructor; [done|]. eapply Forall_impl; [exact Ht|]. intros x. apply Z.leb_le.
Qed.

(** The comparison as a lexicographic order; a call sorts before a return. *)
Lemma timedLeb_iff a b :
  timedLeb a b = true <->
  tm_time a < tm_time b \/
  (tm_time a = tm_time b /\ ((tm_call a = true /\ tm_call b = false) \/ (tm_call a = tm_call b /\ (tm_order a <= tm_order b)%nat))).
Proof.
  unfold timedLeb, timedLess. destruct (Z.eqb_spec (tm_time b) (tm_time a)) as [E|Ht]; cbn [negb].
  - destruct (tm_call a), (tm_call b); cbn [negb Bool.eqb]; try (rewrite negb_true_iff, Nat.ltb_ge); intuition (congruence || lia).
  - rewrite negb_true_iff, Z.ltb_ge. intuition lia.
Qed.

Lemma timedLeb_total a b : timedLeb a b = true \/ timedLeb b a = true.
Proof.
  rewrite !timedLeb_iff. destruct (tm_call a), (tm_call b);
    destruct (Z.lt_trichotomy (tm_time a) (tm_time b)) as [?|[?|?]]; destruct (Nat.le_ge_cases (tm_order a) (tm_order b)); tauto || (intuition congruence).
Qed.

Lemma timedLeb_trans a b c : timedLeb a b = true -> timedLeb b c = true -> timedLeb a c = true.
Proof. rewrite !timedLeb_iff. intuition (congruence || lia). Qed.

(** What is reported for an operation: its output, or unknown when it is open. *)
Definition reported (o : Operation) : Output :=
  match op_ReturnTime o with Some _ => cloneOutput (op_Output o) | None => mkOutput false [] false true end.

Lemma elem_of_concat_imap {A B} (f : nat -> A -> list B) (l : list A) y :
  y ∈ concat (imap f l) <-> exists i x, l !! i = Some x /\ y ∈ f i x.
Proof.
  revert f. induction l as [|x l IH]; intros f; simpl; [set_solver|]. rewrite elem_of_app, IH. split.
  - intros [H|(i & z & Hi & Hy)]; [by exists 0%nat, x|by exists (S i), z].
  - intros ([|i] & z & Hi & Hy); simpl in Hi; [simplify_eq; auto|]. right. eauto.
Qed.

Lemma list_fmap_concat {A B} (f : A -> B) (ls : list (list A)) :
  fmap (M := list) f (concat ls) = concat (fmap (M := list) (fmap (M := list) f) ls).
Proof. induction ls as [|l ls IH]; csimpl; [done|]. by rewrite fmap_app, IH. Qed.

Lemma concat_imap_perm {A B} (f g : nat -> A -> list B) (l : list A) :
  concat (imap (fun i x => f i x ++ g i x) l) ≡ₚ concat (imap f l) ++ concat (imap g l).
Proof.
  revert f g. induction l as [|x l IH]; intros f g; simpl; [done|].
  rewrite (IH (f ∘ S) (g ∘ S)). solve_Permutation.
Qed.

Definition timedEvents (h : History) : list timedEvent := sort_by timedLeb (concat (imap (timedOf h) h)).
Definition unfinishedEvents (h : History) : list Event := concat (imap (unfinishedOf h) h).

Lemma PorcupineEvents_eq h : PorcupineEvents h = (tm_event <$> timedEvents h) ++ unfinishedEvents h.
Proof. done. Qed.

Lemma timedEvents_elem h x : x ∈ timedEvents h <-> exists i o, h !! i = Some o /\ x ∈ timedOf h i o.
Proof. unfold timedEvents. rewrite sort_by_perm. apply elem_of_concat_imap. Qed.

Lemma timedEvents_order h p q x y :
  timedEvents h !! p = Some x -> timedEvents h !! q = Some y -> (p < q)%nat -> timedLeb x y = true.
Proof.
  intros Hx Hy Hpq. pose proof (sort_by_sorted timedLeb (concat (imap (timedOf h) h)) timedLeb_total timedLeb_trans) as Hs.
  fold (timedEvents h) in Hs. rewrite <- (take_drop_middle _ _ _ Hy) in Hs. apply StronglySorted_app in Hs as (Hs & _ & _).
  apply Hs; [|by left]. apply list_elem_of_lookup. exists p. by rewrite lookup_take_lt.
Qed.

(** The shape of the timed events of a call and of a return. *)
Lemma timed_call h x id o :
  x ∈ timedEvents h -> tm_event x = callEvent h id o -> h !! id = Some o ->
  tm_time x = op_InvokeTime o /\ tm_call x = true.
Proof.
  intros (i & o' & Ho' & Hx)%timedEvents_elem E Ho. unfold timedOf in Hx.
  apply elem_of_cons in Hx as [->|Hx].
  - simpl in *. assert (i = id) as -> by (by injection E). assert (o' = o) as -> by congruence. done.
  - destruct (op_ReturnTime o'); [|by apply elem_of_nil in Hx]. apply list_elem_of_singleton in Hx as ->. by simpl in E.
Qed.

Lemma timed_return h x id o out :
  x ∈ timedEvents h -> tm_event x = returnEvent h id o out -> h !! id = Some o ->
  op_ReturnTime o = Some (tm_time x) /\ tm_call x = false.
Proof.
  intros (i & o' & Ho' & Hx)%timedEvents_elem E Ho. unfold timedOf in Hx.
  apply elem_of_cons in Hx as [->|Hx]; [done|].
  destruct (op_ReturnTime o') eqn:Er; [|by apply elem_of_nil in Hx]. apply list_elem_of_singleton in Hx as ->. simpl in *.
  assert (i = id) as -> by (by injection E). assert (o' = o) as -> by congruence. done.
Qed.

Lemma unfinished_elem h ev : ev ∈ unfinishedEvents h ->
  exists i o, h !! i = Some o /\ op_ReturnTime o = None /\ ev = returnEvent h i o (reported o).
Proof.
  intros (i & o & Ho & He)%elem_of_concat_imap. unfold unfinishedOf in He.
  destruct (op_ReturnTime o) eqn:Er; [by apply elem_of_nil in He|]. apply list_elem_of_singleton in He as ->.
  exists i, o. unfold reported. by rewrite Er.
Qed.

Lemma events_perm h :
  PorcupineEvents h ≡ₚ concat (imap (fun id o => [callEvent h id o; returnEvent h id o (reported o)]) h).
Proof.
  rewrite PorcupineEvents_eq. unfold timedEvents, unfinishedEvents. rewrite sort_by_perm.
  rewrite list_fmap_concat, fmap_imap, <- concat_imap_perm. match goal with |- concat ?l ≡ₚ concat ?k => replace l with k; [done|] end.
  apply imap_ext. intros i o _. simpl. unfold compose, timedOf, unfinishedOf, reported. by destruct (op_ReturnTime o).
Qed.

Lemma event_cases h p ev :
  PorcupineEvents h !! p = Some ev ->
  ((p < length (timedEvents h))%nat /\ exists x, timedEvents h !! p = Some x /\ tm_event x = ev) \/
  ((length (timedEvents h) <= p)%nat /\ ev ∈ unfinishedEvents h).
Proof.
  rewrite PorcupineEvents_eq. intros [H|[Hl H]]%lookup_app_Some.
  - left. apply lookup_lt_Some in H as Hl. rewrite length_fmap in Hl. split; [done|].
    rewrite list_lookup_fmap in H. apply fmap_Some in H as (x & Hx & ->). eauto.
  - right. rewrite length_fmap in Hl. split; [done|]. by eapply list_elem_of_lookup_2.
Qed.

Lemma events_real_time h p q a b oa ob :
  h !! a = Some oa -> h !! b = Some ob ->
  PorcupineEvents h !! p = Some (returnEvent h a oa (reported oa)) ->
  PorcupineEvents h !! q = Some (callEvent h b ob) ->
  (p < q)%nat <-> exists t, op_ReturnTime oa = Some t /\ t < op_InvokeTime ob.
Proof.
  intros Ha Hb Hp Hq.
  apply event_cases in Hq as [(Lq & y & Hy & Ey)|[_ Hun]]; last first.
  { apply unfinished_elem in Hun as (i & o & _ & _ & E). done. }
  destruct (timed_call h y b ob ltac:(by eapply list_elem_of_lookup_2) Ey Hb) as [Ty Cy].
  apply event_cases in Hp as [(Lp & x & Hx & Ex)|[Lp Hun]]; last first.
  { split; [lia|]. intros (t & Ht & _). apply unfinished_elem in Hun as (i & o & Ho & Hn & E).
    apply (f_equal ev_Id) in E. simpl in E. congruence. }
  destruct (timed_return h x a oa (reported oa) ltac:(by eapply list_elem_of_lookup_2) Ex Ha) as [Tx Cx].
  rewrite Tx, <- Ty. split.
  - intros Hlt. exists (tm_time x). split; [done|]. pose proof (timedEvents_order _ _ _ _ _ Hx Hy Hlt) as Hle.
    apply timedLeb_iff in Hle as [?|[_ [[E _]|[E _]]]]; [done|congruence..].
  - intros (t & [= <-] & Hlt). destruct (decide (p < q)%nat) as [|Hge]; [done|exfalso].
    destruct (decide (p = q)) as [->|Hne]; [assert (x = y) as -> by congruence; lia|].
    pose proof (timedEvents_order _ _ _ _ _ Hy Hx ltac:(lia)) as Hle. apply timedLeb_iff in Hle. lia.
Qed.

(** C38. The events handed to the search are the history: every operation contributes
    exactly its call and one return, which carries its recorded output, or the unknown
    output when it is open; and a return comes before a call if and only if the operation
    returned strictly before the other was invoked.  So real-time precedence is kept
    exactly, an open operation is concurrent with everything after its invocation, and a
    call comes before its own return. *)
Theorem porcupine_events_real_time h :
  PorcupineEvents h ≡ₚ concat (imap (fun id o => [callEvent h id o; returnEvent h id o (reported o)]) h) /\
  forall p q a b oa ob, h !! a = Some oa -> h !! b = Some ob ->
    PorcupineEvents h !! p = Some (returnEvent h a oa (reported oa)) ->
    PorcupineEvents h !! q = Some (callEvent h b ob) ->
    (p < q)%nat <-> exists t, op_ReturnTime oa = Some t /\ t < op_InvokeTime ob.
Proof. split; [apply events_perm|]. intros. by eapply events_real_time. Qed.

(** * The partition *)

Definition key_at (h : History) (id : nat) : bytes := default [] ((fun o => in_Key (op_Input o)) <$> h !! id).

(** The events of one key, in order. *)
Definition events_of (h : History) (key : bytes) (events : list Event) : list Event :=
  filter (fun ev => key_at h (ev_Id ev) = key) events.

Section partition.
Context (h : History) (events : list Event).
Context (Hcalls : forall ev, ev ∈ events -> ev_Call ev = true ->
  exists i, ev_Value ev = AnyInput i /\ in_Key i = key_at h (ev_Id ev)).
Context (Hreturns : forall p ev, events !! p = Some ev -> ev_Call ev = false ->
  exists q ev', (q < p)%nat /\ events !! q = Some ev' /\ ev_Call ev' = true /\ ev_Id ev' = ev_Id ev).

Lemma partitionLoop_spec post pre byKey keysByID :
  events = pre ++ post ->
  (forall ev, ev ∈ pre -> ev_Call ev = true -> keysByID !! ev_Id ev = Some (key_at h (ev_Id ev))) ->
  (forall k, byKey !! k = match events_of h k pre with [] => None | l => Some l end) ->
  forall k, partitionLoop post byKey keysByID !! k = match events_of h k events with [] => None | l => Some l end.
Proof using All.
  revert pre byKey keysByID. induction post as [|ev post IH]; intros pre byKey keysByID E Hk Hb k.
  { rewrite app_nil_r in E. subst pre. apply Hb. }
  assert (events !! length pre = Some ev) as Ep by (rewrite E; by apply list_lookup_middle).
  assert (forall k, default [] (byKey !! k) = events_of h k pre) as Hd
    by (intros k'; rewrite Hb; by destruct (events_of h k' pre)).
  assert (forall key, key = key_at h (ev_Id ev) ->
    forall k, <[key := default [] (byKey !! key) ++ [ev]]> byKey !! k =
      match events_of h k (pre ++ [ev]) with [] => None | l => Some l end) as Hb'.
  { intros key -> k'. unfold events_of. rewrite filter_app. destruct (decide (k' = key_at h (ev_Id ev))) as [->|Hne].
    - rewrite lookup_insert_eq, Hd, filter_cons_True, filter_nil by done. unfold events_of. by destruct (filter _ pre).
    - rewrite lookup_insert_ne, filter_cons_False, filter_nil, app_nil_r by congruence. apply Hb. }
  cbn [partitionLoop]. destruct (ev_Call ev) eqn:Ec.
  - destruct (Hcalls ev (list_elem_of_lookup_2 _ _ _ Ep) Ec) as (i & -> & Ei).
    apply (IH (pre ++ [ev])); [by rewrite <- app_assoc| |by apply Hb'].
    intros ev' [He'|He']%elem_of_app Hc'.
    + destruct (decide (ev_Id ev' = ev_Id ev)) as [Eid|Hne]; [rewrite Eid, lookup_insert_eq; by rewrite Ei|].
      rewrite lookup_insert_ne by done. by apply Hk.
    + apply list_elem_of_singleton in He' as ->. by rewrite lookup_insert_eq, Ei.
  - destruct (Hreturns _ _ Ep Ec) as (q & ev' & Hq & Eq & Ec' & Eid).
    assert (ev' ∈ pre) as Hin.
    { rewrite E, lookup_app_l in Eq by done. by eapply list_elem_of_lookup_2. }
    apply (IH (pre ++ [ev])); [by rewrite <- app_assoc| |].
    + intros ev0 [He0|He0]%elem_of_app Hc0; [by apply Hk|]. apply list_elem_of_singleton in He0 as ->. congruence.
    + apply Hb'. rewrite <- Eid, (Hk ev' Hin Ec'). done.
Qed.

Lemma partitionEvents_spec :
  exists keys, NoDup keys /\ (forall k, k ∈ keys <-> exists ev, ev ∈ events /\ key_at h (ev_Id ev) = k) /\
    partitionEvents events = (fun k => events_of h k events) <$> keys.
Proof using All.
  pose proof (partitionLoop_spec events [] ∅ ∅ eq_refl) as Hs.
  unfold partitionEvents. cbv zeta. set (byKey := partitionLoop events ∅ ∅) in *.
  assert (forall k, byKey !! k = match events_of h k events with [] => None | l => Some l end) as Hb.
  { apply Hs; [by intros ev ?%elem_of_nil|done]. }
  exists (sort_by bytes_leb (map_to_list byKey).*1). split_and!.
  - rewrite sort_by_perm. apply NoDup_fst_map_to_list.
  - intros k. rewrite sort_by_perm, list_elem_of_fmap. split.
    + intros ([k' l] & -> & Hl%elem_of_map_to_list). simpl. rewrite Hb in Hl.
      destruct (events_of h k' events) as [|ev l'] eqn:E; [done|].
      assert (ev ∈ events_of h k' events) as He by (rewrite E; by left).
      apply list_elem_of_filter in He as [? ?]. eauto.
    + intros (ev & Hev & Ek). destruct (byKey !! k) as [l|] eqn:El; [by exists (k, l); rewrite elem_of_map_to_list|].
      rewrite Hb in El. assert (ev ∈ events_of h k events) as He by (by apply list_elem_of_filter).
      destruct (events_of h k events); [by apply elem_of_nil in He|done].
  - apply list_fmap_ext. intros _ k _. rewrite Hb. by destruct (events_of h k events).
Qed.
End partition.

Lemma event_in h ev :
  ev ∈ PorcupineEvents h -> exists id o, h !! id = Some o /\ (ev = callEvent h id o \/ ev = returnEvent h id o (reported o)).
Proof.
  rewrite events_perm, elem_of_concat_imap. intros (i & o & Ho & He). exists i, o. set_solver.
Qed.

(** Partitioning by key is exact: for a history whose operations do not return before
    they are invoked, the partitions are, for each key that occurs, the events of the
    operations on that key in their order, so no event is lost, moved or put with another
    key. *)
Theorem partition_by_key_exact h :
  (forall i o t, h !! i = Some o -> op_ReturnTime o = Some t -> op_InvokeTime o <= t) ->
  exists keys, NoDup keys /\ (forall k, k ∈ keys <-> exists o, o ∈ h /\ in_Key (op_Input o) = k) /\
    partitionEvents (PorcupineEvents h) = (fun k => events_of h k (PorcupineEvents h)) <$> keys.
Proof.
  intros Ht.
  assert (forall id o, h !! id = Some o -> key_at h id = in_Key (op_Input o)) as Hkey by (intros id o E; unfold key_at; by rewrite E).
  destruct (partitionEvents_spec h (PorcupineEvents h)) as (keys & Hnd & Hk & Hp).
  - intros ev (id & o & Ho & [->| ->])%event_in Hc; [|done]. simpl. rewrite (Hkey _ _ Ho). eauto.
  - intros p ev Hp Hc. destruct (event_in h ev (list_elem_of_lookup_2 _ _ _ Hp)) as (id & o & Ho & [->|E]); [done|]. subst ev.
    assert (callEvent h id o ∈ PorcupineEvents h) as [q Hq]%list_elem_of_lookup.
    { rewrite events_perm, elem_of_concat_imap. exists id, o. set_solver. }
    exists q, (callEvent h id o). split_and!; [|done..].
    pose proof (events_real_time h p q id id o o Ho Ho Hp Hq) as Hrt.
    destruct (decide (q < p)%nat) as [|Hge]; [done|exfalso]. destruct (decide (p = q)) as [->|Hne]; [rewrite Hp in Hq; discriminate|].
    destruct (proj1 Hrt ltac:(lia)) as (t & E & Hlt). specialize (Ht _ _ _ Ho E). lia.
  - exists keys. split_and!; [done| |done]. intros k. rewrite Hk. split.
    + intros (ev & (id & o & Ho & He)%event_in & Ek). exists o. split; [by eapply list_elem_of_lookup_2|].
      rewrite <- Ek. destruct He as [->| ->]; simpl; symmetry; by apply Hkey.
    + intros (o & [id Ho]%list_elem_of_lookup & Ek). exists (callEvent h id o). split; [|simpl; by rewrite (Hkey _ _ Ho)].
      rewrite events_perm, elem_of_concat_imap. exists id, o. set_solver.
Qed.

(** * The model *)

(** What the harness reports for a command's result. *)
Definition successfulWorkloadOutput (res : Result) : Output :=
  mkOutput true (cloneBytes (res_Value res)) (res_Found res) false.

Definition inputOf (command : Command) : Input := mkInput (cmd_Op command) (Key command) (Value command).

(** The sequential model is the map state machine: the result of executing a command
    is accepted by the model and leads it to the machine's new map; an unsupported command
    is refused by both; and a completed read is accepted only with the machine's own
    result.  The unknown output of an open operation is accepted with the same effect on
    the map. *)
Theorem kv_model_is_map m command :
  match execute command m with
  | (m', Ok res) =>
      kvStep (values m) (AnyInput (inputOf command)) (AnyOutput (successfulWorkloadOutput res)) = (true, values m') /\
      (forall out, out_Unknown out = true ->
         kvStep (values m) (AnyInput (inputOf command)) (AnyOutput out) = (true, values m')) /\
      (forall out, cmd_Op command = Op_GET -> out_Unknown out = false ->
         (kvStep (values m) (AnyInput (inputOf command)) (AnyOutput out)).1 = true ->
         out = successfulWorkloadOutput res)
  | (m', Err _) =>
      m' = m /\ forall out, kvStep (values m) (AnyInput (inputOf command)) (AnyOutput out) = (false, values m)
  end.
Proof.
  unfold execute. destruct (cmd_Op command) eqn:Eo.
  1,5: split; [done|]; intros out; unfold kvStep, inputOf; rewrite Eo; by destruct (_ && _).
  - unfold kvStep, inputOf. rewrite Eo. split_and!; [done| |done]. intros out Hu. by rewrite Hu, andb_false_r.
  - unfold kvStep, inputOf. rewrite Eo. split_and!; [done| |done]. intros out Hu. by rewrite Hu, andb_false_r.
  - unfold kvStep, inputOf. rewrite Eo. cbn [in_Key in_Op]. split_and!.
    + simpl. unfold cloneBytes. by destruct (values m !! Key command); rewrite ?bool_decide_true by eauto.
    + intros out Hu. by rewrite Hu, andb_false_r.
    + intros [ok v f u] _ Hu. simpl in Hu. subst u. simpl. destruct ok; [|done]. simpl.
      intros [Hf Hv]%andb_true_iff. apply Bool.eqb_prop in Hf. bool_to_prop. subst v f. unfold successfulWorkloadOutput, cloneBytes.
      by destruct (values m !! Key command).
Qed.

(** The model's equality test decides equality of maps. *)
Lemma kvEqual_spec left right : kvEqual left right = true <-> left = right.
Proof.
  unfold kvEqual. rewrite andb_true_iff, Nat.eqb_eq, forallb_forall. split.
  - intros [Hsz Hall]. assert (left ⊆ right) as Hsub.
    { apply map_subseteq_spec. intros k v Hk. specialize (Hall (k, v)).
      assert (bool_decide (right !! k = Some v) = true) by (apply Hall, list_elem_of_In, elem_of_map_to_list; done). by bool_to_prop. }
    destruct (decide (left = right)) as [|Hne]; [done|exfalso].
    assert (left ⊂ right) as Hs%map_subset_size; [|lia].
    split; [done|]. intros Hsub'. apply Hne. by apply (anti_symm (⊆)).
  - intros ->. split; [done|]. intros [k v] Hin%list_elem_of_In%elem_of_map_to_list. by apply bool_decide_eq_true.
Qed.

(** * Runs *)

Definition put_a : Input := mkInput Op_PUT [Byte.x61] [Byte.x31].
Definition get_a : Input := mkInput Op_GET [Byte.x61] [].

(** Two clients: one writes and then reads, the other's write stays open. *)
Definition demo_recorder : HistoryRecorder :=
  let r := NewRecorder in
  let r := (Invoke 7 1 10 put_a r).1 in
  let r := (Invoke 8 1 12 put_a r).1 in
  let r := (Complete 7 1 15 (mkOutput true [] false false) r).1 in
  let r := (Invoke 7 2 16 get_a r).1 in
  (Complete 7 2 20 (mkOutput true [Byte.x31] true false) r).1.

Lemma demo_recorder_reach : rec_reach demo_recorder.
Proof.
  unfold rec_reach, demo_recorder. eapply rtc_l; [apply (rec_invoke _ 7 1 10 put_a)|]. eapply rtc_l; [apply (rec_invoke _ 8 1 12 put_a)|].
  eapply rtc_l; [apply (rec_complete _ 7 1 15 (mkOutput true [] false false))|].
  eapply rtc_l; [apply (rec_invoke _ 7 2 16 get_a)|].
  eapply rtc_l; [apply (rec_complete _ 7 2 20 (mkOutput true [Byte.x31] true false))|]. apply rtc_refl.
Defined.

Lemma recorder_sessions_witness :
  let h := getHistory demo_recorder in
  (forall i j a b, (i < j)%nat -> h !! i = Some a -> h !! j = Some b -> op_ClientID a = op_ClientID b ->
     op_Seq a < op_Seq b /\ is_Some (op_ReturnTime a)) /\
  (forall i o t, h !! i = Some o -> op_ReturnTime o = Some t -> op_InvokeTime o <= t /\ out_Unknown (op_Output o) = false) /\
  (forall c, HasOutstanding c demo_recorder = true <-> exists i o, h !! i = Some o /\ op_ClientID o = c /\ op_ReturnTime o = None) /\
  (forall c seq, activeIndex c seq demo_recorder <> Err "panic: index out of range").
Proof. apply (recorder_sessions demo_recorder demo_recorder_reach). Defined.

Lemma partition_by_key_exact_witness :
  let h := getHistory demo_recorder in
  exists keys, NoDup keys /\ (forall k, k ∈ keys <-> exists o, o ∈ h /\ in_Key (op_Input o) = k) /\
    partitionEvents (PorcupineEvents h) = (fun k => events_of h k (PorcupineEvents h)) <$> keys.
Proof.
  apply (partition_by_key_exact (getHistory demo_recorder)).
  intros [|[|[|i]]] o t Ho Ht; vm_compute in Ho; simplify_eq; vm_compute in Ht; simplify_eq; simpl; lia.
Defined.

Example demo_events :
  (fun ev => (ev_Id ev, ev_Call ev)) <$> PorcupineEvents (getHistory demo_recorder) =
  [(0%nat, true); (1%nat, true); (0%nat, false); (2%nat, true); (2%nat, false); (1%nat, false)].
Proof. vm_compute. reflexivity. Qed.
