(* ===== verification/Manifest.v ===== *)
(** The manifest of the LSM engine (internal/lsm/manifest.go): version edits, their frames,
    replay, and the file operations that append to and load the manifest.

    [proto.Marshal] and [proto.Unmarshal] of a [VersionEdit] are the parameters [marshal]
    and [unmarshal].  The file system's answers during one call are a [ManifestFS] value;
    the manifest file is [None] when it does not exist, and a [file] of DiskLog.v (bytes
    written, bytes synced, name synced) otherwise. *)

From Stdlib Require Import Ascii.
From S2P Require Import Prelude Proto RaftLog RaftNode Storage Bytes WalRecords DiskLog MapSM.

Definition manifestFrameStart : Z := 250.
Definition manifestFrameEnd : Z := 251.
Definition manifestSymbolBase : Z := 64.
Definition manifestSymbolLimit : Z := 79.
Definition manifestHeaderSize : Z := 8.
Definition manifestMarkerBytes : Z := 2.
Definition manifestEncodedWidth : Z := 2.
Definition sstableFilenameSuffix : string := ".sst".

Definition ErrManifestCorrupt : error := "lsm: corrupt manifest".
Definition manifestCorrupt (what : error) : error := ErrManifestCorrupt +:+ ": " +:+ what.

(** * Data *)

(** [message AddedFile] and [message VersionEdit] of proto/lsm.proto. *)
Record AddedFile : Type := mkAddedFile {
  af_Tier : Z;
  af_File : string;
  af_MinKey : bytes;
  af_MaxKey : bytes;
  af_Count : Z;
}.

Record VersionEdit : Type := mkVersionEdit {
  ve_AddedFiles : list (option AddedFile);
  ve_RemovedFiles : list string;
  ve_FlushedIndex : Z;
}.

Record fileMetadata : Type := mkFileMetadata {
  fm_tier : Z;
  fm_file : string;
  fm_minKey : bytes;
  fm_maxKey : bytes;
  fm_count : Z;
}.

(** [fileMetadata.proto]. *)
Definition fm_proto (m : fileMetadata) : AddedFile :=
  mkAddedFile (fm_tier m) (fm_file m) (cloneBytes (fm_minKey m)) (cloneBytes (fm_maxKey m)) (fm_count m).

Record manifestState : Type := mkManifestState {
  mf_files : gmap string fileMetadata;
  mf_flushedIndex : Z;
  mf_records : Z;
}.

Definition newManifestState : manifestState := mkManifestState ∅ 0 0.

(** * Version edits *)

(** [strings.ContainsAny(name, "/\\\x00")]. *)
Fixpoint hasSeparator (name : string) : bool :=
  match name with
  | EmptyString => false
  | String c rest =>
      let n := Ascii.nat_of_ascii c in
      Nat.eqb n 47 || Nat.eqb n 92 || Nat.eqb n 0 || hasSeparator rest
  end.

(** [filepath.Base] and [filepath.Clean], which the code also compares with the name, are
    the identity on a non-empty name without separators, the only names they see. *)
Definition validateSSTableFilename (name : string) : option error :=
  if bool_decide (name = "") || bool_decide (name = ".") || hasSeparator name ||
     negb (bool_decide (is_Some (cutSuffix name sstableFilenameSuffix)))
  then Some "invalid SSTable filename" else None.

Fixpoint checkRemoved (files : gmap string fileMetadata) (names : list string) (removed : gset string)
    : result (gset string) :=
  match names with
  | [] => Ok removed
  | name :: names' =>
      match validateSSTableFilename name with
      | Some e => Err ("removed file: " +:+ e)
      | None =>
          if bool_decide (name ∈ removed) then Err "removed file appears twice"
          else if bool_decide (files !! name = None) then Err "removed file is not referenced"
          else checkRemoved files names' ({[ name ]} ∪ removed)
      end
  end.

Fixpoint checkAdded (files : gmap string fileMetadata) (removed : gset string) (fs : list (option AddedFile))
    (added : gmap string fileMetadata) : result (gmap string fileMetadata) :=
  match fs with
  | [] => Ok added
  | None :: _ => Err "nil added file"
  | Some f :: fs' =>
      let name := af_File f in
      match validateSSTableFilename name with
      | Some e => Err ("added file: " +:+ e)
      | None =>
          if bool_decide (is_Some (added !! name)) then Err "added file appears twice"
          else if bool_decide (name ∈ removed) then Err "file is both added and removed"
          else if bool_decide (is_Some (files !! name)) then Err "added file is already referenced"
          else if af_Count f =? 0 then Err "added file has zero entries"
          else if bytes_ltb (af_MaxKey f) (af_MinKey f) then Err "added file has min_key greater than max_key"
          else checkAdded files removed fs'
                 (<[name := mkFileMetadata (af_Tier f) name (cloneBytes (af_MinKey f)) (cloneBytes (af_MaxKey f)) (af_Count f)]> added)
      end
  end.

(** [apply]: the state is only changed after every check. *)
Definition applyEdit (edit : option VersionEdit) (state : manifestState) : result manifestState :=
  match edit with
  | None => Err "nil VersionEdit"
  | Some edit =>
      if ve_FlushedIndex edit <? mf_flushedIndex state then Err "flushed_index regresses"
      else if Nat.eqb (length (ve_AddedFiles edit)) 0 && Nat.eqb (length (ve_RemovedFiles edit)) 0 &&
              (ve_FlushedIndex edit =? mf_flushedIndex state)
      then Err "empty VersionEdit does not advance flushed_index"
      else
        removed <-r checkRemoved (mf_files state) (ve_RemovedFiles edit) ∅ ;
        added <-r checkAdded (mf_files state) removed (ve_AddedFiles edit) ∅ ;
        Ok (mkManifestState (added ∪ filter (fun p => p.1 ∉ removed) (mf_files state))
              (ve_FlushedIndex edit) (mf_records state +u 1))
  end.

(** * Symbols and sizes *)

Definition checkedManifestAdd (left right : Z) : option Z :=
  if max_u64 - left <? right then None else Some (left +u right).

Definition checkedManifestMul (left right : Z) : option Z :=
  if negb (left =? 0) && (max_u64 / left <? right) then None else Some (left *u right).

(** [strconv.IntSize] is 64. *)
Definition checkedManifestInt (size : Z) : result Z :=
  if max_i64 <? size then Err "lsm: size exceeds int" else Ok size.

Definition checkedManifestFrameSize (payloadSize : Z) : option Z :=
  match checkedManifestAdd manifestHeaderSize payloadSize with
  | None => None
  | Some body =>
      match checkedManifestMul body manifestEncodedWidth with
      | None => None
      | Some encoded => checkedManifestAdd manifestMarkerBytes encoded
      end
  end.

Definition isManifestSymbol (value : Byte.byte) : bool :=
  (manifestSymbolBase <=? Z_of_byte value) && (Z_of_byte value <=? manifestSymbolLimit).

Definition encodeManifestSymbols (dstLen : Z) (decoded : bytes) : result bytes :=
  match checkedManifestMul (Z.of_nat (length decoded)) manifestEncodedWidth with
  | Some want =>
      if negb (want =? dstLen) then Err "lsm: symbol buffer size"
      else Ok (concat ((fun value =>
        [byte_of_Z (manifestSymbolBase + Z.shiftr (Z_of_byte value) 4);
         byte_of_Z (manifestSymbolBase + Z.land (Z_of_byte value) 15)]) <$> decoded))
  | None => Err "lsm: symbol buffer size"
  end.

Fixpoint decodeManifestLoop (symbols : bytes) : result bytes :=
  match symbols with
  | high :: low :: rest =>
      if negb (isManifestSymbol high) then Err "invalid interior byte"
      else if negb (isManifestSymbol low) then Err "invalid interior byte"
      else
        bs <-r decodeManifestLoop rest ;
        Ok (byte_of_Z (Z.lor (Z.shiftl (Z_of_byte high - manifestSymbolBase) 4) (Z_of_byte low - manifestSymbolBase)) :: bs)
  | _ => Ok []
  end.

Definition decodeManifestSymbols (dstLen : Z) (symbols : bytes) : result bytes :=
  match checkedManifestMul dstLen manifestEncodedWidth with
  | Some want =>
      if negb (want =? Z.of_nat (length symbols)) then Err "interior symbol count" else decodeManifestLoop symbols
  | None => Err "interior symbol count"
  end.

(** The scan for the terminator. *)
Fixpoint scanManifest (k : nat) (rest : bytes) : scanned :=
  match rest with
  | [] => EndOfFile
  | symbol :: rest' =>
      if Z_of_byte symbol =? manifestFrameEnd then Terminator k
      else if Z_of_byte symbol =? manifestFrameStart then BadByte "start marker before terminator"
      else if negb (isManifestSymbol symbol) then BadByte "invalid interior byte"
      else scanManifest (S k) rest'
  end.

(** * The file system *)

(** What the file system answers during one operation; the flag of a close error says
    whether it is [ErrFSClosed]. *)
Record ManifestFS : Type := mkManifestFS {
  fs_stat : option error;
  fs_isDir : bool;
  fs_open : option error;
  fs_read : option error;
  fs_closeRead : option error;
  fs_create : option error;
  fs_openAppend : option error;
  fs_write : nat -> nat * option error;
  fs_truncate : option error;
  fs_sync : option error;
  fs_close : option (bool * error);
  fs_syncDir : option error;
}.

Definition fs_good : ManifestFS :=
  mkManifestFS None false None None None None None (fun k => (k, None)) None None None None.

(** The result of [appendManifestEdit]; [ap_uncertain] is [isUncertainManifestAppend] of
    the error. *)
Record appended : Type := mkAppended {
  ap_committed : bool;
  ap_unresolved : bool;
  ap_uncertain : bool;
  ap_err : option error;
}.

Section manifest.
Context (marshal : VersionEdit -> result bytes) (unmarshal : bytes -> option VersionEdit).

(** * Frames *)

Definition encodeManifestFrame (edit : option VersionEdit) : result bytes :=
  match edit with
  | None => Err "lsm: encode nil VersionEdit"
  | Some edit =>
      match marshal edit with
      | Err e => Err ("lsm: marshal VersionEdit: " +:+ e)
      | Ok payload =>
          let len := Z.of_nat (length payload) in
          if max_u32 <? len then Err "lsm: manifest payload overflows uint32"
          else
            match checkedManifestFrameSize len with
            | None => Err "lsm: manifest payload overflows frame size"
            | Some frameSize =>
                frameSizeInt <-r checkedManifestInt frameSize ;
                let header := le_put 4 len ++ le_put 4 (crc32c payload) in
                headerSymbols <-r encodeManifestSymbols (Z.of_nat (length header) * 2) header ;
                payloadSymbols <-r encodeManifestSymbols (frameSizeInt - 2 - Z.of_nat (length header) * 2) payload ;
                Ok (byte_of_Z manifestFrameStart :: headerSymbols ++ payloadSymbols ++ [byte_of_Z manifestFrameEnd])
            end
      end
  end.

Definition decodeManifestFrame (symbols : bytes) : result VersionEdit :=
  let symbolCount := Z.of_nat (length symbols) in
  if negb (symbolCount mod manifestEncodedWidth =? 0) then Err "odd interior symbol count"
  else
    let bodySize := symbolCount / manifestEncodedWidth in
    if bodySize <? manifestHeaderSize then Err "short decoded body"
    else
      match checkedManifestMul manifestHeaderSize manifestEncodedWidth with
      | None => Err "header symbol count overflow"
      | Some headerSymbols =>
          headerSymbolsInt <-r checkedManifestInt headerSymbols ;
          let hn := Z.to_nat headerSymbolsInt in
          header <-r decodeManifestSymbols 8 (take hn symbols) ;
          let payloadSize := le_get (take 4 header) in
          match checkedManifestAdd manifestHeaderSize payloadSize with
          | None => Err "decoded body size overflow"
          | Some wantBody =>
              if negb (bodySize =? wantBody) then Err "decoded body size does not match header plus payload"
              else
                payloadSizeInt <-r checkedManifestInt payloadSize ;
                payload <-r decodeManifestSymbols payloadSizeInt (drop hn symbols) ;
                if negb (le_get (drop 4 header) =? crc32c payload) then Err "crc32c mismatch"
                else match unmarshal payload with
                     | None => Err "unmarshal VersionEdit"
                     | Some edit => Ok edit
                     end
          end
      end.

(** The loop of [replayManifestBytes] over [data[offset:]]: the state, the end of the
    complete records and whether the tail is torn.  Every iteration consumes a record, so
    [length data] iterations and one more are enough. *)
Fixpoint replayManifestLoop (fuel : nat) (rest : bytes) (offset : nat) (state : manifestState)
    : result (manifestState * nat * bool) :=
  match fuel with
  | O => Err "out of fuel"
  | S fuel' =>
      match rest with
      | [] => Ok (state, offset, false)
      | b :: rest' =>
          if negb (Z_of_byte b =? manifestFrameStart) then Err (manifestCorrupt "byte at record boundary")
          else
            match scanManifest 0 rest' with
            | BadByte e => Err (manifestCorrupt e)
            | EndOfFile => Ok (state, offset, true)
            | Terminator k =>
                match decodeManifestFrame (take k rest') with
                | Err e => Err (manifestCorrupt e)
                | Ok edit =>
                    match applyEdit (Some edit) state with
                    | Err e => Err (manifestCorrupt ("invalid VersionEdit: " +:+ e))
                    | Ok state' => replayManifestLoop fuel' (drop (S k) rest') (offset + S (S k)) state'
                    end
                end
            end
      end
  end.

Definition replayManifestBytes (data : bytes) : result (manifestState * nat * bool) :=
  replayManifestLoop (S (length data)) data 0 newManifestState.

(** * Files *)

Definition createManifest (fs : ManifestFS) : option file * option error :=
  match fs_create fs with
  | Some e => (None, Some ("lsm: create manifest: " +:+ e))
  | None =>
      let f := mkFile [] 0 false in
      match fs_sync fs, fs_close fs, fs_syncDir fs with
      | Some e, _, _ => (Some f, Some ("lsm: sync new manifest: " +:+ e))
      | None, Some (_, e), _ => (Some f, Some ("lsm: close new manifest: " +:+ e))
      | None, None, Some e => (Some f, Some ("lsm: sync manifest directory: " +:+ e))
      | None, None, None => (Some (name_file f), None)
      end
  end.

Definition truncateManifest (fs : ManifestFS) (size : nat) (f : file) : file * option error :=
  match fs_openAppend fs with
  | Some e => (f, Some ("lsm: open manifest to trim torn tail: " +:+ e))
  | None =>
      match fs_truncate fs with
      | Some e => (f, Some ("lsm: truncate torn manifest tail: " +:+ e))
      | None =>
          let f1 := mkFile (take size (content f)) (Nat.min size (synced f)) (named f) in
          match fs_sync fs, fs_close fs with
          | Some e, _ => (f1, Some ("lsm: sync trimmed manifest: " +:+ e))
          | None, Some (_, e) => (sync_file f1, Some ("lsm: close trimmed manifest: " +:+ e))
          | None, None => (sync_file f1, None)
          end
      end
  end.

Definition syncManifest (fs : ManifestFS) (f : file) : file * option error :=
  match fs_openAppend fs with
  | Some e => (f, Some ("lsm: open recovered manifest for sync: " +:+ e))
  | None =>
      match fs_sync fs, fs_close fs with
      | Some e, _ => (f, Some ("lsm: recovery sync manifest: " +:+ e))
      | None, Some (_, e) => (sync_file f, Some ("lsm: close recovery-synced manifest: " +:+ e))
      | None, None => (sync_file f, None)
      end
  end.

Definition loadManifest (fs : ManifestFS) (manifest : option file) : option file * result manifestState :=
  match fs_stat fs, manifest with
  | Some e, _ => (manifest, Err ("lsm: stat manifest: " +:+ e))
  | None, None =>
      match createManifest fs with
      | (f, Some e) => (f, Err e)
      | (f, None) => (f, Ok newManifestState)
      end
  | None, Some f =>
      if fs_isDir fs then (Some f, Err (manifestCorrupt "invalid manifest stat"))
      else
        match checkedManifestInt (Z.of_nat (length (content f))) with
        | Err e => (Some f, Err (manifestCorrupt e))
        | Ok _ =>
            match fs_open fs, fs_read fs, fs_closeRead fs with
            | Some e, _, _ => (Some f, Err ("lsm: open manifest: " +:+ e))
            | None, Some e, _ => (Some f, Err ("lsm: read manifest: " +:+ e))
            | None, None, Some e => (Some f, Err ("lsm: close manifest: " +:+ e))
            | None, None, None =>
                match replayManifestBytes (content f) with
                | Err e => (Some f, Err e)
                | Ok (state, _, false) => (Some f, Ok state)
                | Ok (state, complete, true) =>
                    match truncateManifest fs complete f with
                    | (f', Some e) => (Some f', Err e)
                    | (f', None) => (Some f', Ok state)
                    end
                end
            end
        end
  end.

(** The part of [appendManifestEdit] after a failed write or sync. *)
Definition failAppend (fs : ManifestFS) (e : error) : appended :=
  mkAppended false (match fs_close fs with Some (false, _) => true | _ => false end) true (Some e).

Definition appendManifestEdit (fs : ManifestFS) (edit : option VersionEdit) (f : file) : file * appended :=
  match encodeManifestFrame edit with
  | Err e => (f, mkAppended false false false (Some e))
  | Ok frame =>
      match fs_openAppend fs with
      | Some e => (f, mkAppended false false false (Some ("lsm: open manifest for append: " +:+ e)))
      | None =>
          let '(written, writeErr) := fs_write fs (length frame) in
          let f1 := mkFile (content f ++ take written frame) (synced f) (named f) in
          match writeErr with
          | Some e => (f1, failAppend fs ("lsm: append manifest: " +:+ e))
          | None =>
              if negb (Nat.eqb written (length frame)) then (f1, failAppend fs "lsm: append manifest: short write")
              else
                match fs_sync fs with
                | Some e => (f1, failAppend fs ("lsm: sync manifest: " +:+ e))
                | None =>
                    match fs_close fs with
                    | Some (isClosed, e) =>
                        (sync_file f1, mkAppended true (negb isClosed) false (Some ("lsm: close synced manifest: " +:+ e)))
                    | None => (sync_file f1, mkAppended true false false None)
                    end
                end
          end
      end
  end.
End manifest.

Definition sortedManifestFiles (files : gmap string fileMetadata) : list fileMetadata :=
  omap (fun name => files !! name) (sort_by String.leb (map_to_list files).*1).
