(* ===== verification/ManifestFacts.v ===== *)
(** What the manifest promises: an edit is applied whole or not at all and keeps the
    files' metadata well-formed, frames read back, a manifest cut at any byte replays to a
    prefix of its edits, and a crash during an append leaves the state before or after the
    edit, after it once the append was reported committed. *)

From Stdlib Require Import Ascii.
From S2P Require Import Prelude Proto RaftLog RaftNode Storage Bytes WalRecords DiskLog DiskLogFacts MapSM Manifest.

(** * Edits *)

Definition metadata_ok (name : string) (m : fileMetadata) : Prop :=
  fm_file m = name /\ validateSSTableFilename name = None /\ fm_count m <> 0 /\ ~ bytes_lt (fm_maxKey m) (fm_minKey m).

(** The files of a manifest: each under its own valid name, not empty, keys in order. *)
Definition manifest_ok (state : manifestState) : Prop := map_Forall metadata_ok (mf_files state).

(** The metadata of the files an edit adds. *)
Definition metadata_of (f : AddedFile) : fileMetadata :=
  mkFileMetadata (af_Tier f) (af_File f) (af_MinKey f) (af_MaxKey f) (af_Count f).

Definition added_map (fs : list (option AddedFile)) : gmap string fileMetadata :=
  list_to_map ((fun f => (af_File f, metadata_of f)) <$> omap id fs).

Lemma checkRemoved_ok files names removed res :
  checkRemoved files names removed = Ok res ->
  res = list_to_set names ∪ removed /\ (forall n, n ∈ names -> is_Some (files !! n)).
Proof.
  revert removed. induction names as [|n names IH]; intros removed H; cbn [checkRemoved] in H.
  { apply Ok_inj in H as <-. split; [set_solver|by intros n ?%elem_of_nil]. }
  destruct (validateSSTableFilename n); [done|]. repeat case_bool; try done. bool_to_prop.
  apply IH in H as [-> Hall]. split; [set_solver|]. intros m [->|Hm]%elem_of_cons; [|by apply Hall].
  destruct (files !! n); [done|congruence].
Qed.

Lemma checkAdded_ok files removed fs added res :
  checkAdded files removed fs added = Ok res -> map_Forall metadata_ok added ->
  res = added_map fs ∪ added /\ map_Forall metadata_ok res /\
  (forall n, n ∈ dom (added_map fs) -> files !! n = None /\ n ∉ removed /\ added !! n = None).
Proof.
  revert added. induction fs as [|[f|] fs IH]; intros added H Hok; cbn [checkAdded] in H; [|cbv zeta in H|done].
  { apply Ok_inj in H as <-. unfold added_map. simpl. rewrite (left_id_L ∅ (∪)). split_and!; [done|done|].
    intros n. by rewrite dom_empty_L, elem_of_empty. }
  destruct (validateSSTableFilename (af_File f)) eqn:Ev; [done|]. repeat case_bool; try done. bool_to_prop.
  assert (added !! af_File f = None) as Ea by (apply eq_None_not_Some; congruence).
  assert (files !! af_File f = None) as Ef by (apply eq_None_not_Some; congruence).
  fold (metadata_of f) in H. unfold cloneBytes in H. apply IH in H as (-> & Hres & Hn); last first.
  { apply map_Forall_insert_2; [|done]. split_and!; [done|done|done|]. simpl.
    rewrite <- bytes_ltb_spec. congruence. }
  assert (added_map (Some f :: fs) = <[af_File f := metadata_of f]> (added_map fs)) as -> by done.
  assert (added_map fs !! af_File f = None) as Efs.
  { apply not_elem_of_dom. intros Hin. destruct (Hn _ Hin) as (_ & _ & Hx). by rewrite lookup_insert_eq in Hx. }
  split_and!; [|done|].
  - rewrite <- insert_union_l. symmetry. apply insert_union_r. done.
  - intros n. rewrite dom_insert_L, elem_of_union, elem_of_singleton. intros [->|Hin]; [done|].
    destruct (Hn _ Hin) as (? & ? & Hx). split_and!; [done|done|].
    destruct (decide (n = af_File f)) as [->|Hne]; [done|]. by rewrite lookup_insert_ne in Hx.
Qed.

Lemma applyEdit_ok edit state state' :
  applyEdit (Some edit) state = Ok state' -> manifest_ok state ->
  manifest_ok state' /\
  mf_files state' = added_map (ve_AddedFiles edit) ∪ filter (fun p => p.1 ∉ ve_RemovedFiles edit) (mf_files state) /\
  mf_flushedIndex state' = ve_FlushedIndex edit /\ mf_flushedIndex state <= ve_FlushedIndex edit /\
  (forall n, n ∈ ve_RemovedFiles edit -> is_Some (mf_files state !! n)) /\
  (forall n, n ∈ dom (added_map (ve_AddedFiles edit)) -> mf_files state !! n = None).
Proof.
  intros H Hok. unfold applyEdit in H. destruct (Z.ltb_spec (ve_FlushedIndex edit) (mf_flushedIndex state)); [done|].
  destruct (_ && _); [done|].
  destruct (checkRemoved _ _ _) as [removed|] eqn:Er; [|done]. cbn [rbind] in H.
  destruct (checkAdded _ _ _ _) as [added|] eqn:Ea; [|done]. cbn [rbind] in H. apply Ok_inj in H as <-.
  apply checkRemoved_ok in Er as [-> Hr]. apply checkAdded_ok in Ea as (-> & Hadd & Hn); [|apply map_Forall_empty].
  rewrite (right_id_L ∅ (∪)) in *. cbn [mf_files mf_flushedIndex].
  assert (filter (fun p => p.1 ∉ (list_to_set (ve_RemovedFiles edit) : gset string)) (mf_files state) =
          filter (fun p => p.1 ∉ ve_RemovedFiles edit) (mf_files state)) as Ef.
  { apply map_filter_ext. intros n m _. simpl. by rewrite elem_of_list_to_set. }
  rewrite (right_id_L ∅ (∪)) in *. split_and!; [| |done|lia|done|].
  - unfold manifest_ok. cbn [mf_files]. intros n m [Hm|[_ Hm]]%lookup_union_Some_raw; [by apply Hadd in Hm|].
    apply map_lookup_filter_Some in Hm as [Hm _]. by apply Hok in Hm.
  - f_equal. rewrite <- Ef. done.
  - intros n Hin. by apply (Hn n Hin).
Qed.

(** * Symbols *)

(** The manifest's symbol coding is that of the write-ahead log. *)
Lemma encodeManifestSymbols_ok n xs ys : encodeManifestSymbols n xs = Ok ys -> ys = encodeLoop xs.
Proof. unfold encodeManifestSymbols. intros H. repeat case_match; simplify_eq. done. Qed.

Lemma decodeManifestLoop_eq t : decodeManifestLoop t = decodeLoop t.
Proof. reflexivity. Qed.

Lemma decodeManifestSymbols_ok n xs :
  Z.of_nat (length xs) = n -> n <= max_u32 -> decodeManifestSymbols n (encodeLoop xs) = Ok xs.
Proof.
  intros Hl Hn. rewrite <- (decodeSymbols_ok n xs Hl Hn). unfold decodeManifestSymbols, decodeSymbols.
  change checkedManifestMul with checkedMulUint64. change manifestEncodedWidth with encodedByteWidth.
  rewrite decodeManifestLoop_eq. done.
Qed.

Lemma scanManifest_terminator k t rest :
  symbols t -> scanManifest k (t ++ end_byte :: rest) = Terminator (k + length t).
Proof.
  revert k. induction t as [|b t IH]; intros k Ht; cbn [app scanManifest length].
  { unfold end_byte. rewrite Z_of_byte_of_Z. simpl. f_equal. lia. }
  apply Forall_cons in Ht as [Hb Ht]. change (isManifestSymbol b) with (isFrameSymbol b). rewrite Hb. apply isFrameSymbol_spec in Hb.
  unfold manifestFrameEnd, manifestFrameStart. rewrite (proj2 (Z.eqb_neq _ 251)), (proj2 (Z.eqb_neq _ 250)) by lia.
  cbn [negb]. rewrite IH by done. f_equal. lia.
Qed.

Lemma scanManifest_eof k t : symbols t -> scanManifest k t = EndOfFile.
Proof.
  revert k. induction t as [|b t IH]; intros k Ht; cbn [scanManifest]; [done|].
  apply Forall_cons in Ht as [Hb Ht]. change (isManifestSymbol b) with (isFrameSymbol b). rewrite Hb. apply isFrameSymbol_spec in Hb.
  unfold manifestFrameEnd, manifestFrameStart. rewrite (proj2 (Z.eqb_neq _ 251)), (proj2 (Z.eqb_neq _ 250)) by lia.
  by apply IH.
Qed.

(** * Frames *)

Lemma checkedAdd_small a b : 0 <= a -> 0 <= b -> a + b <= max_u64 -> checkedAddUint64 a b = Some (a + b).
Proof. intros. apply checkedAdd_some; unfold is_u64; lia. Qed.

Lemma checkedMul_small a b : 0 <= a -> 0 <= b <= max_u64 -> a <= max_u64 -> a * b <= max_u64 -> checkedMulUint64 a b = Some (a * b).
Proof. intros. apply checkedMul_some; unfold is_u64; lia. Qed.

(** Edits that protobuf carries: fields in range, no nil file. *)
Definition edit_fits (e : VersionEdit) : Prop :=
  is_u64 (ve_FlushedIndex e) /\
  Forall (fun f => exists g, f = Some g /\ 0 <= af_Tier g <= max_u32 /\ is_u64 (af_Count g)) (ve_AddedFiles e).

Section frames.
Context (marshal : VersionEdit -> result bytes) (unmarshal : bytes -> option VersionEdit).

Definition edit_payload (e : VersionEdit) : bytes := match marshal e with Ok b => b | Err _ => [] end.

Definition edit_body (e : VersionEdit) : bytes :=
  let p := edit_payload e in le_put 4 (Z.of_nat (length p)) ++ le_put 4 (crc32c p) ++ p.

Definition edit_frame (e : VersionEdit) : bytes := start_byte :: encodeLoop (edit_body e) ++ [end_byte].

Definition edit_frames (es : list VersionEdit) : bytes := concat (edit_frame <$> es).

(** Edits [encodeManifestFrame] accepts. *)
Definition edit_storable (e : VersionEdit) : Prop :=
  edit_fits e /\ (exists b, marshal e = Ok b) /\ Z.of_nat (length (edit_payload e)) <= max_u32.

Lemma encodeManifestFrame_ok e frame :
  edit_fits e -> encodeManifestFrame marshal (Some e) = Ok frame -> edit_storable e /\ frame = edit_frame e.
Proof.
  unfold encodeManifestFrame, edit_storable, edit_frame, edit_body, edit_payload. intros He H.
  destruct (marshal e) as [p|]; [|done]. destruct (Z.ltb_spec max_u32 (Z.of_nat (length p))); [done|].
  destruct (checkedManifestFrameSize _); [|done]. destruct (checkedManifestInt z); [|done]. cbn [rbind] in H.
  destruct (encodeManifestSymbols _ (_ ++ _)) as [hsym|] eqn:E1; [|done]. cbn [rbind] in H.
  destruct (encodeManifestSymbols _ p) as [psym|] eqn:E2; [|done]. cbn [rbind] in H. apply Ok_inj in H as <-.
  apply encodeManifestSymbols_ok in E1 as ->. apply encodeManifestSymbols_ok in E2 as ->.
  split; [eauto|]. rewrite app_assoc, encodeLoop_app, <- app_assoc. done.
Qed.

(** [encodeManifestFrame] refuses no edit whose payload fits its length field. *)
Lemma encodeManifestFrame_total e :
  edit_storable e -> encodeManifestFrame marshal (Some e) = Ok (edit_frame e).
Proof.
  intros Hs. pose proof Hs as (He & (b & Hb) & Hlen).
  assert (exists frame, encodeManifestFrame marshal (Some e) = Ok frame) as [frame E].
  { unfold edit_payload in Hlen. rewrite Hb in Hlen. unfold encodeManifestFrame. rewrite Hb.
    rewrite (proj2 (Z.ltb_ge _ _)) by done. unfold checkedManifestFrameSize.
    change checkedManifestAdd with checkedAddUint64. change checkedManifestMul with checkedMulUint64.
    unfold manifestHeaderSize, manifestEncodedWidth, manifestMarkerBytes, max_u32 in *.
    rewrite checkedAdd_small, checkedMul_small, checkedAdd_small by (unfold max_u64; lia).
    unfold checkedManifestInt. rewrite (proj2 (Z.ltb_ge _ _)) by (unfold max_i64; lia). cbn [rbind]. cbv zeta.
    set (hd := le_put 4 _ ++ le_put 4 _). assert (length hd = 8%nat) as -> by (unfold hd; by rewrite length_app, !length_le_put).
    unfold encodeManifestSymbols. change checkedManifestMul with checkedMulUint64. unfold manifestEncodedWidth.
    assert (length hd = 8%nat) as -> by (unfold hd; by rewrite length_app, !length_le_put).
    change (checkedMulUint64 (Z.of_nat 8) 2) with (Some 16). cbn [Z.of_nat].
    change (negb (16 =? Z.of_nat 8 * 2)) with false. cbn [rbind].
    rewrite checkedMul_small by (unfold max_u64; lia).
    rewrite (proj2 (Z.eqb_eq _ _)) by lia. cbn [negb rbind]. eauto. }
  rewrite E. apply encodeManifestFrame_ok in E as [_ ->]; done.
Qed.

(** [proto.Unmarshal] reads back what [proto.Marshal] wrote. *)
Context (unmarshal_marshal : forall e b, edit_fits e -> marshal e = Ok b -> unmarshal b = Some e).

Lemma decodeManifestFrame_ok e :
  edit_storable e -> decodeManifestFrame unmarshal (encodeLoop (edit_body e)) = Ok e.
Proof using unmarshal_marshal.
  intros (Hr & (b & Hb) & Hlen). pose proof (unmarshal_marshal e b Hr Hb) as Hu.
  unfold decodeManifestFrame, edit_body. assert (edit_payload e = b) as Ep by (unfold edit_payload; by rewrite Hb).
  rewrite Ep in *. set (hd := le_put 4 (Z.of_nat (length b)) ++ le_put 4 (crc32c b)).
  assert (length hd = 8%nat) as Ehd by (unfold hd; by rewrite length_app, !length_le_put).
  rewrite app_assoc. fold hd.
  rewrite length_encodeLoop, length_app, Ehd. unfold manifestEncodedWidth, manifestHeaderSize.
  replace (Z.of_nat (2 * (8 + length b))) with ((8 + Z.of_nat (length b)) * 2) by lia.
  rewrite Z.mod_mul, Z.div_mul by lia. cbn [negb Z.eqb].
  rewrite (proj2 (Z.ltb_ge _ _)) by lia.
  change (checkedManifestMul 8 2) with (Some 16). cbv beta iota.
  change (checkedManifestInt 16) with (Ok 16). cbn [rbind]. change (Z.to_nat 16) with 16%nat.
  rewrite encodeLoop_app, take_app_length', drop_app_length' by (rewrite length_encodeLoop, Ehd; done).
  rewrite decodeManifestSymbols_ok by (rewrite ?Ehd; done). cbn [rbind].
  assert (le_get (take 4 hd) = Z.of_nat (length b)) as ->.
  { unfold hd. rewrite take_app_length' by (by rewrite length_le_put).
    apply le_get_put_id. change (256 ^ Z.of_nat 4) with (max_u32 + 1). lia. }
  assert (le_get (drop 4 hd) = crc32c b) as ->.
  { unfold hd. rewrite drop_app_length' by (by rewrite length_le_put). apply crc32c_get_put. }
  change checkedManifestAdd with checkedAddUint64.
  assert (checkedAddUint64 8 (Z.of_nat (length b)) = Some (8 + Z.of_nat (length b))) as ->
    by (unfold max_u32 in Hlen; apply checkedAdd_some; unfold is_u64, max_u64; lia).
  rewrite Z.eqb_refl. cbn [negb]. unfold checkedManifestInt.
  rewrite (proj2 (Z.ltb_ge _ _)) by (unfold max_u32, max_i64 in *; lia).
  cbn [rbind]. rewrite decodeManifestSymbols_ok by done. cbn [rbind].
  rewrite Z.eqb_refl. cbn [negb]. by rewrite Hu.
Qed.

(** * Replay *)

Fixpoint applyEdits (es : list VersionEdit) (state : manifestState) : result manifestState :=
  match es with
  | [] => Ok state
  | e :: es' => state' <-r applyEdit (Some e) state ; applyEdits es' state'
  end.

Lemma applyEdits_app es es' state :
  applyEdits (es ++ es') state = (state' <-r applyEdits es state ; applyEdits es' state').
Proof.
  revert state. induction es as [|e es IH]; intros state; cbn [app applyEdits rbind]; [done|].
  destruct (applyEdit _ state); cbn [rbind]; [apply IH|done].
Qed.

Lemma edit_frames_cons e es : edit_frames (e :: es) = edit_frame e ++ edit_frames es.
Proof. done. Qed.

Lemma edit_frames_app es es' : edit_frames (es ++ es') = edit_frames es ++ edit_frames es'.
Proof. unfold edit_frames. by rewrite fmap_app, concat_app. Qed.

Lemma length_edit_frame e : length (edit_frame e) = (2 + length (encodeLoop (edit_body e)))%nat.
Proof. unfold edit_frame. cbn [length]. rewrite length_app. simpl. lia. Qed.

Lemma replayManifestLoop_frames es t fuel off state state' :
  Forall edit_storable es -> torn_frame t -> applyEdits es state = Ok state' ->
  (length (edit_frames es ++ t) < fuel)%nat ->
  replayManifestLoop unmarshal fuel (edit_frames es ++ t) off state =
    Ok (state', (off + length (edit_frames es))%nat, negb (Nat.eqb (length t) 0)).
Proof using unmarshal_marshal.
  intros Hs Ht. revert fuel off state. induction es as [|e es IH]; intros fuel off state Hm Hlen.
  { simpl in *. apply Ok_inj in Hm as <-. destruct fuel; [lia|]. cbn [replayManifestLoop].
    destruct Ht as [->|(t' & -> & Hsy)]; [do 3 f_equal; simpl; lia|].
    unfold start_byte at 1. rewrite Z_of_byte_of_Z. change (negb (frameStart mod 256 =? manifestFrameStart)) with false.
    cbn iota. rewrite scanManifest_eof by done. simpl. do 3 f_equal. lia. }
  apply Forall_cons in Hs as [He Hs]. rewrite edit_frames_cons, <- app_assoc in *. unfold edit_frame in *.
  destruct fuel as [|fuel]; [lia|]. cbn [app replayManifestLoop].
  replace (negb (Z_of_byte start_byte =? manifestFrameStart)) with false
    by (unfold start_byte; by rewrite Z_of_byte_of_Z).
  rewrite <- app_assoc. cbn [app]. rewrite scanManifest_terminator by apply encode_symbols. cbn [Nat.add].
  rewrite take_app_length, decodeManifestFrame_ok by done.
  cbn [applyEdits] in Hm. destruct (applyEdit _ state) as [s1|]; [|done]. cbn [rbind] in Hm.
  rewrite drop_past. rewrite IH; [|done..|].
  - do 3 f_equal. cbn [length]. rewrite !length_app. cbn [length]. lia.
  - rewrite !length_app in Hlen. cbn [length app] in Hlen. rewrite !length_app in *. simpl in *. lia.
Qed.

Lemma replayManifestBytes_frames es t state' :
  Forall edit_storable es -> torn_frame t -> applyEdits es newManifestState = Ok state' ->
  replayManifestBytes unmarshal (edit_frames es ++ t) =
    Ok (state', length (edit_frames es), negb (Nat.eqb (length t) 0)).
Proof using unmarshal_marshal. intros. unfold replayManifestBytes. by rewrite (replayManifestLoop_frames es t _ 0 _ state') by (done || lia). Qed.

(** A cut of one frame. *)
Lemma take_edit_frame e k :
  (k < length (edit_frame e))%nat -> torn_frame (take k (edit_frame e)).
Proof using.
  rewrite length_edit_frame. unfold edit_frame. intros Hk. destruct k as [|k]; [by left|]. right.
  exists (take k (encodeLoop (edit_body e))). cbn [take]. rewrite take_app_le by lia. split; [done|].
  apply Forall_take, encode_symbols.
Qed.
End frames.

(** * Crashes *)

(** What a crash leaves of a file whose name is durable: at least the synced bytes, and
    any part of the bytes written after them. *)
Definition survives (f f' : file) : Prop :=
  exists n, (synced f <= n)%nat /\ f' = mkFile (take n (content f)) (synced f `min` n) (named f).

Lemma survives_synced f f' : synced f = length (content f) -> survives f f' -> content f' = content f.
Proof. intros Hs (n & Hn & ->). simpl. apply take_ge. lia. Qed.

Section crash.
Context (marshal : VersionEdit -> result bytes) (unmarshal : bytes -> option VersionEdit).
Context (unmarshal_marshal : forall e b, edit_fits e -> marshal e = Ok b -> unmarshal b = Some e).

(** A manifest file that holds the edits [es] and nothing else. *)
Definition holds (f : file) (es : list VersionEdit) (state : manifestState) : Prop :=
  Forall (edit_storable marshal) es /\ content f = edit_frames marshal es /\ applyEdits es newManifestState = Ok state.

(** Loading a manifest whose tail may be torn. *)
Lemma loadManifest_torn f es t state :
  Forall (edit_storable marshal) es -> content f = edit_frames marshal es ++ t -> torn_frame t ->
  applyEdits es newManifestState = Ok state -> Z.of_nat (length (content f)) <= max_i64 ->
  exists f', loadManifest unmarshal fs_good (Some f) = (Some f', Ok state) /\ holds f' es state.
Proof using unmarshal_marshal.
  intros Hs Hc Ht Ha Hlen. unfold loadManifest. cbn [fs_good fs_stat fs_isDir fs_open fs_read fs_closeRead].
  unfold checkedManifestInt. rewrite (proj2 (Z.ltb_ge _ _)) by done. rewrite Hc.
  rewrite (replayManifestBytes_frames marshal unmarshal unmarshal_marshal es t state) by done.
  destruct t as [|b t]; cbn [length Nat.eqb negb].
  - exists f. split; [done|]. split_and!; [done|by rewrite Hc, app_nil_r|done].
  - eexists. split; [done|]. split_and!; [done| |done]. cbn [content sync_file]. by rewrite Hc, take_app_length.
Qed.

Lemma append_states fs e f f1 a :
  edit_fits e -> appendManifestEdit marshal fs (Some e) f = (f1, a) ->
  (f1 = f /\ ap_committed a = false /\ ap_uncertain a = false) \/
  (edit_storable marshal e /\ exists k, content f1 = content f ++ take k (edit_frame marshal e) /\
     synced f1 = synced f /\ named f1 = named f /\ ap_committed a = false /\ ap_uncertain a = true) \/
  (edit_storable marshal e /\ content f1 = content f ++ edit_frame marshal e /\ synced f1 = length (content f1) /\
     named f1 = named f /\ ap_committed a = true /\ ap_uncertain a = false).
Proof using.
  intros He H. unfold appendManifestEdit in H. destruct (encodeManifestFrame marshal (Some e)) as [frame|] eqn:Ef; [|by simplify_eq; left].
  apply encodeManifestFrame_ok in Ef as [Hs ->]; [|done].
  destruct (fs_openAppend fs); [by simplify_eq; left|]. right.
  destruct (fs_write fs _) as [k [m|]]; [simplify_eq; left; eauto 10|].
  destruct (Nat.eqb_spec k (length (edit_frame marshal e))) as [Ek|]; cbn [negb] in H; [|simplify_eq; left; eauto 10].
  destruct (fs_sync fs); [simplify_eq; left; eauto 10|]. right. split; [done|].
  rewrite (take_ge (edit_frame marshal e)) in H by lia. destruct (fs_close fs) as [[]|]; simplify_eq; done.
Qed.

Lemma applyEdits_snoc es e state state' :
  applyEdits es newManifestState = Ok state -> applyEdit (Some e) state = Ok state' ->
  applyEdits (es ++ [e]) newManifestState = Ok state'.
Proof using. intros H1 H2. rewrite applyEdits_app, H1. cbn [rbind applyEdits]. by rewrite H2. Qed.

Lemma edit_frames_snoc es e : edit_frames marshal (es ++ [e]) = edit_frames marshal es ++ edit_frame marshal e.
Proof using. rewrite edit_frames_app. unfold edit_frames at 2. simpl. by rewrite app_nil_r. Qed.

Lemma crash_append_recovers fs es e f f1 f2 a state state' :
  holds f es state -> synced f = length (content f) -> edit_fits e -> applyEdit (Some e) state = Ok state' ->
  appendManifestEdit marshal fs (Some e) f = (f1, a) -> survives f1 f2 ->
  Z.of_nat (length (content f2)) <= max_i64 ->
  exists f3 state3, loadManifest unmarshal fs_good (Some f2) = (Some f3, Ok state3) /\
    ((state3 = state' /\ holds f3 (es ++ [e]) state') \/
     (state3 = state /\ holds f3 es state /\ ap_committed a = false)).
Proof using unmarshal_marshal.
  intros (Hst & Hc & Ha) Hsy He Hap H Hsv Hlen.
  destruct (append_states _ _ _ _ _ He H) as [(-> & Hcm & _)|[(Hs & k & Hc1 & Hs1 & _ & Hcm & _)|(Hs & Hc1 & Hs1 & _)]].
  - destruct (loadManifest_torn f2 es [] state) as (f3 & E & Hh); [done| |by left|done|done|].
    + by rewrite app_nil_r, (survives_synced f f2).
    + exists f3, state. auto.
  - destruct Hsv as (n & Hn & ->). cbn [content] in Hlen. rewrite Hs1, Hsy in Hn.
    assert (exists j, take n (content f1) = edit_frames marshal es ++ take j (edit_frame marshal e)) as [j Ej].
    { rewrite Hc1. rewrite take_app_ge by lia. rewrite take_take, Hc. eauto. }
    destruct (decide (j < length (edit_frame marshal e))%nat) as [Hj|Hj].
    + destruct (loadManifest_torn (mkFile (take n (content f1)) (synced f1 `min` n) (named f1)) es (take j (edit_frame marshal e)) state)
        as (f3 & E & Hh); [done|done|by apply take_edit_frame|done|done|]. exists f3, state. auto.
    + rewrite (take_ge (edit_frame marshal e)) in Ej by lia. rewrite <- edit_frames_snoc in Ej.
      destruct (loadManifest_torn (mkFile (take n (content f1)) (synced f1 `min` n) (named f1)) (es ++ [e]) [] state')
        as (f3 & E & Hh); [apply Forall_app; auto|by rewrite app_nil_r|by left|by eapply applyEdits_snoc|done|]. exists f3, state'. auto.
  - destruct (loadManifest_torn f2 (es ++ [e]) [] state') as (f3 & E & Hh); [apply Forall_app; auto| |by left|by eapply applyEdits_snoc|done|].
    + rewrite app_nil_r, (survives_synced f1 f2), Hc1, Hc by done. by rewrite edit_frames_snoc.
    + exists f3, state'. auto.
Qed.

(** C32. Appending to the manifest is atomic across a crash: whatever the file system
    answered to the append of an edit, and whatever part of the unsynced bytes survives,
    loading the manifest succeeds and yields the state before or after the edit, after it
    if the append was reported committed; the loaded file holds exactly the edits of that
    state, and syncing it restores the situation the theorem starts from. *)
Theorem manifest_crash_atomic fs es e f f1 f2 a state state' :
  holds f es state -> synced f = length (content f) -> edit_fits e -> applyEdit (Some e) state = Ok state' ->
  appendManifestEdit marshal fs (Some e) f = (f1, a) -> survives f1 f2 ->
  Z.of_nat (length (content f2)) <= max_i64 ->
  exists f3 state3 es3, loadManifest unmarshal fs_good (Some f2) = (Some f3, Ok state3) /\
    ((state3 = state' /\ es3 = es ++ [e]) \/ (state3 = state /\ es3 = es /\ ap_committed a = false)) /\
    holds (syncManifest fs_good f3).1 es3 state3 /\
    synced (syncManifest fs_good f3).1 = length (content (syncManifest fs_good f3).1).
Proof using unmarshal_marshal.
  intros Hh Hsy He Hap H Hsv Hlen.
  destruct (crash_append_recovers fs es e f f1 f2 a state state') as (f3 & state3 & E & [[-> Hh3]|(-> & Hh3 & Hcm)]); [done..| |].
  - exists f3, state', (es ++ [e]). split_and!; [done|by left|done|done].
  - exists f3, state, es. split_and!; [done|by right|done|done].
Qed.

(** C33. A manifest cut at any byte replays to a prefix of its edits: the complete frames
    are applied in order, the offset reported is their end, and the torn flag says
    whether bytes of an unfinished frame follow; the bytes of complete edits are never
    dropped. *)
Theorem manifest_prefix_replay es k state :
  Forall (edit_storable marshal) es -> applyEdits es newManifestState = Ok state ->
  exists j statej, (j <= length es)%nat /\ applyEdits (take j es) newManifestState = Ok statej /\
    replayManifestBytes unmarshal (take k (edit_frames marshal es)) =
      Ok (statej, length (edit_frames marshal (take j es)),
          negb (Nat.eqb (length (take k (edit_frames marshal es))) (length (edit_frames marshal (take j es))))) /\
    ((length (edit_frames marshal es) <= k)%nat -> j = length es) /\
    (forall i, (i <= length es)%nat -> (length (edit_frames marshal (take i es)) <= k)%nat -> (i <= j)%nat).
Proof using unmarshal_marshal.
  intros Hs Ha.
  assert (exists j t, (j <= length es)%nat /\ take k (edit_frames marshal es) = edit_frames marshal (take j es) ++ t /\
    torn_frame t /\ (forall i, (i <= length es)%nat -> (length (edit_frames marshal (take i es)) <= k)%nat -> (i <= j)%nat))
    as (j & t & Hj & Et & Ht & Hmax).
  { clear Hs Ha. revert k. induction es as [|e es IH]; intros k.
    { exists 0%nat, []. split_and!; [simpl; lia|by destruct k|by left|simpl; lia]. }
    rewrite edit_frames_cons. destruct (decide (k < length (edit_frame marshal e))%nat) as [Hlt|Hge].
    - exists 0%nat, (take k (edit_frame marshal e)). split_and!; [lia|by rewrite take_app_le by lia|by apply take_edit_frame|].
      intros [|i] _ Hi; [lia|]. cbn [take] in Hi. rewrite edit_frames_cons, length_app in Hi. lia.
    - destruct (IH (k - length (edit_frame marshal e))%nat) as (j & t & Hj & Et & Ht & Hmax).
      exists (S j), t. split_and!; [simpl; lia| |done|].
      + rewrite take_app_ge, Et by lia. cbn [take]. rewrite edit_frames_cons. by rewrite app_assoc.
      + intros [|i] Hi Hl; [lia|]. cbn [take] in Hl. rewrite edit_frames_cons, length_app in Hl.
        specialize (Hmax i). simpl in Hi. lia. }
  rewrite <- (take_drop j es), applyEdits_app in Ha. destruct (applyEdits (take j es) newManifestState) as [sj|] eqn:Ej; [|done].
  exists j, sj. rewrite Et. rewrite (replayManifestBytes_frames marshal unmarshal unmarshal_marshal (take j es) t sj) by
    (first [by apply Forall_take|done]).
  split_and!; [done|done| | |done].
  - do 3 f_equal. rewrite length_app. destruct (Nat.eqb_spec (length t) 0); symmetry; [apply Nat.eqb_eq|apply Nat.eqb_neq]; lia.
  - intros Hk. specialize (Hmax (length es)). rewrite take_ge in Hmax by lia. lia.
Qed.
End crash.

(** A version edit is applied whole and keeps the manifest well-formed: the files
    afterwards are the files added and the files before less the ones removed, every
    removed file was referenced and no added file was; every file is kept under its own
    valid name, is not empty and has its keys in order; and the flushed index never
    regresses. *)
Theorem manifest_edit_invariant es e state state' :
  applyEdits es newManifestState = Ok state -> applyEdit (Some e) state = Ok state' ->
  manifest_ok state /\ manifest_ok state' /\
  mf_files state' = added_map (ve_AddedFiles e) ∪ filter (fun p => p.1 ∉ ve_RemovedFiles e) (mf_files state) /\
  mf_flushedIndex state <= mf_flushedIndex state' /\ mf_flushedIndex state' = ve_FlushedIndex e /\
  (forall n, n ∈ ve_RemovedFiles e -> is_Some (mf_files state !! n)) /\
  (forall n, n ∈ dom (added_map (ve_AddedFiles e)) -> mf_files state !! n = None).
Proof.
  intros Hes He.
  assert (manifest_ok state) as Hok.
  { assert (manifest_ok newManifestState) as H0 by (apply map_Forall_empty). revert H0 Hes. generalize newManifestState as s0.
    induction es as [|x es IH]; intros s0 H0 Hes; cbn [applyEdits] in Hes; [by apply Ok_inj in Hes as <-|].
    destruct (applyEdit (Some x) s0) as [s1|] eqn:E; [|done]. apply (IH s1); [|done]. by apply applyEdit_ok in E as [? _]. }
  destruct (applyEdit_ok _ _ _ He Hok) as (H1 & H2 & H3 & H4 & H5 & H6). rewrite H3. done.
Qed.

