(* ===== verification/ManifestRuns.v ===== *)
(** Concrete runs of the manifest, with [proto.Marshal] instantiated by a function that
    numbers the edits: an append that a crash tears, and a replay of a cut manifest. *)

From stdpp Require Import countable.
From S2P Require Import Prelude Proto RaftLog RaftNode Storage Bytes WalRecords DiskLog DiskLogFacts DiskRuns MapSM Manifest ManifestFacts.

#[local] Instance AddedFile_countable_eq : EqDecision AddedFile.
Proof. solve_decision. Defined.
#[local] Instance AddedFile_countable : Countable AddedFile.
Proof.
  refine (inj_countable' (fun f => (af_Tier f, af_File f, af_MinKey f, af_MaxKey f, af_Count f))
    (fun '(t, n, a, b, c) => mkAddedFile t n a b c) _).
  by intros [].
Defined.

#[local] Instance VersionEdit_eq : EqDecision VersionEdit.
Proof. solve_decision. Defined.
#[local] Instance VersionEdit_countable : Countable VersionEdit.
Proof.
  refine (inj_countable' (fun e => (ve_AddedFiles e, ve_RemovedFiles e, ve_FlushedIndex e))
    (fun '(a, r, i) => mkVersionEdit a r i) _).
  by intros [].
Defined.

Definition demo_edit_marshal (e : VersionEdit) : result bytes := Ok (number_bytes (encode e)).
Definition demo_edit_unmarshal (b : bytes) : option VersionEdit := decode (Z.to_pos (le_get b)).

Lemma demo_edit_reads_back e b : edit_fits e -> demo_edit_marshal e = Ok b -> demo_edit_unmarshal b = Some e.
Proof.
  intros _ H. apply Ok_inj in H as <-. unfold demo_edit_unmarshal. rewrite get_number. apply countable.decode_encode.
Qed.

Definition edit_a : VersionEdit := mkVersionEdit [Some (mkAddedFile 0 "a.sst" [Byte.x61] [Byte.x62] 2)] [] 5.
Definition edit_b : VersionEdit := mkVersionEdit [Some (mkAddedFile 1 "b.sst" [Byte.x61] [Byte.x63] 3)] ["a.sst"] 5.

Definition state_a : manifestState :=
  mkManifestState {[ "a.sst" := mkFileMetadata 0 "a.sst" [Byte.x61] [Byte.x62] 2 ]} 5 1.
Definition state_b : manifestState :=
  mkManifestState {[ "b.sst" := mkFileMetadata 1 "b.sst" [Byte.x61] [Byte.x63] 3 ]} 5 2.

Lemma apply_a : applyEdits [edit_a] newManifestState = Ok state_a.
Proof. vm_compute. reflexivity. Qed.
Lemma apply_b : applyEdit (Some edit_b) state_a = Ok state_b.
Proof. vm_compute. reflexivity. Qed.

Lemma edit_a_fits : edit_fits edit_a.
Proof. split; [unfold is_u64, max_u64; simpl; lia|]. repeat constructor. eexists. split; [done|]. unfold is_u64, max_u64, max_u32. simpl. lia. Qed.
Lemma edit_b_fits : edit_fits edit_b.
Proof. split; [unfold is_u64, max_u64; simpl; lia|]. repeat constructor. eexists. split; [done|]. unfold is_u64, max_u64, max_u32. simpl. lia. Qed.

Lemma edit_a_storable : edit_storable demo_edit_marshal edit_a.
Proof. split; [apply edit_a_fits|]. split; [by eexists|]. vm_compute. done. Qed.
Lemma edit_b_storable : edit_storable demo_edit_marshal edit_b.
Proof. split; [apply edit_b_fits|]. split; [by eexists|]. vm_compute. done. Qed.

Definition manifest_a : file :=
  let c := edit_frames demo_edit_marshal [edit_a] in mkFile c (length c) true.

(** The append of [edit_b] writes everything, but the sync fails. *)
Definition fs_sync_fails : ManifestFS :=
  mkManifestFS None false None None None None None (fun k => (k, None)) None (Some "io error") None None.

Definition torn_manifest : file := (appendManifestEdit demo_edit_marshal fs_sync_fails (Some edit_b) manifest_a).1.
Definition survivor : file :=
  mkFile (take (length (content manifest_a) + 5) (content torn_manifest)) (length (content manifest_a)) true.

Lemma manifest_crash_atomic_witness :
  exists f3 state3 es3, loadManifest demo_edit_unmarshal fs_good (Some survivor) = (Some f3, Ok state3) /\
    ((state3 = state_b /\ es3 = [edit_a] ++ [edit_b]) \/
     (state3 = state_a /\ es3 = [edit_a] /\
      ap_committed (appendManifestEdit demo_edit_marshal fs_sync_fails (Some edit_b) manifest_a).2 = false)) /\
    holds demo_edit_marshal (syncManifest fs_good f3).1 es3 state3 /\
    synced (syncManifest fs_good f3).1 = length (content (syncManifest fs_good f3).1).
Proof.
  apply (manifest_crash_atomic demo_edit_marshal demo_edit_unmarshal demo_edit_reads_back fs_sync_fails
    [edit_a] edit_b manifest_a torn_manifest survivor _ state_a state_b).
  - split; [apply Forall_singleton, edit_a_storable|split; [reflexivity|exact apply_a]].
  - reflexivity.
  - exact edit_b_fits.
  - exact apply_b.
  - unfold torn_manifest. by destruct (appendManifestEdit _ _ _ _).
  - exists (length (content manifest_a) + 5)%nat. split; [vm_compute; lia|]. vm_compute. reflexivity.
  - vm_compute. discriminate.
Defined.

Lemma manifest_prefix_replay_witness :
  exists j statej, (j <= length [edit_a; edit_b])%nat /\ applyEdits (take j [edit_a; edit_b]) newManifestState = Ok statej /\
    replayManifestBytes demo_edit_unmarshal (take 200 (edit_frames demo_edit_marshal [edit_a; edit_b])) =
      Ok (statej, length (edit_frames demo_edit_marshal (take j [edit_a; edit_b])),
          negb (Nat.eqb (length (take 200 (edit_frames demo_edit_marshal [edit_a; edit_b])))
                        (length (edit_frames demo_edit_marshal (take j [edit_a; edit_b]))))) /\
    ((length (edit_frames demo_edit_marshal [edit_a; edit_b]) <= 200)%nat -> j = length [edit_a; edit_b]) /\
    (forall i, (i <= length [edit_a; edit_b])%nat ->
       (length (edit_frames demo_edit_marshal (take i [edit_a; edit_b])) <= 200)%nat -> (i <= j)%nat).
Proof.
  apply (manifest_prefix_replay demo_edit_marshal demo_edit_unmarshal demo_edit_reads_back [edit_a; edit_b] 200 state_b).
  - apply Forall_cons. split; [apply edit_a_storable|apply Forall_singleton, edit_b_storable].
  - vm_compute. reflexivity.
Defined.

Lemma manifest_edit_invariant_witness :
  manifest_ok state_a /\ manifest_ok state_b /\
  mf_files state_b = added_map (ve_AddedFiles edit_b) ∪ filter (fun p => p.1 ∉ ve_RemovedFiles edit_b) (mf_files state_a) /\
  mf_flushedIndex state_a <= mf_flushedIndex state_b /\ mf_flushedIndex state_b = ve_FlushedIndex edit_b /\
  (forall n, n ∈ ve_RemovedFiles edit_b -> is_Some (mf_files state_a !! n)) /\
  (forall n, n ∈ dom (added_map (ve_AddedFiles edit_b)) -> mf_files state_a !! n = None).
Proof. apply (manifest_edit_invariant [edit_a] edit_b state_a state_b apply_a apply_b). Defined.
