(* ===== verification/Heap.v ===== *)
(** The binary heap that the compaction merge keeps in a slice (push and pop of
    internal/lsm/compaction.go), for any comparison, and its invariant: every element is
    not less than its parent, so the first one is a minimum. *)

From S2P Require Import Prelude.

Section heap.
Context {A : Type} (less : A -> A -> bool).

(** [h[i], h[j] = h[j], h[i]]. *)
Definition swapAt (i j : nat) (h : list A) : list A :=
  match h !! i, h !! j with
  | Some a, Some b => <[i := b]> (<[j := a]> h)
  | _, _ => h
  end.

(** The loop of [push]; the index decreases, so its value bounds the iterations. *)
Fixpoint siftUp (fuel index : nat) (h : list A) : list A :=
  match fuel with
  | O => h
  | S fuel' =>
      if Nat.eqb index 0 then h
      else
        let parent := Nat.div2 (index - 1) in
        match h !! index, h !! parent with
        | Some a, Some p => if negb (less a p) then h else siftUp fuel' parent (swapAt index parent h)
        | _, _ => h
        end
  end.

Definition heap_push (item : A) (h : list A) : list A :=
  let h' := h ++ [item] in siftUp (length h') (length h' - 1) h'.

(** The loop of [pop]; the index grows, so the length bounds the iterations. *)
Fixpoint siftDown (fuel index : nat) (h : list A) : list A :=
  match fuel with
  | O => h
  | S fuel' =>
      let left := (index * 2 + 1)%nat in
      if Nat.leb (length h) left then h
      else
        let right := (left + 1)%nat in
        let smallest := match h !! right, h !! left with
                        | Some r, Some l => if less r l then right else left
                        | _, _ => left
                        end in
        match h !! smallest, h !! index with
        | Some s, Some a => if negb (less s a) then h else siftDown fuel' smallest (swapAt index smallest h)
        | _, _ => h
        end
  end.

(** [pop]: the first item and the heap without it; [None] is the index panic. *)
Definition heap_pop (h : list A) : option (A * list A) :=
  match h with
  | [] => None
  | item :: _ =>
      let lastIx := (length h - 1)%nat in
      match h !! lastIx with
      | None => None
      | Some l => let h' := take lastIx (<[0%nat := l]> h) in Some (item, siftDown (length h') 0 h')
      end
  end.

(** * Permutations *)

Lemma swapAt_lookup i j h k :
  (i < length h)%nat -> (j < length h)%nat ->
  swapAt i j h !! k = if decide (k = i) then h !! j else if decide (k = j) then h !! i else h !! k.
Proof using.
  intros Hi Hj. unfold swapAt. destruct (lookup_lt_is_Some_2 h i Hi) as [a Ea], (lookup_lt_is_Some_2 h j Hj) as [b Eb].
  rewrite Ea, Eb. destruct (decide (k = i)) as [->|]; [by rewrite list_lookup_insert_eq by (by rewrite length_insert)|].
  rewrite list_lookup_insert_ne by done. destruct (decide (k = j)) as [->|]; [by rewrite list_lookup_insert_eq|].
  by rewrite list_lookup_insert_ne.
Qed.

Lemma length_swapAt i j h : length (swapAt i j h) = length h.
Proof using. unfold swapAt. repeat case_match; by rewrite ?length_insert. Qed.

Lemma insert_perm (h : list A) i x y : h !! i = Some y -> x :: h ≡ₚ y :: <[i := x]> h.
Proof using.
  intros Hi. pose proof (lookup_lt_Some _ _ _ Hi). rewrite insert_take_drop by done.
  rewrite <- (take_drop_middle h i y Hi) at 1. solve_Permutation.
Qed.

Lemma swapAt_perm i j h : swapAt i j h ≡ₚ h.
Proof using.
  unfold swapAt. destruct (h !! i) as [a|] eqn:Ea, (h !! j) as [b|] eqn:Eb; try done.
  destruct (decide (i = j)) as [->|Hne].
  { assert (a = b) as -> by congruence. rewrite list_insert_insert_eq. by rewrite list_insert_id. }
  apply (Permutation_cons_inv (a := a)). transitivity (b :: <[j := a]> h).
  - rewrite (insert_perm (<[j := a]> h) i b a); [done|]. by rewrite list_lookup_insert_ne.
  - symmetry. by apply insert_perm.
Qed.

Lemma siftUp_perm fuel index h : siftUp fuel index h ≡ₚ h.
Proof using.
  revert index h. induction fuel as [|fuel IH]; intros index h; cbn [siftUp]; [done|].
  repeat case_match; try done. by rewrite IH, swapAt_perm.
Qed.

Lemma siftDown_perm fuel index h : siftDown fuel index h ≡ₚ h.
Proof using.
  revert index h. induction fuel as [|fuel IH]; intros index h; cbn [siftDown]; [done|].
  destruct (Nat.leb _ _); [done|]. cbv zeta. destruct (h !! _) as [s|]; [|done]. destruct (h !! index); [|done].
  destruct (negb _); [done|]. by rewrite IH, swapAt_perm.
Qed.

Lemma heap_push_perm item h : heap_push item h ≡ₚ item :: h.
Proof using. unfold heap_push. rewrite siftUp_perm. solve_Permutation. Qed.

Lemma heap_pop_perm h item h' : heap_pop h = Some (item, h') -> h ≡ₚ item :: h'.
Proof using.
  destruct h as [|x h]; [done|]. unfold heap_pop. cbn [length]. rewrite Nat.sub_succ, Nat.sub_0_r.
  destruct ((x :: h) !! length h) as [l|] eqn:El; [|done]. intros [= <- <-]. rewrite siftDown_perm. cbn [insert list_insert].
  destruct h as [|y h] using rev_ind; [done|]. rewrite length_app in *. cbn [length] in *. rewrite Nat.add_1_r in *.
  cbn [take]. rewrite take_app_length. change ((h ++ [y]) !! length h = Some l) in El. rewrite list_lookup_middle in El by done.
  injection El as ->. rewrite Permutation_app_comm. done.
Qed.

Lemma heap_pop_total h : h <> [] -> is_Some (heap_pop h).
Proof using.
  intros Hne. destruct h as [|x h]; [done|]. unfold heap_pop.
  destruct (lookup_lt_is_Some_2 (x :: h) (length (x :: h) - 1)) as [l ->]; [simpl; lia|]. eauto.
Qed.

(** * The invariant *)

Definition parentOf (j : nat) : nat := Nat.div2 (j - 1).

Lemma parent_lt j : (0 < j)%nat -> (parentOf j < j)%nat.
Proof using. intros Hj. unfold parentOf. pose proof (Nat.div2_div (j - 1)). pose proof (Nat.div_mod (j - 1) 2). lia. Qed.

Lemma children j i : (0 < j)%nat -> parentOf j = i <-> (j = i * 2 + 1 \/ j = i * 2 + 2)%nat.
Proof using.
  intros Hj. unfold parentOf. pose proof (Nat.div2_div (j - 1)) as E. pose proof (Nat.div_mod (j - 1) 2).
  pose proof (Nat.mod_upper_bound (j - 1) 2). split; [lia|]. intros. rewrite E.
  destruct H1; subst j; symmetry; [apply (Nat.div_unique _ _ _ 0)|apply (Nat.div_unique _ _ _ 1)]; lia.
Qed.

Definition not_less (a b : A) : Prop := less b a = false.

(** Every edge of the heap is ordered, but perhaps the one into [i]; the edges into the
    children of [i] are ordered from the parent of [i]. *)
Definition up_inv (h : list A) (i : nat) : Prop :=
  (forall j a p, (0 < j)%nat -> j <> i -> h !! j = Some a -> h !! parentOf j = Some p -> not_less p a) /\
  (forall j a g, (0 < i)%nat -> (0 < j)%nat -> parentOf j = i -> h !! j = Some a -> h !! parentOf i = Some g -> not_less g a).

(** Every edge is ordered, but perhaps the ones out of [i]. *)
Definition down_inv (h : list A) (i : nat) : Prop :=
  (forall j a p, (0 < j)%nat -> parentOf j <> i -> h !! j = Some a -> h !! parentOf j = Some p -> not_less p a) /\
  (forall j a g, (0 < i)%nat -> (0 < j)%nat -> parentOf j = i -> h !! j = Some a -> h !! parentOf i = Some g -> not_less g a).

Definition heap_ok (h : list A) : Prop :=
  forall j a p, (0 < j)%nat -> h !! j = Some a -> h !! parentOf j = Some p -> not_less p a.

Context (less_asym : forall a b, less a b = true -> less b a = false).
Context (not_less_trans : forall a b c, not_less a b -> not_less b c -> not_less a c).

Lemma not_less_of a b : less a b = true -> not_less a b.
Proof using less_asym. apply less_asym. Qed.

Lemma up_step h i a p :
  (0 < i)%nat -> h !! i = Some a -> h !! parentOf i = Some p -> less a p = true -> up_inv h i ->
  up_inv (swapAt i (parentOf i) h) (parentOf i).
Proof using less_asym not_less_trans.
  intros Hi Ea Ep Hlt [He Hg]. pose proof (parent_lt i Hi) as Hp. apply lookup_lt_Some in Ea as Li.
  set (q := parentOf i) in *. assert (q < length h)%nat as Lq by lia.
  assert (forall k, swapAt i q h !! k = if decide (k = i) then Some p else if decide (k = q) then Some a else h !! k) as Hs
    by (intros k; rewrite swapAt_lookup, Ea, Ep by done; done).
  split.
  - intros j x y Hj Hjq. rewrite !Hs. pose proof (parent_lt j Hj). intros Ex Ey.
    destruct (decide (j = i)) as [->|Hji].
    + fold q in Ey. destruct (decide (q = i)); [lia|]. rewrite decide_True in Ey by done. simplify_eq. by apply not_less_of.
    + destruct (decide (j = q)); [done|]. destruct (decide (parentOf j = i)) as [Epi|].
      { simplify_eq. by eapply (Hg j). }
      destruct (decide (parentOf j = q)) as [Epq|]; [|by eapply (He j)].
      simplify_eq. eapply not_less_trans; [by apply not_less_of|]. eapply (He j); [done|done|done|]. by rewrite Epq.
  - intros j x g Hq Hj Hpj. rewrite !Hs. pose proof (parent_lt q Hq). intros Ex Eg.
    rewrite decide_False in Eg by lia. rewrite decide_False in Eg by lia.
    assert (not_less g p) as Hgp by (eapply (He q); [done|lia|done|done]).
    pose proof (parent_lt j Hj). destruct (decide (j = i)) as [->|]; [by simplify_eq|]. rewrite decide_False in Ex by lia.
    eapply not_less_trans; [exact Hgp|]. eapply (He j); [done|done|done|]. by rewrite Hpj.
Qed.

Lemma siftUp_ok fuel i h :
  (i <= fuel)%nat -> (i < length h)%nat -> up_inv h i -> heap_ok (siftUp fuel i h).
Proof using less_asym not_less_trans.
  revert i h. induction fuel as [|fuel IH]; intros i h Hf Hl Hu; cbn [siftUp].
  { intros j a p Hj. apply (proj1 Hu j a p); [done|lia]. }
  destruct (Nat.eqb_spec i 0) as [->|Hi]; [intros j a p Hj; apply (proj1 Hu j a p); [done|lia]|].
  fold (parentOf i). pose proof (parent_lt i ltac:(lia)).
  destruct (lookup_lt_is_Some_2 h i Hl) as [a Ea]. destruct (lookup_lt_is_Some_2 h (parentOf i)) as [p Ep]; [lia|].
  rewrite Ea, Ep. destruct (less a p) eqn:Elt; cbn [negb].
  - apply IH; [lia|rewrite length_swapAt; lia|]. by eapply up_step; [lia|..].
  - intros j x y Hj Ex Ey. destruct (decide (j = i)) as [->|]; [|by eapply (proj1 Hu j)]. simplify_eq. done.
Qed.

Lemma heap_push_ok item h : heap_ok h -> heap_ok (heap_push item h).
Proof using less_asym not_less_trans.
  intros Hh. unfold heap_push. rewrite length_app. cbn [length]. rewrite Nat.add_sub.
  apply siftUp_ok; [lia|rewrite length_app; simpl; lia|]. split.
  - intros j a p Hj Hne Ea Ep. pose proof (parent_lt j Hj). apply lookup_lt_Some in Ea as La. rewrite length_app in La. simpl in La.
    rewrite lookup_app_l in Ea, Ep by lia. by eapply Hh.
  - intros j a g Hi Hj Hpj Ea _. pose proof (parent_lt j Hj). apply lookup_lt_Some in Ea as La. rewrite length_app in La. simpl in La. lia.
Qed.

(** The child that [siftDown] compares with. *)
Lemma down_child h i (left := (i * 2 + 1)%nat) :
  (left < length h)%nat ->
  let smallest := match h !! (left + 1)%nat, h !! left with Some r, Some l => if less r l then (left + 1)%nat else left | _, _ => left end in
  (smallest = left \/ smallest = (left + 1)%nat) /\ (smallest < length h)%nat /\
  forall s j a, h !! smallest = Some s -> (0 < j)%nat -> parentOf j = i -> h !! j = Some a -> not_less s a.
Proof using less_asym.
  intros Hl. destruct (lookup_lt_is_Some_2 h left Hl) as [l El]. rewrite El.
  assert (forall a, not_less a a) as Hrefl by (intros a; unfold not_less; destruct (less a a) eqn:E; [|done]; by apply less_asym in E as E2; congruence).
  destruct (h !! (left + 1)%nat) as [r|] eqn:Er; [destruct (less r l) eqn:Elt|]; cbv zeta.
  - split_and!; [by right|by apply lookup_lt_Some in Er|]. intros s j a Es Hj Hp Ea. apply children in Hp; [|done].
    destruct Hp as [->| ->].
    + fold left in Ea. simplify_eq. by apply not_less_of.
    + replace (i * 2 + 2)%nat with (left + 1)%nat in Ea by (unfold left; lia). simplify_eq. apply Hrefl.
  - split_and!; [by left|done|]. intros s j a Es Hj Hp Ea. apply children in Hp; [|done].
    destruct Hp as [->| ->].
    + fold left in Ea. simplify_eq. apply Hrefl.
    + replace (i * 2 + 2)%nat with (left + 1)%nat in Ea by (unfold left; lia). simplify_eq. done.
  - split_and!; [by left|done|]. intros s j a Es Hj Hp Ea. apply children in Hp; [|done].
    destruct Hp as [->| ->].
    + fold left in Ea. simplify_eq. apply Hrefl.
    + replace (i * 2 + 2)%nat with (left + 1)%nat in Ea by (unfold left; lia). congruence.
Qed.

Lemma down_step h i c s a :
  (0 < c)%nat -> parentOf c = i -> h !! c = Some s -> h !! i = Some a -> less s a = true ->
  (forall j x, (0 < j)%nat -> parentOf j = i -> h !! j = Some x -> not_less s x) -> down_inv h i ->
  down_inv (swapAt i c h) c.
Proof using less_asym not_less_trans.
  intros Hc Hpc Es Ea Hlt Hmin [He Hg]. pose proof (parent_lt c Hc) as Hci. rewrite Hpc in Hci.
  apply lookup_lt_Some in Es as Lc. apply lookup_lt_Some in Ea as Li.
  assert (forall k, swapAt i c h !! k = if decide (k = i) then Some s else if decide (k = c) then Some a else h !! k) as Hs
    by (intros k; rewrite swapAt_lookup, Ea, Es by done; done).
  split.
  - intros j x y Hj Hjc. rewrite !Hs. pose proof (parent_lt j Hj). intros Ex Ey. rewrite (decide_False (P := parentOf j = c)) in Ey by done.
    destruct (decide (parentOf j = i)) as [Epi|Hpi].
    + simplify_eq. rewrite decide_False in Ex by lia.
      destruct (decide (j = c)) as [->|]; [simplify_eq; by apply not_less_of|by eapply Hmin].
    + destruct (decide (j = i)) as [->|]; [simplify_eq|].
      * eapply (Hg c _ y); [lia|done|done|done|done].
      * rewrite decide_False in Ex by congruence. by eapply (He j).
  - intros j x g _ Hj Hpj. rewrite !Hs. pose proof (parent_lt j Hj). intros Ex Eg. rewrite Hpc, decide_True in Eg by done. simplify_eq.
    rewrite decide_False in Ex by lia. rewrite decide_False in Ex by lia. eapply (He j); [done|lia|done|done].
Qed.

Lemma siftDown_ok fuel i h :
  (length h <= i + fuel)%nat -> (h = [] \/ (i < length h)%nat) -> down_inv h i -> heap_ok (siftDown fuel i h).
Proof using less_asym not_less_trans.
  revert i h. induction fuel as [|fuel IH]; intros i h Hf Hl Hd; cbn [siftDown].
  { destruct Hl as [->|Hl]; [by intros j a p|lia]. }
  destruct (Nat.leb_spec (length h) (i * 2 + 1)) as [Hge|Hlt].
  { intros j a p Hj Ea Ep. apply lookup_lt_Some in Ea as La. eapply (proj1 Hd j); [done| |done|done].
    intros Hp. apply children in Hp; [|done]. lia. }
  destruct Hl as [->|Hl]; [simpl in Hlt; lia|].
  destruct (down_child h i Hlt) as (Hor & Lc & Hmin). set (c := match h !! _ with Some _ => _ | None => _ end) in *. clearbody c.
  cbv zeta. destruct (lookup_lt_is_Some_2 h c Lc) as [s Es]. destruct (lookup_lt_is_Some_2 h i Hl) as [a Ea]. rewrite Es, Ea.
  assert (0 < c)%nat as Hc by lia. assert (parentOf c = i) as Hpc by (apply children; [done|lia]).
  destruct (less s a) eqn:Els; cbn [negb].
  - apply IH; [rewrite length_swapAt; pose proof (parent_lt c Hc); lia|right; by rewrite length_swapAt|].
    eapply down_step; eauto.
  - intros j x y Hj Ex Ey. destruct (decide (parentOf j = i)) as [Hp|Hp]; [|by eapply (proj1 Hd j)].
    rewrite Hp in Ey. simplify_eq. eapply not_less_trans; [exact Els|]. by eapply Hmin.
Qed.

Lemma heap_pop_ok h item h' : heap_ok h -> heap_pop h = Some (item, h') -> heap_ok h'.
Proof using less_asym not_less_trans.
  intros Hh H. destruct h as [|x h]; [done|]. unfold heap_pop in H. cbn [length] in H. rewrite Nat.sub_succ, Nat.sub_0_r in H.
  destruct ((x :: h) !! length h) as [l|] eqn:El; [|done]. injection H as <- <-. cbn [insert list_insert].
  assert (forall j a, (0 < j)%nat -> take (length h) (l :: h) !! j = Some a -> (x :: h) !! j = Some a) as Hold.
  { intros j a Hj Ea. apply lookup_take_Some in Ea as [Ea _]. destruct j; [lia|done]. }
  apply siftDown_ok; [lia| |].
  - destruct h; [by left|]. right. rewrite length_take. simpl. lia.
  - split; [|intros; lia]. intros j a p Hj Hp Ea Ep. apply Hold in Ea; [|done]. apply Hold in Ep; [|lia]. by eapply Hh.
Qed.

(** The first item is a minimum. *)
Lemma heap_min h item j a : heap_ok h -> h !! 0%nat = Some item -> h !! j = Some a -> not_less item a.
Proof using less_asym not_less_trans.
  intros Hh H0. revert a. induction j as [j IH] using lt_wf_ind. intros a Ea.
  destruct (decide (j = 0)%nat) as [->|Hj].
  - assert (a = item) as -> by congruence. unfold not_less. destruct (less item item) eqn:E; [|done]. apply less_asym in E as E2. congruence.
  - pose proof (parent_lt j ltac:(lia)). apply lookup_lt_Some in Ea as La.
    destruct (lookup_lt_is_Some_2 h (parentOf j)) as [p Ep]; [lia|].
    eapply not_less_trans; [by eapply IH|]. by eapply (Hh j); [lia|..].
Qed.

Lemma heap_pop_min h item h' : heap_ok h -> heap_pop h = Some (item, h') -> forall a, a ∈ h -> not_less item a.
Proof using less_asym not_less_trans.
  intros Hh H a [j Ea]%list_elem_of_lookup. eapply heap_min; [done| |done].
  destruct h as [|x h]; [done|]. unfold heap_pop in H. destruct ((x :: h) !! _); [|done]. by injection H as <- _.
Qed.
End heap.
