(* ===== verification/Merge.v ===== *)
(** The merge of compaction (internal/lsm/compaction.go): the size classes, the iterator
    over one table, and the k-way merge over a heap of table heads. *)

From S2P Require Import Prelude Bytes Bloom SSTable Heap.

Definition compactionFanIn : nat := 4.
Definition sizeClassGrowth : Z := 4.
Definition sizeClassBaseBytes : Z := dataBlockTarget.

(** The loop of [tableSizeClass]; the boundary grows fourfold and stops below [MaxInt64],
    so 64 iterations are enough: see [tableSizeClass_bounds]. *)
Fixpoint sizeClassLoop (fuel : nat) (size class boundary : Z) : Z :=
  match fuel with
  | O => class
  | S fuel' =>
      if size <? boundary then class
      else
        let class' := class + 1 in
        if max_i64 / sizeClassGrowth <? boundary then class' else sizeClassLoop fuel' size class' (boundary * sizeClassGrowth)
  end.

Definition tableSizeClass (size : Z) : Z :=
  if size <? sizeClassBaseBytes then 0 else sizeClassLoop 64 size 1 (sizeClassBaseBytes * sizeClassGrowth).

Definition cloneTableEntry (e : TableEntry) : TableEntry :=
  mkTableEntry (cloneBytes (te_Key e)) (te_Seq e) (cloneBytes (te_Value e)) (te_Tombstone e).

Definition sameTableRecord (left right : TableEntry) : bool :=
  Bool.eqb (te_Tombstone left) (te_Tombstone right) &&
  (te_Tombstone left || bool_decide (te_Value left = te_Value right)).

(** * The iterator over one table *)

Record sstableEntryIterator : Type := mkIterator {
  it_reader : SSTableReader;
  it_block : nat;
  it_entries : list TableEntry;
  it_entry : nat;
  it_seen : Z;
  it_firstKey : option bytes;
  it_lastKey : option bytes;
  it_done : bool;
}.

Definition newSSTableEntryIterator (reader : SSTableReader) : sstableEntryIterator :=
  mkIterator reader 0 [] 0 0 None None false.

Definition firstKeyOf (es : list TableEntry) : bytes := match head es with Some e => te_Key e | None => [] end.
Definition lastKeyOf (es : list TableEntry) : bytes := match last es with Some e => te_Key e | None => [] end.

(** Loading the next block: [Ok None] at the end of the table. *)
Definition it_load (it : sstableEntryIterator) : result (option sstableEntryIterator) :=
  match sr_index (it_reader it) !! it_block it with
  | None =>
      if negb (it_seen it =? sr_entryCount (it_reader it)) then Err (corruptf "iterator entry count")
      else if negb (it_seen it =? 0) &&
              (negb (bool_decide (default [] (it_firstKey it) = sr_minKey (it_reader it))) ||
               negb (bool_decide (default [] (it_lastKey it) = sr_maxKey (it_reader it))))
      then Err (corruptf "iterator key bounds do not match footer")
      else Ok None
  | Some index =>
      es <-r readRecords (it_reader it) index ;
      let ordered := match it_lastKey it, es with
                     | Some l, e0 :: _ => bytes_ltb l (te_Key e0)
                     | _, _ => true
                     end in
      if negb ordered then Err (corruptf "records out of order or same key spans data blocks")
      else
        match checkBloomKeys (sr_bloom (it_reader it)) es with
        | None => Err "panic: index out of range"
        | Some false => Err (corruptf "bloom false negative for stored key")
        | Some true =>
            Ok (Some (mkIterator (it_reader it) (S (it_block it)) es 0 (it_seen it)
                        (match it_firstKey it with Some k => Some k | None => Some (cloneBytes (firstKeyOf es)) end)
                        (Some (cloneBytes (lastKeyOf es))) (it_done it)))
        end
  end.

(** The entry under the cursor. *)
Definition it_take (it : sstableEntryIterator) : sstableEntryIterator * result (option TableEntry) :=
  match it_entries it !! it_entry it with
  | None => (it, Err "panic: index out of range")
  | Some e =>
      let it' := mkIterator (it_reader it) (it_block it) (it_entries it) (S (it_entry it)) (it_seen it +u 1)
                   (it_firstKey it) (it_lastKey it) (it_done it) in
      if sr_entryCount (it_reader it) <? it_seen it' then (it', Err (corruptf "iterator produced more records than footer count"))
      else (it', Ok (Some (cloneTableEntry e)))
  end.

(** [Next]; a block that was loaded is not empty, so the loop loads at most one. *)
Definition it_Next (it : sstableEntryIterator) : sstableEntryIterator * result (option TableEntry) :=
  if it_done it then (it, Ok None)
  else if Nat.eqb (it_entry it) (length (it_entries it)) then
    let ended := Nat.eqb (it_block it) (length (sr_index (it_reader it))) in
    let it1 := mkIterator (it_reader it) (it_block it) (it_entries it) (it_entry it) (it_seen it)
                 (it_firstKey it) (it_lastKey it) ended in
    match it_load it with
    | Err m => (it1, Err m)
    | Ok None => (it1, Ok None)
    | Ok (Some it') => it_take it'
    end
  else it_take it.

(** * The merge *)

Record mergeHeapItem : Type := mkHeapItem {
  mi_entry : TableEntry;
  mi_input : nat;
}.

Definition mergeHeapLess (left right : mergeHeapItem) : bool :=
  match bytes_compare (te_Key (mi_entry left)) (te_Key (mi_entry right)) with
  | Lt => true
  | Gt => false
  | Eq =>
      if negb (te_Seq (mi_entry left) =? te_Seq (mi_entry right))
      then te_Seq (mi_entry right) <? te_Seq (mi_entry left)
      else Nat.ltb (mi_input left) (mi_input right)
  end.

Section merge.
(** The interface [tableEntryIterator]. *)
Context {It : Type} (next : It -> It * result (option TableEntry)).

Record kWayMergeIterator : Type := mkMerge {
  km_inputs : list It;
  km_heap : list mergeHeapItem;
}.

(** [inputs[i].Next()], its item pushed when there is one. *)
Definition advanceInput (i : nat) (it : kWayMergeIterator) : kWayMergeIterator * option error :=
  match km_inputs it !! i with
  | None => (it, Some "panic: index out of range")
  | Some source =>
      let '(source', r) := next source in
      let inputs := <[i := source']> (km_inputs it) in
      match r with
      | Err m => (mkMerge inputs (km_heap it), Some m)
      | Ok None => (mkMerge inputs (km_heap it), None)
      | Ok (Some e) => (mkMerge inputs (heap_push mergeHeapLess (mkHeapItem e i) (km_heap it)), None)
      end
  end.

(** The loop of [newKWayMergeIterator] over the inputs from [i] on. *)
Fixpoint startInputs (n i : nat) (it : kWayMergeIterator) : result kWayMergeIterator :=
  match n with
  | O => Ok it
  | S n' =>
      match advanceInput i it with
      | (_, Some m) => Err ("lsm: initialize merge input: " +:+ m)
      | (it', None) => startInputs n' (S i) it'
      end
  end.

Definition newKWayMergeIterator (inputs : list It) : result kWayMergeIterator :=
  startInputs (length inputs) 0 (mkMerge inputs []).

(** The loop of [Next] over the versions of [key]: every iteration takes one record from
    the inputs, so [fuel] records are enough. *)
Fixpoint drainKey (fuel : nat) (key : bytes) (winner : option TableEntry) (versions : gmap Z TableEntry)
    (it : kWayMergeIterator) : kWayMergeIterator * result (option TableEntry) :=
  match head (km_heap it) with
  | None => (it, Ok winner)
  | Some top =>
      if negb (bool_decide (te_Key (mi_entry top) = key)) then (it, Ok winner)
      else
        match fuel with
        | O => (it, Err "out of fuel")
        | S fuel' =>
            match heap_pop mergeHeapLess (km_heap it) with
            | None => (it, Err "panic: index out of range")
            | Some (item, heap') =>
                let candidate := mi_entry item in
                let it1 := mkMerge (km_inputs it) heap' in
                let conflict := match versions !! te_Seq candidate with
                                | Some prior => negb (sameTableRecord candidate prior)
                                | None => false
                                end in
                if conflict then (it1, Err (lsm_ErrCorrupt +:+ ": conflicting versions"))
                else
                  let versions' := match versions !! te_Seq candidate with
                                   | Some _ => versions
                                   | None => <[te_Seq candidate := cloneTableEntry candidate]> versions
                                   end in
                  let winner' := match winner with
                                 | Some w => if te_Seq w <? te_Seq candidate then Some (cloneTableEntry candidate) else Some w
                                 | None => Some (cloneTableEntry candidate)
                                 end in
                  match advanceInput (mi_input item) it1 with
                  | (it2, Some m) => (it2, Err ("lsm: advance merge input: " +:+ m))
                  | (it2, None) => drainKey fuel' key winner' versions' it2
                  end
            end
        end
  end.

Definition merge_Next (fuel : nat) (it : kWayMergeIterator) : kWayMergeIterator * result (option TableEntry) :=
  match head (km_heap it) with
  | None => (it, Ok None)
  | Some top => drainKey fuel (cloneBytes (te_Key (mi_entry top))) None ∅ it
  end.

(** The records of the merge until its end. *)
Fixpoint mergeAll (fuel n : nat) (it : kWayMergeIterator) : result (list TableEntry) :=
  match n with
  | O => Err "out of fuel"
  | S n' =>
      match merge_Next fuel it with
      | (_, Err m) => Err m
      | (_, Ok None) => Ok []
      | (it', Ok (Some e)) => es <-r mergeAll fuel n' it' ; Ok (e :: es)
      end
  end.
End merge.
