(* ===== verification/MergeFacts.v ===== *)
(** The k-way merge yields, for every key of its inputs, the newest record, in key order. *)

From stdpp Require Import sorting.
From S2P Require Import Prelude Bytes Bloom SSTable SSTableFacts Heap Merge.

(** * The order of the heap *)

Lemma mergeHeapLess_iff a b :
  mergeHeapLess a b = true <->
  bytes_lt (te_Key (mi_entry a)) (te_Key (mi_entry b)) \/
  (te_Key (mi_entry a) = te_Key (mi_entry b) /\
   (te_Seq (mi_entry b) < te_Seq (mi_entry a) \/ (te_Seq (mi_entry a) = te_Seq (mi_entry b) /\ (mi_input a < mi_input b)%nat))).
Proof.
  unfold mergeHeapLess. set (ka := te_Key (mi_entry a)). set (kb := te_Key (mi_entry b)).
  destruct (bytes_compare ka kb) eqn:E.
  - apply bytes_compare_eq in E. rewrite E. assert (~ bytes_lt kb kb) by apply (irreflexivity bytes_lt).
    destruct (Z.eqb_spec (te_Seq (mi_entry a)) (te_Seq (mi_entry b))); cbn [negb]; rewrite ?Nat.ltb_lt, ?Z.ltb_lt; intuition lia.
  - split; [by left|done].
  - split; [done|]. assert (bytes_lt kb ka) as Hlt by (unfold bytes_lt; by rewrite bytes_compare_antisym, E).
    intros [H|[H _]]; exfalso.
    + apply (irreflexivity bytes_lt ka). by etrans.
    + rewrite H in Hlt. by apply (irreflexivity bytes_lt) in Hlt.
Qed.

Lemma bytes_trichotomy a b : bytes_lt a b \/ a = b \/ bytes_lt b a.
Proof.
  unfold bytes_lt. rewrite (bytes_compare_antisym a b). destruct (bytes_compare a b) eqn:E; [|by left|by right; right].
  right; left. by apply bytes_compare_eq.
Qed.

Lemma bytes_lt_asym a b : bytes_lt a b -> ~ bytes_lt b a.
Proof. intros H1 H2. apply (irreflexivity bytes_lt a). by etrans. Qed.

Lemma mergeHeapLess_asym a b : mergeHeapLess a b = true -> mergeHeapLess b a = false.
Proof.
  intros H. apply not_true_iff_false. rewrite mergeHeapLess_iff in *. intros H2.
  destruct H as [H|[E H]], H2 as [H2|[E2 H2]]; [by eapply bytes_lt_asym| | |lia].
  - rewrite E2 in H. by apply (irreflexivity bytes_lt) in H.
  - rewrite E in H2. by apply (irreflexivity bytes_lt) in H2.
Qed.

(** Not being less, as a lexicographic order. *)
Lemma not_less_iff a b :
  not_less mergeHeapLess a b <->
  bytes_lt (te_Key (mi_entry a)) (te_Key (mi_entry b)) \/
  (te_Key (mi_entry a) = te_Key (mi_entry b) /\
   (te_Seq (mi_entry b) < te_Seq (mi_entry a) \/ (te_Seq (mi_entry a) = te_Seq (mi_entry b) /\ (mi_input a <= mi_input b)%nat))).
Proof.
  unfold not_less. rewrite <- not_true_iff_false, mergeHeapLess_iff.
  destruct (bytes_trichotomy (te_Key (mi_entry a)) (te_Key (mi_entry b))) as [H|[H|H]].
  - pose proof (bytes_lt_asym _ _ H). split; [by left|]. intros _ [?|[E _]]; [done|]. rewrite E in H. by apply (irreflexivity bytes_lt) in H.
  - rewrite H. pose proof (irreflexivity bytes_lt (te_Key (mi_entry b))) as Hirr. unfold complement in Hirr. intuition lia.
  - pose proof (bytes_lt_asym _ _ H). split; [intros Hn; exfalso; apply Hn; by left|]. intros [?|[E _]]; [done|].
    rewrite E in H. by apply (irreflexivity bytes_lt) in H.
Qed.

Lemma mergeHeap_trans a b c : not_less mergeHeapLess a b -> not_less mergeHeapLess b c -> not_less mergeHeapLess a c.
Proof.
  rewrite !not_less_iff. intros [H1|[E1 H1]] [H2|[E2 H2]].
  - left. by etrans.
  - left. by rewrite <- E2.
  - left. by rewrite E1.
  - right. split; [congruence|]. lia.
Qed.

(** * Sources *)

Section sources.
Context {It : Type} (next : It -> It * result (option TableEntry)).

(** The source yields [l] and ends; a flaky one may report an error at any point before. *)
Fixpoint runs (flaky : bool) (it : It) (l : list TableEntry) : Prop :=
  (flaky = true /\ exists m, (next it).2 = Err m) \/
  match l with
  | [] => (next it).2 = Ok None
  | e :: l' => (next it).2 = Ok (Some e) /\ runs flaky (next it).1 l'
  end.

(** * The state of the merge *)

(** [ls] is what the inputs still hold behind the heads in the heap. *)
Record merge_inv (src : It -> list TableEntry -> Prop) (ls : list (list TableEntry)) (it : @kWayMergeIterator It) : Prop := {
  mv_len : length ls = length (km_inputs it);
  mv_heap : heap_ok mergeHeapLess (km_heap it);
  mv_nodup : NoDup (mi_input <$> km_heap it);
  mv_item item : item ∈ km_heap it ->
    exists s l, km_inputs it !! mi_input item = Some s /\ ls !! mi_input item = Some l /\ src s l /\ table_sorted (mi_entry item :: l);
  mv_rest i l : i ∉ mi_input <$> km_heap it -> ls !! i = Some l -> l = [];
}.

(** The records that are left. *)
Definition remaining (ls : list (list TableEntry)) (it : @kWayMergeIterator It) : list TableEntry :=
  (mi_entry <$> km_heap it) ++ concat ls.

Lemma concat_insert (ls : list (list TableEntry)) i l e :
  ls !! i = Some (e :: l) -> concat ls ≡ₚ e :: concat (<[i := l]> ls).
Proof using.
  intros Hi. pose proof (lookup_lt_Some _ _ _ Hi). rewrite insert_take_drop by done.
  rewrite <- (take_drop_middle ls i _ Hi) at 1. rewrite !concat_app. simpl. solve_Permutation.
Qed.

(** Every record that is left is not below the top of the heap. *)
Lemma remaining_above src ls it top e :
  merge_inv src ls it -> head (km_heap it) = Some top -> e ∈ remaining ls it ->
  te_Key (mi_entry top) = te_Key e \/ bytes_lt (te_Key (mi_entry top)) (te_Key e).
Proof using.
  intros [Hlen Hh Hnd Hit Hrest] Htop He. rewrite head_lookup in Htop.
  assert (forall item, item ∈ km_heap it ->
    te_Key (mi_entry top) = te_Key (mi_entry item) \/ bytes_lt (te_Key (mi_entry top)) (te_Key (mi_entry item))) as Hall.
  { intros item [j Hj]%list_elem_of_lookup.
    pose proof (heap_min mergeHeapLess mergeHeapLess_asym mergeHeap_trans _ _ _ _ Hh Htop Hj) as Hn.
    apply not_less_iff in Hn as [?|[? _]]; auto. }
  unfold remaining in He. apply elem_of_app in He as [He|He].
  - apply list_elem_of_fmap in He as (item & -> & Hin). by apply Hall.
  - apply concat_elem_of in He as (i & l & Hl & Hin).
    destruct (decide (i ∈ mi_input <$> km_heap it)) as [Hi|Hi]; [|rewrite (Hrest i l Hi Hl) in Hin; by apply elem_of_nil in Hin].
    apply list_elem_of_fmap in Hi as (item & -> & Hitem). destruct (Hit item Hitem) as (s & l' & _ & Hl' & _ & Hs).
    assert (l' = l) as -> by congruence. apply StronglySorted_cons in Hs as [Hs _]. rewrite Forall_forall in Hs.
    specialize (Hs e Hin). destruct (Hall item Hitem) as [E|Hlt], Hs as [Hs|[Es _]].
    + right. by rewrite E.
    + left. congruence.
    + right. by etrans.
    + right. by rewrite <- Es.
Qed.

(** A predicate on sources that one [Next] preserves. *)
Definition steps (src : It -> list TableEntry -> Prop) : Prop :=
  forall s l, src s l -> (exists m, (next s).2 = Err m) \/
    match l with [] => (next s).2 = Ok None | e :: l' => (next s).2 = Ok (Some e) /\ src (next s).1 l' end.

Lemma runs_steps flaky : steps (runs flaky).
Proof using. intros s [|e l] H; destruct H as [[_ H]|H]; auto. Qed.

Context (src : It -> list TableEntry -> Prop) (Hsteps : steps src).

(** Taking the next record of an input that has no item in the heap. *)
Lemma advance_ok ls it i s l it' :
  (forall item, item ∈ km_heap it ->
    exists s l, km_inputs it !! mi_input item = Some s /\ ls !! mi_input item = Some l /\ src s l /\ table_sorted (mi_entry item :: l)) ->
  length ls = length (km_inputs it) -> heap_ok mergeHeapLess (km_heap it) -> NoDup (mi_input <$> km_heap it) ->
  i ∉ mi_input <$> km_heap it -> km_inputs it !! i = Some s -> ls !! i = Some l -> src s l -> table_sorted l ->
  (forall j lj, j <> i -> j ∉ mi_input <$> km_heap it -> ls !! j = Some lj -> lj = []) ->
  advanceInput next i it = (it', None) ->
  exists ls', merge_inv src ls' it' /\ remaining ls' it' ≡ₚ remaining ls it.
Proof using Hsteps.
  intros Hit Hlen Hh Hnd Hi Hs Hl Hsrc Hsort Hrest H. unfold advanceInput in H. rewrite Hs in H.
  pose proof (lookup_lt_Some _ _ _ Hs) as Li. pose proof (lookup_lt_Some _ _ _ Hl) as Lli.
  destruct (Hsteps s l Hsrc) as [[m Em]|Hn]; [destruct (next s) as [s' r]; simpl in Em; subst r; done|].
  destruct (next s) as [s' r]. cbn [fst snd] in Hn. destruct l as [|e l].
  - subst r. injection H as <-. exists ls. split; [|done]. split; cbn [km_inputs km_heap].
    + by rewrite length_insert.
    + done.
    + done.
    + intros item Hin. destruct (Hit item Hin) as (s1 & l1 & H1 & H2 & H3 & H4). exists s1, l1.
      rewrite list_lookup_insert_ne; [done|]. intros ->. apply Hi. by apply list_elem_of_fmap_2.
    + intros j lj Hj Hlj. destruct (decide (j = i)) as [->|]; [congruence|]. by eapply Hrest.
  - destruct Hn as [-> Hsrc']. injection H as <-. exists (<[i := l]> ls).
    pose proof (heap_push_perm mergeHeapLess (mkHeapItem e i) (km_heap it)) as Hp.
    assert (mi_input <$> heap_push mergeHeapLess (mkHeapItem e i) (km_heap it) ≡ₚ i :: (mi_input <$> km_heap it)) as Hpi
      by (rewrite Hp; done).
    split; [split; cbn [km_inputs km_heap]|].
    + by rewrite !length_insert.
    + by apply heap_push_ok; [apply mergeHeapLess_asym|apply mergeHeap_trans|].
    + rewrite Hpi. by constructor.
    + intros item Hin. rewrite Hp in Hin. apply elem_of_cons in Hin as [->|Hin]; cbn [mi_input mi_entry].
      * exists s', l. rewrite !list_lookup_insert_eq by done. done.
      * destruct (Hit item Hin) as (s1 & l1 & H1 & H2 & H3 & H4). exists s1, l1.
        assert (i <> mi_input item) by (intros ->; apply Hi; by apply list_elem_of_fmap_2).
        by rewrite !list_lookup_insert_ne.
    + intros j lj Hj Hlj. rewrite Hpi, not_elem_of_cons in Hj. destruct Hj as [Hji Hj].
      rewrite list_lookup_insert_ne in Hlj by done. by eapply Hrest.
    + unfold remaining. cbn [km_heap]. rewrite Hp. cbn [fmap list_fmap]. rewrite (concat_insert ls i l e) by done.
      cbn [mi_entry]. solve_Permutation.
Qed.

Lemma pop_inv ls it item heap' :
  merge_inv src ls it -> heap_pop mergeHeapLess (km_heap it) = Some (item, heap') ->
  heap_ok mergeHeapLess heap' /\ NoDup (mi_input <$> heap') /\ mi_input item ∉ mi_input <$> heap' /\
  km_heap it ≡ₚ item :: heap' /\ head (km_heap it) = Some item.
Proof using.
  intros [Hlen Hh Hnd Hit Hrest] Hp. pose proof (heap_pop_perm _ _ _ _ Hp) as Hperm.
  rewrite Hperm in Hnd. cbn [fmap list_fmap] in Hnd. apply NoDup_cons in Hnd as [Hni Hnd]. split_and!; try done.
  - eapply heap_pop_ok; [apply mergeHeapLess_asym|apply mergeHeap_trans|exact Hh|exact Hp].
  - destruct (km_heap it) as [|x h]; [done|]. unfold heap_pop in Hp. destruct ((x :: h) !! _); [|done]. by injection Hp as <- _.
Qed.

Lemma pop_advance ls it item heap' it' :
  merge_inv src ls it -> heap_pop mergeHeapLess (km_heap it) = Some (item, heap') ->
  advanceInput next (mi_input item) (mkMerge (km_inputs it) heap') = (it', None) ->
  exists ls', merge_inv src ls' it' /\ remaining ls it ≡ₚ mi_entry item :: remaining ls' it'.
Proof using Hsteps.
  intros Hinv Hp H. destruct (pop_inv _ _ _ _ Hinv Hp) as (Hh' & Hnd' & Hni & Hperm & _).
  destruct Hinv as [Hlen Hh Hnd Hit Hrest].
  destruct (Hit item) as (s & l & Hs & Hl & Hsrc & Hsort); [rewrite Hperm; by left|].
  destruct (advance_ok ls (mkMerge (km_inputs it) heap') (mi_input item) s l it') as (ls' & Hinv' & Hr); try done.
  - intros x Hx. apply Hit. rewrite Hperm. by right.
  - by apply StronglySorted_cons in Hsort as [_ ?].
  - intros j lj Hj Hnj Hlj. apply (Hrest j lj); [|done]. rewrite Hperm. cbn [fmap list_fmap]. by apply not_elem_of_cons.
  - exists ls'. split; [done|]. rewrite Hr. unfold remaining. cbn [km_heap]. rewrite Hperm. done.
Qed.

(** * One key *)

(** The records in [seen], of one key: [winner] is the newest, [versions] has one for each
    sequence number. *)
Record drained (key : bytes) (seen : list TableEntry) (winner : option TableEntry) (versions : gmap Z TableEntry) : Prop := {
  dr_key e : e ∈ seen -> te_Key e = key;
  dr_winner : match winner with
              | None => seen = []
              | Some w => w ∈ seen /\ forall e, e ∈ seen -> te_Seq e <= te_Seq w
              end;
  dr_versions q e : versions !! q = Some e -> e ∈ seen /\ te_Seq e = q;
  dr_same e : e ∈ seen -> exists p, versions !! te_Seq e = Some p /\ sameTableRecord e p = true;
}.

Lemma sameTableRecord_iff a b :
  sameTableRecord a b = true <-> te_Tombstone a = te_Tombstone b /\ (te_Tombstone a = false -> te_Value a = te_Value b).
Proof using.
  unfold sameTableRecord. rewrite andb_true_iff, orb_true_iff, eqb_true_iff, bool_decide_eq_true.
  destruct (te_Tombstone a), (te_Tombstone b); naive_solver.
Qed.

Lemma drained_nil key : drained key [] None ∅.
Proof using. split; [by intros e ?%elem_of_nil|done|by intros q e ?%lookup_empty_Some|by intros e ?%elem_of_nil]. Qed.

Lemma drained_step key seen winner versions c :
  drained key seen winner versions -> te_Key c = key ->
  match versions !! te_Seq c with Some prior => negb (sameTableRecord c prior) | None => false end = false ->
  drained key (c :: seen)
    (match winner with Some w => if te_Seq w <? te_Seq c then Some c else Some w | None => Some c end)
    (match versions !! te_Seq c with Some _ => versions | None => <[te_Seq c := c]> versions end).
Proof using.
  intros [Hk Hw Hv Hsm] Ek Ecf. split.
  + intros e [->|He]%elem_of_cons; [done|by apply Hk].
  + destruct winner as [w0|].
    * destruct Hw as [Hin Hmax]. destruct (Z.ltb_spec (te_Seq w0) (te_Seq c)).
      -- split; [by left|]. intros e [->|He]%elem_of_cons; [lia|]. specialize (Hmax e He). lia.
      -- split; [by right|]. intros e [->|He]%elem_of_cons; [lia|]. by apply Hmax.
    * subst seen. split; [by left|]. intros e He%list_elem_of_singleton. subst e. lia.
  + intros q e Hq. destruct (versions !! te_Seq c) eqn:Ev.
    * destruct (Hv q e Hq). split; [by right|done].
    * destruct (decide (q = te_Seq c)) as [->|].
      -- rewrite lookup_insert_eq in Hq. injection Hq as <-. split; [by left|done].
      -- rewrite lookup_insert_ne in Hq by done. destruct (Hv q e Hq). split; [by right|done].
  + intros e [->|He]%elem_of_cons.
    * destruct (versions !! te_Seq c) as [p|] eqn:Ev.
      -- exists p. split; [done|]. by apply negb_false_iff.
      -- exists c. rewrite lookup_insert_eq. split; [done|]. by apply sameTableRecord_iff.
    * destruct (Hsm e He) as (p & Hp & Hs). exists p. split; [|done]. destruct (versions !! te_Seq c) eqn:Ev; [done|].
      rewrite lookup_insert_ne; [done|congruence].
Qed.

Lemma cloneTableEntry_id e : cloneTableEntry e = e.
Proof using. by destruct e. Qed.

Lemma drainKey_ok fuel key winner versions ls it seen it' w :
  merge_inv src ls it -> drained key seen winner versions ->
  (forall e, e ∈ remaining ls it -> te_Key e = key \/ bytes_lt key (te_Key e)) ->
  drainKey next fuel key winner versions it = (it', Ok w) ->
  exists ls' seen' versions', merge_inv src ls' it' /\ seen ++ remaining ls it ≡ₚ seen' ++ remaining ls' it' /\
    drained key seen' w versions' /\ (forall e, e ∈ remaining ls' it' -> bytes_lt key (te_Key e)).
Proof using Hsteps.
  revert winner versions ls it seen. induction fuel as [|fuel IH]; intros winner versions ls it seen Hinv Hdr Hkeys H.
  all: cbn [drainKey] in H; destruct (head (km_heap it)) as [top|] eqn:Etop.
  2,4: injection H as <- <-; exists ls, seen, versions; split_and!; try done;
    intros e He; destruct (km_heap it) as [|x h] eqn:Eh; [|done];
    unfold remaining in He; rewrite Eh in He; cbn [fmap list_fmap app] in He;
    apply concat_elem_of in He as (i & l & Hl & Hin);
    rewrite (mv_rest _ _ _ Hinv i l) in Hin; [by apply elem_of_nil in Hin|rewrite Eh; apply not_elem_of_nil|done].
  all: destruct (bool_decide_reflect (te_Key (mi_entry top) = key)) as [Ek|Hne]; cbn [negb] in H; try done.
  1,3: injection H as <- <-; exists ls, seen, versions; split_and!; try done;
    intros e He; destruct (remaining_above src ls it top e Hinv Etop He) as [E|Hlt].
  1,3: destruct (Hkeys e He) as [E2|?]; [congruence|done].
  1,2: assert (mi_entry top ∈ remaining ls it) as Hin by
    (unfold remaining; apply elem_of_app; left; apply list_elem_of_fmap_2; destruct (km_heap it); [done|]; injection Etop as ->; by left);
    destruct (Hkeys _ Hin) as [?|Hlt2]; [done|by etrans].
  destruct (heap_pop mergeHeapLess (km_heap it)) as [[item heap']|] eqn:Ep; [|done].
  destruct (pop_inv _ _ _ _ Hinv Ep) as (_ & _ & _ & _ & Eh). rewrite Etop in Eh. injection Eh as ->.
  cbv zeta in H. destruct (match versions !! te_Seq (mi_entry item) with Some _ => _ | None => _ end) eqn:Ecf in H; [done|].
  destruct (advanceInput next (mi_input item) _) as [it2 [m|]] eqn:Ea; [done|].
  destruct (pop_advance _ _ _ _ _ Hinv Ep Ea) as (ls2 & Hinv2 & Hperm).
  rewrite !cloneTableEntry_id in H. apply (IH _ _ ls2 it2 (mi_entry item :: seen)) in H; [|done| |].
  - destruct H as (ls' & seen' & versions' & Hi & Hp' & Hd & Hk). exists ls', seen', versions'. split_and!; try done.
    rewrite <- Hp', Hperm. solve_Permutation.
  - by apply drained_step.
  - intros e He. apply Hkeys. rewrite Hperm. by right.
Qed.

Lemma merge_Next_ok fuel ls it it' r :
  merge_inv src ls it -> merge_Next next fuel it = (it', Ok r) ->
  match r with
  | None => remaining ls it = []
  | Some w => exists ls' seen, merge_inv src ls' it' /\ remaining ls it ≡ₚ seen ++ remaining ls' it' /\
      w ∈ seen /\ (forall e, e ∈ seen -> te_Key e = te_Key w /\ te_Seq e <= te_Seq w) /\
      (forall a b, a ∈ seen -> b ∈ seen -> te_Seq a = te_Seq b -> sameTableRecord a b = true) /\
      (forall e, e ∈ remaining ls' it' -> bytes_lt (te_Key w) (te_Key e))
  end.
Proof using Hsteps.
  intros Hinv H. unfold merge_Next in H. destruct (head (km_heap it)) as [top|] eqn:Etop.
  - apply (drainKey_ok _ _ _ _ ls it []) in H; [|done|apply drained_nil|].
    + destruct H as (ls' & seen & versions & Hinv' & Hp & [Hk Hw _ Hsm] & Hgt). destruct r as [w|].
      * destruct Hw as [Hw Hmax]. exists ls', seen. split_and!; try done.
        -- intros e He. split; [|by apply Hmax]. by rewrite (Hk e He), (Hk w Hw).
        -- intros a b Ha Hb Eq. destruct (Hsm a Ha) as (p & Hpa & Hsa), (Hsm b Hb) as (p' & Hpb & Hsb).
           rewrite Eq in Hpa. assert (p' = p) as -> by congruence. rewrite sameTableRecord_iff in *.
           destruct Hsa as [Ta Va], Hsb as [Tb Vb]. split; [congruence|]. intros Ft. rewrite Va, Vb by congruence. done.
        -- intros e He. rewrite (Hk w Hw). by apply Hgt.
      * exfalso. subst seen. simpl in Hp.
        assert (mi_entry top ∈ remaining ls it) as Hin by
          (unfold remaining; apply elem_of_app; left; apply list_elem_of_fmap_2; destruct (km_heap it); [done|]; injection Etop as ->; by left).
        rewrite Hp in Hin. specialize (Hgt _ Hin). by apply (irreflexivity bytes_lt) in Hgt.
    + intros e He. unfold cloneBytes. destruct (remaining_above src ls it top e Hinv Etop He); auto.
  - injection H as <- <-. destruct (km_heap it) as [|x h] eqn:Eh; [|done]. unfold remaining. rewrite Eh. cbn [fmap list_fmap app].
    assert (forall e, e ∉ concat ls) as Hno.
    { intros e He. apply concat_elem_of in He as (i & l & Hl & Hin).
      rewrite (mv_rest _ _ _ Hinv i l) in Hin; [by apply elem_of_nil in Hin|rewrite Eh; apply not_elem_of_nil|done]. }
    destruct (concat ls) as [|e l]; [done|]. exfalso. apply (Hno e). by left.
Qed.

(** What the whole merge yields: one record for every key, the newest, in key order. *)
Record merged (R out : list TableEntry) : Prop := {
  mg_sorted : StronglySorted (fun a b => bytes_lt (te_Key a) (te_Key b)) out;
  mg_from e : e ∈ out -> e ∈ R;
  mg_newest e : e ∈ R -> exists w, w ∈ out /\ te_Key w = te_Key e /\ te_Seq e <= te_Seq w;
  mg_same a b : a ∈ R -> b ∈ R -> te_Key a = te_Key b -> te_Seq a = te_Seq b -> sameTableRecord a b = true;
}.

Lemma mergeAll_ok fuel n ls it out :
  merge_inv src ls it -> mergeAll next fuel n it = Ok out -> merged (remaining ls it) out.
Proof using Hsteps.
  revert ls it out. induction n as [|n IH]; intros ls it out Hinv H; cbn [mergeAll] in H; [done|].
  destruct (merge_Next next fuel it) as [it' [[w|]|]] eqn:En; [| |done].
  - destruct (mergeAll next fuel n it') as [es|] eqn:Er; [|done]. cbn [rbind] in H. apply Ok_inj in H as <-.
    apply (merge_Next_ok _ ls) in En as (ls' & seen & Hinv' & Hp & Hw & Hseen & Hsame & Hgt); [|done].
    apply (IH ls') in Er as [Hs Hf Hn Hsm]; [|done]. split.
    + constructor; [done|]. apply Forall_forall. intros e He. by apply Hgt, Hf.
    + intros e [->|He]%elem_of_cons; rewrite Hp, elem_of_app; [by left|right; by apply Hf].
    + intros e He. rewrite Hp, elem_of_app in He. destruct He as [He|He].
      * destruct (Hseen e He) as [Ek Hle]. exists w. split; [by left|]. done.
      * destruct (Hn e He) as (w' & Hw' & ?). exists w'. split; [by right|done].
    + assert (forall a b, a ∈ seen -> b ∈ remaining ls' it' -> te_Key a <> te_Key b) as Hapart.
      { intros a b Ha Hb E. specialize (Hgt b Hb). rewrite <- E, (proj1 (Hseen a Ha)) in Hgt. by apply (irreflexivity bytes_lt) in Hgt. }
      intros a b Ha Hb Ek Eq. rewrite Hp, elem_of_app in Ha, Hb. destruct Ha as [Ha|Ha], Hb as [Hb|Hb]; [by apply Hsame| | |by apply Hsm].
      * by destruct (Hapart a b Ha Hb).
      * by destruct (Hapart b a Hb Ha).
  - apply Ok_inj in H as <-. apply (merge_Next_ok _ ls) in En; [|done]. rewrite En.
    split; [constructor|by intros e ?%elem_of_nil|by intros e ?%elem_of_nil|by intros e b ?%elem_of_nil].
Qed.
End sources.
