(* ===== verification/MergeSpec.v ===== *)
(** The iterator of compaction yields the records that [AllEntries] reads at once, a block at
    a time; the merge of whole tables ends, yields the newest record of every key, and refuses
    tables that disagree about a version; the bounds of the size classes. *)

From stdpp Require Import sorting.
From S2P Require Import Prelude Bytes Bloom SSTable SSTableFacts SSTableSpec Heap Merge MergeFacts.

(** A block that reads as [b]; on a flaky file the read may fail instead. *)
Definition block_read (flaky : bool) (rd : SSTableReader) (block : indexEntry) (b : list TableEntry) : Prop :=
  readRecords rd block = Ok b \/ (flaky = true /\ exists m, readRecords rd block = Err m).

(** The blocks of a table that passes the checks of the iterator. *)
Record table_reader (flaky : bool) (rd : SSTableReader) (bs : list (list TableEntry)) : Prop := {
  tr_blocks : Forall2 (block_read flaky rd) (sr_index rd) bs;
  tr_nonempty : Forall (fun b => b <> []) bs;
  tr_bloom : Forall (fun b => checkBloomKeys (sr_bloom rd) b = Some true) bs;
  tr_borders i b b' : bs !! i = Some b -> bs !! S i = Some b' -> bytes_lt (lastKeyOf b) (firstKeyOf b');
  tr_count : sr_entryCount rd = Z.of_nat (length (concat bs)) /\ sr_entryCount rd <= max_u64;
  tr_bounds : concat bs <> [] -> firstKeyOf (concat bs) = sr_minKey rd /\ lastKeyOf (concat bs) = sr_maxKey rd;
}.

(** The iterator while it goes through the table: [n] blocks were loaded, [j] records of
    the last one were taken. *)
Record iter_at (rd : SSTableReader) (bs : list (list TableEntry)) (n j : nat) (b : list TableEntry)
    (it : sstableEntryIterator) : Prop := {
  ia_reader : it_reader it = rd;
  ia_block : it_block it = n;
  ia_entries : it_entries it = b;
  ia_entry : it_entry it = j /\ (j <= length b)%nat;
  ia_done : it_done it = false;
  ia_seen : it_seen it + Z.of_nat (length (drop j b ++ concat (drop n bs))) = Z.of_nat (length (concat bs)) /\ 0 <= it_seen it;
  ia_keys : match n with
            | O => b = [] /\ it_firstKey it = None /\ it_lastKey it = None
            | S k => bs !! k = Some b /\ it_firstKey it = Some (firstKeyOf (concat bs)) /\ it_lastKey it = Some (lastKeyOf b)
            end;
}.

Lemma firstKeyOf_concat b bs : b <> [] -> firstKeyOf (concat (b :: bs)) = firstKeyOf b.
Proof. by destruct b. Qed.

Lemma lastKeyOf_snoc (bs : list (list TableEntry)) b : b <> [] -> lastKeyOf (concat (bs ++ [b])) = lastKeyOf b.
Proof.
  intros Hb. rewrite concat_app. simpl. rewrite app_nil_r. unfold lastKeyOf. rewrite last_app.
  destruct (last b) eqn:E; [done|]. by apply last_None in E.
Qed.

Section iterator.
Context (flaky : bool) (rd : SSTableReader) (bs : list (list TableEntry)) (Hrd : table_reader flaky rd bs).

Lemma it_take_ok n j b it e rest :
  iter_at rd bs n j b it -> drop j b = e :: rest ->
  (it_take it).2 = Ok (Some e) /\ iter_at rd bs n (S j) b (it_take it).1.
Proof using Hrd.
  intros [Er Eb Ee [Ej Hj] Ed [Es Hs] Ek] Hd. unfold it_take. rewrite Ee, Ej.
  assert (b !! j = Some e) as Hlk by (rewrite <- (Nat.add_0_r j), <- lookup_drop, Hd; done). rewrite Hlk.
  pose proof (lookup_lt_Some _ _ _ Hlk). destruct (tr_count _ _ _ Hrd) as [Ec Hu].
  assert (drop (S j) b = rest) as Hd' by (rewrite <- Nat.add_1_r, <- drop_drop, Hd; done).
  rewrite Hd in Es. cbn [app length] in Es. cbn [it_seen]. rewrite u64_add_small by lia. rewrite Er.
  rewrite (proj2 (Z.ltb_ge _ _)) by (rewrite Ec; lia). split; [by rewrite cloneTableEntry_id|].
  split; cbn [it_reader it_block it_entries it_entry it_done it_seen it_firstKey it_lastKey fst]; try done.
  rewrite Hd'. lia.
Qed.

(** Loading the next block. *)
Lemma it_load_ok n b it block b' :
  iter_at rd bs n (length b) b it -> sr_index rd !! n = Some block -> bs !! n = Some b' -> readRecords rd block = Ok b' ->
  exists it', it_load it = Ok (Some it') /\ iter_at rd bs (S n) 0 b' it'.
Proof using Hrd.
  intros [Er Eb Ee [Ej Hj] Ed [Es Hs] Ek] Hix Hb' Hread. unfold it_load. rewrite Er, Eb, Hix, Hread. cbn [rbind].
  assert (b' <> []) as Hne by (eapply (Forall_lookup_1 _ _ _ _ (tr_nonempty _ _ _ Hrd)); done).
  assert (match it_lastKey it, b' with Some l, e0 :: _ => bytes_ltb l (te_Key e0) | _, _ => true end = true) as ->.
  { destruct n as [|k]; [by destruct Ek as (_ & _ & ->)|]. destruct Ek as (Hk & _ & ->).
    pose proof (tr_borders _ _ _ Hrd k b b' Hk Hb') as Hlt. destruct b'; [done|]. by apply bytes_ltb_spec. }
  cbn [negb]. rewrite (Forall_lookup_1 _ _ _ _ (tr_bloom _ _ _ Hrd) Hb'). cbv beta.
  eexists. split; [reflexivity|]. split; cbn [it_reader it_block it_entries it_entry it_done it_seen it_firstKey it_lastKey]; try done.
  - split; [done|lia].
  - rewrite drop_all, (drop_S _ _ _ Hb') in Es. by rewrite drop_0.
  - split_and!; [done| |done]. unfold cloneBytes. destruct n as [|k].
    + destruct Ek as (_ & -> & _). destruct bs as [|b0 bs']; [done|]. injection Hb' as ->. by rewrite firstKeyOf_concat.
    + by destruct Ek as (_ & -> & _).
Qed.

(** The end of the table. *)
Lemma it_end_ok n b it :
  iter_at rd bs n (length b) b it -> (length bs <= n)%nat -> it_load it = Ok None.
Proof using Hrd.
  intros [Er Eb Ee [Ej Hj] Ed [Es Hs] Ek] Hn. unfold it_load. rewrite Er, Eb.
  pose proof (Forall2_length _ _ _ (tr_blocks _ _ _ Hrd)) as Hlen. rewrite lookup_ge_None_2 by lia.
  rewrite drop_all, (drop_ge bs) in Es by done. cbn [app concat length] in Es. destruct (tr_count _ _ _ Hrd) as [Ec _].
  rewrite (proj2 (Z.eqb_eq _ _)) by lia. cbn [negb].
  destruct (Z.eqb_spec (it_seen it) 0) as [|Hz]; [done|]. cbn [negb andb].
  assert (concat bs <> []) as Hne by (intros E; rewrite E in Es; simpl in Es; lia).
  destruct (tr_bounds _ _ _ Hrd Hne) as [<- <-]. destruct n as [|k]; [destruct bs; simpl in *; [done|lia]|].
  destruct Ek as (Hk & -> & ->). cbn [default]. rewrite bool_decide_eq_true_2 by done.
  assert (length bs = S k) as Hl by (apply lookup_lt_Some in Hk; lia).
  assert (lastKeyOf (concat bs) = lastKeyOf b) as ->; [|by rewrite bool_decide_eq_true_2].
  rewrite <- (take_drop_middle bs k b Hk), (drop_ge bs) by lia.
  apply lastKeyOf_snoc. apply (Forall_lookup_1 _ _ _ _ (tr_nonempty _ _ _ Hrd) Hk).
Qed.

Lemma it_runs l n j b it :
  iter_at rd bs n j b it -> drop j b ++ concat (drop n bs) = l -> runs it_Next flaky it l.
Proof using Hrd.
  revert n j b it. induction l as [|e l IH]; intros n j b it Hat Hl; cbn [runs].
  - apply app_nil in Hl as [Hd Hc]. right. pose proof Hat as Hat0.
    destruct Hat as [Er Eb Ee [Ej Hj] Ed Es Ek].
    assert (j = length b) as -> by (apply (f_equal length) in Hd; rewrite length_drop in Hd; simpl in Hd; lia).
    unfold it_Next. rewrite Ed, Ej, Ee, Nat.eqb_refl.
    destruct (decide (length bs <= n)%nat) as [Hn|Hn]; [by rewrite (it_end_ok n b it)|exfalso].
    destruct (lookup_lt_is_Some_2 bs n) as [b' Hb']; [lia|]. rewrite (drop_S _ _ _ Hb') in Hc. simpl in Hc.
    apply app_nil in Hc as [-> _]. by apply (Forall_lookup_1 _ _ _ _ (tr_nonempty _ _ _ Hrd) Hb').
  - pose proof Hat as Hat0. destruct Hat as [Er Eb Ee [Ej Hj] Ed Es Ek].
    unfold it_Next. rewrite Ed, Ej, Ee. destruct (Nat.eqb_spec j (length b)) as [->|Hlt].
    + rewrite drop_all in Hl. cbn [app] in Hl.
      destruct (bs !! n) as [b'|] eqn:Hb'; [|apply lookup_ge_None in Hb'; by rewrite drop_ge in Hl].
      rewrite (drop_S _ _ _ Hb') in Hl. cbn [concat] in Hl.
      destruct (Forall2_lookup_r _ _ _ _ _ (tr_blocks _ _ _ Hrd) Hb') as (block & Hix & Hread).
      destruct Hread as [Hread|[-> [m Hread]]]; last first.
      { left. split; [done|]. exists m. unfold it_load. by rewrite Er, Eb, Hix, Hread. }
      destruct (it_load_ok n b it block b') as (it' & -> & Hat'); try done.
      pose proof (Forall_lookup_1 _ _ _ _ (tr_nonempty _ _ _ Hrd) Hb') as Hne. cbv beta in Hne.
      destruct b' as [|e' b']; [done|]. injection Hl as -> Hl.
      destruct (it_take_ok _ _ _ _ e b' Hat' eq_refl) as [-> Hat2]. right. split; [done|]. by apply (IH (S n) 1%nat (e :: b')).
    + destruct (drop j b) as [|e' rest] eqn:Hd; [apply (f_equal length) in Hd; rewrite length_drop in Hd; simpl in Hd; lia|].
      injection Hl as -> Hl. destruct (it_take_ok _ _ _ _ e rest Hat0 Hd) as [-> Hat2]. right. split; [done|].
      apply (IH n (S j) b); [done|]. rewrite <- Nat.add_1_r, <- drop_drop, Hd. done.
Qed.

Lemma iterator_runs : runs it_Next flaky (newSSTableEntryIterator rd) (concat bs).
Proof using Hrd.
  apply (it_runs (concat bs) 0 0 []); [|done]. by split.
Qed.
End iterator.

(** * The iterator and [AllEntries] *)

Lemma allEntriesLoop_blocks rd index acc es :
  allEntriesLoop rd index acc = Some (Ok es) ->
  exists bs, es = acc ++ concat bs /\ Forall2 (block_read false rd) index bs /\ Forall (fun b => b <> []) bs /\
    Forall (fun b => checkBloomKeys (sr_bloom rd) b = Some true) bs /\
    (forall b, head bs = Some b -> acc <> [] -> bytes_lt (lastKeyOf acc) (firstKeyOf b)) /\
    (forall i b b', bs !! i = Some b -> bs !! S i = Some b' -> bytes_lt (lastKeyOf b) (firstKeyOf b')).
Proof.
  revert acc. induction index as [|block index IH]; intros acc H; cbn [allEntriesLoop] in H.
  { injection H as ->. exists []. simpl. rewrite app_nil_r. split_and!; try done; constructor. }
  destruct (readRecords rd block) as [b|] eqn:E; [|done]. pose proof (readRecords_sound _ _ _ E) as [_ Hne]. cbv zeta in H.
  destruct (match last acc with Some _ => _ | None => _ end) eqn:Eo; [|done]. cbn [negb] in H.
  destruct (checkBloomKeys (sr_bloom rd) b) as [[]|] eqn:Eb; try done.
  apply IH in H as (bs & -> & Hb & Hn & Hbl & Hh & Hbord). exists (b :: bs). split_and!.
  - by rewrite <- app_assoc.
  - constructor; [by left|done].
  - by constructor.
  - by constructor.
  - intros ? [= <-] Ha. unfold lastKeyOf. destruct (last acc) as [p|] eqn:El; [|by apply last_None in El].
    destruct b; [done|]. by apply bytes_ltb_spec.
  - intros [|i] b1 b2 H1 H2; [|by eapply Hbord]. injection H1 as <-. simpl in H2.
    assert (bytes_lt (lastKeyOf (acc ++ b)) (firstKeyOf b2)) as Hlt by (apply Hh; [by rewrite head_lookup|destruct acc; destruct b; done]).
    unfold lastKeyOf in *. rewrite last_app in Hlt. destruct (last b) eqn:El; [done|]. by apply last_None in El.
Qed.

Lemma table_reader_all rd es :
  AllEntries rd = Some (Ok es) -> sr_entryCount rd <= max_u64 -> exists bs, table_reader false rd bs /\ concat bs = es.
Proof.
  unfold AllEntries. intros H Hu. destruct (allEntriesLoop rd (sr_index rd) []) as [[entries|]|] eqn:E; try done.
  apply allEntriesLoop_blocks in E as (bs & -> & Hb & Hn & Hbl & _ & Hbord). cbn [app] in *.
  destruct (Z.eqb_spec (Z.of_nat (length (concat bs))) (sr_entryCount rd)) as [Ec|]; [|done]. cbn [negb] in H.
  exists bs. destruct (head (concat bs)) as [e0|] eqn:E0, (last (concat bs)) as [e1|] eqn:E1.
  - destruct (_ || _) eqn:Eg; [done|]. injection H as <-. apply orb_false_iff in Eg as [? ?]. bool_to_prop.
    split; [split; try done|done]. intros _. unfold firstKeyOf, lastKeyOf. by rewrite E0, E1.
  - apply last_None in E1 as E2. rewrite E2 in E0. done.
  - assert (concat bs = []) as E2 by (destruct (concat bs); done). rewrite E2 in E1. done.
  - assert (concat bs = []) as E2 by (destruct (concat bs); done). injection H as <-.
    by split; [split|].
Qed.

Section start.
Context {It : Type} (next : It -> It * result (option TableEntry)).
Context (src : It -> list TableEntry -> Prop) (Hsteps : steps next src).

(** What [advanceInput] leaves alone. *)
Lemma advanceInput_frame i it it' r :
  advanceInput next i it = (it', r) ->
  (forall j, j <> i -> km_inputs it' !! j = km_inputs it !! j) /\ length (km_inputs it') = length (km_inputs it) /\
  forall item, item ∈ km_heap it' -> item ∈ km_heap it \/ mi_input item = i.
Proof using.
  unfold advanceInput. destruct (km_inputs it !! i) as [s|]; [|by intros [= <- _]; auto].
  destruct (next s) as [s' [[e|]|m]]; intros [= <- _]; cbn [km_inputs km_heap]; rewrite length_insert;
    (split; [intros j Hj; by rewrite list_lookup_insert_ne|split; [done|]]); intros item Hin; auto.
  rewrite heap_push_perm in Hin. apply elem_of_cons in Hin as [->|Hin]; auto.
Qed.

(** The loop over the inputs from [i] on: those before [i] have their heads in the heap. *)
Lemma startInputs_ok n i it ls lists it' :
  merge_inv src ls it -> length lists = length (km_inputs it) -> (i + n = length lists)%nat ->
  (forall item, item ∈ km_heap it -> (mi_input item < i)%nat) ->
  (forall j s l, (i <= j)%nat -> km_inputs it !! j = Some s -> lists !! j = Some l -> src s l /\ table_sorted l) ->
  startInputs next n i it = Ok it' ->
  exists ls', merge_inv src ls' it' /\ remaining ls' it' ≡ₚ remaining ls it ++ concat (drop i lists).
Proof using Hsteps.
  revert i it ls. induction n as [|n IH]; intros i it ls Hinv Hlen Hi Hheap Hsrc H; cbn [startInputs] in H.
  { apply Ok_inj in H as <-. exists ls. split; [done|]. by rewrite drop_ge, app_nil_r by lia. }
  destruct (advanceInput next i it) as [it1 [m|]] eqn:Ea; [done|].
  destruct (lookup_lt_is_Some_2 lists i) as [l Hl]; [lia|].
  destruct (lookup_lt_is_Some_2 (km_inputs it) i) as [s Hs]; [lia|].
  destruct (Hsrc i s l) as [Hsl Hsort]; [done..|]. pose proof (advanceInput_frame _ _ _ _ Ea) as (Hin1 & Hlen1 & Hheap1).
  assert (i ∉ mi_input <$> km_heap it) as Hni.
  { intros (item & E & Hin)%list_elem_of_fmap. specialize (Hheap item Hin). lia. }
  assert (ls !! i = Some []) as Hls.
  { destruct (lookup_lt_is_Some_2 ls i) as [li Hli]; [rewrite (mv_len _ _ _ Hinv); lia|]. rewrite Hli. f_equal.
    by apply (mv_rest _ _ _ Hinv i). }
  pose proof (lookup_lt_Some _ _ _ Hls) as Hlt.
  destruct (advance_ok next src Hsteps (<[i := l]> ls) it i s l it1) as (ls1 & Hinv1 & Hp1); try done.
  - intros item Hin. destruct (mv_item _ _ _ Hinv item Hin) as (s1 & l1 & ? & ? & ? & ?). exists s1, l1.
    specialize (Hheap item Hin). rewrite list_lookup_insert_ne by lia. done.
  - rewrite length_insert. apply Hinv.
  - apply Hinv.
  - apply Hinv.
  - by apply list_lookup_insert_eq.
  - intros j lj Hj Hnj Hlj. rewrite list_lookup_insert_ne in Hlj by done. by apply (mv_rest _ _ _ Hinv j).
  - apply (IH (S i) it1 ls1) in H as (ls' & Hinv' & Hp'); [|done|by rewrite Hlen1|lia| |].
    + exists ls'. split; [done|]. rewrite Hp', Hp1. unfold remaining. rewrite (drop_S _ _ _ Hl). cbn [concat].
      assert (concat (<[i := l]> ls) ≡ₚ l ++ concat ls) as ->; [|solve_Permutation].
      rewrite insert_take_drop by done. rewrite <- (take_drop_middle ls i _ Hls) at 3. rewrite !concat_app. simpl. solve_Permutation.
    + intros item Hin. destruct (Hheap1 item Hin) as [Hin'| ->]; [|lia]. specialize (Hheap item Hin'). lia.
    + intros j s1 l1 Hj Hs1 Hl1. rewrite Hin1 in Hs1 by lia. apply (Hsrc j); [lia|done..].
Qed.

Lemma newKWayMergeIterator_ok inputs lists it :
  Forall2 src inputs lists -> Forall table_sorted lists -> newKWayMergeIterator next inputs = Ok it ->
  exists ls, merge_inv src ls it /\ remaining ls it ≡ₚ concat lists.
Proof using Hsteps.
  intros Hsrc Hs H. pose proof (Forall2_length _ _ _ Hsrc) as Hlen.
  apply (startInputs_ok _ 0 _ (replicate (length inputs) []) lists) in H as (ls & Hinv & Hp); cbn [km_inputs km_heap]; try done.
  - exists ls. split; [done|]. rewrite Hp. unfold remaining. cbn [km_heap fmap list_fmap app]. rewrite drop_0.
    assert (concat (replicate (length inputs) ([] : list TableEntry)) = []) as ->; [|done].
    clear. induction (length inputs) as [|k IH]; [done|exact IH].
  - split; cbn [km_inputs km_heap]; [by rewrite length_replicate|by intros i a b|constructor|by intros ? ?%elem_of_nil|].
    intros i l _ Hl. by apply lookup_replicate in Hl as [-> _].
  - by intros item ?%elem_of_nil.
  - intros j s l _ Hj Hl. split; [by eapply Forall2_lookup_lr|]. by eapply (Forall_lookup_1 _ _ _ _ Hs).
Qed.
End start.

(** * Enough fuel *)

Section total.
Context {It : Type} (next : It -> It * result (option TableEntry)).

Definition agree (R : list TableEntry) : Prop :=
  forall a b, a ∈ R -> b ∈ R -> te_Key a = te_Key b -> te_Seq a = te_Seq b -> sameTableRecord a b = true.

Lemma advance_total i s l it :
  km_inputs it !! i = Some s -> runs next false s l -> exists it', advanceInput next i it = (it', None).
Proof using.
  intros Hi Hr. unfold advanceInput. rewrite Hi. destruct (next s) as [s' r] eqn:En.
  destruct l as [|e l]; cbn [runs] in Hr; rewrite En in Hr; cbn [fst snd] in Hr; destruct Hr as [[? _]|Hr]; try done.
  - subst r. eauto.
  - destruct Hr as [-> _]. eauto.
Qed.

Lemma startInputs_total n i it lists :
  length lists = length (km_inputs it) -> (i + n = length lists)%nat ->
  (forall j s l, (i <= j)%nat -> km_inputs it !! j = Some s -> lists !! j = Some l -> runs next false s l) ->
  exists it', startInputs next n i it = Ok it'.
Proof using.
  revert i it. induction n as [|n IH]; intros i it Hlen Hi Hsrc; cbn [startInputs]; [eauto|].
  destruct (lookup_lt_is_Some_2 lists i) as [l Hl]; [lia|]. destruct (lookup_lt_is_Some_2 (km_inputs it) i) as [s Hs]; [lia|].
  destruct (advance_total i s l it Hs) as [it1 Ea]; [by eapply Hsrc|]. rewrite Ea.
  apply advanceInput_frame in Ea as (Hin1 & Hlen1 & _). apply IH; [by rewrite Hlen1|lia|].
  intros j s1 l1 Hj Hs1 Hl1. rewrite Hin1 in Hs1 by lia. apply (Hsrc j); [lia|done..].
Qed.

Lemma drainKey_total fuel key winner versions ls it seen :
  merge_inv (runs next false) ls it -> drained key seen winner versions -> agree (seen ++ remaining ls it) ->
  (length (remaining ls it) <= fuel)%nat ->
  exists it' w, drainKey next fuel key winner versions it = (it', Ok w).
Proof using.
  revert winner versions ls it seen. induction fuel as [|fuel IH]; intros winner versions ls it seen Hinv Hdr Hag Hf;
    cbn [drainKey]; destruct (head (km_heap it)) as [top|] eqn:Etop; eauto.
  { unfold remaining in Hf. destruct (km_heap it); [done|]. simpl in Hf. lia. }
  destruct (bool_decide_reflect (te_Key (mi_entry top) = key)) as [Ek|Hne]; cbn [negb]; [|eauto].
  destruct (heap_pop_total mergeHeapLess (km_heap it)) as [[item heap'] Ep]; [by destruct (km_heap it)|]. rewrite Ep.
  destruct (pop_inv _ _ _ _ _ Hinv Ep) as (_ & _ & _ & Hperm & Eh). rewrite Etop in Eh. injection Eh as ->.
  cbv zeta. destruct (mv_item _ _ _ Hinv item) as (s & l & Hs & _ & Hrun & _); [rewrite Hperm; by left|].
  destruct (advance_total (mi_input item) s l (mkMerge (km_inputs it) heap') Hs Hrun) as [it2 Ea].
  destruct (pop_advance next _ (runs_steps next false) _ _ _ _ _ Hinv Ep Ea) as (ls2 & Hinv2 & Hp2).
  assert (mi_entry item ∈ remaining ls it) as Hin by (rewrite Hp2; by left).
  assert (match versions !! te_Seq (mi_entry item) with
          | Some prior => negb (sameTableRecord (mi_entry item) prior) | None => false end = false) as Ecf.
  { destruct (versions !! te_Seq (mi_entry item)) as [p|] eqn:Ev; [|done]. apply (dr_versions _ _ _ _ Hdr) in Ev as [Hps Hpq].
    rewrite Hag; [done|set_solver|set_solver| |done]. by rewrite Ek, (dr_key _ _ _ _ Hdr p Hps). }
  rewrite Ecf, Ea, !cloneTableEntry_id.
  apply (IH _ _ ls2 it2 (mi_entry item :: seen)); [done|by apply drained_step| |].
  - intros a b Ha Hb. apply Hag; rewrite Hp2; set_solver.
  - apply Permutation_length in Hp2. simpl in Hp2. lia.
Qed.

Lemma merge_Next_total fuel ls it :
  merge_inv (runs next false) ls it -> agree (remaining ls it) -> (length (remaining ls it) <= fuel)%nat ->
  exists it' r, merge_Next next fuel it = (it', Ok r).
Proof using.
  intros Hinv Hag Hf. unfold merge_Next. destruct (head (km_heap it)); [|eauto].
  by apply (drainKey_total fuel _ None ∅ ls it []); [|apply drained_nil|..].
Qed.

Lemma mergeAll_total fuel n ls it :
  merge_inv (runs next false) ls it -> agree (remaining ls it) ->
  (length (remaining ls it) <= fuel)%nat -> (length (remaining ls it) < n)%nat ->
  exists out, mergeAll next fuel n it = Ok out.
Proof using.
  revert ls it. induction n as [|n IH]; intros ls it Hinv Hag Hf Hn; [lia|]. cbn [mergeAll].
  destruct (merge_Next_total fuel ls it Hinv Hag Hf) as (it' & r & E). rewrite E. destruct r as [w|]; [|eauto].
  apply (merge_Next_ok next _ (runs_steps next false) _ ls) in E as (ls' & seen & Hinv' & Hp & Hw & _); [|done].
  apply Permutation_length in Hp as Hl. rewrite length_app in Hl.
  assert (0 < length seen)%nat by (destruct seen; [by apply elem_of_nil in Hw|simpl; lia]).
  destruct (IH ls' it') as [out ->]; [done| |lia|lia|simpl; eauto].
  intros a b Ha Hb. apply Hag; rewrite Hp; set_solver.
Qed.
End total.

(** The order of the inputs does not matter to what a merge yields. *)
#[export] Instance merged_proper : Proper ((≡ₚ) ==> eq ==> iff) merged.
Proof.
  assert (forall R R' out, R ≡ₚ R' -> merged R out -> merged R' out) as Himp.
  { intros R R' out Hp [Hs Hf Hn Hm]. split; [done|..].
    - intros e He. rewrite <- Hp. by apply Hf.
    - intros e He. rewrite <- Hp in He. by apply Hn.
    - intros a b Ha Hb. rewrite <- Hp in Ha, Hb. by apply Hm. }
  intros R R' Hp out out' <-. split; apply Himp; [done|by symmetry].
Qed.

(** A merge that completes has merged its inputs. *)
Lemma merge_completed {It} (next : It -> It * result (option TableEntry)) flaky inputs lists fuel n it out :
  Forall2 (runs next flaky) inputs lists -> Forall table_sorted lists ->
  newKWayMergeIterator next inputs = Ok it -> mergeAll next fuel n it = Ok out -> merged (concat lists) out.
Proof.
  intros Hrun Hs Eit Eout.
  destruct (newKWayMergeIterator_ok next _ (runs_steps next flaky) _ _ _ Hrun Hs Eit) as (ls & Hinv & Hp).
  apply (mergeAll_ok next _ (runs_steps next flaky) _ _ ls) in Eout; [|done]. by rewrite Hp in Eout.
Qed.

(** * The claims *)

(** The iterators of a compaction over its input tables. *)
Definition tableIterators (inputs : list SSTableReader) : list sstableEntryIterator := newSSTableEntryIterator <$> inputs.

(** C29. The iterator of compaction streams a table without holding it in memory: one call
    of [Next] after the other it yields exactly the records [AllEntries] would have
    returned at once, in the same order, and then reports the end. *)
Theorem table_iterator_streams rd es :
  AllEntries rd = Some (Ok es) -> sr_entryCount rd <= max_u64 ->
  runs it_Next false (newSSTableEntryIterator rd) es.
Proof.
  intros H Hu. destruct (table_reader_all rd es H Hu) as (bs & Hrd & <-). by apply iterator_runs.
Qed.

Lemma tables_run rds lists :
  Forall2 (fun rd es => AllEntries rd = Some (Ok es) /\ sr_entryCount rd <= max_u64) rds lists ->
  Forall2 (runs it_Next false) (tableIterators rds) lists /\ Forall table_sorted lists.
Proof.
  intros H. split.
  - apply Forall2_fmap_l. eapply Forall2_impl; [exact H|]. intros rd es [Ha Hu]. simpl.
    destruct (table_reader_all rd es Ha Hu) as (bs & Hrd & <-). by apply iterator_runs.
  - induction H as [|rd es rds lists [Ha Hu] H IH]; constructor; [|done]. unfold AllEntries in Ha.
    destruct (allEntriesLoop rd (sr_index rd) []) as [[entries|]|] eqn:E; try done.
    apply allEntriesLoop_sound in E as [Hs _]; [|constructor|by intros e ?%elem_of_nil].
    assert (entries = es) as ->; [|done]. destruct (negb _) in Ha; [done|].
    destruct (head entries), (last entries); try destruct (_ || _) in Ha; congruence.
Qed.

(** C28. The k-way merge over tables that agree on every version ends and yields, in key
    order, exactly one record for every key of the inputs: the one with the highest
    sequence number, tombstones included. As many iterations as there are records are
    enough for every loop. *)
Theorem merge_terminates rds lists fuel n :
  Forall2 (fun rd es => AllEntries rd = Some (Ok es) /\ sr_entryCount rd <= max_u64) rds lists ->
  agree (concat lists) -> (length (concat lists) <= fuel)%nat -> (length (concat lists) < n)%nat ->
  exists it out, newKWayMergeIterator it_Next (tableIterators rds) = Ok it /\
    mergeAll it_Next fuel n it = Ok out /\ merged (concat lists) out.
Proof.
  intros H Hag Hf Hn. apply tables_run in H as [Hrun Hs].
  destruct (startInputs_total it_Next (length (tableIterators rds)) 0 (mkMerge (tableIterators rds) []) lists) as [it Eit];
    cbn [km_inputs]; [by apply Forall2_length in Hrun|by apply Forall2_length in Hrun|intros j s l _ ? ?; by eapply Forall2_lookup_lr|].
  destruct (newKWayMergeIterator_ok it_Next _ (runs_steps it_Next false) _ _ _ Hrun Hs Eit) as (ls & Hinv & Hp).
  destruct (mergeAll_total it_Next fuel n ls it Hinv) as [out Eout].
  - intros a b Ha Hb. rewrite Hp in Ha, Hb. by apply Hag.
  - by rewrite Hp.
  - by rewrite Hp.
  - exists it, out. split_and!; [done..|]. apply (mergeAll_ok it_Next _ (runs_steps it_Next false) _ _ ls) in Eout; [|done].
    by rewrite <- Hp.
Qed.

(** Whatever errors reading the inputs meets, a merge that completes has yielded the
    newest record of every key and has seen no two inputs disagree: conflicting records
    with the same key and sequence number are never resolved silently. *)
Theorem merge_sound {It} (next : It -> It * result (option TableEntry)) inputs lists fuel n it out :
  Forall2 (runs next true) inputs lists -> Forall table_sorted lists ->
  newKWayMergeIterator next inputs = Ok it -> mergeAll next fuel n it = Ok out ->
  merged (concat lists) out /\ agree (concat lists).
Proof.
  intros Hrun Hs Eit Eout. pose proof (merge_completed next true _ _ _ _ _ _ Hrun Hs Eit Eout) as Hm.
  split; [done|]. exact (mg_same _ _ Hm).
Qed.

(** * Size classes *)

(** The loop at the boundary of [class]: [class] of them are below [size]. *)
Lemma sizeClassLoop_ok fuel size k :
  0 <= size <= max_i64 -> 4096 * 4 ^ k <= size -> 0 <= k <= 25 -> (26 - k <= Z.of_nat fuel) ->
  let c := sizeClassLoop fuel size (k + 1) (4096 * 4 ^ (k + 1)) in
  k + 1 <= c <= 26 /\ 4096 * 4 ^ (c - 1) <= size /\ (size < 4096 * 4 ^ c \/ c = 26).
Proof.
  revert k. induction fuel as [|fuel IH]; intros k Hsz Hlow Hk Hf; [simpl in Hf; lia|]. cbn [sizeClassLoop]. cbv zeta.
  destruct (Z.ltb_spec size (4096 * 4 ^ (k + 1))) as [Hlt|Hge].
  { replace (k + 1 - 1) with k by lia. split_and!; [lia|lia|done|by left]. }
  assert (k <= 24) as Hk24.
  { destruct (decide (k = 25)) as [->|]; [|lia]. unfold max_i64 in Hsz. change (4 ^ (25 + 1)) with 4503599627370496 in Hge. lia. }
  unfold sizeClassGrowth, max_i64. change (9223372036854775807 / 4) with 2305843009213693951.
  destruct (Z.ltb_spec 2305843009213693951 (4096 * 4 ^ (k + 1))) as [Hbig|Hsmall].
  - assert (k = 24) as ->.
    { destruct (decide (k = 24)); [done|]. assert (4 ^ (k + 1) <= 4 ^ 24) by (apply Z.pow_le_mono_r; lia).
      change (4 ^ 24) with 281474976710656 in *. lia. }
    change (24 + 1 + 1 - 1) with (24 + 1). split_and!; [lia|lia|done|by right].
  - replace (4096 * 4 ^ (k + 1) * 4) with (4096 * 4 ^ (k + 1 + 1)) by (rewrite (Z.pow_add_r 4 (k + 1) 1) by lia; lia).
    apply (IH (k + 1)) in Hge; [|done|lia|lia]. destruct Hge as (? & ? & ?). split_and!; try done; lia.
Qed.

(** The size class of a table of any [int64] size is at most 26, and for every class
    below the last [size] lies in the half-open interval of the class: class 0 is below
    4 KiB, class [c] is [[4096 * 4^(c-1), 4096 * 4^c)]; the multiplication of the boundary
    never passes [MaxInt64]. *)
Theorem tableSizeClass_bounds size :
  0 <= size <= max_i64 ->
  let c := tableSizeClass size in
  0 <= c <= 26 /\ (c = 0 <-> size < 4096) /\ (0 < c -> 4096 * 4 ^ (c - 1) <= size) /\ (size < 4096 * 4 ^ c \/ c = 26).
Proof.
  intros Hsz. unfold tableSizeClass, sizeClassBaseBytes, dataBlockTarget, sizeClassGrowth.
  destruct (Z.ltb_spec size 4096) as [Hlt|Hge]; cbv zeta.
  - split_and!; [lia..|left; simpl; lia].
  - pose proof (sizeClassLoop_ok 64 size 0 Hsz) as H. change (4096 * 4 ^ 0) with 4096 in H.
    change (4096 * 4 ^ (0 + 1)) with (4096 * 4) in H. change (0 + 1) with 1 in H.
    specialize (H Hge ltac:(lia) ltac:(lia)). cbv zeta in H. destruct H as (H1 & H2 & H3).
    split_and!; try done; lia.
Qed.

(** * Witnesses *)

Definition demo_newer : list TableEntry :=
  [mkTableEntry [Byte.x61] 9 [] true; mkTableEntry [Byte.x63] 11 [Byte.x34] false].

Definition demo_reader_of (es : list TableEntry) : result SSTableReader :=
  match buildTable es with
  | Some (Ok table) => OpenSSTable (memory_file table) (Z.of_nat (length table))
  | _ => Err ""
  end.

Lemma demo_readers :
  exists r1 r2, demo_reader_of demo_entries = Ok r1 /\ demo_reader_of demo_newer = Ok r2 /\
    AllEntries r1 = Some (Ok demo_entries) /\ AllEntries r2 = Some (Ok demo_newer) /\
    sr_entryCount r1 <= max_u64 /\ sr_entryCount r2 <= max_u64.
Proof.
  assert (exists r1, demo_reader_of demo_entries = Ok r1 /\ AllEntries r1 = Some (Ok demo_entries) /\ (sr_entryCount r1 <=? max_u64) = true)
    as (r1 & E1 & A1 & U1) by (eexists; split; [vm_compute; reflexivity|]; split; vm_compute; reflexivity).
  assert (exists r2, demo_reader_of demo_newer = Ok r2 /\ AllEntries r2 = Some (Ok demo_newer) /\ (sr_entryCount r2 <=? max_u64) = true)
    as (r2 & E2 & A2 & U2) by (eexists; split; [vm_compute; reflexivity|]; split; vm_compute; reflexivity).
  exists r1, r2. apply Z.leb_le in U1, U2. exact (conj E1 (conj E2 (conj A1 (conj A2 (conj U1 U2))))).
Qed.

Lemma demo_agree : agree (demo_entries ++ demo_newer).
Proof.
  assert (forallb (fun a => forallb (fun b => negb (bool_decide (te_Key a = te_Key b) && (te_Seq a =? te_Seq b)) || sameTableRecord a b)
    (demo_entries ++ demo_newer)) (demo_entries ++ demo_newer) = true) as H by (vm_compute; reflexivity).
  intros a b Ha Hb Ek Eq. rewrite forallb_forall in H. specialize (H a (proj1 (list_elem_of_In _ _) Ha)). rewrite forallb_forall in H.
  specialize (H b (proj1 (list_elem_of_In _ _) Hb)). rewrite bool_decide_eq_true_2, Eq, Z.eqb_refl in H by done. exact H.
Qed.

Lemma table_iterator_streams_witness :
  exists rd, demo_reader_of demo_entries = Ok rd /\ runs it_Next false (newSSTableEntryIterator rd) demo_entries.
Proof.
  destruct demo_readers as (r1 & r2 & E1 & E2 & A1 & A2 & U1 & U2). exists r1. split; [exact E1|].
  exact (table_iterator_streams r1 demo_entries A1 U1).
Defined.

Lemma merge_terminates_witness :
  exists r1 r2 it out, demo_reader_of demo_entries = Ok r1 /\ demo_reader_of demo_newer = Ok r2 /\
    newKWayMergeIterator it_Next (tableIterators [r1; r2]) = Ok it /\
    mergeAll it_Next 5 6 it = Ok out /\ merged (demo_entries ++ demo_newer) out.
Proof.
  destruct demo_readers as (r1 & r2 & E1 & E2 & A1 & A2 & U1 & U2).
  destruct (merge_terminates [r1; r2] [demo_entries; demo_newer] 5 6) as (it & out & H1 & H2 & H3).
  - repeat constructor; assumption.
  - exact demo_agree.
  - simpl. lia.
  - simpl. lia.
  - exists r1, r2, it, out. exact (conj E1 (conj E2 (conj H1 (conj H2 H3)))).
Defined.

(** A source that hands out a list. *)
Definition list_next (l : list TableEntry) : list TableEntry * result (option TableEntry) :=
  match l with [] => ([], Ok None) | e :: l' => (l', Ok (Some e)) end.

Lemma list_runs l : runs list_next true l l.
Proof. induction l as [|e l IH]; right; simpl; [done|]. done. Qed.

Lemma merge_sound_witness :
  exists it out, newKWayMergeIterator list_next [demo_newer; demo_newer] = Ok it /\ mergeAll list_next 4 5 it = Ok out /\
    merged (concat [demo_newer; demo_newer]) out /\ agree (concat [demo_newer; demo_newer]).
Proof.
  eexists _, _. split; [vm_compute; reflexivity|]. split; [vm_compute; reflexivity|].
  eapply (merge_sound list_next [demo_newer; demo_newer] [demo_newer; demo_newer] 4 5).
  - repeat constructor; apply list_runs.
  - repeat constructor; apply precedes_valid; reflexivity.
  - vm_compute; reflexivity.
  - vm_compute; reflexivity.
Defined.

Lemma tableSizeClass_bounds_witness :
  tableSizeClass 70000 = 3 /\
  (let c := tableSizeClass 70000 in
   0 <= c <= 26 /\ (c = 0 <-> 70000 < 4096) /\ (0 < c -> 4096 * 4 ^ (c - 1) <= 70000) /\ (70000 < 4096 * 4 ^ c \/ c = 26)).
Proof. split; [reflexivity|]. apply (tableSizeClass_bounds 70000). unfold max_i64. lia. Defined.
