(* ===== verification/EngineState.v ===== *)
(** The state of the LSM engine (internal/lsm/engine.go) and the file system it runs on.

    Every call of an [FS] or [File] method is answered by the next of an arbitrary sequence
    of answers: an operation is a function from the [Store], which holds the engine, the
    files and the number of calls so far, to the [Store] after it and what it returns.  An
    answer can be an error at any call; a failed [Create] or [Remove] may have had its
    effect or not, a write may take a part of the bytes, and any single read of a table
    may fail.  What the files hold is not up to the answers: a read that succeeds returns
    the bytes that were written.

    A file handle is the name of its file: a name is created at most once by an engine
    ([Create] is exclusive and file numbers only grow) and a handle is only read while its
    name exists.  The lock of the engine makes every operation atomic.  The random source
    is shared by all memtables and is kept with the active one. *)

From Stdlib Require Import Ascii.
From stdpp Require Import pretty.
From S2P Require Import Prelude Proto RaftLog RaftNode Storage Bytes WalRecords DiskLog MapSM Bloom SkipList SSTable Manifest Merge.

(** * Data *)

Record immutableMemtable : Type := mkImmutable {
  im_list : skipList;
  im_count : Z;
  im_maxSeq : Z;
  im_watermark : Z;
}.

Record tableHandle : Type := mkTableHandle {
  th_metadata : fileMetadata;
  th_reader : SSTableReader;
  th_size : Z;
}.

(** [th_metadata.file], which also stands for the handle's [File]. *)
Definition th_file (t : tableHandle) : string := fm_file (th_metadata t).

(** [obsoleteFile]; [ob_open] when its [file] is not nil. *)
Record obsoleteFile : Type := mkObsolete {
  ob_path : string;
  ob_open : bool;
}.

Record Engine : Type := mkEngine {
  eg_list : skipList;
  eg_activeSize : Z;
  eg_activeCount : Z;
  eg_activeMaxSeq : Z;
  eg_immutables : list immutableMemtable;
  eg_flushThreshold : Z;
  eg_appliedIndex : Z;
  eg_manifest : manifestState;
  eg_tables : list tableHandle;
  eg_nextFileNumber : Z;
  eg_fs : bool;
  eg_poisoned : option error;
  eg_unresolved : list string;
  eg_obsolete : list obsoleteFile;
  eg_obsoleteDirDirty : bool;
  eg_disableAutoCompaction : bool;
  eg_readWithBloom : bool;
  eg_completedFlushes : Z;
  eg_completedCompactions : Z;
  eg_closed : bool;
}.

Definition set_active (l : skipList) (size count maxSeq : Z) (e : Engine) : Engine :=
  mkEngine l size count maxSeq (eg_immutables e) (eg_flushThreshold e) (eg_appliedIndex e) (eg_manifest e) (eg_tables e)
    (eg_nextFileNumber e) (eg_fs e) (eg_poisoned e) (eg_unresolved e) (eg_obsolete e) (eg_obsoleteDirDirty e)
    (eg_disableAutoCompaction e) (eg_readWithBloom e) (eg_completedFlushes e) (eg_completedCompactions e) (eg_closed e).

Definition set_immutables (v : list immutableMemtable) (e : Engine) : Engine :=
  mkEngine (eg_list e) (eg_activeSize e) (eg_activeCount e) (eg_activeMaxSeq e) v (eg_flushThreshold e)
    (eg_appliedIndex e) (eg_manifest e) (eg_tables e) (eg_nextFileNumber e) (eg_fs e) (eg_poisoned e) (eg_unresolved e)
    (eg_obsolete e) (eg_obsoleteDirDirty e) (eg_disableAutoCompaction e) (eg_readWithBloom e) (eg_completedFlushes e)
    (eg_completedCompactions e) (eg_closed e).

Definition set_appliedIndex (v : Z) (e : Engine) : Engine :=
  mkEngine (eg_list e) (eg_activeSize e) (eg_activeCount e) (eg_activeMaxSeq e) (eg_immutables e) (eg_flushThreshold e)
    v (eg_manifest e) (eg_tables e) (eg_nextFileNumber e) (eg_fs e) (eg_poisoned e) (eg_unresolved e) (eg_obsolete e)
    (eg_obsoleteDirDirty e) (eg_disableAutoCompaction e) (eg_readWithBloom e) (eg_completedFlushes e)
    (eg_completedCompactions e) (eg_closed e).

Definition set_manifest (v : manifestState) (e : Engine) : Engine :=
  mkEngine (eg_list e) (eg_activeSize e) (eg_activeCount e) (eg_activeMaxSeq e) (eg_immutables e) (eg_flushThreshold e)
    (eg_appliedIndex e) v (eg_tables e) (eg_nextFileNumber e) (eg_fs e) (eg_poisoned e) (eg_unresolved e)
    (eg_obsolete e) (eg_obsoleteDirDirty e) (eg_disableAutoCompaction e) (eg_readWithBloom e) (eg_completedFlushes e)
    (eg_completedCompactions e) (eg_closed e).

Definition set_tables (v : list tableHandle) (e : Engine) : Engine :=
  mkEngine (eg_list e) (eg_activeSize e) (eg_activeCount e) (eg_activeMaxSeq e) (eg_immutables e) (eg_flushThreshold e)
    (eg_appliedIndex e) (eg_manifest e) v (eg_nextFileNumber e) (eg_fs e) (eg_poisoned e) (eg_unresolved e)
    (eg_obsolete e) (eg_obsoleteDirDirty e) (eg_disableAutoCompaction e) (eg_readWithBloom e) (eg_completedFlushes e)
    (eg_completedCompactions e) (eg_closed e).

Definition set_nextFileNumber (v : Z) (e : Engine) : Engine :=
  mkEngine (eg_list e) (eg_activeSize e) (eg_activeCount e) (eg_activeMaxSeq e) (eg_immutables e) (eg_flushThreshold e)
    (eg_appliedIndex e) (eg_manifest e) (eg_tables e) v (eg_fs e) (eg_poisoned e) (eg_unresolved e) (eg_obsolete e)
    (eg_obsoleteDirDirty e) (eg_disableAutoCompaction e) (eg_readWithBloom e) (eg_completedFlushes e)
    (eg_completedCompactions e) (eg_closed e).

Definition set_poisoned (v : option error) (e : Engine) : Engine :=
  mkEngine (eg_list e) (eg_activeSize e) (eg_activeCount e) (eg_activeMaxSeq e) (eg_immutables e) (eg_flushThreshold e)
    (eg_appliedIndex e) (eg_manifest e) (eg_tables e) (eg_nextFileNumber e) (eg_fs e) v (eg_unresolved e)
    (eg_obsolete e) (eg_obsoleteDirDirty e) (eg_disableAutoCompaction e) (eg_readWithBloom e) (eg_completedFlushes e)
    (eg_completedCompactions e) (eg_closed e).

Definition set_unresolved (v : list string) (e : Engine) : Engine :=
  mkEngine (eg_list e) (eg_activeSize e) (eg_activeCount e) (eg_activeMaxSeq e) (eg_immutables e) (eg_flushThreshold e)
    (eg_appliedIndex e) (eg_manifest e) (eg_tables e) (eg_nextFileNumber e) (eg_fs e) (eg_poisoned e) v (eg_obsolete e)
    (eg_obsoleteDirDirty e) (eg_disableAutoCompaction e) (eg_readWithBloom e) (eg_completedFlushes e)
    (eg_completedCompactions e) (eg_closed e).

Definition set_obsolete (v : list obsoleteFile) (e : Engine) : Engine :=
  mkEngine (eg_list e) (eg_activeSize e) (eg_activeCount e) (eg_activeMaxSeq e) (eg_immutables e) (eg_flushThreshold e)
    (eg_appliedIndex e) (eg_manifest e) (eg_tables e) (eg_nextFileNumber e) (eg_fs e) (eg_poisoned e) (eg_unresolved e)
    v (eg_obsoleteDirDirty e) (eg_disableAutoCompaction e) (eg_readWithBloom e) (eg_completedFlushes e)
    (eg_completedCompactions e) (eg_closed e).

Definition set_obsoleteDirDirty (v : bool) (e : Engine) : Engine :=
  mkEngine (eg_list e) (eg_activeSize e) (eg_activeCount e) (eg_activeMaxSeq e) (eg_immutables e) (eg_flushThreshold e)
    (eg_appliedIndex e) (eg_manifest e) (eg_tables e) (eg_nextFileNumber e) (eg_fs e) (eg_poisoned e) (eg_unresolved e)
    (eg_obsolete e) v (eg_disableAutoCompaction e) (eg_readWithBloom e) (eg_completedFlushes e)
    (eg_completedCompactions e) (eg_closed e).

Definition set_completedFlushes (v : Z) (e : Engine) : Engine :=
  mkEngine (eg_list e) (eg_activeSize e) (eg_activeCount e) (eg_activeMaxSeq e) (eg_immutables e) (eg_flushThreshold e)
    (eg_appliedIndex e) (eg_manifest e) (eg_tables e) (eg_nextFileNumber e) (eg_fs e) (eg_poisoned e) (eg_unresolved e)
    (eg_obsolete e) (eg_obsoleteDirDirty e) (eg_disableAutoCompaction e) (eg_readWithBloom e) v
    (eg_completedCompactions e) (eg_closed e).

Definition set_completedCompactions (v : Z) (e : Engine) : Engine :=
  mkEngine (eg_list e) (eg_activeSize e) (eg_activeCount e) (eg_activeMaxSeq e) (eg_immutables e) (eg_flushThreshold e)
    (eg_appliedIndex e) (eg_manifest e) (eg_tables e) (eg_nextFileNumber e) (eg_fs e) (eg_poisoned e) (eg_unresolved e)
    (eg_obsolete e) (eg_obsoleteDirDirty e) (eg_disableAutoCompaction e) (eg_readWithBloom e) (eg_completedFlushes e) v
    (eg_closed e).

Definition set_closed (v : bool) (e : Engine) : Engine :=
  mkEngine (eg_list e) (eg_activeSize e) (eg_activeCount e) (eg_activeMaxSeq e) (eg_immutables e) (eg_flushThreshold e)
    (eg_appliedIndex e) (eg_manifest e) (eg_tables e) (eg_nextFileNumber e) (eg_fs e) (eg_poisoned e) (eg_unresolved e)
    (eg_obsolete e) (eg_obsoleteDirDirty e) (eg_disableAutoCompaction e) (eg_readWithBloom e) (eg_completedFlushes e)
    (eg_completedCompactions e) v.

(** * The file system *)

Record fsError : Type := mkFsError {
  fe_msg : error;
  fe_notExist : bool;
  fe_closed : bool;
}.

(** The answer to one call. *)
Record answer : Type := mkAnswer {
  an_err : option fsError;
  an_effect : bool;
  an_written : Z;
  an_isDir : bool;
  an_readFails : Z -> Z -> bool;
  an_manifest : ManifestFS;
}.

Record Store : Type := mkStore {
  st_engine : Engine;
  st_tables : gmap string file;
  st_manifest : option file;
  st_clock : nat;
}.

(** [errors.Join] of two errors. *)
Definition errors_Join (a b : option error) : option error :=
  match a, b with
  | None, b => b
  | a, None => a
  | Some x, Some y => Some (x +:+ "; " +:+ y)
  end.

(** Operations: a state monad over [Store]. *)
Definition M (A : Type) : Type := Store -> Store * A.

Definition eret {A} (a : A) : M A := fun s => (s, a).
Definition ebind {A B} (m : M A) (k : A -> M B) : M B := fun s => let '(s', a) := m s in k a s'.

Notation "x <-e c1 ; c2" := (ebind c1 (fun x => c2)) (at level 80, c1 at next level, right associativity) : go_scope.
Notation "c1 ;e c2" := (ebind c1 (fun _ => c2)) (at level 80, right associativity) : go_scope.

Definition gets {A} (f : Engine -> A) : M A := fun s => (s, f (st_engine s)).
Definition modify (f : Engine -> Engine) : M unit :=
  fun s => (mkStore (f (st_engine s)) (st_tables s) (st_manifest s) (st_clock s), tt).
Definition put_tables (t : gmap string file) : M unit :=
  fun s => (mkStore (st_engine s) t (st_manifest s) (st_clock s), tt).
Definition get_tables : M (gmap string file) := fun s => (s, st_tables s).
Definition put_manifest (m : option file) : M unit :=
  fun s => (mkStore (st_engine s) (st_tables s) m (st_clock s), tt).
Definition get_manifest : M (option file) := fun s => (s, st_manifest s).

Section files.
Context (answers : nat -> answer).

(** The answer to the next call. *)
Definition ask : M answer :=
  fun s => (mkStore (st_engine s) (st_tables s) (st_manifest s) (S (st_clock s)), answers (st_clock s)).

Definition err_exist : fsError := mkFsError "lsm fs: file already exists" false false.
Definition err_not_exist : fsError := mkFsError "lsm fs: file does not exist" true false.

Definition new_file : file := mkFile [] 0 false.

(** [FS.Create]. *)
Definition fs_Create (name : string) : M (option fsError) :=
  a <-e ask ;
  t <-e get_tables ;
  match an_err a, t !! name with
  | Some e, Some _ => eret (Some e)
  | Some e, None => put_tables (if an_effect a then <[name := new_file]> t else t) ;e eret (Some e)
  | None, Some _ => eret (Some err_exist)
  | None, None => put_tables (<[name := new_file]> t) ;e eret None
  end.

(** The bytes a write takes: at most as many as an [int] counts. *)
Definition taken (a : answer) (data : bytes) : Z :=
  Z.max 0 (Z.min (an_written a) (Z.min (Z.of_nat (length data)) max_i64)).

(** The file after a write of [n] bytes of [data]. *)
Definition append_file (data : bytes) (n : Z) (f : file) : file :=
  mkFile (content f ++ take (Z.to_nat n) data) (synced f) (named f).

Definition file_Sync (name : string) : M (option fsError) :=
  a <-e ask ;
  match an_err a with
  | Some e => eret (Some e)
  | None => t <-e get_tables ; put_tables (alter sync_file name t) ;e eret None
  end.

Definition file_Close (name : string) : M (option fsError) := a <-e ask ; eret (an_err a).

(** [FS.SyncDir]: the names of the directory are durable. *)
Definition fs_SyncDir : M (option fsError) :=
  a <-e ask ;
  match an_err a with
  | Some e => eret (Some e)
  | None =>
      t <-e get_tables ; put_tables (name_file <$> t) ;e
      m <-e get_manifest ; put_manifest (name_file <$> m) ;e
      eret None
  end.

Definition fs_Remove (name : string) : M (option fsError) :=
  a <-e ask ;
  t <-e get_tables ;
  match an_err a, t !! name with
  | Some e, _ => put_tables (if an_effect a then delete name t else t) ;e eret (Some e)
  | None, None => eret (Some err_not_exist)
  | None, Some _ => put_tables (delete name t) ;e eret None
  end.

(** [FS.Stat]: the size and whether it is a directory. *)
Definition fs_Stat (name : string) : M (result (Z * bool)) :=
  a <-e ask ;
  t <-e get_tables ;
  match an_err a, t !! name with
  | Some e, _ => eret (Err (fe_msg e))
  | None, None => eret (Err (fe_msg err_not_exist))
  | None, Some f => eret (Ok (Z.of_nat (length (content f)), an_isDir a))
  end.

(** [FS.Open] of an existing file. *)
Definition fs_Open (name : string) : M (option fsError) :=
  a <-e ask ;
  t <-e get_tables ;
  match an_err a, t !! name with
  | Some e, _ => eret (Some e)
  | None, None => eret (Some err_not_exist)
  | None, Some _ => eret None
  end.

(** [FS.List], in name order. *)
Definition fs_List : M (result (list string)) :=
  a <-e ask ;
  t <-e get_tables ;
  m <-e get_manifest ;
  match an_err a with
  | Some e => eret (Err (fe_msg e))
  | None => eret (Ok (sort_by String.leb (match m with Some _ => ["MANIFEST"] | None => [] end ++ (map_to_list t).*1)))
  end.

(** [ReadAt] of a file that holds [data]: an error where the answer says so, otherwise the
    bytes, with [io.EOF] when there are fewer than asked for. *)
Definition readAt (fails : Z -> Z -> bool) (data : bytes) : ReaderAt :=
  fun off len =>
    if fails off len then ([], Some false)
    else
      let bs := take (Z.to_nat len) (drop (Z.to_nat off) data) in
      (bs, if Z.of_nat (length bs) <? len then Some true else None).

(** The reader of the open handle [name] during the next read. *)
Definition file_reader (name : string) : M ReaderAt :=
  a <-e ask ;
  t <-e get_tables ;
  match t !! name with
  | Some f => eret (readAt (an_readFails a) (content f))
  | None => eret (fun _ _ => ([], Some false))
  end.
End files.

(** [rd] reading through [r]. *)
Definition with_reader (r : ReaderAt) (rd : SSTableReader) : SSTableReader :=
  mkSSTableReader r (sr_size rd) (sr_index rd) (sr_bloom rd) (sr_entryCount rd) (sr_minKey rd) (sr_maxKey rd).
