(* ===== verification/TableReads.v ===== *)
(** Reading a table through a file whose reads may fail: an operation of the reader either
    reports an error or returns what it returns on a file that always reads. *)

From S2P Require Import Prelude Bytes Bloom SSTable SSTableFacts SSTableSpec Heap Merge MergeFacts MergeSpec.
From S2P Require Import DiskLog Manifest EngineState.

Definition never (_ _ : Z) : bool := false.

(** The file of [data] that always reads. *)
Definition solid (data : bytes) : ReaderAt := readAt never data.

(** [r'] is [r] or an error. *)
Definition or_error {A} (r' r : result A) : Prop := (exists m, r' = Err m) \/ r' = r.

Lemma or_error_refl {A} (r : result A) : or_error r r.
Proof. by right. Qed.

Lemma or_error_bind {A B} (r' r : result A) (k' k : A -> result B) :
  or_error r' r -> (forall a, r = Ok a -> or_error (k' a) (k a)) -> or_error (rbind r' k') (rbind r k).
Proof.
  intros [[m ->]| ->] Hk; [left; by exists m|]. destruct r as [a|m]; simpl; [by apply Hk|left; by exists m].
Qed.

Section flaky.
Context (fails : Z -> Z -> bool) (data : bytes).
Notation r' := (readAt fails data).
Notation r := (solid data).

Lemma readAtFull_flaky len off : or_error (readAtFull r' len off) (readAtFull r len off).
Proof.
  unfold readAtFull, solid, readAt, never. destruct (fails off len); [|by right]. left.
  destruct (negb _); eauto.
Qed.

Lemma readBlock_flaky off len : or_error (readBlock r' off len) (readBlock r off len).
Proof.
  unfold readBlock. destruct (_ || _); [by right|]. destruct (uint64ToInt len) as [n|]; [|by right].
  destruct (readAtFull_flaky n off) as [[m ->]| ->]; [left; eauto|by right].
Qed.

Lemma readRecords_flaky rd block :
  or_error (readRecords (with_reader r' rd) block) (readRecords (with_reader r rd) block).
Proof. unfold readRecords. cbn [sr_r with_reader]. apply or_error_bind; [apply readBlock_flaky|]. intros. by right. Qed.

(** Opening. *)
Definition reopened (x' x : result SSTableReader) : Prop :=
  (exists m, x' = Err m) \/ exists rd, x = Ok rd /\ x' = Ok (with_reader r' rd).

Lemma reopened_bind {A} (r1 r2 : result A) (k' k : A -> result SSTableReader) :
  or_error r1 r2 -> (forall a, reopened (k' a) (k a)) -> reopened (rbind r1 k') (rbind r2 k).
Proof. intros [[m ->]| ->] Hk; [left; by exists m|]. destruct r2 as [a|m]; simpl; [apply Hk|left; by exists m]. Qed.

Lemma openBlocks_flaky size footerStart metadata :
  reopened (openBlocks r' size footerStart metadata) (openBlocks r size footerStart metadata).
Proof.
  unfold openBlocks. cbv zeta. destruct (_ || _); [left; eauto|]. destruct (_ || _); [left; eauto|].
  apply reopened_bind; [apply readBlock_flaky|]. intros indexData. apply reopened_bind; [by right|]. intros index.
  destruct (negb _); [left; eauto|]. destruct (negb _); [left; eauto|].
  apply reopened_bind; [apply readBlock_flaky|]. intros bloomData.
  destruct (UnmarshalBloomFilter bloomData); [|left; eauto]. destruct (_ && _); [left; eauto|].
  right. by eexists.
Qed.

Lemma OpenSSTable_flaky size : reopened (OpenSSTable r' size) (OpenSSTable r size).
Proof.
  unfold OpenSSTable. destruct (size <? footerTrailer); [left; eauto|].
  destruct (readAtFull_flaky footerTrailer (size - footerTrailer)) as [[m ->]| ->]; [left; eauto|].
  destruct (readAtFull r _ _) as [trailer|]; [|left; eauto]. destruct (negb _); [left; eauto|]. cbv zeta.
  destruct (_ || _); [left; eauto|]. destruct (uint64ToInt _) as [n|]; [|left; eauto].
  destruct (readAtFull_flaky n (size - footerTrailer - le_get (take 4 (drop 4 trailer)))) as [[m ->]| ->]; [left; eauto|].
  destruct (readAtFull r n _) as [metadata|]; [|left; eauto]. destruct (negb _); [left; eauto|]. apply openBlocks_flaky.
Qed.

(** Reading. *)
Definition or_error_opt {A} (x' x : option (result A)) : Prop := (exists m, x' = Some (Err m)) \/ x' = x.

Lemma sr_get_flaky key checkBloom rd :
  or_error_opt (sr_get key checkBloom (with_reader r' rd)) (sr_get key checkBloom (with_reader r rd)).
Proof.
  unfold sr_get. cbn [with_reader sr_entryCount sr_bloom sr_minKey sr_maxKey sr_index].
  destruct (_ =? 0); [by right|]. destruct (if checkBloom then _ else _) as [may|]; [|by right].
  destruct (_ || _); [by right|]. cbv zeta. destruct (sort_Search _ _) as [|i]; [by right|].
  destruct (sr_index rd !! i) as [block|]; [|by right].
  destruct (readRecords_flaky rd block) as [[m ->]| ->]; [left; eauto|by right].
Qed.

Lemma allEntriesLoop_flaky rd index acc :
  or_error_opt (allEntriesLoop (with_reader r' rd) index acc) (allEntriesLoop (with_reader r rd) index acc).
Proof.
  revert acc. induction index as [|block index IH]; intros acc; cbn [allEntriesLoop]; [by right|].
  destruct (readRecords_flaky rd block) as [[m ->]| ->]; [left; eauto|].
  destruct (readRecords (with_reader r rd) block) as [es|]; [|by right]. cbv zeta. destruct (negb _); [by right|].
  cbn [with_reader sr_bloom]. destruct (checkBloomKeys (sr_bloom rd) es) as [[]|]; [|by right..]. apply IH.
Qed.

Lemma AllEntries_flaky rd : or_error_opt (AllEntries (with_reader r' rd)) (AllEntries (with_reader r rd)).
Proof.
  unfold AllEntries. cbn [with_reader sr_index sr_entryCount sr_minKey sr_maxKey].
  destruct (allEntriesLoop_flaky rd (sr_index rd) []) as [[m ->]| ->]; [left; eauto|by right].
Qed.

Lemma table_reader_flaky rd bs : table_reader false (with_reader r rd) bs -> table_reader true (with_reader r' rd) bs.
Proof.
  intros [Hb Hn Hbl Hbo Hc Hbd]. split; try done. cbn [with_reader sr_index] in *. eapply Forall2_impl; [exact Hb|].
  intros block b [Hread|[? _]]; [|done]. unfold block_read.
  destruct (readRecords_flaky rd block) as [[m E]|E]; [right; eauto|left; congruence].
Qed.
End flaky.

(** * Tables that were written *)

(** [table] is the file of the entries [es]. *)
Record built (es : list TableEntry) (table : bytes) : Prop := {
  bt_sorted : table_sorted es;
  bt_entries : Forall entry_ok es;
  bt_table : buildTable es = Some (Ok table);
  bt_length : Z.of_nat (length table) <= max_i64;
}.

Lemma solid_reads data : reads (solid data) data.
Proof.
  intros off len Ho Hl Hb. unfold solid, readAt, never. cbn [fst snd]. split; [done|]. by case_match.
Qed.

(** The reader of [es] over its file. *)
Record reader_of (es : list TableEntry) (table : bytes) (rd : SSTableReader) : Prop := {
  ro_count : sr_entryCount rd = Z.of_nat (length es) /\ sr_entryCount rd <= max_u64;
  ro_bounds : sr_minKey rd = min_key es /\ sr_maxKey rd = max_key es;
  ro_all : AllEntries (with_reader (solid table) rd) = Some (Ok es);
  ro_get key checkBloom : sr_get key checkBloom (with_reader (solid table) rd) = Some (Ok (newest key es));
}.

Lemma built_reader es table :
  built es table -> exists rd, OpenSSTable (solid table) (Z.of_nat (length table)) = Ok rd /\ reader_of es table rd.
Proof.
  intros [Hs Hok Hb Hl]. pose proof (buildTable_length es table Hok Hb) as Hle.
  destruct (buildTable_parts es table) as (gs & blocks & ix & bd & f & meta & Hparts); [unfold max_i64 in *; lia|done|].
  pose proof (solid_reads table) as Hr. exists (opened_reader es table blocks f (solid table)). split; [by eapply OpenSSTable_ok|].
  split; [split; [done|simpl; unfold max_i64, max_u64 in *; lia]|done|by eapply AllEntries_ok|].
  intros key checkBloom. by eapply sr_get_ok.
Qed.

(** What opening and validating the file of [es] gives, whatever reads fail. *)
Lemma built_open es table fails rd :
  built es table -> OpenSSTable (readAt fails table) (Z.of_nat (length table)) = Ok rd -> reader_of es table rd.
Proof.
  intros Hb H. destruct (built_reader es table Hb) as (rd0 & E & [Hc Hbd Ha Hg]).
  destruct (OpenSSTable_flaky fails table (Z.of_nat (length table))) as [[m Em]|(rd1 & E1 & E2)]; [congruence|].
  assert (rd1 = rd0) as -> by congruence. rewrite H in E2. apply Ok_inj in E2 as ->. by split.
Qed.

Section reader.
Context (es : list TableEntry) (table : bytes) (rd : SSTableReader) (Hrd : reader_of es table rd) (fails : Z -> Z -> bool).

Lemma reader_get key checkBloom :
  or_error_opt (sr_get key checkBloom (with_reader (readAt fails table) rd)) (Some (Ok (newest key es))).
Proof using Hrd. rewrite <- (ro_get _ _ _ Hrd key checkBloom). apply sr_get_flaky. Qed.

Lemma reader_all : or_error_opt (AllEntries (with_reader (readAt fails table) rd)) (Some (Ok es)).
Proof using Hrd. rewrite <- (ro_all _ _ _ Hrd). apply AllEntries_flaky. Qed.

Lemma reader_sorted : table_sorted es.
Proof using Hrd.
  pose proof (ro_all _ _ _ Hrd) as H. unfold AllEntries in H.
  destruct (allEntriesLoop _ _ []) as [[entries|]|] eqn:E; try done.
  apply allEntriesLoop_sound in E as [Hs _]; [|constructor|by intros e ?%elem_of_nil].
  assert (entries = es) as <-; [|done]. destruct (negb _) in H; [done|].
  destruct (head entries), (last entries); try destruct (_ || _) in H; congruence.
Qed.

Lemma reader_runs : runs it_Next true (newSSTableEntryIterator (with_reader (readAt fails table) rd)) es.
Proof using Hrd.
  destruct (table_reader_all (with_reader (solid table) rd) es) as (bs & Ht & <-); [apply Hrd|apply (ro_count _ _ _ Hrd)|].
  apply iterator_runs. by apply table_reader_flaky.
Qed.
End reader.
