(* ===== verification/Engine.v ===== *)
(** The LSM engine: internal/lsm/engine.go, and the compactions of
    internal/lsm/compaction.go that run on it.

    [proto.Marshal] and [proto.Unmarshal] of version edits are the parameters [marshal] and
    [unmarshal]; [answers] are the answers of the file system (EngineState.v).  The hook
    [compactionHook], which only tests set, is not called. *)

From Stdlib Require Import Ascii.
From stdpp Require Import pretty.
From S2P Require Import Prelude Proto RaftLog RaftNode Storage Bytes WalRecords DiskLog MapSM Bloom SkipList SSTable Manifest Merge EngineState.

Definition panic : error := "panic: runtime error".
Definition defaultFileNumberWidth : nat := 6.
Definition DefaultFlushThreshold : Z := 4194304.

(** * Pure parts *)

Definition memtableEntrySize (key value : bytes) (tombstone : bool) : Z :=
  let size := Z.of_nat (length key) +u 8 +u 1 in
  let size := if negb tombstone then size +u Z.of_nat (length value) else size in
  if max_i64 <? size then max_i64 else size.

Definition checkOpenLocked (e : Engine) : option error :=
  if eg_closed e then Some "lsm: engine is closed"
  else match eg_poisoned e with
       | Some p => Some ("lsm: engine is fail-stopped after uncertain MANIFEST append: " +:+ p)
       | None => None
       end.

Definition poisonLocked (err : error) (e : Engine) : Engine :=
  match eg_poisoned e with None => set_poisoned (Some err) e | Some _ => e end.

Definition advanceAppliedForWriteLocked (seq : Z) (e : Engine) : Engine :=
  if eg_appliedIndex e <? seq then set_appliedIndex seq e else e.

Definition shouldFlushLocked (e : Engine) : bool :=
  eg_fs e && (0 <? eg_flushThreshold e) && (eg_flushThreshold e <=? eg_activeSize e).

Definition automaticFlushTargetLocked (e : Engine) : Z :=
  Z.max (eg_appliedIndex e) (mf_flushedIndex (eg_manifest e)).

(** [fmt.Sprintf("%0*d%s", defaultFileNumberWidth, number, sstableFilenameSuffix)]. *)
Definition tableFilename (number : Z) : string :=
  let digits := pretty (Z.to_N number) in
  pad0 (defaultFileNumberWidth - String.length digits) digits +:+ sstableFilenameSuffix.

(** [strings.TrimSuffix]. *)
Definition trimSuffix (name suffix : string) : string := default name (cutSuffix name suffix).

(** [strconv.ParseUint(s, 10, 64)]. *)
Definition parseUint (s : string) : option Z :=
  if bool_decide (s = "") || negb (all_digits s) then None
  else let n := digits_value 0 s in if max_u64 <? n then None else Some n.

(** One iteration of [nextFileNumber]; the order of the map does not matter. *)
Definition nextNumber (name : string) (next : Z) : Z :=
  match parseUint (trimSuffix name sstableFilenameSuffix) with
  | Some number => if (next <=? number) && negb (number =? max_u64) then number +u 1 else next
  | None => next
  end.

Definition nextFileNumber (files : gmap string fileMetadata) : Z :=
  foldr nextNumber 1 (map_to_list files).*1.

(** [slices.SortFunc] by the bytes of the file names. *)
Definition sortByFile (tables : list tableHandle) : list tableHandle :=
  sort_by (fun a b => String.leb (th_file a) (th_file b)) tables.

Definition ofTier (tier : Z) (tables : list tableHandle) : list tableHandle :=
  filter (fun t => fm_tier (th_metadata t) = tier) tables.

(** The lowest tier with enough tables, and its first tables by name. *)
Definition selectCompactionInputs (tables : list tableHandle) : option (Z * list tableHandle) :=
  let tiers := filter (fun tier => (compactionFanIn <= length (ofTier tier tables))%nat)
                 (remove_dups ((fun t => fm_tier (th_metadata t)) <$> tables)) in
  match sort_by Z.leb tiers with
  | [] => None
  | tier :: _ => Some (tier, take compactionFanIn (sortByFile (ofTier tier tables)))
  end.

(** The state of the callbacks that fill a writer: the writer, the first and the last key,
    and the count. *)
Record building : Type := mkBuilding {
  bd_writer : SSTableWriter;
  bd_firstKey : bytes;
  bd_lastKey : bytes;
  bd_count : Z;
  bd_err : option error;
}.

Definition addEntry (e : TableEntry) (b : building) : building :=
  let '(w, err) := sw_Add e (bd_writer b) in
  mkBuilding w (if bd_count b =? 0 then cloneBytes (te_Key e) else bd_firstKey b) (cloneBytes (te_Key e)) (bd_count b +u 1) err.

Definition newBuilding : building := mkBuilding NewSSTableWriter [] [] 0 None.

(** The callback of [flushOldestLocked]. *)
Definition flushEntry (key value : bytes) (tombstone : bool) (seq : Z) (b : building) : building * bool :=
  let b' := addEntry (mkTableEntry key seq value tombstone) b in
  (b', match bd_err b' with None => true | Some _ => false end).

(** The loop of [buildCompactionOutputLocked] over the merge. *)
Fixpoint addMerged {It} (next : It -> It * result (option TableEntry)) (fuel n : nat) (it : kWayMergeIterator) (b : building)
    : result building :=
  match n with
  | O => Err "out of fuel"
  | S n' =>
      match merge_Next next fuel it with
      | (_, Err m) => Err m
      | (_, Ok None) => Ok b
      | (it', Ok (Some e)) =>
          let b' := addEntry e b in
          match bd_err b' with
          | Some m => Err ("lsm: add compaction output: " +:+ m)
          | None => addMerged next fuel n' it' b'
          end
      end
  end.

(** The check of [openTableOwned] that no record is newer than allowed. *)
Definition tooNew (maxSequence : Z) (es : list TableEntry) : bool := existsb (fun e => maxSequence <? te_Seq e) es.

Section engine.
Context (answers : nat -> answer).
Context (marshal : VersionEdit -> result bytes) (unmarshal : bytes -> option VersionEdit).

Notation ask := (ask answers).

(** * Handles *)

(** [closeErr == nil || errors.Is(closeErr, ErrFSClosed)]. *)
Definition released (err : option fsError) : bool :=
  match err with None => true | Some e => fe_closed e end.

Definition closeFileRetainingLocked (name : string) : M (option error) :=
  err <-e file_Close answers name ;
  (if released err then eret tt else modify (fun e => set_unresolved (eg_unresolved e ++ [name]) e)) ;e
  eret (fe_msg <$> err).

Fixpoint closeUnresolvedLoop (files : list string) (err : option error) (unresolved : list string) : M (option error) :=
  match files with
  | [] => modify (set_unresolved unresolved) ;e eret err
  | name :: files' =>
      closeErr <-e file_Close answers name ;
      if released closeErr then closeUnresolvedLoop files' err unresolved
      else closeUnresolvedLoop files' (errors_Join err (fe_msg <$> closeErr)) (unresolved ++ [name])
  end.

Definition closeUnresolvedLocked : M (option error) :=
  files <-e gets eg_unresolved ; closeUnresolvedLoop files None [].

Fixpoint closeTablesLoop (tables : list tableHandle) (err : option error) (unresolved : list tableHandle) : M (option error) :=
  match tables with
  | [] => modify (set_tables unresolved) ;e eret err
  | t :: tables' =>
      closeErr <-e file_Close answers (th_file t) ;
      if released closeErr then closeTablesLoop tables' err unresolved
      else closeTablesLoop tables' (errors_Join err (fe_msg <$> closeErr)) (unresolved ++ [t])
  end.

Definition closeTables : M (option error) :=
  tables <-e gets eg_tables ; closeTablesLoop tables None [].

(** * Tables *)

Definition allocateFilenameLocked : M (result string) :=
  number <-e gets eg_nextFileNumber ;
  if (number =? 0) || (number =? max_u64) then eret (Err "lsm: SSTable file number exhausted")
  else modify (fun e => set_nextFileNumber (number +u 1) e) ;e eret (Ok (tableFilename number)).

(** [openTableOwned]: whether a handle was opened, and the table. *)
Definition openTableOwned (metadata : fileMetadata) (maxSequence : Z) : M (bool * result tableHandle) :=
  info <-e fs_Stat answers (fm_file metadata) ;
  match info with
  | Err m => eret (false, Err (manifestCorrupt ("stat referenced SSTable: " +:+ m)))
  | Ok (size, isDir) =>
      if isDir || (size <? 0) then eret (false, Err (manifestCorrupt "invalid stat for referenced SSTable"))
      else
        openErr <-e fs_Open answers (fm_file metadata) ;
        match openErr with
        | Some m => eret (false, Err (manifestCorrupt ("open referenced SSTable: " +:+ fe_msg m)))
        | None =>
            r <-e file_reader answers (fm_file metadata) ;
            match OpenSSTable r size with
            | Err m => eret (true, Err (manifestCorrupt ("open referenced SSTable: " +:+ m)))
            | Ok reader =>
                if negb (sr_entryCount reader =? fm_count metadata) ||
                   negb (bool_decide (sr_minKey reader = fm_minKey metadata)) ||
                   negb (bool_decide (sr_maxKey reader = fm_maxKey metadata))
                then eret (true, Err (manifestCorrupt "metadata mismatch for referenced SSTable"))
                else
                  r' <-e file_reader answers (fm_file metadata) ;
                  match AllEntries (with_reader r' reader) with
                  | None => eret (true, Err panic)
                  | Some (Err m) => eret (true, Err (manifestCorrupt ("validate referenced SSTable: " +:+ m)))
                  | Some (Ok entries) =>
                      if tooNew maxSequence entries
                      then eret (true, Err (manifestCorrupt "SSTable seq exceeds flushed_index"))
                      else eret (true, Ok (mkTableHandle metadata reader size))
                  end
            end
        end
  end.

Definition openTable (metadata : fileMetadata) (maxSequence : Z) : M (result tableHandle) :=
  o <-e openTableOwned metadata maxSequence ;
  match o with
  | (_, Ok table) => eret (Ok table)
  | (false, Err m) => eret (Err m)
  | (true, Err m) =>
      closeErr <-e closeFileRetainingLocked (fm_file metadata) ;
      eret (Err (default m (errors_Join (Some m) closeErr)))
  end.

(** [writer.Finish()] into the file [name]. *)
Definition finishWriter (name : string) (w : SSTableWriter) : M (SSTableWriter * option error) :=
  a <-e ask ;
  match sw_Finish (fun data => (taken a data, fe_msg <$> an_err a)) w with
  | None => eret (w, Some panic)
  | Some (w', handed, err) =>
      match handed with
      | None => eret (w', err)
      | Some data =>
          t <-e get_tables ;
          put_tables (alter (append_file data (taken a data)) name t) ;e
          eret (w', err)
      end
  end.

(** * Obsolete files *)

Fixpoint reconcileLoop (obsolete : list obsoleteFile) (combined : option error) (pending : list obsoleteFile) : M (option error) :=
  match obsolete with
  | [] => modify (set_obsolete pending) ;e eret combined
  | o :: obsolete' =>
      closeErr <-e (if ob_open o then file_Close answers (ob_path o) else eret None) ;
      if negb (released closeErr)
      then reconcileLoop obsolete' (errors_Join combined (fe_msg <$> closeErr)) (pending ++ [o])
      else
        modify (set_obsoleteDirDirty true) ;e
        removeErr <-e fs_Remove answers (ob_path o) ;
        match removeErr with
        | None => reconcileLoop obsolete' combined pending
        | Some e =>
            if fe_notExist e then reconcileLoop obsolete' combined pending
            else reconcileLoop obsolete' (errors_Join combined (Some (fe_msg e))) (pending ++ [mkObsolete (ob_path o) false])
        end
  end.

Definition reconcileObsoleteLocked : M (option error) :=
  configured <-e gets eg_fs ;
  if negb configured then eret None
  else
    obsolete <-e gets eg_obsolete ;
    combined <-e reconcileLoop obsolete None [] ;
    dirty <-e gets eg_obsoleteDirDirty ;
    if negb dirty then eret combined
    else
      err <-e fs_SyncDir answers ;
      match err with
      | Some e => eret (errors_Join combined (Some (fe_msg e)))
      | None => modify (set_obsoleteDirDirty false) ;e eret combined
      end.

Definition discardCompactionOutputLocked {A} (path : string) (open : bool) (cause : error) : M (result A) :=
  modify (fun e => set_obsolete (eg_obsolete e ++ [mkObsolete path open]) e) ;e
  err <-e reconcileObsoleteLocked ;
  eret (Err (default cause (errors_Join (Some cause) err))).

(** * Compaction *)

(** The readers of the inputs during a compaction. *)
Fixpoint inputReaders (inputs : list tableHandle) : M (list SSTableReader) :=
  match inputs with
  | [] => eret []
  | t :: inputs' =>
      r <-e file_reader answers (th_file t) ;
      rest <-e inputReaders inputs' ;
      eret (with_reader r (th_reader t) :: rest)
  end.

(** A merge takes at most as many steps as the inputs have records. *)
Definition mergeFuel (inputs : list SSTableReader) : nat := S (sum_list ((fun rd => Z.to_nat (sr_entryCount rd)) <$> inputs)).

(** The file of the output is synced, closed and its name made durable; then it is opened. *)
Definition publishOutput (name : string) (metadata : fileMetadata) : M (result tableHandle) :=
  syncErr <-e file_Sync answers name ;
  match syncErr with
  | Some e => discardCompactionOutputLocked name true ("lsm: sync compaction SSTable: " +:+ fe_msg e)
  | None =>
      closeErr <-e file_Close answers name ;
      match closeErr with
      | Some e => discardCompactionOutputLocked name true ("lsm: close compaction SSTable: " +:+ fe_msg e)
      | None =>
          dirErr <-e fs_SyncDir answers ;
          match dirErr with
          | Some e => discardCompactionOutputLocked name false ("lsm: sync compaction SSTable directory: " +:+ fe_msg e)
          | None =>
              flushed <-e gets (fun e => mf_flushedIndex (eg_manifest e)) ;
              o <-e openTableOwned metadata flushed ;
              match o with
              | (_, Ok table) => eret (Ok table)
              | (owned, Err m) => discardCompactionOutputLocked name owned m
              end
          end
      end
  end.

Definition buildCompactionOutputLocked (tier : Z) (inputs : list tableHandle) : M (result tableHandle) :=
  filename <-e allocateFilenameLocked ;
  match filename with
  | Err m => eret (Err m)
  | Ok name =>
      createErr <-e fs_Create answers name ;
      match createErr with
      | Some e => discardCompactionOutputLocked name false ("lsm: create compaction SSTable: " +:+ fe_msg e)
      | None =>
          readers <-e inputReaders inputs ;
          match newKWayMergeIterator it_Next (newSSTableEntryIterator <$> readers) with
          | Err m => discardCompactionOutputLocked name true m
          | Ok merge =>
              match addMerged it_Next (mergeFuel readers) (mergeFuel readers) merge newBuilding with
              | Err m => discardCompactionOutputLocked name true m
              | Ok b =>
                  if bd_count b =? 0 then discardCompactionOutputLocked name true "lsm: compaction produced an empty table"
                  else
                    wf <-e finishWriter name (bd_writer b) ;
                    match wf.2 with
                    | Some m => discardCompactionOutputLocked name true ("lsm: finish compaction SSTable: " +:+ m)
                    | None => publishOutput name (mkFileMetadata tier name (bd_firstKey b) (bd_lastKey b) (bd_count b))
                    end
              end
          end
      end
  end.

(** [appendManifestEdit] on the manifest of the directory. *)
Definition appendEdit (edit : VersionEdit) : M appended :=
  a <-e ask ;
  m <-e get_manifest ;
  match m with
  | None => eret (mkAppended false false false (Some ("lsm: open manifest for append: " +:+ fe_msg err_not_exist)))
  | Some f =>
      let '(f', ap) := appendManifestEdit marshal (an_manifest a) (Some edit) f in
      put_manifest (Some f') ;e
      (if ap_unresolved ap then modify (fun e => set_unresolved (eg_unresolved e ++ ["MANIFEST"]) e) else eret tt) ;e
      eret ap
  end.

Definition commitCompactionLocked (edit : VersionEdit) (output : tableHandle) (selected : list tableHandle) : M (option error) :=
  manifest <-e gets eg_manifest ;
  match applyEdit (Some edit) manifest with
  | Err m =>
      r <-e @discardCompactionOutputLocked unit (th_file output) true ("lsm: invalid compaction manifest edit: " +:+ m) ;
      eret (match r with Err m => Some m | Ok _ => None end)
  | Ok next =>
      ap <-e appendEdit edit ;
      if negb (ap_committed ap) then
        if ap_uncertain ap then
          modify (poisonLocked (default "" (ap_err ap))) ;e
          closeErr <-e file_Close answers (th_file output) ;
          (if released closeErr then eret tt else modify (fun e => set_unresolved (eg_unresolved e ++ [th_file output]) e)) ;e
          eret (errors_Join (ap_err ap) (fe_msg <$> closeErr))
        else
          r <-e @discardCompactionOutputLocked unit (th_file output) true (default "" (ap_err ap)) ;
          eret (match r with Err m => Some m | Ok _ => None end)
      else
        modify (fun e =>
          let kept := filter (fun t => th_file t ∉ th_file <$> selected) (eg_tables e) in
          set_completedCompactions (eg_completedCompactions e +u 1)
            (set_obsolete (eg_obsolete e ++ ((fun t => mkObsolete (th_file t) true) <$> sortByFile selected))
               (set_tables (sortByFile (kept ++ [output])) (set_manifest next e)))) ;e
        cleanupErr <-e reconcileObsoleteLocked ;
        eret (errors_Join (ap_err ap) cleanupErr)
  end.

(** The checks of [compactInputsLocked] on its inputs; handles are compared by the names
    of their files. *)
Fixpoint checkInputs (tier : Z) (inputs : list tableHandle) (selected : list string) : option error :=
  match inputs with
  | [] => None
  | t :: inputs' =>
      if negb (fm_tier (th_metadata t) =? tier) then Some "lsm: compaction inputs do not share selected tier"
      else if bool_decide (th_file t ∈ selected) then Some "lsm: duplicate compaction input"
      else checkInputs tier inputs' (th_file t :: selected)
  end.

Definition compactInputsLocked (tier : Z) (inputs0 : list tableHandle) : M (option error) :=
  if negb (Nat.eqb (length inputs0) compactionFanIn) then eret (Some "lsm: compaction selected the wrong number of inputs")
  else
    let inputs := sortByFile inputs0 in
    match checkInputs tier inputs [] with
    | Some m => eret (Some m)
    | None =>
        tables <-e gets eg_tables ;
        if negb (forallb (fun t => bool_decide (th_file t ∈ th_file <$> tables)) inputs)
        then eret (Some "lsm: selected input is not published")
        else
          output <-e buildCompactionOutputLocked (u32 (tier + 1)) inputs ;
          match output with
          | Err m => eret (Some m)
          | Ok table =>
              flushed <-e gets (fun e => mf_flushedIndex (eg_manifest e)) ;
              commitCompactionLocked (mkVersionEdit [Some (fm_proto (th_metadata table))] (th_file <$> inputs) flushed) table inputs
          end
    end.

(** The loop of [compactAllLocked]; every compaction replaces four tables by one. *)
Fixpoint compactLoop (fuel : nat) : M (option error) :=
  tables <-e gets eg_tables ;
  match selectCompactionInputs tables with
  | None => eret None
  | Some (tier, inputs) =>
      if tier =? max_u32 then eret (Some "lsm: compaction tier exhausted")
      else
        match fuel with
        | O => eret (Some "out of fuel")
        | S fuel' =>
            err <-e compactInputsLocked tier inputs ;
            match err with
            | Some m => eret (Some m)
            | None => compactLoop fuel'
            end
        end
  end.

Definition compactAllLocked : M (option error) :=
  err <-e reconcileObsoleteLocked ;
  match err with
  | Some m => eret (Some m)
  | None => tables <-e gets eg_tables ; compactLoop (length tables)
  end.

Definition compact : M (option error) :=
  open <-e gets checkOpenLocked ;
  match open with Some m => eret (Some m) | None => compactAllLocked end.

(** * Flushing *)

Definition commitEditLocked (edit : VersionEdit) (table : option tableHandle) : M (bool * option error) :=
  manifest <-e gets eg_manifest ;
  match applyEdit (Some edit) manifest with
  | Err m =>
      closeErr <-e match table with Some t => closeFileRetainingLocked (th_file t) | None => eret None end ;
      eret (false, errors_Join (Some ("lsm: invalid manifest edit: " +:+ m)) closeErr)
  | Ok next =>
      ap <-e appendEdit edit ;
      if negb (ap_committed ap) then
        (if ap_uncertain ap then modify (poisonLocked (default "" (ap_err ap))) else eret tt) ;e
        closeErr <-e match table with Some t => closeFileRetainingLocked (th_file t) | None => eret None end ;
        eret (false, errors_Join (ap_err ap) closeErr)
      else
        modify (fun e => set_tables (eg_tables e ++ match table with Some t => [t] | None => [] end) (set_manifest next e)) ;e
        eret (true, ap_err ap)
  end.

Definition freezeLocked (watermark : Z) (e : Engine) : Engine :=
  set_active (newSkipList (sk_rnd (eg_list e))) 0 0 0
    (set_immutables (eg_immutables e ++ [mkImmutable (eg_list e) (eg_activeCount e) (eg_activeMaxSeq e) watermark]) e).

(** The part of [flushOldestLocked] after the table's bytes were written. *)
Definition publishFlush (immutable : immutableMemtable) (name : string) (b : building) (w : SSTableWriter) : M (option error) :=
  syncErr <-e file_Sync answers name ;
  match syncErr with
  | Some e =>
      closeErr <-e closeFileRetainingLocked name ;
      eret (errors_Join (Some ("lsm: sync SSTable: " +:+ fe_msg e)) closeErr)
  | None =>
      closeErr <-e closeFileRetainingLocked name ;
      match closeErr with
      | Some e => eret (Some ("lsm: close SSTable: " +:+ e))
      | None =>
          dirErr <-e fs_SyncDir answers ;
          match dirErr with
          | Some e => eret (Some ("lsm: sync SSTable directory: " +:+ fe_msg e))
          | None =>
              let metadata := mkFileMetadata (tableSizeClass (sw_size w)) name (bd_firstKey b) (bd_lastKey b) (bd_count b) in
              o <-e openTable metadata (im_watermark immutable) ;
              match o with
              | Err m => eret (Some m)
              | Ok table =>
                  c <-e commitEditLocked (mkVersionEdit [Some (fm_proto metadata)] [] (im_watermark immutable)) (Some table) ;
                  if c.1 then
                    modify (fun e => set_immutables (drop 1 (eg_immutables e)) (set_completedFlushes (eg_completedFlushes e +u 1) e)) ;e
                    match c.2 with
                    | Some m => eret (Some m)
                    | None =>
                        disabled <-e gets eg_disableAutoCompaction ;
                        if disabled then eret None else compactAllLocked
                    end
                  else eret c.2
              end
          end
      end
  end.

Definition flushOldestLocked : M (option error) :=
  immutables <-e gets eg_immutables ;
  match immutables with
  | [] => eret (Some panic)
  | immutable :: _ =>
      if im_count immutable =? 0 then eret (Some "lsm: internal empty immutable")
      else if im_watermark immutable <? im_maxSeq immutable then eret (Some "lsm: immutable max seq exceeds watermark")
      else
        filename <-e allocateFilenameLocked ;
        match filename with
        | Err m => eret (Some m)
        | Ok name =>
            createErr <-e fs_Create answers name ;
            match createErr with
            | Some e => eret (Some ("lsm: create SSTable: " +:+ fe_msg e))
            | None =>
                match forEach flushEntry (im_list immutable) newBuilding with
                | None => eret (Some panic)
                | Some b =>
                    match bd_err b with
                    | Some m =>
                        closeErr <-e closeFileRetainingLocked name ;
                        eret (errors_Join (Some ("lsm: build SSTable: " +:+ m)) closeErr)
                    | None =>
                        wf <-e finishWriter name (bd_writer b) ;
                        match wf.2 with
                        | Some m =>
                            closeErr <-e closeFileRetainingLocked name ;
                            eret (errors_Join (Some ("lsm: finish SSTable: " +:+ m)) closeErr)
                        | None => publishFlush immutable name b wf.1
                        end
                    end
                end
            end
        end
  end.

(** The loop of [flushThroughLocked]; every flush that reports no error takes one
    immutable. *)
Fixpoint flushLoop (fuel : nat) : M (option error) :=
  immutables <-e gets eg_immutables ;
  match immutables with
  | [] => eret None
  | _ :: _ =>
      match fuel with
      | O => eret (Some "out of fuel")
      | S fuel' =>
          err <-e flushOldestLocked ;
          match err with Some m => eret (Some m) | None => flushLoop fuel' end
      end
  end.

Definition flushThroughLocked (index : Z) : M (option error) :=
  e <-e gets id ;
  let flushed := mf_flushedIndex (eg_manifest e) in
  if negb (eg_fs e) then
    if (eg_activeCount e =? 0) && Nat.eqb (length (eg_immutables e)) 0 && (index =? flushed) then eret None
    else eret (Some "lsm: persistent filesystem is not configured")
  else if index <? flushed then eret (Some "lsm: flushed index regresses")
  else if (eg_appliedIndex e <? index) && (flushed <? index) then eret (Some "lsm: cannot flush unapplied index")
  else if index <? eg_activeMaxSeq e then eret (Some "lsm: active memtable contains seq beyond flush target")
  else if existsb (fun im => index <? im_watermark im) (eg_immutables e)
  then eret (Some "lsm: immutable watermark is beyond flush target")
  else
    (if negb (eg_activeCount e =? 0) then modify (freezeLocked index) else eret tt) ;e
    pending <-e gets eg_immutables ;
    err <-e flushLoop (length pending) ;
    match err with
    | Some m => eret (Some m)
    | None =>
        now <-e gets (fun e => mf_flushedIndex (eg_manifest e)) ;
        if now <? index then c <-e commitEditLocked (mkVersionEdit [] [] index) None ; eret c.2
        else eret None
    end.

Definition ForceFlush : M (option error) :=
  open <-e gets checkOpenLocked ;
  match open with
  | Some m => eret (Some m)
  | None => index <-e gets eg_appliedIndex ; flushThroughLocked index
  end.

Definition FlushThrough (index : Z) : M (option error) :=
  open <-e gets checkOpenLocked ;
  match open with Some m => eret (Some m) | None => flushThroughLocked index end.

(** * Writing *)

(** [putActiveLocked]; an error is a panic. *)
Definition putActiveLocked (key value : bytes) (tombstone : bool) (seq : Z) : M (result bool) :=
  e <-e gets id ;
  match sl_get key (eg_list e) with
  | None => eret (Err panic)
  | Some old =>
      if match old with Some (_, _, oldSeq) => seq <=? oldSeq | None => false end then eret (Ok false)
      else
        let size := match old with
                    | Some (oldValue, oldTombstone, _) => i64 (eg_activeSize e - memtableEntrySize key oldValue oldTombstone)
                    | None => eg_activeSize e
                    end in
        let count := match old with Some _ => eg_activeCount e | None => eg_activeCount e + 1 end in
        match sl_put (cloneBytes key) (cloneBytes value) tombstone seq (eg_list e) with
        | None => eret (Err panic)
        | Some (_, false) => eret (Err "panic: lsm: accepted active write was rejected by skip list")
        | Some (l, true) =>
            modify (set_active l (size +i memtableEntrySize key value tombstone) count
                      (if eg_activeMaxSeq e <? seq then seq else eg_activeMaxSeq e)) ;e
            eret (Ok true)
        end
  end.

(** [putLocked] and [deleteLocked], which differ in the value and the tombstone. *)
Definition writeLocked (key value : bytes) (tombstone : bool) (seq : Z) : M (option error) :=
  open <-e gets checkOpenLocked ;
  match open with
  | Some m => eret (Some m)
  | None =>
      modify (advanceAppliedForWriteLocked seq) ;e
      accepted <-e putActiveLocked key value tombstone seq ;
      match accepted with
      | Err m => eret (Some m)
      | Ok accepted =>
          full <-e gets shouldFlushLocked ;
          if accepted && full then target <-e gets automaticFlushTargetLocked ; flushThroughLocked target
          else eret None
      end
  end.

Definition putLocked (key value : bytes) (seq : Z) : M (option error) := writeLocked key value false seq.
Definition deleteLocked (key : bytes) (seq : Z) : M (option error) := writeLocked key [] true seq.

Definition advanceAppliedIndexLocked (index : Z) : M (option error) :=
  e <-e gets id ;
  match checkOpenLocked e with
  | Some m => eret (Some m)
  | None =>
      if index <? eg_appliedIndex e then eret (Some "lsm: applied index regresses")
      else modify (set_appliedIndex index) ;e eret None
  end.

(** * Reading *)

(** The closure [consider] of [lookupLocked]. *)
Definition consider (cand best : option (bytes * bool * Z)) : result (option (bytes * bool * Z)) :=
  match cand with
  | None => Ok best
  | Some (v, t, q) =>
      match best with
      | None => Ok cand
      | Some (v', t', q') =>
          if q' <? q then Ok cand
          else if (q =? q') && (negb (Bool.eqb t t') || negb (bool_decide (v = v')))
          then Err (lsm_ErrCorrupt +:+ ": conflicting versions for key")
          else Ok best
      end
  end.

Fixpoint lookupLists (key : bytes) (lists : list skipList) (best : option (bytes * bool * Z))
    : result (option (bytes * bool * Z)) :=
  match lists with
  | [] => Ok best
  | l :: lists' =>
      match sl_get key l with
      | None => Err panic
      | Some cand => best' <-r consider cand best ; lookupLists key lists' best'
      end
  end.

Definition te_version (e : TableEntry) : bytes * bool * Z := (te_Value e, te_Tombstone e, te_Seq e).

Fixpoint lookupTables (key : bytes) (bloom : bool) (tables : list tableHandle) (best : option (bytes * bool * Z))
    : M (result (option (bytes * bool * Z))) :=
  match tables with
  | [] => eret (Ok best)
  | t :: tables' =>
      r <-e file_reader answers (th_file t) ;
      match sr_get key bloom (with_reader r (th_reader t)) with
      | None => eret (Err panic)
      | Some (Err m) => eret (Err ("lsm: read SSTable: " +:+ m))
      | Some (Ok entry) =>
          match consider (te_version <$> entry) best with
          | Err m => eret (Err m)
          | Ok best' => lookupTables key bloom tables' best'
          end
      end
  end.

Definition lookupLocked (key : bytes) : M (result (option (bytes * bool * Z))) :=
  e <-e gets id ;
  if eg_closed e then eret (Err "lsm: engine is closed")
  else
    match lookupLists key (eg_list e :: (im_list <$> eg_immutables e)) None with
    | Err m => eret (Err m)
    | Ok best => lookupTables key (eg_readWithBloom e) (eg_tables e) best
    end.

Definition readLocked (key : bytes) : M (result (option bytes)) :=
  r <-e lookupLocked key ;
  eret (match r with
        | Err m => Err m
        | Ok (Some (v, false, _)) => Ok (Some v)
        | Ok _ => Ok None
        end).

(** [Get], which reports a failed read as not found. *)
Definition eg_Get (key : bytes) : M (option (bytes * bool * Z)) :=
  r <-e lookupLocked key ; eret (match r with Ok v => v | Err _ => None end).

(** * Opening and closing *)

Definition eg_Close : M (option error) :=
  modify (set_closed true) ;e
  cleanupErr <-e reconcileObsoleteLocked ;
  unresolvedErr <-e closeUnresolvedLocked ;
  tablesErr <-e closeTables ;
  eret (errors_Join (errors_Join cleanupErr unresolvedErr) tablesErr).

Definition Abandon : M unit := modify (set_closed true).

Fixpoint openTablesLoop (files : list fileMetadata) : M (option error) :=
  match files with
  | [] => eret None
  | metadata :: files' =>
      flushed <-e gets (fun e => mf_flushedIndex (eg_manifest e)) ;
      t <-e openTable metadata flushed ;
      match t with
      | Err m => eret (Some m)
      | Ok table => modify (fun e => set_tables (eg_tables e ++ [table]) e) ;e openTablesLoop files'
      end
  end.

Definition openReferencedTables : M (option error) :=
  files <-e gets (fun e => mf_files (eg_manifest e)) ; openTablesLoop (sortedManifestFiles files).

Fixpoint syncTablesLoop (tables : list tableHandle) : M (option error) :=
  match tables with
  | [] => eret None
  | t :: tables' =>
      err <-e file_Sync answers (th_file t) ;
      match err with
      | Some e => eret (Some ("lsm: recovery sync SSTable: " +:+ fe_msg e))
      | None => syncTablesLoop tables'
      end
  end.

Definition syncRecoveredVersion : M (option error) :=
  tables <-e gets eg_tables ;
  err <-e syncTablesLoop tables ;
  match err with
  | Some m => eret (Some m)
  | None =>
      dirErr <-e fs_SyncDir answers ;
      match dirErr with
      | Some e => eret (Some ("lsm: recovery sync SSTable directory: " +:+ fe_msg e))
      | None =>
          a <-e ask ;
          m <-e get_manifest ;
          match m with
          | None => eret (Some ("lsm: open recovered manifest for sync: " +:+ fe_msg err_not_exist))
          | Some f =>
              let '(f', err) := syncManifest (an_manifest a) f in
              put_manifest (Some f') ;e eret err
          end
      end
  end.

Fixpoint removeOrphansLoop (names : list string) (removed : bool) : M (result bool) :=
  match names with
  | [] => eret (Ok removed)
  | name :: names' =>
      files <-e gets (fun e => mf_files (eg_manifest e)) ;
      if negb (bool_decide (is_Some (cutSuffix name sstableFilenameSuffix))) || bool_decide (is_Some (files !! name))
      then removeOrphansLoop names' removed
      else
        info <-e fs_Stat answers name ;
        match info with
        | Err m => eret (Err ("lsm: stat orphan: " +:+ m))
        | Ok (_, true) => removeOrphansLoop names' removed
        | Ok (_, false) =>
            err <-e fs_Remove answers name ;
            match err with
            | Some e => eret (Err ("lsm: remove orphan: " +:+ fe_msg e))
            | None => removeOrphansLoop names' true
            end
        end
  end.

Definition removeOrphans : M (option error) :=
  names <-e fs_List answers ;
  match names with
  | Err m => eret (Some ("lsm: list SSTable directory: " +:+ m))
  | Ok names =>
      removed <-e removeOrphansLoop names false ;
      match removed with
      | Err m => eret (Some m)
      | Ok false => eret None
      | Ok true =>
          err <-e fs_SyncDir answers ;
          eret (match err with Some e => Some ("lsm: sync orphan removals: " +:+ fe_msg e) | None => None end)
      end
  end.

Record Options : Type := mkOptions {
  op_Rand : option Rand;
  op_FlushThreshold : Z;
  op_SkipBloom : bool;
  op_DisableAutoCompaction : bool;
}.

(** The engine [Open] starts from. *)
Definition openedEngine (options : Options) (r : Rand) (threshold : Z) (state : manifestState) : Engine :=
  mkEngine (newSkipList r) 0 0 0 [] threshold 0 state [] 1 true None [] [] false
    (op_DisableAutoCompaction options) (negb (op_SkipBloom options)) 0 0 false.

(** What [Open] does when a step failed. *)
Definition abortOpen (m : error) : M (option error) :=
  tablesErr <-e closeTables ;
  unresolvedErr <-e closeUnresolvedLocked ;
  eret (errors_Join (errors_Join (Some m) tablesErr) unresolvedErr).

(** [Open]: on success the engine is the one of the [Store]. *)
Definition engine_Open (options : Options) : M (option error) :=
  match op_Rand options with
  | None => eret (Some "lsm: Open: Rand must not be nil")
  | Some r =>
      let threshold := if op_FlushThreshold options =? 0 then DefaultFlushThreshold else op_FlushThreshold options in
      if threshold <? 0 then eret (Some "lsm: negative flush threshold")
      else
        a <-e ask ;
        m <-e get_manifest ;
        let '(m', loaded) := loadManifest unmarshal (an_manifest a) m in
        put_manifest m' ;e
        match loaded with
        | Err e => eret (Some e)
        | Ok state =>
            modify (fun _ => openedEngine options r threshold state) ;e
            err1 <-e openReferencedTables ;
            match err1 with
            | Some m => abortOpen m
            | None =>
                err2 <-e syncRecoveredVersion ;
                match err2 with
                | Some m => abortOpen m
                | None =>
                    err3 <-e removeOrphans ;
                    match err3 with
                    | Some m => abortOpen m
                    | None => modify (set_nextFileNumber (nextFileNumber (mf_files state))) ;e eret None
                    end
                end
            end
        end
  end.
End engine.

(** * The other constructor and the observers *)

Definition NewEngine (r : Rand) : Engine :=
  mkEngine (newSkipList r) 0 0 0 [] 0 0 newManifestState [] 1 false None [] [] false false true 0 0 false.

Definition eg_AppliedIndex (e : Engine) : Z := eg_appliedIndex e.
Definition eg_FlushedIndex (e : Engine) : Z := mf_flushedIndex (eg_manifest e).
Definition PendingImmutables (e : Engine) : Z := Z.of_nat (length (eg_immutables e)).
Definition ReferencedSSTables (e : Engine) : list string := fm_file <$> sortedManifestFiles (mf_files (eg_manifest e)).

(** [Entries]: the records of the active memtable. *)
Definition eg_Entries (e : Engine) : option (list TableEntry) :=
  forEach (fun key value tombstone seq out => (out ++ [mkTableEntry (cloneBytes key) seq (cloneBytes value) tombstone], true))
    (eg_list e) [].
