(* ===== verification/EngineFrames.v ===== *)
(** What the steps of the engine leave alone: every file operation changes at most the
    files it names, and none of the small steps changes the memtables, the tables or the
    manifest state of the engine. *)

From S2P Require Import Prelude Proto RaftLog RaftNode Storage Bytes WalRecords DiskLog MapSM Bloom SkipList SSTable Manifest Merge.
From S2P Require Import EngineState Engine.

Lemma ebind_inv {A B} (m : M A) (k : A -> M B) s s' (b : B) :
  ebind m k s = (s', b) -> exists s1 a, m s = (s1, a) /\ k a s1 = (s', b).
Proof. unfold ebind. destruct (m s) as [s1 a]. eauto. Qed.

(** Takes the run [H] of an operation apart at its first bind. *)
Ltac mbind H s a E := apply ebind_inv in H as (s & a & E & H).
Ltac mret H := injection H as <- <-.

(** * Files *)

Definition file_ok (f : file) : Prop := (synced f <= length (content f))%nat.

(** [f'] has the bytes of [f] and is at least as durable. *)
Record file_le (f f' : file) : Prop := {
  fl_content : content f' = content f;
  fl_synced : (synced f <= synced f')%nat;
  fl_named : named f = true -> named f' = true;
  fl_ok : file_ok f -> file_ok f';
}.

#[export] Instance file_le_refl : Reflexive file_le.
Proof. by split. Qed.
#[export] Instance file_le_trans : Transitive file_le.
Proof. intros f g h [] []. split; [congruence|lia|auto|auto]. Qed.

Lemma sync_file_le f : file_ok f -> file_le f (sync_file f).
Proof. intros H. split; [done|done|done|]. intros _. unfold file_ok. simpl. lia. Qed.
Lemma name_file_le f : file_le f (name_file f).
Proof. by split. Qed.

(** The part of the engine that readers and recovery depend on. *)
Record core : Type := mkCore {
  co_list : skipList;
  co_active : Z * Z * Z;
  co_immutables : list immutableMemtable;
  co_threshold : Z;
  co_applied : Z;
  co_manifest : manifestState;
  co_tables : list tableHandle;
  co_options : bool * bool * bool;
  co_closed : bool;
}.

Definition core_of (e : Engine) : core :=
  mkCore (eg_list e) (eg_activeSize e, eg_activeCount e, eg_activeMaxSeq e) (eg_immutables e) (eg_flushThreshold e)
    (eg_appliedIndex e) (eg_manifest e) (eg_tables e) (eg_fs e, eg_disableAutoCompaction e, eg_readWithBloom e) (eg_closed e).

(** From [s] to [s'] nothing of the core changed, and no file outside [P] lost anything. *)
Record touch (P : string -> Prop) (s s' : Store) : Prop := {
  tc_core : core_of (st_engine s') = core_of (st_engine s);
  tc_next : eg_nextFileNumber (st_engine s') = eg_nextFileNumber (st_engine s);
  tc_poisoned : eg_poisoned (st_engine s') = eg_poisoned (st_engine s);
  tc_obsolete o : o ∈ eg_obsolete (st_engine s') ->
    P (ob_path o) \/ exists o', o' ∈ eg_obsolete (st_engine s) /\ ob_path o' = ob_path o;
  tc_files name f : ~ P name -> st_tables s !! name = Some f ->
    exists f', st_tables s' !! name = Some f' /\ file_le f f';
  tc_absent name : ~ P name -> st_tables s !! name = None -> st_tables s' !! name = None;
  tc_wf : map_Forall (fun _ f => file_ok f) (st_tables s) -> map_Forall (fun _ f => file_ok f) (st_tables s');
  tc_manifest : match st_manifest s with
                | None => st_manifest s' = None
                | Some f => exists f', st_manifest s' = Some f' /\ file_le f f'
                end;
}.

Lemma touch_refl P s : touch P s s.
Proof.
  split; try done; eauto.
  - intros name f _ H. eexists. by split.
  - destruct (st_manifest s); [|done]. eexists. by split.
Qed.

Lemma touch_trans P s1 s2 s3 : touch P s1 s2 -> touch P s2 s3 -> touch P s1 s3.
Proof.
  intros [C1 N1 Q1 O1 F1 A1 W1 M1] [C2 N2 Q2 O2 F2 A2 W2 M2]. split; try congruence; eauto.
  - intros o Ho. destruct (O2 o Ho) as [?|(o2 & Ho2 & <-)]; [by left|]. by apply O1.
  - intros name f HP Hf. destruct (F1 name f HP Hf) as (f1 & Hf1 & H1). destruct (F2 name f1 HP Hf1) as (f2 & Hf2 & H2).
    exists f2. split; [done|]. by etrans.
  - destruct (st_manifest s1) as [f|].
    + destruct M1 as (f1 & E1 & H1). rewrite E1 in M2. destruct M2 as (f2 & E2 & H2). exists f2. split; [done|]. by etrans.
    + rewrite M1 in M2. done.
Qed.

Lemma touch_mono (P Q : string -> Prop) s s' : touch P s s' -> (forall n, P n -> Q n) -> touch Q s s'.
Proof.
  intros [C N Qp O F A W Mf] H. split; eauto.
  intros o Ho. destruct (O o Ho); eauto.
Qed.

(** The files are the same. *)
Definition quiet (s s' : Store) : Prop := forall P, touch P s s' /\ st_tables s' = st_tables s /\ st_manifest s' = st_manifest s.

Lemma quiet_touch P s s' : quiet s s' -> touch P s s'.
Proof. intros H. apply H. Qed.

#[export] Instance quiet_refl : Reflexive quiet.
Proof. intros s P. split; [apply touch_refl|done]. Qed.
#[export] Instance quiet_trans : Transitive quiet.
Proof.
  intros s1 s2 s3 H1 H2 P. destruct (H1 P) as (T1 & E1 & M1), (H2 P) as (T2 & E2 & M2).
  split; [by eapply touch_trans|]. split; congruence.
Qed.

#[export] Hint Resolve touch_refl quiet_touch quiet_refl : mq.

(** * Small steps *)

Lemma touch_engine P s e n :
  core_of e = core_of (st_engine s) -> eg_nextFileNumber e = eg_nextFileNumber (st_engine s) ->
  eg_poisoned e = eg_poisoned (st_engine s) ->
  (forall o, o ∈ eg_obsolete e -> P (ob_path o) \/ exists o', o' ∈ eg_obsolete (st_engine s) /\ ob_path o' = ob_path o) ->
  touch P s (mkStore e (st_tables s) (st_manifest s) n).
Proof.
  intros Hc Hn Hp Ho. split; cbn [st_engine st_tables st_manifest]; try done.
  - intros name f _ H. eexists. by split.
  - destruct (st_manifest s); [|done]. eexists. by split.
Qed.

Lemma quiet_engine s e n :
  core_of e = core_of (st_engine s) -> eg_nextFileNumber e = eg_nextFileNumber (st_engine s) ->
  eg_poisoned e = eg_poisoned (st_engine s) ->
  (forall o, o ∈ eg_obsolete e -> o ∈ eg_obsolete (st_engine s)) ->
  quiet s (mkStore e (st_tables s) (st_manifest s) n).
Proof.
  intros Hc Hn Hp Ho P. split; [|done]. apply touch_engine; eauto.
Qed.

Section steps.
Context (answers : nat -> answer).

Lemma ask_quiet s s' a : ask answers s = (s', a) -> quiet s s'.
Proof. intros [= <- _]. by apply quiet_engine. Qed.

Lemma get_tables_inv s s' t : get_tables s = (s', t) -> s' = s /\ t = st_tables s.
Proof. by intros [= <- <-]. Qed.

Lemma file_Close_quiet name s s' r : file_Close answers name s = (s', r) -> quiet s s'.
Proof. intros H. mbind H s1 a E. mret H. by eapply ask_quiet. Qed.

Lemma file_reader_inv name s s' r :
  file_reader answers name s = (s', r) -> quiet s s' /\
  forall f, st_tables s !! name = Some f -> exists fails, r = readAt fails (content f).
Proof.
  intros H. mbind H s1 a E. mbind H s2 t E2. apply get_tables_inv in E2 as [-> ->]. pose proof (ask_quiet _ _ _ E) as Hq.
  destruct (Hq (fun _ => False)) as (_ & Et & _). rewrite Et in H.
  destruct (st_tables s !! name) as [f|]; mret H; (split; [done|]); [|done]. intros f' [= <-]. eauto.
Qed.

Lemma fs_Stat_inv name s s' r :
  fs_Stat answers name s = (s', r) -> quiet s s' /\
  forall size d, r = Ok (size, d) -> exists f, st_tables s !! name = Some f /\ size = Z.of_nat (length (content f)).
Proof.
  intros H. mbind H s1 a E. mbind H s2 t E2. apply get_tables_inv in E2 as [-> ->]. pose proof (ask_quiet _ _ _ E) as Hq.
  destruct (Hq (fun _ => False)) as (_ & Et & _). rewrite Et in H.
  destruct (an_err a); [|destruct (st_tables s !! name) as [f|]]; mret H; (split; [done|]); try done.
  intros size d [= <- _]. eauto.
Qed.

Lemma fs_Open_inv name s s' r : fs_Open answers name s = (s', r) -> quiet s s'.
Proof.
  intros H. mbind H s1 a E. mbind H s2 t E2. apply get_tables_inv in E2 as [-> ->]. pose proof (ask_quiet _ _ _ E) as Hq.
  destruct (an_err a); [|destruct (_ !! name)]; by mret H.
Qed.

Lemma put_tables_touch P s t :
  (forall name f, ~ P name -> st_tables s !! name = Some f -> exists f', t !! name = Some f' /\ file_le f f') ->
  (forall name, ~ P name -> st_tables s !! name = None -> t !! name = None) ->
  (map_Forall (fun _ f => file_ok f) (st_tables s) -> map_Forall (fun _ f => file_ok f) t) ->
  touch P s (put_tables t s).1.
Proof.
  intros H1 H2 H3. split; cbn [put_tables fst st_engine st_tables st_manifest]; try done; eauto.
  destruct (st_manifest s); [|done]. eexists. by split.
Qed.

Lemma ask_engine s s' a : ask answers s = (s', a) -> st_engine s' = st_engine s.
Proof. by intros [= <- _]. Qed.

Lemma fs_Create_touch name s s' r :
  fs_Create answers name s = (s', r) -> touch (fun n => n = name) s s' /\ st_engine s' = st_engine s /\
  (r = None -> st_tables s !! name = None /\ st_tables s' = <[name := new_file]> (st_tables s)).
Proof.
  intros H. mbind H s1 a E. mbind H s2 t E2. apply get_tables_inv in E2 as [-> ->]. pose proof (ask_quiet _ _ _ E) as Hq.
  apply ask_engine in E. destruct (Hq (fun n => n = name)) as (Ht & Et & _). rewrite Et in H.
  assert (forall t, t = <[name := new_file]> (st_tables s1) \/ t = st_tables s1 -> touch (fun n => n = name) s (put_tables t s1).1) as Hput.
  { intros t Ht'. eapply touch_trans; [exact Ht|]. apply put_tables_touch.
    - intros n f Hn Hf. exists f. split; [|done]. destruct Ht' as [->| ->]; [by rewrite lookup_insert_ne|done].
    - intros n Hn Hf. destruct Ht' as [->| ->]; [by rewrite lookup_insert_ne|done].
    - intros Hw. destruct Ht' as [->| ->]; [|done]. apply map_Forall_insert_2; [unfold file_ok; simpl; lia|exact Hw]. }
  rewrite Et in Hput. destruct (an_err a) as [e|], (st_tables s !! name) as [f|] eqn:Ef.
  - by mret H.
  - mbind H s2 u Ep. mret H. injection Ep as <- _. split; [|done].
    apply (Hput (if an_effect a then _ else _)). destruct (an_effect a); auto.
  - by mret H.
  - mbind H s2 u Ep. mret H. injection Ep as <- _. split; [apply (Hput (<[name := new_file]> (st_tables s))); auto|done].
Qed.

Lemma file_Sync_touch P name s s' r :
  map_Forall (fun _ f => file_ok f) (st_tables s) ->
  file_Sync answers name s = (s', r) -> touch P s s' /\ (r = None -> st_tables s' = alter sync_file name (st_tables s)).
Proof.
  intros Hw H. mbind H s1 a E. pose proof (ask_quiet _ _ _ E) as Hq. destruct (Hq P) as (Ht & Et & _).
  destruct (an_err a); [mret H; split; [done|done]|]. mbind H s2 t E2. apply get_tables_inv in E2 as [-> ->].
  mbind H s2 u Ep. mret H. injection Ep as <- _. split; [|by rewrite <- Et].
  eapply touch_trans; [exact Ht|]. rewrite <- Et in Hw. apply (put_tables_touch P s1).
  - intros n f _ Hf. destruct (decide (n = name)) as [->|Hne].
    + exists (sync_file f). rewrite lookup_alter_eq, Hf. split; [done|]. apply sync_file_le. by apply (Hw name).
    + exists f. by rewrite lookup_alter_ne.
  - intros n _ Hf. destruct (decide (n = name)) as [->|Hne]; [by rewrite lookup_alter_eq, Hf|by rewrite lookup_alter_ne].
  - intros _ n f Hf. apply lookup_alter_Some in Hf as [(<- & f0 & Hf0 & ->)|[_ Hf]]; [unfold file_ok; simpl; lia|by apply (Hw n)].
Qed.

Lemma fs_SyncDir_touch P s s' r :
  fs_SyncDir answers s = (s', r) -> touch P s s' /\
  (r = None -> st_tables s' = name_file <$> st_tables s /\ st_manifest s' = name_file <$> st_manifest s).
Proof.
  intros H. mbind H s1 a E. pose proof (ask_quiet _ _ _ E) as Hq. destruct (Hq P) as (Ht & Et & Em).
  destruct (an_err a); [mret H; split; [done|done]|]. mbind H s2 t E2. apply get_tables_inv in E2 as [-> ->].
  mbind H s2 u Ep. injection Ep as <- _. mbind H s3 m E3. injection E3 as <- <-. mbind H s4 u4 E4. mret H. injection E4 as <- _.
  split; [|by rewrite <- Et, <- Em]. eapply touch_trans; [exact Ht|].
  split; cbn [put_manifest put_tables fst st_engine st_tables st_manifest]; try done; eauto.
  - intros n f _ Hf. exists (name_file f). rewrite lookup_fmap, Hf. split; [done|apply name_file_le].
  - intros n _ Hf. by rewrite lookup_fmap, Hf.
  - intros Hw n f Hf. rewrite lookup_fmap in Hf. apply fmap_Some in Hf as (f0 & Hf0 & ->). exact (Hw n f0 Hf0).
  - destruct (st_manifest s1) as [f|]; [|done]. exists (name_file f). split; [done|apply name_file_le].
Qed.

Lemma fs_Remove_touch name s s' r :
  fs_Remove answers name s = (s', r) -> touch (fun n => n = name) s s'.
Proof.
  intros H. mbind H s1 a E. mbind H s2 t E2. apply get_tables_inv in E2 as [-> ->]. pose proof (ask_quiet _ _ _ E) as Hq.
  destruct (Hq (fun n => n = name)) as (Ht & Et & _).
  assert (forall t, t = delete name (st_tables s1) \/ t = st_tables s1 -> touch (fun n => n = name) s (put_tables t s1).1) as Hput.
  { intros t Ht'. eapply touch_trans; [exact Ht|]. apply put_tables_touch.
    - intros n f Hn Hf. exists f. split; [|done]. destruct Ht' as [->| ->]; [by rewrite lookup_delete_ne|done].
    - intros n Hn Hf. destruct Ht' as [->| ->]; [by rewrite lookup_delete_ne|done].
    - intros Hw. destruct Ht' as [->| ->]; [|done]. by apply map_Forall_delete. }
  destruct (an_err a) as [e|]; [|destruct (st_tables s1 !! name) as [f|]].
  - mbind H s2 u Ep. mret H. injection Ep as <- _. apply (Hput (if an_effect a then _ else _)). destruct (an_effect a); auto.
  - mbind H s2 u Ep. mret H. injection Ep as <- _. apply (Hput (delete name _)). auto.
  - by mret H.
Qed.

Lemma closeFileRetaining_quiet name s s' r : closeFileRetainingLocked answers name s = (s', r) -> quiet s s'.
Proof.
  intros H. mbind H s1 err E. apply file_Close_quiet in E. etrans; [exact E|]. mbind H s2 u E2. mret H.
  destruct (released err); [by injection E2 as <- _|]. injection E2 as <- _. by apply quiet_engine.
Qed.

Lemma modify_quiet f s :
  core_of (f (st_engine s)) = core_of (st_engine s) -> eg_nextFileNumber (f (st_engine s)) = eg_nextFileNumber (st_engine s) ->
  eg_poisoned (f (st_engine s)) = eg_poisoned (st_engine s) ->
  (forall o, o ∈ eg_obsolete (f (st_engine s)) -> o ∈ eg_obsolete (st_engine s)) -> quiet s (modify f s).1.
Proof. intros. by apply quiet_engine. Qed.
End steps.
