(* ===== verification/EngineSteps.v ===== *)
(** The steps of the engine that open, write and remove tables. *)

From S2P Require Import Prelude Proto RaftLog RaftNode Storage Bytes WalRecords DiskLog MapSM Bloom SkipList SSTable SSTableFacts SSTableSpec.
From S2P Require Import Manifest Heap Merge MergeFacts MergeSpec EngineState TableReads Engine EngineFrames.

Section steps.
Context (answers : nat -> answer).

(** * Obsolete files *)

Lemma reconcileLoop_touch (P : string -> Prop) obsolete combined pending s s' r :
  (forall o, o ∈ obsolete ++ pending -> P (ob_path o)) ->
  reconcileLoop answers obsolete combined pending s = (s', r) -> touch P s s'.
Proof.
  revert combined pending s. induction obsolete as [|o obsolete IH]; intros combined pending s HP H; cbn [reconcileLoop] in H.
  { mbind H s1 u E. mret H. injection E as <- _. apply touch_engine; [done..|]. intros o Ho. left. by apply HP. }
  assert (forall P', (forall o', o' ∈ P' -> P (ob_path o')) -> forall o', o' ∈ obsolete ++ (pending ++ P') -> P (ob_path o')) as HP'.
  { intros P' H' o' Ho'. rewrite !elem_of_app in Ho'. destruct Ho' as [?|[?|?]]; [apply HP; set_solver..|by apply H']. }
  mbind H s1 closeErr E. assert (quiet s s1) as Hq.
  { destruct (ob_open o); [by eapply file_Close_quiet|by injection E as <- _]. }
  eapply touch_trans; [apply Hq|]. destruct (negb (released closeErr)).
  { eapply IH; [|exact H]. apply HP'. intros o' ->%list_elem_of_singleton. apply HP. by left. }
  mbind H s2 u Em. injection Em as <- _. mbind H s3 removeErr Er.
  eapply touch_trans; [apply quiet_touch; apply (modify_quiet (set_obsoleteDirDirty true) s1); done|].
  eapply touch_trans; [eapply touch_mono; [by eapply fs_Remove_touch|]|].
  { intros n ->. apply HP. by left. }
  assert (forall o', o' ∈ obsolete ++ pending -> P (ob_path o')) as Hrest.
  { intros o' Ho'. apply HP. set_solver. }
  destruct removeErr as [e|]; [|by eapply IH]. destruct (fe_notExist e); [by eapply IH|].
  eapply IH; [|exact H]. apply HP'. intros o' ->%list_elem_of_singleton. simpl. apply HP. by left.
Qed.

Definition obsolete_name (e : Engine) (n : string) : Prop := exists o, o ∈ eg_obsolete e /\ ob_path o = n.

Lemma reconcile_touch s s' r :
  reconcileObsoleteLocked answers s = (s', r) -> touch (obsolete_name (st_engine s)) s s'.
Proof.
  intros H. mbind H s1 b E. injection E as <- <-. destruct (negb _); [mret H; apply touch_refl|].
  mbind H s1 o E. injection E as <- <-. mbind H s2 combined E2.
  apply (reconcileLoop_touch (obsolete_name (st_engine s))) in E2; [|intros o Ho; rewrite app_nil_r in Ho; by exists o].
  eapply touch_trans; [exact E2|]. mbind H s3 dirty E3. injection E3 as <- <-. destruct (negb _); [mret H; apply touch_refl|].
  mbind H s3 err E3. eapply touch_trans; [by eapply fs_SyncDir_touch|]. destruct err; [mret H; apply touch_refl|].
  mbind H s4 u E4. injection E4 as <- _. mret H. apply quiet_touch. by apply quiet_engine.
Qed.

Lemma discard_touch {A} path open cause s s' (r : result A) :
  discardCompactionOutputLocked answers path open cause s = (s', r) ->
  touch (fun n => n = path \/ obsolete_name (st_engine s) n) s s' /\ exists m, r = Err m.
Proof.
  intros H. mbind H s1 u E. injection E as <- _. mbind H s2 err E2. mret H. split; [|eauto].
  apply reconcile_touch in E2. cbn [st_engine] in E2.
  eapply touch_trans; [|eapply touch_mono; [exact E2|]].
  - apply touch_engine; [done..|].
    intros o Ho. cbn [eg_obsolete set_obsolete] in Ho. apply elem_of_app in Ho as [Ho| ->%list_elem_of_singleton]; [|by left; left].
    right. by exists o.
  - intros n (o & Ho & <-). cbn [eg_obsolete set_obsolete] in Ho.
    apply elem_of_app in Ho as [Ho| ->%list_elem_of_singleton]; [right; by exists o|by left].
Qed.

(** * Opening a table *)

Lemma openTableOwned_ok metadata maxSequence s s' owned t :
  openTableOwned answers metadata maxSequence s = (s', (owned, t)) -> quiet s s' /\
  forall table, t = Ok table ->
    th_metadata table = metadata /\
    exists f fails fails' es, st_tables s !! fm_file metadata = Some f /\
      OpenSSTable (readAt fails (content f)) (Z.of_nat (length (content f))) = Ok (th_reader table) /\
      AllEntries (with_reader (readAt fails' (content f)) (th_reader table)) = Some (Ok es) /\
      tooNew maxSequence es = false /\ sr_entryCount (th_reader table) = fm_count metadata /\
      sr_minKey (th_reader table) = fm_minKey metadata /\ sr_maxKey (th_reader table) = fm_maxKey metadata.
Proof.
  intros H. mbind H s1 info E1. apply fs_Stat_inv in E1 as [Q1 Hinfo].
  destruct info as [[size isDir]|m]; [|injection H as <- <- <-; by split].
  destruct (Hinfo size isDir eq_refl) as (f & Hf & ->). destruct (_ || _); [injection H as <- <- <-; by split|].
  mbind H s2 openErr E2. apply fs_Open_inv in E2. assert (quiet s s2) as Q2 by (by etrans).
  destruct openErr; [injection H as <- <- <-; by split|]. mbind H s3 r E3. apply file_reader_inv in E3 as [Q3 Hr].
  assert (quiet s s3) as Q3' by (by etrans). destruct (Q2 (fun _ => False)) as (_ & Et2 & _).
  destruct (Hr f) as [fails ->]; [by rewrite Et2|].
  destruct (OpenSSTable _ _) as [reader|] eqn:Eo; [|injection H as <- <- <-; by split].
  destruct (_ || _) eqn:Em in H; [injection H as <- <- <-; by split|]. bool_to_prop.
  mbind H s4 r' E4. apply file_reader_inv in E4 as [Q4 Hr']. assert (quiet s s4) as Q4' by (by etrans).
  destruct (Q3' (fun _ => False)) as (_ & Et3 & _). destruct (Hr' f) as [fails' ->]; [by rewrite Et3|].
  destruct (AllEntries _) as [[es|]|] eqn:Ea; [|injection H as <- <- <-; by split..].
  destruct (tooNew maxSequence es) eqn:En; injection H as <- <- <-; (split; [done|]); [done|].
  intros table [= <-]. split; [done|]. exists f, fails, fails', es. done.
Qed.

(** On a file that was written as the table of [es]. *)
Lemma openTableOwned_built metadata maxSequence s s' owned table f es :
  openTableOwned answers metadata maxSequence s = (s', (owned, Ok table)) ->
  st_tables s !! fm_file metadata = Some f -> built es (content f) ->
  th_metadata table = metadata /\ reader_of es (content f) (th_reader table) /\
  (forall e, e ∈ es -> te_Seq e <= maxSequence) /\
  fm_count metadata = Z.of_nat (length es) /\ fm_minKey metadata = min_key es /\ fm_maxKey metadata = max_key es.
Proof.
  intros H Hf Hb. apply openTableOwned_ok in H as [_ H].
  destruct (H table eq_refl) as (Em & f' & fails & fails' & es' & Hf' & Ho & Ha & Hn & Hc & Hmin & Hmax).
  assert (f' = f) as -> by congruence. pose proof (built_open es _ _ _ Hb Ho) as Hrd.
  destruct (reader_all es (content f) (th_reader table) Hrd fails') as [[m Em']|Ea]; [congruence|].
  assert (es' = es) as -> by congruence. split_and!; [done|done| |..].
  - intros e He. unfold tooNew in Hn. rewrite <- not_true_iff_false, existsb_exists in Hn.
    destruct (Z.ltb_spec maxSequence (te_Seq e)); [|lia]. exfalso. apply Hn. exists e.
    split; [by apply list_elem_of_In|]. by apply Z.ltb_lt.
  - rewrite <- Hc. apply Hrd.
  - rewrite <- Hmin. apply Hrd.
  - rewrite <- Hmax. apply Hrd.
Qed.

Lemma openTable_ok metadata maxSequence s s' t :
  openTable answers metadata maxSequence s = (s', t) -> quiet s s' /\
  forall table, t = Ok table -> exists owned, openTableOwned answers metadata maxSequence s = (s', (owned, Ok table)).
Proof.
  intros H. mbind H s1 o E. destruct o as [owned [table|m]]; pose proof (openTableOwned_ok _ _ _ _ _ _ E) as [Q _].
  - destruct owned; mret H; (split; [done|]); intros ? [= <-]; eauto.
  - destruct owned; [|mret H; by split]. mbind H s2 c E2. mret H. apply closeFileRetaining_quiet in E2.
    split; [by etrans|done].
Qed.

(** * Writing a table *)

Lemma finishWriter_ok name w s s' w' err f :
  finishWriter answers name w s = (s', (w', err)) -> st_tables s !! name = Some f -> sw_closed w = false ->
  map_Forall (fun _ f => file_ok f) (st_tables s) ->
  touch (fun n => n = name) s s' /\ st_engine s' = st_engine s /\
  (err = None -> exists table, buildTable (sw_entries w) = Some (Ok table) /\ Z.of_nat (length table) <= max_i64 /\
     st_tables s' !! name = Some (mkFile (content f ++ table) (synced f) (named f)) /\ sw_size w' = Z.of_nat (length table)).
Proof.
  intros H Hf Hc Hw. mbind H s1 a E. pose proof (ask_quiet answers _ _ _ E) as Q.
  apply ask_engine in E. destruct (Q (fun n => n = name)) as (T & Et & _). unfold sw_Finish in H. rewrite Hc in H.
  destruct (buildTable (sw_entries w)) as [[table|m]|]; [|injection H as <- <- <-; done..].
  cbv zeta beta in H. assert (taken a table <= max_i64) as Hmax by (unfold taken, max_i64; lia).
  set (n := taken a table) in *.
  assert (touch (fun x => x = name) s (put_tables (alter (append_file table n) name (st_tables s1)) s1).1) as Hput.
  { eapply touch_trans; [exact T|]. apply put_tables_touch.
    - intros x g Hx Hg. exists g. by rewrite lookup_alter_ne.
    - intros x Hx Hg. by rewrite lookup_alter_ne.
    - intros Hw1 x g Hg. apply lookup_alter_Some in Hg as [(<- & g0 & Hg0 & ->)|[_ Hg]]; [|by apply (Hw1 x)].
      specialize (Hw1 _ _ Hg0). unfold file_ok in *. simpl. rewrite length_app. lia. }
  destruct (an_err a) as [e|].
  - cbn [fmap option_fmap option_map] in H. mbind H s2 t E2. injection E2 as <- <-. mbind H s2 u E2. injection E2 as <- _.
    injection H as <- <- <-. split; [exact Hput|done].
  - cbn [fmap option_fmap option_map] in H. destruct (Z.eqb_spec n (Z.of_nat (length table))) as [En|]; cbn [negb] in H;
      mbind H s2 t E2; injection E2 as <- <-; mbind H s2 u E2; injection E2 as <- _; injection H as <- <- <-; (split; [exact Hput|]); (split; [exact E|]); [|done].
    intros _. exists table. split_and!; [done| | |done].
    + by rewrite <- En.
    + cbn [st_tables]. rewrite lookup_alter_eq, Et, Hf. cbn [fmap option_fmap option_map]. unfold append_file.
      fold n. rewrite En, Nat2Z.id, take_ge by done. done.
Qed.

(** Entries added one by one without an error. *)
Record building_of (es : list TableEntry) (b : building) : Prop := {
  bo_err : bd_err b = None;
  bo_entries : sw_entries (bd_writer b) = es;
  bo_open : sw_closed (bd_writer b) = false;
  bo_writer : writer_ok (bd_writer b);
  bo_count : bd_count b = u64 (Z.of_nat (length es));
}.

Lemma newBuilding_of : building_of [] newBuilding.
Proof. split; try done. apply new_writer_ok. Qed.

Lemma kept_id e : entry_ok e -> kept e = e.
Proof. intros [_ Ht]. destruct e as [k q v t]. unfold kept. simpl in *. f_equal. destruct t; [|done]. symmetry. by apply Ht. Qed.

Lemma addEntry_ok es b e :
  building_of es b -> entry_ok e -> bd_err (addEntry e b) = None -> building_of (es ++ [e]) (addEntry e b).
Proof.
  intros [H1 H2 H3 H4 H5] He Herr. unfold addEntry in *. destruct (sw_Add e (bd_writer b)) as [w err] eqn:E.
  cbn [bd_err] in Herr. subst err. destruct (sw_Add_effect e (bd_writer b) H4 (proj1 He)) as [Hw Heff]. rewrite E in Hw, Heff.
  cbn [fst snd] in Hw, Heff. destruct Heff as [Ee Ec]. rewrite kept_id in Ee by done.
  split; cbn [bd_err bd_writer bd_count]; try done; [by rewrite Ee, H2|].
  rewrite H5, length_app. simpl. unfold u64_add, u64. rewrite Zplus_mod_idemp_l. f_equal. lia.
Qed.

(** The merged records reach the writer. *)
Lemma addMerged_ok {It} (next : It -> It * result (option TableEntry)) fuel n it b b' acc :
  addMerged next fuel n it b = Ok b' -> building_of acc b ->
  (forall out, mergeAll next fuel n it = Ok out -> Forall entry_ok out) ->
  exists out, mergeAll next fuel n it = Ok out /\ building_of (acc ++ out) b'.
Proof.
  revert it b acc. induction n as [|n IH]; intros it b acc H Hb Hok; cbn [addMerged] in H; [done|]. cbn [mergeAll] in *.
  destruct (merge_Next next fuel it) as [it' [[e|]|m]]; [| |done].
  - cbv zeta in H. destruct (bd_err (addEntry e b)) eqn:Ee; [done|].
    destruct (mergeAll next fuel n it') as [out|m] eqn:Em.
    + cbn [rbind] in *. specialize (Hok _ eq_refl). apply Forall_cons in Hok as [He Hout].
      destruct (IH it' _ (acc ++ [e]) H) as (out' & Eout & Hb'); [by apply addEntry_ok| |].
      { intros out' E'. assert (out' = out) as -> by congruence. done. }
      exists (e :: out). split; [done|]. assert (out' = out) as -> by congruence. by rewrite <- app_assoc in Hb'.
    + exfalso. cbn [rbind] in Hok. clear Hok Hb Ee IH. revert it' m H Em. generalize (addEntry e b). clear.
      induction n as [|n IH]; intros b it m H Em; cbn [addMerged mergeAll] in *; [done|].
      destruct (merge_Next next fuel it) as [it' [[e|]|m']]; [|done..]. cbv zeta in H.
      destruct (bd_err (addEntry e b)); [done|]. destruct (mergeAll next fuel n it') eqn:E; [done|]. by eapply IH.
  - apply Ok_inj in H as <-. exists []. split; [done|]. by rewrite app_nil_r.
Qed.

(** The records of a memtable reach the writer. *)
Lemma walk_flush l b b' acc :
  walk flushEntry l b = b' -> bd_err b' = None -> building_of acc b ->
  Forall (fun p => entry_ok (mkTableEntry p.1 p.2.2 p.2.1.1 p.2.1.2)) l ->
  building_of (acc ++ ((fun p => mkTableEntry p.1 p.2.2 p.2.1.1 p.2.1.2) <$> l)) b'.
Proof.
  revert b acc. induction l as [|[k [[v t] q]] l IH]; intros b acc H He Hb Hok; cbn [walk] in H.
  { subst b'. by rewrite app_nil_r. }
  apply Forall_cons in Hok as [Hok1 Hok]. unfold flushEntry in H at 1. cbv zeta in H.
  destruct (bd_err (addEntry _ b)) eqn:Ee; cbn [negb] in H; [congruence|].
  apply (IH _ (acc ++ [mkTableEntry k q v t])) in H; [|done|by apply addEntry_ok|done].
  rewrite <- app_assoc in H. exact H.
Qed.
End steps.
