(* ===== verification/EngineInv.v ===== *)
(** The invariant of the engine: what its memtables, its tables and the disk hold of the
    writes [W]; a lookup returns the newest write of its key, or an error. *)

From stdpp Require Import pretty.
From stdpp Require Import sorting.
From S2P Require Import Prelude Proto RaftLog RaftNode Storage Bytes WalRecords MapSM DiskLog DiskLogFacts Bloom SkipList SSTable SSTableFacts SSTableSpec Manifest.
From S2P Require Import ManifestFacts Heap Merge MergeFacts MergeSpec EngineState TableReads Engine EngineFrames EngineSteps.

(** * File names *)

Lemma parse_tableFilename n : 0 < n <= max_u64 -> parseUint (trimSuffix (tableFilename n) sstableFilenameSuffix) = Some n.
Proof.
  intros Hn. unfold trimSuffix, tableFilename. rewrite cutSuffix_app. cbn [default id]. unfold parseUint. cbv zeta.
  set (d := pretty (Z.to_N n)).
  assert (digits_value 0 d = n /\ all_digits d = true /\ d <> "") as (Ev & Ed & Ene).
  { unfold d, pretty, pretty_N. case_decide; [lia|]. destruct (pretty_value (Z.to_N n) "") as [E1 E2].
    rewrite E1, E2. simpl. split_and!; [lia|done|]. intros E. rewrite E in E1. simpl in E1. lia. }
  destruct (pad0_value (defaultFileNumberWidth - String.length d) d) as [-> ->]. rewrite Ev, Ed.
  rewrite bool_decide_eq_false_2; [|by destruct (_ - _)%nat]. cbn [orb negb]. by rewrite (proj2 (Z.ltb_ge _ _)) by lia.
Qed.

Lemma tableFilename_inj a b : 0 < a <= max_u64 -> 0 < b <= max_u64 -> tableFilename a = tableFilename b -> a = b.
Proof.
  intros Ha Hb E. apply (f_equal (fun n => parseUint (trimSuffix n sstableFilenameSuffix))) in E.
  rewrite !parse_tableFilename in E by done. congruence.
Qed.

(** * Versions *)

(** The memtable holds the record [e]. *)
Definition mem_has (l : skipList) (e : TableEntry) : Prop := sl_get (te_Key e) l = Some (Some (te_version e)).

Definition mem_ok (l : skipList) : Prop :=
  exists R, rep l R /\ forall k v t q, R !! k = Some (v, t, q) -> entry_ok (mkTableEntry k q v t).

(** The file of a table with the records [es]: whole, synced and with a durable name. *)
Record durable_table (es : list TableEntry) (f : file) : Prop := {
  dt_built : built es (content f);
  dt_synced : synced f = length (content f);
  dt_named : named f = true;
}.

Definition metadata_of_table (md : fileMetadata) (es : list TableEntry) : Prop :=
  fm_count md = Z.of_nat (length es) /\ fm_minKey md = min_key es /\ fm_maxKey md = max_key es.

(** The writes an engine accepted, and those of them that a flush reported durable. *)
Record history : Type := mkHistory {
  hi_all :> TableEntry -> Prop;
  hi_flushed : TableEntry -> Prop;
}.

Section inv.
Context (marshal : VersionEdit -> result bytes).
Context (W : history).

(** Every table of the version is on the disk, with records of [W] up to its flushed
    index. *)
Record version_ok (s : Store) (m : manifestState) : Prop := {
  vo_manifest : manifest_ok m;
  vo_flushed : is_u64 (mf_flushedIndex m);
  vo_tables name md : mf_files m !! name = Some md ->
    exists f es, st_tables s !! name = Some f /\ durable_table es f /\ metadata_of_table md es /\
      forall e, e ∈ es -> W e /\ te_Seq e <= mf_flushedIndex m;
  vo_kept name md : mf_files m !! name = Some md ->
    ~ obsolete_name (st_engine s) name /\
    forall n, eg_nextFileNumber (st_engine s) <= n < max_u64 -> name <> tableFilename n;
}.

(** The record [e] is in a table of the version. *)
Definition in_version (s : Store) (m : manifestState) (e : TableEntry) : Prop :=
  exists name md f es, mf_files m !! name = Some md /\ st_tables s !! name = Some f /\ built es (content f) /\ e ∈ es.

Definition covered (P : TableEntry -> Prop) (e : TableEntry) : Prop :=
  exists v, P v /\ te_Key v = te_Key e /\ te_Seq e <= te_Seq v.

(** The disk: the manifest file holds the edits of the engine's manifest state; after an
    append of unknown outcome it may hold a part of one edit more, whose version [next] is
    on the disk too.  The tables cover what was flushed. *)
Record disk_ok (next : option manifestState) (s : Store) : Prop := {
  do_files : map_Forall (fun _ f => file_ok f) (st_tables s);
  do_version : version_ok s (eg_manifest (st_engine s));
  do_flushed e : hi_flushed W e -> covered (in_version s (eg_manifest (st_engine s))) e;
  do_number : 0 < eg_nextFileNumber (st_engine s) <= max_u64;
  do_fresh o n : o ∈ eg_obsolete (st_engine s) -> eg_nextFileNumber (st_engine s) <= n < max_u64 -> ob_path o <> tableFilename n;
  do_manifest : exists f edits, st_manifest s = Some f /\ named f = true /\ file_ok f /\
    Forall (edit_storable marshal) edits /\ applyEdits edits newManifestState = Ok (eg_manifest (st_engine s)) /\
    match next with
    | None => content f = edit_frames marshal edits /\ synced f = length (content f)
    | Some m =>
        eg_poisoned (st_engine s) <> None /\ version_ok s m /\
        (forall e, in_version s (eg_manifest (st_engine s)) e -> covered (in_version s m) e) /\
        exists edit k, edit_storable marshal edit /\ applyEdit (Some edit) (eg_manifest (st_engine s)) = Ok m /\
          content f = edit_frames marshal edits ++ take k (edit_frame marshal edit) /\
          (length (edit_frames marshal edits) <= synced f)%nat
    end;
}.

(** The record [e] is in a memtable or in a table of the engine. *)
Definition held (s : Store) (e : TableEntry) : Prop :=
  mem_has (eg_list (st_engine s)) e \/ (exists im, im ∈ eg_immutables (st_engine s) /\ mem_has (im_list im) e) \/
  in_version s (eg_manifest (st_engine s)) e.

(** The handle [t] reads the table of [es]. *)
Definition handle_ok (s : Store) (t : tableHandle) : Prop :=
  mf_files (eg_manifest (st_engine s)) !! th_file t = Some (th_metadata t) /\
  exists f es, st_tables s !! th_file t = Some f /\ built es (content f) /\ reader_of es (content f) (th_reader t).

(** What readers see of an open engine. *)
Record view_ok (s : Store) : Prop := {
  ve_fs : eg_fs (st_engine s) = true;
  ve_active : mem_ok (eg_list (st_engine s));
  ve_count : 0 <= eg_activeCount (st_engine s) /\
    (eg_activeCount (st_engine s) = 0 -> forall e, ~ mem_has (eg_list (st_engine s)) e);
  ve_immutables im : im ∈ eg_immutables (st_engine s) -> mem_ok (im_list im) /\ is_u64 (im_watermark im);
  ve_applied : is_u64 (eg_appliedIndex (st_engine s));
  ve_tables t : t ∈ eg_tables (st_engine s) -> handle_ok s t;
  ve_all name md : mf_files (eg_manifest (st_engine s)) !! name = Some md ->
    exists t, t ∈ eg_tables (st_engine s) /\ th_file t = name;
  ve_nodup : NoDup (th_file <$> eg_tables (st_engine s));
  ve_sound e : held s e -> W e;
  ve_newest e : W e -> covered (held s) e;
}.

(** * What a touched store keeps *)

Lemma covered_iff (P Q : TableEntry -> Prop) e : (forall v, P v -> Q v) -> covered P e -> covered Q e.
Proof. intros H (v & Hv & ?). exists v. auto. Qed.

Lemma built_inj es es' table : built es table -> built es' table -> es = es'.
Proof.
  intros H H'. destruct (built_reader es table H) as (rd & Ho & [_ _ Ha _]), (built_reader es' table H') as (rd' & Ho' & [_ _ Ha' _]).
  congruence.
Qed.

(** Names that must stay. *)
Definition safe (P : string -> Prop) (s : Store) : Prop :=
  (forall n, eg_nextFileNumber (st_engine s) <= n < max_u64 -> ~ P (tableFilename n)).

Lemma durable_le es f f' : durable_table es f -> file_le f f' -> file_ok f' -> durable_table es f'.
Proof.
  intros [Hb Hs Hn] [Hc Hy Hm _] Hok. split; [by rewrite Hc|unfold file_ok in Hok; rewrite Hc in *; lia|auto].
Qed.

Lemma version_touch P s s' m :
  touch P s s' -> map_Forall (fun _ f => file_ok f) (st_tables s) ->
  (forall name md, mf_files m !! name = Some md -> ~ P name) -> version_ok s m -> version_ok s' m.
Proof.
  intros T Hw HP [Hm Hf Ht Hk]. split; [done|done| |].
  - intros name md Hmd. destruct (Ht name md Hmd) as (f & es & Hlk & Hd & Hmeta & Hes).
    destruct (tc_files _ _ _ T name f (HP _ _ Hmd) Hlk) as (f' & Hlk' & Hle). exists f', es. split_and!; try done.
    eapply durable_le; [done..|]. eapply (tc_wf _ _ _ T Hw). exact Hlk'.
  - intros name md Hmd. destruct (Hk name md Hmd) as [Ho Hn]. split; [|by rewrite (tc_next _ _ _ T)].
    intros (o & Hin & <-). destruct (tc_obsolete _ _ _ T o Hin) as [HPo|(o' & Ho' & E)]; [by eapply HP|].
    apply Ho. by exists o'.
Qed.

Lemma in_version_touch P s s' m e :
  touch P s s' -> (forall name md, mf_files m !! name = Some md -> ~ P name) ->
  (forall name md, mf_files m !! name = Some md -> is_Some (st_tables s !! name)) ->
  in_version s' m e <-> in_version s m e.
Proof.
  intros T HP Hall. split.
  - intros (name & md & f' & es & Hmd & Hf' & Hb & He). destruct (Hall name md Hmd) as [f Hf].
    destruct (tc_files _ _ _ T name f (HP _ _ Hmd) Hf) as (f2 & Hf2 & [Hc _ _ _]). assert (f2 = f') as -> by congruence.
    exists name, md, f, es. rewrite Hc in Hb. done.
  - intros (name & md & f & es & Hmd & Hf & Hb & He).
    destruct (tc_files _ _ _ T name f (HP _ _ Hmd) Hf) as (f2 & Hf2 & [Hc _ _ _]).
    exists name, md, f2, es. rewrite Hc. done.
Qed.

Lemma version_present s m name md : version_ok s m -> mf_files m !! name = Some md -> is_Some (st_tables s !! name).
Proof. intros H Hmd. destruct (vo_tables _ _ H _ _ Hmd) as (f & es & -> & _). eauto. Qed.

Lemma core_eqs s s' : core_of (st_engine s') = core_of (st_engine s) ->
  eg_list (st_engine s') = eg_list (st_engine s) /\ eg_immutables (st_engine s') = eg_immutables (st_engine s) /\
  eg_manifest (st_engine s') = eg_manifest (st_engine s) /\ eg_tables (st_engine s') = eg_tables (st_engine s) /\
  eg_fs (st_engine s') = eg_fs (st_engine s) /\ eg_appliedIndex (st_engine s') = eg_appliedIndex (st_engine s) /\
  eg_closed (st_engine s') = eg_closed (st_engine s) /\ eg_activeCount (st_engine s') = eg_activeCount (st_engine s).
Proof. unfold core_of. intros H. injection H. intros. by split_and!. Qed.

(** The names [P] touches are of no version. *)
Definition spares (P : string -> Prop) (next : option manifestState) (s : Store) : Prop :=
  (forall name md, mf_files (eg_manifest (st_engine s)) !! name = Some md -> ~ P name) /\
  (forall m name md, next = Some m -> mf_files m !! name = Some md -> ~ P name) /\
  (forall n, eg_nextFileNumber (st_engine s) <= n < max_u64 -> ~ P (tableFilename n)).

Lemma disk_touch P next s s' : touch P s s' -> spares P next s -> disk_ok next s -> disk_ok next s'.
Proof.
  intros T (S1 & S2 & S3) [Hw Hv Hfl Hn Hfr Hm]. destruct (core_eqs _ _ (tc_core _ _ _ T)) as (_ & _ & Em & _).
  split.
  - by apply T.
  - rewrite Em. by eapply version_touch.
  - intros e He. rewrite Em. eapply covered_iff; [|by apply Hfl]. intros v.
    rewrite (in_version_touch P s s' _ v T S1) by (intros ? ?; by apply version_present). done.
  - by rewrite (tc_next _ _ _ T).
  - intros o n Ho Hr. rewrite (tc_next _ _ _ T) in Hr. destruct (tc_obsolete _ _ _ T o Ho) as [HP|(o' & Ho' & <-)].
    + intros E. apply (S3 n Hr). by rewrite <- E.
    + by apply Hfr.
  - destruct Hm as (f & edits & Hf & Hnm & Hok & Hst & Hap & Hrest). pose proof (tc_manifest _ _ _ T) as Hmf. rewrite Hf in Hmf.
    destruct Hmf as (f' & Hf' & [Hc Hsy Hna Hfo]). exists f', edits. rewrite Em. split_and!; auto.
    specialize (Hfo Hok). unfold file_ok in Hfo. destruct next as [m|].
    + destruct Hrest as (Hpo & Hvm & Hcov & edit & k & He1 & He2 & He3 & He4). split_and!.
      * by rewrite (tc_poisoned _ _ _ T).
      * eapply version_touch; [exact T|done| |done]. intros name md. by apply S2.
      * intros e He. rewrite (in_version_touch P s s' _ e T S1) in He by (intros ? ?; by apply version_present).
        destruct (Hcov e He) as (v & Hv1 & Hv2). exists v. split; [|done].
        rewrite (in_version_touch P s s' m v T); [done|intros ? ?; by apply S2|intros ? ?; by apply version_present].
      * exists edit, k. split_and!; [done|done|by rewrite Hc|lia].
    + destruct Hrest as [He1 He2]. rewrite Hc in *. split; [done|lia].
Qed.

Lemma handle_touch P s s' t :
  touch P s s' -> (forall name md, mf_files (eg_manifest (st_engine s)) !! name = Some md -> ~ P name) ->
  handle_ok s t -> handle_ok s' t.
Proof.
  intros T HP (Hmd & f & es & Hf & Hb & Hr). destruct (core_eqs _ _ (tc_core _ _ _ T)) as (_ & _ & Em & _).
  unfold handle_ok. rewrite Em. split; [done|]. destruct (tc_files _ _ _ T _ f (HP _ _ Hmd) Hf) as (f' & Hf' & [Hc _ _ _]).
  exists f', es. by rewrite Hc.
Qed.

Lemma held_touch P s s' e :
  touch P s s' -> (forall name md, mf_files (eg_manifest (st_engine s)) !! name = Some md -> ~ P name) ->
  version_ok s (eg_manifest (st_engine s)) -> held s' e <-> held s e.
Proof.
  intros T HP Hv. destruct (core_eqs _ _ (tc_core _ _ _ T)) as (El & Ei & Em & _). unfold held. rewrite El, Ei, Em.
  by rewrite (in_version_touch P s s' _ e T HP) by (intros ? ?; by apply version_present).
Qed.

(** The view is one of the core and of the tables. *)
Lemma view_ext s s' :
  core_of (st_engine s') = core_of (st_engine s) -> st_tables s' = st_tables s -> view_ok s -> view_ok s'.
Proof.
  intros C Et [V1 V2 Vc V3 V4 V5 V6 V7 V8 V9]. destruct (core_eqs _ _ C) as (El & Ei & Em & Eh & Ef & Ea & _ & En).
  assert (forall e, held s' e <-> held s e) as Hh by (intros e; unfold held, in_version; by rewrite El, Ei, Em, Et).
  split; rewrite ?El, ?Ei, ?Em, ?Eh, ?Ef, ?Ea, ?En; try done.
  - intros t Ht. unfold handle_ok. rewrite Em, Et. by apply V5.
  - intros e He. by apply V8, Hh.
  - intros e He. eapply covered_iff; [|by apply V9]. intros v. by apply Hh.
Qed.

Lemma view_touch P s s' :
  touch P s s' -> (forall name md, mf_files (eg_manifest (st_engine s)) !! name = Some md -> ~ P name) ->
  version_ok s (eg_manifest (st_engine s)) -> view_ok s -> view_ok s'.
Proof.
  intros T HP Hv [V1 V2 Vc V3 V4 V5 V6 V7 V8 V9].
  destruct (core_eqs _ _ (tc_core _ _ _ T)) as (El & Ei & Em & Et & Ef & Ea & _ & En).
  split; rewrite ?El, ?Ei, ?Em, ?Et, ?Ef, ?Ea, ?En; try done.
  - intros t Ht. eapply handle_touch; [done..|]. by apply V5.
  - intros e He. rewrite held_touch in He by done. by apply V8.
  - intros e He. eapply covered_iff; [|by apply V9]. intros v Hv'. by rewrite held_touch by done.
Qed.
End inv.

Notation version_t := (bytes * bool * Z)%type.

(** [b] is the newest record of [key] in [C]. *)
Definition best_among (C : TableEntry -> Prop) (key : bytes) (b : option version_t) : Prop :=
  match b with
  | None => forall e, C e -> te_Key e <> key
  | Some (v, t, q) => C (mkTableEntry key q v t) /\ forall e, C e -> te_Key e = key -> te_Seq e <= q
  end.

Lemma best_iff (C D : TableEntry -> Prop) key b : (forall e, C e <-> D e) -> best_among C key b -> best_among D key b.
Proof.
  intros H. destruct b as [[[v t] q]|]; simpl.
  - intros [H1 H2]. split; [by apply H|]. intros e He. apply H2. by apply H.
  - intros H1 e He. apply H1. by apply H.
Qed.

Lemma consider_best C D key cand best best' :
  best_among C key best -> best_among D key cand -> consider cand best = Ok best' ->
  best_among (fun e => C e \/ D e) key best'.
Proof.
  intros HC HD H. unfold consider in H. destruct cand as [[[v t] q]|].
  - simpl in HD. destruct HD as [Hin Hmax]. destruct best as [[[v' t'] q']|].
    + simpl in HC. destruct HC as [Hin' Hmax']. destruct (Z.ltb_spec q' q).
      * apply Ok_inj in H as <-. simpl. split; [by right|]. intros e [He|He] Ek; [specialize (Hmax' e He Ek)|specialize (Hmax e He Ek)]; lia.
      * destruct (_ && _); [done|]. apply Ok_inj in H as <-. simpl. split; [by left|].
        intros e [He|He] Ek; [specialize (Hmax' e He Ek)|specialize (Hmax e He Ek)]; lia.
    + apply Ok_inj in H as <-. simpl in *. split; [by right|]. intros e [He|He] Ek; [by apply HC in He|by apply Hmax].
  - apply Ok_inj in H as <-. simpl in HD. destruct best as [[[v' t'] q']|]; simpl in *.
    + destruct HC as [Hin' Hmax']. split; [by left|]. intros e [He|He] Ek; [by apply Hmax'|by apply HD in He].
    + intros e [He|He]; auto.
Qed.

Lemma mem_best key l cand : sl_get key l = Some cand -> best_among (mem_has l) key cand.
Proof.
  intros H. destruct cand as [[[v t] q]|]; simpl.
  - split; [exact H|]. intros e He <-. unfold mem_has in He. rewrite H in He. injection He. intros. lia.
  - intros e He <-. unfold mem_has in He. by rewrite H in He.
Qed.

Lemma newest_best key es :
  table_sorted es -> best_among (fun e => e ∈ es) key (te_version <$> newest key es).
Proof.
  intros Hs. unfold newest. induction es as [|e es IH]; [by intros e ?%elem_of_nil|].
  apply StronglySorted_cons in Hs as [He Hs]. destruct (decide (te_Key e = key)) as [Ek|Hne].
  - rewrite filter_cons_True by done. simpl. split; [rewrite <- Ek; destruct e; by left|].
    intros x [->|Hx]%elem_of_cons Ekx; [lia|]. rewrite Forall_forall in He. destruct (He x Hx) as [Hlt|[_ Hq]]; [|lia].
    rewrite Ek, Ekx in Hlt. by apply (irreflexivity bytes_lt) in Hlt.
  - rewrite filter_cons_False by done. specialize (IH Hs). destruct (head _) as [w|]; simpl in *.
    + destruct IH as [Hin Hmax]. split; [by right|]. intros x [->|Hx]%elem_of_cons Ekx; [done|by apply Hmax].
    + intros x [->|Hx]%elem_of_cons; [done|by apply IH].
Qed.

Section lookup.
Context (answers : nat -> answer) (W : history).

Lemma lookupLists_best key lists best best' C :
  best_among C key best -> lookupLists key lists best = Ok best' ->
  best_among (fun e => C e \/ exists l, l ∈ lists /\ mem_has l e) key best'.
Proof.
  revert best C. induction lists as [|l lists IH]; intros best C HC H; cbn [lookupLists] in H.
  { apply Ok_inj in H as <-. eapply best_iff; [|exact HC]. intros e. split; [by left|].
    intros [?|(l & Hl & _)]; [done|]. by apply elem_of_nil in Hl. }
  destruct (sl_get key l) as [cand|] eqn:Eg; [|done]. destruct (consider cand best) as [best1|] eqn:Ec; [|done]. cbn [rbind] in H.
  eapply IH in H; [|eapply consider_best; [exact HC|by apply mem_best|exact Ec]].
  eapply best_iff; [|exact H]. intros e. split.
  - intros [[?|?]|(l' & Hl & ?)]; [by left|right; exists l; split; [by left|done]|right; exists l'; split; [by right|done]].
  - intros [?|(l' & [->|Hl]%elem_of_cons & ?)]; [by left; left|by left; right|right; eauto].
Qed.

(** The record [e] is read through one of the handles. *)
Definition in_handles (s : Store) (tables : list tableHandle) (e : TableEntry) : Prop :=
  exists t f es, t ∈ tables /\ st_tables s !! th_file t = Some f /\ built es (content f) /\ e ∈ es.

Lemma lookupTables_best key bloom tables best s s' r C :
  (forall t, t ∈ tables -> handle_ok s t) -> best_among C key best ->
  lookupTables answers key bloom tables best s = (s', r) -> quiet s s' /\
  forall best', r = Ok best' -> best_among (fun e => C e \/ in_handles s tables e) key best'.
Proof.
  revert best s C. induction tables as [|t tables IH]; intros best s C Hok HC H; cbn [lookupTables] in H.
  { mret H. split; [done|]. intros ? [= <-]. eapply best_iff; [|exact HC]. intros e. split; [by left|].
    intros [?|(t & f & es & Ht & _)]; [done|]. by apply elem_of_nil in Ht. }
  mbind H s1 rdr E. apply file_reader_inv in E as [Q Hr]. destruct (Hok t) as (Hmd & f & es & Hf & Hb & Hrd); [by left|].
  destruct (Hr f Hf) as [fails ->]. destruct (reader_get es (content f) (th_reader t) Hrd fails key bloom) as [[m Em]|Eg].
  { rewrite Em in H. mret H. by split. }
  rewrite Eg in H. destruct (consider _ best) as [best1|] eqn:Ec; [|mret H; by split].
  assert (forall t', handle_ok s t' -> handle_ok s1 t') as Hkeep.
  { intros t' Ht'. eapply (handle_touch (fun _ => False)); [apply Q|by intros ? ? _ ?|done]. }
  eapply IH in H as [Q' Hres]; [|intros t' Ht'; apply Hkeep, Hok; by right|
    eapply consider_best; [exact HC|apply newest_best, Hb|exact Ec]].
  split; [by etrans|]. intros best' ->. specialize (Hres _ eq_refl). eapply best_iff; [|exact Hres].
  destruct (Q (fun _ => False)) as (_ & Et & _). unfold in_handles. rewrite Et. intros e. split.
  - intros [[?|?]|(t' & f' & es' & Ht' & ?)]; [by left|right; exists t, f, es; split_and!; try done; by left|].
    right. exists t', f', es'. split; [by right|done].
  - intros [?|(t' & f' & es' & [->|Ht']%elem_of_cons & Hf' & Hb' & He)]; [by left; left| |].
    + left. right. assert (f' = f) as -> by congruence. assert (es' = es) as -> by (by eapply built_inj). done.
    + right. exists t', f', es'. done.
Qed.

Lemma lookup_best key s s' r :
  view_ok W s -> lookupLocked answers key s = (s', r) -> quiet s s' /\ forall b, r = Ok b -> best_among W key b.
Proof.
  intros [V1 V2 Vc V3 V4 V5 V6 V7 V8 V9] H. mbind H s1 e E. injection E as <- <-. cbn [id] in H.
  destruct (eg_closed (st_engine s)); [mret H; by split|].
  destruct (lookupLists _ _ _) as [best|m] eqn:El; [|mret H; by split].
  assert (best_among (fun _ => False) key None) as H0 by (by intros ? ?).
  pose proof (lookupLists_best _ _ _ _ _ H0 El) as Hb. eapply lookupTables_best in H as [Q Hres]; [|exact V5|exact Hb].
  split; [done|]. intros b ->. specialize (Hres _ eq_refl).
  assert (best_among (held s) key b) as Hh.
  { eapply best_iff; [|exact Hres]. intros e. unfold held. split.
    - intros [[[]|(l & [->|Hl]%elem_of_cons & Hm)]|(t & f & es & Ht & Hf & Hbt & He)]; [by left| |].
      + right; left. apply list_elem_of_fmap in Hl as (im & -> & Him). eauto.
      + right; right. destruct (V5 t Ht) as [Hmd _]. exists (th_file t), (th_metadata t), f, es. done.
    - intros [Hm|[(im & Him & Hm)|(name & md & f & es & Hmd & Hf & Hbt & He)]].
      + left; right. exists (eg_list (st_engine s)). split; [by left|done].
      + left; right. exists (im_list im). split; [right; by apply list_elem_of_fmap_2|done].
      + right. destruct (V6 name md Hmd) as (t & Ht & <-). exists t, f, es. done. }
  destruct b as [[[v t] q]|]; simpl in *.
  - destruct Hh as [Hin Hmax]. split; [by apply V8|]. intros e He Ek. destruct (V9 e He) as (x & Hx & Ekx & Hq).
    specialize (Hmax x Hx). rewrite Ekx in Hmax. specialize (Hmax Ek). lia.
  - intros e He Ek. destruct (V9 e He) as (x & Hx & Ekx & Hq). apply (Hh x Hx). congruence.
Qed.

(** * Reads that do not fail *)

(** No two accepted writes differ at one key and sequence number. *)
Definition agree (C : TableEntry -> Prop) : Prop :=
  forall e e', C e -> C e' -> te_Key e = te_Key e' -> te_Seq e = te_Seq e' -> e = e'.

Definition from (C : TableEntry -> Prop) (key : bytes) (b : option version_t) : Prop :=
  match b with Some (v, t, q) => C (mkTableEntry key q v t) | None => True end.

Lemma consider_total C key cand best :
  agree C -> from C key cand -> from C key best -> exists best', consider cand best = Ok best' /\ from C key best'.
Proof using.
  intros Ha Hc Hb. destruct cand as [[[v t] q]|], best as [[[v' t'] q']|]; simpl in *; eauto.
  destruct (q' <? q); [eauto|]. destruct (Z.eqb_spec q q') as [->|]; [|eauto]. specialize (Ha _ _ Hc Hb eq_refl eq_refl). injection Ha as -> ->.
  rewrite Bool.eqb_reflx, bool_decide_true by done. eauto.
Qed.

Lemma lookupLists_total C key lists best :
  agree C -> (forall l, l ∈ lists -> mem_ok l /\ forall e, mem_has l e -> C e) -> from C key best ->
  exists best', lookupLists key lists best = Ok best' /\ from C key best'.
Proof using.
  intros Ha. revert best. induction lists as [|l lists IH]; intros best Hl Hb; cbn [lookupLists]; [eauto|].
  destruct (Hl l) as [(R & Hrep & _) Hin]; [by left|]. pose proof (get_ok _ _ key Hrep) as Hget. rewrite Hget.
  destruct (consider_total C key (R !! key) best Ha) as (best' & -> & Hb'); [|done|cbn [rbind]; apply IH; [set_solver|done]].
  destruct (R !! key) as [[[v t] q]|] eqn:E; [|done]. apply Hin. exact Hget.
Qed.

Lemma lookupTables_total C key bloom tables best s :
  (forall n, an_readFails (answers n) = never) -> agree C ->
  (forall t, t ∈ tables -> handle_ok s t) -> (forall e, in_handles s tables e -> C e) -> from C key best ->
  exists s' best', lookupTables answers key bloom tables best s = (s', Ok best').
Proof using.
  intros Hr Ha. revert best s. induction tables as [|t tables IH]; intros best s Hok Hin Hb; cbn [lookupTables]; [by eexists _, _|].
  destruct (Hok t) as (Hmd & f & es & Hf & Hbt & Hrd); [by left|]. unfold ebind at 1. destruct (file_reader answers (th_file t) s) as [s1 r] eqn:E.
  assert (r = readAt never (content f)) as ->.
  { unfold file_reader in E. mbind E s2 a Ea. pose proof (ask_quiet answers _ _ _ Ea (fun _ => False)) as (_ & Et & _).
    injection Ea as _ <-. mbind E s3 tb Etb. apply get_tables_inv in Etb as [-> ->]. rewrite Et, Hf, Hr in E. by mret E. }
  apply file_reader_inv in E as [Q _]. change (readAt never (content f)) with (solid (content f)). rewrite (ro_get _ _ _ Hrd key bloom).
  destruct (consider_total C key (te_version <$> newest key es) best Ha) as (best' & -> & Hb'); [|done|].
  - pose proof (newest_best key es) as Hn. destruct (te_version <$> newest key es) as [[[v tb] q]|]; [|done].
    apply Hin. exists t, f, es. split_and!; [by left|done|done|]. apply Hn. apply Hbt.
  - assert (forall t', handle_ok s t' -> handle_ok s1 t') as Hkeep.
    { intros t' Ht'. eapply (handle_touch (fun _ => False)); [apply Q|by intros ? ? _ ?|done]. }
    apply IH; [intros t' Ht'; apply Hkeep, Hok; by right| |done].
    intros e (t' & f' & es' & Ht' & Hf' & ?). destruct (Q (fun _ => False)) as (_ & Et & _). rewrite Et in Hf'.
    apply Hin. exists t', f', es'. split_and!; [by right|done|apply H|apply H].
Qed.

Lemma lookup_total key s s' r :
  view_ok W s -> agree W -> (forall n, an_readFails (answers n) = never) -> eg_closed (st_engine s) = false ->
  lookupLocked answers key s = (s', r) -> exists b, r = Ok b.
Proof.
  intros [V1 V2 Vc V3 V4 V5 V6 V7 V8 V9] Ha Hr Hcl H. mbind H s1 e E. injection E as <- <-. cbn [id] in H. rewrite Hcl in H.
  destruct (lookupLists_total W key (eg_list (st_engine s) :: (im_list <$> eg_immutables (st_engine s))) None Ha) as (best & El & Hb); [|done|].
  { intros l [->|(im & -> & Him)%list_elem_of_fmap]%elem_of_cons.
    - split; [done|]. intros e He. apply V8. by left.
    - split; [by apply V3|]. intros e He. apply V8. right; left. eauto. }
  rewrite El in H. destruct (lookupTables_total W key (eg_readWithBloom (st_engine s)) (eg_tables (st_engine s)) best s Hr Ha V5) as (s2 & b & Eb); [|done|].
  - intros e (t & f & es & Ht & Hf & Hbt & He). apply V8. right; right. destruct (V5 t Ht) as [Hmd _].
    exists (th_file t), (th_metadata t), f, es. done.
  - rewrite Eb in H. mret H. eauto.
Qed.
End lookup.
