(* ===== verification/EngineCommit.v ===== *)
(** Building the table of a flush or of a compaction, and committing an edit to the manifest:
    the writes that the table holds, and what is on disk whatever the file system answered. *)

From S2P Require Import Prelude Proto RaftLog RaftNode Storage Bytes WalRecords MapSM DiskLog DiskLogFacts Bloom SkipList SSTable SSTableFacts SSTableSpec Manifest.
From S2P Require Import ManifestFacts Heap Merge MergeFacts MergeSpec EngineState TableReads Engine EngineFrames EngineSteps EngineInv.

Section build.
Context (answers : nat -> answer) (marshal : VersionEdit -> result bytes).
Context (W : history).

Notation disk_ok := (disk_ok marshal W).
Notation view_ok := (view_ok W).

(** From [s] to [s'] the engine looks the same and the disk is still in order. *)
Record kept_ok (next : option manifestState) (s s' : Store) : Prop := {
  ko_core : core_of (st_engine s') = core_of (st_engine s);
  ko_poisoned : eg_poisoned (st_engine s') = eg_poisoned (st_engine s);
  ko_disk : disk_ok next s';
  ko_view : view_ok s -> view_ok s';
  ko_files name md f : mf_files (eg_manifest (st_engine s)) !! name = Some md -> st_tables s !! name = Some f ->
    exists f', st_tables s' !! name = Some f' /\ content f' = content f;
}.

Lemma kept_refl next s : disk_ok next s -> kept_ok next s s.
Proof. intros D. split; try done. intros name md f _ Hf. by exists f. Qed.

Lemma kept_trans next s1 s2 s3 : kept_ok next s1 s2 -> kept_ok next s2 s3 -> kept_ok next s1 s3.
Proof.
  intros [C1 P1 D1 V1 F1] [C2 P2 D2 V2 F2]. split; [congruence|congruence|done|auto|].
  intros name md f Hmd Hf. destruct (F1 name md f Hmd Hf) as (f1 & Hf1 & E1). destruct (core_eqs _ _ C1) as (_ & _ & Em & _).
  rewrite <- Em in Hmd. destruct (F2 name md f1 Hmd Hf1) as (f2 & Hf2 & E2). exists f2. split; [done|congruence].
Qed.

Lemma touch_kept P next s s' : touch P s s' -> spares P next s -> disk_ok next s -> kept_ok next s s'.
Proof.
  intros T S D. split; [apply T|apply T|by eapply disk_touch| |].
  - intros V. eapply view_touch; [exact T|apply S|apply D|exact V].
  - intros name md f Hmd Hf. destruct (tc_files _ _ _ T name f) as (f' & Hf' & [Hc _ _ _]); [exact (proj1 S name md Hmd)|done|]. by exists f'.
Qed.

Lemma spares_none next s : spares (fun _ => False) next s.
Proof. split_and!; intros; tauto. Qed.

Lemma quiet_kept next s s' : quiet s s' -> disk_ok next s -> kept_ok next s s'.
Proof. intros Q D. apply (touch_kept (fun _ => False)); [apply Q|apply spares_none|done]. Qed.

Lemma spares_or P Q next s : spares P next s -> spares Q next s -> spares (fun n => P n \/ Q n) next s.
Proof.
  intros (A1 & A2 & A3) (B1 & B2 & B3). split_and!.
  - intros name md H [?|?]; [by eapply A1|by eapply B1].
  - intros m name md H1 H2 [?|?]; [by eapply A2|by eapply B2].
  - intros n Hn [?|?]; [by eapply A3|by eapply B3].
Qed.

Lemma obsolete_spares next s : disk_ok next s -> spares (obsolete_name (st_engine s)) next s.
Proof.
  intros D. split_and!.
  - intros name md Hmd. apply (vo_kept _ _ _ (do_version _ _ _ _ D) _ _ Hmd).
  - intros m name md -> Hmd. destruct (do_manifest _ _ _ _ D) as (f & edits & _ & _ & _ & _ & _ & _ & Hv & _).
    apply (vo_kept _ _ _ Hv _ _ Hmd).
  - intros n Hn (o & Ho & E). by apply (do_fresh _ _ _ _ D o n).
Qed.

Lemma reconcile_kept next s s' r :
  reconcileObsoleteLocked answers s = (s', r) -> disk_ok next s -> kept_ok next s s'.
Proof. intros H D. apply reconcile_touch in H. eapply touch_kept; [exact H|by apply obsolete_spares|done]. Qed.

(** A name of no version, not obsolete and not to be allocated again. *)
Record loose (next : option manifestState) (s : Store) (name : string) : Prop := {
  lo_manifest : mf_files (eg_manifest (st_engine s)) !! name = None;
  lo_next m : next = Some m -> mf_files m !! name = None;
  lo_obsolete : ~ obsolete_name (st_engine s) name;
  lo_number n : eg_nextFileNumber (st_engine s) <= n < max_u64 -> name <> tableFilename n;
}.

Lemma loose_spares next s name : loose next s name -> spares (fun n => n = name) next s.
Proof.
  intros [L1 L2 L3 L4]. split_and!.
  - intros n md H ->. congruence.
  - intros m n md H1 H2 ->. rewrite (L2 m) in H2; done.
  - intros n Hn E. by apply (L4 n).
Qed.

Lemma loose_engine next s s' name : st_engine s' = st_engine s -> loose next s name -> loose next s' name.
Proof. intros E [L1 L2 L3 L4]. by split; rewrite ?E. Qed.

Lemma loose_touch P next s s' name : touch P s s' -> ~ P name -> loose next s name -> loose next s' name.
Proof.
  intros T HP [L1 L2 L3 L4]. destruct (core_eqs _ _ (tc_core _ _ _ T)) as (_ & _ & Em & _). split.
  - by rewrite Em.
  - done.
  - intros (o & Ho & <-). destruct (tc_obsolete _ _ _ T o Ho) as [?|(o' & Ho' & E)]; [done|]. apply L3. by exists o'.
  - intros n. rewrite (tc_next _ _ _ T). apply L4.
Qed.

Lemma discard_kept {A} next path open cause s s' (r : result A) :
  discardCompactionOutputLocked answers path open cause s = (s', r) -> disk_ok next s -> loose next s path ->
  kept_ok next s s' /\ exists m, r = Err m.
Proof.
  intros H D L. apply discard_touch in H as [T E]. split; [|done].
  eapply touch_kept; [exact T| |done]. apply (spares_or (fun n => n = path)); [by apply loose_spares|by apply obsolete_spares].
Qed.

(** A new number. *)
Lemma allocate_kept next s s' r :
  allocateFilenameLocked s = (s', r) -> disk_ok next s ->
  kept_ok next s s' /\ st_tables s' = st_tables s /\ forall name, r = Ok name -> loose next s' name.
Proof.
  intros H D. mbind H s1 number E. injection E as <- <-.
  destruct (_ || _) eqn:Eg; [mret H; split; [by apply kept_refl|by split]|]. bool_to_prop.
  mbind H s1 u E. injection E as <- _. mret H. set (n := eg_nextFileNumber (st_engine s)) in *.
  pose proof D as [Dw Dv Dl Dn Dfr Dm]. fold n in Dn.
  assert (n +u 1 = n + 1) as En by (apply u64_add_small; lia).
  assert (forall m, version_ok W s m -> version_ok W (mkStore (set_nextFileNumber (n +u 1) (st_engine s)) (st_tables s) (st_manifest s) (st_clock s)) m) as Hv.
  { intros m [Hm Hf Ht Hk]. split; [done..|]. intros name md Hmd. destruct (Hk name md Hmd) as [Ho Hn]. split; [done|].
    intros k Hk'. cbn [st_engine eg_nextFileNumber set_nextFileNumber] in Hk'. apply Hn. fold n. lia. }
  split; [split|]; try done.
  - split; cbn [st_tables st_engine st_manifest]; try done.
    + by apply Hv.
    + cbn [eg_nextFileNumber set_nextFileNumber]. lia.
    + intros o k Ho Hk. apply Dfr; [done|]. cbn [eg_nextFileNumber set_nextFileNumber] in Hk. fold n. lia.
    + destruct Dm as (f & edits & Hf & Hnm & Hok & Hst & Hap & Hrest). exists f, edits. split_and!; try done.
      destruct next as [m|]; [|done]. destruct Hrest as (R1 & R2 & R3). split; [done|]. split; [by apply Hv|done].
  - intros [V1 V2 Vc V3 V4 V5 V6 V7 V8 V9]. by split.
  - intros name md f _ Hf. by exists f.
  - split; [done|]. intros name [= <-]. split; cbn [st_engine].
    + destruct (mf_files (eg_manifest (st_engine s)) !! tableFilename n) as [md|] eqn:Em; [|exact Em].
      exfalso. destruct (vo_kept _ _ _ Dv _ _ Em) as [_ Hk]. by apply (Hk n); [fold n; lia|].
    + intros m ->. destruct Dm as (f & edits & Hf & Hnm & Hok & Hst & Hap & Hpo & Hvm & _).
      destruct (mf_files m !! tableFilename n) as [md|] eqn:Em; [|done].
      exfalso. destruct (vo_kept _ _ _ Hvm _ _ Em) as [_ Hk]. by apply (Hk n); [fold n; lia|].
    + intros (o & Ho & E). by apply (Dfr o n); [|fold n; lia|].
    + intros k Hk. cbn [eg_nextFileNumber set_nextFileNumber] in Hk. intros E. apply tableFilename_inj in E; lia.
Qed.

(** The file [name] is the table of [es] and not yet part of a version. *)
Definition written (next : option manifestState) (s : Store) (name : string) (es : list TableEntry) : Prop :=
  loose next s name /\ exists f, st_tables s !! name = Some f /\ built es (content f).

Definition finished (next : option manifestState) (s : Store) (name : string) (es : list TableEntry) : Prop :=
  loose next s name /\ exists f, st_tables s !! name = Some f /\ durable_table es f.

Lemma written_touch next s s' name es :
  touch (fun _ => False) s s' -> written next s name es -> written next s' name es.
Proof.
  intros T (L & f & Hf & Hb). split; [by eapply loose_touch; [exact T|tauto|]|].
  destruct (tc_files _ _ _ T name f) as (f' & Hf' & [Hc _ _ _]); [tauto|done|]. exists f'. by rewrite Hc.
Qed.

Lemma finished_touch P next s s' name es :
  touch P s s' -> ~ P name -> map_Forall (fun _ f => file_ok f) (st_tables s) -> finished next s name es -> finished next s' name es.
Proof.
  intros T HP Hw (L & f & Hf & Hd). split; [by eapply loose_touch|].
  destruct (tc_files _ _ _ T name f HP Hf) as (f' & Hf' & Hle). exists f'. split; [done|].
  eapply durable_le; [done..|]. by apply (tc_wf _ _ _ T Hw name).
Qed.

(** Syncing the file and then the directory makes it durable. *)
Lemma sync_written next s s1 s2 s3 name es r :
  file_Sync answers name s = (s1, None) -> quiet s1 s2 -> fs_SyncDir answers s2 = (s3, r) ->
  disk_ok next s -> written next s name es ->
  touch (fun _ => False) s s3 /\ (r = None -> finished next s3 name es).
Proof.
  intros H1 Q H2 D Hwr. apply (file_Sync_touch answers (fun _ => False)) in H1 as [T1 E1]; [|apply D].
  apply (fs_SyncDir_touch answers (fun _ => False)) in H2 as [T2 E2].
  assert (touch (fun _ => False) s s3) as T by (eapply touch_trans; [exact T1|]; eapply touch_trans; [apply Q|exact T2]).
  split; [done|]. intros ->. destruct (E2 eq_refl) as [E2' _]. specialize (E1 eq_refl). destruct Hwr as (L & f & Hf & Hb).
  split; [by eapply loose_touch; [exact T|tauto|]|].
  destruct (Q (fun _ => False)) as (_ & Et & _). exists (name_file (sync_file f)).
  rewrite E2', Et, E1, lookup_fmap, lookup_alter_eq, Hf. split; [done|]. by split.
Qed.

(** The new table of a flush or compaction. *)
Record new_table (next : option manifestState) (s : Store) (t : tableHandle) (es : list TableEntry) (maxSeq : Z) : Prop := {
  nt_finished : finished next s (th_file t) es;
  nt_reader f : st_tables s !! th_file t = Some f -> reader_of es (content f) (th_reader t);
  nt_metadata : metadata_of_table (th_metadata t) es;
  nt_seq e : e ∈ es -> te_Seq e <= maxSeq;
}.

Lemma opened_new next metadata maxSeq s s' owned table es :
  openTableOwned answers metadata maxSeq s = (s', (owned, Ok table)) -> finished next s (fm_file metadata) es ->
  quiet s s' -> disk_ok next s -> new_table next s' table es maxSeq /\ th_metadata table = metadata.
Proof.
  intros H Hfin Q D. pose proof Hfin as (_ & f & Hf & Hd).
  destruct (openTableOwned_built _ _ _ _ _ _ _ f es H Hf (dt_built _ _ Hd)) as (Em & Hrd & Hseq & Hmeta).
  split; [|done]. assert (th_file table = fm_file metadata) as Eth by (unfold th_file; by rewrite Em).
  destruct (Q (fun _ => False)) as (T & Et & _). split.
  - rewrite Eth. eapply finished_touch; [exact T|tauto|apply D|done].
  - intros f' Hf'. rewrite Eth, Et in Hf'. assert (f' = f) as -> by congruence. done.
  - by rewrite Em.
  - done.
Qed.

Lemma publishOutput_ok metadata es s s' r :
  publishOutput answers (fm_file metadata) metadata s = (s', r) -> disk_ok None s -> written None s (fm_file metadata) es ->
  kept_ok None s s' /\
  forall table, r = Ok table -> new_table None s' table es (mf_flushedIndex (eg_manifest (st_engine s))) /\ th_metadata table = metadata.
Proof.
  intros H D Hwr. set (name := fm_file metadata) in *. mbind H s1 syncErr E1.
  pose proof E1 as E1'. apply (file_Sync_touch answers (fun _ => False)) in E1' as [T1 _]; [|apply D].
  assert (kept_ok None s s1) as K1 by (eapply touch_kept; [exact T1|apply spares_none|done]).
  assert (forall s2, touch (fun _ => False) s s2 -> kept_ok None s s2 /\ loose None s2 name) as Hk.
  { intros s2 T2. split; [eapply touch_kept; [exact T2|apply spares_none|done]|]. by eapply (written_touch None s s2 name es T2). }
  assert (forall open cause s2, touch (fun _ => False) s s2 ->
    discardCompactionOutputLocked answers name open cause s2 = (s', r) -> kept_ok None s s' /\ exists m, r = Err m) as Hdis.
  { intros open cause s2 T2 H2. destruct (Hk s2 T2) as [K2 L2].
    eapply discard_kept in H2 as [K3 E]; [|apply K2|done]. split; [by eapply kept_trans|done]. }
  destruct syncErr as [e|]; [destruct (Hdis _ _ _ T1 H) as [K [m ->]]; by split|].
  mbind H s2 closeErr E2. apply file_Close_quiet in E2.
  assert (touch (fun _ => False) s s2) as T2 by (eapply touch_trans; [exact T1|apply E2]).
  destruct closeErr as [e|]; [destruct (Hdis _ _ _ T2 H) as [K [m ->]]; by split|].
  mbind H s3 dirErr E3. destruct (sync_written None s s1 s2 s3 name es dirErr E1 E2 E3 D Hwr) as [T3 Hfin].
  destruct dirErr as [e|]; [destruct (Hdis _ _ _ T3 H) as [K [m ->]]; by split|]. specialize (Hfin eq_refl).
  mbind H s4 flushed E4. injection E4 as <- <-. mbind H s4 o E4. destruct o as [owned t].
  pose proof (openTableOwned_ok answers _ _ _ _ _ _ E4) as [Q4 _].
  assert (touch (fun _ => False) s s4) as T4 by (eapply touch_trans; [exact T3|apply Q4]).
  destruct (core_eqs _ _ (tc_core _ _ _ T3)) as (_ & _ & Em & _). rewrite Em in E4.
  destruct t as [table|m].
  - assert (s' = s4 /\ r = Ok table) as [-> ->] by (destruct owned; by mret H). split; [by apply Hk|].
    intros table' [= <-]. eapply opened_new; [exact E4|done|done|]. by apply Hk.
  - assert (discardCompactionOutputLocked answers name owned m s4 = (s', r)) as H' by (by destruct owned).
    destruct (Hdis _ _ _ T4 H') as [K [m' ->]]. by split.
Qed.

(** * The output of a compaction *)

Definition records_of (s : Store) (t : tableHandle) (es : list TableEntry) : Prop :=
  exists f, st_tables s !! th_file t = Some f /\ built es (content f).

Lemma inputReaders_ok inputs s s' readers :
  (forall t, t ∈ inputs -> handle_ok s t) -> inputReaders answers inputs s = (s', readers) -> quiet s s' /\
  exists lists, Forall2 (runs it_Next true) (newSSTableEntryIterator <$> readers) lists /\ Forall2 (records_of s) inputs lists.
Proof.
  revert s readers. induction inputs as [|t inputs IH]; intros s readers Hok H; cbn [inputReaders] in H.
  { mret H. split; [done|]. exists []. split; constructor. }
  mbind H s1 r E. apply file_reader_inv in E as [Q Hr]. destruct (Hok t) as (_ & f & es & Hf & Hb & Hrd); [by left|].
  destruct (Hr f Hf) as [fails ->]. mbind H s2 rest E2. mret H.
  destruct (Q (fun _ => False)) as (T & Et & _).
  apply IH in E2 as (Q2 & lists & Hruns & Hrecs).
  - split; [by etrans|]. exists (es :: lists). split.
    + constructor; [by apply reader_runs|done].
    + constructor; [by exists f|]. eapply Forall2_impl; [exact Hrecs|]. intros t' es' (f' & Hf' & Hb'). exists f'. by rewrite <- Et.
  - intros t' Ht'. eapply (handle_touch (fun _ => False)); [exact T|by intros ? ? _ ?|]. apply Hok. by right.
Qed.

(** [es] is the merge of the tables [inputs]. *)
Definition merges (s : Store) (inputs : list tableHandle) (es : list TableEntry) : Prop :=
  exists lists, Forall2 (records_of s) inputs lists /\ merged (concat lists) es.

Lemma records_entries s inputs lists e :
  Forall2 (records_of s) inputs lists -> e ∈ concat lists -> entry_ok e.
Proof.
  intros H He. apply concat_elem_of in He as (i & l & Hl & He). destruct (Forall2_lookup_r _ _ _ _ _ H Hl) as (t & _ & f & _ & Hb).
  pose proof (bt_entries _ _ Hb) as Hall. rewrite Forall_forall in Hall. by apply Hall.
Qed.

(** The file that a compaction creates is none of its inputs. *)
Lemma inputs_kept inputs s s2 name f :
  (forall t, t ∈ inputs -> handle_ok s t) -> eg_manifest (st_engine s2) = eg_manifest (st_engine s) -> st_tables s2 = <[name := f]> (st_tables s) ->
  mf_files (eg_manifest (st_engine s)) !! name = None ->
  (forall t, t ∈ inputs -> handle_ok s2 t) /\ (forall lists, Forall2 (records_of s2) inputs lists -> Forall2 (records_of s) inputs lists).
Proof.
  intros Hin Em Et Hn. assert (forall t, t ∈ inputs -> name <> th_file t) as Hne.
  { intros t Ht ->. destruct (Hin t Ht) as [Hmd _]. congruence. }
  split.
  - intros t Ht. destruct (Hin t Ht) as (Hmd & g & es & Hf & Hr). unfold handle_ok. rewrite Em. split; [done|].
    exists g, es. split; [|done]. rewrite Et, lookup_insert_ne by auto. done.
  - intros lists Hf. apply Forall2_same_length_lookup. split; [by eapply Forall2_length|]. intros i t es Ht Hes.
    destruct (Forall2_lookup_lr _ _ _ _ _ _ Hf Ht Hes) as (g & Hg & Hb). exists g. split; [|done].
    rewrite Et, lookup_insert_ne in Hg; [done|]. apply Hne. by eapply list_elem_of_lookup_2.
Qed.

Lemma buildCompactionOutput_ok tier inputs s s' r :
  buildCompactionOutputLocked answers tier inputs s = (s', r) -> disk_ok None s ->
  (forall t, t ∈ inputs -> handle_ok s t) ->
  kept_ok None s s' /\
  forall table, r = Ok table ->
    exists es, new_table None s' table es (mf_flushedIndex (eg_manifest (st_engine s))) /\ merges s inputs es /\
      fm_tier (th_metadata table) = tier /\ fm_count (th_metadata table) <> 0.
Proof.
  intros H D Hin. mbind H s1 filename E1. apply (allocate_kept None) in E1 as (K1 & Et1 & Hname); [|done].
  destruct filename as [name|m]; [|mret H; by split]. pose proof (Hname name eq_refl) as L1.
  mbind H s2 createErr E2. apply fs_Create_touch in E2 as (T2 & Ee2 & Hcr).
  assert (kept_ok None s1 s2) as K2 by (eapply touch_kept; [exact T2|by apply loose_spares|apply K1]).
  assert (kept_ok None s s2) as K2' by (by eapply kept_trans).
  pose proof (loose_engine None _ _ _ Ee2 L1) as L2.
  assert (forall A open cause s3 (r : result A), quiet s2 s3 -> discardCompactionOutputLocked answers name open cause s3 = (s', r) ->
    kept_ok None s s' /\ exists m, r = Err m) as Hdis.
  { intros A open cause s3 r0 Q H3. pose proof (quiet_kept None _ _ Q (ko_disk _ _ _ K2')) as K3.
    eapply discard_kept in H3 as [K4 E]; [|apply K3|by eapply loose_touch; [apply (Q (fun _ => False))|tauto|]].
    split; [|done]. eapply kept_trans; [exact K2'|]. by eapply kept_trans. }
  destruct createErr as [e|]; [destruct (Hdis _ _ _ _ _ (quiet_refl s2) H) as [K [m ->]]; by split|].
  destruct (Hcr eq_refl) as [Habs Et2]. mbind H s3 readers E3.
  destruct (core_eqs _ _ (ko_core _ _ _ K2')) as (_ & _ & Em2 & _). pose proof (lo_manifest _ _ _ L2) as Hfresh. rewrite Em2 in Hfresh. rewrite Et1 in Et2.
  destruct (inputs_kept inputs s s2 name _ Hin Em2 Et2 Hfresh) as [Hin2 Hback].
  apply inputReaders_ok in E3 as (Q3 & lists & Hruns & Hrecs); [|exact Hin2].
  pose proof (Hback _ Hrecs) as Hrecs0.
  destruct (newKWayMergeIterator _ _) as [merge|m] eqn:Emg; [|destruct (Hdis _ _ _ _ _ Q3 H) as [K [m' ->]]; by split].
  destruct (addMerged _ _ _ _ _) as [b|m] eqn:Eb; [|destruct (Hdis _ _ _ _ _ Q3 H) as [K [m' ->]]; by split].
  destruct (Z.eqb_spec (bd_count b) 0) as [|Hne]; [destruct (Hdis _ _ _ _ _ Q3 H) as [K [m' ->]]; by split|].
  assert (Forall table_sorted lists) as Hsorted.
  { apply Forall_lookup_2. intros i l Hl. by destruct (Forall2_lookup_r _ _ _ _ _ Hrecs Hl) as (t & _ & f & _ & [? _ _ _]). }
  assert (forall out, mergeAll it_Next (mergeFuel readers) (mergeFuel readers) merge = Ok out -> merged (concat lists) out) as Hmg
    by (intros out Eout; by eapply merge_completed).
  destruct (addMerged_ok it_Next _ _ _ _ b [] Eb newBuilding_of) as (es & Ees & Hbo).
  { intros out Eout. apply Forall_forall. intros e He. eapply records_entries; [exact Hrecs|]. by eapply mg_from; [by apply Hmg|]. }
  specialize (Hmg _ Ees). cbn [app] in Hbo. mbind H s4 wf E4. destruct wf as [w' err].
  destruct (Q3 (fun _ => False)) as (T3 & Et3 & _).
  assert (kept_ok None s s3) as K3 by (eapply kept_trans; [exact K2'|by apply quiet_kept; [|apply K2]]).
  assert (loose None s3 name) as L3 by (by eapply loose_touch; [exact T3|tauto|]).
  eapply finishWriter_ok in E4 as (T4 & Ee4 & Hfin);
    [|by rewrite Et3, Et2, lookup_insert_eq|by apply Hbo|apply K3].
  assert (kept_ok None s s4) as K4 by (eapply kept_trans; [exact K3|]; eapply touch_kept; [exact T4|by apply loose_spares|apply K3]).
  pose proof (loose_engine None _ _ _ Ee4 L3) as L4. cbn [snd] in H. destruct err as [m|].
  { eapply discard_kept in H as [K5 [m' ->]]; [|apply K4|done]. split; [by eapply kept_trans|done]. }
  destruct (Hfin eq_refl) as (table & Hbt & Hlen & Hft & _). cbn [new_file content app] in Hft. rewrite (bo_entries _ _ Hbo) in Hbt.
  assert (written None s4 name es) as Hwr.
  { split; [done|]. eexists. split; [exact Hft|]. cbn [content].
    pose proof (bo_writer _ _ Hbo) as [Hs Ho _]. rewrite (bo_entries _ _ Hbo) in Hs, Ho. by split. }
  apply (publishOutput_ok (mkFileMetadata tier name (bd_firstKey b) (bd_lastKey b) (bd_count b)) es) in H as [K5 Hres];
    [|apply K4|done].
  split; [by eapply kept_trans|]. intros t ->. destruct (Hres t eq_refl) as [Hnt Emd]. exists es.
  destruct (core_eqs _ _ (ko_core _ _ _ K4)) as (_ & _ & Em & _). rewrite Em in Hnt. split; [done|]. split; [by exists lists|].
  by rewrite Emd.
Qed.
End build.

Lemma filter_all {A} (P : A -> Prop) `{!forall x, Decision (P x)} (l : list A) : (forall x, P x) -> filter P l = l.
Proof. intros HP. induction l as [|x l IH]; [done|]. rewrite filter_cons_True by done. by rewrite IH. Qed.

Section commit.
Context (answers : nat -> answer) (marshal : VersionEdit -> result bytes).
Context (W : history).

Notation disk_ok := (disk_ok marshal W).
Notation view_ok := (view_ok W).
Notation version_ok := (version_ok W).
Notation kept_ok := (kept_ok marshal W).

(** The engine and the tables of [s'] are those of [s], up to handles that wait to be
    closed. *)
Record same_engine (s s' : Store) : Prop := {
  se_core : core_of (st_engine s') = core_of (st_engine s);
  se_next : eg_nextFileNumber (st_engine s') = eg_nextFileNumber (st_engine s);
  se_poisoned : eg_poisoned (st_engine s') = eg_poisoned (st_engine s);
  se_obsolete : eg_obsolete (st_engine s') = eg_obsolete (st_engine s);
  se_tables : st_tables s' = st_tables s;
}.

Lemma in_version_tables s s' m e : st_tables s' = st_tables s -> in_version s' m e <-> in_version s m e.
Proof. intros E. unfold in_version. by rewrite E. Qed.

Lemma version_ext s s' m :
  st_tables s' = st_tables s -> (forall name, obsolete_name (st_engine s') name -> mf_files m !! name = None \/ obsolete_name (st_engine s) name) ->
  eg_nextFileNumber (st_engine s) <= eg_nextFileNumber (st_engine s') -> version_ok s m -> version_ok s' m.
Proof.
  intros Et Ho Hn [H1 H2 H3 H4]. split; [done|done|by rewrite Et|].
  intros name md Hmd. destruct (H4 name md Hmd) as [Hob Hnum]. split.
  - intros H. destruct (Ho name H) as [?|?]; [congruence|done].
  - intros n Hr. apply Hnum. lia.
Qed.

(** The manifest file holds the edits of the version [m]. *)
Definition manifest_file (f : file) (edits : list VersionEdit) (m : manifestState) : Prop :=
  named f = true /\ file_ok f /\ Forall (edit_storable marshal) edits /\ applyEdits edits newManifestState = Ok m.

Lemma appendEdit_cases edit m' s s' ap :
  appendEdit answers marshal edit s = (s', ap) -> disk_ok None s -> edit_fits edit ->
  applyEdit (Some edit) (eg_manifest (st_engine s)) = Ok m' ->
  same_engine s s' /\
  exists f edits, st_manifest s' = Some f /\
    ((ap_committed ap = false /\ ap_uncertain ap = false /\ st_manifest s' = st_manifest s) \/
     (ap_committed ap = false /\ ap_uncertain ap = true /\ manifest_file f edits (eg_manifest (st_engine s)) /\
        edit_storable marshal edit /\ (length (edit_frames marshal edits) <= synced f)%nat /\
        exists k, content f = edit_frames marshal edits ++ take k (edit_frame marshal edit)) \/
     (ap_committed ap = true /\ manifest_file f edits m' /\ content f = edit_frames marshal edits /\ synced f = length (content f))).
Proof.
  intros H D Hfit Hap. destruct (do_manifest _ _ _ _ D) as (f0 & edits & Hf0 & Hnm & Hok & Hst & Happ & Hc0 & Hs0).
  mbind H s1 a E1. injection E1 as <- <-. mbind H s1 m E1. injection E1 as <- <-. cbn [st_manifest] in H. rewrite Hf0 in H.
  destruct (appendManifestEdit _ _ _ f0) as [f1 ap1] eqn:Ea. mbind H s1 u E1. injection E1 as <- _. mbind H s2 u2 E2. mret H.
  assert (same_engine s s2 /\ st_manifest s2 = Some f1) as [Hse Hm2].
  { destruct (ap_unresolved ap1); injection E2 as <- _; by split. }
  split; [done|]. exists f1. apply append_states in Ea as [(-> & Hc & Hu)|[(Hsto & k & Hc1 & Hsy & Hna & Hcm & Hun)|(Hsto & Hc1 & Hsy & Hna & Hcm & Hun)]]; [..|done].
  - exists []. split; [done|]. left. split_and!; [done..|]. by rewrite Hm2, Hf0.
  - exists edits. split; [done|]. right; left. split_and!; [done|done| |done| |].
    + split_and!; [congruence| |done|done]. unfold file_ok. rewrite Hc1, Hsy, length_app. unfold file_ok in Hok. lia.
    + rewrite Hsy, Hs0, Hc0. lia.
    + exists k. by rewrite Hc1, Hc0.
  - exists (edits ++ [edit]). split; [done|]. right; right. split_and!; [done| | |done].
    + split_and!; [congruence|unfold file_ok; lia| |by eapply applyEdits_snoc].
      apply Forall_app. split; [done|]. by constructor.
    + by rewrite Hc1, Hc0, edit_frames_snoc.
Qed.

(** The append changed nothing. *)
Lemma append_nothing s s' : same_engine s s' -> st_manifest s' = st_manifest s -> disk_ok None s -> kept_ok None s s'.
Proof.
  intros [C N P O T] M D. apply (touch_kept _ _ (fun _ => False)); [|apply spares_none|done].
  split; try done.
  - intros o Ho. rewrite O in Ho. right. by exists o.
  - intros name f _ Hf. exists f. by rewrite T.
  - intros name _ Hf. by rewrite T.
  - by rewrite T.
  - rewrite M. destruct (st_manifest s) as [f|]; [|done]. by exists f.
Qed.

(** The outcome is unknown: the engine is poisoned, recovery finds one of two versions. *)
Lemma append_uncertain edit m' s s' e' f edits k :
  same_engine s s' -> st_manifest s' = Some f -> disk_ok None s ->
  manifest_file f edits (eg_manifest (st_engine s)) -> edit_storable marshal edit ->
  (length (edit_frames marshal edits) <= synced f)%nat -> content f = edit_frames marshal edits ++ take k (edit_frame marshal edit) ->
  applyEdit (Some edit) (eg_manifest (st_engine s)) = Ok m' -> version_ok s m' ->
  (forall e, in_version s (eg_manifest (st_engine s)) e -> covered (in_version s m') e) ->
  core_of e' = core_of (st_engine s') -> eg_nextFileNumber e' = eg_nextFileNumber (st_engine s') ->
  eg_obsolete e' = eg_obsolete (st_engine s') -> eg_poisoned e' <> None ->
  disk_ok (Some m') (mkStore e' (st_tables s') (st_manifest s') (st_clock s')).
Proof.
  intros [C N P O T] Hm [Dw Dv Dl Dn Dfr _] (Hnm & Hok & Hst & Hap) Hsto Hsy Hc Happ Hv Hcov C' N' O' P'.
  assert (eg_manifest e' = eg_manifest (st_engine s)) as Em.
  { rewrite C in C'. by injection C'. }
  assert (forall m, version_ok s m -> version_ok (mkStore e' (st_tables s') (st_manifest s') (st_clock s')) m) as Hver.
  { intros m. apply version_ext; cbn [st_tables st_engine]; [done| |lia]. intros name (o & Ho & E). right. exists o. by rewrite <- O, <- O'. }
  split; cbn [st_tables st_engine st_manifest].
  - by rewrite T.
  - rewrite Em. by apply Hver.
  - intros e He. rewrite Em. eapply covered_iff; [|by apply Dl]. intros v. by apply in_version_tables.
  - lia.
  - intros o n Ho Hn. rewrite O', O in Ho. apply Dfr; [done|lia].
  - exists f, edits. do 4 (split; [done|]). rewrite Em. split; [done|].
    split; [done|]. split; [by apply Hver|]. split.
    + intros e He. eapply covered_iff; [|apply Hcov]; [intros v; by apply in_version_tables|]. by eapply in_version_tables in He.
    + exists edit, k. done.
Qed.

(** * The next version *)

Definition addedFiles (table : option tableHandle) : list (option AddedFile) :=
  match table with Some t => [Some (fm_proto (th_metadata t))] | None => [] end.

Section next.
Context (s : Store) (table : option tableHandle) (removed : list string) (flushed : Z) (m' : manifestState) (es : list TableEntry).
Context (D : disk_ok None s).
Context (Happ : applyEdit (Some (mkVersionEdit (addedFiles table) removed flushed)) (eg_manifest (st_engine s)) = Ok m').
Context (Hflushed : is_u64 flushed).
Context (Hnew : match table with Some t => new_table None s t es flushed /\ (forall e, e ∈ es -> W e) | None => es = [] end).

Lemma next_facts :
  manifest_ok m' /\ mf_flushedIndex m' = flushed /\ mf_flushedIndex (eg_manifest (st_engine s)) <= flushed /\
  (forall t, table = Some t -> mf_files m' !! th_file t = Some (th_metadata t)) /\
  (forall name md, mf_files m' !! name = Some md ->
     (exists t, table = Some t /\ name = th_file t /\ md = th_metadata t) \/
     (name ∉ removed /\ mf_files (eg_manifest (st_engine s)) !! name = Some md)) /\
  (forall name md, name ∉ removed -> mf_files (eg_manifest (st_engine s)) !! name = Some md -> mf_files m' !! name = Some md).
Proof using D Happ.
  clear Hnew Hflushed. destruct (applyEdit_ok _ _ _ Happ (vo_manifest _ _ _ (do_version _ _ _ _ D))) as (Hm & Hf & Hi & Hle & _ & Hna).
  cbn [ve_AddedFiles ve_RemovedFiles ve_FlushedIndex] in *.
  assert (added_map (addedFiles table) = match table with Some t => {[th_file t := th_metadata t]} | None => ∅ end) as Ea.
  { unfold added_map, addedFiles. destruct table as [t|]; [|done]. simpl. rewrite insert_empty. f_equal. by destruct (th_metadata t). }
  rewrite Hf, Ea. rewrite Ea in Hna. split_and!; try done.
  - intros t ->. apply lookup_union_Some_l. apply lookup_singleton_eq.
  - intros name md [Hl|[_ Hl]]%lookup_union_Some_raw.
    + destruct table as [t|]; [|done]. apply lookup_singleton_Some in Hl as [<- <-]. left. eauto.
    + apply map_lookup_filter_Some in Hl as [Hl Hr]. right. done.
  - intros name md Hr Hl. rewrite lookup_union_r; [by apply map_lookup_filter_Some|].
    destruct table as [t|]; [|done]. apply lookup_singleton_ne. intros <-. rewrite Hna in Hl; [done|set_solver].
Qed.

Lemma next_version_ok : version_ok s m'.
Proof using D Happ Hflushed Hnew.
  destruct next_facts as (Hm & Hi & Hle & Hnt & Hinv & _). pose proof (do_version _ _ _ _ D) as Hv. split; [done|by rewrite Hi| |].
  - intros name md Hmd. destruct (Hinv name md Hmd) as [(t & -> & -> & ->)|[_ Hold]].
    + destruct Hnew as [[(_ & f & Hf & Hd) _ Hmeta Hseq] HW]. exists f, es. split_and!; try done.
      intros e He. split; [by apply HW|]. rewrite Hi. by apply Hseq.
    + destruct (vo_tables _ _ _ Hv _ _ Hold) as (f & l & Hf & Hd & Hmeta & Hl). exists f, l. split_and!; try done.
      intros e He. destruct (Hl e He). split; [done|]. lia.
  - intros name md Hmd. destruct (Hinv name md Hmd) as [(t & -> & -> & ->)|[_ Hold]].
    + destruct Hnew as [[([_ _ Lo Ln] & _) _ _ _] _]. done.
    + by apply (vo_kept _ _ _ Hv _ _ Hold).
Qed.

Lemma next_entries e : e ∈ es -> in_version s m' e.
Proof using D Happ Hnew.
  intros He. destruct next_facts as (_ & _ & _ & Hnt & _). destruct table as [t|]; [|subst es; by apply elem_of_nil in He].
  destruct Hnew as [[(_ & f & Hf & [Hb _ _]) _ _ _] _]. exists (th_file t), (th_metadata t), f, es. split_and!; try done. by apply Hnt.
Qed.

Context (Hcov : forall name md f l e, name ∈ removed -> mf_files (eg_manifest (st_engine s)) !! name = Some md ->
  st_tables s !! name = Some f -> built l (content f) -> e ∈ l -> covered (fun v => v ∈ es) e).

Lemma next_covers e : in_version s (eg_manifest (st_engine s)) e -> covered (in_version s m') e.
Proof using D Happ Hnew Hcov.
  intros (name & md & f & l & Hmd & Hf & Hb & He). destruct next_facts as (_ & _ & _ & _ & _ & Hkeep).
  destruct (decide (name ∈ removed)) as [Hr|Hr].
  - eapply covered_iff; [|by eapply Hcov]. apply next_entries.
  - exists e. split; [|split; [done|lia]]. exists name, md, f, l. split_and!; try done. by apply Hkeep.
Qed.

(** The engine after the edit was committed. *)
Lemma committed_disk s' f edits obsolete :
  st_tables s' = st_tables s -> eg_manifest (st_engine s') = m' ->
  eg_nextFileNumber (st_engine s') = eg_nextFileNumber (st_engine s) ->
  eg_obsolete (st_engine s') = eg_obsolete (st_engine s) ++ obsolete ->
  (forall o, o ∈ obsolete -> ob_path o ∈ removed) ->
  st_manifest s' = Some f -> manifest_file f edits m' -> content f = edit_frames marshal edits -> synced f = length (content f) ->
  disk_ok None s'.
Proof using D Happ Hflushed Hnew Hcov.
  intros Et Em En Eo Ho Hf (Hnm & Hok & Hst & Hap) Hc Hs. pose proof D as [Dw Dv Dl Dn Dfr _].
  destruct next_facts as (_ & _ & _ & Hnt & Hinv & _).
  destruct (applyEdit_ok _ _ _ Happ (vo_manifest _ _ _ Dv)) as (_ & _ & _ & _ & Hrem & _). cbn [ve_RemovedFiles] in Hrem.
  split.
  - by rewrite Et.
  - rewrite Em. eapply version_ext; [exact Et| |lia|apply next_version_ok]. intros name (o & Hin & E). rewrite Eo in Hin.
    apply elem_of_app in Hin as [Hin|Hin]; [right; by exists o|left]. specialize (Ho o Hin). rewrite E in Ho.
    destruct (mf_files m' !! name) as [md|] eqn:Emd; [|done]. exfalso. destruct (Hinv _ _ Emd) as [(t & -> & -> & ->)|[? _]]; [|done].
    destruct Hnew as [[([Lm _ _ _] & _) _ _ _] _]. destruct (Hrem _ Ho) as [md' Hmd']. congruence.
  - intros e He. rewrite Em. destruct (Dl e He) as (v & Hv & Ek & Hq). destruct (next_covers v Hv) as (w & Hw & Ek' & Hq').
    exists w. split_and!; [by eapply in_version_tables|congruence|lia].
  - by rewrite En.
  - intros o n Hin Hn. rewrite En in Hn. rewrite Eo in Hin. apply elem_of_app in Hin as [Hin|Hin]; [by apply Dfr|].
    specialize (Ho o Hin). destruct (Hrem _ Ho) as [md Hmd]. by apply (vo_kept _ _ _ Dv _ _ Hmd).
  - exists f, edits. rewrite Em. by split_and!.
Qed.

Lemma committed_view s' :
  view_ok s -> st_tables s' = st_tables s -> eg_manifest (st_engine s') = m' ->
  eg_list (st_engine s') = eg_list (st_engine s) -> eg_immutables (st_engine s') = eg_immutables (st_engine s) ->
  eg_fs (st_engine s') = eg_fs (st_engine s) -> eg_appliedIndex (st_engine s') = eg_appliedIndex (st_engine s) ->
  eg_activeCount (st_engine s') = eg_activeCount (st_engine s) ->
  eg_tables (st_engine s') ≡ₚ filter (fun t => th_file t ∉ removed) (eg_tables (st_engine s)) ++ option_list table ->
  view_ok s'.
Proof using D Happ Hflushed Hnew Hcov.
  intros [V1 V2 Vc V3 V4 V5 V6 V7 V8 V9] Et Em El Ei Ef Ea En Htab.
  destruct next_facts as (_ & _ & _ & Hnt & Hinv & Hkeep). pose proof next_version_ok as Hv.
  assert (forall e, held s' e <-> mem_has (eg_list (st_engine s)) e \/ (exists im, im ∈ eg_immutables (st_engine s) /\ mem_has (im_list im) e) \/
    in_version s m' e) as Hheld by (intros e; unfold held, in_version; by rewrite El, Ei, Em, Et).
  split; rewrite ?El, ?Ei, ?Ef, ?Ea, ?En; try done.
  - intros t Ht. rewrite Htab, elem_of_app in Ht. unfold handle_ok. rewrite Em, Et. destruct Ht as [Ht|Ht].
    + apply list_elem_of_filter in Ht as [Hr Ht]. destruct (V5 t Ht) as [Hmd Hrd]. split; [by apply Hkeep|done].
    + destruct table as [t'|]; [|by apply elem_of_nil in Ht]. apply list_elem_of_singleton in Ht as ->. split; [by apply Hnt|].
      destruct Hnew as [[(_ & f & Hf & [Hb _ _]) Hrd _ _] _]. exists f, es. split_and!; [done|done|by apply Hrd].
  - intros name md Hmd. rewrite Em in Hmd. destruct (Hinv name md Hmd) as [(t & Etb & -> & ->)|[Hr Hold]].
    + exists t. split; [|done]. rewrite Htab, elem_of_app, Etb. right. by left.
    + destruct (V6 name md Hold) as (t & Ht & <-). exists t. split; [|done]. rewrite Htab, elem_of_app. left.
      by apply list_elem_of_filter.
  - rewrite Htab, fmap_app. apply NoDup_app. split_and!.
    + apply (sublist_NoDup _ (th_file <$> eg_tables (st_engine s))); [done|]. by apply fmap_sublist, sublist_filter.
    + intros name Hin. destruct table as [t|]; [|simpl; apply not_elem_of_nil]. simpl. intros ->%list_elem_of_singleton.
      apply list_elem_of_fmap in Hin as (t' & Eth & Ht'). apply list_elem_of_filter in Ht' as [_ Ht'].
      destruct (V5 t' Ht') as [Hmd _]. destruct Hnew as [[([Lm _ _ _] & _) _ _ _] _]. congruence.
    + destruct table; simpl; [apply NoDup_singleton|constructor].
  - intros e He. apply Hheld in He as [He|[He|He]]; [apply V8; by left|apply V8; right; by left|].
    destruct He as (name & md & f & l & Hmd & Hf & Hb & Hin). destruct (vo_tables _ _ _ Hv _ _ Hmd) as (f' & l' & Hf' & [Hb' _ _] & _ & Hl').
    assert (f' = f) as -> by congruence. assert (l' = l) as -> by (by eapply built_inj). by apply Hl'.
  - intros e He. destruct (V9 e He) as (v & Hv9 & Ek & Hq). destruct Hv9 as [Hm|[Hm|Hm]].
    + exists v. split; [|done]. apply Hheld. by left.
    + exists v. split; [|done]. apply Hheld. by right; left.
    + destruct (next_covers v Hm) as (v' & Hv' & Ek' & Hq'). exists v'. split; [apply Hheld; by right; right|]. split; [congruence|lia].
Qed.
End next.
End commit.
