(* ===== verification/EngineOps.v ===== *)
(** Every operation of the engine keeps its invariant: flushes and compactions, whatever the
    file system answers, change where the writes are but not what they are; writes, freezes
    and flushes through an index. *)

From S2P Require Import Prelude Proto RaftLog RaftNode Storage Bytes WalRecords MapSM DiskLog DiskLogFacts Bloom SkipList SSTable SSTableFacts SSTableSpec Manifest.
From S2P Require Import ManifestFacts Heap Merge MergeFacts MergeSpec EngineState TableReads Engine EngineFrames EngineSteps EngineInv EngineCommit.

Section ops.
Context (answers : nat -> answer) (marshal : VersionEdit -> result bytes).

(** The invariant, of an engine that may be poisoned. *)
Definition inv (W : history) (s : Store) : Prop := exists next, disk_ok marshal W next s /\ view_ok W s.

Section fixed.
Context (W : history).

Notation disk_ok := (disk_ok marshal W).
Notation view_ok := (view_ok W).
Notation kept_ok := (kept_ok marshal W).
Notation inv := (inv W).

Lemma healthy s : inv s -> eg_poisoned (st_engine s) = None -> disk_ok None s /\ view_ok s.
Proof.
  intros (next & D & V) Hp. destruct next as [m|]; [|done].
  destruct (do_manifest _ _ _ _ D) as (f & edits & _ & _ & _ & _ & _ & Hpo & _). done.
Qed.

Lemma kept_inv next s s' : kept_ok next s s' -> view_ok s -> inv s'.
Proof. intros K V. exists next. split; [apply K|by apply K]. Qed.

Lemma quiet_inv s s' : quiet s s' -> inv s -> inv s'.
Proof. intros Q (next & D & V). eapply kept_inv; [by apply quiet_kept|done]. Qed.

(** What compactions leave alone. *)
Record front : Type := mkFront {
  fr_list : skipList;
  fr_active : Z * Z * Z;
  fr_immutables : list immutableMemtable;
  fr_threshold : Z;
  fr_applied : Z;
  fr_options : bool * bool * bool;
  fr_closed : bool;
}.

Definition front_of (e : Engine) : front :=
  let c := core_of e in mkFront (co_list c) (co_active c) (co_immutables c) (co_threshold c) (co_applied c) (co_options c) (co_closed c).

Lemma core_front e e' : core_of e' = core_of e -> front_of e' = front_of e.
Proof. unfold front_of. by intros ->. Qed.

Lemma front_eqs e e' : front_of e' = front_of e ->
  eg_list e' = eg_list e /\ eg_activeCount e' = eg_activeCount e /\ eg_immutables e' = eg_immutables e /\
  eg_appliedIndex e' = eg_appliedIndex e /\ eg_closed e' = eg_closed e.
Proof. unfold front_of, core_of. simpl. intros H. injection H. intros. by split_and!. Qed.

(** * Committing *)

Lemma append_err edit s s' res :
  appendEdit answers marshal edit s = (s', res) -> ap_committed res = false -> exists m, ap_err res = Some m.
Proof.
  intros H Hc. mbind H s1 a E1. mbind H s2 m E2. destruct m as [f|]; [|mret H; simpl; eauto].
  destruct (appendManifestEdit _ _ _ f) as [f1 ap1] eqn:Ea. mbind H s3 u E3. mbind H s4 u4 E4. mret H.
  unfold appendManifestEdit in Ea. destruct (encodeManifestFrame _ _); [|injection Ea as _ <-; simpl; eauto].
  destruct (fs_openAppend _); [injection Ea as _ <-; simpl; eauto|]. destruct (fs_write _ _) as [k [m|]]; [injection Ea as _ <-; simpl; eauto|].
  destruct (negb _); [injection Ea as _ <-; simpl; eauto|]. destruct (fs_sync _); [injection Ea as _ <-; simpl; eauto|].
  destruct (fs_close _) as [[]|]; injection Ea as _ <-; done.
Qed.

Lemma poison_facts err e :
  core_of (poisonLocked err e) = core_of e /\ eg_nextFileNumber (poisonLocked err e) = eg_nextFileNumber e /\
  eg_obsolete (poisonLocked err e) = eg_obsolete e /\ eg_poisoned (poisonLocked err e) <> None.
Proof. unfold poisonLocked. destruct (eg_poisoned e) eqn:E; rewrite ?E; done. Qed.

Lemma joined_some a b : (exists m, a = Some m) -> exists m, errors_Join a b = Some m.
Proof. intros [m ->]. destruct b; simpl; eauto. Qed.

(** An edit as flushes and compactions commit it. *)
Record edit_of (s : Store) (table : option tableHandle) (removed : list string) (flushed : Z) (es : list TableEntry) : Prop := {
  eo_flushed : is_u64 flushed;
  eo_tier t : table = Some t -> 0 <= fm_tier (th_metadata t) <= max_u32;
  eo_table : match table with Some t => new_table None s t es flushed /\ (forall e, e ∈ es -> W e) | None => es = [] end;
  eo_covers name md f l e : name ∈ removed -> mf_files (eg_manifest (st_engine s)) !! name = Some md ->
    st_tables s !! name = Some f -> built l (content f) -> e ∈ l -> covered (fun v => v ∈ es) e;
}.

Lemma edit_of_fits s table removed flushed es :
  edit_of s table removed flushed es -> edit_fits (mkVersionEdit (addedFiles table) removed flushed).
Proof.
  intros [Hf Ht Hn _]. split; [done|]. cbn [ve_AddedFiles]. destruct table as [t|]; [|constructor]. repeat constructor.
  eexists. split; [done|]. split; [by apply Ht|]. destruct Hn as [[(_ & f & Hf' & [Hb _ _]) Hrd [Hc _] _] _].
  cbn [af_Count fm_proto]. rewrite Hc. destruct (ro_count _ _ _ (Hrd f Hf')) as [E Hmax]. rewrite E in Hmax. unfold is_u64. lia.
Qed.

(** The state after the append and, when its outcome is unknown, the poisoning. *)
Lemma append_failed s s1 res table removed flushed es m' :
  disk_ok None s -> view_ok s -> edit_of s table removed flushed es ->
  applyEdit (Some (mkVersionEdit (addedFiles table) removed flushed)) (eg_manifest (st_engine s)) = Ok m' ->
  appendEdit answers marshal (mkVersionEdit (addedFiles table) removed flushed) s = (s1, res) -> ap_committed res = false ->
  if ap_uncertain res
  then forall err, inv (modify (poisonLocked err) s1).1 /\ core_of (st_engine (modify (poisonLocked err) s1).1) = core_of (st_engine s)
  else kept_ok None s s1 /\ same_engine s s1.
Proof.
  intros D V Hed Happ H Hc. pose proof (edit_of_fits _ _ _ _ _ Hed) as Hfit. destruct Hed as [Hf Ht Hn Hcov].
  destruct (appendEdit_cases answers marshal W _ m' _ _ _ H D Hfit Happ) as (Hse & f & edits & Hmf & [(_ & Hu & Hm)|[(_ & Hu & Hmm & Hsto & Hsy & k & Hk)|(Hc' & _)]]);
    [| |congruence].
  - rewrite Hu. split; [by apply append_nothing|done].
  - rewrite Hu. intros err. destruct (poison_facts err (st_engine s1)) as (Pc & Pn & Po & Pp).
    split; [|cbn [modify fst st_engine]; rewrite Pc; apply Hse]. exists (Some m'). split.
    + eapply (append_uncertain marshal W); [done..| | | | | |]; try done.
      * by eapply next_version_ok.
      * intros e. by eapply next_covers.
    + eapply view_ext; [|apply Hse|done]. cbn [modify fst st_engine]. rewrite Pc. apply Hse.
Qed.

Lemma commitEdit_ok s s' c err table flushed es :
  disk_ok None s -> view_ok s -> edit_of s table [] flushed es ->
  commitEditLocked answers marshal (mkVersionEdit (addedFiles table) [] flushed) table s = (s', (c, err)) ->
  inv s' /\
  if c then
    eg_poisoned (st_engine s') = eg_poisoned (st_engine s) /\ front_of (st_engine s') = front_of (st_engine s) /\
    (forall e, e ∈ es -> in_version s' (eg_manifest (st_engine s')) e) /\ mf_flushedIndex (eg_manifest (st_engine s')) = flushed
  else core_of (st_engine s') = core_of (st_engine s) /\ exists m, err = Some m.
Proof.
  intros D V Hed H. mbind H s0 m E0. injection E0 as <- <-.
  assert (forall s1 s2 r, match table with Some t => closeFileRetainingLocked answers (th_file t) | None => eret None end s1 = (s2, r) ->
    quiet s1 s2) as Hclose.
  { intros s1 s2 r. destruct table; [by apply closeFileRetaining_quiet|]. intros Hr. by mret Hr. }
  destruct (applyEdit _ _) as [m'|m] eqn:Happ; last first.
  { mbind H s1 r E1. injection H as <- <- <-. apply Hclose in E1. split; [eapply quiet_inv; [done|by exists None]|].
    destruct (E1 (fun _ => False)) as (T & _). split; [apply T|]. destruct r; eauto. }
  mbind H s1 res E1. destruct (ap_committed res) eqn:Ec; cbn [negb] in H.
  - pose proof (edit_of_fits _ _ _ _ _ Hed) as Hfit. pose proof Hed as [Hf Ht Hn Hcov].
    destruct (appendEdit_cases answers marshal W _ m' _ _ _ E1 D Hfit Happ) as (Hse & f & edits & Hmf & [(? & _)|[(? & _)|(_ & Hmm & Hc & Hsy)]]);
      [congruence..|].
    mbind H s2 u E2. injection H as <- <- <-. injection E2 as <- _. destruct Hse as [Sc Sn Sp So St].
    destruct (core_eqs _ _ Sc) as (El & Ei & Em & Eh & Efs & Ea & Ecl & En). set (s' := mkStore _ _ _ _).
    assert (disk_ok None s') as D'.
    { eapply (committed_disk marshal W s table [] flushed m' es D Happ Hf Hn Hcov s' f edits []); subst s'; simpl; try done.
      - by rewrite So, app_nil_r.
      - by intros o ?%elem_of_nil. }
    assert (view_ok s') as V'.
    { eapply (committed_view marshal W s table [] flushed m' es D Happ Hf Hn Hcov s'); subst s'; simpl; try done.
      rewrite Eh, filter_all by (intros t; apply not_elem_of_nil). by destruct table. }
    split; [by exists None|]. subst s'. simpl. split_and!; [done| | |].
    + rewrite <- (core_front _ _ Sc). done.
    + intros e He. eapply in_version_tables; [exact St|]. by eapply (next_entries marshal W s table [] flushed m' es).
    + destruct (next_facts marshal W s table [] flushed m' D Happ) as (_ & Hi & _). done.
  - pose proof (append_err _ _ _ _ E1 Ec) as Herr. pose proof (append_failed _ _ _ _ _ _ _ _ D V Hed Happ E1 Ec) as Hfail.
    mbind H s2 u E2. mbind H s3 r E3. injection H as <- <- <-. apply Hclose in E3.
    assert (inv s2 /\ core_of (st_engine s2) = core_of (st_engine s)) as [I2 C2].
    { destruct (ap_uncertain res).
      - injection E2 as <- _. apply Hfail.
      - mret E2. destruct Hfail as [K Hse]. split; [by eapply kept_inv|apply K]. }
    split; [by eapply quiet_inv|]. destruct (E3 (fun _ => False)) as (T & _). split; [|by apply joined_some].
    rewrite (tc_core _ _ _ T). done.
Qed.
(** * Compaction *)

(** The operation kept the invariant and the front; it did not poison the engine unless it
    reports an error. *)
Definition back_ok (s s' : Store) (r : option error) : Prop :=
  inv s' /\ front_of (st_engine s') = front_of (st_engine s) /\ (r = None -> eg_poisoned (st_engine s') = None).

Lemma kept_back s s' r : kept_ok None s s' -> view_ok s -> eg_poisoned (st_engine s) = None -> back_ok s s' r.
Proof.
  intros K V Hp. split_and!; [by eapply kept_inv|apply core_front, K|]. intros _. rewrite <- Hp. apply K.
Qed.

Lemma merges_covers s inputs es t e f l :
  merges s inputs es -> t ∈ inputs -> st_tables s !! th_file t = Some f -> built l (content f) -> e ∈ l -> covered (fun v => v ∈ es) e.
Proof.
  intros (lists & Hrec & [_ _ Hnew _]) [i Ht]%list_elem_of_lookup Hf Hb He.
  destruct (Forall2_lookup_l _ _ _ _ _ Hrec Ht) as (l' & Hl' & f' & Hf' & Hb').
  assert (f' = f) as -> by congruence. assert (l' = l) as -> by (by eapply built_inj).
  destruct (Hnew e) as (w & Hw & Ek & Hq); [eapply elem_of_concat; [by eapply list_elem_of_lookup_2|done]|]. by exists w.
Qed.

Lemma merges_from s inputs es e :
  view_ok s -> (forall t, t ∈ inputs -> t ∈ eg_tables (st_engine s)) -> merges s inputs es -> e ∈ es -> W e.
Proof.
  intros V Hin (lists & Hrec & [_ Hfrom _ _]) He. apply Hfrom, concat_elem_of in He as (i & l & Hl & He).
  destruct (Forall2_lookup_r _ _ _ _ _ Hrec Hl) as (t & Ht & f & Hf & Hb).
  apply (ve_sound _ _ V). right; right. apply list_elem_of_lookup_2, Hin in Ht. destruct (ve_tables _ _ V t Ht) as [Hmd _].
  exists (th_file t), (th_metadata t), f, l. done.
Qed.

Lemma merges_kept s s' inputs es :
  kept_ok None s s' -> view_ok s -> (forall t, t ∈ inputs -> t ∈ eg_tables (st_engine s)) -> merges s inputs es -> merges s' inputs es.
Proof.
  intros K V Hin (lists & Hrec & Hm). exists lists. split; [|done].
  apply Forall2_same_length_lookup. split; [by eapply Forall2_length|]. intros i t l Ht Hl.
  destruct (Forall2_lookup_lr _ _ _ _ _ _ Hrec Ht Hl) as (f & Hf & Hb). apply list_elem_of_lookup_2, Hin in Ht.
  destruct (ve_tables _ _ V t Ht) as [Hmd _]. destruct (ko_files _ _ _ _ _ K _ _ f Hmd Hf) as (f' & Hf' & Ec). exists f'. by rewrite Ec.
Qed.

Lemma sortByFile_perm tables : sortByFile tables ≡ₚ tables.
Proof. apply sort_by_perm. Qed.

Lemma commitCompaction_ok s s' r output selected es :
  disk_ok None s -> view_ok s -> eg_poisoned (st_engine s) = None ->
  (forall t, t ∈ selected -> t ∈ eg_tables (st_engine s)) -> 0 <= fm_tier (th_metadata output) <= max_u32 ->
  new_table None s output es (mf_flushedIndex (eg_manifest (st_engine s))) -> merges s selected es ->
  commitCompactionLocked answers marshal
    (mkVersionEdit [Some (fm_proto (th_metadata output))] (th_file <$> selected) (mf_flushedIndex (eg_manifest (st_engine s))))
    output selected s = (s', r) ->
  back_ok s s' r.
Proof.
  intros D V Hp Hsel Htier Hnt Hmg H. set (flushed := mf_flushedIndex (eg_manifest (st_engine s))) in *.
  assert (edit_of s (Some output) (th_file <$> selected) flushed es) as Hed.
  { split; [apply (do_version _ _ _ _ D)|by intros t [= <-]|split; [done|]; intros e He; by eapply merges_from|].
    intros name md f l e Hname Hmd Hf Hb He. apply list_elem_of_fmap in Hname as (t & -> & Ht). by eapply merges_covers. }
  change [Some (fm_proto (th_metadata output))] with (addedFiles (Some output)) in H.
  assert (loose None s (th_file output)) as L by apply Hnt.
  mbind H s0 m E0. injection E0 as <- <-. destruct (applyEdit _ _) as [m'|m] eqn:Happ; last first.
  { mbind H s1 d E1. mret H. eapply (discard_kept answers marshal W) in E1 as [K [m1 ->]]; [|done..]. by eapply kept_back. }
  mbind H s1 res E1. destruct (ap_committed res) eqn:Ec; cbn [negb] in H.
  - pose proof (edit_of_fits _ _ _ _ _ Hed) as Hfit. pose proof Hed as [Hf Ht Hn Hcov].
    destruct (appendEdit_cases answers marshal W _ m' _ _ _ E1 D Hfit Happ) as (Hse & f & edits & Hmf & [(? & _)|[(? & _)|(_ & Hmm & Hc & Hsy)]]);
      [congruence..|].
    mbind H s2 u E2. injection E2 as <- _. destruct Hse as [Sc Sn Sp So St].
    destruct (core_eqs _ _ Sc) as (El & Ei & Em & Eh & Efs & Ea & Ecl & En). set (s2 := mkStore _ _ _ _) in H.
    assert (disk_ok None s2) as D'.
    { eapply (committed_disk marshal W s (Some output) (th_file <$> selected) flushed m' es D Happ Hf Hn Hcov s2 f edits
        ((fun t => mkObsolete (th_file t) true) <$> sortByFile selected)); subst s2; simpl; try done.
      - by rewrite So.
      - intros o (t & -> & Ht')%list_elem_of_fmap. simpl. apply list_elem_of_fmap_2. by rewrite sortByFile_perm in Ht'. }
    assert (view_ok s2) as V'.
    { eapply (committed_view marshal W s (Some output) (th_file <$> selected) flushed m' es D Happ Hf Hn Hcov s2); subst s2; simpl; try done.
      rewrite sortByFile_perm, Eh. done. }
    mbind H s3 c E3. mret H. apply (reconcile_kept answers marshal W None) in E3; [|done].
    split_and!; [by eapply kept_inv| |].
    + rewrite (core_front _ _ (ko_core _ _ _ _ _ E3)). subst s2. unfold front_of. simpl. unfold core_of in Sc. injection Sc. intros.
      congruence.
    + intros _. rewrite (ko_poisoned _ _ _ _ _ E3). subst s2. simpl. congruence.
  - pose proof (append_err _ _ _ _ E1 Ec) as [m Herr]. pose proof (append_failed _ _ _ _ _ _ _ _ D V Hed Happ E1 Ec) as Hfail.
    destruct (ap_uncertain res).
    + mbind H s2 u E2. injection E2 as <- _. mbind H s3 closeErr E3. mbind H s4 u4 E4. mret H.
      apply file_Close_quiet in E3. destruct (Hfail (default "" (ap_err res))) as [I2 C2].
      assert (quiet s3 s4) as Q4.
      { destruct (released closeErr); [by injection E4 as <- _|]. injection E4 as <- _. by apply quiet_engine. }
      assert (quiet (modify (poisonLocked (default "" (ap_err res))) s1).1 s4) as Q by (by etrans).
      split_and!; [by eapply quiet_inv| |rewrite Herr; by destruct closeErr].
      destruct (Q (fun _ => False)) as (T & _). rewrite (core_front _ _ (tc_core _ _ _ T)). by apply core_front.
    + mbind H s2 d E2. mret H. destruct Hfail as [K Hse].
      assert (loose None s1 (th_file output)) as L1.
      { destruct Hse as [Sc Sn Sp So St]. destruct (core_eqs _ _ Sc) as (_ & _ & Em & _). destruct L as [L1 L2 L3 L4].
        split; [by rewrite Em|done| |by rewrite Sn]. unfold obsolete_name. rewrite So. done. }
      eapply (discard_kept answers marshal W) in E2 as [K2 [m1 ->]]; [|apply K|done].
      eapply kept_back; [by eapply kept_trans|done|done].
Qed.

Lemma back_refl s r : inv s -> eg_poisoned (st_engine s) = None -> back_ok s s r.
Proof. intros I Hp. by split. Qed.

Lemma back_trans s1 s2 s3 r2 r3 : back_ok s1 s2 r2 -> back_ok s2 s3 r3 -> back_ok s1 s3 r3.
Proof. intros (_ & F1 & _) (I & F2 & P). split_and!; [done|congruence|done]. Qed.

Lemma compactInputs_ok tier inputs s s' r :
  inv s -> eg_poisoned (st_engine s) = None -> (forall t, t ∈ inputs -> t ∈ eg_tables (st_engine s)) ->
  compactInputsLocked answers marshal tier inputs s = (s', r) -> back_ok s s' r.
Proof.
  intros I Hp Hin H. destruct (healthy s I Hp) as [D V]. unfold compactInputsLocked in H.
  destruct (negb _); [mret H; by apply back_refl|]. cbv zeta in H.
  assert (forall t, t ∈ sortByFile inputs -> t ∈ eg_tables (st_engine s)) as Hin' by (intros t; rewrite sortByFile_perm; apply Hin).
  revert Hin' H. generalize (sortByFile inputs). clear inputs Hin. intros inputs Hin H.
  destruct (checkInputs _ _ _); [mret H; by apply back_refl|]. mbind H s0 tables E0. injection E0 as <- <-.
  destruct (negb _); [mret H; by apply back_refl|]. mbind H s1 output E1.
  eapply (buildCompactionOutput_ok answers marshal W) in E1 as [K Hout]; [|done|intros t Ht; apply (ve_tables _ _ V); by apply Hin].
  destruct output as [table|m]; [|mret H; by eapply kept_back].
  destruct (Hout table eq_refl) as (es & Hnt & Hmg & Htier & _). mbind H s2 flushed E2. injection E2 as <- <-.
  destruct (core_eqs _ _ (ko_core _ _ _ _ _ K)) as (_ & _ & Em & Eh & _).
  eapply back_trans; [by eapply (kept_back _ _ None)|].
  eapply commitCompaction_ok; [apply K|by apply K|by rewrite (ko_poisoned _ _ _ _ _ K)|intros t; rewrite Eh; apply Hin| | |by eapply merges_kept|exact H].
  - rewrite Htier. unfold u32, max_u32. pose proof (Z.mod_pos_bound (tier + 1) 4294967296). lia.
  - by rewrite Em.
Qed.

Lemma selected_tables tables tier inputs t :
  selectCompactionInputs tables = Some (tier, inputs) -> t ∈ inputs -> t ∈ tables.
Proof.
  unfold selectCompactionInputs. destruct (sort_by _ _) as [|tier' tiers]; [done|]. intros [= _ <-] Ht.
  apply elem_of_take in Ht as (i & Hi & _). apply list_elem_of_lookup_2 in Hi. rewrite sortByFile_perm in Hi.
  by apply list_elem_of_filter in Hi as [_ ?].
Qed.

Lemma compactLoop_ok fuel s s' r :
  inv s -> eg_poisoned (st_engine s) = None -> compactLoop answers marshal fuel s = (s', r) -> back_ok s s' r.
Proof.
  revert s. induction fuel as [|fuel IH]; intros s I Hp H; cbn [compactLoop] in H; mbind H s0 tables E0; injection E0 as <- <-.
  all: destruct (selectCompactionInputs _) as [[tier inputs]|] eqn:Es; [|mret H; by apply back_refl].
  all: destruct (tier =? max_u32); [mret H; by apply back_refl|].
  { mret H. by apply back_refl. }
  mbind H s1 err E1. apply compactInputs_ok in E1; [|done|done|intros t; by eapply selected_tables].
  destruct err as [m|]; [by mret H|]. eapply back_trans; [exact E1|]. apply IH; [apply E1|by apply E1|done].
Qed.

Lemma compactAll_ok s s' r :
  inv s -> eg_poisoned (st_engine s) = None -> compactAllLocked answers marshal s = (s', r) -> back_ok s s' r.
Proof.
  intros I Hp H. destruct (healthy s I Hp) as [D V]. mbind H s1 err E1. apply (reconcile_kept answers marshal W None) in E1; [|done].
  pose proof (kept_back _ _ err E1 V Hp) as B1. destruct err as [m|]; [by mret H|].
  mbind H s2 tables E2. injection E2 as <- <-. eapply back_trans; [exact B1|]. eapply compactLoop_ok; [apply B1|by apply B1|exact H].
Qed.

(** * Flushing *)

(** Dropping an immutable memtable whose records are in the tables. *)
Lemma drop_immutable s im rest :
  inv s -> eg_poisoned (st_engine s) = None -> eg_immutables (st_engine s) = im :: rest ->
  (forall e, mem_has (im_list im) e -> in_version s (eg_manifest (st_engine s)) e) ->
  forall n, inv (mkStore (set_immutables rest (set_completedFlushes n (st_engine s))) (st_tables s) (st_manifest s) (st_clock s)).
Proof.
  intros I Hp Him Hall n. destruct (healthy s I Hp) as [D V]. exists None. split.
  - destruct D as [Dw Dv Dl Dn Dfr Dm]. split; cbn [st_tables st_engine st_manifest]; try done.
    by eapply version_ext; [| | |exact Dv]; [done|by right|simpl; lia].
  - destruct V as [V1 V2 Vc V3 V4 V5 V6 V7 V8 V9]. rewrite Him in V3.
    assert (forall e, held (mkStore (set_immutables rest (set_completedFlushes n (st_engine s))) (st_tables s) (st_manifest s) (st_clock s)) e <-> held s e) as Hh.
    { intros e. unfold held. rewrite Him. cbn [st_engine set_immutables set_completedFlushes eg_immutables eg_list eg_manifest]. split.
      - intros [?|[(x & Hx & ?)|?]]; [by left|right; left; exists x; split; [by right|done]|by right; right].
      - intros [?|[(x & [->|Hx]%elem_of_cons & Hm)|?]]; [by left|right; right; by apply Hall|right; left; eauto|by right; right]. }
    split; cbn [st_engine]; try done.
    + intros x Hx. apply V3. by right.
    + intros e He. apply V8. by apply Hh.
    + intros e He. eapply covered_iff; [|by apply V9]. intros v. by apply Hh.
Qed.

(** The records of a memtable, as they are written to a table. *)
Lemma memtable_records l :
  mem_ok l -> exists es, Forall entry_ok es /\ (forall e, e ∈ es <-> mem_has l e) /\
    forall b, forEach flushEntry l newBuilding = Some b -> bd_err b = None -> building_of es b.
Proof.
  intros (R & Hrep & Hok). destruct (forEach_rep l R Hrep) as (ps & _ & Hin & Hwalk).
  exists ((fun p => mkTableEntry p.1 p.2.2 p.2.1.1 p.2.1.2) <$> ps). split_and!.
  - apply Forall_fmap, Forall_forall. intros [k [[v t] q]] Hp. apply Hin in Hp. by apply Hok in Hp.
  - intros e. unfold mem_has. rewrite (get_ok l R (te_Key e) Hrep), list_elem_of_fmap. split.
    + intros ([k [[v t] q]] & -> & Hp). apply Hin in Hp. simpl. by rewrite Hp.
    + intros [= Hl]. exists (te_Key e, te_version e). split; [by destruct e|]. by apply Hin.
  - intros b Hb Herr. rewrite Hwalk in Hb. injection Hb as Hb.
    apply (walk_flush ps newBuilding b [] Hb Herr newBuilding_of). apply Forall_forall. intros [k [[v t] q]] Hp.
    apply Hin in Hp. by apply Hok in Hp.
Qed.

(** What a flush leaves alone. *)
Record flush_ok (s s' : Store) (r : option error) : Prop := {
  fk_inv : inv s';
  fk_list : eg_list (st_engine s') = eg_list (st_engine s);
  fk_count : eg_activeCount (st_engine s') = eg_activeCount (st_engine s);
  fk_applied : eg_appliedIndex (st_engine s') = eg_appliedIndex (st_engine s);
  fk_closed : eg_closed (st_engine s') = eg_closed (st_engine s);
  fk_done : r = None -> eg_poisoned (st_engine s') = None /\ eg_immutables (st_engine s') = drop 1 (eg_immutables (st_engine s));
}.

Lemma front_flush s s' r :
  inv s' -> front_of (st_engine s') = front_of (st_engine s) -> r <> None -> flush_ok s s' r.
Proof. intros I F Hr. destruct (front_eqs _ _ F) as (El & En & Ei & Ea & Ec). by split. Qed.

Lemma core_flush s s' m : inv s' -> core_of (st_engine s') = core_of (st_engine s) -> flush_ok s s' (Some m).
Proof.
  intros I C. by apply front_flush; [|apply core_front|].
Qed.

Lemma kept_flush s s' m : kept_ok None s s' -> view_ok s -> flush_ok s s' (Some m).
Proof. intros K V. apply core_flush; [by eapply kept_inv|apply K]. Qed.

Lemma sizeClass_range size : 0 <= size <= max_i64 -> 0 <= tableSizeClass size <= max_u32.
Proof.
  intros Hsz. unfold tableSizeClass, sizeClassBaseBytes, dataBlockTarget, sizeClassGrowth.
  destruct (Z.ltb_spec size 4096) as [Hlt|Hge]; [unfold max_u32; lia|].
  pose proof (sizeClassLoop_ok 64 size 0 Hsz) as H. change (4096 * 4 ^ 0) with 4096 in H.
  change (4096 * 4 ^ (0 + 1)) with (4096 * 4) in H. change (0 + 1) with 1 in H.
  specialize (H Hge ltac:(lia) ltac:(lia)). cbv zeta in H. unfold max_u32. lia.
Qed.

(** A flush that has dropped its memtable may still compact. *)
Lemma dropped_flush s s7 s8 r :
  inv s8 -> front_of (st_engine s8) = front_of (st_engine s7) -> (r = None -> eg_poisoned (st_engine s8) = None) ->
  eg_list (st_engine s7) = eg_list (st_engine s) -> eg_activeCount (st_engine s7) = eg_activeCount (st_engine s) ->
  eg_appliedIndex (st_engine s7) = eg_appliedIndex (st_engine s) -> eg_closed (st_engine s7) = eg_closed (st_engine s) ->
  eg_immutables (st_engine s7) = drop 1 (eg_immutables (st_engine s)) -> flush_ok s s8 r.
Proof.
  intros I8 F8 P8 El En Ea Ec Ei. destruct (front_eqs _ _ F8) as (El8 & En8 & Ei8 & Ea8 & Ec8). split; [done|by rewrite El8|by rewrite En8|by rewrite Ea8|by rewrite Ec8|].
  intros Hr. split; [by apply P8|]. by rewrite Ei8.
Qed.

Lemma publishFlush_ok s s' r im rest name b w es :
  inv s -> eg_poisoned (st_engine s) = None -> eg_immutables (st_engine s) = im :: rest ->
  (forall e, e ∈ es <-> mem_has (im_list im) e) -> written None s name es -> 0 <= sw_size w <= max_i64 ->
  publishFlush answers marshal im name b w s = (s', r) -> flush_ok s s' r.
Proof.
  intros I Hp Him Hes Hwr Hsz H. destruct (healthy s I Hp) as [D V].
  assert (forall s2 r2, touch (fun _ => False) s s2 -> (exists m, r2 = Some m) -> flush_ok s s2 r2) as Herr.
  { intros s2 r2 T2 [m ->]. apply kept_flush; [|done]. eapply touch_kept; [exact T2|apply spares_none|done]. }
  mbind H s1 syncErr E1. pose proof E1 as E1'. apply (file_Sync_touch answers (fun _ => False)) in E1' as [T1 _]; [|apply D].
  destruct syncErr as [e|].
  { mbind H s2 c E2. mret H. apply closeFileRetaining_quiet in E2.
    apply Herr; [eapply touch_trans; [exact T1|apply E2]|destruct c; eauto]. }
  mbind H s2 closeErr E2. apply closeFileRetaining_quiet in E2.
  assert (touch (fun _ => False) s s2) as T2 by (eapply touch_trans; [exact T1|apply E2]).
  destruct closeErr as [e|]; [mret H; apply Herr; eauto|].
  mbind H s3 dirErr E3. destruct (sync_written answers marshal W None s s1 s2 s3 name es dirErr E1 E2 E3 D Hwr) as [T3 Hfin].
  destruct dirErr as [e|]; [mret H; apply Herr; eauto|]. specialize (Hfin eq_refl). cbv zeta in H.
  set (md := mkFileMetadata _ _ _ _ _) in H. mbind H s4 o E4. apply openTable_ok in E4 as [Q4 Hopen].
  assert (touch (fun _ => False) s s4) as T4 by (eapply touch_trans; [exact T3|apply Q4]).
  destruct o as [table|m]; [|mret H; apply Herr; eauto].
  assert (kept_ok None s s3) as K3 by (eapply touch_kept; [exact T3|apply spares_none|done]).
  assert (kept_ok None s s4) as K4 by (eapply touch_kept; [exact T4|apply spares_none|done]).
  destruct (Hopen table eq_refl) as (owned & E5).
  destruct (opened_new answers marshal W None md _ s3 s4 owned table es E5) as [Hnt Emd]; [done|done|apply K3|].
  assert (eg_immutables (st_engine s4) = im :: rest /\ eg_manifest (st_engine s4) = eg_manifest (st_engine s)) as [Him4 Em4].
  { destruct (core_eqs _ _ (ko_core _ _ _ _ _ K4)) as (_ & -> & -> & _). done. }
  pose proof (ko_view _ _ _ _ _ K4 V) as V4.
  assert (edit_of s4 (Some table) [] (im_watermark im) es) as Hed.
  { split.
    - apply (ve_immutables _ _ V im). rewrite Him. by left.
    - intros t [= <-]. rewrite Emd. by apply sizeClass_range.
    - split; [done|]. intros e He. apply (ve_sound _ _ V). right; left. exists im. rewrite Him. split; [by left|by apply Hes].
    - intros name' md' f l e Hn. by apply elem_of_nil in Hn. }
  rewrite <- Emd in H. change [Some (fm_proto (th_metadata table))] with (addedFiles (Some table)) in H.
  mbind H s6 c E6. destruct c as [c err]. apply commitEdit_ok with (es := es) in E6 as [I6 Hc]; [|apply K4|done|done].
  cbn [fst snd] in H. destruct c; last first.
  { mret H. destruct Hc as [C6 [m ->]]. apply core_flush; [done|]. rewrite C6. apply K4. }
  destruct Hc as (P6 & F6 & Hin6 & _). mbind H s7 u E7. injection E7 as <- _.
  rewrite (ko_poisoned _ _ _ _ _ K4), Hp in P6.
  assert (eg_immutables (st_engine s6) = im :: rest) as Im6 by (destruct (front_eqs _ _ F6) as (_ & _ & -> & _); done).
  rewrite (core_front _ _ (ko_core _ _ _ _ _ K4)) in F6. destruct (front_eqs _ _ F6) as (El & En & _ & Ea & Ec).
  pose proof (drop_immutable s6 im rest I6 P6 Im6 (fun e He => Hin6 e (proj2 (Hes e) He)) (eg_completedFlushes (st_engine s6) +u 1)) as I7.
  rewrite Im6 in H. cbn [drop] in H. set (s7 := mkStore _ _ _ _) in *.
  assert (forall s8 r8, inv s8 -> front_of (st_engine s8) = front_of (st_engine s7) -> (r8 = None -> eg_poisoned (st_engine s8) = None) ->
    flush_ok s s8 r8) as Hdone by (intros s8 r8 I8 F8 P8; apply (dropped_flush s s7); try done; by rewrite Him).
  destruct err as [m|]; [mret H; by apply Hdone|]. mbind H s8 disabled E8. injection E8 as <- <-.
  destruct (eg_disableAutoCompaction _); [mret H; by apply Hdone|].
  apply compactAll_ok in H as (I9 & F9 & P9); [by apply Hdone|done|done].
Qed.

Lemma flushOldest_ok s s' r :
  inv s -> eg_poisoned (st_engine s) = None -> flushOldestLocked answers marshal s = (s', r) -> flush_ok s s' r.
Proof.
  intros I Hp H. destruct (healthy s I Hp) as [D V]. mbind H s0 ims E0. injection E0 as <- <-.
  destruct (eg_immutables (st_engine s)) as [|im rest] eqn:Him; [mret H; by apply core_flush|].
  destruct (_ =? 0); [mret H; by apply core_flush|]. destruct (_ <? _); [mret H; by apply core_flush|].
  mbind H s1 filename E1. apply (allocate_kept marshal W None) in E1 as (K1 & Et1 & Hname); [|done].
  destruct filename as [name|m]; [|mret H; by apply kept_flush]. pose proof (Hname name eq_refl) as L1.
  mbind H s2 createErr E2. apply fs_Create_touch in E2 as (T2 & Ee2 & Hcr).
  assert (kept_ok None s s2) as K2.
  { eapply kept_trans; [exact K1|]. eapply touch_kept; [exact T2|by apply loose_spares|apply K1]. }
  pose proof (loose_engine None _ _ _ Ee2 L1) as L2.
  destruct createErr as [e|]; [mret H; by apply kept_flush|]. destruct (Hcr eq_refl) as [_ Et2].
  destruct (ve_immutables _ _ V im) as [Hmem Hwm]; [rewrite Him; by left|].
  destruct (memtable_records _ Hmem) as (es & Hok & Hes & Hbuild).
  destruct (forEach _ _ _) as [b|] eqn:Eb; [|mret H; by apply kept_flush].
  assert (forall s3 s4 c m, kept_ok None s s3 -> closeFileRetainingLocked answers name s3 = (s4, c) ->
    flush_ok s s4 (errors_Join (Some m) c)) as Hclose.
  { intros s3 s4 c m K3 Ec. apply closeFileRetaining_quiet in Ec. destruct (Ec (fun _ => False)) as (T & _).
    apply front_flush; [eapply quiet_inv; [exact Ec|by eapply kept_inv]| |by destruct c].
    rewrite (core_front _ _ (tc_core _ _ _ T)). apply core_front, K3. }
  destruct (bd_err b) as [m|] eqn:Ee; [mbind H s3 c E3; mret H; by eapply Hclose|].
  specialize (Hbuild b eq_refl Ee). mbind H s3 wf E3. destruct wf as [w err].
  eapply finishWriter_ok in E3 as (T3 & Ee3 & Hfin); [|by rewrite Et2, lookup_insert_eq|by apply Hbuild|apply K2].
  assert (kept_ok None s s3) as K3.
  { eapply kept_trans; [exact K2|]. eapply touch_kept; [exact T3|by apply loose_spares|apply K2]. }
  pose proof (loose_engine None _ _ _ Ee3 L2) as L3. cbn [fst snd] in H.
  destruct err as [m|]; [mbind H s4 c E4; mret H; by eapply Hclose|].
  destruct (Hfin eq_refl) as (table & Hbt & Hlen & Hft & Hsz). cbn [new_file content app] in Hft. rewrite (bo_entries _ _ Hbuild) in Hbt.
  assert (written None s3 name es) as Hwr.
  { split; [done|]. eexists. split; [exact Hft|]. cbn [content].
    pose proof (bo_writer _ _ Hbuild) as [Hs Ho _]. rewrite (bo_entries _ _ Hbuild) in Hs, Ho. by split. }
  destruct (core_eqs _ _ (ko_core _ _ _ _ _ K3)) as (_ & Ei3 & _).
  eapply (publishFlush_ok s3 s' r im rest name b w es) in H; [|by eapply kept_inv|by rewrite (ko_poisoned _ _ _ _ _ K3)|by rewrite Ei3|done|done|lia].
  destruct H as [F1 F2 F3 F4 F5 F6]. destruct (front_eqs _ _ (core_front _ _ (ko_core _ _ _ _ _ K3))) as (El & En & Ei & Ea & Ec).
  split; [done|congruence|congruence|congruence|congruence|]. by rewrite <- Ei.
Qed.
End fixed.
End ops.

Section writes.
Context (answers : nat -> answer) (marshal : VersionEdit -> result bytes).
Notation inv := (inv marshal).

(** * Flushing through an index *)

Lemma new_list_empty r e : ~ mem_has (newSkipList r) e.
Proof. unfold mem_has. by rewrite (get_ok _ ∅ _ (newSkipList_rep r)), lookup_empty. Qed.

Lemma freeze_ok W s index :
  inv W s -> eg_poisoned (st_engine s) = None -> is_u64 index -> inv W (modify (freezeLocked index) s).1.
Proof.
  intros I Hp Hi. destruct (healthy marshal W s I Hp) as [D V]. exists None. split.
  - destruct D as [Dw Dv Dl Dn Dfr Dm]. split; cbn [modify fst st_tables st_engine st_manifest]; try done.
    by eapply version_ext; [| | |exact Dv]; [done|by right|simpl; lia].
  - destruct V as [V1 V2 Vc V3 V4 V5 V6 V7 V8 V9].
    assert (forall e, held (modify (freezeLocked index) s).1 e <-> held s e) as Hh.
    { intros e. unfold held. cbn [modify fst st_engine freezeLocked set_active set_immutables eg_list eg_immutables eg_manifest]. split.
      - intros [Hm|[(im & Him & Hm)|?]]; [by apply new_list_empty in Hm| |by right; right].
        apply elem_of_app in Him as [Him| ->%list_elem_of_singleton]; [right; left; eauto|by left].
      - intros [Hm|[(im & Him & Hm)|?]]; [| |by right; right].
        + right; left. eexists. split; [apply elem_of_app; right; by left|done].
        + right; left. exists im. split; [apply elem_of_app; by left|done]. }
    split; cbn [modify fst st_engine]; try done.
    + exists ∅. split; [apply newSkipList_rep|done].
    + intros im Him. cbn [freezeLocked set_active set_immutables eg_immutables] in Him.
      apply elem_of_app in Him as [Him| ->%list_elem_of_singleton]; [by apply V3|done].
    + intros e He. apply V8. by apply Hh.
    + intros e He. eapply covered_iff; [|by apply V9]. intros v. by apply Hh.
Qed.

(** What a flush through an index does. *)
Record through_ok (W : history) (s s' : Store) (r : option error) : Prop := {
  th_inv : inv W s';
  th_applied : eg_appliedIndex (st_engine s') = eg_appliedIndex (st_engine s);
  th_closed : eg_closed (st_engine s') = eg_closed (st_engine s);
  th_done : r = None -> eg_poisoned (st_engine s') = None /\
    forall e, W e -> covered (in_version s' (eg_manifest (st_engine s'))) e;
}.

Lemma flushLoop_ok W fuel s s' r :
  inv W s -> eg_poisoned (st_engine s) = None -> flushLoop answers marshal fuel s = (s', r) ->
  inv W s' /\ eg_list (st_engine s') = eg_list (st_engine s) /\ eg_activeCount (st_engine s') = eg_activeCount (st_engine s) /\
  eg_appliedIndex (st_engine s') = eg_appliedIndex (st_engine s) /\ eg_closed (st_engine s') = eg_closed (st_engine s) /\
  (r = None -> eg_poisoned (st_engine s') = None /\ eg_immutables (st_engine s') = []).
Proof.
  revert s. induction fuel as [|fuel IH]; intros s I Hp H; cbn [flushLoop] in H; mbind H s0 ims E0; injection E0 as <- <-.
  all: destruct (eg_immutables (st_engine s)) as [|im rest] eqn:Him; [mret H; by split_and!|].
  { mret H. split_and!; done. }
  mbind H s1 err E1. apply (flushOldest_ok answers marshal W) in E1 as [F1 F2 F3 F4 F5 F6]; [|done|done].
  destruct err as [m|]; [mret H; by split_and!|]. destruct (F6 eq_refl) as [P1 _].
  destruct (IH s1 F1 P1 H) as (G1 & G2 & G3 & G4 & G5 & G6). split_and!; [done|congruence|congruence|congruence|congruence|done].
Qed.

(** With no memtable left, everything is in the tables. *)
Lemma all_in_tables W s :
  inv W s -> eg_immutables (st_engine s) = [] -> eg_activeCount (st_engine s) = 0 ->
  forall e, W e -> covered (in_version s (eg_manifest (st_engine s))) e.
Proof.
  intros (nx & D & V) Him Hc e He. destruct (ve_newest _ _ V e He) as (v & Hv & ?). exists v. split; [|done].
  destruct Hv as [Hm|[(im & Hin & _)|?]]; [|rewrite Him in Hin; by apply elem_of_nil in Hin|done].
  by apply (ve_count _ _ V) in Hm.
Qed.

Lemma flushThrough_ok W index s s' r :
  inv W s -> eg_poisoned (st_engine s) = None -> is_u64 index ->
  flushThroughLocked answers marshal index s = (s', r) -> through_ok W s s' r.
Proof.
  intros I Hp Hi H. destruct (healthy marshal W s I Hp) as [D V]. mbind H s0 e0 E0. injection E0 as <- <-. cbn [id] in H. cbv zeta in H.
  rewrite (ve_fs _ _ V) in H. cbn [negb] in H.
  destruct (index <? _); [mret H; by split|]. destruct (_ && _); [mret H; by split|].
  destruct (index <? _); [mret H; by split|]. destruct (existsb _ _); [mret H; by split|].
  mbind H s1 u E1.
  assert (inv W s1 /\ eg_poisoned (st_engine s1) = None /\ eg_activeCount (st_engine s1) = 0 /\
    eg_appliedIndex (st_engine s1) = eg_appliedIndex (st_engine s) /\ eg_closed (st_engine s1) = eg_closed (st_engine s)) as (I1 & P1 & C1 & A1 & Cl1).
  { destruct (Z.eqb_spec (eg_activeCount (st_engine s)) 0) as [Hc|Hc]; cbn [negb] in E1.
    - mret E1. done.
    - injection E1 as <- _. pose proof (freeze_ok W s index I Hp Hi). done. }
  mbind H s2 pending E2. injection E2 as <- <-. mbind H s2 err E2.
  destruct (flushLoop_ok W _ _ _ _ I1 P1 E2) as (I2 & L2 & C2 & A2 & Cl2 & Hd2).
  destruct err as [m|]; [mret H; split; [done|congruence|congruence|done]|]. destruct (Hd2 eq_refl) as [P2 Im2].
  assert (eg_activeCount (st_engine s2) = 0) as Hc0 by congruence.
  pose proof (all_in_tables W s2 I2 Im2 Hc0) as Hall.
  mbind H s3 now E3. injection E3 as <- <-. destruct (_ <? index); [|mret H; split; [done|congruence|congruence|done]].
  mbind H s3 c E3. mret H. destruct c as [c err]. destruct (healthy marshal W s2 I2 P2) as [D2 V2].
  apply (commitEdit_ok answers marshal W s2 s3 c err None index []) in E3 as [I3 Hres]; [|done|done|split; try done; by intros ? ? ? ? ? ?%elem_of_nil].
  destruct c.
  - destruct Hres as (P3 & F3 & _ & _). destruct (front_eqs _ _ F3) as (El3 & En3 & Ei3 & Ea3 & Ec3).
    split; [done|congruence|congruence|]. intros _. split; [congruence|]. apply all_in_tables; [done|congruence|congruence].
  - destruct Hres as [C3 [m ->]]. destruct (core_eqs _ _ C3) as (El3 & Ei3 & Em3 & Eh3 & Ef3 & Ea3 & Ec3 & En3).
    split; [done|congruence|congruence|done].
Qed.

(** * Writing *)

Definition with_write (W : history) (e : TableEntry) : history := mkHistory (fun x => W x \/ x = e) (hi_flushed W).

Lemma version_mono (W W' : history) s m : (forall e, W e -> W' e) -> version_ok W s m -> version_ok W' s m.
Proof.
  intros HW [H1 H2 H3 H4]. split; [done|done| |done]. intros name md Hmd.
  destruct (H3 name md Hmd) as (f & es & Hf & Hd & Hmeta & Hes). exists f, es. split_and!; try done.
  intros e He. destruct (Hes e He). auto.
Qed.

Lemma disk_mono (W W' : history) nx s :
  (forall e, W e -> W' e) -> (forall e, hi_flushed W' e -> covered (in_version s (eg_manifest (st_engine s))) e) ->
  disk_ok marshal W nx s -> disk_ok marshal W' nx s.
Proof.
  intros HW HF [D1 D2 Dl D3 D4 D5]. split; try done; [by eapply version_mono|].
  destruct D5 as (f & edits & Hf & Hnm & Hok & Hst & Hap & Hrest). exists f, edits. do 5 (split; [done|]).
  destruct nx as [m|]; [|done]. destruct Hrest as (R1 & R2 & R3). split; [done|]. split; [by eapply version_mono|done].
Qed.

(** The memtable after an accepted write. *)
Lemma mem_put key value tombstone seq l l' :
  mem_ok l -> sl_put key value tombstone seq l = Some (l', true) -> entry_ok (mkTableEntry key seq value tombstone) ->
  (forall v t q, sl_get key l = Some (Some (v, t, q)) -> q < seq) ->
  mem_ok l' /\ forall e, mem_has l' e <-> e = mkTableEntry key seq value tombstone \/ (te_Key e <> key /\ mem_has l e).
Proof.
  intros (R & Hrep & Hok) Hput He Hlt. destruct (put_ok l R key value tombstone seq Hrep) as (l2 & Hput2 & Hrep2).
  rewrite Hput in Hput2. injection Hput2 as <- Hacc.
  assert ((put_spec key value tombstone seq R).1 = <[key := (value, tombstone, seq)]> R) as ER.
  { unfold put_spec in *. destruct (R !! key) as [[[v t] q]|] eqn:E; [|done]. destruct (_ <=? _); done. }
  rewrite ER in Hrep2. split.
  - exists (<[key := (value, tombstone, seq)]> R). split; [done|]. intros k v t q Hk.
    destruct (decide (k = key)) as [->|Hne]; [rewrite lookup_insert_eq in Hk; by injection Hk as <- <- <-|].
    rewrite lookup_insert_ne in Hk by done. by apply Hok.
  - intros e. unfold mem_has. rewrite (get_ok l' _ (te_Key e) Hrep2), (get_ok l R (te_Key e) Hrep).
    destruct (decide (te_Key e = key)) as [Ek|Hne].
    + rewrite Ek, lookup_insert_eq. split.
      * intros [= E1 E2 E3]. left. destruct e. simpl in *. congruence.
      * intros [->|[? _]]; done.
    + rewrite lookup_insert_ne by done. split; [by right|]. intros [->|[_ ?]]; done.
Qed.

Lemma putActive_ok W key value tombstone seq s s' r :
  inv W s -> eg_poisoned (st_engine s) = None -> entry_ok (mkTableEntry key seq value tombstone) ->
  putActiveLocked key value tombstone seq s = (s', r) ->
  inv (with_write W (mkTableEntry key seq value tombstone)) s' /\ (exists b, r = Ok b) /\ eg_poisoned (st_engine s') = None /\
  eg_appliedIndex (st_engine s') = eg_appliedIndex (st_engine s) /\ eg_closed (st_engine s') = eg_closed (st_engine s) /\
  eg_manifest (st_engine s') = eg_manifest (st_engine s).
Proof.
  intros I Hp He H. destruct (healthy marshal W s I Hp) as [D V]. set (x := mkTableEntry key seq value tombstone) in *.
  mbind H s0 e0 E0. injection E0 as <- <-. cbn [id] in H.
  destruct (ve_active _ _ V) as (R & Hrep & Hok). pose proof (get_ok _ _ key Hrep) as Hget. rewrite Hget in H.
  destruct (match R !! key with Some _ => _ | None => _ end) eqn:Eold in H.
  - mret H. split; [|split_and!; [eauto|done..]]. destruct (R !! key) as [[[v t] q]|] eqn:ER; [|done]. apply Z.leb_le in Eold. exists None. split.
    + eapply disk_mono; [|apply D|exact D]. by left.
    + destruct V as [V1 V2 Vc V3 V4 V5 V6 V7 V8 V9]. split; try done; [intros e Hh; left; by apply V8|].
      intros e [He'| ->]; [by apply V9|]. exists (mkTableEntry key q v t). split; [left; exact Hget|done].
  - cbv zeta in H. unfold cloneBytes in H.
    destruct (put_ok _ R key value tombstone seq Hrep) as (l' & Hput & Hrep').
    assert ((put_spec key value tombstone seq R).2 = true) as Hacc.
    { unfold put_spec. destruct (R !! key) as [[[v t] q]|]; [|done]. by rewrite Eold. }
    rewrite Hacc in Hput. rewrite Hput in H. mbind H s1 u E1. mret H. injection E1 as <- _.
    destruct (mem_put key value tombstone seq _ l' (ve_active _ _ V) Hput He) as [Hmem' Hhas].
    { intros v t q Hq. rewrite Hget in Hq. injection Hq as Hq. rewrite Hq in Eold. apply Z.leb_gt in Eold. lia. }
    fold x in Hhas. split; [|split_and!; [eauto|done..]]. exists None. split.
    + apply (disk_mono W); [by left|apply D|]. destruct D as [Dw Dv Dl Dn Dfr Dm]. split; cbn [st_tables st_engine st_manifest]; try done.
      by eapply version_ext; [| | |exact Dv]; [done|by right|simpl; lia].
    + destruct V as [V1 V2 Vc V3 V4 V5 V6 V7 V8 V9]. split; cbn [st_engine]; try done.
      * cbn [set_active eg_activeCount eg_list]. destruct Vc as [Vc1 Vc2].
        destruct (R !! key) as [[[v t] q]|] eqn:ER; (split; [lia|]); intros Hz; [|lia]. exfalso.
        apply (Vc2 Hz (mkTableEntry key q v t)). exact Hget.
      * intros e [Hm|[Hm|Hm]]; [|left; apply V8; by right; left|left; apply V8; by right; right].
        apply Hhas in Hm as [->|[_ Hm]]; [by right|left; apply V8; by left].
      * intros e [He'| ->]; [|exists x; split; [left; apply Hhas; by left|done]].
        destruct (V9 e He') as (v & [Hm|Hrest] & Ek & Hq); [|exists v; split; [by right|done]].
        destruct (decide (te_Key v = key)) as [Ekv|Hne]; [|exists v; split; [left; apply Hhas; by right|done]].
        exists x. split; [left; apply Hhas; by left|]. split; [simpl; congruence|]. simpl.
        unfold mem_has in Hm. rewrite Ekv, Hget in Hm. injection Hm as Hm. rewrite Hm in Eold. simpl in Eold. apply Z.leb_gt in Eold. lia.
Qed.

Lemma write_ok W key value tombstone seq s s' r :
  inv W s -> entry_ok (mkTableEntry key seq value tombstone) -> checkOpenLocked (st_engine s) = None ->
  writeLocked answers marshal key value tombstone seq s = (s', r) ->
  inv (with_write W (mkTableEntry key seq value tombstone)) s' /\ eg_closed (st_engine s') = eg_closed (st_engine s) /\
  eg_appliedIndex (st_engine s') = Z.max (eg_appliedIndex (st_engine s)) seq.
Proof.
  intros I He Hopen H. mbind H s0 o E0. injection E0 as <- <-. rewrite Hopen in H.
  assert (eg_poisoned (st_engine s) = None) as Hp.
  { unfold checkOpenLocked in Hopen. destruct (eg_closed _); [done|]. by destruct (eg_poisoned _). }
  mbind H s1 u E1. injection E1 as <- _. set (s1 := mkStore _ _ _ _) in H.
  assert (inv W s1 /\ eg_poisoned (st_engine s1) = None /\ eg_closed (st_engine s1) = eg_closed (st_engine s) /\
    eg_appliedIndex (st_engine s1) = Z.max (eg_appliedIndex (st_engine s)) seq) as (I1 & P1 & C1 & A1).
  { subst s1. cbn [st_engine]. unfold advanceAppliedForWriteLocked. destruct (Z.ltb_spec (eg_appliedIndex (st_engine s)) seq).
    - split_and!; [|done|done|simpl; lia]. destruct (healthy marshal W s I Hp) as [D V]. exists None. split.
      + destruct D as [Dw Dv Dl Dn Dfr Dm]. split; cbn [st_tables st_engine st_manifest]; try done.
        by eapply version_ext; [| | |exact Dv]; [done|by right|simpl; lia].
      + destruct V as [V1 V2 Vc V3 V4 V5 V6 V7 V8 V9]. split; try done. simpl. apply He.
    - split_and!; [|done|done|lia]. by destruct s. }
  mbind H s2 acc E2. destruct (putActive_ok W _ _ _ _ _ _ _ I1 P1 He E2) as (I2 & [b ->] & P2 & A2 & C2 & M2).
  mbind H s3 full E3. injection E3 as <- <-.
  destruct (b && _); [|mret H; split_and!; [done|congruence|congruence]].
  mbind H s3 target E3. injection E3 as <- <-.
  eapply (flushThrough_ok _ _ _ _ _ I2 P2) in H as [T1 T2 T3 _]; [split_and!; [done|congruence|congruence]|].
  destruct (healthy marshal _ _ I2 P2) as [D2 V2]. unfold automaticFlushTargetLocked.
  pose proof (ve_applied _ _ V2) as Ha. pose proof (vo_flushed _ _ _ (do_version _ _ _ _ D2)) as Hf. unfold is_u64 in *. lia.
Qed.
End writes.
