(* ===== verification/EngineOpen.v ===== *)
(** Opening an engine on what a crash left on the disk. *)

From S2P Require Import Prelude Proto RaftLog RaftNode Storage Bytes WalRecords DiskLog DiskLogFacts MapSM Bloom SkipList SSTable SSTableFacts SSTableSpec.
From S2P Require Import Manifest ManifestFacts Heap Merge MergeFacts MergeSpec EngineState TableReads Engine EngineFrames EngineSteps EngineInv EngineCommit EngineOps.

(** * File numbers *)

Lemma nextNumber_bounds name next : 0 < next <= max_u64 -> next <= nextNumber name next <= max_u64.
Proof.
  intros Hn. unfold nextNumber. destruct (parseUint _) as [number|] eqn:E; [|lia]. destruct (_ && _) eqn:Eg; [|lia]. bool_to_prop.
  unfold parseUint in E. destruct (_ || _); [done|]. destruct (Z.ltb_spec max_u64 (digits_value 0 (trimSuffix name sstableFilenameSuffix))); [done|].
  injection E as <-. rewrite u64_add_small; lia.
Qed.

Lemma nextFileNumber_spec files :
  0 < nextFileNumber files <= max_u64 /\
  forall name md n, files !! name = Some md -> nextFileNumber files <= n < max_u64 -> name <> tableFilename n.
Proof.
  unfold nextFileNumber. assert (forall names, 0 < foldr nextNumber 1 names <= max_u64 /\
    forall name n, name ∈ names -> foldr nextNumber 1 names <= n < max_u64 -> name <> tableFilename n) as H.
  { induction names as [|x names [IH1 IH2]]; cbn [foldr]; [split; [unfold max_u64; lia|by intros ? ? ?%elem_of_nil]|].
    pose proof (nextNumber_bounds x _ IH1) as Hb. split; [lia|]. intros name n [->|Hin]%elem_of_cons Hn; [|apply IH2; [done|lia]].
    intros ->. set (base := foldr nextNumber 1 names) in *. assert (0 < n) by lia. unfold nextNumber in Hn, Hb. rewrite parse_tableFilename in Hn, Hb by lia.
    destruct (_ && _) eqn:Eg; [rewrite u64_add_small in Hn by lia; lia|]. apply andb_false_iff in Eg as [Eg|Eg].
    - apply Z.leb_gt in Eg. lia.
    - apply negb_false_iff, Z.eqb_eq in Eg. lia. }
  destruct (H (map_to_list files).*1) as [H1 H2]. split; [done|]. intros name md n Hmd. apply H2.
  apply list_elem_of_fmap. exists (name, md). split; [done|]. by apply elem_of_map_to_list.
Qed.

(** * What a crash leaves *)

(** The records of a version on the disk, as the history of an engine opened on it. *)
Definition recovered (s : Store) (m : manifestState) : history := mkHistory (in_version s m) (in_version s m).

Section recovery.
Context (marshal : VersionEdit -> result bytes) (unmarshal : bytes -> option VersionEdit).
Context (unmarshal_marshal : forall e b, edit_fits e -> marshal e = Ok b -> unmarshal b = Some e).
Context (answers : nat -> answer).
Context (W : history).

(** The disk holds the version [m]: its edits, with a torn tail, in the manifest (which
    may not exist yet for the empty version) and its tables. *)
Record recoverable (s : Store) (m : manifestState) : Prop := {
  re_files : map_Forall (fun _ f => file_ok f) (st_tables s);
  re_manifest : match st_manifest s with
                | None => m = newManifestState
                | Some f => exists edits (t : bytes), Forall (edit_storable marshal) edits /\ content f = edit_frames marshal edits ++ t /\
                    torn_frame t /\ applyEdits edits newManifestState = Ok m
                end;
  re_ok : manifest_ok m;
  re_flushed : is_u64 (mf_flushedIndex m);
  re_tables name md : mf_files m !! name = Some md ->
    exists f es, st_tables s !! name = Some f /\ built es (content f) /\ metadata_of_table md es /\
      forall e, e ∈ es -> W e /\ te_Seq e <= mf_flushedIndex m;
}.

(** A crash keeps the files whose names are durable, each with at least its synced bytes;
    of everything else anything may be left, a half-written or a removed table included. *)
Record crashed (s s' : Store) : Prop := {
  cr_named name f : st_tables s !! name = Some f -> named f = true ->
    exists f', st_tables s' !! name = Some f' /\ survives f f';
  cr_manifest f : st_manifest s = Some f -> named f = true -> exists f', st_manifest s' = Some f' /\ survives f f';
  cr_files : map_Forall (fun _ f => file_ok f) (st_tables s');
  cr_apart : st_tables s' !! "MANIFEST" = None;
}.

Lemma version_survives s s' m : crashed s s' -> version_ok W s m -> forall name md, mf_files m !! name = Some md ->
  exists f es, st_tables s' !! name = Some f /\ built es (content f) /\ metadata_of_table md es /\
    forall e, e ∈ es -> W e /\ te_Seq e <= mf_flushedIndex m.
Proof using.
  intros Hcr Hv name md Hmd. destruct (vo_tables W s m Hv name md Hmd) as (f & es & Hf & [Hb Hs Hn] & Hm & He).
  destruct (cr_named s s' Hcr name f Hf Hn) as (f' & Hf' & Hsv). exists f', es.
  rewrite (survives_synced f f' Hs Hsv). done.
Qed.

Lemma in_version_survives s s' m e : crashed s s' -> version_ok W s m -> in_version s m e <-> in_version s' m e.
Proof using.
  intros Hcr Hv. split; intros (name & md & f & es & Hmd & Hf & Hb & He);
    destruct (vo_tables W s m Hv name md Hmd) as (g & es' & Hg & [Hb' Hs Hn] & _);
    destruct (cr_named s s' Hcr name g Hg Hn) as (g' & Hg' & Hsv); pose proof (survives_synced g g' Hs Hsv) as Ec.
  - assert (g = f) as -> by congruence. exists name, md, g', es. by rewrite Ec.
  - assert (g' = f) as -> by congruence. exists name, md, g, es. by rewrite <- Ec.
Qed.

(** After a crash the disk holds the engine's version or the one its manifest may have
    reached. *)
Lemma crash_recoverable next s s' :
  disk_ok marshal W next s -> crashed s s' ->
  exists m, recoverable s' m /\ version_ok W s m /\
    (forall e, in_version s (eg_manifest (st_engine s)) e -> covered (in_version s' m) e).
Proof using.
  intros [Hf Hv _ Hn Hfr Hm] Hcr. destruct Hm as (f & edits & Ef & Hnf & Hok & Hs & Ha & Hnext).
  destruct (cr_manifest s s' Hcr f Ef Hnf) as (f' & Ef' & Hsv).
  assert (forall m, version_ok W s m -> (exists es (t : bytes), Forall (edit_storable marshal) es /\ content f' = edit_frames marshal es ++ t /\
    torn_frame t /\ applyEdits es newManifestState = Ok m) -> recoverable s' m) as Hrec.
  { intros m Hvm He. split; [apply Hcr|by rewrite Ef'|apply Hvm|apply Hvm|]. by apply (version_survives s). }
  assert (forall e, in_version s (eg_manifest (st_engine s)) e -> covered (in_version s' (eg_manifest (st_engine s))) e) as Hself.
  { intros e He. exists e. split_and!; [|done|done]. by apply (in_version_survives s). }
  destruct next as [m|].
  - destruct Hnext as (Hp & Hvm & Hcov & edit & k & Hst & Hap & Hc & Hsy). destruct Hsv as (n & Hnn & ->). cbn [content] in *.
    rewrite Hc, take_app_ge, take_take in * by lia. set (j := (_ `min` k)%nat) in *.
    destruct (Nat.lt_ge_cases j (length (edit_frame marshal edit))) as [Hj|Hj].
    + exists (eg_manifest (st_engine s)). split_and!; [|done|done]. apply Hrec; [done|].
      exists edits, (take j (edit_frame marshal edit)). split_and!; [done|done|by apply take_edit_frame|done].
    + exists m. split_and!; [|done|].
      * apply Hrec; [done|]. exists (edits ++ [edit]), []. rewrite edit_frames_snoc, app_nil_r, take_ge by lia.
        split_and!; [by apply Forall_app_2; [|by constructor]|done|by left|by eapply applyEdits_snoc].
      * intros e He. destruct (Hcov e He) as (v & Hv' & Hk). exists v. split; [|done]. by apply (in_version_survives s).
  - exists (eg_manifest (st_engine s)). split_and!; [|done|done]. apply Hrec; [done|]. destruct Hnext as [Hc Hsy].
    exists edits, []. rewrite (survives_synced f f' Hsy Hsv), app_nil_r. split_and!; [done|done|by left|done].
Qed.

(** * Loading the manifest *)

Lemma loadManifest_ok fs s m mf' state :
  recoverable s m -> loadManifest unmarshal fs (st_manifest s) = (mf', Ok state) ->
  state = m /\ exists f edits, mf' = Some f /\ Forall (edit_storable marshal) edits /\
    content f = edit_frames marshal edits /\ applyEdits edits newManifestState = Ok m.
Proof using unmarshal_marshal.
  intros Hr H. pose proof (re_manifest s m Hr) as Hm. unfold loadManifest in H. destruct (fs_stat fs); [done|].
  destruct (st_manifest s) as [f|].
  - destruct Hm as (edits & t & Hs & Hc & Ht & Ha). destruct (fs_isDir fs); [done|]. destruct (checkedManifestInt _); [|done].
    destruct (fs_open fs), (fs_read fs), (fs_closeRead fs); try done.
    rewrite Hc, (replayManifestBytes_frames marshal unmarshal unmarshal_marshal edits t m Hs Ht Ha) in H.
    destruct (Nat.eqb_spec (length t) 0) as [E|E]; cbn [negb] in H.
    + injection H as <- <-. apply nil_length_inv in E as ->. rewrite app_nil_r in Hc. split; [done|]. by exists f, edits.
    + unfold truncateManifest in H. destruct (fs_openAppend fs); [done|]. destruct (fs_truncate fs); [done|].
      destruct (fs_sync fs), (fs_close fs) as [[]|]; try done. injection H as <- <-. split; [done|].
      eexists _, edits. split_and!; [done|done| |done]. cbn [content sync_file]. by rewrite Hc, take_app_length.
  - subst m. unfold createManifest in H. destruct (fs_create fs); [done|].
    destruct (fs_sync fs), (fs_close fs) as [[]|], (fs_syncDir fs); try done. injection H as <- <-. split; [done|].
    eexists _, []. done.
Qed.

(** * Opening the tables *)

(** [e'] is [e] with the tables [ts]. *)
Record with_tables (ts : list tableHandle) (e e' : Engine) : Prop := {
  wt_core : core_of e' = core_of (set_tables ts e);
  wt_poisoned : eg_poisoned e' = eg_poisoned e;
  wt_obsolete : eg_obsolete e = [] -> eg_obsolete e' = [];
}.

Lemma quiet_with_tables s s' ts e : with_tables ts e (st_engine s) -> quiet s s' -> with_tables ts e (st_engine s').
Proof using.
  intros [Hc Hp Ho] Hq. destruct (Hq (fun _ => False)) as ([Tc Tn Tp To _ _ _ _] & _). split; [congruence|congruence|].
  intros E. specialize (Ho E). rewrite Ho in To. destruct (eg_obsolete (st_engine s')) as [|o l]; [done|].
  destruct (To o) as [[]|(o' & Ho' & _)]; [by left|]. by apply elem_of_nil in Ho'.
Qed.

Lemma openTablesLoop_ok files s s' e ts :
  openTablesLoop answers files s = (s', None) -> with_tables ts e (st_engine s) ->
  (forall md, md ∈ files -> exists f es, st_tables s !! fm_file md = Some f /\ built es (content f)) ->
  st_tables s' = st_tables s /\ st_manifest s' = st_manifest s /\
  exists new, with_tables (ts ++ new) e (st_engine s') /\ th_metadata <$> new = files /\
    forall t, t ∈ new -> exists f es, st_tables s !! th_file t = Some f /\ built es (content f) /\ reader_of es (content f) (th_reader t).
Proof using.
  revert s ts. induction files as [|md files IH]; intros s ts H Hw Hf; cbn [openTablesLoop] in H.
  { injection H as <-. split_and!; [done|done|]. exists []. rewrite app_nil_r. split_and!; [done|done|]. by intros t ?%elem_of_nil. }
  mbind H s0 fl E0. injection E0 as <- <-. mbind H s1 t E1. apply openTable_ok in E1 as [Q E1].
  destruct (Q (fun _ => False)) as (_ & Et & Em). pose proof (quiet_with_tables s s1 ts e Hw Q) as Hw1.
  destruct t as [table|]; [|done]. destruct (E1 table eq_refl) as [owned Eo]. destruct (Hf md) as (f & es & Hfm & Hb); [by left|].
  destruct (openTableOwned_built _ _ _ _ _ _ _ _ _ Eo Hfm Hb) as (Emd & Hrd & _).
  mbind H s2 u E2. injection E2 as <- _. destruct (IH _ (ts ++ [table]) H) as (Et' & Em' & new & Hw' & Hmd & Hnew).
  - cbn [st_engine]. destruct Hw1 as [Hc Hp Ho]. assert (eg_tables (st_engine s1) = ts) as -> by exact (f_equal co_tables Hc).
    split; [|exact Hp|exact Ho]. unfold core_of, set_tables in *. cbn in *. congruence.
  - cbn [st_tables]. rewrite Et. intros md' Hmd'. apply Hf. by right.
  - cbn [st_tables st_manifest] in *. split_and!; [congruence|congruence|]. exists (table :: new).
    rewrite <- app_assoc in Hw'. split_and!; [exact Hw'|cbn [fmap list_fmap]; congruence|].
    intros t [->|Ht]%elem_of_cons; [|rewrite Et in Hnew; by apply Hnew]. unfold th_file. rewrite Emd. by exists f, es.
Qed.

(** * Making the recovered version durable *)

Lemma touch_with_tables P s s' ts e :
  touch P s s' -> eg_obsolete (st_engine s') = eg_obsolete (st_engine s) ->
  with_tables ts e (st_engine s) -> with_tables ts e (st_engine s').
Proof using. intros [Tc Tn Tp To _ _ _ _] Eo [Hc Hp Ho]. split; congruence || (intros; rewrite Eo; auto). Qed.

Lemma syncTablesLoop_ok tables s s' :
  syncTablesLoop answers tables s = (s', None) -> map_Forall (fun _ f => file_ok f) (st_tables s) ->
  touch (fun _ => False) s s' /\ st_engine s' = st_engine s /\
  forall t f, t ∈ tables -> st_tables s' !! th_file t = Some f -> synced f = length (content f).
Proof using.
  revert s. induction tables as [|t tables IH]; intros s H Hw; cbn [syncTablesLoop] in H.
  { injection H as <-. split_and!; [apply touch_refl|done|]. by intros t f ?%elem_of_nil. }
  mbind H s1 err E. destruct err; [done|]. assert (st_engine s1 = st_engine s) as Ee.
  { unfold file_Sync in E. mbind E s2 a Ea. apply ask_engine in Ea. destruct (an_err a); [done|]. by injection E as <-. }
  apply (file_Sync_touch answers (fun _ => False)) in E as [T Et]; [|done]. specialize (Et eq_refl).
  pose proof (tc_wf _ _ _ T Hw) as Hw1. destruct (IH s1 H Hw1) as (T2 & Ee2 & Hs). split_and!; [by eapply touch_trans|congruence|].
  intros t' f [->|Ht]%elem_of_cons Hf; [|by eapply Hs].
  destruct (st_tables s1 !! th_file t) as [f1|] eqn:Ef1; [|by rewrite (tc_absent _ _ _ T2 _ (fun H => H) Ef1) in Hf].
  destruct (tc_files _ _ _ T2 _ f1 (fun H => H) Ef1) as (f2 & Hf2 & [Hc Hy _ Hk]). assert (f2 = f) as -> by congruence.
  specialize (Hk (Hw1 _ _ Ef1)). unfold file_ok in Hk. rewrite Et, lookup_alter_eq in Ef1.
  destruct (st_tables s !! th_file t) as [f0|]; [|done]. injection Ef1 as <-. cbn [content synced sync_file] in *. rewrite Hc in *. lia.
Qed.

(** After [syncRecoveredVersion] the opened tables and the manifest are durable. *)
Lemma syncRecoveredVersion_ok s s' f :
  syncRecoveredVersion answers s = (s', None) -> map_Forall (fun _ f => file_ok f) (st_tables s) -> st_manifest s = Some f ->
  touch (fun _ => False) (mkStore (st_engine s) (st_tables s) None (st_clock s)) (mkStore (st_engine s') (st_tables s') None (st_clock s')) /\
  st_engine s' = st_engine s /\
  (exists f', st_manifest s' = Some f' /\ content f' = content f /\ named f' = true /\ synced f' = length (content f')) /\
  forall t g, t ∈ eg_tables (st_engine s) -> st_tables s' !! th_file t = Some g -> synced g = length (content g) /\ named g = true.
Proof using.
  intros H Hw Hm. mbind H s0 ts E0. injection E0 as <- <-. mbind H s1 err E1. destruct err; [done|].
  destruct (syncTablesLoop_ok _ _ _ E1 Hw) as (T1 & Ee1 & Hs). mbind H s2 dirErr E2.
  assert (st_engine s2 = st_engine s1) as Ee2.
  { pose proof E2 as E. unfold fs_SyncDir in E. mbind E s3 a Ea. apply ask_engine in Ea. destruct (an_err a); injection E as <- _; exact Ea. }
  apply (fs_SyncDir_touch answers (fun _ => False)) in E2 as [T2 Hd]. destruct dirErr; [done|]. destruct (Hd eq_refl) as [Et Em]. clear Hd.
  mbind H s3 a E3. pose proof (ask_engine _ _ _ _ E3) as Ee3. destruct (ask_quiet answers _ _ _ E3 (fun _ => False)) as (T3 & Et3 & Em3).
  mbind H s4 m E4. injection E4 as <- <-. pose proof (tc_manifest _ _ _ T1) as TM. rewrite Hm in TM. destruct TM as (f1 & Ef1 & [Hc1 _ _ _]).
  rewrite Em3, Em, Ef1 in H. cbn [fmap option_fmap option_map] in H. unfold syncManifest in H.
  unfold ebind, put_manifest, eret in H. destruct (fs_openAppend _); [done|].
  destruct (fs_sync (an_manifest a)), (fs_close (an_manifest a)) as [[]|]; try done. injection H as <-. cbn [st_engine st_tables st_manifest st_clock].
  split_and!; [|congruence| |].
  - destruct (touch_trans _ _ _ _ T1 (touch_trans _ _ _ _ T2 T3)) as [Tc Tn Tp To Tf Ta Tw _]. by split.
  - eexists. split_and!; [done|by cbn; rewrite <- Hc1|done|done].
  - intros t g Ht Hg. rewrite Et3, Et, lookup_fmap in Hg. destruct (st_tables s1 !! th_file t) as [g1|] eqn:Eg; [|done].
    injection Hg as <-. split; [|done]. exact (Hs t g1 Ht Eg).
Qed.

(** * Orphans *)

Lemma removeOrphansLoop_ok names removed s s' r :
  removeOrphansLoop answers names removed s = (s', r) ->
  touch (fun n => mf_files (eg_manifest (st_engine s)) !! n = None) s s' /\ st_engine s' = st_engine s.
Proof using.
  revert removed s. induction names as [|name names IH]; intros removed s H; cbn [removeOrphansLoop] in H.
  { mret H. split; [apply touch_refl|done]. }
  mbind H s0 fl E0. injection E0 as <- <-. destruct (_ || _) eqn:Eg; [by apply IH in H|].
  apply orb_false_iff in Eg as [_ Eg]. apply bool_decide_eq_false in Eg. rewrite <- eq_None_not_Some in Eg.
  mbind H s1 info E1. assert (st_engine s1 = st_engine s) as Ee1.
  { unfold fs_Stat in E1. mbind E1 s2 a Ea. apply ask_engine in Ea. mbind E1 s3 u Et. injection Et as <- <-.
    destruct (an_err a), (st_tables s2 !! name); by mret E1. }
  apply fs_Stat_inv in E1 as [Q1 _]. pose proof (quiet_touch (fun n => mf_files (eg_manifest (st_engine s)) !! n = None) _ _ Q1) as T1.
  destruct info as [[sz []]|m].
  - apply IH in H as [T2 Ee2]. rewrite Ee1 in *. split; [by eapply touch_trans|done].
  - mbind H s2 err E2. assert (st_engine s2 = st_engine s) as Ee2.
    { unfold fs_Remove in E2. mbind E2 s3 a Ea. apply ask_engine in Ea. mbind E2 s4 u Et. injection Et as <- <-.
      destruct (an_err a), (st_tables s3 !! name); injection E2 as <- _; cbn [st_engine put_tables]; congruence. }
    apply fs_Remove_touch in E2. assert (touch (fun n => mf_files (eg_manifest (st_engine s)) !! n = None) s s2) as T2.
    { eapply touch_trans; [exact T1|]. eapply touch_mono; [exact E2|]. by intros n ->. }
    destruct err as [e|]; [mret H; by split|]. apply IH in H as [T3 Ee3]. rewrite Ee2 in *. split; [by eapply touch_trans|done].
  - mret H. by split.
Qed.

Lemma removeOrphans_ok s s' r :
  removeOrphans answers s = (s', r) ->
  touch (fun n => mf_files (eg_manifest (st_engine s)) !! n = None) s s' /\ st_engine s' = st_engine s.
Proof using.
  intros H. mbind H s1 names E. assert (quiet s s1 /\ st_engine s1 = st_engine s) as [Q Ee].
  { unfold fs_List in E. mbind E s2 a Ea. pose proof (ask_quiet answers _ _ _ Ea). apply ask_engine in Ea.
    mbind E s3 u Et. injection Et as <- <-. mbind E s3 u Et. injection Et as <- <-. destruct (an_err a); by mret E. }
  pose proof (quiet_touch (fun n => mf_files (eg_manifest (st_engine s)) !! n = None) _ _ Q) as T.
  destruct names as [names|]; [|mret H; done]. mbind H s2 removed E2. apply removeOrphansLoop_ok in E2 as [T2 Ee2]. rewrite Ee in *.
  assert (touch (fun n => mf_files (eg_manifest (st_engine s)) !! n = None) s s2) as T' by (by eapply touch_trans).
  destruct removed as [[]|]; [|mret H; done..]. mbind H s3 err E3. mret H. assert (st_engine s3 = st_engine s2) as Ee3.
  { unfold fs_SyncDir in E3. mbind E3 s4 a Ea. apply ask_engine in Ea. destruct (an_err a); injection E3 as <- _; exact Ea. }
  split; [|congruence]. eapply touch_trans; [exact T'|]. by eapply fs_SyncDir_touch.
Qed.

(** * Open *)

Lemma sortedManifestFiles_names m :
  manifest_ok m -> fm_file <$> sortedManifestFiles (mf_files m) = sort_by String.leb (map_to_list (mf_files m)).*1.
Proof using.
  intros Hok. unfold sortedManifestFiles.
  assert (forall names : list string, (forall n, n ∈ names -> is_Some (mf_files m !! n)) ->
    fm_file <$> omap (fun name => mf_files m !! name) names = names) as H.
  { induction names as [|n names IH]; intros Hn; [done|]. destruct (Hn n) as [md Hmd]; [by left|].
    cbn [omap list_omap]. rewrite Hmd. cbn [fmap list_fmap]. rewrite (proj1 (Hok n md Hmd)). f_equal. apply IH. intros n' ?. apply Hn. by right. }
  apply H. intros n. rewrite sort_by_perm, list_elem_of_fmap. intros ([n' md] & -> & Hin%elem_of_map_to_list). eauto.
Qed.

Lemma sortedManifestFiles_in m md :
  manifest_ok m -> md ∈ sortedManifestFiles (mf_files m) -> mf_files m !! fm_file md = Some md.
Proof using.
  intros Hok. unfold sortedManifestFiles. intros (n & _ & Hn)%list_elem_of_omap. by rewrite (proj1 (Hok n md Hn)).
Qed.

(** What an opened engine reads and holds on the disk. *)
Record opened (s s1 : Store) (m : manifestState) (ts : list tableHandle) (options : Options) (r : Rand) (threshold : Z) : Prop := {
  od_engine : with_tables ts (openedEngine options r threshold m) (st_engine s1);
  od_number : eg_nextFileNumber (st_engine s1) = nextFileNumber (mf_files m);
  od_files : map_Forall (fun _ f => file_ok f) (st_tables s1);
  od_tables name md f : mf_files m !! name = Some md -> st_tables s !! name = Some f ->
    exists f', st_tables s1 !! name = Some f' /\ content f' = content f /\ synced f' = length (content f') /\ named f' = true;
  od_metadata : th_metadata <$> ts = sortedManifestFiles (mf_files m);
  od_handles t : t ∈ ts -> exists f es, st_tables s !! th_file t = Some f /\ built es (content f) /\ reader_of es (content f) (th_reader t);
  od_manifest : exists f edits, st_manifest s1 = Some f /\ named f = true /\ synced f = length (content f) /\
    Forall (edit_storable marshal) edits /\ content f = edit_frames marshal edits /\ applyEdits edits newManifestState = Ok m;
}.

Lemma opened_version s s1 m ts options r threshold :
  recoverable s m -> opened s s1 m ts options r threshold ->
  version_ok (recovered s m) s1 m /\ (forall e, in_version s1 m e <-> in_version s m e).
Proof using.
  intros Hr [He Hn Hf Ht Hm Hh _]. assert (forall e, in_version s1 m e <-> in_version s m e) as Hin.
  { intros e. split; intros (name & md & f & es & Hmd & Hf' & Hb & Hin);
      destruct (re_tables s m Hr name md Hmd) as (g & es' & Hg & Hb' & _); destruct (Ht name md g Hmd Hg) as (g' & Hg' & Ec & _).
    - assert (g' = f) as -> by congruence. exists name, md, g, es. by rewrite <- Ec.
    - assert (g = f) as -> by congruence. exists name, md, g', es. by rewrite Ec. }
  split; [|done]. split; [apply Hr|apply Hr| |].
  - intros name md Hmd. destruct (re_tables s m Hr name md Hmd) as (g & es & Hg & Hb & Hmt & Hes).
    destruct (Ht name md g Hmd Hg) as (g' & Hg' & Ec & Hsy & Hna). exists g', es. split_and!; [done|split; [by rewrite Ec|done|done]|done|].
    intros e Hin'. split; [by exists name, md, g, es|]. by apply Hes.
  - intros name md Hmd. split.
    + intros (o & Ho & _). rewrite (wt_obsolete _ _ _ He eq_refl) in Ho. by apply elem_of_nil in Ho.
    + intros n. rewrite Hn. intros Hb. by eapply nextFileNumber_spec.
Qed.

Lemma opened_inv s s1 m ts options r threshold :
  recoverable s m -> opened s s1 m ts options r threshold ->
  disk_ok marshal (recovered s m) None s1 /\ view_ok (recovered s m) s1.
Proof using.
  intros Hr Ho. destruct (opened_version _ _ _ _ _ _ _ Hr Ho) as [Hv Hin]. destruct Ho as [[Hc Hp Hob] Hn Hf Ht Hm Hh (f & edits & Ef & Hnf & Hsf & Hs & Hcf & Ha)].
  unfold core_of in Hc. cbn in Hc. injection Hc as E1 E2 E3 E4 E5 E6 E7 E8 E9 E10 E11 E12 E13. specialize (Hob eq_refl).
  assert (th_file <$> ts = fm_file <$> sortedManifestFiles (mf_files m)) as Enames by (rewrite <- Hm, <- list_fmap_compose; done).
  rewrite sortedManifestFiles_names in Enames by apply Hr.
  assert (forall t, t ∈ ts -> mf_files m !! th_file t = Some (th_metadata t)) as Hmd.
  { intros t Hti. apply sortedManifestFiles_in; [apply Hr|]. rewrite <- Hm. by apply list_elem_of_fmap_2. }
  split.
  - split; [done|by rewrite E8|intros e He; rewrite E8; exists e; split_and!; [by apply Hin|done|done]|rewrite Hn; apply nextFileNumber_spec|by rewrite Hob; intros o n ?%elem_of_nil|].
    exists f, edits. rewrite E8. split_and!; try done. unfold file_ok. lia.
  - split; rewrite ?E1, ?E3, ?E4, ?E5, ?E7, ?E8, ?E9, ?E10.
    + done.
    + exists ∅. split; [apply newSkipList_rep|done].
    + split; [done|]. intros _. apply new_list_empty.
    + by intros im ?%elem_of_nil.
    + unfold is_u64, max_u64. lia.
    + intros t Hti. split; [rewrite E8; by apply Hmd|]. destruct (Hh t Hti) as (g & es & Hg & Hb & Hrd).
      destruct (Ht _ _ g (Hmd t Hti) Hg) as (g' & Hg' & Ec & _). exists g', es. by rewrite Ec.
    + intros name md Hmdn. assert (name ∈ th_file <$> ts) as Hi; [|apply list_elem_of_fmap in Hi as (t & -> & ?); by exists t].
      rewrite Enames, sort_by_perm. apply list_elem_of_fmap. exists (name, md). split; [done|]. by apply elem_of_map_to_list.
    + rewrite Enames, sort_by_perm. apply NoDup_fst_map_to_list.
    + intros e [Hmem|[(im & Him & _)|He]].
      * rewrite E1 in Hmem. by apply new_list_empty in Hmem.
      * rewrite E5 in Him. by apply elem_of_nil in Him.
      * rewrite E8 in He. by apply Hin.
    + intros e He. exists e. split_and!; [|done|done]. right; right. rewrite E8. by apply Hin.
Qed.

(** The tables of the version, from before the recovery to its end. *)
Lemma recovered_tables s s2 s3 s4 m ts :
  recoverable s m -> st_tables s2 = st_tables s -> eg_tables (st_engine s2) = ts ->
  th_metadata <$> ts = sortedManifestFiles (mf_files m) -> eg_manifest (st_engine s3) = m ->
  map_Forall (fun _ f => file_ok f) (st_tables s3) ->
  touch (fun _ => False) (mkStore (st_engine s2) (st_tables s2) None (st_clock s2)) (mkStore (st_engine s3) (st_tables s3) None (st_clock s3)) ->
  (forall t g, t ∈ eg_tables (st_engine s2) -> st_tables s3 !! th_file t = Some g -> synced g = length (content g) /\ named g = true) ->
  touch (fun n => mf_files (eg_manifest (st_engine s3)) !! n = None) s3 s4 ->
  forall name md g, mf_files m !! name = Some md -> st_tables s !! name = Some g ->
  exists f', st_tables s4 !! name = Some f' /\ content f' = content g /\ synced f' = length (content f') /\ named f' = true.
Proof using.
  intros Hr Et2 Ets Hmd Emf Hw3 T3 Hd3 T4 name md g Hmdn Hg.
  destruct (tc_files _ _ _ T3 name g (fun H => H)) as (g3 & Hg3 & [Lc _ _ _]); [cbn; by rewrite Et2|].
  cbn [st_tables] in Hg3. destruct (tc_files _ _ _ T4 name g3) as (g4 & Hg4 & [Lc4 Ly4 Ln4 Lk4]); [rewrite Emf, Hmdn; done|done|].
  exists g4. assert (exists t, t ∈ eg_tables (st_engine s2) /\ th_file t = name) as (t & Hti & Htn).
  { rewrite Ets. assert (md ∈ th_metadata <$> ts) as Hi.
    - rewrite Hmd. apply list_elem_of_omap. exists name. split; [|done]. rewrite sort_by_perm. apply list_elem_of_fmap.
      exists (name, md). split; [done|]. by apply elem_of_map_to_list.
    - apply list_elem_of_fmap in Hi as (t & Et & ?). exists t. split; [done|]. unfold th_file. rewrite <- Et.
      by destruct (re_ok s m Hr name md Hmdn) as [-> _]. }
  destruct (Hd3 t g3 Hti) as [Hsy Hna]; [by rewrite Htn|]. specialize (Lk4 (Hw3 _ _ Hg3)). unfold file_ok in Lk4.
  split_and!; [done|congruence| |auto]. rewrite Lc4 in *. lia.
Qed.

Lemma abortOpen_fails msg s s' : abortOpen answers msg s <> (s', None).
Proof using. intros H. mbind H s1 x E1. mbind H s2 y E2. injection H as _ H. by destruct x, y. Qed.

Lemma open_ok options s s' m :
  recoverable s m -> engine_Open answers unmarshal options s = (s', None) ->
  disk_ok marshal (recovered s m) None s' /\ view_ok (recovered s m) s' /\ eg_manifest (st_engine s') = m /\
  eg_closed (st_engine s') = false /\ eg_poisoned (st_engine s') = None /\ eg_appliedIndex (st_engine s') = 0.
Proof using unmarshal_marshal.
  intros Hr H. unfold engine_Open in H. destruct (op_Rand options) as [rnd|]; [|done]. cbv zeta in H.
  set (threshold := if op_FlushThreshold options =? 0 then _ else _) in H. destruct (threshold <? 0); [done|].
  mbind H s1 a E1. destruct (ask_quiet answers _ _ _ E1 (fun _ => False)) as (_ & Et1 & Em1). mbind H s2 mf E2. injection E2 as <- <-.
  destruct (loadManifest unmarshal (an_manifest a) (st_manifest s1)) as [mf' [state|e]] eqn:El; mbind H s2 u E2; injection E2 as <- _; [|done].
  rewrite Em1 in El. destruct (loadManifest_ok _ s m mf' state Hr El) as (-> & f & edits & -> & Hs & Hc & Ha).
  mbind H s2 u2 E2. injection E2 as <- _. cbn [st_engine st_tables st_manifest st_clock] in H. mbind H s2 err1 E2.
  destruct err1; [by apply abortOpen_fails in H|].
  unfold openReferencedTables in E2. mbind E2 s3 fl E3. injection E3 as <- <-. cbn [st_engine] in E2.
  apply (openTablesLoop_ok _ _ _ (openedEngine options rnd threshold m) []) in E2 as (Et2 & Em2 & ts & Hw & Hmd & Hts); [|by split|].
  2:{ cbn [st_tables eg_manifest openedEngine]. rewrite Et1. intros md Hmd%sortedManifestFiles_in; [|apply Hr]. destruct (re_tables s m Hr _ _ Hmd) as (g & es & ? & ? & _). by exists g, es. }
  cbn [st_tables st_manifest app] in *. rewrite Et1 in *. mbind H s3 err2 E3.
  destruct err2; [by apply abortOpen_fails in H|].
  destruct (syncRecoveredVersion_ok _ _ f E3) as (T3 & Ee3 & (f3 & Ef3 & Hc3 & Hn3 & Hs3) & Hd3); [rewrite Et2; apply Hr|done|].
  mbind H s4 err3 E4. destruct (removeOrphans_ok _ _ _ E4) as [T4 Ee4].
  destruct err3; [by apply abortOpen_fails in H|].
  mbind H s5 u5 E5. injection E5 as <- _. injection H as <-. cbn [st_engine st_tables st_manifest].
  set (s9 := mkStore _ _ _ _). assert (opened s s9 m ts options rnd threshold) as Hop.
  { assert (eg_tables (st_engine s2) = ts) as Ets by exact (f_equal co_tables (wt_core _ _ _ Hw)).
    assert (eg_manifest (st_engine s3) = m) as Emf by (rewrite Ee3; exact (f_equal co_manifest (wt_core _ _ _ Hw))).
    assert (map_Forall (fun _ f => file_ok f) (st_tables s3)) as Hw3 by (apply (tc_wf _ _ _ T3); cbn; rewrite Et2; apply Hr).
    split; cbn [st_engine st_tables st_manifest s9].
    - destruct Hw as [W1 W2 W3]. rewrite Ee4, Ee3. by split.
    - done.
    - by apply (tc_wf _ _ _ T4).
    - by eapply (recovered_tables s s2 s3).
    - done.
    - done.
    - pose proof (tc_manifest _ _ _ T4) as TM. rewrite Ef3 in TM. destruct TM as (f4 & Ef4 & [Lc4 Ly4 Ln4 Lk4]).
      exists f4, edits. unfold file_ok in Lk4. split_and!; [done|auto| |done|congruence|done]. rewrite Lc4 in *. lia. }
  destruct (opened_inv _ _ _ _ _ _ _ Hr Hop) as [Hd Hv]. destruct (od_engine _ _ _ _ _ _ _ Hop) as [Hco Hpo _]. split_and!; [done|done|..].
  - exact (f_equal co_manifest Hco).
  - exact (f_equal co_closed Hco).
  - exact Hpo.
  - exact (f_equal co_applied Hco).
Qed.
End recovery.
