(* ===== verification/EngineReopen.v ===== *)
(** The loops of compaction and flushing end, because every compaction replaces four tables
    by one and every flush takes one memtable; and a disk that holds a version is always
    opened when no file operation fails. *)

From S2P Require Import Prelude Proto RaftLog RaftNode Storage Bytes WalRecords MapSM DiskLog DiskLogFacts Bloom SkipList SSTable SSTableFacts SSTableSpec Manifest.
From S2P Require Import ManifestFacts Heap Merge MergeFacts MergeSpec EngineState TableReads Engine EngineFrames EngineSteps EngineInv EngineCommit EngineOps EngineOpen.

(** Leaving out elements with distinct images. *)
Lemma filter_shrinks {A B} `{EqDecision B} (f : A -> B) (ns : list B) (l : list A) :
  NoDup ns -> (forall n, n ∈ ns -> n ∈ f <$> l) -> (length (filter (fun x => f x ∉ ns) l) + length ns <= length l)%nat.
Proof.
  revert l. induction ns as [|n ns IH]; intros l Hnd Hin; [simpl; rewrite Nat.add_0_r; apply length_filter|].
  apply NoDup_cons in Hnd as [Hn Hnd]. specialize (IH l Hnd (fun m Hm => Hin m (list_elem_of_further _ _ _ Hm))).
  pose proof (Hin n) as Hx. apply list_elem_of_fmap in Hx as (x & -> & Hx); [|by left].
  assert (filter (fun y => f y ∉ f x :: ns) l = filter (fun y => f y <> f x) (filter (fun y => f y ∉ ns) l)) as ->.
  { rewrite list_filter_filter. apply list_filter_iff. intros y. rewrite not_elem_of_cons. done. }
  assert (x ∈ filter (fun y => f y ∉ ns) l) as Hx' by (by apply list_elem_of_filter).
  pose proof (length_filter_lt (fun y => f y <> f x) (filter (fun y => f y ∉ ns) l) x Hx') as Hlt.
  simpl. specialize (Hlt ltac:(by intros ?)). lia.
Qed.

Lemma checkInputs_nodup tier inputs seen :
  checkInputs tier inputs seen = None -> NoDup (th_file <$> inputs) /\ forall t, t ∈ inputs -> th_file t ∉ seen.
Proof.
  revert seen. induction inputs as [|t inputs IH]; intros seen H; cbn [checkInputs] in H.
  { split; [constructor|by intros t ?%elem_of_nil]. }
  destruct (negb _); [done|]. case_bool_decide as Hs; [done|]. destruct (IH _ H) as [Hnd Hn]. split.
  - cbn [fmap list_fmap]. apply NoDup_cons. split; [|done]. intros (t' & E & Ht')%list_elem_of_fmap. apply (Hn t' Ht'). rewrite E. by left.
  - intros t' [->|Ht']%elem_of_cons; [done|]. specialize (Hn t' Ht'). set_solver.
Qed.

Section fuel.
Context (answers : nat -> answer) (marshal : VersionEdit -> result bytes) (W : history).

Lemma appendEdit_core edit s s' res :
  appendEdit answers marshal edit s = (s', res) -> core_of (st_engine s') = core_of (st_engine s).
Proof.
  intros H. mbind H s1 a E1. apply ask_engine in E1. mbind H s2 m E2. injection E2 as <- <-.
  destruct (st_manifest s1) as [f|]; [|mret H; congruence]. destruct (appendManifestEdit _ _ _ f) as [f1 ap1].
  mbind H s3 u E3. injection E3 as <- _. mbind H s4 u4 E4. mret H. destruct (ap_unresolved ap1); injection E4 as <- _; cbn; by rewrite <- E1.
Qed.

Lemma commitCompaction_tables edit output selected s s' :
  commitCompactionLocked answers marshal edit output selected s = (s', None) ->
  eg_tables (st_engine s') ≡ₚ filter (fun t => th_file t ∉ th_file <$> selected) (eg_tables (st_engine s)) ++ [output].
Proof.
  intros H. mbind H s0 m E0. injection E0 as <- <-. destruct (applyEdit _ _) as [next|m].
  - mbind H s1 res E1. pose proof (append_err answers marshal _ _ _ _ E1) as Herr. apply appendEdit_core in E1.
    destruct (ap_committed res) eqn:Ec; cbn [negb] in H.
    + mbind H s2 u E2. injection E2 as <- _. mbind H s3 c E3. apply reconcile_touch in E3. injection H as <- _.
      rewrite (f_equal co_tables (tc_core _ _ _ E3) : eg_tables (st_engine s3) = _). cbn [st_engine]. simpl.
      rewrite sortByFile_perm, (f_equal co_tables E1 : eg_tables (st_engine s1) = _). done.
    + destruct (Herr eq_refl) as [m Em]. destruct (ap_uncertain res).
      * mbind H s2 u E2. mbind H s3 c E3. mbind H s4 u4 E4. injection H as _ H. rewrite Em in H. by destruct c.
      * mbind H s2 d E2. apply discard_touch in E2 as [_ [m' ->]]. by injection H.
  - mbind H s1 d E1. apply discard_touch in E1 as [_ [m' ->]]. by injection H.
Qed.

(** A compaction replaces four tables by one. *)
Lemma compactInputs_shrinks tier inputs s s' :
  inv marshal W s -> eg_poisoned (st_engine s) = None -> (forall t, t ∈ inputs -> t ∈ eg_tables (st_engine s)) ->
  compactInputsLocked answers marshal tier inputs s = (s', None) ->
  (length (eg_tables (st_engine s')) + 3 <= length (eg_tables (st_engine s)))%nat.
Proof.
  intros I Hp Hin H. destruct (healthy marshal W s I Hp) as [D V]. unfold compactInputsLocked in H.
  destruct (Nat.eqb_spec (length inputs) compactionFanIn) as [El|]; cbn [negb] in H; [|done]. cbv zeta in H.
  rewrite <- (sortByFile_perm inputs) in El. setoid_rewrite <- (sortByFile_perm inputs) in Hin.
  revert Hin El H. generalize (sortByFile inputs). clear inputs. intros inputs Hin El H.
  destruct (checkInputs _ _ _) eqn:Ech; [done|]. apply checkInputs_nodup in Ech as [Hnd _].
  mbind H s0 tables E0. injection E0 as <- <-. destruct (negb _); [done|]. mbind H s1 output E1.
  eapply (buildCompactionOutput_ok answers marshal W) in E1 as [K _]; [|done|intros t Ht; apply (ve_tables _ _ V); by apply Hin].
  destruct output as [table|m]; [|done]. mbind H s2 flushed E2. injection E2 as <- <-.
  apply commitCompaction_tables in H. rewrite H, length_app. cbn [length].
  destruct (core_eqs _ _ (ko_core _ _ _ _ _ K)) as (_ & _ & _ & Et & _). rewrite Et.
  pose proof (filter_shrinks th_file (th_file <$> inputs) (eg_tables (st_engine s)) Hnd) as Hsh.
  rewrite length_fmap, El in Hsh. unfold compactionFanIn in Hsh. assert (forall n, n ∈ th_file <$> inputs -> n ∈ th_file <$> eg_tables (st_engine s)) as Hs.
  { intros n (t & -> & Ht)%list_elem_of_fmap. apply list_elem_of_fmap_2. by apply Hin. }
  specialize (Hsh Hs). lia.
Qed.

Lemma selected_some tables tier inputs : selectCompactionInputs tables = Some (tier, inputs) -> tables <> [].
Proof. by intros H ->. Qed.

Lemma compactLoop_enough n k s :
  inv marshal W s -> eg_poisoned (st_engine s) = None ->
  (length (eg_tables (st_engine s)) <= n)%nat -> (length (eg_tables (st_engine s)) <= k)%nat ->
  compactLoop answers marshal n s = compactLoop answers marshal k s.
Proof.
  revert k s. induction n as [|n IH]; intros k s I Hp Hn Hk.
  - assert (eg_tables (st_engine s) = []) as Et by (apply nil_length_inv; lia).
    destruct k; cbn [compactLoop]; unfold ebind, gets; by rewrite Et.
  - destruct k as [|k].
    + assert (eg_tables (st_engine s) = []) as Et by (apply nil_length_inv; lia). cbn [compactLoop]. unfold ebind, gets. by rewrite Et.
    + cbn [compactLoop]. unfold ebind at 1 3, gets. destruct (selectCompactionInputs _) as [[tier inputs]|] eqn:Es; [|done].
      destruct (tier =? max_u32); [done|]. unfold ebind. destruct (compactInputsLocked _ _ _ _ _) as [s1 [m|]] eqn:E1; [done|].
      assert (forall t, t ∈ inputs -> t ∈ eg_tables (st_engine s)) as Hin by (intros t; by eapply selected_tables).
      pose proof (compactInputs_shrinks _ _ _ _ I Hp Hin E1). apply (compactInputs_ok answers marshal W) in E1 as (I1 & _ & P1); [|done..].
      apply IH; [done|by apply P1|lia|lia].
Qed.

Lemma flushLoop_enough n k s :
  inv marshal W s -> eg_poisoned (st_engine s) = None ->
  (length (eg_immutables (st_engine s)) <= n)%nat -> (length (eg_immutables (st_engine s)) <= k)%nat ->
  flushLoop answers marshal n s = flushLoop answers marshal k s.
Proof.
  revert k s. induction n as [|n IH]; intros k s I Hp Hn Hk.
  - assert (eg_immutables (st_engine s) = []) as Et by (apply nil_length_inv; lia).
    destruct k; cbn [flushLoop]; unfold ebind, gets; by rewrite Et.
  - destruct k as [|k].
    + assert (eg_immutables (st_engine s) = []) as Et by (apply nil_length_inv; lia). cbn [flushLoop]. unfold ebind, gets. by rewrite Et.
    + cbn [flushLoop]. unfold ebind at 1 3, gets. destruct (eg_immutables (st_engine s)) as [|im rest] eqn:Ei; [done|].
      unfold ebind. destruct (flushOldestLocked _ _ _) as [s1 [m|]] eqn:E1; [done|].
      apply (flushOldest_ok answers marshal W) in E1 as [I1 _ _ _ _ Hd]; [|done..]. destruct (Hd eq_refl) as [P1 Ei1].
      rewrite Ei in Ei1. change (drop 1 (im :: rest)) with rest in Ei1. cbn [length] in Hn, Hk. apply IH; [done|done|rewrite Ei1; lia|rewrite Ei1; lia].
Qed.
End fuel.

(** The answers of a file system without faults. *)
Definition good_answer : answer := mkAnswer None false max_i64 false never fs_good.
Definition faultless : nat -> answer := fun _ => good_answer.

Lemma openTable_total metadata maxSequence s f es :
  st_tables s !! fm_file metadata = Some f -> built es (content f) -> metadata_of_table metadata es ->
  (forall e, e ∈ es -> te_Seq e <= maxSequence) ->
  exists s' table, openTable faultless metadata maxSequence s = (s', Ok table).
Proof.
  intros Hf Hb (Hc & Hmin & Hmax) Hseq. destruct (built_reader es _ Hb) as (rd & Eo & [[Rc _] [Rmin Rmax] Ra _]).
  unfold openTable, openTableOwned, fs_Stat, fs_Open, file_reader, ebind, ask, get_tables, eret. cbn [st_tables faultless good_answer an_err an_isDir an_readFails].
  rewrite Hf. rewrite (proj2 (Z.ltb_ge _ _)) by lia. cbn [orb st_tables]. rewrite Hf. cbn [st_tables]. rewrite Hf.
  change (readAt never (content f)) with (solid (content f)). rewrite Eo, Rc, Hc, Rmin, Rmax, Hmin, Hmax, Z.eqb_refl, !bool_decide_true by done.
  cbn [negb orb st_tables]. rewrite Hf. change (readAt never (content f)) with (solid (content f)). rewrite Ra. assert (tooNew maxSequence es = false) as ->; [|by eexists _, _].
  apply not_true_iff_false. unfold tooNew. rewrite existsb_exists. intros (e & He & Hlt%Z.ltb_lt). apply list_elem_of_In, Hseq in He. lia.
Qed.

Lemma openTablesLoop_total files s m :
  eg_manifest (st_engine s) = m ->
  (forall md, md ∈ files -> exists f es, st_tables s !! fm_file md = Some f /\ built es (content f) /\ metadata_of_table md es /\
     forall e, e ∈ es -> te_Seq e <= mf_flushedIndex m) ->
  exists s', openTablesLoop faultless files s = (s', None).
Proof.
  revert s. induction files as [|md files IH]; intros s Em Hf; cbn [openTablesLoop]; [by eexists|].
  destruct (Hf md) as (f & es & Hfm & Hb & Hmd & Hes); [by left|]. unfold ebind at 1, gets. rewrite Em.
  destruct (openTable_total md _ s f es Hfm Hb Hmd Hes) as (s1 & table & E). unfold ebind at 1. rewrite E. unfold ebind, modify.
  apply openTable_ok in E as [Q _]. destruct (Q (fun _ => False)) as (T & Et & _).
  destruct (core_eqs _ _ (tc_core _ _ _ T)) as (_ & _ & Em1 & _).
  apply IH; cbn [st_engine st_tables set_tables eg_manifest]; [congruence|]. rewrite Et. intros md' ?. apply Hf. by right.
Qed.

Lemma syncTablesLoop_total tables s : exists s', syncTablesLoop faultless tables s = (s', None) /\ st_manifest s' = st_manifest s.
Proof.
  revert s. induction tables as [|t tables IH]; intros s; cbn [syncTablesLoop]; [by eexists|].
  unfold file_Sync, ebind, ask, get_tables, put_tables, eret. cbn [faultless good_answer an_err st_engine st_tables st_manifest st_clock].
  match goal with |- context [syncTablesLoop _ _ ?s1] => destruct (IH s1) as (s' & E & Em) end. eauto.
Qed.

Lemma syncRecoveredVersion_total s f : st_manifest s = Some f -> exists s', syncRecoveredVersion faultless s = (s', None).
Proof.
  intros Hm. unfold syncRecoveredVersion, ebind at 1, gets. destruct (syncTablesLoop_total (eg_tables (st_engine s)) s) as (s1 & E & Em).
  unfold ebind at 1. rewrite E. unfold fs_SyncDir, ebind, ask, get_tables, put_tables, get_manifest, put_manifest, eret.
  cbn [faultless good_answer an_err st_engine st_tables st_manifest st_clock an_manifest]. rewrite Em, Hm. cbn. by eexists.
Qed.

Lemma removeOrphansLoop_total names removed s :
  NoDup names -> (forall name, name ∈ names -> name = "MANIFEST" \/ is_Some (st_tables s !! name)) ->
  exists s' b, removeOrphansLoop faultless names removed s = (s', Ok b).
Proof.
  revert removed s. induction names as [|name names IH]; intros removed s Hnd Hin; cbn [removeOrphansLoop]; [by eexists _, _|].
  apply NoDup_cons in Hnd as [Hn Hnd]. unfold ebind at 1, gets. destruct (_ || _) eqn:Eg.
  { apply IH; [done|]. intros n ?. apply Hin. by right. }
  destruct (Hin name) as [->|[f Hf]]; [by left|done|].
  unfold fs_Stat, fs_Remove, ebind, ask, get_tables, put_tables, eret. cbn [faultless good_answer an_err an_isDir st_engine st_tables st_manifest st_clock].
  rewrite Hf. cbn [st_engine st_tables st_manifest st_clock]. rewrite Hf. cbn [st_engine st_tables st_manifest st_clock].
  apply IH; [done|]. cbn [st_tables]. intros n Hn'. destruct (Hin n) as [?|Hs]; [by right|by left|]. right.
  rewrite lookup_delete_ne; [done|]. by intros ->.
Qed.

Lemma removeOrphans_total s : st_tables s !! "MANIFEST" = None -> exists s', removeOrphans faultless s = (s', None).
Proof.
  intros Hno. unfold removeOrphans, fs_List, ebind, ask, get_tables, get_manifest, eret. cbn [faultless good_answer an_err st_engine st_tables st_manifest st_clock].
  set (names := sort_by _ _). set (s1 := mkStore _ _ _ _).
  destruct (removeOrphansLoop_total names false s1) as (s2 & b & E).
  - unfold names. rewrite sort_by_perm. apply NoDup_app. split_and!; [destruct (st_manifest s); [apply NoDup_singleton|constructor]| |apply NoDup_fst_map_to_list].
    intros n Hn Hin. destruct (st_manifest s); [|by apply elem_of_nil in Hn]. apply list_elem_of_singleton in Hn as ->.
    apply list_elem_of_fmap in Hin as ([n g] & En & Hin%elem_of_map_to_list). simpl in En. subst n. congruence.
  - intros n. unfold names. rewrite sort_by_perm, elem_of_app. intros [Hn|Hn].
    + left. destruct (st_manifest s); [by apply list_elem_of_singleton in Hn|by apply elem_of_nil in Hn].
    + right. apply list_elem_of_fmap in Hn as ([n' f] & -> & Hin%elem_of_map_to_list). eauto.
  - rewrite E. destruct b; [|by eexists]. by eexists.
Qed.

Section reopen.
Context (marshal : VersionEdit -> result bytes) (unmarshal : bytes -> option VersionEdit).
Context (unmarshal_marshal : forall e b, edit_fits e -> marshal e = Ok b -> unmarshal b = Some e).

Lemma loadManifest_total W s m :
  recoverable marshal W s m -> (forall f, st_manifest s = Some f -> Z.of_nat (length (content f)) <= max_i64) ->
  exists mf', loadManifest unmarshal fs_good (st_manifest s) = (mf', Ok m).
Proof using unmarshal_marshal.
  intros Hr Hlen. pose proof (re_manifest marshal W s m Hr) as Hm. unfold loadManifest.
  cbn [fs_good fs_stat fs_isDir fs_open fs_read fs_closeRead]. destruct (st_manifest s) as [f|]; [|subst m; by eexists].
  destruct Hm as (edits & t & Hs & Hc & Ht & Ha). specialize (Hlen f eq_refl). unfold checkedManifestInt.
  rewrite (proj2 (Z.ltb_ge _ _)) by done. rewrite Hc, (replayManifestBytes_frames marshal unmarshal unmarshal_marshal edits t m Hs Ht Ha).
  destruct (negb _); by eexists.
Qed.

(** A disk that holds a version is opened. *)
Lemma open_total W options r s m :
  recoverable marshal W s m -> (forall f, st_manifest s = Some f -> Z.of_nat (length (content f)) <= max_i64) ->
  st_tables s !! "MANIFEST" = None -> op_Rand options = Some r -> 0 <= op_FlushThreshold options ->
  exists s', engine_Open faultless unmarshal options s = (s', None).
Proof using unmarshal_marshal.
  intros Hr Hlen Hno Hrand Hth. unfold engine_Open. rewrite Hrand. cbv zeta.
  set (threshold := if op_FlushThreshold options =? 0 then _ else _).
  assert (0 <= threshold) by (unfold threshold, DefaultFlushThreshold; destruct (_ =? 0); lia). rewrite (proj2 (Z.ltb_ge _ _)) by done.
  unfold ebind at 1 2, ask, get_manifest. cbn [faultless good_answer an_manifest st_manifest].
  destruct (loadManifest_total W s m Hr Hlen) as (mf' & El). rewrite El.
  destruct (loadManifest_ok marshal unmarshal unmarshal_marshal W _ s m mf' m Hr El) as (_ & f & edits & -> & _).
  unfold ebind at 1 2, put_manifest, modify. cbn [st_engine st_tables st_manifest st_clock]. set (s1 := mkStore _ _ _ _).
  assert (exists s2, openReferencedTables faultless s1 = (s2, None)) as (s2 & E2).
  { unfold openReferencedTables, ebind, gets. apply (openTablesLoop_total _ s1 m); [done|]. intros md Hmd%sortedManifestFiles_in; [|apply Hr].
    destruct (re_tables _ _ _ _ Hr _ _ Hmd) as (g & es & Hg & Hb & Hmt & Hes). exists g, es. split_and!; try done. intros e He. by apply Hes. }
  unfold ebind at 1. rewrite E2. unfold openReferencedTables in E2. mbind E2 s3 fl E3. injection E3 as <- <-.
  apply (openTablesLoop_ok faultless _ _ _ (openedEngine options r threshold m) []) in E2 as (Et2 & Em2 & _); [|by split|].
  2:{ cbn [st_tables s1]. intros md Hmd%sortedManifestFiles_in; [|apply Hr].
      destruct (re_tables _ _ _ _ Hr _ _ Hmd) as (g & es & Hg & Hb & _). by exists g, es. }
  destruct (syncRecoveredVersion_total s2 f Em2) as (s3 & E3). unfold ebind at 1. rewrite E3.
  assert (st_tables s3 !! "MANIFEST" = None) as Hno3.
  { destruct (syncRecoveredVersion_ok faultless s2 s3 f E3) as (T & _); [rewrite Et2; apply Hr|done|].
    apply (tc_absent _ _ _ T "MANIFEST" (fun H => H)). cbn [st_tables]. by rewrite Et2. }
  destruct (removeOrphans_total s3 Hno3) as (s4 & E4). unfold ebind at 1. rewrite E4. by eexists.
Qed.
End reopen.
