(* ===== verification/Client.v ===== *)
(** The commands' own logic: the peers and the engine that cmd/miniquorumd and cmd/mqctl read
    from their flags, the command that mqctl builds, and its loop of attempts over the
    cluster.

    What an RPC answers is a parameter: the reply to the [k]-th attempt.  The random client
    identifier is an argument. *)

From Stdlib Require Import Ascii.
From stdpp Require Import pretty sorting.
From S2P Require Import Prelude Proto RaftLog RaftNode Storage Server Bytes WalRecords MapSM KVServer DiskLog DiskLogFacts EngineState Engine CheckerFacts.

(** * Flags *)

(** [strings.Split(s, ",")]. *)
Fixpoint splitComma (s : string) : list string :=
  match s with
  | EmptyString => [""]
  | String c s' =>
      if Ascii.eqb c ","%char then "" :: splitComma s'
      else match splitComma s' with [] => [String c ""] | x :: xs => String c x :: xs end
  end.

(** [strings.SplitN(s, "=", 2)]; [None] when there is one part. *)
Fixpoint splitEqual (s : string) : option (string * string) :=
  match s with
  | EmptyString => None
  | String c s' =>
      if Ascii.eqb c "="%char then Some ("", s')
      else match splitEqual s' with None => None | Some (a, b) => Some (String c a, b) end
  end.

(** The body of the loop of [parsePeers]. *)
Definition parsePeer (item : string) : result (Z * string) :=
  match splitEqual item with
  | None => Err "want id=address"
  | Some (id, addr) =>
      if bool_decide (addr = "") then Err "want id=address"
      else match parseUint id with
           | None => Err "invalid peer ID"
           | Some n => if n =? 0 then Err "invalid peer ID" else Ok (n, addr)
           end
  end.

Fixpoint parseItems (items : list string) (peers : gmap Z string) : result (gmap Z string) :=
  match items with
  | [] => Ok peers
  | item :: items' =>
      match parsePeer item with
      | Err e => Err e
      | Ok (id, addr) => parseItems items' (<[id := addr]> peers)
      end
  end.

Definition parsePeers (value : string) : result (gmap Z string) :=
  if bool_decide (value = "") then Ok ∅ else parseItems (splitComma value) ∅.

(** [peerIDs], and the order that mqctl's [parsePeers] returns. *)
Definition peerIDs (peers : gmap Z string) : list Z := sort_by Z.leb (map_to_list peers).*1.

Definition mqctlPeers (value : string) : result (gmap Z string * list Z) :=
  match parsePeers value with
  | Err e => Err e
  | Ok peers => Ok (peers, if bool_decide (value = "") then [] else peerIDs peers)
  end.

Definition parseEngine (value : string) : result string :=
  if bool_decide (value = "map") || bool_decide (value = "lsm") then Ok value else Err "want map or lsm".

(** * Commands *)

(** [randomClientID], of the eight bytes read. *)
Definition clientIDOf (id : Z) : Z := if negb (id =? 0) then id else 1.

Definition buildCommand (op : string) (args : list bytes) (clientID : Z) : result Command :=
  if bool_decide (op = "put") then
    match args with [key; value] => Ok (mkCommand clientID 1 Op_PUT key value) | _ => Err "put requires <key> <value>" end
  else if bool_decide (op = "get") then
    match args with [key] => Ok (mkCommand clientID 1 Op_GET key []) | _ => Err "get requires <key>" end
  else if bool_decide (op = "delete") then
    match args with [key] => Ok (mkCommand clientID 1 Op_DELETE key []) | _ => Err "delete requires <key>" end
  else Err "unknown command".

(** * Attempts *)

Definition maxAttempts : nat := 50.

Section execute.
Context (tryExecute : nat -> string -> Command -> result ExecuteResponse) (addrs : list string) (cmd : Command).

Definition addrAt (next : nat) : string := default "" (addrs !! next).

(** The loop from attempt [k] with [n] attempts left; also the addresses that it calls. *)
Fixpoint executeLoop (n k next : nat) (target : string) (lastErr : error) : list string * result ExecuteResponse :=
  match n with
  | O => ([], Err ("exhausted attempts, last error: " +:+ lastErr))
  | S n' =>
      let after := Nat.modulo (next + 1) (length addrs) in
      let '(calls, r) :=
        match tryExecute k target cmd with
        | Err e => executeLoop n' (S k) after (addrAt after) e
        | Ok resp =>
            match resp_NotLeader resp with
            | Some hint =>
                if bool_decide (LeaderAddr hint = "") then executeLoop n' (S k) after (addrAt after) "not leader"
                else executeLoop n' (S k) next (LeaderAddr hint) "not leader"
            | None => ([], Ok resp)
            end
        end in
      (target :: calls, r)
  end.
End execute.

(** [execute]; an empty cluster, which [main] refuses, is an index out of range. *)
Definition mqctlExecute (tryExecute : nat -> string -> Command -> result ExecuteResponse) (peers : gmap Z string) (order : list Z) (cmd : Command)
    : list string * result ExecuteResponse :=
  let addrs := (fun id => default "" (peers !! id)) <$> order in
  match addrs with
  | [] => ([], Err "panic: index out of range")
  | target :: _ => executeLoop tryExecute addrs cmd maxAttempts 0 0 target ""
  end.

(** * Peers *)

(** The form of an entry of the flag. *)
Definition showPeer (p : Z * string) : string := pretty (Z.to_N p.1) +:+ "=" +:+ p.2.

Fixpoint joinComma (items : list string) : string :=
  match items with [] => "" | [x] => x | x :: xs => x +:+ "," +:+ joinComma xs end.

Fixpoint no_char (c : ascii) (s : string) : bool :=
  match s with EmptyString => true | String d s' => negb (Ascii.eqb d c) && no_char c s' end.

Lemma splitComma_plain s : no_char "," s = true -> splitComma s = [s].
Proof.
  induction s as [|c s IH]; [done|]. cbn [no_char splitComma]. rewrite andb_true_iff, negb_true_iff. intros [-> Hs]. by rewrite (IH Hs).
Qed.

Lemma splitComma_app s t : no_char "," s = true -> splitComma (s +:+ "," +:+ t) = s :: splitComma t.
Proof.
  induction s as [|c s IH]; [done|]. cbn [no_char]. rewrite andb_true_iff, negb_true_iff. intros [Hc Hs].
  change (String c s +:+ "," +:+ t) with (String c (s +:+ "," +:+ t)). cbn [splitComma]. by rewrite Hc, (IH Hs).
Qed.

Lemma splitComma_join items : items <> [] -> Forall (fun s => no_char "," s = true) items -> splitComma (joinComma items) = items.
Proof.
  intros Hne Hf. induction Hf as [|x items Hx _ IH]; [done|]. destruct items as [|y items]; [by apply splitComma_plain|].
  change (joinComma (x :: y :: items)) with (x +:+ "," +:+ joinComma (y :: items)). rewrite splitComma_app by done. by rewrite IH.
Qed.

Lemma splitEqual_app a b : no_char "=" a = true -> splitEqual (a +:+ "=" +:+ b) = Some (a, b).
Proof.
  induction a as [|c a IH]; [done|]. cbn [no_char]. rewrite andb_true_iff, negb_true_iff. intros [Hc Ha].
  change (String c a +:+ "=" +:+ b) with (String c (a +:+ "=" +:+ b)). cbn [splitEqual]. by rewrite Hc, (IH Ha).
Qed.

Lemma no_char_app c s t : no_char c (s +:+ t) = no_char c s && no_char c t.
Proof. induction s as [|d s IH]; [done|]. change (String d s +:+ t) with (String d (s +:+ t)). cbn [no_char]. by rewrite IH, andb_assoc. Qed.

Lemma digits_plain c s : is_digit c = false -> all_digits s = true -> no_char c s = true.
Proof.
  intros Hc. induction s as [|d s IH]; [done|]. cbn [all_digits no_char]. rewrite !andb_true_iff. intros [Hd Hs]. split; [|by apply IH].
  apply negb_true_iff. destruct (Ascii.eqb_spec d c) as [->|]; [congruence|done].
Qed.

Lemma pretty_digits n : 0 < n <= max_u64 -> all_digits (pretty (Z.to_N n)) = true /\ parseUint (pretty (Z.to_N n)) = Some n.
Proof.
  intros Hn. set (d := pretty (Z.to_N n)). assert (digits_value 0 d = n /\ all_digits d = true /\ d <> "") as (Ev & Ed & Ene).
  { unfold d, pretty, pretty_N. case_decide; [lia|]. destruct (pretty_value (Z.to_N n) "") as [E1 E2]. rewrite E1, E2. simpl. split_and!; [lia|done|]. intros E. rewrite E in E1. simpl in E1. lia. }
  split; [done|]. unfold parseUint. rewrite Ed, bool_decide_false by done. cbn [orb negb]. cbv zeta. rewrite Ev. by rewrite (proj2 (Z.ltb_ge _ _)) by lia.
Qed.

(** A peer that an entry can name. *)
Definition peer_ok (p : Z * string) : Prop := 0 < p.1 <= max_u64 /\ p.2 <> "" /\ no_char "," p.2 = true.

Lemma parsePeer_show p : peer_ok p -> parsePeer (showPeer p) = Ok p /\ no_char "," (showPeer p) = true.
Proof.
  intros (Hid & Hne & Hc). destruct (pretty_digits p.1 Hid) as [Hd Hp]. unfold parsePeer, showPeer. rewrite splitEqual_app by (by apply digits_plain). split.
  - rewrite bool_decide_false by done. rewrite Hp. rewrite (proj2 (Z.eqb_neq _ _)) by lia. by destruct p.
  - rewrite !no_char_app, Hc, (digits_plain "," _ eq_refl Hd). done.
Qed.

Lemma parseItems_show ps peers : Forall peer_ok ps -> parseItems (showPeer <$> ps) peers = Ok (foldl (fun m p => <[p.1 := p.2]> m) peers ps).
Proof.
  intros Hps. revert peers. induction Hps as [|p ps Hp _ IH]; intros peers; [done|]. cbn [fmap list_fmap parseItems foldl]. rewrite (proj1 (parsePeer_show p Hp)). destruct p. apply IH.
Qed.

Lemma joinComma_empty items : items <> [] -> Forall (fun s => s <> "") items -> joinComma items <> "".
Proof. intros Hne Hf. destruct Hf as [|x items Hx _]; [done|]. destruct items; [done|]. cbn. by destruct x. Qed.

Lemma NoDup_sorted_ids (peers : gmap Z string) : StronglySorted Z.le (peerIDs peers) /\ NoDup (peerIDs peers) /\ forall id, id ∈ peerIDs peers <-> is_Some (peers !! id).
Proof.
  unfold peerIDs. split_and!.
  - apply sort_Z_sorted.
  - rewrite sort_by_perm. apply NoDup_fst_map_to_list.
  - intros id. rewrite sort_by_perm, list_elem_of_fmap. split.
    + intros ([i a] & -> & Hin%elem_of_map_to_list). by eexists.
    + intros [a Ha]. exists (id, a). split; [done|]. by apply elem_of_map_to_list.
Qed.

Lemma foldl_insert_some (ps : list (Z * string)) (m : gmap Z string) id : is_Some (foldl (fun m p => <[p.1 := p.2]> m) m ps !! id) <-> is_Some (m !! id) \/ id ∈ ps.*1.
Proof.
  revert m. induction ps as [|p ps IH]; intros m; cbn [foldl fmap list_fmap]; [set_solver|]. rewrite IH, elem_of_cons.
  destruct (decide (p.1 = id)) as [<-|Hne]; [rewrite lookup_insert_eq|rewrite lookup_insert_ne by done]; naive_solver.
Qed.

Lemma foldl_peers (ps : list (Z * string)) id : is_Some (foldl (fun m p => <[p.1 := p.2]> m) (∅ : gmap Z string) ps !! id) <-> id ∈ ps.*1.
Proof. rewrite foldl_insert_some, lookup_empty, is_Some_alt. naive_solver. Qed.

(** The flag of the peers round-trips: from the comma-separated [id=address] entries of a non-empty
    list of peers, [parsePeers] returns the map in which a later entry of an identifier
    overrides an earlier one, and the order of the client lists exactly the identifiers of
    the map, each once and increasing. *)
Theorem parsePeers_roundtrip ps :
  ps <> [] -> Forall peer_ok ps ->
  exists peers order,
    mqctlPeers (joinComma (showPeer <$> ps)) = Ok (peers, order) /\ peers = foldl (fun m p => <[p.1 := p.2]> m) ∅ ps /\
    StronglySorted Z.le order /\ NoDup order /\ forall id, id ∈ order <-> id ∈ ps.*1.
Proof.
  intros Hne Hps. assert (joinComma (showPeer <$> ps) <> "") as Hj.
  { apply joinComma_empty; [by destruct ps|]. apply Forall_fmap. eapply Forall_impl; [exact Hps|]. intros p _. unfold showPeer. cbn. by destruct (pretty (Z.to_N p.1)). }
  unfold mqctlPeers, parsePeers. rewrite !bool_decide_false by done.
  rewrite splitComma_join; [|by destruct ps|apply Forall_fmap; eapply Forall_impl; [exact Hps|]; intros p Hp; apply (parsePeer_show p Hp)].
  rewrite parseItems_show by done. eexists _, _. split; [done|]. split; [done|]. destruct (NoDup_sorted_ids (foldl (fun m p => <[p.1 := p.2]> m) ∅ ps)) as (Hs & Hn & Hin).
  split_and!; [done|done|]. intros id. rewrite Hin. apply foldl_peers.
Qed.

Lemma parsePeers_roundtrip_witness :
  exists peers order, mqctlPeers "2=b:1,1=a:1,2=c:1" = Ok (peers, order) /\ peers = foldl (fun m p => <[p.1 := p.2]> m) ∅ [(2, "b:1"); (1, "a:1"); (2, "c:1")] /\
    StronglySorted Z.le order /\ NoDup order /\ forall id, id ∈ order <-> id ∈ [2; 1; 2].
Proof. apply (parsePeers_roundtrip [(2, "b:1"); (1, "a:1"); (2, "c:1")]); [done|]. repeat constructor; cbn; discriminate. Defined.

(** * Attempts *)

(** A reply that ends the loop. *)
Definition answers (r : result ExecuteResponse) : option ExecuteResponse :=
  match r with Ok resp => match resp_NotLeader resp with None => Some resp | Some _ => None end | Err _ => None end.

(** The address that a refused attempt hints at. *)
Definition hinted (r : result ExecuteResponse) : option string :=
  match r with
  | Ok resp => match resp_NotLeader resp with Some h => if bool_decide (LeaderAddr h = "") then None else Some (LeaderAddr h) | None => None end
  | Err _ => None
  end.

Section attempts.
Context (tryExecute : nat -> string -> Command -> result ExecuteResponse) (addrs : list string) (cmd : Command).

Definition followed (next : nat) (r : result ExecuteResponse) : nat * string :=
  match hinted r with
  | Some a => (next, a)
  | None => let after := Nat.modulo (next + 1) (length addrs) in (after, addrAt addrs after)
  end.

Lemma executeLoop_S n k next target lastErr :
  exists e,
    executeLoop tryExecute addrs cmd (S n) k next target lastErr =
    match answers (tryExecute k target cmd) with
    | Some resp => ([target], Ok resp)
    | None =>
        let '(next', target') := followed next (tryExecute k target cmd) in
        let '(calls, r) := executeLoop tryExecute addrs cmd n (S k) next' target' e in (target :: calls, r)
    end.
Proof.
  cbn [executeLoop]. unfold answers, followed, hinted. destruct (tryExecute k target cmd) as [resp|e]; [|by exists e].
  destruct (resp_NotLeader resp) as [h|]; [|by exists ""]. exists "not leader". by case_bool_decide.
Qed.

(** The calls of a loop: each refused but the last one of a success, every target the
    first one, a configured address or the hint of the attempt before it. *)
Lemma executeLoop_calls n k next target lastErr calls r :
  addrs <> [] -> (next < length addrs)%nat ->
  executeLoop tryExecute addrs cmd n k next target lastErr = (calls, r) ->
  (length calls <= n)%nat /\
  (forall i a, calls !! i = Some a ->
    (i = 0%nat /\ a = target) \/ a ∈ addrs \/ (exists j b, i = S j /\ calls !! j = Some b /\ hinted (tryExecute (k + j)%nat b cmd) = Some a)) /\
  (forall i a, calls !! i = Some a -> (S i < length calls)%nat -> answers (tryExecute (k + i)%nat a cmd) = None) /\
  match r with
  | Ok resp => exists i a, length calls = S i /\ calls !! i = Some a /\ answers (tryExecute (k + i)%nat a cmd) = Some resp
  | Err _ => length calls = n /\ forall i a, calls !! i = Some a -> answers (tryExecute (k + i)%nat a cmd) = None
  end.
Proof.
  intros Hne. revert k next target lastErr calls r. induction n as [|n IH]; intros k next target lastErr calls r Hnext.
  { cbn. intros [= <- <-]. split_and!; try done; intros i a; by rewrite lookup_nil. }
  destruct (executeLoop_S n k next target lastErr) as [e ->]. destruct (answers _) as [resp|] eqn:Ea.
  { intros [= <- <-]. split_and!; cbn; [lia| | |].
    - intros [|i] a; cbn; [intros [= <-]; by left|done].
    - intros [|i] a; cbn; [lia|done].
    - exists 0%nat, target. by rewrite Nat.add_0_r. }
  destruct (followed next _) as [next' target'] eqn:Ef. destruct (executeLoop _ _ _ n _ _ _ _) as [calls' r'] eqn:El. intros [= <- <-].
  assert (Hlen : (0 < length addrs)%nat) by (destruct addrs; cbn in *; lia).
  assert ((next' < length addrs)%nat /\ (target' ∈ addrs \/ hinted (tryExecute k target cmd) = Some target')) as [Hn' Ht'].
  { unfold followed in Ef. destruct (hinted _) as [a|]; injection Ef as <- <-; [by auto|]. pose proof (Nat.mod_upper_bound (next + 1) (length addrs)) as Hm.
    split; [lia|]. left. unfold addrAt. destruct (lookup_lt_is_Some_2 addrs ((next + 1) mod length addrs)) as [a Ha]; [lia|]. rewrite Ha. by eapply list_elem_of_lookup_2. }
  destruct (IH _ _ _ _ _ _ Hn' El) as (H1 & H2 & H3 & H4).
  assert (forall i, (k + S i = S k + i)%nat) as Hk by lia. split_and!; cbn [length]; [lia| | |].
  - intros [|i] a; cbn [lookup list_lookup]; [intros [= <-]; by left|]. intros Hi. right. destruct (H2 i a Hi) as [[-> ->]|[Hin|(j & b & -> & Hb & Hh)]]; [|by left|].
    + destruct Ht' as [Hin|Hh]; [by left|]. right. exists 0%nat, target. by rewrite Nat.add_0_r.
    + right. exists (S j), b. by rewrite Hk.
  - intros [|i] a; cbn [lookup list_lookup]; [intros [= <-] _; by rewrite Nat.add_0_r|]. intros Hi Hlt. rewrite Hk. apply H3; [done|lia].
  - destruct r' as [resp|e'].
    + destruct H4 as (i & a & -> & Ha & Hr). exists (S i), a. by rewrite Hk.
    + destruct H4 as [-> H4]. split; [done|]. intros [|i] a; cbn [lookup list_lookup]; [intros [= <-]; by rewrite Nat.add_0_r|]. rewrite Hk. apply H4.
Qed.

Lemma executeLoop_hit n k next target lastErr resp :
  answers (tryExecute k target cmd) = Some resp -> executeLoop tryExecute addrs cmd (S n) k next target lastErr = ([target], Ok resp).
Proof. intros E. destruct (executeLoop_S n k next target lastErr) as [e ->]. by rewrite E. Qed.

(** A loop in which the [d]-th next address is that of a leader ends by its attempt at it. *)
Lemma executeLoop_leader n k next lastErr leader d :
  (next < length addrs)%nat -> addrs !! Nat.modulo (next + d) (length addrs) = Some leader -> (d < n)%nat ->
  (forall k, is_Some (answers (tryExecute k leader cmd))) ->
  (forall k a h, hinted (tryExecute k a cmd) = Some h -> h = leader) ->
  exists calls resp, executeLoop tryExecute addrs cmd n k next (addrAt addrs next) lastErr = (calls, Ok resp) /\ (length calls <= d + 1)%nat.
Proof.
  intros Hnext Hd Hn Hl Hh. revert n k next lastErr Hnext Hd Hn. induction d as [|d IH]; intros [|n] k next lastErr Hnext Hd Hn; try lia.
  - rewrite Nat.add_0_r, Nat.mod_small in Hd by done. unfold addrAt. rewrite Hd. cbn [default]. destruct (Hl k) as [resp Hr].
    rewrite (executeLoop_hit _ _ _ _ _ _ Hr). by exists [leader], resp.
  - destruct (executeLoop_S n k next (addrAt addrs next) lastErr) as [e ->]. destruct (answers _) as [resp|]; [eexists _, resp; split; [done|cbn; lia]|].
    unfold followed. destruct (hinted _) as [h|] eqn:Eh.
    + apply Hh in Eh as ->. destruct n as [|n]; [lia|]. destruct (Hl (S k)) as [resp Hr]. rewrite (executeLoop_hit _ _ _ _ _ _ Hr). eexists _, resp. split; [done|cbn; lia].
    + assert (((next + 1) mod length addrs < length addrs)%nat) as Ha by (apply Nat.mod_upper_bound; lia).
      destruct (IH n (S k) ((next + 1) mod length addrs)%nat e) as (calls & resp & -> & Hc); [done| |lia|eexists _, resp; split; [done|cbn; lia]].
      rewrite Nat.Div0.add_mod_idemp_l. by replace (next + 1 + d)%nat with (next + S d)%nat by lia.
Qed.
End attempts.

(** C24. A client that can reach the leader is served: with at most [maxAttempts] configured
    peers one of which answers, [mqctlExecute] succeeds within one attempt per peer, whatever
    the others do: fail, refuse without a hint, or hint at the leader. *)
Theorem execute_reaches_leader tryExecute peers order cmd i leader :
  (length order <= maxAttempts)%nat -> ((fun id => default "" (peers !! id)) <$> order) !! i = Some leader ->
  (forall k, is_Some (answers (tryExecute k leader cmd))) ->
  (forall k a h, hinted (tryExecute k a cmd) = Some h -> h = leader) ->
  exists calls resp, mqctlExecute tryExecute peers order cmd = (calls, Ok resp) /\ (length calls <= i + 1)%nat.
Proof.
  intros Hlen Hi Hl Hh. pose proof (lookup_lt_Some _ _ _ Hi) as Hlt. rewrite length_fmap in Hlt. unfold mqctlExecute.
  destruct ((fun id => default "" (peers !! id)) <$> order) as [|a addrs] eqn:E; [done|].
  assert (length (a :: addrs) = length order) as El by (by rewrite <- E, length_fmap).
  apply (executeLoop_leader tryExecute (a :: addrs) cmd maxAttempts 0 0 "" leader i); [cbn; lia| |unfold maxAttempts in *; lia|done|done].
  rewrite Nat.mod_small by lia. done.
Qed.

(** What an invocation did, on every branch: it calls between one and [maxAttempts] times,
    always with its command, each time a configured address or the one that the reply
    before hinted at; every call but the last was refused; it succeeds with the reply of
    its last call, and it fails only when all [maxAttempts] calls were refused. *)
Theorem execute_outcome tryExecute peers order cmd calls r :
  order <> [] -> mqctlExecute tryExecute peers order cmd = (calls, r) ->
  (1 <= length calls <= maxAttempts)%nat /\
  (forall i a, calls !! i = Some a ->
    a ∈ ((fun id => default "" (peers !! id)) <$> order) \/ exists j b, i = S j /\ calls !! j = Some b /\ hinted (tryExecute j b cmd) = Some a) /\
  (forall i a, calls !! i = Some a -> (S i < length calls)%nat -> answers (tryExecute i a cmd) = None) /\
  match r with
  | Ok resp => exists i a, length calls = S i /\ calls !! i = Some a /\ answers (tryExecute i a cmd) = Some resp
  | Err _ => length calls = maxAttempts /\ forall i a, calls !! i = Some a -> answers (tryExecute i a cmd) = None
  end.
Proof.
  intros Hne. unfold mqctlExecute. destruct ((fun id => default "" (peers !! id)) <$> order) as [|a addrs] eqn:E; [by destruct order|].
  intros El. destruct (executeLoop_calls tryExecute (a :: addrs) cmd maxAttempts 0 0 a "" calls r) as (H1 & H2 & H3 & H4); [done|cbn; lia|done|].
  split_and!; [|done| |done|done].
  - destruct r; [destruct H4 as (i & b & -> & _); lia|destruct H4 as [-> _]; unfold maxAttempts; lia].
  - intros i b Hb. destruct (H2 i b Hb) as [[_ ->]|[Hin|Hh]]; [left; by left|by left|by right].
Qed.

(** The answers of a cluster of three whose first peer is down, whose second one leads and
    whose third one knows the leader. *)
Definition demo_cluster (k : nat) (a : string) (cmd : Command) : result ExecuteResponse :=
  if bool_decide (a = "b:1") then Ok (mkExecuteResponse true [] false None)
  else if bool_decide (a = "c:1") then Ok (mkExecuteResponse false [] false (Some (mkNotLeader 2 "b:1")))
  else Err "unavailable".

Definition demo_cluster_peers : gmap Z string := {[1 := "a:1"; 2 := "c:1"; 3 := "b:1"]}.

Example demo_execute :
  mqctlExecute demo_cluster demo_cluster_peers [1; 2; 3] (mkCommand 7 1 Op_GET [] []) = (["a:1"; "c:1"; "b:1"], Ok (mkExecuteResponse true [] false None)).
Proof. vm_compute. reflexivity. Qed.

Lemma execute_reaches_leader_witness :
  exists calls resp, mqctlExecute demo_cluster demo_cluster_peers [1; 2; 3] (mkCommand 7 1 Op_GET [] []) = (calls, Ok resp) /\ (length calls <= 2 + 1)%nat.
Proof.
  apply (execute_reaches_leader demo_cluster demo_cluster_peers [1; 2; 3] (mkCommand 7 1 Op_GET [] []) 2 "b:1").
  - vm_compute. lia.
  - vm_compute. reflexivity.
  - intros k. by eexists.
  - intros k a h. unfold demo_cluster. destruct (bool_decide (a = "b:1")), (bool_decide (a = "c:1")); vm_compute; congruence.
Defined.

Lemma execute_outcome_witness :
  (1 <= length ["a:1"; "c:1"; "b:1"] <= maxAttempts)%nat /\
  exists i a, length ["a:1"; "c:1"; "b:1"] = S i /\ ["a:1"; "c:1"; "b:1"] !! i = Some a /\
    answers (demo_cluster i a (mkCommand 7 1 Op_GET [] [])) = Some (mkExecuteResponse true [] false None).
Proof.
  destruct (execute_outcome demo_cluster demo_cluster_peers [1; 2; 3] (mkCommand 7 1 Op_GET [] []) ["a:1"; "c:1"; "b:1"] (Ok (mkExecuteResponse true [] false None)))
    as (H1 & _ & _ & H4); [discriminate|vm_compute; reflexivity|]. exact (conj H1 H4).
Defined.
