(* ===== verification/EngineSpec.v ===== *)
(** The engine against its specification: a set of accepted writes of which a flush makes
    the current ones durable, and of which a crash keeps at least the durable ones. *)

From S2P Require Import Prelude Proto RaftLog RaftNode Storage Bytes WalRecords DiskLog DiskLogFacts MapSM Bloom SkipList SSTable SSTableFacts SSTableSpec.
From S2P Require Import Manifest ManifestFacts ManifestRuns Heap Merge MergeFacts MergeSpec EngineState TableReads Engine EngineFrames EngineSteps EngineInv EngineCommit EngineOps EngineOpen EngineReopen.

(** * Operations *)

Inductive engine_op : Type :=
  | OpPut (key value : bytes) (seq : Z)
  | OpDelete (key : bytes) (seq : Z)
  | OpAdvance (index : Z)
  | OpForceFlush
  | OpFlushThrough (index : Z)
  | OpCompact
  | OpGet (key : bytes)
  | OpClose
  | OpAbandon.

(** The arguments are of the types of the Go code. *)
Definition engine_op_ok (op : engine_op) : Prop :=
  match op with
  | OpPut _ _ seq | OpDelete _ seq => is_u64 seq
  | OpAdvance index | OpFlushThrough index => is_u64 index
  | _ => True
  end.

(** What the specification sees of a step. *)
Inductive engine_event : Type :=
  | Wrote (e : TableEntry)
  | Flushed
  | Idle
  | Crashed.

Definition op_event (op : engine_op) (s : Store) (r : option error) : engine_event :=
  match op with
  | OpPut key value seq => if checkOpenLocked (st_engine s) then Idle else Wrote (mkTableEntry key seq value false)
  | OpDelete key seq => if checkOpenLocked (st_engine s) then Idle else Wrote (mkTableEntry key seq [] true)
  | OpForceFlush | OpFlushThrough _ => match r with None => Flushed | Some _ => Idle end
  | _ => Idle
  end.

(** The specification: after each event the writes that are readable and, among them,
    those that will survive; [(readable, durable)]. *)
Inductive spec_reaches : list engine_event -> (TableEntry -> Prop) -> (TableEntry -> Prop) -> Prop :=
  | spec_init C : (forall e, ~ C e) -> spec_reaches [] C C
  | spec_wrote evs C F e : spec_reaches evs C F -> spec_reaches (evs ++ [Wrote e]) (fun x => C x \/ x = e) F
  | spec_flushed evs C F : spec_reaches evs C F -> spec_reaches (evs ++ [Flushed]) C C
  | spec_idle evs C F : spec_reaches evs C F -> spec_reaches (evs ++ [Idle]) C F
  | spec_crashed evs C F C' :
      spec_reaches evs C F -> (forall e, C' e -> C e) -> (forall e, F e -> covered C' e) -> spec_reaches (evs ++ [Crashed]) C' C'.

(** * What the specification promises *)

Lemma covered_trans (P Q : TableEntry -> Prop) e : covered P e -> (forall v, P v -> covered Q v) -> covered Q e.
Proof. intros (v & Hv & Ek & Hq) H. destruct (H v Hv) as (w & Hw & Ek' & Hq'). exists w. split_and!; [done|congruence|lia]. Qed.

Lemma covered_self (P : TableEntry -> Prop) e : P e -> covered P e.
Proof. intros He. by exists e. Qed.

Lemma snoc_split (evs evs0 mid : list engine_event) ev :
  evs ++ [ev] = evs0 ++ mid -> mid = [] \/ exists mid', mid = mid' ++ [ev] /\ evs = evs0 ++ mid'.
Proof.
  intros E. destruct mid as [|x mid' _] using rev_ind; [by left|]. right. exists mid'.
  rewrite (assoc_L (++)) in E. by apply app_inj_tail in E as [-> ->].
Qed.

Lemma flush_split (evs evs0 mid evs2 : list engine_event) ev :
  evs ++ [ev] = evs0 ++ mid ++ Flushed :: evs2 ->
  (evs2 = [] /\ ev = Flushed /\ evs = evs0 ++ mid) \/ exists evs2', evs2 = evs2' ++ [ev] /\ evs = evs0 ++ mid ++ Flushed :: evs2'.
Proof.
  intros E. destruct evs2 as [|x evs2' _] using rev_ind.
  - left. rewrite (assoc_L (++)) in E. by apply app_inj_tail in E as [-> ->].
  - right. exists evs2'. rewrite app_comm_cons, !(assoc_L (++)) in E. apply app_inj_tail in E as [-> ->]. by rewrite <- !(assoc_L (++)).
Qed.

(** The current writes were written; those since the last crash are all there; the durable
    ones stay readable; and a flush makes the writes since the crash before it durable. *)
Lemma spec_facts evs C F :
  spec_reaches evs C F ->
  (forall e, C e -> Wrote e ∈ evs) /\ (forall e, F e -> covered C e) /\
  (forall evs0 mid e, evs = evs0 ++ mid -> Crashed ∉ mid -> Wrote e ∈ mid -> C e) /\
  (forall evs0 mid evs2 e, evs = evs0 ++ mid ++ Flushed :: evs2 -> Crashed ∉ mid -> Wrote e ∈ mid -> covered F e).
Proof.
  induction 1 as [C Hno|evs C F e Hs (I1 & I2 & I3 & I4)|evs C F Hs (I1 & I2 & I3 & I4)|evs C F Hs (I1 & I2 & I3 & I4)
    |evs C F C' Hs (I1 & I2 & I3 & I4) Hsub Hcov].
  - split_and!; [by intros e ?%Hno|by intros e ?%Hno| |].
    + intros evs0 mid e E _ He. symmetry in E. apply app_nil in E as [_ ->]. by apply elem_of_nil in He.
    + intros evs0 mid evs2 e E. by destruct evs0, mid.
  - split_and!.
    + intros x [Hx| ->]; apply elem_of_app; [left; by apply I1|right; by left].
    + intros x Hx. eapply covered_iff; [|by apply I2]. by left.
    + intros evs0 mid x [->|(mid' & -> & ->)]%snoc_split Hn Hx; [by apply elem_of_nil in Hx|].
      apply elem_of_app in Hx as [Hx|Hx%list_elem_of_singleton]; [left; eapply I3; [done|set_solver|done]|right; congruence].
    + intros evs0 mid evs2 x [(_ & ? & _)|(evs2' & -> & ->)]%flush_split Hn Hx; [done|by eapply I4].
  - split_and!.
    + intros x Hx. apply elem_of_app. left. by apply I1.
    + apply covered_self.
    + intros evs0 mid x [->|(mid' & -> & ->)]%snoc_split Hn Hx; [by apply elem_of_nil in Hx|].
      apply elem_of_app in Hx as [Hx|Hx%list_elem_of_singleton]; [eapply I3; [done|set_solver|done]|done].
    + intros evs0 mid evs2 x [(-> & _ & ->)|(evs2' & -> & ->)]%flush_split Hn Hx; [apply covered_self; by eapply I3|].
      eapply covered_trans; [by eapply I4|done].
  - split_and!.
    + intros x Hx. apply elem_of_app. left. by apply I1.
    + done.
    + intros evs0 mid x [->|(mid' & -> & ->)]%snoc_split Hn Hx; [by apply elem_of_nil in Hx|].
      apply elem_of_app in Hx as [Hx|Hx%list_elem_of_singleton]; [eapply I3; [done|set_solver|done]|done].
    + intros evs0 mid evs2 x [(_ & ? & _)|(evs2' & -> & ->)]%flush_split Hn Hx; [done|by eapply I4].
  - split_and!.
    + intros x Hx. apply elem_of_app. left. by apply I1, Hsub.
    + apply covered_self.
    + intros evs0 mid x [->|(mid' & -> & ->)]%snoc_split Hn Hx; [by apply elem_of_nil in Hx|]. set_solver.
    + intros evs0 mid evs2 x [(_ & ? & _)|(evs2' & -> & ->)]%flush_split Hn Hx; [done|]. eapply covered_trans; [by eapply I4|done].
Qed.

Section spec.
Context (marshal : VersionEdit -> result bytes) (unmarshal : bytes -> option VersionEdit).
Context (unmarshal_marshal : forall e b, edit_fits e -> marshal e = Ok b -> unmarshal b = Some e).
Context (answers : nat -> answer).

Definition perform (op : engine_op) : M (option error) :=
  match op with
  | OpPut key value seq => putLocked answers marshal key value seq
  | OpDelete key seq => deleteLocked answers marshal key seq
  | OpAdvance index => advanceAppliedIndexLocked index
  | OpForceFlush => ForceFlush answers marshal
  | OpFlushThrough index => FlushThrough answers marshal index
  | OpCompact => compact answers marshal
  | OpGet key => r <-e lookupLocked answers key ; eret (match r with Ok _ => None | Err m => Some m end)
  | OpClose => eg_Close answers
  | OpAbandon => Abandon ;e eret None
  end.

(** The stores an engine reaches from an empty directory, by operations and by crashes
    after which it is opened again. *)
Inductive engine_reaches : list engine_event -> Store -> Prop :=
  | er_open options s s' :
      st_tables s = ∅ -> st_manifest s = None -> engine_Open answers unmarshal options s = (s', None) -> engine_reaches [] s'
  | er_op evs s op s' r :
      engine_reaches evs s -> engine_op_ok op -> perform op s = (s', r) -> engine_reaches (evs ++ [op_event op s r]) s'
  | er_crash evs s options s1 s' :
      engine_reaches evs s -> crashed s s1 -> engine_Open answers unmarshal options s1 = (s', None) ->
      engine_reaches (evs ++ [Crashed]) s'.

(** * The invariant *)

Definition run_ok (W : history) (s : Store) : Prop :=
  exists next, disk_ok marshal W next s /\ (eg_closed (st_engine s) = false -> view_ok W s).

Lemma inv_run W s : inv marshal W s -> run_ok W s.
Proof using. intros (next & D & V). exists next. by split. Qed.

Lemma run_inv W s : run_ok W s -> checkOpenLocked (st_engine s) = None -> inv marshal W s /\ eg_poisoned (st_engine s) = None.
Proof using.
  intros (next & D & V) Ho. unfold checkOpenLocked in Ho. destruct (eg_closed _); [done|]. destruct (eg_poisoned _) eqn:Ep; [done|].
  split; [|done]. exists next. split; [done|by apply V].
Qed.

(** The disk does not depend on the rest of the engine. *)
Lemma disk_ext W next s s' :
  st_tables s' = st_tables s -> st_manifest s' = st_manifest s -> eg_manifest (st_engine s') = eg_manifest (st_engine s) ->
  eg_nextFileNumber (st_engine s') = eg_nextFileNumber (st_engine s) -> eg_obsolete (st_engine s') = eg_obsolete (st_engine s) ->
  eg_poisoned (st_engine s') = eg_poisoned (st_engine s) -> disk_ok marshal W next s -> disk_ok marshal W next s'.
Proof using.
  intros Et Em Ef En Eo Ep [D1 D2 D3 D4 D5 D6]. assert (forall m, version_ok W s m -> version_ok W s' m) as Hv.
  { intros m. apply version_ext; [done| |lia]. intros name (o & Ho & E). right. exists o. by rewrite <- Eo. }
  assert (forall m e, in_version s' m e <-> in_version s m e) as Hin by (intros m e; by apply in_version_tables).
  split; rewrite ?Et, ?Em, ?Ef, ?En, ?Eo, ?Ep; [done|by apply Hv| |done|done|].
  - intros e He. eapply covered_iff; [|by apply D3]. intros v. apply Hin.
  - destruct D6 as (f & edits & H1 & H2 & H3 & H4 & H5 & H6). exists f, edits. split_and!; try done.
    destruct next as [m|]; [|done]. destruct H6 as (P1 & P2 & P3 & P4). split_and!; [done|by apply Hv| |done].
    intros e He. apply Hin in He. eapply covered_iff; [|by apply P3]. intros v. apply Hin.
Qed.

Lemma closeUnresolvedLoop_quiet files err unresolved s s' r :
  closeUnresolvedLoop answers files err unresolved s = (s', r) -> quiet s s'.
Proof using.
  revert err unresolved s. induction files as [|name files IH]; intros err unresolved s H; cbn [closeUnresolvedLoop] in H.
  - mbind H s1 u E. mret H. injection E as <- _. by apply quiet_engine.
  - mbind H s1 c E. apply file_Close_quiet in E. etrans; [exact E|]. destruct (released c); by eapply IH.
Qed.

Lemma closeTablesLoop_disk W next tables err unresolved s s' r :
  closeTablesLoop answers tables err unresolved s = (s', r) -> disk_ok marshal W next s ->
  disk_ok marshal W next s' /\ eg_closed (st_engine s') = eg_closed (st_engine s).
Proof using.
  revert err unresolved s. induction tables as [|t tables IH]; intros err unresolved s H D; cbn [closeTablesLoop] in H.
  - mbind H s1 u E. mret H. injection E as <- _. split; [|done]. by apply (disk_ext W next s).
  - mbind H s1 c E. apply file_Close_quiet in E. destruct (E (fun _ => False)) as (T & _).
    pose proof (disk_touch marshal W _ next _ _ T (spares_none _ _) D) as D1.
    destruct (core_eqs _ _ (tc_core _ _ _ T)) as (_ & _ & _ & _ & _ & _ & Ec & _). rewrite <- Ec. destruct (released c); by eapply IH.
Qed.

(** [Close] leaves the disk as it is. *)
Lemma close_ok W s s' r : run_ok W s -> eg_Close answers s = (s', r) -> run_ok W s'.
Proof using.
  intros (next & D & _) H. mbind H s1 u E1. injection E1 as <- _. mbind H s2 c2 E2.
  apply (reconcile_kept answers marshal W next) in E2; [|by apply (disk_ext W next s)]. mbind H s3 c3 E3.
  mbind E3 s4 fl E4. injection E4 as <- <-. apply closeUnresolvedLoop_quiet in E3. destruct (E3 (fun _ => False)) as (T & _).
  pose proof (disk_touch marshal W _ next _ _ T (spares_none _ _) (ko_disk _ _ _ _ _ E2)) as D3.
  mbind H s5 c5 E5. mret H. mbind E5 s6 tb E6. injection E6 as <- <-. apply (closeTablesLoop_disk W next) in E5 as [D5 C5]; [|done].
  exists next. split; [done|]. rewrite C5. destruct (core_eqs _ _ (tc_core _ _ _ T)) as (_ & _ & _ & _ & _ & _ & -> & _).
  destruct (core_eqs _ _ (ko_core _ _ _ _ _ E2)) as (_ & _ & _ & _ & _ & _ & -> & _). done.
Qed.

Lemma advanceApplied_ok W index s : inv marshal W s -> is_u64 index -> inv marshal W (modify (set_appliedIndex index) s).1.
Proof using.
  intros (next & D & [V1 V2 Vc V3 V4 V5 V6 V7 V8 V9]) Hi. exists next. split; [by apply (disk_ext W next s)|]. by split.
Qed.

(** After a flush that reported no error everything is durable. *)
Lemma through_run C F s s' r :
  through_ok marshal (mkHistory C F) s s' r ->
  run_ok (mkHistory C match r with None => C | Some _ => F end) s'.
Proof using.
  intros [(next & D & V) _ _ Hd]. destruct r as [m|]; [exists next; by split|]. destruct (Hd eq_refl) as [_ Hcov].
  exists next. split; [eapply disk_mono; [|exact Hcov|exact D]; done|]. intros _. destruct V. by split.
Qed.

Definition after (ev : engine_event) (W : history) : history :=
  match ev with
  | Wrote e => with_write W e
  | Flushed => mkHistory (hi_all W) (hi_all W)
  | _ => W
  end.

Lemma perform_ok W op s s' r :
  run_ok W s -> engine_op_ok op -> perform op s = (s', r) -> run_ok (after (op_event op s r) W) s'.
Proof using.
  intros R Hop H. pose proof (run_inv W s R) as Hi. destruct W as [C F].
  destruct op; cbn [perform op_event engine_op_ok] in *.
  - destruct (checkOpenLocked (st_engine s)) eqn:Ec.
    { unfold putLocked, writeLocked in H. mbind H s9 o E0. injection E0 as <- <-. rewrite Ec in H. mret H. done. }
    destruct (Hi eq_refl) as [I Hp]. apply inv_run. eapply write_ok; [exact I|done|exact Ec|exact H].
  - destruct (checkOpenLocked (st_engine s)) eqn:Ec.
    { unfold deleteLocked, writeLocked in H. mbind H s9 o E0. injection E0 as <- <-. rewrite Ec in H. mret H. done. }
    destruct (Hi eq_refl) as [I Hp]. apply inv_run. eapply write_ok; [exact I|done|exact Ec|exact H].
  - mbind H s0 o E0. injection E0 as <- <-. cbn [id] in H. destruct (checkOpenLocked (st_engine s)) eqn:Ec; [by mret H|].
    destruct (_ <? _); [by mret H|]. mbind H s1 u E1. mret H. injection E1 as <- _. apply inv_run, (advanceApplied_ok (mkHistory C F)); [by apply Hi|done].
  - mbind H s0 o E0. injection E0 as <- <-. destruct (checkOpenLocked (st_engine s)) eqn:Ec; [by mret H|].
    mbind H s1 ix E1. injection E1 as <- <-. destruct (Hi eq_refl) as [I Hp]. destruct (healthy marshal _ s I Hp) as [_ V].
    apply (flushThrough_ok answers marshal (mkHistory C F)) in H; [|done|done|apply V]. apply through_run in H. by destruct r.
  - mbind H s0 o E0. injection E0 as <- <-. destruct (checkOpenLocked (st_engine s)) eqn:Ec; [by mret H|].
    destruct (Hi eq_refl) as [I Hp]. apply (flushThrough_ok answers marshal (mkHistory C F)) in H; [|done..].
    apply through_run in H. by destruct r.
  - mbind H s0 o E0. injection E0 as <- <-. destruct (checkOpenLocked (st_engine s)) eqn:Ec; [by mret H|].
    destruct (Hi eq_refl) as [I Hp]. apply (compactAll_ok answers marshal (mkHistory C F)) in H as [I' _]; [|done..]. by apply inv_run.
  - mbind H s1 b E1. mret H. destruct (eg_closed (st_engine s)) eqn:Ecl.
    + mbind E1 s0 o E0. injection E0 as <- <-. cbn [id] in E1. rewrite Ecl in E1. by mret E1.
    + destruct R as (next & D & V). apply (lookup_best answers (mkHistory C F)) in E1 as [Q _]; [|by apply V].
      apply inv_run. eapply quiet_inv; [exact Q|]. exists next. split; [done|by apply V].
  - by eapply close_ok.
  - destruct R as (next & D & _). injection H as <- <-. exists next. split; [by apply (disk_ext _ next s)|done].
Qed.

(** * The simulation *)

Lemma in_version_sound W s m e : version_ok W s m -> in_version s m e -> W e.
Proof using.
  intros Hv (name & md & f & es & Hmd & Hf & Hb & He). destruct (vo_tables _ _ _ Hv _ _ Hmd) as (f' & es' & Hf' & [Hb' _ _] & _ & Hes).
  assert (f' = f) as -> by congruence. assert (es' = es) as -> by (by eapply built_inj). by apply Hes.
Qed.

Lemma empty_recoverable W s : st_tables s = ∅ -> st_manifest s = None -> recoverable marshal W s newManifestState.
Proof using.
  intros Et Em. split; [by rewrite Et|by rewrite Em|by apply map_Forall_empty|unfold is_u64, max_u64; simpl; lia|].
  intros name md Hmd. cbn [newManifestState mf_files] in Hmd. by rewrite lookup_empty in Hmd.
Qed.

Lemma open_run W options s s' m :
  recoverable marshal W s m -> engine_Open answers unmarshal options s = (s', None) -> run_ok (recovered s m) s'.
Proof using unmarshal_marshal.
  intros Hr H. destruct (open_ok marshal unmarshal unmarshal_marshal answers W _ _ _ _ Hr H) as (D & V & _). exists None. by split.
Qed.

(** A crash and a successful [Open], whatever answers it gets. *)
Lemma crash_step answers' evs C F s s1 s' options :
  spec_reaches evs C F -> run_ok (mkHistory C F) s -> crashed s s1 -> engine_Open answers' unmarshal options s1 = (s', None) ->
  exists C', spec_reaches (evs ++ [Crashed]) C' C' /\ disk_ok marshal (mkHistory C' C') None s' /\ view_ok (mkHistory C' C') s'.
Proof using unmarshal_marshal.
  intros Hs (next & D & _) Hc Ho. destruct (crash_recoverable marshal _ next s s1 D Hc) as (m & Hr & Hv & Hcov).
  destruct (open_ok marshal unmarshal unmarshal_marshal answers' _ _ _ _ _ Hr Ho) as (D' & V & _).
  exists (in_version s1 m). split; [|by split]. eapply spec_crashed; [exact Hs| |].
  - intros e He. eapply (in_version_sound (mkHistory C F) s m); [done|]. by eapply (in_version_survives (mkHistory C F) s s1).
  - intros e He. eapply covered_trans; [by apply (do_flushed _ _ _ _ D)|done].
Qed.

Lemma reaches_spec evs s : engine_reaches evs s -> exists C F, spec_reaches evs C F /\ run_ok (mkHistory C F) s.
Proof using unmarshal_marshal.
  induction 1 as [options s s' Et Em Ho|evs s op s' r H (C & F & Hs & R) Hop Hp|evs s options s1 s' H (C & F & Hs & R) Hc Ho].
  - exists (in_version s newManifestState), (in_version s newManifestState). split.
    + constructor. intros e (name & md & f & es & Hmd & _). cbn [newManifestState mf_files] in Hmd. by rewrite lookup_empty in Hmd.
    + eapply open_run; [|exact Ho]. by apply (empty_recoverable (mkHistory (fun _ => True) (fun _ => True))).
  - pose proof (perform_ok _ _ _ _ _ R Hop Hp) as R'. destruct (op_event op s r) as [e| | |] eqn:E; cbn [after] in R'.
    + exists (fun x => C x \/ x = e), F. by split; [constructor|].
    + exists C, C. split; [by eapply spec_flushed|done].
    + exists C, F. by split; [constructor|].
    + exfalso. unfold op_event in E. by destruct op, (checkOpenLocked (st_engine s)), r.
  - destruct (crash_step answers _ _ _ _ _ _ _ Hs R Hc Ho) as (C' & Hs' & D' & V). exists C', C'. split; [done|]. exists None. by split.
Qed.

(** C16. Refinement: whatever sequence of writes, deletes, flushes, compactions, reads,
    closes and crashes with reopening an engine goes through, and whichever of its file
    operations fail, the specification reaches by the same events a set of readable writes
    such that every lookup returns an error or the newest readable write of the key
    (nothing when there is none); a lookup of a closed engine is an error, and a lookup of
    an open one is no error when no read of the disk fails and no two writes give one key
    two versions of one sequence number. *)
Theorem engine_refines evs s :
  engine_reaches evs s ->
  exists C F, spec_reaches evs C F /\
    forall key s' r, lookupLocked answers key s = (s', r) ->
      (eg_closed (st_engine s) = true -> exists msg, r = Err msg) /\
      (forall b, r = Ok b -> best_among C key b) /\
      (eg_closed (st_engine s) = false -> agree C -> (forall n, an_readFails (answers n) = never) -> exists b, r = Ok b).
Proof using unmarshal_marshal.
  intros (C & F & Hs & next & D & V)%reaches_spec. exists C, F. split; [done|]. intros key s' r H.
  destruct (eg_closed (st_engine s)) eqn:Ecl.
  - mbind H s0 o E0. injection E0 as <- <-. cbn [id] in H. rewrite Ecl in H. mret H. split_and!; [eauto|done|done].
  - split_and!; [done| |].
    + intros b ->. by eapply (lookup_best answers (mkHistory C F)); [apply V|exact H|].
    + intros _ Ha Hr. by eapply (lookup_total answers (mkHistory C F)); [apply V|..].
Qed.

(** C17. Durability: when a flush reported no error, every write the engine accepted before
    it (since the last crash before it) is found by any later successful lookup of its key,
    as itself or as a newer write, whatever happened in between, crashes and failing file
    operations included; and a lookup only ever finds writes that were made. *)
Theorem engine_flush_durable evs0 mid evs2 s key s' b e :
  engine_reaches (evs0 ++ mid ++ Flushed :: evs2) s -> Crashed ∉ mid -> Wrote e ∈ mid -> te_Key e = key ->
  lookupLocked answers key s = (s', Ok b) ->
  exists v t q, b = Some (v, t, q) /\ te_Seq e <= q /\ Wrote (mkTableEntry key q v t) ∈ evs0 ++ mid ++ Flushed :: evs2.
Proof using unmarshal_marshal.
  intros (C & F & Hs & next & D & V)%reaches_spec Hnc He Ek H. destruct (spec_facts _ _ _ Hs) as (H1 & H2 & _ & H4).
  pose proof (covered_trans F C e (H4 _ _ _ _ eq_refl Hnc He) H2) as (w & Hw & Ekw & Hq).
  assert (eg_closed (st_engine s) = false) as Ecl.
  { destruct (eg_closed (st_engine s)) eqn:Ecl; [|done]. mbind H s0 o E0. injection E0 as <- <-. cbn [id] in H. by rewrite Ecl in H. }
  apply (lookup_best answers (mkHistory C F)) in H as [_ Hb]; [|by apply V]. specialize (Hb b eq_refl).
  destruct b as [[[v t] q]|]; simpl in Hb; [|exfalso; apply (Hb w); [done|congruence]].
  destruct Hb as [Hin Hmax]. exists v, t, q. split_and!; [done| |by apply H1]. specialize (Hmax w Hw ltac:(congruence)). lia.
Qed.

(** C19. Termination: in every state of an open engine the loop that compacts and the loop
    that flushes end within as many rounds as there are tables and memtables: a larger
    bound changes nothing. *)
Theorem engine_loops_end evs s n :
  engine_reaches evs s -> checkOpenLocked (st_engine s) = None ->
  ((length (eg_tables (st_engine s)) <= n)%nat ->
     compactLoop answers marshal n s = compactLoop answers marshal (length (eg_tables (st_engine s))) s) /\
  ((length (eg_immutables (st_engine s)) <= n)%nat ->
     flushLoop answers marshal n s = flushLoop answers marshal (length (eg_immutables (st_engine s))) s).
Proof using unmarshal_marshal.
  intros (C & F & _ & R)%reaches_spec Ho. destruct (run_inv _ _ R Ho) as [I Hp].
  split; intros Hn; [by apply (compactLoop_enough answers marshal (mkHistory C F))|by apply (flushLoop_enough answers marshal (mkHistory C F))].
Qed.

(** C18. Recovery: whatever the engine went through, what a crash leaves is opened again
    when no file operation fails (as long as the manifest's size is in the range of an
    [int]), and the reopened engine reads the newest of a set of writes that the
    specification allows after the crash. *)
Theorem engine_reopens evs s s1 options r :
  engine_reaches evs s -> crashed s s1 -> (forall f, st_manifest s1 = Some f -> Z.of_nat (length (content f)) <= max_i64) ->
  op_Rand options = Some r -> 0 <= op_FlushThreshold options ->
  exists s', engine_Open faultless unmarshal options s1 = (s', None) /\
    exists C F, spec_reaches (evs ++ [Crashed]) C F /\
      forall key s'' b, lookupLocked answers key s' = (s'', Ok b) -> best_among C key b.
Proof using unmarshal_marshal.
  intros (C & F & Hs & R)%reaches_spec Hc Hlen Hrand Hth. pose proof R as (next & D & _).
  destruct (crash_recoverable marshal _ next s s1 D Hc) as (m & Hr & _).
  destruct (open_total marshal unmarshal unmarshal_marshal _ options r s1 m Hr Hlen (cr_apart _ _ Hc) Hrand Hth) as (s' & E).
  destruct (crash_step faultless evs C F s s1 s' options Hs R Hc E) as (C' & Hs' & _ & V). exists s'. split; [done|]. exists C', C'. split; [done|].
  intros key s'' b H. by eapply (lookup_best answers (mkHistory C' C')); [exact V|exact H|].
Qed.
End spec.
