(* ===== verification/EngineRuns.v ===== *)
(** A run of the engine: it is opened on an empty directory, writes and deletes keys, is
    flushed, writes once more and crashes. *)

From S2P Require Import Prelude Proto RaftLog RaftNode Storage Bytes WalRecords DiskLog DiskLogFacts MapSM Bloom SkipList SSTable SSTableFacts SSTableSpec.
From S2P Require Import Manifest ManifestFacts ManifestRuns Heap Merge MergeFacts MergeSpec EngineState TableReads Engine EngineFrames EngineSteps EngineInv EngineCommit EngineOps EngineOpen EngineReopen EngineSpec.

Definition demo_options : Options := mkOptions (Some demo_rand) 0 false false.
Definition demo_empty : Store := mkStore (NewEngine demo_rand) ∅ None 0.

Definition demo_key : bytes := [Byte.x61].
Definition demo_put : engine_op := OpPut demo_key [Byte.x31] 1.
Definition demo_delete : engine_op := OpDelete [Byte.x62] 2.
Definition demo_later : engine_op := OpPut demo_key [Byte.x32] 3.

Notation demo_do op s := (perform demo_edit_marshal faultless op s).

Definition demo_open : Store := Eval vm_compute in (engine_Open faultless demo_edit_unmarshal demo_options demo_empty).1.
Definition demo_first : Store := Eval vm_compute in (demo_do demo_put demo_open).1.
Definition demo_written : Store := Eval vm_compute in (demo_do demo_delete demo_first).1.
Definition demo_flushed : Store := Eval vm_compute in (demo_do OpForceFlush demo_written).1.
Definition demo_last : Store := Eval vm_compute in (demo_do demo_later demo_flushed).1.

Definition demo_reopened : Store := Eval vm_compute in (engine_Open faultless demo_edit_unmarshal demo_options demo_last).1.

Definition wrote_a : TableEntry := mkTableEntry demo_key 1 [Byte.x31] false.
Definition wrote_b : TableEntry := mkTableEntry [Byte.x62] 2 [] true.
Definition wrote_c : TableEntry := mkTableEntry demo_key 3 [Byte.x32] false.

Notation demo_reaches := (engine_reaches demo_edit_marshal demo_edit_unmarshal faultless).

Lemma run_result {A} (x : Store * A) a : x.2 = a -> x = (x.1, a).
Proof. destruct x. by intros <-. Qed.

Lemma demo_step evs s op s' r ev :
  demo_reaches evs s -> engine_op_ok op -> demo_do op s = (s', r) -> op_event op s r = ev -> demo_reaches (evs ++ [ev]) s'.
Proof. intros Hr Ho Hdo <-. by eapply er_op. Qed.

Lemma demo_reaches_open : demo_reaches [] demo_open.
Proof. apply (er_open _ _ _ demo_options demo_empty); [reflexivity..|]. vm_compute. reflexivity. Qed.

Lemma demo_reaches_written : demo_reaches [Wrote wrote_a; Wrote wrote_b] demo_written.
Proof.
  apply (demo_step [Wrote wrote_a] demo_first demo_delete demo_written None); [apply (demo_step [] demo_open demo_put demo_first None); [exact demo_reaches_open|..]|..].
  - vm_compute. split; discriminate.
  - vm_compute. reflexivity.
  - reflexivity.
  - vm_compute. split; discriminate.
  - vm_compute. reflexivity.
  - reflexivity.
Qed.

Lemma demo_reaches_last : demo_reaches [Wrote wrote_a; Wrote wrote_b; Flushed; Wrote wrote_c] demo_last.
Proof.
  apply (demo_step [Wrote wrote_a; Wrote wrote_b; Flushed] demo_flushed demo_later demo_last None);
    [apply (demo_step [Wrote wrote_a; Wrote wrote_b] demo_written OpForceFlush demo_flushed None); [exact demo_reaches_written|..]|..].
  - exact I.
  - vm_compute. reflexivity.
  - reflexivity.
  - vm_compute. split; discriminate.
  - vm_compute. reflexivity.
  - reflexivity.
Qed.

(** A crash that loses nothing of the files. *)
Lemma crash_keeps s :
  map_Forall (fun _ f => file_ok f) (st_tables s) -> (forall f, st_manifest s = Some f -> file_ok f) ->
  st_tables s !! "MANIFEST" = None -> crashed s s.
Proof.
  intros Hf Hm Hno. assert (forall f, file_ok f -> survives f f) as Hs.
  { intros [c n b] Hok. exists (length c). split; [exact Hok|]. unfold file_ok in Hok. simpl in *. f_equal; [by rewrite firstn_all|lia]. }
  split; [|intros f Ef _; exists f; by auto|done|done]. intros name f Hl _. exists f. split; [done|]. apply Hs. by apply (Hf name).
Qed.

Lemma demo_manifest_ok : match st_manifest demo_last with Some f => Nat.leb (synced f) (length (content f)) | None => true end = true.
Proof. vm_compute. reflexivity. Qed.

Lemma demo_manifest_size : match st_manifest demo_last with Some f => Z.of_nat (length (content f)) <=? max_i64 | None => true end = true.
Proof. vm_compute. reflexivity. Qed.

Lemma demo_manifest_small f : st_manifest demo_last = Some f -> Z.of_nat (length (content f)) <= max_i64.
Proof. intros E. pose proof demo_manifest_size as H. rewrite E in H. by apply Z.leb_le. Qed.

Lemma demo_crashes : crashed demo_last demo_last.
Proof.
  apply crash_keeps; [|intros f Ef|vm_compute; reflexivity].
  - unfold file_ok. apply (bool_decide_unpack _). vm_compute. exact I.
  - pose proof demo_manifest_ok as H. rewrite Ef in H. by apply Nat.leb_le.
Qed.

Lemma demo_reaches_reopened : demo_reaches [Wrote wrote_a; Wrote wrote_b; Flushed; Wrote wrote_c; Crashed] demo_reopened.
Proof.
  apply (er_crash _ _ _ [Wrote wrote_a; Wrote wrote_b; Flushed; Wrote wrote_c] demo_last demo_options demo_last);
    [exact demo_reaches_last|exact demo_crashes|].
  vm_compute. reflexivity.
Qed.

Lemma engine_refines_witness :
  exists C F, spec_reaches [Wrote wrote_a; Wrote wrote_b; Flushed; Wrote wrote_c; Crashed] C F /\
    forall key s' r, lookupLocked faultless key demo_reopened = (s', r) ->
      (eg_closed (st_engine demo_reopened) = true -> exists msg, r = Err msg) /\
      (forall b, r = Ok b -> best_among C key b) /\
      (eg_closed (st_engine demo_reopened) = false -> agree C -> (forall n, an_readFails (faultless n) = never) -> exists b, r = Ok b).
Proof. exact (engine_refines _ _ demo_edit_reads_back faultless _ _ demo_reaches_reopened). Defined.

Lemma engine_flush_durable_witness :
  exists v t q, (lookupLocked faultless demo_key demo_reopened).2 = Ok (Some (v, t, q)) /\ 1 <= q.
Proof.
  destruct (engine_flush_durable _ _ demo_edit_reads_back faultless [] [Wrote wrote_a; Wrote wrote_b] [Wrote wrote_c; Crashed] demo_reopened
    demo_key (lookupLocked faultless demo_key demo_reopened).1 (Some ([Byte.x31], false, 1)) wrote_a demo_reaches_reopened)
    as (v & t & q & E & Hq & _).
  - by rewrite !elem_of_cons, elem_of_nil; intros [?|[?|?]].
  - by left.
  - reflexivity.
  - apply run_result. vm_compute. reflexivity.
  - exists v, t, q. split; [|exact Hq]. rewrite <- E. vm_compute. reflexivity.
Defined.

Lemma engine_loops_end_witness :
  compactLoop faultless demo_edit_marshal 9 demo_last =
    compactLoop faultless demo_edit_marshal (length (eg_tables (st_engine demo_last))) demo_last.
Proof.
  apply (engine_loops_end _ _ demo_edit_reads_back faultless _ demo_last 9 demo_reaches_last).
  - vm_compute. reflexivity.
  - apply Nat.leb_le. vm_compute. reflexivity.
Defined.

Lemma engine_reopens_witness :
  exists s', engine_Open faultless demo_edit_unmarshal demo_options demo_last = (s', None) /\
    exists C F, spec_reaches [Wrote wrote_a; Wrote wrote_b; Flushed; Wrote wrote_c; Crashed] C F /\
      forall key s'' b, lookupLocked faultless key s' = (s'', Ok b) -> best_among C key b.
Proof.
  apply (engine_reopens _ _ demo_edit_reads_back faultless [Wrote wrote_a; Wrote wrote_b; Flushed; Wrote wrote_c] demo_last demo_last
    demo_options demo_rand demo_reaches_last demo_crashes).
  - exact demo_manifest_small.
  - reflexivity.
  - discriminate.
Defined.
