(* ===== verification/LsmSM.v ===== *)
(** The state machine over the LSM engine (internal/lsm/statemachine.go).

    The engine is the one of the [Store]; the state machine's own fields are a record that
    every operation takes and returns.  [unmarshalCommand] is [proto.Unmarshal] of a
    command. *)

From S2P Require Import Prelude Proto RaftLog RaftNode Storage Bytes WalRecords DiskLog MapSM Bloom SkipList SSTable Manifest Merge EngineState Engine.

(** [stateDedupRecord], the record of the map state machine under another name. *)
Definition stateDedupRecord : Type := dedupRecord.

Record LsmSM : Type := mkLsmSM {
  ls_values : gmap bytes bytes;
  ls_dedup : gmap Z stateDedupRecord;
  ls_applied : Z;
  ls_replaying : bool;
  ls_replayCeiling : Z;
}.

Definition newLsmSM : LsmSM := mkLsmSM ∅ ∅ 0 false 0.

Definition set_replaying (b : bool) (m : LsmSM) : LsmSM :=
  mkLsmSM (ls_values m) (ls_dedup m) (ls_applied m) b (ls_replayCeiling m).
Definition set_values (v : gmap bytes bytes) (m : LsmSM) : LsmSM :=
  mkLsmSM v (ls_dedup m) (ls_applied m) (ls_replaying m) (ls_replayCeiling m).
Definition set_applied (i : Z) (m : LsmSM) : LsmSM :=
  mkLsmSM (ls_values m) (ls_dedup m) i (ls_replaying m) (ls_replayCeiling m).

Definition cloneStateResult (r : Result) : Result := mkResult (cloneBytes (res_Value r)) (res_Found r).

(** [BeginReplay]. *)
Definition BeginReplay (firstIndex lastIndex : Z) (m : LsmSM) : LsmSM * option error :=
  if lastIndex <? firstIndex then (mkLsmSM (ls_values m) (ls_dedup m) (ls_applied m) false 0, None)
  else if negb (firstIndex =? 1) then (m, Some "lsm: pre-snapshot replay does not start at 1")
  else (mkLsmSM (ls_values m) (ls_dedup m) (ls_applied m) true lastIndex, None).

Definition FinishReplay (m : LsmSM) : LsmSM := set_replaying false m.

Definition finishReplayLocked (index : Z) (m : LsmSM) : LsmSM :=
  if ls_replaying m && (ls_replayCeiling m <=? index) then set_replaying false m else m.

Section machine.
Context (answers : nat -> answer) (marshal : VersionEdit -> result bytes) (unmarshal : bytes -> option VersionEdit).
Context (unmarshalCommand : bytes -> option Command).

Definition OpenStateMachine (options : Options) : M (result LsmSM) :=
  err <-e engine_Open answers unmarshal options ;
  eret (match err with Some m => Err m | None => Ok newLsmSM end).

Definition advanceAppliedLocked (index : Z) (m : LsmSM) : M (LsmSM * option error) :=
  if index <=? ls_applied m then eret (m, None)
  else
    err <-e advanceAppliedIndexLocked index ;
    eret (match err with Some e => (m, Some e) | None => (set_applied index m, None) end).

Definition executeLocked (command : Command) (index : Z) (m : LsmSM) : M (LsmSM * result Result) :=
  let key := Key command in
  match cmd_Op command with
  | Op_PUT =>
      err <-e putLocked answers marshal key (Value command) index ;
      eret (match err with
            | Some e => (m, Err e)
            | None => (set_values (<[key := cloneBytes (Value command)]> (ls_values m)) m, Ok (mkResult [] false))
            end)
  | Op_DELETE =>
      err <-e deleteLocked answers marshal key index ;
      eret (match err with
            | Some e => (m, Err e)
            | None => (set_values (delete key (ls_values m)) m, Ok (mkResult [] false))
            end)
  | Op_GET =>
      read <-e (if ls_replaying m
                then eret (Ok (match ls_values m !! key with
                               | Some v => mkResult (cloneBytes v) true
                               | None => mkResult [] false
                               end))
                else
                  r <-e readLocked answers key ;
                  eret (match r with
                        | Err e => Err e
                        | Ok (Some v) => Ok (mkResult v true)
                        | Ok None => Ok (mkResult [] false)
                        end)) ;
      match read with
      | Err e => eret (m, Err e)
      | Ok res =>
          adv <-e advanceAppliedLocked index m ;
          eret (match adv with (m1, Some e) => (m1, Err e) | (m1, None) => (m1, Ok res) end)
      end
  | _ => eret (m, Err "unsupported command op")
  end.

(** An applied index advance with nothing to execute, for no-ops and repeated commands. *)
Definition passEntry (index : Z) (res : Result) (m : LsmSM) : M (LsmSM * result Result) :=
  adv <-e advanceAppliedLocked index m ;
  eret (match adv with
        | (m1, Some e) => (m1, Err e)
        | (m1, None) => (finishReplayLocked index m1, Ok res)
        end).

(** [Apply]; a nil entry is [None]. *)
Definition lsm_Apply (entry : option Entry) (m0 : LsmSM) : M (LsmSM * result Result) :=
  match entry with
  | None => eret (m0, Err "apply nil entry")
  | Some e =>
      let index := Index e in
      let m := if ls_replaying m0 && (ls_replayCeiling m0 <? index) then set_replaying false m0 else m0 in
      match Type_ e with
      | EntryType_NOOP => passEntry index (mkResult [] false) m
      | EntryType_NORMAL =>
          match unmarshalCommand (Data e) with
          | None => eret (m, Err "decode command")
          | Some command =>
              let run (_ : unit) :=
                r <-e executeLocked command index m ;
                match r with
                | (m1, Err err) => eret (m1, Err err)
                | (m1, Ok res) =>
                    let m2 := mkLsmSM (ls_values m1)
                                (<[ClientId command := mkDedupRecord (Seq command) (cloneStateResult res)]> (ls_dedup m1))
                                (if ls_applied m1 <? index then index else ls_applied m1)
                                (ls_replaying m1) (ls_replayCeiling m1) in
                    eret (finishReplayLocked index m2, Ok (cloneStateResult res))
                end in
              match ls_dedup m !! ClientId command with
              | Some record =>
                  if Seq command <=? lastSeq record then passEntry index (cloneStateResult (lastResult record)) m
                  else run tt
              | None => run tt
              end
          end
      | _ => eret (m, Err "unsupported entry type")
      end
  end.

(** [Read]. *)
Definition lsm_Read (key : bytes) : M (result Result) :=
  r <-e readLocked answers key ;
  eret (match r with
        | Err e => Err e
        | Ok (Some v) => Ok (mkResult v true)
        | Ok None => Ok (mkResult [] false)
        end).

(** [Crash]: [simfs] is whether the file system is a [SimFS], and then whether it crashed
    already; what the crash does to the files is not part of this step. *)
Definition lsm_Crash (simfs : option bool) : M (option error) :=
  match simfs with
  | Some true => Abandon ;e eret None
  | Some false => a <-e ask answers ; Abandon ;e eret (fe_msg <$> an_err a)
  | None => eg_Close answers
  end.
End machine.

Definition lsm_AppliedIndex (m : LsmSM) : Z := ls_applied m.

(** [Hash], which writes to its digest what [hashStateUint64] and [hashStateBytes] encode. *)
Definition hashStateUint64 (value : Z) : bytes := be_put8 value.
Definition hashStateBytes (value : bytes) : bytes := hashStateUint64 (Z.of_nat (length value)) ++ value.

Definition lsm_hash_input (m : LsmSM) : bytes :=
  let keys := sort_by bytes_leb (map_to_list (ls_values m)).*1 in
  let clientIDs := sort_by Z.leb (map_to_list (ls_dedup m)).*1 in
  hashStateUint64 (ls_applied m) ++
  hashStateUint64 (Z.of_nat (length keys)) ++
  concat ((fun key => hashStateBytes key ++ hashStateBytes (default [] (ls_values m !! key))) <$> keys) ++
  hashStateUint64 (Z.of_nat (length clientIDs)) ++
  concat ((fun id =>
             match ls_dedup m !! id with
             | Some record =>
                 hashStateUint64 id ++ hashStateUint64 (lastSeq record) ++ hashStateBytes (res_Value (lastResult record)) ++
                 hashStateUint64 (if res_Found (lastResult record) then 1 else 0)
             | None => []
             end) <$> clientIDs).

Definition lsm_Hash (m : LsmSM) : Z := fnv64a (lsm_hash_input m).
