(* ===== verification/LsmSpec.v ===== *)
(** The LSM state machine against the map state machine: over any number of processes that
    crash and replay the log, it gives the results and the digest of the map.  A run of it:
    two writes, a flush and a crash, then a process that replays the log. *)

From S2P Require Import Prelude Proto RaftLog RaftNode Storage Bytes WalRecords MapSM DiskLog DiskLogFacts Bloom SkipList SSTable SSTableFacts SSTableSpec Manifest.
From S2P Require Import ManifestFacts ManifestRuns Heap Merge MergeFacts MergeSpec EngineState TableReads Engine EngineFrames EngineSteps EngineInv EngineCommit EngineOps EngineOpen.
From S2P Require Import EngineReopen EngineSpec EngineRuns LsmSM.

Section machine.
Context (unmarshalCommand : bytes -> option Command).
Context (log : list Entry).
Context (log_indexes : forall i e, log !! i = Some e -> Index e = Z.of_nat i + 1).
Context (log_length : Z.of_nat (length log) <= max_u64).

(** * The writes of the log *)

(** The map state machine after the first [n] entries. *)
Definition map_at (n : nat) : MapSM := foldl (fun m e => (sm_Apply unmarshalCommand (Some e) m).1) NewMapSM (take n log).

Definition repeated (c : Command) (m : MapSM) : bool :=
  match dedup m !! ClientId c with Some record => Seq c <=? lastSeq record | None => false end.

(** The record the entry [e] writes in the state [m]. *)
Definition write_of (e : Entry) (m : MapSM) : option TableEntry :=
  match Type_ e, unmarshalCommand (Data e) with
  | EntryType_NORMAL, Some c =>
      if repeated c m then None
      else match cmd_Op c with
           | Op_PUT => Some (mkTableEntry (Key c) (Index e) (Value c) false)
           | Op_DELETE => Some (mkTableEntry (Key c) (Index e) [] true)
           | _ => None
           end
  | _, _ => None
  end.

(** The records of the first [n] entries. *)
Definition written_by (n : nat) (w : TableEntry) : Prop :=
  exists i e, (i < n)%nat /\ log !! i = Some e /\ write_of e (map_at i) = Some w.

Lemma map_at_S n e : log !! n = Some e -> map_at (S n) = (sm_Apply unmarshalCommand (Some e) (map_at n)).1.
Proof using. intros H. unfold map_at. by rewrite (take_S_r _ _ _ H), foldl_app. Qed.

Lemma write_of_seq e m w : write_of e m = Some w -> te_Seq w = Index e.
Proof using. unfold write_of. intros H. repeat (case_match; try done); by injection H as <-. Qed.

Lemma values_step e m :
  values (sm_Apply unmarshalCommand (Some e) m).1 =
  match write_of e m with
  | None => values m
  | Some w => if te_Tombstone w then delete (te_Key w) (values m) else <[te_Key w := te_Value w]> (values m)
  end.
Proof using.
  unfold sm_Apply, write_of, repeated, advanceAppliedIndex.
  assert (forall m' : MapSM, values (if sm_applied m' <? Index e then mkMapSM (values m') (dedup m') (Index e) else m') = values m') as Hadv
    by (intros m'; by case_match).
  destruct (Type_ e); cbn [fst]; try done; try apply Hadv.
  destruct (unmarshalCommand (Data e)) as [c|]; [|done]. cbv zeta.
  destruct (dedup m !! ClientId c) as [record|]; [destruct (Seq c <=? lastSeq record); [apply Hadv|]|];
    unfold execute; destruct (cmd_Op c); cbn [fst snd]; rewrite ?Hadv; try done; cbn [values te_Tombstone te_Key te_Value]; done.
Qed.

Lemma written_seq n w : written_by n w -> 1 <= te_Seq w <= Z.of_nat n.
Proof using log_indexes. intros (i & e & Hi & He & Hw). rewrite (write_of_seq _ _ _ Hw), (log_indexes i e He). lia. Qed.

Lemma written_agree n : agree (written_by n).
Proof using log_indexes.
  intros w w' (i & e & Hi & He & Hw) (j & e' & Hj & He' & Hw') _ Hq.
  rewrite (write_of_seq _ _ _ Hw), (write_of_seq _ _ _ Hw'), (log_indexes i e He), (log_indexes j e' He') in Hq.
  assert (i = j) as -> by lia. congruence.
Qed.

Lemma written_mono n n' w : (n <= n')%nat -> written_by n w -> written_by n' w.
Proof using. intros Hn (i & e & Hi & H). exists i, e. split; [lia|done]. Qed.

Lemma written_S n e w :
  log !! n = Some e -> written_by (S n) w <-> written_by n w \/ write_of e (map_at n) = Some w.
Proof using.
  intros He. split.
  - intros (i & e' & Hi & He' & Hw). destruct (decide (i = n)) as [->|Hne]; [right; congruence|]. left. exists i, e'. split; [lia|done].
  - intros [H|H]; [by eapply written_mono; [|exact H]; lia|]. exists n, e. split; [lia|done].
Qed.

(** What a read of the newest version returns. *)
Definition read_of (b : option (bytes * bool * Z)) : option bytes :=
  match b with Some (v, false, _) => Some v | _ => None end.

(** The newest write of a key is its value in the map. *)
Lemma newest_value n key b : best_among (written_by n) key b -> read_of b = values (map_at n) !! key.
Proof using log_indexes.
  revert b. induction n as [|n IH]; intros b Hb.
  { destruct b as [[[v t] q]|]; [|done]. destruct Hb as [(i & e & Hi & _) _]. lia. }
  destruct (log !! n) as [e|] eqn:He; last first.
  { assert (map_at (S n) = map_at n) as -> by (unfold map_at; apply lookup_ge_None in He; by rewrite !take_ge by lia).
    apply IH. eapply best_iff; [|exact Hb]. intros w. split; [|by apply written_mono; lia].
    intros (i & e & Hi & Hl & Hw). exists i, e. split; [|done]. apply lookup_lt_Some in Hl. apply lookup_ge_None in He. lia. }
  rewrite (map_at_S n e He), values_step. pose proof (fun w => written_S n e w He) as HS.
  destruct (write_of e (map_at n)) as [w|] eqn:Ew; last first.
  { apply IH. eapply best_iff; [|exact Hb]. intros w. rewrite HS. split; [by intros [?|?]|by left]. }
  pose proof (write_of_seq _ _ _ Ew) as Eq. rewrite (log_indexes n e He) in Eq.
  destruct (decide (te_Key w = key)) as [Ek|Hne].
  - assert (written_by (S n) w) as Hw by (apply HS; by right).
    destruct b as [[[v t] q]|]; [|exfalso; by apply (Hb w Hw)]. destruct Hb as [Hin Hmax]. specialize (Hmax w Hw Ek).
    pose proof (written_seq _ _ Hin) as Hq. cbn [te_Seq] in Hq.
    assert (mkTableEntry key q v t = w) as <- by (apply (written_agree (S n)); [done|done|done|simpl; lia]).
    cbn [te_Tombstone te_Key te_Value read_of]. destruct t; [by rewrite lookup_delete_eq|by rewrite lookup_insert_eq].
  - assert (best_among (written_by n) key b) as Hb'.
    { destruct b as [[[v t] q]|]; simpl in *.
      - destruct Hb as [Hin Hmax]. split; [|intros x Hx; apply Hmax; apply HS; by left].
        apply HS in Hin as [?|[= E]]; [done|]. exfalso. apply Hne. by rewrite E.
      - intros x Hx. apply Hb. apply HS. by left. }
    rewrite (IH b Hb'). destruct (te_Tombstone w); [by rewrite lookup_delete_ne|by rewrite lookup_insert_ne].
Qed.

(** * Processes *)

Context (marshal : VersionEdit -> result bytes) (unmarshal : bytes -> option VersionEdit).
Context (unmarshal_marshal : forall e b, edit_fits e -> marshal e = Ok b -> unmarshal b = Some e).
Context (answers : nat -> answer).

Notation apply := (lsm_Apply answers marshal unmarshalCommand).

(** The operations of the engine that are not applied entries. *)
Definition storage_op (op : engine_op) : Prop :=
  match op with OpPut _ _ _ | OpDelete _ _ | OpAdvance _ => False | _ => engine_op_ok op end.

(** [sm_run h i m s]: a process has applied the first [i] entries of the log and is in the
    state [m] ([None] after an error, when the host has stopped); of the first [h] entries
    some process tried to apply each.  A process starts by replaying the retained log, which
    holds every entry that was tried before. *)
Inductive sm_run : nat -> nat -> option LsmSM -> Store -> Prop :=
  | sm_open options s s' last m0 m :
      st_tables s = ∅ -> st_manifest s = None -> OpenStateMachine answers unmarshal options s = (s', Ok m0) ->
      0 <= last -> BeginReplay 1 last m0 = (m, None) -> sm_run 0 0 (Some m) s'
  | sm_apply h i m s e s' m' res :
      sm_run h i (Some m) s -> log !! i = Some e -> apply (Some e) m s = (s', (m', res)) ->
      sm_run (h `max` S i) (match res with Ok _ => S i | Err _ => i end) (match res with Ok _ => Some m' | Err _ => None end) s'
  | sm_finish h i m s : sm_run h i (Some m) s -> (h <= i)%nat -> sm_run h i (Some (FinishReplay m)) s
  | sm_storage h i m s op s' r : sm_run h i m s -> storage_op op -> perform marshal answers op s = (s', r) -> sm_run h i m s'
  | sm_restart h i m s s1 options s' last m0 m' :
      sm_run h i m s -> crashed s s1 -> OpenStateMachine answers unmarshal options s1 = (s', Ok m0) ->
      Z.of_nat h <= last -> BeginReplay 1 last m0 = (m', None) -> sm_run h 0 (Some m') s'.

(** * The invariant *)

(** The state of a running process is the map's. *)
Record live (h i : nat) (m : LsmSM) : Prop := {
  lv_values : ls_values m = values (map_at i);
  lv_dedup : ls_dedup m = dedup (map_at i);
  lv_applied : ls_applied m = sm_applied (map_at i);
  lv_ahead : (i <= h)%nat;
  lv_replay : if ls_replaying m then Z.of_nat h <= ls_replayCeiling m else (h <= i)%nat;
}.

(** The engine holds the writes of the applied entries and none of an entry not tried. *)
Definition engine_holds (h i : nat) (s : Store) : Prop :=
  exists C F, run_ok marshal (mkHistory C F) s /\ (forall e, C e -> written_by h e) /\ (forall e, written_by i e -> C e).

Lemma storage_event op s r : storage_op op -> op_event op s r = Idle \/ op_event op s r = Flushed.
Proof using. destruct op, r; simpl; intros H; auto; done. Qed.

Lemma holds_storage h i s op s' r :
  engine_holds h i s -> storage_op op -> perform marshal answers op s = (s', r) -> engine_holds h i s'.
Proof using.
  intros (C & F & R & H1 & H2) Hop H. apply (perform_ok marshal answers (mkHistory C F) op) in H; [|exact R|by destruct op].
  destruct (storage_event op s r Hop) as [E|E]; rewrite E in H; cbn [after] in H; [by exists C, F|by exists C, C].
Qed.

Lemma holds_advance h i s index s' r :
  engine_holds h i s -> is_u64 index -> advanceAppliedIndexLocked index s = (s', r) -> engine_holds h i s'.
Proof using answers.
  intros (C & F & R & H1 & H2) Hi H. exists C, F. split; [|done]. by apply (perform_ok marshal answers (mkHistory C F) (OpAdvance index)) in H.
Qed.

(** A write that the engine is asked for, accepted or not. *)
Lemma holds_write h i s e m w op s' r :
  engine_holds h i s -> log !! i = Some e -> m = map_at i -> write_of e m = Some w ->
  op = (if te_Tombstone w then OpDelete (te_Key w) (te_Seq w) else OpPut (te_Key w) (te_Value w) (te_Seq w)) ->
  (te_Tombstone w = true -> te_Value w = []) -> is_u64 (te_Seq w) ->
  perform marshal answers op s = (s', r) ->
  engine_holds (h `max` S i) i s' /\ (r = None -> engine_holds (h `max` S i) (S i) s').
Proof using.
  intros (C & F & R & H1 & H2) He -> Hw Hop Htomb Hseq H.
  assert (op_event op s r = Wrote w \/ (op_event op s r = Idle /\ r <> None)) as Hev.
  { destruct w as [k q v t]. cbn [te_Tombstone te_Key te_Value te_Seq] in *.
    assert (checkOpenLocked (st_engine s) = None \/ (checkOpenLocked (st_engine s) <> None /\ r <> None)) as [Hc|[Hc Hr]].
    { destruct (checkOpenLocked (st_engine s)) eqn:Ec; [|by left]. right. split; [done|].
      subst op. destruct t; cbn [perform] in H; unfold putLocked, deleteLocked, writeLocked in H; mbind H s9 o E0; injection E0 as <- <-;
        rewrite Ec in H; injection H as _ <-; done. }
    - left. subst op. destruct t; cbn [op_event]; rewrite Hc; [by rewrite Htomb|done].
    - right. split; [|done]. subst op. destruct t; cbn [op_event]; by destruct (checkOpenLocked (st_engine s)). }
  pose proof (perform_ok marshal answers (mkHistory C F) op s s' r R) as R'. specialize (R' ltac:(subst op; by destruct (te_Tombstone w)) H).
  assert (forall x, written_by h x -> written_by (h `max` S i) x) as Hm by (intros x; apply written_mono; lia).
  assert (written_by (h `max` S i) w) as Hww by (exists i, e; split; [lia|done]).
  destruct Hev as [Ev|[Ev Hr]]; rewrite Ev in R'; cbn [after] in R'.
  - split; [|intros _]; exists (fun x => C x \/ x = w), F; (split; [exact R'|]); (split; [intros x [Hx| ->]; [by apply Hm, H1|done]|]).
    + intros x Hx. left. by apply H2.
    + intros x Hx. apply (written_S i e x He) in Hx as [Hx|Hx]; [left; by apply H2|right; congruence].
  - split; [|done]. exists C, F. split; [done|]. split; [intros x Hx; by apply Hm, H1|done].
Qed.

Lemma u64_index i e : log !! i = Some e -> is_u64 (Index e).
Proof using log_indexes log_length. intros He. rewrite (log_indexes i e He). apply lookup_lt_Some in He. unfold is_u64. lia. Qed.

(** A read of the engine by a process that is not replaying. *)
Lemma holds_read i s key s' r :
  engine_holds i i s -> readLocked answers key s = (s', r) ->
  engine_holds i i s' /\ forall v, r = Ok v -> v = values (map_at i) !! key.
Proof using log_indexes.
  intros (C & F & R & H1 & H2) H. mbind H s1 b E. injection H as <- <-. split.
  - exists C, F. split; [|done]. apply (perform_ok marshal answers (mkHistory C F) (OpGet key) s s1 (match b with Ok _ => None | Err m => Some m end) R I).
    unfold perform, ebind. by rewrite E.
  - intros v Hv. destruct b as [b|]; [|done]. destruct R as (next & D & V). destruct (eg_closed (st_engine s)) eqn:Ecl.
    { mbind E s0 o E0. injection E0 as <- <-. cbn [id] in E. rewrite Ecl in E. done. }
    apply (lookup_best answers (mkHistory C F)) in E as [_ Hb]; [|by apply V]. specialize (Hb b eq_refl).
    rewrite <- (newest_value i key b); [|eapply best_iff; [|exact Hb]; intros e; split; [apply H1|apply H2]].
    destruct b as [[[x []] q]|]; by injection Hv as <-.
Qed.

Lemma advance_live h i m s index s' m' err :
  engine_holds h i s -> is_u64 index -> advanceAppliedLocked index m s = (s', (m', err)) ->
  engine_holds h i s' /\
  (err = None -> m' = mkLsmSM (ls_values m) (ls_dedup m) (if ls_applied m <? index then index else ls_applied m) (ls_replaying m) (ls_replayCeiling m)).
Proof using answers.
  intros Hh Hi H. unfold advanceAppliedLocked in H. destruct (Z.leb_spec index (ls_applied m)).
  - injection H as <- <- <-. split; [done|]. intros _. rewrite (proj2 (Z.ltb_ge _ _)) by done. by destruct m.
  - mbind H s1 e E. apply (holds_advance h i) in E; [|done|done]. destruct e; injection H as <- <- <-; (split; [done|]); [done|].
    intros _. unfold set_applied. by rewrite (proj2 (Z.ltb_lt _ _)).
Qed.

Lemma holds_next h i s e :
  engine_holds h i s -> log !! i = Some e -> write_of e (map_at i) = None ->
  engine_holds (h `max` S i) (S i) s.
Proof using.
  intros (C & F & R & H1 & H2) He Hw. exists C, F. split; [done|]. split.
  - intros x Hx. eapply written_mono; [|by apply H1]. lia.
  - intros x Hx. apply (written_S i e x He) in Hx as [Hx|Hx]; [by apply H2|congruence].
Qed.

Lemma holds_tried h i s : engine_holds h i s -> engine_holds (h `max` S i) i s.
Proof using. intros (C & F & R & H1 & H2). exists C, F. split_and!; [done| |done]. intros x Hx. eapply written_mono; [|by apply H1]. lia. Qed.

(** The state after the entry number [i]. *)
Lemma live_next h i m e :
  log !! i = Some e ->
  ls_values m = values (map_at (S i)) -> ls_dedup m = dedup (map_at (S i)) -> ls_applied m = sm_applied (map_at (S i)) ->
  (i <= h)%nat -> (if ls_replaying m then Z.of_nat h <= ls_replayCeiling m /\ Index e <= ls_replayCeiling m else (h <= i)%nat) ->
  live (h `max` S i) (S i) (finishReplayLocked (Index e) m).
Proof using log_indexes.
  intros He Hv Hd Ha Hih Hr. rewrite (log_indexes i e He) in *. unfold finishReplayLocked.
  destruct (ls_replaying m) eqn:Er; cbn [andb].
  - destruct (Z.leb_spec (ls_replayCeiling m) (Z.of_nat i + 1)); split; cbn; rewrite ?Er; try done; lia.
  - split; try done; [lia|]. rewrite Er. lia.
Qed.

(** The state as [Apply] finds it: a replay of which the entry is not part is over. *)
Record ready (h i : nat) (e : Entry) (m : LsmSM) : Prop := {
  rd_values : ls_values m = values (map_at i);
  rd_dedup : ls_dedup m = dedup (map_at i);
  rd_applied : ls_applied m = sm_applied (map_at i);
  rd_ahead : (i <= h)%nat;
  rd_replay : if ls_replaying m then Z.of_nat h <= ls_replayCeiling m /\ Index e <= ls_replayCeiling m else (h <= i)%nat;
}.

Lemma live_ready h i m e :
  live h i m -> log !! i = Some e ->
  ready h i e (if ls_replaying m && (ls_replayCeiling m <? Index e) then set_replaying false m else m).
Proof using log_indexes.
  intros [Hv Hd Ha Hi Hr] He. rewrite (log_indexes i e He) in *. destruct (ls_replaying m) eqn:Er; cbn [andb]; [|split; try done; by rewrite Er].
  destruct (Z.ltb_spec (ls_replayCeiling m) (Z.of_nat i + 1)); split; try done; cbn; rewrite ?Er; [lia|]. rewrite (log_indexes i e He). lia.
Qed.

(** What one [Apply] does. *)
Definition applied_ok (h i : nat) (e : Entry) (s' : Store) (m' : LsmSM) (res : result Result) : Prop :=
  match res with
  | Ok r => live (h `max` S i) (S i) m' /\ engine_holds (h `max` S i) (S i) s' /\
      sm_Apply unmarshalCommand (Some e) (map_at i) = (map_at (S i), Ok r)
  | Err _ => engine_holds (h `max` S i) i s'
  end.

Lemma pass_ok h i m s e res s' m' r :
  ready h i e m -> engine_holds h i s -> log !! i = Some e -> write_of e (map_at i) = None ->
  sm_Apply unmarshalCommand (Some e) (map_at i) = (advanceAppliedIndex (Index e) (map_at i), Ok res) ->
  passEntry (Index e) res m s = (s', (m', r)) -> applied_ok h i e s' m' r.
Proof using log_indexes log_length answers.
  intros [Hv Hd Ha Hi Hr] Hh He Hw Hs H. mbind H s1 adv E. destruct adv as [m1 err].
  destruct (advance_live _ _ _ _ _ _ _ _ Hh (u64_index i e He) E) as [Hh1 Hm1].
  destruct err as [msg|]; injection H as <- <- <-; [by apply holds_tried|]. specialize (Hm1 eq_refl).
  assert (map_at (S i) = advanceAppliedIndex (Index e) (map_at i)) as Em by (by rewrite (map_at_S i e He), Hs).
  split_and!; [|by eapply holds_next|by rewrite Em]. subst m1. apply live_next; cbn [ls_values ls_dedup ls_applied ls_replaying ls_replayCeiling]; rewrite ?Em; try done.
  all: clear E; unfold advanceAppliedIndex; rewrite ?Hv, ?Hd, ?Ha; by destruct (_ <? _).
Qed.

Lemma execute_put h i m s e c s' m' r w :
  ready h i e m -> engine_holds h i s -> log !! i = Some e -> write_of e (map_at i) = Some w ->
  w = mkTableEntry (Key c) (Index e) (if te_Tombstone w then [] else Value c) (te_Tombstone w) ->
  cmd_Op c = (if te_Tombstone w then Op_DELETE else Op_PUT) ->
  executeLocked answers marshal c (Index e) m s = (s', (m', r)) ->
  engine_holds (h `max` S i) i s' /\
  forall res, r = Ok res -> engine_holds (h `max` S i) (S i) s' /\ res = mkResult [] false /\
    m' = set_values (if te_Tombstone w then delete (Key c) (ls_values m) else <[Key c := Value c]> (ls_values m)) m.
Proof using log_indexes log_length.
  intros Hm Hh He Hw Ew Eop H. unfold executeLocked in H. rewrite Eop in H.
  assert (forall err s2, perform marshal answers
      (if te_Tombstone w then OpDelete (te_Key w) (te_Seq w) else OpPut (te_Key w) (te_Value w) (te_Seq w)) s = (s2, err) ->
    engine_holds (h `max` S i) i s2 /\ (err = None -> engine_holds (h `max` S i) (S i) s2)) as Hwr.
  { intros err s2. eapply holds_write; [exact Hh|exact He|done|exact Hw|done| |rewrite (write_of_seq _ _ _ Hw); by eapply u64_index].
    intros Et. rewrite Ew, Et. done. }
  rewrite Ew in Hwr. cbn [te_Tombstone te_Key te_Value te_Seq] in Hwr.
  destruct (te_Tombstone w); mbind H s1 err E; destruct (Hwr err s1 E) as [H1 H2]; destruct err; injection H as <- <- <-.
  all: split; [done|]; intros res Hres; try done. all: apply Ok_inj in Hres as <-; split_and!; [by apply H2|done|done].
Qed.

Lemma execute_get h i m s e c s' m' r :
  ready h i e m -> engine_holds h i s -> log !! i = Some e -> cmd_Op c = Op_GET ->
  executeLocked answers marshal c (Index e) m s = (s', (m', r)) ->
  engine_holds h i s' /\
  forall res, r = Ok res ->
    res = (match values (map_at i) !! Key c with Some v => mkResult v true | None => mkResult [] false end) /\
    m' = mkLsmSM (ls_values m) (ls_dedup m) (if ls_applied m <? Index e then Index e else ls_applied m) (ls_replaying m) (ls_replayCeiling m).
Proof using log_indexes log_length.
  intros [Hv Hd Ha Hi Hr] Hh He Eop H. unfold executeLocked in H. rewrite Eop in H. mbind H s1 read E.
  assert (engine_holds h i s1 /\ forall res, read = Ok res ->
    res = (match values (map_at i) !! Key c with Some v => mkResult v true | None => mkResult [] false end)) as [Hh1 Hres].
  { destruct (ls_replaying m).
    - injection E as <- <-. split; [done|]. intros res [= <-]. by rewrite Hv.
    - assert (h = i) as -> by lia. mbind E s2 v Ev. destruct (holds_read i s (Key c) s2 v Hh Ev) as [Hh2 Hval].
      injection E as <- <-. split; [done|]. intros res Er. destruct v as [v|]; [|done]. rewrite <- (Hval v eq_refl). destruct v; by injection Er as <-. }
  destruct read as [res|]; [|injection H as <- <- <-; by split]. mbind H s2 adv Eadv. destruct adv as [m1 err].
  destruct (advance_live _ _ _ _ _ _ _ _ Hh1 (u64_index i e He) Eadv) as [Hh2 Hm1].
  destruct err; injection H as <- <- <-; (split; [done|]); [done|]. intros res' [= <-]. split; [by apply Hres|by apply Hm1].
Qed.

(** A command that is no repetition: what the map does with it. *)
Lemma sm_fresh e c M :
  Type_ e = EntryType_NORMAL -> unmarshalCommand (Data e) = Some c -> repeated c M = false ->
  sm_Apply unmarshalCommand (Some e) M =
    (let '(M1, r) := execute c M in
     match r with
     | Err err => (M1, Err err)
     | Ok res =>
         (advanceAppliedIndex (Index e)
            (mkMapSM (values M1) (<[ClientId c := mkDedupRecord (Seq c) (cloneResult res)]> (dedup M1)) (sm_applied M1)), Ok (cloneResult res))
     end).
Proof using.
  intros Et Ec Hr. unfold sm_Apply. rewrite Et, Ec. cbv zeta. unfold repeated in Hr.
  destruct (dedup M !! ClientId c) as [record|]; [by rewrite Hr|done].
Qed.

(** The end of [Apply] after a command was executed. *)
Lemma fresh_finish h i m e c m2 s' M1 res :
  ready h i e m -> log !! i = Some e -> engine_holds (h `max` S i) (S i) s' ->
  sm_Apply unmarshalCommand (Some e) (map_at i) =
    (advanceAppliedIndex (Index e)
       (mkMapSM (values M1) (<[ClientId c := mkDedupRecord (Seq c) (cloneResult res)]> (dedup M1)) (sm_applied M1)), Ok (cloneResult res)) ->
  ls_values m2 = values M1 -> ls_dedup m2 = dedup M1 -> dedup M1 = dedup (map_at i) -> sm_applied M1 = sm_applied (map_at i) ->
  (if ls_applied m2 <? Index e then Index e else ls_applied m2) = (if sm_applied M1 <? Index e then Index e else sm_applied M1) ->
  ls_replaying m2 = ls_replaying m -> ls_replayCeiling m2 = ls_replayCeiling m ->
  applied_ok h i e s' (finishReplayLocked (Index e) (mkLsmSM (ls_values m2)
    (<[ClientId c := mkDedupRecord (Seq c) (cloneStateResult res)]> (ls_dedup m2))
    (if ls_applied m2 <? Index e then Index e else ls_applied m2) (ls_replaying m2) (ls_replayCeiling m2))) (Ok (cloneStateResult res)).
Proof using log_indexes.
  intros [Hv Hd Ha Hi Hr] He Hh Hs E1 E2 E3 E4 E5 E6 E7. pose proof (map_at_S i e He) as EmS. rewrite Hs in EmS. cbn [fst] in EmS.
  split_and!; [|done|by rewrite EmS]. apply live_next; cbn [ls_values ls_dedup ls_applied ls_replaying ls_replayCeiling]; rewrite ?EmS; try done.
  - rewrite E1. clear E5. unfold advanceAppliedIndex. by destruct (_ <? _).
  - rewrite E2. clear E5. unfold advanceAppliedIndex. by destruct (_ <? _).
  - rewrite E5. clear E5. unfold advanceAppliedIndex. cbn [sm_applied]. by destruct (_ <? _).
  - by rewrite E6, E7.
Qed.

Lemma fresh_ok h i m s e c s1 r1 s' m' res :
  ready h i e m -> engine_holds h i s -> log !! i = Some e ->
  Type_ e = EntryType_NORMAL -> unmarshalCommand (Data e) = Some c -> repeated c (map_at i) = false ->
  executeLocked answers marshal c (Index e) m s = (s1, r1) ->
  (match r1 with
   | (m2, Err err) => eret (m2, Err err)
   | (m2, Ok res0) => eret (finishReplayLocked (Index e) (mkLsmSM (ls_values m2)
       (<[ClientId c := mkDedupRecord (Seq c) (cloneStateResult res0)]> (ls_dedup m2))
       (if ls_applied m2 <? Index e then Index e else ls_applied m2) (ls_replaying m2) (ls_replayCeiling m2)), Ok (cloneStateResult res0))
   end) s1 = (s', (m', res)) -> applied_ok h i e s' m' res.
Proof using log_indexes log_length.
  intros Hm Hh He Et Ec Hrep E1 H. pose proof (sm_fresh e c (map_at i) Et Ec Hrep) as Hs. destruct r1 as [m2 r].
  assert (write_of e (map_at i) = match cmd_Op c with Op_PUT => Some (mkTableEntry (Key c) (Index e) (Value c) false)
    | Op_DELETE => Some (mkTableEntry (Key c) (Index e) [] true) | _ => None end) as Hw by (unfold write_of; by rewrite Et, Ec, Hrep).
  pose proof Hm as [Hv Hd Ha _ _].
  destruct (cmd_Op c) eqn:Eop; unfold execute in Hs; rewrite Eop in Hs; cbn [fst snd] in Hs;
    try (unfold executeLocked in E1; rewrite Eop in E1; injection E1 as <- <- <-; injection H as <- <- <-; by apply holds_tried).
  - destruct (execute_put h i m s e c s1 m2 r _ Hm Hh He Hw eq_refl Eop E1) as [H1 H2].
    destruct r as [res0|]; injection H as <- <- <-; [|done]. destruct (H2 res0 eq_refl) as (H3 & -> & ->).
    eapply fresh_finish; [exact Hm|done|done|exact Hs|..]; cbn [set_values ls_values ls_dedup ls_applied te_Tombstone values dedup sm_applied];
      rewrite ?Hv, ?Hd, ?Ha; done.
  - destruct (execute_put h i m s e c s1 m2 r _ Hm Hh He Hw eq_refl Eop E1) as [H1 H2].
    destruct r as [res0|]; injection H as <- <- <-; [|done]. destruct (H2 res0 eq_refl) as (H3 & -> & ->).
    eapply fresh_finish; [exact Hm|done|done|exact Hs|..]; cbn [set_values ls_values ls_dedup ls_applied te_Tombstone values dedup sm_applied];
      rewrite ?Hv, ?Hd, ?Ha; done.
  - destruct (execute_get h i m s e c s1 m2 r Hm Hh He Eop E1) as [H1 H2].
    destruct r as [res0|]; injection H as <- <- <-; [|by apply holds_tried]. destruct (H2 res0 eq_refl) as (Hres & ->).
    unfold cloneBytes in Hs. rewrite <- Hres in Hs.
    eapply fresh_finish; [exact Hm|done|by eapply holds_next|exact Hs|..]; cbn [ls_values ls_dedup ls_applied]; try done.
    rewrite Ha. by destruct (sm_applied (map_at i) <? Index e) eqn:E; rewrite ?Z.ltb_irrefl, ?E.
Qed.

Lemma apply_ok h i m s e s' m' res :
  live h i m -> engine_holds h i s -> log !! i = Some e -> apply (Some e) m s = (s', (m', res)) -> applied_ok h i e s' m' res.
Proof using log_indexes log_length.
  intros Hl Hh He H. pose proof (live_ready h i m e Hl He) as Hm. unfold lsm_Apply in H. cbv zeta in H.
  set (m1 := if ls_replaying m && _ then _ else _) in *. clearbody m1. clear Hl.
  pose proof (map_at_S i e He) as EmS. destruct (Type_ e) eqn:Et; try (injection H as <- <- <-; by apply holds_tried).
  - destruct (unmarshalCommand (Data e)) as [c|] eqn:Ec; [|injection H as <- <- <-; by apply holds_tried].
    assert (repeated c (map_at i) = match ls_dedup m1 !! ClientId c with Some record => Seq c <=? lastSeq record | None => false end) as Erep
      by (by rewrite (rd_dedup _ _ _ _ Hm)).
    destruct (repeated c (map_at i)) eqn:Erp.
    + destruct (ls_dedup m1 !! ClientId c) as [record|] eqn:Erec; [|done]. rewrite <- Erep in H.
      eapply pass_ok; [exact Hm|exact Hh|exact He| | |exact H].
      * unfold write_of. by rewrite Et, Ec, Erp.
      * unfold sm_Apply. rewrite Et, Ec. rewrite (rd_dedup _ _ _ _ Hm) in Erec. unfold stateDedupRecord in Erec. by rewrite Erec, <- Erep.
    + assert (exists s1 r1, executeLocked answers marshal c (Index e) m1 s = (s1, r1) /\
        (match r1 with
         | (m2, Err err) => eret (m2, Err err)
         | (m2, Ok res0) => eret (finishReplayLocked (Index e) (mkLsmSM (ls_values m2)
             (<[ClientId c := mkDedupRecord (Seq c) (cloneStateResult res0)]> (ls_dedup m2))
             (if ls_applied m2 <? Index e then Index e else ls_applied m2) (ls_replaying m2) (ls_replayCeiling m2)), Ok (cloneStateResult res0))
         end) s1 = (s', (m', res))) as (s1 & r1 & E1 & H1).
      { destruct (ls_dedup m1 !! ClientId c) as [record|]; [rewrite <- Erep in H|]; mbind H s1 r1 E1; exists s1, r1; by split. }
      by eapply fresh_ok.
  - eapply pass_ok; [exact Hm|exact Hh|exact He| | |exact H].
    + unfold write_of. by rewrite Et.
    + unfold sm_Apply. by rewrite Et.
Qed.

(** * The runs *)

Lemma begin_live h last m :
  Z.of_nat h <= last -> BeginReplay 1 last newLsmSM = (m, None) -> live h 0 m.
Proof using.
  intros Hl H. unfold BeginReplay in H. destruct (Z.ltb_spec last 1); cbn in H; injection H as <-; split; try done; cbn; lia.
Qed.

Lemma open_new options s s' m0 :
  OpenStateMachine answers unmarshal options s = (s', Ok m0) ->
  engine_Open answers unmarshal options s = (s', None) /\ m0 = newLsmSM.
Proof using. intros H. mbind H s1 err E. destruct err; [done|]. by injection H as <- H2. Qed.

Lemma run_holds h i m s : sm_run h i m s -> engine_holds h i s /\ match m with Some m => live h i m | None => True end.
Proof using log_indexes log_length unmarshal_marshal.
  induction 1 as [options s s' last m0 m Et Em Ho Hl Hb|h i m s e s' m' res Hr [IH1 IH2] He H|h i m s Hr [IH1 IH2] Hle
    |h i m s op s' r Hr [IH1 IH2] Hop H|h i m s s1 options s' last m0 m' Hr [IH1 IH2] Hc Ho Hl Hb].
  - apply open_new in Ho as [Ho ->]. split; [|by apply (begin_live _ last)].
    exists (in_version s newManifestState), (in_version s newManifestState). split_and!.
    + eapply open_run; [done| |exact Ho]. by apply (empty_recoverable marshal (mkHistory (fun _ => True) (fun _ => True))).
    + intros e (name & md & f & es & Hmd & _). cbn [newManifestState mf_files] in Hmd. by rewrite lookup_empty in Hmd.
    + intros e (i & x & Hi & _). lia.
  - pose proof (apply_ok h i m s e s' m' res IH2 IH1 He H) as Ha. destruct res as [r|]; [|by split]. destruct Ha as (H1 & H2 & _). by split.
  - split; [done|]. destruct IH2 as [Hv Hd Ha Hi _]. by split.
  - split; [by eapply holds_storage|done].
  - apply open_new in Ho as [Ho ->]. split; [|by eapply begin_live]. destruct IH1 as (C & F & (next & D & _) & H1 & _).
    destruct (crash_recoverable marshal _ next s s1 D Hc) as (m1 & Hrec & Hv & _).
    exists (in_version s1 m1), (in_version s1 m1). split_and!.
    + by eapply open_run.
    + intros e He. apply H1. eapply (in_version_sound (mkHistory C F) s m1); [done|]. by eapply (in_version_survives (mkHistory C F) s s1).
    + intros e (j & x & Hj & _). lia.
Qed.

Lemma hash_same i h m : live h i m -> lsm_hash_input m = hash_input (map_at i).
Proof using.
  intros [Hv Hd Ha _ _]. unfold lsm_hash_input, hash_input, hash_values, hash_dedup. rewrite Hv, Hd, Ha.
  unfold hashStateBytes, hashStateUint64, hashBytes. by rewrite <- !app_assoc.
Qed.

(** C15. Refinement: the LSM state machine, over any sequence of processes that each open
    the directory, replay the retained log and apply entries, with flushes, compactions and
    crashes in between and with any of its file operations failing, is the map state
    machine: after the entries it applied it has the map's digest and applied index, the
    next entry it applies without an error has the result the map gives, and a direct read
    that returns no error after the replay reads the map. *)
Theorem lsm_refines_mapsm h i m s :
  sm_run h i (Some m) s ->
  lsm_Hash m = sm_Hash (map_at i) /\ lsm_AppliedIndex m = sm_applied (map_at i) /\
  (forall e s' m' r, log !! i = Some e -> apply (Some e) m s = (s', (m', Ok r)) ->
     sm_Apply unmarshalCommand (Some e) (map_at i) = (map_at (S i), Ok r)) /\
  (forall key s' r, ls_replaying m = false -> lsm_Read answers key s = (s', Ok r) -> sm_Read key (map_at i) = Ok r).
Proof using log_indexes log_length unmarshal_marshal.
  intros [Hh Hl]%run_holds. split_and!.
  - unfold lsm_Hash, sm_Hash. by rewrite (hash_same i h m Hl).
  - apply Hl.
  - intros e s' m' r He H. by destruct (apply_ok h i m s e s' m' (Ok r) Hl Hh He H) as (_ & _ & ?).
  - intros key s' r Hr H. pose proof (lv_replay _ _ _ Hl) as Hle. pose proof (lv_ahead _ _ _ Hl). rewrite Hr in Hle. assert (h = i) as -> by lia.
    mbind H s1 v E. destruct (holds_read i s key s1 v Hh E) as [_ Hv]. injection H as _ H. destruct v as [v|]; [|done].
    unfold sm_Read. rewrite <- (Hv v eq_refl). by destruct v.
Qed.
End machine.

Definition first_entry : Entry := demo_entry 1 MapSM.demo_put.
Definition second_entry : Entry := demo_entry 2 MapSM.demo_put2.
Definition third_entry : Entry := demo_entry 3 MapSM.demo_get.
Definition lsm_log : list Entry := [first_entry; second_entry; third_entry].

Definition lsm_do (e : Entry) (m : LsmSM) (s : Store) := lsm_Apply faultless demo_edit_marshal demo_unmarshal (Some e) m s.

Definition first_machine : LsmSM := (BeginReplay 1 0 newLsmSM).1.
Definition store1 : Store := Eval vm_compute in (OpenStateMachine faultless demo_edit_unmarshal demo_options demo_empty).1.
Definition run1 := Eval vm_compute in lsm_do first_entry first_machine store1.
Definition run2 := Eval vm_compute in lsm_do second_entry run1.2.1 run1.1.
Definition store3 : Store := Eval vm_compute in (perform demo_edit_marshal faultless OpForceFlush run2.1).1.
Definition second_machine : LsmSM := (BeginReplay 1 2 newLsmSM).1.
Definition store4 : Store := Eval vm_compute in (OpenStateMachine faultless demo_edit_unmarshal demo_options store3).1.
Definition run4 := Eval vm_compute in lsm_do first_entry second_machine store4.
Definition run5 := Eval vm_compute in lsm_do second_entry run4.2.1 run4.1.

Notation lsm_run := (sm_run demo_unmarshal lsm_log demo_edit_marshal demo_edit_unmarshal faultless).

Lemma lsm_log_indexes i e : lsm_log !! i = Some e -> Index e = Z.of_nat i + 1.
Proof. destruct i as [|[|[|i]]]; cbn; intros [= <-]; done. Qed.

Lemma lsm_log_length : Z.of_nat (length lsm_log) <= max_u64.
Proof. vm_compute. discriminate. Qed.

Lemma lsm_apply_step h i m s e s' m' r :
  lsm_run h i (Some m) s -> lsm_log !! i = Some e -> lsm_do e m s = (s', (m', Ok r)) -> lsm_run (h `max` S i) (S i) (Some m') s'.
Proof. intros Hr He Hdo. exact (sm_apply demo_unmarshal lsm_log demo_edit_marshal demo_edit_unmarshal faultless h i m s e s' m' (Ok r) Hr He Hdo). Qed.

Lemma lsm_run_first : lsm_run 0 0 (Some first_machine) store1.
Proof.
  apply (sm_open _ _ _ _ _ demo_options demo_empty store1 0 newLsmSM); [reflexivity..| |done|reflexivity]. vm_compute. reflexivity.
Qed.

Lemma run1_ok : lsm_do first_entry first_machine store1 = (run1.1, (run1.2.1, Ok (mkResult [] false))).
Proof. vm_compute. reflexivity. Qed.
Lemma run2_ok : lsm_do second_entry run1.2.1 run1.1 = (run2.1, (run2.2.1, Ok (mkResult [] false))).
Proof. vm_compute. reflexivity. Qed.

Lemma lsm_run_second : lsm_run 2 2 (Some run2.2.1) store3.
Proof.
  apply (sm_storage _ _ _ _ _ 2 2 _ run2.1 OpForceFlush store3 None); [|exact I|vm_compute; reflexivity].
  apply (lsm_apply_step 1 1 run1.2.1 run1.1 second_entry _ _ (mkResult [] false)); [|reflexivity|exact run2_ok].
  apply (lsm_apply_step 0 0 first_machine store1 first_entry _ _ (mkResult [] false)); [exact lsm_run_first|reflexivity|exact run1_ok].
Qed.

Lemma store3_manifest_ok : match st_manifest store3 with Some f => Nat.leb (synced f) (length (content f)) | None => true end = true.
Proof. vm_compute. reflexivity. Qed.

Lemma store3_crashes : crashed store3 store3.
Proof.
  apply crash_keeps; [|intros f Ef|vm_compute; reflexivity].
  - unfold file_ok. apply (bool_decide_unpack _). vm_compute. exact I.
  - pose proof store3_manifest_ok as H. rewrite Ef in H. by apply Nat.leb_le.
Qed.

Lemma lsm_run_restarted : lsm_run 2 0 (Some second_machine) store4.
Proof.
  apply (sm_restart _ _ _ _ _ 2 2 (Some run2.2.1) store3 store3 demo_options store4 2 newLsmSM second_machine);
    [exact lsm_run_second|exact store3_crashes| |done|reflexivity].
  vm_compute. reflexivity.
Qed.

Lemma run4_ok : lsm_do first_entry second_machine store4 = (run4.1, (run4.2.1, Ok (mkResult [] false))).
Proof. vm_compute. reflexivity. Qed.
Lemma run5_ok : lsm_do second_entry run4.2.1 run4.1 = (run5.1, (run5.2.1, Ok (mkResult [] false))).
Proof. vm_compute. reflexivity. Qed.
Lemma run6_ok : (lsm_do third_entry run5.2.1 run5.1).2.2 = Ok (mkResult [Byte.x77] true).
Proof. vm_compute. reflexivity. Qed.

Lemma lsm_run_fourth : lsm_run 2 1 (Some run4.2.1) run4.1.
Proof. exact (lsm_apply_step 2 0 second_machine store4 first_entry _ _ _ lsm_run_restarted eq_refl run4_ok). Qed.

Lemma lsm_run_replayed : lsm_run 2 2 (Some run5.2.1) run5.1.
Proof. exact (lsm_apply_step 2 1 run4.2.1 run4.1 second_entry _ _ _ lsm_run_fourth eq_refl run5_ok). Qed.

Lemma full_result {A B} (x : Store * (A * B)) b : x.2.2 = b -> x = (x.1, (x.2.1, b)).
Proof. destruct x as [s [a b']]. by intros <-. Qed.

Lemma lsm_refines_mapsm_witness :
  lsm_Hash run5.2.1 = sm_Hash (map_at demo_unmarshal lsm_log 2) /\
  sm_Apply demo_unmarshal (Some third_entry) (map_at demo_unmarshal lsm_log 2) =
    (map_at demo_unmarshal lsm_log 3, Ok (mkResult [Byte.x77] true)).
Proof.
  destruct (lsm_refines_mapsm demo_unmarshal lsm_log lsm_log_indexes lsm_log_length demo_edit_marshal demo_edit_unmarshal
    demo_edit_reads_back faultless 2 2 run5.2.1 run5.1 lsm_run_replayed) as (H1 & _ & H3 & _).
  split; [exact H1|]. exact (H3 third_entry _ _ _ eq_refl (full_result _ _ run6_ok)).
Defined.
