(* ===== verification/SimFS.v ===== *)
(** The simulated file system of internal/lsm/fs_sim.go (with the operation names of fs.go).

    Inodes are pointers into a store of inodes, so that a name that was linked or renamed, a
    durable name and an open handle share the inode; address equality is pointer equality.
    A handle is a value that its operations take and return.  A panic of the code is [None].
    The package path/filepath is the standard library's: [cleanPath], [pathDir] and
    [pathBase] are its lexical rules for slash-separated paths. *)

From Stdlib Require Import Ascii.
From S2P Require Import Prelude Proto RaftLog RaftNode Storage Bytes WalRecords DiskLog MapSM.

(** * Paths *)

(** The parts of a path between slashes. *)
Fixpoint splitSlash (s : string) : list string :=
  match s with
  | EmptyString => [""%string]
  | String c s' =>
      if Ascii.eqb c "/" then ""%string :: splitSlash s'
      else match splitSlash s' with
           | [] => [String c EmptyString]
           | p :: ps => String c p :: ps
           end
  end.

(** One part of the path that [filepath.Clean] scans; [out] is what it has kept, last part
    first. *)
Definition cleanPart (rooted : bool) (part : string) (out : list string) : list string :=
  if bool_decide (part = "") || bool_decide (part = ".") then out
  else if bool_decide (part = "..") then
    match out with
    | [] => if rooted then [] else [part]
    | last :: out' => if bool_decide (last = "..") then part :: out else out'
    end
  else part :: out.

Definition isRooted (s : string) : bool := match s with String c _ => Ascii.eqb c "/" | EmptyString => false end.

Definition cleanPath (name : string) : string :=
  let rooted := isRooted name in
  let out := rev (foldl (fun out part => cleanPart rooted part out) [] (splitSlash name)) in
  let body := String.concat "/" out in
  if rooted then "/" +:+ body else if bool_decide (out = []) then "." else body.

(** The name up to and with its last slash, and the rest. *)
Definition splitPath (name : string) : string * string :=
  let parts := splitSlash name in
  let base := default "" (last parts) in
  (String.substring 0 (String.length name - String.length base) name, base).

(** [filepath.Dir] and, of a name without trailing slashes, [filepath.Base]. *)
Definition pathDir (name : string) : string := cleanPath (splitPath name).1.
Definition pathBase (name : string) : string :=
  if bool_decide (name = "") then "." else if bool_decide (name = "/") then "/" else (splitPath name).2.

(** * Operations and faults *)

(** [FSOp]. *)
Definition FSOp : Type := string.
Definition FSOpCreate : FSOp := "create".
Definition FSOpOpen : FSOp := "open".
Definition FSOpOpenAppend : FSOp := "open-append".
Definition FSOpRead : FSOp := "read".
Definition FSOpWrite : FSOp := "write".
Definition FSOpFileSync : FSOp := "file-sync".
Definition FSOpDirSync : FSOp := "dir-sync".
Definition FSOpTruncate : FSOp := "truncate".
Definition FSOpRename : FSOp := "rename".
Definition FSOpLink : FSOp := "link".
Definition FSOpRemove : FSOp := "remove".
Definition FSOpList : FSOp := "list".
Definition FSOpStat : FSOp := "stat".
Definition FSOpClose : FSOp := "close".

Definition isDeclaredFSOp (op : FSOp) : bool :=
  bool_decide (op ∈ [FSOpCreate; FSOpOpen; FSOpOpenAppend; FSOpRead; FSOpWrite; FSOpFileSync; FSOpDirSync;
                     FSOpTruncate; FSOpRename; FSOpLink; FSOpRemove; FSOpList; FSOpStat; FSOpClose]).

(** Errors: the sentinels of fs.go and everything else. *)
Inductive simError : Type :=
  | simErrNotExist
  | simErrExist
  | simErrFSClosed
  | simErrCrash
  | simErrEOF
  | simErrOther (msg : error).

Definition simRetainAll : Z := -1.

Definition SimBeforeOperation : Z := 1.
Definition SimAfterOperation : Z := 2.

Record SimCrashDirective : Type := mkSimCrash {
  scd_Op : FSOp;
  scd_Occurrence : Z;
  scd_Point : Z;
  scd_RetainUnsynced : Z;
}.

Record SimErrorDirective : Type := mkSimErrorDirective {
  sed_Op : FSOp;
  sed_Occurrence : Z;
  sed_Point : Z;
  sed_Err : option simError;
}.

Record FSEvent : Type := mkFSEvent {
  fe_Ordinal : Z;
  fe_Op : FSOp;
  fe_Path : string;
  fe_OtherPath : string;
  fe_Occurrence : Z;
  fe_Completed : bool;
}.

(** [simFaultKey]: the operation, the occurrence and the point. *)
Definition simFaultKey : Type := FSOp * Z * Z.

Definition validateSimFault (op : FSOp) (occurrence point : Z) : option error :=
  if bool_decide (op = "") then Some "lsm simfs: fault operation is empty"
  else if negb (isDeclaredFSOp op) then Some "lsm simfs: unknown fault operation"
  else if occurrence =? 0 then Some "lsm simfs: fault occurrence is zero"
  else if negb (point =? SimBeforeOperation) && negb (point =? SimAfterOperation) then Some "lsm simfs: invalid fault point"
  else None.

(** * Inodes and mutations *)

Record simInode : Type := mkInode {
  in_data : bytes;
  in_durable : bytes;
}.

(** [simMutation], with its kind as the constructor. *)
Inductive simMutation : Type :=
  | MutWrite (node : nat) (offset : Z) (data : bytes)
  | MutTruncate (node : nat) (oldSize newSize : Z).

Definition mut_node (m : simMutation) : nat :=
  match m with MutWrite n _ _ => n | MutTruncate n _ _ => n end.

Definition byteCount (m : simMutation) : Z :=
  match m with
  | MutWrite _ _ data => Z.of_nat (length data)
  | MutTruncate _ oldSize newSize => if oldSize <=? newSize then newSize - oldSize else oldSize - newSize
  end.

Definition zeros (n : Z) : bytes := replicate (Z.to_nat n) Byte.x00.

(** [copy(image[offset:offset+len(data)], data)] where the slice is in range. *)
Definition overwrite (image : bytes) (offset : Z) (data : bytes) : bytes :=
  take (Z.to_nat offset) image ++ data ++ drop (Z.to_nat offset + length data) image.

(** [image] grown with zeros to the length [n]. *)
Definition growTo (image : bytes) (n : Z) : bytes := image ++ zeros (n - Z.of_nat (length image)).

(** [applyPrefix]; a slice out of range panics. *)
Definition applyPrefix (m : simMutation) (image : bytes) (retained : Z) : option bytes :=
  match m with
  | MutWrite _ offset data =>
      if (offset <? 0) || (retained <? 0) || (Z.of_nat (length data) <? retained) then None
      else
        let finish := offset + retained in
        let image' := if Z.of_nat (length image) <? finish then growTo image finish else image in
        Some (overwrite image' offset (take (Z.to_nat retained) data))
  | MutTruncate _ oldSize newSize =>
      if newSize <? oldSize then
        if (Z.of_nat (length image) <? retained) || (retained <? 0) then None
        else Some (take (Z.to_nat (Z.of_nat (length image) - retained)) image)
      else if retained <? 0 then None else Some (image ++ zeros retained)
  end.

(** * The file system *)

Record SimFS : Type := mkSimFS {
  sf_live : gmap string nat;
  sf_durableNames : gmap string nat;
  sf_inodes : gmap nat simInode;
  sf_next : nat;
  sf_dirty : list simMutation;
  sf_generation : Z;
  sf_crashed : bool;
  sf_events : list FSEvent;
  sf_opCounts : gmap FSOp Z;
  sf_crashFaults : gmap simFaultKey SimCrashDirective;
  sf_errorFaults : gmap simFaultKey SimErrorDirective;
}.

Record simFile : Type := mkSimFile {
  sl_node : nat;
  sl_path : string;
  sl_offset : Z;
  sl_generation : Z;
  sl_closed : bool;
}.

Definition NewSimFS : SimFS := mkSimFS ∅ ∅ ∅ 0 [] 0 false [] ∅ ∅ ∅.

Definition set_names (live : gmap string nat) (fs : SimFS) : SimFS :=
  mkSimFS live (sf_durableNames fs) (sf_inodes fs) (sf_next fs) (sf_dirty fs) (sf_generation fs) (sf_crashed fs)
    (sf_events fs) (sf_opCounts fs) (sf_crashFaults fs) (sf_errorFaults fs).
Definition set_durableNames (names : gmap string nat) (fs : SimFS) : SimFS :=
  mkSimFS (sf_live fs) names (sf_inodes fs) (sf_next fs) (sf_dirty fs) (sf_generation fs) (sf_crashed fs)
    (sf_events fs) (sf_opCounts fs) (sf_crashFaults fs) (sf_errorFaults fs).
Definition set_inodes (inodes : gmap nat simInode) (dirty : list simMutation) (fs : SimFS) : SimFS :=
  mkSimFS (sf_live fs) (sf_durableNames fs) inodes (sf_next fs) dirty (sf_generation fs) (sf_crashed fs)
    (sf_events fs) (sf_opCounts fs) (sf_crashFaults fs) (sf_errorFaults fs).
Definition set_evidence (events : list FSEvent) (counts : gmap FSOp Z) (fs : SimFS) : SimFS :=
  mkSimFS (sf_live fs) (sf_durableNames fs) (sf_inodes fs) (sf_next fs) (sf_dirty fs) (sf_generation fs) (sf_crashed fs)
    events counts (sf_crashFaults fs) (sf_errorFaults fs).
Definition set_faults (crashes : gmap simFaultKey SimCrashDirective) (errors : gmap simFaultKey SimErrorDirective) (fs : SimFS) : SimFS :=
  mkSimFS (sf_live fs) (sf_durableNames fs) (sf_inodes fs) (sf_next fs) (sf_dirty fs) (sf_generation fs) (sf_crashed fs)
    (sf_events fs) (sf_opCounts fs) crashes errors.

(** * Schedules *)

Fixpoint crashSchedule (directives : list SimCrashDirective) (faults : gmap simFaultKey SimCrashDirective)
    : result (gmap simFaultKey SimCrashDirective) :=
  match directives with
  | [] => Ok faults
  | d :: directives' =>
      match validateSimFault (scd_Op d) (scd_Occurrence d) (scd_Point d) with
      | Some e => Err e
      | None =>
          if scd_RetainUnsynced d <? simRetainAll then Err "lsm simfs: retain is below the minimum"
          else
            let key : simFaultKey := (scd_Op d, scd_Occurrence d, scd_Point d) in
            if bool_decide (is_Some (faults !! key)) then Err "lsm simfs: duplicate crash directive"
            else crashSchedule directives' (<[key := d]> faults)
      end
  end.

Definition SetCrashSchedule (directives : list SimCrashDirective) (fs : SimFS) : SimFS * option error :=
  match crashSchedule directives ∅ with
  | Err e => (fs, Some e)
  | Ok faults => (set_evidence (sf_events fs) ∅ (set_faults faults (sf_errorFaults fs) fs), None)
  end.

Fixpoint errorSchedule (directives : list SimErrorDirective) (faults : gmap simFaultKey SimErrorDirective)
    : result (gmap simFaultKey SimErrorDirective) :=
  match directives with
  | [] => Ok faults
  | d :: directives' =>
      match validateSimFault (sed_Op d) (sed_Occurrence d) (sed_Point d) with
      | Some e => Err e
      | None =>
          match sed_Err d with
          | None => Err "lsm simfs: scheduled error must not be nil"
          | Some _ =>
              let key : simFaultKey := (sed_Op d, sed_Occurrence d, sed_Point d) in
              if bool_decide (is_Some (faults !! key)) then Err "lsm simfs: duplicate error directive"
              else errorSchedule directives' (<[key := d]> faults)
          end
      end
  end.

Definition SetErrorSchedule (directives : list SimErrorDirective) (fs : SimFS) : SimFS * option error :=
  match errorSchedule directives ∅ with
  | Err e => (fs, Some e)
  | Ok faults => (set_evidence (sf_events fs) ∅ (set_faults (sf_crashFaults fs) faults fs), None)
  end.

Definition ResetEvents (fs : SimFS) : SimFS := set_evidence [] ∅ fs.

(** * Crashing *)

(** The surviving image of a node. *)
Definition survivorOf (inodes : gmap nat simInode) (survivors : gmap nat bytes) (node : nat) : bytes :=
  match survivors !! node with
  | Some image => image
  | None => match inodes !! node with Some n => in_durable n | None => [] end
  end.

(** The loop of [crashLocked] over the mutations. *)
Fixpoint crashLoop (all : bool) (remaining : Z) (dirty : list simMutation) (inodes : gmap nat simInode)
    (survivors : gmap nat bytes) : option (gmap nat bytes) :=
  match dirty with
  | [] => Some survivors
  | mutation :: dirty' =>
      let available := byteCount mutation in
      if negb all && (remaining <=? 0) then Some survivors
      else
        let keep := if all then available else Z.min remaining available in
        let remaining' := if all then remaining else remaining - keep in
        match applyPrefix mutation (survivorOf inodes survivors (mut_node mutation)) keep with
        | None => None
        | Some image =>
            let survivors' := <[mut_node mutation := image]> survivors in
            if negb (keep =? available) then Some survivors'
            else crashLoop all remaining' dirty' inodes survivors'
        end
  end.

(** What a crash leaves of the inode [id], when a durable name refers to it. *)
Definition crashInode (names : gmap string nat) (survivors : gmap nat bytes) (id : nat) (node : simInode) : simInode :=
  if bool_decide (id ∈ (map_to_list names).*2) then
    match survivors !! id with
    | Some image => mkInode image image
    | None => mkInode (in_durable node) (in_durable node)
    end
  else node.

Definition crashLocked (retain : Z) (fs : SimFS) : option SimFS :=
  match crashLoop (retain =? simRetainAll) retain (sf_dirty fs) (sf_inodes fs) ∅ with
  | None => None
  | Some survivors =>
      Some (mkSimFS (sf_durableNames fs) (sf_durableNames fs)
              (map_imap (fun id node => Some (crashInode (sf_durableNames fs) survivors id node)) (sf_inodes fs))
              (sf_next fs) [] (sf_generation fs +u 1) true (sf_events fs) (sf_opCounts fs) (sf_crashFaults fs) (sf_errorFaults fs))
  end.

(** [Crash]. *)
Definition sim_Crash (retain : Z) (fs : SimFS) : option (SimFS * option simError) :=
  if sf_crashed fs then Some (fs, Some simErrCrash)
  else if retain <? simRetainAll then Some (fs, Some (simErrOther "lsm simfs: retain is below the minimum"))
  else match crashLocked retain fs with None => None | Some fs' => Some (fs', None) end.

(** [Recover]. *)
Definition sim_Recover (fs : SimFS) : SimFS * option simError :=
  if negb (sf_crashed fs) then (fs, Some (simErrOther "lsm simfs: Recover called while running"))
  else (mkSimFS (sf_live fs) (sf_durableNames fs) (sf_inodes fs) (sf_next fs) (sf_dirty fs) (sf_generation fs) false
          (sf_events fs) (sf_opCounts fs) (sf_crashFaults fs) (sf_errorFaults fs), None).

(** [DurableBytes] and [LiveBytes]. *)
Definition DurableBytes (name : string) (fs : SimFS) : simError + bytes :=
  match sf_durableNames fs !! cleanPath name with
  | None => inl simErrNotExist
  | Some id => inr (match sf_inodes fs !! id with Some n => in_durable n | None => [] end)
  end.

Definition LiveBytes (name : string) (fs : SimFS) : simError + bytes :=
  match sf_live fs !! cleanPath name with
  | None => inl simErrNotExist
  | Some id => inr (match sf_inodes fs !! id with Some n => in_data n | None => [] end)
  end.

(** * The start and the end of an operation *)

(** [beginLocked]: the index of the event, and the error. *)
Definition sim_beginLocked (op : FSOp) (path otherPath : string) (fs : SimFS) : option (SimFS * (nat * option simError)) :=
  if sf_crashed fs then Some (fs, (0%nat, Some simErrCrash))
  else
    let occurrence := default 0 (sf_opCounts fs !! op) +u 1 in
    let event := length (sf_events fs) in
    let fs1 := set_evidence (sf_events fs ++ [mkFSEvent (Z.of_nat event + 1) op path otherPath occurrence false])
                 (<[op := occurrence]> (sf_opCounts fs)) fs in
    let key : simFaultKey := (op, occurrence, SimBeforeOperation) in
    match sf_errorFaults fs1 !! key with
    | Some d => Some (set_faults (sf_crashFaults fs1) (delete key (sf_errorFaults fs1)) fs1, (event, sed_Err d))
    | None =>
        match sf_crashFaults fs1 !! key with
        | Some d =>
            match crashLocked (scd_RetainUnsynced d) (set_faults (delete key (sf_crashFaults fs1)) (sf_errorFaults fs1) fs1) with
            | None => None
            | Some fs2 => Some (fs2, (event, Some simErrCrash))
            end
        | None => Some (fs1, (event, None))
        end
    end.

(** [finishLocked]. *)
Definition sim_finishLocked (event : nat) (fs : SimFS) : option (SimFS * option simError) :=
  match sf_events fs !! event with
  | None => None
  | Some entry =>
      let entry' := mkFSEvent (fe_Ordinal entry) (fe_Op entry) (fe_Path entry) (fe_OtherPath entry) (fe_Occurrence entry) true in
      let fs1 := set_evidence (<[event := entry']> (sf_events fs)) (sf_opCounts fs) fs in
      let key : simFaultKey := (fe_Op entry, fe_Occurrence entry, SimAfterOperation) in
      match sf_errorFaults fs1 !! key with
      | Some d => Some (set_faults (sf_crashFaults fs1) (delete key (sf_errorFaults fs1)) fs1, sed_Err d)
      | None =>
          match sf_crashFaults fs1 !! key with
          | Some d =>
              match crashLocked (scd_RetainUnsynced d) (set_faults (delete key (sf_crashFaults fs1)) (sf_errorFaults fs1) fs1) with
              | None => None
              | Some fs2 => Some (fs2, Some simErrCrash)
              end
          | None => Some (fs1, None)
          end
      end
  end.

(** An operation: it begins, does [body] on the file system when the beginning reports no
    error, and ends with [sim_finishLocked]; [body] may report an error of its own, before
    the end. *)
Definition sim_operation {A} (op : FSOp) (path otherPath : string) (body : SimFS -> SimFS * (simError + A)) (fs : SimFS)
    : option (SimFS * (simError + A)) :=
  match sim_beginLocked op path otherPath fs with
  | None => None
  | Some (fs1, (_, Some e)) => Some (fs1, inl e)
  | Some (fs1, (event, None)) =>
      match body fs1 with
      | (fs2, inl e) => Some (fs2, inl e)
      | (fs2, inr a) =>
          match sim_finishLocked event fs2 with
          | None => None
          | Some (fs3, Some e) => Some (fs3, inl e)
          | Some (fs3, None) => Some (fs3, inr a)
          end
      end
  end.

(** * The operations on names *)

Definition sim_Create (name0 : string) : SimFS -> option (SimFS * (simError + simFile)) :=
  let name := cleanPath name0 in
  sim_operation FSOpCreate name "" (fun fs =>
    match sf_live fs !! name with
    | Some _ => (fs, inl simErrExist)
    | None =>
        let id := sf_next fs in
        (mkSimFS (<[name := id]> (sf_live fs)) (sf_durableNames fs) (<[id := mkInode [] []]> (sf_inodes fs)) (S id)
           (sf_dirty fs) (sf_generation fs) (sf_crashed fs) (sf_events fs) (sf_opCounts fs) (sf_crashFaults fs) (sf_errorFaults fs),
         inr (mkSimFile id name 0 (sf_generation fs) false))
    end).

Definition inodeData (id : nat) (fs : SimFS) : bytes :=
  match sf_inodes fs !! id with Some n => in_data n | None => [] end.

Definition sim_open (name0 : string) (appendMode : bool) : SimFS -> option (SimFS * (simError + simFile)) :=
  let name := cleanPath name0 in
  sim_operation (if appendMode then FSOpOpenAppend else FSOpOpen) name "" (fun fs =>
    match sf_live fs !! name with
    | None => (fs, inl simErrNotExist)
    | Some id =>
        let offset := if appendMode then Z.of_nat (length (inodeData id fs)) else 0 in
        (fs, inr (mkSimFile id name offset (sf_generation fs) false))
    end).

Definition sim_Open (name : string) : SimFS -> option (SimFS * (simError + simFile)) := sim_open name false.
Definition sim_OpenAppend (name : string) : SimFS -> option (SimFS * (simError + simFile)) := sim_open name true.

Definition inDir (dir : string) (p : string * nat) : Prop := pathDir p.1 = dir.

#[export] Instance inDir_dec dir p : Decision (inDir dir p).
Proof. unfold inDir. apply _. Defined.

Definition sim_SyncDir (name0 : string) : SimFS -> option (SimFS * (simError + unit)) :=
  let name := cleanPath name0 in
  sim_operation FSOpDirSync name "" (fun fs =>
    let kept := filter (fun p => ~ inDir name p) (sf_durableNames fs) in
    (set_durableNames (filter (inDir name) (sf_live fs) ∪ kept) fs, inr tt)).

Definition sim_Rename (oldName0 newName0 : string) : SimFS -> option (SimFS * (simError + unit)) :=
  let oldName := cleanPath oldName0 in
  let newName := cleanPath newName0 in
  sim_operation FSOpRename oldName newName (fun fs =>
    match sf_live fs !! oldName with
    | None => (fs, inl simErrNotExist)
    | Some id => (set_names (<[newName := id]> (delete oldName (sf_live fs))) fs, inr tt)
    end).

Definition sim_Link (oldName0 newName0 : string) : SimFS -> option (SimFS * (simError + unit)) :=
  let oldName := cleanPath oldName0 in
  let newName := cleanPath newName0 in
  sim_operation FSOpLink oldName newName (fun fs =>
    match sf_live fs !! oldName, sf_live fs !! newName with
    | None, _ => (fs, inl simErrNotExist)
    | Some _, Some _ => (fs, inl simErrExist)
    | Some id, None => (set_names (<[newName := id]> (sf_live fs)) fs, inr tt)
    end).

Definition sim_Remove (name0 : string) : SimFS -> option (SimFS * (simError + unit)) :=
  let name := cleanPath name0 in
  sim_operation FSOpRemove name "" (fun fs =>
    match sf_live fs !! name with
    | None => (fs, inl simErrNotExist)
    | Some _ => (set_names (delete name (sf_live fs)) fs, inr tt)
    end).

Definition sim_List (name0 : string) : SimFS -> option (SimFS * (simError + list string)) :=
  let name := cleanPath name0 in
  sim_operation FSOpList name "" (fun fs =>
    (fs, inr (sort_by String.leb ((fun p => pathBase p.1) <$> filter (inDir name) (map_to_list (sf_live fs)))))).

(** [Stat]: the size; directories are implicit. *)
Definition sim_Stat (name0 : string) : SimFS -> option (SimFS * (simError + Z)) :=
  let name := cleanPath name0 in
  sim_operation FSOpStat name "" (fun fs =>
    match sf_live fs !! name with
    | None => (fs, inl simErrNotExist)
    | Some id => (fs, inr (Z.of_nat (length (inodeData id fs))))
    end).

(** * The operations on handles *)

(** [beginLocked] of a handle: a handle that was closed, or is from before a crash, is
    refused. *)
Definition file_beginLocked (op : FSOp) (file : simFile) (fs : SimFS) : option (SimFS * (nat * option simError)) :=
  if sl_closed file || negb (sl_generation file =? sf_generation fs) then Some (fs, (0%nat, Some simErrFSClosed))
  else sim_beginLocked op (sl_path file) "" fs.

(** The result of a read or a write: the handle, the number of bytes (with the bytes read)
    and the error. *)
Definition sim_io : Type := simFile * bytes * Z * option simError.

Definition seek (offset : Z) (file : simFile) : simFile :=
  mkSimFile (sl_node file) (sl_path file) offset (sl_generation file) (sl_closed file).

(** [finishLocked] at the end of a read or a write that transferred [n] bytes; the error of
    the operation itself comes second. *)
Definition finish_io (event : nat) (file : simFile) (bs : bytes) (n : Z) (err : option simError) (fs : SimFS)
    : option (SimFS * sim_io) :=
  match sim_finishLocked event fs with
  | None => None
  | Some (fs', Some e) => Some (fs', (file, bs, n, Some e))
  | Some (fs', None) => Some (fs', (file, bs, n, err))
  end.

Definition file_Read (len : Z) (file : simFile) (fs : SimFS) : option (SimFS * sim_io) :=
  match file_beginLocked FSOpRead file fs with
  | None => None
  | Some (fs1, (_, Some e)) => Some (fs1, (file, [], 0, Some e))
  | Some (fs1, (event, None)) =>
      let data := inodeData (sl_node file) fs1 in
      if Z.of_nat (length data) <=? sl_offset file then
        finish_io event file [] 0 (Some simErrEOF) fs1
      else if sl_offset file <? 0 then None
      else
        let bs := take (Z.to_nat len) (drop (Z.to_nat (sl_offset file)) data) in
        let n := Z.of_nat (length bs) in
        finish_io event (seek (sl_offset file +i n) file) bs n (if n <? len then Some simErrEOF else None) fs1
  end.

Definition file_ReadAt (len offset : Z) (file : simFile) (fs : SimFS) : option (SimFS * sim_io) :=
  match file_beginLocked FSOpRead file fs with
  | None => None
  | Some (fs1, (_, Some e)) => Some (fs1, (file, [], 0, Some e))
  | Some (fs1, (event, None)) =>
      let data := inodeData (sl_node file) fs1 in
      if offset <? 0 then Some (fs1, (file, [], 0, Some (simErrOther "lsm simfs: negative read offset")))
      else if Z.of_nat (length data) <=? offset then finish_io event file [] 0 (Some simErrEOF) fs1
      else
        let bs := take (Z.to_nat len) (drop (Z.to_nat offset) data) in
        let n := Z.of_nat (length bs) in
        finish_io event file bs n (if n <? len then Some simErrEOF else None) fs1
  end.

Definition recordWriteLocked (node : nat) (offset : Z) (data : bytes) (dirty : list simMutation) : list simMutation :=
  if Nat.eqb (length data) 0 then dirty else dirty ++ [MutWrite node offset data].

Definition set_data (id : nat) (data : bytes) (inodes : gmap nat simInode) : gmap nat simInode :=
  alter (fun n => mkInode data (in_durable n)) id inodes.

Definition file_Write (src : bytes) (file : simFile) (fs : SimFS) : option (SimFS * sim_io) :=
  match file_beginLocked FSOpWrite file fs with
  | None => None
  | Some (fs1, (_, Some e)) => Some (fs1, (file, [], 0, Some e))
  | Some (fs1, (event, None)) =>
      if (sl_offset file <? 0) || (max_i64 <? sl_offset file)
      then Some (fs1, (file, [], 0, Some (simErrOther "lsm simfs: invalid write offset")))
      else
        let len := Z.of_nat (length src) in
        let finish := sl_offset file +i len in
        if (finish <? sl_offset file) || (max_i64 <? u64 finish)
        then Some (fs1, (file, [], 0, Some (simErrOther "lsm simfs: write size overflow")))
        else
          let data := inodeData (sl_node file) fs1 in
          let data1 := if Z.of_nat (length data) <? finish then growTo data finish else data in
          let data2 := overwrite data1 (sl_offset file) src in
          let dirty := recordWriteLocked (sl_node file) (sl_offset file) src (sf_dirty fs1) in
          finish_io event (seek finish file) [] len None (set_inodes (set_data (sl_node file) data2 (sf_inodes fs1)) dirty fs1)
  end.

Definition clearDirtyLocked (node : nat) (dirty : list simMutation) : list simMutation :=
  filter (fun m => mut_node m <> node) dirty.

Definition sync_inode (n : simInode) : simInode := mkInode (in_data n) (in_data n).

(** [Sync] of a handle, [Truncate] and [Close]. *)
Definition sim_file_Sync (file : simFile) (fs : SimFS) : option (SimFS * option simError) :=
  match file_beginLocked FSOpFileSync file fs with
  | None => None
  | Some (fs1, (_, Some e)) => Some (fs1, Some e)
  | Some (fs1, (event, None)) =>
      sim_finishLocked event
        (set_inodes (alter sync_inode (sl_node file) (sf_inodes fs1)) (clearDirtyLocked (sl_node file) (sf_dirty fs1)) fs1)
  end.

Definition sim_file_Truncate (size : Z) (file : simFile) (fs : SimFS) : option (SimFS * (simFile * option simError)) :=
  match file_beginLocked FSOpTruncate file fs with
  | None => None
  | Some (fs1, (_, Some e)) => Some (fs1, (file, Some e))
  | Some (fs1, (event, None)) =>
      if (size <? 0) || (max_i64 <? u64 size) then Some (fs1, (file, Some (simErrOther "lsm simfs: invalid truncate size")))
      else
        let data := inodeData (sl_node file) fs1 in
        let oldSize := Z.of_nat (length data) in
        let dirty := if size =? oldSize then sf_dirty fs1 else sf_dirty fs1 ++ [MutTruncate (sl_node file) oldSize size] in
        let data' := if size <=? oldSize then take (Z.to_nat size) data else growTo data size in
        let file' := if size <? sl_offset file then seek size file else file in
        match sim_finishLocked event (set_inodes (set_data (sl_node file) data' (sf_inodes fs1)) dirty fs1) with
        | None => None
        | Some (fs2, err) => Some (fs2, (file', err))
        end
  end.

Definition sim_file_Close (file : simFile) (fs : SimFS) : option (SimFS * (simFile * option simError)) :=
  if sl_closed file then Some (fs, (file, Some simErrFSClosed))
  else
    match file_beginLocked FSOpClose file fs with
    | None => None
    | Some (fs1, (_, Some e)) => Some (fs1, (file, Some e))
    | Some (fs1, (event, None)) =>
        let file' := mkSimFile (sl_node file) (sl_path file) (sl_offset file) (sl_generation file) true in
        match sim_finishLocked event fs1 with
        | None => None
        | Some (fs2, err) => Some (fs2, (file', err))
        end
    end.
