(* ===== verification/SimFSFacts.v ===== *)
(** The bookkeeping of the simulated file system: the recorded mutations of a file, replayed
    over its synced bytes, always give its live bytes ([sim_ok]).  A crash then never panics
    and leaves each durable file a cut of its mutations. *)

From S2P Require Import Prelude Proto RaftLog RaftNode Storage Bytes WalRecords DiskLog DiskLogFacts MapSM Manifest ManifestFacts SimFS.

(** * Replaying mutations *)

(** The mutation was recorded on the bytes [image]: a write within the sizes the file system
    admits, a truncation of exactly these bytes. *)
Definition mut_fits (m : simMutation) (image : bytes) : bool :=
  match m with
  | MutWrite _ offset data => (0 <=? offset) && (offset + Z.of_nat (length data) <=? max_i64)
  | MutTruncate _ oldSize newSize => (oldSize =? Z.of_nat (length image)) && (0 <=? newSize) && (newSize <=? max_i64)
  end.

(** All the mutations applied, each whole. *)
Fixpoint replayMuts (ms : list simMutation) (image : bytes) : option bytes :=
  match ms with
  | [] => Some image
  | m :: ms' =>
      if mut_fits m image
      then match applyPrefix m image (byteCount m) with None => None | Some image' => replayMuts ms' image' end
      else None
  end.

Definition small (image : bytes) : Prop := Z.of_nat (length image) <= max_i64.

Definition on_node (id : nat) (ms : list simMutation) : list simMutation := filter (fun m => mut_node m = id) ms.

Lemma replayMuts_app ms ms' image :
  replayMuts (ms ++ ms') image = match replayMuts ms image with None => None | Some image' => replayMuts ms' image' end.
Proof.
  revert image. induction ms as [|m ms IH]; intros image; cbn [app replayMuts]; [done|].
  destruct (mut_fits m image); [|done]. destruct (applyPrefix _ _ _); [apply IH|done].
Qed.

Lemma byteCount_nonneg m : 0 <= byteCount m.
Proof. destruct m as [n off d|n a b]; cbn [byteCount]; [lia|]. destruct (Z.leb_spec a b); lia. Qed.

Lemma length_zeros n : length (zeros n) = Z.to_nat n.
Proof. apply length_replicate. Qed.

Lemma length_growTo image n : Z.of_nat (length image) <= n -> Z.of_nat (length (growTo image n)) = n.
Proof. intros H. unfold growTo. rewrite length_app, length_zeros. lia. Qed.

Lemma length_overwrite image offset data :
  0 <= offset -> offset + Z.of_nat (length data) <= Z.of_nat (length image) -> length (overwrite image offset data) = length image.
Proof. intros H1 H2. unfold overwrite. rewrite !length_app, length_take, length_drop. lia. Qed.

(** A mutation applies, whole or in part, to bytes it was recorded on. *)
Lemma applyPrefix_partial m image c :
  mut_fits m image = true -> small image -> 0 <= c <= byteCount m -> exists part, applyPrefix m image c = Some part /\ small part.
Proof.
  unfold small. destruct m as [n off d|n a b]; cbn [applyPrefix byteCount mut_fits]; intros Hf Hs Hc.
  - apply andb_true_iff in Hf as [H1%Z.leb_le H2%Z.leb_le]. rewrite !(proj2 (Z.ltb_ge _ _)) by lia. cbn [orb]. eexists. split; [done|].
    destruct (Z.ltb_spec (Z.of_nat (length image)) (off + c)) as [Hlt|Hge].
    + rewrite length_overwrite; [|lia|rewrite length_growTo, length_take by lia; lia]. rewrite length_growTo by lia. lia.
    + rewrite length_overwrite by (rewrite ?length_take; lia). lia.
  - apply andb_true_iff in Hf as [[->%Z.eqb_eq H1%Z.leb_le]%andb_true_iff H2%Z.leb_le]. destruct (Z.ltb_spec b (Z.of_nat (length image))) as [Hlt|Hge].
    + rewrite (proj2 (Z.leb_gt _ _)) in Hc by lia. rewrite !(proj2 (Z.ltb_ge _ _)) by lia. cbn [orb]. eexists. split; [done|]. rewrite length_take. lia.
    + rewrite (proj2 (Z.leb_le _ _)) in Hc by lia. rewrite (proj2 (Z.ltb_ge _ _)) by lia. eexists. split; [done|]. rewrite length_app, length_zeros. lia.
Qed.

(** [img] is [image] after a prefix of the mutations, the last one perhaps in part. *)
Definition cut (image : bytes) (ms : list simMutation) (img : bytes) : Prop :=
  exists pre post mid, ms = pre ++ post /\ replayMuts pre image = Some mid /\
    (img = mid \/ exists m post' c, post = m :: post' /\ 0 <= c <= byteCount m /\ applyPrefix m mid c = Some img).

Lemma cut_nil image ms : cut image ms image.
Proof. exists [], ms, image. split_and!; [done|done|by left]. Qed.

Lemma cut_cons m ms image image' img :
  mut_fits m image = true -> applyPrefix m image (byteCount m) = Some image' -> cut image' ms img -> cut image (m :: ms) img.
Proof.
  intros Hf Hm (pre & post & mid & -> & Hr & H). exists (m :: pre), post, mid. split_and!; [done|by cbn [replayMuts]; rewrite Hf, Hm|done].
Qed.

Lemma survivor_insert inodes survivors id image id' :
  survivorOf inodes (<[id := image]> survivors) id' = if decide (id' = id) then image else survivorOf inodes survivors id'.
Proof.
  unfold survivorOf. destruct (decide (id' = id)) as [->|]; [by rewrite lookup_insert_eq|by rewrite lookup_insert_ne].
Qed.

Lemma on_node_cons id m ms : on_node id (m :: ms) = if decide (mut_node m = id) then m :: on_node id ms else on_node id ms.
Proof. unfold on_node. rewrite filter_cons. done. Qed.

(** The loop of a crash does not panic; it leaves each node a cut of its mutations, and all
    of them when every byte is retained. *)
Lemma crashLoop_ok all remaining dirty inodes survivors :
  (forall id, exists final, replayMuts (on_node id dirty) (survivorOf inodes survivors id) = Some final) ->
  (forall id, small (survivorOf inodes survivors id)) ->
  exists survivors', crashLoop all remaining dirty inodes survivors = Some survivors' /\
    forall id, cut (survivorOf inodes survivors id) (on_node id dirty) (survivorOf inodes survivors' id) /\
      small (survivorOf inodes survivors' id) /\
      (all = true -> replayMuts (on_node id dirty) (survivorOf inodes survivors id) = Some (survivorOf inodes survivors' id)).
Proof.
  revert remaining survivors. induction dirty as [|m dirty IH]; intros remaining survivors H Hsm; cbn [crashLoop].
  { exists survivors. split; [done|]. intros id. split; [apply cut_nil|done]. }
  cbv zeta. destruct (negb all && (remaining <=? 0)) eqn:Estop.
  { exists survivors. split; [done|]. intros id. split; [apply cut_nil|]. split; [done|]. intros ->. done. }
  set (keep := if all then byteCount m else Z.min remaining (byteCount m)).
  assert (0 <= keep <= byteCount m) as Hk.
  { pose proof (byteCount_nonneg m). unfold keep. destruct all; [lia|]. cbn [negb andb] in Estop. apply Z.leb_gt in Estop. lia. }
  destruct (H (mut_node m)) as [final Hfin]. rewrite on_node_cons, decide_True in Hfin by done. cbn [replayMuts] in Hfin.
  destruct (mut_fits m _) eqn:Efit; [|done]. destruct (applyPrefix m _ (byteCount m)) as [image|] eqn:Ea; [|done].
  destruct (applyPrefix_partial m _ keep Efit (Hsm _) Hk) as (part & Ep & Hpart). rewrite Ep.
  assert (forall id, small (survivorOf inodes (<[mut_node m := part]> survivors) id)) as Hsm'.
  { intros id. rewrite survivor_insert. by destruct (decide _). }
  destruct (Z.eqb_spec keep (byteCount m)) as [Eq|Hne]; cbn [negb]; last first.
  { eexists. split; [done|]. intros id. split; [|split; [apply Hsm'|intros ->; unfold keep in Hne; lia]].
    rewrite on_node_cons, survivor_insert.
    destruct (decide (mut_node m = id)) as [<-|Hn]; [rewrite decide_True by done|rewrite decide_False by done; apply cut_nil].
    exists [], (m :: on_node (mut_node m) dirty), (survivorOf inodes survivors (mut_node m)). split_and!; [done|done|].
    right. exists m, (on_node (mut_node m) dirty), keep. done. }
  rewrite Eq in Ep. assert (part = image) as -> by congruence.
  destruct (IH (if all then remaining else remaining - keep) (<[mut_node m := image]> survivors)) as (S' & ES & Hcut); [|done|].
  { intros id. rewrite survivor_insert. destruct (decide (id = mut_node m)) as [->|Hn]; [eauto|].
    destruct (H id) as [f Hf]. rewrite on_node_cons, decide_False in Hf by done. eauto. }
  exists S'. split; [done|]. intros id. destruct (Hcut id) as (H1 & Hs1 & H2). rewrite survivor_insert in H1, H2. rewrite on_node_cons.
  destruct (decide (id = mut_node m)) as [->|Hn].
  - rewrite decide_True by done. split; [by eapply cut_cons|]. split; [done|]. intros Hall. cbn [replayMuts]. rewrite Efit, Ea. by apply H2.
  - rewrite decide_False by done. split; [done|]. split; [done|]. intros Hall. by apply H2.
Qed.

(** * The invariant *)

Section invariant.

(** The inode is named, or open in a handle of the current generation. *)
Definition current (handles : list simFile) (fs : SimFS) (id : nat) : Prop :=
  (exists name, sf_live fs !! name = Some id) \/ (exists name, sf_durableNames fs !! name = Some id) \/
  (exists f, f ∈ handles /\ sl_generation f = sf_generation fs /\ sl_node f = id).

Record sim_ok (handles : list simFile) (fs : SimFS) : Prop := {
  so_alloc id n : sf_inodes fs !! id = Some n -> (id < sf_next fs)%nat;
  so_current id : current handles fs id -> is_Some (sf_inodes fs !! id);
  so_handles f : f ∈ handles -> is_Some (sf_inodes fs !! sl_node f) /\ sl_generation f <= sf_generation fs /\ 0 <= sl_offset f <= max_i64;
  so_small id n : sf_inodes fs !! id = Some n -> small (in_durable n) /\ small (in_data n);
  so_dirty m : m ∈ sf_dirty fs -> exists f, f ∈ handles /\ sl_generation f = sf_generation fs /\ sl_node f = mut_node m;
  so_replay id n : sf_inodes fs !! id = Some n -> current handles fs id ->
    replayMuts (on_node id (sf_dirty fs)) (in_durable n) = Some (in_data n);
  so_generation : 0 <= sf_generation fs;
}.

(** The files of two states are the same. *)
Record same_files (fs fs' : SimFS) : Prop := {
  sm_live : sf_live fs' = sf_live fs;
  sm_durable : sf_durableNames fs' = sf_durableNames fs;
  sm_inodes : sf_inodes fs' = sf_inodes fs;
  sm_next : sf_next fs' = sf_next fs;
  sm_dirty : sf_dirty fs' = sf_dirty fs;
  sm_generation : sf_generation fs' = sf_generation fs;
}.

Lemma same_ok handles fs fs' : same_files fs fs' -> sim_ok handles fs -> sim_ok handles fs'.
Proof.
  intros [E1 E2 E3 E4 E5 E6] [O1 O2 O3 Osm O4 O5 O6].
  assert (forall id, current handles fs' id <-> current handles fs id) as Hc by (intros id; unfold current; by rewrite E1, E2, E6).
  split; rewrite ?E3, ?E4, ?E5, ?E6; try done.
  - intros id. rewrite Hc. apply O2.
  - intros id n. rewrite Hc. apply O5.
Qed.

Lemma new_ok : sim_ok [] NewSimFS.
Proof.
  assert (forall id, ~ current [] NewSimFS id) as Hc.
  { intros id [(n & Hn)|[(n & Hn)|(f & Hf & _)]]; cbn [NewSimFS sf_live sf_durableNames] in *; [by rewrite lookup_empty in Hn..|by apply elem_of_nil in Hf]. }
  split; cbn [NewSimFS sf_inodes sf_dirty sf_generation].
  - intros id n Hn. by rewrite lookup_empty in Hn.
  - by intros id ?%Hc.
  - by intros f ?%elem_of_nil.
  - intros id n Hn. by rewrite lookup_empty in Hn.
  - by intros m ?%elem_of_nil.
  - intros id n Hn. by rewrite lookup_empty in Hn.
  - done.
Qed.

(** * A crash *)

Lemma on_node_none id ms : (forall m, m ∈ ms -> mut_node m <> id) -> on_node id ms = [].
Proof.
  intros H. destruct (on_node id ms) as [|m l] eqn:E; [done|]. exfalso. assert (m ∈ on_node id ms) as Hm by (rewrite E; by left).
  apply list_elem_of_filter in Hm as [Hid Hm]. by apply (H m).
Qed.

Lemma on_node_all id ms : (forall m, m ∈ ms -> mut_node m = id) -> on_node id ms = ms.
Proof.
  induction ms as [|m ms IH]; intros H; [done|]. rewrite on_node_cons, decide_True by (apply H; by left).
  f_equal. apply IH. intros m' Hm'. apply H. by right.
Qed.

Lemma on_node_app id ms ms' : on_node id (ms ++ ms') = on_node id ms ++ on_node id ms'.
Proof. apply filter_app. Qed.

(** What a crash leaves of the file of a durable name. *)
Record crash_kept (retain : Z) (fs fs' : SimFS) (id : nat) : Prop := {
  ck_image : exists n image, sf_inodes fs !! id = Some n /\ sf_inodes fs' !! id = Some (mkInode image image) /\
    cut (in_durable n) (on_node id (sf_dirty fs)) image /\
    (retain = simRetainAll -> image = in_data n) /\
    (on_node id (sf_dirty fs) = [] -> image = in_data n);
}.

Lemma crash_ok handles retain fs :
  sim_ok handles fs -> sf_generation fs < max_u64 ->
  exists fs', crashLocked retain fs = Some fs' /\ sim_ok handles fs' /\ sf_crashed fs' = true /\ sf_dirty fs' = [] /\
    sf_live fs' = sf_durableNames fs /\ sf_durableNames fs' = sf_durableNames fs /\ sf_generation fs' = sf_generation fs + 1 /\
    forall name id, sf_durableNames fs !! name = Some id -> crash_kept retain fs fs' id.
Proof.
  intros Hok Hgen. pose proof Hok as [O1 O2 O3 Osm O4 O5 O6]. unfold crashLocked.
  destruct (crashLoop_ok (retain =? simRetainAll) retain (sf_dirty fs) (sf_inodes fs) ∅) as (S' & -> & HS).
  { intros id. destruct (on_node id (sf_dirty fs)) as [|m l] eqn:E; [by eexists|]. assert (m ∈ on_node id (sf_dirty fs)) as Hm by (rewrite E; by left).
    apply list_elem_of_filter in Hm as [<- Hm].
    assert (current handles fs (mut_node m)) as Hcm by (right; right; by apply O4). destruct (O2 _ Hcm) as [n Hn]. exists (in_data n).
    rewrite <- E. unfold survivorOf. rewrite lookup_empty, Hn. by apply O5. }
  { intros id. unfold survivorOf. rewrite lookup_empty. destruct (sf_inodes fs !! id) as [n|] eqn:Hn; [by eapply Osm|done]. }
  assert (forall id n, sf_inodes fs !! id = Some n -> forall name, sf_durableNames fs !! name = Some id ->
    crashInode (sf_durableNames fs) S' id n = mkInode (survivorOf (sf_inodes fs) S' id) (survivorOf (sf_inodes fs) S' id)) as Himg.
  { intros id n Hn name Hname. unfold crashInode, survivorOf. rewrite bool_decide_true; [destruct (S' !! id); [done|by rewrite Hn]|].
    apply list_elem_of_fmap. exists (name, id). split; [done|]. by apply elem_of_map_to_list. }
  eexists. split; [done|]. cbn [sf_live sf_durableNames sf_inodes sf_next sf_dirty sf_generation sf_crashed].
  assert (sf_generation fs +u 1 = sf_generation fs + 1) as Eg by (apply u64_add_small; unfold max_u64 in *; lia).
  set (fs' := mkSimFS _ _ _ _ _ _ _ _ _ _ _).
  assert (forall id, current handles fs' id -> exists name, sf_durableNames fs !! name = Some id) as Hcur.
  { intros id [Hc|[Hc|(f & Hf & Hgf & _)]]; [exact Hc|exact Hc|]. destruct (O3 f Hf) as (_ & Hle & _). subst fs'. cbn in Hgf. rewrite Eg in Hgf. lia. }
  split_and!; try done.
  - split; subst fs'; cbn [sf_live sf_durableNames sf_inodes sf_next sf_dirty sf_generation sf_crashed] in *.
    + intros id n. rewrite map_lookup_imap. intros (n0 & Hn0 & _)%bind_Some. by eapply O1.
    + intros id [name Hname]%Hcur. destruct (O2 id) as [n Hn]; [right; left; eauto|]. rewrite map_lookup_imap, Hn. by eexists.
    + intros f Hf. destruct (O3 f Hf) as ([n Hn] & Hle & Hoff). rewrite map_lookup_imap, Hn, Eg. split; [by eexists|lia].
    + intros id n. rewrite map_lookup_imap. intros (n0 & Hn0 & [= <-])%bind_Some. destruct (HS id) as (_ & Hsi & _).
      unfold crashInode, survivorOf in *. rewrite Hn0 in Hsi. case_bool_decide; [|by eapply Osm]. by destruct (S' !! id).
    + by intros m ?%elem_of_nil.
    + intros id n. rewrite map_lookup_imap. intros (n0 & Hn0 & [= <-])%bind_Some [name Hname]%Hcur. by rewrite (Himg id n0 Hn0 name Hname).
    + rewrite Eg. lia.
  - intros name id Hname. destruct (O2 id) as [n Hn]; [right; left; eauto|]. destruct (HS id) as (Hcut & _ & Hall).
    assert (survivorOf (sf_inodes fs) ∅ id = in_durable n) as E0 by (unfold survivorOf; by rewrite lookup_empty, Hn). rewrite E0 in Hcut, Hall.
    assert (replayMuts (on_node id (sf_dirty fs)) (in_durable n) = Some (in_data n)) as Hr by (apply O5; [done|right; left; eauto]).
    split. exists n, (survivorOf (sf_inodes fs) S' id). split_and!; [done| |done| |].
    + subst fs'. cbn [sf_inodes]. rewrite map_lookup_imap, Hn. cbn [mbind option_bind]. by rewrite (Himg id n Hn name Hname).
    + intros ->. specialize (Hall eq_refl). congruence.
    + intros En. rewrite En in Hcut, Hr. destruct Hcut as (pre & post & mid & Epp & Hrp & Hor). symmetry in Epp. apply app_nil in Epp as [-> ->].
      cbn in Hrp, Hr. destruct Hor as [->|(m & post' & c & ? & _)]; [congruence|done].
Qed.

(** * The start and the end of an operation *)

Lemma begin_ok handles op path other fs :
  sim_ok handles fs -> sf_generation fs < max_u64 ->
  exists fs1 event err, sim_beginLocked op path other fs = Some (fs1, (event, err)) /\ sim_ok handles fs1 /\
    (err = None -> same_files fs fs1 /\ (event < length (sf_events fs1))%nat /\ sf_crashed fs1 = false).
Proof.
  intros Hok Hg. unfold sim_beginLocked. destruct (sf_crashed fs) eqn:Ec; [by eexists _, _, _|]. cbv zeta.
  set (fs0 := set_evidence _ _ fs). assert (same_files fs fs0) as Hs by (by split).
  assert ((length (sf_events fs) < length (sf_events fs0))%nat) as Hl by (subst fs0; cbn; rewrite length_app; simpl; lia).
  destruct (sf_errorFaults fs0 !! _) as [d|].
  { eexists _, _, _. split; [done|]. split; [apply (same_ok handles fs0); [by split|by eapply same_ok]|]. intros _. split_and!; [by split|done|done]. }
  destruct (sf_crashFaults fs0 !! _) as [d|]; last first.
  { eexists _, _, _. split; [done|]. split; [by eapply same_ok|done]. }
  set (fsc := set_faults _ _ fs0). assert (sim_ok handles fsc) as Hc by (apply (same_ok handles fs); [by split|done]).
  destruct (crash_ok handles (scd_RetainUnsynced d) fsc Hc) as (fs2 & -> & Hok2 & _); [done|]. by eexists _, _, _.
Qed.

Lemma finish_ok handles event fs :
  sim_ok handles fs -> sf_generation fs < max_u64 -> (event < length (sf_events fs))%nat ->
  exists fs' err, sim_finishLocked event fs = Some (fs', err) /\ sim_ok handles fs'.
Proof.
  intros Hok Hg Hl. unfold sim_finishLocked. destruct (lookup_lt_is_Some_2 _ _ Hl) as [entry ->]. cbv zeta.
  set (fs0 := set_evidence _ _ fs).
  destruct (sf_errorFaults fs0 !! _) as [d|]; [eexists _, _; split; [done|by apply (same_ok handles fs); [split|]]|].
  destruct (sf_crashFaults fs0 !! _) as [d|]; [|eexists _, _; split; [done|by apply (same_ok handles fs); [split|]]].
  set (fsc := set_faults _ _ fs0). assert (sim_ok handles fsc) as Hc by (apply (same_ok handles fs); [by split|done]).
  destruct (crash_ok handles (scd_RetainUnsynced d) fsc Hc) as (fs2 & -> & Hok2 & _); [done|]. by eexists _, _.
Qed.

(** The body of an operation between its start and its end. *)
Definition body_ok {A} (hs : A -> list simFile) (handles : list simFile) (body : SimFS -> SimFS * (simError + A)) : Prop :=
  forall fs fs' x, sim_ok handles fs -> body fs = (fs', x) ->
    sim_ok handles fs' /\ sf_generation fs' = sf_generation fs /\ sf_events fs' = sf_events fs /\
    forall a, x = inr a -> sim_ok (handles ++ hs a) fs'.

(** An operation on names; [hs] are the handles it returns. *)
Lemma operation_ok {A} (hs : A -> list simFile) handles op path other body fs :
  sim_ok handles fs -> sf_generation fs < max_u64 -> body_ok hs handles body ->
  exists fs' r, sim_operation op path other body fs = Some (fs', r) /\
    sim_ok (handles ++ match r with inl _ => [] | inr a => hs a end) fs'.
Proof.
  intros Hok Hg Hbody. unfold sim_operation.
  destruct (begin_ok handles op path other fs Hok Hg) as (fs1 & event & [e|] & -> & Hok1 & Hs).
  { eexists _, _. split; [done|]. by rewrite app_nil_r. }
  destruct (Hs eq_refl) as (Hsame & Hl & _).
  destruct (body fs1) as [fs2 [e|a]] eqn:Ebody; destruct (Hbody _ _ _ Hok1 Ebody) as (Hok2 & Hg2 & He2 & Ha).
  { eexists _, _. split; [done|]. by rewrite app_nil_r. }
  rewrite (sm_generation _ _ Hsame) in Hg2.
  destruct (finish_ok (handles ++ hs a) event fs2) as (fs3 & err & Ef & Hok3); [by apply Ha|congruence|by rewrite He2|].
  destruct (finish_ok handles event fs2) as (fs3' & err' & Ef' & Hok3'); [done|congruence|by rewrite He2|].
  rewrite Ef in Ef'. injection Ef' as <- <-. rewrite Ef. destruct err as [e|]; eexists _, _; (split; [done|]); [by rewrite app_nil_r|done].
Qed.

(** Names may change among current inodes. *)
Lemma names_ok handles fs live durable :
  sim_ok handles fs -> (forall name id, live !! name = Some id \/ durable !! name = Some id -> current handles fs id) ->
  sim_ok handles (set_durableNames durable (set_names live fs)).
Proof.
  intros [O1 O2 O3 Osm O4 O5 O6] Hn. assert (forall id, current handles (set_durableNames durable (set_names live fs)) id -> current handles fs id) as Hc.
  { intros id [(n & Hid)|[(n & Hid)|Hf]]; [eapply Hn; by left|eapply Hn; by right|by right; right]. }
  split; cbn [set_durableNames set_names sf_inodes sf_next sf_dirty sf_generation]; auto.
Qed.

Lemma more_handles handles fs f :
  sim_ok handles fs -> is_Some (sf_inodes fs !! sl_node f) -> sl_generation f <= sf_generation fs -> 0 <= sl_offset f <= max_i64 ->
  (sl_generation f = sf_generation fs -> current handles fs (sl_node f)) -> sim_ok (handles ++ [f]) fs.
Proof.
  intros [O1 O2 O3 Osm O4 O5 O6] Hi Hg Hoff Hcur. assert (forall id, current (handles ++ [f]) fs id -> current handles fs id) as Hc.
  { intros id [?|[?|(f' & Hf' & Hgf & Hid)]]; [by left|by right; left|]. apply elem_of_app in Hf' as [Hf'| ->%list_elem_of_singleton].
    - right; right. eauto.
    - rewrite <- Hid. by apply Hcur. }
  split; auto.
  - intros f' [Hf'| ->%list_elem_of_singleton]%elem_of_app; [by apply O3|done].
  - intros m Hm. destruct (O4 m Hm) as (f' & Hf' & ?). exists f'. split; [apply elem_of_app; by left|done].
Qed.

(** * Changing a file through a handle *)

(** The bytes of an inode change with the mutations that say how. *)
Lemma data_ok handles fs f data ms :
  sim_ok handles fs -> f ∈ handles -> sl_generation f = sf_generation fs ->
  (forall m, m ∈ ms -> mut_node m = sl_node f) ->
  (forall n, sf_inodes fs !! sl_node f = Some n -> replayMuts ms (in_data n) = Some data) -> small data ->
  sim_ok handles (set_inodes (set_data (sl_node f) data (sf_inodes fs)) (sf_dirty fs ++ ms) fs).
Proof.
  intros [O1 O2 O3 Osm O4 O5 O6] Hf Hg Hms Hr Hsd. unfold set_data.
  assert (forall id, is_Some (alter (fun n => mkInode data (in_durable n)) (sl_node f) (sf_inodes fs) !! id) <-> is_Some (sf_inodes fs !! id)) as Hdom.
  { intros id. rewrite lookup_alter_is_Some. done. }
  split; cbn [set_inodes sf_inodes sf_next sf_dirty sf_generation].
  - intros id n Hn. destruct (Hdom id) as [[n0 Hn0] _]; [by eexists|]. by eapply O1.
  - intros id Hc. apply Hdom. by apply O2.
  - intros f' Hf'. rewrite Hdom. by apply O3.
  - intros id n Hn. apply lookup_alter_Some in Hn as [(<- & n0 & Hn0 & ->)|[Hne Hn]]; [|by eapply Osm].
    destruct (Osm _ _ Hn0). done.
  - intros m [Hm|Hm]%elem_of_app; [by apply O4|]. exists f. by rewrite (Hms m Hm).
  - intros id n Hn Hc. change (current handles fs id) in Hc. rewrite on_node_app.
    apply lookup_alter_Some in Hn as [(<- & n0 & Hn0 & ->)|[Hne Hn]].
    + cbn [in_durable in_data]. rewrite replayMuts_app, (O5 _ _ Hn0 Hc), on_node_all by done. by apply Hr.
    + rewrite (on_node_none id ms), app_nil_r; [by apply O5|]. intros m Hm. by rewrite (Hms m Hm).
  - done.
Qed.

Lemma on_node_clear id node ms : on_node id (clearDirtyLocked node ms) = if decide (id = node) then [] else on_node id ms.
Proof.
  unfold clearDirtyLocked. induction ms as [|m ms IH]; [by destruct (decide _)|]. rewrite filter_cons.
  destruct (decide (mut_node m <> node)) as [Hne|Heq]; rewrite ?on_node_cons, IH.
  - destruct (decide (id = node)) as [->|]; [by rewrite decide_False|done].
  - apply dec_stable in Heq. destruct (decide (id = node)) as [->|Hid]; [done|]. by rewrite decide_False by congruence.
Qed.

(** A synced file has no mutation left. *)
Lemma synced_ok handles fs node :
  sim_ok handles fs -> sim_ok handles (set_inodes (alter sync_inode node (sf_inodes fs)) (clearDirtyLocked node (sf_dirty fs)) fs).
Proof.
  intros [O1 O2 O3 Osm O4 O5 O6].
  assert (forall id, is_Some (alter sync_inode node (sf_inodes fs) !! id) <-> is_Some (sf_inodes fs !! id)) as Hdom.
  { intros id. by rewrite lookup_alter_is_Some. }
  split; cbn [set_inodes sf_inodes sf_next sf_dirty sf_generation].
  - intros id n Hn. destruct (Hdom id) as [[n0 Hn0] _]; [by eexists|]. by eapply O1.
  - intros id Hc. apply Hdom. by apply O2.
  - intros f' Hf'. rewrite Hdom. by apply O3.
  - intros id n Hn. apply lookup_alter_Some in Hn as [(<- & n0 & Hn0 & ->)|[Hne Hn]]; [|by eapply Osm]. by destruct (Osm _ _ Hn0).
  - intros m [_ Hm]%list_elem_of_filter. by apply O4.
  - intros id n Hn Hc. change (current handles fs id) in Hc. rewrite on_node_clear.
    apply lookup_alter_Some in Hn as [(<- & n0 & Hn0 & ->)|[Hne Hn]]; [by rewrite decide_True|]. rewrite decide_False by done. by apply O5.
  - done.
Qed.
End invariant.
