(* ===== verification/SimFSSpec.v ===== *)
(** Every operation of the simulated file system, on names and on handles, returns and keeps
    the invariant of SimFSFacts.v. *)

From S2P Require Import Prelude Proto RaftLog RaftNode Storage Bytes WalRecords DiskLog DiskLogFacts MapSM Manifest ManifestFacts SimFS SimFSFacts.

(** * The operations on names *)

Section names.
Context (handles : list simFile) (fs : SimFS).
Context (Hok : sim_ok handles fs).

Definition no_handles {A} (_ : A) : list simFile := [].

(** A body that leaves the names among the inodes that have one. *)
Lemma live_ok live :
  (forall name id, live !! name = Some id -> current handles fs id) -> sim_ok handles (set_names live fs).
Proof using Hok.
  intros H. apply (names_ok handles fs live (sf_durableNames fs) Hok). intros name id [Hn|Hn]; [by eapply H|]. right; left. eauto.
Qed.

Lemma live_current name id : sf_live fs !! name = Some id -> current handles fs id.
Proof using. intros H. left. eauto. Qed.

Lemma name_insert_ok name id live :
  current handles fs id -> (forall name' id', live !! name' = Some id' -> sf_live fs !! name' = Some id') ->
  sim_ok handles (set_names (<[name := id]> live) fs).
Proof using Hok.
  intros Hc H. apply live_ok. intros name' id' [[<- <-]|[_ Hn]]%lookup_insert_Some; [done|]. by eapply live_current, H.
Qed.

Lemma fresh_file_ok name :
  let fs' := mkSimFS (<[name := sf_next fs]> (sf_live fs)) (sf_durableNames fs) (<[sf_next fs := mkInode [] []]> (sf_inodes fs)) (S (sf_next fs))
    (sf_dirty fs) (sf_generation fs) (sf_crashed fs) (sf_events fs) (sf_opCounts fs) (sf_crashFaults fs) (sf_errorFaults fs) in
  sim_ok handles fs'.
Proof using Hok.
  destruct Hok as [O1 O2 O3 Osm O4 O5 O6].
  assert (sf_inodes fs !! sf_next fs = None) as Hnone.
  { destruct (sf_inodes fs !! sf_next fs) eqn:E; [|done]. apply O1 in E. lia. }
  assert (forall m, m ∈ sf_dirty fs -> mut_node m <> sf_next fs) as Hd.
  { intros m Hm E. destruct (O4 m Hm) as (f & Hf & Hg & Hn). destruct (O3 f Hf) as ([n Hi] & _). congruence. }
  intros fs'. assert (forall id, id <> sf_next fs -> current handles fs' id -> current handles fs id) as Hc.
  { intros id Hne [(n & Hn)|[Hn|Hn]]; [left|by right; left|by right; right]. subst fs'. cbn in Hn. exists n. rewrite lookup_insert_Some in Hn. naive_solver. }
  split; subst fs'; cbn [sf_inodes sf_next sf_dirty sf_generation] in *.
  - intros id n [[<- _]|[_ Hn]]%lookup_insert_Some; [lia|]. apply O1 in Hn. lia.
  - intros id Hcur. destruct (decide (id = sf_next fs)) as [->|Hne]; [rewrite lookup_insert_eq; by eexists|]. rewrite lookup_insert_ne by done. auto.
  - intros f Hf. destruct (O3 f Hf) as (Hi & Hrest). split; [|done]. apply lookup_insert_is_Some'. by right.
  - intros id n [[<- <-]|[_ Hn]]%lookup_insert_Some; [done|]. by eapply Osm.
  - done.
  - intros id n [[<- <-]|[Hne Hn]]%lookup_insert_Some Hcur; [by rewrite on_node_none|]. apply O5; auto.
  - done.
Qed.

Lemma length_max id : Z.of_nat (length (inodeData id fs)) <= max_i64.
Proof using Hok. unfold inodeData. destruct (sf_inodes fs !! id) as [n|] eqn:E; [|done]. by apply (so_small handles fs Hok id n) in E as [_ ?]. Qed.
End names.

(** The operations on names, each with the handles it returns. *)
Section operations.
Context (handles : list simFile).

Ltac body := intros fs fs' x Hok H; cbn beta zeta in H; repeat case_match; injection H as <- <-;
  (split; [try done|split; [done|split; [done|intros ? [= <-]; unfold no_handles; rewrite ?app_nil_r]]]).

Definition one (f : simFile) : list simFile := [f].

Lemma create_body_ok name : body_ok one handles (fun fs =>
    match sf_live fs !! name with
    | Some _ => (fs, inl simErrExist)
    | None =>
        let id := sf_next fs in
        (mkSimFS (<[name := id]> (sf_live fs)) (sf_durableNames fs) (<[id := mkInode [] []]> (sf_inodes fs)) (S id)
           (sf_dirty fs) (sf_generation fs) (sf_crashed fs) (sf_events fs) (sf_opCounts fs) (sf_crashFaults fs) (sf_errorFaults fs),
         inr (mkSimFile id name 0 (sf_generation fs) false))
    end).
Proof.
  body; [by apply fresh_file_ok|]. apply more_handles; cbn [sl_node sl_generation sl_offset sf_inodes sf_generation].
  - by apply fresh_file_ok.
  - rewrite lookup_insert_eq. by eexists.
  - done.
  - done.
  - intros _. left. exists name. apply lookup_insert_eq.
Qed.

Lemma open_body_ok name appendMode : body_ok one handles (fun fs =>
    match sf_live fs !! name with
    | None => (fs, inl simErrNotExist)
    | Some id =>
        let offset := if appendMode : bool then Z.of_nat (length (inodeData id fs)) else 0 in
        (fs, inr (mkSimFile id name offset (sf_generation fs) false))
    end).
Proof.
  body; (apply more_handles; cbn [sl_node sl_generation sl_offset];
    [done|by eapply so_current, live_current|done| |intros _; by eapply live_current]); [|done].
  pose proof (length_max handles fs Hok n). lia.
Qed.

Lemma create_ok name fs : sim_ok handles fs -> sf_generation fs < max_u64 ->
  exists fs' r, sim_Create name fs = Some (fs', r) /\ sim_ok (handles ++ match r with inl _ => [] | inr f => [f] end) fs'.
Proof. intros Hok Hg. unfold sim_Create. apply (operation_ok one); [done|done|apply create_body_ok]. Qed.

Lemma sim_open_ok name appendMode fs : sim_ok handles fs -> sf_generation fs < max_u64 ->
  exists fs' r, sim_open name appendMode fs = Some (fs', r) /\ sim_ok (handles ++ match r with inl _ => [] | inr f => [f] end) fs'.
Proof. intros Hok Hg. unfold sim_open. apply (operation_ok one); [done|done|apply open_body_ok]. Qed.

(** An operation that returns no handle. *)
Definition keeps {A} (operation : SimFS -> option (SimFS * (simError + A))) : Prop :=
  forall fs, sim_ok handles fs -> sf_generation fs < max_u64 -> exists fs' r, operation fs = Some (fs', r) /\ sim_ok handles fs'.

Lemma operation_keeps {A} op path other (body : SimFS -> SimFS * (simError + A)) :
  body_ok no_handles handles body -> keeps (sim_operation op path other body).
Proof.
  intros Hb fs Hok Hg. destruct (operation_ok no_handles handles op path other body fs Hok Hg Hb) as (fs' & r & E & Hok').
  exists fs', r. split; [done|]. unfold no_handles in Hok'. by destruct r; rewrite app_nil_r in Hok'.
Qed.

Lemma syncDir_ok name : keeps (sim_SyncDir name).
Proof.
  apply operation_keeps. assert (forall fs, sim_ok handles fs -> sim_ok handles (set_durableNames
    (filter (inDir (cleanPath name)) (sf_live fs) ∪ filter (fun p => ~ inDir (cleanPath name) p) (sf_durableNames fs)) fs)) as H'.
  { intros fs Hok. apply (names_ok handles fs (sf_live fs)); [done|]. intros n id [Hn|Hn]; [by eapply live_current|].
    apply lookup_union_Some_raw in Hn as [Hn|[_ Hn]]; apply map_lookup_filter_Some in Hn as [Hn _]; [by eapply live_current|right; left; eauto]. }
  body; by apply H'.
Qed.

Lemma rename_ok oldName newName : keeps (sim_Rename oldName newName).
Proof.
  apply operation_keeps. assert (forall fs id, sim_ok handles fs -> sf_live fs !! cleanPath oldName = Some id ->
    sim_ok handles (set_names (<[cleanPath newName := id]> (delete (cleanPath oldName) (sf_live fs))) fs)) as H'.
  { intros fs id Hok Hid. apply name_insert_ok; [done|by eapply live_current|]. intros n i [_ Hn]%lookup_delete_Some. done. }
  body; by apply H'.
Qed.

Lemma link_ok oldName newName : keeps (sim_Link oldName newName).
Proof.
  apply operation_keeps. assert (forall fs id, sim_ok handles fs -> sf_live fs !! cleanPath oldName = Some id ->
    sim_ok handles (set_names (<[cleanPath newName := id]> (sf_live fs)) fs)) as H'.
  { intros fs id Hok Hid. apply name_insert_ok; [done|by eapply live_current|done]. }
  body; by apply H'.
Qed.

Lemma remove_ok name : keeps (sim_Remove name).
Proof.
  apply operation_keeps. assert (forall fs, sim_ok handles fs -> sim_ok handles (set_names (delete (cleanPath name) (sf_live fs)) fs)) as H'.
  { intros fs Hok. apply live_ok; [done|]. intros n i [_ Hn]%lookup_delete_Some. by eapply live_current. }
  body; by apply H'.
Qed.

Lemma list_ok name : keeps (sim_List name).
Proof. apply operation_keeps. body. done. Qed.

Lemma stat_ok name : keeps (sim_Stat name).
Proof. apply operation_keeps. body. done. Qed.
End operations.

(** * The operations on handles *)

Section handles.
Context (handles : list simFile) (i : nat) (file : simFile).
Context (Hi : handles !! i = Some file).

(** The handle at [i] is now [file'], at another offset or closed. *)
Record moved (file' : simFile) : Prop := {
  mv_node : sl_node file' = sl_node file;
  mv_generation : sl_generation file' = sl_generation file;
  mv_offset : 0 <= sl_offset file' <= max_i64;
}.

Lemma moved_ok file' fs : moved file' -> sim_ok handles fs -> sim_ok (<[i := file']> handles) fs.
Proof using Hi.
  intros [M1 M2 M3] [O1 O2 O3 Osm O4 O5 O6].
  assert (file ∈ handles) as Hin by (by eapply list_elem_of_lookup_2).
  assert (file' ∈ <[i := file']> handles) as Hin'.
  { apply (list_elem_of_lookup_2 _ i). apply list_lookup_insert_eq. by eapply lookup_lt_Some. }
  assert (forall f, f ∈ <[i := file']> handles -> f = file' \/ f ∈ handles) as Hold.
  { intros f [j Hj]%list_elem_of_lookup. apply list_lookup_insert_Some in Hj as [(_ & <- & _)|[_ Hj]]; [by left|right]. by eapply list_elem_of_lookup_2. }
  assert (forall id, current (<[i := file']> handles) fs id -> current handles fs id) as Hc.
  { intros id [?|[?|(f & Hf & Hg & <-)]]; [by left|by right; left|]. right; right. destruct (Hold f Hf) as [->|Hf']; [exists file|exists f]; by rewrite ?M1, <- ?M2. }
  split; auto.
  - intros f Hf. destruct (Hold f Hf) as [->|Hf']; [|by apply O3]. rewrite M1, M2. split_and!; try apply M3; by apply O3.
  - intros m Hm. destruct (O4 m Hm) as (f & Hf & Hg & Hn). apply list_elem_of_lookup in Hf as [j Hj]. destruct (decide (i = j)) as [<-|Hne].
    + exists file'. assert (f = file) as -> by congruence. by rewrite M1, M2.
    + exists f. split; [|done]. apply (list_elem_of_lookup_2 _ j). by rewrite list_lookup_insert_ne.
Qed.

Context (fs : SimFS) (Hok : sim_ok handles fs) (Hg : sf_generation fs < max_u64).

Lemma file_in : file ∈ handles.
Proof using Hi. by eapply list_elem_of_lookup_2. Qed.

Lemma file_range : 0 <= sl_offset file <= max_i64.
Proof using Hi Hok. apply (so_handles _ _ Hok _ file_in). Qed.

Lemma moved_same : moved file.
Proof using Hi Hok. split; [done|done|apply file_range]. Qed.

Lemma file_begin_ok op :
  exists fs1 event err, file_beginLocked op file fs = Some (fs1, (event, err)) /\ sim_ok handles fs1 /\
    (err = None -> same_files fs fs1 /\ (event < length (sf_events fs1))%nat /\ sl_generation file = sf_generation fs1).
Proof using Hok Hg.
  unfold file_beginLocked. destruct (sl_closed file || _) eqn:E; [by eexists _, _, _|].
  destruct (begin_ok handles op (sl_path file) "" fs Hok Hg) as (fs1 & event & err & -> & Hok1 & Hs).
  eexists _, _, _. split; [done|]. split; [done|]. intros ->. destruct (Hs eq_refl) as (Hsame & Hl & _). split_and!; [done|done|].
  apply orb_false_iff in E as [_ E%negb_false_iff%Z.eqb_eq]. by rewrite (sm_generation _ _ Hsame).
Qed.

(** The end of a read or a write that has left the file system at [fs2]. *)
Lemma finish_io_ok event file' bs n err fs2 :
  sim_ok handles fs2 -> sf_generation fs2 < max_u64 -> (event < length (sf_events fs2))%nat -> moved file' ->
  exists fs' file'' bs' n' err', finish_io event file' bs n err fs2 = Some (fs', (file'', bs', n', err')) /\
    sim_ok (<[i := file'']> handles) fs'.
Proof using Hi.
  intros Hok2 Hg2 Hl Hm. unfold finish_io. destruct (finish_ok handles event fs2 Hok2 Hg2 Hl) as (fs' & e & -> & Hok').
  destruct e; eexists _, _, _, _, _; (split; [done|by apply moved_ok]).
Qed.

(** A handle operation that begins with an error leaves the handle. *)
Lemma refused_ok fs1 : sim_ok handles fs1 -> sim_ok (<[i := file]> handles) fs1.
Proof using Hi Hok. intros H. by apply moved_ok; [apply moved_same|]. Qed.

Definition io_ok (r : option (SimFS * sim_io)) : Prop :=
  exists fs' file' bs n err, r = Some (fs', (file', bs, n, err)) /\ sim_ok (<[i := file']> handles) fs'.

Lemma read_ok len : io_ok (file_Read len file fs).
Proof using Hi Hok Hg.
  unfold io_ok, file_Read. destruct (file_begin_ok FSOpRead) as (fs1 & event & [e|] & -> & Hok1 & Hs).
  { eexists _, _, _, _, _. split; [done|]. by apply refused_ok. }
  destruct (Hs eq_refl) as (Hsame & Hl & _). pose proof (sm_generation _ _ Hsame) as Eg. pose proof file_range. cbv zeta.
  destruct (Z.leb_spec (Z.of_nat (length (inodeData (sl_node file) fs1))) (sl_offset file)) as [Hle|Hgt].
  { apply finish_io_ok; [done|lia|done|apply moved_same]. }
  rewrite (proj2 (Z.ltb_ge (sl_offset file) 0)) by lia. apply finish_io_ok; [done|lia|done|].
  split; [done|done|]. cbn [seek sl_offset]. pose proof (length_max handles fs1 Hok1 (sl_node file)).
  rewrite length_take, length_drop. unfold i64_add. rewrite i64_id; lia.
Qed.

Lemma readAt_ok len offset : io_ok (file_ReadAt len offset file fs).
Proof using Hi Hok Hg.
  unfold io_ok, file_ReadAt. destruct (file_begin_ok FSOpRead) as (fs1 & event & [e|] & -> & Hok1 & Hs).
  { eexists _, _, _, _, _. split; [done|]. by apply refused_ok. }
  destruct (Hs eq_refl) as (Hsame & Hl & _). pose proof (sm_generation _ _ Hsame) as Eg. cbv zeta.
  destruct (offset <? 0); [eexists _, _, _, _, _; split; [done|by apply refused_ok]|].
  destruct (_ <=? offset); (apply finish_io_ok; [done|lia|done|apply moved_same]).
Qed.

(** The call is not the write of no bytes past the end of the file, and its bytes are a
    slice. *)
Definition write_fits (src : bytes) : Prop :=
  small src /\ (src <> [] \/ sl_offset file <= Z.of_nat (length (inodeData (sl_node file) fs))).

Lemma same_inode fs1 : same_files fs fs1 -> inodeData (sl_node file) fs1 = inodeData (sl_node file) fs.
Proof using. intros Hs. unfold inodeData. by rewrite (sm_inodes _ _ Hs). Qed.

(** The bytes that a write leaves are those that its mutation makes of the file. *)
Lemma write_replays src data :
  sl_offset file + Z.of_nat (length src) <= max_i64 -> src <> [] \/ sl_offset file <= Z.of_nat (length data) -> 0 <= sl_offset file -> small data ->
  let finish := sl_offset file + Z.of_nat (length src) in
  let data2 := overwrite (if Z.of_nat (length data) <? finish then growTo data finish else data) (sl_offset file) src in
  replayMuts (recordWriteLocked (sl_node file) (sl_offset file) src []) data = Some data2 /\ small data2.
Proof using.
  intros Hmax Hfits H0 Hsm finish data2. unfold recordWriteLocked. destruct src as [|b src'].
  - destruct Hfits as [?|Hle]; [done|]. cbn [length Nat.eqb replayMuts].
    assert (data2 = data) as ->; [|done]. subst data2 finish. cbn [length]. rewrite (proj2 (Z.ltb_ge _ _)) by lia.
    unfold overwrite. cbn [length app]. rewrite Nat.add_0_r. apply take_drop.
  - set (src := b :: src') in *. change (Nat.eqb (length src) 0) with false. cbv iota. cbn [app replayMuts].
    assert (mut_fits (MutWrite (sl_node file) (sl_offset file) src) data = true) as Hf.
    { cbn [mut_fits]. apply andb_true_iff. split; apply Z.leb_le; lia. }
    rewrite Hf. destruct (applyPrefix_partial _ data (byteCount (MutWrite (sl_node file) (sl_offset file) src)) Hf Hsm) as (part & Ep & Hp).
    { pose proof (byteCount_nonneg (MutWrite (sl_node file) (sl_offset file) src)). lia. }
    rewrite Ep. assert (part = data2) as ->; [|done]. cbn [applyPrefix byteCount] in Ep. rewrite !(proj2 (Z.ltb_ge _ _)) in Ep by lia.
    cbn [orb] in Ep. injection Ep as <-. subst data2 finish. rewrite (take_ge src) by (rewrite Nat2Z.id; done). done.
Qed.

Lemma sim_write_ok src : write_fits src -> io_ok (file_Write src file fs).
Proof using Hi Hok Hg.
  intros [Hsrc Hfits]. unfold io_ok, file_Write. destruct (file_begin_ok FSOpWrite) as (fs1 & event & [e|] & -> & Hok1 & Hs).
  { eexists _, _, _, _, _. split; [done|]. by apply refused_ok. }
  destruct (Hs eq_refl) as (Hsame & Hl & Hcur). pose proof (sm_generation _ _ Hsame) as Eg. pose proof file_range as Hr.
  rewrite (proj2 (Z.ltb_ge _ 0)), (proj2 (Z.ltb_ge max_i64 _)) by lia. cbn [orb]. cbv zeta.
  destruct (Z.le_gt_cases (sl_offset file + Z.of_nat (length src)) max_i64) as [Hmax|Hover]; last first.
  { assert ((sl_offset file +i Z.of_nat (length src)) < sl_offset file) as Hw.
    { unfold small, i64_add, i64, max_i64 in *. Z.to_euclidean_division_equations. lia. }
    rewrite (proj2 (Z.ltb_lt _ _) Hw). cbn [orb]. eexists _, _, _, _, _. split; [done|]. by apply refused_ok. }
  assert ((sl_offset file +i Z.of_nat (length src)) = sl_offset file + Z.of_nat (length src)) as -> by (unfold i64_add; apply i64_id; lia).
  rewrite u64_id by (unfold is_u64, max_i64, max_u64 in *; lia). rewrite (proj2 (Z.ltb_ge max_i64 _)), (proj2 (Z.ltb_ge (_ + _) _)) by lia. cbn [orb].
  destruct (write_replays src (inodeData (sl_node file) fs1)) as [Hrep Hsm]; [done|by rewrite same_inode|lia|by eapply length_max|].
  apply finish_io_ok.
  - set (ms := recordWriteLocked (sl_node file) (sl_offset file) src []) in *.
    assert (recordWriteLocked (sl_node file) (sl_offset file) src (sf_dirty fs1) = sf_dirty fs1 ++ ms) as ->.
    { subst ms. unfold recordWriteLocked. by destruct (Nat.eqb (length src) 0); rewrite ?app_nil_r. }
    apply data_ok; [done|apply file_in|done| | |done].
    + intros m. subst ms. unfold recordWriteLocked. destruct (Nat.eqb (length src) 0); [by intros ?%elem_of_nil|]. by intros ->%list_elem_of_singleton.
    + intros n Hn. unfold inodeData in Hrep at 1. rewrite Hn in Hrep. rewrite Hrep. done.
  - cbn [set_inodes sf_generation]. lia.
  - done.
  - split; [done|done|]. cbn [seek sl_offset]. lia.
Qed.

Lemma sync_ok : exists fs' err, sim_file_Sync file fs = Some (fs', err) /\ sim_ok handles fs'.
Proof using Hok Hg.
  unfold sim_file_Sync. destruct (file_begin_ok FSOpFileSync) as (fs1 & event & [e|] & -> & Hok1 & Hs); [by eexists _, _|].
  destruct (Hs eq_refl) as (Hsame & Hl & Hcur). pose proof (sm_generation _ _ Hsame) as Eg.
  apply finish_ok; [by apply synced_ok|cbn [set_inodes sf_generation]; lia|done].
Qed.

(** The bytes that a truncation leaves are those that its mutation makes of the file. *)
Lemma truncate_replays size data :
  0 <= size <= max_i64 -> small data ->
  let oldSize := Z.of_nat (length data) in
  let data' := if size <=? oldSize then take (Z.to_nat size) data else growTo data size in
  replayMuts (if size =? oldSize then [] else [MutTruncate (sl_node file) oldSize size]) data = Some data' /\ small data'.
Proof using.
  intros Hsize Hsm oldSize data'. unfold small in *. destruct (Z.eqb_spec size oldSize) as [Heq|Hne].
  { subst data' oldSize. rewrite (proj2 (Z.leb_le _ _)) by lia. rewrite take_ge by lia. done. }
  set (m := MutTruncate (sl_node file) oldSize size).
  assert (mut_fits m data = true) as Hf by (cbn [mut_fits m]; rewrite !andb_true_iff, Z.eqb_eq, !Z.leb_le; lia). cbn [replayMuts]. rewrite Hf.
  destruct (applyPrefix_partial m data (byteCount m) Hf Hsm) as (part & Ep & Hp); [pose proof (byteCount_nonneg m); lia|].
  rewrite Ep. assert (part = data') as ->; [|done]. subst m data'. cbn [applyPrefix byteCount] in Ep.
  destruct (Z.ltb_spec size oldSize) as [Hlt|Hge].
  - rewrite (proj2 (Z.leb_gt oldSize size)), !(proj2 (Z.ltb_ge _ _)) in Ep by lia. cbn [orb] in Ep. injection Ep as <-.
    rewrite (proj2 (Z.leb_le size oldSize)) by lia. f_equal. lia.
  - rewrite (proj2 (Z.leb_le oldSize size)), (proj2 (Z.ltb_ge _ _)) in Ep by lia. injection Ep as <-.
    rewrite (proj2 (Z.leb_gt size oldSize)) by lia. done.
Qed.

Definition handle_ok (r : option (SimFS * (simFile * option simError))) : Prop :=
  exists fs' file' err, r = Some (fs', (file', err)) /\ sim_ok (<[i := file']> handles) fs'.

Lemma truncate_ok size : size <= max_i64 -> handle_ok (sim_file_Truncate size file fs).
Proof using Hi Hok Hg.
  intros Hsize. unfold handle_ok, sim_file_Truncate. destruct (file_begin_ok FSOpTruncate) as (fs1 & event & [e|] & -> & Hok1 & Hs).
  { eexists _, _, _. split; [done|]. by apply refused_ok. }
  destruct (Hs eq_refl) as (Hsame & Hl & Hcur). pose proof (sm_generation _ _ Hsame) as Eg. pose proof file_range as Hr.
  destruct (Z.ltb_spec size 0) as [Hneg|Hpos]; cbn [orb]; [eexists _, _, _; split; [done|by apply refused_ok]|].
  rewrite u64_id by (unfold is_u64, max_i64, max_u64 in *; lia). rewrite (proj2 (Z.ltb_ge _ _)) by lia. cbv zeta.
  destruct (truncate_replays size (inodeData (sl_node file) fs1)) as [Hrep Hsm]; [done|by eapply length_max|].
  set (data := inodeData (sl_node file) fs1) in *.
  set (ms := if size =? Z.of_nat (length data) then [] else [MutTruncate (sl_node file) (Z.of_nat (length data)) size]) in *.
  assert ((if size =? Z.of_nat (length data) then sf_dirty fs1 else sf_dirty fs1 ++ [MutTruncate (sl_node file) (Z.of_nat (length data)) size])
    = sf_dirty fs1 ++ ms) as ->.
  { subst ms. by destruct (size =? _); rewrite ?app_nil_r. }
  edestruct (finish_ok handles event) as (fs2 & err & -> & Hok2).
  - apply data_ok; [done|apply file_in|done| |intros n Hn; subst data; unfold inodeData in Hrep at 1; rewrite Hn in Hrep; exact Hrep|exact Hsm].
    intros m. subst ms. destruct (size =? _); [by intros ?%elem_of_nil|]. by intros ->%list_elem_of_singleton.
  - cbn [set_inodes sf_generation]. lia.
  - done.
  - eexists _, _, _. split; [done|]. apply moved_ok; [|done]. destruct (size <? sl_offset file); [|by apply moved_same].
    split; [done|done|]. cbn [seek sl_offset]. lia.
Qed.

Lemma sim_close_ok : handle_ok (sim_file_Close file fs).
Proof using Hi Hok Hg.
  unfold handle_ok, sim_file_Close. destruct (sl_closed file); [eexists _, _, _; split; [done|by apply refused_ok]|].
  destruct (file_begin_ok FSOpClose) as (fs1 & event & [e|] & -> & Hok1 & Hs); [eexists _, _, _; split; [done|by apply refused_ok]|].
  destruct (Hs eq_refl) as (Hsame & Hl & Hcur). pose proof (sm_generation _ _ Hsame) as Eg.
  destruct (finish_ok handles event fs1) as (fs2 & err & -> & Hok2); [done|lia|done|]. eexists _, _, _. split; [done|].
  apply moved_ok; [|done]. split; [done|done|apply file_range].
Qed.
End handles.
