(* ===== verification/SimFSAppend.v ===== *)
(** The runs of the simulated file system, every call as one transition; and files that are
    only appended to: between two syncs the mutations of such a file are its new bytes in
    order, so what a crash keeps of it is a prefix of its bytes that has at least the synced
    ones. *)

From S2P Require Import Prelude Proto RaftLog RaftNode Storage Bytes WalRecords MapSM DiskLog DiskLogFacts Manifest ManifestFacts SimFS SimFSFacts SimFSSpec.

(** * Calls *)

(** The calls of the file system and of its handles; a handle is its position in the list of
    the handles that were returned so far. *)
Inductive simCall : Type :=
  | CallCreate (name : string)
  | CallOpen (name : string)
  | CallOpenAppend (name : string)
  | CallSyncDir (name : string)
  | CallRename (oldName newName : string)
  | CallLink (oldName newName : string)
  | CallRemove (name : string)
  | CallList (name : string)
  | CallStat (name : string)
  | CallRead (handle : nat) (len : Z)
  | CallReadAt (handle : nat) (len offset : Z)
  | CallWrite (handle : nat) (src : bytes)
  | CallSync (handle : nat)
  | CallTruncate (handle : nat) (size : Z)
  | CallClose (handle : nat)
  | CallCrash (retain : Z)
  | CallRecover
  | CallSetCrashSchedule (directives : list SimCrashDirective)
  | CallSetErrorSchedule (directives : list SimErrorDirective)
  | CallResetEvents.

Definition sim_state : Type := list simFile * SimFS.

(** A call that returns a handle when it succeeds. *)
Definition opened (handles : list simFile) (r : option (SimFS * (simError + simFile))) : option sim_state :=
  match r with
  | None => None
  | Some (fs', inl _) => Some (handles, fs')
  | Some (fs', inr f) => Some (handles ++ [f], fs')
  end.

Definition unchanged {A} (handles : list simFile) (r : option (SimFS * A)) : option sim_state :=
  match r with None => None | Some (fs', _) => Some (handles, fs') end.

Definition through (handles : list simFile) (i : nat) (r : option (SimFS * sim_io)) : option sim_state :=
  match r with None => None | Some (fs', (f, _, _, _)) => Some (<[i := f]> handles, fs') end.

Definition on_handle (i : nat) (s : sim_state) (k : simFile -> option sim_state) : option sim_state :=
  match s.1 !! i with None => Some s | Some f => k f end.

(** [None] is a panic. *)
Definition sim_call (c : simCall) (s : sim_state) : option sim_state :=
  let '(handles, fs) := s in
  match c with
  | CallCreate name => opened handles (sim_Create name fs)
  | CallOpen name => opened handles (sim_Open name fs)
  | CallOpenAppend name => opened handles (sim_OpenAppend name fs)
  | CallSyncDir name => unchanged handles (sim_SyncDir name fs)
  | CallRename oldName newName => unchanged handles (sim_Rename oldName newName fs)
  | CallLink oldName newName => unchanged handles (sim_Link oldName newName fs)
  | CallRemove name => unchanged handles (sim_Remove name fs)
  | CallList name => unchanged handles (sim_List name fs)
  | CallStat name => unchanged handles (sim_Stat name fs)
  | CallRead i len => on_handle i s (fun f => through handles i (file_Read len f fs))
  | CallReadAt i len offset => on_handle i s (fun f => through handles i (file_ReadAt len offset f fs))
  | CallWrite i src => on_handle i s (fun f => through handles i (file_Write src f fs))
  | CallSync i => on_handle i s (fun f => unchanged handles (sim_file_Sync f fs))
  | CallTruncate i size =>
      on_handle i s (fun f => match sim_file_Truncate size f fs with None => None | Some (fs', (f', _)) => Some (<[i := f']> handles, fs') end)
  | CallClose i =>
      on_handle i s (fun f => match sim_file_Close f fs with None => None | Some (fs', (f', _)) => Some (<[i := f']> handles, fs') end)
  | CallCrash retain => unchanged handles (sim_Crash retain fs)
  | CallRecover => Some (handles, (sim_Recover fs).1)
  | CallSetCrashSchedule directives => Some (handles, (SetCrashSchedule directives fs).1)
  | CallSetErrorSchedule directives => Some (handles, (SetErrorSchedule directives fs).1)
  | CallResetEvents => Some (handles, ResetEvents fs)
  end.

(** The calls a run is made of: sizes are those of Go's slices and of [int64], and there are
    fewer crashes than the generation counts.  A write of no bytes past the end of a file is
    left out, although the code accepts it: it lengthens the file without a record, so that
    the state after it is not consistent. *)
Definition call_fits (c : simCall) (s : sim_state) : Prop :=
  sf_generation s.2 < max_u64 /\
  match c with
  | CallWrite i src => forall f, s.1 !! i = Some f -> write_fits f s.2 src
  | CallTruncate _ size => size <= max_i64
  | _ => True
  end.

(** The calls of a list, one after the other. *)
Fixpoint sim_calls (cs : list simCall) (s : sim_state) : option sim_state :=
  match cs with
  | [] => Some s
  | c :: cs' => match sim_call c s with None => None | Some s' => sim_calls cs' s' end
  end.

Definition fresh_sim : sim_state := ([], NewSimFS).

(** Runs of fitting calls that meet [P]. *)
Inductive sim_run (P : sim_state -> simCall -> Prop) (s : sim_state) : sim_state -> Prop :=
  | sim_run_refl : sim_run P s s
  | sim_run_call s1 s2 c : sim_run P s s1 -> call_fits c s1 -> P s1 c -> sim_call c s1 = Some s2 -> sim_run P s s2.

Definition any_call (_ : sim_state) (_ : simCall) : Prop := True.

Definition sim_reaches : sim_state -> Prop := sim_run any_call fresh_sim.

(** * Every call returns and keeps the invariant *)

Lemma through_ok handles i r : io_ok handles i r -> exists s', through handles i r = Some s' /\ sim_ok s'.1 s'.2.
Proof. intros (fs' & f' & bs & n & err & -> & Hok). by eexists. Qed.

Lemma unchanged_ok {A} handles (r : option (SimFS * A)) :
  (exists fs' a, r = Some (fs', a) /\ sim_ok handles fs') -> exists s', unchanged handles r = Some s' /\ sim_ok s'.1 s'.2.
Proof. intros (fs' & a & -> & Hok). by eexists. Qed.

Lemma opened_ok handles r :
  (exists fs' x, r = Some (fs', x) /\ sim_ok (handles ++ match x with inl _ => [] | inr f => [f] end) fs') ->
  exists s', opened handles r = Some s' /\ sim_ok s'.1 s'.2.
Proof. intros (fs' & [e|f] & -> & Hok); eexists; (split; [done|]); [by rewrite app_nil_r in Hok|done]. Qed.

Lemma sim_call_ok c s : call_fits c s -> sim_ok s.1 s.2 -> exists s', sim_call c s = Some s' /\ sim_ok s'.1 s'.2.
Proof.
  destruct s as [handles fs]. cbn [fst snd]. intros [Hg Hc] Hok. cbn [fst snd] in *.
  assert (forall i k, (forall f, handles !! i = Some f -> exists s', k f = Some s' /\ sim_ok s'.1 s'.2) ->
    exists s', on_handle i (handles, fs) k = Some s' /\ sim_ok s'.1 s'.2) as Hh.
  { intros i k H. unfold on_handle. cbn [fst]. destruct (handles !! i) as [f|] eqn:E; [by apply H|]. by eexists. }
  destruct c; cbn [sim_call].
  - by apply opened_ok, create_ok.
  - by apply opened_ok, sim_open_ok.
  - by apply opened_ok, sim_open_ok.
  - by apply unchanged_ok, syncDir_ok.
  - by apply unchanged_ok, rename_ok.
  - by apply unchanged_ok, link_ok.
  - by apply unchanged_ok, remove_ok.
  - by apply unchanged_ok, list_ok.
  - by apply unchanged_ok, stat_ok.
  - apply Hh. intros f Hf. by apply through_ok, read_ok.
  - apply Hh. intros f Hf. by apply through_ok, readAt_ok.
  - apply Hh. intros f Hf. apply through_ok, sim_write_ok; auto.
  - apply Hh. intros f Hf. by apply unchanged_ok, sync_ok.
  - apply Hh. intros f Hf. destruct (truncate_ok handles handle f Hf fs Hok Hg size Hc) as (fs' & f' & err & -> & Hok'). by eexists.
  - apply Hh. intros f Hf. destruct (sim_close_ok handles handle f Hf fs Hok Hg) as (fs' & f' & err & -> & Hok'). by eexists.
  - apply unchanged_ok. unfold sim_Crash. destruct (sf_crashed fs); [by eexists _, _|]. destruct (retain <? simRetainAll); [by eexists _, _|].
    destruct (crash_ok handles retain fs Hok Hg) as (fs' & -> & Hok' & _). by eexists _, _.
  - eexists. split; [done|]. cbn [fst snd]. unfold sim_Recover. destruct (negb _); [done|]. by apply (same_ok handles fs); [split|].
  - eexists. split; [done|]. cbn [fst snd]. unfold SetCrashSchedule. destruct (crashSchedule _ _); [by apply (same_ok handles fs); [split|]|done].
  - eexists. split; [done|]. cbn [fst snd]. unfold SetErrorSchedule. destruct (errorSchedule _ _); [by apply (same_ok handles fs); [split|]|done].
  - eexists. split; [done|]. by apply (same_ok handles fs); [split|].
Qed.

Lemma sim_run_ok P s s' : sim_run P s s' -> sim_ok s.1 s.2 -> sim_ok s'.1 s'.2.
Proof.
  intros Hrun Hok. induction Hrun as [|s1 s2 c Hrun IH Hfit HP E]; [done|].
  destruct (sim_call_ok c s1 Hfit IH) as (s2' & E' & Hok'). congruence.
Qed.

Lemma sim_reaches_ok s : sim_reaches s -> sim_ok s.1 s.2.
Proof. intros H. eapply sim_run_ok; [exact H|apply new_ok]. Qed.

(** * Mutations that append *)

Fixpoint appended (ms : list simMutation) (image : bytes) : Prop :=
  match ms with
  | [] => True
  | MutWrite _ offset data :: ms' => offset = Z.of_nat (length image) /\ appended ms' (image ++ data)
  | MutTruncate _ _ _ :: _ => False
  end.

(** A write at the end of the bytes adds the bytes it keeps. *)
Lemma applyPrefix_end n data image c :
  0 <= c <= Z.of_nat (length data) ->
  applyPrefix (MutWrite n (Z.of_nat (length image)) data) image c = Some (image ++ take (Z.to_nat c) data).
Proof.
  intros Hc. cbn [applyPrefix]. rewrite !(proj2 (Z.ltb_ge _ _)) by lia. cbn [orb]. cbv zeta. f_equal. unfold overwrite. rewrite Nat2Z.id.
  assert (take (length image) (if Z.of_nat (length image) <? Z.of_nat (length image) + c then growTo image (Z.of_nat (length image) + c) else image) = image) as ->.
  { destruct (_ <? _); [unfold growTo; by rewrite take_app_le, take_ge by lia|by rewrite take_ge by lia]. }
  f_equal. rewrite drop_ge, app_nil_r; [done|]. rewrite length_take.
  destruct (Z.ltb_spec (Z.of_nat (length image)) (Z.of_nat (length image) + c)); [unfold growTo; rewrite length_app, length_zeros; lia|lia].
Qed.

Lemma appended_replay m ms image data :
  appended (m :: ms) image -> replayMuts (m :: ms) image = Some data ->
  exists n new, m = MutWrite n (Z.of_nat (length image)) new /\ appended ms (image ++ new) /\ replayMuts ms (image ++ new) = Some data.
Proof.
  destruct m as [n off new|]; [|done]. intros [-> Ha] Hr. cbn [replayMuts] in Hr. destruct (mut_fits _ _); [|done].
  cbn [byteCount] in Hr. rewrite applyPrefix_end, Nat2Z.id, (take_ge new) in Hr by lia. eauto.
Qed.

Lemma appended_grows ms image data : appended ms image -> replayMuts ms image = Some data -> image `prefix_of` data.
Proof.
  revert image. induction ms as [|m ms IH]; intros image Ha Hr; [by injection Hr as <-|].
  destruct (appended_replay _ _ _ _ Ha Hr) as (n & new & -> & Ha' & Hr'). etrans; [|by apply IH]. by eexists.
Qed.

(** A cut of appends is a prefix of the bytes, and keeps those before the appends. *)
Lemma appended_cut ms image data img :
  appended ms image -> replayMuts ms image = Some data -> cut image ms img -> image `prefix_of` img /\ img `prefix_of` data.
Proof.
  revert image. induction ms as [|m ms IH]; intros image Ha Hr (pre & post & mid & E & Hmid & Hor).
  - symmetry in E. apply app_nil in E as [-> ->]. cbn in Hmid, Hr. injection Hmid as <-. injection Hr as <-.
    destruct Hor as [->|(? & ? & ? & ? & _)]; done.
  - pose proof (appended_grows _ _ _ Ha Hr) as Hgrow. destruct (appended_replay _ _ _ _ Ha Hr) as (n & new & -> & Ha' & Hr'). destruct pre as [|m' pre].
    + cbn in Hmid. injection Hmid as <-. destruct Hor as [->|(m & post' & c & Epost & Hc & Hcut)]; [done|]. rewrite Epost in E. injection E as <- <-.
      cbn [byteCount] in Hc. rewrite applyPrefix_end in Hcut by lia. injection Hcut as <-. split; [by eexists|].
      etrans; [|by eapply appended_grows]. exists (drop (Z.to_nat c) new). by rewrite <- app_assoc, take_drop.
    + injection E as <- ->. cbn [replayMuts] in Hmid. destruct (mut_fits _ _); [|done]. cbn [byteCount] in Hmid.
      rewrite applyPrefix_end, Nat2Z.id, (take_ge new) in Hmid by lia.
      destruct (IH (image ++ new) Ha' Hr') as [H1 H2]; [by exists pre, post, mid|]. split; [|done]. etrans; [|exact H1]. by eexists.
Qed.

Lemma appended_snoc ms image data n new :
  appended ms image -> replayMuts ms image = Some data -> appended (ms ++ [MutWrite n (Z.of_nat (length data)) new]) image.
Proof.
  revert image. induction ms as [|m ms IH]; intros image Ha Hr; [by injection Hr as <-|].
  destruct (appended_replay _ _ _ _ Ha Hr) as (n' & new' & -> & Ha' & Hr'). cbn [app appended]. split; [done|]. by apply IH.
Qed.

(** * The calls that leave the mutations of a file *)

Section file.
Context (id : nat).

(** The inode has no mutations left, or those it had, on the synced bytes it had. *)
Definition quiet (fs fs' : SimFS) : Prop :=
  exists n', sf_inodes fs' !! id = Some n' /\
    (on_node id (sf_dirty fs') = [] \/
     exists n, sf_inodes fs !! id = Some n /\ in_durable n' = in_durable n /\ on_node id (sf_dirty fs') = on_node id (sf_dirty fs)).

Definition inode (fs : SimFS) : Prop := is_Some (sf_inodes fs !! id).

Lemma quiet_inode fs fs' : quiet fs fs' -> inode fs'.
Proof using. intros (n' & Hn' & _). by eexists. Qed.

Lemma quiet_same fs fs' : same_files fs fs' -> inode fs -> quiet fs fs'.
Proof using. intros [_ _ E3 _ E5 _] [n Hn]. exists n. rewrite E3, E5. split; [done|]. right. by exists n. Qed.

Lemma quiet_refl fs : inode fs -> quiet fs fs.
Proof using. by apply quiet_same. Qed.

Lemma quiet_trans fs1 fs2 fs3 : quiet fs1 fs2 -> quiet fs2 fs3 -> quiet fs1 fs3.
Proof using.
  intros (n2 & Hn2 & H12) (n3 & Hn3 & H23). exists n3. split; [done|]. destruct H23 as [H23|(n2' & Hn2' & Hd & E)]; [by left|].
  assert (n2' = n2) as -> by congruence. rewrite E. destruct H12 as [->|(n1 & Hn1 & Hd1 & ->)]; [by left|]. right. exists n1. by rewrite Hd, Hd1.
Qed.

Lemma quiet_crash retain fs fs' : crashLocked retain fs = Some fs' -> inode fs -> quiet fs fs'.
Proof using.
  unfold crashLocked. intros H [n Hn]. destruct (crashLoop _ _ _ _ _); [|done]. injection H as <-. eexists. split; [|by left].
  cbn [sf_inodes]. rewrite map_lookup_imap, Hn. done.
Qed.

Lemma quiet_begin op path other fs fs1 r : sim_beginLocked op path other fs = Some (fs1, r) -> inode fs -> quiet fs fs1.
Proof using.
  unfold sim_beginLocked. intros H Hi. destruct (sf_crashed fs); [injection H as <- _; by apply quiet_refl|]. cbv zeta in H.
  repeat case_match; simplify_eq; try (by apply quiet_same). eapply quiet_trans; [|by eapply quiet_crash]. by apply quiet_same.
Qed.

Lemma quiet_finish event fs fs1 r : sim_finishLocked event fs = Some (fs1, r) -> inode fs -> quiet fs fs1.
Proof using.
  unfold sim_finishLocked. intros H Hi. repeat case_match; simplify_eq; try (by apply quiet_same).
  eapply quiet_trans; [|by eapply quiet_crash]. by apply quiet_same.
Qed.

Lemma quiet_file_begin op f fs fs1 r : file_beginLocked op f fs = Some (fs1, r) -> inode fs -> quiet fs fs1.
Proof using. unfold file_beginLocked. intros H Hi. destruct (_ || _); [injection H as <- _; by apply quiet_refl|by eapply quiet_begin]. Qed.

Lemma quiet_finish_io event f bs n err fs fs1 r : finish_io event f bs n err fs = Some (fs1, r) -> inode fs -> quiet fs fs1.
Proof using. unfold finish_io. intros H Hi. repeat case_match; simplify_eq; by eapply quiet_finish. Qed.

(** A body that changes no inode is [quiet]. *)
Definition inodes_kept (fs fs' : SimFS) : Prop :=
  sf_dirty fs' = sf_dirty fs /\ forall n, sf_inodes fs !! id = Some n -> sf_inodes fs' !! id = Some n.

Lemma quiet_inodes fs fs' : inodes_kept fs fs' -> inode fs -> quiet fs fs'.
Proof using. intros [E H] [n Hn]. exists n. split; [by apply H|]. right. exists n. by rewrite E. Qed.

Context (handles : list simFile) (fs : SimFS).
Context (Hok : sim_ok handles fs) (Hg : sf_generation fs < max_u64).

Lemma quiet_operation {A} op path other (body : SimFS -> SimFS * (simError + A)) fs' r :
  sim_operation op path other body fs = Some (fs', r) -> (forall fs1, same_files fs fs1 -> inodes_kept fs1 (body fs1).1) ->
  inode fs -> quiet fs fs'.
Proof using Hok Hg.
  unfold sim_operation. intros H Hb Hi. destruct (begin_ok handles op path other fs Hok Hg) as (fs1 & event & err & E & Hok1 & Hs).
  rewrite E in H. pose proof (quiet_begin _ _ _ _ _ _ E Hi) as Q1. destruct err; [injection H as <- _; done|].
  destruct (Hs eq_refl) as (Hsame & _). pose proof (quiet_inodes _ _ (Hb fs1 Hsame) (quiet_inode _ _ Q1)) as Q2.
  destruct (body fs1) as [fs2 x]. cbn [fst] in Q2. pose proof (quiet_trans _ _ _ Q1 Q2) as Q12.
  destruct x; [injection H as <- _; done|]. destruct (sim_finishLocked event fs2) as [[fs3 e]|] eqn:E2; [|done].
  pose proof (quiet_trans _ _ _ Q12 (quiet_finish _ _ _ _ E2 (quiet_inode _ _ Q2))) as Q3. destruct e; injection H as <- _; done.
Qed.

Lemma quiet_create name fs' r : sim_Create name fs = Some (fs', r) -> inode fs -> quiet fs fs'.
Proof using Hok Hg.
  intros H. eapply quiet_operation; [exact H|]. intros fs1 Hs. cbv beta zeta. destruct (sf_live fs1 !! cleanPath name); [done|]. split; [done|].
  intros n Hn. cbn [fst sf_inodes]. rewrite lookup_insert_ne; [done|]. intros <-. rewrite (sm_inodes _ _ Hs), (sm_next _ _ Hs) in Hn.
  apply (so_alloc _ _ Hok) in Hn. lia.
Qed.

Ltac operation := intros H; eapply quiet_operation; [exact H|]; intros fs1 _; cbv beta zeta; repeat (case_match; [|try by split]); try by split.

Lemma quiet_open name appendMode fs' r : sim_open name appendMode fs = Some (fs', r) -> inode fs -> quiet fs fs'.
Proof using Hok Hg. operation. Qed.

Lemma quiet_names fs' :
  (exists name r, sim_SyncDir name fs = Some (fs', r)) \/ (exists o n r, sim_Rename o n fs = Some (fs', r)) \/
  (exists o n r, sim_Link o n fs = Some (fs', r)) \/ (exists name r, sim_Remove name fs = Some (fs', r)) \/
  (exists name r, sim_List name fs = Some (fs', r)) \/ (exists name r, sim_Stat name fs = Some (fs', r)) -> inode fs -> quiet fs fs'.
Proof using Hok Hg.
  intros [(? & ? & H)|[(? & ? & ? & H)|[(? & ? & ? & H)|[(? & ? & H)|[(? & ? & H)|(? & ? & H)]]]]]; revert H; operation.
Qed.

(** Operations on handles. *)
Lemma quiet_read len f fs' r : file_Read len f fs = Some (fs', r) -> inode fs -> quiet fs fs'.
Proof using.
  unfold file_Read. intros H Hi. destruct (file_beginLocked _ _ _) as [[fs1 [event [e|]]]|] eqn:E; [| |done];
    pose proof (quiet_file_begin _ _ _ _ _ E Hi) as Q1; [by injection H as <- _|]. cbv zeta in H.
  repeat case_match; simplify_eq; (eapply quiet_trans; [exact Q1|eapply quiet_finish_io; [done|by eapply quiet_inode]]).
Qed.

Lemma quiet_readAt len offset f fs' r : file_ReadAt len offset f fs = Some (fs', r) -> inode fs -> quiet fs fs'.
Proof using.
  unfold file_ReadAt. intros H Hi. destruct (file_beginLocked _ _ _) as [[fs1 [event [e|]]]|] eqn:E; [| |done];
    pose proof (quiet_file_begin _ _ _ _ _ E Hi) as Q1; [by injection H as <- _|]. cbv zeta in H. destruct (offset <? 0); [by injection H as <- _|].
  destruct (_ <=? offset); (eapply quiet_trans; [exact Q1|eapply quiet_finish_io; [done|by eapply quiet_inode]]).
Qed.

(** Changing another file. *)
Lemma quiet_other node data ms fs1 : node <> id -> inode fs1 -> (forall m, m ∈ ms -> mut_node m = node) ->
  quiet fs1 (set_inodes (set_data node data (sf_inodes fs1)) (sf_dirty fs1 ++ ms) fs1).
Proof using.
  intros Hne [n Hn] Hms. exists n. cbn [set_inodes sf_inodes sf_dirty]. unfold set_data. rewrite lookup_alter_ne by done. split; [done|].
  right. exists n. split_and!; [done|done|]. rewrite on_node_app, (on_node_none id ms), app_nil_r; [done|]. intros m Hm. by rewrite (Hms m Hm).
Qed.

Lemma quiet_sync f fs' r : sim_file_Sync f fs = Some (fs', r) -> inode fs -> quiet fs fs'.
Proof using.
  unfold sim_file_Sync. intros H Hi. destruct (file_beginLocked _ _ _) as [[fs1 [event [e|]]]|] eqn:E; [| |done];
    pose proof (quiet_file_begin _ _ _ _ _ E Hi) as Q1; [by injection H as <- _|].
  assert (quiet fs1 (set_inodes (alter sync_inode (sl_node f) (sf_inodes fs1)) (clearDirtyLocked (sl_node f) (sf_dirty fs1)) fs1)) as Q2.
  { destruct (quiet_inode _ _ Q1) as [n Hn]. unfold quiet. cbn [set_inodes sf_inodes sf_dirty]. rewrite on_node_clear. destruct (decide (id = sl_node f)) as [<-|Hne].
    - rewrite lookup_alter_eq, Hn. eexists. split; [done|by left].
    - rewrite lookup_alter_ne by done. exists n. split; [done|]. right. by exists n. }
  eapply quiet_trans; [exact Q1|]. eapply quiet_trans; [exact Q2|]. eapply quiet_finish; [done|by eapply quiet_inode].
Qed.

Lemma quiet_close f fs' r : sim_file_Close f fs = Some (fs', r) -> inode fs -> quiet fs fs'.
Proof using.
  unfold sim_file_Close. intros H Hi. destruct (sl_closed f); [injection H as <- _; by apply quiet_refl|].
  destruct (file_beginLocked _ _ _) as [[fs1 [event [e|]]]|] eqn:E; [| |done];
    pose proof (quiet_file_begin _ _ _ _ _ E Hi) as Q1; [by injection H as <- _|]. destruct (sim_finishLocked event fs1) as [[fs2 err]|] eqn:E2; [|done].
  injection H as <- _. eapply quiet_trans; [exact Q1|]. eapply quiet_finish; [done|by eapply quiet_inode].
Qed.

(** * Runs that append to the file *)

(** The unsynced mutations of the file are appends. *)
Definition appending (fs : SimFS) : Prop :=
  exists n, sf_inodes fs !! id = Some n /\ appended (on_node id (sf_dirty fs)) (in_durable n).

Lemma quiet_appending fs0 fs' : quiet fs0 fs' -> appending fs0 -> appending fs'.
Proof using.
  intros (n' & Hn' & H) (n & Hn & Ha). exists n'. split; [done|]. destruct H as [->|(n0 & Hn0 & -> & ->)]; [done|]. by assert (n0 = n) as -> by congruence.
Qed.

Lemma appending_inode fs0 : appending fs0 -> inode fs0.
Proof using. intros (n & Hn & _). by eexists. Qed.

(** A write at the end of the file. *)
Lemma write_appends i f src fs' r :
  handles !! i = Some f -> (sl_node f = id -> sl_offset f = Z.of_nat (length (inodeData id fs))) ->
  file_Write src f fs = Some (fs', r) -> appending fs -> appending fs'.
Proof using Hok Hg.
  intros Hf Hend H Ha. unfold file_Write in H.
  destruct (file_begin_ok handles f fs Hok Hg FSOpWrite) as (fs1 & event & err & E & Hok1 & Hs). rewrite E in H.
  assert (appending fs1) as Ha1 by (eapply quiet_appending, Ha; eapply quiet_file_begin; [exact E|by apply appending_inode]).
  destruct err; [by injection H as <- _|]. destruct (Hs eq_refl) as (Hsame & _ & Hcur). cbv zeta in H.
  destruct (_ || (max_i64 <? sl_offset f)); [by injection H as <- _|]. destruct (_ || (max_i64 <? _)); [by injection H as <- _|].
  match type of H with finish_io _ _ _ _ _ (set_inodes (set_data _ ?d _) _ _) = _ => set (data2 := d) in H end.
  set (ms := recordWriteLocked (sl_node f) (sl_offset f) src []).
  assert (recordWriteLocked (sl_node f) (sl_offset f) src (sf_dirty fs1) = sf_dirty fs1 ++ ms) as Ems.
  { subst ms. unfold recordWriteLocked. by destruct (Nat.eqb (length src) 0); rewrite ?app_nil_r. }
  assert (forall m, m ∈ ms -> m = MutWrite (sl_node f) (sl_offset f) src) as Hms.
  { intros m. subst ms. unfold recordWriteLocked. destruct (Nat.eqb (length src) 0); [by intros ?%elem_of_nil|]. by intros ->%list_elem_of_singleton. }
  rewrite Ems in H. set (fs2 := set_inodes _ _ _) in H. assert (appending fs2) as Ha2; last first.
  { eapply quiet_appending, Ha2. eapply quiet_finish_io; [exact H|by apply appending_inode]. }
  destruct (decide (sl_node f = id)) as [Hid|Hne]; last first.
  { eapply quiet_appending, Ha1. apply quiet_other; [done|by apply appending_inode|]. intros m Hm. by rewrite (Hms m Hm). }
  destruct Ha1 as (n & Hn & Happ). exists (mkInode data2 (in_durable n)). subst fs2. cbn [set_inodes sf_inodes sf_dirty in_durable].
  unfold set_data. rewrite Hid, lookup_alter_eq, Hn. split; [done|]. rewrite on_node_app, (on_node_all id ms) by (intros m Hm; by rewrite (Hms m Hm)).
  assert (replayMuts (on_node id (sf_dirty fs1)) (in_durable n) = Some (in_data n)) as Hrep.
  { apply (so_replay handles); [done|done|]. right; right. exists f. split_and!; [by eapply list_elem_of_lookup_2|done|done]. }
  assert (sl_offset f = Z.of_nat (length (in_data n))) as Hoff.
  { rewrite (Hend Hid). unfold inodeData. by rewrite <- (sm_inodes _ _ Hsame), Hn. }
  subst ms. unfold recordWriteLocked. destruct (Nat.eqb (length src) 0); [by rewrite app_nil_r|]. rewrite Hoff. by apply appended_snoc.
Qed.

Lemma truncate_appends i f size fs' r :
  handles !! i = Some f -> sl_node f <> id -> sim_file_Truncate size f fs = Some (fs', r) -> inode fs -> quiet fs fs'.
Proof using.
  intros Hf Hne H Hi. unfold sim_file_Truncate in H. destruct (file_beginLocked _ _ _) as [[fs1 [event [e|]]]|] eqn:E; [| |done];
    pose proof (quiet_file_begin _ _ _ _ _ E Hi) as Q1; [by injection H as <- _|]. destruct (_ || _); [by injection H as <- _|]. cbv zeta in H.
  set (m := MutTruncate _ _ _) in H. set (fs2 := set_inodes _ _ _) in H.
  assert (quiet fs1 fs2) as Q2.
  { subst fs2. destruct (size =? _); [rewrite <- (app_nil_r (sf_dirty fs1)) at 1|]; (apply quiet_other; [done|by eapply quiet_inode|]);
      [by intros ? ?%elem_of_nil|by intros ? ->%list_elem_of_singleton]. }
  destruct (sim_finishLocked event fs2) as [[fs3 err]|] eqn:E2; [|done]. injection H as <- _.
  eapply quiet_trans; [exact Q1|]. eapply quiet_trans; [exact Q2|]. eapply quiet_finish; [done|by eapply quiet_inode].
Qed.
End file.
