(* ===== verification/SimFSRuns.v ===== *)
(** What holds of every run of the simulated file system, and runs of it: consistency and
    freedom from panics, what a crash keeps, the survival of appended bytes, and the one
    call that breaks the bookkeeping of mutations. *)

From S2P Require Import Prelude Proto RaftLog RaftNode Storage Bytes WalRecords DiskLog DiskLogFacts MapSM Manifest ManifestFacts SimFS SimFSFacts SimFSSpec SimFSAppend.

(** * Runs that append to a file *)

(** The call does not touch the file [id], or reads, syncs or appends to it. *)
Definition appends_to (id : nat) (s : sim_state) (c : simCall) : Prop :=
  match c with
  | CallWrite i _ => forall f, s.1 !! i = Some f -> sl_node f = id -> sl_offset f = Z.of_nat (length (inodeData id s.2))
  | CallTruncate i _ => forall f, s.1 !! i = Some f -> sl_node f <> id
  | _ => True
  end.

Lemma opened_quiet id handles fs (r : option (SimFS * (simError + simFile))) s' :
  opened handles r = Some s' -> (forall fs' x, r = Some (fs', x) -> quiet id fs fs') -> quiet id fs s'.2.
Proof. intros H Hq. destruct r as [[fs' [e|f]]|]; [| |done]; injection H as <-; by eapply Hq. Qed.

Lemma unchanged_quiet {A} id handles fs (r : option (SimFS * A)) s' :
  unchanged handles r = Some s' -> (forall fs' x, r = Some (fs', x) -> quiet id fs fs') -> quiet id fs s'.2.
Proof. intros H Hq. destruct r as [[fs' x]|]; [|done]. injection H as <-. by eapply Hq. Qed.

Lemma through_inv handles i r s' : through handles i r = Some s' -> exists f bs n err, r = Some (s'.2, (f, bs, n, err)).
Proof. intros H. destruct r as [[fs' [[[f bs] n] err]]|]; [|done]. injection H as <-. eauto. Qed.

Lemma quiet_Crash id retain fs fs' x : sim_Crash retain fs = Some (fs', x) -> inode id fs -> quiet id fs fs'.
Proof.
  unfold sim_Crash. intros H Hi. destruct (sf_crashed fs); [injection H as <- _; by apply quiet_refl|].
  destruct (_ <? _); [injection H as <- _; by apply quiet_refl|]. destruct (crashLocked _ _) eqn:E; [|done]. injection H as <- _. by eapply quiet_crash.
Qed.

Lemma call_appending id c s s' :
  call_fits c s -> sim_ok s.1 s.2 -> appends_to id s c -> sim_call c s = Some s' -> appending id s.2 -> appending id s'.2.
Proof.
  destruct s as [handles fs]. intros [Hg Hfit] Hok Hap H Ha. cbn [fst snd] in *. pose proof (appending_inode _ _ Ha) as Hi.
  assert (forall i k, on_handle i (handles, fs) k = Some s' -> (forall f, handles !! i = Some f -> k f = Some s' -> appending id s'.2) -> appending id s'.2) as Hh.
  { intros i k E Hk. unfold on_handle in E. cbn [fst] in E. destruct (handles !! i) as [f|]; [by eapply Hk|]. by injection E as <-. }
  destruct c; cbn [sim_call] in H; try (eapply quiet_appending, Ha;
    first [eapply unchanged_quiet; [exact H|]; intros fs' x E; eapply quiet_names; [exact Hok|exact Hg|naive_solver|exact Hi]
          |eapply opened_quiet; [exact H|]; intros fs' x E; first [by eapply quiet_create|by eapply quiet_open]]).
  - eapply Hh; [exact H|]. intros f Hf (f' & bs & n & err & E)%through_inv. eapply quiet_appending, Ha. by eapply quiet_read.
  - eapply Hh; [exact H|]. intros f Hf (f' & bs & n & err & E)%through_inv. eapply quiet_appending, Ha. by eapply quiet_readAt.
  - eapply Hh; [exact H|]. intros f Hf (f' & bs & n & err & E)%through_inv. eapply write_appends; [exact Hok|exact Hg|exact Hf|by apply Hap|exact E|exact Ha].
  - eapply Hh; [exact H|]. intros f Hf E. eapply quiet_appending, Ha. eapply unchanged_quiet; [exact E|]. intros. by eapply quiet_sync.
  - eapply Hh; [exact H|]. intros f Hf E. cbv beta in E. eapply quiet_appending, Ha. destruct (sim_file_Truncate _ _ _) as [[fs' [f' err]]|] eqn:E2; [|done].
    injection E as <-. eapply truncate_appends; [exact Hf|by apply Hap|exact E2|exact Hi].
  - eapply Hh; [exact H|]. intros f Hf E. cbv beta in E. eapply quiet_appending, Ha. destruct (sim_file_Close _ _) as [[fs' [f' err]]|] eqn:E2; [|done].
    injection E as <-. by eapply quiet_close.
  - eapply quiet_appending, Ha. eapply unchanged_quiet; [exact H|]. intros. by eapply quiet_Crash.
  - injection H as <-. eapply quiet_appending, Ha. cbn [snd]. unfold sim_Recover. destruct (negb _); by apply quiet_same.
  - injection H as <-. eapply quiet_appending, Ha. cbn [snd]. unfold SetCrashSchedule. destruct (crashSchedule _ _); by apply quiet_same.
  - injection H as <-. eapply quiet_appending, Ha. cbn [snd]. unfold SetErrorSchedule. destruct (errorSchedule _ _); by apply quiet_same.
  - injection H as <-. eapply quiet_appending, Ha. by apply quiet_same.
Qed.

Lemma run_appending id s s' :
  sim_run (appends_to id) s s' -> sim_ok s.1 s.2 -> appending id s.2 -> appending id s'.2.
Proof.
  intros Hrun Hok Ha. induction Hrun as [|s1 s2 c Hrun IH Hfit HP E]; [done|].
  eapply call_appending; [exact Hfit|by eapply sim_run_ok|done|done|done].
Qed.

(** * The claims *)

(** C34. The simulated file system is consistent while no write of no bytes is made past the
    end of a file: in every state that calls of the file system, its handles, its schedules,
    crashes and recoveries reach without such a write ([sim_reaches]), with slices and sizes
    in the range of [int64] and fewer crashes than the generation counts, the names and the
    open handles refer to inodes, and the recorded mutations of an inode, replayed over its
    synced bytes, give its live bytes; and every further call of this kind ([call_fits])
    returns without a panic, whatever faults are scheduled.  The write that is left out is
    one that the code accepts and does not record, and after which a crash can panic
    ([simfs_empty_write_panics]). *)
Theorem simfs_consistent s :
  sim_reaches s -> sim_ok s.1 s.2 /\ forall c, call_fits c s -> exists s', sim_call c s = Some s'.
Proof.
  intros H%sim_reaches_ok. split; [done|]. intros c Hc. destruct (sim_call_ok c s Hc H) as (s' & E & _). eauto.
Qed.

(** A crash of a running file system returns without an error: it keeps exactly the
    durable names, refuses every handle from before it, and gives each durable name bytes
    that are its synced bytes with a prefix of the mutations recorded since, the last one
    perhaps in part; all live bytes when everything unsynced is retained, and when the file
    was synced after its last change. *)
Theorem simfs_crash_keeps s retain :
  sim_reaches s -> sf_generation s.2 < max_u64 -> sf_crashed s.2 = false -> simRetainAll <= retain ->
  exists fs', sim_Crash retain s.2 = Some (fs', None) /\ sf_crashed fs' = true /\
    sf_live fs' = sf_durableNames s.2 /\ sf_durableNames fs' = sf_durableNames s.2 /\
    (forall f op, f ∈ s.1 -> file_beginLocked op f fs' = Some (fs', (0%nat, Some simErrFSClosed))) /\
    forall name id, sf_durableNames s.2 !! name = Some id -> crash_kept retain s.2 fs' id.
Proof.
  intros Hok%sim_reaches_ok Hg Hc Hr. unfold sim_Crash. rewrite Hc, (proj2 (Z.ltb_ge _ _)) by lia.
  destruct (crash_ok s.1 retain s.2 Hok Hg) as (fs' & -> & Hok' & Hcr & _ & Hlive & Hdur & Hgen & Hkept). exists fs'. split_and!; try done.
  intros f op Hf. unfold file_beginLocked. destruct (so_handles _ _ Hok f Hf) as (_ & Hle & _).
  rewrite (proj2 (Z.eqb_neq _ _)) by lia. by rewrite orb_true_r.
Qed.

(** C35. After a sync, a file that is only appended to (through any handles, with other files
    changed at will) survives a crash, whatever part of the unsynced bytes is retained, in
    the sense the manifest and the engine rely on: a prefix of its bytes that includes all
    the synced ones.  As above, no write of no bytes is made past the end of a file. *)
Theorem simfs_append_survives s s' id name n fs' retain :
  sim_reaches s -> is_Some (sf_inodes s.2 !! id) -> on_node id (sf_dirty s.2) = [] ->
  sim_run (appends_to id) s s' -> sf_generation s'.2 < max_u64 -> sf_durableNames s'.2 !! name = Some id -> sf_inodes s'.2 !! id = Some n ->
  crashLocked retain s'.2 = Some fs' ->
  exists image, sf_live fs' !! name = Some id /\ sf_inodes fs' !! id = Some (mkInode image image) /\
    survives (mkFile (in_data n) (length (in_durable n)) true) (mkFile image (length (in_durable n)) true).
Proof.
  intros Hok%sim_reaches_ok [n0 Hn0] Hclean Hrun Hg Hname Hn Hcrash.
  assert (appending id s'.2) as (n1 & Hn1 & Happ).
  { eapply run_appending; [exact Hrun|done|]. exists n0. by rewrite Hclean. }
  assert (n1 = n) as -> by congruence. pose proof (sim_run_ok _ _ _ Hrun Hok) as Hok'.
  destruct (crash_ok s'.1 retain s'.2 Hok' Hg) as (fs1 & E & _ & _ & _ & Hlive & _ & _ & Hkept). rewrite E in Hcrash. injection Hcrash as ->.
  destruct (Hkept name id Hname) as [(n2 & image & Hn2 & Himg & Hcut & _)]. assert (n2 = n) as -> by congruence.
  exists image. rewrite Hlive. split_and!; [done|done|].
  destruct (appended_cut _ _ _ _ Happ (so_replay _ _ Hok' id n Hn ltac:(right; left; eauto)) Hcut) as [Hp1 Hp2].
  exists (length image). apply prefix_length in Hp1. cbn [content synced named]. split; [done|]. f_equal; [|lia].
  destruct Hp2 as [k ->]. by rewrite take_app_length.
Qed.

(** * Runs *)

Definition call_fits_b (c : simCall) (s : sim_state) : bool :=
  (sf_generation s.2 <? max_u64) &&
  match c with
  | CallWrite i src =>
      match s.1 !! i with
      | None => true
      | Some f => (Z.of_nat (length src) <=? max_i64) &&
          (negb (Nat.eqb (length src) 0) || (sl_offset f <=? Z.of_nat (length (inodeData (sl_node f) s.2))))
      end
  | CallTruncate _ size => size <=? max_i64
  | _ => true
  end.

Lemma call_fits_spec c s : call_fits_b c s = true -> call_fits c s.
Proof.
  unfold call_fits_b, call_fits. intros [Hg%Z.ltb_lt H]%andb_true_iff. split; [done|]. destruct c; try done; [|by apply Z.leb_le].
  intros f Hf. rewrite Hf in H. apply andb_true_iff in H as [H1%Z.leb_le H2%orb_true_iff]. split; [done|].
  destruct H2 as [H2|H2%Z.leb_le]; [|by right]. left. intros ->. done.
Qed.

(** The calls of a list, each checked to fit. *)
Fixpoint sim_checked (cs : list simCall) (s : sim_state) : option sim_state :=
  match cs with
  | [] => Some s
  | c :: cs' => if call_fits_b c s then match sim_call c s with None => None | Some s' => sim_checked cs' s' end else None
  end.

Lemma sim_checked_run P cs s0 s s' :
  sim_run P s0 s -> (forall s c, c ∈ cs -> P s c) -> sim_checked cs s = Some s' -> sim_run P s0 s'.
Proof.
  revert s. induction cs as [|c cs IH]; intros s Hrun HP H; cbn [sim_checked] in H; [by injection H as <-|].
  destruct (call_fits_b c s) eqn:Ef; [|done]. destruct (sim_call c s) as [s1|] eqn:E; [|done].
  eapply IH; [|intros ? ? ?; apply HP; by right|exact H]. eapply sim_run_call; [exact Hrun|by apply call_fits_spec|apply HP; by left|exact E].
Qed.

Lemma sim_checked_reaches cs s : sim_checked cs fresh_sim = Some s -> sim_reaches s.
Proof. apply sim_checked_run; [apply sim_run_refl|done]. Qed.

(** A file with two synced bytes and a durable name, then three bytes more. *)
Definition demo_synced : list simCall :=
  [CallCreate "db/MANIFEST"; CallWrite 0 [Byte.x01; Byte.x02]; CallSync 0; CallSyncDir "db"].
Definition demo_append : simCall := CallWrite 0 [Byte.x03; Byte.x04; Byte.x05].

Definition demo_fs : sim_state := default fresh_sim (sim_checked demo_synced fresh_sim).
Definition demo_fs' : sim_state := default fresh_sim (sim_call demo_append demo_fs).

Lemma demo_fs_reached : sim_reaches demo_fs.
Proof. apply (sim_checked_reaches demo_synced). vm_compute. reflexivity. Qed.

Lemma demo_appends : sim_run (appends_to 0) demo_fs demo_fs'.
Proof.
  apply (sim_run_call _ demo_fs demo_fs demo_fs' demo_append); [apply sim_run_refl|apply call_fits_spec; vm_compute; reflexivity| |vm_compute; reflexivity].
  intros f Hf _. vm_compute in Hf. injection Hf as <-. vm_compute. reflexivity.
Qed.

Lemma demo_fs'_reached : sim_reaches demo_fs'.
Proof. apply (sim_checked_reaches (demo_synced ++ [demo_append])). vm_compute. reflexivity. Qed.

Lemma simfs_consistent_witness :
  sim_reaches demo_fs' /\ sim_ok demo_fs'.1 demo_fs'.2 /\ forall c, call_fits c demo_fs' -> exists s', sim_call c demo_fs' = Some s'.
Proof. split; [exact demo_fs'_reached|]. exact (simfs_consistent demo_fs' demo_fs'_reached). Defined.

Lemma simfs_crash_keeps_witness :
  exists fs', sim_Crash 2 demo_fs'.2 = Some (fs', None) /\ LiveBytes "db/MANIFEST" fs' = inr [Byte.x01; Byte.x02; Byte.x03; Byte.x04] /\
    forall name id, sf_durableNames demo_fs'.2 !! name = Some id -> crash_kept 2 demo_fs'.2 fs' id.
Proof.
  destruct (simfs_crash_keeps demo_fs' 2 demo_fs'_reached) as (fs' & E & _ & _ & _ & _ & H);
    [vm_compute; reflexivity|vm_compute; reflexivity|vm_compute; discriminate|].
  exists fs'. split; [exact E|]. split; [|exact H]. vm_compute in E. injection E as <-. vm_compute. reflexivity.
Defined.

Lemma simfs_append_survives_witness :
  exists fs' image, crashLocked 2 demo_fs'.2 = Some fs' /\ sf_inodes fs' !! 0%nat = Some (mkInode image image) /\
    survives (mkFile [Byte.x01; Byte.x02; Byte.x03; Byte.x04; Byte.x05] 2 true) (mkFile image 2 true).
Proof.
  destruct (crashLocked 2 demo_fs'.2) as [fs'|] eqn:E; [|vm_compute in E; discriminate E].
  destruct (simfs_append_survives demo_fs demo_fs' 0 "db/MANIFEST"
    (mkInode [Byte.x01; Byte.x02; Byte.x03; Byte.x04; Byte.x05] [Byte.x01; Byte.x02]) fs' 2 demo_fs_reached) as (image & _ & Hi & Hs);
    [vm_compute; eexists; reflexivity|vm_compute; reflexivity|exact demo_appends|vm_compute; reflexivity|vm_compute; reflexivity
    |vm_compute; reflexivity|exact E|].
  exists fs', image. split; [reflexivity|]. split; [exact Hi|exact Hs].
Defined.

(** * The write of no bytes *)

(** A write of no bytes past the end of a file lengthens the file without recording a
    mutation; here a later truncation and a crash that retains every mutation panics. *)
Definition demo_empty_write : list simCall :=
  [CallCreate "a"; CallWrite 0 [Byte.x01; Byte.x02]; CallOpen "a"; CallTruncate 1 0; CallWrite 0 []; CallTruncate 1 0; CallCrash simRetainAll].

Theorem simfs_empty_write_panics : sim_calls demo_empty_write fresh_sim = None.
Proof. vm_compute. reflexivity. Qed.

(** Without the write of no bytes the same calls return. *)
Theorem simfs_without_empty_write :
  is_Some (sim_checked [CallCreate "a"; CallWrite 0 [Byte.x01; Byte.x02]; CallOpen "a"; CallTruncate 1 0; CallTruncate 1 0; CallCrash simRetainAll] fresh_sim).
Proof. vm_compute. by eexists. Qed.
