(* ===== verification/Float64.v ===== *)
(** Go's [float64] as far as the simulator uses it: IEEE 754 binary64 values, the
    comparisons, the conversion from an integer, the division, the product, [math.FMA] and
    [math.Round].  The values and their rounding are those of the Standard Library's
    [SpecFloat]; of the rounding, that it keeps bounds that are powers of two, and of a
    quotient, that it is not large. *)

From Stdlib Require Import SpecFloat.
From S2P Require Import Prelude.

Definition float64 : Type := spec_float.

Definition prec64 : Z := 53.
Definition emax64 : Z := 1024.

(** Comparisons with a NaN are false. *)
Definition f64_ltb (a b : float64) : bool := SFltb a b.
Definition f64_eqb (a b : float64) : bool := SFeqb a b.

Definition f64_isNaN (a : float64) : bool := match a with S754_nan => true | _ => false end.
Definition f64_isInf (a : float64) : bool := match a with S754_infinity _ => true | _ => false end.

Definition f64_zero : float64 := S754_zero false.

(** [float64(n)] and [a / b], rounded to nearest even. *)
Definition f64_of_int (n : Z) : float64 := binary_normalize prec64 emax64 n 0 false.
Definition f64_div (a b : float64) : float64 := SFdiv prec64 emax64 a b.

(** [a * b]. *)
Definition f64_mul (a b : float64) : float64 := SFmul prec64 emax64 a b.

(** The numerator of a finite value over [2 ^ e], for [e] at most its exponent. *)
Definition scaled (s : bool) (m e0 e : Z) : Z := (if s then -1 else 1) * m * 2 ^ (e0 - e).

(** [math.FMA(a, b, c)]: [a * b + c] in one rounding. *)
Definition f64_fma (a b c : float64) : float64 :=
  match a, b with
  | S754_nan, _ | _, S754_nan | S754_infinity _, S754_zero _ | S754_zero _, S754_infinity _ => S754_nan
  | S754_infinity sa, (S754_infinity sb | S754_finite sb _ _) | S754_finite sa _ _, S754_infinity sb =>
      match c with
      | S754_nan => S754_nan
      | S754_infinity sc => if Bool.eqb sc (xorb sa sb) then c else S754_nan
      | _ => S754_infinity (xorb sa sb)
      end
  | S754_zero sa, (S754_zero sb | S754_finite sb _ _) | S754_finite sa _ _, S754_zero sb =>
      match c with
      | S754_zero sc => S754_zero (xorb sa sb && sc)
      | _ => c
      end
  | S754_finite sa ma ea, S754_finite sb mb eb =>
      let s := xorb sa sb in
      let m := Z.pos ma * Z.pos mb in
      match c with
      | S754_nan | S754_infinity _ => c
      | S754_zero _ => binary_normalize prec64 emax64 (if s then - m else m) (ea + eb) s
      | S754_finite sc mc ec =>
          let e := Z.min (ea + eb) ec in
          binary_normalize prec64 emax64 (scaled s m (ea + eb) e + scaled sc (Z.pos mc) ec e) e false
      end
  end.

(** The integer nearest to [m * 2^e], halves away from zero. *)
Definition roundMagnitude (m : positive) (e : Z) : Z :=
  if 0 <=? e then Z.pos m * 2 ^ e else (Z.pos m + 2 ^ (- e - 1)) / 2 ^ (- e).

(** [int64(math.Round(a))]; what the conversion gives for a value that is not finite depends
    on the machine, and is 0 here. *)
Definition f64_roundToInt (a : float64) : Z :=
  match a with
  | S754_finite false m e => roundMagnitude m e
  | S754_finite true m e => - roundMagnitude m e
  | _ => 0
  end.

(** [int(math.Ceil(a))]; what the conversion gives for a value that is not finite depends on
    the machine, and is 0 here. *)
Definition f64_ceilToInt (a : float64) : Z :=
  match a with
  | S754_finite s m e =>
      let v := if s then Z.neg m else Z.pos m in
      if 0 <=? e then v * 2 ^ e else - ((- v) / 2 ^ (- e))
  | _ => 0
  end.

(** One half and two. *)
Definition f64_half : float64 := S754_finite false 4503599627370496 (-53).
Definition f64_two : float64 := S754_finite false 4503599627370496 (-51).

Example f64_div_ex : f64_roundToInt (f64_div (f64_of_int 50) f64_two) = 25 /\ f64_roundToInt (f64_div (f64_of_int 50) f64_half) = 100.
Proof. split; reflexivity. Qed.

Example f64_round_ex : f64_roundToInt (f64_div (f64_of_int 5) f64_two) = 3 /\ f64_roundToInt (f64_div (f64_of_int (-5)) f64_two) = -3.
Proof. split; reflexivity. Qed.

Example f64_order_ex : f64_ltb f64_half f64_two = true /\ f64_ltb f64_two f64_half = false /\ f64_ltb S754_nan f64_two = false.
Proof. split_and!; reflexivity. Qed.

Lemma f64_finite a : f64_isNaN a || f64_isInf a = false -> exists s, a = S754_zero s \/ exists m e, a = S754_finite s m e.
Proof. destruct a as [s|s| |s m e]; cbn; try done; intros _; exists s; eauto. Qed.

Example f64_mul_ex : f64_mul f64_half f64_two = f64_of_int 1 /\ f64_fma f64_half (f64_of_int 3) f64_half = f64_two.
Proof. split; vm_compute; reflexivity. Qed.

(** * Rounding *)

Notation fexp64 := (fexp prec64 emax64).
Notation emin64 := (emin prec64 emax64).

Lemma digits2_bounds p : 2 ^ (Z.pos (digits2_pos p) - 1) <= Z.pos p < 2 ^ Z.pos (digits2_pos p).
Proof.
  induction p as [p IH|p IH|]; cbn [digits2_pos]; [| |done].
  all: rewrite Pos2Z.inj_succ; replace (Z.succ (Z.pos (digits2_pos p)) - 1) with (Z.succ (Z.pos (digits2_pos p) - 1)) by lia.
  all: rewrite !Z.pow_succ_r by lia; lia.
Qed.

Lemma digits2_le p k : 0 <= k -> Z.pos p < 2 ^ k -> Z.pos (digits2_pos p) <= k.
Proof.
  intros Hk Hp. destruct (Z.le_gt_cases (Z.pos (digits2_pos p)) k) as [H|H]; [done|]. pose proof (digits2_bounds p) as [Hb _].
  pose proof (Z.pow_le_mono_r 2 k (Z.pos (digits2_pos p) - 1)). lia.
Qed.

Lemma digits2_ge p k : 0 <= k -> 2 ^ k <= Z.pos p -> k < Z.pos (digits2_pos p).
Proof.
  intros Hk Hp. destruct (Z.le_gt_cases (Z.pos (digits2_pos p)) k) as [H|H]; [|done]. pose proof (digits2_bounds p) as [_ Hb].
  pose proof (Z.pow_le_mono_r 2 (Z.pos (digits2_pos p)) k). lia.
Qed.

Lemma shr_1_m mrs : 0 <= shr_m mrs -> shr_m (shr_1 mrs) = shr_m mrs / 2.
Proof. rewrite <- Z.div2_div. by destruct mrs as [[|[p|p|]|p] r s]. Qed.

Lemma shr_m_iter p mrs : 0 <= shr_m mrs -> shr_m (SpecFloat.iter_pos shr_1 p mrs) = shr_m mrs / 2 ^ Z.pos p.
Proof.
  assert (forall p mrs, 0 <= shr_m mrs -> 0 <= shr_m mrs / 2 ^ Z.pos p) as Hpos by (intros; apply Z.div_pos; [done|lia]).
  revert mrs. induction p as [p IH|p IH|]; intros mrs H; cbn [SpecFloat.iter_pos]; [..|by apply shr_1_m].
  - assert (0 <= shr_m (shr_1 mrs)) by (rewrite shr_1_m by done; apply Z.div_pos; lia).
    rewrite IH by (rewrite IH by done; by apply Hpos). rewrite IH, shr_1_m by done. rewrite !Z.div_div by lia. f_equal.
    rewrite (Pos2Z.inj_xI p), Z.pow_add_r, <- Z.pow_twice_r by lia. lia.
  - rewrite IH by (rewrite IH by done; by apply Hpos). rewrite IH by done. rewrite Z.div_div by lia. f_equal.
    rewrite (Pos2Z.inj_xO p), <- Z.pow_twice_r. done.
Qed.

Lemma fexp_eq k : fexp64 k = Z.max (k - 53) (-1074).
Proof. reflexivity. Qed.

Lemma shr_fexp_spec p e :
  e <= fexp64 (Z.pos (digits2_pos p) + e) ->
  exists mrs, shr_fexp prec64 emax64 (Z.pos p) e loc_Exact = (mrs, fexp64 (Z.pos (digits2_pos p) + e)) /\
    shr_m mrs = Z.pos p / 2 ^ (fexp64 (Z.pos (digits2_pos p) + e) - e).
Proof.
  intros He. unfold shr_fexp. cbn [Zdigits2 shr_record_of_loc]. set (e1 := fexp64 _) in *. unfold shr. destruct (e1 - e) as [|q|q] eqn:Eq; [..|lia].
  - assert (e1 = e) as -> by lia. eexists. split; [done|]. cbn. by rewrite Z.div_1_r.
  - eexists. split; [f_equal; lia|]. by rewrite shr_m_iter.
Qed.

Lemma shr_fexp_none m e : 0 <= m -> fexp64 (Zdigits2 m + e) <= e -> shr_fexp prec64 emax64 m e loc_Exact = (Build_shr_record m false false, e).
Proof. intros Hm He. unfold shr_fexp, shr. cbn [shr_record_of_loc]. destruct (_ - e) eqn:E; [done|lia|done]. Qed.

Lemma round_nearest_even_near m l : round_nearest_even m l = m \/ round_nearest_even m l = m + 1.
Proof. destruct l as [|[]]; cbn; try destruct (Z.even m); auto. Qed.

(** A value of the type in its one form. *)
Record canonical (m : positive) (e : Z) : Prop := {
  ca_exponent : -1074 <= e;
  ca_mantissa : Z.pos m < 2 ^ 53;
  ca_normal : e = -1074 \/ 2 ^ 52 <= Z.pos m;
}.

(** The second shift, of a mantissa that has at most one digit too many. *)
Lemma renormalize m e s :
  0 <= m <= 2 ^ 53 -> -1074 <= e <= 900 -> e = -1074 \/ 2 ^ 52 <= m ->
  let r := let '(mrs, e') := shr_fexp prec64 emax64 m e loc_Exact in
           match shr_m mrs with
           | Z0 => S754_zero s
           | Zpos p => if Z.leb e' (emax64 - prec64) then S754_finite s p e' else S754_infinity s
           | _ => S754_nan
           end in
  (m = 0 /\ r = S754_zero s) \/ exists p e', r = S754_finite s p e' /\ canonical p e' /\ e <= e' /\ Z.pos p * 2 ^ (e' - e) = m.
Proof.
  intros Hm He Hn r. destruct (Z.eq_dec m (2 ^ 53)) as [->|Hne].
  - right. subst r. exists 4503599627370496%positive, (e + 1). change (2 ^ 53) with (Z.pos 9007199254740992).
    destruct (shr_fexp_spec 9007199254740992 e) as (mrs & -> & ->); rewrite fexp_eq; change (Z.pos (digits2_pos 9007199254740992)) with 54; [lia|].
    replace (Z.max (54 + e - 53) (-1074)) with (e + 1) by lia. replace (e + 1 - e) with 1 by lia. change (Z.pos 9007199254740992 / 2 ^ 1) with 4503599627370496.
    cbv iota beta. rewrite (proj2 (Z.leb_le (e + 1) (emax64 - prec64))) by (change (emax64 - prec64) with 971; lia). split_and!; [done| |lia|done].
    split; [lia|done|right; done].
  - assert (m < 2 ^ 53) as Hlt by lia. destruct m as [|p|]; [..|lia].
    + left. split; [done|]. subst r. rewrite shr_fexp_none; [done|done|]. rewrite fexp_eq. cbn [Zdigits2]. lia.
    + right. exists p, e. pose proof (digits2_le p 53 ltac:(lia) Hlt) as Hd. subst r. rewrite shr_fexp_none by (rewrite ?fexp_eq; cbn [Zdigits2]; lia).
      cbn [shr_m]. rewrite (proj2 (Z.leb_le e (emax64 - prec64))) by (change (emax64 - prec64) with 971; lia).
      rewrite Z.sub_diag, Z.mul_1_r. split_and!; [done| |lia|done]. split; [lia|done|done].
Qed.

(** Rounding gives a neighbour. *)
Lemma binary_round_aux_near s p e :
  let e1 := fexp64 (Z.pos (digits2_pos p) + e) in
  let m1 := Z.pos p / 2 ^ (e1 - e) in
  let r := binary_round_aux prec64 emax64 s (Z.pos p) e loc_Exact in
  e <= e1 -> e1 <= 900 ->
  exists m, (m = m1 \/ m = m1 + 1) /\
    ((m = 0 /\ r = S754_zero s) \/ exists q e', r = S754_finite s q e' /\ canonical q e' /\ e1 <= e' /\ Z.pos q * 2 ^ (e' - e1) = m).
Proof.
  intros e1 m1 r He Hbig. subst r. unfold binary_round_aux. destruct (shr_fexp_spec p e He) as (mrs & -> & Em). fold e1 m1 in Em |- *. rewrite Em.
  destruct (digits2_bounds p) as [Hlo Hhi]. set (d := Z.pos (digits2_pos p)) in *. assert (e1 = Z.max (d + e - 53) (-1074)) as E1 by apply fexp_eq.
  assert (0 <= m1 < 2 ^ 53) as Hm1.
  { subst m1. split; [apply Z.div_pos; lia|]. apply Z.div_lt_upper_bound; [lia|]. rewrite <- Z.pow_add_r by lia.
    eapply Z.lt_le_trans; [exact Hhi|]. apply Z.pow_le_mono_r; lia. }
  assert (e1 = -1074 \/ 2 ^ 52 <= m1) as Hn.
  { destruct (Z.eq_dec e1 (-1074)) as [H|H]; [by left|right]. subst m1. apply Z.div_le_lower_bound; [lia|]. rewrite <- Z.pow_add_r by lia.
    etrans; [|exact Hlo]. apply Z.pow_le_mono_r; lia. }
  set (m := round_nearest_even m1 (loc_of_shr_record mrs)). destruct (round_nearest_even_near m1 (loc_of_shr_record mrs)) as [E|E]; fold m in E.
  all: exists m; split; [auto|]; apply (renormalize m e1 s); lia.
Qed.

(** * Bounds *)

Definition f64_pow2 (k : Z) : float64 := S754_finite false 4503599627370496 (k - 52).

Lemma compare_cont_Eq p q : Pos.compare_cont Eq p q = Pos.compare p q.
Proof. done. Qed.

Lemma pow2_shift d a b k : 0 <= d -> b <= a -> k - d = a -> 2 ^ (k - b) = 2 ^ d * 2 ^ (a - b).
Proof. intros Hd Hab <-. rewrite <- Z.pow_add_r by lia. f_equal. lia. Qed.

Lemma canonical_le q e e1 k :
  canonical q e -> -1022 <= k -> e1 <= e -> e1 <= k -> Z.pos q * 2 ^ (e - e1) <= 2 ^ (k - e1) -> f64_ltb (f64_pow2 k) (S754_finite false q e) = false.
Proof.
  intros [H1 H2 H3] Hk He He1 Hle. unfold f64_ltb, SFltb, f64_pow2. cbn [SFcompare]. destruct (Z.compare_spec (k - 52) e) as [E|E|E]; [|exfalso|done].
  - rewrite compare_cont_Eq. destruct (Pos.compare_spec 4503599627370496 q) as [Hc|Hc|Hc]; [done|exfalso|done].
    rewrite (pow2_shift 52 e e1 k ltac:(lia) He ltac:(lia)) in Hle.
    pose proof (proj2 (Z.mul_le_mono_pos_r (Z.pos q) (2 ^ 52) (2 ^ (e - e1)) (Z.pow_pos_nonneg 2 (e - e1) ltac:(lia) ltac:(lia))) Hle) as Hq.
    change (2 ^ 52) with (Z.pos 4503599627370496) in Hq. lia.
  - destruct H3 as [H3|H3]; [lia|]. assert (2 ^ (k - e1) < 2 ^ 52 * 2 ^ (e - e1)) as Ek by (rewrite <- Z.pow_add_r by lia; apply Z.pow_lt_mono_r; lia).
    pose proof (Z.mul_le_mono_nonneg_r (2 ^ 52) (Z.pos q) (2 ^ (e - e1)) (Z.pow_nonneg 2 (e - e1) ltac:(lia)) H3) as Hq.
    apply (Z.lt_irrefl (2 ^ (k - e1))). eapply Z.lt_le_trans; [exact Ek|]. by etrans.
Qed.

Lemma canonical_ge q e e1 k :
  canonical q e -> e1 <= e -> e1 <= k -> 2 ^ (k - e1) <= Z.pos q * 2 ^ (e - e1) -> f64_ltb (S754_finite false q e) (f64_pow2 k) = false.
Proof.
  intros [H1 H2 H3] He He1 Hle. unfold f64_ltb, SFltb, f64_pow2. cbn [SFcompare]. destruct (Z.compare_spec e (k - 52)) as [E|E|E]; [|exfalso|done].
  - rewrite (pow2_shift 52 e e1 k ltac:(lia) He ltac:(lia)) in Hle. rewrite compare_cont_Eq.
    pose proof (proj2 (Z.mul_le_mono_pos_r (2 ^ 52) (Z.pos q) (2 ^ (e - e1)) (Z.pow_pos_nonneg 2 (e - e1) ltac:(lia) ltac:(lia))) Hle) as Hq.
    destruct (Pos.compare_spec q 4503599627370496) as [Hc|Hc|Hc]; [done|exfalso|done]. apply Pos2Z.pos_lt_pos in Hc. revert Hq. apply Z.lt_nge. exact Hc.
  - assert (2 ^ 53 * 2 ^ (e - e1) <= 2 ^ (k - e1)) as Ek by (rewrite <- Z.pow_add_r by lia; apply Z.pow_le_mono_r; lia).
    pose proof (proj1 (Z.mul_lt_mono_pos_r (2 ^ (e - e1)) (Z.pos q) (2 ^ 53) (Z.pow_pos_nonneg 2 (e - e1) ltac:(lia) ltac:(lia))) H2) as Hq.
    apply (Z.lt_irrefl (2 ^ (k - e1))). eapply Z.le_lt_trans; [exact Hle|]. eapply Z.lt_le_trans; [exact Hq|exact Ek].
Qed.

(** What is rounded from below [2 ^ k] is finite and at most that. *)
Lemma binary_round_aux_upper p e k :
  e <= fexp64 (Z.pos (digits2_pos p) + e) -> e <= k -> -1022 <= k <= 900 -> Z.pos p < 2 ^ (k - e) ->
  let r := binary_round_aux prec64 emax64 false (Z.pos p) e loc_Exact in
  f64_isNaN r || f64_isInf r = false /\ f64_ltb r f64_zero = false /\ f64_ltb (f64_pow2 k) r = false.
Proof.
  intros He Hek Hk Hp r. pose proof (digits2_le p (k - e) ltac:(lia) Hp) as Hd. rewrite fexp_eq in He.
  destruct (binary_round_aux_near false p e) as (m & Hm & Hr); rewrite ?fexp_eq; [lia|lia|]. fold r in Hr. rewrite fexp_eq in Hm, Hr. set (e1 := Z.max _ _) in *.
  assert (m <= 2 ^ (k - e1)) as Hle.
  { assert (Z.pos p / 2 ^ (e1 - e) < 2 ^ (k - e1)); [|lia]. apply Z.div_lt_upper_bound; [lia|]. rewrite <- Z.pow_add_r by lia. by replace (e1 - e + (k - e1)) with (k - e) by lia. }
  destruct Hr as [[-> ->]|(q & e' & -> & Hc & He' & Hq)]; [done|]. split_and!; [done|done|]. eapply (canonical_le _ _ e1); [done|lia..].
Qed.

(** What is rounded from [2 ^ k] or more is at least that. *)
Lemma binary_round_aux_lower p e k hi :
  e <= fexp64 (Z.pos (digits2_pos p) + e) -> e <= k -> -1022 <= k -> k <= hi <= k + 52 -> hi <= 900 -> 2 ^ (k - e) <= Z.pos p < 2 ^ (hi - e) ->
  f64_ltb (binary_round_aux prec64 emax64 false (Z.pos p) e loc_Exact) (f64_pow2 k) = false.
Proof.
  intros He Hek Hk Hhi Hhi' [Hp Hp']. pose proof (digits2_le p (hi - e) ltac:(lia) Hp') as Hd. rewrite fexp_eq in He.
  destruct (binary_round_aux_near false p e) as (m & Hm & Hr); rewrite ?fexp_eq; [lia|lia|]. rewrite fexp_eq in Hm, Hr. set (e1 := Z.max _ _) in *.
  assert (2 ^ (k - e1) <= m) as Hle.
  { assert (2 ^ (k - e1) <= Z.pos p / 2 ^ (e1 - e)); [|lia]. apply Z.div_le_lower_bound; [lia|]. rewrite <- Z.pow_add_r by lia. by replace (e1 - e + (k - e1)) with (k - e) by lia. }
  destruct Hr as [[-> _]|(q & e' & -> & Hc & He' & Hq)]; [pose proof (Z.pow_pos_nonneg 2 (k - e1)); lia|]. eapply (canonical_ge _ _ e1); [done|lia..].
Qed.

Lemma shl_align_spec p e :
  let '(q, e') := shl_align p e (fexp64 (Z.pos (digits2_pos p) + e)) in
  e' <= fexp64 (Z.pos (digits2_pos q) + e') /\ e' <= e /\ Z.pos q = Z.pos p * 2 ^ (e - e').
Proof.
  unfold shl_align. set (e1 := fexp64 _). destruct (e1 - e) as [|n|n] eqn:E; [by rewrite Z.sub_diag, Z.mul_1_r; split_and!; lia..|].
  assert (forall n, digits2_pos (Pos.iter xO p n) = (digits2_pos p + n)%positive) as Hd.
  { clear. intros n. induction n as [|n IH] using Pos.peano_ind; [cbn; lia|]. rewrite Pos.iter_succ. cbn [digits2_pos]. rewrite IH. lia. }
  assert (forall n, Z.pos (Pos.iter xO p n) = Z.pos p * 2 ^ Z.pos n) as Hv.
  { clear. intros n. induction n as [|n IH] using Pos.peano_ind; [cbn; lia|]. rewrite Pos.iter_succ. rewrite Pos2Z.inj_xO, IH, Pos2Z.inj_succ, Z.pow_succ_r by lia. lia. }
  rewrite Hd, Hv. replace (e - e1) with (Z.pos n) by lia. split_and!; [|lia|done]. replace (Z.pos (digits2_pos p + n) + e1) with (Z.pos (digits2_pos p) + e) by lia. fold e1. lia.
Qed.

(** A number between two powers of two is rounded to a value between them. *)
Lemma binary_normalize_between m e szero lo hi :
  e <= lo -> -1022 <= lo -> lo <= hi <= lo + 52 -> hi <= 900 -> 2 ^ (lo - e) <= m < 2 ^ (hi - e) ->
  let r := binary_normalize prec64 emax64 m e szero in
  f64_isNaN r || f64_isInf r = false /\ f64_ltb r (f64_pow2 lo) = false /\ f64_ltb (f64_pow2 hi) r = false.
Proof.
  intros He Hlo Hhi Hhi' Hm r. pose proof (Z.pow_pos_nonneg 2 (lo - e)). destruct m as [|p|p]; [lia| |lia]. subst r. cbn [binary_normalize]. unfold binary_round.
  pose proof (shl_align_spec p e) as Hs. destruct (shl_align p e _) as [q e']. destruct Hs as (H1 & H2 & H3).
  assert (2 ^ (lo - e') <= Z.pos q < 2 ^ (hi - e')) as [Hq1 Hq2].
  { rewrite H3. replace (lo - e') with ((lo - e) + (e - e')) by lia. replace (hi - e') with ((hi - e) + (e - e')) by lia. rewrite !Z.pow_add_r by lia.
    split; [apply Z.mul_le_mono_nonneg_r|apply Z.mul_lt_mono_pos_r]; lia. }
  destruct (binary_round_aux_upper q e' hi) as (R1 & _ & R3); [done|lia..|]. split_and!; [done| |done]. by eapply (binary_round_aux_lower q e' lo hi); [done|lia..|].
Qed.

(** * Ceilings *)

Lemma f64_ceilToInt_spec q e e1 :
  e1 <= e -> e1 <= 0 ->
  let c := f64_ceilToInt (S754_finite false q e) in (c - 1) * 2 ^ (- e1) < Z.pos q * 2 ^ (e - e1) <= c * 2 ^ (- e1).
Proof.
  intros He He1 c. subst c. cbn [f64_ceilToInt]. destruct (Z.leb_spec 0 e) as [H|H].
  - rewrite <- Z.mul_assoc, <- Z.pow_add_r by lia. replace (e + - e1) with (e - e1) by lia. pose proof (Z.pow_pos_nonneg 2 (- e1)).
    rewrite Z.mul_sub_distr_r, <- Z.mul_assoc, <- Z.pow_add_r by lia. replace (e + - e1) with (e - e1) by lia. lia.
  - replace (2 ^ (- e1)) with (2 ^ (- e) * 2 ^ (e - e1)) by (rewrite <- Z.pow_add_r by lia; f_equal; lia).
    pose proof (Z.pow_pos_nonneg 2 (- e)) as H1. pose proof (Z.pow_pos_nonneg 2 (e - e1)) as H2. pose proof (Z.div_mod (- Z.pos q) (2 ^ (- e))) as Hd.
    pose proof (Z.mod_pos_bound (- Z.pos q) (2 ^ (- e))) as Hm. set (D := 2 ^ (- e)) in *. set (G := 2 ^ (e - e1)) in *. set (k := - Z.pos q / D) in *. rewrite !Z.mul_assoc.
    split; [apply Z.mul_lt_mono_pos_r|apply Z.mul_le_mono_nonneg_r]; nia.
Qed.

(** A value that fits is not rounded. *)
Lemma binary_round_aux_exact s q e :
  2 ^ 52 <= Z.pos q < 2 ^ 53 -> -1074 <= e <= 900 -> binary_round_aux prec64 emax64 s (Z.pos q) e loc_Exact = S754_finite s q e.
Proof.
  intros Hq He. pose proof (digits2_le q 53 ltac:(lia) ltac:(lia)) as Hd. unfold binary_round_aux.
  rewrite !shr_fexp_none by (cbn [shr_m loc_of_shr_record shr_r shr_s round_nearest_even Zdigits2]; rewrite ?fexp_eq; cbn [Zdigits2]; lia).
  cbn [shr_m loc_of_shr_record shr_r shr_s round_nearest_even].
  cbn [shr_m]. by rewrite (proj2 (Z.leb_le e (emax64 - prec64))) by (change (emax64 - prec64) with 971; lia).
Qed.

(** An integer of at most 53 bits is exact. *)
Lemma f64_of_int_exact n : 0 < n < 2 ^ 53 -> exists m e, f64_of_int n = S754_finite false m e /\ -52 <= e <= 0 /\ 2 ^ 52 <= Z.pos m /\ Z.pos m = n * 2 ^ (- e).
Proof.
  intros Hn. destruct n as [|p|p]; [lia| |lia]. unfold f64_of_int. cbn [binary_normalize]. unfold binary_round.
  destruct (digits2_bounds p) as [Hlo Hhi]. pose proof (digits2_le p 53 ltac:(lia) ltac:(lia)) as Hd.
  pose proof (shl_align_spec p 0) as Hs. assert (snd (shl_align p 0 (fexp64 (Z.pos (digits2_pos p) + 0))) = Z.pos (digits2_pos p) - 53) as Hsnd.
  { unfold shl_align. rewrite fexp_eq. destruct (_ - 0) eqn:E; cbn [snd]; lia. }
  destruct (shl_align p 0 _) as [q e]. cbn [snd] in Hsnd. destruct Hs as (_ & He & Hq). rewrite Z.sub_0_l in Hq. set (d := Z.pos (digits2_pos p)) in *. subst e.
  assert (2 ^ 52 <= Z.pos q < 2 ^ 53) as Hb.
  { rewrite Hq. replace (2 ^ 52) with (2 ^ (d - 1) * 2 ^ (- (d - 53))) by (rewrite <- Z.pow_add_r by lia; f_equal; lia).
    replace (2 ^ 53) with (2 ^ d * 2 ^ (- (d - 53))) by (rewrite <- Z.pow_add_r by lia; f_equal; lia).
    split; [apply Z.mul_le_mono_nonneg_r; [apply Z.pow_nonneg; lia|done]|apply Z.mul_lt_mono_pos_r; [apply Z.pow_pos_nonneg; lia|done]]. }
  exists q, (d - 53). rewrite binary_round_aux_exact by lia. split_and!; [done|lia|lia|lia|done].
Qed.

(** The ceiling of a rounded product of a fraction and an integer. *)
Lemma f64_mul_ceil m n :
  2 ^ 52 <= Z.pos m < 2 ^ 53 -> 0 < n < 2 ^ 53 ->
  let c := f64_ceilToInt (f64_mul (S754_finite false m (-53)) (f64_of_int n)) in Z.pos m * n - 2 ^ 53 < c * 2 ^ 53 < Z.pos m * n + 2 * 2 ^ 53.
Proof.
  intros Hm Hn. destruct (f64_of_int_exact n Hn) as (mn & en & -> & Hen & Hmn & En). unfold f64_mul. cbn [SFmul xorb].
  set (p := (m * mn)%positive). set (e := -53 + en). assert (Z.pos p = Z.pos m * n * 2 ^ (- en)) as Hp by (subst p; rewrite Pos2Z.inj_mul, En; lia).
  assert (Z.pos p < 2 ^ (53 - e)) as Hup.
  { rewrite Hp. replace (53 - e) with (53 + 53 + - en) by lia. rewrite !Z.pow_add_r by lia. apply Z.mul_lt_mono_pos_r; [apply Z.pow_pos_nonneg; lia|]. apply Z.mul_lt_mono_nonneg; lia. }
  pose proof (digits2_le p (53 - e) ltac:(lia) Hup) as Hd. pose proof (digits2_ge p 52 ltac:(lia) ltac:(subst p; rewrite Pos2Z.inj_mul; nia)) as Hd2.
  destruct (binary_round_aux_near false p e) as (k & Hk & Hr); rewrite ?fexp_eq; [lia|lia|]. rewrite fexp_eq in Hk, Hr. set (e1 := Z.max _ _) in *. assert (e <= e1 <= 0) as He1 by lia.
  set (r := binary_round_aux _ _ _ _ _ _) in *. set (c := f64_ceilToInt r).
  assert ((c - 1) * 2 ^ (- e1) < k <= c * 2 ^ (- e1)) as Hc.
  { destruct Hr as [[-> E]|(q & e' & E & _ & He' & <-)]; subst c; rewrite E; [cbn [f64_ceilToInt]; pose proof (Z.pow_pos_nonneg 2 (- e1)); lia|]. apply f64_ceilToInt_spec; lia. }
  pose proof (Z.pow_pos_nonneg 2 (- e1) ltac:(lia) ltac:(lia)) as HE. pose proof (Z.pow_pos_nonneg 2 (e1 - e) ltac:(lia) ltac:(lia)) as HD. pose proof (Z.pow_pos_nonneg 2 (- en) ltac:(lia) ltac:(lia)) as HN.
  assert (2 ^ (- e1) * 2 ^ (e1 - e) = 2 ^ 53 * 2 ^ (- en)) as HED by (rewrite <- !Z.pow_add_r by lia; f_equal; lia).
  pose proof (Z.div_mod (Z.pos p) (2 ^ (e1 - e)) ltac:(lia)) as Hdm. pose proof (Z.mod_pos_bound (Z.pos p) (2 ^ (e1 - e)) HD) as Hmb.
  set (E := 2 ^ (- e1)) in *. set (D := 2 ^ (e1 - e)) in *. set (N := 2 ^ (- en)) in *. set (T := 2 ^ 53) in *.
  assert (Z.pos p - D < k * D <= Z.pos p + D) as Hkd by (destruct Hk as [->| ->]; lia).
  assert ((c - 1) * (T * N) < k * D <= c * (T * N)) as Hc2.
  { rewrite <- HED, !Z.mul_assoc. split; [apply Z.mul_lt_mono_pos_r; lia|apply Z.mul_le_mono_nonneg_r; lia]. }
  assert (D <= T * N) as HDT by (rewrite <- HED; nia). rewrite Hp in Hkd. clear - Hkd Hc2 HDT HN.
  split; apply (Z.mul_lt_mono_pos_r N); lia.
Qed.

(** * Quotients *)

(** The shift that rounding makes drops digits. *)
Lemma shr_fexp_le m e l :
  0 <= m -> exists mrs e1, shr_fexp prec64 emax64 m e l = (mrs, e1) /\ e <= e1 /\ 0 <= shr_m mrs /\ shr_m mrs * 2 ^ (e1 - e) <= m /\
    (e1 = e \/ e1 = fexp64 (Zdigits2 m + e)).
Proof.
  intros Hm. unfold shr_fexp. assert (shr_m (shr_record_of_loc m l) = m) as El by (by destruct l as [|[]]). set (mrs := shr_record_of_loc m l) in *.
  unfold shr. destruct (fexp64 (Zdigits2 m + e) - e) as [|p|p] eqn:Ep; [| |].
  - exists mrs, e. rewrite El, Z.sub_diag, Z.mul_1_r. split_and!; [done|lia..|by left].
  - exists (SpecFloat.iter_pos shr_1 p mrs), (e + Z.pos p). rewrite shr_m_iter, El by lia. replace (e + Z.pos p - e) with (Z.pos p) by lia. pose proof (Z.pow_pos_nonneg 2 (Z.pos p)).
    split_and!; [done|lia|apply Z.div_pos; lia| |right; lia]. rewrite Z.mul_comm. apply Z.mul_div_le. lia.
  - exists mrs, e. rewrite El, Z.sub_diag, Z.mul_1_r. split_and!; [done|lia..|by left].
Qed.

(** Rounding at most doubles. *)
Lemma binary_round_aux_le s m e l p e2 :
  0 <= m -> -1074 <= e -> binary_round_aux prec64 emax64 s m e l = S754_finite s p e2 -> e <= e2 /\ Z.pos p * 2 ^ (e2 - e) <= 2 * m + 1.
Proof.
  intros Hm He. unfold binary_round_aux. destruct (shr_fexp_le m e l Hm) as (mrs & e1 & -> & He1 & Hp1 & Hle1 & Hor).
  set (m1 := round_nearest_even _ _). assert (0 <= m1 <= shr_m mrs + 1) as Hm1 by (destruct (round_nearest_even_near (shr_m mrs) (loc_of_shr_record mrs)); subst m1; lia).
  destruct (shr_fexp_le m1 e1 loc_Exact ltac:(lia)) as (mrs2 & e3 & -> & He3 & Hp2 & Hle2 & _). destruct (shr_m mrs2) as [|q|q] eqn:Eq; [done| |done].
  destruct (e3 <=? _); [|done]. intros [= -> ->]. split; [lia|].
  assert (2 ^ (e1 - e) <= m + 1) as Hpow.
  { destruct Hor as [->|E]; [rewrite Z.sub_diag; lia|]. rewrite fexp_eq in E. destruct (Z.eq_dec e1 e) as [->|Hne]; [rewrite Z.sub_diag; lia|].
    destruct m as [|x|x]; [cbn [Zdigits2] in E; lia| |lia]. cbn [Zdigits2] in E. pose proof (digits2_bounds x) as [Hx _].
    assert (2 ^ (e1 - e) <= 2 ^ (Z.pos (digits2_pos x) - 1)) by (apply Z.pow_le_mono_r; lia). lia. }
  replace (e2 - e) with ((e2 - e1) + (e1 - e)) by lia. rewrite Z.pow_add_r by lia. pose proof (Z.pow_pos_nonneg 2 (e1 - e) ltac:(lia) ltac:(lia)) as HD.
  set (D := 2 ^ (e1 - e)) in *. set (G := 2 ^ (e2 - e1)) in *. assert (Z.pos p * (G * D) <= m1 * D) as H1 by (rewrite Z.mul_assoc; apply Z.mul_le_mono_nonneg_r; lia).
  assert (m1 * D <= (shr_m mrs + 1) * D) as H2 by (apply Z.mul_le_mono_nonneg_r; lia). lia.
Qed.

Lemma roundMagnitude_le p e k : e <= k -> 0 <= k -> Z.pos p <= 2 ^ (k - e) -> roundMagnitude p e <= 2 ^ k + 1.
Proof.
  intros He Hk Hp. unfold roundMagnitude. destruct (Z.leb_spec 0 e) as [H|H].
  - assert (Z.pos p * 2 ^ e <= 2 ^ (k - e) * 2 ^ e) as H1 by (apply Z.mul_le_mono_nonneg_r; [apply Z.pow_nonneg|]; lia). rewrite <- Z.pow_add_r in H1 by lia.
    replace (k - e + e) with k in H1 by lia. lia.
  - pose proof (Z.pow_pos_nonneg 2 (- e) ltac:(lia) ltac:(lia)) as HD. assert (2 ^ (- e - 1) <= 2 ^ (- e)) as H1 by (apply Z.pow_le_mono_r; lia).
    replace (k - e) with (k + - e) in Hp by lia. rewrite Z.pow_add_r in Hp by lia. apply (Z.div_le_upper_bound _ (2 ^ (- e))); [done|]. lia.
Qed.

(** A small integer over a value between one half and two. *)
Lemma f64_div_bound n y :
  0 < n <= 100 -> f64_isNaN y || f64_isInf y = false -> f64_ltb y f64_half = false -> f64_ltb f64_two y = false ->
  f64_roundToInt (f64_div (f64_of_int n) y) <= 2 ^ 61 + 1.
Proof.
  intros Hn Hf Hlo Hhi. destruct (f64_of_int_exact n ltac:(lia)) as (m1 & e1 & -> & He1 & _ & Em1).
  destruct (f64_finite y Hf) as [s [->|(m2 & e2 & ->)]]; [done|]. destruct s; [done|].
  assert (-53 <= e2 <= -51) as He2.
  { unfold f64_ltb, SFltb, f64_half, f64_two in Hlo, Hhi. cbn [SFcompare] in Hlo, Hhi. destruct (Z.compare_spec e2 (-53)), (Z.compare_spec (-51) e2); try done; lia. }
  unfold f64_div. cbn [SFdiv xorb]. unfold SFdiv_core_binary. cbv zeta. rewrite fexp_eq. set (e := Z.min _ (e1 - e2)). set (sh := e1 - e2 - e).
  assert (-1074 <= e <= e1 - e2) as He by lia. set (m := match sh with Z0 => _ | Zpos _ => _ | Zneg _ => _ end).
  assert (m <= 100 * 2 ^ (53 - e)) as Hm.
  { assert (m = Z.pos m1 * 2 ^ sh) as -> by (subst m; destruct sh as [|p|p] eqn:Es; [lia|rewrite Z.shiftl_mul_pow2 by lia; done|lia]).
    rewrite Em1, <- Z.mul_assoc, <- Z.pow_add_r by lia. assert (2 ^ (- e1 + sh) <= 2 ^ (53 - e)) by (apply Z.pow_le_mono_r; lia). apply Z.mul_le_mono_nonneg; lia. }
  assert (0 <= m) as Hm0 by (subst m; destruct sh; [lia|apply Z.shiftl_nonneg; lia|lia]). clearbody m.
  assert (0 <= m / Z.pos m2 <= m) as Hq by (split; [apply Z.div_pos; lia|apply Z.div_le_upper_bound; [lia|nia]]).
  change (m / Z.pos m2) with (let (q, _) := Z.div_eucl m (Z.pos m2) in q) in Hq. destruct (Z.div_eucl m (Z.pos m2)) as [q r].
  destruct (binary_round_aux _ _ false q e _) as [b|b| |b p ef] eqn:Er; cbn [f64_roundToInt]; try lia.
  assert (b = false) as -> by (clear - Er; unfold binary_round_aux in Er; repeat case_match; congruence).
  destruct (binary_round_aux_le _ _ _ _ _ _ (proj1 Hq) (proj1 He) Er) as [Hef Hp]. pose proof (Z.pow_pos_nonneg 2 (53 - e) ltac:(lia) ltac:(lia)) as HE.
  assert (Z.pos p * 2 ^ (ef - e) <= 2 ^ (61 - e)) as Hp2 by (replace (61 - e) with (8 + (53 - e)) by lia; rewrite (Z.pow_add_r 2 8) by lia; lia).
  pose proof (Z.pow_pos_nonneg 2 (ef - e) ltac:(lia) ltac:(lia)) as HG.
  assert (ef <= 61) as Hef2.
  { destruct (Z.le_gt_cases ef 61) as [H|H]; [done|]. assert (2 ^ (61 - e) < 2 ^ (ef - e)) by (apply Z.pow_lt_mono_r; lia). nia. }
  apply roundMagnitude_le; [done|lia|]. replace (61 - e) with ((61 - ef) + (ef - e)) in Hp2 by lia. rewrite Z.pow_add_r in Hp2 by lia. by apply Z.mul_le_mono_pos_r in Hp2.
Qed.
