(* ===== verification/Bench.v ===== *)
(** The contract of the benchmark results (bench/types.go, bench/profile.go,
    bench/validate.go): the two frozen profiles, the rows of a raw result and their
    validation; and the part of bench/collect.go that computes: keys and values, quantiles,
    and the histogram of heights.

    The messages of errors keep their text without its arguments.  An [int] and an [int64]
    are 64 bits wide. *)

From Stdlib Require Import Ascii.
From stdpp Require Import pretty.
From Stdlib Require Import SpecFloat.
From S2P Require Import Prelude Proto RaftLog RaftNode Storage Bytes DiskLog MapSM SkipList Float64.

(** * Types *)

Definition ProfileSmoke : string := "smoke-v1".
Definition ProfileReport : string := "report-v1".
Definition SchemaName : string := "miniquorum.lsm-benchmark".
Definition SchemaVersionV1 : Z := 1.

Record Environment : Type := mkEnvironment {
  GoVersion : string; Goos : string; Goarch : string; NumCPU : Z; Gomaxprocs : Z;
}.

Record WriteThroughputSpec : Type := mkWriteThroughputSpec { ws_FlushThresholdBytes : list Z; ws_Operations : Z }.

Record PointReadSpec : Type := mkPointReadSpec {
  ps_SSTableCounts : list Z; ps_BloomModes : list bool; ps_LookupKinds : list string;
  ps_EntriesPerSSTable : Z; ps_Operations : Z;
}.

Record BloomFalsePositiveSpec : Type := mkBloomFalsePositiveSpec { bs_InsertedKeyCounts : list Z; bs_ProbeKeys : Z }.

Record AmplificationSpec : Type := mkAmplificationSpec {
  as_Operations : Z; as_Keyspace : Z; as_PutsPercent : Z; as_DeletesPercent : Z;
  as_FlushThreshold : Z; as_Reads : Z; as_ReadHitPercent : Z;
}.

Record CompactionPauseSpec : Type := mkCompactionPauseSpec { cs_Operations : Z; cs_Keyspace : Z; cs_FlushThreshold : Z }.

Record SkiplistHeightSpec : Type := mkSkiplistHeightSpec { hs_Samples : Z }.

Record Profile : Type := mkProfile {
  p_Name : string; p_Trials : list Z; p_Seeds : list Z; p_KeySize : Z; p_ValueSize : Z;
  p_WriteThroughput : WriteThroughputSpec; p_PointRead : PointReadSpec; p_BloomFP : BloomFalsePositiveSpec;
  p_Amplification : AmplificationSpec; p_CompactionPause : CompactionPauseSpec; p_SkiplistHeight : SkiplistHeightSpec;
}.

#[export] Instance WriteThroughputSpec_eq_dec : EqDecision WriteThroughputSpec.
Proof. solve_decision. Defined.
#[export] Instance PointReadSpec_eq_dec : EqDecision PointReadSpec.
Proof. solve_decision. Defined.
#[export] Instance BloomFalsePositiveSpec_eq_dec : EqDecision BloomFalsePositiveSpec.
Proof. solve_decision. Defined.
#[export] Instance AmplificationSpec_eq_dec : EqDecision AmplificationSpec.
Proof. solve_decision. Defined.
#[export] Instance CompactionPauseSpec_eq_dec : EqDecision CompactionPauseSpec.
Proof. solve_decision. Defined.
#[export] Instance SkiplistHeightSpec_eq_dec : EqDecision SkiplistHeightSpec.
Proof. solve_decision. Defined.
#[export] Instance Profile_eq_dec : EqDecision Profile.
Proof. solve_decision. Defined.

Record WriteThroughputRow : Type := mkWriteThroughputRow {
  wt_Trial : Z; wt_Seed : Z; wt_FlushThresholdBytes : Z; wt_Operations : Z; wt_ElapsedNS : Z;
}.

Record PointReadLatencyRow : Type := mkPointReadLatencyRow {
  pr_Trial : Z; pr_Seed : Z; pr_SSTableCount : Z; pr_BloomEnabled : bool; pr_LookupKind : string;
  pr_Operations : Z; pr_ElapsedNS : Z; pr_P50NS : Z; pr_P95NS : Z; pr_P99NS : Z; pr_MaxNS : Z;
  pr_Found : Z; pr_NotFound : Z; pr_SSTableReadCalls : Z; pr_SSTableReadBytes : Z;
}.

Record BloomFalsePositiveRow : Type := mkBloomFalsePositiveRow {
  bf_Trial : Z; bf_Seed : Z; bf_InsertedKeys : Z; bf_ProbeKeys : Z; bf_MBits : Z; bf_K : Z;
  bf_FalsePositives : Z; bf_FalseNegatives : Z;
}.

Record AmplificationRow : Type := mkAmplificationRow {
  am_Trial : Z; am_Seed : Z; am_Operations : Z; am_Puts : Z; am_Deletes : Z; am_LogicalUserWriteBytes : Z;
  am_SSTableWriteBytes : Z; am_ManifestWriteBytes : Z; am_ReadOperations : Z; am_SSTableReadCalls : Z;
  am_SSTableReadBytes : Z; am_LogicalLiveBytes : Z; am_ReferencedSSTableBytes : Z; am_Compactions : Z;
}.

Record CompactionPauseRow : Type := mkCompactionPauseRow {
  cp_Trial : Z; cp_Seed : Z; cp_Operations : Z; cp_CompactionOperations : Z; cp_OrdinaryOperations : Z;
  cp_CompactionP50NS : Z; cp_CompactionP95NS : Z; cp_CompactionP99NS : Z; cp_CompactionMaxNS : Z;
  cp_OrdinaryP50NS : Z; cp_OrdinaryP95NS : Z; cp_OrdinaryP99NS : Z; cp_OrdinaryMaxNS : Z;
}.

(** [HeightCounts] is an array of sixteen counts. *)
Record SkiplistHeightRow : Type := mkSkiplistHeightRow {
  sh_Trial : Z; sh_Seed : Z; sh_Samples : Z; sh_HeightCounts : list Z;
}.

Record RawResult : Type := mkRawResult {
  r_Schema : string; r_SchemaVersion : Z; r_Profile : string; r_CollectedAtUTC : string;
  r_Environment : Environment; r_Matrix : Profile;
  r_WriteThroughput : list WriteThroughputRow; r_PointReadLatency : list PointReadLatencyRow;
  r_BloomFalsePositive : list BloomFalsePositiveRow; r_Amplification : list AmplificationRow;
  r_CompactionPause : list CompactionPauseRow; r_SkiplistHeight : list SkiplistHeightRow;
}.

(** [HeightCounts.UnmarshalJSON] on the decoded numbers. *)
Definition HeightCounts_Unmarshal (values : list Z) : result (list Z) :=
  if bool_decide (length values <> 16%nat) then Err "height_counts entries" else Ok values.

(** * Profiles *)

Definition reportProfile : Profile :=
  mkProfile ProfileReport [1; 2; 3; 4; 5] [1; 2; 3; 4; 5] 16 128
    (mkWriteThroughputSpec [65536; 262144; 1048576; 4194304] 100000)
    (mkPointReadSpec [1; 4; 16; 64] [true; false] ["hit"; "miss"] 4096 25000)
    (mkBloomFalsePositiveSpec [1000; 10000; 100000] 100000)
    (mkAmplificationSpec 250000 25000 90 10 65536 50000 50)
    (mkCompactionPauseSpec 100000 100000 65536)
    (mkSkiplistHeightSpec 1000000).

Definition smokeProfile : Profile :=
  mkProfile ProfileSmoke [1] [1] 16 128
    (mkWriteThroughputSpec [65536; 4194304] 2000)
    (mkPointReadSpec [1; 4] [true; false] ["hit"; "miss"] 256 1000)
    (mkBloomFalsePositiveSpec [1000] 5000)
    (mkAmplificationSpec 5000 500 90 10 16384 1000 50)
    (mkCompactionPauseSpec 5000 5000 16384)
    (mkSkiplistHeightSpec 10000).

(** A clone is a value of its own. *)
Definition BuiltinProfile (name : string) : option Profile :=
  if bool_decide (name = ProfileSmoke) then Some smokeProfile
  else if bool_decide (name = ProfileReport) then Some reportProfile
  else None.

Definition KnownProfiles : list string := [ProfileSmoke; ProfileReport].

Definition len {A} (l : list A) : Z := Z.of_nat (length l).

Definition ExpectedRowsByFamily (profile : string) : option (gmap string Z) :=
  match BuiltinProfile profile with
  | None => None
  | Some p => Some {[
      "write-throughput" := len (p_Trials p) * len (ws_FlushThresholdBytes (p_WriteThroughput p));
      "point-read-latency" := len (p_Trials p) * len (ps_SSTableCounts (p_PointRead p)) * len (ps_BloomModes (p_PointRead p)) * len (ps_LookupKinds (p_PointRead p));
      "bloom-false-positive" := len (p_Trials p) * len (bs_InsertedKeyCounts (p_BloomFP p));
      "amplification" := len (p_Trials p);
      "compaction-pause" := len (p_Trials p);
      "skiplist-height" := len (p_Trials p) ]}
  end.

Definition ExpectedRows (profile : string) : Z :=
  match ExpectedRowsByFamily profile with None => 0 | Some m => map_fold (fun _ count total => total + count) 0 m end.

(** The pairs of a trial and its seed; a trial without a seed ends the search. *)
Fixpoint seedLoop (trials seeds : list Z) (trial : Z) : option Z :=
  match trials with
  | [] => None
  | got :: trials' => if got =? trial then head seeds else seedLoop trials' (tail seeds) trial
  end.

Definition SeedForTrial (p : Profile) (trial : Z) : option Z := seedLoop (p_Trials p) (p_Seeds p) trial.

(** * Times

    [time.Parse(time.RFC3339, s)] for a text that ends in Z: a numeric zone ends in a digit,
    so what is left of the layout is a time in UTC.  As in the library, an hour may have one
    digit and a fraction of a second may follow either separator. *)

Definition digit (c : ascii) : Z := Z.of_nat (nat_of_ascii c) - 48.

Definition getnum (fixed : bool) (s : string) : option (Z * string) :=
  match s with
  | String c s' =>
      if negb (is_digit c) then None
      else match s' with
           | String d s'' => if is_digit d then Some (10 * digit c + digit d, s'') else if fixed then None else Some (digit c, s')
           | EmptyString => if fixed then None else Some (digit c, s')
           end
  | EmptyString => None
  end.

Definition skip (c : ascii) (s : string) : option string :=
  match s with String d s' => if Ascii.eqb c d then Some s' else None | EmptyString => None end.

Definition getyear (s : string) : option (Z * string) :=
  '(a, s) ← getnum true s; '(b, s) ← getnum true s; Some (100 * a + b, s).

Fixpoint dropDigits (s : string) : string :=
  match s with String c s' => if is_digit c then dropDigits s' else s | EmptyString => s end.

Definition dropFraction (s : string) : string :=
  match s with
  | String c (String d s') => if (Ascii.eqb c "." || Ascii.eqb c ",") && is_digit d then dropDigits s' else s
  | _ => s
  end.

Definition isLeap (year : Z) : bool := (year mod 4 =? 0) && (negb (year mod 100 =? 0) || (year mod 400 =? 0)).

Definition daysIn (month year : Z) : Z :=
  if month =? 2 then (if isLeap year then 29 else 28)
  else if (month =? 4) || (month =? 6) || (month =? 9) || (month =? 11) then 30 else 31.

Definition parseUTC (s : string) : bool :=
  default false (
    '(year, s) ← getyear s; s ← skip "-" s;
    '(month, s) ← getnum true s; s ← skip "-" s;
    '(day, s) ← getnum true s; s ← skip "T" s;
    '(hour, s) ← getnum false s; s ← skip ":" s;
    '(min, s) ← getnum true s; s ← skip ":" s;
    '(sec, s) ← getnum true s;
    s ← skip "Z" (dropFraction s);
    Some (bool_decide (s = "") && (1 <=? month) && (month <=? 12) && (1 <=? day) && (day <=? daysIn month year) &&
          (hour <? 24) && (min <? 60) && (sec <? 60))).

(** * Validation *)

(** A chain of early returns: the first guard that holds gives the error. *)
Fixpoint firstGuard (guards : list (bool * error)) : option error :=
  match guards with [] => None | (c, e) :: gs => if c then Some e else firstGuard gs end.

Definition validateEnvironment (env : Environment) : option error :=
  firstGuard [
    (bool_decide (GoVersion env = ""), "environment.go_version is required");
    (bool_decide (Goos env = ""), "environment.goos is required");
    (bool_decide (Goarch env = ""), "environment.goarch is required");
    (NumCPU env <=? 0, "environment.num_cpu must be positive");
    (Gomaxprocs env <=? 0, "environment.gomaxprocs must be positive")].

Fixpoint trialSeedLoop (trials seeds : list Z) (seen : gset Z) : option error :=
  match trials, seeds with
  | trial :: trials', seed :: seeds' =>
      if trial <=? 0 then Some "non-positive trial"
      else if bool_decide (trial ∈ seen) then Some "duplicate trial"
      else if seed <=? 0 then Some "non-positive seed"
      else trialSeedLoop trials' seeds' ({[trial]} ∪ seen)
  | _, _ => None
  end.

Definition validateTrialSeedMapping (profile : Profile) : option error :=
  if bool_decide (length (p_Trials profile) <> length (p_Seeds profile)) then Some "trial/seed length mismatch"
  else trialSeedLoop (p_Trials profile) (p_Seeds profile) ∅.

Definition containsInt (values : list Z) (candidate : Z) : bool := existsb (Z.eqb candidate) values.
Definition containsBool (values : list bool) (candidate : bool) : bool := existsb (Bool.eqb candidate) values.
Definition containsString (values : list string) (candidate : string) : bool := existsb (String.eqb candidate) values.

Definition writeCell (trial threshold : Z) : string := pretty trial +:+ ":" +:+ pretty threshold.
Definition pointReadCell (row : PointReadLatencyRow) : string :=
  pretty (pr_Trial row) +:+ ":" +:+ pretty (pr_SSTableCount row) +:+ ":" +:+ (if pr_BloomEnabled row then "true" else "false") +:+ ":" +:+ pr_LookupKind row.
Definition bloomCell (trial inserted : Z) : string := pretty trial +:+ ":" +:+ pretty inserted.

(** The loop that the six validations share: the guards of a row, then the check that its
    cell is new.  Returns the cells that it has seen. *)
Fixpoint rowLoop {R C} `{Countable C} (guards : R -> option error) (cell : R -> C) (rows : list R) (seen : gset C) : result (gset C) :=
  match rows with
  | [] => Ok seen
  | row :: rows' =>
      match guards row with
      | Some e => Err e
      | None =>
          if bool_decide (cell row ∈ seen) then Err "duplicate cell"
          else rowLoop guards cell rows' ({[cell row]} ∪ seen)
      end
  end.

Definition checkCells {C} `{Countable C} (r : result (gset C)) (want : Z) : option error :=
  match r with
  | Err e => Some e
  | Ok seen => if bool_decide (Z.of_nat (size seen) <> want) then Some "missing or extra cells" else None
  end.

(** The first two guards of every row. *)
Definition seedGuards (profile : Profile) (trial seed : Z) : list (bool * error) :=
  [(bool_decide (SeedForTrial profile trial = None), "unexpected trial");
   (bool_decide (SeedForTrial profile trial <> Some seed), "seed should map to another")].

Definition writeGuards (profile : Profile) (row : WriteThroughputRow) : option error :=
  firstGuard (seedGuards profile (wt_Trial row) (wt_Seed row) ++ [
    (negb (containsInt (ws_FlushThresholdBytes (p_WriteThroughput profile)) (wt_FlushThresholdBytes row)), "unexpected threshold");
    (negb (wt_Operations row =? ws_Operations (p_WriteThroughput profile)), "operations");
    (wt_ElapsedNS row <=? 0, "requires positive elapsed_ns")]).

Definition validateWriteThroughputRows (rows : list WriteThroughputRow) (profile : Profile) : option error :=
  checkCells (rowLoop (writeGuards profile) (fun row => writeCell (wt_Trial row) (wt_FlushThresholdBytes row)) rows ∅)
    (len (p_Trials profile) * len (ws_FlushThresholdBytes (p_WriteThroughput profile))).

Definition pointReadGuards (profile : Profile) (row : PointReadLatencyRow) : option error :=
  let hit := bool_decide (pr_LookupKind row = "hit") in
  let miss := bool_decide (pr_LookupKind row = "miss") in
  let noReads := (pr_SSTableReadCalls row =? 0) || (pr_SSTableReadBytes row =? 0) in
  firstGuard (seedGuards profile (pr_Trial row) (pr_Seed row) ++ [
    (negb (containsInt (ps_SSTableCounts (p_PointRead profile)) (pr_SSTableCount row)), "unexpected sstable_count");
    (negb (containsBool (ps_BloomModes (p_PointRead profile)) (pr_BloomEnabled row)), "unexpected bloom mode");
    (negb (containsString (ps_LookupKinds (p_PointRead profile)) (pr_LookupKind row)), "unexpected lookup kind");
    (negb (pr_Operations row =? ps_Operations (p_PointRead profile)), "operations");
    (pr_ElapsedNS row <=? 0, "requires positive elapsed_ns");
    ((pr_Found row <? 0) || (pr_NotFound row <? 0), "negative found/not_found");
    (negb (i64_add (pr_Found row) (pr_NotFound row) =? pr_Operations row), "found+not_found mismatch");
    ((pr_P50NS row <=? 0) || (pr_P95NS row <=? 0) || (pr_P99NS row <=? 0) || (pr_MaxNS row <=? 0), "non-positive percentile");
    ((pr_P95NS row <? pr_P50NS row) || (pr_P99NS row <? pr_P95NS row) || (pr_MaxNS row <? pr_P99NS row), "unordered quantiles");
    (pr_ElapsedNS row <? pr_MaxNS row, "elapsed_ns is below max_ns");
    (hit && negb (pr_Found row =? pr_Operations row), "expected all hit lookups to be found");
    (hit && noReads, "hit has no SSTable reads");
    (negb (pr_BloomEnabled row) && miss && noReads, "Bloom-off miss has no SSTable reads");
    (miss && negb (pr_NotFound row =? pr_Operations row), "expected all miss lookups to be absent")]).

Definition validatePointReadRows (rows : list PointReadLatencyRow) (profile : Profile) : option error :=
  checkCells (rowLoop (pointReadGuards profile) pointReadCell rows ∅)
    (len (p_Trials profile) * len (ps_SSTableCounts (p_PointRead profile)) * len (ps_BloomModes (p_PointRead profile)) * len (ps_LookupKinds (p_PointRead profile))).

Definition bloomGuards (profile : Profile) (row : BloomFalsePositiveRow) : option error :=
  firstGuard (seedGuards profile (bf_Trial row) (bf_Seed row) ++ [
    (negb (containsInt (bs_InsertedKeyCounts (p_BloomFP profile)) (bf_InsertedKeys row)), "unexpected inserted_keys");
    (negb (bf_ProbeKeys row =? bs_ProbeKeys (p_BloomFP profile)), "probe_keys");
    (bf_MBits row <=? 0, "invalid m_bits");
    (bf_K row <=? 0, "invalid k");
    (negb (bf_FalseNegatives row =? 0), "false_negatives");
    (u64 (bf_ProbeKeys row) <? bf_FalsePositives row, "impossible false positives")]).

Definition validateBloomRows (rows : list BloomFalsePositiveRow) (profile : Profile) : option error :=
  checkCells (rowLoop (bloomGuards profile) (fun row => bloomCell (bf_Trial row) (bf_InsertedKeys row)) rows ∅)
    (len (p_Trials profile) * len (bs_InsertedKeyCounts (p_BloomFP profile))).

(** The unit of the live bytes is 144 in both profiles; with a unit of 0 the code would
    panic. *)
Definition amplificationGuards (profile : Profile) (row : AmplificationRow) : option error :=
  let spec := p_Amplification profile in
  let wantLogical := u64 (am_Puts row * (p_KeySize profile + p_ValueSize profile) + am_Deletes row * p_KeySize profile) in
  let liveUnit := u64 (p_KeySize profile + p_ValueSize profile) in
  firstGuard (seedGuards profile (am_Trial row) (am_Seed row) ++ [
    (negb (am_Operations row =? as_Operations spec), "operations");
    ((am_Puts row <? 0) || (am_Deletes row <? 0) || negb (i64_add (am_Puts row) (am_Deletes row) =? am_Operations row), "split mismatch");
    (negb (am_Puts row =? Z.quot (i64 (am_Operations row * as_PutsPercent spec)) 100) ||
     negb (am_Deletes row =? Z.quot (i64 (am_Operations row * as_DeletesPercent spec)) 100), "does not use the frozen PUT/DELETE split");
    (negb (am_LogicalUserWriteBytes row =? wantLogical), "logical_user_write_bytes");
    (am_LogicalUserWriteBytes row =? 0, "logical_user_write_bytes must be positive");
    (negb (am_ReadOperations row =? as_Reads spec), "read_operations");
    (am_ReadOperations row <=? 0, "non-positive read_operations");
    (am_SSTableReadCalls row =? 0, "zero sstable_read_calls");
    (am_SSTableReadBytes row =? 0, "zero sstable_read_bytes");
    (am_SSTableWriteBytes row =? 0, "zero sstable_write_bytes");
    (am_ManifestWriteBytes row =? 0, "zero manifest_write_bytes");
    (am_LogicalLiveBytes row =? 0, "zero logical_live_bytes");
    (negb (am_LogicalLiveBytes row mod liveUnit =? 0) || (u64_mul (u64 (as_Keyspace spec)) liveUnit <? am_LogicalLiveBytes row), "impossible logical_live_bytes");
    (u64_sub max_u64 (am_SSTableWriteBytes row) <? am_ManifestWriteBytes row, "write byte sum overflows");
    (am_ReferencedSSTableBytes row =? 0, "zero referenced_sstable_bytes");
    (am_Compactions row <? 0, "negative compactions");
    ((0 <? am_ReadOperations row) && (am_ReferencedSSTableBytes row =? 0), "referenced bytes must be positive")]).

Definition validateAmplificationRows (rows : list AmplificationRow) (profile : Profile) : option error :=
  checkCells (rowLoop (amplificationGuards profile) am_Trial rows ∅) (len (p_Trials profile)).

Definition compactionGuards (profile : Profile) (row : CompactionPauseRow) : option error :=
  firstGuard (seedGuards profile (cp_Trial row) (cp_Seed row) ++ [
    (negb (cp_Operations row =? cs_Operations (p_CompactionPause profile)), "operations");
    (cp_CompactionOperations row <=? 0, "no compaction operations");
    (cp_OrdinaryOperations row <=? 0, "no ordinary operations");
    (negb (i64_add (cp_CompactionOperations row) (cp_OrdinaryOperations row) =? cp_Operations row), "split mismatch");
    ((cp_CompactionP95NS row <? cp_CompactionP50NS row) || (cp_CompactionP99NS row <? cp_CompactionP95NS row) || (cp_CompactionMaxNS row <? cp_CompactionP99NS row),
      "unordered compaction quantiles");
    ((cp_OrdinaryP95NS row <? cp_OrdinaryP50NS row) || (cp_OrdinaryP99NS row <? cp_OrdinaryP95NS row) || (cp_OrdinaryMaxNS row <? cp_OrdinaryP99NS row),
      "unordered ordinary quantiles");
    ((cp_CompactionP50NS row <=? 0) || (cp_CompactionP95NS row <=? 0) || (cp_CompactionP99NS row <=? 0) || (cp_CompactionMaxNS row <=? 0) ||
     (cp_OrdinaryP50NS row <=? 0) || (cp_OrdinaryP95NS row <=? 0) || (cp_OrdinaryP99NS row <=? 0) || (cp_OrdinaryMaxNS row <=? 0), "non-positive latency")]).

Definition validateCompactionPauseRows (rows : list CompactionPauseRow) (profile : Profile) : option error :=
  checkCells (rowLoop (compactionGuards profile) cp_Trial rows ∅) (len (p_Trials profile)).

(** The sum of the histogram; [None] is the overflow that the code refuses. *)
Fixpoint sumCounts (total : Z) (counts : list Z) : option Z :=
  match counts with
  | [] => Some total
  | count :: counts' => if u64_sub max_u64 total <? count then None else sumCounts (u64_add total count) counts'
  end.

Definition skiplistGuards (profile : Profile) (row : SkiplistHeightRow) : option error :=
  let total := sumCounts 0 (sh_HeightCounts row) in
  firstGuard (seedGuards profile (sh_Trial row) (sh_Seed row) ++ [
    (negb (sh_Samples row =? hs_Samples (p_SkiplistHeight profile)), "samples");
    (bool_decide (total = None), "histogram count overflow");
    (bool_decide (total <> Some (u64 (sh_Samples row))), "histogram sum")]).

Definition validateSkiplistRows (rows : list SkiplistHeightRow) (profile : Profile) : option error :=
  checkCells (rowLoop (skiplistGuards profile) sh_Trial rows ∅) (len (p_Trials profile)).

(** The counts of rows, in the order of the code. *)
Definition validateCounts (r : RawResult) (expected : gmap string Z) : option error :=
  let want family := default 0 (expected !! family) in
  firstGuard [
    (negb (len (r_WriteThroughput r) =? want "write-throughput"), "write-throughput row count");
    (negb (len (r_PointReadLatency r) =? want "point-read-latency"), "point-read-latency row count");
    (negb (len (r_BloomFalsePositive r) =? want "bloom-false-positive"), "bloom-false-positive row count");
    (negb (len (r_Amplification r) =? want "amplification"), "amplification row count");
    (negb (len (r_CompactionPause r) =? want "compaction-pause"), "compaction-pause row count");
    (negb (len (r_SkiplistHeight r) =? want "skiplist-height"), "skiplist-height row count")].

(** The first error of a sequence of validations. *)
Fixpoint firstSome (checks : list (option error)) : option error :=
  match checks with [] => None | Some e :: _ => Some e | None :: cs => firstSome cs end.

Definition validateRows (r : RawResult) (profile : Profile) : option error :=
  firstSome [
    validateWriteThroughputRows (r_WriteThroughput r) profile;
    validatePointReadRows (r_PointReadLatency r) profile;
    validateBloomRows (r_BloomFalsePositive r) profile;
    validateAmplificationRows (r_Amplification r) profile;
    validateCompactionPauseRows (r_CompactionPause r) profile;
    validateSkiplistRows (r_SkiplistHeight r) profile].

Definition headerGuards (r : RawResult) : option error :=
  firstGuard [
    (bool_decide (r_Schema r <> SchemaName), "schema mismatch");
    (negb (r_SchemaVersion r =? SchemaVersionV1), "schema version mismatch");
    (bool_decide (r_Profile r <> ProfileSmoke) && bool_decide (r_Profile r <> ProfileReport), "unknown profile");
    (bool_decide (r_CollectedAtUTC r = ""), "missing collected_at_utc");
    (negb (parseUTC (r_CollectedAtUTC r)), "invalid collected_at_utc")].

Definition ValidateResult (r : RawResult) : option error :=
  match headerGuards r with
  | Some e => Some e
  | None =>
      match validateEnvironment (r_Environment r) with
      | Some e => Some e
      | None =>
          match BuiltinProfile (r_Profile r) with
          | None => Some "unknown profile"
          | Some profile =>
              if bool_decide (profile <> r_Matrix r) then Some "matrix mismatch"
              else match validateTrialSeedMapping profile with
                   | Some e => Some e
                   | None =>
                       match ExpectedRowsByFamily (r_Profile r) with
                       | None => Some "no expected layout"
                       | Some expected =>
                           match validateCounts r expected with
                           | Some e => Some e
                           | None => validateRows r profile
                           end
                       end
                   end
          end
      end
  end.

(** * Collection *)

(** [fixedKey]: the key in big endian, right aligned; [None] is the panic of an index below
    the slice. *)
Fixpoint fixedKeyLoop (v size : Z) (index : nat) (n : nat) (key : bytes) : option bytes :=
  match n with
  | O => Some key
  | S n' =>
      let i := size - 1 - Z.of_nat index in
      if i <? 0 then None
      else fixedKeyLoop v size (S index) n' (<[Z.to_nat i := byte_of_Z (Z.shiftr v (8 * Z.of_nat index))]> key)
  end.

Definition fixedKey (v size : Z) : option bytes :=
  if size <? 0 then Some [] else fixedKeyLoop v size 0 8 (replicate (Z.to_nat size) (byte_of_Z 0)).

Definition fixedValue (seed seq size : Z) : bytes := replicate (Z.to_nat size) (byte_of_Z (seed + seq + 13)).

Definition positiveDuration (value : Z) : Z := if value <=? 0 then 1 else value.

(** The quantiles 0.50, 0.95 and 0.99. *)
Definition q50 : float64 := S754_finite false 4503599627370496 (-53).
Definition q95 : float64 := S754_finite false 8556839292003942 (-53).
Definition q99 : float64 := S754_finite false 8917127262193582 (-53).

Definition nearestRank (sorted : list Z) (q : float64) : Z :=
  let n := len sorted in
  if n =? 0 then 0
  else let idx := f64_ceilToInt (f64_mul q (f64_of_int n)) - 1 in
       if idx <? 0 then default 0 (sorted !! 0%nat)
       else if n <=? idx then default 0 (sorted !! Z.to_nat (n - 1))
       else default 0 (sorted !! Z.to_nat idx).

Definition quantileLatency (values : list Z) : Z * Z * Z * Z :=
  if bool_decide (values = []) then (0, 0, 0, 0)
  else let sorted := sort_by Z.leb values in
       (nearestRank sorted q50, nearestRank sorted q95, nearestRank sorted q99, default 0 (sorted !! Z.to_nat (len sorted - 1))).

(** The loop of [collectSkiplistRow]. *)
Fixpoint heightSamples (n : nat) (r : Rand) (counts : list Z) : result (list Z * Rand) :=
  match n with
  | O => Ok (counts, r)
  | S n' =>
      let '(height, r') := RandomHeight r in
      if Nat.ltb height 1 || Nat.ltb 16 height then Err "invalid skiplist height"
      else heightSamples n' r' (alter (fun c => u64_add c 1) (height - 1)%nat counts)
  end.

(** [newBenchmarkRand(int64(seed))] is an argument. *)
Definition collectSkiplistRow (profile : Profile) (trial seed : Z) (rnd : Rand) : result SkiplistHeightRow :=
  let samples := hs_Samples (p_SkiplistHeight profile) in
  if samples <=? 0 then Err "invalid skiplist sample count"
  else match heightSamples (Z.to_nat samples) rnd (replicate 16 0) with
       | Err e => Err e
       | Ok (counts, _) => Ok (mkSkiplistHeightRow trial seed samples counts)
       end.

(** The draws of [rnd.r.Int63()] are a stream; [next] ends within the draws that it is
    given, or is [None]. *)
Fixpoint nextKey (fuel : nat) (draws : nat -> Z) (pos : nat) (seen : gset Z) : option (Z * nat * gset Z) :=
  match fuel with
  | O => None
  | S fuel' =>
      let v := draws pos in
      if bool_decide (v ∈ seen) then nextKey fuel' draws (S pos) seen else Some (v, S pos, {[v]} ∪ seen)
  end.

Fixpoint nextKeys (count fuel : nat) (draws : nat -> Z) (pos : nat) (seen : gset Z) (keySize : Z) : option (list bytes * nat * gset Z) :=
  match count with
  | O => Some ([], pos, seen)
  | S count' =>
      '(v, pos, seen) ← nextKey fuel draws pos seen;
      key ← fixedKey v keySize;
      '(keys, pos, seen) ← nextKeys count' fuel draws pos seen keySize;
      Some (key :: keys, pos, seen)
  end.

Definition bloomTrialKeys (fuel : nat) (draws : nat -> Z) (insertedCount probeCount : nat) (keySize : Z) : option (list bytes * list bytes) :=
  '(inserted, pos, seen) ← nextKeys insertedCount fuel draws 0 ∅ keySize;
  '(probes, _, _) ← nextKeys probeCount fuel draws pos seen keySize;
  Some (inserted, probes).
