(* ===== verification/BenchFacts.v ===== *)
(** The validation of benchmark results is exact: what [ValidateResult] accepts is one row
    per cell of the matrix of its profile, each row consistent, and nothing else. *)

From Stdlib Require Import SpecFloat Sorted.
From stdpp Require Import pretty.
From S2P Require Import Prelude Proto RaftLog RaftNode Storage Bytes DiskLog MapSM CheckerFacts SkipList Float64 Bench.

(** * Guards *)

Lemma firstGuard_None gs : firstGuard gs = None <-> Forall (fun g => g.1 = false) gs.
Proof.
  induction gs as [|[c e] gs IH]; cbn; [by split|]. rewrite Forall_cons. destruct c; cbn; [split; [done|by intros [? _]]|]. rewrite IH. naive_solver.
Qed.

Lemma firstSome_None cs : firstSome cs = None <-> Forall (fun c => c = None) cs.
Proof. induction cs as [|[e|] cs IH]; cbn; [by split|split; [done|by rewrite Forall_cons; intros []]|]. rewrite Forall_cons, IH. naive_solver. Qed.

Lemma firstGuard_app gs hs : firstGuard (gs ++ hs) = None <-> firstGuard gs = None /\ firstGuard hs = None.
Proof. by rewrite !firstGuard_None, Forall_app. Qed.

Lemma seedGuards_None p trial seed : firstGuard (seedGuards p trial seed) = None <-> SeedForTrial p trial = Some seed.
Proof. cbn. repeat case_bool_decide; naive_solver congruence. Qed.

Lemma containsInt_spec l x : containsInt l x = true <-> x ∈ l.
Proof. unfold containsInt. rewrite existsb_exists. setoid_rewrite Z.eqb_eq. setoid_rewrite <- list_elem_of_In. naive_solver. Qed.

Lemma containsBool_spec l x : containsBool l x = true <-> x ∈ l.
Proof. unfold containsBool. rewrite existsb_exists. setoid_rewrite Bool.eqb_true_iff. setoid_rewrite <- list_elem_of_In. naive_solver. Qed.

Lemma containsString_spec l x : containsString l x = true <-> x ∈ l.
Proof. unfold containsString. rewrite existsb_exists. setoid_rewrite String.eqb_eq. setoid_rewrite <- list_elem_of_In. naive_solver. Qed.

(** Turns the guards of a chain into propositions. *)
Ltac guards_to_prop :=
  rewrite ?firstGuard_app, ?seedGuards_None, firstGuard_None, ?Forall_cons, ?Forall_nil; cbn [fst];
  rewrite ?orb_false_iff, ?andb_false_iff, ?negb_false_iff, ?containsInt_spec, ?containsBool_spec, ?containsString_spec,
    ?Z.leb_gt, ?Z.ltb_ge, ?Z.eqb_eq, ?Z.eqb_neq, ?bool_decide_eq_false, ?bool_decide_eq_true, ?orb_false_iff, ?Z.eqb_neq.

(** * Rows and cells *)

Section rows.
Context {R C : Type} `{Countable C} (guards : R -> option error) (cell : R -> C).

Lemma rowLoop_Ok rows seen seen' :
  rowLoop guards cell rows seen = Ok seen' <->
  Forall (fun r => guards r = None) rows /\ NoDup (cell <$> rows) /\ (forall r, r ∈ rows -> cell r ∉ seen) /\ seen' = list_to_set (cell <$> rows) ∪ seen.
Proof.
  revert seen. induction rows as [|r rows IH]; intros seen; cbn [rowLoop fmap list_fmap list_to_set].
  { rewrite (left_id_L ∅ (∪)). split; [intros [= <-]; split_and!; try constructor; set_solver|naive_solver]. }
  rewrite Forall_cons, NoDup_cons. destruct (guards r) as [e|]; [split; [done|naive_solver]|]. case_bool_decide as Hs.
  { split; [done|]. intros (_ & _ & Hn & _). destruct (Hn r); [by left|done]. }
  rewrite IH. replace (list_to_set (cell <$> rows) ∪ ({[cell r]} ∪ seen)) with ({[cell r]} ∪ list_to_set (cell <$> rows) ∪ seen) by set_solver.
  setoid_rewrite elem_of_cons. setoid_rewrite list_elem_of_fmap. set_solver.
Qed.

Lemma checkCells_None rows want :
  checkCells (rowLoop guards cell rows ∅) want = None <->
  Forall (fun r => guards r = None) rows /\ NoDup (cell <$> rows) /\ len rows = want.
Proof.
  unfold checkCells, len. destruct (rowLoop guards cell rows ∅) as [seen|e] eqn:E.
  - apply rowLoop_Ok in E as (Hg & Hn & _ & ->). rewrite (right_id_L ∅ (∪)), size_list_to_set, length_fmap by done. case_bool_decide; naive_solver.
  - split; [done|]. intros (Hg & Hn & _). exfalso. assert (rowLoop guards cell rows ∅ = Ok (list_to_set (cell <$> rows) ∪ ∅)) as E'; [|congruence].
    apply rowLoop_Ok. split_and!; [done|done|set_solver|done].
Qed.
End rows.

(** Rows without a duplicate name, each at a cell of a matrix without a duplicate name and
    as many as the cells, are one row for every cell. *)
Lemma cells_Permutation {R A C} (at_cell : R -> A) (name : A -> C) (rows : list R) (cells : list A) :
  NoDup (name <$> cells) ->
  (NoDup (name ∘ at_cell <$> rows) /\ (forall r, r ∈ rows -> at_cell r ∈ cells) /\ length rows = length cells <-> at_cell <$> rows ≡ₚ cells).
Proof.
  intros Hc. split.
  - rewrite list_fmap_compose. intros (Hn%NoDup_fmap_1 & Hin & Hl). apply submseteq_length_Permutation; [|rewrite length_fmap; lia].
    apply NoDup_submseteq; [done|]. intros a (r & -> & Hr)%list_elem_of_fmap. by apply Hin.
  - intros Hp. rewrite list_fmap_compose, Hp. split_and!; [done| |].
    + intros r Hr. rewrite <- Hp. by apply list_elem_of_fmap_2.
    + by rewrite <- Hp, length_fmap.
Qed.

Lemma family_exact {R A C} `{Countable C} (guards : R -> option error) (at_cell : R -> A) (name : A -> C) (ok wf : R -> Prop) rows cells want :
  NoDup (name <$> cells) -> want = len cells -> Forall wf rows ->
  (forall r, wf r -> guards r = None <-> at_cell r ∈ cells /\ ok r) ->
  checkCells (rowLoop guards (name ∘ at_cell) rows ∅) want = None <-> at_cell <$> rows ≡ₚ cells /\ Forall ok rows.
Proof.
  intros Hc -> Hwf Hg. rewrite checkCells_None, <- (cells_Permutation at_cell name rows cells Hc).
  assert (Forall (fun r => guards r = None) rows <-> (forall r, r ∈ rows -> at_cell r ∈ cells) /\ Forall ok rows) as ->.
  { rewrite !Forall_forall. rewrite Forall_forall in Hwf. setoid_rewrite <- list_elem_of_In in Hwf || idtac. naive_solver. }
  unfold len. rewrite Nat2Z.inj_iff. tauto.
Qed.

Lemma seedLoop_elem ts ss t s : seedLoop ts ss t = Some s -> t ∈ ts.
Proof.
  revert ss. induction ts as [|t' ts IH]; intros ss; cbn; [done|]. destruct (Z.eqb_spec t' t) as [->|]; [by left|]. intros E. right. by eapply IH.
Qed.

(** * What a row promises *)

Definition write_row_ok (p : Profile) (r : WriteThroughputRow) : Prop :=
  SeedForTrial p (wt_Trial r) = Some (wt_Seed r) /\ wt_Operations r = ws_Operations (p_WriteThroughput p) /\ 0 < wt_ElapsedNS r.

Definition point_read_row_ok (p : Profile) (r : PointReadLatencyRow) : Prop :=
  SeedForTrial p (pr_Trial r) = Some (pr_Seed r) /\ pr_Operations r = ps_Operations (p_PointRead p) /\
  0 < pr_P50NS r <= pr_P95NS r /\ pr_P95NS r <= pr_P99NS r <= pr_MaxNS r /\ pr_MaxNS r <= pr_ElapsedNS r /\
  0 <= pr_Found r /\ 0 <= pr_NotFound r /\ pr_Found r + pr_NotFound r = pr_Operations r /\
  (pr_LookupKind r = "hit" -> pr_Found r = pr_Operations r) /\ (pr_LookupKind r = "miss" -> pr_NotFound r = pr_Operations r) /\
  (pr_LookupKind r = "hit" \/ (pr_LookupKind r = "miss" /\ pr_BloomEnabled r = false) -> pr_SSTableReadCalls r <> 0 /\ pr_SSTableReadBytes r <> 0).

Definition bloom_row_ok (p : Profile) (r : BloomFalsePositiveRow) : Prop :=
  SeedForTrial p (bf_Trial r) = Some (bf_Seed r) /\ bf_ProbeKeys r = bs_ProbeKeys (p_BloomFP p) /\
  0 < bf_MBits r /\ 0 < bf_K r /\ bf_FalseNegatives r = 0 /\ bf_FalsePositives r <= bf_ProbeKeys r.

Definition amplification_row_ok (p : Profile) (r : AmplificationRow) : Prop :=
  SeedForTrial p (am_Trial r) = Some (am_Seed r) /\ am_Operations r = as_Operations (p_Amplification p) /\
  100 * am_Puts r = as_PutsPercent (p_Amplification p) * am_Operations r /\ am_Puts r + am_Deletes r = am_Operations r /\
  am_LogicalUserWriteBytes r = am_Puts r * (p_KeySize p + p_ValueSize p) + am_Deletes r * p_KeySize p /\
  am_ReadOperations r = as_Reads (p_Amplification p) /\ 0 < am_SSTableReadCalls r /\ 0 < am_SSTableReadBytes r /\
  0 < am_SSTableWriteBytes r /\ 0 < am_ManifestWriteBytes r /\ am_SSTableWriteBytes r + am_ManifestWriteBytes r <= max_u64 /\
  0 < am_ReferencedSSTableBytes r /\ 0 <= am_Compactions r /\
  (exists live, am_LogicalLiveBytes r = live * (p_KeySize p + p_ValueSize p) /\ 0 < live <= as_Keyspace (p_Amplification p)).

Definition compaction_row_ok (p : Profile) (r : CompactionPauseRow) : Prop :=
  SeedForTrial p (cp_Trial r) = Some (cp_Seed r) /\ cp_Operations r = cs_Operations (p_CompactionPause p) /\
  0 < cp_CompactionOperations r /\ 0 < cp_OrdinaryOperations r /\ cp_CompactionOperations r + cp_OrdinaryOperations r = cp_Operations r /\
  0 < cp_CompactionP50NS r <= cp_CompactionP95NS r /\ cp_CompactionP95NS r <= cp_CompactionP99NS r <= cp_CompactionMaxNS r /\
  0 < cp_OrdinaryP50NS r <= cp_OrdinaryP95NS r /\ cp_OrdinaryP95NS r <= cp_OrdinaryP99NS r <= cp_OrdinaryMaxNS r.

Definition skiplist_row_ok (p : Profile) (r : SkiplistHeightRow) : Prop :=
  SeedForTrial p (sh_Trial r) = Some (sh_Seed r) /\ sh_Samples r = hs_Samples (p_SkiplistHeight p) /\
  foldr Z.add 0 (sh_HeightCounts r) = sh_Samples r.

(** The values that the fields of a row can hold, where a guard computes with them. *)
Definition is_i64 (z : Z) : Prop := - 9223372036854775808 <= z <= max_i64.

Definition point_read_range (r : PointReadLatencyRow) : Prop := is_i64 (pr_Found r) /\ is_i64 (pr_NotFound r).
Definition amplification_range (r : AmplificationRow) : Prop :=
  is_i64 (am_Puts r) /\ is_i64 (am_Deletes r) /\ is_u64 (am_LogicalUserWriteBytes r) /\ is_u64 (am_SSTableWriteBytes r) /\ is_u64 (am_ManifestWriteBytes r) /\
  is_u64 (am_SSTableReadCalls r) /\ is_u64 (am_SSTableReadBytes r) /\ is_u64 (am_LogicalLiveBytes r) /\ is_u64 (am_ReferencedSSTableBytes r).
Definition compaction_range (r : CompactionPauseRow) : Prop := is_i64 (cp_CompactionOperations r) /\ is_i64 (cp_OrdinaryOperations r).
Definition skiplist_range (r : SkiplistHeightRow) : Prop := Forall is_u64 (sh_HeightCounts r).

Definition result_range (r : RawResult) : Prop :=
  Forall point_read_range (r_PointReadLatency r) /\ Forall amplification_range (r_Amplification r) /\
  Forall compaction_range (r_CompactionPause r) /\ Forall skiplist_range (r_SkiplistHeight r).

(** * The guards of a row are exact *)

Lemma in_cells {A B} (l : list A) (k : list B) x y : (x, y) ∈ list_prod l k <-> x ∈ l /\ y ∈ k.
Proof. rewrite !list_elem_of_In. apply in_prod_iff. Qed.

(** A row of a trial of the profile names one of its trials. *)
Lemma trial_elem p t s : SeedForTrial p t = Some s -> t ∈ p_Trials p.
Proof. apply seedLoop_elem. Qed.

Lemma i64_add_nonneg a b c : 0 <= a <= max_i64 -> 0 <= b <= max_i64 -> 0 <= c <= max_i64 -> i64_add a b = c <-> a + b = c.
Proof.
  intros Ha Hb Hc. unfold i64_add. destruct (Z.le_gt_cases (a + b) max_i64); [by rewrite i64_id by lia|].
  unfold i64, max_i64 in *. rewrite <- (Z.mod_unique (a + b + 9223372036854775808) 18446744073709551616 1 (a + b - 9223372036854775808)); lia.
Qed.

Lemma writeGuards_None p r :
  writeGuards p r = None <-> (wt_Trial r, wt_FlushThresholdBytes r) ∈ list_prod (p_Trials p) (ws_FlushThresholdBytes (p_WriteThroughput p)) /\ write_row_ok p r.
Proof. unfold writeGuards, write_row_ok. guards_to_prop. rewrite in_cells. pose proof (trial_elem p (wt_Trial r)). naive_solver. Qed.

Definition builtin (p : Profile) : Prop := p = smokeProfile \/ p = reportProfile.

Definition pointReadCells (p : Profile) : list (Z * Z * bool * string) :=
  list_prod (list_prod (list_prod (p_Trials p) (ps_SSTableCounts (p_PointRead p))) (ps_BloomModes (p_PointRead p))) (ps_LookupKinds (p_PointRead p)).

Lemma pointReadGuards_None p r :
  builtin p -> point_read_range r ->
  pointReadGuards p r = None <-> (pr_Trial r, pr_SSTableCount r, pr_BloomEnabled r, pr_LookupKind r) ∈ pointReadCells p /\ point_read_row_ok p r.
Proof.
  intros Hp [[_ Hf] [_ Hn]]. assert (0 <= ps_Operations (p_PointRead p) <= max_i64) as Ho by (destruct Hp as [->| ->]; unfold max_i64; cbn; lia).
  unfold pointReadGuards, pointReadCells, point_read_row_ok. guards_to_prop. rewrite !in_cells. pose proof (trial_elem p (pr_Trial r)) as Ht.
  split.
  - intros (Hs & Hc & Hb & Hk & Hop & He & (H1 & H2) & Hsum & H3 & H4 & H5 & H6 & H7 & H8 & H9 & _). rewrite i64_add_nonneg in Hsum by lia.
    split; [naive_solver|]. split_and!; try done; try lia; clear - H6 H7 H8 H9; intuition congruence.
  - intros ((((_ & Hc) & Hb) & Hk) & Hs & Hop & H1 & H2 & H3 & H4 & H5 & Hsum & H6 & H7 & H8).
    split; [done|]. rewrite i64_add_nonneg by lia. split_and!; try done; try lia; clear - H6 H7 H8.
    all: destruct (decide (pr_LookupKind r = "hit")), (decide (pr_LookupKind r = "miss")); destruct (pr_BloomEnabled r); intuition congruence.
Qed.

Lemma bloomGuards_None p r :
  builtin p ->
  bloomGuards p r = None <-> (bf_Trial r, bf_InsertedKeys r) ∈ list_prod (p_Trials p) (bs_InsertedKeyCounts (p_BloomFP p)) /\ bloom_row_ok p r.
Proof.
  intros Hp. assert (is_u64 (bs_ProbeKeys (p_BloomFP p))) as Ho by (destruct Hp as [->| ->]; unfold is_u64, max_u64; cbn; lia).
  unfold bloomGuards, bloom_row_ok. guards_to_prop. rewrite in_cells. pose proof (trial_elem p (bf_Trial r)). split.
  - intros (Hs & Hc & He & H1 & H2 & H3 & H4 & _). rewrite He in *. rewrite u64_id in H4 by done. naive_solver.
  - intros ((_ & Hc) & Hs & He & H1 & H2 & H3 & H4). rewrite He in *. rewrite u64_id by done. naive_solver.
Qed.

Lemma compactionGuards_None p r :
  builtin p -> compaction_range r -> compactionGuards p r = None <-> cp_Trial r ∈ p_Trials p /\ compaction_row_ok p r.
Proof.
  intros Hp [[_ Hc] [_ Ho]]. assert (0 <= cs_Operations (p_CompactionPause p) <= max_i64) as Hz by (destruct Hp as [->| ->]; unfold max_i64; cbn; lia).
  unfold compactionGuards, compaction_row_ok. guards_to_prop. pose proof (trial_elem p (cp_Trial r)). split.
  - intros (Hs & He & H1 & H2 & H3 & H4 & H5 & H6 & _). rewrite i64_add_nonneg in H3 by lia. split; [naive_solver|]. split_and!; try done; lia.
  - intros (_ & Hs & He & H1 & H2 & H3 & H4 & H5 & H6 & H7). split; [done|]. rewrite i64_add_nonneg by lia. split_and!; try done; lia.
Qed.

Lemma sumCounts_spec counts total :
  Forall is_u64 counts -> is_u64 total ->
  sumCounts total counts = if decide (total + foldr Z.add 0 counts <= max_u64) then Some (total + foldr Z.add 0 counts) else None.
Proof.
  intros Hf. revert total. induction Hf as [|c counts Hc Hf IH]; intros total Ht; cbn [sumCounts foldr].
  { unfold is_u64 in Ht. rewrite decide_True by lia. f_equal. lia. }
  assert (0 <= foldr Z.add 0 counts) as Hn by (clear -Hf; induction Hf as [|x l Hx _ IH]; cbn; [lia|unfold is_u64 in Hx; lia]).
  unfold is_u64 in Hc, Ht. rewrite u64_sub_small by (unfold max_u64 in *; lia). destruct (Z.ltb_spec (max_u64 - total) c); [rewrite decide_False by lia; done|].
  rewrite u64_add_small by (unfold max_u64 in *; lia). rewrite IH by (unfold is_u64; lia). by rewrite Z.add_assoc.
Qed.

Lemma skiplistGuards_None p r :
  builtin p -> skiplist_range r -> skiplistGuards p r = None <-> sh_Trial r ∈ p_Trials p /\ skiplist_row_ok p r.
Proof.
  intros Hp Hr. assert (0 <= hs_Samples (p_SkiplistHeight p) <= max_u64) as Hz by (destruct Hp as [->| ->]; unfold max_u64; cbn; lia).
  unfold skiplistGuards, skiplist_row_ok. rewrite sumCounts_spec by (done || (unfold is_u64, max_u64; lia)). rewrite Z.add_0_l.
  guards_to_prop. pose proof (trial_elem p (sh_Trial r)). split.
  - intros (Hs & He & H1 & H2 & _). rewrite He in *. rewrite u64_id in H2 by done. case_decide; [|done]. split; [naive_solver|]. split_and!; [done|done|]. apply dec_stable in H2. congruence.
  - intros (_ & Hs & He & H1). rewrite He in *. rewrite u64_id by done. rewrite H1, decide_True by lia. naive_solver.
Qed.

(** The live bytes of a row are those of a number of pairs of the key space. *)
Lemma live_pairs b unit keys : 0 < unit -> 0 <= b -> (0 < b /\ b mod unit = 0 /\ b <= keys * unit <-> exists live, b = live * unit /\ 0 < live <= keys).
Proof.
  intros Hu Hb. split.
  - intros (H0 & Hm & Hle). exists (b / unit). assert (b = b / unit * unit) as E by (pose proof (Z.div_mod b unit); lia). split; [done|]. nia.
  - intros (live & -> & Hl). rewrite Z.mod_mul by lia. nia.
Qed.

(** The split of the operations is exact for the numbers of operations of the profiles. *)
Lemma split_exact ops puts deletes :
  ops = 5000 \/ ops = 250000 ->
  puts = Z.quot (i64 (ops * 90)) 100 /\ deletes = Z.quot (i64 (ops * 10)) 100 <-> 100 * puts = 90 * ops /\ puts + deletes = ops.
Proof.
  intros [-> | ->].
  - change (Z.quot (i64 (5000 * 90)) 100) with 4500. change (Z.quot (i64 (5000 * 10)) 100) with 500. lia.
  - change (Z.quot (i64 (250000 * 90)) 100) with 225000. change (Z.quot (i64 (250000 * 10)) 100) with 25000. lia.
Qed.

Lemma amplificationGuards_None p r :
  builtin p -> amplification_range r -> amplificationGuards p r = None <-> am_Trial r ∈ p_Trials p /\ amplification_row_ok p r.
Proof.
  intros Hp (Hpu & Hde & Hlu & Hsw & Hmw & Hrc & Hrb & Hll & Href). unfold amplificationGuards, amplification_row_ok. guards_to_prop.
  pose proof (trial_elem p (am_Trial r)) as Ht. pose proof (live_pairs (am_LogicalLiveBytes r) 144 (as_Keyspace (p_Amplification p))) as Hlive.
  unfold is_i64, is_u64 in *. rewrite u64_sub_small by lia.
  assert (p_KeySize p = 16 /\ p_ValueSize p = 128 /\ as_PutsPercent (p_Amplification p) = 90 /\ as_DeletesPercent (p_Amplification p) = 10 /\
    (as_Operations (p_Amplification p) = 5000 \/ as_Operations (p_Amplification p) = 250000) /\
    (as_Keyspace (p_Amplification p) = 500 \/ as_Keyspace (p_Amplification p) = 25000) /\ 0 < as_Reads (p_Amplification p)) as (-> & -> & -> & -> & Hops & Hks & Hrd)
    by (destruct Hp as [->| ->]; cbn; lia).
  change (u64 (16 + 128)) with 144. unfold u64_mul. rewrite (u64_id (as_Keyspace _)) by (unfold is_u64, max_u64; lia). rewrite (u64_id (_ * 144)) by (unfold is_u64, max_u64; lia).
  specialize (Hlive eq_refl (proj1 Hll)). change (16 + 128) with 144. rewrite <- Hlive. split.
  - intros (Hs & Ho & (_ & Hsum) & (E1 & E2) & El & H1 & Hr & H2 & H3 & H4 & H5 & H6 & H7 & H8 & H9 & H10 & H11 & _). rewrite Ho in *.
    destruct (split_exact (as_Operations (p_Amplification p)) (am_Puts r) (am_Deletes r) Hops) as [Hf _]. destruct (Hf (conj E1 E2)) as [F1 F2].
    rewrite u64_id in El by (unfold is_u64, max_u64; lia). split; [naive_solver|]. split_and!; try done; lia.
  - intros (_ & Hs & Ho & F1 & F2 & El & Hr & H3 & H4 & H5 & H6 & H7 & H8 & H9 & H10). rewrite Ho in *.
    destruct (split_exact (as_Operations (p_Amplification p)) (am_Puts r) (am_Deletes r) Hops) as [_ Hf]. destruct (Hf (conj F1 F2)) as [E1 E2].
    rewrite u64_id by (unfold is_u64, max_u64; lia). unfold i64_add. rewrite (i64_id (am_Puts r + am_Deletes r)) by (unfold max_i64; lia). split_and!; try done; lia.
Qed.

(** * Results *)

(** One row for every cell of the matrix and no other row. *)
Record one_row_per_cell (p : Profile) (r : RawResult) : Prop := {
  orc_write : (fun x => (wt_Trial x, wt_FlushThresholdBytes x)) <$> r_WriteThroughput r ≡ₚ list_prod (p_Trials p) (ws_FlushThresholdBytes (p_WriteThroughput p));
  orc_point : (fun x => (pr_Trial x, pr_SSTableCount x, pr_BloomEnabled x, pr_LookupKind x)) <$> r_PointReadLatency r ≡ₚ pointReadCells p;
  orc_bloom : (fun x => (bf_Trial x, bf_InsertedKeys x)) <$> r_BloomFalsePositive r ≡ₚ list_prod (p_Trials p) (bs_InsertedKeyCounts (p_BloomFP p));
  orc_amplification : am_Trial <$> r_Amplification r ≡ₚ p_Trials p;
  orc_compaction : cp_Trial <$> r_CompactionPause r ≡ₚ p_Trials p;
  orc_skiplist : sh_Trial <$> r_SkiplistHeight r ≡ₚ p_Trials p;
}.

Record rows_ok (p : Profile) (r : RawResult) : Prop := {
  ro_write : Forall (write_row_ok p) (r_WriteThroughput r);
  ro_point : Forall (point_read_row_ok p) (r_PointReadLatency r);
  ro_bloom : Forall (bloom_row_ok p) (r_BloomFalsePositive r);
  ro_amplification : Forall (amplification_row_ok p) (r_Amplification r);
  ro_compaction : Forall (compaction_row_ok p) (r_CompactionPause r);
  ro_skiplist : Forall (skiplist_row_ok p) (r_SkiplistHeight r);
}.

Record header_ok (r : RawResult) : Prop := {
  ho_schema : r_Schema r = SchemaName;
  ho_version : r_SchemaVersion r = SchemaVersionV1;
  ho_time : parseUTC (r_CollectedAtUTC r) = true;
  ho_go : GoVersion (r_Environment r) <> "" /\ Goos (r_Environment r) <> "" /\ Goarch (r_Environment r) <> "";
  ho_cpus : 0 < NumCPU (r_Environment r) /\ 0 < Gomaxprocs (r_Environment r);
}.

Definition pointName (c : Z * Z * bool * string) : string :=
  let '(trial, count, bloom, kind) := c in
  pretty trial +:+ ":" +:+ pretty count +:+ ":" +:+ (if bloom : bool then "true" else "false") +:+ ":" +:+ kind.

Lemma builtin_names p :
  builtin p ->
  NoDup ((fun c => writeCell c.1 c.2) <$> list_prod (p_Trials p) (ws_FlushThresholdBytes (p_WriteThroughput p))) /\
  NoDup (pointName <$> pointReadCells p) /\
  NoDup ((fun c => bloomCell c.1 c.2) <$> list_prod (p_Trials p) (bs_InsertedKeyCounts (p_BloomFP p))) /\
  NoDup (id <$> p_Trials p).
Proof. intros [-> | ->]; split_and!; apply (bool_decide_unpack _); vm_compute; exact I. Qed.

Lemma len_prod {A B} (l : list A) (k : list B) : len (list_prod l k) = len l * len k.
Proof. unfold len. rewrite length_prod. lia. Qed.

Lemma BuiltinProfile_builtin name p : BuiltinProfile name = Some p -> builtin p.
Proof. unfold BuiltinProfile, builtin. repeat case_bool_decide; naive_solver. Qed.

Lemma validateRows_exact r p :
  builtin p -> result_range r -> validateRows r p = None <-> one_row_per_cell p r /\ rows_ok p r.
Proof.
  intros Hp (R1 & R2 & R3 & R4). destruct (builtin_names p Hp) as (N1 & N2 & N3 & N4). unfold validateRows. rewrite firstSome_None, !Forall_cons.
  pose proof (family_exact (writeGuards p) (fun x => (wt_Trial x, wt_FlushThresholdBytes x)) (fun c => writeCell c.1 c.2) (write_row_ok p) (fun _ => True)
    (r_WriteThroughput r) _ _ N1 eq_refl ltac:(by apply Forall_true) (fun x _ => writeGuards_None p x)) as E1.
  pose proof (family_exact (pointReadGuards p) (fun x => (pr_Trial x, pr_SSTableCount x, pr_BloomEnabled x, pr_LookupKind x)) pointName (point_read_row_ok p) point_read_range
    (r_PointReadLatency r) _ _ N2 eq_refl R1 (fun x => pointReadGuards_None p x Hp)) as E2.
  pose proof (family_exact (bloomGuards p) (fun x => (bf_Trial x, bf_InsertedKeys x)) (fun c => bloomCell c.1 c.2) (bloom_row_ok p) (fun _ => True)
    (r_BloomFalsePositive r) _ _ N3 eq_refl ltac:(by apply Forall_true) (fun x _ => bloomGuards_None p x Hp)) as E3.
  pose proof (family_exact (amplificationGuards p) am_Trial id (amplification_row_ok p) amplification_range (r_Amplification r) _ _ N4 eq_refl R2 (fun x => amplificationGuards_None p x Hp)) as E4.
  pose proof (family_exact (compactionGuards p) cp_Trial id (compaction_row_ok p) compaction_range (r_CompactionPause r) _ _ N4 eq_refl R3 (fun x => compactionGuards_None p x Hp)) as E5.
  pose proof (family_exact (skiplistGuards p) sh_Trial id (skiplist_row_ok p) skiplist_range (r_SkiplistHeight r) _ _ N4 eq_refl R4 (fun x => skiplistGuards_None p x Hp)) as E6.
  unfold pointReadCells in E2. rewrite len_prod in E1. rewrite !len_prod in E2. rewrite len_prod in E3.
  unfold validateWriteThroughputRows, validatePointReadRows, validateBloomRows, validateAmplificationRows, validateCompactionPauseRows, validateSkiplistRows.
  split.
  - intros (H1 & H2 & H3 & H4 & H5 & H6 & _). apply E1 in H1 as []. apply E2 in H2 as []. apply E3 in H3 as []. apply E4 in H4 as []. apply E5 in H5 as []. apply E6 in H6 as []. done.
  - intros [[] []]. split_and!; [by apply E1|by apply E2|by apply E3|by apply E4|by apply E5|by apply E6|done].
Qed.

Lemma header_exact r :
  headerGuards r = None /\ validateEnvironment (r_Environment r) = None <-> header_ok r /\ is_Some (BuiltinProfile (r_Profile r)).
Proof.
  unfold headerGuards, validateEnvironment. rewrite !firstGuard_None, !Forall_cons. cbn [fst].
  rewrite ?andb_false_iff, ?negb_false_iff, ?Z.leb_gt, ?Z.eqb_eq, ?bool_decide_eq_false.
  assert (is_Some (BuiltinProfile (r_Profile r)) <-> r_Profile r = ProfileSmoke \/ r_Profile r = ProfileReport) as ->.
  { unfold BuiltinProfile. repeat case_bool_decide; naive_solver. }
  split.
  - intros ((H1 & H2 & H3 & _ & H4 & _) & H5 & H6 & H7 & H8 & H9 & _). apply dec_stable in H1. split; [by split|]. destruct H3 as [H3|H3]; apply dec_stable in H3; auto.
  - intros [[H1 H2 H3 (H4 & H5 & H6) (H7 & H8)] Hb]. assert (r_CollectedAtUTC r <> "") by (intros E; by rewrite E in H3). split_and!; try done; [tauto|]. destruct Hb; tauto.
Qed.

Lemma one_row_counts p r name :
  BuiltinProfile name = Some p -> one_row_per_cell p r -> exists expected, ExpectedRowsByFamily name = Some expected /\ validateCounts r expected = None.
Proof.
  intros Hp [O1%Permutation_length O2%Permutation_length O3%Permutation_length O4%Permutation_length O5%Permutation_length O6%Permutation_length].
  rewrite !length_fmap in *. unfold ExpectedRowsByFamily. rewrite Hp. eexists. split; [done|]. unfold validateCounts, len.
  rewrite O1, O2, O3, O4, O5, O6. by destruct (BuiltinProfile_builtin _ _ Hp) as [-> | ->]; vm_compute.
Qed.

(** C39. The validation of a benchmark result is exact: for every result whose numbers fit their
    fields, [ValidateResult] accepts it if and only if its header is well formed, its matrix
    is the built-in profile that it names, its rows are one for every cell of that matrix
    and no others, and every row satisfies the relations that its family promises (sums,
    splits and quantiles, in unbounded arithmetic). *)
Theorem ValidateResult_exact r :
  result_range r ->
  ValidateResult r = None <->
  exists p, BuiltinProfile (r_Profile r) = Some p /\ r_Matrix r = p /\ header_ok r /\ one_row_per_cell p r /\ rows_ok p r.
Proof.
  intros Hr. unfold ValidateResult. pose proof (header_exact r) as Hh.
  destruct (headerGuards r) as [e|]; [split; [done|]; intros (p & Hp & _ & Hk & _); by destruct (proj2 Hh (conj Hk (mk_is_Some _ _ Hp)))|].
  destruct (validateEnvironment _) as [e|]; [split; [done|]; intros (p & Hp & _ & Hk & _); by destruct (proj2 Hh (conj Hk (mk_is_Some _ _ Hp)))|].
  destruct (proj1 Hh (conj eq_refl eq_refl)) as [Hk [p Hp]]. rewrite Hp. pose proof (BuiltinProfile_builtin _ _ Hp) as Hb.
  assert (validateTrialSeedMapping p = None) as -> by (by destruct Hb as [-> | ->]; vm_compute).
  case_bool_decide as Hm; [split; [done|]; intros (p' & Hp' & <- & _); congruence|]. pose proof (validateRows_exact r p Hb Hr) as Hx.
  split.
  - intros Hv. exists p. destruct (ExpectedRowsByFamily _) as [m|]; [|done]. destruct (validateCounts r m); [done|]. apply Hx in Hv as []. done.
  - intros (p' & [= <-] & _ & _ & Ho & Hrows). destruct (one_row_counts p r _ Hp Ho) as (m & -> & ->). by apply Hx.
Qed.

(** A result of the smoke profile, with its rows in the order of the cells. *)
Definition demo_point (count : Z) (bloom : bool) (kind : string) : PointReadLatencyRow :=
  mkPointReadLatencyRow 1 1 count bloom kind 1000 900000 100 400 900 1500 (if bool_decide (kind = "hit") then 1000 else 0) (if bool_decide (kind = "hit") then 0 else 1000) 1000 64000.

Definition demo_result : RawResult :=
  mkRawResult SchemaName 1 ProfileSmoke "2026-01-31T7:05:09.25Z" (mkEnvironment "go1.25" "linux" "amd64" 8 8) smokeProfile
    [mkWriteThroughputRow 1 1 65536 2000 1000000; mkWriteThroughputRow 1 1 4194304 2000 900000]
    [demo_point 4 false "miss"; demo_point 1 true "hit"; demo_point 1 true "miss"; demo_point 1 false "hit"; demo_point 1 false "miss";
     demo_point 4 true "hit"; demo_point 4 true "miss"; demo_point 4 false "hit"]
    [mkBloomFalsePositiveRow 1 1 1000 5000 9586 7 51 0]
    [mkAmplificationRow 1 1 5000 4500 500 656000 900000 4000 1000 2500 300000 64800 120000 12]
    [mkCompactionPauseRow 1 1 5000 60 4940 90000 120000 150000 150000 200 300 400 9000]
    [mkSkiplistHeightRow 1 1 10000 [7500; 1875; 469; 117; 29; 7; 2; 1; 0; 0; 0; 0; 0; 0; 0; 0]].

Lemma demo_result_range : result_range demo_result.
Proof. unfold result_range, point_read_range, amplification_range, compaction_range, skiplist_range, is_i64, is_u64, max_i64, max_u64. repeat split; repeat (apply Forall_cons; split); try apply Forall_nil; try done; cbn; lia. Qed.

Lemma ValidateResult_exact_witness :
  ValidateResult demo_result = None /\
  exists p, BuiltinProfile ProfileSmoke = Some p /\ r_Matrix demo_result = p /\ header_ok demo_result /\ one_row_per_cell p demo_result /\ rows_ok p demo_result.
Proof. assert (ValidateResult demo_result = None) as E by (vm_compute; reflexivity). exact (conj E (proj1 (ValidateResult_exact demo_result demo_result_range) E)). Defined.

(** * Quantiles *)

(** The index of a quantile in [n] sorted values, after the clamps. *)
Definition rankIndex (q : float64) (n : Z) : Z := Z.max 0 (Z.min (n - 1) (f64_ceilToInt (f64_mul q (f64_of_int n)) - 1)).

Lemma nearestRank_index sorted q : sorted <> [] -> nearestRank sorted q = default 0 (sorted !! Z.to_nat (rankIndex q (len sorted))).
Proof.
  intros Hne. unfold nearestRank, rankIndex. assert (0 < len sorted) by (unfold len; destruct sorted; cbn; [done|lia]).
  destruct (Z.eqb_spec (len sorted) 0); [lia|]. cbv zeta. destruct (Z.ltb_spec (f64_ceilToInt (f64_mul q (f64_of_int (len sorted))) - 1) 0); [by rewrite Z.max_l by lia|].
  destruct (Z.leb_spec (len sorted) (f64_ceilToInt (f64_mul q (f64_of_int (len sorted))) - 1)); do 3 f_equal; lia.
Qed.

Lemma small_ranks : forallb (fun n => (rankIndex q50 n <=? rankIndex q95 n) && (rankIndex q95 n <=? rankIndex q99 n)) (Z.of_nat <$> seq 1 100) = true.
Proof. vm_compute. reflexivity. Qed.

Lemma rankIndex_mono n : 0 < n < 2 ^ 53 -> 0 <= rankIndex q50 n <= rankIndex q95 n /\ rankIndex q95 n <= rankIndex q99 n <= n - 1.
Proof.
  intros Hn. assert (rankIndex q50 n <= rankIndex q95 n <= rankIndex q99 n) as H; [|unfold rankIndex in *; lia]. destruct (Z.le_gt_cases n 100) as [Hs|Hb].
  - pose proof small_ranks as Hf. rewrite forallb_forall in Hf. specialize (Hf n). rewrite andb_true_iff, !Z.leb_le in Hf. apply Hf.
    apply list_elem_of_In, list_elem_of_fmap. exists (Z.to_nat n). split; [lia|]. apply elem_of_seq. lia.
  - unfold rankIndex, q50, q95, q99.
    pose proof (f64_mul_ceil 4503599627370496 n ltac:(done) Hn) as H1. pose proof (f64_mul_ceil 8556839292003942 n ltac:(done) Hn) as H2. pose proof (f64_mul_ceil 8917127262193582 n ltac:(done) Hn) as H3.
    cbv zeta in *. set (c1 := f64_ceilToInt _) in *. set (c2 := f64_ceilToInt (f64_mul (S754_finite false 8556839292003942 (-53)) _)) in *.
    set (c3 := f64_ceilToInt (f64_mul (S754_finite false 8917127262193582 (-53)) _)) in *. change (2 ^ 53) with 9007199254740992 in *. lia.
Qed.

Lemma sorted_lookup_le (l : list Z) i j x y : StronglySorted Z.le l -> (i <= j)%nat -> l !! i = Some x -> l !! j = Some y -> x <= y.
Proof.
  intros Hs. revert i j. induction Hs as [|z l _ IH Hz]; intros i j Hij Hi Hj; [done|]. destruct i as [|i], j as [|j]; cbn in Hi, Hj; simplify_eq; [lia| |lia|by eapply (IH i j); [lia|..]].
  rewrite Forall_forall in Hz. apply Hz. by eapply list_elem_of_lookup_2.
Qed.

(** C40. The quantiles of a benchmark are in order and are measurements: for at least one and
    fewer than 2^53 samples, with the products of the quantile and the number of samples
    rounded to float64, [quantileLatency] returns samples with p50 <= p95 <= p99 <= max, and
    max is the largest sample; so positive samples pass the checks of the validation. *)
Theorem quantileLatency_ordered values p50 p95 p99 max :
  0 < len values < 2 ^ 53 -> quantileLatency values = (p50, p95, p99, max) ->
  p50 <= p95 /\ p95 <= p99 /\ p99 <= max /\ Forall (fun q => q ∈ values) [p50; p95; p99; max] /\ Forall (fun v => v <= max) values.
Proof.
  intros Hn. unfold quantileLatency. rewrite bool_decide_false by (intros ->; unfold len in Hn; cbn in Hn; lia). set (l := sort_by Z.leb values).
  assert (l ≡ₚ values) as Hp by apply sort_by_perm. assert (len l = len values) as Hl by (unfold len; by rewrite Hp). pose proof (sort_Z_sorted values : StronglySorted Z.le l) as Hs.
  assert (forall i, 0 <= i <= len l - 1 -> exists x, l !! Z.to_nat i = Some x /\ x ∈ values) as Hget.
  { intros i Hi. destruct (lookup_lt_is_Some_2 l (Z.to_nat i)) as [x Hx]; [unfold len in Hi; lia|]. exists x. split; [done|]. rewrite <- Hp. by eapply list_elem_of_lookup_2. }
  rewrite !nearestRank_index by (intros E; rewrite E in Hl; unfold len in *; cbn in Hl; lia). cbv zeta. destruct (rankIndex_mono (len l)) as [[M1 M2] [M3 M4]]; [lia|].
  destruct (Hget (rankIndex q50 (len l))) as (x1 & E1 & I1); [lia|]. destruct (Hget (rankIndex q95 (len l))) as (x2 & E2 & I2); [lia|].
  destruct (Hget (rankIndex q99 (len l))) as (x3 & E3 & I3); [lia|]. destruct (Hget (len l - 1)) as (x4 & E4 & I4); [lia|].
  rewrite E1, E2, E3, E4. cbn [default from_option id]. intros [= <- <- <- <-].
  split_and!; [by eapply (sorted_lookup_le l); [..|exact E1|exact E2]; [|lia]|by eapply (sorted_lookup_le l); [..|exact E2|exact E3]; [|lia]|
    by eapply (sorted_lookup_le l); [..|exact E3|exact E4]; [|lia]|by repeat constructor|].
  apply Forall_forall. intros v Hv. rewrite <- Hp in Hv. apply list_elem_of_lookup in Hv as [i Hi].
  eapply (sorted_lookup_le l); [done| |exact Hi|exact E4]. apply lookup_lt_Some in Hi. unfold len. lia.
Qed.

Lemma quantileLatency_ordered_witness :
  quantileLatency [40; 10; 30; 20; 50] = (30, 50, 50, 50) /\
  30 <= 50 /\ 50 <= 50 /\ 50 <= 50 /\ Forall (fun q => q ∈ [40; 10; 30; 20; 50]) [30; 50; 50; 50] /\ Forall (fun v => v <= 50) [40; 10; 30; 20; 50].
Proof.
  assert (quantileLatency [40; 10; 30; 20; 50] = (30, 50, 50, 50)) as E by (vm_compute; reflexivity).
  exact (conj E (quantileLatency_ordered [40; 10; 30; 20; 50] 30 50 50 50 (conj eq_refl eq_refl) E)).
Defined.

(** * The histogram of heights *)

Lemma foldr_alter_add i (l : list Z) :
  (i < length l)%nat -> Forall (fun c => 0 <= c) l -> foldr Z.add 0 l < max_u64 ->
  let l' := alter (fun c => u64_add c 1) i l in foldr Z.add 0 l' = foldr Z.add 0 l + 1 /\ Forall (fun c => 0 <= c) l' /\ length l' = length l.
Proof.
  intros Hi Hf. revert i Hi. induction Hf as [|c l Hc Hf IH]; intros [|i] Hi Hsum; cbn in *; [lia|lia| |].
  - assert (0 <= foldr Z.add 0 l) by (clear -Hf; induction Hf; cbn; lia). rewrite u64_add_small by lia. split_and!; [lia|constructor; [lia|done]|done].
  - destruct (IH i) as (E & Hf' & Hl); [lia|lia|]. rewrite E, Hl. split_and!; [lia|by constructor|done].
Qed.

Lemma heightSamples_total n r counts :
  length counts = 16%nat -> Forall (fun c => 0 <= c) counts -> foldr Z.add 0 counts + Z.of_nat n <= max_u64 ->
  exists counts' r', heightSamples n r counts = Ok (counts', r') /\ foldr Z.add 0 counts' = foldr Z.add 0 counts + Z.of_nat n /\ Forall (fun c => 0 <= c) counts'.
Proof.
  revert r counts. induction n as [|n IH]; intros r counts Hl Hf Hs; [exists counts, r; split_and!; [done|lia|done]|].
  cbn [heightSamples]. pose proof (randomHeight_range r) as Hr. change (randomHeight r maxHeight towerInverseP) with (RandomHeight r) in Hr. destruct (RandomHeight r) as [h r1]. cbn [fst] in Hr.
  change maxHeight with 16%nat in Hr. rewrite (proj2 (Nat.ltb_ge h 1)), (proj2 (Nat.ltb_ge 16 h)) by lia. cbn [orb].
  destruct (foldr_alter_add (h - 1) counts) as (E & Hf' & Hl'); [lia|done|lia|].
  destruct (IH r1 (alter (fun c => u64_add c 1) (h - 1)%nat counts)) as (counts' & r' & -> & E' & Hf''); [by rewrite Hl'|done|lia|]. exists counts', r'. split_and!; [done|lia|done].
Qed.

(** Every row that [collectSkiplistRow] makes for a trial of a built-in profile passes the
    validation, and it always makes one. *)
Theorem collectSkiplistRow_valid p trial seed rnd :
  builtin p -> SeedForTrial p trial = Some seed -> exists row, collectSkiplistRow p trial seed rnd = Ok row /\ skiplistGuards p row = None.
Proof.
  intros Hp Hs. unfold collectSkiplistRow. assert (0 < hs_Samples (p_SkiplistHeight p) <= max_u64) as Hz by (destruct Hp as [-> | ->]; unfold max_u64; cbn; lia).
  rewrite (proj2 (Z.leb_gt _ _)) by lia.
  destruct (heightSamples_total (Z.to_nat (hs_Samples (p_SkiplistHeight p))) rnd (replicate 16 0)) as (counts & r' & -> & E & Hf);
    [done|by apply Forall_replicate|change (foldr Z.add 0 (replicate 16 0)) with 0; lia|]. change (foldr Z.add 0 (replicate 16 0)) with 0 in E.
  eexists. split; [done|]. assert (forall l, Forall (fun c => 0 <= c) l -> foldr Z.add 0 l <= max_u64 -> Forall is_u64 l) as Hu.
  { intros l Hl. induction Hl as [|c l Hc Hl IH]; cbn; [constructor|]. assert (0 <= foldr Z.add 0 l) by (clear -Hl; induction Hl; cbn; lia). intros. constructor; [unfold is_u64; lia|apply IH; lia]. }
  apply skiplistGuards_None; [done|apply Hu; cbn; [done|lia]|]. split; [by eapply trial_elem|]. split_and!; cbn; [done|done|lia].
Qed.

(** * The keys of a Bloom trial *)

Lemma nextKey_fresh fuel draws pos seen v pos' seen' : nextKey fuel draws pos seen = Some (v, pos', seen') -> v ∉ seen /\ seen' = {[v]} ∪ seen /\ exists k, v = draws k.
Proof. revert pos. induction fuel as [|fuel IH]; intros pos; cbn; [done|]. case_bool_decide; [apply IH|]. intros [= <- _ <-]. eauto. Qed.

Lemma nextKeys_fresh count fuel draws pos seen size keys pos' seen' :
  nextKeys count fuel draws pos seen size = Some (keys, pos', seen') ->
  exists vs, Forall2 (fun v key => fixedKey v size = Some key) vs keys /\ length vs = count /\ NoDup vs /\ (forall v, v ∈ vs -> v ∉ seen) /\ seen' = list_to_set vs ∪ seen /\
    (forall v, v ∈ vs -> exists k, v = draws k).
Proof.
  revert pos seen keys. induction count as [|count IH]; intros pos seen keys; cbn [nextKeys]; [intros [= <- _ <-]; exists []; split_and!; try done; [constructor|set_solver..]|].
  destruct (nextKey fuel draws pos seen) as [[[v p1] s1]|] eqn:Ev; [|done]. cbn. destruct (fixedKey v size) as [key|] eqn:Ek; [|done]. cbn.
  destruct (nextKeys count fuel draws p1 s1 size) as [[[ks p2] s2]|] eqn:Er; [|done]. cbn. intros [= <- <- <-].
  destruct (nextKey_fresh _ _ _ _ _ _ _ Ev) as (Hv & -> & Hd). destruct (IH _ _ _ Er) as (vs & Hf & Hlen & Hn & Hfr & -> & Hk). exists (v :: vs). split_and!.
  - by constructor.
  - cbn. by rewrite Hlen.
  - constructor; [intros Hin; apply (Hfr v Hin); set_solver|done].
  - set_solver.
  - set_solver.
  - intros w [->|Hw]%elem_of_cons; auto.
Qed.

Lemma fixedKeyLoop_lookup v size n index key key' :
  length key = Z.to_nat size -> fixedKeyLoop v size index n key = Some key' ->
  (forall j, (j < index)%nat -> (j < Z.to_nat size)%nat -> key' !! (Z.to_nat size - 1 - j)%nat = key !! (Z.to_nat size - 1 - j)%nat) /\
  (forall j, (index <= j < index + n)%nat -> key' !! (Z.to_nat size - 1 - j)%nat = Some (byte_of_Z (Z.shiftr v (8 * Z.of_nat j))) /\ (j < Z.to_nat size)%nat).
Proof.
  revert index key. induction n as [|n IH]; intros index key Hl; cbn [fixedKeyLoop]; [intros [= <-]; split; [done|lia]|].
  destruct (Z.ltb_spec (size - 1 - Z.of_nat index) 0) as [|Hi]; [done|]. intros E. apply IH in E as [H1 H2]; [|by rewrite length_insert].
  assert (Z.to_nat (size - 1 - Z.of_nat index) = (Z.to_nat size - 1 - index)%nat) as Ei by lia. rewrite Ei in H1. split.
  - intros j Hj Hs. rewrite H1 by lia. by rewrite list_lookup_insert_ne by lia.
  - intros j Hj. destruct (decide (j = index)) as [->|Hne]; [|apply H2; lia]. split; [|lia]. rewrite H1 by lia. by rewrite list_lookup_insert_eq by lia.
Qed.

Lemma bytes_of_word v w :
  0 <= v < 2 ^ 64 -> 0 <= w < 2 ^ 64 -> (forall j, 0 <= j < 8 -> Z.shiftr v (8 * j) mod 256 = Z.shiftr w (8 * j) mod 256) -> v = w.
Proof.
  intros Hv Hw H. apply Z.bits_inj'. intros k Hk. destruct (Z.lt_ge_cases k 64) as [Hlt|Hge].
  - specialize (H (k / 8) ltac:(split; [apply Z.div_pos; lia|apply Z.div_lt_upper_bound; lia])). apply (f_equal (fun z => Z.testbit z (k mod 8))) in H.
    change 256 with (2 ^ 8) in H. pose proof (Z.mod_pos_bound k 8 ltac:(lia)). rewrite !Z.mod_pow2_bits_low, !Z.shiftr_spec in H by lia.
    replace (k mod 8 + 8 * (k / 8)) with k in H by (pose proof (Z.div_mod k 8); lia). done.
  - rewrite !Z.bits_above_log2; [done|lia|..]; try lia.
    + destruct (Z.eq_dec w 0) as [->|]; [cbn; lia|]. apply Z.log2_lt_pow2; [lia|]. eapply Z.lt_le_trans; [apply Hw|]. apply Z.pow_le_mono_r; lia.
    + destruct (Z.eq_dec v 0) as [->|]; [cbn; lia|]. apply Z.log2_lt_pow2; [lia|]. eapply Z.lt_le_trans; [apply Hv|]. apply Z.pow_le_mono_r; lia.
Qed.

Lemma fixedKey_inj v w size key : 0 <= size -> 0 <= v < 2 ^ 64 -> 0 <= w < 2 ^ 64 -> fixedKey v size = Some key -> fixedKey w size = Some key -> v = w.
Proof.
  intros Hs Hv Hw. unfold fixedKey. rewrite (proj2 (Z.ltb_ge _ _)) by lia. intros Ev Ew.
  apply fixedKeyLoop_lookup in Ev as [_ Ev]; [|by rewrite length_replicate]. apply fixedKeyLoop_lookup in Ew as [_ Ew]; [|by rewrite length_replicate].
  apply bytes_of_word; [done|done|]. intros j Hj. destruct (Ev (Z.to_nat j)) as [E1 _]; [lia|]. destruct (Ew (Z.to_nat j)) as [E2 _]; [lia|].
  rewrite E1 in E2. rewrite Z2Nat.id in E2 by lia. injection E2 as E2. apply (f_equal Z_of_byte) in E2. by rewrite !Z_of_byte_of_Z in E2.
Qed.

Lemma Forall2_NoDup {A B} (R : A -> B -> Prop) vs ks : (forall v w k, v ∈ vs -> w ∈ vs -> R v k -> R w k -> v = w) -> Forall2 R vs ks -> NoDup vs -> NoDup ks.
Proof.
  intros Hinj Hf. induction Hf as [|v k vs ks Hvk Hf IH]; [constructor|]. intros [Hv Hn]%NoDup_cons. constructor; [|apply IH; [set_solver|done]].
  intros Hk. apply list_elem_of_lookup in Hk as [i Hi]. destruct (Forall2_lookup_r _ _ _ _ _ Hf Hi) as (w & Hw & Hwk). apply list_elem_of_lookup_2 in Hw. rewrite (Hinj v w k) in Hv; [done|set_solver..|done|done].
Qed.

(** The keys of a Bloom trial are distinct, inserted or probed, so a probe that the filter
    reports was never inserted. *)
Theorem bloomTrialKeys_distinct fuel draws ni np size inserted probes :
  0 <= size -> (forall k, 0 <= draws k < 2 ^ 63) -> bloomTrialKeys fuel draws ni np size = Some (inserted, probes) ->
  length inserted = ni /\ length probes = np /\ NoDup (inserted ++ probes).
Proof.
  intros Hs Hd. unfold bloomTrialKeys. destruct (nextKeys ni fuel draws 0 ∅ size) as [[[iks p1] s1]|] eqn:E1; [|done]. cbn.
  destruct (nextKeys np fuel draws p1 s1 size) as [[[ps p2] s2]|] eqn:E2; [|done]. cbn. intros [= <- <-].
  apply nextKeys_fresh in E1 as (vs & F1 & L1 & N1 & _ & -> & D1). apply nextKeys_fresh in E2 as (ws & F2 & L2 & N2 & Hfr & _ & D2).
  split_and!; [by rewrite <- (Forall2_length _ _ _ F1)|by rewrite <- (Forall2_length _ _ _ F2)|].
  apply (Forall2_NoDup (fun v key => fixedKey v size = Some key) (vs ++ ws)); [|by apply Forall2_app|apply NoDup_app; split_and!; [done|set_solver|done]].
  assert (forall v, v ∈ vs ++ ws -> 0 <= v < 2 ^ 64) as Hr.
  { intros v [Hv|Hv]%elem_of_app; [destruct (D1 v Hv) as [k ->]|destruct (D2 v Hv) as [k ->]]; specialize (Hd k); lia. }
  intros v w k Hv Hw. apply fixedKey_inj; auto.
Qed.
