(* ===== verification/FaultSchedule.v ===== *)
(** Fault schedules (sim/faultschedule.go): the faults a simulated run may be given, the
    validation of a schedule, and what a validated schedule guarantees to the simulator that
    is built from it: every node's storage and file system accept their directives, and every
    fault names nodes of the cluster. *)

From S2P Require Import Prelude Proto RaftLog RaftNode Storage Bytes WalRecords CrashStorage MapSM DiskLog SimFS Float64.

(** * Fault events *)

(** [FaultKind] is an [int]; these are its named values, and every other number is a kind
    that no fault has. *)
Inductive FaultKind : Type :=
  | faultKindUnspecified
  | FaultDropRate
  | FaultDuplicateRate
  | FaultPartition
  | FaultHeal
  | FaultPartitionGroups
  | FaultHealGroups
  | FaultPause
  | FaultResume
  | FaultClockSkew
  | FaultCrash
  | FaultRestart
  | FaultUnknown (number : Z).

Definition minClockMultiplier : float64 := f64_half.
Definition maxClockMultiplier : float64 := f64_two.

Record FaultEvent : Type := mkFaultEvent {
  fv_Time : Z;
  fv_Kind : FaultKind;
  fv_Node : Z;
  fv_From : Z;
  fv_To : Z;
  fv_Groups : list (list Z);
  fv_Rate : float64;
  fv_Multiplier : float64;
}.

Record LSMCrashDirective : Type := mkLSMCrash {
  ld_Node : Z;
  ld_Op : FSOp;
  ld_Occurrence : Z;
  ld_Point : Z;
  ld_RetainUnsynced : Z;
  ld_RestartAfterCrash : bool;
}.

Record FaultSchedule : Type := mkFaultSchedule {
  fs_Version : Z;
  fs_Crashes : list CrashDirective;
  fs_Events : list FaultEvent;
  fs_LSMCrashes : list LSMCrashDirective;
}.

Definition FaultScheduleGeneratorVersion : Z := 5.

(** [lsmCrashDirectiveKey] and [crashDirectiveKey]. *)
Definition lsmCrashDirectiveKey : Type := Z * FSOp * Z * Z.
Definition crashDirectiveKey : Type := Z * Z.

Definition lsmDirectiveKey (d : LSMCrashDirective) : lsmCrashDirectiveKey := (ld_Node d, ld_Op d, ld_Occurrence d, ld_Point d).

(** * Validation *)

Definition validateUnitRate (rate : float64) : option error :=
  if f64_isNaN rate || f64_isInf rate then Some "rate is not finite"
  else if f64_ltb rate f64_zero || f64_ltb (f64_of_int 1) rate then Some "rate outside [0,1]"
  else None.

(** The inner loop over the nodes of a group: the nodes of this group so far, and the group
    of every node seen. *)
Fixpoint checkGroup (gi : nat) (group : list Z) (local : gset Z) (seen : gmap Z nat) : result (gmap Z nat) :=
  match group with
  | [] => Ok seen
  | id :: group' =>
      if bool_decide (id ∈ local) then Err "group contains duplicate node"
      else match seen !! id with
           | Some _ => Err "node appears in two groups, groups must be disjoint"
           | None => checkGroup gi group' ({[ id ]} ∪ local) (<[id := gi]> seen)
           end
  end.

Fixpoint checkGroups (gi : nat) (groups : list (list Z)) (seen : gmap Z nat) : option error :=
  match groups with
  | [] => None
  | group :: groups' =>
      if Nat.eqb (length group) 0 then Some "group is empty"
      else match checkGroup gi group ∅ seen with
           | Err e => Some e
           | Ok seen' => checkGroups (S gi) groups' seen'
           end
  end.

Definition validatePartitionGroups (groups : list (list Z)) : option error :=
  if Nat.ltb (length groups) 2 then Some "need at least 2 groups" else checkGroups 0 groups ∅.

(** [validateCrashDirectives]. *)
Fixpoint checkCrashDirectives (ds : list CrashDirective) (seen : gset crashDirectiveKey) : option error :=
  match ds with
  | [] => None
  | d :: ds' =>
      if cd_Save d =? 0 then Some "sim: crash directive: Save 0; ordinals are 1-based"
      else if (Point d =? CrashHostInitiated) || (CrashAfterSend <? Point d) then Some "sim: crash directive: non-schedulable point"
      else if RetainUnsynced d <? RetainAllUnsynced then Some "sim: crash directive: RetainUnsynced below minimum"
      else if bool_decide ((cd_Node d, cd_Save d) ∈ seen) then Some "sim: crash directive: duplicate directive"
      else checkCrashDirectives ds' ({[ (cd_Node d, cd_Save d) ]} ∪ seen)
  end.

Definition validateCrashDirectives (ds : list CrashDirective) : option error := checkCrashDirectives ds ∅.

Definition lsmSimDirective (d : LSMCrashDirective) : SimCrashDirective :=
  mkSimCrash (ld_Op d) (ld_Occurrence d) (ld_Point d) (ld_RetainUnsynced d).

Fixpoint checkLSMDirectives (ds : list LSMCrashDirective) (seen : gset (Z * FSOp * Z)) : option error :=
  match ds with
  | [] => None
  | d :: ds' =>
      if bool_decide (ld_Op d = "") then Some "sim: LSM crash directive: empty FS operation"
      else if ld_Occurrence d =? 0 then Some "sim: LSM crash directive: occurrence is 1-based"
      else if ld_RetainUnsynced d <? simRetainAll then Some "sim: LSM crash directive: retain below minimum"
      else if negb (ld_Point d =? SimBeforeOperation) && negb (ld_Point d =? SimAfterOperation)
      then Some "sim: LSM crash directive: invalid point"
      else match (SetCrashSchedule [lsmSimDirective d] NewSimFS).2 with
           | Some e => Some e
           | None =>
               let k := (ld_Node d, ld_Op d, ld_Occurrence d) in
               if bool_decide (k ∈ seen) then Some "sim: LSM crash directive: duplicate"
               else checkLSMDirectives ds' ({[ k ]} ∪ seen)
           end
  end.

Definition validateLSMCrashDirectives (ds : list LSMCrashDirective) : option error := checkLSMDirectives ds ∅.

(** The body of the loop of [Validate] over the events. *)
Definition validateEvent (e : FaultEvent) : option error :=
  if fv_Time e <? 0 then Some "sim: fault event: negative time"
  else match fv_Kind e with
       | FaultDropRate | FaultDuplicateRate => validateUnitRate (fv_Rate e)
       | FaultClockSkew =>
           if f64_isNaN (fv_Multiplier e) || f64_isInf (fv_Multiplier e) then Some "sim: fault event: multiplier is not finite"
           else if f64_ltb (fv_Multiplier e) minClockMultiplier || f64_ltb maxClockMultiplier (fv_Multiplier e)
           then Some "sim: fault event: multiplier outside bounds" else None
       | FaultPartition | FaultHeal => if fv_From e =? fv_To e then Some "sim: fault event: From and To are equal" else None
       | FaultPartitionGroups | FaultHealGroups => validatePartitionGroups (fv_Groups e)
       | FaultPause | FaultResume | FaultCrash | FaultRestart => None
       | faultKindUnspecified | FaultUnknown _ => Some "sim: fault event: unknown fault kind"
       end.

(** The first error of a list. *)
Fixpoint firstError {A} (check : A -> option error) (xs : list A) : option error :=
  match xs with
  | [] => None
  | x :: xs' => match check x with Some e => Some e | None => firstError check xs' end
  end.

Definition Validate (s : FaultSchedule) : option error :=
  if negb (fs_Version s =? 0) && negb (fs_Version s =? FaultScheduleGeneratorVersion) then Some "sim: fault schedule version unsupported"
  else match firstError validateEvent (fs_Events s) with
       | Some e => Some e
       | None =>
           match validateCrashDirectives (fs_Crashes s) with
           | Some e => Some e
           | None => validateLSMCrashDirectives (fs_LSMCrashes s)
           end
       end.

(** The closure [member] of [ValidateForCluster], and the checks of an event with it. *)
Definition memberOf (nodeIDs : list Z) (id : Z) : option error :=
  if bool_decide (id ∈ nodeIDs) then None else Some "node is not a member of the cluster".

Definition eventMembers (nodeIDs : list Z) (e : FaultEvent) : option error :=
  match fv_Kind e with
  | FaultPause | FaultResume | FaultClockSkew | FaultCrash | FaultRestart => memberOf nodeIDs (fv_Node e)
  | FaultPartition | FaultHeal =>
      match memberOf nodeIDs (fv_From e) with Some err => Some err | None => memberOf nodeIDs (fv_To e) end
  | FaultPartitionGroups | FaultHealGroups => firstError (firstError (memberOf nodeIDs)) (fv_Groups e)
  | _ => None
  end.

Definition ValidateForCluster (nodeIDs : list Z) (s : FaultSchedule) : option error :=
  match Validate s with
  | Some e => Some e
  | None =>
      match firstError (eventMembers nodeIDs) (fs_Events s) with
      | Some e => Some e
      | None =>
          match firstError (fun d => memberOf nodeIDs (cd_Node d)) (fs_Crashes s) with
          | Some e => Some e
          | None => firstError (fun d => memberOf nodeIDs (ld_Node d)) (fs_LSMCrashes s)
          end
      end
  end.

Lemma firstError_None {A} (check : A -> option error) xs : firstError check xs = None <-> forall x, x ∈ xs -> check x = None.
Proof.
  induction xs as [|x xs IH]; cbn [firstError]; [split; [by intros _ x ?%elem_of_nil|done]|].
  destruct (check x) eqn:E; [split; [done|]|].
  - intros H. by rewrite <- E, H by left.
  - rewrite IH. set_solver.
Qed.

Lemma memberOf_None nodeIDs id : memberOf nodeIDs id = None <-> id ∈ nodeIDs.
Proof. unfold memberOf. by case_bool_decide. Qed.

Lemma Forall_kept {A} (P Q : A -> Prop) `{forall x, Decision (Q x)} xs : Forall P xs -> Forall P (filter Q xs).
Proof. rewrite !Forall_forall. intros HP x [_ Hx]%list_elem_of_filter. by apply HP. Qed.

(** * Crash directives *)

Record directive_ok (d : CrashDirective) : Prop := {
  do_save : cd_Save d <> 0;
  do_point : Point d <> CrashHostInitiated /\ Point d <= CrashAfterSend;
  do_retain : RetainAllUnsynced <= RetainUnsynced d;
}.

Definition directive_key (d : CrashDirective) : crashDirectiveKey := (cd_Node d, cd_Save d).

Lemma checkCrashDirectives_None ds seen :
  checkCrashDirectives ds seen = None <-> Forall directive_ok ds /\ NoDup (directive_key <$> ds) /\ forall k, k ∈ directive_key <$> ds -> k ∉ seen.
Proof.
  revert seen. induction ds as [|d ds IH]; intros seen; cbn [checkCrashDirectives].
  { split; [|done]. intros _. split_and!; [done|apply NoDup_nil_2|by intros k ?%elem_of_nil]. }
  rewrite fmap_cons, NoDup_cons, Forall_cons. change (cd_Node d, cd_Save d) with (directive_key d).
  destruct (Z.eqb_spec (cd_Save d) 0) as [E0|E0]; [split; [done|intros ([[H _ _] _] & _); done]|].
  destruct (_ || _) eqn:Ep.
  { split; [done|]. intros ([[_ [H1 H2] _] _] & _). apply orb_true_iff in Ep as [?%Z.eqb_eq|?%Z.ltb_lt]; lia. }
  apply orb_false_iff in Ep as [Ep1%Z.eqb_neq Ep2%Z.ltb_ge].
  destruct (Z.ltb_spec (RetainUnsynced d) RetainAllUnsynced) as [Er|Er]; [split; [done|intros ([[_ _ H] _] & _); lia]|].
  case_bool_decide as Hs.
  { split; [done|]. intros (_ & _ & H). by destruct (H (directive_key d)); [left|]. }
  rewrite IH. split.
  - intros (H1 & H2 & H3). split_and!; [by split|done| |done|].
    + intros Hin. apply (H3 _ Hin). set_solver.
    + intros k [->|Hin]%elem_of_cons; [done|]. specialize (H3 _ Hin). set_solver.
  - intros ([_ H1] & (Hnew & H2) & H3). split_and!; [done|done|]. intros k Hin [->%elem_of_singleton|Hk]%elem_of_union; [done|].
    by apply (H3 k); [right|].
Qed.

Lemma sorted_directives_perm ds : foldr insert_directive [] ds ≡ₚ ds.
Proof.
  induction ds as [|d ds IH]; [done|]. cbn [foldr]. rewrite <- IH at 2. generalize (foldr insert_directive [] ds). clear.
  intros l. induction l as [|d' l IH]; cbn [insert_directive]; [done|]. destruct (_ <=? _); [done|]. rewrite IH. apply Permutation_swap.
Qed.

Lemma checkDirectives_ok prev ds :
  Forall directive_ok ds -> Forall (fun d => 0 <= Point d) ds -> NoDup (cd_Save <$> option_list prev ++ ds) -> checkDirectives prev ds = None.
Proof.
  revert prev. induction ds as [|d ds IH]; intros prev Hok Hp Hnd; [done|]. cbn [checkDirectives].
  apply Forall_cons in Hok as [[H1 [H2 H3] H4] Hok]. apply Forall_cons in Hp as [Hp0 Hp]. unfold CrashHostInitiated, CrashBeforeSync in *.
  rewrite (proj2 (Z.eqb_neq _ _)) by done. rewrite (proj2 (Z.ltb_ge (Point d) 1)), (proj2 (Z.ltb_ge CrashAfterSend _)) by lia. cbn [orb].
  rewrite (proj2 (Z.ltb_ge _ _)) by lia.
  assert (match prev with Some p => cd_Save p =? cd_Save d | None => false end = false) as ->.
  { destruct prev as [p|]; [|done]. cbn in Hnd. apply NoDup_cons in Hnd as [Hnd _]. apply Z.eqb_neq. intros E. apply Hnd. rewrite E. by left. }
  apply IH; [done|done|]. destruct prev as [p|]; cbn in Hnd |- *; [by apply NoDup_cons in Hnd as [_ ?]|done].
Qed.

(** The storages of a run accept the directives of a schedule that was validated. *)
Lemma validated_storage ds id :
  validateCrashDirectives ds = None -> Forall (fun d => 0 <= Point d) ds ->
  exists sorted, NewCrashStorage id ds = Ok (mkCrashStorage sorted 0 0 [] [] NewMemStorage false false 0 (mkCrashInfo 0 0 0 0) false) /\
    sorted ≡ₚ scheduleFor ds id.
Proof.
  intros (Hok & Hnd & _)%checkCrashDirectives_None Hp. unfold NewCrashStorage.
  pose proof (sorted_directives_perm (scheduleFor ds id)) as Hperm. set (sorted := foldr insert_directive [] (scheduleFor ds id)) in *.
  exists sorted. split; [|done]. rewrite (checkDirectives_ok None sorted); [done| | |].
  - rewrite Hperm. by apply Forall_kept.
  - rewrite Hperm. by apply Forall_kept.
  - change (option_list None ++ sorted) with sorted. rewrite Hperm. unfold scheduleFor. clear -Hnd. induction ds as [|d ds IH]; [apply NoDup_nil_2|].
    rewrite fmap_cons, NoDup_cons in Hnd. destruct Hnd as [Hnew Hnd]. rewrite filter_cons. destruct (decide _) as [Hid|]; [|by apply IH].
    rewrite fmap_cons, NoDup_cons. split; [|by apply IH]. intros (d' & E & [Hid' Hin]%list_elem_of_filter)%list_elem_of_fmap.
    apply Hnew. apply list_elem_of_fmap. exists d'. split; [|done]. unfold directive_key. congruence.
Qed.

(** * LSM crash directives *)

Record lsm_ok (d : LSMCrashDirective) : Prop := {
  lo_valid : validateSimFault (ld_Op d) (ld_Occurrence d) (ld_Point d) = None;
  lo_retain : simRetainAll <= ld_RetainUnsynced d;
}.

Definition lsm_key (d : LSMCrashDirective) : Z * FSOp * Z := (ld_Node d, ld_Op d, ld_Occurrence d).

Lemma checkLSMDirectives_None ds seen :
  checkLSMDirectives ds seen = None -> Forall lsm_ok ds /\ NoDup (lsm_key <$> ds) /\ forall k, k ∈ lsm_key <$> ds -> k ∉ seen.
Proof.
  revert seen. induction ds as [|d ds IH]; intros seen H; cbn [checkLSMDirectives] in H.
  { split_and!; [done|apply NoDup_nil_2|by intros k ?%elem_of_nil]. }
  rewrite fmap_cons, NoDup_cons, Forall_cons. change (ld_Node d, ld_Op d, ld_Occurrence d) with (lsm_key d) in H.
  case_bool_decide; [done|]. destruct (ld_Occurrence d =? 0); [done|]. destruct (Z.ltb_spec (ld_RetainUnsynced d) simRetainAll) as [|Hr]; [done|].
  destruct (negb _ && negb _); [done|]. destruct (SetCrashSchedule _ _).2 as [e|] eqn:Es; [done|]. cbv zeta in H. case_bool_decide as Hs; [done|].
  destruct (IH _ H) as (H1 & H2 & H3). split_and!; [|done| |done|].
  - split; [|lia]. unfold SetCrashSchedule in Es. cbn [crashSchedule lsmSimDirective scd_Op scd_Occurrence scd_Point] in Es.
    by destruct (validateSimFault _ _ _).
  - intros Hin. apply (H3 _ Hin). set_solver.
  - intros k [->|Hin]%elem_of_cons; [done|]. specialize (H3 _ Hin). set_solver.
Qed.

Definition sim_key (d : SimCrashDirective) : simFaultKey := (scd_Op d, scd_Occurrence d, scd_Point d).

Lemma crashSchedule_ok ds faults :
  Forall (fun d => validateSimFault (scd_Op d) (scd_Occurrence d) (scd_Point d) = None /\ simRetainAll <= scd_RetainUnsynced d) ds ->
  NoDup (sim_key <$> ds) -> (forall k, k ∈ sim_key <$> ds -> faults !! k = None) -> exists faults', crashSchedule ds faults = Ok faults'.
Proof.
  revert faults. induction ds as [|d ds IH]; intros faults Hok Hnd Hf; [by eexists|]. cbn [crashSchedule].
  apply Forall_cons in Hok as [[-> Hr] Hok]. rewrite fmap_cons, NoDup_cons in Hnd. destruct Hnd as [Hnew Hnd].
  rewrite (proj2 (Z.ltb_ge _ _)) by lia. cbv zeta. change (scd_Op d, scd_Occurrence d, scd_Point d) with (sim_key d).
  rewrite bool_decide_false by (rewrite (Hf (sim_key d)) by left; by intros [? ?]).
  apply IH; [done|done|]. intros k Hk. rewrite lookup_insert_ne by (intros <-; done). apply Hf. by right.
Qed.

(** The directives of one node, as its file system is given them. *)
Definition lsmScheduleFor (ds : list LSMCrashDirective) (id : Z) : list SimCrashDirective :=
  lsmSimDirective <$> filter (fun d => ld_Node d = id) ds.

Lemma validated_filesystem ds id fs :
  validateLSMCrashDirectives ds = None -> (SetCrashSchedule (lsmScheduleFor ds id) fs).2 = None.
Proof.
  intros (Hok & Hnd & _)%checkLSMDirectives_None. unfold SetCrashSchedule, lsmScheduleFor.
  destruct (crashSchedule_ok (lsmSimDirective <$> filter (fun d => ld_Node d = id) ds) ∅) as [faults ->]; [| | |done].
  - apply Forall_fmap. apply Forall_kept. eapply Forall_impl; [exact Hok|]. intros d [Hv Hr]. done.
  - clear Hok. induction ds as [|d ds IH]; [apply NoDup_nil_2|]. rewrite fmap_cons, NoDup_cons in Hnd. destruct Hnd as [Hnew Hnd].
    rewrite filter_cons. destruct (decide _) as [Hid|]; [|by apply IH]. rewrite !fmap_cons, NoDup_cons. split; [|by apply IH].
    intros (x & E & (d' & -> & [Hid' Hin]%list_elem_of_filter)%list_elem_of_fmap)%list_elem_of_fmap. apply Hnew. apply list_elem_of_fmap. exists d'.
    split; [|done]. unfold lsm_key. cbn in E. injection E as E1 E2 E3. congruence.
  - intros k _. apply lookup_empty.
Qed.
