(* ===== verification/Workload.v ===== *)
(** The deterministic clients of the simulator (sim/workload/config.go, generator.go and
    runner.go).

    The [Host] that supplies virtual time, scheduling and submission is the Go interface as
    a type class.  The clients are values of a list; [byID] holds their positions, so that a
    client found by its identifier is the one of the list.  [rand.New(rand.NewSource(seed))]
    is the parameter [newRand]: the draws of a seed. *)

From S2P Require Import Prelude Proto RaftLog RaftNode Storage Bytes MapSM Checker.

(** * Configuration *)

Definition DefaultClientCount : Z := 5.
Definition DefaultKeyCount : Z := 8.
Definition DefaultOperationsPerClient : Z := 40.
Definition DefaultOperationTimeout : Z := 3000.
Definition DefaultRetryDelay : Z := 10.
Definition DefaultThinkTime : Z := 1.
Definition DefaultClientIDBase : Z := 1.

Record WorkloadConfig : Type := mkWorkloadConfig {
  wc_Seed : Z;
  wc_ClientCount : Z;
  wc_ClientIDBase : Z;
  wc_KeyCount : Z;
  wc_OperationsPerClient : Z;
  wc_OperationTimeout : Z;
  wc_RetryDelay : Z;
  wc_ThinkTime : Z;
  wc_StartTime : Z;
  wc_Targets : list Z;
}.

(** The value, or the default when it is zero. *)
Definition orDefault (v d : Z) : Z := if v =? 0 then d else v.

Definition normalizeConfig (c : WorkloadConfig) : result WorkloadConfig :=
  let c1 := mkWorkloadConfig (wc_Seed c) (orDefault (wc_ClientCount c) DefaultClientCount)
              (orDefault (wc_ClientIDBase c) DefaultClientIDBase) (orDefault (wc_KeyCount c) DefaultKeyCount)
              (orDefault (wc_OperationsPerClient c) DefaultOperationsPerClient)
              (orDefault (wc_OperationTimeout c) DefaultOperationTimeout) (orDefault (wc_RetryDelay c) DefaultRetryDelay)
              (orDefault (wc_ThinkTime c) DefaultThinkTime) (wc_StartTime c) (wc_Targets c) in
  if wc_ClientCount c1 <? 0 then Err "workload: ClientCount must be positive"
  else if wc_KeyCount c1 <? 0 then Err "workload: KeyCount must be positive"
  else if wc_OperationsPerClient c1 <? 0 then Err "workload: OperationsPerClient must be positive"
  else if wc_OperationTimeout c1 <? 0 then Err "workload: OperationTimeout must be positive"
  else if wc_RetryDelay c1 <? 0 then Err "workload: RetryDelay must be positive"
  else if wc_ThinkTime c1 <? 0 then Err "workload: ThinkTime must be positive"
  else if wc_StartTime c1 <? 0 then Err "workload: StartTime must not be negative"
  else if Nat.eqb (length (wc_Targets c1)) 0 then Err "workload: Targets must not be empty"
  else if max_u64 -u wc_ClientIDBase c1 <? u64 (wc_ClientCount c1 - 1) then Err "workload: client ID range overflows uint64"
  else Ok c1.

(** * The generator *)

Record Generator : Type := mkGenerator {
  gen_rnd : Rand;
  gen_clientID : Z;
  gen_keyCount : Z;
}.

Section generator.
Context (newRand : Z -> Rand).

Definition NewGenerator (seed clientID keyCount : Z) : result Generator :=
  if keyCount <=? 0 then Err "workload: key count must be positive"
  else
    let derived := Z.lxor (u64 seed) (u64_mul clientID 11400714819323198485) in
    Ok (mkGenerator (newRand (i64 derived)) clientID keyCount).
End generator.

(** The digit of a number below 36, and [strconv.FormatUint] in a base up to it. *)
Definition digitByte (d : Z) : Byte.byte := byte_of_Z (if d <? 10 then 48 + d else 87 + d).

Fixpoint formatLoop (fuel : nat) (base n : Z) (acc : bytes) : bytes :=
  match fuel with
  | O => acc
  | S fuel' =>
      let acc' := digitByte (n mod base) :: acc in
      if n <? base then acc' else formatLoop fuel' base (n / base) acc'
  end.

(** A number has no more digits than bits. *)
Definition formatUint (n base : Z) : bytes := formatLoop (S (Z.to_nat (Z.log2 n))) base n [].

(** [raftpb.Op(number)]. *)
Definition opOfNumber (v : Z) : Op :=
  if v =? 0 then OP_UNSPECIFIED else if v =? 1 then Op_PUT else if v =? 2 then Op_DELETE else if v =? 3 then Op_GET else Op_UNRECOGNIZED v.

Definition gen_Next (seq : Z) (g : Generator) : Generator * Input :=
  let '(d, r1) := IntN (gen_rnd g) 3 in
  let op := opOfNumber (1 + d) in
  let '(k, r2) := IntN r1 (gen_keyCount g) in
  let key := Byte.x6b :: formatUint k 10 in
  let value := if bool_decide (op = Op_PUT)
               then Byte.x76 :: formatUint (gen_clientID g) 36 ++ Byte.x2d :: formatUint seq 36 else [] in
  (mkGenerator r2 (gen_clientID g) (gen_keyCount g), mkInput op key value).

(** * Events, submissions and the host *)

Inductive EventKind : Type := EventStart | EventRetry | EventDeadline | EventApplied | EventLeadershipLost | EventOther (number : Z).

Record AttemptID : Type := mkAttemptID {
  ai_ClientID : Z;
  ai_Seq : Z;
  ai_Attempt : Z;
}.

#[export] Instance AttemptID_eq_dec : EqDecision AttemptID.
Proof. solve_decision. Defined.

#[export] Program Instance AttemptID_countable : Countable AttemptID :=
  inj_countable' (fun a => (ai_ClientID a, ai_Seq a, ai_Attempt a)) (fun p => mkAttemptID p.1.1 p.1.2 p.2) _.
Next Obligation. by intros []. Qed.

Record WEvent : Type := mkWEvent {
  we_Kind : EventKind;
  we_AttemptID : AttemptID;
  we_DeadlineGeneration : Z;
  we_Output : Output;
}.

Record Submission : Type := mkSubmission {
  sb_AttemptID : AttemptID;
  sb_Target : Z;
  sb_Command : Command;
}.

Inductive SubmitStatus : Type := SubmitAccepted | SubmitNotLeader.

Class WorkloadHost (H : Type) : Type := {
  wh_Now : H -> Z;
  wh_Schedule : Z -> WEvent -> H -> H;
  wh_Submit : Submission -> H -> H * result SubmitStatus;
  wh_Cancel : AttemptID -> H -> H;
}.

(** * The runner *)

Record AttemptRecord : Type := mkAttemptRecord {
  ar_Time : Z;
  ar_AttemptID : AttemptID;
  ar_Target : Z;
  ar_Status : SubmitStatus;
  ar_Command : Command;
}.

Record logicalOperation : Type := mkLogicalOperation {
  lo_seq : Z;
  lo_command : Command;
  lo_deadline : Z;
  lo_deadlineGeneration : Z;
  lo_attempt : Z;
  lo_waiting : bool;
  lo_timedOut : bool;
}.

Record wclient : Type := mkClient {
  cl_id : Z;
  cl_nextSeq : Z;
  cl_generated : Z;
  cl_completed : Z;
  cl_targetCursor : Z;
  cl_generator : Generator;
  cl_active : option logicalOperation;
}.

Record Runner : Type := mkRunner {
  rn_config : WorkloadConfig;
  rn_clients : list wclient;
  rn_byID : gmap Z nat;
  rn_recorder : HistoryRecorder;
  rn_attempts : list AttemptRecord;
  rn_started : bool;
}.

Section runner.
Context (newRand : Z -> Rand).

(** The loop of [New] over the clients from the [i]-th on. *)
Fixpoint newClients (n : nat) (i : Z) (c : WorkloadConfig) : result (list wclient) :=
  match n with
  | O => Ok []
  | S n' =>
      let clientID := wc_ClientIDBase c +u i in
      match NewGenerator newRand (wc_Seed c) clientID (wc_KeyCount c) with
      | Err e => Err e
      | Ok generator =>
          match newClients n' (i + 1) c with
          | Err e => Err e
          | Ok rest => Ok (mkClient clientID 1 0 0 (i mod Z.of_nat (length (wc_Targets c))) generator None :: rest)
          end
      end
  end.

(** [byID]: a later client with the same identifier would replace an earlier one. *)
Fixpoint indexClients (i : nat) (clients : list wclient) (m : gmap Z nat) : gmap Z nat :=
  match clients with
  | [] => m
  | c :: clients' => indexClients (S i) clients' (<[cl_id c := i]> m)
  end.

Definition NewRunner (config : WorkloadConfig) : result Runner :=
  match normalizeConfig config with
  | Err e => Err e
  | Ok normalized =>
      match newClients (Z.to_nat (wc_ClientCount normalized)) 0 normalized with
      | Err e => Err e
      | Ok clients => Ok (mkRunner normalized clients (indexClients 0 clients ∅) NewRecorder [] false)
      end
  end.
End runner.

(** Field updates. *)
Definition set_client (i : nat) (c : wclient) (r : Runner) : Runner :=
  mkRunner (rn_config r) (<[i := c]> (rn_clients r)) (rn_byID r) (rn_recorder r) (rn_attempts r) (rn_started r).
Definition set_recorder (h : HistoryRecorder) (r : Runner) : Runner :=
  mkRunner (rn_config r) (rn_clients r) (rn_byID r) h (rn_attempts r) (rn_started r).
Definition add_attempt (a : AttemptRecord) (r : Runner) : Runner :=
  mkRunner (rn_config r) (rn_clients r) (rn_byID r) (rn_recorder r) (rn_attempts r ++ [a]) (rn_started r).

Definition with_active (op : option logicalOperation) (c : wclient) : wclient :=
  mkClient (cl_id c) (cl_nextSeq c) (cl_generated c) (cl_completed c) (cl_targetCursor c) (cl_generator c) op.
Definition with_cursor (cursor : Z) (c : wclient) : wclient :=
  mkClient (cl_id c) (cl_nextSeq c) (cl_generated c) (cl_completed c) cursor (cl_generator c) (cl_active c).

Definition with_waiting (w : bool) (op : logicalOperation) : logicalOperation :=
  mkLogicalOperation (lo_seq op) (lo_command op) (lo_deadline op) (lo_deadlineGeneration op) (lo_attempt op) w (lo_timedOut op).
Definition with_timedOut (t : bool) (op : logicalOperation) : logicalOperation :=
  mkLogicalOperation (lo_seq op) (lo_command op) (lo_deadline op) (lo_deadlineGeneration op) (lo_attempt op) (lo_waiting op) t.
Definition with_deadline (d g : Z) (op : logicalOperation) : logicalOperation :=
  mkLogicalOperation (lo_seq op) (lo_command op) d g (lo_attempt op) (lo_waiting op) (lo_timedOut op).
Definition with_attempt (n : Z) (op : logicalOperation) : logicalOperation :=
  mkLogicalOperation (lo_seq op) (lo_command op) (lo_deadline op) (lo_deadlineGeneration op) n (lo_waiting op) (lo_timedOut op).

Definition commandFor (clientID seq : Z) (input : Input) : Command :=
  mkCommand clientID seq (in_Op input) (cloneBytes (in_Key input)) (cloneBytes (in_Value input)).

Definition cloneCommand (c : Command) : Command :=
  mkCommand (ClientId c) (Seq c) (cmd_Op c) (cloneBytes (Key c)) (cloneBytes (Value c)).

Definition matchesWaitingAttempt (c : wclient) (attempt : AttemptID) : bool :=
  match cl_active c with
  | None => false
  | Some op =>
      lo_waiting op && (ai_ClientID attempt =? cl_id c) && (ai_Seq attempt =? lo_seq op) && (ai_Attempt attempt =? lo_attempt op)
  end.

Section handlers.
Context {H : Type} `{WorkloadHost H}.

(** The handlers take the position of the client and return the runner, the host and the
    error. *)
Definition handled : Type := Runner * H * option error.

(** A client that the index does not find is a nil pointer; [byID] never holds one. *)
Definition clientAt (i : nat) (r : Runner) (k : wclient -> handled) (host : H) : handled :=
  match rn_clients r !! i with None => (r, host, Some "panic: nil client") | Some c => k c end.

Definition scheduleRetry (i : nat) (r : Runner) (host : H) : handled :=
  clientAt i r (fun c =>
    match cl_active c with
    | None => (r, host, Some "panic: nil operation")
    | Some op =>
        let retryAt := wh_Now host +i wc_RetryDelay (rn_config r) in
        if lo_deadline op <=? retryAt then (r, host, None)
        else (r, wh_Schedule retryAt (mkWEvent EventRetry (mkAttemptID (cl_id c) (lo_seq op) (lo_attempt op)) 0 noOutput) host, None)
    end) host.

Definition scheduleDeadline (i : nat) (r : Runner) (host : H) : Runner * H :=
  match rn_clients r !! i with
  | None => (r, host)
  | Some c =>
      match cl_active c with
      | None => (r, host)
      | Some op =>
          let generation := lo_deadlineGeneration op +u 1 in
          let op' := with_deadline (lo_deadline op) generation op in
          (set_client i (with_active (Some op') c) r,
           wh_Schedule (lo_deadline op) (mkWEvent EventDeadline (mkAttemptID (cl_id c) (lo_seq op) 0) generation noOutput) host)
      end
  end.

(** [submit]: the operation is marked as waiting before the host is called, and the target
    and the attempt are those of the marked operation. *)
Definition submit (i : nat) (retry : bool) (r : Runner) (host : H) : handled :=
  clientAt i r (fun c =>
    match cl_active c with
    | None => (r, host, Some "panic: nil operation")
    | Some op =>
        match (if retry then Retry (cl_id c) (lo_seq op) (rn_recorder r) else None) with
        | Some e => (r, host, Some e)
        | None =>
            let op1 := with_waiting true (with_attempt (lo_attempt op +u 1) op) in
            let attemptID := mkAttemptID (cl_id c) (lo_seq op) (lo_attempt op1) in
            let targets := wc_Targets (rn_config r) in
            match targets !! Z.to_nat (cl_targetCursor c) with
            | None => (r, host, Some "panic: index out of range")
            | Some target =>
                let c1 := with_active (Some op1) (with_cursor ((cl_targetCursor c + 1) mod Z.of_nat (length targets)) c) in
                let r1 := set_client i c1 r in
                match wh_Submit (mkSubmission attemptID target (cloneCommand (lo_command op))) host with
                | (host1, Err e) => (set_client i (with_active (Some (with_waiting false op1)) c1) r1, host1, Some e)
                | (host1, Ok status) =>
                    let r2 := add_attempt (mkAttemptRecord (wh_Now host1) attemptID target status (cloneCommand (lo_command op))) r1 in
                    match status with
                    | SubmitAccepted => (r2, host1, None)
                    | SubmitNotLeader => scheduleRetry i (set_client i (with_active (Some (with_waiting false op1)) c1) r2) host1
                    end
                end
            end
        end
    end) host.

Definition handleStart (i : nat) (r : Runner) (host : H) : handled :=
  clientAt i r (fun c =>
    match cl_active c with
    | Some _ => (r, host, Some ErrOutstandingOperation)
    | None =>
        if wc_OperationsPerClient (rn_config r) <=? cl_generated c then (r, host, None)
        else
          let seq := cl_nextSeq c in
          let '(g, input) := gen_Next seq (cl_generator c) in
          let c1 := mkClient (cl_id c) (cl_nextSeq c) (cl_generated c) (cl_completed c) (cl_targetCursor c) g None in
          match Invoke (cl_id c) seq (wh_Now host) input (rn_recorder r) with
          | (rec, Some e) => (set_recorder rec (set_client i c1 r), host, Some e)
          | (rec, None) =>
              let op := mkLogicalOperation seq (commandFor (cl_id c) seq input)
                          (wh_Now host +i wc_OperationTimeout (rn_config r)) 0 0 false false in
              let c2 := mkClient (cl_id c) (cl_nextSeq c) (cl_generated c + 1) (cl_completed c) (cl_targetCursor c) g (Some op) in
              let '(r2, host2) := scheduleDeadline i (set_recorder rec (set_client i c2 r)) host in
              submit i false r2 host2
          end
    end) host.

Definition handleRetry (i : nat) (event : WEvent) (r : Runner) (host : H) : handled :=
  clientAt i r (fun c =>
    match cl_active c with
    | None => (r, host, None)
    | Some op =>
        let id := we_AttemptID event in
        if negb (ai_Seq id =? 0) && negb (ai_Seq id =? lo_seq op) then (r, host, None)
        else if negb (ai_Attempt id =? 0) && negb (ai_Attempt id =? lo_attempt op) then (r, host, None)
        else if lo_waiting op then (r, host, None)
        else
          let '(r1, host1) :=
            if lo_timedOut op then
              let op1 := with_deadline (wh_Now host +i wc_OperationTimeout (rn_config r)) (lo_deadlineGeneration op) (with_timedOut false op) in
              scheduleDeadline i (set_client i (with_active (Some op1) c) r) host
            else (r, host) in
          submit i true r1 host1
    end) host.

Definition handleDeadline (i : nat) (event : WEvent) (r : Runner) (host : H) : handled :=
  clientAt i r (fun c =>
    match cl_active c with
    | None => (r, host, None)
    | Some op =>
        if negb (ai_Seq (we_AttemptID event) =? lo_seq op) || negb (we_DeadlineGeneration event =? lo_deadlineGeneration op)
        then (r, host, None)
        else
          let host1 := if lo_waiting op then wh_Cancel (mkAttemptID (cl_id c) (lo_seq op) (lo_attempt op)) host else host in
          match RecordTimeout (cl_id c) (lo_seq op) (wh_Now host1) (rn_recorder r) with
          | Some e => (r, host1, Some e)
          | None => (set_client i (with_active (Some (with_timedOut true (with_waiting false op))) c) r, host1, None)
          end
    end) host.

Definition handleApplied (i : nat) (event : WEvent) (r : Runner) (host : H) : handled :=
  clientAt i r (fun c =>
    match cl_active c with
    | None => (r, host, None)
    | Some op =>
        if negb (matchesWaitingAttempt c (we_AttemptID event)) then (r, host, None)
        else match Complete (cl_id c) (lo_seq op) (wh_Now host) (we_Output event) (rn_recorder r) with
             | (rec, Some e) => (set_recorder rec r, host, Some e)
             | (rec, None) =>
                 let c1 := mkClient (cl_id c) (cl_nextSeq c +u 1) (cl_generated c) (cl_completed c + 1) (cl_targetCursor c) (cl_generator c) None in
                 let r1 := set_recorder rec (set_client i c1 r) in
                 if cl_generated c <? wc_OperationsPerClient (rn_config r)
                 then (r1, wh_Schedule (wh_Now host +i wc_ThinkTime (rn_config r)) (mkWEvent EventStart (mkAttemptID (cl_id c) 0 0) 0 noOutput) host, None)
                 else (r1, host, None)
             end
    end) host.

Definition handleLeadershipLost (i : nat) (event : WEvent) (r : Runner) (host : H) : handled :=
  clientAt i r (fun c =>
    match cl_active c with
    | None => (r, host, None)
    | Some op =>
        if negb (matchesWaitingAttempt c (we_AttemptID event)) then (r, host, None)
        else scheduleRetry i (set_client i (with_active (Some (with_waiting false op)) c) r) host
    end) host.

Definition runner_Handle (event : WEvent) (r : Runner) (host : H) : handled :=
  match rn_byID r !! ai_ClientID (we_AttemptID event) with
  | None => (r, host, Some "workload: unknown client")
  | Some i =>
      match we_Kind event with
      | EventStart => handleStart i r host
      | EventRetry => handleRetry i event r host
      | EventDeadline => handleDeadline i event r host
      | EventApplied => handleApplied i event r host
      | EventLeadershipLost => handleLeadershipLost i event r host
      | EventOther _ => (r, host, Some "workload: unsupported event kind")
      end
  end.

(** [Start]; the clients are started in their order. *)
Definition runner_Start (r : Runner) (host : H) : handled :=
  if rn_started r then (r, host, Some "workload: runner already started")
  else if wc_StartTime (rn_config r) <? wh_Now host then (r, host, Some "workload: start time precedes current virtual time")
  else
    let r1 := mkRunner (rn_config r) (rn_clients r) (rn_byID r) (rn_recorder r) (rn_attempts r) true in
    (r1, foldl (fun host c => wh_Schedule (wc_StartTime (rn_config r)) (mkWEvent EventStart (mkAttemptID (cl_id c) 0 0) 0 noOutput) host) host (rn_clients r), None).
End handlers.

(** [RetryEvent]. *)
Definition RetryEvent (clientID : Z) (r : Runner) : result WEvent :=
  match rn_byID r !! clientID with
  | None => Err "workload: unknown client"
  | Some i =>
      match rn_clients r !! i with
      | None => Err "panic: nil client"
      | Some c =>
          match cl_active c with
          | Some op =>
              if negb (lo_timedOut op) then Err "workload: client has no timed-out operation to retry"
              else Ok (mkWEvent EventRetry (mkAttemptID clientID (lo_seq op) 0) 0 noOutput)
          | None => Err "workload: client has no timed-out operation to retry"
          end
      end
  end.

(** [Done]. *)
Definition runner_Done (r : Runner) : bool :=
  forallb (fun c => match cl_active c with Some _ => false | None => cl_generated c =? wc_OperationsPerClient (rn_config r) end) (rn_clients r).

(** [Clients]. *)
Record ClientSnapshot : Type := mkClientSnapshot {
  csn_ClientID : Z;
  csn_NextSeq : Z;
  csn_Generated : Z;
  csn_Completed : Z;
  csn_OutstandingSeq : Z;
  csn_TimedOut : bool;
}.

Definition runner_Clients (r : Runner) : list ClientSnapshot :=
  (fun c => mkClientSnapshot (cl_id c) (cl_nextSeq c) (cl_generated c) (cl_completed c)
              (match cl_active c with Some op => lo_seq op | None => 0 end)
              (match cl_active c with Some op => lo_timedOut op | None => false end)) <$> rn_clients r.
