(* ===== verification/SimLoop.v ===== *)
(** The simulator (sim/sim.go, event.go, ready.go, rand.go and the host side of workload.go):
    the event queue, the handlers of its events, the faults, and the construction of a run.

    The state machines of the nodes are the Go interface as a type class ([SimEngine]): an
    engine has an environment that outlives a process (the node's file system) and a state
    machine that is opened in it.  A [*rand.Rand] is the sequence of its draws.  A line of
    the trace is the time, the format string and the integer arguments.  A nil pointer that
    the code would dereference is recorded as the error of the run. *)

From S2P Require Import Prelude Proto RaftLog RaftNode Storage Server Bytes WalRecords CrashStorage MapSM Checker CheckerFacts SimInvariant DiskLog SimFS Float64 FaultSchedule Heap Workload.

(** * Storages and state machines of the nodes *)

(** The storages a simulated node may have; the type assertions of the code are the cases. *)
Inductive simStorage : Type :=
  | StMem (m : MemStorage)
  | StCrash (cs : CrashStorage).

#[export] Instance simStorage_Storage : Storage simStorage := {|
  Save hs es st :=
    match st with
    | StMem m => let '(m', err) := Save hs es m in (StMem m', err)
    | StCrash cs => let '(cs', err) := Save hs es cs in (StCrash cs', err)
    end;
  getHardState st := match st with StMem m => getHardState m | StCrash cs => getHardState cs end;
  getEntries lo hi st := match st with StMem m => getEntries lo hi m | StCrash cs => getEntries lo hi cs end;
  FirstIndex st := match st with StMem m => FirstIndex m | StCrash cs => FirstIndex cs end;
  LastIndex st := match st with StMem m => LastIndex m | StCrash cs => LastIndex cs end;
|}.

(** The errors of a state machine: the crash of its file system, or another one. *)
Inductive engineError : Type :=
  | EngineCrash
  | EngineError (msg : error).

(** [statemachine.StateMachine] with the optional methods [Crash] and [BeginReplay], the
    factory that opens it, the arming of its file system's crash schedule, and the last
    event of that file system. *)
Class SimEngine (E M : Type) : Type := {
  eng_open : E -> E * (engineError + M);
  eng_apply : Entry -> E -> M -> E * M * (engineError + Result);
  eng_crash : option (E -> M -> E * M * option error);
  eng_replay : option (Z -> Z -> E -> M -> E * M * option error);
  eng_arm : list SimCrashDirective -> E -> E * option error;
  eng_lastEvent : E -> option FSEvent;
}.

(** * Virtual time and events *)

Definition defaultTickIntervalMS : Z := 50.
Definition defaultMinDelayMS : Z := 1.
Definition defaultMaxDelayMS : Z := 10.

(** [event.kind] with the fields that are read for it. *)
Inductive eventKind : Type :=
  | eventTick (node generation : Z)
  | eventMessage (msg : Message)
  | eventCrash (node : Z)
  | eventRestart (node : Z)
  | eventWorkload (payload : WEvent)
  | eventFault (fault : FaultEvent).

Record sevent : Type := mkSevent {
  se_time : Z;
  se_seq : Z;
  se_kind : eventKind;
}.

(** [eventQueue.Less]; the queue is container/heap's, whose [Push] and [Pop] sift as
    [heap_push] and [heap_pop] do. *)
Definition eventLess (a b : sevent) : bool :=
  if negb (se_time a =? se_time b) then se_time a <? se_time b else se_seq a <? se_seq b.

(** The draws of [Float64]. *)
Record FRand : Type := mkFRand {
  fr_fn : nat -> float64;
  fr_calls : nat;
}.

Definition drawFloat (r : FRand) : float64 * FRand := (fr_fn r (fr_calls r), mkFRand (fr_fn r) (S (fr_calls r))).

(** * State *)

Record SimConfig : Type := mkSimConfig {
  sc_Seed : Z;
  sc_Engine : string;
  sc_LSMFlushThreshold : Z;
  sc_NodeIDs : list Z;
  sc_ElectionTickMin : Z;
  sc_ElectionTickMax : Z;
  sc_HeartbeatTicks : Z;
  sc_TickIntervalMS : Z;
  sc_MinDelayMS : Z;
  sc_MaxDelayMS : Z;
}.

Record workloadApplyKey : Type := mkApplyKey {
  ak_node : Z;
  ak_index : Z;
}.

#[export] Instance workloadApplyKey_eq_dec : EqDecision workloadApplyKey.
Proof. solve_decision. Defined.
#[export] Program Instance workloadApplyKey_countable : Countable workloadApplyKey :=
  inj_countable' (fun k => (ak_node k, ak_index k)) (fun p => mkApplyKey p.1 p.2) _.
Next Obligation. by intros []. Qed.

Record pendingWorkloadAttempt : Type := mkPendingAttempt {
  pa_submission : Submission;
  pa_term : Z;
}.

Record simWorkload : Type := mkSimWorkload {
  sw_runner : Runner;
  sw_pending : gmap workloadApplyKey (list pendingWorkloadAttempt);
  sw_byAttempt : gmap AttemptID workloadApplyKey;
}.

Record CrashFiring : Type := mkCrashFiring {
  cf_Time : Z;
  cf_Node : Z;
  cf_Save : Z;
  cf_Point : Z;
}.

Section simulator.
Context {E M : Type} `{SimEngine E M}.
Context (marshal : Command -> result bytes).

(** [simNode]; the jitter stream that the node draws from is shared with the process, so
    [sn_rnd] is its state when no process runs. *)
Record simNode : Type := mkSimNode {
  sn_id : Z;
  sn_cfg : Config;
  sn_storage : simStorage;
  sn_rnd : Rand;
  sn_node : option Node;
  sn_halted : bool;
  sn_generation : Z;
  sn_paused : bool;
  sn_tickMultiplier : float64;
  sn_applied : list Entry;
  sn_results : list Result;
  sn_lastApplied : Z;
  sn_sm : option M;
  sn_env : E;
  sn_factory : bool;
}.

Record Simulator : Type := mkSimulator {
  s_now : Z;
  s_seq : Z;
  s_queue : list sevent;
  s_seed : Z;
  s_order : list Z;
  s_nodes : gmap Z simNode;
  s_partition : gset (Z * Z);
  s_delayRand : Rand;
  s_tickInterval : Z;
  s_minDelay : Z;
  s_maxDelay : Z;
  s_faultRand : FRand;
  s_dropRate : float64;
  s_dupRate : float64;
  s_restartAfterCrash : gmap crashDirectiveKey Z;
  s_lsmCrashDirectives : list LSMCrashDirective;
  s_lsmRestartOnCrash : gmap lsmCrashDirectiveKey bool;
  s_invariants : list (Sim -> option error);
  s_leaders : leaderTracker;
  s_trace : list (Z * string * list Z);
  s_crashFirings : list CrashFiring;
  s_workload : option simWorkload;
  s_runErr : option error;
}.

(** Field updates of a node. *)
Definition with_node (n : option Node) (sn : simNode) : simNode :=
  mkSimNode (sn_id sn) (sn_cfg sn) (sn_storage sn) (sn_rnd sn) n (sn_halted sn) (sn_generation sn) (sn_paused sn)
    (sn_tickMultiplier sn) (sn_applied sn) (sn_results sn) (sn_lastApplied sn) (sn_sm sn) (sn_env sn) (sn_factory sn).
Definition with_storage (st : simStorage) (sn : simNode) : simNode :=
  mkSimNode (sn_id sn) (sn_cfg sn) st (sn_rnd sn) (sn_node sn) (sn_halted sn) (sn_generation sn) (sn_paused sn)
    (sn_tickMultiplier sn) (sn_applied sn) (sn_results sn) (sn_lastApplied sn) (sn_sm sn) (sn_env sn) (sn_factory sn).
Definition with_sn_rnd (r : Rand) (sn : simNode) : simNode :=
  mkSimNode (sn_id sn) (sn_cfg sn) (sn_storage sn) r (sn_node sn) (sn_halted sn) (sn_generation sn) (sn_paused sn)
    (sn_tickMultiplier sn) (sn_applied sn) (sn_results sn) (sn_lastApplied sn) (sn_sm sn) (sn_env sn) (sn_factory sn).
Definition with_halted (h : bool) (sn : simNode) : simNode :=
  mkSimNode (sn_id sn) (sn_cfg sn) (sn_storage sn) (sn_rnd sn) (sn_node sn) h (sn_generation sn) (sn_paused sn)
    (sn_tickMultiplier sn) (sn_applied sn) (sn_results sn) (sn_lastApplied sn) (sn_sm sn) (sn_env sn) (sn_factory sn).
Definition with_paused (p : bool) (sn : simNode) : simNode :=
  mkSimNode (sn_id sn) (sn_cfg sn) (sn_storage sn) (sn_rnd sn) (sn_node sn) (sn_halted sn) (sn_generation sn) p
    (sn_tickMultiplier sn) (sn_applied sn) (sn_results sn) (sn_lastApplied sn) (sn_sm sn) (sn_env sn) (sn_factory sn).
Definition with_multiplier (m : float64) (sn : simNode) : simNode :=
  mkSimNode (sn_id sn) (sn_cfg sn) (sn_storage sn) (sn_rnd sn) (sn_node sn) (sn_halted sn) (sn_generation sn) (sn_paused sn)
    m (sn_applied sn) (sn_results sn) (sn_lastApplied sn) (sn_sm sn) (sn_env sn) (sn_factory sn).
Definition with_applied (es : list Entry) (rs : list Result) (last : Z) (sn : simNode) : simNode :=
  mkSimNode (sn_id sn) (sn_cfg sn) (sn_storage sn) (sn_rnd sn) (sn_node sn) (sn_halted sn) (sn_generation sn) (sn_paused sn)
    (sn_tickMultiplier sn) es rs last (sn_sm sn) (sn_env sn) (sn_factory sn).
Definition with_sm (sm : option M) (env : E) (sn : simNode) : simNode :=
  mkSimNode (sn_id sn) (sn_cfg sn) (sn_storage sn) (sn_rnd sn) (sn_node sn) (sn_halted sn) (sn_generation sn) (sn_paused sn)
    (sn_tickMultiplier sn) (sn_applied sn) (sn_results sn) (sn_lastApplied sn) sm env (sn_factory sn).

(** [invalidateTickStream]. *)
Definition invalidateTickStream (sn : simNode) : simNode :=
  mkSimNode (sn_id sn) (sn_cfg sn) (sn_storage sn) (sn_rnd sn) (sn_node sn) (sn_halted sn) (sn_generation sn +u 1) (sn_paused sn)
    (sn_tickMultiplier sn) (sn_applied sn) (sn_results sn) (sn_lastApplied sn) (sn_sm sn) (sn_env sn) (sn_factory sn).

(** Field updates of the simulator. *)
Definition set_time (t : Z) (s : Simulator) : Simulator :=
  mkSimulator t (s_seq s) (s_queue s) (s_seed s) (s_order s) (s_nodes s) (s_partition s) (s_delayRand s) (s_tickInterval s) (s_minDelay s)
    (s_maxDelay s) (s_faultRand s) (s_dropRate s) (s_dupRate s) (s_restartAfterCrash s) (s_lsmCrashDirectives s) (s_lsmRestartOnCrash s)
    (s_invariants s) (s_leaders s) (s_trace s) (s_crashFirings s) (s_workload s) (s_runErr s).
Definition set_queue (q : list sevent) (seq : Z) (s : Simulator) : Simulator :=
  mkSimulator (s_now s) seq q (s_seed s) (s_order s) (s_nodes s) (s_partition s) (s_delayRand s) (s_tickInterval s) (s_minDelay s)
    (s_maxDelay s) (s_faultRand s) (s_dropRate s) (s_dupRate s) (s_restartAfterCrash s) (s_lsmCrashDirectives s) (s_lsmRestartOnCrash s)
    (s_invariants s) (s_leaders s) (s_trace s) (s_crashFirings s) (s_workload s) (s_runErr s).
Definition set_nodes (nodes : gmap Z simNode) (s : Simulator) : Simulator :=
  mkSimulator (s_now s) (s_seq s) (s_queue s) (s_seed s) (s_order s) nodes (s_partition s) (s_delayRand s) (s_tickInterval s) (s_minDelay s)
    (s_maxDelay s) (s_faultRand s) (s_dropRate s) (s_dupRate s) (s_restartAfterCrash s) (s_lsmCrashDirectives s) (s_lsmRestartOnCrash s)
    (s_invariants s) (s_leaders s) (s_trace s) (s_crashFirings s) (s_workload s) (s_runErr s).
Definition set_partition (p : gset (Z * Z)) (s : Simulator) : Simulator :=
  mkSimulator (s_now s) (s_seq s) (s_queue s) (s_seed s) (s_order s) (s_nodes s) p (s_delayRand s) (s_tickInterval s) (s_minDelay s)
    (s_maxDelay s) (s_faultRand s) (s_dropRate s) (s_dupRate s) (s_restartAfterCrash s) (s_lsmCrashDirectives s) (s_lsmRestartOnCrash s)
    (s_invariants s) (s_leaders s) (s_trace s) (s_crashFirings s) (s_workload s) (s_runErr s).
Definition set_rands (d : Rand) (f : FRand) (s : Simulator) : Simulator :=
  mkSimulator (s_now s) (s_seq s) (s_queue s) (s_seed s) (s_order s) (s_nodes s) (s_partition s) d (s_tickInterval s) (s_minDelay s)
    (s_maxDelay s) f (s_dropRate s) (s_dupRate s) (s_restartAfterCrash s) (s_lsmCrashDirectives s) (s_lsmRestartOnCrash s)
    (s_invariants s) (s_leaders s) (s_trace s) (s_crashFirings s) (s_workload s) (s_runErr s).
Definition set_rates (drop dup : float64) (s : Simulator) : Simulator :=
  mkSimulator (s_now s) (s_seq s) (s_queue s) (s_seed s) (s_order s) (s_nodes s) (s_partition s) (s_delayRand s) (s_tickInterval s) (s_minDelay s)
    (s_maxDelay s) (s_faultRand s) drop dup (s_restartAfterCrash s) (s_lsmCrashDirectives s) (s_lsmRestartOnCrash s)
    (s_invariants s) (s_leaders s) (s_trace s) (s_crashFirings s) (s_workload s) (s_runErr s).
Definition set_restarts (r : gmap crashDirectiveKey Z) (ds : list LSMCrashDirective) (l : gmap lsmCrashDirectiveKey bool) (s : Simulator) : Simulator :=
  mkSimulator (s_now s) (s_seq s) (s_queue s) (s_seed s) (s_order s) (s_nodes s) (s_partition s) (s_delayRand s) (s_tickInterval s) (s_minDelay s)
    (s_maxDelay s) (s_faultRand s) (s_dropRate s) (s_dupRate s) r ds l
    (s_invariants s) (s_leaders s) (s_trace s) (s_crashFirings s) (s_workload s) (s_runErr s).
Definition set_invariants (invs : list (Sim -> option error)) (s : Simulator) : Simulator :=
  mkSimulator (s_now s) (s_seq s) (s_queue s) (s_seed s) (s_order s) (s_nodes s) (s_partition s) (s_delayRand s) (s_tickInterval s) (s_minDelay s)
    (s_maxDelay s) (s_faultRand s) (s_dropRate s) (s_dupRate s) (s_restartAfterCrash s) (s_lsmCrashDirectives s) (s_lsmRestartOnCrash s)
    invs (s_leaders s) (s_trace s) (s_crashFirings s) (s_workload s) (s_runErr s).
Definition set_leaders (l : leaderTracker) (s : Simulator) : Simulator :=
  mkSimulator (s_now s) (s_seq s) (s_queue s) (s_seed s) (s_order s) (s_nodes s) (s_partition s) (s_delayRand s) (s_tickInterval s) (s_minDelay s)
    (s_maxDelay s) (s_faultRand s) (s_dropRate s) (s_dupRate s) (s_restartAfterCrash s) (s_lsmCrashDirectives s) (s_lsmRestartOnCrash s)
    (s_invariants s) l (s_trace s) (s_crashFirings s) (s_workload s) (s_runErr s).
Definition set_log (trace : list (Z * string * list Z)) (firings : list CrashFiring) (s : Simulator) : Simulator :=
  mkSimulator (s_now s) (s_seq s) (s_queue s) (s_seed s) (s_order s) (s_nodes s) (s_partition s) (s_delayRand s) (s_tickInterval s) (s_minDelay s)
    (s_maxDelay s) (s_faultRand s) (s_dropRate s) (s_dupRate s) (s_restartAfterCrash s) (s_lsmCrashDirectives s) (s_lsmRestartOnCrash s)
    (s_invariants s) (s_leaders s) trace firings (s_workload s) (s_runErr s).
Definition set_workload (w : option simWorkload) (err : option error) (s : Simulator) : Simulator :=
  mkSimulator (s_now s) (s_seq s) (s_queue s) (s_seed s) (s_order s) (s_nodes s) (s_partition s) (s_delayRand s) (s_tickInterval s) (s_minDelay s)
    (s_maxDelay s) (s_faultRand s) (s_dropRate s) (s_dupRate s) (s_restartAfterCrash s) (s_lsmCrashDirectives s) (s_lsmRestartOnCrash s)
    (s_invariants s) (s_leaders s) (s_trace s) (s_crashFirings s) w err.

Definition upd_node (id : Z) (f : simNode -> simNode) (s : Simulator) : Simulator := set_nodes (alter f id (s_nodes s)) s.

Definition record (format : string) (args : list Z) (s : Simulator) : Simulator :=
  set_log (s_trace s ++ [(s_now s, format, args)]) (s_crashFirings s) s.

(** A nil pointer of the code. *)
Definition nilPointer (s : Simulator) : Simulator := set_workload (s_workload s) (Some "panic: nil pointer") s.

(** * Scheduling *)

Definition pushAt (at_ : Z) (kind : eventKind) (s : Simulator) : Simulator :=
  set_queue (heap_push eventLess (mkSevent at_ (s_seq s) kind) (s_queue s)) (s_seq s +u 1) s.

Definition scheduleTick (id at_ : Z) (s : Simulator) : Simulator :=
  match s_nodes s !! id with
  | None => nilPointer s
  | Some sn => pushAt at_ (eventTick id (sn_generation sn)) s
  end.

Definition tickIsStale (node generation : Z) (s : Simulator) : bool :=
  match s_nodes s !! node with None => true | Some sn => negb (generation =? sn_generation sn) end.

(** A span that is not positive is a panic of the random source, whose draws of it are left
    open. *)
Definition enqueueMessage (m : Message) (s : Simulator) : Simulator :=
  let span := i64 (s_maxDelay s - s_minDelay s + 1) in
  let '(draw, r) := IntN (s_delayRand s) span in
  let delay := s_minDelay s +i draw in
  pushAt (s_now s +i delay) (eventMessage m) (set_rands r (s_faultRand s) s).

(** The draw of a fault with the given rate; no draw is made when the rate is not positive. *)
Definition drawFault (rate : float64) (s : Simulator) : bool * Simulator :=
  if f64_ltb f64_zero rate then
    let '(x, r) := drawFloat (s_faultRand s) in (f64_ltb x rate, set_rands (s_delayRand s) r s)
  else (false, s).

Definition scheduleMessage (m : Message) (s : Simulator) : Simulator :=
  let '(dropped, s1) := drawFault (s_dropRate s) s in
  if dropped then record "msg %d->%d drop(fault)" [From m; To m] s1
  else
    let s2 := enqueueMessage m s1 in
    let '(duplicated, s3) := drawFault (s_dupRate s2) s2 in
    if duplicated then enqueueMessage m (record "msg %d->%d duplicate(fault)" [From m; To m] s3) else s3.

(** [nextTickDelay]. *)
Definition nextTickDelay (sn : simNode) (s : Simulator) : Z :=
  let mult := if f64_eqb (sn_tickMultiplier sn) f64_zero then f64_of_int 1 else sn_tickMultiplier sn in
  let scaled := f64_roundToInt (f64_div (f64_of_int (s_tickInterval s)) mult) in
  if scaled <? 1 then 1 else scaled.

(** * Partitions, pauses and skew *)

Definition Partition (from to : Z) (s : Simulator) : Simulator := set_partition ({[ (from, to) ]} ∪ s_partition s) s.
Definition Heal (from to : Z) (s : Simulator) : Simulator := set_partition (s_partition s ∖ {[ (from, to) ]}) s.
Definition blocked (from to : Z) (s : Simulator) : bool := bool_decide ((from, to) ∈ s_partition s).

(** The four nested loops over the pairs of two different groups. *)
Fixpoint overGroups (both : Z -> Z -> Simulator -> Simulator) (groups : list (list Z)) (s : Simulator) : Simulator :=
  match groups with
  | [] => s
  | lgroup :: groups' =>
      overGroups both groups'
        (foldl (fun s rgroup => foldl (fun s from => foldl (fun s to => both from to s) s rgroup) s lgroup) s groups')
  end.

Definition PartitionGroups (groups : list (list Z)) : Simulator -> Simulator :=
  overGroups (fun from to s => Partition to from (Partition from to s)) groups.
Definition HealGroups (groups : list (list Z)) : Simulator -> Simulator :=
  overGroups (fun from to s => Heal to from (Heal from to s)) groups.

Definition Pause (id : Z) (s : Simulator) : Simulator :=
  match s_nodes s !! id with None => s | Some _ => record "pause node=%d" [id] (upd_node id (with_paused true) s) end.
Definition Resume (id : Z) (s : Simulator) : Simulator :=
  match s_nodes s !! id with None => s | Some _ => record "resume node=%d" [id] (upd_node id (with_paused false) s) end.

Definition SetClockSkew (id : Z) (multiplier : float64) (s : Simulator) : Simulator * option error :=
  if f64_isNaN multiplier || f64_isInf multiplier then (s, Some "sim: clock skew multiplier is not finite")
  else if f64_ltb multiplier minClockMultiplier || f64_ltb maxClockMultiplier multiplier
  then (s, Some "sim: clock skew multiplier outside bounds")
  else match s_nodes s !! id with
       | None => (s, None)
       | Some _ => (record "clockskew node=%d multiplier=%v" [id] (upd_node id (with_multiplier multiplier) s), None)
       end.

(** [ScheduleCrash] and [ScheduleRestart]. *)
Definition ScheduleCrash (id at_ : Z) : Simulator -> Simulator := pushAt at_ (eventCrash id).
Definition ScheduleRestart (id at_ : Z) : Simulator -> Simulator := pushAt at_ (eventRestart id).

(** * Processes *)

(** The state of the shared jitter stream. *)
Definition jitter (sn : simNode) : Rand :=
  match sn_node sn with Some n => default (sn_rnd sn) (rnd n) | None => sn_rnd sn end.

Definition markProcessCrashed (id : Z) (s : Simulator) : Simulator :=
  match s_nodes s !! id with
  | None => nilPointer s
  | Some sn =>
      let '(env, s1) :=
        match sn_sm sn, eng_crash with
        | Some m, Some crash =>
            let '(env', _, err) := crash (sn_env sn) m in
            (env', match err with Some _ => record "crash node=%d state_machine_error=%v" [id] s | None => s end)
        | _, _ => (sn_env sn, s)
        end in
      upd_node id (fun sn => with_paused false (invalidateTickStream (with_halted false (with_node None
                               (with_sn_rnd (jitter sn) (with_sm None env sn)))))) s1
  end.

Definition markHalted (sn : simNode) : simNode := with_halted true (if negb (sn_halted sn) then invalidateTickStream sn else sn).

Definition markProcessHalted (id : Z) : Simulator -> Simulator := upd_node id markHalted.

Definition replaceProcess (id : Z) (node : Node) : Simulator -> Simulator :=
  upd_node id (fun sn => with_halted false (with_node (Some node) (invalidateTickStream sn))).

(** * Crash policies *)

Definition recordCrashFiring (id : Z) (info : CrashInfo) (s : Simulator) : Simulator :=
  set_log (s_trace s) (s_crashFirings s ++ [mkCrashFiring (s_now s) id (ci_Save info) (ci_Point info)]) s.

Definition scheduleRestartAfterStorageCrash (id : Z) (info : CrashInfo) (s : Simulator) : Simulator :=
  let key : crashDirectiveKey := (id, ci_Save info) in
  match s_restartAfterCrash s !! key with
  | None => s
  | Some point =>
      if negb (point =? ci_Point info) then s
      else
        record "node=%d restart_after_crash save=%d scheduled" [id; ci_Save info]
          (pushAt (s_now s) (eventRestart id)
             (set_restarts (delete key (s_restartAfterCrash s)) (s_lsmCrashDirectives s) (s_lsmRestartOnCrash s) s))
  end.

Definition firedLSMCrashKey (id : Z) (s : Simulator) : option lsmCrashDirectiveKey :=
  match s_nodes s !! id with
  | None => None
  | Some sn =>
      match eng_lastEvent (sn_env sn) with
      | None => None
      | Some e =>
          let point := if fe_Completed e then SimAfterOperation else SimBeforeOperation in
          let key : lsmCrashDirectiveKey := (id, fe_Op e, fe_Occurrence e, point) in
          match s_lsmRestartOnCrash s !! key with Some _ => Some key | None => None end
      end
  end.

Definition scheduleRestartAfterLSMCrash (id : Z) (s : Simulator) : Simulator :=
  match firedLSMCrashKey id s with
  | None => s
  | Some key =>
      match s_lsmRestartOnCrash s !! key with
      | None => s
      | Some restart =>
          let s1 := set_restarts (s_restartAfterCrash s) (s_lsmCrashDirectives s) (delete key (s_lsmRestartOnCrash s)) s in
          if negb restart then s1
          else record "node=%d lsm_restart_after_crash scheduled" [id] (pushAt (s_now s1) (eventRestart id) s1)
      end
  end.

Definition handleLSMProcessCrash (id : Z) (format : string) (args : list Z) (s : Simulator) : Simulator :=
  scheduleRestartAfterLSMCrash id (record format args (markProcessCrashed id s)).

(** * The Ready path *)

Definition simObserveLeader (m : Message) (s : Simulator) : Simulator := set_leaders (observeLeader m (s_leaders s)) s.

(** [observeWorkloadApply]. *)
Definition observeWorkloadApply (node : Z) (entry : Entry) (res : Result) (s : Simulator) : Simulator :=
  match s_workload s with
  | None => s
  | Some w =>
      let key := mkApplyKey node (Index entry) in
      let pending := default [] (sw_pending w !! key) in
      if Nat.eqb (length pending) 0 then s
      else
        let s1 := set_workload (Some (mkSimWorkload (sw_runner w) (delete key (sw_pending w)) (sw_byAttempt w))) (s_runErr s) s in
        foldl (fun s (p : pendingWorkloadAttempt) =>
          let attempt := sb_AttemptID (pa_submission p) in
          let s2 := match s_workload s with
                    | None => s
                    | Some w => set_workload (Some (mkSimWorkload (sw_runner w) (sw_pending w) (delete attempt (sw_byAttempt w)))) (s_runErr s) s
                    end in
          let '(kind, output) := if Term entry =? pa_term p then (EventApplied, successfulWorkloadOutput res)
                                 else (EventLeadershipLost, noOutput) in
          pushAt (s_now s2) (eventWorkload (mkWEvent kind attempt 0 output)) s2) s1 pending
  end.

(** One committed entry; [false] when the process stopped. *)
Definition applyOne (id : Z) (entry : Entry) (s : Simulator) : Simulator * bool :=
  match s_nodes s !! id with
  | None => (nilPointer s, false)
  | Some sn =>
      let '(s1, r) :=
        match sn_sm sn with
        | None => (s, inr (mkResult [] false))
        | Some m =>
            let '(env', m', r) := eng_apply entry (sn_env sn) m in
            (upd_node id (with_sm (Some m') env') s, r)
        end in
      match r with
      | inl EngineCrash => (handleLSMProcessCrash id "node=%d lsm_apply_crash index=%d %v" [id; Index entry] s1, false)
      | inl (EngineError _) => (record "node=%d apply_error index=%d %v fail-stop" [id; Index entry] (markProcessHalted id s1), false)
      | inr res =>
          (upd_node id (fun sn => with_applied (sn_applied sn ++ [mkEntry (Index entry) (Term entry) (Type_ entry) (cloneBytes (Data entry))])
                                    (sn_results sn ++ [mkResult (cloneBytes (res_Value res)) (res_Found res)]) (Index entry) sn)
             (observeWorkloadApply id entry res s1), true)
      end
  end.

Fixpoint applyCommittedEntries (id : Z) (es : list Entry) (s : Simulator) : Simulator * bool :=
  match es with
  | [] => (s, true)
  | e :: es' => match applyOne id e s with
                | (s', true) => applyCommittedEntries id es' s'
                | (s', false) => (s', false)
                end
  end.

(** The information of the last crash of a node's storage. *)
Definition crashInfoOf (st : simStorage) : CrashInfo :=
  match st with StCrash cs => lastCrash cs | StMem _ => mkCrashInfo 0 0 0 0 end.

Definition storageCrashed (id : Z) (format : string) (args : list Z) (info : CrashInfo) (s : Simulator) : Simulator :=
  scheduleRestartAfterStorageCrash id info (recordCrashFiring id info (record format args (markProcessCrashed id s))).

Definition sim_processReady (id : Z) (rd : Ready) (s : Simulator) : Simulator :=
  match s_nodes s !! id with
  | None => nilPointer s
  | Some sn =>
      let '(st, saveErr) := Save (r_HardState rd) (r_Entries rd) (sn_storage sn) in
      let s1 := upd_node id (with_storage st) s in
      match saveErr with
      | Some e =>
          if bool_decide (e = ErrCrashed) then storageCrashed id "node=%d save_crash %v" [id] (crashInfoOf st) s1
          else record "node=%d save_error %v fail-stop" [id] (markProcessHalted id s1)
      | None =>
          let s2 := foldl (fun s m => scheduleMessage m (simObserveLeader m s)) s1 (r_Messages rd) in
          let '(st2, fired) := match st with
                               | StCrash cs => let '(cs', f) := CrashIfArmed cs in (StCrash cs', f)
                               | StMem m => (StMem m, false)
                               end in
          let s3 := upd_node id (with_storage st2) s2 in
          if fired then storageCrashed id "node=%d after_send_crash save=%d" [id; ci_Save (crashInfoOf st2)] (crashInfoOf st2) s3
          else
            match applyCommittedEntries id (r_CommittedEntries rd) s3 with
            | (s4, false) => s4
            | (s4, true) =>
                record "node=%d ready hardstate=%v msgs=%d committed=%d"
                  [id; Z.b2z (bool_decide (is_Some (r_HardState rd))); Z.of_nat (length (r_Messages rd)); Z.of_nat (length (r_CommittedEntries rd))]
                  (upd_node id (fun sn => with_node (Advance <$> sn_node sn) sn) s4)
            end
      end
  end.

(** The node's part of an input, its [Ready] and the Ready path. *)
Definition runReady (id : Z) (s : Simulator) : Simulator :=
  match s_nodes s !! id ≫= sn_node with
  | None => nilPointer s
  | Some n => let '(rd, n') := NodeReady n in sim_processReady id rd (upd_node id (with_node (Some n')) s)
  end.

(** * Handlers *)

Definition handleTick (id : Z) (s : Simulator) : Simulator :=
  match s_nodes s !! id with
  | None => nilPointer s
  | Some sn =>
      match sn_node sn with
      | None => record "tick node=%d skip(down)" [id] s
      | Some n =>
          if sn_halted sn then record "tick node=%d skip(down)" [id] s
          else if sn_paused sn then
            scheduleTick id (s_now s +i nextTickDelay sn s) (record "tick node=%d skip(paused)" [id] s)
          else
            let s1 := runReady id (record "tick node=%d" [id] (upd_node id (with_node (Some (Tick n))) s)) in
            match s_nodes s1 !! id with
            | None => s1
            | Some sn1 =>
                if bool_decide (is_Some (sn_node sn1)) && negb (sn_halted sn1)
                then scheduleTick id (s_now s1 +i nextTickDelay sn1 s1) s1 else s1
            end
      end
  end.

Definition handleMessage (m : Message) (s : Simulator) : Simulator :=
  let from := From m in
  let to := To m in
  if blocked from to s then record "msg %d->%d drop(partition)" [from; to] s
  else match s_nodes s !! to with
       | None => record "msg %d->%d drop(unreachable)" [from; to] s
       | Some sn =>
           match sn_node sn with
           | None => record "msg %d->%d drop(unreachable)" [from; to] s
           | Some n =>
               if sn_halted sn then record "msg %d->%d drop(unreachable)" [from; to] s
               else if sn_paused sn then record "msg %d->%d drop(paused)" [from; to] s
               else runReady to (record "msg %d->%d deliver" [from; to] (upd_node to (with_node (Some (Step (Some m) n))) s))
           end
       end.

Definition handleCrash (id : Z) (s : Simulator) : Simulator :=
  match s_nodes s !! id with
  | None => nilPointer s
  | Some sn =>
      let s1 := match sn_storage sn with
                | StCrash cs =>
                    if crashed cs then s
                    else let '(cs', err) := cs_Crash cs in
                         let s' := upd_node id (with_storage (StCrash cs')) s in
                         match err with Some _ => record "crash node=%d storage_error=%v" [id] s' | None => s' end
                | StMem _ => s
                end in
      record "crash node=%d" [id] (markProcessCrashed id s1)
  end.

(** [recoveredInitialState]. *)
Definition recoveredInitialState (st : simStorage) : result InitialState :=
  match getHardState st with
  | Err e => Err e
  | Ok hard =>
      let first := FirstIndex st in
      let last := LastIndex st in
      if first <=? last then
        if last =? max_u64 then Err "sim: last index overflows half-open range"
        else match getEntries first (last +u 1) st with
             | Err e => Err e
             | Ok es => Ok (mkInitialState hard es (mkSnapshotMeta 0 0))
             end
      else Ok (mkInitialState hard [] (mkSnapshotMeta 0 0))
  end.

(** The storage's part of a restart. *)
Definition recoverStorage (st : simStorage) : simStorage * option error :=
  match st with
  | StCrash cs => if crashed cs then let '(cs', err) := Recover cs in (StCrash cs', err) else (st, None)
  | StMem _ => (st, None)
  end.

(** The part of [handleRestart] that opens the state machine of the new process; [false]
    when the process stopped. *)
Definition restartStateMachine (id : Z) (s : Simulator) : Simulator * bool :=
  match s_nodes s !! id with
  | None => (nilPointer s, false)
  | Some sn =>
      if negb (sn_factory sn) then (s, true)
      else
        let '(env, r) := eng_open (sn_env sn) in
        let s1 := upd_node id (with_sm (sn_sm sn) env) s in
        match r with
        | inl EngineCrash => (handleLSMProcessCrash id "node=%d lsm_reopen_crash %v" [id] s1, false)
        | inl (EngineError _) => (record "restart node=%d state_machine_error=%v fail-stop" [id] (markProcessHalted id s1), false)
        | inr m =>
            let '(env1, m1, err) :=
              match eng_replay with
              | Some replay => replay (FirstIndex (sn_storage sn)) (LastIndex (sn_storage sn)) env m
              | None => (env, m, None)
              end in
            match err with
            | Some _ =>
                (record "restart node=%d replay_lifecycle_error=%v fail-stop" [id]
                   (markProcessHalted id (upd_node id (with_sm (sn_sm sn) env1) s1)), false)
            | None => (upd_node id (fun sn => with_applied [] [] 0 (with_sm (Some m1) env1 sn)) s1, true)
            end
        end
  end.

Definition handleRestart (id : Z) (s : Simulator) : Simulator :=
  match s_nodes s !! id with
  | None => nilPointer s
  | Some sn =>
      if bool_decide (is_Some (sn_node sn)) && negb (sn_halted sn) then record "restart node=%d skip(live)" [id] s
      else
        let '(st, err) := recoverStorage (sn_storage sn) in
        let s1 := upd_node id (with_storage st) s in
        match err with
        | Some _ => record "restart node=%d recovery_error=%v fail-stop" [id] (markProcessHalted id s1)
        | None =>
            match recoveredInitialState st with
            | Err _ => record "restart node=%d recovery_error=%v fail-stop" [id] (markProcessHalted id s1)
            | Ok init =>
                let s2 := replaceProcess id (NewNode (sn_cfg sn) init (Some (jitter sn))) s1 in
                match restartStateMachine id s2 with
                | (s3, false) => s3
                | (s3, true) =>
                    match s_nodes s3 !! id with
                    | None => nilPointer s3
                    | Some sn3 =>
                        let s4 := record "restart node=%d" [id] s3 in
                        scheduleTick id (s_now s4 +i nextTickDelay sn3 s4) s4
                    end
                end
            end
        end
  end.

Definition applyFault (f : FaultEvent) (s : Simulator) : Simulator :=
  match fv_Kind f with
  | FaultDropRate => record "fault droprate=%v" [] (set_rates (fv_Rate f) (s_dupRate s) s)
  | FaultDuplicateRate => record "fault duprate=%v" [] (set_rates (s_dropRate s) (fv_Rate f) s)
  | FaultPartition => record "fault partition %d->%d" [fv_From f; fv_To f] (Partition (fv_From f) (fv_To f) s)
  | FaultHeal => record "fault heal %d->%d" [fv_From f; fv_To f] (Heal (fv_From f) (fv_To f) s)
  | FaultPartitionGroups => record "fault partition_groups groups=%v" (concat (fv_Groups f)) (PartitionGroups (fv_Groups f) s)
  | FaultHealGroups => record "fault heal_groups groups=%v" (concat (fv_Groups f)) (HealGroups (fv_Groups f) s)
  | FaultPause => Pause (fv_Node f) s
  | FaultResume => Resume (fv_Node f) s
  | FaultClockSkew =>
      match SetClockSkew (fv_Node f) (fv_Multiplier f) s with
      | (s', Some _) => record "fault clockskew node=%d error=%v" [fv_Node f] s'
      | (s', None) => s'
      end
  | FaultCrash => match s_nodes s !! fv_Node f with Some _ => handleCrash (fv_Node f) s | None => s end
  | FaultRestart => match s_nodes s !! fv_Node f with Some _ => handleRestart (fv_Node f) s | None => s end
  | faultKindUnspecified | FaultUnknown _ => s
  end.

(** [propose]; [onProposed] is called after the position is assigned and before the Ready
    path. *)
Definition sim_propose (id : Z) (data : bytes) (onProposed : option (Z -> Z -> Simulator -> Simulator)) (s : Simulator)
    : Simulator * (Z * Z * bool) :=
  let unavailable := (record "propose node=%d reject(unavailable)" [id] s, (0, 0, false)) in
  match s_nodes s !! id with
  | None => unavailable
  | Some sn =>
      match sn_node sn with
      | None => unavailable
      | Some n =>
          if sn_halted sn || sn_paused sn then unavailable
          else
            let '(n', (index, term, isLeader)) := Propose data n in
            let s1 := record "propose node=%d index=%d term=%d leader=%t" [id; index; term; Z.b2z isLeader]
                        (upd_node id (with_node (Some n')) s) in
            let s2 := match onProposed with
                      | Some f => if isLeader : bool then f index term s1 else s1
                      | None => s1
                      end in
            (runReady id s2, (index, term, isLeader))
      end
  end.

Definition sim_Propose (id : Z) (data : bytes) : Simulator -> Simulator * (Z * Z * bool) := sim_propose id data None.

(** * The workload's host *)

Definition registerWorkloadAttempt (node index term : Z) (submission : Submission) (s : Simulator) : Simulator :=
  match s_workload s with
  | None => nilPointer s
  | Some w =>
      let key := mkApplyKey node index in
      let attempt := sb_AttemptID submission in
      let w' := mkSimWorkload (sw_runner w)
                  (<[key := default [] (sw_pending w !! key) ++ [mkPendingAttempt submission term]]> (sw_pending w))
                  (<[attempt := key]> (sw_byAttempt w)) in
      record "workload client=%d seq=%d attempt=%d wait=(%d,%d,%d)"
        [ai_ClientID attempt; ai_Seq attempt; ai_Attempt attempt; node; index; term] (set_workload (Some w') (s_runErr s) s)
  end.

Definition cancelWorkloadAttempt (attempt : AttemptID) (s : Simulator) : Simulator :=
  match s_workload s with
  | None => nilPointer s
  | Some w =>
      match sw_byAttempt w !! attempt with
      | None => s
      | Some key =>
          let pending := default [] (sw_pending w !! key) in
          let kept := filter (fun p => sb_AttemptID (pa_submission p) <> attempt) pending in
          let w' := mkSimWorkload (sw_runner w)
                      (if Nat.eqb (length kept) 0 then delete key (sw_pending w) else <[key := kept]> (sw_pending w))
                      (delete attempt (sw_byAttempt w)) in
          record "workload client=%d seq=%d attempt=%d cancel(timeout)" [ai_ClientID attempt; ai_Seq attempt; ai_Attempt attempt]
            (set_workload (Some w') (s_runErr s) s)
      end
  end.

Definition host_Submit (submission : Submission) (s : Simulator) : Simulator * result SubmitStatus :=
  match marshal (sb_Command submission) with
  | Err e => (s, Err ("sim: marshal workload command: " +:+ e))
  | Ok data =>
      let target := sb_Target submission in
      let attempt := sb_AttemptID submission in
      let '(s1, (_, _, isLeader)) :=
        sim_propose target data (Some (fun index term => registerWorkloadAttempt target index term submission)) s in
      let args := [ai_ClientID attempt; ai_Seq attempt; ai_Attempt attempt; target] in
      if negb isLeader then (record "workload client=%d seq=%d attempt=%d target=%d not_leader" args s1, Ok SubmitNotLeader)
      else (record "workload client=%d seq=%d attempt=%d target=%d accepted" args s1, Ok SubmitAccepted)
  end.

#[export] Instance simulator_WorkloadHost : WorkloadHost Simulator := {|
  wh_Now := s_now;
  wh_Schedule at_ event := pushAt at_ (eventWorkload event);
  wh_Submit := host_Submit;
  wh_Cancel := cancelWorkloadAttempt;
|}.

(** The runner is an object that the host does not touch: it is taken out of the state, and
    put back when it returns. *)
Definition set_runner (r : Runner) (err : option error) (s : Simulator) : Simulator :=
  match s_workload s with
  | None => s
  | Some w => set_workload (Some (mkSimWorkload r (sw_pending w) (sw_byAttempt w))) err s
  end.

Definition handleWorkloadEvent (payload : WEvent) (s : Simulator) : Simulator :=
  match s_workload s, s_runErr s with
  | Some w, None =>
      match runner_Handle payload (sw_runner w) s with
      | (r, s1, None) => set_runner r (s_runErr s1) s1
      | (r, s1, Some e) => record "workload error=%v" [] (set_runner r (Some ("sim: workload event: " +:+ e)) s1)
      end
  | _, _ => s
  end.

Definition ScheduleWorkloadRetry (clientID at_ : Z) (s : Simulator) : Simulator * option error :=
  match s_workload s with
  | None => (s, Some "sim: workload is not started")
  | Some w =>
      if at_ <? s_now s then (s, Some "sim: workload retry time precedes now")
      else match RetryEvent clientID (sw_runner w) with
           | Err e => (s, Some e)
           | Ok event => (pushAt at_ (eventWorkload event) s, None)
           end
  end.

(** * The loop *)

Definition handleEvent (ev : sevent) (s : Simulator) : Simulator :=
  match se_kind ev with
  | eventTick node generation =>
      if tickIsStale node generation s then
        match s_nodes s !! node with
        | None => nilPointer s
        | Some sn => record "tick node=%d skip(stale gen=%d current=%d)" [node; generation; sn_generation sn] s
        end
      else handleTick node s
  | eventMessage m => handleMessage m s
  | eventCrash node => handleCrash node s
  | eventRestart node => handleRestart node s
  | eventWorkload payload => handleWorkloadEvent payload s
  | eventFault fault => applyFault fault s
  end.

(** What the invariant checks read. *)
Definition sim_view (s : Simulator) : Sim :=
  mkSim (s_order s) (s_leaders s)
    (fun id => match s_nodes s !! id with None => [] | Some sn => storedLog (sn_storage sn) end)
    (fun id => match s_nodes s !! id with None => 0 | Some sn => sn_lastApplied sn end).

(** What scenarios inspect. *)
Definition HighestTerm (s : Simulator) : Z :=
  foldl (fun highest id =>
    match s_nodes s !! id with
    | None => highest
    | Some sn => match getHardState (sn_storage sn) with
                 | Ok hs => if highest <? hs_Term hs then hs_Term hs else highest
                 | Err _ => highest
                 end
    end) 0 (s_order s).

Definition Leaderships (s : Simulator) : gmap Z (list Z) := (fun set => sort_by Z.leb (elements set)) <$> s_leaders s.

Definition AppliedEntries (id : Z) (s : Simulator) : list Entry :=
  match s_nodes s !! id with None => [] | Some sn => cloneEntries (sn_applied sn) end.

Definition LastApplied (id : Z) (s : Simulator) : Z := match s_nodes s !! id with None => 0 | Some sn => sn_lastApplied sn end.

Definition RegisterInvariant (inv : Sim -> option error) (s : Simulator) : Simulator := set_invariants (s_invariants s ++ [inv]) s.

(** One turn of the loop of [Run]: the next event is handled and the checks are run. *)
Definition runEvent (ev : sevent) (queue : list sevent) (s : Simulator) : Simulator * option error :=
  let s1 := handleEvent ev (set_time (se_time ev) (set_queue queue (s_seq s) s)) in
  match s_runErr s1 with
  | Some e => (s1, Some e)
  | None => (s1, firstError (fun inv => inv (sim_view s1)) (s_invariants s1))
  end.

(** [Run]; [None] when the number of events was not enough. *)
Fixpoint sim_Run (fuel : nat) (until : Z) (s : Simulator) : option (Simulator * option error) :=
  match s_queue s with
  | [] => Some (s, None)
  | ev0 :: _ =>
      if until <? se_time ev0 then Some (s, None)
      else match heap_pop eventLess (s_queue s) with
           | None => Some (s, None)
           | Some (ev, queue) =>
               match fuel with
               | O => None
               | S fuel' =>
                   match runEvent ev queue s with
                   | (s1, Some e) => Some (s1, Some e)
                   | (s1, None) => sim_Run fuel' until s1
                   end
               end
           end
  end.
End simulator.

Arguments simNode : clear implicits.
Arguments Simulator : clear implicits.
