(* ===== verification/SimBuild.v ===== *)
(** The construction of a simulated run (newSim, NewSim, NewFaultSim of sim/sim.go,
    newRandStreams of rand.go, StartWorkload of workload.go and RunSeeds of seedrunner.go),
    and the map state machine as an engine.

    [newRand] and [newFloats] are the draws of a seeded [*rand.Rand]; [newEnv] is the fresh
    environment of a node's state machine. *)

From S2P Require Import Prelude Proto RaftLog RaftNode Storage Server Bytes WalRecords CrashStorage MapSM Checker CheckerFacts SimInvariant DiskLog SimFS Float64 FaultSchedule Heap Workload SimLoop.

(** * The map state machine as an engine *)

Section map_engine.
Context (unmarshal : bytes -> option Command).

(** It is created empty, has no [Crash] and no [BeginReplay], and no file system. *)
Definition map_engine : SimEngine unit MapSM := {|
  eng_open env := (env, inr NewMapSM);
  eng_apply e env m := let '(m', r) := sm_Apply unmarshal (Some e) m in
                       (env, m', match r with Ok res => inr res | Err msg => inl (EngineError msg) end);
  eng_crash := None;
  eng_replay := None;
  eng_arm _ env := (env, None);
  eng_lastEvent _ := None;
|}.
End map_engine.

(** * Random streams *)

Section streams.
Context (newRand : Z -> Rand) (newFloats : Z -> nat -> float64).

(** [src.Int63()]. *)
Definition Int63 (src : Rand) : Z * Rand := IntN src 9223372036854775808.

Fixpoint nodeStreams (order : list Z) (src : Rand) (streams : gmap Z Rand) : Rand * gmap Z Rand :=
  match order with
  | [] => (src, streams)
  | id :: order' => let '(seed, src') := Int63 src in nodeStreams order' src' (<[id := newRand seed]> streams)
  end.

Definition newRandStreams (seed : Z) (order : list Z) : Rand * gmap Z Rand * FRand :=
  let src := newRand seed in
  let '(delaySeed, src1) := Int63 src in
  let '(src2, perNode) := nodeStreams order src1 ∅ in
  let '(faultSeed, _) := Int63 src2 in
  (newRand delaySeed, perNode, mkFRand (newFloats faultSeed) 0).

(** [lsmRandSeed]. *)
Definition lsmRandSeed (seed id : Z) : Z :=
  let m0 := Z.lxor (u64 seed) (u64_mul id 11400714819323198485) in
  let m1 := Z.lxor m0 (Z.shiftr m0 30) in
  let m2 := u64_mul m1 13787848793156543929 in
  let m3 := Z.lxor m2 (Z.shiftr m2 27) in
  let m4 := u64_mul m3 10723151780598845931 in
  i64 (Z.lxor m4 (Z.shiftr m4 31)).
End streams.

(** * Construction *)

Section build.
Context {E M : Type} {engine : SimEngine E M}.
Context (newRand : Z -> Rand) (newFloats : Z -> nat -> float64) (newEnv : Z -> E) (marshal : Command -> result bytes).

Notation simulator := (Simulator E M).

Definition engineOf (cfg : SimConfig) : string := if bool_decide (sc_Engine cfg = "") then "map" else sc_Engine cfg.

(** The checks of [newSim]. *)
Definition checkConfig (cfg : SimConfig) : option error :=
  if Nat.eqb (length (sc_NodeIDs cfg)) 0 then Some "sim: Config.NodeIDs must not be empty"
  else if negb (bool_decide (engineOf cfg = "map")) && negb (bool_decide (engineOf cfg = "lsm")) then Some "sim: unsupported engine"
  else if sc_LSMFlushThreshold cfg <? 0 then Some "sim: negative LSM flush threshold"
  else if bool_decide (engineOf cfg = "map") && negb (sc_LSMFlushThreshold cfg =? 0) then Some "sim: LSM flush threshold requires engine lsm"
  else if negb (bool_decide (NoDup (sc_NodeIDs cfg))) then Some "sim: duplicate NodeID"
  else None.

Definition delays (cfg : SimConfig) : Z * Z :=
  if (sc_MinDelayMS cfg =? 0) && (sc_MaxDelayMS cfg =? 0) then (defaultMinDelayMS, defaultMaxDelayMS)
  else (sc_MinDelayMS cfg, sc_MaxDelayMS cfg).

(** [raft.Config] of a node. *)
Definition nodeConfig (cfg : SimConfig) (id : Z) : Config :=
  mkConfig id (sc_NodeIDs cfg) (sc_ElectionTickMin cfg) (sc_ElectionTickMax cfg) (sc_HeartbeatTicks cfg).

Definition emptyInitialState : InitialState := mkInitialState (mkHardState 0 0) [] (mkSnapshotMeta 0 0).

Definition newStore (crashes : list CrashDirective) (crashStorage : bool) (id : Z) : result simStorage :=
  if crashStorage then match NewCrashStorage id crashes with Ok cs => Ok (StCrash cs) | Err e => Err e end
  else Ok (StMem NewMemStorage).

Fixpoint newNodes (cfg : SimConfig) (crashes : list CrashDirective) (crashStorage : bool) (perNode : gmap Z Rand) (order : list Z)
    (nodes : gmap Z (simNode E M)) : result (gmap Z (simNode E M)) :=
  match order with
  | [] => Ok nodes
  | id :: order' =>
      match newStore crashes crashStorage id with
      | Err e => Err e
      | Ok store =>
          let rc := nodeConfig cfg id in
          let r := default (newRand 0) (perNode !! id) in
          let sn := mkSimNode id rc store r (Some (NewNode rc emptyInitialState (Some r))) false 0 false f64_zero [] [] 0 None (newEnv id) false in
          newNodes cfg crashes crashStorage perNode order' (<[id := sn]> nodes)
      end
  end.

Definition newSim (cfg : SimConfig) (schedule : FaultSchedule) (crashStorage : bool) : result simulator :=
  match checkConfig cfg with
  | Some e => Err e
  | None =>
      let tickInterval := if sc_TickIntervalMS cfg =? 0 then defaultTickIntervalMS else sc_TickIntervalMS cfg in
      let '(minDelay, maxDelay) := delays cfg in
      if maxDelay <? minDelay then Err "sim: MaxDelayMS < MinDelayMS"
      else
        let order := sc_NodeIDs cfg in
        let '(delayRand, perNode, faultRand) := newRandStreams newRand newFloats (sc_Seed cfg) order in
        match newNodes cfg (fs_Crashes schedule) crashStorage perNode order ∅ with
        | Err e => Err e
        | Ok nodes =>
            let s := mkSimulator 0 0 [] (sc_Seed cfg) order nodes ∅ delayRand tickInterval minDelay maxDelay faultRand f64_zero f64_zero
                       ∅ [] ∅ [LogMatching] newLeaderTracker [] [] None None in
            Ok (foldl (fun s id => scheduleTick id tickInterval s) s order)
        end
  end.

Definition emptySchedule : FaultSchedule := mkFaultSchedule 0 [] [] [].

Definition NewSim (cfg : SimConfig) : result simulator := newSim cfg emptySchedule false.

Definition sortFaultEvents (events : list FaultEvent) : list FaultEvent := sort_by (fun a b => fv_Time a <=? fv_Time b) events.

Definition installFaultEvents (events : list FaultEvent) (s : simulator) : simulator :=
  foldl (fun s ev => pushAt (fv_Time ev) (eventFault ev) s) s (sortFaultEvents events).

(** The restart policies of the storage's and of the file systems' crash directives. *)
Definition restartPolicies (ds : list CrashDirective) : gmap crashDirectiveKey Z :=
  foldl (fun m d => if RestartAfterCrash d then <[((cd_Node d, cd_Save d) : crashDirectiveKey) := Point d]> m else m) ∅ ds.
Definition lsmRestartPolicies (ds : list LSMCrashDirective) : gmap lsmCrashDirectiveKey bool :=
  foldl (fun m d => <[lsmDirectiveKey d := ld_RestartAfterCrash d]> m) ∅ ds.

Definition NewFaultSim (cfg : SimConfig) (schedule : FaultSchedule) : result simulator :=
  match ValidateForCluster (sc_NodeIDs cfg) schedule with
  | Some e => Err e
  | None =>
      if negb (Nat.eqb (length (fs_LSMCrashes schedule)) 0) && negb (bool_decide (engineOf cfg = "lsm"))
      then Err "sim: LSM crash directives require engine lsm"
      else match newSim cfg schedule true with
           | Err e => Err e
           | Ok s =>
               let s1 := set_restarts (restartPolicies (fs_Crashes schedule)) (s_lsmCrashDirectives s) (s_lsmRestartOnCrash s) s in
               let s2 := installFaultEvents (fs_Events schedule) s1 in
               Ok (set_restarts (s_restartAfterCrash s2) (fs_LSMCrashes schedule) (lsmRestartPolicies (fs_LSMCrashes schedule)) s2)
           end
  end.

(** * Workloads *)

(** [setStateMachineFactory] and [installLSMStateMachines]: every node gets a state machine
    that is opened in a fresh environment; the crash schedule is armed after that. *)
Fixpoint installStateMachines (order : list Z) (s : simulator) : simulator * option error :=
  match order with
  | [] => (s, None)
  | id :: order' =>
      let '(env, r) := eng_open (newEnv id) in
      match r with
      | inl _ => (upd_node id (fun sn => with_sm (sn_sm sn) env sn) s, Some "sim: open LSM state machine for node")
      | inr m =>
          let directives := lsmSimDirective <$> filter (fun d => ld_Node d = id) (s_lsmCrashDirectives s) in
          match eng_arm directives env with
          | (env1, Some _) => (upd_node id (fun sn => with_sm (sn_sm sn) env1 sn) s, Some "sim: configure LSM crash directives for node")
          | (env1, None) =>
              installStateMachines order'
                (upd_node id (fun sn => mkSimNode (sn_id sn) (sn_cfg sn) (sn_storage sn) (sn_rnd sn) (sn_node sn) (sn_halted sn) (sn_generation sn)
                   (sn_paused sn) (sn_tickMultiplier sn) (sn_applied sn) (sn_results sn) (sn_lastApplied sn) (Some m) env1 true) s)
          end
      end
  end.

Definition StartWorkload (config : WorkloadConfig) (s : simulator) : simulator * option error :=
  match s_workload s with
  | Some _ => (s, Some "sim: workload already started")
  | None =>
      if negb (s_now s =? 0) then (s, Some "sim: workload must start before virtual time advances")
      else
        let c := mkWorkloadConfig (s_seed s) (wc_ClientCount config) (wc_ClientIDBase config) (wc_KeyCount config) (wc_OperationsPerClient config)
                   (wc_OperationTimeout config) (wc_RetryDelay config) (wc_ThinkTime config) (wc_StartTime config) (s_order s) in
        match NewRunner newRand c with
        | Err e => (s, Some e)
        | Ok runner =>
            match installStateMachines (s_order s) s with
            | (s1, Some e) => (s1, Some e)
            | (s1, None) =>
                let s2 := set_workload (Some (mkSimWorkload runner ∅ ∅)) (s_runErr s1) s1 in
                match runner_Start (H := simulator) (H0 := simulator_WorkloadHost marshal) runner s2 with
                | (r, s3, err) => (set_runner r (s_runErr s3) s3, err)
                end
            end
        end
  end.

(** * Seeds *)

Definition withSeed (seed : Z) (cfg : SimConfig) : SimConfig :=
  mkSimConfig seed (sc_Engine cfg) (sc_LSMFlushThreshold cfg) (sc_NodeIDs cfg) (sc_ElectionTickMin cfg) (sc_ElectionTickMax cfg)
    (sc_HeartbeatTicks cfg) (sc_TickIntervalMS cfg) (sc_MinDelayMS cfg) (sc_MaxDelayMS cfg).

(** [RunSeeds]; [None] when the number of events was not enough for some seed. *)
Fixpoint RunSeeds (fuel : nat) (cfg : SimConfig) (seeds : list Z) (until : Z) (scenario : option (simulator -> simulator))
    : option (option error) :=
  match seeds with
  | [] => Some None
  | seed :: seeds' =>
      match NewSim (withSeed seed cfg) with
      | Err e => Some (Some e)
      | Ok s0 =>
          let s1 := RegisterInvariant SingleLeaderPerTerm s0 in
          let s2 := match scenario with Some f => f s1 | None => s1 end in
          match sim_Run marshal fuel until s2 with
          | None => None
          | Some (_, Some e) => Some (Some e)
          | Some (_, None) => RunSeeds fuel cfg seeds' until scenario
          end
      end
  end.
End build.
