(* ===== verification/SimStore.v ===== *)
(** The storages of simulated nodes against an ideal one: [MemStorage] with the crashes the
    storage contract allows.  What a simulated [Save] does, whether it returns, crashes or
    arms a crash, is a save or a torn save of the ideal storage. *)

From S2P Require Import Prelude Proto RaftLog RaftNode RaftSpec Storage Server Bytes WalRecords CrashStorage MapSM Checker CheckerFacts SimInvariant DiskLog SimFS Float64 FaultSchedule Heap Workload SimLoop.

(** * The ideal storage *)

(** [crash_save k] leaves the [k]-th of the states that a torn save may leave. *)
Definition mem_crash_save (k : nat) (hs : option HardState) (batch : list Entry) (m : MemStorage) : MemStorage :=
  match torn hs batch (ms_hard m, ms_entries m) !! k with Some d => mkMemStorage d.1 d.2 | None => m end.

#[export] Program Instance MemStorage_Safe : CrashSafe MemStorage := {|
  crash_save := mem_crash_save;
  reopen m := m;
|}.
Next Obligation.
  intros k hs batch m Hok Hb _. unfold mem_crash_save. destruct (torn _ _ _ !! k) as [d|] eqn:Ek.
  - apply list_elem_of_lookup_2 in Ek. split; [|by destruct d]. exact (torn_wf hs batch (ms_hard m, ms_entries m) d Hok Hb Ek).
  - split; [done|]. apply elem_of_torn. by left.
Qed.
Next Obligation. done. Qed.

Lemma mem_torn_reached hs batch m d :
  d ∈ torn hs batch (ms_hard m, ms_entries m) -> exists k, mem_crash_save k hs batch m = mkMemStorage d.1 d.2.
Proof. intros [k Hk]%list_elem_of_lookup. exists k. unfold mem_crash_save. by rewrite Hk. Qed.

(** * The crash-model storage when it is down *)

(** It crashed, and its survivors parse to its view. *)
Definition cs_down (cs : CrashStorage) : Prop :=
  crashed cs = true /\ armed cs = false /\ unsynced cs = [] /\ entries_wf (ms_entries (cs_view cs)) /\
  exists rs complete, parseRecords (cs_durable cs) = Ok (cs_view cs, complete) /\ take complete (cs_durable cs) = frames rs /\
    Forall record_ok rs /\ cs_view cs = rs_view (fold_records rs rs_init).

Definition cs_up (cs : CrashStorage) : Prop := cs_ok cs /\ armed cs = false.

(** A crash that leaves bytes that parse. *)
Lemma cs_crash_down save point retain cs k rs v complete :
  cs_durable (cs_crash save point retain cs) = cs_durable cs ++ take k (unsynced cs) ->
  parseRecords (cs_durable cs ++ take k (unsynced cs)) = Ok (v, complete) ->
  take complete (cs_durable cs ++ take k (unsynced cs)) = frames rs ->
  Forall record_ok rs -> v = rs_view (fold_records rs rs_init) -> entries_wf (ms_entries v) ->
  cs_down (cs_crash save point retain cs) /\ cs_view (cs_crash save point retain cs) = v.
Proof.
  intros Hd Hp Ht Hrs Hv Hwf. assert (cs_view (cs_crash save point retain cs) = v) as Ev.
  { unfold cs_crash in *. cbn [cs_view cs_durable] in *. rewrite Hd. by rewrite Hp. }
  split; [|done]. split_and!; [done|done|done|by rewrite Ev|]. exists rs, complete. rewrite Hd, Ev. done.
Qed.

(** A crash of a storage with nothing unsynced. *)
Lemma cs_crash_rest save point retain cs :
  cs_ok cs -> cs_down (cs_crash save point retain cs) /\ cs_view (cs_crash save point retain cs) = cs_view cs.
Proof.
  intros (Hcr & Hun & Hwf & rs & Hrs & Hd & Hv).
  destruct (cs_crash_fields save point retain cs) as (_ & _ & k & Hk & _).
  eapply (cs_crash_down _ _ _ _ k rs (cs_view cs) (length (frames rs))); try done; rewrite Hun, take_nil, app_nil_r, Hd.
  - rewrite <- (app_nil_r (frames rs)), parseRecords_frames by (done || by left). by rewrite app_nil_r, Hv.
  - apply firstn_all.
Qed.

Lemma Recover_down cs :
  cs_down cs -> exists cs', Recover cs = (cs', None) /\ cs_up cs' /\ cs_view cs' = cs_view cs.
Proof.
  intros (Hcr & Har & Hun & Hwf & rs & complete & Hp & Ht & Hrs & Hv). unfold Recover. rewrite Hcr, Hp. cbn [negb].
  eexists. split; [done|]. split; [|done]. split; [|done]. split_and!; [done|done|done|]. exists rs. by rewrite Ht.
Qed.

(** * Saving *)

Section save.
Context (cs : CrashStorage) (Hup : cs_up cs) (hs : option HardState) (es : list Entry).
Context (Hb : batch_wf (ms_entries (cs_view cs)) es) (Hf : cs_fits hs es).

Let recs := batch_records hs es (mem_LastIndex (cs_view cs)).

(** The states between the staging and the crash. *)
Lemma staged_crash save point retain cs2 j :
  cs_durable cs2 = cs_durable cs ++ take j (frames recs) -> unsynced cs2 = drop j (frames recs) ->
  cs_down (cs_crash save point retain cs2) /\
  (ms_hard (cs_view (cs_crash save point retain cs2)), ms_entries (cs_view (cs_crash save point retain cs2))) ∈
    torn hs es (ms_hard (cs_view cs), ms_entries (cs_view cs)).
Proof using Hup Hb Hf.
  intros Hd Hu. destruct Hup as [Hok _].
  destruct (cs_crash_fields save point retain cs2) as (_ & _ & k & Hk & _).
  destruct (survivors_parse cs Hok hs es Hb Hf (j `min` length (frames recs) + k)) as (rs & v & complete & P1 & P2 & P3 & P4 & P5).
  fold recs in P1, P2. assert (cs_durable cs2 ++ take k (unsynced cs2) =
    cs_durable cs ++ take (j `min` length (frames recs) + k) (frames recs)) as E.
  { rewrite Hd, Hu, <- app_assoc, take_take_drop. f_equal. destruct (decide (j <= length (frames recs))%nat); [f_equal; lia|].
    by rewrite !take_ge by lia. }
  assert (entries_wf (ms_entries v)) as Hwf
    by exact (torn_wf hs es (ms_hard (cs_view cs), ms_entries (cs_view cs)) _ (proj1 (proj2 (proj2 Hok))) Hb P5).
  rewrite <- E in P1, P2.
  destruct (cs_crash_down save point retain cs2 k rs v complete Hk P1 P2 P3 P4 Hwf) as [Hdown Ev]. by rewrite Ev.
Qed.

(** [Save] crashes the storage, or saves. *)
Lemma cs_Save_cases cs' err :
  cs_Save hs es cs = (cs', err) ->
  (err = Some ErrCrashed /\ cs_down cs' /\
     (ms_hard (cs_view cs'), ms_entries (cs_view cs')) ∈ torn hs es (ms_hard (cs_view cs), ms_entries (cs_view cs))) \/
  (err = None /\ cs_ok cs' /\ cs_view cs' = (mem_Save hs es (cs_view cs)).1).
Proof using Hup Hb Hf.
  intros H. destruct err as [e|]; [left|right; split; [done|]; destruct Hup as [Hok _]; by apply (Save_frames cs Hok hs es Hb Hf)].
  pose proof Hup as [(Hcr & Hun & Hwf & rs & Hrs & Hd & Hv) Har]. unfold cs_Save in H. rewrite Hcr, Har in H.
  rewrite staged_frames, Hun, app_nil_l in H. fold recs in H. cbv zeta in H. set (cs1 := mkCrashStorage _ _ _ _ _ _ _ _ _ _ _) in H.
  destruct (pendingDirective (saves cs +u 1) cs1) as [cs2 dir] eqn:Ep.
  assert (cs_view cs2 = cs_view cs /\ cs_durable cs2 = cs_durable cs /\ unsynced cs2 = frames recs) as (E2 & E3 & E4).
  { unfold pendingDirective in Ep. destruct (directives cs1 !! next cs1) as [d|]; [destruct (negb _)|]; injection Ep as <- _; done. }
  clear Ep. clearbody cs1. destruct (match dir with Some d => Point d =? CrashBeforeSync | None => false end).
  { injection H as <- <-. split; [done|]. apply (staged_crash _ _ _ _ 0%nat); [by rewrite take_0, app_nil_r|by rewrite drop_0]. }
  destruct dir as [d|]; [|done]. destruct (Point d =? CrashAfterSyncBeforeSend).
  - injection H as <- <-. split; [done|]. apply (staged_crash _ _ _ _ (length (frames recs))); cbn [cs_durable unsynced].
    + by rewrite firstn_all, E3, E4.
    + by rewrite drop_all.
  - by destruct (Point d =? CrashAfterSend).
Qed.
End save.

(** * The storages of simulated nodes *)

Definition st_view (st : simStorage) : MemStorage := match st with StMem m => m | StCrash cs => cs_view cs end.

(** A storage that serves its process, and one that may be down. *)
Definition st_up (st : simStorage) : Prop := match st with StMem m => entries_wf (ms_entries m) | StCrash cs => cs_up cs end.
Definition st_any (st : simStorage) : Prop := match st with StMem m => entries_wf (ms_entries m) | StCrash cs => cs_up cs \/ cs_down cs end.

(** The batch can be written in the storage's format. *)
Definition st_fits (st : simStorage) (hs : option HardState) (es : list Entry) : Prop :=
  match st with StMem _ => True | StCrash _ => cs_fits hs es end.

Lemma st_up_any st : st_up st -> st_any st.
Proof. destruct st; [done|by left]. Qed.

(** The storage part of the Ready path after a successful save: the armed crash. *)
Definition crashIfArmed (st : simStorage) : simStorage * bool :=
  match st with StCrash cs => let '(cs', f) := CrashIfArmed cs in (StCrash cs', f) | StMem m => (StMem m, false) end.

Lemma st_Save_cases st hs es st' err :
  st_up st -> batch_wf (ms_entries (st_view st)) es -> st_fits st hs es -> Save hs es st = (st', err) ->
  (err = Some ErrCrashed /\ st_any st' /\
     (ms_hard (st_view st'), ms_entries (st_view st')) ∈ torn hs es (ms_hard (st_view st), ms_entries (st_view st))) \/
  (err = None /\ st_view st' = (mem_Save hs es (st_view st)).1 /\
     exists st2 fired, crashIfArmed st' = (st2, fired) /\ st_view st2 = st_view st' /\ if fired : bool then st_any st2 else st_up st2 /\ st2 = st').
Proof.
  intros Hup Hb Hf H. destruct st as [m|cs]; cbn [Save simStorage_Storage] in H.
  - right. cbn [Save MemStorage_Storage] in H. destruct (mem_Save hs es m) as [m' e] eqn:Em. injection H as <- <-.
    assert (e = None) as -> by (unfold mem_Save in Em; by injection Em as _ <-). cbn [st_view]. rewrite Em. split_and!; [done|done|].
    exists (StMem m'), false. split; [done|]. split; [done|]. split; [|done].
    exact (proj1 (@Save_spec MemStorage _ MemStorage_Spec m hs es m' Hup Hb I Em)).
  - cbn [Save CrashStorage_Storage] in H. destruct (cs_Save hs es cs) as [cs' e] eqn:Ec. injection H as <- <-.
    destruct (cs_Save_cases cs Hup hs es Hb Hf cs' e Ec) as [(-> & Hdown & Ht)|(-> & Hok & Hv)].
    + left. split_and!; [done|by right|done].
    + right. split_and!; [done|done|]. cbn [crashIfArmed]. unfold CrashIfArmed. destruct Hok as (Hcr & Hrest). rewrite Hcr. cbn [orb].
      destruct (armed cs') eqn:Ea; cbn [negb].
      * destruct (cs_crash_rest (armedSave cs') CrashAfterSend 0 cs') as [Hd Ev]; [by split|]. eexists _, true. split; [reflexivity|]. split; [done|by right].
      * exists (StCrash cs'), false. split_and!; try done.
Qed.

(** The storage part of a host crash and of a restart. *)
Lemma st_recover st :
  st_any st -> exists st', recoverStorage st = (st', None) /\ st_up st' /\ st_view st' = st_view st.
Proof.
  destruct st as [m|cs]; cbn [st_any recoverStorage]; [by eexists|]. intros [Hup|Hdown].
  - pose proof Hup as [(Hcr & _) _]. rewrite Hcr. by eexists.
  - pose proof Hdown as (Hcr & _). rewrite Hcr. destruct (Recover_down cs Hdown) as (cs' & -> & Hup & Hv). by eexists.
Qed.

Lemma st_getters st :
  getHardState st = getHardState (st_view st) /\ FirstIndex st = FirstIndex (st_view st) /\ LastIndex st = LastIndex (st_view st) /\
  forall lo hi, getEntries lo hi st = getEntries lo hi (st_view st).
Proof. by destruct st. Qed.

Lemma st_any_wf st : st_any st -> store_ok (st_view st).
Proof. destruct st as [m|cs]; [done|]. intros [[(_ & _ & Hwf & _) _]|(_ & _ & _ & Hwf & _)]; done. Qed.
