(* ===== verification/WorkloadFacts.v ===== *)
(** The runner and its host: what the runner asks of a host, whatever the host does. *)

From S2P Require Import Prelude Proto RaftLog RaftNode Storage Bytes MapSM Checker Workload.

(** Draws are below their bound. *)
Definition rand_ok (r : Rand) : Prop := forall k n, 0 < n -> 0 <= rand_fn r k n < n.

(** The command that the client at position [i] submits next: the one of its operation, or
    the next one of its generator. *)
Definition pendingCommand (i : nat) (r : Runner) : option Command :=
  match rn_clients r !! i with
  | None => None
  | Some c =>
      Some (match cl_active c with
            | Some op => lo_command op
            | None => commandFor (cl_id c) (cl_nextSeq c) (gen_Next (cl_nextSeq c) (cl_generator c)).2
            end)
  end.

Definition nextCommand (event : WEvent) (r : Runner) : option Command :=
  match rn_byID r !! ai_ClientID (we_AttemptID event) with None => None | Some i => pendingCommand i r end.

Lemma cloneCommand_id c : cloneCommand c = c.
Proof. by destruct c. Qed.

Lemma set_client_lookup i c r c0 : rn_clients r !! i = Some c0 -> rn_clients (set_client i c r) !! i = Some c.
Proof. intros Hi. cbn. apply list_lookup_insert_eq. by eapply lookup_lt_Some. Qed.

(** * The host's side of the handlers *)

Section host.
Context {H : Type} `{WorkloadHost H} (I J : H -> Prop) (P : Command -> Prop).
Context (HIs : forall t e h, I h -> I (wh_Schedule t e h)) (HIc : forall a h, I h -> I (wh_Cancel a h)).
Context (HJs : forall t e h, J h -> J (wh_Schedule t e h)) (HIJ : forall h, I h -> J h).
Context (Hsub : forall sub h, I h -> P (sb_Command sub) -> J (wh_Submit sub h).1).

Definition host_of (x : handled (H := H)) : H := x.1.2.

Lemma scheduleRetry_host (Q : H -> Prop) i r h : (forall t e h, Q h -> Q (wh_Schedule t e h)) -> Q h -> Q (host_of (scheduleRetry i r h)).
Proof using.
  intros HQ Hh. unfold scheduleRetry, clientAt. destruct (_ !! i) as [c|]; [|done]. destruct (cl_active c) as [op|]; [|done].
  cbv zeta. case_bool; [done|]. by apply HQ.
Qed.

Lemma scheduleDeadline_host i r h r' h' c op :
  rn_clients r !! i = Some c -> cl_active c = Some op -> scheduleDeadline i r h = (r', h') -> I h ->
  I h' /\ exists c' op', rn_clients r' !! i = Some c' /\ cl_active c' = Some op' /\ lo_command op' = lo_command op.
Proof using HIs.
  intros Hi Ha. unfold scheduleDeadline. rewrite Hi, Ha. cbv zeta. intros [= <- <-] Hh. split; [by apply HIs|].
  eexists _, _. split; [by eapply set_client_lookup|]. done.
Qed.

Lemma submit_host i retry r h c op :
  rn_clients r !! i = Some c -> cl_active c = Some op -> P (lo_command op) -> I h -> J (host_of (submit i retry r h)).
Proof using All.
  intros Hi Ha HP Hh. unfold submit, clientAt. rewrite Hi, Ha.
  destruct (if retry then Retry _ _ _ else None); [by apply HIJ|]. cbv zeta.
  destruct (wc_Targets (rn_config r) !! Z.to_nat (cl_targetCursor c)) as [target|]; [|by apply HIJ].
  match goal with |- context [wh_Submit ?x h] => assert (J (wh_Submit x h).1) as HJ; [|destruct (wh_Submit x h) as [h1 [status|e]]] end.
  - apply Hsub; [done|]. cbn [sb_Command]. by rewrite cloneCommand_id.
  - cbn [fst] in HJ. destruct status; [done|]. by apply scheduleRetry_host.
  - done.
Qed.

Lemma handleStart_host i r h : (forall cmd, pendingCommand i r = Some cmd -> P cmd) -> I h -> J (host_of (handleStart i r h)).
Proof using All.
  intros HP Hh. unfold handleStart, clientAt. destruct (rn_clients r !! i) as [c|] eqn:Hi; [|by apply HIJ].
  unfold pendingCommand in HP. rewrite Hi in HP. destruct (cl_active c) as [op|] eqn:Ha; [by apply HIJ|]. case_bool; [by apply HIJ|]. cbv zeta.
  destruct (gen_Next _ _) as [g input] eqn:Eg. destruct (Invoke _ _ _ _ _) as [rec [e|]]; [by apply HIJ|].
  set (op := mkLogicalOperation _ _ _ _ _ _ _). set (c2 := mkClient _ _ _ _ _ _ _).
  destruct (scheduleDeadline i _ h) as [r2 h2] eqn:Es.
  destruct (scheduleDeadline_host i (set_recorder rec (set_client i c2 r)) h r2 h2 c2 op (set_client_lookup i c2 r c Hi) eq_refl Es Hh) as (Hh2 & c' & op' & Hc' & Ho' & Ec).
  eapply submit_host; [exact Hc'|exact Ho'| |done]. rewrite Ec. by apply HP.
Qed.

Lemma handleRetry_host i event r h : (forall cmd, pendingCommand i r = Some cmd -> P cmd) -> I h -> J (host_of (handleRetry i event r h)).
Proof using All.
  intros HP Hh. unfold handleRetry, clientAt. destruct (rn_clients r !! i) as [c|] eqn:Hi; [|by apply HIJ].
  unfold pendingCommand in HP. rewrite Hi in HP. destruct (cl_active c) as [op|] eqn:Ha; [|by apply HIJ]. cbv zeta.
  case_bool; [by apply HIJ|]. case_bool; [by apply HIJ|]. case_bool; [by apply HIJ|]. destruct (lo_timedOut op).
  - set (op1 := with_deadline _ _ _). set (c1 := with_active _ _). destruct (scheduleDeadline i _ h) as [r2 h2] eqn:Es.
    destruct (scheduleDeadline_host i _ h r2 h2 c1 op1 (set_client_lookup _ _ _ _ Hi) eq_refl Es Hh) as (Hh2 & c' & op' & Hc' & Ho' & Ec).
    eapply submit_host; [exact Hc'|exact Ho'| |done]. rewrite Ec. by apply HP.
  - eapply submit_host; [exact Hi|exact Ha|by apply HP|done].
Qed.

(** Handling an event: the host is scheduled on, and at most one submission is made, of the
    client's command. *)
Lemma runner_Handle_host event r h : (forall cmd, nextCommand event r = Some cmd -> P cmd) -> I h -> J (host_of (runner_Handle event r h)).
Proof using All.
  intros HP Hh. unfold runner_Handle. unfold nextCommand in HP. destruct (rn_byID r !! _) as [i|]; [|by apply HIJ]. destruct (we_Kind event).
  - by apply handleStart_host.
  - by apply handleRetry_host.
  - apply HIJ. unfold handleDeadline, clientAt. destruct (_ !! i) as [c|]; [|done]. destruct (cl_active c) as [op|]; [|done]. case_bool; [done|]. cbv zeta.
    assert (I (if lo_waiting op then wh_Cancel (mkAttemptID (cl_id c) (lo_seq op) (lo_attempt op)) h else h)) as Hh1 by (destruct (lo_waiting op); auto).
    by destruct (RecordTimeout _ _ _ _).
  - apply HIJ. unfold handleApplied, clientAt. destruct (_ !! i) as [c|]; [|done]. destruct (cl_active c) as [op|]; [|done]. case_bool; [done|].
    destruct (Complete _ _ _ _ _) as [rec [e|]]; [done|]. cbv zeta. case_bool; [|done]. by apply HIs.
  - apply HIJ. unfold handleLeadershipLost, clientAt. destruct (_ !! i) as [c|]; [|done]. destruct (cl_active c) as [op|]; [|done]. case_bool; [done|].
    by apply scheduleRetry_host.
  - by apply HIJ.
Qed.
End host.
