(* ===== verification/SimCluster.v ===== *)
(** The cluster of ideal storages that the simulator runs.  First where the entries of a node
    come from, and how it comes to lead: the entries of its log and of the messages it sends
    are its old ones, those of the messages it receives, the empty entry of a new leader and
    the data it is given; and a follower leads only in a later term.  Then what an event of a
    simulated node is in the cluster, whatever its storage makes of the save, and that a
    committed prefix of a log stays in the log. *)

From stdpp Require Import functions.
From S2P Require Import Prelude Proto RaftLog RaftNode RaftSpec Storage Server NodeFacts HostFacts Cluster Bytes WalRecords CrashStorage Safety MapSM DiskLog.
From S2P Require Import SimInvariant Checker CheckerFacts Heap SimFS Float64 FaultSchedule Workload SimLoop SimStore.

(** * Roles *)

Lemma fields_of n n' : stable_fields n' = stable_fields n -> role n' = role n /\ hardState n' = hardState n /\ log n' = log n.
Proof. unfold stable_fields. intros E. injection E. intros. by split_and!. Qed.

Lemma appendLocalNode_role ty d n :
  role (appendLocalNode ty d n).1 = role n /\ hardState (appendLocalNode ty d n).1 = hardState n.
Proof. unfold appendLocalNode. cbn. repeat case_match; done. Qed.

Lemma becomeLeader_term n : hardState (becomeLeader n) = hardState n.
Proof.
  unfold becomeLeader. cbv zeta. set (n3 := foldl _ (with_inflight _ _) _). assert (hardState n3 = hardState n) as E3.
  { subst n3. apply (foldl_inv (fun x => hardState x = hardState n)); [|done]. intros x y Hx. exact Hx. }
  clearbody n3. set (n4 := (appendLocalNode _ _ n3).1). assert (hardState n4 = hardState n) as E4 by (rewrite <- E3; apply appendLocalNode_role).
  clearbody n4. etrans; [|exact E4]. rewrite <- (proj1 (proj2 (fields_of _ _ (advanceCommit_fields n4)))).
  apply fields_of, foldl_fields. intros x y. case_bool; [apply sendAppend_fields|done].
Qed.

Lemma reset_role_hard n : role (resetElectionTimeout n) = role n /\ hardState (resetElectionTimeout n) = hardState n.
Proof. unfold resetElectionTimeout. cbv zeta. repeat case_match; done. Qed.

Lemma becomeLeader_role n : role (becomeLeader n) = leader.
Proof.
  unfold becomeLeader. cbv zeta. set (n3 := foldl _ (with_inflight _ _) _). assert (role n3 = leader) as E3.
  { subst n3. apply (foldl_inv (fun x => role x = leader)); [|done]. intros x y Hx. exact Hx. }
  clearbody n3. set (n4 := (appendLocalNode _ _ n3).1). assert (role n4 = leader) as E4 by (rewrite <- E3; apply appendLocalNode_role).
  clearbody n4. etrans; [|exact E4]. rewrite <- (proj1 (fields_of _ _ (advanceCommit_fields n4))).
  apply fields_of, foldl_fields. intros x y. case_bool; [apply sendAppend_fields|done].
Qed.

Lemma becomeFollower_role t n : role (becomeFollower t n) = follower.
Proof. done. Qed.

(** * Provenance *)

Section prov.
Context (P : Entry -> Prop).

Definition log_holds (l : raftLog) : Prop := Forall P (toEntry <$> entries l).

(** The entries that a message carries. *)
Definition carried (m : Message) : list Entry :=
  match m_Body m with Some (Message_AppendEntries req) => omap id (ae_Entries req) | _ => [] end.

Definition msg_holds (m : Message) : Prop := Forall P (carried m).

Definition node_holds (n : Node) : Prop := log_holds (log n) /\ Forall msg_holds (messages n).

(** The parts of a node that matter here. *)
Lemma node_holds_same n n' : log n' = log n -> messages n' = messages n -> node_holds n -> node_holds n'.
Proof. unfold node_holds. by intros -> ->. Qed.

Lemma entry_in l idx e : entry l idx = Some e -> e ∈ entries l.
Proof.
  unfold entry. destruct (entries l) as [|e0 es] eqn:El; [done|]. rewrite <- El. repeat case_bool; try done.
  destruct (entries l !! _) as [e1|] eqn:E1; [|done]. case_bool; [|done]. intros [= <-]. by eapply list_elem_of_lookup_2.
Qed.

Lemma rangeLoop_holds fuel l idx hi : log_holds l -> Forall P (rangeLoop fuel l idx hi).
Proof.
  intros Hl. revert idx. induction fuel as [|fuel IH]; intros idx; cbn [rangeLoop]; [done|]. case_bool; [|done].
  destruct (entry l idx) as [e|] eqn:Ee; [|done]. constructor; [|apply IH]. unfold log_holds in Hl. rewrite Forall_fmap, Forall_forall in Hl.
  by apply Hl, (entry_in l idx).
Qed.

Lemma rangeEntries_holds l lo hi : log_holds l -> Forall P (rangeEntries l lo hi).
Proof. intros Hl. unfold rangeEntries. case_bool; [done|by apply rangeLoop_holds]. Qed.

Lemma send_holds m n : node_holds n -> msg_holds m -> node_holds (send m n).
Proof. intros [H1 H2] Hm. split; [done|]. cbn. apply Forall_app. by split; [|constructor]. Qed.

Lemma send_plain m n : carried m = [] -> node_holds n -> node_holds (send m n).
Proof. intros Hm H. apply send_holds; [done|]. unfold msg_holds. by rewrite Hm. Qed.

Lemma emitAppend_holds p pd n : node_holds n -> node_holds (emitAppend p pd n).
Proof.
  intros H. apply send_holds; [done|]. unfold msg_holds, carried. cbn [m_Body ae_Entries]. case_bool; [|done].
  unfold entryPointers. pose proof (rangeEntries_holds (log n) (prevIndex pd +u 1) (inf_lastIndex pd +u 1) (proj1 H)) as Hr.
  induction Hr; csimpl; [done|by constructor].
Qed.

Lemma sendAppend_holds p b n : node_holds n -> node_holds (sendAppend p b n).
Proof.
  intros H. unfold sendAppend. destruct (get_inflight n p); [by apply emitAppend_holds|]. cbv zeta.
  destruct (termAt _ _); [|by eapply node_holds_same]. apply emitAppend_holds. by eapply node_holds_same.
Qed.

Lemma advanceCommit_holds n : node_holds n -> node_holds (advanceCommit n).1.
Proof.
  intros H. unfold advanceCommit, advanceCommitWith. destruct (role n); [done|done|]. cbv zeta. generalize (lastIndex (log n)) as idx. intros idx.
  generalize (Z.to_nat (idx - commitIndex n)) as k. intros k. revert idx. induction k as [|k IH]; intros idx; [done|]. cbn [advanceCommitLoop]. cbv zeta.
  destruct (_ && _); [by eapply node_holds_same|apply IH].
Qed.

(** An entry appended by the node itself. *)
Lemma appendLocalNode_holds ty d n :
  node_holds n -> P (mkEntry (lastIndex (log n) +u 1) (hs_Term (hardState n)) ty d) -> node_holds (appendLocalNode ty d n).1.
Proof.
  intros [H1 H2] HP. unfold appendLocalNode, appendLocal. cbv zeta. cbn [fst]. set (l' := mkRaftLog _ _).
  assert (log_holds l') as Hl by (unfold log_holds, l'; cbn [entries]; rewrite fmap_app; apply Forall_app; split; [done|by constructor]).
  clearbody l'. repeat case_match; by split.
Qed.

(** The empty entry of the leader that [n'] has become satisfies the predicate. *)
Definition starts_term (n' : Node) : Prop := role n' = leader -> forall idx, P (mkEntry idx (hs_Term (hardState n')) EntryType_NOOP []).

Lemma becomeLeader_holds n : starts_term (becomeLeader n) -> node_holds n -> node_holds (becomeLeader n).
Proof.
  intros HP0 H. specialize (HP0 (becomeLeader_role n)). rewrite becomeLeader_term in HP0. unfold becomeLeader. cbv zeta.
  apply foldl_inv; [intros x p Hx; case_bool; [by apply sendAppend_holds|done]|]. set (n3 := foldl _ (with_inflight _ _) _).
  assert (node_holds n3 /\ hardState n3 = hardState n) as [H3 E3].
  { subst n3. apply (foldl_inv (fun x => node_holds x /\ hardState x = hardState n)); [|split; [exact H|done]]. intros x p Hx. exact Hx. }
  apply advanceCommit_holds, appendLocalNode_holds; [done|]. rewrite E3. apply HP0.
Qed.

Lemma reset_same n : log (resetElectionTimeout n) = log n /\ messages (resetElectionTimeout n) = messages n.
Proof. unfold resetElectionTimeout. cbv zeta. repeat case_match; done. Qed.

Lemma startElection_holds n : starts_term (startElection n) -> node_holds n -> node_holds (startElection n).
Proof.
  intros HP0 H. revert HP0. unfold startElection. cbv zeta.
  match goal with |- context [resetElectionTimeout ?x] => assert (node_holds (resetElectionTimeout x)) as H3 end.
  { eapply node_holds_same; [apply (proj1 (reset_same _))|apply (proj2 (reset_same _))|exact H]. }
  revert H3. generalize (resetElectionTimeout (with_votes (Some {[ID (config n)]}) (with_heartbeatElapsed 0 (with_role candidate
    (with_hardStateDirty true (with_hardState (mkHardState (hs_Term (hardState n) +u 1) (ID (config n))) n)))))).
  intros n3 H3. destruct (hasMajority n3); intros HP0; [by apply becomeLeader_holds|]. apply foldl_inv; [|done]. intros x p Hx. case_bool; [done|]. by apply send_plain.
Qed.

Lemma becomeFollower_holds t n : node_holds n -> node_holds (becomeFollower t n).
Proof.
  intros H. unfold becomeFollower. cbv zeta. case_bool; [|done]. set (n1 := with_hardStateDirty _ _).
  destruct (reset_same n1) as [E1 E2]. eapply node_holds_same; [exact E1|exact E2|exact H].
Qed.

Lemma cut_at_Forall {A} (Q : A -> Prop) f (l : list A) : Forall Q l -> Forall Q (cut_at f l).
Proof. destruct (cut_at_prefix f l) as [k E]. intros H. rewrite E in H. by apply Forall_app in H as [H _]. Qed.

Lemma appendRemaining_holds l es : log_holds l -> Forall P (omap id es) -> log_holds (appendRemaining l es).
Proof.
  revert l. induction es as [|[e|] es IH]; intros l Hl Hes; cbn [appendRemaining]; [done| |by apply IH].
  apply Forall_cons in Hes as [He Hes]. case_bool; [by apply IH|]. apply IH; [|done]. unfold log_holds. cbn [entries].
  rewrite fmap_app. apply Forall_app. split; [done|]. constructor; [|done]. by rewrite toEntry_ofEntry.
Qed.

Lemma appendFromLeader_holds l es : log_holds l -> Forall P (omap id es) -> log_holds (appendFromLeader l es).1.
Proof.
  revert l. induction es as [|[e|] es IH]; intros l Hl Hes; cbn [appendFromLeader]; [done| |by apply IH].
  pose proof Hes as Hall. apply Forall_cons in Hes as [He Hes]. case_bool; [by apply IH|]. case_match; [by apply IH|]. cbn [fst].
  apply (appendRemaining_holds _ (Some e :: es)); [|done]. unfold log_holds, truncateFrom. cbn [entries]. rewrite Forall_fmap.
  apply cut_at_Forall. by apply Forall_fmap.
Qed.

Lemma dispatch_holds m n : (role n = candidate -> starts_term (dispatch m n)) -> node_holds n -> msg_holds m -> node_holds (dispatch m n).
Proof.
  intros HP0 H Hm. unfold dispatch in *. unfold msg_holds, carried in Hm. destruct (m_Body m) as [[req|resp|req|resp| |]|]; try done.
  - unfold handleRequestVote. cbv zeta. apply send_plain; [done|]. repeat case_match; by eapply node_holds_same.
  - unfold handleRequestVoteResponse in *. destruct (bool_decide (role n = candidate)) eqn:Er; [|done]. apply bool_decide_eq_true in Er. specialize (HP0 Er).
    cbn [negb orb] in *. case_bool; [done|]. cbv zeta in *. destruct (hasMajority _); [apply becomeLeader_holds; [done|]|]; by eapply node_holds_same.
  - unfold handleAppendEntries. cbv zeta. set (n2 := with_electionElapsed _ _).
    assert (node_holds n2) as H2 by (subst n2; case_bool; by eapply node_holds_same). clearbody n2.
    destruct (appendRequestLastIndex req) as [rl valid]. case_bool; [by apply send_plain|]. case_bool; [by apply send_plain|].
    pose proof (appendFromLeader_holds (log n2) (ae_Entries req) (proj1 H2) Hm) as Hl. destruct (appendFromLeader _ _) as [l' changed]. cbn [fst] in Hl.
    apply send_plain; [done|]. destruct H2 as [_ H2]. repeat case_match; by split.
  - unfold handleAppendEntriesResponse. cbv zeta. case_bool; [done|]. destruct (get_inflight n (From m)) as [pd|]; [|done]. case_bool.
    + case_bool; [done|]. match goal with |- context [advanceCommit ?x] => assert (node_holds (advanceCommit x).1) as H4; [|destruct (advanceCommit x) as [n4 adv]] end.
      { apply advanceCommit_holds. repeat case_match; by eapply node_holds_same. }
      cbn [fst] in H4. case_match; [by apply sendAppend_holds|done].
    + apply sendAppend_holds. repeat case_match; by eapply node_holds_same.
Qed.

(** An input keeps the predicate, if the empty entry of a new leader satisfies it. *)
Lemma node_event_holds ev n :
  (role n <> leader -> starts_term (node_event ev n)) ->
  node_holds n -> match ev with
                  | EvTick => True
                  | EvDeliver m => msg_holds m
                  | EvPropose d => role n = leader -> P (mkEntry (lastIndex (log n) +u 1) (hs_Term (hardState n)) EntryType_NORMAL d)
                  end -> node_holds (node_event ev n).
Proof.
  intros HP0 H Hev. destruct ev as [|m|d]; cbn [node_event] in *.
  - unfold Tick in *. destruct (role n) eqn:Er; cbv zeta in *.
    1,2: specialize (HP0 ltac:(done)); destruct (_ <=? _); [apply startElection_holds; [done|]|]; by eapply node_holds_same.
    case_bool; [|by eapply node_holds_same]. unfold sendHeartbeats, broadcastAppend. apply foldl_inv; [|by eapply node_holds_same]. intros x p Hx. case_bool; [done|by apply sendAppend_holds].
  - unfold Step in *. cbv zeta in *. destruct (hs_Term (hardState n) <? messageTerm m).
    { apply dispatch_holds; [by rewrite becomeFollower_role|by apply becomeFollower_holds|done]. }
    destruct (messageTerm m <? hs_Term (hardState n)); [|apply dispatch_holds; [intros Er; apply HP0; by rewrite Er|done|done]].
    unfold rejectLowerTermRequest. repeat case_match; try done; by apply send_plain.
  - unfold Propose. destruct (role n) eqn:Er; [done|done|]. pose proof (appendLocalNode_holds EntryType_NORMAL d n H (Hev eq_refl)) as H1.
    destruct (appendLocalNode _ _ _) as [n1 idx]. cbn [fst] in *. unfold broadcastAvailableAppend.
    apply foldl_inv; [intros x p Hx; case_bool; [done|by apply sendAppend_holds]|]. by apply advanceCommit_holds.
Qed.
End prov.

Lemma NewNode_applied cfg hs es r : lastApplied (NewNode cfg (mkInitialState hs es (mkSnapshotMeta 0 0)) r) = 0.
Proof. unfold NewNode, resetElectionTimeout. cbv zeta. repeat case_match; done. Qed.

(** * Leadership *)

Lemma startElection_term n : hs_Term (hardState (startElection n)) = hs_Term (hardState n) +u 1.
Proof.
  unfold startElection. cbv zeta. set (n2 := with_votes _ _). destruct (reset_role_hard n2) as [_ R2]. set (n3 := resetElectionTimeout n2) in *.
  clearbody n3. transitivity (hs_Term (hardState n3)); [|by rewrite R2]. case_bool; [by rewrite becomeLeader_term|]. f_equal.
  apply (foldl_inv (fun x => hardState x = hardState n3)); [|done]. intros x p Hx. case_bool; done.
Qed.

(** A follower that handles a message does not lead. *)
Lemma follower_dispatch m n : role n = follower -> role (dispatch m n) <> leader.
Proof.
  intros Hr. unfold dispatch. destruct (m_Body m) as [[req|resp|req|resp| |]|]; try (by rewrite Hr).
  - assert (role (handleRequestVote m req n) = role n) as -> by (unfold handleRequestVote; cbv zeta; cbn; repeat case_match; done). by rewrite Hr.
  - unfold handleRequestVoteResponse. rewrite (bool_decide_eq_false_2 (role n = candidate)) by (by rewrite Hr). cbn. by rewrite Hr.
  - unfold handleAppendEntries. cbv zeta. rewrite (bool_decide_eq_true_2 (role n = follower)) by done. cbn [negb].
    destruct (appendRequestLastIndex req) as [rl valid]. case_bool; [cbn; by rewrite Hr|]. case_bool; [cbn; by rewrite Hr|].
    destruct (appendFromLeader _ _) as [l' changed]. match goal with |- role ?x <> _ => assert (role x = role n) as -> by (cbn; repeat case_match; done) end.
    by rewrite Hr.
  - unfold handleAppendEntriesResponse. rewrite (bool_decide_eq_false_2 (role n = leader)) by (by rewrite Hr). cbn. by rewrite Hr.
Qed.

(** A node that leads after an input led before, or stood as a candidate of its term, or has
    entered the next term. *)
Lemma leads_after ev n :
  role (node_event ev n) = leader ->
  role n = leader \/ role n = candidate \/ hs_Term (hardState (node_event ev n)) = hs_Term (hardState n) +u 1.
Proof.
  intros Hl. destruct (role n) eqn:Hr; [|by right; left|by left]. right; right. destruct ev as [|m|d]; cbn [node_event] in *.
  - unfold Tick in *. rewrite Hr in *. destruct (_ <=? _); [by rewrite startElection_term|]. cbn in Hl. congruence.
  - exfalso. revert Hl. unfold Step. cbv zeta. case_bool; [by apply follower_dispatch|].
    case_bool; [|by apply follower_dispatch]. unfold rejectLowerTermRequest. repeat case_match; cbn; congruence.
  - exfalso. unfold Propose in Hl. rewrite Hr in Hl. cbn in Hl. congruence.
Qed.

(** * Committed prefixes stay *)

Section settled.
Context (ids : list Z).

(** The first [k] entries of node [i]'s log are committed. *)
Definition settled (s : astate) (i : Z) (k : nat) : Prop := cprefix ids s (a_term s i) (a_log s i) k.

Lemma take_app_short {A} (k : nat) (L K : list A) : (k <= length L)%nat -> take k (L ++ K) = take k L.
Proof. intros. by rewrite take_app_le. Qed.

Lemma settled_lstep s s' i j k :
  ainv ids s -> lstep ids i s s' -> settled s j k -> take k (a_log s j) = take k (a_log s' j).
Proof.
  intros Hinv Hs Hk. pose proof Hk as [Hlen _]. destruct (decide (i = j)) as [->|Hne].
  2:{ destruct Hs; cbn [a_log]; rewrite ?fn_lookup_insert_ne by done; done. }
  destruct Hs as [e Q _ _ _ _ _|e _ _ _|n _ Hp Hn|f Hl Hd|n _ _ _]; cbn [a_log]; rewrite ?fn_lookup_insert; try done.
  - by rewrite take_app_short.
  - by rewrite take_app_short.
  - destruct Hp as [K ->]. rewrite take_take, take_app_short by lia. rewrite Nat.min_l by lia. done.
  - pose proof (cprefix_in_leader ids s _ _ k Hinv Hk Hl) as E.
    destruct (decide (k <= f)%nat) as [Hle|Hgt]; [by rewrite take_take, Nat.min_l by lia|].
    exfalso. apply Hd. apply (take_eq_le _ _ k); [done|lia].
Qed.

Lemma settled_step s s' j k : ainv ids s -> astep ids s s' -> settled s j k -> settled s' j k /\ take k (a_log s j) = take k (a_log s' j).
Proof.
  intros Hinv Hs Hk. assert (take k (a_log s j) = take k (a_log s' j)) as E.
  { destruct Hs as [i [Hs|Hs]]; [by destruct Hs|by eapply settled_lstep]. }
  split; [|done]. destruct (astep_ok ids s s' Hinv Hs) as [i Hok].
  apply (cprefix_mono ids s s' (a_term s j) _ (a_log s j)); [apply Hok|apply (gx_term s s'), Hok|done|done].
Qed.

Lemma settled_steps s s' j k :
  ainv ids s -> rtc (astep ids) s s' -> settled s j k -> settled s' j k /\ take k (a_log s j) = take k (a_log s' j).
Proof.
  intros Hinv Hs. induction Hs as [s|s1 s2 s3 H12 _ IH]; [done|]. intros Hk.
  destruct (settled_step s1 s2 j k Hinv H12 Hk) as [Hk2 E]. destruct (astep_ok ids s1 s2 Hinv H12) as [i Hok].
  destruct (IH (ainv_step _ _ _ _ Hinv Hok) Hk2) as [Hk3 E3]. split; [done|]. by rewrite E.
Qed.

(** An entry that was applied by node [i]. *)
Definition applied_entry (s : astate) (i : Z) (e : Entry) : Prop :=
  exists k, settled s i (S k) /\ (toEntry <$> a_log s i) !! k = Some e.

Lemma applied_entry_steps s s' i e : ainv ids s -> rtc (astep ids) s s' -> applied_entry s i e -> applied_entry s' i e.
Proof.
  intros Hinv Hs (k & Hk & He). destruct (settled_steps s s' i (S k) Hinv Hs Hk) as [Hk' E].
  exists k. split; [done|]. rewrite list_lookup_fmap in *. rewrite <- He. f_equal.
  rewrite <- (lookup_take_lt (a_log s' i) (S k)), <- E, lookup_take_lt by lia. done.
Qed.

(** Applied entries of one position are equal. *)
Lemma applied_entry_agree s i j e e' :
  ainv ids s -> entries_wf (toEntry <$> a_log s i) -> entries_wf (toEntry <$> a_log s j) ->
  applied_entry s i e -> applied_entry s j e' -> Index e = Index e' -> e = e'.
Proof.
  intros Hinv [Hi _] [Hj _] (k & Pk & Ek) (k' & Pk' & Ek') Eidx.
  assert (k = k') as <- by (pose proof (Hi _ _ Ek); pose proof (Hj _ _ Ek'); lia).
  pose proof (cprefix_agree ids s _ _ _ _ (S k) (S k) Hinv Pk Pk' ltac:(lia)) as E.
  rewrite list_lookup_fmap, <- (lookup_take_lt _ (S k)), E, lookup_take_lt, <- list_lookup_fmap in Ek by lia. congruence.
Qed.
End settled.

(** * Events of the ideal cluster *)

Section ideal.
Context (cfgs : Z -> Config) (ids : list Z) (Hcfg : cluster_cfg cfgs ids).

Notation ideal := (cluster (S := MemStorage)).

Lemma mem_Save_none hs es m : (mem_Save hs es m).2 = None.
Proof. done. Qed.

(** On an ideal storage a host never fails, and its new state is that of the node and the
    storage. *)
Lemma ideal_host_event ev (h : Host MemStorage (list Entry)) :
  stopped h = None -> is_Some (h_Applier h) ->
  let n := node_event ev (h_Node h) in
  let rd := readyWithoutCapture n in
  exists h', host_event ev h = (h', r_Messages rd, None) /\
    h_Node h' = Advance (captureReady rd n) /\ h_Storage h' = (mem_Save (r_HardState rd) (r_Entries rd) (h_Storage h)).1.
Proof.
  intros Hst [a Ha] n rd.
  assert (forall h1, h_Node h1 = n -> h_Storage h1 = h_Storage h -> h_Applier h1 = Some a -> exists h',
    processReadyLocked h1 = (h', r_Messages rd, None) /\
    h_Node h' = Advance (captureReady rd n) /\ h_Storage h' = (mem_Save (r_HardState rd) (r_Entries rd) (h_Storage h)).1) as Hp.
  { intros h1 E1 E2 E3. unfold processReadyLocked, processReady, NodeReady. rewrite E1, E2, E3. fold rd. cbv zeta.
    change (Save (r_HardState rd) (r_Entries rd) (h_Storage h)) with (mem_Save (r_HardState rd) (r_Entries rd) (h_Storage h)).
    pose proof (mem_Save_none (r_HardState rd) (r_Entries rd) (h_Storage h)) as En. destruct (mem_Save _ _ _) as [m' e]. cbn [snd] in En. subst e.
    unfold applyCommitted. rewrite applyAll_recorder. by eexists. }
  destruct ev as [|m|d]; cbn [host_event]; unfold HostTick, HostStep, HostPropose; rewrite Hst.
  - by apply Hp.
  - apply Hp; unfold recordLeaderHintLocked; destruct m as [? ? ? [[]|]]; try done; by case_bool.
  - subst n rd. cbn [node_event] in *. destruct (Propose d (h_Node h)) as [n' [[idx t] isL]]. cbn [fst] in *.
    set (h2 := if isL then _ else _).
    destruct (Hp h2) as (h' & -> & E); [subst h2; unfold recordLeaderHintLocked; repeat case_bool; done..|]. by exists h'.
Qed.

Lemma mem_fits hs es : fits (S := MemStorage) hs es.
Proof. done. Qed.

(** * Provenance and ownership *)

(** Every entry of a log or of a message satisfies the predicate. *)
Definition cluster_holds (P : Entry -> Prop) (c : ideal) : Prop :=
  (forall i, i ∈ ids -> log_holds P (log (h_Node (hosts c i)))) /\ Forall (msg_holds P) (net c).

(** What the event brings satisfies the predicate, and so does the empty entry of a node
    that it makes a leader. *)
Definition event_holds (P : Entry -> Prop) (ev : event) (n : Node) : Prop :=
  (role n <> leader -> starts_term P (node_event ev n)) /\
  match ev with
  | EvPropose d => role n = leader -> P (mkEntry (lastIndex (log n) +u 1) (hs_Term (hardState n)) EntryType_NORMAL d)
  | _ => True
  end.

(** A position was filled by the leader of the term: the leader has moved on to a later
    term, or no longer leads, or leads with a log that covers the position. *)
Definition owned (s : astate) (c : ideal) (idx T : Z) : Prop :=
  exists i, i ∈ ids /\ g_leader s T = Some i /\
    let n := h_Node (hosts c i) in
    T < hs_Term (hardState n) \/ (T = hs_Term (hardState n) /\ (role n = leader -> idx <= lastIndex (log n))).

(** The event fills the position now. *)
Definition filled (c : ideal) (i : Z) (ev : event) (idx T : Z) : Prop :=
  let n := h_Node (hosts c i) in
  role n = leader /\ T = hs_Term (hardState n) /\ idx <= lastIndex (log (node_event ev n)).

Lemma CI_log s (c : ideal) i : CI ids s c -> i ∈ ids -> entries (log (h_Node (hosts c i))) = a_log s i /\ hs_Term (hardState (h_Node (hosts c i))) = a_term s i.
Proof. intros HC Hi. pose proof (hi_ni _ _ _ _ (ci_hosts _ _ _ HC i Hi)) as HN. split; [apply (ni_log HN)|apply (ni_term HN)]. Qed.

Lemma CI_last s (c : ideal) i : CI ids s c -> i ∈ ids -> lastIndex (log (h_Node (hosts c i))) = Z.of_nat (length (a_log s i)).
Proof. intros HC Hi. pose proof (hi_ni _ _ _ _ (ci_hosts _ _ _ HC i Hi)) as HN. apply (ni_last _ _ _ _ _ _ HN). Qed.

Lemma CI_store_log s (c : ideal) i : CI ids s c -> i ∈ ids -> ms_entries (h_Storage (hosts c i)) = toEntry <$> entries (log (h_Node (hosts c i))).
Proof.
  intros HC Hi. pose proof (hi_dur _ _ _ _ (ci_hosts _ _ _ HC i Hi)) as Hd. apply (f_equal snd) in Hd. cbn [snd] in Hd.
  rewrite (proj1 (CI_log s c i HC Hi)). exact Hd.
Qed.

Lemma CI_leads s (c : ideal) i : CI ids s c -> i ∈ ids -> role (h_Node (hosts c i)) = leader ->
  g_leader s (a_term s i) = Some i /\ a_log s i = g_tlog s (a_term s i).
Proof.
  intros HC Hi Hr. pose proof (ni_role (hi_ni _ _ _ _ (ci_hosts _ _ _ HC i Hi))) as Hro. unfold role_ok in Hro. rewrite Hr in Hro.
  by destruct Hro as (H1 & H2 & _).
Qed.

(** Ownership over a step of host [i], to [h']. *)
Lemma owned_step s s' (c c' : ideal) i ev idx T :
  CI ids s c -> CI ids s' c' -> rtc (astep ids) s s' -> i ∈ ids -> has_room (h_Node (hosts c i)) ->
  (forall j, j <> i -> hosts c' j = hosts c j) ->
  (role (h_Node (hosts c' i)) = leader ->
     role (node_event ev (h_Node (hosts c i))) = leader /\ lastIndex (log (h_Node (hosts c' i))) = lastIndex (log (node_event ev (h_Node (hosts c i)))) /\
     hs_Term (hardState (h_Node (hosts c' i))) = hs_Term (hardState (node_event ev (h_Node (hosts c i))))) ->
  owned s c idx T \/ filled c i ev idx T -> owned s' c' idx T.
Proof.
  intros HC HC' Hs Hi [_ Hroom] Hother Hlead Ho. destruct (asteps_inv ids s s' (ci_inv _ _ _ HC) Hs) as [_ Hx].
  pose proof (CI_log s c i HC Hi) as [_ Et]. pose proof (CI_log s' c' i HC' Hi) as [_ Et']. pose proof (gx_term _ _ Hx i) as Hterm.
  destruct Ho as [(j & Hj & Hg & Hor)|(Hr & -> & Hidx)].
  - exists j. split; [done|]. split; [by apply (gx_leader _ _ Hx)|]. cbv zeta. destruct (decide (j = i)) as [->|Hne]; [|by rewrite Hother].
    cbv zeta in Hor. destruct Hor as [Hlt|[-> Hlen]]; [left; lia|].
    destruct (decide (hs_Term (hardState (h_Node (hosts c i))) < hs_Term (hardState (h_Node (hosts c' i))))) as [|Hge]; [by left|right].
    split; [lia|]. intros Hl'. destruct (Hlead Hl') as (Hl & Elen & Eterm). rewrite Elen.
    destruct (leads_after ev _ Hl) as [Hr|[Hr|Hr]].
    + specialize (Hlen Hr). rewrite <- Elen. rewrite (CI_last s c i HC Hi) in Hlen. rewrite (CI_last s' c' i HC' Hi).
      destruct (CI_leads s c i HC Hi Hr) as [Hg1 E1], (CI_leads s' c' i HC' Hi Hl') as [Hg2 E2].
      assert (a_term s' i = a_term s i) as E by lia. rewrite E in E2. pose proof (gx_tlog _ _ Hx (a_term s i) ltac:(by eexists)) as Hp.
      apply prefix_length in Hp. rewrite <- E1, <- E2 in Hp. lia.
    + pose proof (ni_role (hi_ni _ _ _ _ (ci_hosts _ _ _ HC i Hi))) as Hro. unfold role_ok in Hro. rewrite Hr in Hro. destruct Hro as (_ & Hro & _).
      rewrite Et in Hg. done.
    + pose proof (leader_pos ids s (ci_inv _ _ _ HC) _ ltac:(by eexists)) as Hpos. rewrite u64_add_small in Hr by lia. lia.
  - destruct (CI_leads s c i HC Hi Hr) as [Hg1 E1]. exists i. split; [done|]. rewrite Et in *. split; [by apply (gx_leader _ _ Hx)|]. cbv zeta.
    destruct (decide (a_term s i < hs_Term (hardState (h_Node (hosts c' i))))) as [|Hge]; [by left|right]. split; [lia|].
    intros Hl'. destruct (Hlead Hl') as (Hl & Elen & Eterm). by rewrite Elen.
Qed.

(** No position of a term is owned when a node starts to lead it. *)
Lemma unowned_term s (c : ideal) i ev idx :
  CI ids s c -> i ∈ ids -> deliverable c i ev -> has_room (h_Node (hosts c i)) ->
  role (h_Node (hosts c i)) <> leader -> role (node_event ev (h_Node (hosts c i))) = leader ->
  ~ owned s c idx (hs_Term (hardState (node_event ev (h_Node (hosts c i))))).
Proof using Hcfg.
  intros HC Hi Hdel Hroom Hr Hl (j & Hj & Hg & Hor). destruct Hcfg as (Hnd & Hlen & Hcf).
  destruct (node_event_evolves cfgs ids Hnd Hlen Hcf s c i ev HC Hi Hdel Hroom) as (s1 & s' & Hs1 & Hs' & HN & _).
  destruct (evolves_frame ids s i s1 s' (ci_inv _ _ _ HC) Hs1 Hs') as (_ & F & _). pose proof (fr_gext _ _ _ _ F) as Hx.
  pose proof (ni_role HN) as Hro. unfold role_ok in Hro. rewrite Hl in Hro. destruct Hro as [Hro _]. rewrite (ni_term HN) in *.
  pose proof (gx_leader _ _ Hx _ _ Hg) as Hg'. assert (j = i) as -> by congruence. cbv zeta in Hor. pose proof (gx_term _ _ Hx i) as Hterm.
  pose proof (CI_log s c i HC Hi) as [_ Et]. destruct Hor as [Hlt|[Heq _]]; [lia|].
  destruct (leads_after ev _ Hl) as [Hc|[Hc|Hc]]; [done| |].
  - pose proof (ni_role (hi_ni _ _ _ _ (ci_hosts _ _ _ HC i Hi))) as Hro0. unfold role_ok in Hro0. rewrite Hc in Hro0. destruct Hro0 as (_ & Hro0 & _).
    apply Hro0. by rewrite <- Et, <- Heq.
  - destruct Hroom as [_ Hroom]. pose proof (inv_term _ _ (ci_inv _ _ _ HC) i). rewrite (ni_term HN), u64_add_small in Hc by lia. lia.
Qed.

(** An event: the step of the cluster, the node and the storage after it, and what the event
    lets the host apply. *)
Lemma ideal_event s (c : ideal) i ev :
  CI ids s c -> i ∈ ids -> deliverable c i ev -> has_room (h_Node (hosts c i)) ->
  let n := node_event ev (h_Node (hosts c i)) in
  let rd := readyWithoutCapture n in
  batch_wf (ms_entries (h_Storage (hosts c i))) (r_Entries rd) /\
  exists h' s', let c' := mkCluster (<[i := h']> (hosts c)) (net c ++ r_Messages rd) in
    cstep cfgs ids c c' /\ rtc (astep ids) s s' /\ CI ids s' c' /\
    h_Node h' = Advance (captureReady rd n) /\
    h_Storage h' = (mem_Save (r_HardState rd) (r_Entries rd) (h_Storage (hosts c i))).1 /\
    Forall (applied_entry ids s' i) (r_CommittedEntries rd).
Proof using Hcfg.
  intros HC Hi Hdel Hroom n rd. destruct Hcfg as (Hnd & Hlen & Hcf). pose proof HC as [Hinv Hg Hh Hn].
  destruct (Hh i Hi) as [Hok Hd HN0 Hrest Hm Hc Hap Hst].
  destruct (node_event_evolves cfgs ids Hnd Hlen Hcf s c i ev HC Hi Hdel Hroom) as (s1 & s' & Hs1 & Hs' & HN & Hg' & _).
  split. { pose proof (ready_batch_wf _ _ _ _ _ _ HN) as Hb. apply (f_equal snd) in Hd. cbn [snd] in Hd. by rewrite <- Hd in Hb. }
  destruct (ideal_host_event ev (hosts c i) Hst ltac:(by rewrite Hap)) as (h' & He & En & Es). fold n rd in He, En, Es.
  destruct (CI_event cfgs ids Hnd Hlen Hcf s c i ev h' _ HC Hi Hdel Hroom (mem_fits _ _) He) as (s2 & _ & R & HC').
  exists h', s2. split; [by econstructor|]. split; [done|]. split; [done|]. split; [done|]. split; [done|].
  pose proof (hi_ni _ _ _ _ (ci_hosts _ _ _ HC' i Hi)) as HN2. cbn [hosts] in HN2. rewrite fn_lookup_insert in HN2.
  assert (h_Node h' = rested n) as Er by (rewrite En; exact (Advance_rested _ _ _ _ _ _ HN)).
  assert (a_log s2 i = a_log s' i) as El by (rewrite <- (ni_log HN2), <- (ni_log HN), Er; done).
  assert (commitIndex (h_Node h') = commitIndex n) as Ec by (by rewrite Er).
  assert (r_CommittedEntries rd = _) as -> by exact (ready_committed _ _ _ _ _ _ HN). fold n. apply Forall_lookup. intros k e He'.
  rewrite list_lookup_fmap in He'. apply fmap_Some in He' as (x & [Hx Hk]%lookup_take_Some & ->). rewrite lookup_drop in Hx.
  exists (Z.to_nat (lastApplied n) + k)%nat. split.
  - destruct (ni_commit HN2) as [_ Hcp]. rewrite Ec in Hcp. eapply cprefix_le; [exact Hcp|lia].
  - rewrite list_lookup_fmap, El, Hx. done.
Qed.

(** A crash of the save: whatever it leaves of the batch is the storage of a step. *)
Lemma ideal_crash s (c : ideal) i ev d :
  CI ids s c -> i ∈ ids -> deliverable c i ev -> has_room (h_Node (hosts c i)) ->
  let rd := readyWithoutCapture (node_event ev (h_Node (hosts c i))) in
  let st := h_Storage (hosts c i) in
  d ∈ torn (r_HardState rd) (r_Entries rd) (ms_hard st, ms_entries st) ->
  exists h' s', let c' := mkCluster (<[i := h']> (hosts c)) (net c) in
    cstep cfgs ids c c' /\ rtc (astep ids) s s' /\ CI ids s' c' /\ h_Storage h' = mkMemStorage d.1 d.2 /\
    h_Node h' = NewNode (cfgs i) (mkInitialState d.1 d.2 (mkSnapshotMeta 0 0)) None.
Proof using Hcfg.
  intros HC Hi Hdel Hroom rd st Hd. destruct (ideal_event s c i ev HC Hi Hdel Hroom) as [Hb _].
  destruct Hcfg as (Hnd & Hlen & Hcf). pose proof (hi_ok _ _ _ _ (ci_hosts _ _ _ HC i Hi)) as Hok.
  destruct (mem_torn_reached _ _ _ _ Hd) as [k Hk].
  destruct (crash_save_spec k (r_HardState rd) (r_Entries rd) st Hok Hb (mem_fits _ _)) as [Hok' _].
  cbn [crash_save MemStorage_Safe] in Hok'. rewrite Hk in Hok'.
  set (h' := mkHost (NewNode (cfgs i) (mkInitialState d.1 d.2 (mkSnapshotMeta 0 0)) None) (mkMemStorage d.1 d.2) (Some ([] : list Entry)) i None 0).
  assert (cstep cfgs ids c (mkCluster (<[i := h']> (hosts c)) (net c))) as Hs.
  { apply (c_crash_in_save cfgs ids c i ev k None h'); try done. fold rd. cbn [crash_save MemStorage_Safe]. fold st. rewrite Hk.
    eexists. split; [|done]. by rewrite (recovered_entries (mkMemStorage d.1 d.2) d.1 d.2 Hok'). }
  destruct (CI_step cfgs ids Hnd Hlen Hcf s c _ HC Hs) as (s' & R & HC'). by exists h', s'.
Qed.

(** A restart. *)
Lemma ideal_restart s (c : ideal) i r :
  CI ids s c -> i ∈ ids ->
  let st := h_Storage (hosts c i) in
  exists h' s', let c' := mkCluster (<[i := h']> (hosts c)) (net c) in
    cstep cfgs ids c c' /\ rtc (astep ids) s s' /\ CI ids s' c' /\ h_Storage h' = st /\
    h_Node h' = NewNode (cfgs i) (mkInitialState (ms_hard st) (ms_entries st) (mkSnapshotMeta 0 0)) r.
Proof using Hcfg.
  intros HC Hi st. destruct Hcfg as (Hnd & Hlen & Hcf). pose proof (hi_ok _ _ _ _ (ci_hosts _ _ _ HC i Hi)) as Hok. fold st in Hok.
  set (h' := mkHost (NewNode (cfgs i) (mkInitialState (ms_hard st) (ms_entries st) (mkSnapshotMeta 0 0)) r) st (Some ([] : list Entry)) i None 0).
  assert (cstep cfgs ids c (mkCluster (<[i := h']> (hosts c)) (net c))) as Hs.
  { apply (c_restart cfgs ids c i r h'); [done|]. cbn [reopen MemStorage_Safe]. fold st.
    eexists. split; [|done]. by rewrite (recovered_entries st (ms_hard st) (ms_entries st) Hok). }
  destruct (CI_step cfgs ids Hnd Hlen Hcf s c _ HC Hs) as (s' & R & HC'). by exists h', s'.
Qed.

(** * What the steps keep *)

Lemma Advance_keeps n : log (Advance n) = log n /\ role (Advance n) = role n /\ hardState (Advance n) = hardState n.
Proof. unfold Advance. cbv zeta. repeat case_match; done. Qed.

Lemma finished_keeps n : let n' := Advance (captureReady (readyWithoutCapture n) n) in log n' = log n /\ role n' = role n /\ hardState n' = hardState n.
Proof. cbv zeta. destruct (Advance_keeps (captureReady (readyWithoutCapture n) n)) as (-> & -> & ->). done. Qed.

Section kept.
Context (P : Entry -> Prop).
Context (s s' : astate) (c : ideal) (i : Z) (ev : event) (h' : Host MemStorage (list Entry)).
Context (HC : CI ids s c) (Hi : i ∈ ids) (Hroom : has_room (h_Node (hosts c i))) (Hs : rtc (astep ids) s s').
Let n := node_event ev (h_Node (hosts c i)).
Let rd := readyWithoutCapture n.

Lemma node_after_holds : cluster_holds P c -> deliverable c i ev -> event_holds P ev (h_Node (hosts c i)) -> node_holds P n.
Proof using HC Hi.
  intros [H1 H2] Hdel [Hnew Hev]. apply node_event_holds; [done|..].
  - split; [by apply H1|]. by rewrite (hi_msgs _ _ _ _ (ci_hosts _ _ _ HC i Hi)).
  - destruct ev as [|m|d]; [done| |done]. destruct Hdel as [Hm _]. rewrite Forall_forall in H2. by apply H2.
Qed.

Lemma event_keeps_holds :
  h_Node h' = Advance (captureReady rd n) -> cluster_holds P c -> deliverable c i ev -> event_holds P ev (h_Node (hosts c i)) ->
  cluster_holds P (mkCluster (<[i := h']> (hosts c)) (net c ++ r_Messages rd)).
Proof using HC Hi.
  intros En Hc Hdel Hev. destruct (node_after_holds Hc Hdel Hev) as [Hl Hm]. destruct Hc as [H1 H2]. split; cbn [hosts net].
  - intros j Hj. destruct (decide (i = j)) as [<-|Hne]; [|rewrite fn_lookup_insert_ne by done; by apply H1].
    rewrite fn_lookup_insert, En. unfold rd. by rewrite (proj1 (finished_keeps n)).
  - apply Forall_app. by split.
Qed.

(** What a torn save leaves satisfies the predicate. *)
Lemma torn_holds d :
  cluster_holds P c -> deliverable c i ev -> event_holds P ev (h_Node (hosts c i)) ->
  d ∈ torn (r_HardState rd) (r_Entries rd) (ms_hard (h_Storage (hosts c i)), ms_entries (h_Storage (hosts c i))) -> Forall P d.2.
Proof using HC Hi.
  intros Hc Hdel Hev Hd. pose proof (proj1 Hc i Hi) as Hold. unfold log_holds in Hold. rewrite <- (CI_store_log s c i HC Hi) in Hold.
  pose proof (rangeEntries_holds P (log n)) as Hnew. destruct (node_after_holds Hc Hdel Hev) as [Hl _].
  assert (Forall P (r_Entries rd)) as Hes by (unfold rd, readyWithoutCapture; cbn [r_Entries]; case_bool; [by apply Hnew|done]).
  apply elem_of_torn in Hd as [->|[->|[->| ->]]]; cbn [fst snd]; [done|done| |].
  - destruct (r_Entries rd); [done|by apply Forall_take].
  - unfold saved. cbn [fst snd]. destruct (r_Entries rd) as [|e es]; [done|]. apply Forall_app. split; [by apply Forall_take|done].
Qed.

(** A host that starts from a storage. *)
Lemma boot_keeps_holds st r :
  cluster_holds P c -> Forall P (ms_entries st) ->
  h_Node h' = NewNode (cfgs i) (mkInitialState (ms_hard st) (ms_entries st) (mkSnapshotMeta 0 0)) r ->
  cluster_holds P (mkCluster (<[i := h']> (hosts c)) (net c)) /\ role (h_Node h') = follower.
Proof using Hi.
  intros [H1 H2] Hst En. unfold NewNode in En. set (n0 := with_unstableIndex _ _) in En. destruct (reset_same n0) as [E1 _], (reset_role_hard n0) as [E2 _].
  split; [|by rewrite En, E2]. split; [|done]. cbn [hosts]. intros j Hj.
  destruct (decide (i = j)) as [<-|Hne]; [|rewrite fn_lookup_insert_ne by done; by apply H1].
  rewrite fn_lookup_insert, En, E1. unfold log_holds, n0. cbn [log with_unstableIndex newRaftLog entries init_Entries]. by rewrite fmap_toEntry_ofEntry.
Qed.

Lemma event_keeps_owned ms idx T :
  let c' := mkCluster (<[i := h']> (hosts c)) (net c ++ ms) in
  h_Node h' = Advance (captureReady rd n) -> CI ids s' c' -> owned s c idx T \/ filled c i ev idx T -> owned s' c' idx T.
Proof using HC Hi Hroom Hs.
  intros c' En HC' Ho. apply (owned_step s s' c c' i ev); try done; unfold c'; cbn [hosts]; rewrite ?fn_lookup_insert, ?En; unfold rd.
  - intros j Hj. by rewrite fn_lookup_insert_ne.
  - destruct (finished_keeps n) as (-> & -> & ->). done.
Qed.

Lemma boot_keeps_owned ms idx T :
  let c' := mkCluster (<[i := h']> (hosts c)) (net c ++ ms) in
  role (h_Node h') = follower -> CI ids s' c' -> owned s c idx T \/ filled c i ev idx T -> owned s' c' idx T.
Proof using HC Hi Hroom Hs.
  intros c' Er HC' Ho. apply (owned_step s s' c c' i ev); try done; unfold c'; cbn [hosts]; rewrite ?fn_lookup_insert, ?Er; [|done].
  intros j Hj. by rewrite fn_lookup_insert_ne.
Qed.
End kept.

(** Ownership and a restart, which needs no room. *)
Lemma restart_keeps_owned s s' (c : ideal) i h' idx T :
  CI ids s c -> i ∈ ids -> rtc (astep ids) s s' -> let c' := mkCluster (<[i := h']> (hosts c)) (net c) in
  role (h_Node h') = follower -> CI ids s' c' -> owned s c idx T -> owned s' c' idx T.
Proof.
  intros HC Hi Hs c' Er HC' (j & Hj & Hg & Hor). destruct (asteps_inv ids s s' (ci_inv _ _ _ HC) Hs) as [_ Hx].
  exists j. split; [done|]. split; [by apply (gx_leader _ _ Hx)|]. cbv zeta in *. destruct (decide (j = i)) as [->|Hne].
  - pose proof (CI_log s c i HC Hi) as [_ Et]. pose proof (CI_log s' c' i HC' Hi) as [_ Et']. pose proof (gx_term _ _ Hx i) as Hterm.
    assert (role (h_Node (hosts c' i)) = follower) as Er' by (unfold c'; cbn [hosts]; by rewrite fn_lookup_insert).
    rewrite Er'. destruct (decide (T < hs_Term (hardState (h_Node (hosts c' i))))) as [|Hge]; [by left|right]. split; [|done]. destruct Hor as [?|[-> _]]; lia.
  - unfold c'. cbn [hosts]. by rewrite fn_lookup_insert_ne.
Qed.
End ideal.
