(* ===== verification/SimFrame.v ===== *)
(** What the operations of the simulator leave alone: the frame of each operation, as the
    node it sets and the parts of the state it keeps. *)

From S2P Require Import Prelude Proto RaftLog RaftNode Storage Server Bytes WalRecords CrashStorage MapSM Checker CheckerFacts SimInvariant DiskLog SimFS Float64 FaultSchedule Heap Workload SimLoop.

(** An update of the fields that the frame below does not speak of. *)
Ltac calm_update := split; [|done]; split; try done; by left.

Section frame.
Context {E M : Type} {engine : SimEngine E M}.
Notation simulator := (Simulator E M).
Notation node := (simNode E M).

(** A message waits in the queue. *)
Definition queued (m : Message) (s : simulator) : Prop := exists ev, ev ∈ s_queue s /\ se_kind ev = eventMessage m.

(** The node of a tick, of a crash or of a restart is there. *)
Definition known (s : simulator) (k : eventKind) : Prop :=
  match k with eventTick i _ | eventCrash i | eventRestart i => is_Some (s_nodes s !! i) | _ => True end.

Definition is_message (k : eventKind) : bool := match k with eventMessage _ => true | _ => false end.

(** The runner of the workload, if it was started. *)
Definition runner_of (s : simulator) : option Runner := sw_runner <$> s_workload s.

(** Nodes apart: nothing is sent, observed or checked, no error arises and no client is
    touched. *)
Record quiet (s s' : simulator) : Prop := mkQuiet {
  q_order : s_order s' = s_order s;
  q_leaders : s_leaders s' = s_leaders s;
  q_invs : s_invariants s' = s_invariants s;
  q_now : s_now s' = s_now s;
  q_err : s_runErr s' = s_runErr s;
  q_runner : runner_of s' = runner_of s;
  q_dom : forall i, is_Some (s_nodes s' !! i) <-> is_Some (s_nodes s !! i);
  q_events : forall ev, ev ∈ s_queue s' -> ev ∈ s_queue s \/ (is_message (se_kind ev) = false /\ known s (se_kind ev));
}.

Lemma known_dom s s' k : (forall i, is_Some (s_nodes s' !! i) <-> is_Some (s_nodes s !! i)) -> known s' k -> known s k.
Proof. intros Hd. destruct k; cbn [known]; try done; apply Hd. Qed.

#[export] Instance quiet_preorder : PreOrder quiet.
Proof.
  split; [split; try done; by left|]. intros s1 s2 s3 [A1 A2 A3 A4 A5 A6 A7 A8] [B1 B2 B3 B4 B5 B6 B7 B8]. split; [by etrans..| |].
  - intros i. by rewrite B7.
  - intros ev [H|[H1 H2]]%B8; [by apply A8|]. right. split; [done|by eapply known_dom].
Qed.

Lemma q_queue s s' m : quiet s s' -> queued m s' -> queued m s.
Proof.
  intros Hq (ev & Hin & Hk). apply (q_events _ _ Hq) in Hin as [Hin|[Hm _]]; [by exists ev|]. by rewrite Hk in Hm.
Qed.

(** The nodes are kept too. *)
Definition calm (s s' : simulator) : Prop := quiet s s' /\ s_nodes s' = s_nodes s.

#[export] Instance calm_preorder : PreOrder calm.
Proof. split; [by split|]. intros s1 s2 s3 [A1 A2] [B1 B2]. split; by etrans. Qed.

(** Node [i] is set, to [sn]. *)
Definition sets (i : Z) (sn : node) (s s' : simulator) : Prop := quiet s s' /\ s_nodes s' = <[i := sn]> (s_nodes s).

Lemma sets_trans i a b s1 s2 s3 : sets i a s1 s2 -> sets i b s2 s3 -> sets i b s1 s3.
Proof. intros [Q1 E1] [Q2 E2]. split; [by etrans|]. by rewrite E2, E1, insert_insert_eq. Qed.

Lemma sets_calm i a s1 s2 s3 : sets i a s1 s2 -> calm s2 s3 -> sets i a s1 s3.
Proof. intros [Q1 E1] [Q2 E2]. split; [by etrans|]. by rewrite E2. Qed.

Lemma calm_sets i a s1 s2 s3 : calm s1 s2 -> sets i a s2 s3 -> sets i a s1 s3.
Proof. intros [Q1 E1] [Q2 E2]. split; [by etrans|]. by rewrite E2, E1. Qed.

Lemma calm_as_sets i sn s s' : s_nodes s !! i = Some sn -> calm s s' -> sets i sn s s'.
Proof. intros Hi [Q E1]. split; [done|]. by rewrite E1, insert_id. Qed.

Lemma sets_lookup i sn s s' : sets i sn s s' -> s_nodes s' !! i = Some sn.
Proof. intros [_ ->]. apply lookup_insert_eq. Qed.

Lemma sets_lookup_ne i j sn s s' : sets i sn s s' -> j <> i -> s_nodes s' !! j = s_nodes s !! j.
Proof. intros [_ ->] Hj. by rewrite lookup_insert_ne. Qed.

(** * Operations *)

Lemma upd_node_sets i f s sn : s_nodes s !! i = Some sn -> sets i (f sn) s (upd_node i f s).
Proof.
  intros Hi. split.
  { split; try done; [|by left]. intros j. apply lookup_alter_is_Some. }
  cbn. apply map_eq. intros j. destruct (decide (i = j)) as [->|Hne].
  - by rewrite lookup_alter_eq, Hi, lookup_insert_eq.
  - by rewrite lookup_alter_ne, lookup_insert_ne.
Qed.

Lemma record_calm f args s : calm s (record f args s).
Proof. calm_update. Qed.

(** The queue after a push. *)
Lemma pushAt_queued at_ k s m : queued m (pushAt at_ k s) -> k = eventMessage m \/ queued m s.
Proof.
  intros (ev & Hin & Hk). cbn in Hin. rewrite heap_push_perm in Hin. apply elem_of_cons in Hin as [->|Hin]; [by left|].
  right. by exists ev.
Qed.

Lemma pushAt_calm at_ k s : is_message k = false -> known s k -> calm s (pushAt at_ k s).
Proof.
  intros Hk Hn. split; [|done]. split; try done. intros ev Hin. cbn in Hin. rewrite heap_push_perm in Hin.
  apply elem_of_cons in Hin as [->|Hin]; [by right|by left].
Qed.

Lemma set_restarts_calm r ds l (s : simulator) : calm s (set_restarts r ds l s).
Proof. calm_update. Qed.

(** A change of the workload that keeps its runner. *)
Lemma set_workload_calm w s : sw_runner <$> w = runner_of s -> calm s (set_workload w (s_runErr s) s).
Proof. intros Hw. calm_update. Qed.

Lemma scheduleTick_calm i at_ s : is_Some (s_nodes s !! i) -> calm s (scheduleTick i at_ s).
Proof. intros [sn Hi]. unfold scheduleTick. rewrite Hi. apply pushAt_calm; [done|]. by exists sn. Qed.

Lemma recordCrashFiring_calm i info s : calm s (recordCrashFiring i info s).
Proof. calm_update. Qed.

Lemma scheduleRestartAfterStorageCrash_calm i info s : is_Some (s_nodes s !! i) -> calm s (scheduleRestartAfterStorageCrash i info s).
Proof.
  intros Hi. unfold scheduleRestartAfterStorageCrash. cbv zeta. destruct (s_restartAfterCrash s !! _) as [point|]; [|reflexivity]. case_bool; [reflexivity|].
  etrans; [|apply record_calm]. etrans; [|by apply pushAt_calm]. apply set_restarts_calm.
Qed.

Lemma scheduleRestartAfterLSMCrash_calm i s : is_Some (s_nodes s !! i) -> calm s (scheduleRestartAfterLSMCrash i s).
Proof.
  intros Hi. unfold scheduleRestartAfterLSMCrash. destruct (firedLSMCrashKey i s) as [key|]; [|reflexivity].
  destruct (s_lsmRestartOnCrash s !! key) as [restart|]; [|reflexivity]. cbv zeta. destruct restart; cbn [negb]; [|apply set_restarts_calm].
  etrans; [|apply record_calm]. etrans; [|by apply pushAt_calm]. apply set_restarts_calm.
Qed.

Lemma observeWorkloadApply_calm i e res s : calm s (observeWorkloadApply i e res s).
Proof.
  unfold observeWorkloadApply. destruct (s_workload s) as [w|] eqn:Ew; [|reflexivity]. cbv zeta. case_bool; [reflexivity|].
  set (w' := Some (mkSimWorkload _ _ _)). assert (calm s (set_workload w' (s_runErr s) s)) as Hs1
    by (apply set_workload_calm; unfold runner_of; by rewrite Ew).
  transitivity (set_workload w' (s_runErr s) s); [exact Hs1|]. generalize (set_workload w' (s_runErr s) s). intros s1. generalize (default [] (sw_pending w !! mkApplyKey i (Index e))). clear.
  intros pending. revert s1. induction pending as [|p pending IH]; intros s1; [reflexivity|]. cbn [foldl]. etrans; [|apply IH]. clear IH.
  cbv zeta. destruct (if _ =? _ then _ else _) as [kind output]. etrans; [|by apply pushAt_calm].
  destruct (s_workload s1) as [w|] eqn:Ew; [|reflexivity]. apply set_workload_calm. unfold runner_of. by rewrite Ew.
Qed.

Lemma registerWorkloadAttempt_calm node index term sub s :
  s_workload s <> None -> calm s (registerWorkloadAttempt node index term sub s).
Proof.
  unfold registerWorkloadAttempt. destruct (s_workload s) as [w|] eqn:Ew; [|done]. intros _.
  etrans; [|apply record_calm]. apply set_workload_calm. unfold runner_of. by rewrite Ew.
Qed.

Lemma cancelWorkloadAttempt_calm a s : s_workload s <> None -> calm s (cancelWorkloadAttempt a s).
Proof.
  unfold cancelWorkloadAttempt. destruct (s_workload s) as [w|] eqn:Ew; [|done]. intros _. destruct (_ !! a); [|reflexivity].
  etrans; [|apply record_calm]. apply set_workload_calm. unfold runner_of. by rewrite Ew.
Qed.

(** * Processes *)

(** The durable side of a node and what it applied. *)
Definition same_disk (sn sn' : node) : Prop :=
  sn_cfg sn' = sn_cfg sn /\ sn_storage sn' = sn_storage sn /\ sn_applied sn' = sn_applied sn /\ sn_lastApplied sn' = sn_lastApplied sn.

#[export] Instance same_disk_preorder : PreOrder same_disk.
Proof. split; [done|]. intros a b c (A1 & A2 & A3 & A4) (B1 & B2 & B3 & B4). split_and!; congruence. Qed.

(** No process runs, or it is halted. *)
Definition dead (sn : node) : Prop := sn_node sn = None \/ sn_halted sn = true.

(** The operation kills the process of node [i]. *)
Definition kills (i : Z) (sn : node) (s s' : simulator) : Prop := exists sn', sets i sn' s s' /\ same_disk sn sn' /\ dead sn'.

Lemma kills_calm i sn s1 s2 s3 : kills i sn s1 s2 -> calm s2 s3 -> kills i sn s1 s3.
Proof. intros (sn' & H1 & H2) Hc. exists sn'. split; [by eapply sets_calm|done]. Qed.

Lemma sets_kills i sn a s1 s2 s3 : sets i a s1 s2 -> same_disk sn a -> kills i a s2 s3 -> kills i sn s1 s3.
Proof. intros H1 Hd (sn' & H2 & Hd' & Hx). exists sn'. split_and!; [by eapply sets_trans|by etrans|done]. Qed.

Lemma kills_lookup i sn s s' : kills i sn s s' -> is_Some (s_nodes s' !! i).
Proof. intros (sn' & H1 & _). exists sn'. by eapply sets_lookup. Qed.

Lemma markProcessCrashed_kills i s sn : s_nodes s !! i = Some sn -> kills i sn s (markProcessCrashed i s).
Proof.
  intros Hi. unfold markProcessCrashed. rewrite Hi.
  match goal with |- kills _ _ _ (let '(_, _) := ?x in _) => destruct x as [env s1] eqn:E1 end.
  assert (calm s s1) as Hc.
  { destruct (sn_sm sn) as [m|]; [destruct eng_crash as [crash|]; [destruct (crash _ _) as [[env' m'] [e|]]|]|]; injection E1 as <- <-;
      (reflexivity || apply record_calm). }
  assert (s_nodes s1 !! i = Some sn) as Hi1 by (destruct Hc as [_ ->]; done).
  eexists. split; [eapply calm_sets; [exact Hc|]; by apply upd_node_sets|]. split; [done|by left].
Qed.

Lemma markProcessHalted_kills i s sn : s_nodes s !! i = Some sn -> kills i sn s (markProcessHalted i s).
Proof. intros Hi. eexists. split; [by apply upd_node_sets|]. unfold markHalted. case_bool; (split; [done|by right]). Qed.

Lemma storageCrashed_kills i f args info s sn : s_nodes s !! i = Some sn -> kills i sn s (storageCrashed i f args info s).
Proof.
  intros Hi. unfold storageCrashed. pose proof (markProcessCrashed_kills i s sn Hi) as Hk. eapply kills_calm; [exact Hk|].
  apply kills_lookup in Hk. etrans; [|by apply scheduleRestartAfterStorageCrash_calm]. etrans; [|apply recordCrashFiring_calm]. apply record_calm.
Qed.

Lemma handleLSMProcessCrash_kills i f args s sn : s_nodes s !! i = Some sn -> kills i sn s (handleLSMProcessCrash i f args s).
Proof.
  intros Hi. unfold handleLSMProcessCrash. pose proof (markProcessCrashed_kills i s sn Hi) as Hk. eapply kills_calm; [exact Hk|].
  apply kills_lookup in Hk. etrans; [|by apply scheduleRestartAfterLSMCrash_calm]. apply record_calm.
Qed.

(** * Applying committed entries *)

(** Some of the entries were applied; the process that applied all of them goes on. *)
Definition applies (es : list Entry) (sn sn' : node) (ok : bool) : Prop :=
  sn_cfg sn' = sn_cfg sn /\ sn_storage sn' = sn_storage sn /\
  (exists k, sn_applied sn' = sn_applied sn ++ take k es) /\
  (sn_lastApplied sn' = sn_lastApplied sn \/ exists e, e ∈ es /\ sn_lastApplied sn' = Index e) /\
  if ok then sn_node sn' = sn_node sn /\ sn_halted sn' = sn_halted sn else dead sn'.

Lemma cloned_Entry e : mkEntry (Index e) (Term e) (Type_ e) (cloneBytes (Data e)) = e.
Proof. by destruct e. Qed.

Lemma applyOne_applies i e s sn s' ok :
  s_nodes s !! i = Some sn -> applyOne i e s = (s', ok) ->
  exists sn', sets i sn' s s' /\ applies [e] sn sn' ok /\ (ok = true -> sn_applied sn' = sn_applied sn ++ [e]).
Proof.
  intros Hi. unfold applyOne. rewrite Hi.
  match goal with |- (let '(_, _) := ?x in _) = _ -> _ => destruct x as [s1 r] eqn:E1 end.
  assert (exists sn1, sets i sn1 s s1 /\ same_disk sn sn1 /\ sn_node sn1 = sn_node sn /\ sn_halted sn1 = sn_halted sn) as (sn1 & H1 & Hd & En & Eh).
  { destruct (sn_sm sn) as [m|].
    - destruct (eng_apply e (sn_env sn) m) as [[env' m'] r']. injection E1 as <- <-. eexists. split; [by apply upd_node_sets|done].
    - injection E1 as <- <-. exists sn. split; [|done]. apply calm_as_sets; [done|reflexivity]. }
  clear E1. pose proof (sets_lookup _ _ _ _ H1) as Hi1. destruct Hd as (D1 & D2 & D3 & D4).
  assert (forall s2, kills i sn1 s1 s2 -> exists sn', sets i sn' s s2 /\ applies [e] sn sn' false) as Hk.
  { intros s2 (sn' & H2 & (F1 & F2 & F3 & F4) & Hx). exists sn'. split; [by eapply sets_trans|].
    split_and!; [congruence|congruence|exists 0%nat; rewrite app_nil_r; congruence|left; congruence|done]. }
  destruct r as [[|msg]|res]; intros Heq; injection Heq as <- <-.
  - edestruct Hk as (sn' & Hs & Ha); [by apply handleLSMProcessCrash_kills|]. exists sn'. split; [exact Hs|done].
  - edestruct Hk as (sn' & Hs & Ha); [eapply kills_calm; [by apply markProcessHalted_kills|apply record_calm]|].
    exists sn'. split; [exact Hs|done].
  - pose proof (observeWorkloadApply_calm i e res s1) as Hc.
    assert (s_nodes (observeWorkloadApply i e res s1) !! i = Some sn1) as Hi2 by (destruct Hc as [_ ->]; done).
    eexists. split; [eapply sets_trans; [exact H1|]; eapply calm_sets; [exact Hc|]; by apply upd_node_sets|].
    cbn [sn_applied with_applied sn_lastApplied sn_cfg sn_storage sn_node sn_halted]. rewrite D3, cloned_Entry. split; [|done].
    split_and!; [done|done|by exists 1%nat|right; exists e; split; [by apply list_elem_of_here|done]|done|done].
Qed.

Lemma applies_cons e es a b c ok :
  applies [e] a b true -> sn_applied b = sn_applied a ++ [e] -> applies es b c ok -> applies (e :: es) a c ok.
Proof.
  intros (A1 & A2 & _ & A4 & A5 & A6) Ea (B1 & B2 & [k Bk] & B4 & B5). split_and!; [congruence|congruence| | |].
  - exists (S k). by rewrite Bk, Ea, <- app_assoc.
  - destruct B4 as [->|(x & Hx & ->)].
    + destruct A4 as [->|(x & Hx & ->)]; [by left|right]. apply list_elem_of_singleton in Hx as ->. exists e. split; [by apply list_elem_of_here|done].
    + right. exists x. split; [by apply list_elem_of_further|done].
  - destruct ok; [|done]. destruct B5 as [-> ->]. done.
Qed.

Lemma applyCommittedEntries_applies i es s sn s' ok :
  s_nodes s !! i = Some sn -> applyCommittedEntries i es s = (s', ok) -> exists sn', sets i sn' s s' /\ applies es sn sn' ok.
Proof.
  revert s sn. induction es as [|e es IH]; intros s sn Hi; cbn [applyCommittedEntries].
  { intros [= <- <-]. exists sn. split; [by apply calm_as_sets|]. split_and!; [done|done|exists 0%nat; by rewrite app_nil_r|by left|done|done]. }
  destruct (applyOne i e s) as [s1 [|]] eqn:E1; destruct (applyOne_applies _ _ _ _ _ _ Hi E1) as (sn1 & H1 & Ha & Hap); intros Hr.
  - destruct (IH s1 sn1 (sets_lookup _ _ _ _ H1) Hr) as (sn' & H2 & Ha'). exists sn'. split; [by eapply sets_trans|].
    eapply applies_cons; [exact Ha|by apply Hap|done].
  - injection Hr as <- <-. exists sn1. split; [done|]. destruct Ha as (A1 & A2 & [k Ak] & A4 & A5). split_and!; [done|done| | |done].
    + destruct k as [|k]; [exists 0%nat; done|exists 1%nat]. rewrite Ak. cbn [take]. by rewrite take_nil.
    + destruct A4 as [->|(x & Hx & ->)]; [by left|right]. apply list_elem_of_singleton in Hx as ->. exists e. split; [by apply list_elem_of_here|done].
Qed.

(** * Sending *)

(** The messages are observed, and sent ones among them wait in the queue. *)
Record sends (ms : list Message) (s s' : simulator) : Prop := mkSends {
  sd_nodes : s_nodes s' = s_nodes s;
  sd_order : s_order s' = s_order s;
  sd_leaders : s_leaders s' = foldl (fun t m => observeLeader m t) (s_leaders s) ms;
  sd_invs : s_invariants s' = s_invariants s;
  sd_now : s_now s' = s_now s;
  sd_err : s_runErr s' = s_runErr s;
  sd_runner : runner_of s' = runner_of s;
  sd_events : forall ev, ev ∈ s_queue s' -> 
    ev ∈ s_queue s \/ (exists m, m ∈ ms /\ se_kind ev = eventMessage m) \/ (is_message (se_kind ev) = false /\ known s (se_kind ev));
}.

Lemma drawFault_calm rate s : calm s (drawFault rate s).2.
Proof. unfold drawFault. case_bool; [destruct (drawFloat _); calm_update|reflexivity]. Qed.

Lemma enqueueMessage_keeps m s :
  s_nodes (enqueueMessage m s) = s_nodes s /\ s_order (enqueueMessage m s) = s_order s /\ s_leaders (enqueueMessage m s) = s_leaders s /\
  s_invariants (enqueueMessage m s) = s_invariants s /\ s_now (enqueueMessage m s) = s_now s /\ s_runErr (enqueueMessage m s) = s_runErr s /\
  runner_of (enqueueMessage m s) = runner_of s /\ forall ev, ev ∈ s_queue (enqueueMessage m s) -> ev ∈ s_queue s \/ se_kind ev = eventMessage m.
Proof.
  unfold enqueueMessage. destruct (IntN _ _) as [draw r]. cbv zeta. split_and!; try done. intros ev Hin. unfold pushAt in Hin.
  cbn [s_queue set_queue set_rands s_seq s_now] in Hin. rewrite heap_push_perm in Hin. apply elem_of_cons in Hin as [->|Hin]; [by right|by left].
Qed.

Lemma scheduleMessage_sends m s : sends [m] s (scheduleMessage m (simObserveLeader m s)).
Proof.
  set (s0 := simObserveLeader m s). assert (sends [m] s s0) as H0 by (split; try done; by left). clearbody s0. unfold scheduleMessage.
  assert (forall s1 s2, sends [m] s s1 -> calm s1 s2 -> sends [m] s s2) as Hc.
  { intros s1 s2 [A1 A2 A3 A4 A5 A6 A7 A8] [[B1 B2 B3 B4 B5 B6 _ B7] B8]. split; [by etrans..|]. intros ev [Hev|[Hm Hk]]%B7; [by apply A8|].
    right; right. split; [done|]. eapply known_dom; [|exact Hk]. intros i. by rewrite A1. }
  assert (forall s1, sends [m] s s1 -> sends [m] s (enqueueMessage m s1)) as He.
  { intros s1 [A1 A2 A3 A4 A5 A6 A7 A8]. destruct (enqueueMessage_keeps m s1) as (B1 & B2 & B3 & B4 & B5 & B6 & B7 & B8).
    split; [by etrans..|]. intros ev [Hev|Hev]%B8; [by apply A8|]. right; left. exists m. split; [by apply list_elem_of_here|done]. }
  pose proof (drawFault_calm (s_dropRate s0) s0) as Hd. destruct (drawFault (s_dropRate s0) s0) as [dropped s1]. cbn [snd] in Hd.
  pose proof (Hc _ _ H0 Hd) as H1. destruct dropped; [eapply Hc; [exact H1|apply record_calm]|]. cbv zeta.
  pose proof (He _ H1) as H2. set (s2 := enqueueMessage m s1) in *. clearbody s2.
  pose proof (drawFault_calm (s_dupRate s2) s2) as Hd2. destruct (drawFault (s_dupRate s2) s2) as [duplicated s3]. cbn [snd] in Hd2.
  pose proof (Hc _ _ H2 Hd2) as H3. destruct duplicated; [|done]. apply He. eapply Hc; [exact H3|apply record_calm].
Qed.

Lemma sd_queue ms s s' m : sends ms s s' -> queued m s' -> queued m s \/ m ∈ ms.
Proof.
  intros Hs (ev & Hin & Hk). apply (sd_events _ _ _ Hs) in Hin as [Hin|[(x & Hx & Hk')|[Hm _]]].
  - left. by exists ev.
  - right. rewrite Hk in Hk'. by injection Hk' as ->.
  - by rewrite Hk in Hm.
Qed.

Lemma send_all ms s : sends ms s (foldl (fun s m => scheduleMessage m (simObserveLeader m s)) s ms).
Proof.
  revert s. induction ms as [|m ms IH]; intros s; [split; try done; by left|]. cbn [foldl].
  destruct (scheduleMessage_sends m s) as [A1 A2 A3 A4 A5 A6 A7 A8]. destruct (IH (scheduleMessage m (simObserveLeader m s))) as [B1 B2 B3 B4 B5 B6 B7 B8].
  split; [by etrans|by etrans| |by etrans..|]; [by rewrite B3, A3|].
  intros ev [[Hev|[(x & Hx & Hk)|Hev]]%A8|[(x & Hx & Hk)|[Hm Hk]]]%B8; [by left| |by right; right| |].
  - right; left. exists x. split; [|done]. apply list_elem_of_singleton in Hx as ->. apply list_elem_of_here.
  - right; left. exists x. split; [by apply list_elem_of_further|done].
  - right; right. split; [done|]. eapply known_dom; [|exact Hk]. intros i. by rewrite A1.
Qed.
End frame.
