(* ===== verification/SimRefine.v ===== *)
(** The simulator implements the cluster: every event that the simulator handles, with its
    crashes, restarts and faults, is a sequence of steps of hosts with ideal storages over
    an unreliable network.  Then what the helpers of the handlers leave as it was. *)

From stdpp Require Import functions.
From S2P Require Import Prelude Proto RaftLog RaftNode RaftSpec Storage Server NodeFacts HostFacts Cluster Bytes WalRecords CrashStorage Safety MapSM DiskLog.
From S2P Require Import SimInvariant Checker CheckerFacts Heap SimFS Float64 FaultSchedule Workload SimLoop SimStore WorkloadFacts SimCluster SimFrame.

Section refine.
Context {E M : Type} {engine : SimEngine E M} (marshal : Command -> result bytes).
Context (cfgs : Z -> Config) (ids : list Z) (Hcfg : cluster_cfg cfgs ids).

(** A predicate that every entry satisfies. *)
Context (P : Entry -> Prop).

Notation simulator := (Simulator E M).
Notation node := (simNode E M).
Notation ideal := (cluster (S := MemStorage)).

(** * The relation *)

(** A node and the host of the cluster: their storages hold the same, a process that runs
    is the host's, and what was applied is committed. *)
Record nrel (sa : astate) (c : ideal) (i : Z) (sn : node) : Prop := mkNrel {
  nr_cfg : sn_cfg sn = cfgs i;
  nr_view : st_view (sn_storage sn) = h_Storage (hosts c i);
  nr_store : st_any (sn_storage sn);
  nr_applied : Forall (applied_entry ids sa i) (sn_applied sn);
  nr_last : settled ids sa i (Z.to_nat (sn_lastApplied sn));
  nr_live : forall n, sn_node sn = Some n -> sn_halted sn = false -> n = h_Node (hosts c i) /\ st_up (sn_storage sn);
}.

(** Every position of [D] is owned. *)
Record SR (D : Z -> Z -> Prop) (sa : astate) (c : ideal) (s : simulator) : Prop := mkSR {
  sr_ci : CI ids sa c;
  sr_order : s_order s = ids;
  sr_dom : forall i, i ∈ ids -> is_Some (s_nodes s !! i);
  sr_nodes : forall i sn, s_nodes s !! i = Some sn -> i ∈ ids /\ nrel sa c i sn;
  sr_queue : forall m, queued m s -> m ∈ net c;
  sr_leaders : s_leaders s = foldl (fun t m => observeLeader m t) newLeaderTracker (net c);
  sr_known : forall ev, ev ∈ s_queue s -> known s (se_kind ev);
  sr_holds : cluster_holds ids P c;
  sr_owned : forall idx T, D idx T -> owned ids sa c idx T;
}.

(** What no event of the network or of a node changes. *)
Record keeps (s s' : simulator) : Prop := mkKeeps {
  kp_invs : s_invariants s' = s_invariants s;
  kp_now : s_now s' = s_now s;
  kp_err : s_runErr s' = s_runErr s;
  kp_runner : runner_of s' = runner_of s;
}.

#[export] Instance keeps_preorder : PreOrder keeps.
Proof. split; [by split|]. intros s1 s2 s3 [A1 A2 A3 A4] [B1 B2 B3 B4]. split; by etrans. Qed.

Lemma quiet_keeps s s' : quiet s s' -> keeps s s'.
Proof. intros [A1 A2 A3 A4 A5 A6 A7 A8]. by split. Qed.

(** The states of the cluster that [s'] stands for, from [c] on. *)
Definition reaches (D : Z -> Z -> Prop) (sa : astate) (c : ideal) (s' : simulator) : Prop :=
  exists c' sa', rtc (cstep cfgs ids) c c' /\ gext sa sa' /\ SR D sa' c' s'.

Section steps.
Context (D : Z -> Z -> Prop).

Lemma reaches_refl sa c s : SR D sa c s -> reaches D sa c s.
Proof. intros HR. exists c, sa. split_and!; [done|apply gext_refl|done]. Qed.

(** The queue stays known. *)
Lemma known_quiet (s s' : simulator) : quiet s s' -> (forall ev, ev ∈ s_queue s -> known s (se_kind ev)) -> forall ev, ev ∈ s_queue s' -> known s' (se_kind ev).
Proof.
  intros Hq Hk ev Hev. apply (known_dom s' s); [intros i; symmetry; apply (q_dom _ _ Hq)|].
  apply (q_events _ _ Hq) in Hev as [Hev|[_ Hev]]; [by apply Hk|done].
Qed.

Lemma SR_calm sa c s s' : SR D sa c s -> calm s s' -> SR D sa c s'.
Proof.
  intros [H1 H2 H3 H4 H5 H6 H7 H8 H9] [Hq Qn]. pose proof Hq as [Q1 Q2 Q3 Q4 Q5 Q6 Q7 Q8]. split; rewrite ?Q1, ?Q2, ?Qn; auto.
  - intros m Hm. by eapply H5, q_queue.
  - by eapply known_quiet.
Qed.

Lemma SR_sets sa c i sn s s' : SR D sa c s -> i ∈ ids -> sets i sn s s' -> nrel sa c i sn -> SR D sa c s'.
Proof.
  intros [H1 H2 H3 H4 H5 H6 H7 H8 H9] Hi [Hq Qn] Hr. pose proof Hq as [Q1 Q2 Q3 Q4 Q5 Q6 Q7 Q8]. split; rewrite ?Q1, ?Q2, ?Qn; auto.
  - intros j Hj. destruct (decide (i = j)) as [->|Hne]; [by rewrite lookup_insert_eq|]. rewrite lookup_insert_ne by done. auto.
  - intros j snj. destruct (decide (i = j)) as [->|Hne].
    + rewrite lookup_insert_eq. by intros [= <-].
    + rewrite lookup_insert_ne by done. auto.
  - intros m Hm. by eapply H5, q_queue.
  - by eapply known_quiet.
Qed.

Lemma reaches_calm sa c s s' : reaches D sa c s -> calm s s' -> reaches D sa c s'.
Proof. intros (c' & sa' & Hs & Hx & HR) Hc. exists c', sa'. split_and!; [done|done|by eapply SR_calm]. Qed.

(** A dead process constrains nothing. *)
Lemma nrel_dead sa c i sn' :
  sn_cfg sn' = cfgs i -> st_view (sn_storage sn') = h_Storage (hosts c i) -> st_any (sn_storage sn') ->
  Forall (applied_entry ids sa i) (sn_applied sn') -> settled ids sa i (Z.to_nat (sn_lastApplied sn')) -> dead sn' -> nrel sa c i sn'.
Proof. intros ? ? ? ? ? Hd. split; [done..|]. intros n Hn Hh. destruct Hd; congruence. Qed.

(** * A step of one host *)

(** The node is set, messages are sent, and the node is set again. *)
Definition acts (ms : list Message) (i : Z) (sn : node) (s s' : simulator) : Prop :=
  exists a s1 s2, sets i a s s1 /\ sends ms s1 s2 /\ sets i sn s2 s'.

Lemma acts_keeps ms i sn s s' : acts ms i sn s s' -> keeps s s'.
Proof.
  intros (a & s1 & s2 & [Q1 _] & [A1 A2 A3 A4 A5 A6 A7 A8] & [Q2 _]). etrans; [by apply quiet_keeps|].
  etrans; [|by apply quiet_keeps]. by split.
Qed.

Lemma sends_nil (s : simulator) : sends [] s s.
Proof. split; try done. by left. Qed.

Lemma sets_acts i sn s s' : sets i sn s s' -> acts [] i sn s s'.
Proof.
  intros Hs. exists sn, s', s'. split_and!; [done|apply sends_nil|]. apply calm_as_sets; [by eapply sets_lookup|reflexivity].
Qed.

Lemma nrel_other sa sa' c c' i sn :
  ainv ids sa -> rtc (astep ids) sa sa' -> hosts c' i = hosts c i -> nrel sa c i sn -> nrel sa' c' i sn.
Proof.
  intros Hinv Hs Eh [H1 H2 H3 H4 H5 H6]. split; rewrite ?Eh; try done.
  - eapply Forall_impl; [exact H4|]. intros e He. by eapply applied_entry_steps.
  - by eapply settled_steps.
Qed.

Lemma SR_acts D0 sa sa' c h' ms i sn s s' :
  SR D0 sa c s -> i ∈ ids -> acts ms i sn s s' -> rtc (astep ids) sa sa' ->
  let c' := mkCluster (<[i := h']> (hosts c)) (net c ++ ms) in
  CI ids sa' c' -> nrel sa' c' i sn -> cluster_holds ids P c' -> (forall idx T, D idx T -> owned ids sa' c' idx T) -> SR D sa' c' s'.
Proof.
  intros [H1 H2 H3 H4 H5 H6 H7 H8 H9] Hi (a & s1 & s2 & [Hp Pn] & Hsd & [Hq Qn]) Hs c' HC' Hr Hh' Ho'.
  pose proof Hp as [P1 P2 P3 P4 P5 P6 P7 P8]. pose proof Hsd as [A1 A2 A3 A4 A5 A6 A7 A8]. pose proof Hq as [Q1 Q2 Q3 Q4 Q5 Q6 Q7 Q8].
  assert (s_nodes s' = <[i := sn]> (s_nodes s)) as En by (by rewrite Qn, A1, Pn, insert_insert_eq).
  split; [done|congruence|..].
  - intros j Hj. rewrite En. destruct (decide (i = j)) as [->|Hne]; [by rewrite lookup_insert_eq|]. rewrite lookup_insert_ne by done. auto.
  - intros j snj. rewrite En. destruct (decide (i = j)) as [->|Hne]; [rewrite lookup_insert_eq; by intros [= <-]|].
    rewrite lookup_insert_ne by done. intros Hj. destruct (H4 j snj Hj) as [Hjin Hjr]. split; [done|].
    eapply nrel_other; [apply H1|exact Hs| |exact Hjr]. unfold c'. cbn [hosts]. by rewrite fn_lookup_insert_ne.
  - intros m Hm. apply (q_queue _ _ _ Hq), (sd_queue _ _ _ _ Hsd) in Hm as [Hm|Hm]; unfold c'; cbn [net]; [|set_solver].
    apply elem_of_app. left. by eapply H5, q_queue.
  - unfold c'. cbn [net]. rewrite foldl_app. congruence.
  - apply (known_quiet s2 s' Hq). intros ev Hev. apply (known_dom s2 s1); [intros j; by rewrite A1|].
    apply A8 in Hev as [Hev|[(m & _ & ->)|[_ Hev]]]; [by eapply (known_quiet s s1)|done|done].
  - done.
  - done.
Qed.

(** * The Ready path *)

(** What an event of a running node asks of the numbers and of the storage's format. *)
Definition fits_node (ev : event) (sn : node) (n : Node) : Prop :=
  let rd := readyWithoutCapture (node_event ev n) in has_room n /\ st_fits (sn_storage sn) (r_HardState rd) (r_Entries rd).

Lemma applied_last sa i es last last' :
  Forall (applied_entry ids sa i) es -> entries_wf (toEntry <$> a_log sa i) -> settled ids sa i (Z.to_nat last) ->
  (last' = last \/ exists e, e ∈ es /\ last' = Index e) -> settled ids sa i (Z.to_nat last').
Proof.
  intros Hes [Hwf _] Hl [->|(e & He & ->)]; [done|]. rewrite Forall_forall in Hes. destruct (Hes e He) as (k & Hk & Ek).
  pose proof (Hwf k e Ek). by replace (Z.to_nat (Index e)) with (S k) by lia.
Qed.

Lemma hosts_wf sa (c : ideal) i : CI ids sa c -> i ∈ ids -> entries_wf (toEntry <$> a_log sa i).
Proof.
  intros HC Hi. destruct (ci_hosts _ _ _ HC i Hi) as [Hok Hd _ _ _ _ _ _]. pose proof (store_ok_wf _ Hok) as Hw. by rewrite Hd in Hw.
Qed.

(** The node after an event whose save returned: the messages are sent, and the process may
    stop in the crash that the save armed or while it applies. *)
Lemma saved_SR D0 sa c s0 i sn0 n ev st st' sn' s' :
  let rd := readyWithoutCapture n in
  SR D0 sa c s0 -> event_holds P ev (h_Node (hosts c i)) -> (forall idx T, D idx T -> D0 idx T \/ filled c i ev idx T) -> s_nodes s0 !! i = Some sn0 -> n = node_event ev (h_Node (hosts c i)) ->
  deliverable c i ev -> has_room (h_Node (hosts c i)) ->
  st_view st' = (mem_Save (r_HardState rd) (r_Entries rd) (st_view (sn_storage sn0))).1 ->
  acts (r_Messages rd) i sn' s0 s' ->
  sn_cfg sn' = sn_cfg sn0 -> sn_storage sn' = st -> st_view st = st_view st' -> st_any st ->
  (exists k, sn_applied sn' = sn_applied sn0 ++ take k (r_CommittedEntries rd)) ->
  (sn_lastApplied sn' = sn_lastApplied sn0 \/ exists e, e ∈ r_CommittedEntries rd /\ sn_lastApplied sn' = Index e) ->
  dead sn' \/ (sn_node sn' = Some (Advance (captureReady rd n)) /\ st_up st) ->
  reaches D sa c s'.
Proof using Hcfg.
  intros rd HR Hev HD Hi0 -> Hdel Hroom Hv Hact Hc Est Hvst Hany [k Hap] Hlast Hlive. destruct (sr_nodes _ _ _ _ HR i sn0 Hi0) as [Hi [N1 N2 N3 N4 N5 _]].
  destruct (ideal_event cfgs ids Hcfg sa c i ev (sr_ci _ _ _ _ HR) Hi Hdel Hroom) as (_ & h' & sa' & Hstep & Hs & HC' & En & Es & Happ).
  fold rd in Hstep, HC', Es, Happ, En. set (c' := mkCluster _ _) in *. exists c', sa'.
  pose proof (ci_inv _ _ _ (sr_ci _ _ _ _ HR)) as Hinv. split; [by eapply rtc_l|]. split; [exact (proj2 (asteps_inv ids sa sa' Hinv Hs))|]. assert (hosts c' i = h') as Eh by (unfold c'; cbn [hosts]; by rewrite fn_lookup_insert).
  eapply SR_acts; [exact HR|done|exact Hact|exact Hs|exact HC'| |fold c'|fold c'].
  2:{ apply (event_keeps_holds ids P sa); try done; [apply HR|apply HR]. }
  2:{ intros idx T HDT. eapply (event_keeps_owned ids sa); try done; [apply HR|]. destruct (HD idx T HDT) as [H0|H0]; [left; by apply HR|by right]. }
  fold c'. split; rewrite ?Eh.
  - congruence.
  - rewrite Est, Hvst, Hv, N2. symmetry. exact Es.
  - by rewrite Est.
  - rewrite Hap. apply Forall_app. split; [|by apply Forall_take].
    eapply Forall_impl; [exact N4|]. intros e He. by eapply applied_entry_steps.
  - eapply applied_last; [exact Happ|by eapply hosts_wf|by eapply settled_steps|exact Hlast].
  - intros n' Hn' Hh. rewrite Est. destruct Hlive as [[Hd|Hd]|[Hn Hup]]; [congruence|congruence|]. split; [congruence|done].
Qed.

(** The node after a save that crashed: what survives is a torn save. *)
Lemma torn_SR D0 sa c s0 i sn0 n ev st' sn' s' :
  let rd := readyWithoutCapture n in
  SR D0 sa c s0 -> event_holds P ev (h_Node (hosts c i)) -> (forall idx T, D idx T -> D0 idx T \/ filled c i ev idx T) -> s_nodes s0 !! i = Some sn0 -> n = node_event ev (h_Node (hosts c i)) ->
  deliverable c i ev -> has_room (h_Node (hosts c i)) -> st_any st' ->
  (ms_hard (st_view st'), ms_entries (st_view st')) ∈ torn (r_HardState rd) (r_Entries rd) (ms_hard (st_view (sn_storage sn0)), ms_entries (st_view (sn_storage sn0))) ->
  acts [] i sn' s0 s' -> dead sn' -> sn_cfg sn' = sn_cfg sn0 -> sn_storage sn' = st' -> sn_applied sn' = sn_applied sn0 -> sn_lastApplied sn' = sn_lastApplied sn0 ->
  reaches D sa c s'.
Proof using Hcfg.
  intros rd HR Hev HD Hi0 -> Hdel Hroom Hany Htorn Hact Hd D1 D2 D3 D4. destruct (sr_nodes _ _ _ _ HR i sn0 Hi0) as [Hi [N1 N2 N3 N4 N5 _]].
  rewrite N2 in Htorn. destruct (ideal_crash cfgs ids Hcfg sa c i ev _ (sr_ci _ _ _ _ HR) Hi Hdel Hroom Htorn) as (h' & sa' & Hstep & Hst & HC' & Es & En).
  cbn [fst snd] in Es, En. rewrite <- (app_nil_r (net c)) in Hstep, HC'. eexists _, sa'.
  pose proof (ci_inv _ _ _ (sr_ci _ _ _ _ HR)) as Hinv. split; [by eapply rtc_l|]. split; [exact (proj2 (asteps_inv ids sa sa' Hinv Hst))|].
  pose proof (torn_holds ids P sa c i ev (sr_ci _ _ _ _ HR) Hi _ (sr_holds _ _ _ _ HR) Hdel Hev Htorn) as Htp.
  destruct (boot_keeps_holds cfgs ids P c i h' Hi (st_view st') None (sr_holds _ _ _ _ HR) Htp En) as [Hch Hfol].
  eapply SR_acts; [exact HR|done|exact Hact|exact Hst|exact HC'| |by rewrite app_nil_r|].
  2:{ intros idx T HDT. eapply (boot_keeps_owned ids sa); try done; [apply HR|]. destruct (HD idx T HDT) as [H0|H0]; [left; by apply HR|by right]. }
  apply nrel_dead; cbn [hosts]; rewrite ?fn_lookup_insert, ?D1, ?D2, ?D3, ?D4; try done.
  - rewrite Es. by destruct (st_view st').
  - eapply Forall_impl; [exact N4|]. intros e He. by eapply applied_entry_steps.
  - by eapply settled_steps.
Qed.

(** The Ready path of the simulator, on a node that has handled an event. *)
Lemma runReady_reaches D0 sa c s0 s i sn0 n0 ev :
  SR D0 sa c s0 -> (sn_node sn0 = Some n0 -> sn_halted sn0 = false -> event_holds P ev n0) ->
  (forall idx T, D idx T -> D0 idx T \/ filled c i ev idx T) -> s_nodes s0 !! i = Some sn0 -> sn_node sn0 = Some n0 -> sn_halted sn0 = false ->
  deliverable c i ev -> fits_node ev sn0 n0 -> sets i (with_node (Some (node_event ev n0)) sn0) s0 s ->
  reaches D sa c (runReady i s) /\ keeps s0 (runReady i s).
Proof using Hcfg.
  intros HR Hev HD Hi0 Hn0 Hh0 Hdel [Hroom Hft] Hs. specialize (Hev Hn0 Hh0). destruct (sr_nodes _ _ _ _ HR i sn0 Hi0) as [Hi Hrel].
  pose proof Hrel as [N1 N2 N3 N4 N5 N6]. destruct (N6 n0 Hn0 Hh0) as [-> Hup].
  destruct (ideal_event cfgs ids Hcfg sa c i ev (sr_ci _ _ _ _ HR) Hi Hdel Hroom) as [Hb _].
  set (n := node_event ev (h_Node (hosts c i))) in *. set (rd := readyWithoutCapture n) in *. rewrite <- N2 in Hb.
  unfold runReady. rewrite (sets_lookup _ _ _ _ Hs). cbn [mbind option_bind sn_node with_node NodeReady]. fold rd. cbv beta iota.
  pose proof (upd_node_sets i (with_node (Some (captureReady rd n))) s _ (sets_lookup _ _ _ _ Hs)) as Hs1.
  pose proof (sets_trans _ _ _ _ _ _ Hs Hs1) as Hs1'. set (s1 := upd_node i _ s) in *. set (sn1 := with_node (Some (captureReady rd n)) _) in *.
  unfold sim_processReady. rewrite (sets_lookup _ _ _ _ Hs1). change (sn_storage sn1) with (sn_storage sn0).
  destruct (Save (r_HardState rd) (r_Entries rd) (sn_storage sn0)) as [st' err] eqn:Esave.
  pose proof (upd_node_sets i (with_storage st') s1 _ (sets_lookup _ _ _ _ Hs1)) as Hs2.
  pose proof (sets_trans _ _ _ _ _ _ Hs1' Hs2) as Hs2'. set (s2 := upd_node i (with_storage st') s1) in *.
  destruct (st_Save_cases _ _ _ _ _ Hup Hb Hft Esave) as [(-> & Hany & Htorn)|(-> & Hv & st2 & fired & Hf & Hv2 & Hst2)].
  - rewrite bool_decide_eq_true_2 by done.
    match goal with |- reaches D sa c ?x /\ _ => assert (kills i (with_storage st' sn1) s2 x) as (sn' & Hk & (D1 & D2 & D3 & D4) & Hd)
      by (apply storageCrashed_kills; by eapply sets_lookup); set (s3 := x) in * end.
    pose proof (sets_acts _ _ _ _ (sets_trans _ _ _ _ _ _ Hs2' Hk)) as Hact. split; [|by eapply acts_keeps].
    by eapply (torn_SR D0 sa c s0 i sn0 n ev st').
  - change (match st' with StMem m => _ | StCrash cs => _ end) with (crashIfArmed st'). 
    pose proof (send_all (r_Messages rd) s2) as Hsend. set (s3 := foldl _ s2 _) in *. rewrite Hf.
    assert (s_nodes s3 !! i = Some (with_storage st' sn1)) as Hi3 by (rewrite (sd_nodes _ _ _ Hsend); by eapply sets_lookup).
    pose proof (upd_node_sets i (with_storage st2) s3 _ Hi3) as Hs4. set (s4 := upd_node i (with_storage st2) s3) in *. set (sn4 := with_storage st2 _) in *.
    assert (forall sn' s', sets i sn' s4 s' -> acts (r_Messages rd) i sn' s0 s') as Hact
      by (intros sn' s' Hx; eexists _, _, _; split_and!; [exact Hs2'|exact Hsend|by eapply sets_trans]).
    assert (st_any st2) as Hany2 by (destruct fired; [done|destruct Hst2; by apply st_up_any]).
    assert (forall sn' s', sets i sn' s4 s' -> sn_cfg sn' = sn_cfg sn0 -> sn_storage sn' = st2 ->
      (exists k, sn_applied sn' = sn_applied sn0 ++ take k (r_CommittedEntries rd)) ->
      (sn_lastApplied sn' = sn_lastApplied sn0 \/ exists e, e ∈ r_CommittedEntries rd /\ sn_lastApplied sn' = Index e) ->
      dead sn' \/ (sn_node sn' = Some (Advance (captureReady rd n)) /\ st_up st2) -> reaches D sa c s' /\ keeps s0 s') as Hend.
    { intros sn' s' Hx D1 D2 D3 D4 D5. split; [|by eapply acts_keeps, Hact].
      eapply (saved_SR D0 sa c s0 i sn0 n ev st2 st' sn'); try done. by apply Hact. }
    destruct fired.
    + match goal with |- reaches D sa c ?x /\ _ => assert (kills i sn4 s4 x) as (sn' & Hk & (D1 & D2 & D3 & D4) & Hd)
        by (apply storageCrashed_kills; by eapply sets_lookup) end.
      eapply Hend; [exact Hk|done|done|exists 0%nat; by rewrite app_nil_r|by left|by left].
    + destruct (applyCommittedEntries i (r_CommittedEntries rd) s4) as [s5 ok] eqn:Ea.
      destruct (applyCommittedEntries_applies _ _ _ _ _ _ (sets_lookup _ _ _ _ Hs4) Ea) as (sn5 & Hs5 & (D1 & D2 & D3 & D4 & D5)).
      destruct ok; [|eapply Hend; [exact Hs5|done|done|done|done|by left]]. destruct D5 as [D5 D6], Hst2 as [Hup2 _].
      pose proof (upd_node_sets i (fun sn => with_node (Advance <$> sn_node sn) sn) s5 _ (sets_lookup _ _ _ _ Hs5)) as Hs6.
      eapply Hend; [eapply sets_calm; [eapply sets_trans; [exact Hs5|exact Hs6]|apply record_calm]|done|done|done|done|].
      right. split; [|done]. cbn [sn_node with_node]. by rewrite D5.
Qed.

(** * Handlers *)

(** An event of node [i], were it handled now, stays within the numbers and the format. *)
Definition fits_event (i : Z) (ev : event) (s : simulator) : Prop :=
  match s_nodes s !! i with
  | None => True
  | Some sn => match sn_node sn with None => True | Some n => fits_node ev sn n end
  end.

Lemma fits_event_node i ev s sn n : fits_event i ev s -> s_nodes s !! i = Some sn -> sn_node sn = Some n -> fits_node ev sn n.
Proof. unfold fits_event. intros Hf Hi Hn. by rewrite Hi, Hn in Hf. Qed.

Lemma calm_both sa c s s' : SR D sa c s -> calm s s' -> reaches D sa c s' /\ keeps s s'.
Proof. intros HR Hc. split; [|by apply quiet_keeps, Hc]. by eapply reaches_refl, SR_calm. Qed.

Lemma both_calm sa c s s1 s2 : reaches D sa c s1 /\ keeps s s1 -> calm s1 s2 -> reaches D sa c s2 /\ keeps s s2.
Proof. intros [Hr Hk] Hc. split; [by eapply reaches_calm|]. etrans; [done|]. by apply quiet_keeps, Hc. Qed.

Lemma sets_both sa c i sn s s' : SR D sa c s -> i ∈ ids -> sets i sn s s' -> nrel sa c i sn -> reaches D sa c s' /\ keeps s s'.
Proof. intros HR Hi Hs Hn. split; [by eapply reaches_refl, SR_sets|apply quiet_keeps, Hs]. Qed.

(** The empty entry of a leader satisfies the predicate where no position is owned. *)
Context (HP0 : forall idx t, ~ D idx t -> P (mkEntry idx t EntryType_NOOP [])).

(** What an event that proposes nothing brings to a running node. *)
Lemma input_holds sa c s i sn n ev :
  SR D sa c s -> s_nodes s !! i = Some sn -> sn_node sn = Some n -> sn_halted sn = false -> deliverable c i ev -> fits_node ev sn n ->
  match ev with EvPropose _ => False | _ => True end -> event_holds P ev n.
Proof using Hcfg HP0.
  intros HR Hi Hn Hh Hdel [Hroom _] Hev. destruct (sr_nodes _ _ _ _ HR i sn Hi) as [Hin Hrel]. destruct (nr_live _ _ _ _ Hrel n Hn Hh) as [-> _].
  split; [|by destruct ev]. intros Hr Hl idx. apply HP0. intros HD. revert HD. intros HD%(sr_owned _ _ _ _ HR).
  by eapply (unowned_term cfgs ids Hcfg sa c i ev idx (sr_ci _ _ _ _ HR)).
Qed.

Lemma handleTick_reaches sa c s i :
  SR D sa c s -> i ∈ ids -> fits_event i EvTick s -> reaches D sa c (handleTick i s) /\ keeps s (handleTick i s).
Proof using Hcfg HP0.
  intros HR Hi Hf. destruct (sr_dom _ _ _ _ HR i Hi) as [sn Hsn]. unfold handleTick. rewrite Hsn.
  destruct (sn_node sn) as [n|] eqn:Hn; [|by eapply calm_both, record_calm].
  destruct (sn_halted sn) eqn:Hh; [by eapply calm_both, record_calm|]. destruct (sn_paused sn) eqn:Hp.
  { eapply calm_both; [exact HR|]. etrans; [apply record_calm|]. apply scheduleTick_calm. by eexists. }
  cbv zeta. set (s1 := record _ _ _). assert (sets i (with_node (Some (Tick n)) sn) s s1) as Hs1
    by (eapply sets_calm; [by apply upd_node_sets|apply record_calm]).
  pose proof (runReady_reaches D sa c s s1 i sn n EvTick HR (fun _ _ => input_holds sa c s i sn n EvTick HR Hsn Hn Hh I (fits_event_node _ _ _ _ _ Hf Hsn Hn) I)
    (fun _ _ H => or_introl H) Hsn Hn Hh I (fits_event_node _ _ _ _ _ Hf Hsn Hn) Hs1) as [Hr Hk].
  clearbody s1. destruct (s_nodes (runReady i s1) !! i) as [sn1|] eqn:Ei; [|done].
  case_bool; [|done]. eapply both_calm; [done|]. apply scheduleTick_calm. by eexists.
Qed.

Lemma handleMessage_reaches sa c s m :
  SR D sa c s -> m ∈ net c -> fits_event (To m) (EvDeliver m) s -> reaches D sa c (handleMessage m s) /\ keeps s (handleMessage m s).
Proof using Hcfg HP0.
  intros HR Hm Hf. unfold handleMessage. cbv zeta. destruct (blocked _ _ s); [by eapply calm_both, record_calm|].
  destruct (s_nodes s !! To m) as [sn|] eqn:Hsn; [|by eapply calm_both, record_calm].
  destruct (sn_node sn) as [n|] eqn:Hn; [|by eapply calm_both, record_calm].
  destruct (sn_halted sn) eqn:Hh; [by eapply calm_both, record_calm|]. destruct (sn_paused sn) eqn:Hp; [by eapply calm_both, record_calm|].
  pose proof (fits_event_node _ _ _ _ _ Hf Hsn Hn) as Hfit.
  eapply (runReady_reaches D sa c s _ (To m) sn n (EvDeliver m)); try done; [intros _ _; by eapply input_holds|by left|].
  eapply sets_calm; [by apply upd_node_sets|apply record_calm].
Qed.

Lemma handleCrash_reaches sa c s i : SR D sa c s -> i ∈ ids -> reaches D sa c (handleCrash i s) /\ keeps s (handleCrash i s).
Proof.
  intros HR Hi. destruct (sr_dom _ _ _ _ HR i Hi) as [sn Hsn]. destruct (sr_nodes _ _ _ _ HR i sn Hsn) as [_ [N1 N2 N3 N4 N5 N6]].
  unfold handleCrash. rewrite Hsn. set (s1 := match sn_storage sn with StMem _ => _ | StCrash _ => _ end).
  assert (exists st, sets i (with_storage st sn) s s1 /\ st_view st = st_view (sn_storage sn) /\ st_any st) as (st & Hs1 & Hv & Hany).
  { subst s1. assert (sets i (with_storage (sn_storage sn) sn) s s) as H0 by (apply calm_as_sets; [by destruct sn|reflexivity]).
    destruct (sn_storage sn) as [m|cs]; [by eexists|]. destruct (crashed cs) eqn:Hcr; [by eexists|].
    cbn [st_any] in N3. destruct N3 as [[Hok Har]|Hdown]; [|destruct Hdown; congruence].
    unfold cs_Crash. rewrite Hcr. destruct (cs_crash_rest (saves cs) CrashHostInitiated 0 cs Hok) as [Hd Ev].
    eexists. split; [by apply upd_node_sets|]. split; [exact Ev|by right]. }
  destruct (markProcessCrashed_kills i s1 _ (sets_lookup _ _ _ _ Hs1)) as (sn' & Hk & (D1 & D2 & D3 & D4) & Hd).
  eapply both_calm; [|apply record_calm]. eapply sets_both; [exact HR|done|by eapply sets_trans|].
  apply nrel_dead; rewrite ?D1, ?D2, ?D3, ?D4; try done. cbn [sn_storage with_storage]. by rewrite Hv.
Qed.

(** A new process reads the storage that its host of the cluster reads. *)
Lemma recoveredInitialState_view st :
  st_any st -> recoveredInitialState st = Ok (mkInitialState (ms_hard (st_view st)) (ms_entries (st_view st)) (mkSnapshotMeta 0 0)).
Proof.
  intros Hany. pose proof (st_any_wf st Hany) as Hok. destruct (st_getters st) as (G1 & G2 & G3 & G4).
  pose proof (store_ok_wf _ Hok) as [_ Hlen]. unfold recoveredInitialState. rewrite G1, G2, G3, G4.
  rewrite (HardState_spec _ Hok), (FirstIndex_spec _ Hok), (LastIndex_spec _ Hok). set (d := durable (st_view st)) in *.
  assert (d = (ms_hard (st_view st), ms_entries (st_view st))) as Ed by done. cbv zeta.
  case_bool; bool_to_prop.
  - case_bool; bool_to_prop; [lia|]. rewrite u64_add_small by lia. rewrite (Entries_spec _ _ _ Hok) by (fold d; lia). fold d.
    rewrite drop_0, take_ge by lia. by rewrite Ed.
  - rewrite Ed in *. cbn [fst snd] in *. destruct (ms_entries (st_view st)); [done|cbn [length] in *; lia].
Qed.

(** The state machine of a new process: it is opened empty, or the process stops. *)
Lemma restartStateMachine_cases i s sn s' ok :
  s_nodes s !! i = Some sn -> restartStateMachine i s = (s', ok) ->
  exists sn', sets i sn' s s' /\ sn_cfg sn' = sn_cfg sn /\ sn_storage sn' = sn_storage sn /\
    (sn_applied sn' = sn_applied sn \/ sn_applied sn' = []) /\ (sn_lastApplied sn' = sn_lastApplied sn \/ sn_lastApplied sn' = 0) /\
    if ok then sn_node sn' = sn_node sn /\ sn_halted sn' = sn_halted sn else dead sn'.
Proof.
  intros Hi. unfold restartStateMachine. rewrite Hi. destruct (sn_factory sn); cbn [negb].
  2:{ intros [= <- <-]. exists sn. split; [apply calm_as_sets; [done|reflexivity]|]. split_and!; try done; by left. }
  destruct (eng_open (sn_env sn)) as [env r]. pose proof (upd_node_sets i (with_sm (sn_sm sn) env) s _ Hi) as H1. cbv zeta.
  set (s1 := upd_node i _ s) in *. pose proof (sets_lookup _ _ _ _ H1) as Hi1.
  assert (forall s2, kills i (with_sm (sn_sm sn) env sn) s1 s2 -> exists sn', sets i sn' s s2 /\ sn_cfg sn' = sn_cfg sn /\ sn_storage sn' = sn_storage sn /\
    (sn_applied sn' = sn_applied sn \/ sn_applied sn' = []) /\ (sn_lastApplied sn' = sn_lastApplied sn \/ sn_lastApplied sn' = 0) /\ dead sn') as Hk.
  { intros s2 (sn' & H2 & (F1 & F2 & F3 & F4) & Hx). exists sn'. split; [by eapply sets_trans|]. split_and!; try done; by left. }
  destruct r as [[|msg]|m].
  - intros [= <- <-]. apply Hk. by apply handleLSMProcessCrash_kills.
  - intros [= <- <-]. apply Hk. eapply kills_calm; [by apply markProcessHalted_kills|apply record_calm].
  - match goal with |- (let '(_, _) := ?x in _) = _ -> _ => destruct x as [[env1 m1] err] end. destruct err as [e|]; intros [= <- <-].
    + apply Hk. eapply kills_calm; [|apply record_calm]. pose proof (upd_node_sets i (with_sm (sn_sm sn) env1) s1 _ Hi1) as H2.
      eapply sets_kills; [exact H2|done|]. apply markProcessHalted_kills. by eapply sets_lookup.
    + eexists. split; [eapply sets_trans; [exact H1|by apply upd_node_sets]|]. split_and!; try done; by right.
Qed.

Lemma handleRestart_reaches sa c s i : SR D sa c s -> i ∈ ids -> reaches D sa c (handleRestart i s) /\ keeps s (handleRestart i s).
Proof using Hcfg.
  intros HR Hi. destruct (sr_dom _ _ _ _ HR i Hi) as [sn Hsn]. destruct (sr_nodes _ _ _ _ HR i sn Hsn) as [_ [N1 N2 N3 N4 N5 N6]].
  unfold handleRestart. rewrite Hsn. case_bool; [by eapply calm_both, record_calm|].
  destruct (st_recover _ N3) as (st & Hrec & Hup & Hv). rewrite Hrec. cbv zeta.
  pose proof (upd_node_sets i (with_storage st) s _ Hsn) as H1. set (s1 := upd_node i _ s) in *.
  rewrite (recoveredInitialState_view st) by (by apply st_up_any).
  set (n' := NewNode (sn_cfg sn) _ _). set (s2 := replaceProcess i n' s1). set (sn2 := with_halted false (with_node (Some n') (invalidateTickStream (with_storage st sn)))).
  assert (sets i sn2 s1 s2) as H2 by (apply (upd_node_sets i (fun sn => with_halted false (with_node (Some n') (invalidateTickStream sn)))); by eapply sets_lookup).
  pose proof (sets_trans _ _ _ _ _ _ H1 H2) as H12. clearbody s1 s2. clear H1 H2.
  destruct (restartStateMachine i s2) as [s3 ok] eqn:E3. destruct (restartStateMachine_cases _ _ _ _ _ (sets_lookup _ _ _ _ H12) E3)
    as (sn3 & H3 & D1 & D2 & D3 & D4 & D5). pose proof (sets_trans _ _ _ _ _ _ H12 H3) as H13.
  destruct (ideal_restart cfgs ids Hcfg sa c i (Some (jitter sn)) (sr_ci _ _ _ _ HR) Hi) as (h' & sa' & Hstep & Hst & HC' & Es & En).
  pose proof (proj1 (sr_holds _ _ _ _ HR) i Hi) as Hlog. unfold log_holds in Hlog. rewrite <- (CI_store_log ids sa c i (sr_ci _ _ _ _ HR) Hi) in Hlog.
  destruct (boot_keeps_holds cfgs ids P c i h' Hi _ _ (sr_holds _ _ _ _ HR) Hlog En) as [Hch Hfol].
  assert (forall idx T, D idx T -> owned ids sa' (mkCluster (<[i := h']> (hosts c)) (net c)) idx T) as Hown
    by (intros idx T HDT; eapply restart_keeps_owned; [apply HR|done..|by apply HR]).
  assert (reaches D sa c s3 /\ keeps s s3) as Hr.
  { split; [|apply quiet_keeps, H13]. rewrite <- (app_nil_r (net c)) in Hstep, HC'. eexists _, sa'.
    pose proof (ci_inv _ _ _ (sr_ci _ _ _ _ HR)) as Hinv. split; [by eapply rtc_l|]. split; [exact (proj2 (asteps_inv ids sa sa' Hinv Hst))|]. pose proof (sets_acts _ _ _ _ H13) as Hact.
    eapply SR_acts; [exact HR|done|exact Hact|exact Hst|exact HC'| |by rewrite app_nil_r|rewrite app_nil_r; exact Hown].
    split; cbn [hosts]; rewrite ?fn_lookup_insert, ?D1, ?D2; try done.
    - cbn. by rewrite Es, Hv.
    - by apply st_up_any.
    - destruct D3 as [-> | ->]; [|done]. eapply Forall_impl; [exact N4|]. intros e He. by eapply applied_entry_steps.
    - destruct D4 as [-> | ->]; [by eapply settled_steps|apply cprefix_zero].
    - intros n Hn Hh. split; [|exact Hup]. destruct ok; [|destruct D5; congruence]. destruct D5 as [D5 _]. rewrite D5 in Hn. cbn in Hn.
      injection Hn as <-. rewrite En. unfold n'. by rewrite N1, Hv, N2. }
  destruct ok; [|done]. rewrite (sets_lookup _ _ _ _ H13). cbv zeta. eapply both_calm; [exact Hr|].
  etrans; [apply record_calm|]. apply scheduleTick_calm. rewrite (proj2 (record_calm _ _ s3)). eexists. by eapply sets_lookup.
Qed.

(** * Faults *)

Lemma nrel_same sa c i sn sn' :
  same_disk sn sn' -> sn_node sn' = sn_node sn -> sn_halted sn' = sn_halted sn -> nrel sa c i sn -> nrel sa c i sn'.
Proof. intros (D1 & D2 & D3 & D4) En Eh [N1 N2 N3 N4 N5 N6]. split; rewrite ?D1, ?D2, ?D3, ?D4, ?En, ?Eh; done. Qed.

(** An update of a node that leaves its process and its disk alone. *)
Lemma upd_both sa c s i f :
  SR D sa c s -> (forall sn, same_disk sn (f sn) /\ sn_node (f sn) = sn_node sn /\ sn_halted (f sn) = sn_halted sn) ->
  is_Some (s_nodes s !! i) -> reaches D sa c (upd_node i f s) /\ keeps s (upd_node i f s).
Proof.
  intros HR Hf [sn Hi]. destruct (sr_nodes _ _ _ _ HR i sn Hi) as [Hin Hr]. destruct (Hf sn) as (F1 & F2 & F3).
  eapply sets_both; [exact HR|done|by apply upd_node_sets|by eapply nrel_same].
Qed.

Lemma Pause_reaches sa c s i : SR D sa c s -> reaches D sa c (Pause i s) /\ keeps s (Pause i s).
Proof.
  intros HR. unfold Pause. destruct (s_nodes s !! i) as [sn|] eqn:Hi; [|by eapply calm_both].
  eapply both_calm; [|apply record_calm]. by eapply upd_both.
Qed.

Lemma Resume_reaches sa c s i : SR D sa c s -> reaches D sa c (Resume i s) /\ keeps s (Resume i s).
Proof.
  intros HR. unfold Resume. destruct (s_nodes s !! i) as [sn|] eqn:Hi; [|by eapply calm_both].
  eapply both_calm; [|apply record_calm]. by eapply upd_both.
Qed.

Lemma SetClockSkew_reaches sa c s i m : SR D sa c s -> reaches D sa c (SetClockSkew i m s).1 /\ keeps s (SetClockSkew i m s).1.
Proof.
  intros HR. unfold SetClockSkew. case_bool; [by eapply calm_both|]. case_bool; [by eapply calm_both|].
  destruct (s_nodes s !! i) as [sn|] eqn:Hi; [|by eapply calm_both].
  eapply both_calm; [|apply record_calm]. by eapply upd_both.
Qed.

Lemma overGroups_calm both groups (s : simulator) : (forall from to s, calm s (both from to s)) -> calm s (overGroups both groups s).
Proof.
  intros Hb. assert (forall from rgroup (s : simulator), calm s (foldl (fun s to => both from to s) s rgroup)) as H1.
  { intros from rgroup. induction rgroup as [|to rgroup IH]; intros s'; [reflexivity|]. cbn [foldl]. etrans; [apply Hb|apply IH]. }
  assert (forall lgroup rgroup (s : simulator), calm s (foldl (fun s from => foldl (fun s to => both from to s) s rgroup) s lgroup)) as H2.
  { intros lgroup rgroup. induction lgroup as [|from lgroup IH]; intros s'; [reflexivity|]. cbn [foldl]. etrans; [apply H1|apply IH]. }
  assert (forall lgroup groups (s : simulator), calm s
    (foldl (fun s rgroup => foldl (fun s from => foldl (fun s to => both from to s) s rgroup) s lgroup) s groups)) as H3.
  { intros lgroup gs. induction gs as [|g gs IH]; intros s'; [reflexivity|]. cbn [foldl]. etrans; [apply H2|apply IH]. }
  revert s. induction groups as [|g groups IH]; intros s; [reflexivity|]. cbn [overGroups]. etrans; [apply H3|apply IH].
Qed.

Lemma PartitionGroups_calm groups (s : simulator) : calm s (PartitionGroups groups s).
Proof. apply overGroups_calm. intros from to s'. calm_update. Qed.
Lemma HealGroups_calm groups (s : simulator) : calm s (HealGroups groups s).
Proof. apply overGroups_calm. intros from to s'. calm_update. Qed.

Lemma applyFault_reaches sa c s f : SR D sa c s -> reaches D sa c (applyFault f s) /\ keeps s (applyFault f s).
Proof using Hcfg HP0.
  intros HR. unfold applyFault. destruct (fv_Kind f); try (eapply calm_both; [done|calm_update]).
  - eapply calm_both; [done|]. etrans; [apply PartitionGroups_calm|apply record_calm].
  - eapply calm_both; [done|]. etrans; [apply HealGroups_calm|apply record_calm].
  - by eapply Pause_reaches.
  - by eapply Resume_reaches.
  - pose proof (SetClockSkew_reaches sa c s (fv_Node f) (fv_Multiplier f) HR) as Hb. destruct (SetClockSkew _ _ s) as [s' [e|]]; [|done].
    eapply both_calm; [done|apply record_calm].
  - destruct (s_nodes s !! fv_Node f) as [sn|] eqn:Hi; [|by eapply calm_both]. eapply handleCrash_reaches; [done|]. by eapply sr_nodes.
  - destruct (s_nodes s !! fv_Node f) as [sn|] eqn:Hi; [|by eapply calm_both]. eapply handleRestart_reaches; [done|]. by eapply sr_nodes.
Qed.

(** * Proposals *)

(** Node [i] accepts a proposal, as the leader [n]. *)
Definition proposable (i : Z) (s : simulator) (n : Node) : Prop :=
  exists sn, s_nodes s !! i = Some sn /\ sn_node sn = Some n /\ sn_halted sn = false /\ sn_paused sn = false /\ role n = leader.

Lemma Propose_last d n : role n = leader -> lastIndex (log (Propose d n).1) = lastIndex (log n) +u 1 /\ hs_Term (hardState (Propose d n).1) = hs_Term (hardState n).
Proof.
  intros Hr. unfold Propose. rewrite Hr. unfold appendLocalNode, appendLocal. cbv zeta. cbn [fst]. set (l' := mkRaftLog _ _).
  assert (lastIndex l' = lastIndex (log n) +u 1) as El by (unfold l', lastIndex at 1; cbn [entries]; by rewrite last_snoc).
  match goal with |- context [advanceCommit ?x] => assert (log x = l' /\ hardState x = hardState n) as [E1 E2] by (repeat case_match; done); set (n1 := x) in * end.
  clearbody n1 l'. destruct (fields_of _ _ (advanceCommit_fields n1)) as (_ & A2 & A3). set (n2 := (advanceCommit n1).1) in *. clearbody n2.
  assert (stable_fields (broadcastAvailableAppend n2) = stable_fields n2) as Eb.
  { unfold broadcastAvailableAppend. apply foldl_fields. intros x y. case_bool; [done|apply sendAppend_fields]. }
  destruct (fields_of _ _ Eb) as (_ & B2 & B3). rewrite B2, B3, A2, A3, E1, E2. done.
Qed.

Lemma SR_weaken (D0 : Z -> Z -> Prop) sa c s : (forall idx T, D idx T -> D0 idx T) -> SR D0 sa c s -> SR D sa c s.
Proof. intros HD [H1 H2 H3 H4 H5 H6 H7 H8 H9]. split; auto. Qed.

(** A proposal; what [onProposed] does is calm. *)
Lemma sim_propose_reaches D0 sa c s i data onProposed :
  SR D0 sa c s -> fits_event i (EvPropose data) s ->
  (forall n, proposable i s n -> P (mkEntry (lastIndex (log n) +u 1) (hs_Term (hardState n)) EntryType_NORMAL data)) ->
  (forall idx T, D idx T -> D0 idx T \/ exists n, proposable i s n /\ T = hs_Term (hardState n) /\ idx = lastIndex (log n) +u 1) ->
  (forall f index term s', onProposed = Some f -> runner_of s' = runner_of s -> calm s' (f index term s')) ->
  reaches D sa c (sim_propose i data onProposed s).1 /\ keeps s (sim_propose i data onProposed s).1.
Proof using Hcfg.
  intros HR Hf Hprop HD Hon.
  assert ((forall n, ~ proposable i s n) -> forall s', calm s s' -> reaches D sa c s' /\ keeps s s') as Hno.
  { intros Hnot s' Hc. eapply calm_both; [|exact Hc]. eapply SR_weaken; [|exact HR]. intros idx T HDT.
    destruct (HD idx T HDT) as [H0|(n & Hn & _)]; [done|]. by destruct (Hnot n). }
  unfold sim_propose. destruct (s_nodes s !! i) as [sn|] eqn:Hsn; [|apply Hno; [intros n (sn' & H1 & _); congruence|apply record_calm]].
  destruct (sn_node sn) as [n|] eqn:Hn; [|apply Hno; [intros n (sn' & H1 & H2 & _); congruence|apply record_calm]].
  destruct (sn_halted sn) eqn:Hh; [apply Hno; [intros n' (sn' & H1 & _ & H2 & _); congruence|apply record_calm]|].
  destruct (sn_paused sn) eqn:Hp; [apply Hno; [intros n' (sn' & H1 & _ & _ & H2 & _); congruence|apply record_calm]|].
  cbn [orb]. pose proof (fits_event_node _ _ _ _ _ Hf Hsn Hn) as Hfit. assert (role n = leader -> proposable i s n) as Hpr by (intros Hr; by exists sn).
  destruct (sr_nodes _ _ _ _ HR i sn Hsn) as [_ Hrel]. destruct (nr_live _ _ _ _ Hrel n Hn Hh) as [En _].
  destruct (Propose data n) as [n' [[index term] isLeader]] eqn:Ep. cbn [fst].
  eapply (runReady_reaches D0 sa c s _ i sn n (EvPropose data)); try done.
  - intros _ _. split; [|intros Hr; by apply Hprop, Hpr]. intros Hr Hl. exfalso. cbn [node_event] in Hl. unfold Propose in Hl. by destruct (role n) eqn:Er; cbn in Hl; congruence.
  - intros idx T HDT. destruct (HD idx T HDT) as [H0|(n2 & (sn2 & S1 & S2 & _ & _ & S5) & -> & ->)]; [by left|right].
    assert (n2 = n) as -> by congruence. unfold filled. rewrite <- En. split_and!; [done|done|]. cbn [node_event]. rewrite (proj1 (Propose_last data n S5)). lia.
  - cbn [node_event]. rewrite Ep. cbn [fst].
    set (s1 := record _ _ _). assert (sets i (with_node (Some n') sn) s s1) as H1 by (eapply sets_calm; [by apply upd_node_sets|apply record_calm]).
    destruct onProposed as [f|]; [|done]. destruct isLeader; [|done]. eapply sets_calm; [exact H1|]. apply Hon; [done|]. apply H1.
Qed.

(** * Any entries *)

Section plain.
Context (HPall : forall e, P e).

Lemma sim_Propose_reaches sa c s i data :
  SR D sa c s -> fits_event i (EvPropose data) s -> reaches D sa c (sim_Propose i data s).1 /\ keeps s (sim_Propose i data s).1.
Proof using Hcfg HP0 HPall. intros HR Hf. unfold sim_Propose. eapply sim_propose_reaches; [done|done|done|by left|done]. Qed.

(** * The workload *)

Lemma host_Submit_reaches sa c s sub :
  SR D sa c s -> s_workload s <> None -> (forall data, marshal (sb_Command sub) = Ok data -> fits_event (sb_Target sub) (EvPropose data) s) ->
  reaches D sa c (host_Submit marshal sub s).1 /\ keeps s (host_Submit marshal sub s).1.
Proof using Hcfg HP0 HPall.
  intros HR Hw Hf. unfold host_Submit. destruct (marshal (sb_Command sub)) as [data|e]; [|by eapply calm_both]. cbv zeta.
  match goal with |- context [sim_propose ?a ?b ?f s] =>
    assert (reaches D sa c (sim_propose a b f s).1 /\ keeps s (sim_propose a b f s).1) as Hb; [|destruct (sim_propose a b f s) as [s1 [[x y] isLeader]]] end.
  { eapply sim_propose_reaches; [done|by apply Hf|done|by left|]. intros f index term s' [= <-] Hr. apply registerWorkloadAttempt_calm.
    unfold runner_of in Hr. destruct (s_workload s'), (s_workload s); done. }
  cbn [fst] in Hb. case_bool; (eapply both_calm; [exact Hb|apply record_calm]).
Qed.

(** The command that a workload event may submit fits, at whichever node. *)
Definition submission_fits (payload : WEvent) (s : simulator) : Prop :=
  match runner_of s with
  | None => True
  | Some r =>
      match nextCommand payload r with
      | None => True
      | Some cmd => match marshal cmd with Err _ => True | Ok data => Forall (fun i => fits_event i (EvPropose data) s) ids end
      end
  end.

Lemma SR_set_workload sa c w err s : SR D sa c s -> SR D sa c (set_workload w err s).
Proof. intros [H1 H2 H3 H4 H5 H6 H7 H8 H9]. by split. Qed.

Lemma reaches_set_runner sa c r err s : reaches D sa c s -> reaches D sa c (set_runner r err s).
Proof. intros (c' & sa' & Hs & Hx & HR). exists c', sa'. split; [done|]. split; [done|]. unfold set_runner. destruct (s_workload s); [by apply SR_set_workload|done]. Qed.

(** The runner's calls of its host. *)
Lemma runner_Handle_reaches sa c s payload r :
  SR D sa c s -> runner_of s = Some r -> submission_fits payload s ->
  let s' := host_of (runner_Handle (H0 := simulator_WorkloadHost marshal) payload r s) in reaches D sa c s' /\ keeps s s'.
Proof using Hcfg HP0 HPall.
  intros HR Hr Hf. unfold submission_fits in Hf. rewrite Hr in Hf.
  apply (runner_Handle_host (H0 := simulator_WorkloadHost marshal) (calm s) (fun s' => reaches D sa c s' /\ keeps s s')
    (fun cmd => forall data, marshal cmd = Ok data -> Forall (fun i => fits_event i (EvPropose data) s) ids)); [..|reflexivity].
  - intros t e s' Hc. etrans; [exact Hc|]. by apply pushAt_calm.
  - intros a s' Hc. etrans; [exact Hc|]. apply cancelWorkloadAttempt_calm. pose proof (q_runner _ _ (proj1 Hc)) as E0.
    rewrite Hr in E0. unfold runner_of in E0. by destruct (s_workload s').
  - intros t e s' Hb. eapply both_calm; [exact Hb|]. by apply pushAt_calm.
  - intros s' Hc. by eapply calm_both.
  - intros sub s' Hc HP. pose proof (q_runner _ _ (proj1 Hc)) as E0. rewrite Hr in E0.
    destruct (host_Submit_reaches sa c s' sub) as [H1 H2]; [by eapply SR_calm| |..|split; [done|etrans; [by apply quiet_keeps, Hc|done]]].
    + unfold runner_of in E0. by destruct (s_workload s').
    + intros data Hd. specialize (HP data Hd). unfold fits_event. rewrite (proj2 Hc). destruct (s_nodes s !! sb_Target sub) as [sn|] eqn:Ei; [|done].
      rewrite Forall_forall in HP. specialize (HP (sb_Target sub) (proj1 (sr_nodes _ _ _ _ HR _ _ Ei))). unfold fits_event in HP. by rewrite Ei in HP.
  - intros cmd Hcmd data Hd. by rewrite Hcmd, Hd in Hf.
Qed.

(** The error of a run, if there is one, is one of the workload. *)
Definition workload_error (e : error) : Prop := exists msg, e = "sim: workload event: " +:+ msg.
Definition err_ok (s : simulator) : Prop := forall e, s_runErr s = Some e -> workload_error e /\ runner_of s <> None.

Lemma keeps_err s s' : keeps s s' -> err_ok s -> err_ok s'.
Proof. intros [K1 K2 K3 K4] He e. rewrite K3, K4. apply He. Qed.

Lemma handleWorkloadEvent_reaches sa c s payload :
  SR D sa c s -> submission_fits payload s -> let s' := handleWorkloadEvent marshal payload s in
  reaches D sa c s' /\ s_invariants s' = s_invariants s /\ (err_ok s -> err_ok s').
Proof using Hcfg HP0 HPall.
  intros HR Hf. unfold handleWorkloadEvent. destruct (s_workload s) as [w|] eqn:Ew; [|split; [by eapply reaches_refl|done]].
  destruct (s_runErr s) eqn:Ee; [split; [by eapply reaches_refl|done]|].
  destruct (runner_Handle_reaches sa c s payload (sw_runner w) HR ltac:(unfold runner_of; by rewrite Ew) Hf) as [Hr Hk].
  unfold host_of in Hr, Hk. destruct (runner_Handle payload (sw_runner w) s) as [[r s1] [e|]]; cbn [fst snd] in Hr, Hk; cbv zeta.
  all: pose proof Hk as [K1 K2 K3 K4]; assert (s_workload s1 <> None) as Hw by (unfold runner_of in K4; rewrite Ew in K4; by destruct (s_workload s1)).
  - split_and!; [eapply reaches_calm; [by apply reaches_set_runner|apply record_calm]|rewrite <- K1; cbn; unfold set_runner; by destruct (s_workload s1)|].
    intros _ e'. unfold set_runner, runner_of. cbn. destruct (s_workload s1); [|done]. cbn. intros [= <-]. split; [by eexists|done].
  - split_and!; [by apply reaches_set_runner|rewrite <- K1; unfold set_runner; by destruct (s_workload s1)|].
    intros _ e'. unfold set_runner, runner_of. destruct (s_workload s1); [|done]. cbn. congruence.
Qed.

(** * Events *)

Definition event_fits (ev : sevent) (s : simulator) : Prop :=
  match se_kind ev with
  | eventTick i _ => fits_event i EvTick s
  | eventMessage m => fits_event (To m) (EvDeliver m) s
  | eventWorkload payload => submission_fits payload s
  | _ => True
  end.

(** Every event is handled by steps of the cluster, and only one of the workload may end the
    run with an error. *)
Lemma handleEvent_reaches sa c s ev :
  SR D sa c s -> (forall m, se_kind ev = eventMessage m -> m ∈ net c) -> known s (se_kind ev) -> event_fits ev s ->
  let s' := handleEvent marshal ev s in reaches D sa c s' /\ s_invariants s' = s_invariants s /\ (err_ok s -> err_ok s').
Proof using Hcfg HP0 HPall.
  intros HR Hm Hkn Hf. assert (forall s', reaches D sa c s' /\ keeps s s' -> reaches D sa c s' /\ s_invariants s' = s_invariants s /\ (err_ok s -> err_ok s')) as Hb
    by (intros s' [H1 H2]; split_and!; [done|apply H2|by apply keeps_err]).
  unfold handleEvent. unfold event_fits in Hf. destruct (se_kind ev) as [i g|m|i|i|payload|f]; cbn [known] in Hkn.
  - destruct Hkn as [sn Hi]. unfold tickIsStale. rewrite Hi. case_bool; apply Hb; [by eapply calm_both, record_calm|].
    eapply handleTick_reaches; [done| |done]. by eapply sr_nodes.
  - apply Hb. eapply handleMessage_reaches; [done|by apply Hm|done].
  - destruct Hkn as [sn Hi]. apply Hb. eapply handleCrash_reaches; [done|]. by eapply sr_nodes.
  - destruct Hkn as [sn Hi]. apply Hb. eapply handleRestart_reaches; [done|]. by eapply sr_nodes.
  - by eapply handleWorkloadEvent_reaches.
  - apply Hb. by eapply applyFault_reaches.
Qed.
End plain.
End steps.
End refine.

Section still.
Context {E M : Type} {engine : SimEngine E M}.
Notation simulator := (Simulator E M).
Notation node := (simNode E M).

Definition is_workload (k : eventKind) : bool := match k with eventWorkload _ => true | _ => false end.

Record still (s s' : simulator) : Prop := mkStill {
  sl_work : s_workload s' = s_workload s;
  sl_events : forall ev, ev ∈ s_queue s' -> ev ∈ s_queue s \/ is_workload (se_kind ev) = false;
  sl_factory : forall i sn', s_nodes s' !! i = Some sn' -> exists sn, s_nodes s !! i = Some sn /\ sn_factory sn' = sn_factory sn;
}.

#[export] Instance still_preorder : PreOrder still.
Proof.
  split; [split; [done|by left|]; intros i sn H; by exists sn|]. intros s1 s2 s3 [A1 A2 A3] [B1 B2 B3]. split; [by etrans| |].
  - intros ev [H|H]%B2; [by apply A2|by right].
  - intros i sn' H. destruct (B3 i sn' H) as (sn1 & H1 & E1). destruct (A3 i sn1 H1) as (sn & H0 & E0). exists sn. split; [done|congruence].
Qed.

(** Nothing that matters here changes. *)
Lemma still_same s s' : s_workload s' = s_workload s -> s_queue s' = s_queue s -> s_nodes s' = s_nodes s -> still s s'.
Proof. intros E1 E2 E3. split; rewrite ?E1, ?E2, ?E3; [done|by left|]. intros i sn H. by exists sn. Qed.

Lemma record_still f args s : still s (record f args s).
Proof. by apply still_same. Qed.

Lemma upd_node_still i f s : (forall sn, sn_factory (f sn) = sn_factory sn) -> still s (upd_node i f s).
Proof.
  intros Hf. split; [done|by left|]. intros j sn'. cbn. destruct (decide (i = j)) as [->|Hne].
  - rewrite lookup_alter_eq. intros (sn & H & ->)%fmap_Some. by exists sn.
  - rewrite lookup_alter_ne by done. intros H. by exists sn'.
Qed.

Lemma pushAt_still at_ k s : is_workload k = false -> still s (pushAt at_ k s).
Proof.
  intros Hk. split; [done| |intros i sn H; by exists sn]. intros ev. cbn. rewrite heap_push_perm, elem_of_cons. intros [->|H]; [by right|by left].
Qed.

Lemma scheduleTick_still i at_ s : still s (scheduleTick i at_ s).
Proof. unfold scheduleTick. destruct (s_nodes s !! i); [by apply pushAt_still|by apply still_same]. Qed.

Lemma scheduleRestartAfterStorageCrash_still i info s : still s (scheduleRestartAfterStorageCrash i info s).
Proof.
  unfold scheduleRestartAfterStorageCrash. cbv zeta. destruct (_ !! _); [|reflexivity]. case_bool; [reflexivity|].
  etrans; [|apply record_still]. etrans; [|by apply pushAt_still]. by apply still_same.
Qed.

Lemma scheduleRestartAfterLSMCrash_still i s : still s (scheduleRestartAfterLSMCrash i s).
Proof.
  unfold scheduleRestartAfterLSMCrash. destruct (firedLSMCrashKey i s) as [key|]; [|reflexivity]. destruct (_ !! key) as [[]|]; [| |reflexivity]; cbn [negb].
  - etrans; [|apply record_still]. etrans; [|by apply pushAt_still]. by apply still_same.
  - by apply still_same.
Qed.

Lemma markProcessCrashed_still i s : still s (markProcessCrashed i s).
Proof.
  unfold markProcessCrashed. destruct (s_nodes s !! i) as [sn|]; [|by apply still_same].
  match goal with |- still _ (let '(_, _) := ?x in _) => destruct x as [env s1] eqn:E1 end.
  assert (still s s1) as H1.
  { destruct (sn_sm sn) as [m|]; [destruct eng_crash as [crash|]; [destruct (crash _ _) as [[env' m'] [e|]]|]|]; injection E1 as <- <-;
      (reflexivity || apply record_still). }
  etrans; [exact H1|]. by apply upd_node_still.
Qed.

Lemma markProcessHalted_still i s : still s (markProcessHalted i s).
Proof. apply upd_node_still. intros sn. unfold markHalted. by case_bool. Qed.

Lemma storageCrashed_still i f args info s : still s (storageCrashed i f args info s).
Proof.
  unfold storageCrashed. etrans; [|apply scheduleRestartAfterStorageCrash_still]. etrans; [apply markProcessCrashed_still|]. by apply still_same.
Qed.

Lemma handleLSMProcessCrash_still i f args s : still s (handleLSMProcessCrash i f args s).
Proof.
  unfold handleLSMProcessCrash. etrans; [|apply scheduleRestartAfterLSMCrash_still]. etrans; [apply markProcessCrashed_still|]. apply record_still.
Qed.

(** * Messages *)

Lemma drawFault_still rate s : still s (drawFault rate s).2.
Proof. unfold drawFault. case_bool; [destruct (drawFloat _); by apply still_same|reflexivity]. Qed.

Lemma enqueueMessage_still m s : still s (enqueueMessage m s).
Proof. unfold enqueueMessage. destruct (IntN _ _) as [draw r]. cbv zeta. etrans; [|by apply pushAt_still]. by apply still_same. Qed.

Lemma scheduleMessage_still m s : still s (scheduleMessage m s).
Proof.
  unfold scheduleMessage. pose proof (drawFault_still (s_dropRate s) s) as H1. destruct (drawFault (s_dropRate s) s) as [dropped s1]. cbn [snd] in H1.
  destruct dropped; [etrans; [exact H1|apply record_still]|]. cbv zeta. assert (still s (enqueueMessage m s1)) as H2 by (etrans; [exact H1|apply enqueueMessage_still]).
  set (s2 := enqueueMessage m s1) in *. clearbody s2. pose proof (drawFault_still (s_dupRate s2) s2) as H3. destruct (drawFault (s_dupRate s2) s2) as [duplicated s3]. cbn [snd] in H3.
  assert (still s s3) as H4 by (by etrans). destruct duplicated; [|done]. etrans; [exact H4|]. etrans; [|apply enqueueMessage_still]. apply record_still.
Qed.

Lemma send_all_still ms s : still s (foldl (fun s m => scheduleMessage m (simObserveLeader m s)) s ms).
Proof.
  revert s. induction ms as [|m ms IH]; intros s; [reflexivity|]. cbn [foldl]. etrans; [|apply IH]. etrans; [|apply scheduleMessage_still]. by apply still_same.
Qed.

(** * Faults *)

Lemma overGroups_still both groups s : (forall from to s, still s (both from to s)) -> still s (overGroups both groups s).
Proof.
  intros Hb. assert (forall from rgroup s, still s (foldl (fun s to => both from to s) s rgroup)) as H1.
  { intros from rgroup. induction rgroup as [|to rgroup IH]; intros s'; [reflexivity|]. cbn [foldl]. etrans; [apply Hb|apply IH]. }
  assert (forall lgroup rgroup s, still s (foldl (fun s from => foldl (fun s to => both from to s) s rgroup) s lgroup)) as H2.
  { intros lgroup rgroup. induction lgroup as [|from lgroup IH]; intros s'; [reflexivity|]. cbn [foldl]. etrans; [apply H1|apply IH]. }
  assert (forall lgroup groups s, still s
    (foldl (fun s rgroup => foldl (fun s from => foldl (fun s to => both from to s) s rgroup) s lgroup) s groups)) as H3.
  { intros lgroup gs. induction gs as [|g gs IH]; intros s'; [reflexivity|]. cbn [foldl]. etrans; [apply H2|apply IH]. }
  revert s. induction groups as [|g groups IH]; intros s; [reflexivity|]. cbn [overGroups]. etrans; [apply H3|apply IH].
Qed.

Lemma PartitionGroups_still groups s : still s (PartitionGroups groups s).
Proof. apply overGroups_still. intros from to s'. by apply still_same. Qed.
Lemma HealGroups_still groups s : still s (HealGroups groups s).
Proof. apply overGroups_still. intros from to s'. by apply still_same. Qed.

Lemma Pause_still i s : still s (Pause i s).
Proof. unfold Pause. destruct (s_nodes s !! i); [|reflexivity]. etrans; [|apply record_still]. by apply upd_node_still. Qed.
Lemma Resume_still i s : still s (Resume i s).
Proof. unfold Resume. destruct (s_nodes s !! i); [|reflexivity]. etrans; [|apply record_still]. by apply upd_node_still. Qed.
Lemma SetClockSkew_still i m s : still s (SetClockSkew i m s).1.
Proof.
  unfold SetClockSkew. case_bool; [reflexivity|]. case_bool; [reflexivity|]. destruct (s_nodes s !! i); [|reflexivity].
  cbn [fst]. etrans; [|apply record_still]. by apply upd_node_still.
Qed.

(** * Restarts *)

Lemma handleCrash_still i s : still s (handleCrash i s).
Proof.
  unfold handleCrash. destruct (s_nodes s !! i) as [sn|]; [|by apply still_same]. cbv zeta. etrans; [|apply record_still]. etrans; [|apply markProcessCrashed_still].
  destruct (sn_storage sn) as [m|cs]; [reflexivity|]. destruct (crashed cs); [reflexivity|]. destruct (cs_Crash cs) as [cs' [e|]].
  - etrans; [|apply record_still]. by apply upd_node_still.
  - by apply upd_node_still.
Qed.

Lemma restartStateMachine_still i s : still s (restartStateMachine i s).1.
Proof.
  unfold restartStateMachine. destruct (s_nodes s !! i) as [sn|]; [|by apply still_same]. case_bool; [reflexivity|].
  destruct (eng_open (sn_env sn)) as [env r]. assert (still s (upd_node i (with_sm (sn_sm sn) env) s)) as H1 by (by apply upd_node_still).
  cbv zeta. set (s1 := upd_node i _ s) in *. clearbody s1. destruct r as [[|msg]|m]; cbn [fst].
  - etrans; [exact H1|]. apply handleLSMProcessCrash_still.
  - etrans; [exact H1|]. etrans; [|apply record_still]. apply markProcessHalted_still.
  - match goal with |- context [let '(_, _) := ?x in _] => destruct x as [[env1 m1] err] end. destruct err as [e|]; cbn [fst].
    + etrans; [exact H1|]. etrans; [|apply record_still]. etrans; [|apply markProcessHalted_still]. by apply upd_node_still.
    + etrans; [exact H1|]. by apply upd_node_still.
Qed.

Lemma handleRestart_still i s : still s (handleRestart i s).
Proof.
  unfold handleRestart. destruct (s_nodes s !! i) as [sn|]; [|by apply still_same]. case_bool; [apply record_still|].
  destruct (recoverStorage (sn_storage sn)) as [st err]. cbv zeta. assert (still s (upd_node i (with_storage st) s)) as H1 by (by apply upd_node_still).
  set (s1 := upd_node i _ s) in *. clearbody s1. destruct err as [e|]; [etrans; [exact H1|]; etrans; [|apply record_still]; apply markProcessHalted_still|].
  destruct (recoveredInitialState st) as [init|e]; [|etrans; [exact H1|]; etrans; [|apply record_still]; apply markProcessHalted_still].
  set (s2 := replaceProcess i _ s1). assert (still s s2) as H2 by (etrans; [exact H1|]; by apply upd_node_still). clearbody s2.
  pose proof (restartStateMachine_still i s2) as H3. destruct (restartStateMachine i s2) as [s3 []]; cbn [fst] in H3; [|by etrans].
  destruct (s_nodes s3 !! i) as [sn3|]; [|etrans; [by etrans|by apply still_same]]. cbv zeta.
  etrans; [|apply scheduleTick_still]. etrans; [|apply record_still]. by etrans.
Qed.

Lemma applyFault_still f s : still s (applyFault f s).
Proof.
  unfold applyFault. destruct (fv_Kind f); try (by apply still_same); try apply handleCrash_still; try apply handleRestart_still.
  - etrans; [|apply record_still]. apply PartitionGroups_still.
  - etrans; [|apply record_still]. apply HealGroups_still.
  - apply Pause_still.
  - apply Resume_still.
  - pose proof (SetClockSkew_still (fv_Node f) (fv_Multiplier f) s) as H1. destruct (SetClockSkew _ _ s) as [s' [e|]]; cbn [fst] in H1; [|done].
    etrans; [exact H1|apply record_still].
  - destruct (s_nodes s !! fv_Node f); [apply handleCrash_still|reflexivity].
  - destruct (s_nodes s !! fv_Node f); [apply handleRestart_still|reflexivity].
Qed.
End still.
