(* ===== verification/SimSafety.v ===== *)
(** Simulated runs: the steps of a simulator from its construction on, and the guarantees
    that its refinement of the cluster gives: no registered check of the simulator ever
    reports a violation. *)

From stdpp Require Import functions.
From S2P Require Import Prelude Proto RaftLog RaftNode RaftSpec Storage Server NodeFacts HostFacts Cluster SimCluster Bytes WalRecords CrashStorage Safety.
From S2P Require Import MapSM Checker CheckerFacts SimInvariant DiskLog SimFS Float64 FaultSchedule Heap Workload SimLoop SimBuild WorkloadFacts SimStore SimFrame SimRefine.

(** The relation with no predicate on entries and no owned positions. *)
Notation plainSR cfgs ids := (SR cfgs ids (fun _ => True) (fun _ _ => False)).
Notation plainReaches cfgs ids := (reaches cfgs ids (fun _ => True) (fun _ _ => False)).

(** * Initial states *)

Section build.
Context {E M : Type} {engine : SimEngine E M}.
Context (newRand : Z -> Rand) (newFloats : Z -> nat -> float64) (newEnv : Z -> E) (marshal : Command -> result bytes).
Notation simulator := (Simulator E M).
Notation node := (simNode E M).

(** The node that [newSim] builds. *)
Definition initial_node (cfg : SimConfig) (perNode : gmap Z Rand) (id : Z) (store : simStorage) : node :=
  let r := default (newRand 0) (perNode !! id) in
  mkSimNode id (nodeConfig cfg id) store r (Some (NewNode (nodeConfig cfg id) emptyInitialState (Some r))) false 0 false f64_zero [] [] 0 None
    (newEnv id) false.

Lemma newStore_view crashes cs id st : newStore crashes cs id = Ok st -> st_view st = NewMemStorage /\ st_up st.
Proof.
  unfold newStore. destruct cs.
  - unfold NewCrashStorage. destruct (checkDirectives _ _); [done|]. intros [= <-]. split; [done|]. split; [|done].
    split_and!; [done|done|split; [by intros k e H|done]|]. by exists [].
  - intros [= <-]. split; [done|]. split; [|done]. by intros k e H.
Qed.

Lemma newNodes_spec cfg crashes cs perNode order nodes nodes' :
  newNodes newRand newEnv cfg crashes cs perNode order nodes = Ok nodes' ->
  (forall i, is_Some (nodes' !! i) <-> i ∈ order \/ is_Some (nodes !! i)) /\
  forall i sn, nodes' !! i = Some sn -> nodes !! i = Some sn \/
    exists store, newStore crashes cs i = Ok store /\ sn = initial_node cfg perNode i store.
Proof.
  revert nodes. induction order as [|id order IH]; intros nodes; cbn [newNodes].
  { intros [= <-]. split; [|by left]. intros i. split; [by right|]. intros [H%elem_of_nil|H]; done. }
  destruct (newStore crashes cs id) as [store|e] eqn:Es; [|done]. cbv zeta. intros H. destruct (IH _ H) as [H1 H2]. split.
  - intros i. rewrite H1, elem_of_cons, lookup_insert_is_Some'. naive_solver.
  - intros i sn Hi. destruct (H2 i sn Hi) as [Hl|Hr]; [|by right]. destruct (decide (id = i)) as [->|Hne].
    + rewrite lookup_insert_eq in Hl. injection Hl as <-. right. by exists store.
    + rewrite lookup_insert_ne in Hl by done. by left.
Qed.

Lemma checkConfig_None cfg : checkConfig cfg = None -> NoDup (sc_NodeIDs cfg).
Proof.
  unfold checkConfig. repeat (case_bool; [done|]). intros _. match goal with H : negb (bool_decide (NoDup _)) = false |- _ => apply negb_false_iff in H; by apply bool_decide_eq_true in H end.
Qed.

(** Members are numbered from one, and not too many. *)
Definition proper_ids (cfg : SimConfig) : Prop := 0 ∉ sc_NodeIDs cfg /\ Z.of_nat (length (sc_NodeIDs cfg)) <= max_i64.

Lemma nodeConfig_ok cfg : checkConfig cfg = None -> proper_ids cfg -> cluster_cfg (nodeConfig cfg) (sc_NodeIDs cfg).
Proof.
  intros Hc [H0 Hl]. split; [by apply checkConfig_None|]. split; [done|]. intros i Hi. split_and!; [done|done|]. by intros ->.
Qed.

(** The cluster that starts with the simulator. *)
Definition initial_host (cfg : SimConfig) (perNode : gmap Z Rand) (id : Z) : Host MemStorage (list Entry) :=
  mkHost (NewNode (nodeConfig cfg id) emptyInitialState (Some (default (newRand 0) (perNode !! id)))) NewMemStorage (Some []) id None 0.

Lemma initial_cinit cfg perNode :
  cinit (nodeConfig cfg) (sc_NodeIDs cfg) (mkCluster (initial_host cfg perNode) []).
Proof.
  split; [done|]. intros i Hi. assert (store_ok NewMemStorage) as Hok by (split; [by intros k e H|done]).
  exists NewMemStorage, (Some (default (newRand 0) (perNode !! i))). split; [done|]. split; [done|].
  eexists. split; [|done]. by rewrite (recovered_entries NewMemStorage (mkHardState 0 0) [] Hok eq_refl).
Qed.

Lemma ticks_calm order at_ (s : simulator) : (forall i, i ∈ order -> is_Some (s_nodes s !! i)) -> calm s (foldl (fun s id => scheduleTick id at_ s) s order).
Proof.
  revert s. induction order as [|i order IH]; intros s Hd; [reflexivity|]. cbn [foldl].
  assert (calm s (scheduleTick i at_ s)) as Hc by (apply scheduleTick_calm, Hd, list_elem_of_here).
  etrans; [exact Hc|]. apply IH. intros j Hj. rewrite (proj2 Hc). apply Hd. by apply list_elem_of_further.
Qed.

Lemma ticks_still order at_ (s : simulator) : still s (foldl (fun s id => scheduleTick id at_ s) s order).
Proof. revert s. induction order as [|i order IH]; intros s; [reflexivity|]. cbn [foldl]. etrans; [apply scheduleTick_still|apply IH]. Qed.

(** Nothing was applied yet, and no event of a workload waits. *)
Definition unused (s : simulator) : Prop :=
  (forall i sn, s_nodes s !! i = Some sn -> sn_lastApplied sn = 0 /\ forall n, sn_node sn = Some n -> lastApplied n = 0) /\
  forall ev, ev ∈ s_queue s -> is_workload (se_kind ev) = false.

Lemma unused_still (s s' : simulator) : still s s' -> s_nodes s' = s_nodes s -> unused s -> unused s'.
Proof. intros [_ Hs _] En [H1 H2]. split; [by rewrite En|]. intros ev [He|He]%Hs; [by apply H2|done]. Qed.

(** What construction gives. *)
Definition starts (cfg : SimConfig) (s : simulator) : Prop :=
  cluster_cfg (nodeConfig cfg) (sc_NodeIDs cfg) /\ Forall (fun inv => inv = LogMatching \/ inv = SingleLeaderPerTerm) (s_invariants s) /\ s_now s = 0 /\ s_runErr s = None /\ s_workload s = None /\ unused s /\
  exists c, cinit (nodeConfig cfg) (sc_NodeIDs cfg) c /\ forall P, SR (nodeConfig cfg) (sc_NodeIDs cfg) P (fun _ _ => False) ainit c s.

Lemma newSim_starts cfg schedule cs s : newSim newRand newFloats newEnv cfg schedule cs = Ok s -> proper_ids cfg -> starts cfg s.
Proof.
  unfold newSim. destruct (checkConfig cfg) as [e|] eqn:Ec; [done|]. intros Hs Hp. pose proof (nodeConfig_ok cfg Ec Hp) as Hcfg. cbv zeta in Hs.
  destruct (delays cfg) as [minDelay maxDelay]. destruct (maxDelay <? minDelay); [done|].
  destruct (newRandStreams _ _ _ _) as [[delayRand perNode] faultRand]. destruct (newNodes _ _ _ _ _ _ _ _) as [nodes|e] eqn:En; [|done].
  destruct (newNodes_spec _ _ _ _ _ _ _ En) as [Hdom Hnodes]. set (s0 := mkSimulator _ _ _ _ _ _ _ _ _ _ _ _ _ _ _ _ _ _ _ _ _ _ _) in Hs.
  injection Hs as <-. match goal with |- starts _ ?x => set (s1 := x) end.
  assert (calm s0 s1) as Hc by (apply ticks_calm; intros i Hi; apply Hdom; by left).
  pose proof Hc as [[Q1 Q2 Q3 Q4 Q5 Q6 Q7 Q8] Qn].
  split; [done|]. split; [rewrite Q3; by repeat constructor|]. split; [by rewrite Q4|]. split; [by rewrite Q5|].
  split; [unfold runner_of in Q6; cbn in Q6; by destruct (s_workload s1)|].
  split. { eapply unused_still; [apply ticks_still|done|]. split; [|by intros ev ?%elem_of_nil]. intros i sn Hi. destruct (Hnodes i sn Hi) as [Hx|(store & _ & ->)].
    - by rewrite lookup_empty in Hx.
    - split; [done|]. cbn. intros n [= <-]. apply NewNode_applied. }
  exists (mkCluster (initial_host cfg perNode) []). split; [apply initial_cinit|].
  intros P. eapply SR_calm; [|exact Hc]. destruct Hcfg as (Hnd & Hlen & Hcf). split; cbn [s_order s_nodes s_queue s_leaders s0].
  - apply (CI_init (nodeConfig cfg) (sc_NodeIDs cfg)); [done..|apply initial_cinit].
  - done.
  - intros i Hi. apply Hdom. by left.
  - intros i sn Hi. assert (i ∈ sc_NodeIDs cfg) as Hin.
    { destruct (proj1 (Hdom i)) as [?|[x Hx]]; [by eexists|done|]. by rewrite lookup_empty in Hx. }
    split; [done|]. destruct (Hnodes i sn Hi) as [Hx|(store & Est & ->)]; [by rewrite lookup_empty in Hx|].
    destruct (newStore_view _ _ _ _ Est) as [Hv Hup]. split; cbn; try done.
    + by apply st_up_any.
    + apply cprefix_zero.
    + by intros n [= <-].
  - intros m (ev & Hev%elem_of_nil & _). done.
  - done.
  - by intros ev Hev%elem_of_nil.
  - split; [|by constructor]. intros i Hi. cbn [hosts h_Node]. unfold initial_host. cbn [h_Node]. unfold NewNode. rewrite (proj1 (reset_same _)). by constructor.
  - done.
Qed.

Lemma installFaultEvents_calm events (s : simulator) : calm s (installFaultEvents events s).
Proof.
  unfold installFaultEvents. generalize (sortFaultEvents events). clear events. intros l. revert s. induction l as [|f l IH]; intros s; [reflexivity|].
  cbn [foldl]. etrans; [|apply IH]. by apply pushAt_calm.
Qed.

Lemma installFaultEvents_still events (s : simulator) : still s (installFaultEvents events s).
Proof.
  unfold installFaultEvents. generalize (sortFaultEvents events). clear events. intros l. revert s. induction l as [|f l IH]; intros s; [reflexivity|].
  cbn [foldl]. etrans; [|apply IH]. by apply pushAt_still.
Qed.

Lemma starts_calm cfg s s' : starts cfg s -> calm s s' -> still s s' -> starts cfg s'.
Proof.
  intros (H1 & H2 & H3 & H4 & H5 & Hu & c & H6 & H7) Hc Hs. pose proof Hc as [[Q1 Q2 Q3 Q4 Q5 Q6 Q7 Q8] Qn].
  split_and!; [done|by rewrite Q3|congruence|congruence| | |].
  - unfold runner_of in Q6. rewrite H5 in Q6. by destruct (s_workload s').
  - by eapply unused_still.
  - exists c. split; [done|]. intros P. by eapply SR_calm.
Qed.

Lemma starts_check cfg s : starts cfg s -> starts cfg (RegisterInvariant SingleLeaderPerTerm s).
Proof.
  intros (H1 & H2 & H3 & H4 & H5 & Hu & c & H6 & H7). split_and!; [done| |done|done|done|done|].
  - cbn. apply Forall_app. split; [done|]. constructor; [by right|constructor].
  - exists c. split; [done|]. intros P. destruct (H7 P) as [Q1 Q2 Q3 Q4 Q5 Q6 Q7 Q8 Q9]. by split.
Qed.

Lemma NewSim_starts cfg s : NewSim newRand newFloats newEnv cfg = Ok s -> proper_ids cfg -> starts cfg s.
Proof. apply newSim_starts. Qed.

Lemma NewFaultSim_starts cfg schedule s : NewFaultSim newRand newFloats newEnv cfg schedule = Ok s -> proper_ids cfg -> starts cfg s.
Proof.
  unfold NewFaultSim. destruct (ValidateForCluster _ _); [done|]. case_bool; [done|].
  destruct (newSim _ _ _ _ _ _) as [s0|e] eqn:E0; [|done]. cbv zeta. intros [= <-] Hp. eapply starts_calm; [by eapply newSim_starts| |].
  - etrans; [|apply set_restarts_calm]. etrans; [|apply installFaultEvents_calm]. apply set_restarts_calm.
  - match goal with |- still ?a (set_restarts ?x ?y ?z ?b) => transitivity b; [|by apply still_same] end. etrans; [|apply installFaultEvents_still]. by apply still_same.
Qed.
End build.

(** * Steps *)

Section runs.
Context {E M : Type} {engine : SimEngine E M}.
Context (newRand : Z -> Rand) (newEnv : Z -> E) (marshal : Command -> result bytes).
Notation simulator := (Simulator E M).
Notation node := (simNode E M).

(** The state in which the loop of [Run] handles the next event. *)
Definition dequeued (ev : sevent) (queue : list sevent) (s : simulator) : simulator := set_time (se_time ev) (set_queue queue (s_seq s) s).

(** A call of a scenario that proposes nothing. *)
Inductive sim_call (ids : list Z) (s : simulator) : simulator -> Prop :=
  | sc_partition from to : sim_call ids s (Partition from to s)
  | sc_heal from to : sim_call ids s (Heal from to s)
  | sc_partitionGroups groups : sim_call ids s (PartitionGroups groups s)
  | sc_healGroups groups : sim_call ids s (HealGroups groups s)
  | sc_pause i : sim_call ids s (Pause i s)
  | sc_resume i : sim_call ids s (Resume i s)
  | sc_skew i m : sim_call ids s (SetClockSkew i m s).1
  | sc_crash i at_ : i ∈ ids -> sim_call ids s (ScheduleCrash i at_ s)
  | sc_restart i at_ : i ∈ ids -> sim_call ids s (ScheduleRestart i at_ s)
  | sc_retry client at_ : sim_call ids s (ScheduleWorkloadRetry client at_ s).1
  | sc_check inv : inv = LogMatching \/ inv = SingleLeaderPerTerm -> sim_call ids s (RegisterInvariant inv s).

(** A turn of [Run], or a call of a scenario. *)
Inductive sim_step (ids : list Z) (s : simulator) : simulator -> Prop :=
  | ss_event ev queue :
      heap_pop eventLess (s_queue s) = Some (ev, queue) -> event_fits marshal ids ev s ->
      sim_step ids s (handleEvent marshal ev (dequeued ev queue s))
  | ss_propose i data : fits_event i (EvPropose data) s -> sim_step ids s (sim_Propose i data s).1
  | ss_start config : sim_step ids s (StartWorkload newRand newEnv marshal config s).1
  | ss_call s' : sim_call ids s s' -> sim_step ids s s'.

Context (cfgs : Z -> Config) (ids : list Z) (Hcfg : cluster_cfg cfgs ids).

Section general.
Context (P : Entry -> Prop) (D : Z -> Z -> Prop).

Lemma SR_dequeued sa c s ev queue :
  SR cfgs ids P D sa c s -> heap_pop eventLess (s_queue s) = Some (ev, queue) ->
  SR cfgs ids P D sa c (dequeued ev queue s) /\ (forall m, se_kind ev = eventMessage m -> m ∈ net c) /\ known (dequeued ev queue s) (se_kind ev).
Proof.
  intros [H1 H2 H3 H4 H5 H6 H7 H8 H9] Hp%heap_pop_perm.
  assert (forall e, e ∈ queue -> e ∈ s_queue s) as Hq by (intros e He; rewrite Hp; by apply list_elem_of_further).
  assert (ev ∈ s_queue s) as Hev by (rewrite Hp; apply list_elem_of_here). split_and!.
  - split; try done.
    + intros m (e & He & Hk). apply H5. exists e. split; [by apply Hq|done].
    + intros e He. by apply H7, Hq.
  - intros m Hm. apply H5. by exists ev.
  - by apply H7.
Qed.

Lemma installStateMachines_SR sa c order (s : simulator) :
  SR cfgs ids P D sa c s -> SR cfgs ids P D sa c (installStateMachines newEnv order s).1 /\
    keeps s (installStateMachines newEnv order s).1.
Proof.
  assert (forall i f (s : simulator), SR cfgs ids P D sa c s -> (forall sn, same_disk sn (f sn) /\ sn_node (f sn) = sn_node sn /\ sn_halted (f sn) = sn_halted sn) ->
    SR cfgs ids P D sa c (upd_node i f s)) as Hu.
  { intros i f s' HR Hf. destruct (s_nodes s' !! i) as [sn|] eqn:Hi.
    - destruct (sr_nodes _ _ _ _ _ _ _ HR i sn Hi) as [Hin Hn]. destruct (Hf sn) as (F1 & F2 & F3).
      eapply SR_sets; [exact HR|done|by apply upd_node_sets|by eapply nrel_same].
    - assert (alter f i (s_nodes s') = s_nodes s') as Ea.
      { apply map_eq. intros j. destruct (decide (i = j)) as [->|Hne]; [by rewrite lookup_alter_eq, Hi|by rewrite lookup_alter_ne]. }
      destruct HR as [H1 H2 H3 H4 H5 H6 H7 H8 H9]. split; try done; cbn [s_nodes upd_node set_nodes]; try (by rewrite Ea).
      intros ev Hev. apply (known_dom _ s'); [intros j; cbn; by rewrite Ea|]. by apply H7. }
  revert s. induction order as [|i order IH]; intros s HR; [done|]. cbn [installStateMachines].
  destruct (eng_open (newEnv i)) as [env [e|m]]; [split; [by apply Hu|by split]|].
  destruct (eng_arm _ env) as [env1 [e|]]; [split; [by apply Hu|by split]|].
  match goal with |- context [installStateMachines _ order ?x] => destruct (IH x) as [H1 H2]; [by apply Hu|] end.
  split; [done|]. etrans; [|exact H2]. by split.
Qed.

(** What a step keeps besides the relation: only the two checks are registered, and an error
    is one of the workload. *)
Definition good (s : simulator) : Prop := Forall (fun inv => inv = LogMatching \/ inv = SingleLeaderPerTerm) (s_invariants s) /\ err_ok s.

Lemma keeps_good s s' : keeps s s' -> good s -> good s'.
Proof. intros Hk [H1 H2]. split; [by rewrite (kp_invs _ _ Hk)|by eapply keeps_err]. Qed.

Lemma StartWorkload_SR sa c config (s : simulator) :
  SR cfgs ids P D sa c s -> good s -> SR cfgs ids P D sa c (StartWorkload newRand newEnv marshal config s).1 /\ good (StartWorkload newRand newEnv marshal config s).1.
Proof.
  intros HR Hg. unfold StartWorkload. destruct (s_workload s) eqn:Ew; [done|]. case_bool; [done|]. cbv zeta.
  destruct (NewRunner _ _) as [runner|e]; [|done]. pose proof (installStateMachines_SR sa c (s_order s) s HR) as [H1 K1].
  destruct (installStateMachines newEnv (s_order s) s) as [s1 [e|]]; [split; [done|by eapply keeps_good]|]. cbn [fst] in H1, K1.
  set (s2 := set_workload _ _ s1). assert (SR cfgs ids P D sa c s2) as H2 by (by apply SR_set_workload).
  assert (good s2) as G2.
  { destruct (keeps_good _ _ K1 Hg) as [G1 G2]. split; [done|]. intros e He. split; [|done]. by apply G2. }
  clearbody s2. assert (forall r s3 err, runner_Start (H0 := simulator_WorkloadHost marshal) runner s2 = (r, s3, err) -> calm s2 s3) as Hc.
  { intros r s3 err. unfold runner_Start. case_bool; [by intros [= <- <- <-]|]. case_bool; [by intros [= <- <- <-]|].
    intros [= <- <- <-]. generalize (wc_StartTime (rn_config runner)) as at_. intros at_. clear. generalize (rn_clients runner) as l. intros l.
    revert s2. induction l as [|x l IH]; intros s2; [reflexivity|]. cbn [foldl]. etrans; [|apply IH]. by apply pushAt_calm. }
  destruct (runner_Start runner s2) as [[r s3] err] eqn:E3. specialize (Hc _ _ _ eq_refl). cbn [fst].
  assert (SR cfgs ids P D sa c s3) as H3 by (by eapply SR_calm). pose proof (keeps_good _ _ (quiet_keeps _ _ (proj1 Hc)) G2) as [I3 G3].
  unfold set_runner. destruct (s_workload s3) as [w3|] eqn:Ew3; [|done]. split; [by apply SR_set_workload|]. split; [done|].
  intros e He. split; [by apply G3|done].
Qed.
End general.

(** Every step of a simulator is steps of the cluster. *)
Lemma sim_call_reaches sa c s s' : plainSR cfgs ids sa c s -> good s -> sim_call ids s s' -> plainReaches cfgs ids sa c s' /\ good s'.
Proof.
  intros HR Hg Hs. assert (forall s', plainReaches cfgs ids sa c s' /\ keeps s s' -> plainReaches cfgs ids sa c s' /\ good s') as Hb
    by (intros s1 [H1 H2]; split; [done|by eapply keeps_good]).
  destruct Hs as [from to|from to|groups|groups|i|i|i m|i at_ Hi|i at_ Hi|client at_|inv Hinv].
  - apply Hb. eapply calm_both; [done|calm_update].
  - apply Hb. eapply calm_both; [done|calm_update].
  - apply Hb. eapply calm_both; [done|apply PartitionGroups_calm].
  - apply Hb. eapply calm_both; [done|apply HealGroups_calm].
  - apply Hb. by eapply Pause_reaches.
  - apply Hb. by eapply Resume_reaches.
  - apply Hb. by eapply SetClockSkew_reaches.
  - apply Hb. eapply calm_both; [done|]. apply pushAt_calm; [done|by eapply sr_dom].
  - apply Hb. eapply calm_both; [done|]. apply pushAt_calm; [done|by eapply sr_dom].
  - apply Hb. unfold ScheduleWorkloadRetry. destruct (s_workload s) as [w|]; [|by eapply calm_both]. case_bool; [by eapply calm_both|].
    destruct (RetryEvent client (sw_runner w)); [|by eapply calm_both]. eapply calm_both; [done|by apply pushAt_calm].
  - destruct Hg as [G1 G2]. split; [eapply reaches_refl; destruct HR as [H1 H2 H3 H4 H5 H6 H7 H8 H9]; by split|]. split; [|done].
    cbn. apply Forall_app. split; [done|by constructor].
Qed.

Lemma sim_step_reaches sa c s s' :
  plainSR cfgs ids sa c s -> good s -> sim_step ids s s' -> plainReaches cfgs ids sa c s' /\ good s'.
Proof using Hcfg.
  intros HR Hg Hs. destruct Hs as [ev queue Hp Hf|i data Hf|config|s' Hs].
  - destruct (SR_dequeued _ _ sa c s ev queue HR Hp) as (HR' & Hm & Hkn).
    destruct (handleEvent_reaches marshal cfgs ids Hcfg _ _ (fun _ _ _ => I) (fun _ => I) sa c _ ev HR' Hm Hkn Hf) as (H1 & H2 & H3). destruct Hg as [G1 G2].
    split; [done|]. split; [by rewrite H2|by apply H3].
  - destruct (sim_Propose_reaches cfgs ids Hcfg _ _ (fun _ _ _ => I) (fun _ => I) sa c s i data HR Hf) as [H1 H2]. split; [exact H1|by eapply keeps_good].
  - destruct (StartWorkload_SR _ _ sa c config s HR Hg) as [H1 H2]. split; [by eapply reaches_refl|done].
  - by eapply sim_call_reaches.
Qed.

(** The relation along a run. *)
Lemma run_related sa c s s' :
  creach cfgs ids c -> plainSR cfgs ids sa c s -> good s -> rtc (sim_step ids) s s' ->
  exists c' sa', creach cfgs ids c' /\ rtc (cstep cfgs ids) c c' /\ plainSR cfgs ids sa' c' s' /\ good s'.
Proof using Hcfg.
  intros Hc HR Hg Hs. revert sa c Hc HR. induction Hs as [s|s1 s2 s3 H12 _ IH]; intros sa c Hc HR; [by eauto 10 using rtc_refl|].
  destruct (sim_step_reaches sa c s1 s2 HR Hg H12) as [(c2 & sa2 & Hs2 & _ & HR2) Hg2].
  destruct (IH Hg2 sa2 c2) as (c3 & sa3 & Hc3 & Hs3 & HR3 & Hg3); [|done|].
  - destruct Hc as (c0 & Hi & Hr). exists c0. split; [done|by etrans].
  - exists c3, sa3. split_and!; [done|by etrans|done|done].
Qed.

(** The registered checks pass. *)
Lemma checks_pass sa c s : plainSR cfgs ids sa c s -> good s -> firstError (fun inv => inv (sim_view s)) (s_invariants s) = None.
Proof.
  intros HR [Hg _]. apply firstError_None. intros inv Hin. rewrite Forall_forall in Hg. pose proof HR as [H1 H2 H3 H4 H5 H6 H7 H8 H9].
  destruct (Hg inv Hin) as [-> | ->].
  - apply (LogMatching_protocol ids sa); [apply H1|]. cbn [sim_view sim_order sim_Log sim_LastApplied]. rewrite H2. intros i Hi.
    destruct (H3 i Hi) as [sn Hsn]. rewrite Hsn. destruct (H4 i sn Hsn) as [_ [N1 N2 N3 N4 N5 N6]].
    pose proof (hosts_wf ids sa c i H1 Hi) as Hwf. destruct (ci_hosts _ _ _ H1 i Hi) as [Hok Hd _ _ _ _ _ _].
    assert (storedLog (sn_storage sn) = toEntry <$> a_log sa i) as ->.
    { apply (f_equal snd) in Hd. cbn [snd] in Hd. rewrite <- Hd, <- N2. rewrite <- N2 in Hok. rewrite <- (storedLog_durable _ Hok).
      unfold storedLog. destruct (st_getters (sn_storage sn)) as (_ & G2 & G3 & G4). by rewrite G2, G3, G4. }
    done.
  - by apply (SingleLeader_protocol ids sa _ (net c) (ci_net _ _ _ H1)).
Qed.
End runs.
