(* ===== verification/SimTime.v ===== *)
(** Virtual time: no event of a run is scheduled before the time of the event that schedules
    it, so that the clock of the simulator never goes back, and a stretch of virtual time has
    finitely many events, so that the loop of [Run] ends.

    An event that is scheduled at the present time has a lower rank than the one that is being
    handled: a tick, a message, a fault or a submission may schedule the restart of a node
    whose storage crashed and the answers of applied entries, a restart and an answer only
    schedule later events. *)

From stdpp Require Import functions.
From S2P Require Import Prelude Proto RaftLog RaftNode RaftSpec Storage Server NodeFacts HostFacts Cluster Bytes WalRecords CrashStorage Safety.
From S2P Require Import MapSM Checker CheckerFacts SimInvariant DiskLog SimFS Float64 FaultSchedule Heap Workload SimLoop SimBuild WorkloadFacts SimStore SimCluster SimFrame SimRefine SimSafety.

(** * The order of events *)

Lemma eventLess_asym a b : eventLess a b = true -> eventLess b a = false.
Proof. unfold eventLess. destruct (Z.eqb_spec (se_time a) (se_time b)), (Z.eqb_spec (se_time b) (se_time a)); cbn [negb]; rewrite ?Z.ltb_lt, ?Z.ltb_ge; lia. Qed.

Lemma eventLess_trans a b c : not_less eventLess a b -> not_less eventLess b c -> not_less eventLess a c.
Proof.
  unfold not_less, eventLess. destruct (Z.eqb_spec (se_time b) (se_time a)), (Z.eqb_spec (se_time c) (se_time b)), (Z.eqb_spec (se_time c) (se_time a)); cbn [negb]; rewrite ?Z.ltb_ge; lia.
Qed.

Lemma not_less_time a b : not_less eventLess a b -> se_time a <= se_time b.
Proof. unfold not_less, eventLess. destruct (Z.eqb_spec (se_time b) (se_time a)); cbn [negb]; rewrite ?Z.ltb_ge; lia. Qed.

(** * The order of lists of numbers

    A list goes down when one of its members is replaced with smaller ones; the order of the
    members does not matter. *)

Definition replaced (l' l : list nat) : Prop := exists x new rest, l ≡ₚ x :: rest /\ l' ≡ₚ new ++ rest /\ Forall (fun y => (y < x)%nat) new.

Lemma Acc_perm l l' : l ≡ₚ l' -> Acc replaced l -> Acc replaced l'.
Proof. intros Hp [H]. constructor. intros k (x & new & rest & H1 & H2 & H3). apply H. exists x, new, rest. split; [by rewrite Hp|done]. Qed.

Lemma Acc_add x : (forall y, (y < x)%nat -> forall l, Acc replaced l -> Acc replaced (y :: l)) -> forall l, Acc replaced l -> Acc replaced (x :: l).
Proof.
  intros Hlow l Hl. induction Hl as [l Hl IH]. constructor. intros k (z & new & rest & H1 & H2 & H3).
  destruct (decide (z = x)) as [->|Hne].
  - apply Permutation_cons_inv in H1. eapply (Acc_perm (new ++ l)); [by rewrite H1, H2|]. clear H1 H2 rest. induction H3 as [|y new Hy _ IHn]; [by constructor|].
    by apply Hlow.
  - assert (x ∈ rest) as Hin.
    { assert (x ∈ z :: rest) as H by (rewrite <- H1; by left). apply elem_of_cons in H as [->|H]; done. }
    apply elem_of_Permutation in Hin as [rest' Hr]. rewrite Hr in H1. assert (l ≡ₚ z :: rest') as Hl' by (apply (Permutation_cons_inv (a := x)); rewrite H1; solve_Permutation).
    eapply (Acc_perm (x :: new ++ rest')); [rewrite H2, Hr; solve_Permutation|]. apply IH. by exists z, new, rest'.
Qed.

(** There is no infinite descent. *)
Lemma replaced_wf : well_founded replaced.
Proof.
  assert (forall x l, Acc replaced l -> Acc replaced (x :: l)) as H by (intros x; induction x as [x IH] using lt_wf_ind; by apply Acc_add).
  intros l. induction l as [|x l IH]; [|by apply H]. constructor. intros k (x & new & rest & H1 & _). by apply Permutation_nil_cons in H1.
Qed.

(** * Operations that look ahead *)

(** The rank of an event. *)
Definition rank (k : eventKind) : nat :=
  match k with
  | eventRestart _ => 1
  | eventWorkload we => match we_Kind we with EventStart | EventRetry => 2 | _ => 0 end
  | _ => 2
  end.

Section ahead.
Context {E M : Type} {engine : SimEngine E M}.
Notation simulator := (Simulator E M).
Notation node := (simNode E M).

(** What an event of rank [r] may schedule: later events, events of a lower rank, and where
    messages may take no time, anything. *)
Definition upcoming (s : simulator) (r : nat) (ev : sevent) : Prop :=
  s_now s < se_time ev \/ (se_time ev = s_now s /\ (s_minDelay s < 1 \/ (rank (se_kind ev) < r)%nat)).

Record onward (r : nat) (s s' : simulator) : Prop := mkOnward {
  on_now : s_now s' = s_now s;
  on_min : s_minDelay s' = s_minDelay s;
  on_max : s_maxDelay s' = s_maxDelay s;
  on_tick : s_tickInterval s' = s_tickInterval s;
  on_rand : rand_fn (s_delayRand s') = rand_fn (s_delayRand s);
  on_config : rn_config <$> runner_of s' = rn_config <$> runner_of s;
  on_queue : exists new, s_queue s' ≡ₚ new ++ s_queue s /\ Forall (upcoming s r) new;
  on_heap : heap_ok eventLess (s_queue s) -> heap_ok eventLess (s_queue s');
}.

(** No clock is skewed. *)
Definition same_skew (s s' : simulator) : Prop :=
  forall i sn', s_nodes s' !! i = Some sn' -> exists sn, s_nodes s !! i = Some sn /\ sn_tickMultiplier sn' = sn_tickMultiplier sn.

Lemma onward_trans r s1 s2 s3 : onward r s1 s2 -> onward r s2 s3 -> onward r s1 s3.
Proof.
  intros [A1 A2 A3 A4 A5 A0 (n1 & A6 & A7) A8] [B1 B2 B3 B4 B5 B0 (n2 & B6 & B7) B8]. split; try congruence; [|auto].
  exists (n2 ++ n1). split; [by rewrite B6, A6, app_assoc|]. apply Forall_app. split; [|done]. eapply Forall_impl; [exact B7|].
  intros ev. unfold upcoming. by rewrite A1, A2.
Qed.

Lemma onward_weaken r r' s s' : (r <= r')%nat -> onward r s s' -> onward r' s s'.
Proof.
  intros Hr [A1 A2 A3 A4 A5 A0 (new & A6 & A7) A8]. split; try done. exists new. split; [done|]. eapply Forall_impl; [exact A7|].
  intros ev [H|[H1 [H2|H2]]]; [by left|right; split; [done|by left]|right; split; [done|right; lia]].
Qed.

(** The delays that the operations draw keep the clock in its type. *)
Record paced (s : simulator) : Prop := mkPaced {
  pc_now : 0 <= s_now s;
  pc_delays : 0 <= s_minDelay s <= s_maxDelay s;
  pc_room : s_now s + s_maxDelay s < max_i64;
  pc_draws : rand_ok (s_delayRand s);
  pc_ticks : forall i sn, s_nodes s !! i = Some sn -> s_now s + nextTickDelay sn s <= max_i64;
}.

Lemma paced_steady r s s' : onward r s s' -> same_skew s s' -> paced s -> paced s'.
Proof.
  intros [A1 A2 A3 A4 A5 _ _ _] Hs [P1 P2 P3 P4 P5]. split; rewrite ?A1, ?A2, ?A3; try done.
  - intros k n Hn. rewrite A5. by apply P4.
  - intros i sn' Hi. destruct (Hs i sn' Hi) as (sn & Hsn & Em). specialize (P5 i sn Hsn). unfold nextTickDelay in *. by rewrite Em, A4.
Qed.

(** The operation schedules only such events, from a state with room for its delays. *)
Definition moves (r : nat) (s s' : simulator) : Prop := paced s -> onward r s s' /\ same_skew s s'.

#[export] Instance moves_preorder r : PreOrder (moves r).
Proof.
  split.
  - intros s _. split; [|intros i sn H; by exists sn]. split; try done. exists []. split; [done|constructor].
  - intros s1 s2 s3 H12 H23 Hp. destruct (H12 Hp) as [A1 A2]. destruct (H23 (paced_steady _ _ _ A1 A2 Hp)) as [B1 B2]. split; [by eapply onward_trans|].
    intros i sn' Hi. destruct (B2 i sn' Hi) as (sn1 & H1 & E1). destruct (A2 i sn1 H1) as (sn & H0 & E0). exists sn. split; [done|congruence].
Qed.

Lemma moves_weaken r r' s s' : (r <= r')%nat -> moves r s s' -> moves r' s s'.
Proof. intros Hr H Hp. destruct (H Hp) as [H1 H2]. split; [by eapply onward_weaken|done]. Qed.

(** The fields that time depends on are kept. *)
Definition still_time (s s' : simulator) : Prop :=
  s_now s' = s_now s /\ s_minDelay s' = s_minDelay s /\ s_maxDelay s' = s_maxDelay s /\ s_tickInterval s' = s_tickInterval s /\
  rand_fn (s_delayRand s') = rand_fn (s_delayRand s) /\ s_queue s' = s_queue s /\ s_nodes s' = s_nodes s /\
  runner_of s' = runner_of s.

#[export] Instance still_time_preorder : PreOrder still_time.
Proof. split; [done|]. intros s1 s2 s3 (A1 & A2 & A3 & A4 & A5 & A6 & A7 & A8) (B1 & B2 & B3 & B4 & B5 & B6 & B7 & B8). split_and!; congruence. Qed.

Lemma moves_same r s s' : still_time s s' -> moves r s s'.
Proof.
  intros (E1 & E2 & E3 & E4 & E5 & E6 & E7 & E8) _. split; [split; try done; [by rewrite E8|rewrite E6; exists []; split; [done|constructor]|by rewrite E6]|].
  intros i sn. rewrite E7. intros H. by exists sn.
Qed.

Lemma record_moves r f args s : moves r s (record f args s).
Proof. by apply moves_same. Qed.

Lemma upd_node_moves r i f s : (forall sn, sn_tickMultiplier (f sn) = sn_tickMultiplier sn) -> moves r s (upd_node i f s).
Proof.
  intros Hf _. split; [split; try done; exists []; split; [done|constructor]|]. intros j sn'. cbn. destruct (decide (i = j)) as [->|Hne].
  - rewrite lookup_alter_eq. intros (sn & H & ->)%fmap_Some. by exists sn.
  - rewrite lookup_alter_ne by done. intros H. by exists sn'.
Qed.

Lemma pushAt_moves r at_ k s : (paced s -> upcoming s r (mkSevent at_ (s_seq s) k)) -> moves r s (pushAt at_ k s).
Proof.
  intros Hu Hp. split; [|intros i sn H; by exists sn]. split; try done.
  - eexists [_]. split; [apply heap_push_perm|]. constructor; [by apply Hu|constructor].
  - intros H. by apply heap_push_ok; [apply eventLess_asym|apply eventLess_trans|].
Qed.

(** A positive delay. *)
Lemma pushAt_later r d k s : 0 < d -> (paced s -> s_now s + d <= max_i64) -> moves r s (pushAt (s_now s +i d) k s).
Proof. intros Hd Hm. apply pushAt_moves. intros Hp. specialize (Hm Hp). left. cbn. unfold i64_add. rewrite i64_id; [lia|]. pose proof (pc_now _ Hp). lia. Qed.

Lemma nextTickDelay_pos sn (s : simulator) : 0 < nextTickDelay sn s.
Proof. unfold nextTickDelay. cbv zeta. match goal with |- 0 < if ?x <? 1 then _ else _ => destruct (Z.ltb_spec x 1) end; lia. Qed.

Lemma scheduleTick_moves r i sn s : s_nodes s !! i = Some sn -> moves r s (scheduleTick i (s_now s +i nextTickDelay sn s) s).
Proof. intros Hi. unfold scheduleTick. rewrite Hi. apply pushAt_later; [apply nextTickDelay_pos|]. intros Hp. by eapply pc_ticks. Qed.

Lemma enqueueMessage_moves r m s : moves r s (enqueueMessage m s).
Proof.
  unfold enqueueMessage, IntN. cbv zeta. etrans; [by apply (moves_same _ _ (set_rands (mkRand (rand_fn (s_delayRand s)) (S (rand_calls (s_delayRand s)))) (s_faultRand s) s))|].
  apply pushAt_moves. cbn [s_now set_rands]. intros [P1 P2 P3 P4 P5]. cbn [s_now s_minDelay s_maxDelay s_delayRand set_rands rand_fn] in *.
  rewrite (i64_id (s_maxDelay s - s_minDelay s + 1)) by lia. pose proof (P4 (rand_calls (s_delayRand s)) (s_maxDelay s - s_minDelay s + 1) ltac:(lia)) as Hd. cbn [rand_fn] in Hd.
  set (d := rand_fn _ _ _) in *. unfold upcoming. cbn [s_now s_minDelay set_rands se_time se_kind]. unfold i64_add. rewrite (i64_id (s_minDelay s + d)), i64_id by lia.
  destruct (decide (s_now s < s_now s + (s_minDelay s + d))) as [H|H]; [by left|right; lia].
Qed.

(** * Processes and messages *)

Lemma restart_upcoming i at_ (s : simulator) : at_ = s_now s -> upcoming s 2 (mkSevent at_ (s_seq s) (eventRestart i)).
Proof. intros ->. right. cbn. split; [done|right; lia]. Qed.

Lemma scheduleRestartAfterStorageCrash_moves i info s : moves 2 s (scheduleRestartAfterStorageCrash i info s).
Proof.
  unfold scheduleRestartAfterStorageCrash. cbv zeta. destruct (_ !! _); [|reflexivity]. case_bool; [reflexivity|].
  etrans; [|apply record_moves]. etrans; [|apply (pushAt_moves 2 _ _ (set_restarts _ _ _ s)); intros _; by apply restart_upcoming]. by apply moves_same.
Qed.

Lemma scheduleRestartAfterLSMCrash_moves i s : moves 2 s (scheduleRestartAfterLSMCrash i s).
Proof.
  unfold scheduleRestartAfterLSMCrash. destruct (firedLSMCrashKey i s) as [key|]; [|reflexivity]. destruct (_ !! key) as [[]|]; [| |reflexivity]; cbn [negb]; cbv zeta.
  - etrans; [|apply record_moves]. etrans; [|apply (pushAt_moves 2 _ _ (set_restarts _ _ _ s)); intros _; by apply restart_upcoming]. by apply moves_same.
  - by apply moves_same.
Qed.

Lemma markProcessCrashed_moves r i s : moves r s (markProcessCrashed i s).
Proof.
  unfold markProcessCrashed. destruct (s_nodes s !! i) as [sn|]; [|by apply moves_same].
  match goal with |- moves _ _ (let '(_, _) := ?x in _) => destruct x as [env s1] eqn:E1 end.
  assert (moves r s s1) as H1.
  { destruct (sn_sm sn) as [m|]; [destruct eng_crash as [crash|]; [destruct (crash _ _) as [[env' m'] [e|]]|]|]; injection E1 as <- <-;
      (reflexivity || apply record_moves). }
  etrans; [exact H1|]. by apply upd_node_moves.
Qed.

Lemma markProcessHalted_moves r i s : moves r s (markProcessHalted i s).
Proof. apply upd_node_moves. intros sn. unfold markHalted. by case_bool. Qed.

Lemma storageCrashed_moves i f args info s : moves 2 s (storageCrashed i f args info s).
Proof.
  unfold storageCrashed. etrans; [|apply scheduleRestartAfterStorageCrash_moves]. etrans; [apply markProcessCrashed_moves|]. by apply moves_same.
Qed.

Lemma handleLSMProcessCrash_moves i f args s : moves 2 s (handleLSMProcessCrash i f args s).
Proof.
  unfold handleLSMProcessCrash. etrans; [|apply scheduleRestartAfterLSMCrash_moves]. etrans; [apply markProcessCrashed_moves|]. apply record_moves.
Qed.

Lemma drawFault_moves r rate s : moves r s (drawFault rate s).2.
Proof. unfold drawFault. case_bool; [destruct (drawFloat _); by apply moves_same|reflexivity]. Qed.

Lemma scheduleMessage_moves r m s : moves r s (scheduleMessage m s).
Proof.
  unfold scheduleMessage. pose proof (drawFault_moves r (s_dropRate s) s) as H1. destruct (drawFault (s_dropRate s) s) as [dropped s1]. cbn [snd] in H1.
  destruct dropped; [etrans; [exact H1|apply record_moves]|]. cbv zeta. assert (moves r s (enqueueMessage m s1)) as H2 by (etrans; [exact H1|apply enqueueMessage_moves]).
  set (s2 := enqueueMessage m s1) in *. clearbody s2. pose proof (drawFault_moves r (s_dupRate s2) s2) as H3. destruct (drawFault (s_dupRate s2) s2) as [duplicated s3]. cbn [snd] in H3.
  assert (moves r s s3) as H4 by (by etrans). destruct duplicated; [|done]. etrans; [exact H4|]. etrans; [|apply enqueueMessage_moves]. apply record_moves.
Qed.

Lemma send_all_moves r ms s : moves r s (foldl (fun s m => scheduleMessage m (simObserveLeader m s)) s ms).
Proof.
  revert s. induction ms as [|m ms IH]; intros s; [reflexivity|]. cbn [foldl]. etrans; [|apply IH]. etrans; [|apply scheduleMessage_moves]. by apply moves_same.
Qed.

(** * The Ready path *)

Lemma observeWorkloadApply_moves i e res s : moves 2 s (observeWorkloadApply i e res s).
Proof.
  unfold observeWorkloadApply. destruct (s_workload s) as [w|] eqn:Ew; [|reflexivity]. cbv zeta. case_bool; [reflexivity|].
  set (s1 := set_workload _ _ s). assert (moves 2 s s1) as H1 by (apply moves_same; split_and!; try done; unfold runner_of; by rewrite Ew). etrans; [exact H1|].
  generalize dependent s1. intros s1 _.
  generalize (default [] (sw_pending w !! mkApplyKey i (Index e))). clear.
  intros pending. revert s1. induction pending as [|p pending IH]; intros s1; [reflexivity|]. cbn [foldl]. etrans; [|apply IH]. clear IH. cbv zeta.
  set (s2 := match s_workload s1 with Some _ => _ | None => _ end). assert (moves 2 s1 s2) as H2 by (subst s2; destruct (s_workload s1) eqn:E1; apply moves_same; split_and!; try done; unfold runner_of; by rewrite E1).
  etrans; [exact H2|]. clearbody s2. destruct (Term e =? pa_term p); apply pushAt_moves; intros _; right; cbn; (split; [done|right; lia]).
Qed.

Lemma applyOne_moves i e s : moves 2 s (applyOne i e s).1.
Proof.
  unfold applyOne. destruct (s_nodes s !! i) as [sn|]; [|by apply moves_same].
  match goal with |- context [let '(_, _) := ?x in _] => destruct x as [s1 res] eqn:E1 end.
  assert (moves 2 s s1) as H1.
  { destruct (sn_sm sn) as [m|]; [destruct (eng_apply _ _ m) as [[env' m'] r]|]; injection E1 as <- <-; [by apply upd_node_moves|reflexivity]. }
  destruct res as [[|msg]|x]; cbn [fst]; (etrans; [exact H1|]).
  - apply handleLSMProcessCrash_moves.
  - etrans; [|apply record_moves]. apply markProcessHalted_moves.
  - etrans; [apply observeWorkloadApply_moves|]. by apply upd_node_moves.
Qed.

Lemma applyCommittedEntries_moves i es s : moves 2 s (applyCommittedEntries i es s).1.
Proof.
  revert s. induction es as [|e es IH]; intros s; cbn [applyCommittedEntries]; [reflexivity|]. pose proof (applyOne_moves i e s) as H1.
  destruct (applyOne i e s) as [s1 []]; cbn [fst] in H1; [|done]. etrans; [exact H1|apply IH].
Qed.

Lemma sim_processReady_moves i rd s : moves 2 s (sim_processReady i rd s).
Proof.
  unfold sim_processReady. destruct (s_nodes s !! i) as [sn|]; [|by apply moves_same]. destruct (Save _ _ _) as [st saveErr]. cbv zeta.
  assert (moves 2 s (upd_node i (with_storage st) s)) as H1 by (by apply upd_node_moves). set (s1 := upd_node i _ s) in *. clearbody s1. destruct saveErr as [e|].
  { case_bool; (etrans; [exact H1|]); [apply storageCrashed_moves|]. etrans; [|apply record_moves]. apply markProcessHalted_moves. }
  set (s2 := foldl _ s1 _). assert (moves 2 s s2) as H2 by (etrans; [exact H1|apply send_all_moves]). clearbody s2.
  match goal with |- context [let '(_, _) := ?x in _] => destruct x as [st2 fired] end. cbv zeta.
  assert (moves 2 s (upd_node i (with_storage st2) s2)) as H3 by (etrans; [exact H2|]; by apply upd_node_moves). set (s3 := upd_node i _ s2) in *. clearbody s3. destruct fired.
  { etrans; [exact H3|]. apply storageCrashed_moves. }
  pose proof (applyCommittedEntries_moves i (r_CommittedEntries rd) s3) as H4. destruct (applyCommittedEntries _ _ s3) as [s4 []]; cbn [fst] in H4; [|by etrans].
  etrans; [|apply record_moves]. etrans; [by etrans|]. by apply upd_node_moves.
Qed.

Lemma runReady_moves i s : moves 2 s (runReady i s).
Proof.
  unfold runReady. destruct (s_nodes s !! i ≫= sn_node) as [n|]; [|by apply moves_same]. destruct (NodeReady n) as [rd n'].
  etrans; [|apply sim_processReady_moves]. by apply upd_node_moves.
Qed.

(** * Handlers *)

Lemma handleTick_moves i s : moves 2 s (handleTick i s).
Proof.
  unfold handleTick. destruct (s_nodes s !! i) as [sn|] eqn:Hi; [|by apply moves_same]. destruct (sn_node sn) as [n|]; [|apply record_moves].
  case_bool; [apply record_moves|]. case_bool; [etrans; [apply record_moves|by apply (scheduleTick_moves 2 i sn (record _ _ s))]|]. cbv zeta.
  set (s1 := runReady i _). assert (moves 2 s s1) as H1.
  { etrans; [|apply runReady_moves]. etrans; [|apply record_moves]. by apply upd_node_moves. }
  clearbody s1. destruct (s_nodes s1 !! i) as [sn1|] eqn:Hi1; [|done]. case_bool; [|done]. etrans; [exact H1|]. by apply scheduleTick_moves.
Qed.

Lemma handleMessage_moves m s : moves 2 s (handleMessage m s).
Proof.
  unfold handleMessage. cbv zeta. case_bool; [apply record_moves|]. destruct (s_nodes s !! To m) as [sn|]; [|apply record_moves]. destruct (sn_node sn) as [n|]; [|apply record_moves].
  case_bool; [apply record_moves|]. case_bool; [apply record_moves|]. etrans; [|apply runReady_moves]. etrans; [|apply record_moves]. by apply upd_node_moves.
Qed.

Lemma handleCrash_moves r i s : moves r s (handleCrash i s).
Proof.
  unfold handleCrash. destruct (s_nodes s !! i) as [sn|]; [|by apply moves_same]. cbv zeta. etrans; [|apply record_moves]. etrans; [|apply markProcessCrashed_moves].
  destruct (sn_storage sn) as [m|cs]; [reflexivity|]. destruct (crashed cs); [reflexivity|]. destruct (cs_Crash cs) as [cs' [e|]].
  - etrans; [|apply record_moves]. by apply upd_node_moves.
  - by apply upd_node_moves.
Qed.

(** Where no file system crashes, as with the map state machine, a restart schedules only a
    tick. *)
Context (Hfs : forall env : E, eng_lastEvent env = None).

Lemma restartStateMachine_moves r i s : moves r s (restartStateMachine i s).1.
Proof using Hfs.
  unfold restartStateMachine. destruct (s_nodes s !! i) as [sn|]; [|by apply moves_same]. case_bool; [reflexivity|].
  destruct (eng_open (sn_env sn)) as [env res]. assert (moves r s (upd_node i (with_sm (sn_sm sn) env) s)) as H1 by (by apply upd_node_moves).
  cbv zeta. set (s1 := upd_node i _ s) in *. clearbody s1. destruct res as [[|msg]|m]; cbn [fst]; (etrans; [exact H1|]).
  - unfold handleLSMProcessCrash, scheduleRestartAfterLSMCrash, firedLSMCrashKey. set (s2 := record _ _ _). assert (moves r s1 s2) as H2 by (etrans; [apply markProcessCrashed_moves|apply record_moves]).
    clearbody s2. destruct (s_nodes s2 !! i) as [sn2|]; [rewrite Hfs|]; done.
  - etrans; [|apply record_moves]. apply markProcessHalted_moves.
  - match goal with |- context [let '(_, _) := ?x in _] => destruct x as [[env1 m1] err] end. destruct err as [e|]; cbn [fst].
    + etrans; [|apply record_moves]. etrans; [|apply markProcessHalted_moves]. by apply upd_node_moves.
    + by apply upd_node_moves.
Qed.

Lemma handleRestart_moves r i s : moves r s (handleRestart i s).
Proof using Hfs.
  unfold handleRestart. destruct (s_nodes s !! i) as [sn|]; [|by apply moves_same]. case_bool; [apply record_moves|].
  destruct (recoverStorage (sn_storage sn)) as [st err]. cbv zeta. assert (moves r s (upd_node i (with_storage st) s)) as H1 by (by apply upd_node_moves).
  set (s1 := upd_node i _ s) in *. clearbody s1. destruct err as [e|]; [etrans; [exact H1|]; etrans; [|apply record_moves]; apply markProcessHalted_moves|].
  destruct (recoveredInitialState st) as [init|e]; [|etrans; [exact H1|]; etrans; [|apply record_moves]; apply markProcessHalted_moves].
  set (s2 := replaceProcess i _ s1). assert (moves r s s2) as H2 by (etrans; [exact H1|]; by apply upd_node_moves). clearbody s2.
  pose proof (restartStateMachine_moves r i s2) as H3. destruct (restartStateMachine i s2) as [s3 []]; cbn [fst] in H3; [|by etrans].
  destruct (s_nodes s3 !! i) as [sn3|] eqn:H4; [|etrans; [by etrans|by apply moves_same]]. cbv zeta.
  etrans; [|by apply (scheduleTick_moves r i sn3 (record _ _ s3))]. etrans; [|apply record_moves]. by etrans.
Qed.

(** * Faults *)

Lemma overGroups_pre (R : simulator -> simulator -> Prop) `{!PreOrder R} both groups s :
  (forall from to s, R s (both from to s)) -> R s (overGroups both groups s).
Proof using.
  intros Hb. assert (forall from rgroup s, R s (foldl (fun s to => both from to s) s rgroup)) as H1.
  { intros from rgroup. induction rgroup as [|to rgroup IH]; intros s'; [reflexivity|]. cbn [foldl]. etrans; [apply Hb|apply IH]. }
  assert (forall lgroup rgroup s, R s (foldl (fun s from => foldl (fun s to => both from to s) s rgroup) s lgroup)) as H2.
  { intros lgroup rgroup. induction lgroup as [|from lgroup IH]; intros s'; [reflexivity|]. cbn [foldl]. etrans; [apply H1|apply IH]. }
  assert (forall lgroup groups s, R s
    (foldl (fun s rgroup => foldl (fun s from => foldl (fun s to => both from to s) s rgroup) s lgroup) s groups)) as H3.
  { intros lgroup gs. induction gs as [|g gs IH]; intros s'; [reflexivity|]. cbn [foldl]. etrans; [apply H2|apply IH]. }
  revert s. induction groups as [|g groups IH]; intros s; [reflexivity|]. cbn [overGroups]. etrans; [apply H3|apply IH].
Qed.

Lemma PartitionGroups_time groups s : still_time s (PartitionGroups groups s).
Proof using. by apply (overGroups_pre still_time). Qed.
Lemma HealGroups_time groups s : still_time s (HealGroups groups s).
Proof using. by apply (overGroups_pre still_time). Qed.
Lemma Pause_moves r i s : moves r s (Pause i s).
Proof using. unfold Pause. destruct (s_nodes s !! i); [|reflexivity]. etrans; [|apply record_moves]. by apply upd_node_moves. Qed.
Lemma Resume_moves r i s : moves r s (Resume i s).
Proof using. unfold Resume. destruct (s_nodes s !! i); [|reflexivity]. etrans; [|apply record_moves]. by apply upd_node_moves. Qed.

(** A multiplier that [SetClockSkew] accepts, or none. *)
Definition skew_ok (m : float64) : Prop :=
  f64_eqb m f64_zero = true \/ (f64_isNaN m || f64_isInf m = false /\ f64_ltb m minClockMultiplier = false /\ f64_ltb maxClockMultiplier m = false).

Definition skews_ok (s : simulator) : Prop := forall i sn, s_nodes s !! i = Some sn -> skew_ok (sn_tickMultiplier sn).

(** What happens in an event: time goes on, and the clocks stay within their bounds. *)
Definition passes (r : nat) (s s' : simulator) : Prop := onward r s s' /\ (skews_ok s -> skews_ok s').

Lemma moves_passes r s s' : moves r s s' -> paced s -> passes r s s'.
Proof using.
  intros H Hp. destruct (H Hp) as [H1 H2]. split; [done|]. intros Hs i sn' Hi. destruct (H2 i sn' Hi) as (sn & Hsn & ->). by eapply Hs.
Qed.

Lemma passes_then r s1 s2 s3 : passes r s1 s2 -> still_time s2 s3 -> passes r s1 s3.
Proof using.
  intros [H1 H2] (E1 & E2 & E3 & E4 & E5 & E6 & E7 & E8). split; [|intros Hs i sn; rewrite E7; by apply H2]. eapply onward_trans; [exact H1|].
  split; try done; [by rewrite E8|rewrite E6; exists []; split; [done|constructor]|by rewrite E6].
Qed.

Lemma SetClockSkew_passes r i m s : passes r s (SetClockSkew i m s).1.
Proof using.
  assert (onward r s s) as Hsame by (split; try done; exists []; split; [done|constructor]).
  unfold SetClockSkew. destruct (f64_isNaN m || f64_isInf m) eqn:E1; [by split|]. destruct (f64_ltb m _ || _) eqn:E2; [by split|]. apply orb_false_iff in E2 as [E2 E3].
  destruct (s_nodes s !! i) as [sn0|]; [|by split]. cbn [fst]. split; [split; try done; exists []; split; [done|constructor]|].
  intros Hs j sn. cbn. destruct (decide (i = j)) as [->|Hne]; [|rewrite lookup_alter_ne by done; apply Hs].
  rewrite lookup_alter_eq. intros (sn1 & _ & ->)%fmap_Some. by right.
Qed.

Lemma applyFault_passes r f s : paced s -> passes r s (applyFault f s).
Proof using Hfs.
  intros Hp. unfold applyFault. destruct (fv_Kind f); try (apply moves_passes; [|done]; by apply moves_same).
  - apply moves_passes; [|done]. etrans; [|apply record_moves]. apply moves_same, PartitionGroups_time.
  - apply moves_passes; [|done]. etrans; [|apply record_moves]. apply moves_same, HealGroups_time.
  - apply moves_passes; [apply Pause_moves|done].
  - apply moves_passes; [apply Resume_moves|done].
  - pose proof (SetClockSkew_passes r (fv_Node f) (fv_Multiplier f) s) as H1. destruct (SetClockSkew _ _ s) as [s' [e|]]; cbn [fst] in H1; [|done].
    by eapply passes_then.
  - apply moves_passes; [|done]. destruct (s_nodes s !! fv_Node f); [apply handleCrash_moves|reflexivity].
  - apply moves_passes; [|done]. destruct (s_nodes s !! fv_Node f); [apply handleRestart_moves|reflexivity].
Qed.

(** * The workload *)

Section workload.
Context (marshal : Command -> result bytes).
#[local] Hint Extern 0 (WorkloadHost _) => exact (simulator_WorkloadHost marshal) : typeclass_instances.

Lemma registerWorkloadAttempt_moves r node index term sub s : moves r s (registerWorkloadAttempt node index term sub s).
Proof using.
  unfold registerWorkloadAttempt. destruct (s_workload s) as [w|] eqn:Ew; [|by apply moves_same]. cbv zeta. etrans; [|apply record_moves].
  apply moves_same. split_and!; try done. unfold runner_of. by rewrite Ew.
Qed.

Lemma cancelWorkloadAttempt_moves r a s : moves r s (cancelWorkloadAttempt a s).
Proof using.
  unfold cancelWorkloadAttempt. destruct (s_workload s) as [w|] eqn:Ew; [|by apply moves_same]. destruct (_ !! a); [|reflexivity]. cbv zeta. etrans; [|apply record_moves].
  apply moves_same. split_and!; try done. unfold runner_of. by rewrite Ew.
Qed.

Lemma sim_propose_moves i data f s : (forall g, f = Some g -> forall index term s, moves 2 s (g index term s)) -> moves 2 s (sim_propose i data f s).1.
Proof using.
  intros Hf. unfold sim_propose. cbv zeta. destruct (s_nodes s !! i) as [sn|]; [|apply record_moves]. destruct (sn_node sn) as [n|]; [|apply record_moves].
  case_bool; [apply record_moves|]. destruct (Propose data n) as [n' [[index term] isLeader]]. cbn [fst]. etrans; [|apply runReady_moves].
  assert (moves 2 s (record "propose node=%d index=%d term=%d leader=%t" [i; index; term; Z.b2z isLeader] (upd_node i (with_node (Some n')) s))) as H1
    by (etrans; [|apply record_moves]; by apply upd_node_moves).
  destruct f as [g|]; [|done]. destruct isLeader; [|done]. etrans; [exact H1|]. by apply Hf.
Qed.

Lemma host_Submit_moves sub s : moves 2 s (host_Submit marshal sub s).1.
Proof using.
  unfold host_Submit. destruct (marshal _) as [data|e]; [|reflexivity]. cbv zeta.
  match goal with |- context [sim_propose ?a ?b ?c s] => pose proof (sim_propose_moves a b c s) as H1; destruct (sim_propose a b c s) as [s1 [[index term] isLeader]] end.
  cbn [fst] in H1. assert (moves 2 s s1) as H2 by (apply H1; intros g [= <-] ? ? ?; apply registerWorkloadAttempt_moves).
  case_bool; cbn [fst]; (etrans; [exact H2|apply record_moves]).
Qed.

(** The times of a runner are positive, and there is room for them. *)
Record run_times (c : WorkloadConfig) (now : Z) : Prop := mkRunTimes {
  rt_timeout : 0 < wc_OperationTimeout c /\ now + wc_OperationTimeout c <= max_i64;
  rt_retry : 0 < wc_RetryDelay c /\ now + wc_RetryDelay c <= max_i64;
  rt_think : 0 < wc_ThinkTime c /\ now + wc_ThinkTime c <= max_i64;
}.

Definition keeps_time (k : nat) (r : Runner) (s : simulator) (x : handled (H := simulator)) : Prop :=
  moves k s (host_of x) /\ rn_config x.1.1 = rn_config r.

Lemma moves_now k s1 s2 s3 : moves k s1 s2 -> (s_now s2 = s_now s1 -> moves k s2 s3) -> moves k s1 s3.
Proof using. intros H12 H23 Hp. assert (moves k s2 s3) as H by (apply H23, (on_now _ _ _ (proj1 (H12 Hp)))). exact (transitivity H12 H Hp). Qed.

Lemma keeps_time_refl k r s e : keeps_time k r s (r, s, e).
Proof using. split; [cbn; reflexivity|done]. Qed.

Lemma scheduleRetry_time k i r s : run_times (rn_config r) (s_now s) -> keeps_time k r s (scheduleRetry i r s).
Proof using.
  intros Ht. unfold scheduleRetry, clientAt. destruct (_ !! i) as [c|]; [|apply keeps_time_refl]. destruct (cl_active c) as [op|]; [|apply keeps_time_refl]. cbv zeta.
  case_bool; [apply keeps_time_refl|]. split; [|done]. cbn. apply pushAt_later; [apply Ht|intros _; apply Ht].
Qed.

Lemma scheduleDeadline_time k i r s r' s' c op :
  rn_clients r !! i = Some c -> cl_active c = Some op -> lo_deadline op = s_now s +i wc_OperationTimeout (rn_config r) -> run_times (rn_config r) (s_now s) ->
  scheduleDeadline i r s = (r', s') -> moves k s s' /\ rn_config r' = rn_config r.
Proof using.
  intros Hi Ha Hd Ht. unfold scheduleDeadline. rewrite Hi, Ha. cbv zeta. intros [= <- <-]. split; [|done]. cbn. rewrite Hd.
  apply pushAt_later; [apply Ht|intros _; apply Ht].
Qed.

Lemma submit_time i retry r s : run_times (rn_config r) (s_now s) -> keeps_time 2 r s (submit i retry r s).
Proof using.
  intros Ht. unfold submit, clientAt. destruct (rn_clients r !! i) as [c|]; [|apply keeps_time_refl]. destruct (cl_active c) as [op|]; [|apply keeps_time_refl].
  destruct (if retry then Retry _ _ _ else None); [apply keeps_time_refl|]. cbv zeta. destruct (wc_Targets _ !! _) as [target|]; [|apply keeps_time_refl].
  match goal with |- context [wh_Submit ?x s] => pose proof (host_Submit_moves x s) as Hm; change (wh_Submit x s) with (host_Submit marshal x s); destruct (host_Submit marshal x s) as [s1 [status|e]] end;
    cbn [fst] in Hm; [|by split].
  destruct status; [by split|]. split.
  - eapply moves_now; [exact Hm|]. intros En. apply scheduleRetry_time. cbn [rn_config set_client add_attempt]. by rewrite En.
  - unfold scheduleRetry, clientAt. by repeat case_match.
Qed.

Lemma submit_after i retry r s r1 s1 : run_times (rn_config r) (s_now s) -> moves 2 s s1 -> rn_config r1 = rn_config r -> paced s -> keeps_time 2 r s (submit i retry r1 s1).
Proof using.
  intros Ht Hm Ec Hp. destruct (submit_time i retry r1 s1) as [H1 H2]; [rewrite Ec, (on_now _ _ _ (proj1 (Hm Hp))); done|].
  split; [by etrans|by rewrite H2].
Qed.

Lemma handleStart_time i r s : paced s -> run_times (rn_config r) (s_now s) -> keeps_time 2 r s (handleStart i r s).
Proof using.
  intros Hp Ht. unfold handleStart, clientAt. destruct (rn_clients r !! i) as [c|] eqn:Hi; [|apply keeps_time_refl]. destruct (cl_active c); [apply keeps_time_refl|].
  case_bool; [apply keeps_time_refl|]. cbv zeta. destruct (gen_Next _ _) as [g input]. destruct (Invoke _ _ _ _ _) as [rec [e|]]; [by split; [cbn; reflexivity|]|].
  set (op := mkLogicalOperation _ _ _ _ _ _ _). set (c2 := mkClient _ _ _ _ _ _ _). destruct (scheduleDeadline i _ s) as [r2 s2] eqn:Es.
  destruct (scheduleDeadline_time 2 i (set_recorder rec (set_client i c2 r)) s r2 s2 c2 op (set_client_lookup i c2 r c Hi) eq_refl eq_refl Ht Es) as [H1 H2].
  by apply submit_after.
Qed.

Lemma handleRetry_time i event r s : paced s -> run_times (rn_config r) (s_now s) -> keeps_time 2 r s (handleRetry i event r s).
Proof using.
  intros Hp Ht. unfold handleRetry, clientAt. destruct (rn_clients r !! i) as [c|] eqn:Hi; [|apply keeps_time_refl]. destruct (cl_active c) as [op|]; [|apply keeps_time_refl]. cbv zeta.
  case_bool; [apply keeps_time_refl|]. case_bool; [apply keeps_time_refl|]. case_bool; [apply keeps_time_refl|]. destruct (lo_timedOut op); [|by apply submit_time].
  set (op1 := with_deadline _ _ _). set (c1 := with_active _ _). destruct (scheduleDeadline i _ s) as [r2 s2] eqn:Es.
  destruct (scheduleDeadline_time 2 i (set_client i c1 r) s r2 s2 c1 op1 (set_client_lookup _ _ _ _ Hi) eq_refl eq_refl Ht Es) as [H1 H2]. by apply submit_after.
Qed.

(** An event of the workload schedules what its rank allows. *)
Lemma runner_Handle_time event r s :
  paced s -> run_times (rn_config r) (s_now s) -> keeps_time (rank (eventWorkload event)) r s (runner_Handle event r s).
Proof using.
  intros Hp Ht. unfold runner_Handle, rank. destruct (rn_byID r !! _) as [i|]; [|apply keeps_time_refl]. destruct (we_Kind event).
  - by apply handleStart_time.
  - by apply handleRetry_time.
  - unfold handleDeadline, clientAt. destruct (_ !! i) as [c|]; [|apply keeps_time_refl]. destruct (cl_active c) as [op|]; [|apply keeps_time_refl].
    case_bool; [apply keeps_time_refl|]. cbv zeta. set (s1 := if lo_waiting op then _ else s).
    assert (moves 0 s s1) as H1 by (subst s1; destruct (lo_waiting op); [apply cancelWorkloadAttempt_moves|reflexivity]). destruct (RecordTimeout _ _ _ _); by split.
  - unfold handleApplied, clientAt. destruct (_ !! i) as [c|]; [|apply keeps_time_refl]. destruct (cl_active c) as [op|]; [|apply keeps_time_refl].
    case_bool; [apply keeps_time_refl|]. destruct (Complete _ _ _ _ _) as [rec [e|]]; [by split; [cbn; reflexivity|]|]. cbv zeta.
    case_bool; (split; [cbn|done]); [|reflexivity]. apply pushAt_later; [apply Ht|intros _; apply Ht].
  - unfold handleLeadershipLost, clientAt. destruct (_ !! i) as [c|]; [|apply keeps_time_refl]. destruct (cl_active c) as [op|]; [|apply keeps_time_refl].
    case_bool; [apply keeps_time_refl|]. exact (scheduleRetry_time 0 i (set_client i (with_active (Some (with_waiting false op)) c) r) s Ht).
  - apply keeps_time_refl.
Qed.

Lemma set_runner_time k s1 s2 r err :
  passes k s1 s2 -> rn_config <$> runner_of s1 = Some (rn_config r) -> passes k s1 (set_runner r err s2).
Proof using.
  intros [[A1 A2 A3 A4 A5 A0 A6 A8] Hs] Ec. unfold set_runner. destruct (s_workload s2) as [w|]; [|done]. split; [|done]. by split.
Qed.

Lemma handleWorkloadEvent_passes payload s :
  paced s -> (forall r, runner_of s = Some r -> run_times (rn_config r) (s_now s)) -> passes (rank (eventWorkload payload)) s (handleWorkloadEvent marshal payload s).
Proof using.
  intros Hp Ht. assert (passes (rank (eventWorkload payload)) s s) as Hsame by (apply moves_passes; [reflexivity|done]).
  unfold handleWorkloadEvent. destruct (s_workload s) as [w|] eqn:Ew; [|done]. destruct (s_runErr s); [done|].
  assert (runner_of s = Some (sw_runner w)) as Er by (unfold runner_of; by rewrite Ew). destruct (runner_Handle_time payload (sw_runner w) s Hp (Ht _ Er)) as [H1 H2].
  destruct (runner_Handle payload (sw_runner w) s) as [[r s1] err]. cbn [host_of fst snd] in H1, H2. pose proof (moves_passes _ _ _ H1 Hp) as H3.
  assert (rn_config <$> runner_of s = Some (rn_config r)) as Ec by (by rewrite Er, H2).
  destruct err as [e|]; [eapply passes_then; [by apply set_runner_time|done]|by apply set_runner_time].
Qed.

(** * Events *)

(** Whatever the event, it schedules what its rank allows. *)
Lemma handleEvent_passes ev s :
  paced s -> (forall r, runner_of s = Some r -> run_times (rn_config r) (s_now s)) -> passes (rank (se_kind ev)) s (handleEvent marshal ev s).
Proof using Hfs.
  intros Hp Ht. unfold handleEvent. destruct (se_kind ev) as [i g|m|i|i|payload|f].
  - case_bool; [|apply moves_passes; [apply handleTick_moves|done]]. apply moves_passes; [|done]. destruct (s_nodes s !! i); by apply moves_same.
  - apply moves_passes; [apply handleMessage_moves|done].
  - apply moves_passes; [apply handleCrash_moves|done].
  - apply moves_passes; [apply handleRestart_moves|done].
  - by apply handleWorkloadEvent_passes.
  - by apply applyFault_passes.
Qed.

(** * Runs *)

(** Between events no event waits for a time that has passed, and the times that are drawn and
    configured are not negative. *)
Record timely (s : simulator) : Prop := mkTimely {
  ty_now : 0 <= s_now s;
  ty_delays : 0 <= s_minDelay s <= s_maxDelay s;
  ty_draws : rand_ok (s_delayRand s);
  ty_queue : forall ev, ev ∈ s_queue s -> s_now s <= se_time ev;
  ty_heap : heap_ok eventLess (s_queue s);
  ty_times : forall c, rn_config <$> runner_of s = Some c -> 0 < wc_OperationTimeout c /\ 0 < wc_RetryDelay c /\ 0 < wc_ThinkTime c;
}.

(** The clock and what is added to it stay in their type. *)
Definition clock_fits (s : simulator) : Prop :=
  s_now s + s_maxDelay s < max_i64 /\ map_Forall (fun _ sn => s_now s + nextTickDelay sn s <= max_i64) (s_nodes s) /\
  match rn_config <$> runner_of s with
  | Some c => s_now s + wc_OperationTimeout c <= max_i64 /\ s_now s + wc_RetryDelay c <= max_i64 /\ s_now s + wc_ThinkTime c <= max_i64
  | None => True
  end.

#[export] Instance clock_fits_dec s : Decision (clock_fits s).
Proof using. unfold clock_fits. destruct (rn_config <$> runner_of s); apply _. Defined.

(** The next event is the earliest. *)
Lemma timely_pop s ev queue :
  timely s -> heap_pop eventLess (s_queue s) = Some (ev, queue) ->
  s_now s <= se_time ev /\ (forall e, e ∈ queue -> se_time ev <= se_time e) /\ heap_ok eventLess queue.
Proof using.
  intros [T1 T2 T3 T4 T5 T6] Hp. pose proof (heap_pop_perm _ _ _ _ Hp) as Hperm. split_and!.
  - apply T4. rewrite Hperm. by left.
  - intros e He. apply not_less_time. eapply (heap_pop_min eventLess eventLess_asym eventLess_trans); [exact T5|exact Hp|]. rewrite Hperm. by right.
  - by eapply (heap_pop_ok eventLess eventLess_asym eventLess_trans).
Qed.

Lemma timely_paced s ev queue :
  timely s -> heap_pop eventLess (s_queue s) = Some (ev, queue) -> clock_fits (dequeued ev queue s) ->
  paced (dequeued ev queue s) /\ forall r, runner_of (dequeued ev queue s) = Some r -> run_times (rn_config r) (s_now (dequeued ev queue s)).
Proof using.
  intros Ht Hp (F1 & F2 & F3). destruct (timely_pop s ev queue Ht Hp) as (Hnow & _ & _). destruct Ht as [T1 T2 T3 T4 T5 T6]. set (s0 := dequeued ev queue s) in *.
  assert (runner_of s0 = runner_of s) as Er by done. split.
  - split; [cbn; lia|done|done|done|]. intros i sn Hi. exact (F2 i sn Hi).
  - intros r Hr. rewrite Hr in F3. cbn [fmap option_fmap option_map] in F3. rewrite Er in Hr. destruct (T6 (rn_config r)) as (P1 & P2 & P3); [by rewrite Hr|]. destruct F3 as (F3 & F4 & F5). by split.
Qed.

Lemma passes_timely r s s' : passes r s s' -> timely s -> timely s'.
Proof using.
  intros [[A1 A2 A3 A4 A5 A0 (new & A6 & A7) A8] _] [T1 T2 T3 T4 T5 T6]. split; rewrite ?A1, ?A2, ?A3, ?A0; try done; [| |auto].
  - intros k n Hn. rewrite A5. by apply T3.
  - intros ev. rewrite A6, elem_of_app. intros [H|H]; [|by apply T4]. rewrite Forall_forall in A7. destruct (A7 ev H) as [Hl|[-> _]]; lia.
Qed.

(** What an event does to time. *)
Lemma event_passes s ev queue :
  timely s -> heap_pop eventLess (s_queue s) = Some (ev, queue) -> clock_fits (dequeued ev queue s) ->
  timely (dequeued ev queue s) /\ passes (rank (se_kind ev)) (dequeued ev queue s) (handleEvent marshal ev (dequeued ev queue s)).
Proof using Hfs.
  intros Ht Hp Hf. destruct (timely_paced s ev queue Ht Hp Hf) as [Hpc Hrt]. split; [|by apply handleEvent_passes].
  destruct (timely_pop s ev queue Ht Hp) as (H1 & H2 & H3). destruct Ht as [T1 T2 T3 T4 T5 T6]. split; try done; cbn; lia.
Qed.

Lemma event_timely s ev queue :
  timely s -> heap_pop eventLess (s_queue s) = Some (ev, queue) -> clock_fits (dequeued ev queue s) -> timely (handleEvent marshal ev (dequeued ev queue s)).
Proof using Hfs. intros Ht Hp Hf. destruct (event_passes s ev queue Ht Hp Hf) as [H1 H2]. by eapply passes_timely. Qed.

(** The call schedules nothing for a time that has passed. *)
Definition schedules_ahead (s s' : simulator) : Prop := forall ev, ev ∈ s_queue s' -> ev ∈ s_queue s \/ s_now s <= se_time ev.

Lemma pushAt_timely at_ k s : s_now s <= at_ -> timely s -> timely (pushAt at_ k s).
Proof using.
  intros Hat [T1 T2 T3 T4 T5 T6]. split; try done; cbn [s_now s_queue pushAt set_queue].
  - intros ev. rewrite heap_push_perm, elem_of_cons. intros [->|H]; [done|by apply T4].
  - by apply heap_push_ok; [apply eventLess_asym|apply eventLess_trans|].
Qed.

Lemma still_timely s s' : still_time s s' -> timely s -> timely s'.
Proof using.
  intros (E1 & E2 & E3 & E4 & E5 & E6 & E7 & E8) [T1 T2 T3 T4 T5 T6]. split; rewrite ?E1, ?E2, ?E3, ?E6, ?E8; try done.
  intros k n Hn. rewrite E5. by apply T3.
Qed.

Lemma upd_node_timely i f s : timely s -> timely (upd_node i f s).
Proof using. intros []. by split. Qed.

Lemma call_timely ids s s' : sim_call ids s s' -> schedules_ahead s s' -> timely s -> timely s'.
Proof using.
  intros Hc Ha Ht. assert (forall at_ k, s' = pushAt at_ k s -> s_now s <= at_) as Hat.
  { intros at_ k ->. destruct (Ha (mkSevent at_ (s_seq s) k)) as [H|H]; [cbn; rewrite heap_push_perm; by left|by apply (ty_queue _ Ht) in H|done]. }
  destruct Hc as [from to|from to|groups|groups|i|i|i m|i at_ Hi|i at_ Hi|client at_|inv Hinv].
  - by apply (still_timely s).
  - by apply (still_timely s).
  - by eapply still_timely; [apply PartitionGroups_time|].
  - by eapply still_timely; [apply HealGroups_time|].
  - unfold Pause. destruct (s_nodes s !! i); [|done]. by eapply still_timely; [|apply upd_node_timely].
  - unfold Resume. destruct (s_nodes s !! i); [|done]. by eapply still_timely; [|apply upd_node_timely].
  - unfold SetClockSkew. case_bool; [done|]. case_bool; [done|]. destruct (s_nodes s !! i); [|done]. cbn [fst]. by eapply still_timely; [|apply upd_node_timely].
  - apply pushAt_timely; [|done]. by eapply Hat.
  - apply pushAt_timely; [|done]. by eapply Hat.
  - unfold ScheduleWorkloadRetry. destruct (s_workload s) as [w|]; [|done]. destruct (Z.ltb_spec at_ (s_now s)); [done|]. destruct (RetryEvent _ _); [|done]. cbn [fst]. by apply pushAt_timely.
  - by apply (still_timely s).
Qed.

(** * The end of a run *)

(** The rank and the time that is left order the events that [Run] will handle. *)
Definition weight (until : Z) (ev : sevent) : nat := (3 * Z.to_nat (until - se_time ev) + rank (se_kind ev))%nat.
Definition weights (until : Z) (queue : list sevent) : list nat := weight until <$> filter (fun ev => se_time ev <= until) queue.

Lemma weights_app until q1 q2 : weights until (q1 ++ q2) = weights until q1 ++ weights until q2.
Proof using. unfold weights. by rewrite filter_app, fmap_app. Qed.

Lemma weights_perm until q1 q2 : q1 ≡ₚ q2 -> weights until q1 ≡ₚ weights until q2.
Proof using. intros H. unfold weights. by rewrite H. Qed.

Lemma rank_le k : (rank k <= 2)%nat.
Proof using. destruct k as [| | | |we|]; cbn; repeat case_match; lia. Qed.

Lemma upcoming_lighter until s r ev :
  1 <= s_minDelay s -> (r <= 2)%nat -> upcoming s r ev -> s_now s <= until -> se_time ev <= until -> (weight until ev < 3 * Z.to_nat (until - s_now s) + r)%nat.
Proof using.
  intros Hmin Hr Hu Hn He. unfold weight. pose proof (rank_le (se_kind ev)) as Hk.
  destruct Hu as [H|[H1 [H2|H2]]]; [|lia|rewrite H1; lia]. assert (S (Z.to_nat (until - se_time ev)) <= Z.to_nat (until - s_now s))%nat by lia. lia.
Qed.

(** An event is replaced with lighter ones. *)
Lemma event_lighter until s ev queue :
  timely s -> 1 <= s_minDelay s -> heap_pop eventLess (s_queue s) = Some (ev, queue) -> se_time ev <= until -> clock_fits (dequeued ev queue s) ->
  replaced (weights until (s_queue (handleEvent marshal ev (dequeued ev queue s)))) (weights until (s_queue s)).
Proof using Hfs.
  intros Ht Hmin Hp He Hf. destruct (event_passes s ev queue Ht Hp Hf) as [_ [[A1 A2 A3 A4 A5 A0 (new & A6 & A7) A8] _]].
  exists (weight until ev), (weights until new), (weights until queue). split_and!.
  - rewrite (weights_perm until _ _ (heap_pop_perm _ _ _ _ Hp)). unfold weights. by rewrite filter_cons_True.
  - rewrite (weights_perm until _ _ A6). by rewrite weights_app.
  - apply Forall_fmap, Forall_forall. intros e [Hle Hin]%list_elem_of_filter. rewrite Forall_forall in A7.
    exact (upcoming_lighter until (dequeued ev queue s) _ e Hmin (rank_le _) (A7 e Hin) He Hle).
Qed.

(** More events than enough change nothing. *)
Lemma sim_Run_mono fuel fuel' until s x : sim_Run marshal fuel until s = Some x -> (fuel <= fuel')%nat -> sim_Run marshal fuel' until s = Some x.
Proof using.
  revert fuel' s. induction fuel as [|fuel IH]; intros fuel' s Hr Hle; cbn [sim_Run] in Hr; destruct fuel' as [|fuel']; try lia; cbn [sim_Run];
    destruct (s_queue s) as [|ev0 q0]; try done; destruct (until <? se_time ev0); try done; destruct (heap_pop _ _) as [[ev queue]|]; try done.
  destruct (runEvent marshal ev queue s) as [s1 [e|]]; [done|]. apply IH; [done|lia].
Qed.

Section ends.
Context (I : simulator -> Prop) (until : Z).
Context (HI : forall s, I s -> timely s /\ 1 <= s_minDelay s).
Context (HIev : forall s ev queue, I s -> heap_pop eventLess (s_queue s) = Some (ev, queue) -> se_time ev <= until ->
  clock_fits (dequeued ev queue s) /\ I (handleEvent marshal ev (dequeued ev queue s))).

(** The loop ends: a state that is kept and in which messages take time is left after
    finitely many events. *)
Lemma sim_Run_ends s : I s -> exists fuel s' err, sim_Run marshal fuel until s = Some (s', err) /\ I s'.
Proof using Hfs HI HIev.
  remember (weights until (s_queue s)) as l eqn:El. revert s El. induction (replaced_wf l) as [l _ IH]. intros s -> Hs.
  destruct (s_queue s) as [|ev0 q0] eqn:Eq; [exists 0%nat, s, None; cbn [sim_Run]; by rewrite Eq|].
  destruct (until <? se_time ev0) eqn:Eu; [exists 0%nat, s, None; cbn [sim_Run]; by rewrite Eq, Eu|].
  destruct (heap_pop eventLess (ev0 :: q0)) as [[ev queue]|] eqn:Ep; [|exists 0%nat, s, None; cbn [sim_Run]; by rewrite Eq, Eu, Ep].
  assert (ev = ev0) as -> by (unfold heap_pop in Ep; destruct (_ !! _); [|done]; by injection Ep as <- _). apply Z.ltb_ge in Eu as Hle. rewrite <- Eq in Ep.
  destruct (HI s Hs) as [Ht Hmin]. destruct (HIev s ev0 queue Hs Ep Hle) as [Hf Hs1]. set (s1 := handleEvent marshal ev0 (dequeued ev0 queue s)) in *.
  assert (forall r, runEvent marshal ev0 queue s = r -> r.1 = s1) as Hrun by (intros r <-; unfold runEvent; fold (dequeued ev0 queue s) s1; by destruct (s_runErr s1)).
  destruct (runEvent marshal ev0 queue s) as [s1' [e|]] eqn:Er; specialize (Hrun _ eq_refl); cbn in Hrun; subst s1'.
  - exists 1%nat, s1, (Some e). cbn [sim_Run]. rewrite Eq, Eu, <- Eq, Ep, Er. done.
  - destruct (IH (weights until (s_queue s1))) with (s := s1) as (fuel & s' & err & Hr & Hs'); [rewrite <- Eq; by apply event_lighter|done|done|].
    exists (S fuel), s', err. cbn [sim_Run]. rewrite Eq, Eu, <- Eq, Ep, Er. done.
Qed.

(** It keeps what its events keep. *)
Lemma sim_Run_keeps fuel s s' err : I s -> sim_Run marshal fuel until s = Some (s', err) -> I s'.
Proof using Hfs HI HIev.
  intros Hs Hr. destruct (sim_Run_ends s Hs) as (fuel1 & s1 & err1 & Hr1 & Hs1).
  apply (sim_Run_mono _ (fuel + fuel1)) in Hr; [|lia]. apply (sim_Run_mono _ (fuel + fuel1)) in Hr1; [|lia]. congruence.
Qed.
End ends.

(** * Runs whose clock stays in its type *)

(** The times of a runner are short. *)
Definition short_times (c : WorkloadConfig) : Prop := wc_OperationTimeout c <= 2 ^ 61 /\ wc_RetryDelay c <= 2 ^ 61 /\ wc_ThinkTime c <= 2 ^ 61.

(** Messages take time, ticks are frequent and the run is short enough. *)
Record bounded (until : Z) (s : simulator) : Prop := mkBounded {
  bd_timely : timely s;
  bd_skews : skews_ok s;
  bd_delays : 1 <= s_minDelay s /\ s_maxDelay s <= 2 ^ 61;
  bd_tick : 0 < s_tickInterval s <= 100;
  bd_times : forall c, rn_config <$> runner_of s = Some c -> short_times c;
  bd_now : s_now s <= until;
}.

Lemma nextTickDelay_bound sn (s : simulator) : 0 < s_tickInterval s <= 100 -> skew_ok (sn_tickMultiplier sn) -> nextTickDelay sn s <= 2 ^ 61 + 1.
Proof using.
  intros Ht Hs. unfold nextTickDelay. set (mult := if f64_eqb _ _ then _ else _). assert (f64_roundToInt (f64_div (f64_of_int (s_tickInterval s)) mult) <= 2 ^ 61 + 1) as H.
  { subst mult. destruct (f64_eqb (sn_tickMultiplier sn) f64_zero) eqn:Ez; [by apply f64_div_bound|]. destruct Hs as [Hs|(H1 & H2 & H3)]; [congruence|]. by apply f64_div_bound. }
  cbv zeta. destruct (_ <? 1); [done|done].
Qed.

Lemma bounded_fits until s ev queue : until <= 2 ^ 61 -> bounded until s -> se_time ev <= until -> clock_fits (dequeued ev queue s).
Proof using.
  intros Hu [B1 B2 B3 B4 B5 B6] He. assert (2 ^ 61 + 2 ^ 61 + 1 < max_i64) as Hmax by done. unfold clock_fits. cbn [s_now s_maxDelay s_nodes dequeued set_time set_queue]. split_and!; [lia| |].
  - intros i sn Hi. assert (nextTickDelay sn (dequeued ev queue s) <= 2 ^ 61 + 1) as H by (apply nextTickDelay_bound; [done|by eapply B2]). lia.
  - change (runner_of (dequeued ev queue s)) with (runner_of s). destruct (rn_config <$> runner_of s) as [c|] eqn:Ec; [|done]. destruct (B5 c eq_refl) as (H1 & H2 & H3). lia.
Qed.

Lemma bounded_event until s ev queue :
  until <= 2 ^ 61 -> bounded until s -> heap_pop eventLess (s_queue s) = Some (ev, queue) -> se_time ev <= until ->
  clock_fits (dequeued ev queue s) /\ bounded until (handleEvent marshal ev (dequeued ev queue s)).
Proof using Hfs.
  intros Hu HB Hp He. pose proof (bounded_fits until s ev queue Hu HB He) as Hf. split; [done|]. destruct HB as [B1 B2 B3 B4 B5 B6].
  destruct (event_passes s ev queue B1 Hp Hf) as [H1 H2]. pose proof (passes_timely _ _ _ H2 H1) as H3. destruct H2 as [[A1 A2 A3 A4 A5 A0 A6 A8] Hs].
  split; rewrite ?A1, ?A2, ?A3, ?A4, ?A0; try done. by apply Hs.
Qed.

Lemma bounded_later until until' s : until <= until' -> bounded until s -> bounded until' s.
Proof using. intros Hle [B1 B2 B3 B4 B5 B6]. split; try done. lia. Qed.

Lemma check_bounded until inv s : bounded until s -> bounded until (RegisterInvariant inv s).
Proof using. intros [B1 B2 B3 B4 B5 B6]. split; try done. by apply (still_timely s). Qed.

(** A run of a bounded stretch of time ends. *)
Lemma bounded_ends until s : until <= 2 ^ 61 -> bounded until s -> exists fuel s' err, sim_Run marshal fuel until s = Some (s', err) /\ bounded until s'.
Proof using Hfs.
  intros Hu. apply sim_Run_ends; [|intros; by apply bounded_event]. intros s0 [B1 B2 B3 B4 B5 B6]. split; [done|lia].
Qed.

Lemma bounded_keeps until fuel s s' err : until <= 2 ^ 61 -> bounded until s -> sim_Run marshal fuel until s = Some (s', err) -> bounded until s'.
Proof using Hfs.
  intros Hu. apply sim_Run_keeps; [|intros; by apply bounded_event]. intros s0 [B1 B2 B3 B4 B5 B6]. split; [done|lia].
Qed.
End workload.
End ahead.

(** * Construction *)

Section start.
Context {E M : Type} {engine : SimEngine E M}.
Context (newRand : Z -> Rand) (newFloats : Z -> nat -> float64) (newEnv : Z -> E) (marshal : Command -> result bytes) (Hrand : forall seed, rand_ok (newRand seed)).
#[local] Hint Extern 0 (WorkloadHost _) => exact (simulator_WorkloadHost marshal) : typeclass_instances.
Notation simulator := (Simulator E M).

(** The delays and the tick interval of a configuration are not negative. *)
Definition forward_config (cfg : SimConfig) : Prop := 0 <= sc_MinDelayMS cfg /\ 0 <= sc_TickIntervalMS cfg.

(** The state that is built: its times, and the clocks of its nodes. *)
Definition built (cfg : SimConfig) (s : simulator) : Prop :=
  timely s /\ skews_ok s /\ s_minDelay s = (delays cfg).1 /\ s_maxDelay s = (delays cfg).2 /\
  s_tickInterval s = (if sc_TickIntervalMS cfg =? 0 then defaultTickIntervalMS else sc_TickIntervalMS cfg) /\ s_now s = 0 /\ s_workload s = None.

Lemma pushAt_built cfg at_ k s : 0 <= at_ -> built cfg s -> built cfg (pushAt at_ k s).
Proof. intros Hat (H1 & H2 & H3 & H4 & H5 & H6 & H7). split; [apply pushAt_timely; [by rewrite H6|done]|done]. Qed.

Lemma newSim_built cfg schedule cs s : newSim newRand newFloats newEnv cfg schedule cs = Ok s -> forward_config cfg -> built cfg s.
Proof using Hrand.
  unfold newSim, newRandStreams. destruct (checkConfig cfg); [done|]. cbv zeta. intros Hs [Hmin Htick]. set (tick := if sc_TickIntervalMS cfg =? 0 then _ else _) in *.
  assert (0 <= tick) as Ht by (subst tick; by case_bool). assert (0 <= (delays cfg).1) as Hd by (unfold delays; by case_bool). destruct (delays cfg) as [lo hi] eqn:Ed. cbn [fst] in Hd.
  destruct (Z.ltb_spec hi lo); [done|]. destruct (Int63 (newRand (sc_Seed cfg))) as [delaySeed src1]. destruct (nodeStreams _ _ src1 _) as [src2 perNode]. destruct (Int63 src2) as [faultSeed src3].
  destruct (newNodes _ _ _ _ _ _ _ _) as [nodes|e] eqn:En; [|done]. set (s0 := mkSimulator _ _ _ _ _ _ _ _ _ _ _ _ _ _ _ _ _ _ _ _ _ _ _) in Hs. injection Hs as <-.
  assert (built cfg s0) as H0.
  { destruct (newNodes_spec newRand newFloats newEnv _ _ _ _ _ _ _ En) as [_ Hn]. split_and!; try done; cbn; rewrite ?Ed; try done.
    - split; cbn; try done. by intros ev ?%elem_of_nil.
    - intros i sn Hi. destruct (Hn i sn Hi) as [Hx|(store & _ & ->)]; [by rewrite lookup_empty in Hx|by left]. }
  generalize dependent s0. intros s0 H0. generalize (sc_NodeIDs cfg). intros order. revert s0 H0. induction order as [|i order IH]; intros s0 H0; [done|]. cbn [foldl]. apply IH.
  unfold scheduleTick. destruct (s_nodes s0 !! i); [by apply pushAt_built|]. destruct H0 as (H1 & H2 & H3 & H4 & H5 & H6 & H7). split; [by apply (still_timely s0)|done].
Qed.

Lemma validated_times ids schedule : ValidateForCluster ids schedule = None -> forall f, f ∈ fs_Events schedule -> 0 <= fv_Time f.
Proof.
  unfold ValidateForCluster, Validate. case_bool; [done|]. destruct (firstError validateEvent (fs_Events schedule)) eqn:Ev; [done|]. intros _ f Hf.
  pose proof (proj1 (firstError_None _ _) Ev f Hf) as Hv. unfold validateEvent in Hv. by destruct (Z.ltb_spec (fv_Time f) 0).
Qed.

Lemma NewFaultSim_built cfg schedule s : NewFaultSim newRand newFloats newEnv cfg schedule = Ok s -> forward_config cfg -> built cfg s.
Proof using Hrand.
  unfold NewFaultSim. destruct (ValidateForCluster _ _) eqn:Ev; [done|]. case_bool; [done|]. destruct (newSim _ _ _ _ _ _) as [s0|e] eqn:E0; [|done]. cbv zeta. intros [= <-] Hf.
  assert (forall s r ds l, built cfg s -> built cfg (set_restarts r ds l s)) as Hset.
  { intros s1 r ds l (H1 & H2 & H3 & H4 & H5 & H6 & H7). split; [by apply (still_timely s1)|done]. }
  apply Hset. unfold installFaultEvents. assert (forall f, f ∈ sortFaultEvents (fs_Events schedule) -> 0 <= fv_Time f) as Ht.
  { intros f. unfold sortFaultEvents. rewrite sort_by_perm. by apply (validated_times (sc_NodeIDs cfg)). }
  pose proof (Hset _ (restartPolicies (fs_Crashes schedule)) (s_lsmCrashDirectives s0) (s_lsmRestartOnCrash s0) (newSim_built _ _ _ _ E0 Hf)) as H1.
  generalize dependent (set_restarts (restartPolicies (fs_Crashes schedule)) (s_lsmCrashDirectives s0) (s_lsmRestartOnCrash s0) s0). clear E0 s0.
  generalize dependent (sortFaultEvents (fs_Events schedule)). intros l. induction l as [|f l IH]; intros Hl s1 H1; [done|]. cbn [foldl]. apply IH; [intros g Hg; apply Hl; by right|].
  apply pushAt_built; [apply Hl; by left|done].
Qed.

(** What starting a workload keeps. *)
Lemma install_kept order s s' err :
  installStateMachines newEnv order s = (s', err) -> still_time s (set_nodes (s_nodes s) s') /\ s_workload s' = s_workload s /\ (skews_ok s -> skews_ok s').
Proof.
  revert s. induction order as [|id order IH]; intros s; cbn [installStateMachines]; [by intros [= <- <-]|].
  assert (forall f (s : simulator), (forall sn, sn_tickMultiplier (f sn) = sn_tickMultiplier sn) -> skews_ok s -> skews_ok (upd_node id f s)) as Hu.
  { intros f s1 Hf Hs i sn. cbn. destruct (decide (id = i)) as [->|Hne]; [|rewrite lookup_alter_ne by done; apply Hs].
    rewrite lookup_alter_eq. intros (sn0 & H0 & ->)%fmap_Some. rewrite Hf. by eapply Hs. }
  destruct (eng_open (newEnv id)) as [env [e|m]]; [intros [= <- <-]; split_and!; [done..|by apply Hu]|].
  destruct (eng_arm _ env) as [env1 [e|]]; [intros [= <- <-]; split_and!; [done..|by apply Hu]|].
  intros Hi. destruct (IH _ Hi) as (H1 & H2 & H3). split_and!; [|by rewrite H2|intros Hs; apply H3; by apply Hu].
  destruct H1 as (E1 & E2 & E3 & E4 & E5 & E6 & E7 & E8). by split_and!.
Qed.

Lemma normalized_times c c' : normalizeConfig c = Ok c' ->
  wc_OperationTimeout c' = orDefault (wc_OperationTimeout c) DefaultOperationTimeout /\ wc_RetryDelay c' = orDefault (wc_RetryDelay c) DefaultRetryDelay /\
  wc_ThinkTime c' = orDefault (wc_ThinkTime c) DefaultThinkTime /\ 0 < wc_OperationTimeout c' /\ 0 < wc_RetryDelay c' /\ 0 < wc_ThinkTime c'.
Proof.
  assert (forall v d, 0 < d -> orDefault v d <? 0 = false -> 0 < orDefault v d) as Hd.
  { intros v d Hd. unfold orDefault. destruct (Z.eqb_spec v 0); [done|]. rewrite Z.ltb_ge. lia. }
  unfold normalizeConfig. cbv zeta. repeat (case_match; [done|]). intros [= <-]. cbn [wc_OperationTimeout wc_RetryDelay wc_ThinkTime] in *. split_and!; try done; by apply Hd.
Qed.

(** The workload starts at its time, which is not past. *)
Lemma StartWorkload_timely cfg config s0 s1 :
  built cfg s0 -> StartWorkload newRand newEnv marshal config s0 = (s1, None) ->
  timely s1 /\ skews_ok s1 /\ s_minDelay s1 = s_minDelay s0 /\ s_maxDelay s1 = s_maxDelay s0 /\ s_tickInterval s1 = s_tickInterval s0 /\ s_now s1 = s_now s0 /\
  exists c, rn_config <$> runner_of s1 = Some c /\ wc_OperationTimeout c = orDefault (wc_OperationTimeout config) DefaultOperationTimeout /\
    wc_RetryDelay c = orDefault (wc_RetryDelay config) DefaultRetryDelay /\ wc_ThinkTime c = orDefault (wc_ThinkTime config) DefaultThinkTime.
Proof.
  intros (Ht & Hs & _ & _ & _ & Hnow & Hwl). unfold StartWorkload. rewrite Hwl. case_bool; [done|]. cbv zeta. unfold NewRunner. destruct (normalizeConfig _) as [c|e] eqn:En; [|done].
  destruct (newClients newRand _ 0 c) as [cs|e]; [|done]. destruct (normalized_times _ _ En) as (N1 & N2 & N3 & N4). destruct (installStateMachines newEnv (s_order s0) s0) as [si [e|]] eqn:Ei; [done|].
  destruct (install_kept _ _ _ _ Ei) as ((E1 & E2 & E3 & E4 & E5 & E6 & E7 & E8) & Ew & Hsk). cbn [s_now s_minDelay s_maxDelay s_tickInterval s_delayRand s_queue set_nodes] in *.
  unfold runner_Start. cbn [rn_started rn_config]. set (s2 := set_workload _ _ si). cbn [wh_Now simulator_WorkloadHost]. destruct (Z.ltb_spec (wc_StartTime c) (s_now s2)) as [|Hst]; [done|]. cbn in Hst.
  set (P := fun x : simulator => timely x /\ skews_ok x /\ s_minDelay x = s_minDelay s0 /\ s_maxDelay x = s_maxDelay s0 /\ s_tickInterval x = s_tickInterval s0 /\ s_now x = s_now s0 /\
    rn_config <$> runner_of x = Some c).
  assert (P s2) as H2.
  { destruct Ht as [T1 T2 T3 T4 T5 T6]. split_and!; try done; [|by apply Hsk]. split; cbn; rewrite ?E1, ?E2, ?E3, ?E6; try done.
    - intros k n Hn. rewrite E5. by apply T3.
    - intros c0 [= <-]. exact N4. }
  assert (forall l x, P x -> P (foldl (fun host cl => wh_Schedule (wc_StartTime c) (mkWEvent EventStart (mkAttemptID (cl_id cl) 0 0) 0 noOutput) host) x l)) as Hl.
  { intros l. induction l as [|cl l IH]; intros x Hx; [done|]. cbn [foldl]. apply IH. destruct Hx as (X1 & X2 & X3 & X4 & X5 & X6 & X7). split; [|done]. apply pushAt_timely; [|done]. rewrite X6. lia. }
  pose proof (Hl cs s2 H2) as (X1 & X2 & X3 & X4 & X5 & X6 & X7). clear Hl H2. intros [= <-]. set (s3 := foldl _ s2 cs) in *. clearbody s3. unfold set_runner.
  unfold runner_of in X7. destruct (s_workload s3) as [w|] eqn:Ew3; [|done]. split_and!; try done.
  - destruct X1 as [T1 T2 T3 T4 T5 T6]. split; try done. intros c0 [= <-]. exact N4.
  - exists c. by split_and!.
Qed.
(** A configuration whose runs are bounded: messages take time, and ticks are frequent. *)
Definition bounded_config (cfg : SimConfig) : Prop :=
  1 <= (delays cfg).1 /\ (delays cfg).2 <= 2 ^ 61 /\ 0 <= sc_TickIntervalMS cfg <= 100.

Lemma StartWorkload_bounded cfg config s0 s1 :
  built cfg s0 -> bounded_config cfg -> wc_OperationTimeout config <= 2 ^ 61 -> wc_RetryDelay config <= 2 ^ 61 -> wc_ThinkTime config <= 2 ^ 61 ->
  StartWorkload newRand newEnv marshal config s0 = (s1, None) -> bounded 0 s1.
Proof.
  intros Hb (C1 & C2 & C3) T1 T2 T3 Hs. destruct (StartWorkload_timely cfg config s0 s1 Hb Hs) as (H1 & H2 & H3 & H4 & H5 & H6 & c & H7 & H8 & H9 & H10).
  destruct Hb as (_ & _ & B3 & B4 & B5 & B6 & _). rewrite B3 in H3. rewrite B4 in H4. rewrite B5 in H5. assert (forall v d, v <= 2 ^ 61 -> d <= 2 ^ 61 -> orDefault v d <= 2 ^ 61) as Hd by (intros v d Hv Hd; unfold orDefault; by destruct (v =? 0)).
  split; [done|done|by rewrite H3, H4| | |lia].
  - rewrite H5. destruct (Z.eqb_spec (sc_TickIntervalMS cfg) 0); [done|lia].
  - intros c0. rewrite H7. intros [= <-]. unfold short_times. rewrite H8, H9, H10. split_and!; by apply Hd.
Qed.
End start.
