(* ===== verification/SimRuns.v ===== *)
(** The guarantees of simulated runs, and a run: three nodes on crash-model storages with a
    client workload, crashes inside and after saves, a crash and a restart of a host, lost
    and duplicated messages, a partition, a pause and a skewed clock. *)

From stdpp Require Import functions.
From S2P Require Import Prelude Proto RaftLog RaftNode RaftSpec Storage Server NodeFacts HostFacts Cluster Bytes WalRecords CrashStorage Safety.
From S2P Require Import MapSM Checker CheckerFacts SimInvariant DiskLog SimFS Float64 FaultSchedule Heap Workload SimLoop SimBuild WorkloadFacts SimStore SimCluster SimFrame SimRefine SimSafety.

(** * What is asked of events, decided *)

#[export] Instance has_room_dec n : Decision (has_room n).
Proof. unfold has_room. apply _. Defined.
#[export] Instance is_u64_dec z : Decision (is_u64 z).
Proof. unfold is_u64. apply _. Defined.
#[export] Instance type_ok_dec t : Decision (type_ok t).
Proof. destruct t; cbn [type_ok]; apply _. Defined.
#[export] Instance entry_fits_dec e : Decision (entry_fits e).
Proof. unfold entry_fits. apply _. Defined.
#[export] Instance record_ok_dec r : Decision (record_ok r).
Proof. destruct r; cbn [record_ok]; apply _. Defined.
#[export] Instance cs_fits_dec hs es : Decision (cs_fits hs es).
Proof.
  unfold cs_fits. apply and_dec; [|apply _]. destruct hs as [h|].
  - destruct (decide (record_ok (RHard h))) as [H|H]; [left|right]; [by intros h' [= <-]|]. intros H'. by apply H, H'.
  - left. by intros h.
Defined.
#[export] Instance st_fits_dec st hs es : Decision (st_fits st hs es).
Proof. destruct st; cbn [st_fits]; apply _. Defined.

Section decide.
Context {E M : Type}.
Notation simulator := (Simulator E M).

#[export] Instance fits_node_dec ev (sn : simNode E M) n : Decision (fits_node ev sn n).
Proof. unfold fits_node. apply _. Defined.
#[export] Instance fits_event_dec i ev (s : simulator) : Decision (fits_event i ev s).
Proof. unfold fits_event. destruct (s_nodes s !! i) as [sn|]; [destruct (sn_node sn)|]; apply _. Defined.
#[export] Instance submission_fits_dec marshal ids payload (s : simulator) : Decision (submission_fits marshal ids payload s).
Proof. unfold submission_fits. destruct (runner_of s) as [r|]; [|apply _]. destruct (nextCommand payload r); [|apply _]. destruct (marshal _); apply _. Defined.
#[export] Instance event_fits_dec marshal ids ev (s : simulator) : Decision (event_fits marshal ids ev s).
Proof. unfold event_fits. destruct (se_kind ev); apply _. Defined.
End decide.

(** * Runs of the loop *)

Section run.
Context {E M : Type} {engine : SimEngine E M}.
Context (newRand : Z -> Rand) (newEnv : Z -> E) (marshal : Command -> result bytes) (ids : list Z).
Notation simulator := (Simulator E M).

(** Every event that [Run] handles passes a check. *)
Fixpoint run_all (check : sevent -> simulator -> bool) (fuel : nat) (until : Z) (s : simulator) : bool :=
  match s_queue s with
  | [] => true
  | ev0 :: _ =>
      if until <? se_time ev0 then true
      else match heap_pop eventLess (s_queue s) with
           | None => true
           | Some (ev, queue) =>
               match fuel with
               | O => true
               | S fuel' =>
                   check ev s && match runEvent marshal ev queue s with (_, Some _) => true | (s1, None) => run_all check fuel' until s1 end
               end
           end
  end.

(** Every event that [Run] handles fits. *)
Definition run_fits : nat -> Z -> simulator -> bool := run_all (fun ev s => bool_decide (event_fits marshal ids ev s)).

Context (cfgs : Z -> Config) (Hcfg : cluster_cfg cfgs ids).

Lemma runEvent_checks sa c (s : simulator) ev queue s1 err :
  plainSR cfgs ids sa c s -> good s -> heap_pop eventLess (s_queue s) = Some (ev, queue) -> event_fits marshal ids ev s ->
  runEvent marshal ev queue s = (s1, err) ->
  sim_step newRand newEnv marshal ids s s1 /\ good s1 /\ (exists c1 sa1, rtc (cstep cfgs ids) c c1 /\ plainSR cfgs ids sa1 c1 s1) /\
  forall e, err = Some e -> s_runErr s1 = Some e.
Proof using Hcfg.
  intros HR Hg Hp Hf Hr. unfold runEvent in Hr. fold (dequeued ev queue s) in Hr. set (s' := handleEvent marshal ev (dequeued ev queue s)) in *.
  assert (sim_step newRand newEnv marshal ids s s') as Hs by (by apply ss_event).
  destruct (sim_step_reaches newRand newEnv marshal cfgs ids Hcfg sa c s s' HR Hg Hs) as [(c1 & sa1 & Hc1 & _ & HR1) Hg1].
  destruct (s_runErr s') as [e|] eqn:Ee; injection Hr as <- <-.
  - split_and!; [done|done|by exists c1, sa1|by rewrite Ee].
  - split_and!; [done|done|by exists c1, sa1|]. intros e. by rewrite (checks_pass cfgs ids sa1 c1 s' HR1 Hg1).
Qed.

(** An error that the loop returns is one of the workload. *)
Lemma sim_Run_checks fuel until sa c (s s' : simulator) err :
  plainSR cfgs ids sa c s -> good s -> run_fits fuel until s = true -> sim_Run marshal fuel until s = Some (s', err) ->
  rtc (sim_step newRand newEnv marshal ids) s s' /\ forall e, err = Some e -> workload_error e /\ runner_of s' <> None.
Proof using Hcfg.
  revert sa c s. induction fuel as [|fuel IH]; intros sa c s HR Hg Hf Hr; cbn [run_fits run_all sim_Run] in Hf, Hr; destruct (s_queue s) as [|ev0 q0] eqn:Eq.
  1,3: by injection Hr as <- <-.
  all: destruct (until <? se_time ev0); [by injection Hr as <- <-|]; destruct (heap_pop eventLess (ev0 :: q0)) as [[ev queue]|] eqn:Ep; [|by injection Hr as <- <-].
  { done. }
  apply andb_true_iff in Hf as [Hf1 Hf2]. apply bool_decide_eq_true in Hf1.
  destruct (runEvent marshal ev queue s) as [s1 err1] eqn:E1. rewrite <- Eq in Ep.
  destruct (runEvent_checks sa c s ev queue s1 err1 HR Hg Ep Hf1 E1) as (Hs & Hg1 & (c1 & sa1 & _ & HR1) & He). destruct err1 as [e1|].
  - injection Hr as <- <-. split; [by apply rtc_once|]. intros e [= <-]. destruct Hg1 as [_ Hg1]. apply Hg1, (He e1 eq_refl).
  - destruct (IH sa1 c1 s1 HR1 Hg1 Hf2 Hr) as [H1 H2]. split; [by eapply rtc_l|done].
Qed.
End run.

(** * The guarantees *)

Section guarantees.
Context {E M : Type} {engine : SimEngine E M}.
Context (newRand : Z -> Rand) (newFloats : Z -> nat -> float64) (newEnv : Z -> E) (marshal : Command -> result bytes).
Notation simulator := (Simulator E M).

(** The states of runs: what the constructors build, the turns of the loop and the calls of
    a scenario. *)
Definition simulated (cfg : SimConfig) (s : simulator) : Prop :=
  exists s0, (NewSim newRand newFloats newEnv cfg = Ok s0 \/ exists schedule, NewFaultSim newRand newFloats newEnv cfg schedule = Ok s0) /\
    rtc (sim_step newRand newEnv marshal (sc_NodeIDs cfg)) s0 s.

Lemma simulated_related cfg s :
  proper_ids cfg -> simulated cfg s ->
  cluster_cfg (nodeConfig cfg) (sc_NodeIDs cfg) /\
  exists c sa, creach (nodeConfig cfg) (sc_NodeIDs cfg) c /\ plainSR (nodeConfig cfg) (sc_NodeIDs cfg) sa c s /\ good s.
Proof.
  intros Hp (s0 & Hnew & Hs). assert (starts cfg s0) as (Hcfg & Hinv & _ & Herr & _ & _ & c & Hc & HR).
  { destruct Hnew as [Hnew|[schedule Hnew]]; [by eapply NewSim_starts|by eapply NewFaultSim_starts]. }
  split; [done|]. assert (good s0) as Hg by (split; [done|intros e; by rewrite Herr]).
  specialize (HR (fun _ => True)). destruct (run_related newRand newEnv marshal _ _ Hcfg ainit c s0 s) as (c' & sa' & Hc' & _ & HR' & Hg'); [by exists c|done..|]. by exists c', sa'.
Qed.

(** C14. The simulator implements the cluster: in every state of a simulated run, with its
    random delays, losses, duplicates, partitions, pauses, skewed clocks, crashes inside
    and after saves, failing state machines and restarts, the storages of the nodes and the
    processes that run are those of a reachable state of hosts over an unreliable network,
    every message that waits was sent by a host, and the leaders observed are those of the
    messages sent. *)
Theorem simulator_refines_cluster cfg s :
  proper_ids cfg -> simulated cfg s ->
  exists c : cluster (S := MemStorage), creach (nodeConfig cfg) (sc_NodeIDs cfg) c /\
    (forall i, i ∈ sc_NodeIDs cfg -> exists sn, s_nodes s !! i = Some sn /\ st_view (sn_storage sn) = h_Storage (hosts c i) /\
       forall n, sn_node sn = Some n -> sn_halted sn = false -> n = h_Node (hosts c i)) /\
    (forall m, queued m s -> m ∈ net c) /\ s_leaders s = foldl (fun t m => observeLeader m t) newLeaderTracker (net c).
Proof.
  intros Hp Hs. destruct (simulated_related cfg s Hp Hs) as (_ & c & sa & Hc & [H1 H2 H3 H4 H5 H6 H7 H8 H9] & _). exists c. split_and!; [done| |done|done].
  intros i Hi. destruct (H3 i Hi) as [sn Hsn]. destruct (H4 i sn Hsn) as [_ [N1 N2 N3 N4 N5 N6]]. exists sn. split_and!; [done|done|].
  intros n Hn Hh. by apply N6.
Qed.

(** State machine safety of simulated runs: the entries that two nodes have handed to
    their state machines since the beginning of a run, over crashes and restarts, are equal
    where their positions are. *)
Theorem simulated_applied_agree cfg s i j e e' :
  proper_ids cfg -> simulated cfg s -> e ∈ AppliedEntries i s -> e' ∈ AppliedEntries j s -> Index e = Index e' -> e = e'.
Proof.
  intros Hp Hs. destruct (simulated_related cfg s Hp Hs) as (_ & c & sa & _ & [H1 H2 H3 H4 H5 H6 H7 H8 H9] & _). unfold AppliedEntries.
  destruct (s_nodes s !! i) as [sni|] eqn:Ei; [|by intros H%elem_of_nil]. destruct (s_nodes s !! j) as [snj|] eqn:Ej; [|by intros _ H%elem_of_nil].
  rewrite !cloneEntries_id. destruct (H4 i sni Ei) as [Hi Ni], (H4 j snj Ej) as [Hj Nj]. intros He He'.
  eapply (applied_entry_agree (sc_NodeIDs cfg) sa i j); [apply H1|by eapply hosts_wf|by eapply hosts_wf|..].
  - pose proof (nr_applied _ _ _ _ _ _ Ni) as Hf. rewrite Forall_forall in Hf. by apply Hf.
  - pose proof (nr_applied _ _ _ _ _ _ Nj) as Hf. rewrite Forall_forall in Hf. by apply Hf.
Qed.

(** The checks of the simulator never report a violation: whatever [Run] does from a
    state of a simulated run, an error that it returns is one of the workload's events, so
    neither the log check nor the leader check, run after every event, has failed, and no
    node of the code was missing. *)
Theorem simulator_run_no_violation cfg fuel until s s' err :
  proper_ids cfg -> simulated cfg s -> run_fits marshal (sc_NodeIDs cfg) fuel until s = true ->
  sim_Run marshal fuel until s = Some (s', err) ->
  simulated cfg s' /\ forall e, err = Some e -> workload_error e /\ runner_of s' <> None.
Proof.
  intros Hp Hs Hf Hr. destruct (simulated_related cfg s Hp Hs) as (Hcfg & c & sa & Hc & HR & Hg).
  destruct (sim_Run_checks newRand newEnv marshal _ _ Hcfg fuel until sa c s s' err HR Hg Hf Hr) as [H1 H2]. split; [|done].
  destruct Hs as (s0 & Hn & H0). exists s0. split; [done|by etrans].
Qed.
End guarantees.

(** * A run *)

(** A random source whose draws follow the seed and the number of the draw. *)
Definition demo_rand (seed : Z) : Rand := mkRand (fun k n => (seed * 7 + Z.of_nat k * 31 + 3) mod n) 0.
Definition demo_floats (seed : Z) (k : nat) : float64 := f64_div (f64_of_int ((seed * 5 + Z.of_nat k * 37) mod 100)) (f64_of_int 100).

(** A codec of commands: client, sequence number, operation and the key's length in a byte
    each, then the key and the value; it refuses what does not fit. *)
Definition op_number (o : Op) : Z := match o with Op_PUT => 1 | Op_DELETE => 2 | Op_GET => 3 | _ => 0 end.
Definition in_byte (z : Z) : bool := (0 <=? z) && (z <? 256).
Definition demo_marshal (c : Command) : result bytes :=
  if in_byte (ClientId c) && in_byte (Seq c) && bool_decide (opOfNumber (op_number (cmd_Op c)) = cmd_Op c) && in_byte (Z.of_nat (length (Key c)))
  then Ok ([byte_of_Z (ClientId c); byte_of_Z (Seq c); byte_of_Z (op_number (cmd_Op c)); byte_of_Z (Z.of_nat (length (Key c)))] ++ Key c ++ Value c)
  else Err "demo: command out of range".
Definition demo_unmarshal (b : bytes) : option Command :=
  match b with
  | cl :: sq :: o :: n :: rest =>
      let k := Z.to_nat (le_get [n]) in
      Some (mkCommand (le_get [cl]) (le_get [sq]) (opOfNumber (le_get [o])) (take k rest) (drop k rest))
  | _ => None
  end.

Lemma le_get_byte z : in_byte z = true -> le_get [byte_of_Z z] = z.
Proof. intros [H1%Z.leb_le H2%Z.ltb_lt]%andb_true_iff. change (le_get [byte_of_Z z]) with (Z_of_byte (byte_of_Z z) + 256 * 0). rewrite Z_of_byte_of_Z, Z.mod_small; lia. Qed.

Lemma demo_codec c d : demo_marshal c = Ok d -> demo_unmarshal d = Some c.
Proof.
  unfold demo_marshal. destruct (_ && _) eqn:H; [|done]. rewrite !andb_true_iff in H. destruct H as [[[H1 H2] H3%bool_decide_eq_true] H4]. intros [= <-].
  cbn [app demo_unmarshal]. rewrite (le_get_byte (ClientId c)), (le_get_byte (Seq c)), (le_get_byte (Z.of_nat _)), (le_get_byte (op_number _)), H3, Nat2Z.id, take_app_length, drop_app_length
    by (done || (by destruct (cmd_Op c))). by destruct c.
Qed.

#[local] Hint Extern 0 (SimEngine unit MapSM) => exact (map_engine demo_unmarshal) : typeclass_instances.

Definition demo_config : SimConfig := mkSimConfig 1 "" 0 [1; 2; 3] 10 20 2 50 1 10.
Definition demo_workload : WorkloadConfig := mkWorkloadConfig 0 2 1 3 3 3000 10 1 0 [].

(** Node 1 crashes in its second save, node 2 after it has sent the messages of its fourth;
    messages are lost and doubled, node 3 is cut off, and crashes and is restarted. *)
Definition demo_fault (t : Z) (k : FaultKind) (n : Z) : FaultEvent := mkFaultEvent t k n 0 0 [] f64_zero f64_zero.
Definition demo_schedule : FaultSchedule :=
  mkFaultSchedule FaultScheduleGeneratorVersion
    [mkCrashDirective 1 2 CrashBeforeSync 3 true; mkCrashDirective 2 4 CrashAfterSend 0 true]
    [mkFaultEvent 1 FaultDropRate 0 0 0 [] (f64_div (f64_of_int 1) (f64_of_int 10)) f64_zero;
     mkFaultEvent 2 FaultDuplicateRate 0 0 0 [] (f64_div (f64_of_int 1) (f64_of_int 10)) f64_zero;
     mkFaultEvent 3 FaultClockSkew 2 0 0 [] f64_zero f64_two;
     mkFaultEvent 900 FaultPartitionGroups 0 0 0 [[1; 2]; [3]] f64_zero f64_zero;
     mkFaultEvent 1200 FaultHealGroups 0 0 0 [[1; 2]; [3]] f64_zero f64_zero;
     demo_fault 1300 FaultCrash 3; demo_fault 1500 FaultRestart 3; demo_fault 1600 FaultPause 1; demo_fault 1800 FaultResume 1] [].

(** What construction, the start of the workload and the run give. *)
Definition empty_simulator : Simulator unit MapSM :=
  mkSimulator 0 0 [] 0 [] ∅ ∅ (demo_rand 0) 0 0 0 (mkFRand (demo_floats 0) 0) f64_zero f64_zero ∅ [] ∅ [] ∅ [] [] None None.
Definition demo_start : Simulator unit MapSM :=
  match NewFaultSim demo_rand demo_floats (fun _ => ()) demo_config demo_schedule with Ok s => s | Err _ => empty_simulator end.
Definition demo_ready : Simulator unit MapSM :=
  RegisterInvariant SingleLeaderPerTerm (StartWorkload demo_rand (fun _ => ()) demo_marshal demo_workload demo_start).1.
Definition demo_end : Simulator unit MapSM :=
  match sim_Run demo_marshal 4000 2500 demo_ready with Some (s, _) => s | None => empty_simulator end.

Lemma demo_ids_proper : proper_ids demo_config.
Proof. split; [set_solver|vm_compute; discriminate]. Qed.

Lemma demo_start_ok : NewFaultSim demo_rand demo_floats (fun _ => ()) demo_config demo_schedule = Ok demo_start.
Proof.
  unfold demo_start. destruct (NewFaultSim _ _ _ _ _) as [s|e] eqn:H; [done|]. exfalso.
  assert (match NewFaultSim (M := MapSM) demo_rand demo_floats (fun _ => ()) demo_config demo_schedule with Ok _ => true | Err _ => false end = true) as H' by (vm_compute; reflexivity).
  by rewrite H in H'.
Qed.

Lemma demo_ready_simulated : simulated demo_rand demo_floats (fun _ => ()) demo_marshal demo_config demo_ready.
Proof.
  exists demo_start. split; [right; exists demo_schedule; exact demo_start_ok|].
  eapply rtc_l; [|apply rtc_once]; [exact (ss_start demo_rand (fun _ => ()) demo_marshal [1; 2; 3] demo_start demo_workload)|].
  apply ss_call, sc_check. by right.
Qed.

Lemma demo_fits : run_fits demo_marshal [1; 2; 3] 4000 2500 demo_ready = true.
Proof. vm_compute. reflexivity. Qed.

Lemma demo_run : sim_Run demo_marshal 4000 2500 demo_ready = Some (demo_end, None).
Proof.
  assert (match sim_Run demo_marshal 4000 2500 demo_ready with Some (_, None) => true | _ => false end = true) as H by (vm_compute; reflexivity).
  unfold demo_end. destruct (sim_Run demo_marshal 4000 2500 demo_ready) as [[s [e|]]|]; done.
Qed.

(** The run ends without an error, in a state of a simulated run in which every client has
    finished. *)
Lemma simulator_run_no_violation_witness :
  simulated demo_rand demo_floats (fun _ => ()) demo_marshal demo_config demo_end /\
  (runner_Done <$> runner_of demo_end) = Some true /\ (cf_Node <$> s_crashFirings demo_end) = [1; 2].
Proof.
  split; [|vm_compute; split; reflexivity].
  exact (proj1 (simulator_run_no_violation demo_rand demo_floats (fun _ => ()) demo_marshal demo_config 4000 2500 demo_ready demo_end None
    demo_ids_proper demo_ready_simulated demo_fits demo_run)).
Defined.

Lemma demo_end_simulated : simulated demo_rand demo_floats (fun _ => ()) demo_marshal demo_config demo_end.
Proof.
  destruct (simulated_related demo_rand demo_floats (fun _ => ()) demo_marshal demo_config demo_ready demo_ids_proper demo_ready_simulated)
    as (Hcfg & c & sa & _ & HR & Hg).
  destruct (sim_Run_checks demo_rand (fun _ => ()) demo_marshal _ _ Hcfg 4000 2500 sa c demo_ready demo_end None HR Hg demo_fits demo_run) as [H1 _].
  destruct demo_ready_simulated as (s0 & Hn & H0). exists s0. split; [done|]. etrans; [exact H0|exact H1].
Qed.

Lemma simulator_refines_cluster_witness :
  exists c : cluster (S := MemStorage), creach (nodeConfig demo_config) (sc_NodeIDs demo_config) c /\
    (forall i, i ∈ sc_NodeIDs demo_config -> exists sn, s_nodes demo_end !! i = Some sn /\ st_view (sn_storage sn) = h_Storage (hosts c i) /\
       forall n, sn_node sn = Some n -> sn_halted sn = false -> n = h_Node (hosts c i)) /\
    (forall m, queued m demo_end -> m ∈ net c) /\ s_leaders demo_end = foldl (fun t m => observeLeader m t) newLeaderTracker (net c).
Proof.
  exact (simulator_refines_cluster demo_rand demo_floats (fun _ => ()) demo_marshal demo_config demo_end demo_ids_proper demo_end_simulated).
Defined.

(** The seven entries of each node. *)
Lemma simulated_applied_agree_witness :
  (Index <$> AppliedEntries 1 demo_end) = [1; 2; 3; 4; 5; 6; 7] /\
  forall e e', e ∈ AppliedEntries 1 demo_end -> e' ∈ AppliedEntries 3 demo_end -> Index e = Index e' -> e = e'.
Proof.
  split; [vm_compute; reflexivity|]. intros e e'.
  exact (simulated_applied_agree demo_rand demo_floats (fun _ => ()) demo_marshal demo_config demo_end 1 3 e e' demo_ids_proper demo_end_simulated).
Defined.
