(* ===== verification/Linearize.v ===== *)
(** Linearizable histories, and why a history that a replicated log explains is one: the
    commands of the log that take effect, in the order of the log, are a sequential run of
    the model, and it respects the order in which operations returned and were invoked. *)

From S2P Require Import Prelude Proto RaftLog RaftNode Storage Bytes MapSM Checker CheckerFacts.

(** * Linearizability *)

(** A run of the sequential model over operations, with what is reported of each. *)
Fixpoint kvRun (state : kvState) (ops : list Operation) : option kvState :=
  match ops with
  | [] => Some state
  | o :: ops' =>
      match kvStep state (AnyInput (op_Input o)) (AnyOutput (reported o)) with
      | (true, state') => kvRun state' ops'
      | (false, _) => None
      end
  end.

(** The operations, at their positions of the history, can be put in an order that the model
    accepts and in which an operation that returned before another was invoked comes first. *)
Definition linearizable (h : History) : Prop :=
  exists order : list nat,
    order ≡ₚ seq 0 (length h) /\
    is_Some (kvRun kvInit (omap (fun j => h !! j) order)) /\
    forall x y a b oa ob t, order !! x = Some a -> order !! y = Some b -> h !! a = Some oa -> h !! b = Some ob ->
      op_ReturnTime oa = Some t -> t < op_InvokeTime ob -> (x < y)%nat.

Lemma kvRun_app state ops1 ops2 : kvRun state (ops1 ++ ops2) = kvRun state ops1 ≫= fun state' => kvRun state' ops2.
Proof. revert state. induction ops1 as [|o ops1 IH]; intros state; [done|]. cbn [kvRun app]. destruct (kvStep state _ _) as [[] ?]; [apply IH|done]. Qed.

(** The command that carries an operation. *)
Definition operationCommand (o : Operation) : Command :=
  mkCommand (op_ClientID o) (op_Seq o) (in_Op (op_Input o)) (in_Key (op_Input o)) (in_Value (op_Input o)).

Definition kv_op (o : Op) : Prop := o = Op_PUT \/ o = Op_DELETE \/ o = Op_GET.

(** The unknown output of an open operation is accepted in every state. *)
Lemma kvStep_open state o : kv_op (in_Op (op_Input o)) -> op_ReturnTime o = None ->
  kvStep state (AnyInput (op_Input o)) (AnyOutput (reported o)) = (true, kv_step state (operationCommand o)).
Proof. intros Hop Ht. unfold reported, kv_step. rewrite Ht. cbn. by destruct Hop as [-> | [-> | ->]]. Qed.

(** * Commands of a log *)

Section log.
Context (unmarshal : bytes -> option Command).

Definition command_at (e : Entry) : option Command :=
  match Type_ e with EntryType_NORMAL => unmarshal (Data e) | _ => None end.

(** The state machine before position [p] of the log. *)
Definition before (G : list Entry) (p : nat) (m : MapSM) : Prop := exists rs, sm_ApplyAll unmarshal (take p G) NewMapSM = (m, Ok rs).

Lemma ApplyAll_snoc es e m m1 rs m2 r :
  sm_ApplyAll unmarshal es m = (m1, Ok rs) -> sm_Apply unmarshal (Some e) m1 = (m2, Ok r) ->
  sm_ApplyAll unmarshal (es ++ [e]) m = (m2, Ok (rs ++ [r])).
Proof.
  revert m rs. induction es as [|x es IH]; intros m rs; cbn [sm_ApplyAll app]; [intros [= <- <-] ->; done|].
  destruct (sm_Apply unmarshal (Some x) m) as [mx [y|err]]; [|done]. destruct (sm_ApplyAll unmarshal es mx) as [my [ys|err]] eqn:E; [|done].
  intros [= <- <-] Ha. by rewrite (IH mx ys E Ha).
Qed.

Lemma before_zero G : before G 0 NewMapSM.
Proof. by exists []. Qed.

Lemma before_next G p m e m' r : before G p m -> G !! p = Some e -> sm_Apply unmarshal (Some e) m = (m', Ok r) -> before G (S p) m'.
Proof. intros [rs Hb] He Ha. rewrite <- Nat.add_1_r. exists (rs ++ [r]). rewrite Nat.add_1_r, (take_S_r _ _ _ He). by eapply ApplyAll_snoc. Qed.

Lemma before_prev G p m' e : before G (S p) m' -> G !! p = Some e -> exists m r, before G p m /\ sm_Apply unmarshal (Some e) m = (m', Ok r).
Proof.
  intros [rs Hb] He. rewrite (take_S_r _ _ _ He) in Hb. apply ApplyAll_app in Hb as (m & rs1 & rs2 & H1 & H2 & _). exists m.
  cbn [sm_ApplyAll] in H2. destruct (sm_Apply unmarshal (Some e) m) as [mx [x|err]]; [|done]. injection H2 as <- _. exists x. split; [by exists rs1|done].
Qed.

Lemma before_fun G p m m' : before G p m -> before G p m' -> m = m'.
Proof. intros [rs H] [rs' H']. congruence. Qed.

Lemma before_split G p q m' : (p <= q)%nat -> before G q m' ->
  exists m rs, before G p m /\ sm_ApplyAll unmarshal (drop p (take q G)) m = (m', Ok rs).
Proof.
  intros Hle [rs Hb]. rewrite <- (take_drop p (take q G)) in Hb. apply ApplyAll_app in Hb as (m & rs1 & rs2 & H1 & H2 & _).
  exists m, rs2. split; [|done]. exists rs1. by rewrite take_take, Nat.min_l in H1 by lia.
Qed.

Lemma before_grow G G' p m : G `prefix_of` G' -> (p <= length G)%nat -> before G p m <-> before G' p m.
Proof. intros [K ->] Hp. unfold before. by rewrite take_app_le. Qed.

(** The command at a position takes effect: no command of its client with its number or a
    later one was run before. *)
Definition takes_effect (G : list Entry) (p : nat) (c : Command) : Prop :=
  exists e m, G !! p = Some e /\ command_at e = Some c /\ before G p m /\ forall q, seen_of m !! ClientId c = Some q -> q < Seq c.

(** The state machine answers the command at a position. *)
Definition answered (G : list Entry) (p : nat) (c : Command) (res : Result) : Prop :=
  exists e m m', G !! p = Some e /\ command_at e = Some c /\ before G p m /\ sm_Apply unmarshal (Some e) m = (m', Ok res).

Lemma takes_effect_grow G G' p c : G `prefix_of` G' -> takes_effect G p c -> takes_effect G' p c.
Proof.
  intros Hp (e & m & He & Hc & Hb & Hs). exists e, m. pose proof (lookup_lt_Some _ _ _ He). split; [by eapply prefix_lookup_Some|].
  split; [done|]. split; [|done]. by apply (before_grow G G' p m Hp ltac:(lia)).
Qed.

Lemma takes_effect_shrink G G' p c : G `prefix_of` G' -> (p < length G)%nat -> takes_effect G' p c -> takes_effect G p c.
Proof.
  intros Hp Hl (e & m & He & Hc & Hb & Hs). exists e, m. split; [|split; [done|split; [|done]]].
  - destruct (lookup_lt_is_Some_2 G p Hl) as [e' He']. pose proof (prefix_lookup_Some _ _ _ _ He' Hp). congruence.
  - by apply (before_grow G G' p m Hp ltac:(lia)).
Qed.

Lemma answered_grow G G' p c res : G `prefix_of` G' -> answered G p c res -> answered G' p c res.
Proof.
  intros Hp (e & m & m' & He & Hc & Hb & Ha). exists e, m, m'. pose proof (lookup_lt_Some _ _ _ He). split; [by eapply prefix_lookup_Some|].
  split; [done|]. split; [|done]. by apply (before_grow G G' p m Hp ltac:(lia)).
Qed.

Lemma command_at_apply e c m m' r :
  command_at e = Some c -> sm_Apply unmarshal (Some e) m = (m', Ok r) ->
  (exists rec, dedup m !! ClientId c = Some rec /\ Seq c <= lastSeq rec /\ values m' = values m /\ dedup m' = dedup m /\ r = lastResult rec) \/
  ((forall q, seen_of m !! ClientId c = Some q -> q < Seq c) /\ values m' = kv_step (values m) c /\
   dedup m' = <[ClientId c := mkDedupRecord (Seq c) r]> (dedup m)).
Proof.
  intros Hc Ha. unfold command_at in Hc. destruct (sm_Apply_ok unmarshal e m m' r Ha) as (_ & [(Et & _)|(c' & Et & Eu & Hor)]); rewrite Et in Hc; [done|].
  assert (c' = c) as -> by congruence. done.
Qed.

(** A command takes effect at one position only. *)
Lemma takes_effect_once G p q c c' :
  takes_effect G p c -> takes_effect G q c' -> ClientId c = ClientId c' -> Seq c = Seq c' -> p = q.
Proof.
  assert (forall p q c c', takes_effect G p c -> takes_effect G q c' -> ClientId c = ClientId c' -> Seq c = Seq c' -> ~ (p < q)%nat) as H.
  { clear. intros p q c c' (e & m & He & Hc & Hb & _) (e' & m' & He' & Hc' & Hb' & Hs') Ec Es Hlt.
    destruct (before_split G (S p) q m' ltac:(lia) Hb') as (m1 & rs & Hb1 & Hr). destruct (before_prev G p m1 e Hb1 He) as (m0 & r & _ & Ha).
    unfold command_at in Hc. destruct (Type_ e) eqn:Et; try done. destruct (seen_after unmarshal e m0 m1 r c Ha Et Hc) as (k & Hk & Hle).
    destruct (seen_mono_all unmarshal _ m1 m' rs _ k Hr Hk) as (k' & Hk' & Hle'). rewrite Ec in Hk'. specialize (Hs' _ Hk'). lia. }
  intros H1 H2 Ec Es. destruct (Nat.lt_trichotomy p q) as [Hlt|[?|Hlt]]; [by destruct (H p q c c')|done|by destruct (H q p c' c)].
Qed.

(** The session of a client remembers the answer of the command that took effect last. *)
Lemma session_answer G p m cl rec :
  before G p m -> dedup m !! cl = Some rec ->
  exists k c, (k < p)%nat /\ takes_effect G k c /\ ClientId c = cl /\ Seq c = lastSeq rec /\ answered G k c (lastResult rec).
Proof.
  revert m rec. induction p as [|p IH]; intros m rec Hb Hd.
  { destruct Hb as [rs Hb]. cbn in Hb. injection Hb as <- _. done. }
  destruct (G !! p) as [e|] eqn:He.
  2:{ destruct (IH m rec) as (k & c & Hk & Hx); [|done|exists k, c; split; [lia|done]].
      destruct Hb as [rs Hb]. exists rs. apply lookup_ge_None in He. by rewrite take_ge in Hb |- * by lia. }
  destruct (before_prev G p m e Hb He) as (m0 & r & Hb0 & Ha).
  assert (dedup m !! cl = dedup m0 !! cl -> exists k c, (k < S p)%nat /\ takes_effect G k c /\ ClientId c = cl /\ Seq c = lastSeq rec /\ answered G k c (lastResult rec)) as Hold.
  { intros E. rewrite E in Hd. destruct (IH m0 rec Hb0 Hd) as (k & c & Hk & Hx). exists k, c. split; [lia|done]. }
  destruct (command_at e) as [c|] eqn:Hc.
  - destruct (command_at_apply e c m0 m r Hc Ha) as [(rec0 & _ & _ & _ & E & _)|(Hnew & _ & E)]; [apply Hold; by rewrite E|].
    destruct (decide (ClientId c = cl)) as [<-|Hne]; [|apply Hold; by rewrite E, lookup_insert_ne].
    rewrite E, lookup_insert_eq in Hd. injection Hd as <-. exists p, c. split; [lia|]. split; [by exists e, m0|]. split_and!; [done|done|]. by exists e, m0, m.
  - apply Hold. unfold command_at in Hc. destruct (sm_Apply_ok unmarshal e m0 m r Ha) as (_ & [(Et & _ & ->)|(c & Et & Eu & _)]); [done|]. by rewrite Et, Eu in Hc.
Qed.

(** The answer of a command of which no later one of its client is in the log is that of the
    position at which it took effect. *)
Lemma first_answer G p c res :
  (forall k e c', G !! k = Some e -> command_at e = Some c' -> ClientId c' = ClientId c -> Seq c' <= Seq c) -> answered G p c res ->
  exists k c', takes_effect G k c' /\ ClientId c' = ClientId c /\ Seq c' = Seq c /\ answered G k c' res.
Proof.
  intros Hlast (e & m & m' & He & Hc & Hb & Ha). destruct (command_at_apply e c m m' res Hc Ha) as [(rec & Hrec & Hle & _ & _ & ->)|(Hnew & _)].
  - destruct (session_answer G p m _ rec Hb Hrec) as (k & c' & _ & Ht & Ec & Es & Hans). exists k, c'. split_and!; [done|done| |done].
    destruct Ht as (e' & _ & He' & Hc' & _). pose proof (Hlast k e' c' He' Hc' Ec). lia.
  - exists p, c. split_and!; [by exists e, m|done|done|]. by exists e, m, m'.
Qed.
End log.

(** * Histories that a log explains *)

Section explained.
Context (unmarshal : bytes -> option Command) (h : History) (G : list Entry).

(** The log runs, its commands are operations of the history, an operation that returned took
    effect and got its answer there, and it took effect before an operation that was invoked
    later did. *)
Record explains : Prop := mkExplains {
  ex_runs : exists m, before unmarshal G (length G) m;
  ex_unique : forall i j a b, h !! i = Some a -> h !! j = Some b -> op_ClientID a = op_ClientID b -> op_Seq a = op_Seq b -> i = j;
  ex_ops : forall j o, h !! j = Some o -> kv_op (in_Op (op_Input o));
  ex_from : forall k e c, G !! k = Some e -> command_at unmarshal e = Some c -> exists j o, h !! j = Some o /\ c = operationCommand o;
  ex_done : forall j o t, h !! j = Some o -> op_ReturnTime o = Some t ->
    exists p res, takes_effect unmarshal G p (operationCommand o) /\ answered unmarshal G p (operationCommand o) res /\ op_Output o = successfulWorkloadOutput res;
  ex_real : forall a b oa ob t p q, h !! a = Some oa -> h !! b = Some ob -> op_ReturnTime oa = Some t -> t < op_InvokeTime ob ->
    takes_effect unmarshal G p (operationCommand oa) -> takes_effect unmarshal G q (operationCommand ob) -> (p < q)%nat;
}.

Context (Hex : explains).
Notation effect p o := (takes_effect unmarshal G p (operationCommand o)).

(** The model accepts the answer of a command that takes effect. *)
Lemma effect_accepted e o m m' r :
  command_at unmarshal e = Some (operationCommand o) -> (forall q, seen_of m !! op_ClientID o = Some q -> q < op_Seq o) ->
  sm_Apply unmarshal (Some e) m = (m', Ok r) ->
  kvStep (values m) (AnyInput (op_Input o)) (AnyOutput (successfulWorkloadOutput r)) = (true, values m').
Proof.
  intros Hc Hs Ha. unfold command_at in Hc. unfold sm_Apply in Ha. destruct (Type_ e); try done. rewrite Hc in Ha.
  set (c := operationCommand o) in *. pose proof (kv_model_is_map m c) as Hk. assert (inputOf c = op_Input o) as Ei by (unfold c; by destruct o as [? ? ? ? [] ?]).
  rewrite Ei in Hk. cbn zeta in Ha.
  assert ((let '(m1, r0) := execute c m in match r0 with
      | Ok res => (advanceAppliedIndex (Index e) (mkMapSM (values m1) (<[ClientId c := mkDedupRecord (Seq c) (cloneResult res)]> (dedup m1)) (sm_applied m1)), Ok (cloneResult res))
      | Err err => (m1, Err err) end) = (m', Ok r)) as Hrun.
  { destruct (dedup m !! ClientId c) as [rec|] eqn:Ed; [|done]. destruct (Z.leb_spec (Seq c) (lastSeq rec)); [|done].
    unfold seen_of in Hs. specialize (Hs (lastSeq rec)). rewrite lookup_fmap in Hs. change (ClientId c) with (op_ClientID o) in Ed. rewrite Ed in Hs.
    specialize (Hs eq_refl). unfold c in *. cbn in *. lia. }
  destruct (execute c m) as [m1 [res|err]]; [|done]. injection Hrun as <- <-. destruct Hk as [Hk _]. rewrite (proj1 (advance_fields _ _)). cbn [values].
  by destruct res.
Qed.

(** The operations that took effect before position [k], in the order of the log; the model
    run over them gives the values of the state machine there. *)
Definition ordered (k : nat) (m : MapSM) (ord : list nat) : Prop :=
  NoDup ord /\ (forall j, j ∈ ord <-> exists o p, h !! j = Some o /\ (p < k)%nat /\ effect p o) /\
  (forall x y a b, ord !! x = Some a -> ord !! y = Some b -> (x < y)%nat ->
     exists oa ob p q, h !! a = Some oa /\ h !! b = Some ob /\ effect p oa /\ effect q ob /\ (p < q)%nat) /\
  kvRun kvInit (omap (fun j => h !! j) ord) = Some (values m).

(** A position at which nothing takes effect. *)
Lemma ordered_skip k m0 m ord : ordered k m0 ord -> (forall o, ~ effect k o) -> values m = values m0 -> ordered (S k) m ord.
Proof.
  intros (Hnd & Hin & Hsort & Hrun) Hno Ev. unfold ordered. rewrite Ev. split_and!; [done| |done|done]. intros j. rewrite Hin. split; intros (o & p & Ho & Hp & Hx).
  - exists o, p. split_and!; [done|lia|done].
  - exists o, p. split_and!; [done| |done]. destruct (decide (p = k)) as [->|]; [by destruct (Hno o)|lia].
Qed.

(** A position at which the operation [j] takes effect. *)
Lemma ordered_snoc k m0 m ord j o :
  ordered k m0 ord -> h !! j = Some o -> effect k o -> (forall j' o', h !! j' = Some o' -> effect k o' -> j' = j) ->
  kvRun (values m0) [o] = Some (values m) -> ordered (S k) m (ord ++ [j]).
Proof using Hex.
  intros (Hnd & Hin & Hsort & Hrun) Ho Hek Huniq Hstep. assert (j ∉ ord) as Hj.
  { intros (o' & p & Ho' & Hp & Hx)%Hin. assert (o' = o) as -> by congruence. assert (p = k) by (by eapply takes_effect_once). lia. }
  split_and!.
  - apply NoDup_app. split_and!; [done| |apply NoDup_singleton]. intros x Hx ->%list_elem_of_singleton. done.
  - intros j'. rewrite elem_of_app, list_elem_of_singleton, Hin. split.
    + intros [(o' & p & H1 & H2 & H3)| ->]; [exists o', p; split_and!; [done|lia|done]|exists o, k; split_and!; [done|lia|done]].
    + intros (o' & p & H1 & H2 & H3). destruct (decide (p = k)) as [->|]; [right; by eapply Huniq|left; exists o', p; split_and!; [done|lia|done]].
  - intros x y a b Hx Hy Hlt. apply lookup_lt_Some in Hy as Hyl. rewrite length_app in Hyl. cbn in Hyl. rewrite lookup_app_l in Hx by lia.
    destruct (decide (y < length ord)%nat) as [Hyo|Hyo]; [rewrite lookup_app_l in Hy by done; by eapply Hsort|].
    rewrite lookup_app_r in Hy by lia. replace (y - length ord)%nat with 0%nat in Hy by lia. injection Hy as <-.
    apply list_elem_of_lookup_2, Hin in Hx as (oa & p & H1 & H2 & H3). exists oa, o, p, k. done.
  - rewrite omap_app, kvRun_app, Hrun. cbn [omap list_omap mbind option_bind]. by rewrite Ho.
Qed.

(** The model accepts an operation where it takes effect, finished or open. *)
Lemma effect_step k e j o m0 m r :
  G !! k = Some e -> command_at unmarshal e = Some (operationCommand o) -> before unmarshal G k m0 -> sm_Apply unmarshal (Some e) m0 = (m, Ok r) -> h !! j = Some o -> effect k o ->
  (forall q, seen_of m0 !! op_ClientID o = Some q -> q < op_Seq o) -> values m = kv_step (values m0) (operationCommand o) ->
  kvRun (values m0) [o] = Some (values m).
Proof using Hex.
  intros He Hc Hb0 Ha Ho Hek Hnew Ev. cbn [kvRun]. destruct (op_ReturnTime o) as [t|] eqn:Et.
  - destruct (ex_done Hex j o t Ho Et) as (p & res & Hp & (e' & m1 & m1' & He' & _ & Hb1 & Ha') & Eout).
    assert (p = k) as -> by (by eapply takes_effect_once). rewrite (before_fun unmarshal G k m1 m0 Hb1 Hb0) in Ha'.
    assert (e' = e) as -> by congruence. assert (res = r) as -> by congruence.
    assert (reported o = successfulWorkloadOutput r) as -> by (unfold reported; rewrite Et, Eout; done).
    by rewrite (effect_accepted e o m0 m r Hc Hnew Ha).
  - rewrite (kvStep_open (values m0) o (ex_ops Hex j o Ho) Et). by rewrite Ev.
Qed.

Lemma effect_order k m : (k <= length G)%nat -> before unmarshal G k m -> exists ord, ordered k m ord.
Proof using Hex.
  revert m. induction k as [|k IH]; intros m Hk Hb.
  { exists []. split; [constructor|]. split; [|split; [done|by destruct Hb as [rs [= <- _]]]].
    intros j. split; [by intros ?%elem_of_nil|]. intros (o & p & _ & Hp & _). lia. }
  destruct (lookup_lt_is_Some_2 G k ltac:(lia)) as [e He]. destruct (before_prev unmarshal G k m e Hb He) as (m0 & r & Hb0 & Ha).
  destruct (IH m0 ltac:(lia) Hb0) as [ord Hord]. destruct (command_at unmarshal e) as [c|] eqn:Hc.
  2:{ exists ord. apply (ordered_skip k m0); [done| |].
      - intros o (e' & m1 & He' & Hc' & _). congruence.
      - unfold command_at in Hc. destruct (sm_Apply_ok unmarshal e m0 m r Ha) as (_ & [(_ & -> & _)|(c & Et & Eu & _)]); [done|]. by rewrite Et, Eu in Hc. }
  destruct (ex_from Hex k e c He Hc) as (j & o & Ho & ->).
  destruct (command_at_apply unmarshal e _ m0 m r Hc Ha) as [(rec & Hrec & Hle & Ev & _)|(Hnew & Ev & _)].
  { exists ord. apply (ordered_skip k m0); [done| |done]. intros o' (e' & m1 & He' & Hc' & Hb1 & Hs). assert (operationCommand o' = operationCommand o) as Eo by congruence.
    rewrite (before_fun unmarshal G k m1 m0 Hb1 Hb0) in Hs. specialize (Hs (lastSeq rec)). unfold seen_of in Hs. rewrite Eo, lookup_fmap, Hrec in Hs.
    specialize (Hs eq_refl). lia. }
  assert (effect k o) as Hek by (by exists e, m0). exists (ord ++ [j]). eapply ordered_snoc; [done|done|done| |by eapply effect_step].
  intros j' o' H1 (e' & m1 & He' & Hc' & _). assert (operationCommand o' = operationCommand o) as Eo by congruence.
  injection Eo as E1 E2 _ _ _. by eapply (ex_unique Hex).
Qed.

Lemma kvRun_open js state :
  (forall j o, j ∈ js -> h !! j = Some o -> op_ReturnTime o = None) -> is_Some (kvRun state (omap (fun j => h !! j) js)).
Proof using Hex.
  revert state. induction js as [|j js IH]; intros state Ho; [by eexists|]. cbn [omap list_omap].
  assert (forall j' o, j' ∈ js -> h !! j' = Some o -> op_ReturnTime o = None) as Ho' by (intros j' o Hj'; apply Ho; by apply list_elem_of_further).
  destruct (h !! j) as [o|] eqn:Hj; [|by apply IH]. cbn [kvRun].
  rewrite (kvStep_open state o (ex_ops Hex j o Hj) (Ho j o (list_elem_of_here _ _) Hj)). by apply IH.
Qed.

Lemma explained_linearizable : linearizable h.
Proof using Hex.
  destruct (ex_runs Hex) as [m Hm]. destruct (effect_order (length G) m ltac:(lia) Hm) as (ord & Hnd & Hin & Hsort & Hrun).
  assert (forall j o t, h !! j = Some o -> op_ReturnTime o = Some t -> j ∈ ord) as Hdone.
  { intros j o t Hj Ht. apply Hin. destruct (ex_done Hex j o t Hj Ht) as (p & res & Hp & _). exists o, p. split_and!; [done| |done].
    destruct Hp as (e & _ & He & _). by eapply lookup_lt_Some. }
  set (rest := filter (fun j => j ∉ ord) (seq 0 (length h))). exists (ord ++ rest). split_and!.
  - apply NoDup_Permutation.
    + apply NoDup_app. split_and!; [done| |apply NoDup_filter, NoDup_seq]. intros x Hx [Hx' _]%list_elem_of_filter. done.
    + apply NoDup_seq.
    + intros j. rewrite elem_of_app. unfold rest. rewrite list_elem_of_filter, elem_of_seq. split.
      * intros [(o & p & Hj & _)%Hin|[_ Hj]]; [apply lookup_lt_Some in Hj; lia|lia].
      * intros Hj. destruct (decide (j ∈ ord)) as [|Hn]; [by left|right]. split; [done|lia].
  - rewrite omap_app, kvRun_app, Hrun. cbn [mbind option_bind]. apply kvRun_open. intros j o [Hn _]%list_elem_of_filter Hj.
    destruct (op_ReturnTime o) as [t|] eqn:Et; [|done]. by destruct Hn; eapply Hdone.
  - intros x y a b oa ob t Hx Hy Ha Hb Ht Hlt. pose proof (Hdone a oa t Ha Ht) as Hain.
    assert (x < length ord)%nat as Hxl.
    { destruct (decide (x < length ord)%nat) as [|Hge]; [done|]. rewrite lookup_app_r in Hx by lia.
      apply list_elem_of_lookup_2, list_elem_of_filter in Hx as [Hx _]. done. }
    destruct (decide (y < length ord)%nat) as [Hyl|]; [|lia]. rewrite lookup_app_l in Hx, Hy by done.
    apply Hin in Hain as (oa' & p & Ha' & _ & Hp). assert (oa' = oa) as -> by congruence.
    pose proof (list_elem_of_lookup_2 _ _ _ Hy) as (ob' & q & Hb' & _ & Hq)%Hin. assert (ob' = ob) as -> by congruence.
    pose proof (ex_real Hex a b oa ob t p q Ha Hb Ht Hlt Hp Hq) as Hpq. destruct (Nat.lt_trichotomy x y) as [|[->|Hyx]]; [done| |].
    + assert (a = b) as -> by congruence. assert (oa = ob) as -> by congruence. assert (p = q) by (by eapply takes_effect_once). lia.
    + destruct (Hsort y x b a Hy Hx Hyx) as (ob' & oa' & q' & p' & Hb'' & Ha'' & Hq' & Hp' & Hlt'). assert (oa' = oa) as -> by congruence.
      assert (ob' = ob) as -> by congruence. assert (p = p') by (by eapply takes_effect_once). assert (q = q') by (by eapply takes_effect_once). lia.
Qed.
End explained.
