(* ===== verification/SimWork.v ===== *)
(** The requests of a workload in a simulated run: a registry of what was proposed at which
    place of the global log, the state machines of the hosts as prefixes of that log, and the
    answers that were given; every handler keeps them and the log only grows. *)

From S2P Require Import Prelude Proto RaftLog RaftNode RaftSpec Storage Server NodeFacts HostFacts Cluster Bytes WalRecords CrashStorage Safety MapSM DiskLog.
From S2P Require Import SimInvariant Checker CheckerFacts Heap SimFS Float64 FaultSchedule Workload SimLoop SimBuild SimStore WorkloadFacts SimCluster SimFrame SimRefine.
From S2P Require Import Linearize.

(** The commands accepted at a position, in a term. *)
Notation registry := (gmap (Z * Z) Command).

Section work.
Context (marshal : Command -> result bytes) (unmarshal : bytes -> option Command).
Context (Hcodec : forall c d, marshal c = Ok d -> unmarshal d = Some c).

#[local] Hint Extern 0 (SimEngine unit MapSM) => exact (map_engine unmarshal) : typeclass_instances.
Notation simulator := (Simulator unit MapSM).
Notation node := (simNode unit MapSM).

(** * The invariant *)

(** An entry is the empty one of a leader, or carries the command accepted at its position. *)
Definition entry_ok (reg : registry) (e : Entry) : Prop :=
  (Type_ e = EntryType_NOOP /\ reg !! (Index e, Term e) = None) \/
  (Type_ e = EntryType_NORMAL /\ exists c, reg !! (Index e, Term e) = Some c /\ marshal c = Ok (Data e) /\ kv_op (cmd_Op c)).

(** The state machine of the node has applied the first [k] entries of the log. *)
Definition machine_at (G : list Entry) (sn : node) (k : nat) : Prop :=
  sn_lastApplied sn = Z.of_nat k /\ (k <= length G)%nat /\ exists m, sn_sm sn = Some m /\ before unmarshal G k m.

Definition attempt_for (a : AttemptID) (c : Command) : Prop := ClientId c = ai_ClientID a /\ Seq c = ai_Seq a.

Definition pending_ok (reg : registry) (index : Z) (p : pendingWorkloadAttempt) : Prop :=
  exists c, reg !! (index, pa_term p) = Some c /\ attempt_for (sb_AttemptID (pa_submission p)) c.

(** An answer on its way to a client is one of the log. *)
Definition answer_ok (G : list Entry) (we : WEvent) : Prop :=
  we_Kind we = EventApplied ->
  exists p c res, answered unmarshal G p c res /\ we_Output we = successfulWorkloadOutput res /\ attempt_for (we_AttemptID we) c.

(** The nodes of [skip] are in the middle of a step. *)
Record host_ok (skip : Z -> Prop) (reg : registry) (G : list Entry) (s : simulator) : Prop := mkHostOk {
  ho_machine : forall i sn n, s_nodes s !! i = Some sn -> sn_node sn = Some n -> sn_halted sn = false -> ~ skip i ->
    0 <= lastApplied n /\ machine_at G sn (Z.to_nat (lastApplied n));
  ho_factory : forall i sn, s_nodes s !! i = Some sn -> sn_factory sn = true;
  ho_pending : forall w key p, s_workload s = Some w -> p ∈ default [] (sw_pending w !! key) -> pending_ok reg (ak_index key) p;
  ho_events : forall ev we, ev ∈ s_queue s -> se_kind ev = eventWorkload we -> answer_ok G we;
}.

Notation nobody := (fun _ : Z => False).

Lemma machine_grow G G' sn k : G `prefix_of` G' -> machine_at G sn k -> machine_at G' sn k.
Proof.
  intros Hp (H1 & H2 & m & Hm & Hb). pose proof (prefix_length _ _ Hp). split_and!; [done|lia|]. exists m. split; [done|].
  by apply (before_grow unmarshal G G' k m Hp H2).
Qed.

Lemma answer_grow G G' we : G `prefix_of` G' -> answer_ok G we -> answer_ok G' we.
Proof. intros Hp Ha Hk. destruct (Ha Hk) as (p & c & res & H1 & H2). exists p, c, res. split; [by eapply answered_grow|done]. Qed.

Lemma host_grow skip reg G G' s : G `prefix_of` G' -> host_ok skip reg G s -> host_ok skip reg G' s.
Proof.
  intros Hp [H1 H2 H3 H4]. split; [|done|done|].
  - intros i sn n Hi Hn Hh Hs. destruct (H1 i sn n Hi Hn Hh Hs). split; [done|by eapply machine_grow].
  - intros ev we He Hk. by eapply answer_grow, H4.
Qed.

Lemma host_register skip reg reg' G s : reg ⊆ reg' -> host_ok skip reg G s -> host_ok skip reg' G s.
Proof.
  intros Hr [H1 H2 H3 H4]. split; [done|done| |done]. intros w key p Hw Hp. destruct (H3 w key p Hw Hp) as (c & Hc & Ha).
  exists c. split; [|done]. by eapply lookup_weaken.
Qed.

(** * Frames *)

Lemma still_events skip reg G (s s' : simulator) : still s s' -> host_ok skip reg G s ->
  (forall w key p, s_workload s' = Some w -> p ∈ default [] (sw_pending w !! key) -> pending_ok reg (ak_index key) p) /\
  (forall ev we, ev ∈ s_queue s' -> se_kind ev = eventWorkload we -> answer_ok G we) /\
  (forall i sn, s_nodes s' !! i = Some sn -> sn_factory sn = true).
Proof.
  intros [A1 A2 A3] [H1 H2 H3 H4]. split_and!.
  - intros w key p Hw. rewrite A1 in Hw. by apply H3.
  - intros ev we [He|Hk]%A2 Ek; [by eapply H4|]. by rewrite Ek in Hk.
  - intros i sn Hi. destruct (A3 i sn Hi) as (sn0 & H0 & ->). by eapply H2.
Qed.

Lemma host_still skip reg G (s s' : simulator) : still s s' -> s_nodes s' = s_nodes s -> host_ok skip reg G s -> host_ok skip reg G s'.
Proof.
  intros Hs En Hh. destruct (still_events _ _ _ _ _ Hs Hh) as (E1 & E2 & E3). split; [|done..]. rewrite En. apply Hh.
Qed.

(** The step of node [i] ends. *)
Lemma host_sets skip reg G (s s' : simulator) i sn :
  still s s' -> s_nodes s' = <[i := sn]> (s_nodes s) -> (forall j, skip j -> j = i) ->
  (forall n, sn_node sn = Some n -> sn_halted sn = false -> 0 <= lastApplied n /\ machine_at G sn (Z.to_nat (lastApplied n))) ->
  host_ok skip reg G s -> host_ok nobody reg G s'.
Proof.
  intros Hs En Hskip Hm Hh. destruct (still_events _ _ _ _ _ Hs Hh) as (E1 & E2 & E3). split; [|done..].
  intros j snj n. rewrite En. destruct (decide (i = j)) as [->|Hne]; [rewrite lookup_insert_eq; intros [= <-] ? ? _; by apply Hm|].
  rewrite lookup_insert_ne by done. intros Hj Hn Hl _. apply (ho_machine _ _ _ _ Hh j); try done. intros ->%Hskip. done.
Qed.

Lemma host_kills skip reg G (s s' : simulator) i sn :
  still s s' -> kills i sn s s' -> (forall j, skip j -> j = i) -> host_ok skip reg G s -> host_ok nobody reg G s'.
Proof.
  intros Hs (sn' & [_ En] & _ & Hd) Hskip Hh. eapply host_sets; [exact Hs|exact En|done| |exact Hh]. intros n Hn Hl. destruct Hd; congruence.
Qed.

Lemma host_skip skip reg G (s : simulator) : host_ok nobody reg G s -> host_ok skip reg G s.
Proof. intros [H1 H2 H3 H4]. split; [|done..]. intros i sn n Hi Hn Hl _. apply (H1 i sn n Hi Hn Hl). by intros []. Qed.

(** * Events and attempts *)

Lemma host_push skip reg G t we (s : simulator) : answer_ok G we -> host_ok skip reg G s -> host_ok skip reg G (pushAt t (eventWorkload we) s).
Proof.
  intros Ha [H1 H2 H3 H4]. split; [done|done|done|]. intros ev we'. cbn. rewrite heap_push_perm, elem_of_cons. intros [->|He] Hk; [|by eapply H4].
  cbn in Hk. by injection Hk as <-.
Qed.

Lemma host_pending skip reg G w err (s : simulator) :
  (forall key p, p ∈ default [] (sw_pending w !! key) -> pending_ok reg (ak_index key) p) ->
  host_ok skip reg G s -> host_ok skip reg G (set_workload (Some w) err s).
Proof. intros Hw [H1 H2 H3 H4]. split; [done|done| |done]. intros w' key p [= <-]. apply Hw. Qed.

Lemma host_runner skip reg G r err (s : simulator) : host_ok skip reg G s -> host_ok skip reg G (set_runner r err s).
Proof.
  intros Hh. unfold set_runner. destruct (s_workload s) as [w|] eqn:Ew; [|done]. apply host_pending; [|done]. intros key p. by apply (ho_pending _ _ _ _ Hh w key p Ew).
Qed.

Lemma cancel_host skip reg G a (s : simulator) : host_ok skip reg G s -> host_ok skip reg G (cancelWorkloadAttempt a s).
Proof.
  intros Hh. unfold cancelWorkloadAttempt. destruct (s_workload s) as [w|] eqn:Ew; [|apply (host_still _ _ _ s); [by apply still_same|done|done]].
  destruct (sw_byAttempt w !! a) as [key|]; [|done]. cbv zeta. eapply host_still; [apply record_still|done|]. apply host_pending; [|done].
  intros key' p. cbn [sw_pending]. intros Hp. apply (ho_pending _ _ _ _ Hh w key' p Ew). revert Hp. case_bool.
  - destruct (decide (key = key')) as [->|Hne]; [by rewrite lookup_delete_eq; intros ?%elem_of_nil|by rewrite lookup_delete_ne].
  - destruct (decide (key = key')) as [->|Hne]; [rewrite lookup_insert_eq; cbn; by intros [_ Hp]%list_elem_of_filter|by rewrite lookup_insert_ne].
Qed.

Lemma register_host skip reg G i index term sub c (s : simulator) :
  reg !! (index, term) = Some c -> attempt_for (sb_AttemptID sub) c -> host_ok skip reg G s -> host_ok skip reg G (registerWorkloadAttempt i index term sub s).
Proof.
  intros Hc Ha Hh. unfold registerWorkloadAttempt. destruct (s_workload s) as [w|] eqn:Ew; [|apply (host_still _ _ _ s); [by apply still_same|done|done]].
  cbv zeta. eapply host_still; [apply record_still|done|]. apply host_pending; [|done]. intros key p. cbn [sw_pending].
  destruct (decide (mkApplyKey i index = key)) as [<-|Hne].
  - rewrite lookup_insert_eq. cbn [default]. intros [Hp|Hp]%elem_of_app; [by apply (ho_pending _ _ _ _ Hh w _ _ Ew)|]. apply list_elem_of_singleton in Hp as ->. by exists c.
  - rewrite lookup_insert_ne by done. by apply (ho_pending _ _ _ _ Hh w key p Ew).
Qed.

(** * Applying entries *)

Lemma entry_applies reg e m : entry_ok reg e -> exists m' r, sm_Apply unmarshal (Some e) m = (m', Ok r).
Proof using Hcodec.
  intros [[Et _]|(Et & c & _ & Hd & Hop)]; unfold sm_Apply; rewrite Et; [by eexists _, _|]. rewrite (Hcodec c _ Hd).
  assert (exists m1 r, execute c m = (m1, Ok r)) as (m1 & r & Ex) by (unfold execute; destruct Hop as [-> | [-> | ->]]; by eexists _, _).
  rewrite Ex. destruct (dedup m !! ClientId c) as [rec|]; [case_bool|]; by eexists _, _.
Qed.

(** The answer to the pending attempts at an applied entry. *)
Lemma entry_answer reg G k e m m' res p :
  entry_ok reg e -> G !! k = Some e -> before unmarshal G k m -> sm_Apply unmarshal (Some e) m = (m', Ok res) ->
  pending_ok reg (Index e) p -> Term e = pa_term p -> answer_ok G (mkWEvent EventApplied (sb_AttemptID (pa_submission p)) 0 (successfulWorkloadOutput res)).
Proof using Hcodec.
  intros He Hk Hb Ha (c & Hc & Hat) Et _. exists k, c, res. split; [|done]. exists e, m, m'. split_and!; try done. rewrite <- Et in Hc.
  destruct He as [[_ Hno]|(Ety & c' & Hc' & Hd & _)]; [congruence|]. assert (c' = c) as -> by congruence. unfold command_at. rewrite Ety. by apply Hcodec.
Qed.

Lemma observe_host skip reg G k i e m m' res (s : simulator) :
  entry_ok reg e -> G !! k = Some e -> before unmarshal G k m -> sm_Apply unmarshal (Some e) m = (m', Ok res) ->
  host_ok skip reg G s -> host_ok skip reg G (observeWorkloadApply i e res s).
Proof using Hcodec.
  intros He Hk Hb Ha Hh. unfold observeWorkloadApply. destruct (s_workload s) as [w|] eqn:Ew; [|done]. cbv zeta. case_bool; [done|].
  set (key := mkApplyKey i (Index e)). assert (Forall (pending_ok reg (Index e)) (default [] (sw_pending w !! key))) as Hps.
  { apply Forall_forall. intros p Hp. by apply (ho_pending _ _ _ _ Hh w key p Ew). }
  match goal with |- host_ok _ _ _ (foldl _ ?x _) => assert (host_ok skip reg G x) as H1; [|generalize dependent x] end.
  { apply host_pending; [|done]. intros key' p. cbn [sw_pending]. destruct (decide (key = key')) as [<-|Hne]; [by rewrite lookup_delete_eq; intros ?%elem_of_nil|].
    rewrite lookup_delete_ne by done. by apply (ho_pending _ _ _ _ Hh w key' p Ew). }
  generalize dependent (default [] (sw_pending w !! key)). clear Hh Ew. intros ps Hps. induction Hps as [|p ps Hp Hps IH]; intros s1 H1; [done|].
  cbn [foldl]. apply IH. clear IH Hps. match goal with |- context [pushAt (s_now ?x)] => set (s2 := x) end.
  assert (host_ok skip reg G s2) as H2.
  { subst s2. destruct (s_workload s1) as [w1|] eqn:Ew1; [|done]. apply host_pending; [|done]. intros key' q. by apply (ho_pending _ _ _ _ H1 w1 key' q Ew1). }
  destruct (Z.eqb_spec (Term e) (pa_term p)) as [Et|_]; apply host_push; try done. by eapply entry_answer.
Qed.

(** The entries are the next ones of the log. *)
Definition next_of (G : list Entry) (k : nat) (es : list Entry) : Prop :=
  forall x e, es !! x = Some e -> G !! (k + x)%nat = Some e /\ Index e = Z.of_nat (k + x) + 1.

Lemma applyOne_host reg i e (s : simulator) sn m :
  entry_ok reg e -> s_nodes s !! i = Some sn -> sn_sm sn = Some m ->
  exists s' sn' m', applyOne i e s = (s', true) /\ s_nodes s' !! i = Some sn' /\ sn_node sn' = sn_node sn /\ sn_halted sn' = sn_halted sn /\ sn_sm sn' = Some m' /\
    forall G k, host_ok (eq i) reg G s -> machine_at G sn k -> next_of G k [e] -> host_ok (eq i) reg G s' /\ machine_at G sn' (S k).
Proof using Hcodec.
  intros He Hi Hm. destruct (entry_applies reg e m He) as (m' & res & Ha). unfold applyOne. rewrite Hi, Hm. cbn [eng_apply map_engine]. rewrite Ha.
  set (s1 := upd_node i (with_sm (Some m') (sn_env sn)) s). destruct (upd_node_sets i (with_sm (Some m') (sn_env sn)) s sn Hi) as [_ En1]. fold s1 in En1.
  assert (still s s1) as S1 by (by apply upd_node_still).
  destruct (observeWorkloadApply_calm i e res s1) as [_ En2]. set (s2 := observeWorkloadApply i e res s1) in *.
  assert (s_nodes s2 !! i = Some (with_sm (Some m') (sn_env sn) sn)) as Hi2 by (by rewrite En2, En1, lookup_insert_eq).
  match goal with |- context [upd_node i ?f s2] => pose proof (upd_node_sets i f s2 _ Hi2) as [_ En3]; set (s3 := upd_node i f s2) in *; assert (still s2 s3) as S3 by (by apply upd_node_still) end.
  eexists s3, _, m'. split; [done|]. split; [rewrite En3; apply lookup_insert_eq|]. split_and!; [done|done|done|]. intros G k Hh (M1 & M2 & m0 & M3 & Hb) Hnext.
  assert (m0 = m) as -> by congruence. destruct (Hnext 0%nat e eq_refl) as [Hk Hidx]. rewrite Nat.add_0_r in Hk, Hidx.
  assert (host_ok (eq i) reg G s1) as H1.
  { destruct (still_events _ _ _ _ _ S1 Hh) as (E1 & E2 & E3). split; [|done..]. intros j snj n Hj. rewrite En1 in Hj. intros Hn Hl Hne.
    rewrite lookup_insert_ne in Hj by done. by apply (ho_machine _ _ _ _ Hh j). }
  pose proof (observe_host (eq i) reg G k i e m m' res s1 He Hk Hb Ha H1) as H2. fold s2 in H2. split.
  - destruct (still_events _ _ _ _ _ S3 H2) as (E1 & E2 & E3). split; [|done..]. intros j snj n Hj. rewrite En3 in Hj. intros Hn Hl Hne.
    rewrite lookup_insert_ne in Hj by done. by apply (ho_machine _ _ _ _ H2 j).
  - apply lookup_lt_Some in Hk as Hlt. split_and!; [cbn; lia|lia|]. exists m'. split; [done|]. by eapply before_next.
Qed.

Lemma next_of_cons G k e es : next_of G k (e :: es) -> next_of G k [e] /\ next_of G (S k) es.
Proof.
  intros Hn. split.
  - intros [|x] e' He; [|done]. by apply (Hn 0%nat).
  - intros x e' He. destruct (Hn (S x) e' He) as [H1 H2]. replace (S k + x)%nat with (k + S x)%nat by lia. done.
Qed.

Lemma applyCommitted_host reg i es (s : simulator) sn m :
  Forall (entry_ok reg) es -> s_nodes s !! i = Some sn -> sn_sm sn = Some m ->
  exists s' sn', applyCommittedEntries i es s = (s', true) /\ s_nodes s' !! i = Some sn' /\ sn_node sn' = sn_node sn /\ sn_halted sn' = sn_halted sn /\
    forall G k, host_ok (eq i) reg G s -> machine_at G sn k -> next_of G k es -> host_ok (eq i) reg G s' /\ machine_at G sn' (k + length es).
Proof using Hcodec.
  intros Hes. revert s sn m. induction Hes as [|e es He Hes IH]; intros s sn m Hi Hm.
  { exists s, sn. split_and!; try done. intros G k Hh Hk _. rewrite Nat.add_0_r. done. }
  cbn [applyCommittedEntries]. destruct (applyOne_host reg i e s sn m He Hi Hm) as (s1 & sn1 & m1 & -> & Hi1 & En1 & Eh1 & Hm1 & Hstep).
  destruct (IH s1 sn1 m1 Hi1 Hm1) as (s2 & sn2 & -> & Hi2 & En2 & Eh2 & Hrest). exists s2, sn2. split_and!; [done|done|congruence|congruence|].
  intros G k Hh Hk [Hn1 Hn2]%next_of_cons. destruct (Hstep G k Hh Hk Hn1) as [Hh1 Hk1]. cbn [length]. replace (k + S (length es))%nat with (S k + length es)%nat by lia.
  by apply Hrest.
Qed.

(** * The Ready path *)

Lemma restores_storage (st : simStorage) : (match st with StMem m => (StMem m, false) | StCrash cs => let '(cs', f) := CrashIfArmed cs in (StCrash cs', f) end) = crashIfArmed st.
Proof. by destruct st. Qed.

(** A process that runs its Ready path dies and applies nothing, or goes on with all of the
    committed entries applied. *)
Lemma runReady_host reg G i (s : simulator) sn n :
  let rd := readyWithoutCapture n in
  host_ok nobody reg G s -> s_nodes s !! i = Some sn -> sn_node sn = Some n -> sn_halted sn = false -> Forall (entry_ok reg) (r_CommittedEntries rd) ->
  host_ok nobody reg G (runReady i s) \/
  exists sn', s_nodes (runReady i s) !! i = Some sn' /\ sn_halted sn' = false /\ sn_node sn' = Some (Advance (captureReady rd n)) /\
    forall G', G `prefix_of` G' -> next_of G' (Z.to_nat (lastApplied n)) (r_CommittedEntries rd) ->
      lastApplied (Advance (captureReady rd n)) = lastApplied n + Z.of_nat (length (r_CommittedEntries rd)) -> host_ok nobody reg G' (runReady i s).
Proof using Hcodec.
  intros rd Hh Hi Hn Hl Hes. unfold runReady. rewrite Hi. cbn [mbind option_bind NodeReady]. rewrite Hn. cbn [NodeReady]. fold rd. cbv beta iota.
  destruct (ho_machine _ _ _ _ Hh i sn n Hi Hn Hl ltac:(by intros [])) as (Hla & M1 & M2 & m & Hm & Hb).
  destruct (upd_node_sets i (with_node (Some (captureReady rd n))) s sn Hi) as [_ En1]. set (s1 := upd_node i _ s) in *. set (sn1 := with_node _ sn) in *.
  assert (still s s1) as S1 by (by apply upd_node_still). assert (s_nodes s1 !! i = Some sn1) as Hi1 by (by rewrite En1, lookup_insert_eq).
  assert (host_ok (eq i) reg G s1) as H1.
  { destruct (still_events _ _ _ _ _ S1 Hh) as (E1 & E2 & E3). split; [|done..]. intros j snj nj Hj Hnj Hlj Hne. rewrite En1, lookup_insert_ne in Hj by done.
    apply (ho_machine _ _ _ _ Hh j); try done. by intros []. }
  unfold sim_processReady. rewrite Hi1. destruct (Save (r_HardState rd) (r_Entries rd) (sn_storage sn1)) as [st err].
  assert (forall st' (s0 : simulator) a, still s1 s0 -> s_nodes s0 = <[i := a]> (s_nodes s1) -> s_nodes (upd_node i (with_storage st') s0) = <[i := with_storage st' a]> (s_nodes s1) /\ still s1 (upd_node i (with_storage st') s0)) as Hup.
  { intros st' s0 a S0 En0. destruct (upd_node_sets i (with_storage st') s0 a) as [_ ->]; [by rewrite En0, lookup_insert_eq|]. rewrite En0, insert_insert_eq.
    split; [done|]. etrans; [exact S0|]. by apply upd_node_still. }
  destruct (Hup st s1 sn1 ltac:(reflexivity) ltac:(by rewrite insert_id)) as [En2 S2]. set (s2 := upd_node i (with_storage st) s1) in *.
  assert (forall a (s0 s3 : simulator), still s1 s0 -> s_nodes s0 = <[i := a]> (s_nodes s1) -> kills i a s0 s3 -> still s0 s3 -> host_ok nobody reg G s3) as Hkill.
  { intros a s0 s3 S0 En0 (b & [_ Eb] & _ & Hd) S3. eapply (host_sets (eq i) reg G s1 s3 i b); [by etrans|by rewrite Eb, En0, insert_insert_eq|done| |done].
    intros nb Hnb Hlb. destruct Hd; congruence. }
  assert (s_nodes s2 !! i = Some (with_storage st sn1)) as Hi2 by (by rewrite En2, lookup_insert_eq). destruct err as [e|].
  - left. case_bool.
    + eapply (Hkill _ s2); [exact S2|exact En2|by apply storageCrashed_kills|apply storageCrashed_still].
    + eapply (Hkill _ s2); [exact S2|exact En2|eapply kills_calm; [by apply markProcessHalted_kills|apply record_calm]|].
      etrans; [apply markProcessHalted_still|apply record_still].
  - cbv zeta. pose proof (sd_nodes _ _ _ (send_all (r_Messages rd) s2)) as En3. pose proof (send_all_still (r_Messages rd) s2) as S3.
    set (s3 := foldl _ s2 _) in *. rewrite restores_storage. destruct (crashIfArmed st) as [st2 fired].
    destruct (Hup st2 s3 (with_storage st sn1) ltac:(by etrans) ltac:(by rewrite En3)) as [En4 S4]. set (s4 := upd_node i (with_storage st2) s3) in *.
    set (sn4 := with_storage st2 _) in *. assert (s_nodes s4 !! i = Some sn4) as Hi4 by (by rewrite En4, lookup_insert_eq). destruct fired.
    { left. eapply (Hkill _ s4); [exact S4|exact En4|by apply storageCrashed_kills|apply storageCrashed_still]. }
    right. destruct (applyCommitted_host reg i (r_CommittedEntries rd) s4 sn4 m Hes Hi4 Hm) as (s5 & sn5 & -> & Hi5 & En5 & Eh5 & Happ).
    destruct (upd_node_sets i (fun sn => with_node (Advance <$> sn_node sn) sn) s5 sn5 Hi5) as [_ En6]. set (s6 := upd_node i _ s5) in *.
    assert (still s5 s6) as S6 by (by apply upd_node_still). eexists. split; [change (s_nodes (record _ _ s6)) with (s_nodes s6); rewrite En6; apply lookup_insert_eq|].
    split; [cbn; by rewrite Eh5|]. assert (Advance <$> sn_node sn5 = Some (Advance (captureReady rd n))) as En by (by rewrite En5). split; [exact En|].
    intros G' Hp Hnext Hadv. assert (host_ok (eq i) reg G' s4) as H4.
    { apply (host_grow _ _ _ _ _ Hp). destruct (still_events _ _ _ _ _ S4 H1) as (E1 & E2 & E3). split; [|done..]. intros j snj nj Hj Hnj Hlj Hne.
      rewrite En4, lookup_insert_ne in Hj by done. by apply (ho_machine _ _ _ _ H1 j). }
    destruct (Happ G' (Z.to_nat (lastApplied n)) H4) as [H5 (M5 & M6 & m5 & M7 & M8)]; [apply (machine_grow G G' _ _ Hp); split_and!; [exact M1|done|by exists m]|done|].
    eapply (host_sets (eq i) reg G' s5); [etrans; [exact S6|apply record_still]|exact En6|done| |exact H5].
    intros n' Hn' _. cbn [sn_node with_node] in Hn'. rewrite En in Hn'. injection Hn' as <-. rewrite Hadv. split; [lia|].
    rewrite Z2Nat.inj_add, Nat2Z.id by lia. split_and!; [exact M5|done|by exists m5].
Qed.

(** * Other operations *)

Lemma host_upd reg G i f (s : simulator) :
  (forall sn, sn_node (f sn) = sn_node sn /\ sn_halted (f sn) = sn_halted sn /\ sn_lastApplied (f sn) = sn_lastApplied sn /\ sn_sm (f sn) = sn_sm sn /\
     sn_factory (f sn) = sn_factory sn) -> host_ok nobody reg G s -> host_ok nobody reg G (upd_node i f s).
Proof.
  intros Hf Hh. assert (still s (upd_node i f s)) as S1 by (apply upd_node_still; intros sn; apply Hf). destruct (s_nodes s !! i) as [sn|] eqn:Hi.
  - eapply (host_sets nobody); [exact S1|by apply upd_node_sets|done| |exact Hh]. intros n Hn Hl. destruct (Hf sn) as (F1 & F2 & F3 & F4 & F5). rewrite F1 in Hn. rewrite F2 in Hl.
    destruct (ho_machine _ _ _ _ Hh i sn n Hi Hn Hl ltac:(by intros [])) as (Hla & M1 & M2 & M3). split; [done|]. unfold machine_at. rewrite F3, F4. done.
  - eapply host_still; [exact S1| |exact Hh]. cbn. apply map_eq. intros j. destruct (decide (i = j)) as [->|Hne]; [by rewrite lookup_alter_eq, Hi|by rewrite lookup_alter_ne].
Qed.

Lemma handleCrash_host reg G i (s : simulator) : host_ok nobody reg G s -> host_ok nobody reg G (handleCrash i s).
Proof.
  intros Hh. pose proof (handleCrash_still i s) as S. unfold handleCrash in *. destruct (s_nodes s !! i) as [sn|] eqn:Hi; [|by eapply (host_still _ _ _ s)].
  cbv zeta in *. match goal with |- context [markProcessCrashed i ?x] => assert (exists a, s_nodes x = <[i := a]> (s_nodes s)) as [a Ea]; [|set (s1 := x) in *] end.
  { destruct (sn_storage sn) as [m|cs]; [exists sn; by rewrite insert_id|]. destruct (crashed cs); [exists sn; by rewrite insert_id|].
    destruct (cs_Crash cs) as [cs' [e|]]; eexists; by apply upd_node_sets. }
  destruct (markProcessCrashed_kills i s1 a ltac:(by rewrite Ea, lookup_insert_eq)) as (b & [_ Eb] & _ & Hd).
  eapply (host_sets nobody); [exact S|change (s_nodes (record ?f ?g ?x)) with (s_nodes x); by rewrite Eb, Ea, insert_insert_eq|done| |exact Hh].
  intros n Hn Hl. destruct Hd; congruence.
Qed.

Lemma handleRestart_host reg G i (s : simulator) : host_ok nobody reg G s -> host_ok nobody reg G (handleRestart i s).
Proof.
  intros Hh. pose proof (handleRestart_still i s) as S. unfold handleRestart in *. destruct (s_nodes s !! i) as [sn|] eqn:Hi; [|by eapply (host_still _ _ _ s)].
  destruct (bool_decide (is_Some (sn_node sn)) && negb (sn_halted sn)); [by eapply (host_still _ _ _ s)|].
  destruct (recoverStorage (sn_storage sn)) as [st err]. cbv zeta in *. destruct (upd_node_sets i (with_storage st) s sn Hi) as [_ En1].
  set (s1 := upd_node i (with_storage st) s) in *. assert (s_nodes s1 !! i = Some (with_storage st sn)) as Hi1 by (by rewrite En1, lookup_insert_eq).
  assert (forall f args, still s (record f args (markProcessHalted i s1)) -> host_ok nobody reg G (record f args (markProcessHalted i s1))) as Hdead.
  { intros f args S'. destruct (markProcessHalted_kills i s1 _ Hi1) as (b & [_ Eb] & _ & Hd).
    eapply (host_sets nobody); [exact S'|change (s_nodes (record ?f ?g ?x)) with (s_nodes x); by rewrite Eb, En1, insert_insert_eq|done| |exact Hh]. intros n Hn Hl. destruct Hd; congruence. }
  destruct err as [e|]; [by apply Hdead|]. destruct (recoveredInitialState st) as [init|e] eqn:Er; [|by apply Hdead]. clear Hdead.
  assert (exists hs es, init = mkInitialState hs es (mkSnapshotMeta 0 0)) as (hs & es & ->).
  { unfold recoveredInitialState in Er. destruct (getHardState st) as [hard|]; [|done]. case_bool; [case_bool; [done|]; destruct (getEntries _ _ st) as [l|]; [|done]|];
      injection Er as <-; by eexists _, _. }
  set (n' := NewNode (sn_cfg sn) _ _) in *. pose proof (NewNode_applied (sn_cfg sn) hs es (Some (jitter sn)) : lastApplied n' = 0) as Hn'. clearbody n'.
  destruct (upd_node_sets i (fun sn => with_halted false (with_node (Some n') (invalidateTickStream sn))) s1 _ Hi1) as [_ En2].
  set (s2 := replaceProcess i n' s1) in *. change (upd_node i _ s1) with s2 in En2. set (sn2 := with_halted false _) in En2. rewrite En1, insert_insert_eq in En2.
  assert (s_nodes s2 !! i = Some sn2) as Hi2 by (by rewrite En2, lookup_insert_eq). assert (sn_factory sn2 = true) as Hf by exact (ho_factory _ _ _ _ Hh i sn Hi).
  unfold restartStateMachine in *. rewrite Hi2, Hf in *. cbn [negb eng_open eng_replay map_engine] in *. cbv zeta in *.
  destruct (upd_node_sets i (with_sm (sn_sm sn2) (sn_env sn2)) s2 _ Hi2) as [_ En3]. set (s3 := upd_node i (with_sm _ _) s2) in *. rewrite En2, insert_insert_eq in En3.
  match goal with |- context [s_nodes ?x !! i] => match x with upd_node i ?f s3 => destruct (upd_node_sets i f s3 _ ltac:(by rewrite En3, lookup_insert_eq)) as [_ En4]; set (s4 := x) in * end end.
  rewrite En3, insert_insert_eq in En4. rewrite En4, lookup_insert_eq in *.
  eapply (host_sets nobody); [exact S| |done| |exact Hh].
  { etrans; [|exact En4]. unfold scheduleTick. change (s_nodes (record ?f ?g ?x)) with (s_nodes x). by rewrite En4, lookup_insert_eq. }
  intros n Hn _. cbn in Hn. injection Hn as <-. rewrite Hn'. split; [done|]. split_and!; [done|cbn; lia|]. exists NewMapSM. split; [done|]. apply before_zero.
Qed.

Lemma applyFault_host reg G f (s : simulator) : host_ok nobody reg G s -> host_ok nobody reg G (applyFault f s).
Proof.
  intros Hh. assert (forall i, host_ok nobody reg G (Pause i s)) as Hp.
  { intros i. unfold Pause. destruct (s_nodes s !! i); [|done]. eapply host_still; [apply record_still|done|]. by apply host_upd. }
  assert (forall i, host_ok nobody reg G (Resume i s)) as Hr.
  { intros i. unfold Resume. destruct (s_nodes s !! i); [|done]. eapply host_still; [apply record_still|done|]. by apply host_upd. }
  unfold applyFault. destruct (fv_Kind f); try done; try (by apply (host_still _ _ _ s); [apply still_same|..]).
  - apply (host_still _ _ _ s); [|exact (proj2 (PartitionGroups_calm _ s))|done]. etrans; [apply PartitionGroups_still|apply record_still].
  - apply (host_still _ _ _ s); [|exact (proj2 (HealGroups_calm _ s))|done]. etrans; [apply HealGroups_still|apply record_still].
  - assert (host_ok nobody reg G (SetClockSkew (fv_Node f) (fv_Multiplier f) s).1) as Hs.
    { unfold SetClockSkew. case_bool; [done|]. case_bool; [done|]. destruct (s_nodes s !! fv_Node f); [|done]. cbn [fst].
      eapply host_still; [apply record_still|done|]. by apply host_upd. }
    destruct (SetClockSkew _ _ s) as [s' [e|]]; [|done]. eapply host_still; [apply record_still|done|done].
  - destruct (s_nodes s !! fv_Node f); [by apply handleCrash_host|done].
  - destruct (s_nodes s !! fv_Node f); [by apply handleRestart_host|done].
Qed.
End work.

Section linear.
Context (marshal : Command -> result bytes) (unmarshal : bytes -> option Command).
Context (Hcodec : forall c d, marshal c = Ok d -> unmarshal d = Some c).
Context (cfgs : Z -> Config) (ids : list Z) (Hcfg : cluster_cfg cfgs ids).

#[local] Hint Extern 0 (SimEngine unit MapSM) => exact (map_engine unmarshal) : typeclass_instances.
Notation simulator := (Simulator unit MapSM).
Notation node := (simNode unit MapSM).
Notation ideal := (cluster (S := MemStorage)).
Notation nobody := (fun _ : Z => False).

(** * The global log *)

(** A prefix of what is committed. *)
Definition global (sa : astate) (G : list Entry) : Prop := exists T L k, cprefix ids sa T L k /\ G = toEntry <$> take k L.

Lemma global_mono sa sa' G : gext sa sa' -> global sa G -> global sa' G.
Proof. intros Hx (T & L & k & Hc & ->). exists T, L, k. split; [|done]. by eapply (cprefix_mono ids sa). Qed.

Lemma global_comparable sa G G' : ainv ids sa -> global sa G -> global sa G' -> G `prefix_of` G' \/ G' `prefix_of` G.
Proof.
  assert (forall T L k T' L' k', ainv ids sa -> cprefix ids sa T L k -> cprefix ids sa T' L' k' -> (k <= k')%nat -> toEntry <$> take k L `prefix_of` toEntry <$> take k' L') as H.
  { intros T L k T' L' k' Hinv H1 H2 Hle. rewrite (cprefix_agree ids sa T T' L L' k k' Hinv H1 H2 Hle). replace (take k L') with (take k (take k' L')) by (rewrite take_take; f_equal; lia).
    rewrite fmap_take. apply prefix_take. }
  intros Hinv (T & L & k & H1 & ->) (T' & L' & k' & H2 & ->). destruct (decide (k <= k')%nat); [left|right]; eapply H; (done || lia).
Qed.

Definition registered (reg : registry) (idx T : Z) : Prop := is_Some (reg !! (idx, T)).

Lemma noop_ok reg idx t : ~ registered reg idx t -> entry_ok marshal reg (mkEntry idx t EntryType_NOOP []).
Proof. intros Hn. left. split; [done|]. cbn. by apply eq_None_not_Some. Qed.

(** * The relation *)

Notation PSR reg := (SR cfgs ids (entry_ok marshal reg) (registered reg)).
Notation Preaches reg := (reaches cfgs ids (entry_ok marshal reg) (registered reg)).

Record LR (reg : registry) (G : list Entry) (sa : astate) (c : ideal) (s : simulator) : Prop := mkLR {
  lr_sr : PSR reg sa c s;
  lr_global : global sa G;
  lr_entries : Forall (entry_ok marshal reg) G;
  lr_host : host_ok unmarshal nobody reg G s;
}.

(** The global log grows to one of [s']. *)
Definition advances (reg : registry) (G : list Entry) (c : ideal) (s' : simulator) : Prop :=
  exists c' sa' G', rtc (cstep cfgs ids) c c' /\ G `prefix_of` G' /\ LR reg G' sa' c' s'.

Lemma advances_refl reg G sa c s : LR reg G sa c s -> advances reg G c s.
Proof. intros HL. by exists c, sa, G. Qed.

Lemma LR_calm reg G sa c s s' : LR reg G sa c s -> calm s s' -> still s s' -> LR reg G sa c s'.
Proof. intros [H1 H2 H3 H4] Hc Hs. split; [by eapply SR_calm|done|done|]. eapply host_still; [exact Hs|apply Hc|done]. Qed.

Lemma advances_calm reg G c s s' : advances reg G c s -> calm s s' -> still s s' -> advances reg G c s'.
Proof. intros (c' & sa' & G' & H1 & H2 & HL) Hc Hs. exists c', sa', G'. split_and!; [done|done|by eapply LR_calm]. Qed.

(** A step in which nothing is applied. *)
Lemma reaches_advances reg G sa c s s' : LR reg G sa c s -> Preaches reg sa c s' -> host_ok unmarshal nobody reg G s' -> advances reg G c s'.
Proof. intros [H1 H2 H3 H4] (c' & sa' & Hs & Hx & HR) Hh. exists c', sa', G. split_and!; [done|done|]. split; [done|by eapply global_mono|done|done]. Qed.

(** * The Ready path *)

(** What a running node has committed is part of the global log. *)
Lemma committed_global reg sa c (s : simulator) i sn n :
  PSR reg sa c s -> s_nodes s !! i = Some sn -> sn_node sn = Some n -> sn_halted sn = false ->
  let K := toEntry <$> take (Z.to_nat (commitIndex n)) (entries (log n)) in
  global sa K /\ Forall (entry_ok marshal reg) K /\ contiguous_from 0 (toEntry <$> entries (log n)).
Proof.
  intros HR Hi Hn Hl. destruct (sr_nodes _ _ _ _ _ _ _ HR i sn Hi) as [Hin Hrel]. destruct (nr_live _ _ _ _ _ _ Hrel n Hn Hl) as [-> _].
  pose proof (hi_ni _ _ _ _ (ci_hosts _ _ _ (sr_ci _ _ _ _ _ _ _ HR) i Hin)) as HN. rewrite (ni_log HN). split_and!.
  - eexists _, _, _. split; [exact (proj2 (ni_commit HN))|done].
  - pose proof (proj1 (sr_holds _ _ _ _ _ _ _ HR) i Hin) as Hh. unfold log_holds in Hh. rewrite (ni_log HN) in Hh. rewrite fmap_take. by apply Forall_take.
  - exact (proj1 (hosts_wf ids sa c i (sr_ci _ _ _ _ _ _ _ HR) Hin)).
Qed.

Lemma committed_next (es : list logEntry) a k G :
  (a <= k)%nat -> contiguous_from 0 (toEntry <$> es) -> toEntry <$> take k es `prefix_of` G -> next_of G a (toEntry <$> take (k - a) (drop a es)).
Proof.
  intros Hle Hc Hp x e He. rewrite list_lookup_fmap in He. apply fmap_Some in He as (y & [Hy Hx]%lookup_take_Some & ->). rewrite lookup_drop in Hy. split.
  - eapply prefix_lookup_Some; [|exact Hp]. rewrite list_lookup_fmap, lookup_take_lt by lia. by rewrite Hy.
  - rewrite (Hc (a + x)%nat (toEntry y)); [lia|]. by rewrite list_lookup_fmap, Hy.
Qed.

Lemma ready_advances reg0 reg G sa c (s0 s : simulator) i sn0 n0 ev :
  SR cfgs ids (entry_ok marshal reg) (registered reg0) sa c s0 -> global sa G -> Forall (entry_ok marshal reg) G ->
  event_holds (entry_ok marshal reg) ev n0 -> (forall idx T, registered reg idx T -> registered reg0 idx T \/ filled c i ev idx T) ->
  s_nodes s0 !! i = Some sn0 -> sn_node sn0 = Some n0 -> sn_halted sn0 = false -> deliverable c i ev -> fits_node ev sn0 n0 ->
  sets i (with_node (Some (node_event ev n0)) sn0) s0 s -> host_ok unmarshal nobody reg G s ->
  advances reg G c (runReady i s) /\ keeps s0 (runReady i s).
Proof using Hcfg Hcodec.
  intros HR HG HGe Hev HD Hi0 Hn0 Hl0 Hdel Hfit Hs Hh. destruct (sr_nodes _ _ _ _ _ _ _ HR i sn0 Hi0) as [Hin Hrel].
  destruct (runReady_reaches cfgs ids Hcfg _ _ _ sa c s0 s i sn0 n0 ev HR (fun _ _ => Hev) HD Hi0 Hn0 Hl0 Hdel Hfit Hs) as [(c' & sa' & Hst & Hx & HR') Hk].
  split; [|done]. destruct (nr_live _ _ _ _ _ _ Hrel n0 Hn0 Hl0) as [-> _]. set (n1 := node_event ev (h_Node (hosts c i))) in *. set (rd := readyWithoutCapture n1).
  destruct Hfit as [Hroom _]. pose proof Hcfg as (Hnd & Hlen & Hcf). pose proof (sr_ci _ _ _ _ _ _ _ HR) as HC.
  destruct (node_event_evolves cfgs ids Hnd Hlen Hcf sa c i ev HC Hin Hdel Hroom) as (s1 & s' & _ & _ & HN & _). fold n1 in HN.
  pose proof (ready_committed _ _ _ _ _ _ HN) as Ecom. fold rd in Ecom.
  destruct (node_after_holds ids (entry_ok marshal reg) sa c i ev HC Hin (sr_holds _ _ _ _ _ _ _ HR) Hdel Hev) as [Hlog _]. fold n1 in Hlog.
  assert (Forall (entry_ok marshal reg) (r_CommittedEntries rd)) as Hes.
  { rewrite Ecom, fmap_take, fmap_drop, <- (ni_log HN). by apply Forall_take, Forall_drop. }
  destruct (runReady_host marshal unmarshal Hcodec reg G i s _ n1 Hh (sets_lookup _ _ _ _ Hs) eq_refl Hl0 Hes) as [Hh'|(sn' & Hi' & Hl' & Hn' & Hgo)].
  { exists c', sa', G. split_and!; [done|done|]. split; [done|by eapply global_mono|done|done]. }
  fold rd in Hn', Hgo. destruct (committed_global reg sa' c' _ i sn' _ HR' Hi' Hn' Hl') as (HK & HKe & Hcont).
  assert (log (Advance (captureReady rd n1)) = log n1 /\ commitIndex (Advance (captureReady rd n1)) = commitIndex n1 /\
    lastApplied (Advance (captureReady rd n1)) = Z.max (lastApplied n1) (commitIndex n1)) as (E1 & E2 & E3).
  { unfold rd. rewrite (Advance_rested _ _ _ _ _ _ HN). done. }
  rewrite E1, E2, (ni_log HN) in *. set (K := toEntry <$> take _ _) in HK, HKe.
  destruct (ni_commit HN) as [C0 [C1 _]], (ni_applied HN) as [A0 [A1 _]].
  assert (forall G', G `prefix_of` G' -> K `prefix_of` G' -> host_ok unmarshal nobody reg G' (runReady i s)) as Hgo'.
  { intros G' HpG HpK. apply Hgo; [done| |].
    - destruct (decide (Z.to_nat (lastApplied n1) <= Z.to_nat (commitIndex n1))%nat) as [Hle|Hgt].
      + rewrite Ecom. by apply committed_next.
      + rewrite Ecom. replace (_ - _)%nat with 0%nat by lia. by intros x e He.
    - rewrite E3, Ecom, length_fmap, length_take, length_drop. lia. }
  destruct (global_comparable sa' G K (ci_inv _ _ _ (sr_ci _ _ _ _ _ _ _ HR')) (global_mono _ _ _ Hx HG) HK) as [Hp|Hp].
  - exists c', sa', K. split_and!; [done|done|]. split; [done|done|done|by apply Hgo'].
  - exists c', sa', G. split_and!; [done|done|]. split; [done|by eapply global_mono|done|by apply Hgo'].
Qed.

(** * Handlers *)

Lemma LR_both reg G sa c s s' : LR reg G sa c s -> calm s s' -> still s s' -> advances reg G c s' /\ keeps s s'.
Proof. intros HL Hc Hs. split; [by eapply advances_refl, LR_calm|by apply quiet_keeps, Hc]. Qed.

Lemma both_advances reg G c (s s1 s2 : simulator) : advances reg G c s1 /\ keeps s s1 -> calm s1 s2 -> still s1 s2 -> advances reg G c s2 /\ keeps s s2.
Proof. intros [Hr Hk] Hc Hs. split; [by eapply advances_calm|]. etrans; [done|]. by apply quiet_keeps, Hc. Qed.

(** The node takes an input: its machine is as before. *)
Lemma input_host reg G (s s' : simulator) i sn n ev :
  host_ok unmarshal nobody reg G s -> s_nodes s !! i = Some sn -> sn_node sn = Some n -> sn_halted sn = false ->
  sets i (with_node (Some (node_event ev n)) sn) s s' -> still s s' -> host_ok unmarshal nobody reg G s'.
Proof.
  intros Hh Hi Hn Hl [_ En] Hs. eapply (host_sets unmarshal nobody); [exact Hs|exact En|done| |exact Hh]. intros n' Hn' _. cbn in Hn'. injection Hn' as <-.
  rewrite node_event_lastApplied. destruct (ho_machine _ _ _ _ _ Hh i sn n Hi Hn Hl ltac:(by intros [])) as (H0 & M1 & M2 & M3). split; [done|]. split_and!; done.
Qed.

Lemma plain_advances reg G sa c s s1 i sn n ev :
  LR reg G sa c s -> s_nodes s !! i = Some sn -> sn_node sn = Some n -> sn_halted sn = false -> deliverable c i ev -> fits_event i ev s ->
  match ev with EvPropose _ => False | _ => True end ->
  sets i (with_node (Some (node_event ev n)) sn) s s1 -> still s s1 -> advances reg G c (runReady i s1) /\ keeps s (runReady i s1).
Proof using Hcfg Hcodec.
  intros [H1 H2 H3 H4] Hi Hn Hl Hdel Hf Hev Hs Hst. pose proof (fits_event_node _ _ _ _ _ Hf Hi Hn) as Hfit.
  eapply (ready_advances reg reg G sa c s s1 i sn n ev); try done; [|by left|by eapply input_host].
  eapply (input_holds cfgs ids Hcfg _ (registered reg) (noop_ok reg)); done.
Qed.

Lemma handleTick_advances reg G sa c s i :
  LR reg G sa c s -> i ∈ ids -> fits_event i EvTick s -> advances reg G c (handleTick i s) /\ keeps s (handleTick i s).
Proof using Hcfg Hcodec.
  intros HL Hi Hf. destruct (sr_dom _ _ _ _ _ _ _ (lr_sr _ _ _ _ _ HL) i Hi) as [sn Hsn]. unfold handleTick. rewrite Hsn.
  destruct (sn_node sn) as [n|] eqn:Hn; [|by eapply LR_both; [|apply record_calm|apply record_still]].
  destruct (sn_halted sn) eqn:Hh; [by eapply LR_both; [|apply record_calm|apply record_still]|]. destruct (sn_paused sn) eqn:Hp.
  { eapply LR_both; [exact HL| |].
    - etrans; [apply record_calm|]. apply scheduleTick_calm. by eexists.
    - etrans; [apply record_still|]. apply scheduleTick_still. }
  cbv zeta. match goal with |- context [runReady i ?x] => destruct (plain_advances reg G sa c s x i sn n EvTick HL Hsn Hn Hh I Hf I) as [Hr Hk]; [..|set (s1 := x) in *] end.
  { eapply sets_calm; [by apply upd_node_sets|apply record_calm]. }
  { etrans; [|apply record_still]. by apply upd_node_still. }
  clearbody s1. destruct (s_nodes (runReady i s1) !! i) as [sn1|] eqn:Ei; [|done].
  destruct (_ && _); [|done]. eapply both_advances; [done| |apply scheduleTick_still]. apply scheduleTick_calm. by eexists.
Qed.

Lemma handleMessage_advances reg G sa c s m :
  LR reg G sa c s -> m ∈ net c -> fits_event (To m) (EvDeliver m) s -> advances reg G c (handleMessage m s) /\ keeps s (handleMessage m s).
Proof using Hcfg Hcodec.
  intros HL Hm Hf. assert (forall f args, advances reg G c (record f args s) /\ keeps s (record f args s)) as Hrec
    by (intros f args; by eapply LR_both; [|apply record_calm|apply record_still]).
  unfold handleMessage. cbv zeta. destruct (blocked _ _ s); [apply Hrec|].
  destruct (s_nodes s !! To m) as [sn|] eqn:Hsn; [|apply Hrec]. destruct (sn_node sn) as [n|] eqn:Hn; [|apply Hrec].
  destruct (sn_halted sn) eqn:Hh; [apply Hrec|]. destruct (sn_paused sn) eqn:Hp; [apply Hrec|].
  eapply (plain_advances reg G sa c s _ (To m) sn n (EvDeliver m)); try done.
  - eapply sets_calm; [by apply upd_node_sets|apply record_calm].
  - etrans; [|apply record_still]. by apply upd_node_still.
Qed.

(** Steps in which nothing is applied. *)
Lemma quiet_advances reg G sa c s s' :
  LR reg G sa c s -> Preaches reg sa c s' /\ keeps s s' -> host_ok unmarshal nobody reg G s' -> advances reg G c s' /\ keeps s s'.
Proof. intros HL [Hr Hk] Hh. split; [by eapply reaches_advances|done]. Qed.

Lemma handleCrash_advances reg G sa c s i : LR reg G sa c s -> i ∈ ids -> advances reg G c (handleCrash i s) /\ keeps s (handleCrash i s).
Proof.
  intros HL Hi. eapply quiet_advances; [exact HL| |].
  - eapply handleCrash_reaches; [apply HL|done].
  - apply handleCrash_host, HL.
Qed.

Lemma handleRestart_advances reg G sa c s i : LR reg G sa c s -> i ∈ ids -> advances reg G c (handleRestart i s) /\ keeps s (handleRestart i s).
Proof using Hcfg.
  intros HL Hi. eapply quiet_advances; [exact HL| |].
  - eapply handleRestart_reaches; [done|apply HL|done].
  - apply handleRestart_host, HL.
Qed.

Lemma applyFault_advances reg G sa c s f : LR reg G sa c s -> advances reg G c (applyFault f s) /\ keeps s (applyFault f s).
Proof using Hcfg.
  intros HL. eapply quiet_advances; [exact HL| |].
  - eapply applyFault_reaches; [done|apply noop_ok|apply HL].
  - apply applyFault_host, HL.
Qed.

(** * Submissions *)

(** The position after a leader's log is vacant: no log and no message has an entry of the
    leader's term there. *)
Definition elsewhere (idx T : Z) (e : Entry) : Prop := (Index e, Term e) <> (idx, T).

Lemma leader_covers sa (c : ideal) i L e :
  CI ids sa c -> i ∈ ids -> role (h_Node (hosts c i)) = leader -> logok sa L -> e ∈ L -> term e = a_term sa i -> index e <= Z.of_nat (length (a_log sa i)).
Proof.
  intros HC Hi Hr Hok [k He]%list_elem_of_lookup_1 Et. destruct (Hok k e He) as [_ Htk]. destruct (CI_leads ids sa c i HC Hi Hr) as [_ El].
  rewrite Et, <- El in Htk. assert (a_log sa i !! k = Some e) as Hk by (rewrite <- (lookup_take_lt _ (S k)), <- Htk, lookup_take_lt by lia; done).
  pose proof (proj1 (hosts_wf ids sa c i HC Hi) k (toEntry e)) as Hw. rewrite list_lookup_fmap, Hk in Hw. specialize (Hw eq_refl). cbn in Hw.
  apply lookup_lt_Some in Hk. lia.
Qed.

Lemma vacant_log sa (c : ideal) i L :
  CI ids sa c -> i ∈ ids -> role (h_Node (hosts c i)) = leader -> logok sa L ->
  Forall (elsewhere (Z.of_nat (length (a_log sa i)) + 1) (a_term sa i)) (toEntry <$> L).
Proof.
  intros HC Hi Hr Hok. apply Forall_fmap, Forall_forall. intros e He [= Ei Et]. pose proof (leader_covers sa c i L e HC Hi Hr Hok He Et). cbn in Ei. lia.
Qed.

Lemma vacant sa (c : ideal) i :
  CI ids sa c -> i ∈ ids -> role (h_Node (hosts c i)) = leader ->
  let P := elsewhere (Z.of_nat (length (a_log sa i)) + 1) (a_term sa i) in
  cluster_holds ids P c /\ forall G, global sa G -> Forall P G.
Proof.
  intros HC Hi Hr P. pose proof (ci_inv _ _ _ HC) as Hinv.
  assert (forall L, logok sa L -> Forall P (toEntry <$> L)) as Hlog by (intros L HL; by apply (vacant_log sa c)). split; [split|].
  - intros j Hj. unfold log_holds. rewrite (proj1 (CI_log ids sa c j HC Hj)). apply Hlog, (inv_log _ _ Hinv).
  - eapply Forall_impl; [apply (ci_net _ _ _ HC)|]. intros m (_ & b & Hb & Hm). unfold msg_holds, carried. rewrite Hb. destruct b as [| |req| | |]; try done.
    destruct Hm as (_ & _ & Hl & p & k & _ & _ & _ & -> & _).
    assert (omap id (Some <$> (toEntry <$> take (k - p) (drop p (g_tlog sa (m_Term m))))) = toEntry <$> take (k - p) (drop p (g_tlog sa (m_Term m)))) as ->.
    { generalize (toEntry <$> take (k - p) (drop p (g_tlog sa (m_Term m)))). intros es. induction es as [|x es IH]; [done|]. cbn. by rewrite IH. }
    rewrite fmap_take, fmap_drop. apply Forall_take, Forall_drop, Hlog. apply (tlog_ok ids sa Hinv). by eexists.
  - intros G (T & L & k & [_ [->|(T0 & k0 & _ & Hcom & Hle & Htk)]] & ->); [done|]. rewrite Htk, fmap_take. apply Forall_take, Hlog.
    apply (tlog_ok ids sa Hinv), Hcom.
Qed.

(** Accepting a command at a vacant position. *)
Lemma entry_ok_insert reg idx T cmd e : entry_ok marshal reg e -> elsewhere idx T e -> entry_ok marshal (<[(idx, T) := cmd]> reg) e.
Proof. intros He Hne. unfold entry_ok. rewrite lookup_insert_ne by (intros Heq; apply Hne; by rewrite Heq). exact He. Qed.

Lemma SR_holds reg P2 sa c (s : simulator) : PSR reg sa c s -> cluster_holds ids P2 c -> SR cfgs ids P2 (registered reg) sa c s.
Proof. intros [H1 H2 H3 H4 H5 H6 H7 H8 H9] Hc. by split. Qed.

Lemma cluster_holds_both (P1 P2 P3 : Entry -> Prop) (c : ideal) : (forall e, P1 e -> P2 e -> P3 e) -> cluster_holds ids P1 c -> cluster_holds ids P2 c -> cluster_holds ids P3 c.
Proof.
  intros Himp [A1 A2] [B1 B2]. split.
  - intros i Hi. specialize (A1 i Hi). specialize (B1 i Hi). unfold log_holds in *. rewrite Forall_forall in *. auto.
  - rewrite Forall_forall in *. intros m Hm. specialize (A2 m Hm). specialize (B2 m Hm). unfold msg_holds in *. rewrite Forall_forall in *. auto.
Qed.

Lemma unregistered reg sa c (s : simulator) i :
  PSR reg sa c s -> i ∈ ids -> role (h_Node (hosts c i)) = leader -> reg !! (Z.of_nat (length (a_log sa i)) + 1, a_term sa i) = None.
Proof.
  intros HR Hi Hr. apply eq_None_not_Some. intros Hreg. destruct (sr_owned _ _ _ _ _ _ _ HR _ _ Hreg) as (j & Hj & Hg & Hor). pose proof (sr_ci _ _ _ _ _ _ _ HR) as HC.
  destruct (CI_leads ids sa c i HC Hi Hr) as [Hg' _]. assert (j = i) as -> by congruence. cbv zeta in Hor.
  pose proof (proj2 (CI_log ids sa c i HC Hi)) as Et. pose proof (CI_last ids sa c i HC Hi) as El. destruct Hor as [?|[_ Hl]]; [lia|]. specialize (Hl Hr). lia.
Qed.

Lemma Propose_answer d n : role n = leader -> (Propose d n).2 = (lastIndex (log n) +u 1, hs_Term (hardState n), true).
Proof.
  intros Hr. destruct (Propose_last d n Hr) as [_ Et]. unfold Propose in *. rewrite Hr in *. destruct (appendLocalNode EntryType_NORMAL d n) as [n1 idx] eqn:Ea.
  cbn [fst snd] in *. rewrite Et. unfold appendLocalNode, appendLocal in Ea. by injection Ea as _ <-.
Qed.

(** The attempt waits at the position that the command was accepted at. *)
Lemma propose_advances reg G sa c s i data cmd sub :
  LR reg G sa c s -> s_workload s <> None -> marshal cmd = Ok data -> kv_op (cmd_Op cmd) -> attempt_for (sb_AttemptID sub) cmd ->
  fits_event i (EvPropose data) s ->
  let s' := (sim_propose i data (Some (fun index term => registerWorkloadAttempt i index term sub)) s).1 in
  exists reg', reg ⊆ reg' /\ (forall k x, reg' !! k = Some x -> reg !! k = Some x \/ x = cmd) /\ advances reg' G c s' /\ keeps s s'.
Proof using Hcfg Hcodec.
  intros HL Hw Hmar Hop Hat Hf s'. assert (forall f args, exists reg', reg ⊆ reg' /\ (forall k x, reg' !! k = Some x -> reg !! k = Some x \/ x = cmd) /\
    advances reg' G c (record f args s) /\ keeps s (record f args s)) as Hrec.
  { intros f args. exists reg. split; [done|]. split; [by left|]. by eapply LR_both; [|apply record_calm|apply record_still]. }
  subst s'. unfold sim_propose. destruct (s_nodes s !! i) as [sn|] eqn:Hi; [|apply Hrec]. destruct (sn_node sn) as [n|] eqn:Hn; [|apply Hrec].
  destruct (sn_halted sn) eqn:Hh; [apply Hrec|]. destruct (sn_paused sn); [apply Hrec|]. cbn [orb]. clear Hrec.
  pose proof (fits_event_node _ _ _ _ _ Hf Hi Hn) as Hfit. destruct HL as [HR HG HGe Hho]. destruct (sr_nodes _ _ _ _ _ _ _ HR i sn Hi) as [Hin Hrel].
  destruct (nr_live _ _ _ _ _ _ Hrel n Hn Hh) as [En _]. pose proof (sr_ci _ _ _ _ _ _ _ HR) as HC.
  assert (forall P, role n <> leader -> starts_term P (node_event (EvPropose data) n)) as Hst.
  { intros P Hr Hl. exfalso. cbn [node_event] in Hl. unfold Propose in Hl. destruct (role n) eqn:Er; cbn in Hl; congruence. }
  destruct (Propose data n) as [n' [[index term] isLeader]] eqn:Ep. cbn [fst]. set (s1 := record _ _ (upd_node i _ s)).
  assert (n' = node_event (EvPropose data) n) as En' by (cbn [node_event]; by rewrite Ep).
  assert (sets i (with_node (Some (node_event (EvPropose data) n)) sn) s s1) as Hs1.
  { eapply sets_calm; [|apply record_calm]. rewrite <- En'. by apply upd_node_sets. }
  assert (still s s1) as S1 by (etrans; [|apply record_still]; by apply upd_node_still).
  pose proof (input_host reg G s s1 i sn n (EvPropose data) Hho Hi Hn Hh Hs1 S1) as Hh1.
  destruct (decide (role n = leader)) as [Hr|Hr].
  - pose proof (Propose_answer data n Hr) as Ea. rewrite Ep in Ea. cbn [snd] in Ea. injection Ea as -> -> ->. destruct Hfit as [Hroom Hft].
    pose proof Hroom as [Hroom1 _]. pose proof Hr as Hr'. rewrite En in Hr'. pose proof (unregistered reg sa c s i HR Hin Hr') as Hfresh.
    destruct (vacant sa c i HC Hin Hr') as [Hvc Hvg]. rewrite <- (CI_last ids sa c i HC Hin), <- (proj2 (CI_log ids sa c i HC Hin)), <- En in Hfresh, Hvc, Hvg.
    assert (lastIndex (log n) +u 1 = lastIndex (log n) + 1) as Eu by (apply u64_add_small; rewrite En, (CI_last ids sa c i HC Hin) in *; lia). rewrite Eu.
    set (key := (lastIndex (log n) + 1, hs_Term (hardState n))) in *. exists (<[key := cmd]> reg).
    assert (reg ⊆ <[key := cmd]> reg) as Hsub by (by apply insert_subseteq). split; [done|]. split.
    { intros k x. destruct (decide (key = k)) as [<-|Hne]; [rewrite lookup_insert_eq; intros [= <-]; by right|rewrite lookup_insert_ne by done; by left]. }
    assert (forall e, entry_ok marshal reg e -> elsewhere (lastIndex (log n) + 1) (hs_Term (hardState n)) e -> entry_ok marshal (<[key := cmd]> reg) e) as Himp
      by (intros e; apply entry_ok_insert).
    eapply (ready_advances reg (<[key := cmd]> reg) G sa c s _ i sn n (EvPropose data)); try done.
    + eapply SR_holds; [exact HR|]. eapply cluster_holds_both; [exact Himp|apply HR|exact Hvc].
    + specialize (Hvg G HG). rewrite Forall_forall in *. intros e He. by apply Himp; [apply HGe|apply Hvg].
    + split; [apply Hst|]. intros _. right. split; [done|]. exists cmd. cbn [Index Term Data]. rewrite Eu. fold key. by rewrite lookup_insert_eq.
    + intros idx T Hreg. unfold registered in *. destruct (decide (key = (idx, T))) as [Ek|Hne]; [right|left; by rewrite lookup_insert_ne in Hreg].
      injection Ek as <- <-. unfold filled. rewrite <- En. split_and!; [done|done|]. cbn [node_event]. rewrite (proj1 (Propose_last data n Hr)). lia.
    + eapply sets_calm; [exact Hs1|]. apply registerWorkloadAttempt_calm. by rewrite (sl_work _ _ S1).
    + eapply register_host; [by rewrite lookup_insert_eq|done|]. by eapply host_register.
  - assert (isLeader = false) as -> by (unfold Propose in Ep; destruct (role n); congruence). exists reg. split; [done|]. split; [by left|].
    eapply (ready_advances reg reg G sa c s _ i sn n (EvPropose data)); try done; [|by left]. split; [apply Hst|]. intros Hl. done.
Qed.

Lemma host_Submit_advances reg G sa c s sub :
  LR reg G sa c s -> s_workload s <> None -> kv_op (cmd_Op (sb_Command sub)) -> attempt_for (sb_AttemptID sub) (sb_Command sub) ->
  (forall data, marshal (sb_Command sub) = Ok data -> fits_event (sb_Target sub) (EvPropose data) s) ->
  let s' := (host_Submit marshal sub s).1 in
  exists reg', reg ⊆ reg' /\ (forall k x, reg' !! k = Some x -> reg !! k = Some x \/ x = sb_Command sub) /\ advances reg' G c s' /\ keeps s s'.
Proof using Hcfg Hcodec.
  intros HL Hw Hop Hat Hf. unfold host_Submit. destruct (marshal (sb_Command sub)) as [data|e] eqn:Em.
  2:{ exists reg. split; [done|]. split; [by left|]. split; [by eapply advances_refl|reflexivity]. }
  destruct (propose_advances reg G sa c s (sb_Target sub) data (sb_Command sub) sub HL Hw Em Hop Hat (Hf data eq_refl)) as (reg' & H1 & H2 & Hb). cbv zeta.
  destruct (sim_propose _ _ _ s) as [s1 [[x y] isLeader]]. cbn [fst] in Hb. exists reg'. split; [done|]. split; [done|].
  case_bool; (eapply both_advances; [exact Hb|apply record_calm|apply record_still]).
Qed.
End linear.
