(* ===== verification/SimHistory.v ===== *)
(** The clients of a simulated run: every operation that completes took effect in the global
    log with the answer that was recorded, and the events of the workload keep the relation
    between the clients, the simulator and the cluster, so the history is one that the log
    explains. *)

From S2P Require Import Prelude Proto RaftLog RaftNode RaftSpec Storage Server NodeFacts HostFacts Cluster Bytes WalRecords CrashStorage Safety MapSM DiskLog.
From S2P Require Import SimInvariant Checker CheckerFacts Heap SimFS Float64 FaultSchedule Workload SimLoop SimBuild SimStore WorkloadFacts SimCluster SimFrame SimRefine.
From S2P Require Import Linearize SimWork.

Section clients.
Context (marshal : Command -> result bytes) (unmarshal : bytes -> option Command).
Context (Hcodec : forall c d, marshal c = Ok d -> unmarshal d = Some c).

(** * Histories and the log *)

Notation effect G p o := (takes_effect unmarshal G p (operationCommand o)).

(** The operations of the history that returned took effect in [G] with their answers, in an
    order that respects time; none was invoked after [now]. *)
Record history_ok (h : History) (G : list Entry) (now : Z) : Prop := mkHistoryOk {
  hk_ops : forall j o, h !! j = Some o -> kv_op (in_Op (op_Input o));
  hk_done : forall j o t, h !! j = Some o -> op_ReturnTime o = Some t ->
    exists p res, effect G p o /\ answered unmarshal G p (operationCommand o) res /\ op_Output o = successfulWorkloadOutput res;
  hk_real : forall a b oa ob t p q, h !! a = Some oa -> h !! b = Some ob -> op_ReturnTime oa = Some t -> t < op_InvokeTime ob ->
    effect G p oa -> effect G q ob -> (p < q)%nat;
  hk_time : forall j o, h !! j = Some o -> op_InvokeTime o <= now;
}.

(** The commands accepted are those of operations. *)
Definition invoked (h : History) (c : Command) : Prop := exists j o, h !! j = Some o /\ c = operationCommand o.
Definition reg_from (reg : registry) (h : History) : Prop := forall k c, reg !! k = Some c -> invoked h c.

Lemma log_invoked reg h G k e c :
  reg_from reg h -> Forall (entry_ok marshal reg) G -> G !! k = Some e -> command_at unmarshal e = Some c -> invoked h c.
Proof using Hcodec.
  intros Hr HG He Hc. rewrite Forall_lookup in HG. unfold command_at in Hc. destruct (HG k e He) as [[Et _]|(Et & c' & Hc' & Hd & _)]; rewrite Et in Hc; [done|].
  rewrite (Hcodec c' _ Hd) in Hc. injection Hc as <-. by eapply Hr.
Qed.

Lemma history_grow h G G' now : G `prefix_of` G' -> history_ok h G now -> history_ok h G' now.
Proof.
  intros Hp [H1 H2 H3 H4]. split; [done| | |done].
  - intros j o t Hj Ht. destruct (H2 j o t Hj Ht) as (p & res & P1 & P2 & P3). exists p, res. split_and!; [by eapply takes_effect_grow|by eapply answered_grow|done].
  - intros a b oa ob t p q Ha Hb Ht Hlt Hep Heq. destruct (H2 a oa t Ha Ht) as (p' & res & P1 & _). pose proof P1 as (e & _ & He & _). apply lookup_lt_Some in He.
    assert (p = p') as -> by (eapply takes_effect_once; [exact Hep|by eapply takes_effect_grow|done|done]).
    destruct (decide (q < length G)%nat) as [Hq|Hq]; [|lia]. eapply (H3 a b oa ob t); try done. by eapply takes_effect_shrink.
Qed.

Lemma history_later h G now now' : now <= now' -> history_ok h G now -> history_ok h G now'.
Proof. intros Hn [H1 H2 H3 H4]. split; [done..|]. intros j o Hj. pose proof (H4 j o Hj). lia. Qed.

(** * Invocations and completions *)

Lemma sessions_distinct rec i j a b :
  rec_ok rec -> hr_history rec !! i = Some a -> hr_history rec !! j = Some b -> op_ClientID a = op_ClientID b -> op_Seq a = op_Seq b -> i = j.
Proof.
  intros Hr Hi Hj Ec Es. destruct (Nat.lt_trichotomy i j) as [Hlt|[?|Hlt]]; [|done|].
  - destruct (ro_session _ Hr i j a b Hlt Hi Hj Ec). lia.
  - destruct (ro_session _ Hr j i b a Hlt Hj Hi (eq_sym Ec)). lia.
Qed.

Lemma Invoke_spec id seq now input rec rec' :
  Invoke id seq now input rec = (rec', None) ->
  let o := mkOperation id seq now None input noOutput in
  hr_active rec !! id = None /\ hr_history rec' = hr_history rec ++ [o] /\ hr_active rec' = <[id := length (hr_history rec)]> (hr_active rec) /\
  (forall l, hr_lastSeq rec !! id = Some l -> l < seq).
Proof.
  unfold Invoke. destruct (hr_active rec !! id); [done|]. destruct (match hr_lastSeq rec !! id with Some _ => _ | None => _ end) eqn:El; [done|].
  intros [= <-]. cbn [hr_history hr_active]. split_and!; [done|by destruct input|by rewrite length_app, Nat.add_sub|]. intros l Hl. rewrite Hl in El. bool_to_prop. lia.
Qed.

Lemma history_invoke reg id seq now input rec rec' G :
  rec_ok rec -> Invoke id seq now input rec = (rec', None) -> kv_op (in_Op input) -> reg_from reg (hr_history rec) -> Forall (entry_ok marshal reg) G ->
  history_ok (hr_history rec) G now -> history_ok (hr_history rec') G now /\ reg_from reg (hr_history rec').
Proof using Hcodec.
  intros Hrec Hi Hop Hreg HG [H1 H2 H3 H4]. destruct (Invoke_spec _ _ _ _ _ _ Hi) as (_ & -> & _ & Hseq). set (o := mkOperation _ _ _ _ _ _).
  assert (forall p, ~ effect G p o) as Hno.
  { intros p (e & m & He & Hc & _). destruct (log_invoked reg _ G p e _ Hreg HG He Hc) as (j & o' & Hj & Eo). injection Eo as Ec Es _ _ _.
    destruct (ro_last _ Hrec j o' Hj) as (l & Hl & Hle). rewrite <- Ec in Hl. specialize (Hseq l Hl). lia. }
  split; [split|].
  - intros j o' [Hj|[-> ->]]%lookup_snoc_inv; [by eapply H1|done].
  - intros j o' t [Hj|[-> ->]]%lookup_snoc_inv Ht; [by eapply H2|done].
  - intros a b oa ob t p q [Ha|[-> ->]]%lookup_snoc_inv [Hb|[-> ->]]%lookup_snoc_inv Ht Hlt Hp Hq; [by eapply (H3 a b)|..]; try done; exfalso; by eapply Hno.
  - intros j o' [Hj|[-> ->]]%lookup_snoc_inv; [by eapply H4|]. cbn. lia.
  - intros k c Hk. destruct (Hreg k c Hk) as (j & o' & Hj & ->). exists j, o'. split; [by apply lookup_app_l_Some|done].
Qed.

Lemma Complete_spec id seq now out rec rec' :
  rec_ok rec -> Complete id seq now out rec = (rec', None) ->
  exists j o, hr_active rec !! id = Some j /\ hr_history rec !! j = Some o /\ op_ClientID o = id /\ op_Seq o = seq /\ op_ReturnTime o = None /\ op_InvokeTime o <= now /\
    hr_history rec' = <[j := mkOperation (op_ClientID o) (op_Seq o) (op_InvokeTime o) (Some now) (op_Input o) out]> (hr_history rec) /\
    hr_active rec' = delete id (hr_active rec).
Proof.
  intros Hrec. unfold Complete, activeIndex. destruct (hr_active rec !! id) as [j|] eqn:Ej; [|done]. destruct (ro_active _ Hrec _ _ Ej) as (o & Ho & Ec & Er). rewrite Ho.
  destruct (Z.eqb_spec (op_Seq o) seq) as [Es|]; [|done]. cbn [negb]. destruct (Z.ltb_spec now (op_InvokeTime o)); [done|]. destruct (out_Unknown out); [done|].
  intros [= <-]. exists j, o. split_and!; try done. by destruct out.
Qed.

(** The only open operation of a client is its last. *)
Lemma open_last rec j o i o' : rec_ok rec -> hr_history rec !! j = Some o -> op_ReturnTime o = None -> hr_history rec !! i = Some o' -> op_ClientID o' = op_ClientID o -> op_Seq o' <= op_Seq o.
Proof.
  intros Hrec Hj Hr Hi Ec. destruct (Nat.lt_trichotomy i j) as [Hlt|[->|Hlt]].
  - destruct (ro_session _ Hrec i j o' o Hlt Hi Hj Ec). lia.
  - assert (o' = o) as -> by congruence. lia.
  - destruct (ro_session _ Hrec j i o o' Hlt Hj Hi (eq_sym Ec)) as [_ [t Ht]]. congruence.
Qed.

(** A completion records an answer of the log. *)
Lemma history_complete reg id seq now p c res rec rec' G :
  rec_ok rec -> Complete id seq now (successfulWorkloadOutput res) rec = (rec', None) -> answered unmarshal G p c res -> ClientId c = id -> Seq c = seq ->
  reg_from reg (hr_history rec) -> Forall (entry_ok marshal reg) G ->
  history_ok (hr_history rec) G now -> history_ok (hr_history rec') G now /\ reg_from reg (hr_history rec').
Proof using Hcodec.
  intros Hrec Hcom Hans Ec Es Hreg HG [H1 H2 H3 H4]. destruct (Complete_spec _ _ _ _ _ _ Hrec Hcom) as (j & o & _ & Hj & Eo & Eq & Hopen & Htime & -> & _).
  assert (forall k e c', G !! k = Some e -> command_at unmarshal e = Some c' -> exists i o', hr_history rec !! i = Some o' /\ c' = operationCommand o') as Hfrom
    by (intros k e c'; by apply (log_invoked reg)).
  assert (forall c' k, takes_effect unmarshal G k c' -> ClientId c' = id -> Seq c' = seq -> c' = operationCommand o) as Hsame.
  { intros c' k (e & _ & He & Hc & _) Ec' Es'. destruct (Hfrom k e c' He Hc) as (i & o' & Hi & ->). cbn in Ec', Es'.
    assert (i = j) as -> by (eapply (sessions_distinct rec); [done|exact Hi|exact Hj|congruence|congruence]). congruence. }
  destruct (first_answer unmarshal G p c res) as (k & c' & Hk & Ec' & Es' & Hans'); [|done|].
  { intros k e c' He Hc Ec'. destruct (Hfrom k e c' He Hc) as (i & o' & Hi & ->). cbn in *. rewrite Es, <- Eq. eapply (open_last rec j o i o'); (done || congruence). }
  assert (c' = operationCommand o) as -> by (apply (Hsame c' k Hk); congruence).
  set (o1 := mkOperation _ _ _ _ _ _). assert (operationCommand o1 = operationCommand o) as E1 by done.
  assert (forall i x, <[j := o1]> (hr_history rec) !! i = Some x -> exists y, hr_history rec !! i = Some y /\ operationCommand y = operationCommand x /\
    op_Input y = op_Input x /\ op_InvokeTime y = op_InvokeTime x /\ ((i = j /\ x = o1) \/ y = x)) as Hold.
  { intros i x [[-> ->]|[Hne Hi]]%lookup_insert_inv; [exists o; split_and!; try done; by left|exists x; split_and!; try done; by right]. }
  split; [split|].
  - intros i x (y & Hy & _ & <- & _)%Hold. by eapply H1.
  - intros i x t (y & Hy & Ey & _ & _ & Hor)%Hold Ht. destruct Hor as [[-> ->]| ->]; [|by eapply H2]. exists k, res. rewrite E1. done.
  - intros a b oa ob t p' q (ya & Ha & Ea & _ & Ia & Hora)%Hold (yb & Hb & Eb & _ & Ib & _)%Hold Ht Hlt Hp Hq. rewrite <- Ea in Hp. rewrite <- Eb in Hq.
    destruct Hora as [[-> ->]| ->]; [|eapply (H3 a b oa yb t); (done || congruence)]. cbn in Ht. injection Ht as <-. pose proof (H4 b yb Hb). lia.
  - intros i x (y & Hy & _ & _ & <- & _)%Hold. by eapply H4.
  - intros key x Hx. destruct (Hreg key x Hx) as (i & y & Hy & ->). destruct (decide (i = j)) as [->|Hne].
    + exists j, o1. assert (y = o) as -> by congruence. split; [|done]. apply list_lookup_insert_eq. by eapply lookup_lt_Some.
    + exists i, y. by rewrite list_lookup_insert_ne.
Qed.

(** * The runner *)

(** The operation of a client is its open one of the history. *)
Definition active_ok (rec : HistoryRecorder) (c : wclient) : Prop :=
  forall op, cl_active c = Some op -> exists j o, hr_active rec !! cl_id c = Some j /\ hr_history rec !! j = Some o /\
    op_ClientID o = cl_id c /\ op_Seq o = lo_seq op /\ lo_command op = operationCommand o.

(** The clients have identifiers of their own and sound random sources. *)
Definition clients_ok (cs : list wclient) : Prop :=
  (forall i j c c', cs !! i = Some c -> cs !! j = Some c' -> cl_id c = cl_id c' -> i = j) /\
  (forall i c, cs !! i = Some c -> rand_ok (gen_rnd (cl_generator c))).

(** [byID] finds every client. *)
Definition indexed (byID : gmap Z nat) (cs : list wclient) : Prop := forall i c, cs !! i = Some c -> byID !! cl_id c = Some i.

Record runner_ok (r : Runner) : Prop := mkRunnerOk {
  rk_rec : rec_ok (rn_recorder r);
  rk_clients : clients_ok (rn_clients r);
  rk_index : indexed (rn_byID r) (rn_clients r);
  rk_active : forall i c, rn_clients r !! i = Some c -> active_ok (rn_recorder r) c;
}.

Lemma clients_insert cs i c c' : clients_ok cs -> cs !! i = Some c -> cl_id c' = cl_id c -> rand_ok (gen_rnd (cl_generator c')) -> clients_ok (<[i := c']> cs).
Proof.
  intros [H2 H4] Hi Ec Hr. split.
  - intros a b x y [[-> ->]|[Hna Hx]]%lookup_insert_inv [[-> ->]|[Hnb Hy]]%lookup_insert_inv Exy; [done|..].
    + by eapply (H2 i b c y); [| |congruence].
    + by eapply (H2 a i x c); [| |congruence].
    + by eapply (H2 a b x y).
  - intros j x [[-> ->]|[_ Hx]]%lookup_insert_inv; [done|by eapply H4].
Qed.

Lemma indexed_insert byID cs i c c' : indexed byID cs -> cs !! i = Some c -> cl_id c' = cl_id c -> indexed byID (<[i := c']> cs).
Proof. intros H Hi Ec j x [[-> ->]|[_ Hx]]%lookup_insert_inv; [rewrite Ec; by apply H|by apply H]. Qed.

Lemma runner_client r i c c' :
  runner_ok r -> rn_clients r !! i = Some c -> cl_id c' = cl_id c -> rand_ok (gen_rnd (cl_generator c')) -> active_ok (rn_recorder r) c' -> runner_ok (set_client i c' r).
Proof.
  intros [H1 H2 Hx H3] Hi Ec Hr Ha. split; cbn [rn_recorder rn_clients rn_byID set_client]; [done|by eapply clients_insert|by eapply indexed_insert|]. clear Hx.
  intros j x [[-> ->]|[_ Hx]]%lookup_insert_inv; [done|by eapply H3].
Qed.

(** A change of the client's own operation that keeps its number and command. *)
Lemma active_same rec c c' op op' :
  active_ok rec c -> cl_active c = Some op -> cl_id c' = cl_id c -> cl_active c' = Some op' -> lo_seq op' = lo_seq op -> lo_command op' = lo_command op -> active_ok rec c'.
Proof.
  intros Ha Hop Ec Hop' Es Em x Hx. assert (x = op') as -> by congruence. destruct (Ha op Hop) as (j & o & H1 & H2 & H3 & H4 & H5).
  exists j, o. rewrite Ec, Es, Em. done.
Qed.

Lemma gen_Next_kv seq g : rand_ok (gen_rnd g) -> kv_op (in_Op (gen_Next seq g).2) /\ rand_ok (gen_rnd (gen_Next seq g).1).
Proof.
  intros Hr. unfold gen_Next. destruct (IntN (gen_rnd g) 3) as [d r1] eqn:E1. destruct (IntN r1 (gen_keyCount g)) as [k r2] eqn:E2. unfold IntN in E1, E2.
  injection E1 as <- <-. injection E2 as <- <-. cbn [fst snd in_Op gen_rnd rand_fn]. split; [|done].
  pose proof (Hr (rand_calls (gen_rnd g)) 3 ltac:(lia)) as Hd. set (x := rand_fn _ _ _) in *. clearbody x. assert (x = 0 \/ x = 1 \/ x = 2) as [-> | [-> | ->]] by lia; unfold kv_op; cbn; tauto.
Qed.

(** The recorder after an invocation by a client that is idle. *)
Lemma runner_invoke r i c c' op seq now input rec' :
  runner_ok r -> rn_clients r !! i = Some c -> Invoke (cl_id c) seq now input (rn_recorder r) = (rec', None) -> cl_id c' = cl_id c -> rand_ok (gen_rnd (cl_generator c')) ->
  cl_active c' = Some op -> lo_seq op = seq -> lo_command op = commandFor (cl_id c) seq input -> runner_ok (set_recorder rec' (set_client i c' r)).
Proof.
  intros [H1 H2 Hix H3] Hi Hinv Ec Hr Hop Es Em. pose proof (Invoke_ok (cl_id c) seq now input (rn_recorder r) H1) as Hrec. rewrite Hinv in Hrec.
  destruct (Invoke_spec _ _ _ _ _ _ Hinv) as (Hno & Eh & Ea & _). cbn [fst] in Hrec.
  split; cbn [rn_recorder rn_clients rn_byID set_client set_recorder]; [done|by eapply clients_insert|by eapply indexed_insert|].
  intros j x [[-> ->]|[Hne Hx]]%lookup_insert_inv y Hy.
  - assert (y = op) as -> by congruence. eexists _, _. rewrite Ec, Ea, lookup_insert_eq, Eh. split; [done|]. split; [by apply list_lookup_middle|].
    split_and!; [done|done|]. rewrite Em. by destruct input.
  - destruct (H3 j x Hx y Hy) as (k & o & P1 & P2 & P3). exists k, o. rewrite Ea, Eh, lookup_insert_ne by congruence. split; [done|]. split; [by apply lookup_app_l_Some|done].
Qed.

(** The recorder after the completion of a client's operation. *)
Lemma runner_complete r i c c' seq now out rec' :
  runner_ok r -> rn_clients r !! i = Some c -> Complete (cl_id c) seq now out (rn_recorder r) = (rec', None) -> cl_id c' = cl_id c -> rand_ok (gen_rnd (cl_generator c')) ->
  cl_active c' = None -> runner_ok (set_recorder rec' (set_client i c' r)).
Proof.
  intros [H1 H2 Hix H3] Hi Hcom Ec Hr Hop. pose proof (Complete_ok (cl_id c) seq now out (rn_recorder r) H1) as Hrec. rewrite Hcom in Hrec.
  destruct (Complete_spec _ _ _ _ _ _ H1 Hcom) as (k0 & o0 & Hk0 & Ho0 & _ & _ & _ & _ & Eh & Ea). cbn [fst] in Hrec.
  split; cbn [rn_recorder rn_clients rn_byID set_client set_recorder]; [done|by eapply clients_insert|by eapply indexed_insert|].
  intros j x [[-> ->]|[Hne Hx]]%lookup_insert_inv y Hy; [congruence|].
  assert (cl_id x <> cl_id c) as Hid by (intros Eid; apply Hne; by eapply (proj1 H2)).
  destruct (H3 j x Hx y Hy) as (k & o & P1 & P2 & P3 & P4). assert (k <> k0) as Hk.
  { intros ->. assert (o = o0) as -> by congruence. destruct (ro_active _ H1 _ _ Hk0) as (o' & Ho' & Ec' & _). congruence. }
  exists k, o. rewrite Ea, Eh, lookup_delete_ne by congruence. rewrite list_lookup_insert_ne by done. done.
Qed.
End clients.

Section history.
Context (marshal : Command -> result bytes) (unmarshal : bytes -> option Command).
Context (Hcodec : forall c d, marshal c = Ok d -> unmarshal d = Some c).
Context (cfgs : Z -> Config) (ids : list Z) (Hcfg : cluster_cfg cfgs ids).

#[local] Hint Extern 0 (SimEngine unit MapSM) => exact (map_engine unmarshal) : typeclass_instances.
Notation simulator := (Simulator unit MapSM).
Notation ideal := (cluster (S := MemStorage)).
#[local] Hint Extern 0 (WorkloadHost _) => exact (simulator_WorkloadHost marshal) : typeclass_instances.
Notation history_of r := (hr_history (rn_recorder r)).
Notation LR := (LR marshal unmarshal cfgs ids).

(** * The relation *)

Record WR (reg : registry) (G : list Entry) (sa : astate) (c : ideal) (r : Runner) (s : simulator) : Prop := mkWR {
  wr_lr : LR reg G sa c s;
  wr_runner : runner_ok r;
  wr_history : history_ok unmarshal (history_of r) G (s_now s);
  wr_reg : reg_from reg (history_of r);
  wr_work : s_workload s <> None;
}.

(** What a handler of the runner returns, from [c] and [s] on. *)
Definition served (c : ideal) (s : simulator) (x : handled (H := simulator)) : Prop :=
  (exists reg G sa c', rtc (cstep cfgs ids) c c' /\ WR reg G sa c' x.1.1 x.1.2) /\ keeps s x.1.2.

Lemma served_refl reg G sa c r s err : WR reg G sa c r s -> served c s (r, s, err).
Proof. intros HW. split; [|reflexivity]. by exists reg, G, sa, c. Qed.

Lemma WR_same_history reg G sa c r r' s : WR reg G sa c r s -> runner_ok r' -> history_of r' = history_of r -> WR reg G sa c r' s.
Proof. intros [H1 H2 H3 H4 H5] Hr Eh. split; rewrite ?Eh; done. Qed.

Lemma WR_schedule reg G sa c r s t we : we_Kind we <> EventApplied -> WR reg G sa c r s -> WR reg G sa c r (pushAt t (eventWorkload we) s).
Proof.
  intros Hk [[L1 L2 L3 L4] H2 H3 H4 H5]. split; [|done..]. split; [|done|done|].
  - eapply SR_calm; [exact L1|by apply pushAt_calm].
  - apply host_push; [by intros Hx|done].
Qed.

Lemma schedule_keeps t we (s : simulator) : keeps s (pushAt t (eventWorkload we) s).
Proof. by apply quiet_keeps, pushAt_calm. Qed.

Lemma runner_work (s s' : simulator) : keeps s s' -> s_workload s <> None -> s_workload s' <> None.
Proof. intros Hk Hw. pose proof (kp_runner _ _ Hk) as E. unfold runner_of in E. by destruct (s_workload s'), (s_workload s). Qed.

Lemma WR_cancel reg G sa c r s a : WR reg G sa c r s -> WR reg G sa c r (cancelWorkloadAttempt a s) /\ keeps s (cancelWorkloadAttempt a s).
Proof.
  intros [[L1 L2 L3 L4] H2 H3 H4 H5]. pose proof (cancelWorkloadAttempt_calm a s H5) as Hc. pose proof (quiet_keeps _ _ (proj1 Hc)) as Hk. split; [|done].
  split; [|done|by rewrite (kp_now _ _ Hk)|done|by eapply runner_work]. split; [by eapply SR_calm|done|done|]. by apply cancel_host.
Qed.

(** The runner goes on with a client whose operation has another state. *)
Lemma WR_client reg G sa c r s i cl op cl' op' :
  WR reg G sa c r s -> rn_clients r !! i = Some cl -> cl_active cl = Some op -> cl_id cl' = cl_id cl -> cl_generator cl' = cl_generator cl ->
  cl_active cl' = Some op' -> lo_seq op' = lo_seq op -> lo_command op' = lo_command op -> WR reg G sa c (set_client i cl' r) s.
Proof.
  intros HW Hi Hop Ec Eg Hop' Es Em. eapply WR_same_history; [exact HW| |done]. pose proof (wr_runner _ _ _ _ _ _ HW) as Hr.
  eapply runner_client; [done|exact Hi|done| |].
  - rewrite Eg. by eapply (proj2 (rk_clients _ Hr)).
  - eapply active_same; [by eapply (rk_active _ Hr)|done..].
Qed.

Lemma WR_attempt reg G sa c r s a : WR reg G sa c r s -> WR reg G sa c (add_attempt a r) s.
Proof. intros HW. eapply WR_same_history; [exact HW| |done]. destruct (wr_runner _ _ _ _ _ _ HW). by split. Qed.

(** * Submitting *)

Lemma scheduleRetry_served reg G sa c r s i : WR reg G sa c r s -> served c s (scheduleRetry i r s).
Proof.
  intros HW. unfold scheduleRetry, clientAt. destruct (rn_clients r !! i) as [cl|]; [|by eapply served_refl]. destruct (cl_active cl) as [op|]; [|by eapply served_refl].
  cbv zeta. case_bool; [by eapply served_refl|]. split; [|apply schedule_keeps]. exists reg, G, sa, c. split; [done|]. by apply WR_schedule.
Qed.

Lemma served_from c c1 (s s1 : simulator) x : rtc (cstep cfgs ids) c c1 -> keeps s s1 -> served c1 s1 x -> served c s x.
Proof. intros Hc Hk [(reg & G & sa & c' & Hc' & HW) Hk']. split; [|by etrans]. exists reg, G, sa, c'. split; [by etrans|done]. Qed.

(** The command fits, at whichever node it is proposed. *)
Definition command_fits (cmd : Command) (s : simulator) : Prop := forall data, marshal cmd = Ok data -> forall i, fits_event i (EvPropose data) s.

Lemma command_fits_nodes cmd (s s' : simulator) : s_nodes s' = s_nodes s -> command_fits cmd s -> command_fits cmd s'.
Proof. intros En Hf data Hd i. unfold fits_event. rewrite En. by apply Hf. Qed.

Lemma submit_served reg G sa c r s i retry cl op :
  WR reg G sa c r s -> rn_clients r !! i = Some cl -> cl_active cl = Some op -> command_fits (lo_command op) s -> served c s (submit i retry r s).
Proof using Hcfg Hcodec.
  intros HW Hi Hop Hf. unfold submit, clientAt. rewrite Hi, Hop. destruct (if retry then Retry _ _ _ else None); [by eapply served_refl|]. cbv zeta.
  destruct (wc_Targets (rn_config r) !! Z.to_nat (cl_targetCursor cl)) as [target|]; [|by eapply served_refl].
  set (op1 := with_waiting true _). set (cl1 := with_active (Some op1) _). set (sub := mkSubmission _ _ _).
  destruct (rk_active _ (wr_runner _ _ _ _ _ _ HW) i cl Hi op Hop) as (j & o & _ & Hj & Eo & Es & Em).
  assert (sb_Command sub = operationCommand o) as Esub by (unfold sub; cbn [sb_Command]; by rewrite cloneCommand_id).
  destruct (host_Submit_advances marshal unmarshal Hcodec cfgs ids Hcfg reg G sa c s sub (wr_lr _ _ _ _ _ _ HW) (wr_work _ _ _ _ _ _ HW))
    as (reg' & Hsub & Hnew & (c' & sa' & G' & Hc' & Hp & HL') & Hk).
  { rewrite Esub. by eapply (hk_ops _ _ _ _ (wr_history _ _ _ _ _ _ HW)). }
  { rewrite Esub. done. }
  { rewrite Esub, <- Em. intros data Hd. by apply Hf. }
  assert (WR reg' G' sa' c' r (host_Submit marshal sub s).1) as HW1.
  { destruct HW as [W1 W2 W3 W4 W5]. split; [done|done| | |by eapply runner_work].
    - rewrite (kp_now _ _ Hk). by eapply history_grow.
    - intros key x [Hx|Hx]%Hnew; [by eapply W4|]. rewrite Esub in Hx. by exists j, o. }
  change (wh_Submit sub s) with (host_Submit marshal sub s). destruct (host_Submit marshal sub s) as [s1 [status|e]]; cbn [fst] in *.
  - assert (WR reg' G' sa' c' (set_client i cl1 r) s1) as HW2 by (by eapply WR_client). destruct status.
    + split; [|done]. exists reg', G', sa', c'. split; [done|]. by apply WR_attempt.
    + eapply served_from; [exact Hc'|exact Hk|]. eapply scheduleRetry_served. eapply (WR_client _ _ _ _ _ _ i cl1 op1); [by apply WR_attempt| |done..].
      by eapply set_client_lookup.
  - split; [|done]. exists reg', G', sa', c'. split; [done|]. cbn [fst snd].
    eapply (WR_client _ _ _ _ _ _ i cl1 op1); [by eapply WR_client|by eapply set_client_lookup|done..].
Qed.

Lemma scheduleDeadline_served reg G sa c r s i cl op r' s' :
  WR reg G sa c r s -> rn_clients r !! i = Some cl -> cl_active cl = Some op -> scheduleDeadline i r s = (r', s') ->
  WR reg G sa c r' s' /\ keeps s s' /\ s_nodes s' = s_nodes s /\
  exists cl' op', rn_clients r' !! i = Some cl' /\ cl_active cl' = Some op' /\ lo_command op' = lo_command op.
Proof.
  intros HW Hi Hop. unfold scheduleDeadline. rewrite Hi, Hop. cbv zeta. intros [= <- <-]. split_and!.
  - apply WR_schedule; [done|]. by eapply WR_client.
  - apply schedule_keeps.
  - done.
  - eexists _, _. split; [by eapply set_client_lookup|]. done.
Qed.

(** * Handlers *)

Lemma handleStart_served reg G sa c r s i :
  WR reg G sa c r s -> (forall cmd, pendingCommand i r = Some cmd -> command_fits cmd s) -> served c s (handleStart i r s).
Proof using Hcfg Hcodec.
  intros HW Hf. unfold handleStart, clientAt. unfold pendingCommand in Hf. destruct (rn_clients r !! i) as [cl|] eqn:Hi; [|by eapply served_refl].
  destruct (cl_active cl) as [op|] eqn:Ha; [by eapply served_refl|]. case_bool; [by eapply served_refl|]. cbv zeta.
  pose proof (wr_runner _ _ _ _ _ _ HW) as Hr. pose proof (gen_Next_kv (cl_nextSeq cl) (cl_generator cl) (proj2 (rk_clients _ Hr) i cl Hi)) as [Hkv Hrand].
  destruct (gen_Next (cl_nextSeq cl) (cl_generator cl)) as [g input] eqn:Eg. cbn [fst snd] in *.
  destruct (Invoke (cl_id cl) (cl_nextSeq cl) (wh_Now s) input (rn_recorder r)) as [rec [e|]] eqn:Ei.
  - assert (rec = rn_recorder r) as -> by (unfold Invoke in Ei; repeat case_match; congruence). eapply served_refl.
    eapply (WR_same_history _ _ _ _ r); [exact HW| |done]. destruct (runner_client r i cl (mkClient (cl_id cl) (cl_nextSeq cl) (cl_generated cl) (cl_completed cl) (cl_targetCursor cl) g None) Hr Hi) as [R1 R2 R3]; [done|done|by intros x [=]|]. by split.
  - set (op := mkLogicalOperation _ _ _ _ _ _ _). set (cl2 := mkClient _ _ _ _ _ _ _). destruct HW as [W1 W2 W3 W4 W5].
    destruct (history_invoke marshal unmarshal Hcodec reg _ _ _ _ _ _ G (rk_rec _ Hr) Ei Hkv W4 (lr_entries _ _ _ _ _ _ _ _ _ W1) W3) as [W3' W4'].
    assert (WR reg G sa c (set_recorder rec (set_client i cl2 r)) s) as HW.
    { split; [done| |done|done|done]. eapply (runner_invoke r i cl cl2 op); done. }
    destruct (scheduleDeadline i _ s) as [r2 s2] eqn:Es.
    destruct (scheduleDeadline_served _ _ _ _ _ _ i cl2 op r2 s2 HW (set_client_lookup i cl2 r cl Hi) eq_refl Es) as (HW2 & Hk & En & cl' & op' & Hcl' & Hop' & Ec).
    eapply served_from; [done|exact Hk|]. eapply submit_served; [exact HW2|exact Hcl'|exact Hop'|]. rewrite Ec. eapply command_fits_nodes; [exact En|]. by apply Hf.
Qed.

Lemma handleRetry_served reg G sa c r s i event :
  WR reg G sa c r s -> (forall cmd, pendingCommand i r = Some cmd -> command_fits cmd s) -> served c s (handleRetry i event r s).
Proof using Hcfg Hcodec.
  intros HW Hf. unfold handleRetry, clientAt. unfold pendingCommand in Hf. destruct (rn_clients r !! i) as [cl|] eqn:Hi; [|by eapply served_refl].
  destruct (cl_active cl) as [op|] eqn:Ha; [|by eapply served_refl]. cbv zeta. case_bool; [by eapply served_refl|]. case_bool; [by eapply served_refl|].
  case_bool; [by eapply served_refl|]. specialize (Hf _ eq_refl). destruct (lo_timedOut op); [|by eapply submit_served].
  set (op1 := with_deadline _ _ _). set (cl1 := with_active _ _). destruct (scheduleDeadline i _ s) as [r2 s2] eqn:Es.
  assert (WR reg G sa c (set_client i cl1 r) s) as HW1 by (by eapply WR_client).
  destruct (scheduleDeadline_served _ _ _ _ _ _ i cl1 op1 r2 s2 HW1 (set_client_lookup i cl1 r cl Hi) eq_refl Es) as (HW2 & Hk & En & cl' & op' & Hcl' & Hop' & Ec).
  eapply served_from; [done|exact Hk|]. eapply submit_served; [exact HW2|exact Hcl'|exact Hop'|]. rewrite Ec. by eapply command_fits_nodes.
Qed.

Lemma handleDeadline_served reg G sa c r s i event : WR reg G sa c r s -> served c s (handleDeadline i event r s).
Proof.
  intros HW. unfold handleDeadline, clientAt. destruct (rn_clients r !! i) as [cl|] eqn:Hi; [|by eapply served_refl].
  destruct (cl_active cl) as [op|] eqn:Ha; [|by eapply served_refl]. case_bool; [by eapply served_refl|]. cbv zeta.
  match goal with |- context [wh_Now ?x] => assert (WR reg G sa c r x /\ keeps s x) as [HW1 Hk]; [|set (s1 := x) in *] end.
  { destruct (lo_waiting op); [by apply WR_cancel|split; [done|reflexivity]]. }
  destruct (RecordTimeout _ _ _ _); (split; [|done]); exists reg, G, sa, c; (split; [done|]); [done|]. by eapply WR_client.
Qed.

(** An answer completes the client's operation only if it is one of the log. *)
Lemma handleApplied_served reg G sa c r s i event :
  WR reg G sa c r s -> we_Kind event = EventApplied -> answer_ok unmarshal G event -> served c s (handleApplied i event r s).
Proof using Hcodec.
  intros HW Hk Hans. unfold handleApplied, clientAt. destruct (rn_clients r !! i) as [cl|] eqn:Hi; [|by eapply served_refl].
  destruct (cl_active cl) as [op|] eqn:Ha; [|by eapply served_refl]. destruct (matchesWaitingAttempt cl (we_AttemptID event)) eqn:Em; [|by eapply served_refl]. cbn [negb].
  destruct (Complete _ _ _ _ _) as [rec [e|]] eqn:Ec.
  { assert (rec = rn_recorder r) as -> by (unfold Complete in Ec; repeat case_match; congruence). eapply served_refl. eapply (WR_same_history _ _ _ _ r); [exact HW| |done].
    destruct (wr_runner _ _ _ _ _ _ HW). by split. }
  destruct (Hans Hk) as (p & cmd & res & Hp & Eout & Eid & Eseq). rewrite Eout in Ec. unfold matchesWaitingAttempt in Em. rewrite Ha in Em.
  apply andb_true_iff in Em as [[[_ Em1%Z.eqb_eq]%andb_true_iff Em2%Z.eqb_eq]%andb_true_iff _]. destruct HW as [W1 W2 W3 W4 W5].
  destruct (history_complete marshal unmarshal Hcodec reg (cl_id cl) (lo_seq op) (s_now s) p cmd res _ rec G (rk_rec _ W2) Ec Hp ltac:(congruence) ltac:(congruence) W4 (lr_entries _ _ _ _ _ _ _ _ _ W1) W3) as [W3' W4'].
  cbv zeta. set (cl1 := mkClient _ _ _ _ _ _ _). assert (WR reg G sa c (set_recorder rec (set_client i cl1 r)) s) as HW.
  { split; [done| |done|done|done]. eapply (runner_complete r i cl cl1); [exact W2|exact Hi|exact Ec|done| |done]. exact (proj2 (rk_clients _ W2) i cl Hi). }
  case_bool; [|by eapply served_refl]. split; [|apply schedule_keeps]. exists reg, G, sa, c. split; [done|]. by apply WR_schedule.
Qed.

Lemma handleLeadershipLost_served reg G sa c r s i event : WR reg G sa c r s -> served c s (handleLeadershipLost i event r s).
Proof.
  intros HW. unfold handleLeadershipLost, clientAt. destruct (rn_clients r !! i) as [cl|] eqn:Hi; [|by eapply served_refl].
  destruct (cl_active cl) as [op|] eqn:Ha; [|by eapply served_refl]. case_bool; [by eapply served_refl|]. eapply scheduleRetry_served. by eapply WR_client.
Qed.

Lemma runner_Handle_served reg G sa c r s event :
  WR reg G sa c r s -> answer_ok unmarshal G event -> (forall cmd, nextCommand event r = Some cmd -> command_fits cmd s) -> served c s (runner_Handle event r s).
Proof using Hcfg Hcodec.
  intros HW Hans Hf. unfold runner_Handle. unfold nextCommand in Hf. destruct (rn_byID r !! _) as [i|]; [|by eapply served_refl]. destruct (we_Kind event) eqn:Ek.
  - by eapply handleStart_served.
  - by eapply handleRetry_served.
  - by eapply handleDeadline_served.
  - by eapply handleApplied_served.
  - by eapply handleLeadershipLost_served.
  - by eapply served_refl.
Qed.
End history.
