(* ===== verification/SimLinearizable.v ===== *)
(** The histories of simulated runs are linearizable: a run with the map state machine and a
    workload, with whatever crashes, restarts, losses, duplicates, partitions, pauses and
    skewed clocks its schedule has, records a history that its global log explains. *)

From stdpp Require Import functions.
From S2P Require Import Prelude Proto RaftLog RaftNode RaftSpec Storage Server NodeFacts HostFacts Cluster SimCluster Bytes WalRecords CrashStorage Safety.
From S2P Require Import MapSM Checker CheckerFacts SimInvariant DiskLog SimFS Float64 FaultSchedule Heap Workload SimLoop SimBuild WorkloadFacts SimStore SimFrame SimRefine SimSafety SimTime SimRuns Linearize SimWork SimHistory.

Section run.
Context (marshal : Command -> result bytes) (unmarshal : bytes -> option Command).
Context (Hcodec : forall c d, marshal c = Ok d -> unmarshal d = Some c).

#[local] Hint Extern 0 (SimEngine unit MapSM) => exact (map_engine unmarshal) : typeclass_instances.
#[local] Hint Extern 0 (WorkloadHost _) => exact (simulator_WorkloadHost marshal) : typeclass_instances.
Notation simulator := (Simulator unit MapSM).
Notation nobody := (fun _ : Z => False).

(** A turn of the loop whose event, and the clock with it, stay in the range of their types,
    or a call of a scenario that proposes nothing and schedules nothing for a time that has
    passed. *)
Inductive work_step (ids : list Z) (s : simulator) : simulator -> Prop :=
  | ws_event ev queue :
      heap_pop eventLess (s_queue s) = Some (ev, queue) -> event_fits marshal ids ev s -> clock_fits (dequeued ev queue s) ->
      work_step ids s (handleEvent marshal ev (dequeued ev queue s))
  | ws_call s' : sim_call ids s s' -> schedules_ahead s s' -> work_step ids s s'.

Section steps.
Context (cfgs : Z -> Config) (ids : list Z) (Hcfg : cluster_cfg cfgs ids).
Notation WR := (WR marshal unmarshal cfgs ids).
Notation LR := (LR marshal unmarshal cfgs ids).

(** The state of a run: the history of its workload is explained. *)
Definition explained (s : simulator) : Prop := exists reg G sa c w, s_workload s = Some w /\ WR reg G sa c (sw_runner w) s.

(** The runner is kept, and the log grows. *)
Lemma advances_explained reg G sa c w s s' :
  WR reg G sa c (sw_runner w) s -> s_workload s = Some w -> advances marshal unmarshal cfgs ids reg G c s' /\ keeps s s' -> explained s'.
Proof.
  intros [W1 W2 W3 W4 W5] Hw [(c' & sa' & G' & _ & Hp & HL) Hk]. pose proof (kp_runner _ _ Hk) as Er. unfold runner_of in Er. rewrite Hw in Er.
  destruct (s_workload s') as [w'|] eqn:Hw'; [|done]. cbn in Er. injection Er as Er. exists reg, G', sa', c', w'. split; [done|]. rewrite Er.
  split; [done|done| |done|by rewrite Hw']. rewrite (kp_now _ _ Hk). by eapply history_grow.
Qed.

Lemma LR_dequeued reg G sa c s ev queue :
  LR reg G sa c s -> heap_pop eventLess (s_queue s) = Some (ev, queue) ->
  LR reg G sa c (dequeued ev queue s) /\ (forall m, se_kind ev = eventMessage m -> m ∈ net c) /\ known (dequeued ev queue s) (se_kind ev) /\
  (forall we, se_kind ev = eventWorkload we -> answer_ok unmarshal G we).
Proof.
  intros [L1 L2 L3 L4] Hp. destruct (SR_dequeued cfgs ids _ _ sa c s ev queue L1 Hp) as (HR & Hm & Hkn). pose proof (heap_pop_perm _ _ _ _ Hp) as Hperm.
  split; [|split; [done|split; [done|]]].
  - split; [done|done|done|]. eapply (host_still _ _ _ _ s); [|done|exact L4]. split; [done| |intros i sn Hi; by exists sn].
    intros e He. left. rewrite Hperm. by apply list_elem_of_further.
  - intros we Hk. apply (ho_events _ _ _ _ _ L4 ev); [rewrite Hperm; apply list_elem_of_here|done].
Qed.

Lemma submission_command payload (s : simulator) r reg sa c :
  SR cfgs ids (entry_ok marshal reg) (registered reg) sa c s -> runner_of s = Some r -> submission_fits marshal ids payload s ->
  forall cmd, nextCommand payload r = Some cmd -> command_fits marshal cmd s.
Proof.
  intros HR Hr Hf cmd Hc data Hd i. unfold submission_fits in Hf. rewrite Hr, Hc, Hd in Hf. rewrite Forall_forall in Hf.
  destruct (decide (i ∈ ids)) as [Hi|Hi]; [by apply Hf|]. unfold fits_event. destruct (s_nodes s !! i) as [sn|] eqn:Hsn; [|done].
  destruct Hi. by eapply (sr_nodes _ _ _ _ _ _ _ HR).
Qed.

(** The runner is put back. *)
Lemma WR_set_runner reg G sa c r s err :
  WR reg G sa c r s -> exists w, s_workload (set_runner r err s) = Some w /\ WR reg G sa c (sw_runner w) (set_runner r err s).
Proof.
  intros [[L1 L2 L3 L4] W2 W3 W4 W5]. unfold set_runner. destruct (s_workload s) as [w|] eqn:Ew; [|done]. eexists. split; [done|].
  split; [|done..]. split; [by apply SR_set_workload|done|done|]. apply host_pending; [|done]. intros key p. by apply (ho_pending _ _ _ _ _ L4 w key p Ew).
Qed.

(** An event of the workload. *)
Lemma workload_explained reg G sa c w s payload :
  WR reg G sa c (sw_runner w) s -> s_workload s = Some w -> answer_ok unmarshal G payload -> submission_fits marshal ids payload s ->
  explained (handleWorkloadEvent marshal payload s).
Proof using Hcfg Hcodec.
  intros HW Hw Hans Hf. unfold handleWorkloadEvent. rewrite Hw. destruct (s_runErr s); [by exists reg, G, sa, c, w|].
  assert (runner_of s = Some (sw_runner w)) as Hr by (unfold runner_of; by rewrite Hw).
  destruct (runner_Handle_served marshal unmarshal Hcodec cfgs ids Hcfg reg G sa c (sw_runner w) s payload HW Hans) as [(reg' & G' & sa' & c' & _ & HW') Hk].
  { eapply submission_command; [apply HW|done|done]. }
  destruct (runner_Handle payload (sw_runner w) s) as [[r s1] err]. cbn [fst snd] in HW', Hk.
  destruct err as [e|].
  - destruct (WR_set_runner _ _ _ _ _ _ (Some ("sim: workload event: " +:+ e)) HW') as (w' & E' & [L W2 W3 W4 W5]). exists reg', G', sa', c', w'. split; [done|].
    split; [|done..]. eapply LR_calm; [exact L|apply record_calm|apply record_still].
  - destruct (WR_set_runner _ _ _ _ _ _ (s_runErr s1) HW') as (w' & E' & HS). by exists reg', G', sa', c', w'.
Qed.

Lemma event_explained ev queue s :
  explained s -> heap_pop eventLess (s_queue s) = Some (ev, queue) -> s_now s <= se_time ev -> event_fits marshal ids ev s ->
  explained (handleEvent marshal ev (dequeued ev queue s)).
Proof using Hcfg Hcodec.
  intros (reg & G & sa & c & w & Hw & [W1 W2 W3 W4 W5]) Hp Htime Hf. destruct (LR_dequeued reg G sa c s ev queue W1 Hp) as (HL & Hm & Hkn & Hans).
  set (s0 := dequeued ev queue s) in *. assert (s_workload s0 = Some w) as Hw0 by exact Hw. assert (WR reg G sa c (sw_runner w) s0) as HW.
  { split; [done|done|by eapply history_later|done|by rewrite Hw0]. }
  assert (event_fits marshal ids ev s0) as Hf0 by exact Hf. clearbody s0. clear Hf Htime Hp W1 W2 W3 W4 W5 Hw.
  assert (forall s', advances marshal unmarshal cfgs ids reg G c s' /\ keeps s0 s' -> explained s') as Hb by (intros s'; by eapply advances_explained).
  unfold handleEvent. unfold event_fits in Hf0. destruct (se_kind ev) as [i g|m|i|i|payload|f]; cbn [known] in Hkn.
  - destruct Hkn as [sn Hi]. unfold tickIsStale. rewrite Hi. case_bool; apply Hb; [by eapply LR_both; [|apply record_calm|apply record_still]|].
    eapply handleTick_advances; try done. by eapply (sr_nodes _ _ _ _ _ _ _ (lr_sr _ _ _ _ _ _ _ _ _ HL)).
  - apply Hb. eapply handleMessage_advances; try done. by apply Hm.
  - destruct Hkn as [sn Hi]. apply Hb. eapply handleCrash_advances; [done|]. by eapply (sr_nodes _ _ _ _ _ _ _ (lr_sr _ _ _ _ _ _ _ _ _ HL)).
  - destruct Hkn as [sn Hi]. apply Hb. eapply handleRestart_advances; [done|done|]. by eapply (sr_nodes _ _ _ _ _ _ _ (lr_sr _ _ _ _ _ _ _ _ _ HL)).
  - eapply workload_explained; try done. by apply Hans.
  - apply Hb. by eapply applyFault_advances.
Qed.

(** A call of a scenario. *)
Lemma call_explained s s' : explained s -> sim_call ids s s' -> explained s'.
Proof.
  intros (reg & G & sa & c & w & Hw & HW) Hs. pose proof (wr_lr _ _ _ _ _ _ _ _ _ _ HW) as HL.
  assert (forall s', calm s s' -> still s s' -> explained s') as Hc by (intros s1 Hc Hst; eapply advances_explained; [exact HW|done|by eapply LR_both]).
  assert (forall s', reaches cfgs ids (entry_ok marshal reg) (registered reg) sa c s' /\ keeps s s' -> host_ok unmarshal nobody reg G s' -> explained s') as Hq.
  { intros s1 Hr Hh. eapply advances_explained; [exact HW|done|]. by eapply quiet_advances. }
  assert (forall f i, (forall sn, sn_node (f sn) = sn_node sn /\ sn_halted (f sn) = sn_halted sn /\ sn_lastApplied (f sn) = sn_lastApplied sn /\ sn_sm (f sn) = sn_sm sn /\
    sn_factory (f sn) = sn_factory sn) -> forall fm args, host_ok unmarshal nobody reg G (record fm args (upd_node i f s))) as Hh.
  { intros f i Hf fm args. eapply (host_still _ _ _ _ (upd_node i f s)); [apply record_still|done|]. apply host_upd; [done|apply HL]. }
  destruct Hs as [from to|from to|groups|groups|i|i|i m|i at_ Hi|i at_ Hi|client at_|inv Hinv].
  - apply Hc; [calm_update|by apply still_same].
  - apply Hc; [calm_update|by apply still_same].
  - apply Hc; [apply PartitionGroups_calm|apply PartitionGroups_still].
  - apply Hc; [apply HealGroups_calm|apply HealGroups_still].
  - apply Hq; [eapply Pause_reaches, HL|]. unfold Pause. destruct (s_nodes s !! i); [by apply Hh|apply HL].
  - apply Hq; [eapply Resume_reaches, HL|]. unfold Resume. destruct (s_nodes s !! i); [by apply Hh|apply HL].
  - apply Hq; [eapply SetClockSkew_reaches, HL|]. unfold SetClockSkew. case_bool; [apply HL|]. case_bool; [apply HL|]. destruct (s_nodes s !! i); [by apply Hh|apply HL].
  - apply Hc; [apply pushAt_calm; [done|by eapply (sr_dom _ _ _ _ _ _ _ (lr_sr _ _ _ _ _ _ _ _ _ HL))]|by apply pushAt_still].
  - apply Hc; [apply pushAt_calm; [done|by eapply (sr_dom _ _ _ _ _ _ _ (lr_sr _ _ _ _ _ _ _ _ _ HL))]|by apply pushAt_still].
  - assert (explained s) as Hsame by (by exists reg, G, sa, c, w). unfold ScheduleWorkloadRetry. rewrite Hw. case_bool; [done|].
    destruct (RetryEvent client (sw_runner w)) as [event|e] eqn:Er; [|done]. exists reg, G, sa, c, w. split; [done|]. cbn [fst]. apply WR_schedule; [|done].
    unfold RetryEvent in Er. repeat case_match; try done. by injection Er as <-.
  - exists reg, G, sa, c, w. split; [done|]. destruct HW as [[L1 L2 L3 L4] W2 W3 W4 W5]. split; [|done..]. split; [|done|done|].
    + destruct L1 as [H1 H2 H3 H4 H5 H6 H7 H8 H9]. by split.
    + by destruct L4; split.
Qed.

(** Steps keep the history explained: the clock never goes back. *)
Lemma step_explained s s' : explained s -> timely s -> work_step ids s s' -> explained s' /\ timely s'.
Proof using Hcfg Hcodec.
  intros He Ht [ev queue Hp Hf Hc|s2 Hc Ha].
  - split; [|by apply event_timely]. apply event_explained; [done|done| |done]. by apply (timely_pop s ev queue).
  - split; [by eapply call_explained|by eapply call_timely].
Qed.

Lemma steps_explained s s' : explained s -> timely s -> rtc (work_step ids) s s' -> explained s' /\ timely s'.
Proof using Hcfg Hcodec.
  intros He Ht Hs. induction Hs as [s|s1 s2 s3 H12 _ IH]; [done|]. destruct (step_explained s1 s2 He Ht H12). by apply IH.
Qed.

(** An explained history is linearizable. *)
Lemma explained_history s r : explained s -> runner_of s = Some r -> linearizable (getHistory (rn_recorder r)).
Proof using Hcodec.
  intros (reg & G & sa & c & w & Hw & [W1 W2 W3 W4 W5]) Hr. unfold runner_of in Hr. rewrite Hw in Hr. injection Hr as <-. rewrite getHistory_id.
  apply (explained_linearizable unmarshal _ G). split.
  - assert (forall k, (k <= length G)%nat -> exists m, before unmarshal G k m) as Hrun; [|by apply Hrun].
    induction k as [|k IH]; intros Hk; [exists NewMapSM; apply before_zero|]. destruct (IH ltac:(lia)) as [m Hm]. destruct (lookup_lt_is_Some_2 G k ltac:(lia)) as [e He].
    pose proof (lr_entries _ _ _ _ _ _ _ _ _ W1) as HG. rewrite Forall_lookup in HG. destruct (entry_applies marshal unmarshal Hcodec reg e m (HG k e He)) as (m' & res & Ha).
    exists m'. by eapply before_next.
  - intros i j a b. by apply sessions_distinct, W2.
  - apply W3.
  - intros k e cmd He Hc. exact (log_invoked marshal unmarshal Hcodec reg _ G k e cmd W4 (lr_entries _ _ _ _ _ _ _ _ _ W1) He Hc).
  - apply W3.
  - apply W3.
Qed.
End steps.

(** * The start of a workload *)

Section start.
Context (newRand : Z -> Rand) (newEnv : Z -> unit) (Hrand : forall seed, rand_ok (newRand seed)).

Lemma newClients_spec n i c cs :
  newClients newRand n i c = Ok cs -> length cs = n /\
  forall k cl, cs !! k = Some cl -> cl_id cl = wc_ClientIDBase c +u (i + Z.of_nat k) /\ cl_active cl = None /\ rand_ok (gen_rnd (cl_generator cl)).
Proof using Hrand.
  revert i cs. induction n as [|n IH]; intros i cs; cbn [newClients]; [by intros [= <-]|].
  unfold NewGenerator. destruct (wc_KeyCount c <=? 0); [done|]. destruct (newClients newRand n (i + 1) c) as [rest|e] eqn:Er; [|done]. intros [= <-].
  destruct (IH _ _ Er) as [Hl Hk]. split; [cbn; by rewrite Hl|]. intros [|k] cl.
  - intros [= <-]. cbn. rewrite Z.add_0_r. done.
  - intros Hc. destruct (Hk k cl Hc) as (E1 & E2 & E3). split; [|done]. rewrite E1. f_equal. lia.
Qed.

(** The numbers of the configuration are a [uint64] and an [int]. *)
Definition workload_numbers (config : WorkloadConfig) : Prop :=
  0 <= wc_ClientIDBase config <= max_u64 /\ wc_ClientCount config <= max_i64.

Lemma indexClients_spec cs k m :
  (forall i j c c', cs !! i = Some c -> cs !! j = Some c' -> cl_id c = cl_id c' -> i = j) ->
  (forall i c, cs !! i = Some c -> indexClients k cs m !! cl_id c = Some (k + i)%nat) /\
  (forall id, (forall c, c ∈ cs -> cl_id c <> id) -> indexClients k cs m !! id = m !! id).
Proof.
  revert k m. induction cs as [|c cs IH]; intros k m Hd; cbn [indexClients]; [by split|].
  destruct (IH (S k) (<[cl_id c := k]> m)) as [H1 H2]. { intros i j a b Ha Hb E. assert (S i = S j) as H by (by apply (Hd (S i) (S j) a b)). lia. }
  split.
  - intros [|i] x Hx; [|rewrite (H1 i x Hx); f_equal; lia]. injection Hx as <-. rewrite H2, lookup_insert_eq; [f_equal; lia|].
    intros x [i Hi]%list_elem_of_lookup E. specialize (Hd 0%nat (S i) c x eq_refl Hi (eq_sym E)). done.
  - intros id Hid. rewrite H2 by (intros x Hx; apply Hid; by right). rewrite lookup_insert_ne; [done|]. apply Hid. by left.
Qed.

Lemma NewRunner_ok config r : NewRunner newRand config = Ok r -> workload_numbers config -> runner_ok r /\ hr_history (rn_recorder r) = [].
Proof using Hrand.
  intros Hr [Hb Hc]. unfold NewRunner in Hr. destruct (normalizeConfig config) as [c|e] eqn:En; [|done].
  destruct (newClients newRand _ 0 c) as [cs|e] eqn:Ec; [|done]. injection Hr as <-. split; [|done]. destruct (newClients_spec _ _ _ _ Ec) as [Hlen Hcs].
  assert (clients_ok cs) as Hok.
  { split; [|by intros i cl Hi; apply (Hcs i cl Hi)]. unfold normalizeConfig in En. cbv zeta in En. repeat (case_match; [done|]). injection En as <-.
    cbn [wc_ClientIDBase wc_ClientCount] in *. repeat match goal with H : (_ <? _) = false |- _ => apply Z.ltb_ge in H end.
    set (base := orDefault (wc_ClientIDBase config) DefaultClientIDBase) in *. set (count := orDefault (wc_ClientCount config) DefaultClientCount) in *.
    assert (0 <= base <= max_u64) as Hb' by (unfold base, orDefault, DefaultClientIDBase; case_bool; [vm_compute; split; discriminate|done]).
    assert (0 < count <= max_i64) as Hc' by (unfold count, orDefault, DefaultClientCount in *; case_bool; bool_to_prop; [vm_compute; split; done|lia]).
    assert (count - 1 <= max_u64 - base) as Hroom.
    { assert (max_i64 <= max_u64) by (vm_compute; discriminate). match goal with H : u64 (count - 1) <= _ |- _ => rewrite (u64_id (count - 1)) in H by (unfold is_u64; lia); rewrite u64_sub_small in H by lia; exact H end. }
    intros i j a b Hi Hj Eid. apply lookup_lt_Some in Hi as Hil. apply lookup_lt_Some in Hj as Hjl. rewrite (proj1 (Hcs i a Hi)), (proj1 (Hcs j b Hj)) in Eid.
    rewrite !u64_add_small in Eid by lia. lia. }
  split; cbn [rn_recorder rn_clients rn_byID]; [apply NewRecorder_ok|done| |].
  - exact (proj1 (indexClients_spec cs 0 ∅ (proj1 Hok))).
  - intros i cl Hi op Hop. rewrite (proj1 (proj2 (Hcs i cl Hi))) in Hop. done.
Qed.

(** The state machine of a node is there, and is the empty map. *)
Definition installed (sn : simNode unit MapSM) : Prop := sn_sm sn = Some NewMapSM /\ sn_factory sn = true.

Lemma install_spec order (s s' : simulator) err :
  installStateMachines newEnv order s = (s', err) -> err = None /\ s_queue s' = s_queue s /\ s_now s' = s_now s /\
  forall i sn', s_nodes s' !! i = Some sn' -> exists sn, s_nodes s !! i = Some sn /\ sn_node sn' = sn_node sn /\ sn_lastApplied sn' = sn_lastApplied sn /\
    (i ∈ order \/ installed sn -> installed sn').
Proof.
  revert s. induction order as [|id order IH]; intros s; cbn [installStateMachines].
  { intros [= <- <-]. split_and!; [done|done|done|]. intros i sn' Hi. exists sn'. split_and!; [done|done|done|]. intros [H%elem_of_nil|H]; done. }
  cbn [eng_open eng_arm map_engine]. match goal with |- context [upd_node id ?g s] => set (f := g) end. set (s1 := upd_node id f s). intros Hrun. destruct (IH s1 Hrun) as (-> & Eq & Et & Hn).
  split; [done|]. split; [done|]. split; [done|]. intros i sn' Hi. destruct (Hn i sn' Hi) as (sn1 & H1 & E1 & E2 & E3). cbn in H1. destruct (decide (id = i)) as [->|Hne].
  - rewrite lookup_alter_eq in H1. apply fmap_Some in H1 as (sn & H0 & ->). exists sn. split_and!; [done|done|done|]. intros _. apply E3. by right.
  - rewrite lookup_alter_ne in H1 by done. exists sn1. split_and!; [done|done|done|]. intros [[->|H]%elem_of_cons|H]; [done|apply E3; by left|apply E3; by right].
Qed.

Lemma start_explained cfg config s0 s1 :
  starts cfg s0 -> workload_numbers config -> StartWorkload newRand newEnv marshal config s0 = (s1, None) -> explained (nodeConfig cfg) (sc_NodeIDs cfg) s1.
Proof using Hrand.
  intros (Hcfg & _ & Hnow & Herr & Hwl & [Hun Hev] & c & _ & HR) Hnum. set (cfgs := nodeConfig cfg) in *. set (ids := sc_NodeIDs cfg) in *.
  assert (SR cfgs ids (entry_ok marshal ∅) (registered ∅) ainit c s0) as HR0.
  { eapply SR_weaken; [|apply (HR (entry_ok marshal ∅))]. intros idx T [x Hx]. by rewrite lookup_empty in Hx. }
  unfold StartWorkload. rewrite Hwl. case_bool; [done|]. cbv zeta. destruct (NewRunner newRand _) as [runner|e] eqn:Er; [|done].
  destruct (NewRunner_ok _ _ Er Hnum) as [Hrun Hh]. destruct (installStateMachines newEnv (s_order s0) s0) as [si err] eqn:Ei.
  destruct (install_spec _ _ _ _ Ei) as (-> & Eq & Et & Hn). pose proof (installStateMachines_SR newEnv cfgs ids _ _ ainit c (s_order s0) s0 HR0) as [HRi Hk].
  rewrite Ei in HRi, Hk. cbn [fst] in HRi, Hk. set (s2 := set_workload _ _ si).
  assert (WR marshal unmarshal cfgs ids ∅ [] ainit c runner s2) as HW.
  { split; [|done| | |done].
    - split; [by apply SR_set_workload|by exists 0, [], 0%nat; split; [apply cprefix_zero|]|done|]. split; cbn [s2 s_nodes s_queue s_workload set_workload].
      + intros i sn n Hi Hsn _ _. destruct (Hn i sn Hi) as (sn0 & H0 & E1 & E2 & E3). destruct (Hun i sn0 H0) as [U1 U2]. rewrite E1 in Hsn. rewrite (U2 n Hsn). split; [done|].
        split_and!; [by rewrite E2, U1|done|]. exists NewMapSM. split; [|apply before_zero]. apply E3. left. rewrite (sr_order _ _ _ _ _ _ _ HR0). by eapply (sr_nodes _ _ _ _ _ _ _ HR0).
      + intros i sn Hi. destruct (Hn i sn Hi) as (sn0 & H0 & E1 & E2 & E3). apply E3. left. rewrite (sr_order _ _ _ _ _ _ _ HR0). by eapply (sr_nodes _ _ _ _ _ _ _ HR0).
      + intros w key p [= <-]. cbn. rewrite lookup_empty. by intros ?%elem_of_nil.
      + intros ev we He Hkind. rewrite Eq in He. specialize (Hev ev He). by rewrite Hkind in Hev.
    - rewrite Hh. split; intros *; by rewrite ?lookup_nil.
    - intros k x Hx. by rewrite lookup_empty in Hx. }
  clearbody s2. clear Ei Eq Et Hn HRi Hk. unfold runner_Start. destruct (rn_started runner); [done|]. destruct (_ <? _); [done|].
  match goal with |- (set_runner ?r _ (foldl ?f s2 ?l), None) = _ -> _ => assert (WR marshal unmarshal cfgs ids ∅ [] ainit c r (foldl f s2 l)) as HW1; [|generalize dependent (foldl f s2 l)] end.
  { eapply (WR_same_history _ _ _ _ _ _ _ _ runner); [|destruct Hrun; by split|done]. generalize (rn_clients runner). intros l. generalize dependent s2. induction l as [|x l IH]; intros s2 HW2; [done|].
    cbn [foldl]. apply IH. exact (WR_schedule marshal unmarshal cfgs ids ∅ [] ainit c runner s2 _ (mkWEvent EventStart _ 0 noOutput) ltac:(done) HW2). }
  intros s3 HW3 [= <-]. destruct (WR_set_runner _ _ _ _ _ _ _ _ (s_runErr s3) HW3) as (w & Ew & HS). by exists ∅, [], ainit, c, w.
Qed.
End start.
End run.

(** * Runs with a workload *)

Section guarantee.
Context (newRand : Z -> Rand) (newFloats : Z -> nat -> float64) (newEnv : Z -> unit) (marshal : Command -> result bytes) (unmarshal : bytes -> option Command).

#[local] Hint Extern 0 (SimEngine unit MapSM) => exact (map_engine unmarshal) : typeclass_instances.

(** The states of runs that start a workload at once. *)
Definition worked (cfg : SimConfig) (config : WorkloadConfig) (s : Simulator unit MapSM) : Prop :=
  exists s0 s1, (NewSim newRand newFloats newEnv cfg = Ok s0 \/ exists schedule, NewFaultSim newRand newFloats newEnv cfg schedule = Ok s0) /\
    StartWorkload newRand newEnv marshal config s0 = (s1, None) /\ rtc (work_step marshal unmarshal (sc_NodeIDs cfg)) s1 s.

(** C12. The histories of simulated runs are linearizable: whatever a run with the map state
    machine does, with its random delays, losses, duplicates, partitions, pauses, skewed
    clocks, crashes inside and after saves and restarts, and however often its clients retry
    a command or give it up, the operations that they recorded, those that never returned
    included, can be ordered so that the sequential key-value model accepts every reported
    output and an operation that returned before another was invoked precedes it.  That the
    clock never goes back is proved, from a configuration whose smallest delay and tick
    interval are not negative and from scenario calls that schedule no crash and no restart
    for a time that has passed; assumed of every event are the ranges of the 64-bit integers
    it uses: terms, log indices and sizes ([event_fits]), and the clock with the delays and
    timeouts that are added to it ([clock_fits]). *)
Theorem simulated_histories_linearizable cfg config s r :
  (forall c d, marshal c = Ok d -> unmarshal d = Some c) -> (forall seed, rand_ok (newRand seed)) ->
  proper_ids cfg -> forward_config cfg -> workload_numbers config -> worked cfg config s ->
  runner_of s = Some r -> linearizable (getHistory (rn_recorder r)).
Proof.
  intros Hcodec Hrand Hp Hfw Hnum (s0 & s1 & Hnew & Hstart & Hs) Hr.
  assert (starts cfg s0 /\ built cfg s0) as [H0 Hb].
  { destruct Hnew as [Hnew|[schedule Hnew]]; [split; [by eapply NewSim_starts|by eapply newSim_built]|split; [by eapply NewFaultSim_starts|by eapply NewFaultSim_built]]. }
  eapply (explained_history marshal unmarshal Hcodec (nodeConfig cfg) (sc_NodeIDs cfg)); [|exact Hr].
  eapply (steps_explained marshal unmarshal Hcodec); [apply H0| | |exact Hs]; [by eapply start_explained|by eapply StartWorkload_timely].
Qed.

(** What [Run] does in a bounded stretch of time. *)
Lemma sim_Run_works ids fuel until s s' err :
  until <= 2 ^ 61 -> bounded until s -> run_fits marshal ids fuel until s = true -> sim_Run marshal fuel until s = Some (s', err) ->
  rtc (work_step marshal unmarshal ids) s s'.
Proof.
  intros Hu. revert s. induction fuel as [|fuel IH]; intros s HB Hf Hr; cbn [run_fits run_all sim_Run] in Hf, Hr; destruct (s_queue s) as [|ev0 q0] eqn:Eq.
  1,3: by injection Hr as <- <-.
  all: destruct (Z.ltb_spec until (se_time ev0)) as [|Hle]; [by injection Hr as <- <-|]; destruct (heap_pop eventLess (ev0 :: q0)) as [[ev queue]|] eqn:Ep; [|by injection Hr as <- <-].
  { done. }
  apply andb_true_iff in Hf as [H2%bool_decide_eq_true H3]. assert (ev = ev0) as -> by (unfold heap_pop in Ep; destruct (_ !! _); [|done]; by injection Ep as <- _).
  rewrite <- Eq in Ep. destruct (bounded_event (engine := map_engine unmarshal) (fun _ => eq_refl) marshal until s ev0 queue Hu HB Ep Hle) as [Hc HB1].
  assert (work_step marshal unmarshal ids s (handleEvent marshal ev0 (dequeued ev0 queue s))) as Hs by (by apply ws_event).
  unfold runEvent in Hr, H3. fold (dequeued ev0 queue s) in Hr, H3. set (s1 := handleEvent marshal ev0 (dequeued ev0 queue s)) in *.
  destruct (s_runErr s1); [injection Hr as <- <-; by apply rtc_once|]. destruct (firstError _ _) as [e|]; [injection Hr as <- <-; by apply rtc_once|].
  eapply rtc_l; [exact Hs|]. by apply IH.
Qed.
End guarantee.

(** * A run *)

#[local] Hint Extern 0 (SimEngine unit MapSM) => exact (map_engine demo_unmarshal) : typeclass_instances.

Lemma demo_rand_ok seed : rand_ok (demo_rand seed).
Proof. intros k n Hn. cbn. by apply Z.mod_pos_bound. Qed.

Lemma demo_workload_numbers : workload_numbers demo_workload.
Proof. vm_compute. split; [split|]; discriminate. Qed.

Lemma demo_forward : forward_config demo_config.
Proof. split; vm_compute; discriminate. Qed.

Lemma demo_started : StartWorkload demo_rand (fun _ => ()) demo_marshal demo_workload demo_start = ((StartWorkload demo_rand (fun _ => ()) demo_marshal demo_workload demo_start).1, None).
Proof.
  assert ((StartWorkload demo_rand (fun _ => ()) demo_marshal demo_workload demo_start).2 = None) as H by (vm_compute; reflexivity).
  rewrite <- H. apply surjective_pairing.
Qed.

(** Its delays and times are short. *)
Lemma demo_bounded : bounded 2500 demo_ready.
Proof.
  assert (built demo_config demo_start) as Hb by (eapply NewFaultSim_built; [exact demo_rand_ok|exact demo_start_ok|exact demo_forward]).
  assert (bounded_config demo_config) as Hc by (vm_compute; repeat split; discriminate).
  apply (bounded_later 0); [lia|]. apply check_bounded.
  refine (StartWorkload_bounded demo_rand (fun _ => ()) demo_marshal demo_config demo_workload demo_start _ Hb Hc _ _ _ demo_started); vm_compute; discriminate.
Qed.

Lemma demo_end_worked : worked demo_rand demo_floats (fun _ => ()) demo_marshal demo_unmarshal demo_config demo_workload demo_end.
Proof.
  exists demo_start, (StartWorkload demo_rand (fun _ => ()) demo_marshal demo_workload demo_start).1. split_and!.
  - right. exists demo_schedule. exact demo_start_ok.
  - exact demo_started.
  - eapply rtc_l; [apply ws_call; [apply sc_check; by right|by left]|].
    exact (sim_Run_works demo_marshal demo_unmarshal [1; 2; 3] 4000 2500 _ _ _ ltac:(lia) demo_bounded demo_fits demo_run).
Qed.

(** The six operations of the two clients. *)
Lemma simulated_histories_linearizable_witness :
  exists r, runner_of demo_end = Some r /\ length (getHistory (rn_recorder r)) = 6%nat /\ linearizable (getHistory (rn_recorder r)).
Proof.
  assert ((fun r => length (getHistory (rn_recorder r))) <$> runner_of demo_end = Some 6%nat) as H by (vm_compute; reflexivity).
  destruct (runner_of demo_end) as [r|] eqn:Hr; [|done]. exists r. injection H as H. split; [done|]. split; [done|].
  exact (simulated_histories_linearizable demo_rand demo_floats (fun _ => ()) demo_marshal demo_unmarshal demo_config demo_workload demo_end r
    demo_codec demo_rand_ok demo_ids_proper demo_forward demo_workload_numbers demo_end_worked Hr).
Defined.
