(* ===== verification/FaultGen.v ===== *)
(** Random fault schedules (sim/faultgen.go): [GenerateFaultSchedule] and its helpers.

    The [*rand.Rand] of the generator is the sequence of its integer draws and the sequence
    of its [Float64] draws: [Intn], [Int63n] and the draws of [Shuffle] give a number below
    their bound, so an index that is drawn below the length of a list exists. *)

From Stdlib Require Import SpecFloat.
From S2P Require Import Prelude Proto RaftLog RaftNode Storage Server Bytes WalRecords CrashStorage MapSM Checker CheckerFacts SimInvariant.
From S2P Require Import DiskLog SimFS Float64 FaultSchedule Heap Workload SimLoop SimBuild.

(** * Draws *)

Record GenRand : Type := mkGenRand {
  gr_ints : Rand;
  gr_floats : FRand;
}.

Definition gen_Intn (n : Z) (g : GenRand) : Z * GenRand :=
  let '(v, r) := IntN (gr_ints g) n in (v, mkGenRand r (gr_floats g)).
Definition gen_Float64 (g : GenRand) : float64 * GenRand :=
  let '(x, f) := drawFloat (gr_floats g) in (x, mkGenRand (gr_ints g) f).

(** [xs[r.Intn(len(xs))]]. *)
Definition pick {A} (dflt : A) (xs : list A) (g : GenRand) : A * GenRand :=
  let '(i, g1) := gen_Intn (Z.of_nat (length xs)) g in (nth (Z.to_nat i) xs dflt, g1).

(** [r.Shuffle] with the swap of two elements, from position [i] down. *)
Fixpoint shuffleFrom {A} (i : nat) (xs : list A) (g : GenRand) : list A * GenRand :=
  match i with
  | O => (xs, g)
  | S i' => let '(j, g1) := gen_Intn (Z.of_nat i + 1) g in shuffleFrom i' (swapAt i (Z.to_nat j) xs) g1
  end.
Definition shuffle {A} (xs : list A) (g : GenRand) : list A * GenRand := shuffleFrom (length xs - 1) xs g.

(** * Times and targets *)

Definition randVirtualTime (until : Z) (g : GenRand) : Z * GenRand :=
  if until <=? 0 then (0, g) else gen_Intn until g.

Definition randTimePair (until : Z) (g : GenRand) : Z * Z * GenRand :=
  let '(t1, g1) := randVirtualTime until g in
  let remaining := i64 (i64 (until - t1) - 1) in
  if remaining <=? 0 then (t1, t1, g1)
  else let '(v, g2) := gen_Intn remaining g1 in (t1, t1 +i 1 +i v, g2).

Definition randomDistinctPair (order : list Z) (g : GenRand) : Z * Z * GenRand :=
  let '(i, g1) := gen_Intn (Z.of_nat (length order)) g in
  let '(j, g2) := gen_Intn (Z.of_nat (length order) - 1) g1 in
  let j := if i <=? j then j + 1 else j in
  (nth (Z.to_nat i) order 0, nth (Z.to_nat j) order 0, g2).

Definition randomGroupSplit (order : list Z) (g : GenRand) : list (list Z) * GenRand :=
  let '(shuffled, g1) := shuffle order g in
  let '(v, g2) := gen_Intn (Z.of_nat (length shuffled) - 1) g1 in
  let split := Z.to_nat (1 + v) in
  ([take split shuffled; drop split shuffled], g2).

(** * Faults in pairs *)

Inductive pairKind : Type := pairPauseResume | pairPartitionHeal | pairGroupsHealGroups | pairCrashRestart.

Definition pairKinds (order : list Z) : list pairKind :=
  [pairPauseResume; pairCrashRestart] ++ if Nat.leb 2 (length order) then [pairPartitionHeal; pairGroupsHealGroups] else [].

(** Events with the fields that a kind uses. *)
Definition nodeFault (t : Z) (kind : FaultKind) (node : Z) : FaultEvent := mkFaultEvent t kind node 0 0 [] f64_zero f64_zero.
Definition edgeFault (t : Z) (kind : FaultKind) (from to : Z) : FaultEvent := mkFaultEvent t kind 0 from to [] f64_zero f64_zero.
Definition groupsFault (t : Z) (kind : FaultKind) (groups : list (list Z)) : FaultEvent := mkFaultEvent t kind 0 0 0 groups f64_zero f64_zero.

(** A turn of the loop that draws the pairs. *)
Definition drawPair (order : list Z) (until : Z) (g : GenRand) : FaultEvent * FaultEvent * GenRand :=
  let '(t1, t2, g1) := randTimePair until g in
  let '(kind, g2) := pick pairPauseResume (pairKinds order) g1 in
  match kind with
  | pairPauseResume => let '(node, g3) := pick 0 order g2 in (nodeFault t1 FaultPause node, nodeFault t2 FaultResume node, g3)
  | pairPartitionHeal => let '(from, to, g3) := randomDistinctPair order g2 in (edgeFault t1 FaultPartition from to, edgeFault t2 FaultHeal from to, g3)
  | pairGroupsHealGroups => let '(groups, g3) := randomGroupSplit order g2 in (groupsFault t1 FaultPartitionGroups groups, groupsFault t2 FaultHealGroups groups, g3)
  | pairCrashRestart => let '(node, g3) := pick 0 order g2 in (nodeFault t1 FaultCrash node, nodeFault t2 FaultRestart node, g3)
  end.

Definition pairCount : nat := 6.

Fixpoint drawPairs (n : nat) (order : list Z) (until : Z) (g : GenRand) : list (FaultEvent * FaultEvent) * GenRand :=
  match n with
  | O => ([], g)
  | S n' =>
      let '(p, g1) := drawPair order until g in
      let '(ps, g2) := drawPairs n' order until g1 in (p :: ps, g2)
  end.

(** [pairs[i][0].Time] and [pairs[i][1].Time]. *)
Definition withTime (t : Z) (e : FaultEvent) : FaultEvent :=
  mkFaultEvent t (fv_Kind e) (fv_Node e) (fv_From e) (fv_To e) (fv_Groups e) (fv_Rate e) (fv_Multiplier e).

Definition pairEvents (pairs : list (FaultEvent * FaultEvent)) : list FaultEvent := pairs ≫= fun p => [p.1; p.2].

(** The second loop of [normalizeFaultPairTimes]. *)
Fixpoint assignTimes (pairs : list (FaultEvent * FaultEvent)) (times : list Z) : list (FaultEvent * FaultEvent) :=
  match pairs, times with
  | (a, b) :: pairs', ta :: tb :: times' => (withTime ta a, withTime tb b) :: assignTimes pairs' times'
  | _, _ => pairs
  end.

Definition normalizeFaultPairTimes (pairs : list (FaultEvent * FaultEvent)) : list (FaultEvent * FaultEvent) :=
  assignTimes pairs (sort_by Z.leb (fv_Time <$> pairEvents pairs)).

(** * Rates and clocks *)

(** The constants 0.3 and [maxClockMultiplier - minClockMultiplier]. *)
Definition maxGeneratedRate : float64 := S754_finite false 5404319552844595 (-54).
Definition clockMultiplierSpan : float64 := S754_finite false 6755399441055744 (-52).

Definition soloKinds : list FaultKind := [FaultDropRate; FaultDuplicateRate; FaultClockSkew].
Definition soloCount : nat := 6.

Definition drawSolo (order : list Z) (until : Z) (g : GenRand) : FaultEvent * GenRand :=
  let '(kind, g1) := pick FaultDropRate soloKinds g in
  let '(t, g2) := randVirtualTime until g1 in
  match kind with
  | FaultClockSkew =>
      let '(node, g3) := pick 0 order g2 in
      let '(x, g4) := gen_Float64 g3 in
      (mkFaultEvent t kind node 0 0 [] f64_zero (f64_fma x clockMultiplierSpan minClockMultiplier), g4)
  | _ =>
      let '(x, g3) := gen_Float64 g2 in
      (mkFaultEvent t kind 0 0 0 [] (f64_mul x maxGeneratedRate) f64_zero, g3)
  end.

Fixpoint drawSolos (n : nat) (order : list Z) (until : Z) (g : GenRand) : list FaultEvent * GenRand :=
  match n with
  | O => ([], g)
  | S n' =>
      let '(e, g1) := drawSolo order until g in
      let '(es, g2) := drawSolos n' order until g1 in (e :: es, g2)
  end.

(** * Crashes of storages *)

Definition maxGeneratedPartialRetention : Z := 24.

Definition generatedUnsyncedRetention (point : Z) (g : GenRand) : Z * GenRand :=
  if negb (point =? CrashBeforeSync) then (RetainAllUnsynced, g)
  else let '(k, g1) := gen_Intn 3 g in
       if k =? 0 then (0, g1)
       else if k =? 1 then let '(v, g2) := gen_Intn maxGeneratedPartialRetention g1 in (1 + v, g2)
       else (RetainAllUnsynced, g1).

Definition crashPoints : list Z := [CrashBeforeSync; CrashAfterSyncBeforeSend; CrashAfterSend].
Definition crashCount : nat := 2.

(** The loop over the crash directives, from number [i]. *)
Fixpoint drawCrashes (n : nat) (i : Z) (order : list Z) (g : GenRand) : list CrashDirective * GenRand :=
  match n with
  | O => ([], g)
  | S n' =>
      let node := nth (Z.to_nat (i mod Z.of_nat (length order))) order 0 in
      let '(v, g1) := gen_Intn 20 g in
      let '(point, g2) := pick CrashBeforeSync crashPoints g1 in
      let '(retain, g3) := generatedUnsyncedRetention point g2 in
      let '(ds, g4) := drawCrashes n' (i + 1) order g3 in
      (mkCrashDirective node (5 + i * 25 + v) point retain true :: ds, g4)
  end.

(** * The schedule *)

(** The end of every campaign: a network without losses and clocks in step. *)
Definition cleanTail (order : list Z) (until : Z) : list FaultEvent :=
  [mkFaultEvent until FaultDropRate 0 0 0 [] f64_zero f64_zero; mkFaultEvent until FaultDuplicateRate 0 0 0 [] f64_zero f64_zero] ++
  ((fun node => mkFaultEvent until FaultClockSkew node 0 0 [] f64_zero (f64_of_int 1)) <$> order).

(** [newGen] is the generator of a seed. *)
Definition GenerateFaultSchedule (newGen : Z -> GenRand) (seed : Z) (nodeIDs : list Z) (until : Z) : result FaultSchedule :=
  if Nat.eqb (length nodeIDs) 0 then Err "sim: GenerateFaultSchedule: nodeIDs must not be empty"
  else
    let g := newGen seed in
    let '(pairs, g1) := drawPairs pairCount nodeIDs until g in
    let '(solos, g2) := drawSolos soloCount nodeIDs until g1 in
    let '(crashes, _) := drawCrashes crashCount 0 nodeIDs g2 in
    let events := pairEvents (normalizeFaultPairTimes pairs) ++ solos ++ cleanTail nodeIDs until in
    Ok (mkFaultSchedule FaultScheduleGeneratorVersion crashes (sortFaultEvents events) []).
