(* ===== verification/FaultGenFacts.v ===== *)
(** What the generator of fault schedules promises: every schedule that it draws passes the
    validation for its cluster, and its stateful faults are matched pairs that do not
    overlap. *)

From Stdlib Require Import SpecFloat.
From stdpp Require Import sorting.
From S2P Require Import Prelude Proto RaftLog RaftNode Storage Server Bytes WalRecords CrashStorage MapSM Checker CheckerFacts SimInvariant.
From S2P Require Import DiskLog SimFS Float64 FaultSchedule Heap Workload WorkloadFacts SimLoop SimBuild FaultGen.

(** * Draws *)

(** A value of [Float64]: at least 0 and below 1. *)
Definition unit_draw (x : float64) : Prop := x = S754_zero false \/ exists m e, x = S754_finite false m e /\ e <= 0 /\ Z.pos m < 2 ^ (- e).

Record gen_ok (g : GenRand) : Prop := {
  go_ints : rand_ok (gr_ints g);
  go_floats : forall k, unit_draw (fr_fn (gr_floats g) k);
}.

Lemma gen_Intn_ok n g : gen_ok g -> gen_ok (gen_Intn n g).2.
Proof. intros [H1 H2]. by split. Qed.

Lemma gen_Intn_range n g v g' : gen_ok g -> 0 < n -> gen_Intn n g = (v, g') -> 0 <= v < n /\ gen_ok g'.
Proof. intros Hg Hn [= <- <-]. split; [by apply Hg|by apply (gen_Intn_ok n g)]. Qed.

Lemma gen_Float64_ok g x g' : gen_ok g -> gen_Float64 g = (x, g') -> unit_draw x /\ gen_ok g'.
Proof. intros [H1 H2] [= <- <-]. split; [apply H2|by split]. Qed.

Lemma pick_in {A} (dflt : A) xs g x g' : gen_ok g -> xs <> [] -> pick dflt xs g = (x, g') -> x ∈ xs /\ gen_ok g'.
Proof.
  intros Hg Hne. unfold pick. destruct (gen_Intn _ g) as [i g1] eqn:Ei. destruct (gen_Intn_range (Z.of_nat (length xs)) g i g1 Hg ltac:(destruct xs; [done|cbn [length]; lia]) Ei) as [Hi Hg1].
  intros [= <- <-]. split; [|done]. apply list_elem_of_In, nth_In. lia.
Qed.

Lemma shuffle_perm {A} (xs : list A) g ys g' : gen_ok g -> shuffle xs g = (ys, g') -> ys ≡ₚ xs /\ gen_ok g'.
Proof.
  unfold shuffle. generalize (length xs - 1)%nat. intros i. revert xs g. induction i as [|i IH]; intros xs g Hg; cbn [shuffleFrom]; [by intros [= <- <-]|].
  destruct (gen_Intn _ g) as [j g1] eqn:Ej. intros Hs. pose proof (gen_Intn_ok (Z.of_nat (S i) + 1) g Hg) as Hg1. rewrite Ej in Hg1.
  destruct (IH _ _ Hg1 Hs) as [Hp Hg']. split; [|done]. by rewrite Hp, swapAt_perm.
Qed.

(** * Times and targets *)

Section cluster.
Context (order : list Z) (until : Z) (Hnd : NoDup order) (Hne : order <> []) (Huntil : 0 <= until <= max_i64).

Definition in_run (t : Z) : Prop := 0 <= t <= until.

Lemma randVirtualTime_ok g t g' : gen_ok g -> randVirtualTime until g = (t, g') -> in_run t /\ gen_ok g'.
Proof using Huntil.
  intros Hg. unfold randVirtualTime, in_run. case_bool; bool_to_prop; [intros [= <- <-]; split; [lia|done]|].
  intros Hd. destruct (gen_Intn_range until g t g' Hg ltac:(lia) Hd). split; [lia|done].
Qed.

Lemma randTimePair_ok g t1 t2 g' : gen_ok g -> randTimePair until g = (t1, t2, g') -> in_run t1 /\ in_run t2 /\ gen_ok g'.
Proof using Huntil.
  intros Hg. unfold randTimePair. destruct (randVirtualTime until g) as [t g1] eqn:Et. destruct (randVirtualTime_ok _ _ _ Hg Et) as [Ht Hg1]. unfold in_run, max_i64 in *.
  assert (i64 (i64 (until - t) - 1) = until - t - 1) as -> by (unfold i64; rewrite (Z.mod_small (until - t + _)) by lia; rewrite Z.mod_small by lia; lia).
  case_bool; bool_to_prop; [by intros [= <- <- <-]|]. destruct (gen_Intn _ g1) as [v g2] eqn:Ev. destruct (gen_Intn_range (until - t - 1) g1 v g2 Hg1 ltac:(lia) Ev) as [Hv Hg2].
  intros [= <- <- <-]. split; [done|]. split; [|done]. unfold i64_add, i64. rewrite (Z.mod_small (t + 1 + _)) by lia. rewrite Z.mod_small by lia. lia.
Qed.

(** * Events that pass *)

Definition event_ok (e : FaultEvent) : Prop := validateEvent e = None /\ eventMembers order e = None.

Lemma node_event_ok t kind node :
  0 <= t -> node ∈ order -> kind = FaultPause \/ kind = FaultResume \/ kind = FaultCrash \/ kind = FaultRestart -> event_ok (nodeFault t kind node).
Proof.
  intros Ht Hn Hk. unfold event_ok, validateEvent, eventMembers. cbn [fv_Time fv_Kind fv_Node nodeFault]. rewrite (proj2 (Z.ltb_ge t 0)) by done.
  destruct Hk as [-> | [-> | [-> | ->]]]; split; try done; by apply memberOf_None.
Qed.

Lemma edge_event_ok t kind from to :
  0 <= t -> from ∈ order -> to ∈ order -> from <> to -> kind = FaultPartition \/ kind = FaultHeal -> event_ok (edgeFault t kind from to).
Proof.
  intros Ht Hf Hto Hne' Hk. unfold event_ok, validateEvent, eventMembers. cbn [fv_Time fv_Kind fv_From fv_To edgeFault]. rewrite (proj2 (Z.ltb_ge t 0)) by done.
  rewrite (proj2 (Z.eqb_neq from to)), (proj2 (memberOf_None order from)), (proj2 (memberOf_None order to)) by done. by destruct Hk as [-> | ->].
Qed.

Lemma checkGroup_ok gi group local seen :
  NoDup group -> (forall id, id ∈ group -> id ∉ local /\ seen !! id = None) ->
  exists seen', checkGroup gi group local seen = Ok seen' /\ forall id, id ∉ group -> seen' !! id = seen !! id.
Proof.
  revert local seen. induction group as [|x group IH]; intros local seen Hnd' Hout; cbn [checkGroup]; [by exists seen|]. apply NoDup_cons in Hnd' as [Hx Hnd'].
  destruct (Hout x ltac:(by left)) as [H1 H2]. rewrite bool_decide_false, H2 by done. destruct (IH ({[x]} ∪ local) (<[x := gi]> seen) Hnd') as (seen' & E & Hs).
  { intros id Hid. destruct (Hout id ltac:(by right)) as [H3 H4]. split; [set_solver|]. rewrite lookup_insert_ne by (by intros ->). done. }
  exists seen'. split; [done|]. intros id Hid. apply not_elem_of_cons in Hid as [Hne' Hid]. rewrite Hs by done. by rewrite lookup_insert_ne.
Qed.

Lemma groups_event_ok t kind l r :
  0 <= t -> l <> [] -> r <> [] -> l ++ r ≡ₚ order -> kind = FaultPartitionGroups \/ kind = FaultHealGroups -> event_ok (groupsFault t kind [l; r]).
Proof using All.
  intros Ht Hl Hr Hp Hk. assert (NoDup (l ++ r)) as (Hdl & Hd & Hdr)%NoDup_app by (by rewrite Hp).
  assert (validatePartitionGroups [l; r] = None) as Hv.
  { unfold validatePartitionGroups. cbn [length Nat.ltb Nat.leb checkGroups]. destruct (checkGroup_ok 0 l ∅ ∅ Hdl) as (seen & -> & Hs); [intros; split; [set_solver|done]|].
    destruct (checkGroup_ok 1 r ∅ seen Hdr) as (seen' & -> & _). { intros id Hid. split; [set_solver|]. rewrite Hs by (intros H; by apply (Hd id)). done. }
    by destruct l, r. }
  assert (firstError (firstError (memberOf order)) [l; r] = None) as Hm.
  { apply firstError_None. intros g Hg. apply firstError_None. intros id Hid. apply memberOf_None. rewrite <- Hp, elem_of_app. set_solver. }
  unfold event_ok, validateEvent, eventMembers. cbn [fv_Time fv_Kind fv_Groups groupsFault]. rewrite (proj2 (Z.ltb_ge t 0)), Hv, Hm by done. by destruct Hk as [-> | ->].
Qed.

(** * Pairs *)

(** The fault that undoes a fault. *)
Definition closing (k : FaultKind) : option FaultKind :=
  match k with
  | FaultPause => Some FaultResume
  | FaultPartition => Some FaultHeal
  | FaultPartitionGroups => Some FaultHealGroups
  | FaultCrash => Some FaultRestart
  | _ => None
  end.

(** The faults that open or close something. *)
Definition stateful (k : FaultKind) : bool :=
  match k with
  | FaultPause | FaultResume | FaultPartition | FaultHeal | FaultPartitionGroups | FaultHealGroups | FaultCrash | FaultRestart => true
  | _ => false
  end.

(** An opening fault and the one that closes it, on the same target. *)
Record matched (p : FaultEvent * FaultEvent) : Prop := {
  mt_kind : closing (fv_Kind p.1) = Some (fv_Kind p.2);
  mt_node : fv_Node p.1 = fv_Node p.2;
  mt_edge : (fv_From p.1, fv_To p.1) = (fv_From p.2, fv_To p.2);
  mt_groups : fv_Groups p.1 = fv_Groups p.2;
}.

Definition pair_ok (p : FaultEvent * FaultEvent) : Prop :=
  matched p /\ event_ok p.1 /\ event_ok p.2 /\ in_run (fv_Time p.1) /\ in_run (fv_Time p.2).

Lemma distinct_pair g a b g' :
  gen_ok g -> (2 <= length order)%nat -> randomDistinctPair order g = (a, b, g') -> a ∈ order /\ b ∈ order /\ a <> b /\ gen_ok g'.
Proof using Hnd.
  intros Hg Hlen. unfold randomDistinctPair. destruct (gen_Intn _ g) as [i g1] eqn:Ei. destruct (gen_Intn _ g1) as [j g2] eqn:Ej. cbv zeta.
  destruct (gen_Intn_range (Z.of_nat (length order)) g i g1 Hg ltac:(clear - Hlen; lia) Ei) as [Hi Hg1]. destruct (gen_Intn_range (Z.of_nat (length order) - 1) g1 j g2 Hg1 ltac:(clear - Hlen; lia) Ej) as [Hj Hg2].
  set (k := if i <=? j then j + 1 else j). assert (0 <= k < Z.of_nat (length order) /\ k <> i) as [Hk Hki] by (subst k; destruct (Z.leb_spec i j); lia).
  intros [= <- <- <-]. split_and!; [apply list_elem_of_In, nth_In; clear - Hi; lia|apply list_elem_of_In, nth_In; clear - Hk; lia| |done].
  intros E. apply NoDup_nth in E; [clear - E Hki Hi Hk; lia|by apply NoDup_ListNoDup|clear - Hi; lia|clear - Hk; lia].
Qed.

Lemma group_split g groups g' :
  gen_ok g -> (2 <= length order)%nat -> randomGroupSplit order g = (groups, g') ->
  exists l r, groups = [l; r] /\ l <> [] /\ r <> [] /\ l ++ r ≡ₚ order /\ gen_ok g'.
Proof.
  intros Hg Hlen. unfold randomGroupSplit. destruct (shuffle order g) as [ys g1] eqn:Es. destruct (shuffle_perm _ _ _ _ Hg Es) as [Hp Hg1].
  destruct (gen_Intn _ g1) as [v g2] eqn:Ev. pose proof (Permutation_length Hp) as El. destruct (gen_Intn_range (Z.of_nat (length ys) - 1) g1 v g2 Hg1 ltac:(clear - Hlen El; lia) Ev) as [Hv Hg2].
  intros [= <- <-]. exists (take (Z.to_nat (1 + v)) ys), (drop (Z.to_nat (1 + v)) ys). split_and!; [done|..|by rewrite take_drop|done].
  - intros E. apply (f_equal length) in E. rewrite length_take in E. cbn in E. clear - E Hv El Hlen. lia.
  - intros E. apply (f_equal length) in E. rewrite length_drop in E. cbn in E. clear - E Hv El Hlen. lia.
Qed.

Lemma drawPair_ok g p g' : gen_ok g -> drawPair order until g = (p, g') -> pair_ok p /\ gen_ok g'.
Proof using All.
  intros Hg. unfold drawPair. destruct (randTimePair until g) as [[t1 t2] g1] eqn:Et. destruct (randTimePair_ok _ _ _ _ Hg Et) as (H1 & H2 & Hg1).
  pose proof (proj1 H1) as P1. pose proof (proj1 H2) as P2. destruct (pick pairPauseResume _ g1) as [kind g2] eqn:Ek.
  destruct (pick_in _ (pairKinds order) _ _ _ Hg1 ltac:(done) Ek) as [Hk Hg2]. unfold pairKinds in Hk. destruct kind.
  1,4: destruct (pick 0 order g2) as [node g3] eqn:En; destruct (pick_in _ _ _ _ _ Hg2 Hne En) as [Hn Hg3]; intros [= <- <-]; split; [|done]; split_and!; [by split|..|done|done];
    apply node_event_ok; auto.
  all: assert (2 <= length order)%nat as Hlen by (destruct (Nat.leb_spec 2 (length order)) as [H|H]; [exact H|exfalso; set_solver]).
  - destruct (randomDistinctPair order g2) as [[from to] g3] eqn:En. destruct (distinct_pair _ _ _ _ Hg2 Hlen En) as (F1 & F2 & F3 & Hg3). intros [= <- <-]. split; [|done].
    split_and!; [by split|..|done|done]; apply edge_event_ok; auto.
  - destruct (randomGroupSplit order g2) as [groups g3] eqn:En. destruct (group_split _ _ _ Hg2 Hlen En) as (l & r & -> & F1 & F2 & F3 & Hg3). intros [= <- <-]. split; [|done].
    split_and!; [by split|..|done|done]; apply groups_event_ok; auto.
Qed.

Lemma drawPairs_ok n g ps g' : gen_ok g -> drawPairs n order until g = (ps, g') -> Forall pair_ok ps /\ length ps = n /\ gen_ok g'.
Proof using All.
  revert g ps g'. induction n as [|n IH]; intros g ps g' Hg; cbn [drawPairs]; [by intros [= <- <-]|]. destruct (drawPair order until g) as [p g1] eqn:Ep.
  destruct (drawPair_ok _ _ _ Hg Ep) as [Hp Hg1]. destruct (drawPairs n order until g1) as [qs g2] eqn:Eq. destruct (IH _ _ _ Hg1 Eq) as (Hqs & Hlen & Hg2).
  intros [= <- <-]. split_and!; [by constructor|cbn; by rewrite Hlen|done].
Qed.

(** * Times in order *)

Lemma withTime_ok t e : 0 <= t -> event_ok e -> event_ok (withTime t e).
Proof.
  intros Ht. unfold event_ok, validateEvent, eventMembers. cbn [fv_Time fv_Kind fv_Node fv_From fv_To fv_Groups fv_Rate fv_Multiplier withTime].
  rewrite (proj2 (Z.ltb_ge t 0)) by done. destruct (fv_Time e <? 0); [by intros [? _]|done].
Qed.

Lemma assignTimes_ok ps times :
  Forall pair_ok ps -> length times = (2 * length ps)%nat -> Forall in_run times ->
  Forall pair_ok (assignTimes ps times) /\ length (assignTimes ps times) = length ps /\ fv_Time <$> pairEvents (assignTimes ps times) = times.
Proof using.
  revert times. induction ps as [|[a b] ps IH]; intros times Hps Hlen Ht; [by destruct times|].
  destruct times as [|ta [|tb times]]; [done|cbn in Hlen; lia|]. cbn [assignTimes]. apply Forall_cons in Hps as [([M1 M2 M3 M4] & Ha & Hb & _) Hps].
  apply Forall_cons in Ht as [Hta [Htb Ht]%Forall_cons]. destruct (IH times Hps ltac:(cbn in Hlen; lia) Ht) as (H1 & H2 & H3). split_and!.
  - constructor; [|done]. split_and!; [by split|apply withTime_ok; [apply Hta|done]|apply withTime_ok; [apply Htb|done]|done|done].
  - cbn. by rewrite H2.
  - unfold pairEvents in *. cbn. by rewrite H3.
Qed.

Lemma pairEvents_length ps : length (pairEvents ps) = (2 * length ps)%nat.
Proof. induction ps as [|p ps IH]; [done|]. unfold pairEvents in *. cbn. rewrite IH. lia. Qed.

Lemma pairEvents_Forall (P : FaultEvent -> Prop) ps : Forall (fun p => P p.1 /\ P p.2) ps -> Forall P (pairEvents ps).
Proof. induction 1 as [|p ps [H1 H2] _ IH]; [constructor|]. unfold pairEvents in *. cbn. by repeat constructor. Qed.

(** The times of the pairs are in order. *)
Lemma normalize_ok ps :
  Forall pair_ok ps -> Forall pair_ok (normalizeFaultPairTimes ps) /\ length (normalizeFaultPairTimes ps) = length ps /\
    StronglySorted Z.le (fv_Time <$> pairEvents (normalizeFaultPairTimes ps)).
Proof using.
  intros Hps. unfold normalizeFaultPairTimes. set (times := sort_by Z.leb _).
  assert (times ≡ₚ fv_Time <$> pairEvents ps) as Hp by apply sort_by_perm.
  destruct (assignTimes_ok ps times Hps) as (H1 & H2 & ->).
  - rewrite Hp, length_fmap. apply pairEvents_length.
  - rewrite Hp. apply Forall_fmap, pairEvents_Forall. eapply Forall_impl; [exact Hps|]. by intros p (_ & _ & _ & ?).
  - split_and!; [done|done|]. assert (StronglySorted (fun a b => Z.leb a b = true) times) as Hs.
    { apply sort_by_sorted; [intros a b; rewrite !Z.leb_le; lia|intros a b c; rewrite !Z.leb_le; lia]. }
    clear - Hs. induction Hs as [|t ts _ IH Ht]; constructor; [done|]. eapply Forall_impl; [exact Ht|]. intros x. by apply Z.leb_le.
Qed.

(** * Rates and clocks *)

Lemma drawn_rate x : unit_draw x -> validateUnitRate (f64_mul x maxGeneratedRate) = None.
Proof.
  intros [->|(m & e & -> & He & Hm)]; [done|]. unfold f64_mul, maxGeneratedRate. cbn [SFmul xorb]. set (p := (m * 5404319552844595)%positive). set (e' := e + -54).
  assert (2 ^ 52 <= Z.pos p) as Hp by (subst p; rewrite Pos2Z.inj_mul; change (2 ^ 52) with 4503599627370496; lia).
  assert (Z.pos p < 2 ^ (0 - e')) as Hp'.
  { subst p e'. rewrite Pos2Z.inj_mul. replace (0 - (e + -54)) with (- e + 54) by lia. rewrite Z.pow_add_r by lia. change (2 ^ 54) with 18014398509481984. clear - Hm. nia. }
  destruct (binary_round_aux_upper p e' 0) as (R1 & R2 & R3); [|lia|lia|done|].
  - rewrite fexp_eq. pose proof (digits2_ge p 52 ltac:(lia) Hp). lia.
  - unfold validateUnitRate. rewrite R1, R2. by change (f64_of_int 1) with (f64_pow2 0); rewrite R3.
Qed.

Lemma drawn_multiplier x :
  unit_draw x -> let y := f64_fma x clockMultiplierSpan minClockMultiplier in
  f64_isNaN y || f64_isInf y = false /\ f64_ltb y minClockMultiplier = false /\ f64_ltb maxClockMultiplier y = false.
Proof.
  intros [->|(m & e & -> & He & Hm)]; [done|]. cbn [f64_fma clockMultiplierSpan minClockMultiplier f64_half xorb]. cbv zeta. set (e' := Z.min _ _).
  apply (binary_normalize_between _ e' false (-1) 1); [lia..|]. unfold scaled. rewrite !Z.mul_1_l.
  assert (4503599627370496 * 2 ^ (-53 - e') = 2 ^ (-1 - e')) as -> by (change 4503599627370496 with (2 ^ 52); rewrite <- Z.pow_add_r by lia; f_equal; lia).
  assert (Z.pos m * 6755399441055744 * 2 ^ (e + -52 - e') < 3 * 2 ^ (-1 - e')) as Hu.
  { assert (3 * 2 ^ (-1 - e') = (2 ^ (- e) * 6755399441055744) * 2 ^ (e + -52 - e')) as ->; [|apply Z.mul_lt_mono_pos_r; [lia|clear - Hm; lia]].
    change 6755399441055744 with (3 * 2 ^ 51). replace (-1 - e') with (- e + 51 + (e + -52 - e')) by lia. rewrite !Z.pow_add_r by lia. lia. }
  assert (2 ^ (1 - e') = 4 * 2 ^ (-1 - e')) as -> by (replace (1 - e') with (2 + (-1 - e')) by lia; rewrite Z.pow_add_r by lia; lia).
  pose proof (Z.pow_pos_nonneg 2 (e + -52 - e')). assert (0 <= Z.pos m * 6755399441055744 * 2 ^ (e + -52 - e')) by (apply Z.mul_nonneg_nonneg; lia). lia.
Qed.

Lemma drawSolo_ok g e g' : gen_ok g -> drawSolo order until g = (e, g') -> event_ok e /\ stateful (fv_Kind e) = false /\ gen_ok g'.
Proof using All.
  intros Hg. unfold drawSolo. destruct (pick _ soloKinds g) as [kind g1] eqn:Ek. destruct (pick_in _ soloKinds _ _ _ Hg ltac:(done) Ek) as [Hk Hg1].
  destruct (randVirtualTime until g1) as [t g2] eqn:Et. destruct (randVirtualTime_ok _ _ _ Hg1 Et) as [Ht Hg2].
  assert (t <? 0 = false) as Hneg by (apply Z.ltb_ge, Ht). unfold soloKinds in Hk. rewrite !elem_of_cons, elem_of_nil in Hk. destruct Hk as [-> | [-> | [-> | []]]].
  1,2: destruct (gen_Float64 g2) as [x g3] eqn:Ex; destruct (gen_Float64_ok _ _ _ Hg2 Ex) as [Hx Hg3]; intros [= <- <-]; split_and!; [|done|done];
    split; [|done]; unfold validateEvent; cbn [fv_Time fv_Kind fv_Rate]; rewrite Hneg; by apply drawn_rate.
  destruct (pick 0 order g2) as [node g3] eqn:En. destruct (pick_in _ _ _ _ _ Hg2 Hne En) as [Hn Hg3]. destruct (gen_Float64 g3) as [x g4] eqn:Ex.
  destruct (gen_Float64_ok _ _ _ Hg3 Ex) as [Hx Hg4]. intros [= <- <-]. split_and!; [|done|done]. destruct (drawn_multiplier x Hx) as (R1 & R2 & R3).
  split; [unfold validateEvent; cbn [fv_Time fv_Kind fv_Multiplier]; by rewrite Hneg, R1, R2, R3|by apply memberOf_None].
Qed.

Lemma drawSolos_ok n g es g' : gen_ok g -> drawSolos n order until g = (es, g') -> Forall (fun e => event_ok e /\ stateful (fv_Kind e) = false) es /\ gen_ok g'.
Proof using All.
  revert g es g'. induction n as [|n IH]; intros g es g' Hg; cbn [drawSolos]; [by intros [= <- <-]|]. destruct (drawSolo order until g) as [e g1] eqn:Ep.
  destruct (drawSolo_ok _ _ _ Hg Ep) as (He & Hc & Hg1). destruct (drawSolos n order until g1) as [qs g2] eqn:Eq. destruct (IH _ _ _ Hg1 Eq) as (Hqs & Hg2).
  intros [= <- <-]. split_and!; [by constructor|done].
Qed.

Lemma cleanTail_ok : Forall (fun e => event_ok e /\ stateful (fv_Kind e) = false) (cleanTail order until).
Proof using Huntil.
  assert (until <? 0 = false) as Hneg by (apply Z.ltb_ge; lia). unfold cleanTail. rewrite Forall_app. split.
  - repeat constructor; unfold validateEvent; cbn [fv_Time fv_Kind fv_Rate]; by rewrite Hneg.
  - apply Forall_fmap, Forall_forall. intros node Hn. cbn. split; [|done]. split; [|by apply memberOf_None]. unfold validateEvent. cbn [fv_Time fv_Kind fv_Multiplier]. by rewrite Hneg.
Qed.

(** * Crashes *)

Lemma retention_ok point g v g' : gen_ok g -> generatedUnsyncedRetention point g = (v, g') -> RetainAllUnsynced <= v /\ gen_ok g'.
Proof.
  intros Hg. unfold generatedUnsyncedRetention, RetainAllUnsynced. case_bool; [by intros [= <- <-]|]. destruct (gen_Intn 3 g) as [k g1] eqn:Ek.
  destruct (gen_Intn_range 3 g k g1 Hg ltac:(lia) Ek) as [_ Hg1]. case_bool; [intros [= <- <-]; split; [lia|done]|]. case_bool; [|intros [= <- <-]; split; [lia|done]].
  destruct (gen_Intn _ g1) as [w g2] eqn:Ew. destruct (gen_Intn_range maxGeneratedPartialRetention g1 w g2 Hg1 ltac:(done) Ew) as [Hw Hg2]. intros [= <- <-]. split; [lia|done].
Qed.

Definition crash_ok (i : Z) (d : CrashDirective) : Prop :=
  directive_ok d /\ cd_Node d ∈ order /\ 5 + i * 25 <= cd_Save d /\ CrashBeforeSync <= Point d.

(** The save numbers of the directives grow, so no two directives have the same place. *)
Lemma drawCrashes_ok n i g ds g' :
  gen_ok g -> 0 <= i -> drawCrashes n i order g = (ds, g') -> Forall (crash_ok i) ds /\ NoDup (directive_key <$> ds).
Proof using Hne.
  revert i g ds g'. induction n as [|n IH]; intros i g ds g' Hg Hi; cbn [drawCrashes]; [intros [= <- <-]; split; constructor|]. cbv zeta.
  destruct (gen_Intn 20 g) as [v g1] eqn:Ev. destruct (gen_Intn_range 20 g v g1 Hg ltac:(lia) Ev) as [Hv Hg1].
  destruct (pick CrashBeforeSync crashPoints g1) as [point g2] eqn:Ep. destruct (pick_in _ crashPoints _ _ _ Hg1 ltac:(done) Ep) as [Hp Hg2].
  destruct (generatedUnsyncedRetention point g2) as [retain g3] eqn:Er. destruct (retention_ok _ _ _ _ Hg2 Er) as [Hr Hg3].
  destruct (drawCrashes n (i + 1) order g3) as [rest g4] eqn:Ed. destruct (IH (i + 1) g3 rest g4 Hg3 ltac:(lia) Ed) as [Hrest Hnd']. intros [= <- <-].
  assert (Forall (fun d => cd_Save d <> 5 + i * 25 + v) rest) as Hfar by (eapply Forall_impl; [exact Hrest|]; intros d (_ & _ & Hd & _); lia). split.
  - constructor; [|eapply Forall_impl; [exact Hrest|]; intros d (H1 & H2 & H3 & H4); split_and!; [done|done|lia|done]]. split_and!; [|..|cbn [cd_Save]; lia|].
    + unfold crashPoints in Hp. rewrite !elem_of_cons, elem_of_nil in Hp. split; cbn [cd_Save Point RetainUnsynced]; [clear - Hi Hv; lia| |done]. destruct Hp as [-> | [-> | [-> | []]]]; done.
    + cbn. apply list_elem_of_In, nth_In. assert (length order <> 0)%nat as Hlen by (by intros ?%nil_length_inv). pose proof (Z.mod_pos_bound i (Z.of_nat (length order))). lia.
    + unfold crashPoints in Hp. rewrite !elem_of_cons, elem_of_nil in Hp. destruct Hp as [-> | [-> | [-> | []]]]; done.
  - rewrite fmap_cons, NoDup_cons. split; [|done]. intros (d & Ekey & Hin)%list_elem_of_fmap. rewrite Forall_forall in Hfar. apply (Hfar d Hin). by injection Ekey as _ <-.
Qed.
End cluster.

(** * Stable sorting *)

Lemma filter_kept {A} (P : A -> Prop) `{forall x, Decision (P x)} l : Forall P l -> filter P l = l.
Proof. induction 1 as [|x l Hx _ IH]; [done|]. by rewrite filter_cons_True, IH. Qed.

Lemma filter_dropped {A} (P : A -> Prop) `{forall x, Decision (P x)} l : Forall (fun x => ~ P x) l -> filter P l = [].
Proof. induction 1 as [|x l Hx _ IH]; [done|]. by rewrite filter_cons_False. Qed.

Section sort.
Context {A : Type} (le : A -> A -> bool) (P : A -> Prop) `{forall x, Decision (P x)}.
Context (Htotal : forall a b, le a b = true \/ le b a = true) (Htrans : forall a b c, le a b = true -> le b c = true -> le a c = true).

Lemma insert_by_first x l : Forall (fun y => le x y = true) l -> insert_by le x l = x :: l.
Proof. destruct 1 as [|y l Hy _]; [done|]. cbn. by rewrite Hy. Qed.

Lemma filter_insert_by x l :
  StronglySorted (fun a b => le a b = true) l -> filter P (insert_by le x l) = if decide (P x) then insert_by le x (filter P l) else filter P l.
Proof using Htrans.
  induction 1 as [|y l Hs IH Hy]; cbn [insert_by]; [rewrite filter_cons, filter_nil; done|]. destruct (le x y) eqn:Exy.
  - rewrite (filter_cons P x). destruct (decide (P x)); [|done]. rewrite insert_by_first; [done|]. apply Forall_kept. constructor; [done|].
    eapply Forall_impl; [exact Hy|]. intros z. by apply Htrans.
  - rewrite (filter_cons P y), IH, filter_cons. destruct (decide (P x)), (decide (P y)); try done. cbn [insert_by]. by rewrite Exy.
Qed.

Lemma sort_by_id l : StronglySorted (fun a b => le a b = true) l -> sort_by le l = l.
Proof. induction 1 as [|y l Hs IH Hy]; [done|]. cbn. fold (sort_by le l). rewrite IH. by apply insert_by_first. Qed.

(** Sorting keeps the order of a part that is in order. *)
Lemma filter_sort_by l : StronglySorted (fun a b => le a b = true) (filter P l) -> filter P (sort_by le l) = filter P l.
Proof using Htotal Htrans.
  intros Hs. transitivity (sort_by le (filter P l)); [|by apply sort_by_id]. clear Hs. induction l as [|x l IH]; [done|].
  rewrite filter_cons. change (sort_by le (x :: l)) with (insert_by le x (sort_by le l)). rewrite filter_insert_by, IH by (by apply sort_by_sorted).
  by destruct (decide (P x)).
Qed.
End sort.

(** * The schedule *)

Section schedule.
Context (newGen : Z -> GenRand) (Hgen : forall seed, gen_ok (newGen seed)).

(** What the generator puts together. *)
Lemma generated_parts seed nodeIDs until :
  NoDup nodeIDs -> nodeIDs <> [] -> 0 <= until <= max_i64 ->
  exists pairs others crashes,
    GenerateFaultSchedule newGen seed nodeIDs until =
      Ok (mkFaultSchedule FaultScheduleGeneratorVersion crashes (sortFaultEvents (pairEvents pairs ++ others)) []) /\
    Forall (pair_ok nodeIDs until) pairs /\ length pairs = 6%nat /\ StronglySorted Z.le (fv_Time <$> pairEvents pairs) /\
    Forall (fun e => event_ok nodeIDs e /\ stateful (fv_Kind e) = false) others /\
    Forall (crash_ok nodeIDs 0) crashes /\ NoDup (directive_key <$> crashes).
Proof using Hgen.
  intros Hnd Hne Huntil. unfold GenerateFaultSchedule. destruct (Nat.eqb_spec (length nodeIDs) 0) as [H%nil_length_inv|_]; [done|].
  destruct (drawPairs pairCount nodeIDs until (newGen seed)) as [ps g1] eqn:Ep. destruct (drawPairs_ok _ _ Hnd Hne Huntil _ _ _ _ (Hgen seed) Ep) as (Hps & Hlen & Hg1).
  destruct (drawSolos soloCount nodeIDs until g1) as [solos g2] eqn:Es. destruct (drawSolos_ok _ _ Hnd Hne Huntil _ _ _ _ Hg1 Es) as (Hsolo & Hg2).
  destruct (drawCrashes crashCount 0 nodeIDs g2) as [crashes g3] eqn:Ec. destruct (drawCrashes_ok nodeIDs Hne _ 0 _ _ _ Hg2 ltac:(lia) Ec) as [Hc Hcd].
  destruct (normalize_ok nodeIDs until ps Hps) as (Hn1 & Hn2 & Hn3). exists (normalizeFaultPairTimes ps), (solos ++ cleanTail nodeIDs until), crashes.
  split_and!; [done|done|by rewrite Hn2|done| |done|done]. apply Forall_app. split; [done|by apply cleanTail_ok].
Qed.

Lemma parts_valid nodeIDs until pairs others crashes :
  Forall (pair_ok nodeIDs until) pairs -> Forall (fun e => event_ok nodeIDs e /\ stateful (fv_Kind e) = false) others ->
  Forall (crash_ok nodeIDs 0) crashes -> NoDup (directive_key <$> crashes) ->
  ValidateForCluster nodeIDs (mkFaultSchedule FaultScheduleGeneratorVersion crashes (sortFaultEvents (pairEvents pairs ++ others)) []) = None.
Proof.
  intros Hps Hos Hcs Hcd. assert (Forall (event_ok nodeIDs) (sortFaultEvents (pairEvents pairs ++ others))) as Hev.
  { unfold sortFaultEvents. rewrite sort_by_perm, Forall_app. split; [apply pairEvents_Forall|]; (eapply Forall_impl; [done|]); [by intros p (_ & ? & ? & _)|by intros e [? _]]. }
  rewrite Forall_forall in Hev. pose proof (proj1 (Forall_forall (crash_ok nodeIDs 0) crashes) Hcs) as Hc. unfold ValidateForCluster, Validate. cbn [fs_Version fs_Events fs_Crashes fs_LSMCrashes].
  rewrite (proj2 (firstError_None validateEvent _)), (proj2 (firstError_None (eventMembers nodeIDs) _)) by (intros e He; by apply Hev).
  rewrite (proj2 (firstError_None (fun d => memberOf nodeIDs (cd_Node d)) _)) by (intros d Hd; apply memberOf_None; by apply (Hc d Hd)).
  unfold validateCrashDirectives. rewrite (proj2 (checkCrashDirectives_None crashes ∅)); [done|]. split_and!; [|done|set_solver].
  apply Forall_forall. intros d Hd. by apply (Hc d Hd).
Qed.

(** C36. Generated schedules are valid: whatever a seeded source draws, the generator returns a
    schedule, with rates, clock multipliers, times, targets and crash points that the
    validation for its cluster accepts, for every non-empty cluster of distinct nodes and
    every horizon that is not negative. *)
Theorem generated_schedule_valid seed nodeIDs until :
  NoDup nodeIDs -> nodeIDs <> [] -> 0 <= until <= max_i64 ->
  exists schedule, GenerateFaultSchedule newGen seed nodeIDs until = Ok schedule /\ ValidateForCluster nodeIDs schedule = None.
Proof using Hgen.
  intros Hnd Hne Huntil. destruct (generated_parts seed nodeIDs until Hnd Hne Huntil) as (pairs & others & crashes & -> & Hps & _ & _ & Hos & Hcs & Hcd).
  eexists. split; [done|]. by eapply parts_valid.
Qed.

(** C37. The stateful faults of a generated schedule, in the order in which they fire, are six
    pairs of an opening fault and the fault that closes it on the same target: each pair is
    closed before the next one opens, at times inside the horizon. *)
Theorem generated_faults_paired seed nodeIDs until schedule :
  NoDup nodeIDs -> nodeIDs <> [] -> 0 <= until <= max_i64 -> GenerateFaultSchedule newGen seed nodeIDs until = Ok schedule ->
  exists pairs, filter (fun e => stateful (fv_Kind e) = true) (fs_Events schedule) = pairEvents pairs /\
    length pairs = 6%nat /\ Forall matched pairs /\ StronglySorted Z.le (fv_Time <$> pairEvents pairs) /\
    Forall (fun e => 0 <= fv_Time e <= until) (pairEvents pairs).
Proof using Hgen.
  intros Hnd Hne Huntil Hs. destruct (generated_parts seed nodeIDs until Hnd Hne Huntil) as (pairs & others & crashes & E & Hps & Hlen & Hsort & Hos & _ & _).
  rewrite E in Hs. injection Hs as <-. cbn [fs_Events]. exists pairs.
  assert (filter (fun e => stateful (fv_Kind e) = true) (pairEvents pairs ++ others) = pairEvents pairs) as Hf.
  { rewrite filter_app. rewrite (filter_kept _ (pairEvents pairs)), (filter_dropped _ others), app_nil_r; [done|..].
    - eapply Forall_impl; [exact Hos|]. cbn. intros e [_ ->]. done.
    - apply pairEvents_Forall. eapply Forall_impl; [exact Hps|]. intros [a b] ([Hk _ _ _] & _). cbn in Hk |- *. destruct (fv_Kind a), (fv_Kind b); done. }
  split_and!; [|done| |done|].
  - unfold sortFaultEvents. rewrite filter_sort_by; [exact Hf|..].
    + intros a b. rewrite !Z.leb_le. lia.
    + intros a b c. rewrite !Z.leb_le. lia.
    + rewrite Hf. clear - Hsort. induction (pairEvents pairs) as [|e es IH]; [constructor|]. cbn in Hsort. apply StronglySorted_inv in Hsort as [H1 H2].
      constructor; [by apply IH|]. rewrite Forall_fmap in H2. eapply Forall_impl; [exact H2|]. intros x. by apply Z.leb_le.
  - eapply Forall_impl; [exact Hps|]. by intros p [? _].
  - apply pairEvents_Forall. eapply Forall_impl; [exact Hps|]. by intros p (_ & _ & _ & ? & ?).
Qed.
End schedule.

(** * A schedule *)

(** Draws that follow the seed and the number of the draw. *)
Definition demo_gen (seed : Z) : GenRand :=
  mkGenRand (mkRand (fun k n => (seed * 7 + Z.of_nat (k * k) * 5 + Z.of_nat (k / 3)) mod n) 0)
    (mkFRand (fun k => S754_finite false (Pos.of_succ_nat (k + 2)) (- Z.of_nat (k + 4))) 0).

Lemma demo_gen_ok seed : gen_ok (demo_gen seed).
Proof.
  split; [intros k n Hn; by apply Z.mod_pos_bound|]. intros k. right. cbn [demo_gen gr_floats fr_fn]. eexists _, _. split; [done|]. split; [lia|].
  rewrite Z.opp_involutive. replace (Z.of_nat (k + 4)) with (2 + Z.of_nat (k + 2)) by lia. rewrite Z.pow_add_r by lia.
  pose proof (Z.pow_gt_lin_r 2 (Z.of_nat (k + 2)) ltac:(lia) ltac:(lia)). lia.
Qed.

Definition demo_nodes : list Z := [1; 2; 3].
Lemma demo_nodes_distinct : NoDup demo_nodes.
Proof. apply (bool_decide_unpack _). vm_compute. exact I. Qed.

Lemma generated_schedule_valid_witness :
  exists schedule, GenerateFaultSchedule demo_gen 4 demo_nodes 1000 = Ok schedule /\ ValidateForCluster demo_nodes schedule = None.
Proof. apply (generated_schedule_valid demo_gen demo_gen_ok 4 demo_nodes 1000 demo_nodes_distinct); [done|split; [lia|vm_compute; discriminate]]. Defined.

Definition demo_generated : FaultSchedule :=
  match GenerateFaultSchedule demo_gen 4 demo_nodes 1000 with Ok s => s | Err _ => emptySchedule end.

Lemma generated_faults_paired_witness :
  (fv_Kind <$> filter (fun e => stateful (fv_Kind e) = true) (fs_Events demo_generated)) =
    [FaultPause; FaultResume; FaultPartition; FaultHeal; FaultPause; FaultResume; FaultPartition; FaultHeal; FaultPartition; FaultHeal; FaultCrash; FaultRestart] /\
  exists pairs, filter (fun e => stateful (fv_Kind e) = true) (fs_Events demo_generated) = pairEvents pairs /\
    length pairs = 6%nat /\ Forall matched pairs /\ StronglySorted Z.le (fv_Time <$> pairEvents pairs) /\
    Forall (fun e => 0 <= fv_Time e <= 1000) (pairEvents pairs).
Proof.
  split; [vm_compute; reflexivity|].
  apply (generated_faults_paired demo_gen demo_gen_ok 4 demo_nodes 1000 demo_generated demo_nodes_distinct);
    [done|split; [lia|vm_compute; discriminate]|vm_compute; reflexivity].
Defined.
