(* ===== verification/SimHarness.v ===== *)
(** The simulation harness (internal/simharness: run.go, batch.go and the validation of
    corpus.go): a run of one seed with a generated or a given schedule, the evidence that is
    collected from it, and batches of seeds.

    The files of a corpus and their JSON decoding, the JSON encoding of schedules and
    Porcupine's search are parameters.  A run is given the number of events that one call of
    [Run] may handle and the number of slices of virtual time; [None] is a run that had too
    few of them. *)

From stdpp Require Import pretty.
From S2P Require Import Prelude Proto RaftLog RaftNode Storage Server Bytes WalRecords CrashStorage MapSM Checker CheckerFacts SimInvariant.
From S2P Require Import DiskLog SimFS Float64 FaultSchedule Heap Workload SimLoop SimBuild FaultGen.

(** * Names *)

Definition CrashPoint_String (p : Z) : string :=
  if p =? CrashHostInitiated then "host-initiated"
  else if p =? CrashBeforeSync then "before-sync"
  else if p =? CrashAfterSyncBeforeSend then "after-sync-before-send"
  else if p =? CrashAfterSend then "after-send"
  else "crashpoint(" +:+ pretty p +:+ ")".

Definition FaultKind_String (k : FaultKind) : string :=
  match k with
  | faultKindUnspecified => "unspecified"
  | FaultDropRate => "drop-rate"
  | FaultDuplicateRate => "duplicate-rate"
  | FaultPartition => "partition"
  | FaultHeal => "heal"
  | FaultPartitionGroups => "partition-groups"
  | FaultHealGroups => "heal-groups"
  | FaultPause => "pause"
  | FaultResume => "resume"
  | FaultClockSkew => "clock-skew"
  | FaultCrash => "crash"
  | FaultRestart => "restart"
  | FaultUnknown n => "faultkind(" +:+ pretty n +:+ ")"
  end.

(** The names of the generated [Op.String]. *)
Definition Op_String (o : Op) : string :=
  match o with
  | OP_UNSPECIFIED => "OP_UNSPECIFIED"
  | Op_PUT => "PUT"
  | Op_DELETE => "DELETE"
  | Op_GET => "GET"
  | Op_UNRECOGNIZED v => pretty v
  end.

(** * Configurations *)

Definition ArtifactVersion : Z := 1.
Definition DefaultDuration : Z := 12000.
Definition DefaultFaultHorizon : Z := 6000.
Definition DefaultRetryScanInterval : Z := 100.
Definition HarnessOperationTimeout : Z := 600.
Definition HarnessThinkTime : Z := 50.
Definition HarnessOperationsPerClient : Z := 40.
Definition MinimumLogicalOperations : Z := 150.
Definition MinimumCompleted : Z := 120.

Definition defaultNodeIDs : list Z := [1; 2; 3; 4; 5].
Definition DefaultNodeIDs : list Z := [] ++ defaultNodeIDs.

Record RunConfig : Type := mkRunConfig {
  rc_Seed : Z;
  rc_Engine : string;
  rc_LSMFlushThreshold : Z;
  rc_Schedule : option FaultSchedule;
  rc_Duration : Z;
  rc_FaultHorizon : Z;
  rc_RetryScanInterval : Z;
  rc_Operations : Z;
  rc_OperationTimeout : Z;
  rc_ThinkTime : Z;
}.

Definition normalizeRunConfig (c : RunConfig) : RunConfig :=
  mkRunConfig (rc_Seed c) (rc_Engine c) (rc_LSMFlushThreshold c) (rc_Schedule c) (orDefault (rc_Duration c) DefaultDuration)
    (orDefault (rc_FaultHorizon c) DefaultFaultHorizon) (orDefault (rc_RetryScanInterval c) DefaultRetryScanInterval)
    (orDefault (rc_Operations c) HarnessOperationsPerClient) (orDefault (rc_OperationTimeout c) HarnessOperationTimeout)
    (orDefault (rc_ThinkTime c) HarnessThinkTime).

Definition withEngine (engine : string) (c : RunConfig) : RunConfig :=
  mkRunConfig (rc_Seed c) engine (rc_LSMFlushThreshold c) (rc_Schedule c) (rc_Duration c) (rc_FaultHorizon c) (rc_RetryScanInterval c)
    (rc_Operations c) (rc_OperationTimeout c) (rc_ThinkTime c).

(** * Evidence *)

Notation counts := (gmap string Z).

Definition countUp (key : string) (m : counts) : counts := <[key := default 0 (m !! key) + 1]> m.

Record Summary : Type := mkSummary {
  su_ArtifactVersion : Z;
  su_Seed : Z;
  su_Engine : string;
  su_LSMFlushThreshold : Z;
  su_ScheduleVersion : Z;
  su_CheckerRan : bool;
  su_Linearizable : bool;
  su_NeutralFaultEvents : Z;
  su_LogicalOperations : Z;
  su_CompletedOperations : Z;
  su_OpenOperations : Z;
  su_Attempts : Z;
  su_OperationCounts : counts;
  su_FaultEventCounts : counts;
  su_CrashPointCounts : counts;
  su_NetworkDrops : Z;
  su_NetworkDuplicates : Z;
  su_MaxConcurrentClients : Z;
  su_FaultsDuringInFlight : Z;
  su_FinalVirtualTime : Z;
  su_WorkloadReportedDone : bool;
  su_AntiVacuityFailure : string;
}.

(** [Result]; a trace line is its time, its format and its arguments. *)
Record SeedResult : Type := mkSeedResult {
  sr_Seed : Z;
  sr_Engine : string;
  sr_LSMFlushThreshold : Z;
  sr_Schedule : FaultSchedule;
  sr_History : History;
  sr_Trace : list (Z * string * list Z);
  sr_Summary : Summary;
}.

Definition baseResult (config : RunConfig) (schedule : FaultSchedule) : SeedResult :=
  mkSeedResult (rc_Seed config) (rc_Engine config) (rc_LSMFlushThreshold config) schedule [] []
    (mkSummary ArtifactVersion (rc_Seed config) (rc_Engine config) (rc_LSMFlushThreshold config) (fs_Version schedule)
       false false 0 0 0 0 0 ∅ ∅ ∅ 0 0 0 0 0 false "").

Definition neutralFaultEvent (e : FaultEvent) : bool :=
  match fv_Kind e with
  | FaultDropRate | FaultDuplicateRate => f64_eqb (fv_Rate e) f64_zero
  | FaultClockSkew => f64_eqb (fv_Multiplier e) (f64_of_int 1)
  | _ => false
  end.

Definition injectedFaultEvent (e : FaultEvent) : bool :=
  match fv_Kind e with
  | FaultDropRate | FaultDuplicateRate => f64_ltb f64_zero (fv_Rate e)
  | FaultClockSkew => negb (f64_eqb (fv_Multiplier e) (f64_of_int 1))
  | FaultPartition | FaultPartitionGroups | FaultPause | FaultCrash => true
  | _ => false
  end.

(** An operation that has not returned before a time. *)
Definition returnsFrom (at_ : Z) (o : Operation) : bool := match op_ReturnTime o with None => true | Some t => at_ <=? t end.

Definition clientSet (catches : Operation -> bool) (h : History) : gset Z :=
  foldl (fun clients o => if catches o then {[ op_ClientID o ]} ∪ clients else clients) ∅ h.

Definition clientsInFlightAt (h : History) (at_ : Z) : Z :=
  Z.of_nat (size (clientSet (fun o => negb (at_ <? op_InvokeTime o) && returnsFrom at_ o) h)).

Definition faultCatchesOperation (at_ : Z) (o : Operation) : bool := if at_ <=? op_InvokeTime o then false else returnsFrom at_ o.

Definition faultInFlightClients (h : History) (at_ : Z) : Z := Z.of_nat (size (clientSet (faultCatchesOperation at_) h)).

Fixpoint mutatingClientInFlightForFault (h : History) (at_ : Z) : bool :=
  match h with
  | [] => false
  | o :: h' =>
      if negb (faultCatchesOperation at_ o) then mutatingClientInFlightForFault h' at_
      else if bool_decide (in_Op (op_Input o) = Op_PUT) || bool_decide (in_Op (op_Input o) = Op_DELETE) then true
      else mutatingClientInFlightForFault h' at_
  end.

Definition maxConcurrentClients (h : History) : Z :=
  foldl (fun best o =>
    let best := let c := clientsInFlightAt h (op_InvokeTime o) in if best <? c then c else best in
    match op_ReturnTime o with
    | None => best
    | Some t => let c := clientsInFlightAt h t in if best <? c then c else best
    end) 0 h.

(** [strings.Contains]. *)
Fixpoint contains (sub s : string) : bool :=
  String.prefix sub s || match s with EmptyString => false | String _ s' => contains sub s' end.

(** [strings.Join] with a separator of two characters. *)
Fixpoint joinStrings (xs : list string) : string :=
  match xs with
  | [] => ""
  | [x] => x
  | x :: xs' => x +:+ "; " +:+ joinStrings xs'
  end.

Definition missingOps (m : counts) : list Op := filter (fun op => default 0 (m !! Op_String op) = 0) [Op_PUT; Op_GET; Op_DELETE].

Definition antiVacuityFailures (s : Summary) : list string :=
  (if su_LogicalOperations s <? MinimumLogicalOperations
   then ["logical operations " +:+ pretty (su_LogicalOperations s) +:+ " < " +:+ pretty MinimumLogicalOperations] else []) ++
  (if su_CompletedOperations s <? MinimumCompleted
   then ["completed operations " +:+ pretty (su_CompletedOperations s) +:+ " < " +:+ pretty MinimumCompleted] else []) ++
  (if su_Attempts s <? su_LogicalOperations s then ["physical attempts fewer than logical operations"] else []) ++
  ((fun op => "no " +:+ Op_String op +:+ " operation") <$> missingOps (su_OperationCounts s)) ++
  (if su_MaxConcurrentClients s <? 2 then ["fewer than two clients overlap"] else []) ++
  (if su_FaultsDuringInFlight s =? 0 then ["no fault fired during an in-flight operation"] else []).

Definition antiVacuityFailure (s : Summary) : string := joinStrings (antiVacuityFailures s).

(** * Aggregates *)

Record BatchConfig : Type := mkBatchConfig {
  bc_StartSeed : Z;
  bc_Count : Z;
  bc_Workers : Z;
  bc_Run : RunConfig;
}.

Record Aggregate : Type := mkAggregate {
  ag_ArtifactVersion : Z;
  ag_Engine : string;
  ag_LSMFlushThreshold : Z;
  ag_StartSeed : Z;
  ag_Count : Z;
  ag_Workers : Z;
  ag_Passed : Z;
  ag_Failed : Z;
  ag_LogicalOperations : Z;
  ag_CompletedOperations : Z;
  ag_OpenOperations : Z;
  ag_Attempts : Z;
  ag_MinLogicalOperations : Z;
  ag_MinCompletedOperations : Z;
  ag_MaxOpenOperations : Z;
  ag_SeedsWithOpenOperations : Z;
  ag_OperationCounts : counts;
  ag_FaultEventCounts : counts;
  ag_CrashPointCounts : counts;
  ag_NetworkDrops : Z;
  ag_NetworkDuplicates : Z;
  ag_FaultsDuringInFlight : Z;
  ag_NeutralFaultEvents : Z;
  ag_FirstFailureSeed : option Z;
  ag_FirstFailure : string;
  ag_FirstViolationSeed : option Z;
}.

Definition addCounts (target source : counts) : counts :=
  union_with (fun a b => Some (a + b)) target source.

(** The body of the loop over the results. *)
Definition addResult (startSeed : Z) (index : nat) (su : Summary) (err : option error) (ag : Aggregate) : Aggregate :=
  let seed := startSeed +i Z.of_nat index in
  let violation := if su_CheckerRan su && negb (su_Linearizable su) && bool_decide (ag_FirstViolationSeed ag = None) then Some seed else ag_FirstViolationSeed ag in
  let '(passed, failed, failureSeed, failure) :=
    match err with
    | Some e =>
        match ag_FirstFailureSeed ag with
        | None => (ag_Passed ag, ag_Failed ag + 1, Some seed, e)
        | Some first => (ag_Passed ag, ag_Failed ag + 1, Some first, ag_FirstFailure ag)
        end
    | None => (ag_Passed ag + 1, ag_Failed ag, ag_FirstFailureSeed ag, ag_FirstFailure ag)
    end in
  mkAggregate (ag_ArtifactVersion ag) (ag_Engine ag) (ag_LSMFlushThreshold ag) (ag_StartSeed ag) (ag_Count ag) (ag_Workers ag) passed failed
    (ag_LogicalOperations ag + su_LogicalOperations su) (ag_CompletedOperations ag + su_CompletedOperations su) (ag_OpenOperations ag + su_OpenOperations su)
    (ag_Attempts ag + su_Attempts su)
    (if Nat.eqb index 0 || (su_LogicalOperations su <? ag_MinLogicalOperations ag) then su_LogicalOperations su else ag_MinLogicalOperations ag)
    (if Nat.eqb index 0 || (su_CompletedOperations su <? ag_MinCompletedOperations ag) then su_CompletedOperations su else ag_MinCompletedOperations ag)
    (if ag_MaxOpenOperations ag <? su_OpenOperations su then su_OpenOperations su else ag_MaxOpenOperations ag)
    (if 0 <? su_OpenOperations su then ag_SeedsWithOpenOperations ag + 1 else ag_SeedsWithOpenOperations ag)
    (addCounts (ag_OperationCounts ag) (su_OperationCounts su)) (addCounts (ag_FaultEventCounts ag) (su_FaultEventCounts su))
    (addCounts (ag_CrashPointCounts ag) (su_CrashPointCounts su)) (ag_NetworkDrops ag + su_NetworkDrops su)
    (ag_NetworkDuplicates ag + su_NetworkDuplicates su) (ag_FaultsDuringInFlight ag + su_FaultsDuringInFlight su)
    (ag_NeutralFaultEvents ag + su_NeutralFaultEvents su) failureSeed failure violation.

Fixpoint addResults (startSeed : Z) (index : nat) (results : list (Summary * option error)) (ag : Aggregate) : Aggregate :=
  match results with
  | [] => ag
  | (su, err) :: results' => addResults startSeed (S index) results' (addResult startSeed index su err ag)
  end.

(** The kinds from [FaultDropRate] to [FaultRestart]. *)
Definition faultKinds : list FaultKind :=
  [FaultDropRate; FaultDuplicateRate; FaultPartition; FaultHeal; FaultPartitionGroups; FaultHealGroups; FaultPause; FaultResume; FaultClockSkew; FaultCrash; FaultRestart].

Definition missingCoverage (ag : Aggregate) : list string :=
  ((fun op => "operation " +:+ Op_String op) <$> missingOps (ag_OperationCounts ag)) ++
  ((fun k => "fault " +:+ FaultKind_String k) <$> filter (fun k => default 0 (ag_FaultEventCounts ag !! FaultKind_String k) = 0) faultKinds) ++
  ((fun p => "crash point " +:+ CrashPoint_String p) <$> filter (fun p => default 0 (ag_CrashPointCounts ag !! CrashPoint_String p) = 0)
     [CrashBeforeSync; CrashAfterSyncBeforeSend; CrashAfterSend]) ++
  (if ag_NetworkDrops ag =? 0 then ["actual network drop"] else []) ++
  (if ag_NetworkDuplicates ag =? 0 then ["actual network duplicate"] else []).

Definition aggregateCoverageError (ag : Aggregate) : option error :=
  match missingCoverage ag with
  | [] => None
  | missing => Some ("batch coverage missing: [" +:+ String.concat " " (sort_by String.leb missing) +:+ "]")
  end.

(** A batch of runs that all passed, but do not cover what they should. *)
Definition failCoverage (e : error) (ag : Aggregate) : Aggregate :=
  mkAggregate (ag_ArtifactVersion ag) (ag_Engine ag) (ag_LSMFlushThreshold ag) (ag_StartSeed ag) (ag_Count ag) (ag_Workers ag) (ag_Passed ag - 1) 1
    (ag_LogicalOperations ag) (ag_CompletedOperations ag) (ag_OpenOperations ag) (ag_Attempts ag) (ag_MinLogicalOperations ag) (ag_MinCompletedOperations ag)
    (ag_MaxOpenOperations ag) (ag_SeedsWithOpenOperations ag) (ag_OperationCounts ag) (ag_FaultEventCounts ag) (ag_CrashPointCounts ag) (ag_NetworkDrops ag)
    (ag_NetworkDuplicates ag) (ag_FaultsDuringInFlight ag) (ag_NeutralFaultEvents ag) (ag_FirstFailureSeed ag) e (ag_FirstViolationSeed ag).

Section harness.
Context {E M : Type} {engine : SimEngine E M}.
Context (newRand : Z -> Rand) (newFloats : Z -> nat -> float64) (newEnv : Z -> E) (marshal : Command -> result bytes) (newGen : Z -> GenRand).
Context (marshalSchedule : FaultSchedule -> result bytes) (unmarshalSchedule : bytes -> result FaultSchedule).
Context {model : Type} (kvModel : model) (checkEvents : model -> list Event -> bool).
Notation simulator := (Simulator E M).

(** [WorkloadHistory], [WorkloadAttempts], [WorkloadClients] and [WorkloadDone]. *)
Definition WorkloadHistory (s : simulator) : History := match s_workload s with None => [] | Some w => getHistory (rn_recorder (sw_runner w)) end.
Definition WorkloadAttempts (s : simulator) : list AttemptRecord := match s_workload s with None => [] | Some w => rn_attempts (sw_runner w) end.
Definition WorkloadClients (s : simulator) : list ClientSnapshot := match s_workload s with None => [] | Some w => runner_Clients (sw_runner w) end.
Definition WorkloadDone (s : simulator) : bool := match s_workload s with None => false | Some w => runner_Done (sw_runner w) end.

Definition collectResult (seed : Z) (engineName : string) (lsmFlushThreshold : Z) (schedule : FaultSchedule) (s : simulator) : SeedResult :=
  let history := WorkloadHistory s in
  let fired := filter (fun e => fv_Time e <= s_now s) (fs_Events schedule) in
  let faults := filter (fun e => neutralFaultEvent e = false) fired in
  let caught := filter (fun e => injectedFaultEvent e = true /\ 0 < faultInFlightClients history (fv_Time e)) faults in
  let crashed := filter (fun f => 0 < clientsInFlightAt history (cf_Time f)) (s_crashFirings s) in
  let drops := filter (fun l => contains " drop(fault)" (l.1).2 = true) (s_trace s) in
  let duplicates := filter (fun l => contains " drop(fault)" (l.1).2 = false /\ contains " duplicate(fault)" (l.1).2 = true) (s_trace s) in
  let summary := mkSummary ArtifactVersion seed engineName lsmFlushThreshold (fs_Version schedule) false false
    (Z.of_nat (length fired) - Z.of_nat (length faults))
    (Z.of_nat (length history))
    (Z.of_nat (length (filter (fun o => op_ReturnTime o <> None) history)))
    (Z.of_nat (length (filter (fun o => op_ReturnTime o = None) history)))
    (Z.of_nat (length (WorkloadAttempts s)))
    (foldl (fun m o => countUp (Op_String (in_Op (op_Input o))) m) ∅ history)
    (foldl (fun m e => countUp (FaultKind_String (fv_Kind e)) m) ∅ faults)
    (foldl (fun m f => countUp (CrashPoint_String (cf_Point f)) m) ∅ (s_crashFirings s))
    (Z.of_nat (length drops)) (Z.of_nat (length duplicates)) (maxConcurrentClients history)
    (Z.of_nat (length caught) + Z.of_nat (length crashed)) (s_now s) (WorkloadDone s) "" in
  mkSeedResult seed engineName lsmFlushThreshold schedule history (s_trace s) summary.

(** * A run *)

Definition EncodeFaultSchedule : FaultSchedule -> result bytes := marshalSchedule.

Definition DecodeFaultSchedule (data : bytes) : result FaultSchedule :=
  match unmarshalSchedule data with
  | Err e => Err ("sim: decode fault schedule: " +:+ e)
  | Ok schedule => match Validate schedule with Some e => Err e | None => Ok schedule end
  end.

(** [scheduleFor] of run.go. *)
Definition scheduleOf (config : RunConfig) : result FaultSchedule :=
  match rc_Schedule config with
  | Some schedule => match EncodeFaultSchedule schedule with Err e => Err e | Ok data => DecodeFaultSchedule data end
  | None => GenerateFaultSchedule newGen (rc_Seed config) defaultNodeIDs (rc_FaultHorizon config)
  end.

(** The retries of the clients whose operation has timed out. *)
Fixpoint retryClients (clients : list ClientSnapshot) (s : simulator) : simulator * option error :=
  match clients with
  | [] => (s, None)
  | client :: clients' =>
      if negb (csn_TimedOut client) then retryClients clients' s
      else match ScheduleWorkloadRetry (csn_ClientID client) (s_now s +i 1) s with
           | (s1, Some e) => (s1, Some ("schedule retry for client: " +:+ e))
           | (s1, None) => retryClients clients' s1
           end
  end.

(** The loop over slices of virtual time. *)
Fixpoint runSlices (fuel slices : nat) (config : RunConfig) (through : Z) (s : simulator) : option (simulator * option error) :=
  if rc_Duration config <? through then Some (s, None)
  else match sim_Run marshal fuel through s with
       | None => None
       | Some (s1, Some e) => Some (s1, Some ("simulator invariant: " +:+ e))
       | Some (s1, None) =>
           if through =? rc_Duration config then Some (s1, None)
           else match retryClients (WorkloadClients s1) s1 with
                | (s2, Some e) => Some (s2, Some e)
                | (s2, None) =>
                    match slices with
                    | O => None
                    | S slices' => runSlices fuel slices' config (through +i rc_RetryScanInterval config) s2
                    end
                end
       end.

(** The loop, and the rest of a duration that the interval does not divide. *)
Definition runAll (fuel slices : nat) (config : RunConfig) (s : simulator) : option (simulator * option error) :=
  match runSlices fuel slices config (rc_RetryScanInterval config) s with
  | Some (s1, None) =>
      if s_now s1 <? rc_Duration config
      then match sim_Run marshal fuel (rc_Duration config) s1 with
           | Some (s2, Some e) => Some (s2, Some ("simulator invariant: " +:+ e))
           | r => r
           end
      else Some (s1, None)
  | r => r
  end.

Definition runWorkload (config : RunConfig) : WorkloadConfig :=
  mkWorkloadConfig 0 DefaultClientCount 0 DefaultKeyCount (rc_Operations config) (rc_OperationTimeout config) DefaultRetryDelay (rc_ThinkTime config) 0 [].

Definition runSimConfig (config : RunConfig) : SimConfig :=
  mkSimConfig (rc_Seed config) (rc_Engine config) (rc_LSMFlushThreshold config) defaultNodeIDs 0 0 0 0 0 0.

(** The verdict on a run that went through. *)
Definition withVerdict (linearizable : bool) (s : Summary) : Summary :=
  mkSummary (su_ArtifactVersion s) (su_Seed s) (su_Engine s) (su_LSMFlushThreshold s) (su_ScheduleVersion s) true linearizable
    (su_NeutralFaultEvents s) (su_LogicalOperations s) (su_CompletedOperations s) (su_OpenOperations s) (su_Attempts s) (su_OperationCounts s)
    (su_FaultEventCounts s) (su_CrashPointCounts s) (su_NetworkDrops s) (su_NetworkDuplicates s) (su_MaxConcurrentClients s)
    (su_FaultsDuringInFlight s) (su_FinalVirtualTime s) (su_WorkloadReportedDone s) (antiVacuityFailure s).

Definition judge (result : SeedResult) : SeedResult * option error :=
  let linearizable := CheckHistory kvModel checkEvents (sr_History result) in
  let summary := withVerdict linearizable (sr_Summary result) in
  let result := mkSeedResult (sr_Seed result) (sr_Engine result) (sr_LSMFlushThreshold result) (sr_Schedule result) (sr_History result) (sr_Trace result) summary in
  (result, if negb linearizable then Some "Porcupine found a linearizability violation"
           else if negb (bool_decide (su_AntiVacuityFailure summary = "")) then Some ("weak workload: " +:+ su_AntiVacuityFailure summary)
           else None).

(** The configuration that [RunSeed] works with. *)
Definition effectiveConfig (config : RunConfig) : RunConfig :=
  let c := normalizeRunConfig config in if bool_decide (rc_Engine c = "") then withEngine "map" c else c.

Definition RunSeed (fuel slices : nat) (config : RunConfig) : option (SeedResult * option error) :=
  let config := effectiveConfig config in
  match scheduleOf config with
  | Err e => Some (baseResult config emptySchedule, Some e)
  | Ok schedule =>
      let base := baseResult config schedule in
      if rc_LSMFlushThreshold config <? 0 then Some (base, Some "negative LSM flush threshold")
      else if bool_decide (rc_Engine config = "map") && negb (rc_LSMFlushThreshold config =? 0)
      then Some (base, Some "LSM flush threshold requires engine lsm")
      else match NewFaultSim newRand newFloats newEnv (runSimConfig config) schedule with
           | Err e => Some (base, Some ("build fault sim: " +:+ e))
           | Ok s0 =>
               match StartWorkload newRand newEnv marshal (runWorkload config) (RegisterInvariant SingleLeaderPerTerm s0) with
               | (_, Some e) => Some (base, Some ("start workload: " +:+ e))
               | (s1, None) =>
                   match runAll fuel slices config s1 with
                   | None => None
                   | Some (s2, err) =>
                       let result := collectResult (rc_Seed config) (rc_Engine config) (rc_LSMFlushThreshold config) schedule s2 in
                       match err with
                       | Some e => Some (result, Some e)
                       | None => Some (judge result)
                       end
                   end
               end
           end
  end.

(** * Batches *)

Definition seedConfig (config : BatchConfig) (index : nat) : RunConfig :=
  let run := bc_Run config in
  mkRunConfig (bc_StartSeed config +i Z.of_nat index) (rc_Engine run) (rc_LSMFlushThreshold run) (rc_Schedule run) (rc_Duration run) (rc_FaultHorizon run)
    (rc_RetryScanInterval run) (rc_Operations run) (rc_OperationTimeout run) (rc_ThinkTime run).

(** The results of the workers: each seed has a slot of its own, whoever runs it. *)
Fixpoint runSeeds (fuel slices : nat) (config : BatchConfig) (index n : nat) : option (list (Summary * option error)) :=
  match n with
  | O => Some []
  | S n' =>
      match RunSeed fuel slices (seedConfig config index), runSeeds fuel slices config (S index) n' with
      | Some (result, err), Some rest => Some ((sr_Summary result, err) :: rest)
      | _, _ => None
      end
  end.

(** [procs] is [runtime.GOMAXPROCS(0)]. *)
Definition RunBatch (fuel slices : nat) (procs : Z) (config : BatchConfig) : option Aggregate :=
  let count := if bc_Count config <? 0 then 0 else bc_Count config in
  let workers := if bc_Workers config <=? 0 then procs else bc_Workers config in
  let workers := if workers <? 1 then 1 else workers in
  let workers := if (count <? workers) && (0 <? count) then count else workers in
  match runSeeds fuel slices config 0 (Z.to_nat count) with
  | None => None
  | Some results =>
      let engineName := if bool_decide (rc_Engine (bc_Run config) = "") then "map" else rc_Engine (bc_Run config) in
      let ag := addResults (bc_StartSeed config) 0 results
        (mkAggregate ArtifactVersion engineName (rc_LSMFlushThreshold (bc_Run config)) (bc_StartSeed config) count workers
           0 0 0 0 0 0 0 0 0 0 ∅ ∅ ∅ 0 0 0 0 None "" None) in
      Some (if ag_Failed ag =? 0
            then match aggregateCoverageError ag with Some e => failCoverage e ag | None => ag end
            else ag)
  end.
End harness.

(** * The corpus *)

Definition CorpusArtifactVersion : Z := 1.
Definition CorpusManifestFile : string := "manifest.json".
Definition CorpusGeneratedDir : string := "generated".

Record CorpusEntry : Type := mkCorpusEntry {
  ce_Name : string;
  ce_Seed : Z;
  ce_Schedule : string;
}.

Record CorpusManifest : Type := mkCorpusManifest {
  cm_ArtifactVersion : Z;
  cm_GeneratorVersion : Z;
  cm_Scripted : list CorpusEntry;
  cm_Pinned : CorpusEntry;
}.

Record Corpus : Type := mkCorpus {
  co_Manifest : CorpusManifest;
  co_Generated : list CorpusEntry;
}.

(** The digits of a name that [generatedSeedPattern] matches. *)
Definition generatedSeedDigits (name : string) : option string :=
  if String.prefix "seed-" name
  then match cutSuffix (String.substring 5 (String.length name - 5) name) ".json" with
       | Some digits => if bool_decide (digits = "") || negb (all_digits digits) then None else Some digits
       | None => None
       end
  else None.

(** [strconv.ParseInt(s, 10, 64)] of digits. *)
Definition parseSeed (digits : string) : option Z := let n := digits_value 0 digits in if max_i64 <? n then None else Some n.

Section corpus.
(** [readFile] and [readDir] read below the directory of the corpus; an entry of a directory
    is its name and whether it is a directory. *)
Context (readFile : string -> result bytes) (readDir : string -> result (list (string * bool))).
Context (unmarshalManifest : bytes -> result CorpusManifest) (unmarshalSchedule : bytes -> result FaultSchedule).

Definition ReadCorpusSchedule (entry : CorpusEntry) : result FaultSchedule :=
  match readFile (ce_Schedule entry) with
  | Err e => Err ("corpus entry: " +:+ e)
  | Ok data => match DecodeFaultSchedule unmarshalSchedule data with Err e => Err ("corpus entry: " +:+ e) | Ok schedule => Ok schedule end
  end.

Fixpoint checkScripted (entries : list CorpusEntry) : option error :=
  match entries with
  | [] => None
  | entry :: entries' =>
      match ReadCorpusSchedule entry with
      | Err e => Some e
      | Ok schedule => if negb (fs_Version schedule =? 0) then Some "corpus scripted entry: version" else checkScripted entries'
      end
  end.

Definition checkPinned (m : CorpusManifest) : option error :=
  if bool_decide (ce_Schedule (cm_Pinned m) = "") then None
  else match ReadCorpusSchedule (cm_Pinned m) with
       | Err e => Some e
       | Ok pinned =>
           if negb (fs_Version pinned =? 0) && negb (fs_Version pinned =? cm_GeneratorVersion m) then Some "corpus pinned entry: schedule version"
           else if ce_Seed (cm_Pinned m) =? 0 then Some "corpus pinned entry: seed 0" else None
       end.

Fixpoint loadGenerated (version : Z) (names : list (string * bool)) : result (list CorpusEntry) :=
  match names with
  | [] => Ok []
  | (name, isDir) :: names' =>
      if isDir : bool then loadGenerated version names'
      else match generatedSeedDigits name with
           | None => Err "corpus generated file does not match seed-<N>.json"
           | Some digits =>
               match parseSeed digits with
               | None => Err "corpus generated file: seed out of range"
               | Some seed =>
                   let entry := mkCorpusEntry ("generated-" +:+ name) seed (CorpusGeneratedDir +:+ "/" +:+ name) in
                   match ReadCorpusSchedule entry with
                   | Err e => Err e
                   | Ok schedule =>
                       if negb (fs_Version schedule =? version) then Err "corpus generated file: version"
                       else match loadGenerated version names' with Err e => Err e | Ok rest => Ok (entry :: rest) end
                   end
               end
           end
  end.

Definition LoadCorpus : result Corpus :=
  match readFile CorpusManifestFile with
  | Err e => Err ("corpus manifest: " +:+ e)
  | Ok data =>
      match unmarshalManifest data with
      | Err e => Err ("corpus manifest: " +:+ e)
      | Ok manifest =>
          if negb (cm_ArtifactVersion manifest =? CorpusArtifactVersion) then Err "corpus manifest artifact version"
          else if negb (cm_GeneratorVersion manifest =? FaultScheduleGeneratorVersion) then Err "corpus manifest generator version"
          else match checkScripted (cm_Scripted manifest) with
               | Some e => Err e
               | None =>
                   match checkPinned manifest with
                   | Some e => Err e
                   | None =>
                       match readDir CorpusGeneratedDir with
                       | Err e => Err ("corpus generated dir: " +:+ e)
                       | Ok names =>
                           match loadGenerated (cm_GeneratorVersion manifest) names with
                           | Err e => Err e
                           | Ok generated => Ok (mkCorpus manifest (sort_by (fun a b => ce_Seed a <=? ce_Seed b) generated))
                           end
                       end
                   end
               end
      end
  end.
End corpus.
