(* ===== verification/SimHarnessFacts.v ===== *)
(** What the harness reports of runs with the map state machine: a generated schedule is
    always run, the run ends, the checks of the simulator never fail, and the history is
    linearizable, so that a search that accepts linearizable histories never reports a
    violation. *)

From stdpp Require Import functions pretty sorting.
From S2P Require Import Prelude Proto RaftLog RaftNode RaftSpec Storage Server NodeFacts HostFacts Cluster SimCluster Bytes WalRecords CrashStorage Safety.
From S2P Require Import MapSM Checker CheckerFacts SimInvariant DiskLog SimFS Float64 FaultSchedule Heap Workload SimLoop SimBuild WorkloadFacts SimStore.
From S2P Require Import SimFrame SimRefine SimSafety SimTime SimRuns Linearize SimWork SimHistory SimLinearizable FaultGen FaultGenFacts SimHarness.

Section run.
Context (newRand : Z -> Rand) (newFloats : Z -> nat -> float64) (newEnv : Z -> unit) (marshal : Command -> result bytes) (unmarshal : bytes -> option Command).
Context (Hcodec : forall c d, marshal c = Ok d -> unmarshal d = Some c) (Hrand : forall seed, rand_ok (newRand seed)).

#[local] Hint Extern 0 (SimEngine unit MapSM) => exact (map_engine unmarshal) : typeclass_instances.
#[local] Hint Extern 0 (WorkloadHost _) => exact (simulator_WorkloadHost marshal) : typeclass_instances.
Notation simulator := (Simulator unit MapSM).

(** * Slices of a run *)

(** A state of a stretch of time, seen from another one. *)
Lemma bounded_at until until' (s : simulator) : bounded until s -> s_now s <= until' -> bounded until' s.
Proof. intros [B1 B2 B3 B4 B5 B6] Hn. by split. Qed.

(** A retry is scheduled ahead. *)
Lemma retry_bounded until client (s : simulator) : until <= 2 ^ 61 -> bounded until s -> bounded until (ScheduleWorkloadRetry client (s_now s +i 1) s).1.
Proof.
  intros Hu HB. unfold ScheduleWorkloadRetry. destruct (s_workload s); [|done]. case_bool; [done|]. destruct (RetryEvent _ _); [|done]. cbn [fst].
  destruct HB as [B1 B2 B3 B4 B5 B6]. split; try done. apply pushAt_timely; [|done]. pose proof (ty_now _ B1). unfold i64_add. rewrite i64_id; unfold max_i64; lia.
Qed.

Lemma retryClients_bounded until clients (s : simulator) : until <= 2 ^ 61 -> bounded until s -> bounded until (retryClients clients s).1.
Proof.
  intros Hu. revert s. induction clients as [|c clients IH]; intros s HB; cbn [retryClients]; [done|]. case_bool; [by apply IH|].
  pose proof (retry_bounded until (csn_ClientID c) s Hu HB) as H1. destruct (ScheduleWorkloadRetry _ _ s) as [s1 [e|]]; cbn [fst] in H1; [done|by apply IH].
Qed.

(** More events and slices than enough change nothing. *)
Lemma runSlices_mono fuel fuel' slices slices' config through (s : simulator) x :
  (fuel <= fuel')%nat -> (slices <= slices')%nat -> runSlices marshal fuel slices config through s = Some x -> runSlices marshal fuel' slices' config through s = Some x.
Proof.
  intros Hf. revert slices' through s. induction slices as [|slices IH]; intros slices' through s Hs Hr; cbn [runSlices] in Hr; destruct slices' as [|slices']; try lia; cbn [runSlices].
  all: case_bool; [done|]; destruct (sim_Run marshal fuel through s) as [[s1 err]|] eqn:Er; [|done]; rewrite (sim_Run_mono marshal _ _ _ _ _ Er Hf); destruct err as [e|]; [done|].
  all: case_bool; [done|]; destruct (retryClients _ s1) as [s2 [e|]]; [done|]. 1,2: done. apply IH; [lia|done].
Qed.

Lemma runAll_mono fuel fuel' slices slices' config (s : simulator) x :
  (fuel <= fuel')%nat -> (slices <= slices')%nat -> runAll marshal fuel slices config s = Some x -> runAll marshal fuel' slices' config s = Some x.
Proof.
  intros Hf Hs. unfold runAll. destruct (runSlices marshal fuel slices config _ s) as [[s1 err]|] eqn:Er; [|done]. rewrite (runSlices_mono _ _ _ _ _ _ _ _ Hf Hs Er).
  destruct err; [done|]. case_bool; [|done]. destruct (sim_Run marshal fuel _ s1) as [[s2 err2]|] eqn:E2; [|done]. by rewrite (sim_Run_mono marshal _ _ _ _ _ E2 Hf).
Qed.

(** The times of the harness. *)
Definition run_lengths (config : RunConfig) : Prop := rc_Duration config <= 2 ^ 60 /\ 0 < rc_RetryScanInterval config <= 2 ^ 60.

Lemma next_slice config through : run_lengths config -> 0 < through <= rc_Duration config ->
  through +i rc_RetryScanInterval config = through + rc_RetryScanInterval config /\ through + rc_RetryScanInterval config <= 2 ^ 61.
Proof. intros [H1 H2] H3. split; [|lia]. unfold i64_add. apply i64_id. unfold max_i64. lia. Qed.

(** The loop over the slices ends. *)
Lemma runSlices_ends config through (s : simulator) :
  run_lengths config -> 0 < through <= 2 ^ 61 -> bounded through s ->
  exists fuel slices s' err, runSlices marshal fuel slices config through s = Some (s', err) /\ bounded (2 ^ 61) s'.
Proof.
  intros Hl. remember (Z.to_nat (rc_Duration config - through)) as n eqn:En. revert through En s. induction n as [n IH] using lt_wf_ind. intros through -> s Ht HB.
  destruct (rc_Duration config <? through) eqn:Ed.
  { exists 0%nat, 0%nat, s, None. cbn [runSlices]. rewrite Ed. split; [done|]. eapply bounded_later; [|exact HB]; lia. }
  apply Z.ltb_ge in Ed as Hd. destruct (bounded_ends (engine := map_engine unmarshal) (fun _ => eq_refl) marshal through s ltac:(lia) HB) as (fuel & s1 & err & Er & HB1).
  destruct err as [e|]; [exists fuel, 0%nat, s1; eexists; cbn [runSlices]; rewrite Ed, Er; split; [done|]; eapply bounded_later; [|exact HB1]; lia|].
  destruct (through =? rc_Duration config) eqn:Et; [exists fuel, 0%nat, s1, None; cbn [runSlices]; rewrite Ed, Er, Et; split; [done|]; eapply bounded_later; [|exact HB1]; lia|].
  pose proof (retryClients_bounded through (WorkloadClients s1) s1 ltac:(lia) HB1) as HB2. destruct (retryClients (WorkloadClients s1) s1) as [s2 [e|]] eqn:E2; cbn [fst] in HB2.
  { exists fuel, 0%nat, s2, (Some e). cbn [runSlices]. rewrite Ed, Er, Et, E2. split; [done|]. eapply bounded_later; [|exact HB2]; lia. }
  destruct (next_slice config through Hl ltac:(lia)) as [En Hn]. destruct Hl as [Hl1 Hl2]. apply Z.eqb_neq in Et as Hne.
  destruct (IH (Z.to_nat (rc_Duration config - (through + rc_RetryScanInterval config)))) with (through := through + rc_RetryScanInterval config) (s := s2) as (fuel' & slices' & s' & err & Er' & HB');
    [lia|done|lia|eapply bounded_later; [|exact HB2]; lia|].
  exists (fuel + fuel')%nat, (S slices'), s', err. split; [|done]. cbn [runSlices]. rewrite Ed, (sim_Run_mono marshal _ _ _ _ _ Er), Et, E2, En by lia.
  by apply (runSlices_mono fuel' _ slices' _); [lia|lia|].
Qed.

Lemma runAll_ends config (s : simulator) : run_lengths config -> bounded 0 s -> exists fuel slices x, runAll marshal fuel slices config s = Some x.
Proof.
  intros Hl HB. destruct (runSlices_ends config (rc_RetryScanInterval config) s Hl) as (fuel & slices & s1 & err & Er & HB1).
  { destruct Hl. lia. }
  { eapply bounded_later; [|exact HB]. destruct Hl. lia. }
  destruct err as [e|]; [exists fuel, slices; eexists; unfold runAll; by rewrite Er|]. destruct (s_now s1 <? rc_Duration config) eqn:En; [|exists fuel, slices; eexists; unfold runAll; by rewrite Er, En].
  apply Z.ltb_lt in En as Hn. destruct (bounded_ends (engine := map_engine unmarshal) (fun _ => eq_refl) marshal (rc_Duration config) s1) as (fuel' & s2 & err & E2 & _); [destruct Hl; lia|eapply bounded_at; [exact HB1|lia]|].
  exists (fuel + fuel')%nat, slices. unfold runAll. rewrite (runSlices_mono fuel (fuel + fuel') slices slices _ _ _ _ ltac:(lia) ltac:(lia) Er), En, (sim_Run_mono marshal _ _ _ _ _ E2) by lia.
  destruct err; by eexists.
Qed.

Section slices.
Context (cfgs : Z -> Config) (ids : list Z) (Hcfg : cluster_cfg cfgs ids).

(** The state of a run between calls of the harness. *)
Definition sound (s : simulator) : Prop :=
  explained marshal unmarshal cfgs ids s /\ good s /\ exists c sa, creach cfgs ids c /\ plainSR cfgs ids sa c s.

Lemma sim_Run_sound fuel until s s' err :
  until <= 2 ^ 61 -> bounded until s -> sound s -> run_fits marshal ids fuel until s = true -> sim_Run marshal fuel until s = Some (s', err) ->
  sound s' /\ forall e, err = Some e -> workload_error e.
Proof using Hcfg Hcodec newRand newEnv.
  intros Hu HB (He & Hg & c & sa & Hc & HR) Hf Hr. pose proof (sim_Run_works marshal unmarshal ids _ _ _ _ _ Hu HB Hf Hr) as Hw.
  destruct (sim_Run_checks newRand newEnv marshal ids cfgs Hcfg _ _ sa c _ _ _ HR Hg Hf Hr) as [Hs Herr].
  destruct (run_related newRand newEnv marshal cfgs ids Hcfg sa c s s' Hc HR Hg Hs) as (c' & sa' & Hc' & _ & HR' & Hg'). split; [|intros e Ee; by apply Herr].
  split; [exact (proj1 (steps_explained marshal unmarshal Hcodec cfgs ids Hcfg s s' He (bd_timely _ _ HB) Hw))|]. split; [done|by exists c', sa'].
Qed.

Lemma call_sound s s' : sound s -> sim_call ids s s' -> sound s'.
Proof using Hcfg Hcodec.
  intros (He & Hg & c & sa & Hc & HR) Hs. split; [by eapply call_explained|]. destruct (sim_call_reaches cfgs ids sa c s s' HR Hg Hs) as [(c' & sa' & Hc' & _ & HR') Hg'].
  split; [done|]. exists c', sa'. split; [|done]. destruct Hc as (c0 & Hi & Hr). exists c0. split; [done|by etrans].
Qed.

(** The retry of a client that has timed out is scheduled. *)
Lemma retry_scheduled s r c at_ i :
  sound s -> runner_of s = Some r -> rn_clients r !! i = Some c -> csn_TimedOut <$> runner_Clients r !! i = Some true -> s_now s <= at_ ->
  exists s', ScheduleWorkloadRetry (cl_id c) at_ s = (s', None) /\ sim_call ids s s' /\ runner_of s' = Some r /\ s_now s' = s_now s.
Proof.
  intros (He & _) Hr Hi Ht Hat. destruct He as (reg & G & sa & cl & w & Hw & [_ W2 _ _ _]). unfold runner_of in Hr. rewrite Hw in Hr. injection Hr as <-.
  pose proof (sc_retry ids s (cl_id c) at_) as Hcall. unfold ScheduleWorkloadRetry in *. rewrite Hw in *. rewrite (proj2 (Z.ltb_ge at_ (s_now s))) in * by done.
  unfold RetryEvent in *. rewrite (rk_index _ W2 i c Hi), Hi in *. unfold runner_Clients in Ht. rewrite list_lookup_fmap, Hi in Ht. cbn in Ht.
  destruct (cl_active c) as [op|]; [|done]. injection Ht as Ht. rewrite Ht in *. eexists. split; [done|]. split; [exact Hcall|]. unfold runner_of. cbn. by rewrite Hw.
Qed.

Lemma retryClients_sound r k s :
  sound s -> runner_of s = Some r -> 0 <= s_now s < max_i64 ->
  exists s', retryClients (drop k (runner_Clients r)) s = (s', None) /\ sound s'.
Proof using Hcfg Hcodec.
  intros Hs Hr Hmax. remember (length (runner_Clients r) - k)%nat as n eqn:En. revert k En s Hs Hr Hmax. induction n as [|n IH]; intros k En s Hs Hr Hmax.
  { rewrite drop_ge by lia. by exists s. }
  destruct (lookup_lt_is_Some_2 (runner_Clients r) k ltac:(lia)) as [snap Hsnap]. rewrite (drop_S _ _ _ Hsnap). cbn [retryClients].
  assert (n = length (runner_Clients r) - S k)%nat as En' by lia. destruct (csn_TimedOut snap) eqn:Et; cbn [negb]; [|by apply IH].
  pose proof Hsnap as Hc. unfold runner_Clients in Hc. rewrite list_lookup_fmap in Hc. apply fmap_Some in Hc as (c & Hc & ->). cbn [csn_ClientID].
  destruct (retry_scheduled s r c (s_now s +i 1) k Hs Hr Hc) as (s' & -> & Hcall & Hr' & Hn').
  - rewrite Hsnap. cbn in Et |- *. by rewrite Et.
  - unfold i64_add, i64. unfold max_i64 in *. rewrite Z.mod_small; lia.
  - apply IH; [done|by eapply call_sound|done|by rewrite Hn'].
Qed.

(** Every event that the harness handles fits. *)
Fixpoint slices_fit (fuel slices : nat) (config : RunConfig) (through : Z) (s : simulator) : bool :=
  if rc_Duration config <? through then true
  else run_fits marshal ids fuel through s &&
       match sim_Run marshal fuel through s with
       | Some (s1, None) =>
           if through =? rc_Duration config then true
           else match slices, retryClients (WorkloadClients s1) s1 with
                | S slices', (s2, None) => slices_fit fuel slices' config (through +i rc_RetryScanInterval config) s2
                | _, _ => true
                end
       | _ => true
       end.

Definition all_fit (fuel slices : nat) (config : RunConfig) (s : simulator) : bool :=
  slices_fit fuel slices config (rc_RetryScanInterval config) s &&
  match runSlices marshal fuel slices config (rc_RetryScanInterval config) s with
  | Some (s1, None) => if s_now s1 <? rc_Duration config then run_fits marshal ids fuel (rc_Duration config) s1 else true
  | _ => true
  end.

(** The errors that a run may end with. *)
Definition run_error (e : error) : Prop := exists e', e = "simulator invariant: " +:+ e' /\ workload_error e'.

Lemma sound_runner s : sound s -> exists r, runner_of s = Some r /\ WorkloadClients s = runner_Clients r /\ WorkloadHistory s = getHistory (rn_recorder r).
Proof. intros ((reg & G & sa & c & w & Hw & _) & _). exists (sw_runner w). unfold runner_of, WorkloadClients, WorkloadHistory. by rewrite Hw. Qed.

Lemma runSlices_sound fuel slices config through s s' err :
  run_lengths config -> 0 < through <= 2 ^ 61 -> bounded through s -> sound s -> slices_fit fuel slices config through s = true ->
  runSlices marshal fuel slices config through s = Some (s', err) ->
  bounded (2 ^ 61) s' /\ sound s' /\ forall e, err = Some e -> run_error e.
Proof using Hcfg Hcodec newRand newEnv.
  intros Hl. revert through s. induction slices as [|slices IH]; intros through s Ht HB Hs; cbn [slices_fit runSlices];
    (destruct (Z.ltb_spec (rc_Duration config) through) as [|Hd]; [intros _ [= <- <-]; split; [eapply bounded_later; [|exact HB]; lia|done]|]); rewrite andb_true_iff; intros [Hrun Hrest].
  all: destruct (sim_Run marshal fuel through s) as [[s1 err1]|] eqn:Er; [|done]; destruct (sim_Run_sound _ _ _ _ _ (proj2 Ht) HB Hs Hrun Er) as [Hs1 He1].
  all: pose proof (bounded_keeps (engine := map_engine unmarshal) (fun _ => eq_refl) marshal _ _ _ _ _ (proj2 Ht) HB Er) as HB1; assert (bounded (2 ^ 61) s1) as HB1' by (eapply bounded_later; [|exact HB1]; lia).
  all: destruct err1 as [e1|]; [intros [= <- <-]; split; [done|]; split; [done|]; intros e [= <-]; exists e1; split; [done|by apply He1]|].
  all: case_bool; [by intros [= <- <-]|].
  all: destruct (sound_runner s1 Hs1) as (r & Hr & Ec & _); destruct (retryClients_sound r 0 s1 Hs1 Hr) as (s2 & E2 & Hs2); [pose proof (ty_now _ (bd_timely _ _ HB1)); pose proof (bd_now _ _ HB1); unfold max_i64; lia|].
  all: rewrite drop_0, <- Ec in E2; pose proof (retryClients_bounded through (WorkloadClients s1) s1 (proj2 Ht) HB1) as HB2; rewrite E2 in HB2 |- *; try rewrite E2 in Hrest; cbn [fst] in HB2.
  - done.
  - destruct (next_slice config through Hl ltac:(lia)) as [En Hn]. rewrite En in Hrest |- *. destruct Hl as [Hl1 Hl2]. apply IH; [lia| |done|done]. eapply bounded_later; [|exact HB2]; lia.
Qed.

Lemma runAll_sound fuel slices config s s' err :
  run_lengths config -> bounded 0 s -> sound s -> all_fit fuel slices config s = true -> runAll marshal fuel slices config s = Some (s', err) ->
  sound s' /\ forall e, err = Some e -> run_error e.
Proof using Hcfg Hcodec newRand newEnv.
  intros Hl HB Hs. unfold all_fit, runAll. rewrite andb_true_iff. intros [Hf Hrest]. destruct (runSlices marshal fuel slices config _ s) as [[s1 err1]|] eqn:Er; [|done].
  assert (bounded (rc_RetryScanInterval config) s) as HB0 by (eapply bounded_later; [|exact HB]; destruct Hl; lia).
  destruct (runSlices_sound fuel slices config (rc_RetryScanInterval config) s s1 err1 Hl ltac:(destruct Hl; lia) HB0 Hs Hf Er) as (HB1 & Hs1 & He1).
  destruct err1 as [e1|]; [intros [= <- <-]; by split|]. destruct (Z.ltb_spec (s_now s1) (rc_Duration config)) as [Hn|Hn]; [|by intros [= <- <-]].
  destruct (sim_Run marshal fuel _ s1) as [[s2 err2]|] eqn:Er2; [|done].
  destruct (sim_Run_sound fuel (rc_Duration config) s1 s2 err2 ltac:(destruct Hl; lia) (bounded_at (2 ^ 61) (rc_Duration config) s1 HB1 ltac:(lia)) Hs1 Hrest Er2) as [Hs2 He2].
  destruct err2 as [e2|]; intros [= <- <-]; (split; [done|]); [|done]. intros e [= <-]. exists e2. split; [done|by apply He2].
Qed.
End slices.

(** * Construction *)

Lemma newNodes_total cfg crashes perNode order nodes :
  validateCrashDirectives crashes = None -> Forall (fun d => 0 <= Point d) crashes -> exists nodes', newNodes (M := MapSM) newRand newEnv cfg crashes true perNode order nodes = Ok nodes'.
Proof.
  intros Hv Hp. revert nodes. induction order as [|id order IH]; intros nodes; cbn [newNodes]; [by eexists|]. unfold newStore.
  destruct (validated_storage crashes id Hv Hp) as (sorted & -> & _). apply IH.
Qed.

Lemma NewFaultSim_total cfg schedule :
  checkConfig cfg = None -> (delays cfg).1 <= (delays cfg).2 -> ValidateForCluster (sc_NodeIDs cfg) schedule = None ->
  Forall (fun d => 0 <= Point d) (fs_Crashes schedule) -> fs_LSMCrashes schedule = [] ->
  exists s, NewFaultSim (M := MapSM) newRand newFloats newEnv cfg schedule = Ok s.
Proof.
  intros Hc Hd Hv Hp Hl. unfold NewFaultSim. rewrite Hv, Hl. cbn [length Nat.eqb negb andb]. unfold newSim. rewrite Hc. destruct (delays cfg) as [lo hi]. cbn [fst snd] in Hd.
  cbv zeta. rewrite (proj2 (Z.ltb_ge hi lo)) by done. destruct (newRandStreams _ _ _ _) as [[delayRand perNode] faultRand].
  assert (validateCrashDirectives (fs_Crashes schedule) = None) as Hvc.
  { unfold ValidateForCluster, Validate in Hv. repeat (case_match; try done). }
  destruct (newNodes_total cfg (fs_Crashes schedule) perNode (sc_NodeIDs cfg) ∅ Hvc Hp) as [nodes ->]. by eexists.
Qed.

Lemma newClients_total n i c : 0 < wc_KeyCount c -> exists cs, newClients newRand n i c = Ok cs.
Proof.
  intros Hk. revert i. induction n as [|n IH]; intros i; cbn [newClients]; [by eexists|]. unfold NewGenerator. rewrite (proj2 (Z.leb_gt _ _)) by done.
  destruct (IH (i + 1)) as [cs ->]. by eexists.
Qed.

Lemma StartWorkload_total cfg c (s : simulator) :
  starts cfg s -> sc_NodeIDs cfg <> [] -> 0 <= rc_Operations c -> 0 <= rc_OperationTimeout c -> 0 <= rc_ThinkTime c ->
  exists s1, StartWorkload newRand newEnv marshal (runWorkload c) s = (s1, None).
Proof.
  intros (_ & _ & Hnow & _ & Hwl & _ & cl & _ & HR) Hne Ho Ht Hth. specialize (HR (fun _ => True)). pose proof (sr_order _ _ _ _ _ _ _ HR) as Eo.
  unfold StartWorkload. rewrite Hwl, Hnow. cbv zeta. cbn [Z.eqb negb]. unfold NewRunner, normalizeConfig. cbv zeta.
  cbn [wc_Seed wc_ClientCount wc_ClientIDBase wc_KeyCount wc_OperationsPerClient wc_OperationTimeout wc_RetryDelay wc_ThinkTime wc_StartTime wc_Targets runWorkload].
  assert (forall v d, 0 <= v -> 0 <= d -> orDefault v d <? 0 = false) as Hd by (intros v d Hv Hd; unfold orDefault; case_bool; apply Z.ltb_ge; lia).
  rewrite !Hd by (done || (vm_compute; discriminate)). cbn [Z.ltb Z.compare]. rewrite Eo. destruct (sc_NodeIDs cfg) as [|x ids] eqn:Eids; [done|]. cbn [length Nat.eqb].
  match goal with |- context [if ?b then Err _ else _] => replace b with false by (vm_compute; reflexivity) end.
  match goal with |- context [newClients newRand ?n ?i ?cc] => destruct (newClients_total n i cc) as [cs ->]; [done|] end.
  destruct (installStateMachines newEnv (x :: ids) s) as [si err] eqn:Ei. destruct (install_spec unmarshal newEnv _ _ _ _ Ei) as (-> & _ & Et & _).
  unfold runner_Start. cbn [rn_started rn_config wc_StartTime wh_Now simulator_WorkloadHost set_workload s_now]. rewrite Et, Hnow. cbn [Z.ltb Z.compare]. by eexists.
Qed.

(** * Runs of seeds *)

Context (newGen : Z -> GenRand) (Hgen : forall seed, gen_ok (newGen seed)).
Context (marshalSchedule : FaultSchedule -> result bytes) (unmarshalSchedule : bytes -> result FaultSchedule).
Context {model : Type} (kvModel : model) (checkEvents : model -> list Event -> bool).

(** A configuration that lets the generator draw the schedule, for the map state machine; its
    times leave the clock room in its type, and an interval of zero is the default one. *)
Record generated_run (config : RunConfig) : Prop := {
  gr_schedule : rc_Schedule config = None;
  gr_engine : rc_Engine config = "" \/ rc_Engine config = "map";
  gr_threshold : rc_LSMFlushThreshold config = 0;
  gr_horizon : 0 <= rc_FaultHorizon config <= max_i64;
  gr_operations : 0 <= rc_Operations config;
  gr_duration : rc_Duration config <= 2 ^ 60;
  gr_interval : 0 <= rc_RetryScanInterval config <= 2 ^ 60;
  gr_timeout : 0 <= rc_OperationTimeout config <= 2 ^ 61;
  gr_think : 0 <= rc_ThinkTime config <= 2 ^ 61;
}.

Lemma effective_engine config : generated_run config -> rc_Engine (effectiveConfig config) = "map".
Proof. intros [_ [H|H] _ _ _ _ _ _ _]; unfold effectiveConfig; cbn [normalizeRunConfig rc_Engine]; by rewrite H. Qed.

Lemma effective_same config {A} (f : RunConfig -> A) : (forall e c, f (withEngine e c) = f c) -> f (effectiveConfig config) = f (normalizeRunConfig config).
Proof. intros H. unfold effectiveConfig. cbv zeta. case_bool; [apply H|done]. Qed.

Lemma orDefault_range v d : 0 <= v <= max_i64 -> 0 <= d <= max_i64 -> 0 <= orDefault v d <= max_i64.
Proof. intros Hv Hd. unfold orDefault. by case_bool. Qed.

Lemma effective_lengths config :
  generated_run config -> run_lengths (effectiveConfig config) /\ 0 <= rc_Operations (effectiveConfig config) /\
    0 <= rc_OperationTimeout (effectiveConfig config) <= 2 ^ 61 /\ 0 <= rc_ThinkTime (effectiveConfig config) <= 2 ^ 61.
Proof.
  intros Hg. unfold run_lengths. rewrite (effective_same config rc_Duration), (effective_same config rc_RetryScanInterval), (effective_same config rc_Operations),
    (effective_same config rc_OperationTimeout), (effective_same config rc_ThinkTime) by done. cbn.
  destruct Hg as [_ _ _ _ H1 H2 H3 H4 H5]. unfold orDefault. repeat match goal with |- context [if ?x =? 0 then _ else _] => destruct (Z.eqb_spec x 0) end;
    unfold DefaultDuration, DefaultRetryScanInterval, HarnessOperationsPerClient, HarnessOperationTimeout, HarnessThinkTime; lia.
Qed.

(** The schedule is drawn, and a simulator is built from it. *)
Lemma generated_build config :
  generated_run config -> let c := effectiveConfig config in
  exists schedule s0, scheduleOf newGen marshalSchedule unmarshalSchedule c = Ok schedule /\ NewFaultSim (M := MapSM) newRand newFloats newEnv (runSimConfig c) schedule = Ok s0.
Proof using Hgen.
  intros Hg c. unfold scheduleOf. unfold c at 1. rewrite (effective_same config rc_Schedule) by done. cbn [normalizeRunConfig rc_Schedule]. rewrite (gr_schedule _ Hg).
  destruct (generated_parts newGen Hgen (rc_Seed c) defaultNodeIDs (rc_FaultHorizon c)) as (pairs & others & crashes & E & Hparts); [apply (bool_decide_unpack _); exact I|done| |].
  { unfold c. rewrite (effective_same config rc_FaultHorizon) by done. apply orDefault_range; [apply Hg|vm_compute; split; discriminate]. }
  exists (mkFaultSchedule FaultScheduleGeneratorVersion crashes (sortFaultEvents (pairEvents pairs ++ others)) []).
  destruct (NewFaultSim_total (runSimConfig c) (mkFaultSchedule FaultScheduleGeneratorVersion crashes (sortFaultEvents (pairEvents pairs ++ others)) [])) as [s0 Hs0].
  - unfold checkConfig, engineOf, runSimConfig. cbn [sc_NodeIDs sc_Engine sc_LSMFlushThreshold]. unfold c. rewrite (effective_engine config Hg).
    rewrite (effective_same config rc_LSMFlushThreshold) by done. cbn [normalizeRunConfig rc_LSMFlushThreshold]. by rewrite (gr_threshold _ Hg).
  - vm_compute. discriminate.
  - destruct Hparts as (H1 & _ & _ & H2 & H3 & H4). by eapply parts_valid.
  - cbn [fs_Crashes]. destruct Hparts as (_ & _ & _ & _ & Hcr & _). eapply Forall_impl; [exact Hcr|]. intros d (_ & _ & _ & Hd). unfold CrashBeforeSync in Hd. lia.
  - done.
  - exists s0. by split.
Qed.

(** Every event of the run of a seed fits, for a number of events and of slices. *)
Definition seed_fits (fuel slices : nat) (config : RunConfig) : bool :=
  let c := effectiveConfig config in
  match scheduleOf newGen marshalSchedule unmarshalSchedule c with
  | Err _ => true
  | Ok schedule =>
      match NewFaultSim (M := MapSM) newRand newFloats newEnv (runSimConfig c) schedule with
      | Err _ => true
      | Ok s0 =>
          match StartWorkload newRand newEnv marshal (runWorkload c) (RegisterInvariant SingleLeaderPerTerm s0) with
          | (s1, None) => all_fit defaultNodeIDs fuel slices c s1
          | _ => true
          end
      end
  end.

Lemma workload_start_sound cfg config s0 s1 :
  starts cfg s0 -> workload_numbers config -> StartWorkload newRand newEnv marshal config s0 = (s1, None) -> sound (nodeConfig cfg) (sc_NodeIDs cfg) s1.
Proof using Hrand.
  intros Hst Hnum Hs1. split; [by eapply (start_explained marshal unmarshal newRand newEnv Hrand)|].
  destruct Hst as (_ & Hinv & _ & Herr & _ & _ & c & Hc & HR). assert (good s0) as Hg by (split; [done|intros e; by rewrite Herr]).
  assert (plainSR (nodeConfig cfg) (sc_NodeIDs cfg) ainit c s0) as HR0 by (eapply SR_weaken; [|apply HR]; done).
  destruct (StartWorkload_SR newRand newEnv marshal (nodeConfig cfg) (sc_NodeIDs cfg) _ _ ainit c config s0 HR0 Hg) as [H1 H2]. rewrite Hs1 in H1, H2.
  split; [done|]. exists c, ainit. split; [|done]. by exists c.
Qed.

(** The state in which the run of a seed begins, and what the harness makes of its end. *)
Lemma generated_start config :
  generated_run config -> let c := effectiveConfig config in
  exists schedule s0 s1, scheduleOf newGen marshalSchedule unmarshalSchedule c = Ok schedule /\ NewFaultSim (M := MapSM) newRand newFloats newEnv (runSimConfig c) schedule = Ok s0 /\
    StartWorkload newRand newEnv marshal (runWorkload c) (RegisterInvariant SingleLeaderPerTerm s0) = (s1, None) /\
    cluster_cfg (nodeConfig (runSimConfig c)) defaultNodeIDs /\ sound (nodeConfig (runSimConfig c)) defaultNodeIDs s1 /\ bounded 0 s1.
Proof using Hrand Hgen.
  intros Hg c. destruct (generated_build config Hg) as (schedule & s0 & Es & En). fold c in Es, En. exists schedule, s0.
  destruct (effective_lengths config Hg) as (_ & Ho & Ht & Hth). fold c in Ho, Ht, Hth.
  assert (starts (runSimConfig c) (RegisterInvariant SingleLeaderPerTerm s0)) as Hst.
  { apply starts_check. eapply NewFaultSim_starts; [exact En|]. split; [|vm_compute; discriminate]. apply (bool_decide_unpack _). exact I. }
  destruct (StartWorkload_total (runSimConfig c) c (RegisterInvariant SingleLeaderPerTerm s0) Hst ltac:(done) Ho (proj1 Ht) (proj1 Hth)) as [s1 Hs1]. exists s1.
  assert (workload_numbers (runWorkload c)) as Hnum by (split; cbn [wc_ClientIDBase wc_ClientCount runWorkload]; [split|]; vm_compute; discriminate).
  split_and!; [done|done|done|apply Hst|by eapply (workload_start_sound (runSimConfig c))|].
  assert (built (runSimConfig c) (RegisterInvariant SingleLeaderPerTerm s0)) as Hb.
  { destruct (NewFaultSim_built newRand newFloats newEnv Hrand _ _ _ En) as (B1 & B2); [split; vm_compute; discriminate|]. split; [by apply (still_timely s0)|done]. }
  refine (StartWorkload_bounded newRand newEnv marshal _ (runWorkload c) _ s1 Hb _ (proj2 Ht) _ (proj2 Hth) Hs1); vm_compute; repeat split; discriminate.
Qed.

Notation runSeed := (RunSeed (M := MapSM) newRand newFloats newEnv marshal newGen marshalSchedule unmarshalSchedule kvModel checkEvents).

(** The end of the run of a seed. *)
Lemma RunSeed_runAll config :
  generated_run config -> let c := effectiveConfig config in
  exists schedule s1, cluster_cfg (nodeConfig (runSimConfig c)) defaultNodeIDs /\ sound (nodeConfig (runSimConfig c)) defaultNodeIDs s1 /\ bounded 0 s1 /\
    forall fuel slices, seed_fits fuel slices config = all_fit defaultNodeIDs fuel slices c s1 /\
      runSeed fuel slices config = match runAll marshal fuel slices c s1 with
                                   | None => None
                                   | Some (s2, err) =>
                                       let result := collectResult (rc_Seed c) (rc_Engine c) (rc_LSMFlushThreshold c) schedule s2 in
                                       Some (match err with Some e => (result, Some e) | None => judge kvModel checkEvents result end)
                                   end.
Proof using Hrand Hgen.
  intros Hg c. destruct (generated_start config Hg) as (schedule & s0 & s1 & Es & En & Hs1 & Hc & Hsound & HB). fold c in Es, En, Hs1, Hc, Hsound. exists schedule, s1. split_and!; [done..|].
  intros fuel slices. unfold seed_fits, RunSeed. cbv zeta. fold c. rewrite Es, En, Hs1. split; [done|].
  assert (rc_LSMFlushThreshold c = 0) as Et by (unfold c; rewrite (effective_same config rc_LSMFlushThreshold) by done; apply Hg).
  rewrite Et. cbn [Z.ltb Z.compare Z.eqb negb]. rewrite andb_false_r. destruct (runAll marshal fuel slices c s1) as [[s2 [e|]]|]; done.
Qed.

(** What the harness returns for a generated schedule. *)
Lemma RunSeed_sound fuel slices config result err :
  generated_run config -> seed_fits fuel slices config = true -> runSeed fuel slices config = Some (result, err) ->
  exists s, sound (nodeConfig (runSimConfig (effectiveConfig config))) defaultNodeIDs s /\ sr_History result = WorkloadHistory s /\
    ((exists e, err = Some e /\ run_error e /\ su_CheckerRan (sr_Summary result) = false) \/ exists base, (result, err) = judge kvModel checkEvents base /\ sr_History base = WorkloadHistory s).
Proof using Hcodec Hrand Hgen.
  intros Hg. destruct (RunSeed_runAll config Hg) as (schedule & s1 & Hc & Hsound & HB & Hrun). destruct (Hrun fuel slices) as [-> ->]. set (c := effectiveConfig config) in *. intros Hf Hr.
  destruct (runAll marshal fuel slices c s1) as [[s2 err2]|] eqn:Er; [|done].
  destruct (runAll_sound _ defaultNodeIDs Hc fuel slices c s1 s2 err2 (proj1 (effective_lengths config Hg)) HB Hsound Hf Er) as [Hs2 He2].
  exists s2. split; [exact Hs2|]. apply (inj Some) in Hr. destruct err2 as [e2|].
  - injection Hr as <- <-. split; [done|]. left. exists e2. split; [done|]. split; [by apply He2|done].
  - split; [|right; eexists; split; [symmetry; exact Hr|done]]. apply (f_equal fst) in Hr. by cbn [judge fst] in Hr; subst result.
Qed.

(** The run of a seed ends, and more events and slices than enough change nothing. *)
Lemma RunSeed_mono fuel fuel' slices slices' config x :
  generated_run config -> (fuel <= fuel')%nat -> (slices <= slices')%nat -> runSeed fuel slices config = Some x -> runSeed fuel' slices' config = Some x.
Proof using Hrand Hgen.
  intros Hg Hf Hs. destruct (RunSeed_runAll config Hg) as (schedule & s1 & _ & _ & _ & Hrun). rewrite (proj2 (Hrun fuel slices)), (proj2 (Hrun fuel' slices')).
  destruct (runAll marshal fuel slices _ s1) as [y|] eqn:Er; [|done]. by rewrite (runAll_mono _ _ _ _ _ _ _ Hf Hs Er).
Qed.

Lemma RunSeed_ends config : generated_run config -> exists fuel slices result err, runSeed fuel slices config = Some (result, err).
Proof using Hrand Hgen.
  intros Hg. destruct (RunSeed_runAll config Hg) as (schedule & s1 & _ & _ & HB & Hrun). destruct (runAll_ends _ s1 (proj1 (effective_lengths config Hg)) HB) as (fuel & slices & [s2 err2] & Er).
  exists fuel, slices. rewrite (proj2 (Hrun fuel slices)), Er. destruct err2 as [e|]; by eexists _, _.
Qed.

(** The integers of the run of a seed stay in their 64 bits: of every event until the run
    ends, the terms, the log indices and the sizes. *)
Definition seed_in_range (config : RunConfig) : Prop :=
  exists fuel slices, is_Some (runSeed fuel slices config) /\ seed_fits fuel slices config = true.

(** C13. The harness never reports a violation of a run of the map state machine.  For every
    seed whose schedule the generator draws, with a duration and a scan interval of at most
    2^60 and timeouts of at most 2^61 milliseconds, the run ends: there are a number of
    events and a number of slices from which on the harness returns one and the same result
    and error.  And where the terms, log indices and sizes of the run's events stay in their
    64 bits ([seed_in_range]), neither the log check nor the leader check has failed, the
    recorded history is linearizable, and a search that accepts every linearizable history
    finds no violation; the harness ends without an error, or it reports that the workload
    was too weak to mean anything, or an error of the workload itself. *)
Theorem RunSeed_no_violation config :
  (forall h, linearizable h -> checkEvents kvModel (PorcupineEvents h) = true) -> generated_run config ->
  exists result err,
    (exists fuel0 slices0, forall fuel slices, (fuel0 <= fuel)%nat -> (slices0 <= slices)%nat -> runSeed fuel slices config = Some (result, err)) /\
    (seed_in_range config ->
       linearizable (sr_History result) /\
       ((err = None /\ su_CheckerRan (sr_Summary result) = true /\ su_Linearizable (sr_Summary result) = true) \/
        (exists why, err = Some ("weak workload: " +:+ why) /\ su_Linearizable (sr_Summary result) = true) \/
        (exists e, err = Some ("simulator invariant: " +:+ e) /\ workload_error e))).
Proof using Hcodec Hrand Hgen.
  intros Hsearch Hg. destruct (RunSeed_ends config Hg) as (fuel0 & slices0 & result & err & H0). exists result, err.
  split; [exists fuel0, slices0; intros fuel slices Hf Hs; by eapply RunSeed_mono|]. intros (fuel & slices & [[result' err'] Hrun] & Hf).
  assert ((result', err') = (result, err)) as [= -> ->].
  { apply (RunSeed_mono _ (fuel + fuel0) _ (slices + slices0) _ _ Hg) in Hrun; [|lia..]. apply (RunSeed_mono _ (fuel + fuel0) _ (slices + slices0) _ _ Hg) in H0; [|lia..]. congruence. }
  destruct (RunSeed_sound fuel slices config result err Hg Hf Hrun) as (s & Hs & Eh & Hcases).
  assert (linearizable (WorkloadHistory s)) as Hlin.
  { destruct (sound_runner _ _ s Hs) as (r & Hr & _ & ->). eapply (explained_history marshal unmarshal Hcodec); [apply Hs|done]. }
  rewrite Eh. split; [done|]. destruct Hcases as [(e & -> & (e' & -> & He) & _)|(base & Hj & Eb)]; [right; right; by exists e'|].
  unfold judge in Hj. rewrite Eb in Hj. unfold CheckHistory in Hj. rewrite (Hsearch _ Hlin) in Hj. cbn [negb] in Hj. injection Hj as -> ->. cbn [sr_Summary withVerdict su_CheckerRan su_Linearizable].
  case_bool; [right; left; by eexists|by left].
Qed.

(** * Batches *)

Lemma addResults_violation startSeed index results ag :
  Forall (fun r => su_CheckerRan r.1 = true -> su_Linearizable r.1 = true) results -> ag_FirstViolationSeed ag = None ->
  ag_FirstViolationSeed (addResults startSeed index results ag) = None.
Proof.
  revert index ag. induction results as [|[su err] results IH]; intros index ag Hr Hag; [done|]. apply Forall_cons in Hr as [Hsu Hr]. cbn [addResults]. apply IH; [done|].
  unfold addResult. cbv zeta. rewrite Hag. cbn [fst] in Hsu.
  assert (su_CheckerRan su && negb (su_Linearizable su) = false) as -> by (destruct (su_CheckerRan su); [by rewrite Hsu|done]).
  cbn [andb]. by destruct err; [destruct (ag_FirstFailureSeed ag)|].
Qed.

(** A batch of seeds reports no violation: whatever seeds a batch of runs of the map state
    machine with generated schedules covers, its aggregate names no seed whose history the
    search has refused. *)
Theorem RunBatch_no_violation fuel slices procs config ag :
  (forall h, linearizable h -> checkEvents kvModel (PorcupineEvents h) = true) -> generated_run (bc_Run config) ->
  (forall index, (index < Z.to_nat (bc_Count config))%nat -> seed_fits fuel slices (seedConfig config index) = true) ->
  RunBatch (M := MapSM) newRand newFloats newEnv marshal newGen marshalSchedule unmarshalSchedule kvModel checkEvents fuel slices procs config = Some ag ->
  ag_FirstViolationSeed ag = None.
Proof using Hcodec Hrand Hgen.
  intros Hsearch Hg Hfit. unfold RunBatch. cbv zeta. set (n := Z.to_nat (if bc_Count config <? 0 then 0 else bc_Count config)).
  assert (n <= Z.to_nat (bc_Count config))%nat as Hn by (subst n; case_bool; lia). clearbody n.
  destruct (runSeeds _ _ _ _ _ _ _ _ _ _ _ _ _ n) as [results|] eqn:Er; [|done].
  assert (Forall (fun r => su_CheckerRan r.1 = true -> su_Linearizable r.1 = true) results) as Hr.
  { assert (forall k index results, (index + k <= Z.to_nat (bc_Count config))%nat ->
      runSeeds (M := MapSM) newRand newFloats newEnv marshal newGen marshalSchedule unmarshalSchedule kvModel checkEvents fuel slices config index k = Some results ->
      Forall (fun r => su_CheckerRan r.1 = true -> su_Linearizable r.1 = true) results) as H; [|by apply (H n 0%nat)].
    clear results Er Hn. induction k as [|k IH]; intros index results Hk; cbn [runSeeds]; [intros [= <-]; constructor|].
    destruct (RunSeed _ _ _ _ _ _ _ _ _ _ _ _) as [[result err]|] eqn:Es; [|done]. destruct (runSeeds _ _ _ _ _ _ _ _ _ _ _ _ _ _) as [rest|] eqn:Er; [|done].
    intros [= <-]. constructor; [|eapply IH; [|exact Er]; lia]. cbn [fst].
    assert (generated_run (seedConfig config index)) as Hgi by (by destruct Hg; split).
    destruct (RunSeed_sound fuel slices _ result err Hgi (Hfit index ltac:(lia)) Es) as (s & Hs & Eh & [(e & _ & _ & ->)|(base & Hj & Eb)]); [done|]. intros _.
    unfold judge in Hj. rewrite Eb in Hj. injection Hj as -> _. cbn. apply Hsearch. destruct (sound_runner _ _ s Hs) as (r & Hrn & _ & ->).
    eapply (explained_history marshal unmarshal Hcodec); [apply Hs|done]. }
  intros [= <-]. match goal with |- context [addResults ?a ?b ?c ?d] => pose proof (addResults_violation a b c d Hr eq_refl) as Hv; set (x := addResults a b c d) in * end.
  case_bool; [|done]. by destruct (aggregateCoverageError x).
Qed.
End run.

(** ** The account of a batch *)

Section account.
Context {E M : Type} {engine : SimEngine E M}.
Context (newRand : Z -> Rand) (newFloats : Z -> nat -> float64) (newEnv : Z -> E) (marshal : Command -> result bytes) (newGen : Z -> GenRand).
Context (marshalSchedule : FaultSchedule -> result bytes) (unmarshalSchedule : bytes -> result FaultSchedule).
Context {model : Type} (kvModel : model) (checkEvents : model -> list Event -> bool).
Notation runBatch := (RunBatch newRand newFloats newEnv marshal newGen marshalSchedule unmarshalSchedule kvModel checkEvents).

Lemma addResults_account startSeed index results ag :
  let ag' := addResults startSeed index results ag in
  ag_Passed ag' + ag_Failed ag' = ag_Passed ag + ag_Failed ag + Z.of_nat (length results) /\ ag_Passed ag <= ag_Passed ag' /\ ag_Failed ag <= ag_Failed ag' /\ ag_Count ag' = ag_Count ag.
Proof.
  revert index ag. induction results as [|[su err] results IH]; intros index ag; cbn [addResults]; cbv zeta; [cbn [length]; lia|].
  destruct (IH (S index) (addResult startSeed index su err ag)) as (H1 & H2 & H3 & H4). rewrite H1, H4. clear H1 H4. cbn [length].
  assert (ag_Passed (addResult startSeed index su err ag) + ag_Failed (addResult startSeed index su err ag) = ag_Passed ag + ag_Failed ag + 1 /\
    ag_Passed ag <= ag_Passed (addResult startSeed index su err ag) /\ ag_Failed ag <= ag_Failed (addResult startSeed index su err ag) /\ ag_Count (addResult startSeed index su err ag) = ag_Count ag) as Ha.
  { unfold addResult. destruct err; [destruct (ag_FirstFailureSeed ag)|]; cbn; lia. }
  lia.
Qed.

Lemma runSeeds_length fuel slices config index n results :
  runSeeds newRand newFloats newEnv marshal newGen marshalSchedule unmarshalSchedule kvModel checkEvents fuel slices config index n = Some results -> length results = n.
Proof.
  revert index results. induction n as [|n IH]; intros index results; cbn [runSeeds]; [by intros [= <-]|]. destruct (RunSeed _ _ _ _ _ _ _ _ _ _ _ _) as [[result err]|]; [|done].
  destruct (runSeeds _ _ _ _ _ _ _ _ _ _ _ _ _ _) as [rest|] eqn:Er; [|done]. intros [= <-]. cbn. f_equal. by eapply IH.
Qed.

(** The account of a batch: every seed is counted once, as passed or as failed, and a batch
    of at least one seed reports neither number below zero, also when its runs pass and only
    their coverage fails. *)
Theorem RunBatch_account fuel slices procs config ag :
  0 < bc_Count config -> runBatch fuel slices procs config = Some ag ->
  ag_Passed ag + ag_Failed ag = bc_Count config /\ 0 <= ag_Passed ag /\ 0 <= ag_Failed ag.
Proof.
  intros Hc. unfold RunBatch. cbv zeta. rewrite (proj2 (Z.ltb_ge (bc_Count config) 0)) by lia. destruct (runSeeds _ _ _ _ _ _ _ _ _ _ _ _ _ _) as [results|] eqn:Er; [|done].
  apply runSeeds_length in Er. intros [= <-]. match goal with |- context [addResults ?a ?b ?c ?d] => destruct (addResults_account a b c d) as (H1 & H2 & H3 & _); set (x := addResults a b c d) in * end.
  cbn [ag_Passed ag_Failed] in H1, H2, H3. destruct (Z.eqb_spec (ag_Failed x) 0) as [Ef|Ef]; [|lia]. destruct (aggregateCoverageError x); cbn [failCoverage ag_Passed ag_Failed]; lia.
Qed.

(** A batch of no seeds reports that minus one of them passed. *)
Lemma empty_batch_passed fuel slices procs config :
  bc_Count config = 0 -> exists ag, runBatch fuel slices procs config = Some ag /\ ag_Passed ag = -1 /\ ag_Failed ag = 1.
Proof. intros Hc. unfold RunBatch. cbv zeta. rewrite Hc. cbn [Z.ltb Z.compare Z.to_nat runSeeds]. by eexists. Qed.
End account.

(** * The corpus *)

Section corpus.
Context (readFile : string -> result bytes) (readDir : string -> result (list (string * bool))).
Context (unmarshalManifest : bytes -> result CorpusManifest) (unmarshalSchedule : bytes -> result FaultSchedule).
Notation readSchedule := (ReadCorpusSchedule readFile unmarshalSchedule).
Notation loadCorpus := (LoadCorpus readFile readDir unmarshalManifest unmarshalSchedule).

Lemma ReadCorpusSchedule_valid entry schedule : readSchedule entry = Ok schedule -> Validate schedule = None.
Proof.
  unfold ReadCorpusSchedule, DecodeFaultSchedule. destruct (readFile _) as [data|]; [|done]. destruct (unmarshalSchedule data) as [sc|]; [|done].
  destruct (Validate sc) eqn:Ev; [done|]. by intros [= <-].
Qed.

(** An entry whose file was read, with a schedule of a version. *)
Definition entry_reads (version : Z) (entry : CorpusEntry) : Prop :=
  exists schedule, readSchedule entry = Ok schedule /\ fs_Version schedule = version /\ Validate schedule = None.

Lemma checkScripted_spec entries : checkScripted readFile unmarshalSchedule entries = None -> Forall (entry_reads 0) entries.
Proof.
  induction entries as [|entry entries IH]; cbn [checkScripted]; [constructor|]. destruct (readSchedule entry) as [schedule|] eqn:E; [|done].
  destruct (Z.eqb_spec (fs_Version schedule) 0) as [Ev|]; [|done]. intros H. constructor; [|by apply IH]. exists schedule. by eauto using ReadCorpusSchedule_valid.
Qed.

(** A generated entry, the file it was found under and the seed that its name carries. *)
Definition generated_entry (version : Z) (names : list (string * bool)) (entry : CorpusEntry) : Prop :=
  exists name digits, (name, false) ∈ names /\ ce_Schedule entry = CorpusGeneratedDir +:+ "/" +:+ name /\
    generatedSeedDigits name = Some digits /\ parseSeed digits = Some (ce_Seed entry) /\ entry_reads version entry.

Lemma loadGenerated_spec version names entries :
  loadGenerated readFile unmarshalSchedule version names = Ok entries ->
  Forall (generated_entry version names) entries /\ length entries = length (filter (fun n => n.2 = false) names).
Proof.
  revert entries. induction names as [|[name isDir] names IH]; intros entries; cbn [loadGenerated]; [intros [= <-]; by split|]. destruct isDir.
  { intros H. destruct (IH _ H) as [H1 H2]. split; [|by rewrite filter_cons_False]. eapply Forall_impl; [exact H1|]. intros e (n & d & Hn & Hrest). exists n, d. split; [by right|done]. }
  destruct (generatedSeedDigits name) as [digits|] eqn:Ed; [|done]. destruct (parseSeed digits) as [seed|] eqn:Es; [|done]. cbv zeta. set (entry := mkCorpusEntry _ _ _).
  destruct (readSchedule entry) as [schedule|] eqn:Er; [|done]. destruct (Z.eqb_spec (fs_Version schedule) version) as [Ev|]; [|done]. cbn [negb].
  destruct (loadGenerated _ _ version names) as [rest|] eqn:El; [|done]. intros [= <-]. destruct (IH _ eq_refl) as [H1 H2]. split.
  - constructor; [|eapply Forall_impl; [exact H1|]; intros e (n & d & Hn & Hrest); exists n, d; split; [by right|done]].
    exists name, digits. split_and!; [by left|done|done|done|]. exists schedule. by eauto using ReadCorpusSchedule_valid.
  - rewrite filter_cons_True by done. cbn. by rewrite H2.
Qed.

(** A corpus that loads is current: every scripted schedule was read, is valid and carries
    version 0, every file of the directory of generated schedules became one entry with the
    seed of its name and a valid schedule of the generator's present version, the pinned
    entry names its seed, and the generated entries are in the order of their seeds. *)
Theorem LoadCorpus_current corpus names :
  readDir CorpusGeneratedDir = Ok names -> loadCorpus = Ok corpus ->
  Forall (entry_reads 0) (cm_Scripted (co_Manifest corpus)) /\
  Forall (generated_entry FaultScheduleGeneratorVersion names) (co_Generated corpus) /\
  length (co_Generated corpus) = length (filter (fun n => n.2 = false) names) /\
  Sorted (fun a b => ce_Seed a <= ce_Seed b) (co_Generated corpus) /\
  (ce_Schedule (cm_Pinned (co_Manifest corpus)) <> "" ->
     ce_Seed (cm_Pinned (co_Manifest corpus)) <> 0 /\
     (entry_reads 0 (cm_Pinned (co_Manifest corpus)) \/ entry_reads FaultScheduleGeneratorVersion (cm_Pinned (co_Manifest corpus)))).
Proof.
  intros Hdir. unfold LoadCorpus. destruct (readFile CorpusManifestFile) as [data|]; [|done]. destruct (unmarshalManifest data) as [m|]; [|done].
  case_bool; [done|]. destruct (Z.eqb_spec (cm_GeneratorVersion m) FaultScheduleGeneratorVersion) as [Ev|]; [|done]. cbn [negb].
  destruct (checkScripted _ _ _) eqn:Es; [done|]. destruct (checkPinned _ _ m) eqn:Ep; [done|]. rewrite Hdir. destruct (loadGenerated _ _ _ names) as [gen|] eqn:El; [|done].
  intros [= <-]. cbn [co_Manifest co_Generated]. rewrite Ev in El. destruct (loadGenerated_spec _ _ _ El) as [H1 H2]. split_and!.
  - by apply checkScripted_spec.
  - by rewrite sort_by_perm.
  - by rewrite sort_by_perm.
  - apply StronglySorted_Sorted. assert (StronglySorted (fun a b => (ce_Seed a <=? ce_Seed b) = true) (sort_by (fun a b => ce_Seed a <=? ce_Seed b) gen)) as Hs.
    { apply sort_by_sorted; [intros a b; rewrite !Z.leb_le; lia|intros a b c; rewrite !Z.leb_le; lia]. }
    clear - Hs. induction Hs as [|x l _ IH Hx]; constructor; [done|]. eapply Forall_impl; [exact Hx|]. intros y. by apply Z.leb_le.
  - intros Hne. unfold checkPinned in Ep. rewrite bool_decide_false in Ep by done. destruct (readSchedule (cm_Pinned m)) as [pinned|] eqn:Er; [|done].
    rewrite Ev in Ep. destruct (_ && _) eqn:Eb; [done|]. destruct (Z.eqb_spec (ce_Seed (cm_Pinned m)) 0); [done|]. split; [done|].
    apply andb_false_iff in Eb as [Eb|Eb]; apply negb_false_iff, Z.eqb_eq in Eb; [left|right]; exists pinned; by eauto using ReadCorpusSchedule_valid.
Qed.
End corpus.

(** * A run *)

#[local] Hint Extern 0 (SimEngine unit MapSM) => exact (map_engine demo_unmarshal) : typeclass_instances.

Definition demo_run_config : RunConfig := mkRunConfig 4 "" 0 None 1250 600 100 1 600 50.
Definition noSchedules : FaultSchedule -> result bytes := fun _ => Err "no schedules".
Definition demo_seed : option (SeedResult * option error) :=
  RunSeed (M := MapSM) demo_rand demo_floats (fun _ => ()) demo_marshal demo_gen noSchedules (fun _ => Err "no schedules") () (fun _ _ => true) 4000 20 demo_run_config.

Lemma demo_run_generated : generated_run demo_run_config.
Proof. split; try done; try (left; done); vm_compute; try split; discriminate. Qed.

Notation demo_fits := (seed_fits demo_rand demo_floats (fun _ => ()) demo_marshal demo_unmarshal demo_gen noSchedules (fun _ => Err "no schedules")).

Lemma demo_seed_fits : demo_fits 4000 20 demo_run_config = true.
Proof. vm_compute. reflexivity. Qed.

(** The run ends within four thousand events a slice and twenty slices. *)
Lemma demo_seed_in_range : seed_in_range demo_rand demo_floats (fun _ => ()) demo_marshal demo_unmarshal demo_gen noSchedules (fun _ => Err "no schedules") () (fun _ _ => true) demo_run_config.
Proof.
  exists 4000%nat, 20%nat. split; [|exact demo_seed_fits]. fold demo_seed.
  assert (match demo_seed with Some _ => true | None => false end = true) as H by (vm_compute; reflexivity). destruct demo_seed; [by eexists|done].
Qed.

Lemma demo_seed_more fuel slices x :
  demo_seed = Some x ->
  RunSeed (M := MapSM) demo_rand demo_floats (fun _ => ()) demo_marshal demo_gen noSchedules (fun _ => Err "no schedules") () (fun _ _ => true) (4000 + fuel) (20 + slices) demo_run_config = Some x.
Proof. apply (RunSeed_mono demo_rand demo_floats (fun _ => ()) demo_marshal demo_unmarshal demo_rand_ok demo_gen demo_gen_ok); [exact demo_run_generated|lia|lia]. Qed.

(** Five clients complete an operation each, which the harness finds too few. *)
Lemma RunSeed_no_violation_witness :
  exists result err, demo_seed = Some (result, err) /\ su_CompletedOperations (sr_Summary result) = 5 /\ 0 < su_FaultsDuringInFlight (sr_Summary result) /\
    linearizable (sr_History result) /\
    ((err = None /\ su_CheckerRan (sr_Summary result) = true /\ su_Linearizable (sr_Summary result) = true) \/
     (exists why, err = Some ("weak workload: " +:+ why) /\ su_Linearizable (sr_Summary result) = true) \/
     (exists e, err = Some ("simulator invariant: " +:+ e) /\ workload_error e)).
Proof.
  assert ((fun r => (su_CompletedOperations (sr_Summary r.1), 0 <? su_FaultsDuringInFlight (sr_Summary r.1))) <$> demo_seed = Some (5, true)) as H by (vm_compute; reflexivity).
  destruct (RunSeed_no_violation demo_rand demo_floats (fun _ => ()) demo_marshal demo_unmarshal demo_codec demo_rand_ok demo_gen demo_gen_ok noSchedules (fun _ => Err "no schedules")
    () (fun _ _ => true) demo_run_config (fun _ _ => eq_refl) demo_run_generated) as (result & err & (fuel0 & slices0 & Hall) & Hok). specialize (Hok demo_seed_in_range).
  destruct demo_seed as [x|] eqn:Hx; [|done]. apply (demo_seed_more fuel0 slices0) in Hx. rewrite Hall in Hx by lia. injection Hx as <-. injection H as H1 H2.
  exists result, err. split; [reflexivity|]. split; [exact H1|]. split; [by apply Z.ltb_lt|exact Hok].
Defined.

Definition demo_batch_config : BatchConfig := mkBatchConfig 4 2 1 (mkRunConfig 0 "" 0 None 150 100 100 1 600 50).
Definition demo_batch : option Aggregate :=
  RunBatch (M := MapSM) demo_rand demo_floats (fun _ => ()) demo_marshal demo_gen noSchedules (fun _ => Err "no schedules") () (fun _ _ => true) 4000 20 8 demo_batch_config.

Lemma demo_batch_generated : generated_run (bc_Run demo_batch_config).
Proof. split; try done; try (left; done); vm_compute; try split; discriminate. Qed.

Lemma demo_batch_fits index : (index < 2)%nat -> demo_fits 4000 20 (seedConfig demo_batch_config index) = true.
Proof. intros Hi. destruct index as [|[|index]]; [vm_compute; reflexivity..|lia]. Qed.

Lemma RunBatch_no_violation_witness : exists ag, demo_batch = Some ag /\ ag_LogicalOperations ag = 10 /\ ag_FirstViolationSeed ag = None.
Proof.
  assert (ag_LogicalOperations <$> demo_batch = Some 10) as H by (vm_compute; reflexivity).
  destruct demo_batch as [ag|] eqn:Hr; [|done]. exists ag. injection H as H. split; [reflexivity|]. split; [exact H|].
  exact (RunBatch_no_violation demo_rand demo_floats (fun _ => ()) demo_marshal demo_unmarshal demo_codec demo_rand_ok demo_gen demo_gen_ok noSchedules (fun _ => Err "no schedules")
    () (fun _ _ => true) 4000 20 8 demo_batch_config ag (fun _ _ => eq_refl) demo_batch_generated demo_batch_fits Hr).
Defined.

Lemma RunBatch_account_witness : exists ag, demo_batch = Some ag /\ ag_Passed ag + ag_Failed ag = 2 /\ 0 <= ag_Passed ag /\ 0 <= ag_Failed ag.
Proof.
  assert (ag_LogicalOperations <$> demo_batch = Some 10) as H by (vm_compute; reflexivity).
  destruct demo_batch as [ag|] eqn:Hr; [|done]. exists ag. split; [reflexivity|].
  exact (RunBatch_account (M := MapSM) demo_rand demo_floats (fun _ => ()) demo_marshal demo_gen noSchedules (fun _ => Err "no schedules") () (fun _ _ => true) 4000 20 8 demo_batch_config ag
    ltac:(done) Hr).
Defined.

(** A corpus of a scripted schedule, which is pinned, and two generated ones. *)
Definition demo_manifest : CorpusManifest :=
  mkCorpusManifest 1 5 [mkCorpusEntry "cut" 7 "scripted/cut.json"] (mkCorpusEntry "pinned" 9 "scripted/cut.json").
Definition demo_readFile (name : string) : result bytes :=
  if bool_decide (name = "manifest.json") then Ok [] else if String.prefix "generated/" name then Ok [Byte.x35] else Ok [Byte.x30].
Definition demo_unmarshalSchedule (data : bytes) : result FaultSchedule :=
  Ok (mkFaultSchedule (match data with [Byte.x35] => 5 | _ => 0 end) [] [] []).
Definition demo_names : list (string * bool) := [("seed-12.json", false); ("seed-3.json", false); ("old", true)].
Definition demo_corpus : result Corpus := LoadCorpus demo_readFile (fun _ => Ok demo_names) (fun _ => Ok demo_manifest) demo_unmarshalSchedule.

Lemma LoadCorpus_current_witness :
  exists corpus, demo_corpus = Ok corpus /\ ce_Seed <$> co_Generated corpus = [3; 12] /\
    Sorted (fun a b => ce_Seed a <= ce_Seed b) (co_Generated corpus).
Proof.
  assert (match demo_corpus with Ok c => ce_Seed <$> co_Generated c = [3; 12] | Err _ => False end) as H by (vm_compute; reflexivity).
  destruct demo_corpus as [corpus|] eqn:Hc; [|done]. exists corpus. split; [done|]. split; [done|].
  exact (proj1 (proj2 (proj2 (proj2 (LoadCorpus_current demo_readFile (fun _ => Ok demo_names) (fun _ => Ok demo_manifest) demo_unmarshalSchedule corpus demo_names eq_refl Hc))))).
Defined.
